(* ===== verification/_CoqProject ===== *)
-Q . S2P
Prelude.v
BaseMath.v
SafeInt.v
LinkedList.v
BitField.v
CheckSum.v
Depex.v
EventState.v
Event.v
EventInv.v
EventSafe.v
EventTimer.v
EventDispatch.v
EventServices.v
EventLife.v
EventOrder.v
EventTheorems.v
EventInit.v
RbTree.v
RbShape.v
RbInsert.v
RbWalk.v
RbValidate.v
RbDelete.v
RbTheorems.v
Hand.v
HandInv.v
HandRun.v
HandSafe.v
HandInstall.v
HandRemove.v
HandLocate.v
HandOpen.v
HandTheorems.v
Memory.v
MemSpec.v
MemCopy.v
MemTheorems.v
DevPath.v
DevPathSpec.v
DevPathValid.v
DevPathBuild.v
DevPathOps.v
DevPathTheorems.v
HandPath.v
HandPathTheorems.v
Dispatch.v
DispatchInv.v
DispatchInsert.v
DispatchLoop.v
DispatchScan.v
DispatchServices.v
DispatchTheorems.v
FvBlock.v
FvRead.v
FvSpec.v
FvBlockDevice.v
FvProduce.v
FvTheorems.v
DispatchFv.v
DispatchDiscover.v
DispatchFvTheorems.v
Gcd.v
GcdMap.v
GcdRange.v
GcdState.v
GcdConvert.v
GcdAlloc.v
GcdServices.v
GcdTheorems.v
GcdInit.v
GcdRegion.v
GcdWalk.v
GcdOwners.v
GcdInitTheorems.v
Base64.v
SafeString.v
SafeStringTheorems.v
