(* ===== verification/Prelude.v ===== *)
(** * A verification library for the EDK II core

    This library models parts of the EDK II firmware tree (src/) and proves
    them correct.  The modelled parts are the pieces the rest of the firmware
    stands on: the integer, list and string services of MdePkg's BaseLib and
    BaseSafeIntLib, its memory, device path and ordered collection libraries,
    and the event services, the protocol database, the driver dispatcher, the
    firmware volume block devices and the global coherency domain of the DXE
    core in MdeModulePkg.

    ** How the parts interact

    BaseLib's LIST_ENTRY lists carry every queue of the DXE core.  A firmware
    volume in memory is a block device, whose blocks are read through the
    firmware volume block protocol; when a volume appears, the dispatcher reads
    its header and its name, adds the drivers in it to the list of discovered
    drivers and those of its a priori file to the queue of scheduled ones.  The
    dispatcher starts the drivers on the queue, and decides with a dependency
    expression whether a driver that waits may run;
    the expression asks the protocol database, which keeps the interfaces of
    all protocols on their handles, tells registered events of new ones and
    answers searches.  The interface of one protocol, the device path, is a
    sequence of nodes in memory: the database compares such paths, with the
    device path library and BaseMemoryLib, to find the handle that is closest
    to a path.  The global coherency domain keeps a map of all addresses, of
    memory and of I/O, with what is there and who owns it; the page allocator
    gets its memory from there.  Drivers use the event services: an event has a
    notification function and a task priority level (TPL); signalling queues
    the notification at its level, lowering the TPL dispatches what is queued
    above the new level; a timer list, checked by a notification of its own,
    signals events at their time.  The event services
    find the highest pending level with BaseLib's HighBitSet64 and compare and
    add 64-bit times.

    ** Files

    - [Prelude]: status codes, outcomes of runs, the state monad with its
      weakest preconditions, machine integers with their wrap-around, bit
      tactics, byte slices.
    - [BaseMath]: MdePkg/Library/BaseLib/Math64.c and the one-function files
      (shifts, rotates, multiplication, division, byte swaps, bit scans).
    - [SafeInt]: MdePkg/Library/BaseSafeIntLib (SafeIntLib.c, SafeIntLib32.c,
      SafeIntLib64.c), every function, for 32- and 64-bit words.
    - [LinkedList]: MdePkg/Library/BaseLib/LinkedList.c on a heap of
      LIST_ENTRY cells, with the debug checks and the PCDs that bound them.
    - [BitField]: MdePkg/Library/BaseLib/BitField.c.
    - [CheckSum]: MdePkg/Library/BaseLib/CheckSum.c: sums, checksums, CRC-32.
    - [Depex]: MdeModulePkg/Core/Dxe/Dispatcher/Dependency.c, the evaluator of
      dependency expressions with its growing stack and in-place patching.
    - [EventState], [Event]: MdeModulePkg/Core/Dxe/Event (Tpl.c, Event.c,
      Timer.c) and the locks of Library/Library.c: the data and every
      operation.
    - [EventInv], [EventSafe], [EventTimer], [EventDispatch],
      [EventServices], [EventLife], [EventOrder]: the invariant of the event
      services, that each operation preserves it, and the order of dispatch;
      [EventTheorems]: the resulting properties; [EventInit]: initialisation.
    - [RbTree]: MdePkg/Library/BaseOrderedCollectionRedBlackTreeLib, every
      function on a heap of nodes.  [RbShape]: trees and contexts (zippers) in
      memory, rotations; [RbInsert], [RbDelete]: the two writers;
      [RbWalk]: search and iteration; [RbValidate]: the validator;
      [RbTheorems]: the contract of the collection.
    - [Hand]: MdeModulePkg/Core/Dxe/Hand (Handle.c, Notify.c, Locate.c): the
      handle and protocol database, on heaps of handles, protocol entries,
      interfaces and notification records.  [HandInv]: its invariant and the
      elementary changes; [HandRun]: searches, the queues of registrations and
      the contract [HAND_LAWS] of the code that runs without the lock;
      [HandSafe], [HandInstall], [HandRemove], [HandOpen], [HandLocate]:
      the services; [HandTheorems]: histories of calls, the
      properties, and the evaluation of dependency expressions over the
      database.
    - [Memory]: MdePkg/Library/BaseMemoryLib, and the unaligned accessors of
      BaseLib, on a memory of bytes.  [MemSpec]: words as bytes, buffers that
      hold a list of bytes; [MemCopy]: the loops; [MemTheorems]:
      the properties.
    - [DevPath]: MdePkg/Library/UefiDevicePathLib/DevicePathUtilities.c, with
      the pool functions of UefiMemoryAllocationLib and StrLen, on a memory
      with a pool.  [DevPathSpec]: paths as lists of nodes and their bytes;
      [DevPathValid]: validation; [DevPathBuild], [DevPathOps]: the functions
      that allocate, against the contract [POOL_LAWS] of the pool;
      [DevPathTheorems]: the properties.
    - [HandPath]: the rest of Hand/Handle.c and Hand/Locate.c, the services
      that read device paths or take several protocols: CoreLocateDevicePath
      and CoreInstall/UninstallMultipleProtocolInterfaces.  [HandPathTheorems]:
      the search for the longest match and its property.
    - [Dispatch]: MdeModulePkg/Core/Dxe/Dispatcher/Dispatcher.c, the driver
      entries, the discovered list, the scheduled queue, CoreSchedule,
      CoreTrust, CoreAddToDriverList and CoreDispatcher.  [DispatchInv]: the
      states of a driver, the invariant, and the contract [DISP_LAWS] of the
      code that runs between the steps; [DispatchInsert]:
      insertion with Before and After; [DispatchLoop]: the loops; [DispatchScan]: walks over a list that grows;
      [DispatchServices]: the services; [DispatchTheorems]: the properties.
    - [FvBlock]: MdeModulePkg/Core/Dxe/FwVolBlock/FwVolBlock.c, every function,
      on a memory of bytes with a table of devices.  [FvRead]: ReadFvbData and
      GetFwVolHeader of FwVol/FwVol.c, VerifyFvHeaderChecksum of FwVol/Ffs.c
      and the walk over the block map in FvIsBeingProcessed, against a class
      [FVB] of block protocols.  [FvSpec]: a volume as a list of blocks, the
      contract of the block protocol and what ReadFvbData delivers from it;
      [FvBlockDevice]: the devices of [FvBlock] meet the contract;
      [FvProduce]: producing a device, reading a header;
      [FvTheorems]: the properties.
    - [DispatchFv]: the discovery of drivers in a new volume,
      CoreFwVolEventProtocolNotify of Dispatcher.c.  [DispatchDiscover]: its
      steps are steps that the dispatcher allows; [DispatchFvTheorems]: the
      property.
    - [Gcd]: MdeModulePkg/Core/Dxe/Gcd/Gcd.c, the two maps with every service
      on them, on a heap of entries.  [GcdMap]: maps as lists of entries that
      follow each other, the elementary changes of the heap; [GcdRange]:
      searching, splitting, changing and merging a range; [GcdState]: the
      invariant of the maps; [GcdConvert], [GcdAlloc]: CoreConvertSpace and
      CoreAllocateSpace; [GcdServices]: the services;
      [GcdTheorems]: the properties.  [GcdInit]: the initialisation in Gcd.c
      from the list of hand-off blocks; [GcdRegion]: the first memory;
      [GcdWalk], [GcdOwners]: the resources that are placed and the memory
      that is allocated; [GcdInitTheorems]: the properties.
    - [Base64]: Base64Encode, Base64Decode and the BCD conversions of
      MdePkg/Library/BaseLib/String.c, with RFC 4648 on lists as reference.
    - [SafeString]: MdePkg/Library/BaseLib/SafeString.c, lengths, copying,
      appending, conversion, numbers and bytes in hexadecimal, one definition
      for the two kinds of strings; [SafeStringTheorems]: the properties.

    ** State and operations

    Code without state is a function of its arguments at their width.  Code
    with state is in the monad [M]: a function from a state record (the
    globals, or the heap) to an outcome.  [Ok] is a return, [AssertFail] a
    failed ASSERT in a build that has them, [Fault] an access the C code must
    not make (a dead pointer, a byte past the end, a shift by the full width),
    [OutOfFuel] a loop that was cut off.  Definitions have the names of the C
    functions; parts of a function that need their own recursion have a name
    of their own ([depex_loop], [restore_loop], [check_timers_loop]).
    Library code outside the modelled files is a parameter: the allocator, the
    notification functions, the CPU and SMM protocols, and for the protocol
    database the connection of drivers (the class [HAND_ENV], with the laws
    [HAND_LAWS]); for device paths the pool service and the interface lookup
    (the class [DP_ENV], with the laws [POOL_LAWS]); for the dispatcher
    the image services, the sections of files, the protocol database and the
    code that runs when the TPL is restored (the classes [DISP_ENV] and
    [FV_ENV], with the laws [DISP_LAWS] and [FV_LAWS]); for block devices the
    pool and the installation of protocols (the class [FVB_ENV]); for the
    global coherency domain the pool, the CPU protocol and two functions of
    the page allocator (the class [GCD_ENV], with the laws [GCD_LAWS] and
    [MAP_LAWS]).  Dependency expressions take the answer of the protocol
    database as a parameter, which [HandTheorems] instantiates.

    ** What the theorems show

    - BaseMath, SafeInt: each routine computes its mathematical function for
      all inputs, or reports the error its documentation names.
    - BitField: reading back what was written; writes leave the other bits
      alone; the word-parallel count of ones is the number of ones.  CheckSum:
      the sums are sums modulo the width and the calculated checksum makes a
      buffer sum to zero; the table-driven CRC is the bit-by-bit CRC and
      detects every one-byte error.
    - LinkedList: the pointer operations implement operations on sequences and
      touch only the links involved; the debug checks accept every list that
      is well formed and short enough.
    - Depex: the evaluator computes the value of the expression whose postfix
      code it is given, patches only located PUSHes, is fail-safe against
      allocation failure, and terminates on arbitrary bytes.
    - Events: every service keeps the invariant of queues, timers and events,
      never fails an ASSERT, and returns at the caller's TPL with nothing
      pending above it, for all notification functions that keep the same
      contract; dispatch is by priority and first in first out, for
      notifications that call no event service themselves; the timer
      check terminates and signals exactly the due timers unless 64-bit time
      wraps; signalling, where nothing is dispatched, counts exactly its event
      and queues exactly it or the members of its group; events are created and closed as documented; initialisation
      establishes the invariant.
    - Red-black tree: a collection is its sorted sequence of nodes; insertion
      and deletion implement those of the sequence, keep the red-black
      properties and the nodes of other trees; search takes a logarithmic
      number of turns; the validator accepts exactly the valid trees.
    - Protocol database: every history of calls keeps the links between
      handles, protocols and registrations consistent, whatever the allocator
      and the drivers do within their contract; a registration is a queue of
      interfaces to which installation appends, from which uninstallation
      removes and searches take the head; installation, removal, opening and
      searching do exactly what they report, and every status has its cause
      (with no driver to disconnect, removal is refused exactly if an open
      holds the interface); exclusive access leaves at most
      one owner; a dependency expression is true exactly as the installed
      protocols make it; CoreLocateDevicePath returns the handle with the
      longest path that the given path starts with.
    - Memory: copying is memmove, for overlapping buffers and whichever
      word-sized loop runs; filling, comparing and scanning are the functions
      on lists of bytes; nothing outside the buffers changes.
    - Device paths: the validator accepts exactly the bytes of well-formed
      paths within the bound, which it does not read past, and terminates on
      every memory; the building functions are those of lists of nodes, and
      use the pool without a leak; instances are split off as they were
      joined.
    - Dispatcher: a driver is in one of a few states, which the services change
      as documented; the insertion on the scheduled queue puts Before drivers
      in front and After drivers behind, and returns; CoreDispatcher returns,
      and then every driver that still waits has an unmet dependency, whatever
      the drivers it starts do within their contract; the discovery of a
      volume adds every driver of it once, schedules the a priori drivers in
      order and no others, and leaves the drivers that were there.
    - Firmware volumes: a device that ProduceFVBProtocolOnBuffer installs holds
      the blocks of the volume; reads across blocks deliver the bytes of the
      volume, if the blocks do not get smaller; the header and the name of a
      volume are read, or the documented error is returned.
    - Global coherency domain: a map is determined by what it says of every
      address.  The services change it at the addresses of their range and
      nowhere else, as documented, and an error changes nothing; the search
      upwards finds the lowest range that is free and aligned, the search
      downwards the highest in the entries it does not pass over; added memory
      goes to the page allocator; every history of calls keeps the maps free
      of gaps, overlaps and mergeable neighbours and returns, if the ranges do
      not wrap around 2^64; initialisation declares the largest free memory of
      its region, and leaves maps that say of every address what the list of
      hand-off blocks says, with all whole pages of system memory allocated.
    - Base64: the decoder accepts exactly what RFC 4648 allows, up to
      whitespace, and stores nothing outside of its buffer; what the encoder
      writes is read back, and a text that is accepted is the one the encoder
      writes.
    - Strings: copying and appending return the documented status for all
      arguments, store the promised string on success and nothing on an error;
      numbers are read exactly or reported as too large, for strings with a
      digit after the padding.

    ** Fuel

    Loops whose bound is not structural have fuel.  The 32 and 64 turns of
    the bit scans, one turn per byte of a dependency expression, the PCD limit
    of the list walks are built into the definitions, and the theorems show
    that they suffice; so are the turns of the red-black tree's loops, one per
    node and one more, and of the searches for handles, one per handle and
    interface and one more, and of the loops over the nodes of a device path,
    one per byte of memory and one more ([turns]), which the loops over
    the characters of a number have too.  The loops over a string of known
    length have its length.  The dispatch loops and the timer loop take fuel
    as an argument: with notification functions that signal for ever, the C code
    does not return either.  The safety theorems hold for every fuel; the
    termination theorems say how much is enough (two turns per timer, the
    longest queue plus one per level), and the nesting of dispatches is
    bounded by the number of levels.  The loops that disconnect drivers and
    unregister events run other code at each turn: they have fuel in
    [HAND_ENV], safety holds for every fuel, and the functional theorems are
    for calls with no driver to disconnect.  The loops of the dispatcher and of
    discovery have fuel in [DISP_ENV]: with at most N drivers, 2N + 2 turns are
    enough, and the nesting of insertions is at most N.  The loops over a block
    map take one turn per byte of the memory or of the header, and ReadFvbData
    one turn per byte left to read.  The loops over a map take one turn per
    entry and one more, the search for a free range two per entry and one more,
    and the loop of CoreGetMemorySpaceMap has fuel in [GCD_ENV]: two turns and
    one for every change that the pool makes are enough.

    ** What is not modelled

    Of the protocol database: the driver model of DriverSupport.c; signatures
    (CR) and the addresses of the open-protocol records; the lock's TPL, of
    which only the owner bit is kept; changes of the memory that holds device
    paths while CoreLocateDevicePath reads it.  Of device paths: the
    conversion to and from text.  Of the dispatcher: CoreProcessFvImageFile and
    GetFvUsedSize (the first is a parameter of discovery), the device path of
    a file, and the display of drivers that were not dispatched.  Of firmware
    volumes: the file system of FwVol and the extraction of sections.  Of the
    memory library: the variants in assembly.  Of the global coherency domain:
    the dumps of the maps; the bytes of the hand-off blocks, which are a list
    of records; the pool cannot call back into the services while a map is
    locked, as the lock demands.  Of the string library: the parsers for IP
    addresses and GUIDs, and the functions of String.c that do not know the
    size of their buffers.

    Asynchronous interrupts in the middle of a service (a tick is a step of
    its own; the services that a tick could disturb run with interrupts off);
    the lock that the pool allocator takes while an event is allocated or
    freed; the ReportStatusCode and DEBUG output; the link fields of the
    event structures as pointers (they are lists of handles; LinkedList shows
    that the pointer code implements lists).  The other components of the
    tree are listed with the reasons in the manifest.

    ** Plan

    Done: the files above.  Next, in this order: CoreProcessFvImageFile and
    GetFvUsedSize; DriverSupport.c; the file system of FwVol; the pool and page
    allocators; the parsers for IP addresses and GUIDs. *)

From stdpp Require Import base option list gmap fin_maps.
From Stdlib Require Import ZArith Lia.

Local Open Scope Z_scope.

(** Closed decidable facts, by evaluation. *)
Ltac by_decide := apply (bool_decide_unpack _); vm_compute; exact I.

(** * Status codes

    [EFI_STATUS] and [RETURN_STATUS] are the same UINTN code
    (MdePkg/Include/Base.h).  The codes the modelled functions return are
    the constructors; [EFI_ERROR] is the test of the top bit, which every
    code but [EFI_SUCCESS] has set. *)
Inductive EFI_STATUS : Type :=
| EFI_SUCCESS
| EFI_INVALID_PARAMETER
| EFI_UNSUPPORTED
| EFI_BUFFER_TOO_SMALL
| EFI_NOT_READY
| EFI_OUT_OF_RESOURCES
| EFI_NOT_FOUND
| EFI_ACCESS_DENIED
| EFI_ALREADY_STARTED
| EFI_SECURITY_VIOLATION
| EFI_PROTOCOL_ERROR
| EFI_BAD_BUFFER_SIZE
| EFI_VOLUME_CORRUPTED
| EFI_NOT_AVAILABLE_YET.

#[global] Instance EFI_STATUS_eq_dec : EqDecision EFI_STATUS.
Proof. solve_decision. Defined.

Definition EFI_ERROR (s : EFI_STATUS) : bool :=
  match s with EFI_SUCCESS => false | _ => true end.

(** * Outcomes of stateful code

    A C function either returns, or stops in a failed ASSERT (a debug
    build calls CpuDeadLoop or CpuBreakpoint), or touches memory it does not
    own.  [OutOfFuel] is the model's own outcome for a loop that was given
    too little fuel; the theorems show that it does not occur. *)
Inductive outcome (A : Type) : Type :=
| Ok (a : A)
| AssertFail
| Fault
| OutOfFuel.
Arguments Ok {A} a.
Arguments AssertFail {A}.
Arguments Fault {A}.
Arguments OutOfFuel {A}.

(** State-passing computations with outcomes. *)
Definition M (S A : Type) : Type := S -> outcome (A * S).

Definition Mret {S A} (a : A) : M S A := fun s => Ok (a, s).
Definition Mbind {S A B} (c : M S A) (k : A -> M S B) : M S B :=
  fun s => match c s with
           | Ok (a, s') => k a s'
           | AssertFail => AssertFail
           | Fault => Fault
           | OutOfFuel => OutOfFuel
           end.
Definition Mget {S} : M S S := fun s => Ok (s, s).
Definition Mput {S} (s : S) : M S unit := fun _ => Ok (tt, s).
Definition Mmodify {S} (f : S -> S) : M S unit := fun s => Ok (tt, f s).
Definition Mfail {S A} (o : outcome (A * S)) : M S A := fun _ => o.

Declare Scope edk_scope.
Delimit Scope edk_scope with edk.
Notation "'let!' x := c 'in' k" := (Mbind c (fun x => k))
  (at level 10, x name, c at level 100, k at level 200,
   format "'[v' 'let!'  x  :=  c  'in' '/' k ']'") : edk_scope.
Notation "c ';;;' k" := (Mbind c (fun _ => k))
  (at level 100, k at level 200, right associativity,
   format "'[v' c ';;;' '/' k ']'") : edk_scope.

Lemma Mbind_Ok {S A B} (c : M S A) (k : A -> M S B) s a s' :
  c s = Ok (a, s') -> Mbind c k s = k a s'.
Proof. intros H. unfold Mbind. now rewrite H. Qed.

Lemma Mbind_Ok_inv {S A B} (c : M S A) (k : A -> M S B) s r :
  Mbind c k s = Ok r -> exists a s', c s = Ok (a, s') /\ k a s' = Ok r.
Proof. unfold Mbind. destruct (c s) as [[a s']| | |]; naive_solver. Qed.

(** [run_step H] rewrites one monadic step with the known outcome [H]. *)
Ltac run_step H := rewrite (Mbind_Ok _ _ _ _ _ H); cbn beta.

(** Take a successful run apart into its steps. *)
Ltac inv_run :=
  repeat match goal with
    | H : Mbind _ _ _ = Ok _ |- _ =>
        let a := fresh "a" in let s := fresh "s" in
        let E := fresh "E" in let K := fresh "K" in
        apply Mbind_Ok_inv in H; destruct H as (a & s & E & K)
    end.

(** ** Weakest preconditions

    [wp tot c Q s]: the run of [c] from [s] does not fail an ASSERT and does
    not fault, and if it returns, [Q] holds of the result and the final
    state.  With [tot = true] it does return. *)
Definition wp {S A} (tot : bool) (c : M S A) (Q : A -> S -> Prop) (s : S) : Prop :=
  match c s with
  | Ok (a, s') => Q a s'
  | OutOfFuel => tot = false
  | _ => False
  end.

Section Wp.
Context {S A B : Type} (tot : bool).

Lemma wp_ret (a : A) (Q : A -> S -> Prop) s : Q a s -> wp tot (Mret a) Q s.
Proof. done. Qed.

Lemma wp_bind (c : M S A) (k : A -> M S B) Q s :
  wp tot c (fun a s' => wp tot (k a) Q s') s -> wp tot (Mbind c k) Q s.
Proof. unfold wp, Mbind. by destruct (c s) as [[a s']| | |]. Qed.

Lemma wp_mono (c : M S A) (P Q : A -> S -> Prop) s :
  wp tot c P s -> (forall a s', P a s' -> Q a s') -> wp tot c Q s.
Proof. unfold wp. destruct (c s) as [[a s']| | |]; auto. Qed.

Lemma wp_eq (c : M S A) (Q : A -> S -> Prop) s a s' :
  c s = Ok (a, s') -> Q a s' -> wp tot c Q s.
Proof. unfold wp. by intros ->. Qed.

(** Use a specification for the first step of a sequence. *)
Lemma wp_seq (c : M S A) (k : A -> M S B) P Q s :
  wp tot c P s -> (forall a s', P a s' -> wp tot (k a) Q s') -> wp tot (Mbind c k) Q s.
Proof. intros H1 H2. apply wp_bind. unfold wp in H1 |- *. destruct (c s) as [[a s']| | |]; try done. by apply H2. Qed.

(** The first step of a sequence, when its outcome is known. *)
Lemma wp_step (c : M S A) (k : A -> M S B) Q s a s' :
  c s = Ok (a, s') -> wp tot (k a) Q s' -> wp tot (Mbind c k) Q s.
Proof. intros E H. apply wp_bind. unfold wp at 1. by rewrite E. Qed.
End Wp.

Lemma wp_get {S B} tot (k : S -> M S B) Q s : wp tot (k s) Q s -> wp tot (Mbind Mget k) Q s.
Proof. by apply wp_step. Qed.
Lemma wp_modify {S B} tot f (k : unit -> M S B) Q s : wp tot (k tt) Q (f s) -> wp tot (Mbind (Mmodify f) k) Q s.
Proof. by apply wp_step. Qed.

(** What holds if the run returns; for facts that do not depend on whether it
    does. *)
Definition post {S A} (c : M S A) (Q : A -> S -> Prop) (s : S) : Prop :=
  match c s with Ok (a, s') => Q a s' | _ => True end.
Lemma post_bind {S A B} (c : M S A) (k : A -> M S B) Q s :
  post c (fun a s' => post (k a) Q s') s -> post (Mbind c k) Q s.
Proof. unfold post, Mbind. by destruct (c s) as [[a s']| | |]. Qed.
Lemma wp_post {S A} tot (c : M S A) Q R s : wp tot c Q s -> post c R s -> wp tot c (fun a s' => Q a s' /\ R a s') s.
Proof. unfold wp, post. by destruct (c s) as [[a s']| | |]. Qed.

(** The run itself. *)
Lemma wp_run {S A} tot (c : M S A) Q s : wp tot c Q s -> wp tot c (fun a s' => c s = Ok (a, s') /\ Q a s') s.
Proof. unfold wp. by destruct (c s) as [[a s']| | |]. Qed.

(** Two facts about one run. *)
Lemma wp_and {S A} tot (c : M S A) (P Q : A -> S -> Prop) s :
  wp tot c P s -> wp tot c Q s -> wp tot c (fun a s' => P a s' /\ Q a s') s.
Proof. unfold wp. by destruct (c s) as [[a s']| | |]. Qed.

Lemma wp_total {S A} (c : M S A) Q s : wp true c Q s -> exists a s', c s = Ok (a, s') /\ Q a s'.
Proof. unfold wp. destruct (c s) as [[a s']| | |]; naive_solver. Qed.

(** * Machine integers

    A w-bit value is a [Z]; a C conversion to an unsigned type reduces
    modulo 2^w, a conversion to a signed one picks the representative in
    [-2^(w-1), 2^(w-1)) (the behaviour of every compiler the tree
    supports). *)
Definition wrapU (w x : Z) : Z := x mod 2 ^ w.
Definition wrapS (w x : Z) : Z := (x + 2 ^ (w - 1)) mod 2 ^ w - 2 ^ (w - 1).

Definition inU (w x : Z) : Prop := 0 <= x < 2 ^ w.
Definition inS (w x : Z) : Prop := - 2 ^ (w - 1) <= x < 2 ^ (w - 1).

Lemma wrapU_range w x : 0 <= w -> inU w (wrapU w x).
Proof. intros. apply Z.mod_pos_bound, Z.pow_pos_nonneg; lia. Qed.

Lemma wrapU_id w x : inU w x -> wrapU w x = x.
Proof. apply Z.mod_small. Qed.

Lemma pow2_half w : 0 < w -> 2 ^ w = 2 * 2 ^ (w - 1).
Proof. intros. rewrite <- Z.pow_succ_r by lia. f_equal; lia. Qed.

Lemma wrapS_range w x : 0 < w -> inS w (wrapS w x).
Proof.
  intros. unfold inS, wrapS. pose proof (pow2_half w ltac:(lia)).
  pose proof (Z.pow_pos_nonneg 2 (w - 1) ltac:(lia) ltac:(lia)).
  pose proof (Z.mod_pos_bound (x + 2 ^ (w - 1)) (2 ^ w) ltac:(lia)). lia.
Qed.

Lemma wrapS_id w x : 0 < w -> inS w x -> wrapS w x = x.
Proof.
  intros Hw H. unfold inS, wrapS in *. pose proof (pow2_half w Hw).
  rewrite Z.mod_small; lia.
Qed.

Lemma wrapU_add_wrap w x y :
  0 <= w -> inU w x -> inU w y ->
  wrapU w (x + y) = if decide (x + y < 2 ^ w) then x + y else x + y - 2 ^ w.
Proof.
  unfold inU, wrapU. intros Hw Hx Hy. case_decide.
  - apply Z.mod_small; lia.
  - symmetry. apply Z.mod_unique with 1; lia.
Qed.

Lemma wrapU_sub_wrap w x y :
  0 <= w -> inU w x -> inU w y ->
  wrapU w (x - y) = if decide (y <= x) then x - y else x - y + 2 ^ w.
Proof.
  unfold inU, wrapU. intros Hw Hx Hy. case_decide.
  - apply Z.mod_small; lia.
  - symmetry. apply Z.mod_unique with (-1); lia.
Qed.

Create HintDb edk discriminated.
#[export] Hint Resolve wrapU_range wrapS_range : edk.

(** ** Bits

    [testbit] equations of the reductions, and the tactic [bits_eq] that
    proves two integers equal bit by bit. *)
Lemma testbit_wrapU w x i :
  0 <= w -> Z.testbit (wrapU w x) i = (i <? w) && Z.testbit x i.
Proof.
  intros. unfold wrapU. destruct (Z.ltb_spec i w).
  - now rewrite Z.mod_pow2_bits_low by lia.
  - now rewrite Z.mod_pow2_bits_high by lia.
Qed.

Lemma testbit_inU_high w x i : 0 <= w -> inU w x -> w <= i -> Z.testbit x i = false.
Proof.
  intros Hw Hx Hi. rewrite <- (wrapU_id w x Hx), testbit_wrapU by lia.
  destruct (Z.ltb_spec i w); [lia|done].
Qed.

Lemma testbit_m1 i : 0 <= i -> Z.testbit (-1) i = true.
Proof. apply Z.bits_m1. Qed.

Lemma inU_of_bits w x :
  0 <= w -> 0 <= x -> (forall i, w <= i -> Z.testbit x i = false) -> inU w x.
Proof.
  intros Hw Hx H. replace x with (wrapU w x); [now apply wrapU_range|].
  apply Z.bits_inj'. intros i Hi. rewrite testbit_wrapU by lia.
  destruct (Z.ltb_spec i w); [done|]. now rewrite H.
Qed.

Create Rewrite HintDb bits.
#[export] Hint Rewrite Z.land_spec Z.lor_spec Z.lxor_spec Z.bits_0 : bits.
#[export] Hint Rewrite Z.lnot_spec Z.shiftl_spec Z.shiftr_spec testbit_wrapU
  testbit_m1 using lia : bits.
#[export] Hint Rewrite andb_true_l andb_true_r andb_false_l andb_false_r
  orb_true_l orb_true_r orb_false_l orb_false_r negb_involutive : bits.

(** Split on every comparison in the goal, rewrite bits out of range away. *)
Ltac bits_split :=
  repeat (autorewrite with bits;
    match goal with
    | |- context [?a <? ?b] => destruct (Z.ltb_spec a b); try lia
    | |- context [Z.testbit _ ?i] =>
        rewrite (Z.testbit_neg_r _ i) by lia
    | Hx : inU ?w ?x |- context [Z.testbit ?x ?i] =>
        rewrite (testbit_inU_high w x i) by (assumption || lia)
    end);
  autorewrite with bits.
Ltac bits_done :=
  try reflexivity;
  try (repeat match goal with |- context [Z.testbit ?x ?i] => destruct (Z.testbit x i) end;
       reflexivity);
  try (f_equal; lia).
Ltac bits_eq :=
  apply Z.bits_inj'; intros ?i ?Hi; bits_split; bits_done.

(** * Lists *)

Lemma filter_same {A} (P Q : A -> Prop) `{!forall x, Decision (P x), !forall x, Decision (Q x)} (l : list A) :
  (forall x, x ∈ l -> P x <-> Q x) -> filter P l = filter Q l.
Proof.
  induction l as [|x l IH]; intros HPQ; [done|]. rewrite !filter_cons, IH by (intros; apply HPQ; by right).
  pose proof (HPQ x ltac:(left)). repeat case_decide; tauto.
Qed.

Lemma filter_all {A} (P : A -> Prop) `{!forall x, Decision (P x)} (l : list A) :
  (forall x, x ∈ l -> P x) -> filter P l = l.
Proof.
  induction l as [|x l IH]; intros HP; [done|]. rewrite filter_cons_True by (apply HP; left).
  by rewrite IH by (intros; apply HP; by right).
Qed.

Lemma filter_notin (p : Z) (l : list Z) : p ∉ l -> filter (fun q => q <> p) l = l.
Proof. intros H. apply filter_all. by intros x Hx ->. Qed.

(** * Byte lists *)

(** Read [n] bytes at offset [off]; [None] when the range is not inside. *)
Definition slice {A} (off n : nat) (l : list A) : option (list A) :=
  if decide (off + n <= length l)%nat then Some (take n (drop off l)) else None.

Lemma slice_app {A} (p l q : list A) :
  slice (length p) (length l) (p ++ l ++ q) = Some l.
Proof.
  unfold slice. rewrite !length_app. case_decide; [|lia].
  rewrite drop_app_length, take_app_length. done.
Qed.
