(* ===== verification/BaseMath.v ===== *)
(** * BaseMath: the integer helpers of BaseLib

    MdePkg/Library/BaseLib/Math64.c with the one-function files around it
    (LShiftU64.c, RRotU32.c, HighBitSet64.c, GetPowerOfTwo32.c,
    SwapBytes32.c, DivS64x64Remainder.c, ...).

    A C shift by the width of its operand or more is undefined; [c_shl] and
    [c_shr] make that a [Fault].  An ASSERT that fails is [AssertFail].
    Widths are kept: every C operation is followed by the reduction its
    result type imposes.  [W] is the width of UINTN. *)

From stdpp Require Import base option list.
From Stdlib Require Import ZArith Lia Bool.
From S2P Require Import Prelude.

Local Open Scope Z_scope.

(** ** Pure steps that can fail *)

Definition obind {A B} (c : outcome A) (k : A -> outcome B) : outcome B :=
  match c with
  | Ok a => k a
  | AssertFail => AssertFail
  | Fault => Fault
  | OutOfFuel => OutOfFuel
  end.

Definition ASSERT {A} (b : bool) (k : outcome A) : outcome A :=
  if b then k else AssertFail.

Notation "'do' x <- c ; k" := (obind c (fun x => k))
  (at level 10, x name, c at level 100, k at level 200) : edk_scope.
Local Open Scope edk_scope.

(** ** C shifts at width [w] *)

Definition c_shl (w x n : Z) : outcome Z :=
  if n <? w then Ok (wrapU w (Z.shiftl x n)) else Fault.
Definition c_shr (w x n : Z) : outcome Z :=
  if n <? w then Ok (Z.shiftr x n) else Fault.

(** Bitwise complement at width [w]. *)
Definition c_not (w x : Z) : Z := wrapU w (Z.lnot x).

(** ** Math64.c *)

Definition InternalMathLShiftU64 (Operand Count : Z) : outcome Z := c_shl 64 Operand Count.
Definition InternalMathRShiftU64 (Operand Count : Z) : outcome Z := c_shr 64 Operand Count.

(** The probe [(INT64)(1ULL << 63) >> 63] is -1 when the compiler shifts
    signed values arithmetically; [arith] says whether it does. *)
Definition InternalMathARShiftU64 (W : Z) (arith : bool) (Operand Count : Z) : outcome Z :=
  let TestValue := if arith then -1 else 1 in
  if TestValue =? -1 then
    if Count <? 64 then Ok (wrapU 64 (Z.shiftr (wrapS 64 Operand) Count)) else Fault
  else
    do lo <- c_shr 64 Operand Count ;
    if wrapS W Operand <? 0
    then do m <- c_shr W (wrapU W (-1)) Count ; Ok (Z.lor lo (c_not W m))
    else Ok (Z.lor lo 0).

Definition InternalMathLRotU64 (Operand Count : Z) : outcome Z :=
  do hi <- c_shl 64 Operand Count ;
  do lo <- c_shr 64 Operand (64 - Count) ;
  Ok (Z.lor hi lo).

Definition InternalMathRRotU64 (Operand Count : Z) : outcome Z :=
  do lo <- c_shr 64 Operand Count ;
  do hi <- c_shl 64 Operand (64 - Count) ;
  Ok (Z.lor lo hi).

Definition InternalMathMultU64x32 (Multiplicand Multiplier : Z) : Z :=
  wrapU 64 (Multiplicand * Multiplier).
Definition InternalMathMultU64x64 (Multiplicand Multiplier : Z) : Z :=
  wrapU 64 (Multiplicand * Multiplier).

(** A division by zero is undefined. *)
Definition InternalMathDivU64x32 (Dividend Divisor : Z) : outcome Z :=
  if Divisor =? 0 then Fault else Ok (Dividend / Divisor).
Definition InternalMathModU64x32 (Dividend Divisor : Z) : outcome Z :=
  if Divisor =? 0 then Fault else Ok (wrapU 32 (Dividend mod Divisor)).

(** The optional out parameter: [None] is a NULL pointer. *)
Definition InternalMathDivRemU64x32 (Dividend Divisor : Z) (Remainder : option Z)
  : outcome (Z * option Z) :=
  if Divisor =? 0 then Fault
  else Ok (Dividend / Divisor,
           match Remainder with
           | Some _ => Some (wrapU 32 (Dividend mod Divisor))
           | None => None
           end).

Definition InternalMathDivRemU64x64 (Dividend Divisor : Z) (Remainder : option Z)
  : outcome (Z * option Z) :=
  if Divisor =? 0 then Fault
  else Ok (Dividend / Divisor,
           match Remainder with
           | Some _ => Some (Dividend mod Divisor)
           | None => None
           end).

(** C's signed division truncates; MIN_INT64 / -1 overflows, which is
    undefined. *)
Definition InternalMathDivRemS64x64 (Dividend Divisor : Z) (Remainder : option Z)
  : outcome (Z * option Z) :=
  if (Divisor =? 0) || ((Dividend =? - 2 ^ 63) && (Divisor =? -1)) then Fault
  else Ok (Z.quot Dividend Divisor,
           match Remainder with
           | Some _ => Some (Z.rem Dividend Divisor)
           | None => None
           end).

(** ** The public wrappers *)

Definition LShiftU64 (Operand Count : Z) : outcome Z :=
  ASSERT (Count <? 64) (InternalMathLShiftU64 Operand Count).
Definition RShiftU64 (Operand Count : Z) : outcome Z :=
  ASSERT (Count <? 64) (InternalMathRShiftU64 Operand Count).
Definition ARShiftU64 (W : Z) (arith : bool) (Operand Count : Z) : outcome Z :=
  ASSERT (Count <? 64) (InternalMathARShiftU64 W arith Operand Count).
Definition LRotU64 (Operand Count : Z) : outcome Z :=
  ASSERT (Count <? 64) (InternalMathLRotU64 Operand Count).
Definition RRotU64 (Operand Count : Z) : outcome Z :=
  ASSERT (Count <? 64) (InternalMathRRotU64 Operand Count).

Definition LRotU32 (Operand Count : Z) : outcome Z :=
  ASSERT (Count <? 32)
    (do hi <- c_shl 32 Operand Count ;
     do lo <- c_shr 32 Operand (32 - Count) ;
     Ok (Z.lor hi lo)).
Definition RRotU32 (Operand Count : Z) : outcome Z :=
  ASSERT (Count <? 32)
    (do lo <- c_shr 32 Operand Count ;
     do hi <- c_shl 32 Operand (32 - Count) ;
     Ok (Z.lor lo hi)).

Definition MultU64x32 (Multiplicand Multiplier : Z) : Z :=
  InternalMathMultU64x32 Multiplicand Multiplier.
Definition MultU64x64 (Multiplicand Multiplier : Z) : Z :=
  InternalMathMultU64x64 Multiplicand Multiplier.
Definition MultS64x64 (Multiplicand Multiplier : Z) : Z :=
  wrapS 64 (MultU64x64 (wrapU 64 Multiplicand) (wrapU 64 Multiplier)).

Definition DivU64x32 (Dividend Divisor : Z) : outcome Z :=
  ASSERT (negb (Divisor =? 0)) (InternalMathDivU64x32 Dividend Divisor).
Definition ModU64x32 (Dividend Divisor : Z) : outcome Z :=
  ASSERT (negb (Divisor =? 0)) (InternalMathModU64x32 Dividend Divisor).
Definition DivU64x32Remainder (Dividend Divisor : Z) (Remainder : option Z)
  : outcome (Z * option Z) :=
  ASSERT (negb (Divisor =? 0)) (InternalMathDivRemU64x32 Dividend Divisor Remainder).
Definition DivU64x64Remainder (Dividend Divisor : Z) (Remainder : option Z)
  : outcome (Z * option Z) :=
  ASSERT (negb (Divisor =? 0)) (InternalMathDivRemU64x64 Dividend Divisor Remainder).
Definition DivS64x64Remainder (Dividend Divisor : Z) (Remainder : option Z)
  : outcome (Z * option Z) :=
  ASSERT (negb (Divisor =? 0)) (InternalMathDivRemS64x64 Dividend Divisor Remainder).

(** SwapBytes16 computes at int width, where nothing overflows, and casts. *)
Definition SwapBytes16 (Value : Z) : Z :=
  wrapU 16 (Z.lor (Z.shiftl Value 8) (Z.shiftr Value 8)).
Definition SwapBytes32 (Value : Z) : Z :=
  let LowerBytes := SwapBytes16 (wrapU 16 Value) in
  let HigherBytes := SwapBytes16 (wrapU 16 (Z.shiftr Value 16)) in
  Z.lor (wrapU 32 (Z.shiftl LowerBytes 16)) HigherBytes.
Definition InternalMathSwapBytes64 (Operand : Z) : Z :=
  let LowerBytes := SwapBytes32 (wrapU 32 Operand) in
  let HigherBytes := SwapBytes32 (wrapU 32 (Z.shiftr Operand 32)) in
  Z.lor (wrapU 64 (Z.shiftl LowerBytes 32)) HigherBytes.
Definition SwapBytes64 (Value : Z) : Z := InternalMathSwapBytes64 Value.

(** [for (BitIndex = 31; (INT32)Operand > 0; BitIndex--, Operand <<= 1);]
    32 rounds are enough: after 31 shifts a non-zero operand has its top bit
    set, and the loop stops there. *)
Fixpoint HighBitSet32_loop (fuel : nat) (BitIndex Operand : Z) : outcome Z :=
  match fuel with
  | O => OutOfFuel
  | S fuel' =>
      if 0 <? wrapS 32 Operand
      then HighBitSet32_loop fuel' (BitIndex - 1) (wrapU 32 (Z.shiftl Operand 1))
      else Ok BitIndex
  end.
Definition HighBitSet32 (Operand : Z) : outcome Z :=
  if Operand =? 0 then Ok (-1) else HighBitSet32_loop 32 31 Operand.

(** [((UINT32 * )&Operand)[1]] is the high half of a little-endian value. *)
Definition HighBitSet64 (W Operand : Z) : outcome Z :=
  if Operand =? wrapU 32 Operand
  then HighBitSet32 (wrapU 32 Operand)
  else if W / 8 =? 32 / 8
  then do b <- HighBitSet32 (Z.shiftr Operand 32) ; Ok (b + 32)
  else do h <- RShiftU64 Operand 32 ;
       do b <- HighBitSet32 (wrapU 32 h) ; Ok (b + 32).

Fixpoint LowBitSet32_loop (fuel : nat) (BitIndex Operand : Z) : outcome Z :=
  match fuel with
  | O => OutOfFuel
  | S fuel' =>
      if 0 =? Z.land Operand 1
      then LowBitSet32_loop fuel' (BitIndex + 1) (Z.shiftr Operand 1)
      else Ok BitIndex
  end.
Definition LowBitSet32 (Operand : Z) : outcome Z :=
  if Operand =? 0 then Ok (-1) else LowBitSet32_loop 32 0 Operand.

Fixpoint LowBitSet64_loop (fuel : nat) (BitIndex Operand : Z) : outcome Z :=
  match fuel with
  | O => OutOfFuel
  | S fuel' =>
      if Z.land Operand 1 =? 0
      then do o <- RShiftU64 Operand 1 ; LowBitSet64_loop fuel' (BitIndex + 1) o
      else Ok BitIndex
  end.
Definition LowBitSet64 (Operand : Z) : outcome Z :=
  if Operand =? 0 then Ok (-1) else LowBitSet64_loop 64 0 Operand.

(** [1ul << n] returned as UINT32. *)
Definition GetPowerOfTwo32 (Operand : Z) : outcome Z :=
  if 0 =? Operand then Ok 0
  else do b <- HighBitSet32 Operand ; c_shl 32 1 b.
Definition GetPowerOfTwo64 (W Operand : Z) : outcome Z :=
  if Operand =? 0 then Ok 0
  else do b <- HighBitSet64 W Operand ; LShiftU64 1 (wrapU W b).

(** ** Bit search *)

Lemma wrapS32_pos y : inU 32 y -> (0 <? wrapS 32 y) = ((0 <? y) && (y <? 2 ^ 31)).
Proof.
  intros H. unfold inU in H. destruct (Z.ltb_spec y (2 ^ 31)).
  - rewrite wrapS_id by (unfold inS; lia). now rewrite andb_true_r.
  - rewrite andb_false_r. apply Z.ltb_ge. unfold wrapS.
    rewrite <- (Z.mod_unique (y + 2 ^ (32 - 1)) (2 ^ 32) 1 (y - 2 ^ 31)) by lia. lia.
Qed.

Lemma HighBitSet32_loop_spec fuel B y :
  0 < y < 2 ^ 32 -> 31 - Z.log2 y < Z.of_nat fuel ->
  HighBitSet32_loop fuel B y = Ok (B - (31 - Z.log2 y)).
Proof.
  revert B y. induction fuel as [|fuel IH]; intros B y Hy Hf.
  - assert (Z.log2 y < 32) by (apply Z.log2_lt_pow2; lia). lia.
  - cbn [HighBitSet32_loop]. rewrite wrapS32_pos by (unfold inU; lia).
    destruct (Z.ltb_spec 0 y); [|lia]. destruct (Z.ltb_spec y (2 ^ 31)).
    + cbn [andb]. rewrite Z.shiftl_mul_pow2, wrapU_id by (unfold inU; lia).
      change (2 ^ 1) with 2. rewrite IH; rewrite ?(Z.mul_comm y 2), ?Z.log2_double by lia; try lia.
      f_equal; lia.
    + cbn [andb]. assert (Z.log2 y = 31) by (apply Z.log2_unique; lia). f_equal; lia.
Qed.

Lemma HighBitSet32_spec x : 0 < x < 2 ^ 32 -> HighBitSet32 x = Ok (Z.log2 x).
Proof.
  intros H. unfold HighBitSet32. destruct (Z.eqb_spec x 0); [lia|].
  pose proof (Z.log2_nonneg x). rewrite HighBitSet32_loop_spec; [f_equal; lia|lia|lia].
Qed.

Lemma log2_shiftr x n : 0 <= n -> 2 ^ n <= x -> Z.log2 (Z.shiftr x n) + n = Z.log2 x.
Proof.
  intros Hn Hx. pose proof (Z.pow_pos_nonneg 2 n ltac:(lia) Hn).
  rewrite Z.log2_shiftr by lia. assert (n <= Z.log2 x) by (apply Z.log2_le_pow2; lia). lia.
Qed.

Lemma HighBitSet64_spec W x : inU 64 x -> 0 < x -> HighBitSet64 W x = Ok (Z.log2 x).
Proof.
  unfold inU. intros Hx Hp. unfold HighBitSet64.
  destruct (Z.eqb_spec x (wrapU 32 x)) as [E|E].
  - pose proof (wrapU_range 32 x ltac:(lia)) as R. unfold inU in R.
    rewrite <- E. apply HighBitSet32_spec. lia.
  - assert (2 ^ 32 <= x).
    { destruct (Z.lt_ge_cases x (2 ^ 32)); [|lia]. now rewrite wrapU_id in E by (unfold inU; lia). }
    assert (Hs : 0 < Z.shiftr x 32 < 2 ^ 32).
    { rewrite Z.shiftr_div_pow2 by lia. split.
      - apply Z.div_str_pos; lia.
      - apply Z.div_lt_upper_bound; lia. }
    assert (Hl := log2_shiftr x 32 ltac:(lia) ltac:(lia)).
    destruct (W / 8 =? 32 / 8).
    + rewrite HighBitSet32_spec by lia. cbn [obind]. now rewrite Hl.
    + unfold RShiftU64, InternalMathRShiftU64, c_shr, ASSERT. cbn [Z.ltb Z.compare Pos.compare Pos.compare_cont obind].
      rewrite wrapU_id by (unfold inU; lia).
      rewrite HighBitSet32_spec by lia. cbn [obind]. now rewrite Hl.
Qed.

(** The low-bit loops find the least set bit, whatever the start index. *)
Definition lowest_bit (x i : Z) : Prop :=
  0 <= i /\ Z.testbit x i = true /\ forall j, 0 <= j < i -> Z.testbit x j = false.

Lemma land_1_testbit x : Z.land x 1 = Z.b2z (Z.testbit x 0).
Proof.
  change 1 with (Z.ones 1). rewrite Z.land_ones by lia. change (2 ^ 1) with 2.
  rewrite Zmod_odd, Z.bit0_odd. now destruct (Z.odd x).
Qed.

Lemma shiftr1_bounds fuel y :
  Z.testbit y 0 = false -> 0 < y < 2 ^ Z.of_nat (S fuel) ->
  0 < Z.shiftr y 1 < 2 ^ Z.of_nat fuel.
Proof.
  intros Hb Hy. rewrite Z.bit0_odd in Hb.
  rewrite Z.shiftr_div_pow2 by lia. change (2 ^ 1) with 2.
  rewrite Nat2Z.inj_succ, Z.pow_succ_r in Hy by lia.
  rewrite <- Z.negb_even, negb_false_iff, Z.even_spec in Hb. destruct Hb as [k ->].
  rewrite Z.mul_comm, Z.div_mul by lia. lia.
Qed.

Lemma lowest_bit_shift y i : Z.testbit y 0 = false -> lowest_bit (Z.shiftr y 1) i -> lowest_bit y (i + 1).
Proof.
  intros H0 (Hi & Ht & Hl). rewrite Z.shiftr_spec in Ht by lia. repeat split; [lia|done|].
  intros j Hj. destruct (Z.eq_dec j 0) as [->|]; [done|].
  specialize (Hl (j - 1) ltac:(lia)). rewrite Z.shiftr_spec in Hl by lia.
  now replace (j - 1 + 1) with j in Hl by lia.
Qed.

Lemma LowBitSet64_loop_spec fuel B y :
  0 < y < 2 ^ Z.of_nat fuel ->
  exists i, LowBitSet64_loop fuel B y = Ok (B + i) /\ lowest_bit y i.
Proof.
  revert B y. induction fuel as [|fuel IH]; intros B y Hy; [change (2 ^ Z.of_nat 0) with 1 in Hy; lia|].
  cbn [LowBitSet64_loop]. rewrite land_1_testbit. destruct (Z.testbit y 0) eqn:H0; cbn [Z.b2z Z.eqb].
  - exists 0. rewrite Z.add_0_r. split; [done|]. repeat split; [lia|done|lia].
  - destruct (IH (B + 1) (Z.shiftr y 1) (shiftr1_bounds _ _ H0 Hy)) as (i & E & L).
    exists (i + 1). split; [|now apply lowest_bit_shift]. cbn. rewrite E. f_equal; lia.
Qed.

Lemma LowBitSet32_loop_spec fuel B y :
  0 < y < 2 ^ Z.of_nat fuel ->
  exists i, LowBitSet32_loop fuel B y = Ok (B + i) /\ lowest_bit y i.
Proof.
  revert B y. induction fuel as [|fuel IH]; intros B y Hy; [change (2 ^ Z.of_nat 0) with 1 in Hy; lia|].
  cbn [LowBitSet32_loop]. rewrite land_1_testbit. destruct (Z.testbit y 0) eqn:H0; cbn [Z.b2z Z.eqb].
  - exists 0. rewrite Z.add_0_r. split; [done|]. repeat split; [lia|done|lia].
  - destruct (IH (B + 1) (Z.shiftr y 1) (shiftr1_bounds _ _ H0 Hy)) as (i & E & L).
    exists (i + 1). split; [|now apply lowest_bit_shift]. cbn. rewrite E. f_equal; lia.
Qed.

Lemma lowest_bit_unique x i j : lowest_bit x i -> lowest_bit x j -> i = j.
Proof.
  intros (Hi & Ti & Li) (Hj & Tj & Lj).
  destruct (Z.lt_trichotomy i j) as [H|[H|H]]; [|done|].
  - specialize (Lj i ltac:(lia)). congruence.
  - specialize (Li j ltac:(lia)). congruence.
Qed.

(** ** Rotations as bit permutations *)

Lemma rot_bits w x n i :
  0 < n < w -> inU w x -> 0 <= i ->
  Z.testbit (Z.lor (wrapU w (Z.shiftl x n)) (Z.shiftr x (w - n))) i
  = (i <? w) && Z.testbit x ((i - n) mod w).
Proof.
  intros Hn Hx Hi. autorewrite with bits.
  destruct (Z.ltb_spec i w).
  - destruct (Z.lt_ge_cases i n).
    + rewrite (Z.testbit_neg_r _ (i - n)) by lia. cbn [andb orb]. f_equal.
      apply Z.mod_unique with (-1); lia.
    + rewrite (testbit_inU_high w x (i + (w - n))), orb_false_r by (done || lia).
      cbn [andb]. f_equal. symmetry. apply Z.mod_small; lia.
  - rewrite (testbit_inU_high w x (i + (w - n))) by (done || lia). done.
Qed.

Lemma c_shl_Ok w x n : n < w -> c_shl w x n = Ok (wrapU w (Z.shiftl x n)).
Proof. intros. unfold c_shl. now destruct (Z.ltb_spec n w); [|lia]. Qed.

Lemma c_shr_Ok w x n : n < w -> c_shr w x n = Ok (Z.shiftr x n).
Proof. intros. unfold c_shr. now destruct (Z.ltb_spec n w); [|lia]. Qed.

Lemma RShiftU64_Ok x n : n < 64 -> RShiftU64 x n = Ok (Z.shiftr x n).
Proof.
  intros. unfold RShiftU64, ASSERT. destruct (Z.ltb_spec n 64); [|lia]. now apply c_shr_Ok.
Qed.

Lemma LShiftU64_Ok x n : n < 64 -> LShiftU64 x n = Ok (wrapU 64 (Z.shiftl x n)).
Proof.
  intros. unfold LShiftU64, ASSERT. destruct (Z.ltb_spec n 64); [|lia]. now apply c_shl_Ok.
Qed.

(** The left rotation at width [w] as a value. *)
Definition rotl (w x n : Z) : Z := Z.lor (wrapU w (Z.shiftl x n)) (Z.shiftr x (w - n)).

Lemma rotl_range w x n : 0 < n < w -> inU w x -> inU w (rotl w x n).
Proof.
  intros Hn Hx. unfold rotl. apply inU_of_bits; [lia| |].
  - apply Z.lor_nonneg. split; [apply (wrapU_range w); lia|].
    apply Z.shiftr_nonneg. apply Hx.
  - intros i Hi. rewrite rot_bits by (done || lia). now destruct (Z.ltb_spec i w); [lia|].
Qed.

Lemma rotl_inv w x n : 0 < n < w -> inU w x -> rotl w (rotl w x n) (w - n) = x.
Proof.
  intros Hn Hx. apply Z.bits_inj'. intros i Hi.
  unfold rotl at 1. rewrite rot_bits; [|lia|now apply rotl_range|lia].
  destruct (Z.ltb_spec i w).
  - pose proof (Z.mod_pos_bound (i - (w - n)) w ltac:(lia)).
    unfold rotl. rewrite rot_bits by (done || lia).
    destruct (Z.ltb_spec ((i - (w - n)) mod w) w); [|lia]. cbn [andb]. f_equal.
    rewrite Zminus_mod_idemp_l. rewrite <- (Z.mod_small i w) at 2 by lia.
    replace (i - (w - n) - n) with (i + (-1) * w) by lia. apply Z.mod_add; lia.
  - cbn [andb]. symmetry. now apply (testbit_inU_high w); [lia| |].
Qed.

Lemma LRotU32_rotl x n : 0 < n < 32 -> LRotU32 x n = Ok (rotl 32 x n).
Proof.
  intros. unfold LRotU32, ASSERT. destruct (Z.ltb_spec n 32); [|lia].
  now rewrite c_shl_Ok, c_shr_Ok by lia.
Qed.

Lemma RRotU32_rotl x n : 0 < n < 32 -> RRotU32 x n = Ok (rotl 32 x (32 - n)).
Proof.
  intros. unfold RRotU32, ASSERT. destruct (Z.ltb_spec n 32); [|lia].
  rewrite c_shl_Ok, c_shr_Ok by lia. cbn [obind]. unfold rotl. rewrite Z.lor_comm.
  now replace (32 - (32 - n)) with n by lia.
Qed.

Lemma LRotU64_rotl x n : 0 < n < 64 -> LRotU64 x n = Ok (rotl 64 x n).
Proof.
  intros. unfold LRotU64, InternalMathLRotU64, ASSERT. destruct (Z.ltb_spec n 64); [|lia].
  now rewrite c_shl_Ok, c_shr_Ok by lia.
Qed.

Lemma RRotU64_rotl x n : 0 < n < 64 -> RRotU64 x n = Ok (rotl 64 x (64 - n)).
Proof.
  intros. unfold RRotU64, InternalMathRRotU64, ASSERT. destruct (Z.ltb_spec n 64); [|lia].
  rewrite c_shl_Ok, c_shr_Ok by lia. cbn [obind]. unfold rotl. rewrite Z.lor_comm.
  now replace (64 - (64 - n)) with n by lia.
Qed.

(** ** Byte order *)

(** Bit [i] of a byte-swapped [w]-bit value is bit [swap_bit w i] of it. *)
Definition swap_bit (w i : Z) : Z := w - 8 - 8 * (i / 8) + i mod 8.

Lemma swap_bit_range w i : 0 <= i < w -> (8 | w) -> 0 <= swap_bit w i < w.
Proof.
  intros Hi [k ->]. unfold swap_bit. pose proof (Z.mod_pos_bound i 8 ltac:(lia)).
  assert (i / 8 < k) by (apply Z.div_lt_upper_bound; lia).
  pose proof (Z.div_pos i 8 ltac:(lia) ltac:(lia)). lia.
Qed.

Lemma swap_bit_invol w i : 0 <= i < w -> (8 | w) -> swap_bit w (swap_bit w i) = i.
Proof.
  intros Hi [k ->]. unfold swap_bit.
  replace (k * 8 - 8 - 8 * (i / 8) + i mod 8) with (i mod 8 + (k - 1 - i / 8) * 8) by lia.
  rewrite Z.div_add, Z.mod_add by lia.
  rewrite (Z.div_small (i mod 8)), Z.mod_mod by (try apply Z.mod_pos_bound; lia).
  pose proof (Z.div_mod i 8). lia.
Qed.

Lemma SwapBytes16_bits x i : inU 16 x -> 0 <= i ->
  Z.testbit (SwapBytes16 x) i = (i <? 16) && Z.testbit x (swap_bit 16 i).
Proof.
  intros Hx Hi. unfold SwapBytes16. autorewrite with bits.
  destruct (Z.ltb_spec i 16); [|done]. cbn [andb]. unfold swap_bit.
  assert (i / 8 = 0 \/ i / 8 = 1) as [E|E].
  { assert (0 <= i / 8 < 2); [|lia]. split; [apply Z.div_pos; lia|apply Z.div_lt_upper_bound; lia]. }
  all: rewrite E; pose proof (Z.div_mod i 8 ltac:(lia)); pose proof (Z.mod_pos_bound i 8 ltac:(lia)).
  - rewrite (Z.testbit_neg_r _ (i - 8)) by lia. cbn [orb]. f_equal; lia.
  - rewrite (testbit_inU_high 16 x (i + 8)), orb_false_r by (done || lia). f_equal; lia.
Qed.

(** Swapping the halves and each half swaps the whole. *)
Lemma swap_halves w f x i :
  0 < w -> (8 | w) -> inU (2 * w) x -> 0 <= i ->
  (forall y j, inU w y -> 0 <= j -> Z.testbit (f y) j = (j <? w) && Z.testbit y (swap_bit w j)) ->
  Z.testbit (Z.lor (wrapU (2 * w) (Z.shiftl (f (wrapU w x)) w))
                   (f (wrapU w (Z.shiftr x w)))) i
  = (i <? 2 * w) && Z.testbit x (swap_bit (2 * w) i).
Proof.
  intros Hw Hd Hx Hi Hf. pose proof (wrapU_range w x ltac:(lia)).
  pose proof (wrapU_range w (Z.shiftr x w) ltac:(lia)).
  autorewrite with bits. rewrite (Hf (wrapU w (Z.shiftr x w))) by (done || lia).
  destruct Hd as [k ->]. assert (8 | k * 8) as Hd by now exists k.
  assert (D : forall j, 0 <= j -> j = 8 * (j / 8) + j mod 8) by (intros; apply Z.div_mod; lia).
  destruct (Z.lt_ge_cases i (k * 8)).
  - rewrite (Z.testbit_neg_r _ (i - k * 8)) by lia.
    destruct (Z.ltb_spec i (k * 8)); [|lia]. destruct (Z.ltb_spec i (2 * (k * 8))); [|lia].
    cbn [andb orb]. pose proof (swap_bit_range (k * 8) i ltac:(lia) Hd).
    rewrite testbit_wrapU, Z.shiftr_spec by lia.
    destruct (Z.ltb_spec (swap_bit (k * 8) i) (k * 8)); [|lia]. cbn [andb]. f_equal.
    unfold swap_bit. lia.
  - destruct (Z.ltb_spec i (k * 8)); [lia|]. cbn [andb]. rewrite orb_false_r.
    destruct (Z.ltb_spec i (2 * (k * 8))); [|done]. cbn [andb].
    rewrite Hf by (done || lia). destruct (Z.ltb_spec (i - k * 8) (k * 8)); [|lia]. cbn [andb].
    pose proof (swap_bit_range (k * 8) (i - k * 8) ltac:(lia) Hd).
    rewrite testbit_wrapU by lia.
    destruct (Z.ltb_spec (swap_bit (k * 8) (i - k * 8)) (k * 8)); [|lia]. cbn [andb]. f_equal.
    unfold swap_bit. replace (i - k * 8) with (i + (- k) * 8) by lia.
    rewrite Z.div_add, Z.mod_add by lia. lia.
Qed.

Lemma SwapBytes32_bits x i : inU 32 x -> 0 <= i ->
  Z.testbit (SwapBytes32 x) i = (i <? 32) && Z.testbit x (swap_bit 32 i).
Proof.
  intros Hx Hi. apply (swap_halves 16 SwapBytes16 x i); try done; [now exists 2|].
  intros; now apply SwapBytes16_bits.
Qed.

Lemma SwapBytes64_bits x i : inU 64 x -> 0 <= i ->
  Z.testbit (SwapBytes64 x) i = (i <? 64) && Z.testbit x (swap_bit 64 i).
Proof.
  intros Hx Hi. apply (swap_halves 32 SwapBytes32 x i); try done; [now exists 4|].
  intros; now apply SwapBytes32_bits.
Qed.

Lemma swap_invol w f x :
  0 < w -> (8 | w) -> inU w x -> inU w (f x) ->
  (forall y j, inU w y -> 0 <= j -> Z.testbit (f y) j = (j <? w) && Z.testbit y (swap_bit w j)) ->
  f (f x) = x.
Proof.
  intros Hw Hd Hx Hfx Hf. apply Z.bits_inj'. intros i Hi. rewrite Hf by done.
  destruct (Z.ltb_spec i w); cbn [andb].
  - pose proof (swap_bit_range w i ltac:(lia) Hd). rewrite Hf by (done || lia).
    destruct (Z.ltb_spec (swap_bit w i) w); [|lia]. cbn [andb]. now rewrite swap_bit_invol by (done || lia).
  - symmetry. now apply (testbit_inU_high w); [lia| |].
Qed.

Lemma swap_range w f x :
  0 < w -> 0 <= f x ->
  (forall j, 0 <= j -> Z.testbit (f x) j = (j <? w) && Z.testbit x (swap_bit w j)) ->
  inU w (f x).
Proof.
  intros Hw Hp Hf. apply inU_of_bits; [lia|done|]. intros i Hi. rewrite Hf by lia.
  now destruct (Z.ltb_spec i w); [lia|].
Qed.

Lemma SwapBytes16_nonneg x : 0 <= SwapBytes16 x.
Proof. apply (wrapU_range 16). lia. Qed.

Lemma SwapBytes32_nonneg x : 0 <= SwapBytes32 x.
Proof.
  apply Z.lor_nonneg. split; [apply (wrapU_range 32); lia|apply SwapBytes16_nonneg].
Qed.

Lemma SwapBytes64_nonneg x : 0 <= SwapBytes64 x.
Proof.
  apply Z.lor_nonneg. split; [apply (wrapU_range 64); lia|apply SwapBytes32_nonneg].
Qed.

(** ** Claims *)

(** HighBitSet32 and HighBitSet64 terminate within their
    fuel and return the index of the most significant set bit, i.e. the
    binary logarithm, for every non-zero operand and on both word sizes, and
    GetPowerOfTwo32/64 return the largest power of two that does not
    exceed the operand. *)
Lemma high_bit_log2 (W x : Z) :
  W = 32 \/ W = 64 -> 0 < x ->
  (inU 32 x -> HighBitSet32 x = Ok (Z.log2 x) /\ GetPowerOfTwo32 x = Ok (2 ^ Z.log2 x)) /\
  (inU 64 x -> HighBitSet64 W x = Ok (Z.log2 x) /\ GetPowerOfTwo64 W x = Ok (2 ^ Z.log2 x)) /\
  2 ^ Z.log2 x <= x < 2 ^ (Z.log2 x + 1).
Proof.
  intros HW Hp. pose proof (Z.log2_nonneg x). split_and!.
  - intros Hx. unfold inU in Hx. assert (Z.log2 x < 32) by (apply Z.log2_lt_pow2; lia).
    split; [now apply HighBitSet32_spec|]. unfold GetPowerOfTwo32.
    destruct (Z.eqb_spec 0 x); [lia|]. rewrite HighBitSet32_spec by lia. cbn [obind].
    rewrite c_shl_Ok, Z.shiftl_1_l by lia. f_equal. apply wrapU_id. split; [lia|].
    apply Z.pow_lt_mono_r; lia.
  - intros Hx. assert (Z.log2 x < 64) by (apply Z.log2_lt_pow2; unfold inU in Hx; lia).
    split; [now apply HighBitSet64_spec|]. unfold GetPowerOfTwo64.
    destruct (Z.eqb_spec x 0); [lia|]. rewrite HighBitSet64_spec by done. cbn [obind].
    rewrite wrapU_id.
    + unfold LShiftU64, ASSERT, InternalMathLShiftU64. destruct (Z.ltb_spec (Z.log2 x) 64); [|lia].
      rewrite c_shl_Ok, Z.shiftl_1_l by lia. f_equal. apply wrapU_id. split; [lia|].
      apply Z.pow_lt_mono_r; lia.
    + unfold inU. destruct HW as [-> | ->]; lia.
  - apply Z.log2_spec; lia.
  - apply Z.log2_spec; lia.
Qed.

(** LowBitSet32 and LowBitSet64 terminate and return the
    index of the least significant set bit of every non-zero operand. *)
Lemma low_bit_lowest (x : Z) :
  0 < x ->
  (inU 32 x -> exists i, LowBitSet32 x = Ok i /\ lowest_bit x i) /\
  (inU 64 x -> exists i, LowBitSet64 x = Ok i /\ lowest_bit x i).
Proof.
  intros Hp. split; intros Hx; unfold inU in Hx.
  - unfold LowBitSet32. destruct (Z.eqb_spec x 0); [lia|].
    destruct (LowBitSet32_loop_spec 32 0 x ltac:(cbn; lia)) as (i & E & L). eauto.
  - unfold LowBitSet64. destruct (Z.eqb_spec x 0); [lia|].
    destruct (LowBitSet64_loop_spec 64 0 x ltac:(cbn; lia)) as (i & E & L). eauto.
Qed.

(** HighBitSet32 and HighBitSet64 terminate within
    their fuel and return the index of the most significant set bit of every
    non-zero operand, on both word sizes; GetPowerOfTwo32/64 return the
    largest power of two that does not exceed it; LowBitSet32 and LowBitSet64
    return the index of its least significant set bit. *)
Theorem BitSet_positions (W x : Z) :
  W = 32 \/ W = 64 -> 0 < x ->
  (inU 32 x -> HighBitSet32 x = Ok (Z.log2 x) /\ GetPowerOfTwo32 x = Ok (2 ^ Z.log2 x) /\
     exists i, LowBitSet32 x = Ok i /\ lowest_bit x i) /\
  (inU 64 x -> HighBitSet64 W x = Ok (Z.log2 x) /\ GetPowerOfTwo64 W x = Ok (2 ^ Z.log2 x) /\
     exists i, LowBitSet64 x = Ok i /\ lowest_bit x i) /\
  2 ^ Z.log2 x <= x < 2 ^ (Z.log2 x + 1).
Proof.
  intros HW Hp. destruct (high_bit_log2 W x HW Hp) as (H1 & H2 & H3). destruct (low_bit_lowest x Hp) as (L1 & L2).
  split; [|split; [|exact H3]]; intros Hx.
  - destruct (H1 Hx) as [A B]. split_and!; [exact A|exact B|exact (L1 Hx)].
  - destruct (H2 Hx) as [A B]. split_and!; [exact A|exact B|exact (L2 Hx)].
Qed.

Lemma BitSet_positions_witness :
  HighBitSet64 64 (2 ^ 40 + 5) = Ok 40 /\ exists i, LowBitSet64 (2 ^ 40 + 5) = Ok i /\ lowest_bit (2 ^ 40 + 5) i.
Proof.
  destruct (BitSet_positions 64 (2 ^ 40 + 5)) as (_ & H & _); [lia|lia|].
  destruct H as (H1 & _ & H2); [unfold inU; lia|]. split; [exact H1|exact H2].
Defined.

(** For a count from 1 to width-1 the four rotations
    return, permute the bits cyclically, and undo each other; for a count of
    0, which their documentation allows, the code shifts by the full width,
    which C leaves undefined. *)
Lemma rotate_roundtrip (x n : Z) :
  (inU 32 x -> 0 < n < 32 ->
     exists y, LRotU32 x n = Ok y /\ inU 32 y /\ RRotU32 y n = Ok x /\
       forall i, 0 <= i < 32 -> Z.testbit y i = Z.testbit x ((i - n) mod 32)) /\
  (inU 64 x -> 0 < n < 64 ->
     exists y, LRotU64 x n = Ok y /\ inU 64 y /\ RRotU64 y n = Ok x /\
       forall i, 0 <= i < 64 -> Z.testbit y i = Z.testbit x ((i - n) mod 64)) /\
  LRotU32 x 0 = Fault /\ RRotU32 x 0 = Fault /\ LRotU64 x 0 = Fault /\ RRotU64 x 0 = Fault.
Proof.
  split_and!; try done.
  - intros Hx Hn. exists (rotl 32 x n).
    rewrite LRotU32_rotl, RRotU32_rotl, rotl_inv by (done || lia).
    split_and!; try done; [now apply rotl_range|]. intros i Hi. unfold rotl.
    rewrite rot_bits by (done || lia). now destruct (Z.ltb_spec i 32); [|lia].
  - intros Hx Hn. exists (rotl 64 x n).
    rewrite LRotU64_rotl, RRotU64_rotl, rotl_inv by (done || lia).
    split_and!; try done; [now apply rotl_range|]. intros i Hi. unfold rotl.
    rewrite rot_bits by (done || lia). now destruct (Z.ltb_spec i 64); [|lia].
Qed.

(** SwapBytes16/32/64 reverse the bytes of their
    operand (byte k of the result is byte n-1-k of the operand), so each is
    its own inverse. *)
Lemma swap_bytes_involutive (x : Z) :
  (inU 16 x -> SwapBytes16 (SwapBytes16 x) = x /\
     forall i, 0 <= i < 16 -> Z.testbit (SwapBytes16 x) i = Z.testbit x (swap_bit 16 i)) /\
  (inU 32 x -> SwapBytes32 (SwapBytes32 x) = x /\
     forall i, 0 <= i < 32 -> Z.testbit (SwapBytes32 x) i = Z.testbit x (swap_bit 32 i)) /\
  (inU 64 x -> SwapBytes64 (SwapBytes64 x) = x /\
     forall i, 0 <= i < 64 -> Z.testbit (SwapBytes64 x) i = Z.testbit x (swap_bit 64 i)).
Proof.
  split_and!; intros Hx; split.
  - apply (swap_invol 16); [lia|now exists 2|done| |intros; now apply SwapBytes16_bits].
    apply swap_range; [lia|apply SwapBytes16_nonneg|intros; now apply SwapBytes16_bits].
  - intros i Hi. rewrite SwapBytes16_bits by (done || lia). now destruct (Z.ltb_spec i 16); [|lia].
  - apply (swap_invol 32); [lia|now exists 4|done| |intros; now apply SwapBytes32_bits].
    apply swap_range; [lia|apply SwapBytes32_nonneg|intros; now apply SwapBytes32_bits].
  - intros i Hi. rewrite SwapBytes32_bits by (done || lia). now destruct (Z.ltb_spec i 32); [|lia].
  - apply (swap_invol 64); [lia|now exists 8|done| |intros; now apply SwapBytes64_bits].
    apply swap_range; [lia|apply SwapBytes64_nonneg|intros; now apply SwapBytes64_bits].
  - intros i Hi. rewrite SwapBytes64_bits by (done || lia). now destruct (Z.ltb_spec i 64); [|lia].
Qed.

(** For a count from 1 to width-1 the four
    rotations return, permute the bits cyclically, and undo each other; for a
    count of 0, which their documentation allows, the code shifts by the full
    width, which C leaves undefined.  SwapBytes16/32/64 reverse the bytes of
    their operand, so each is its own inverse. *)
Theorem Rot_Swap_roundtrip (x n : Z) :
  ((inU 32 x -> 0 < n < 32 ->
     exists y, LRotU32 x n = Ok y /\ inU 32 y /\ RRotU32 y n = Ok x /\
       forall i, 0 <= i < 32 -> Z.testbit y i = Z.testbit x ((i - n) mod 32)) /\
   (inU 64 x -> 0 < n < 64 ->
     exists y, LRotU64 x n = Ok y /\ inU 64 y /\ RRotU64 y n = Ok x /\
       forall i, 0 <= i < 64 -> Z.testbit y i = Z.testbit x ((i - n) mod 64)) /\
   LRotU32 x 0 = Fault /\ RRotU32 x 0 = Fault /\ LRotU64 x 0 = Fault /\ RRotU64 x 0 = Fault) /\
  (inU 16 x -> SwapBytes16 (SwapBytes16 x) = x /\
     forall i, 0 <= i < 16 -> Z.testbit (SwapBytes16 x) i = Z.testbit x (swap_bit 16 i)) /\
  (inU 32 x -> SwapBytes32 (SwapBytes32 x) = x /\
     forall i, 0 <= i < 32 -> Z.testbit (SwapBytes32 x) i = Z.testbit x (swap_bit 32 i)) /\
  (inU 64 x -> SwapBytes64 (SwapBytes64 x) = x /\
     forall i, 0 <= i < 64 -> Z.testbit (SwapBytes64 x) i = Z.testbit x (swap_bit 64 i)).
Proof. split; [apply rotate_roundtrip|apply swap_bytes_involutive]. Qed.

Lemma Rot_Swap_roundtrip_witness :
  (exists y, LRotU32 (2 ^ 31 + 1) 4 = Ok y /\ RRotU32 y 4 = Ok (2 ^ 31 + 1)) /\
  SwapBytes32 (SwapBytes32 (2 ^ 31 + 1)) = 2 ^ 31 + 1.
Proof.
  destruct (Rot_Swap_roundtrip (2 ^ 31 + 1) 4) as ((H & _) & _ & S & _). split.
  - destruct H as (y & E & _ & R & _); [unfold inU; lia|lia|]. eauto.
  - apply S. unfold inU. lia.
Defined.

(** The 64-bit divisions return quotient and remainder
    with Dividend = quotient * Divisor + remainder, the remainder smaller than
    the divisor (and of the dividend's sign for the signed division, whose
    quotient fits INT64); a zero divisor fails the ASSERT, and MIN_INT64 / -1
    is undefined. *)
Theorem Div_remainder (a b r0 : Z) :
  (inU 64 a -> inU 64 b -> b <> 0 ->
     exists q r, DivU64x64Remainder a b (Some r0) = Ok (q, Some r) /\
       a = q * b + r /\ 0 <= r < b /\ inU 64 q) /\
  (inU 64 a -> inU 32 b -> b <> 0 ->
     exists q r, DivU64x32Remainder a b (Some r0) = Ok (q, Some r) /\
       DivU64x32 a b = Ok q /\ ModU64x32 a b = Ok r /\
       a = q * b + r /\ 0 <= r < b /\ inU 64 q) /\
  (inS 64 a -> inS 64 b -> b <> 0 -> ~ (a = - 2 ^ 63 /\ b = -1) ->
     exists q r, DivS64x64Remainder a b (Some r0) = Ok (q, Some r) /\
       a = q * b + r /\ Z.abs r < Z.abs b /\ 0 <= r * a /\ inS 64 q) /\
  DivU64x64Remainder a 0 (Some r0) = AssertFail /\
  DivS64x64Remainder (- 2 ^ 63) (-1) (Some r0) = Fault.
Proof.
  split_and!; try done.
  - intros Ha Hb Hn. exists (a / b), (a mod b). unfold inU in *.
    unfold DivU64x64Remainder, InternalMathDivRemU64x64. destruct (Z.eqb_spec b 0); [done|].
    pose proof (Z.mod_pos_bound a b ltac:(lia)). pose proof (Z.div_mod a b ltac:(lia)).
    split_and!; try done; try lia; try (apply Z.div_pos; lia); apply Z.div_lt_upper_bound; nia.
  - intros Ha Hb Hn. exists (a / b), (a mod b). unfold inU in *.
    unfold DivU64x32Remainder, InternalMathDivRemU64x32, DivU64x32, InternalMathDivU64x32,
      ModU64x32, InternalMathModU64x32. destruct (Z.eqb_spec b 0); [done|].
    pose proof (Z.mod_pos_bound a b ltac:(lia)). pose proof (Z.div_mod a b ltac:(lia)).
    cbn [negb ASSERT]. rewrite (wrapU_id 32 (a mod b)) by (unfold inU; lia).
    split_and!; try done; try lia; try (apply Z.div_pos; lia); apply Z.div_lt_upper_bound; nia.
  - intros Ha Hb Hn Hov. exists (Z.quot a b), (Z.rem a b).
    unfold DivS64x64Remainder, InternalMathDivRemS64x64. destruct (Z.eqb_spec b 0); [done|].
    assert (E : (a =? - 2 ^ 63) && (b =? -1) = false).
    { destruct (Z.eqb_spec a (- 2 ^ 63)), (Z.eqb_spec b (-1)); try done. tauto. }
    rewrite E. cbn [negb ASSERT orb].
    pose proof (Z.quot_rem' a b). pose proof (Z.rem_bound_abs a b Hn).
    split_and!; try done; try lia; try (apply Z.rem_sign_mul; lia).
    all: unfold inS in *; change (2 ^ (64 - 1)) with (2 ^ 63) in *; nia.
Qed.

Lemma Div_remainder_witness :
  exists q r, DivS64x64Remainder (-7) 2 (Some 0) = Ok (q, Some r) /\ -7 = q * 2 + r.
Proof.
  destruct (Div_remainder (-7) 2 0) as (_ & _ & H & _).
  destruct H as (q & r & E & F & _); [unfold inS; lia|unfold inS; lia|lia|lia|]. eauto.
Defined.
