(* ===== verification/SafeInt.v ===== *)
(** * SafeInt: overflow-checked integer conversion and arithmetic

    MdePkg/Library/BaseSafeIntLib: SafeIntLib.c (all word sizes),
    SafeIntLib32.c and SafeIntLib64.c (the UINTN/INTN functions of the two
    word sizes; their definitions carry the suffix [_32] and [_64]).

    Each function takes its operands and the out pointer [Result]
    ([None] is NULL, [Some old] the caller's buffer) and returns the status
    with the buffer's new contents.  [W] is the width of UINTN and INTN, and
    [char_signed] says whether the compiler's [char], i.e. CHAR8, is signed.

    The abstract specification is [ConvSpec]/[BinSpec]: the mathematical
    result when the destination type can hold it, the type's error value
    otherwise.  The tables [SafeConversions], [SafeBinops] (and those of the
    word sizes) list every function of the library with its types, and the
    refinement theorems quantify over the tables. *)

From stdpp Require Import base option list.
From Stdlib Require Import ZArith Lia Bool.
From S2P Require Import Prelude BaseMath.

Local Open Scope Z_scope.
Local Open Scope edk_scope.

Abbreviation RETURN_STATUS := EFI_STATUS (only parsing).
Abbreviation RETURN_SUCCESS := EFI_SUCCESS (only parsing).
Abbreviation RETURN_INVALID_PARAMETER := EFI_INVALID_PARAMETER (only parsing).
Abbreviation RETURN_BUFFER_TOO_SMALL := EFI_BUFFER_TOO_SMALL (only parsing).
Abbreviation RETURN_ERROR := EFI_ERROR (only parsing).

(** An out parameter: NULL, or the contents of the caller's buffer. *)
Abbreviation OUTP := (option Z) (only parsing).

Section SafeIntLib.
Context (W : Z) (char_signed : bool).

(** ** Types: conversions, limits and error values (Base.h, SafeIntLib.h) *)

Definition INT8 (x : Z) : Z := wrapS 8 x.
Definition UINT8 (x : Z) : Z := wrapU 8 x.
Definition INT16 (x : Z) : Z := wrapS 16 x.
Definition UINT16 (x : Z) : Z := wrapU 16 x.
Definition INT32 (x : Z) : Z := wrapS 32 x.
Definition UINT32 (x : Z) : Z := wrapU 32 x.
Definition INT64 (x : Z) : Z := wrapS 64 x.
Definition UINT64 (x : Z) : Z := wrapU 64 x.
Definition INTN (x : Z) : Z := wrapS W x.
Definition UINTN (x : Z) : Z := wrapU W x.
Definition CHAR8 (x : Z) : Z := if char_signed then wrapS 8 x else wrapU 8 x.

Definition MAX_INT8 : Z := 0x7F.
Definition MAX_UINT8 : Z := 0xFF.
Definition MAX_INT16 : Z := 0x7FFF.
Definition MAX_UINT16 : Z := 0xFFFF.
Definition MAX_INT32 : Z := 0x7FFFFFFF.
Definition MAX_UINT32 : Z := 0xFFFFFFFF.
Definition MAX_INT64 : Z := 0x7FFFFFFFFFFFFFFF.
Definition MAX_UINT64 : Z := 0xFFFFFFFFFFFFFFFF.
Definition MIN_INT8 : Z := -127 - 1.
Definition MIN_INT16 : Z := -32767 - 1.
Definition MIN_INT32 : Z := -2147483647 - 1.
Definition MIN_INT64 : Z := -9223372036854775807 - 1.
Definition MAX_INTN : Z := 2 ^ (W - 1) - 1.
Definition MAX_UINTN : Z := 2 ^ W - 1.

Definition INT8_ERROR : Z := INT8 (-1).
Definition UINT8_ERROR : Z := MAX_UINT8.
Definition CHAR8_ERROR : Z := CHAR8 MAX_INT8.
Definition INT16_ERROR : Z := INT16 (-1).
Definition UINT16_ERROR : Z := MAX_UINT16.
Definition INT32_ERROR : Z := INT32 (-1).
Definition UINT32_ERROR : Z := MAX_UINT32.
Definition INT64_ERROR : Z := INT64 (-1).
Definition UINT64_ERROR : Z := MAX_UINT64.
Definition INTN_ERROR : Z := INTN (-1).
Definition UINTN_ERROR : Z := MAX_UINTN.

(** [((UINT64)(- (MIN_INT64 + 1))) + 1] *)
Definition MIN_INT64_MAGNITUDE : Z := UINT64 (UINT64 (- (MIN_INT64 + 1)) + 1).

(** ** Conversions (SafeIntLib.c) *)

Definition SafeInt8ToUint8 (Operand : Z) (Result : OUTP) : RETURN_STATUS * OUTP :=
  match Result with
  | None => (RETURN_INVALID_PARAMETER, None)
  | Some _ =>
      if (0 <=? Operand)
      then (RETURN_SUCCESS, Some (UINT8 Operand))
      else (RETURN_BUFFER_TOO_SMALL, Some UINT8_ERROR)
  end.

Definition SafeInt8ToChar8 (Operand : Z) (Result : OUTP) : RETURN_STATUS * OUTP :=
  match Result with
  | None => (RETURN_INVALID_PARAMETER, None)
  | Some _ =>
      if (0 <=? Operand)
      then (RETURN_SUCCESS, Some (CHAR8 Operand))
      else (RETURN_BUFFER_TOO_SMALL, Some CHAR8_ERROR)
  end.

Definition SafeInt8ToUint16 (Operand : Z) (Result : OUTP) : RETURN_STATUS * OUTP :=
  match Result with
  | None => (RETURN_INVALID_PARAMETER, None)
  | Some _ =>
      if (0 <=? Operand)
      then (RETURN_SUCCESS, Some (UINT16 Operand))
      else (RETURN_BUFFER_TOO_SMALL, Some UINT16_ERROR)
  end.

Definition SafeInt8ToUint32 (Operand : Z) (Result : OUTP) : RETURN_STATUS * OUTP :=
  match Result with
  | None => (RETURN_INVALID_PARAMETER, None)
  | Some _ =>
      if (0 <=? Operand)
      then (RETURN_SUCCESS, Some (UINT32 Operand))
      else (RETURN_BUFFER_TOO_SMALL, Some UINT32_ERROR)
  end.

Definition SafeInt8ToUintn (Operand : Z) (Result : OUTP) : RETURN_STATUS * OUTP :=
  match Result with
  | None => (RETURN_INVALID_PARAMETER, None)
  | Some _ =>
      if (0 <=? Operand)
      then (RETURN_SUCCESS, Some (UINTN Operand))
      else (RETURN_BUFFER_TOO_SMALL, Some UINTN_ERROR)
  end.

Definition SafeInt8ToUint64 (Operand : Z) (Result : OUTP) : RETURN_STATUS * OUTP :=
  match Result with
  | None => (RETURN_INVALID_PARAMETER, None)
  | Some _ =>
      if (0 <=? Operand)
      then (RETURN_SUCCESS, Some (UINT64 Operand))
      else (RETURN_BUFFER_TOO_SMALL, Some UINT64_ERROR)
  end.

Definition SafeUint8ToInt8 (Operand : Z) (Result : OUTP) : RETURN_STATUS * OUTP :=
  match Result with
  | None => (RETURN_INVALID_PARAMETER, None)
  | Some _ =>
      if (Operand <=? MAX_INT8)
      then (RETURN_SUCCESS, Some (INT8 Operand))
      else (RETURN_BUFFER_TOO_SMALL, Some INT8_ERROR)
  end.

Definition SafeUint8ToChar8 (Operand : Z) (Result : OUTP) : RETURN_STATUS * OUTP :=
  match Result with
  | None => (RETURN_INVALID_PARAMETER, None)
  | Some _ =>
      if (Operand <=? MAX_INT8)
      then (RETURN_SUCCESS, Some (CHAR8 Operand))
      else (RETURN_BUFFER_TOO_SMALL, Some CHAR8_ERROR)
  end.

Definition SafeInt16ToInt8 (Operand : Z) (Result : OUTP) : RETURN_STATUS * OUTP :=
  match Result with
  | None => (RETURN_INVALID_PARAMETER, None)
  | Some _ =>
      if ((MIN_INT8 <=? Operand) && (Operand <=? MAX_INT8))
      then (RETURN_SUCCESS, Some (INT8 Operand))
      else (RETURN_BUFFER_TOO_SMALL, Some INT8_ERROR)
  end.

Definition SafeInt16ToChar8 (Operand : Z) (Result : OUTP) : RETURN_STATUS * OUTP :=
  match Result with
  | None => (RETURN_INVALID_PARAMETER, None)
  | Some _ =>
      if ((0 <=? Operand) && (Operand <=? MAX_INT8))
      then (RETURN_SUCCESS, Some (CHAR8 Operand))
      else (RETURN_BUFFER_TOO_SMALL, Some CHAR8_ERROR)
  end.

Definition SafeInt16ToUint8 (Operand : Z) (Result : OUTP) : RETURN_STATUS * OUTP :=
  match Result with
  | None => (RETURN_INVALID_PARAMETER, None)
  | Some _ =>
      if ((0 <=? Operand) && (Operand <=? MAX_UINT8))
      then (RETURN_SUCCESS, Some (UINT8 Operand))
      else (RETURN_BUFFER_TOO_SMALL, Some UINT8_ERROR)
  end.

Definition SafeInt16ToUint16 (Operand : Z) (Result : OUTP) : RETURN_STATUS * OUTP :=
  match Result with
  | None => (RETURN_INVALID_PARAMETER, None)
  | Some _ =>
      if (0 <=? Operand)
      then (RETURN_SUCCESS, Some (UINT16 Operand))
      else (RETURN_BUFFER_TOO_SMALL, Some UINT16_ERROR)
  end.

Definition SafeInt16ToUint32 (Operand : Z) (Result : OUTP) : RETURN_STATUS * OUTP :=
  match Result with
  | None => (RETURN_INVALID_PARAMETER, None)
  | Some _ =>
      if (0 <=? Operand)
      then (RETURN_SUCCESS, Some (UINT32 Operand))
      else (RETURN_BUFFER_TOO_SMALL, Some UINT32_ERROR)
  end.

Definition SafeInt16ToUintn (Operand : Z) (Result : OUTP) : RETURN_STATUS * OUTP :=
  match Result with
  | None => (RETURN_INVALID_PARAMETER, None)
  | Some _ =>
      if (0 <=? Operand)
      then (RETURN_SUCCESS, Some (UINTN Operand))
      else (RETURN_BUFFER_TOO_SMALL, Some UINTN_ERROR)
  end.

Definition SafeInt16ToUint64 (Operand : Z) (Result : OUTP) : RETURN_STATUS * OUTP :=
  match Result with
  | None => (RETURN_INVALID_PARAMETER, None)
  | Some _ =>
      if (0 <=? Operand)
      then (RETURN_SUCCESS, Some (UINT64 Operand))
      else (RETURN_BUFFER_TOO_SMALL, Some UINT64_ERROR)
  end.

Definition SafeUint16ToInt8 (Operand : Z) (Result : OUTP) : RETURN_STATUS * OUTP :=
  match Result with
  | None => (RETURN_INVALID_PARAMETER, None)
  | Some _ =>
      if (Operand <=? MAX_INT8)
      then (RETURN_SUCCESS, Some (INT8 Operand))
      else (RETURN_BUFFER_TOO_SMALL, Some INT8_ERROR)
  end.

Definition SafeUint16ToChar8 (Operand : Z) (Result : OUTP) : RETURN_STATUS * OUTP :=
  match Result with
  | None => (RETURN_INVALID_PARAMETER, None)
  | Some _ =>
      if (Operand <=? MAX_INT8)
      then (RETURN_SUCCESS, Some (CHAR8 (INT8 Operand)))
      else (RETURN_BUFFER_TOO_SMALL, Some CHAR8_ERROR)
  end.

Definition SafeUint16ToUint8 (Operand : Z) (Result : OUTP) : RETURN_STATUS * OUTP :=
  match Result with
  | None => (RETURN_INVALID_PARAMETER, None)
  | Some _ =>
      if (Operand <=? MAX_UINT8)
      then (RETURN_SUCCESS, Some (UINT8 Operand))
      else (RETURN_BUFFER_TOO_SMALL, Some UINT8_ERROR)
  end.

Definition SafeUint16ToInt16 (Operand : Z) (Result : OUTP) : RETURN_STATUS * OUTP :=
  match Result with
  | None => (RETURN_INVALID_PARAMETER, None)
  | Some _ =>
      if (Operand <=? MAX_INT16)
      then (RETURN_SUCCESS, Some (INT16 Operand))
      else (RETURN_BUFFER_TOO_SMALL, Some INT16_ERROR)
  end.

Definition SafeInt32ToInt8 (Operand : Z) (Result : OUTP) : RETURN_STATUS * OUTP :=
  match Result with
  | None => (RETURN_INVALID_PARAMETER, None)
  | Some _ =>
      if ((MIN_INT8 <=? Operand) && (Operand <=? MAX_INT8))
      then (RETURN_SUCCESS, Some (INT8 Operand))
      else (RETURN_BUFFER_TOO_SMALL, Some INT8_ERROR)
  end.

Definition SafeInt32ToChar8 (Operand : Z) (Result : OUTP) : RETURN_STATUS * OUTP :=
  match Result with
  | None => (RETURN_INVALID_PARAMETER, None)
  | Some _ =>
      if ((0 <=? Operand) && (Operand <=? MAX_INT8))
      then (RETURN_SUCCESS, Some (CHAR8 Operand))
      else (RETURN_BUFFER_TOO_SMALL, Some CHAR8_ERROR)
  end.

Definition SafeInt32ToUint8 (Operand : Z) (Result : OUTP) : RETURN_STATUS * OUTP :=
  match Result with
  | None => (RETURN_INVALID_PARAMETER, None)
  | Some _ =>
      if ((0 <=? Operand) && (Operand <=? MAX_UINT8))
      then (RETURN_SUCCESS, Some (UINT8 Operand))
      else (RETURN_BUFFER_TOO_SMALL, Some UINT8_ERROR)
  end.

Definition SafeInt32ToInt16 (Operand : Z) (Result : OUTP) : RETURN_STATUS * OUTP :=
  match Result with
  | None => (RETURN_INVALID_PARAMETER, None)
  | Some _ =>
      if ((MIN_INT16 <=? Operand) && (Operand <=? MAX_INT16))
      then (RETURN_SUCCESS, Some (INT16 Operand))
      else (RETURN_BUFFER_TOO_SMALL, Some INT16_ERROR)
  end.

Definition SafeInt32ToUint16 (Operand : Z) (Result : OUTP) : RETURN_STATUS * OUTP :=
  match Result with
  | None => (RETURN_INVALID_PARAMETER, None)
  | Some _ =>
      if ((0 <=? Operand) && (Operand <=? MAX_UINT16))
      then (RETURN_SUCCESS, Some (UINT16 Operand))
      else (RETURN_BUFFER_TOO_SMALL, Some UINT16_ERROR)
  end.

Definition SafeInt32ToUint32 (Operand : Z) (Result : OUTP) : RETURN_STATUS * OUTP :=
  match Result with
  | None => (RETURN_INVALID_PARAMETER, None)
  | Some _ =>
      if (0 <=? Operand)
      then (RETURN_SUCCESS, Some (UINT32 Operand))
      else (RETURN_BUFFER_TOO_SMALL, Some UINT32_ERROR)
  end.

Definition SafeInt32ToUint64 (Operand : Z) (Result : OUTP) : RETURN_STATUS * OUTP :=
  match Result with
  | None => (RETURN_INVALID_PARAMETER, None)
  | Some _ =>
      if (0 <=? Operand)
      then (RETURN_SUCCESS, Some (UINT64 Operand))
      else (RETURN_BUFFER_TOO_SMALL, Some UINT64_ERROR)
  end.

Definition SafeUint32ToInt8 (Operand : Z) (Result : OUTP) : RETURN_STATUS * OUTP :=
  match Result with
  | None => (RETURN_INVALID_PARAMETER, None)
  | Some _ =>
      if (Operand <=? MAX_INT8)
      then (RETURN_SUCCESS, Some (INT8 Operand))
      else (RETURN_BUFFER_TOO_SMALL, Some INT8_ERROR)
  end.

Definition SafeUint32ToChar8 (Operand : Z) (Result : OUTP) : RETURN_STATUS * OUTP :=
  match Result with
  | None => (RETURN_INVALID_PARAMETER, None)
  | Some _ =>
      if (Operand <=? MAX_INT8)
      then (RETURN_SUCCESS, Some (CHAR8 (INT8 Operand)))
      else (RETURN_BUFFER_TOO_SMALL, Some CHAR8_ERROR)
  end.

Definition SafeUint32ToUint8 (Operand : Z) (Result : OUTP) : RETURN_STATUS * OUTP :=
  match Result with
  | None => (RETURN_INVALID_PARAMETER, None)
  | Some _ =>
      if (Operand <=? MAX_UINT8)
      then (RETURN_SUCCESS, Some (UINT8 Operand))
      else (RETURN_BUFFER_TOO_SMALL, Some UINT8_ERROR)
  end.

Definition SafeUint32ToInt16 (Operand : Z) (Result : OUTP) : RETURN_STATUS * OUTP :=
  match Result with
  | None => (RETURN_INVALID_PARAMETER, None)
  | Some _ =>
      if (Operand <=? MAX_INT16)
      then (RETURN_SUCCESS, Some (INT16 Operand))
      else (RETURN_BUFFER_TOO_SMALL, Some INT16_ERROR)
  end.

Definition SafeUint32ToUint16 (Operand : Z) (Result : OUTP) : RETURN_STATUS * OUTP :=
  match Result with
  | None => (RETURN_INVALID_PARAMETER, None)
  | Some _ =>
      if (Operand <=? MAX_UINT16)
      then (RETURN_SUCCESS, Some (UINT16 Operand))
      else (RETURN_BUFFER_TOO_SMALL, Some UINT16_ERROR)
  end.

Definition SafeUint32ToInt32 (Operand : Z) (Result : OUTP) : RETURN_STATUS * OUTP :=
  match Result with
  | None => (RETURN_INVALID_PARAMETER, None)
  | Some _ =>
      if (Operand <=? MAX_INT32)
      then (RETURN_SUCCESS, Some (INT32 Operand))
      else (RETURN_BUFFER_TOO_SMALL, Some INT32_ERROR)
  end.

Definition SafeIntnToInt8 (Operand : Z) (Result : OUTP) : RETURN_STATUS * OUTP :=
  match Result with
  | None => (RETURN_INVALID_PARAMETER, None)
  | Some _ =>
      if ((MIN_INT8 <=? Operand) && (Operand <=? MAX_INT8))
      then (RETURN_SUCCESS, Some (INT8 Operand))
      else (RETURN_BUFFER_TOO_SMALL, Some INT8_ERROR)
  end.

Definition SafeIntnToChar8 (Operand : Z) (Result : OUTP) : RETURN_STATUS * OUTP :=
  match Result with
  | None => (RETURN_INVALID_PARAMETER, None)
  | Some _ =>
      if ((0 <=? Operand) && (Operand <=? MAX_INT8))
      then (RETURN_SUCCESS, Some (CHAR8 Operand))
      else (RETURN_BUFFER_TOO_SMALL, Some CHAR8_ERROR)
  end.

Definition SafeIntnToUint8 (Operand : Z) (Result : OUTP) : RETURN_STATUS * OUTP :=
  match Result with
  | None => (RETURN_INVALID_PARAMETER, None)
  | Some _ =>
      if ((0 <=? Operand) && (Operand <=? MAX_UINT8))
      then (RETURN_SUCCESS, Some (UINT8 Operand))
      else (RETURN_BUFFER_TOO_SMALL, Some UINT8_ERROR)
  end.

Definition SafeIntnToInt16 (Operand : Z) (Result : OUTP) : RETURN_STATUS * OUTP :=
  match Result with
  | None => (RETURN_INVALID_PARAMETER, None)
  | Some _ =>
      if ((MIN_INT16 <=? Operand) && (Operand <=? MAX_INT16))
      then (RETURN_SUCCESS, Some (INT16 Operand))
      else (RETURN_BUFFER_TOO_SMALL, Some INT16_ERROR)
  end.

Definition SafeIntnToUint16 (Operand : Z) (Result : OUTP) : RETURN_STATUS * OUTP :=
  match Result with
  | None => (RETURN_INVALID_PARAMETER, None)
  | Some _ =>
      if ((0 <=? Operand) && (Operand <=? MAX_UINT16))
      then (RETURN_SUCCESS, Some (UINT16 Operand))
      else (RETURN_BUFFER_TOO_SMALL, Some UINT16_ERROR)
  end.

Definition SafeIntnToUintn (Operand : Z) (Result : OUTP) : RETURN_STATUS * OUTP :=
  match Result with
  | None => (RETURN_INVALID_PARAMETER, None)
  | Some _ =>
      if (0 <=? Operand)
      then (RETURN_SUCCESS, Some (UINTN Operand))
      else (RETURN_BUFFER_TOO_SMALL, Some UINTN_ERROR)
  end.

Definition SafeIntnToUint64 (Operand : Z) (Result : OUTP) : RETURN_STATUS * OUTP :=
  match Result with
  | None => (RETURN_INVALID_PARAMETER, None)
  | Some _ =>
      if (0 <=? Operand)
      then (RETURN_SUCCESS, Some (UINT64 Operand))
      else (RETURN_BUFFER_TOO_SMALL, Some UINT64_ERROR)
  end.

Definition SafeUintnToInt8 (Operand : Z) (Result : OUTP) : RETURN_STATUS * OUTP :=
  match Result with
  | None => (RETURN_INVALID_PARAMETER, None)
  | Some _ =>
      if (Operand <=? MAX_INT8)
      then (RETURN_SUCCESS, Some (INT8 Operand))
      else (RETURN_BUFFER_TOO_SMALL, Some INT8_ERROR)
  end.

Definition SafeUintnToChar8 (Operand : Z) (Result : OUTP) : RETURN_STATUS * OUTP :=
  match Result with
  | None => (RETURN_INVALID_PARAMETER, None)
  | Some _ =>
      if (Operand <=? MAX_INT8)
      then (RETURN_SUCCESS, Some (CHAR8 (INT8 Operand)))
      else (RETURN_BUFFER_TOO_SMALL, Some CHAR8_ERROR)
  end.

Definition SafeUintnToUint8 (Operand : Z) (Result : OUTP) : RETURN_STATUS * OUTP :=
  match Result with
  | None => (RETURN_INVALID_PARAMETER, None)
  | Some _ =>
      if (Operand <=? MAX_UINT8)
      then (RETURN_SUCCESS, Some (UINT8 Operand))
      else (RETURN_BUFFER_TOO_SMALL, Some UINT8_ERROR)
  end.

Definition SafeUintnToInt16 (Operand : Z) (Result : OUTP) : RETURN_STATUS * OUTP :=
  match Result with
  | None => (RETURN_INVALID_PARAMETER, None)
  | Some _ =>
      if (Operand <=? MAX_INT16)
      then (RETURN_SUCCESS, Some (INT16 Operand))
      else (RETURN_BUFFER_TOO_SMALL, Some INT16_ERROR)
  end.

Definition SafeUintnToUint16 (Operand : Z) (Result : OUTP) : RETURN_STATUS * OUTP :=
  match Result with
  | None => (RETURN_INVALID_PARAMETER, None)
  | Some _ =>
      if (Operand <=? MAX_UINT16)
      then (RETURN_SUCCESS, Some (UINT16 Operand))
      else (RETURN_BUFFER_TOO_SMALL, Some UINT16_ERROR)
  end.

Definition SafeUintnToInt32 (Operand : Z) (Result : OUTP) : RETURN_STATUS * OUTP :=
  match Result with
  | None => (RETURN_INVALID_PARAMETER, None)
  | Some _ =>
      if (Operand <=? MAX_INT32)
      then (RETURN_SUCCESS, Some (INT32 Operand))
      else (RETURN_BUFFER_TOO_SMALL, Some INT32_ERROR)
  end.

Definition SafeUintnToIntn (Operand : Z) (Result : OUTP) : RETURN_STATUS * OUTP :=
  match Result with
  | None => (RETURN_INVALID_PARAMETER, None)
  | Some _ =>
      if (Operand <=? MAX_INTN)
      then (RETURN_SUCCESS, Some (INTN Operand))
      else (RETURN_BUFFER_TOO_SMALL, Some INTN_ERROR)
  end.

Definition SafeInt64ToInt8 (Operand : Z) (Result : OUTP) : RETURN_STATUS * OUTP :=
  match Result with
  | None => (RETURN_INVALID_PARAMETER, None)
  | Some _ =>
      if ((MIN_INT8 <=? Operand) && (Operand <=? MAX_INT8))
      then (RETURN_SUCCESS, Some (INT8 Operand))
      else (RETURN_BUFFER_TOO_SMALL, Some INT8_ERROR)
  end.

Definition SafeInt64ToChar8 (Operand : Z) (Result : OUTP) : RETURN_STATUS * OUTP :=
  match Result with
  | None => (RETURN_INVALID_PARAMETER, None)
  | Some _ =>
      if ((0 <=? Operand) && (Operand <=? MAX_INT8))
      then (RETURN_SUCCESS, Some (CHAR8 Operand))
      else (RETURN_BUFFER_TOO_SMALL, Some CHAR8_ERROR)
  end.

Definition SafeInt64ToUint8 (Operand : Z) (Result : OUTP) : RETURN_STATUS * OUTP :=
  match Result with
  | None => (RETURN_INVALID_PARAMETER, None)
  | Some _ =>
      if ((0 <=? Operand) && (Operand <=? MAX_UINT8))
      then (RETURN_SUCCESS, Some (UINT8 Operand))
      else (RETURN_BUFFER_TOO_SMALL, Some UINT8_ERROR)
  end.

Definition SafeInt64ToInt16 (Operand : Z) (Result : OUTP) : RETURN_STATUS * OUTP :=
  match Result with
  | None => (RETURN_INVALID_PARAMETER, None)
  | Some _ =>
      if ((MIN_INT16 <=? Operand) && (Operand <=? MAX_INT16))
      then (RETURN_SUCCESS, Some (INT16 Operand))
      else (RETURN_BUFFER_TOO_SMALL, Some INT16_ERROR)
  end.

Definition SafeInt64ToUint16 (Operand : Z) (Result : OUTP) : RETURN_STATUS * OUTP :=
  match Result with
  | None => (RETURN_INVALID_PARAMETER, None)
  | Some _ =>
      if ((0 <=? Operand) && (Operand <=? MAX_UINT16))
      then (RETURN_SUCCESS, Some (UINT16 Operand))
      else (RETURN_BUFFER_TOO_SMALL, Some UINT16_ERROR)
  end.

Definition SafeInt64ToInt32 (Operand : Z) (Result : OUTP) : RETURN_STATUS * OUTP :=
  match Result with
  | None => (RETURN_INVALID_PARAMETER, None)
  | Some _ =>
      if ((MIN_INT32 <=? Operand) && (Operand <=? MAX_INT32))
      then (RETURN_SUCCESS, Some (INT32 Operand))
      else (RETURN_BUFFER_TOO_SMALL, Some INT32_ERROR)
  end.

Definition SafeInt64ToUint32 (Operand : Z) (Result : OUTP) : RETURN_STATUS * OUTP :=
  match Result with
  | None => (RETURN_INVALID_PARAMETER, None)
  | Some _ =>
      if ((0 <=? Operand) && (Operand <=? MAX_UINT32))
      then (RETURN_SUCCESS, Some (UINT32 Operand))
      else (RETURN_BUFFER_TOO_SMALL, Some UINT32_ERROR)
  end.

Definition SafeInt64ToUint64 (Operand : Z) (Result : OUTP) : RETURN_STATUS * OUTP :=
  match Result with
  | None => (RETURN_INVALID_PARAMETER, None)
  | Some _ =>
      if (0 <=? Operand)
      then (RETURN_SUCCESS, Some (UINT64 Operand))
      else (RETURN_BUFFER_TOO_SMALL, Some UINT64_ERROR)
  end.

Definition SafeUint64ToInt8 (Operand : Z) (Result : OUTP) : RETURN_STATUS * OUTP :=
  match Result with
  | None => (RETURN_INVALID_PARAMETER, None)
  | Some _ =>
      if (Operand <=? MAX_INT8)
      then (RETURN_SUCCESS, Some (INT8 Operand))
      else (RETURN_BUFFER_TOO_SMALL, Some INT8_ERROR)
  end.

Definition SafeUint64ToChar8 (Operand : Z) (Result : OUTP) : RETURN_STATUS * OUTP :=
  match Result with
  | None => (RETURN_INVALID_PARAMETER, None)
  | Some _ =>
      if (Operand <=? MAX_INT8)
      then (RETURN_SUCCESS, Some (CHAR8 (INT8 Operand)))
      else (RETURN_BUFFER_TOO_SMALL, Some CHAR8_ERROR)
  end.

Definition SafeUint64ToUint8 (Operand : Z) (Result : OUTP) : RETURN_STATUS * OUTP :=
  match Result with
  | None => (RETURN_INVALID_PARAMETER, None)
  | Some _ =>
      if (Operand <=? MAX_UINT8)
      then (RETURN_SUCCESS, Some (UINT8 Operand))
      else (RETURN_BUFFER_TOO_SMALL, Some UINT8_ERROR)
  end.

Definition SafeUint64ToInt16 (Operand : Z) (Result : OUTP) : RETURN_STATUS * OUTP :=
  match Result with
  | None => (RETURN_INVALID_PARAMETER, None)
  | Some _ =>
      if (Operand <=? MAX_INT16)
      then (RETURN_SUCCESS, Some (INT16 Operand))
      else (RETURN_BUFFER_TOO_SMALL, Some INT16_ERROR)
  end.

Definition SafeUint64ToUint16 (Operand : Z) (Result : OUTP) : RETURN_STATUS * OUTP :=
  match Result with
  | None => (RETURN_INVALID_PARAMETER, None)
  | Some _ =>
      if (Operand <=? MAX_UINT16)
      then (RETURN_SUCCESS, Some (UINT16 Operand))
      else (RETURN_BUFFER_TOO_SMALL, Some UINT16_ERROR)
  end.

Definition SafeUint64ToInt32 (Operand : Z) (Result : OUTP) : RETURN_STATUS * OUTP :=
  match Result with
  | None => (RETURN_INVALID_PARAMETER, None)
  | Some _ =>
      if (Operand <=? MAX_INT32)
      then (RETURN_SUCCESS, Some (INT32 Operand))
      else (RETURN_BUFFER_TOO_SMALL, Some INT32_ERROR)
  end.

Definition SafeUint64ToUint32 (Operand : Z) (Result : OUTP) : RETURN_STATUS * OUTP :=
  match Result with
  | None => (RETURN_INVALID_PARAMETER, None)
  | Some _ =>
      if (Operand <=? MAX_UINT32)
      then (RETURN_SUCCESS, Some (UINT32 Operand))
      else (RETURN_BUFFER_TOO_SMALL, Some UINT32_ERROR)
  end.

Definition SafeUint64ToIntn (Operand : Z) (Result : OUTP) : RETURN_STATUS * OUTP :=
  match Result with
  | None => (RETURN_INVALID_PARAMETER, None)
  | Some _ =>
      if (Operand <=? MAX_INTN)
      then (RETURN_SUCCESS, Some (INTN Operand))
      else (RETURN_BUFFER_TOO_SMALL, Some INTN_ERROR)
  end.

Definition SafeUint64ToInt64 (Operand : Z) (Result : OUTP) : RETURN_STATUS * OUTP :=
  match Result with
  | None => (RETURN_INVALID_PARAMETER, None)
  | Some _ =>
      if (Operand <=? MAX_INT64)
      then (RETURN_SUCCESS, Some (INT64 Operand))
      else (RETURN_BUFFER_TOO_SMALL, Some INT64_ERROR)
  end.

(** ** Unsigned arithmetic (SafeIntLib.c) *)

Definition SafeUint8Add (Augend Addend : Z) (Result : OUTP) : RETURN_STATUS * OUTP :=
  match Result with
  | None => (RETURN_INVALID_PARAMETER, None)
  | Some _ =>
      if Augend <=? UINT8 (Augend + Addend)
      then (RETURN_SUCCESS, Some (UINT8 (Augend + Addend)))
      else (RETURN_BUFFER_TOO_SMALL, Some UINT8_ERROR)
  end.

Definition SafeUint16Add (Augend Addend : Z) (Result : OUTP) : RETURN_STATUS * OUTP :=
  match Result with
  | None => (RETURN_INVALID_PARAMETER, None)
  | Some _ =>
      if Augend <=? UINT16 (Augend + Addend)
      then (RETURN_SUCCESS, Some (UINT16 (Augend + Addend)))
      else (RETURN_BUFFER_TOO_SMALL, Some UINT16_ERROR)
  end.

Definition SafeUint32Add (Augend Addend : Z) (Result : OUTP) : RETURN_STATUS * OUTP :=
  match Result with
  | None => (RETURN_INVALID_PARAMETER, None)
  | Some _ =>
      if Augend <=? UINT32 (Augend + Addend)
      then (RETURN_SUCCESS, Some (UINT32 (Augend + Addend)))
      else (RETURN_BUFFER_TOO_SMALL, Some UINT32_ERROR)
  end.

Definition SafeUint64Add (Augend Addend : Z) (Result : OUTP) : RETURN_STATUS * OUTP :=
  match Result with
  | None => (RETURN_INVALID_PARAMETER, None)
  | Some _ =>
      if Augend <=? UINT64 (Augend + Addend)
      then (RETURN_SUCCESS, Some (UINT64 (Augend + Addend)))
      else (RETURN_BUFFER_TOO_SMALL, Some UINT64_ERROR)
  end.

Definition SafeUint8Sub (Minuend Subtrahend : Z) (Result : OUTP) : RETURN_STATUS * OUTP :=
  match Result with
  | None => (RETURN_INVALID_PARAMETER, None)
  | Some _ =>
      if Subtrahend <=? Minuend
      then (RETURN_SUCCESS, Some (UINT8 (Minuend - Subtrahend)))
      else (RETURN_BUFFER_TOO_SMALL, Some UINT8_ERROR)
  end.

Definition SafeUint16Sub (Minuend Subtrahend : Z) (Result : OUTP) : RETURN_STATUS * OUTP :=
  match Result with
  | None => (RETURN_INVALID_PARAMETER, None)
  | Some _ =>
      if Subtrahend <=? Minuend
      then (RETURN_SUCCESS, Some (UINT16 (Minuend - Subtrahend)))
      else (RETURN_BUFFER_TOO_SMALL, Some UINT16_ERROR)
  end.

Definition SafeUint32Sub (Minuend Subtrahend : Z) (Result : OUTP) : RETURN_STATUS * OUTP :=
  match Result with
  | None => (RETURN_INVALID_PARAMETER, None)
  | Some _ =>
      if Subtrahend <=? Minuend
      then (RETURN_SUCCESS, Some (UINT32 (Minuend - Subtrahend)))
      else (RETURN_BUFFER_TOO_SMALL, Some UINT32_ERROR)
  end.

Definition SafeUint64Sub (Minuend Subtrahend : Z) (Result : OUTP) : RETURN_STATUS * OUTP :=
  match Result with
  | None => (RETURN_INVALID_PARAMETER, None)
  | Some _ =>
      if Subtrahend <=? Minuend
      then (RETURN_SUCCESS, Some (UINT64 (Minuend - Subtrahend)))
      else (RETURN_BUFFER_TOO_SMALL, Some UINT64_ERROR)
  end.

Definition SafeUint8Mult (Multiplicand Multiplier : Z) (Result : OUTP) : RETURN_STATUS * OUTP :=
  let IntermediateResult := UINT32 (UINT32 Multiplicand * UINT32 Multiplier) in
  SafeUint32ToUint8 IntermediateResult Result.

Definition SafeUint16Mult (Multiplicand Multiplier : Z) (Result : OUTP) : RETURN_STATUS * OUTP :=
  let IntermediateResult := UINT32 (UINT32 Multiplicand * UINT32 Multiplier) in
  SafeUint32ToUint16 IntermediateResult Result.

Definition SafeUint32Mult (Multiplicand Multiplier : Z) (Result : OUTP) : RETURN_STATUS * OUTP :=
  let IntermediateResult := UINT64 (UINT64 Multiplicand * UINT64 Multiplier) in
  SafeUint64ToUint32 IntermediateResult Result.

(** The 64 x 64 product from 32-bit halves.  [UnsignedResult] is the local
    the nested calls write through their out pointer; every path that does
    not reach the product leaves the status at RETURN_BUFFER_TOO_SMALL, and
    the final test then stores UINT64_ERROR. *)
Definition SafeUint64Mult (Multiplicand Multiplier : Z) (Result : OUTP)
  : outcome (RETURN_STATUS * OUTP) :=
  match Result with
  | None => Ok (RETURN_INVALID_PARAMETER, None)
  | Some _ =>
      let TooSmall := Ok (RETURN_BUFFER_TOO_SMALL, Some UINT64_ERROR) in
      do hA <- RShiftU64 Multiplicand 32 ;
      do hC <- RShiftU64 Multiplier 32 ;
      let DwordA := UINT32 hA in
      let DwordC := UINT32 hC in
      if (DwordA =? 0) && (DwordC =? 0) then
        let DwordB := UINT32 Multiplicand in
        let DwordD := UINT32 Multiplier in
        Ok (RETURN_SUCCESS, Some (UINT64 (UINT64 DwordB * UINT64 DwordD)))
      else if (DwordA =? 0) || (DwordC =? 0) then
        let DwordD := UINT32 Multiplier in
        let ProductAD := MultU64x64 (UINT64 DwordA) (UINT64 DwordD) in
        if Z.land ProductAD 0xffffffff00000000 =? 0 then
          let DwordB := UINT32 Multiplicand in
          let ProductBC := MultU64x64 (UINT64 DwordB) (UINT64 DwordC) in
          if Z.land ProductBC 0xffffffff00000000 =? 0 then
            do sBC <- LShiftU64 ProductBC 32 ;
            do sAD <- LShiftU64 ProductAD 32 ;
            match SafeUint64Add sBC sAD (Some 0) with
            | (RETURN_SUCCESS, Some UnsignedResult) =>
                let ProductBD := MultU64x64 (UINT64 DwordB) (UINT64 DwordD) in
                match SafeUint64Add UnsignedResult ProductBD (Some UnsignedResult) with
                | (RETURN_SUCCESS, Some UnsignedResult) =>
                    Ok (RETURN_SUCCESS, Some UnsignedResult)
                | _ => TooSmall
                end
            | _ => TooSmall
            end
          else TooSmall
        else TooSmall
      else TooSmall
  end.

(** ** Signed arithmetic (SafeIntLib.c) *)

Definition SafeInt8Add (Augend Addend : Z) (Result : OUTP) : RETURN_STATUS * OUTP :=
  SafeInt32ToInt8 (INT32 (INT32 Augend + INT32 Addend)) Result.

Definition SafeChar8Add (Augend Addend : Z) (Result : OUTP) : RETURN_STATUS * OUTP :=
  match Result with
  | None => (RETURN_INVALID_PARAMETER, None)
  | Some _ =>
      let Augend32 := INT32 Augend in
      let Addend32 := INT32 Addend in
      if (Augend32 <? 0) || (MAX_INT8 <? Augend32)
      then (RETURN_BUFFER_TOO_SMALL, Some CHAR8_ERROR)
      else if (Addend32 <? 0) || (MAX_INT8 <? Addend32)
      then (RETURN_BUFFER_TOO_SMALL, Some CHAR8_ERROR)
      else SafeInt32ToChar8 (INT32 (Augend32 + Addend32)) Result
  end.

Definition SafeInt16Add (Augend Addend : Z) (Result : OUTP) : RETURN_STATUS * OUTP :=
  SafeInt32ToInt16 (INT32 (INT32 Augend + INT32 Addend)) Result.

Definition SafeInt32Add (Augend Addend : Z) (Result : OUTP) : RETURN_STATUS * OUTP :=
  SafeInt64ToInt32 (INT64 (INT64 Augend + INT64 Addend)) Result.

Definition SafeInt64Add (Augend Addend : Z) (Result : OUTP) : RETURN_STATUS * OUTP :=
  match Result with
  | None => (RETURN_INVALID_PARAMETER, None)
  | Some _ =>
      if ((0 <? Addend) && (INT64 (MAX_INT64 - Addend) <? Augend))
         || ((Addend <? 0) && (Augend <? INT64 (MIN_INT64 - Addend)))
      then (RETURN_BUFFER_TOO_SMALL, Some INT64_ERROR)
      else (RETURN_SUCCESS, Some (INT64 (Augend + Addend)))
  end.

Definition SafeInt8Sub (Minuend Subtrahend : Z) (Result : OUTP) : RETURN_STATUS * OUTP :=
  SafeInt32ToInt8 (INT32 (INT32 Minuend - INT32 Subtrahend)) Result.

Definition SafeChar8Sub (Minuend Subtrahend : Z) (Result : OUTP) : RETURN_STATUS * OUTP :=
  match Result with
  | None => (RETURN_INVALID_PARAMETER, None)
  | Some _ =>
      let Minuend32 := INT32 Minuend in
      let Subtrahend32 := INT32 Subtrahend in
      if (Minuend32 <? 0) || (MAX_INT8 <? Minuend32)
      then (RETURN_BUFFER_TOO_SMALL, Some CHAR8_ERROR)
      else if (Subtrahend32 <? 0) || (MAX_INT8 <? Subtrahend32)
      then (RETURN_BUFFER_TOO_SMALL, Some CHAR8_ERROR)
      else SafeInt32ToChar8 (INT32 (Minuend32 - Subtrahend32)) Result
  end.

Definition SafeInt16Sub (Minuend Subtrahend : Z) (Result : OUTP) : RETURN_STATUS * OUTP :=
  SafeInt32ToInt16 (INT32 (INT32 Minuend - INT32 Subtrahend)) Result.

Definition SafeInt32Sub (Minuend Subtrahend : Z) (Result : OUTP) : RETURN_STATUS * OUTP :=
  SafeInt64ToInt32 (INT64 (INT64 Minuend - INT64 Subtrahend)) Result.

Definition SafeInt64Sub (Minuend Subtrahend : Z) (Result : OUTP) : RETURN_STATUS * OUTP :=
  match Result with
  | None => (RETURN_INVALID_PARAMETER, None)
  | Some _ =>
      if ((0 <? Subtrahend) && (Minuend <? INT64 (MIN_INT64 + Subtrahend)))
         || ((Subtrahend <? 0) && (INT64 (MAX_INT64 + Subtrahend) <? Minuend))
      then (RETURN_BUFFER_TOO_SMALL, Some INT64_ERROR)
      else (RETURN_SUCCESS, Some (INT64 (Minuend - Subtrahend)))
  end.

Definition SafeInt8Mult (Multiplicand Multiplier : Z) (Result : OUTP) : RETURN_STATUS * OUTP :=
  SafeInt32ToInt8 (INT32 (INT32 Multiplier * INT32 Multiplicand)) Result.

Definition SafeChar8Mult (Multiplicand Multiplier : Z) (Result : OUTP) : RETURN_STATUS * OUTP :=
  match Result with
  | None => (RETURN_INVALID_PARAMETER, None)
  | Some _ =>
      let Multiplicand32 := INT32 Multiplicand in
      let Multiplier32 := INT32 Multiplier in
      if (Multiplicand32 <? 0) || (MAX_INT8 <? Multiplicand32)
      then (RETURN_BUFFER_TOO_SMALL, Some CHAR8_ERROR)
      else if (Multiplier32 <? 0) || (MAX_INT8 <? Multiplier32)
      then (RETURN_BUFFER_TOO_SMALL, Some CHAR8_ERROR)
      else SafeInt32ToChar8 (INT32 (Multiplicand32 * Multiplier32)) Result
  end.

Definition SafeInt16Mult (Multiplicand Multiplier : Z) (Result : OUTP) : RETURN_STATUS * OUTP :=
  SafeInt32ToInt16 (INT32 (INT32 Multiplicand * INT32 Multiplier)) Result.

Definition SafeInt32Mult (Multiplicand Multiplier : Z) (Result : OUTP) : RETURN_STATUS * OUTP :=
  SafeInt64ToInt32 (MultS64x64 Multiplicand Multiplier) Result.

Definition SafeInt64Mult (Multiplicand Multiplier : Z) (Result : OUTP)
  : outcome (RETURN_STATUS * OUTP) :=
  match Result with
  | None => Ok (RETURN_INVALID_PARAMETER, None)
  | Some _ =>
      let UnsignedMultiplicand :=
        if Multiplicand <? 0 then UINT64 (UINT64 (INT64 (- INT64 (Multiplicand + 1))) + 1)
        else UINT64 Multiplicand in
      let UnsignedMultiplier :=
        if Multiplier <? 0 then UINT64 (UINT64 (INT64 (- INT64 (Multiplier + 1))) + 1)
        else UINT64 Multiplier in
      do r <- SafeUint64Mult UnsignedMultiplicand UnsignedMultiplier (Some 0) ;
      match r with
      | (RETURN_SUCCESS, Some UnsignedResult) =>
          if negb (Bool.eqb (Multiplicand <? 0) (Multiplier <? 0)) then
            if MIN_INT64_MAGNITUDE <? UnsignedResult
            then Ok (RETURN_BUFFER_TOO_SMALL, Some INT64_ERROR)
            else if UnsignedResult =? MIN_INT64_MAGNITUDE
            then Ok (RETURN_SUCCESS, Some MIN_INT64)
            else Ok (RETURN_SUCCESS, Some (INT64 (- INT64 UnsignedResult)))
          else
            if MAX_INT64 <? UnsignedResult
            then Ok (RETURN_BUFFER_TOO_SMALL, Some INT64_ERROR)
            else Ok (RETURN_SUCCESS, Some (INT64 UnsignedResult))
      | (Status, _) => Ok (Status, Some INT64_ERROR)
      end
  end.

(** ** The word-size files *)

(** SafeIntLib32.c *)
Definition SafeInt32ToUintn_32 (Operand : Z) (Result : OUTP) := SafeInt32ToUint32 Operand Result.
Definition SafeUint32ToIntn_32 (Operand : Z) (Result : OUTP) := SafeUint32ToInt32 Operand Result.
Definition SafeIntnToInt32_32 (Operand : Z) (Result : OUTP) : RETURN_STATUS * OUTP :=
  match Result with
  | None => (RETURN_INVALID_PARAMETER, None)
  | Some _ => (RETURN_SUCCESS, Some (INT32 Operand))
  end.
Definition SafeIntnToUint32_32 (Operand : Z) (Result : OUTP) : RETURN_STATUS * OUTP :=
  match Result with
  | None => (RETURN_INVALID_PARAMETER, None)
  | Some _ =>
      if (0 <=? Operand)
      then (RETURN_SUCCESS, Some (UINT32 Operand))
      else (RETURN_BUFFER_TOO_SMALL, Some UINT32_ERROR)
  end.
Definition SafeUintnToUint32_32 (Operand : Z) (Result : OUTP) : RETURN_STATUS * OUTP :=
  match Result with
  | None => (RETURN_INVALID_PARAMETER, None)
  | Some _ => (RETURN_SUCCESS, Some (UINT32 Operand))
  end.
Definition SafeUintnToInt64_32 (Operand : Z) (Result : OUTP) : RETURN_STATUS * OUTP :=
  match Result with
  | None => (RETURN_INVALID_PARAMETER, None)
  | Some _ => (RETURN_SUCCESS, Some (INT64 Operand))
  end.
Definition SafeInt64ToIntn_32 (Operand : Z) (Result : OUTP) := SafeInt64ToInt32 Operand Result.
Definition SafeInt64ToUintn_32 (Operand : Z) (Result : OUTP) := SafeInt64ToUint32 Operand Result.
Definition SafeUint64ToUintn_32 (Operand : Z) (Result : OUTP) :=
  SafeUint64ToUint32 (UINT64 Operand) Result.
Definition SafeUintnAdd_32 (Augend Addend : Z) (Result : OUTP) : RETURN_STATUS * OUTP :=
  match Result with
  | None => (RETURN_INVALID_PARAMETER, None)
  | Some _ =>
      if Augend <=? UINTN (Augend + Addend)
      then (RETURN_SUCCESS, Some (UINTN (Augend + Addend)))
      else (RETURN_BUFFER_TOO_SMALL, Some UINTN_ERROR)
  end.
Definition SafeUintnSub_32 (Minuend Subtrahend : Z) (Result : OUTP) : RETURN_STATUS * OUTP :=
  match Result with
  | None => (RETURN_INVALID_PARAMETER, None)
  | Some _ =>
      if Subtrahend <=? Minuend
      then (RETURN_SUCCESS, Some (UINTN (Minuend - Subtrahend)))
      else (RETURN_BUFFER_TOO_SMALL, Some UINTN_ERROR)
  end.
Definition SafeUintnMult_32 (Multiplicand Multiplier : Z) (Result : OUTP) : RETURN_STATUS * OUTP :=
  let IntermediateResult := UINT64 (UINT64 Multiplicand * UINT64 Multiplier) in
  SafeUint64ToUintn_32 IntermediateResult Result.
Definition SafeIntnAdd_32 (Augend Addend : Z) (Result : OUTP) : RETURN_STATUS * OUTP :=
  SafeInt64ToIntn_32 (INT64 (INT64 Augend + INT64 Addend)) Result.
Definition SafeIntnSub_32 (Minuend Subtrahend : Z) (Result : OUTP) : RETURN_STATUS * OUTP :=
  SafeInt64ToIntn_32 (INT64 (INT64 Minuend - INT64 Subtrahend)) Result.
Definition SafeIntnMult_32 (Multiplicand Multiplier : Z) (Result : OUTP) : RETURN_STATUS * OUTP :=
  SafeInt64ToIntn_32 (MultS64x64 Multiplicand Multiplier) Result.

(** SafeIntLib64.c *)
Definition SafeInt32ToUintn_64 (Operand : Z) (Result : OUTP) := SafeInt32ToUint64 Operand Result.
Definition SafeUint32ToIntn_64 (Operand : Z) (Result : OUTP) : RETURN_STATUS * OUTP :=
  match Result with
  | None => (RETURN_INVALID_PARAMETER, None)
  | Some _ => (RETURN_SUCCESS, Some (INTN Operand))
  end.
Definition SafeIntnToInt32_64 (Operand : Z) (Result : OUTP) := SafeInt64ToInt32 (INT64 Operand) Result.
Definition SafeIntnToUint32_64 (Operand : Z) (Result : OUTP) := SafeInt64ToUint32 (INT64 Operand) Result.
Definition SafeUintnToUint32_64 (Operand : Z) (Result : OUTP) :=
  SafeUint64ToUint32 (UINT64 Operand) Result.
Definition SafeUintnToInt64_64 (Operand : Z) (Result : OUTP) :=
  SafeUint64ToInt64 (UINT64 Operand) Result.
Definition SafeInt64ToIntn_64 (Operand : Z) (Result : OUTP) : RETURN_STATUS * OUTP :=
  match Result with
  | None => (RETURN_INVALID_PARAMETER, None)
  | Some _ => (RETURN_SUCCESS, Some (INTN Operand))
  end.
Definition SafeInt64ToUintn_64 (Operand : Z) (Result : OUTP) := SafeInt64ToUint64 Operand Result.
Definition SafeUint64ToUintn_64 (Operand : Z) (Result : OUTP) : RETURN_STATUS * OUTP :=
  match Result with
  | None => (RETURN_INVALID_PARAMETER, None)
  | Some _ => (RETURN_SUCCESS, Some (UINTN Operand))
  end.
Definition SafeUintnAdd_64 (Augend Addend : Z) (Result : OUTP) : RETURN_STATUS * OUTP :=
  SafeUint64Add (UINT64 Augend) (UINT64 Addend) Result.
Definition SafeUintnSub_64 (Minuend Subtrahend : Z) (Result : OUTP) : RETURN_STATUS * OUTP :=
  SafeUint64Sub (UINT64 Minuend) (UINT64 Subtrahend) Result.
Definition SafeUintnMult_64 (Multiplicand Multiplier : Z) (Result : OUTP)
  : outcome (RETURN_STATUS * OUTP) :=
  SafeUint64Mult (UINT64 Multiplicand) (UINT64 Multiplier) Result.
Definition SafeIntnAdd_64 (Augend Addend : Z) (Result : OUTP) : RETURN_STATUS * OUTP :=
  SafeInt64Add (INT64 Augend) (INT64 Addend) Result.
Definition SafeIntnSub_64 (Minuend Subtrahend : Z) (Result : OUTP) : RETURN_STATUS * OUTP :=
  SafeInt64Sub (INT64 Minuend) (INT64 Subtrahend) Result.
Definition SafeIntnMult_64 (Multiplicand Multiplier : Z) (Result : OUTP)
  : outcome (RETURN_STATUS * OUTP) :=
  SafeInt64Mult (INT64 Multiplicand) (INT64 Multiplier) Result.


(** ** Abstract specification *)

Inductive CTYPE : Type :=
| TINT8 | TUINT8 | TCHAR8 | TINT16 | TUINT16 | TINT32 | TUINT32
| TINT64 | TUINT64 | TINTN | TUINTN.

(** The values a result of the type may take.  For CHAR8 the library only
    accepts the 7-bit ASCII range, whatever the signedness of [char]. *)
Definition type_lo (t : CTYPE) : Z :=
  match t with
  | TINT8 => - 2 ^ 7 | TINT16 => - 2 ^ 15 | TINT32 => - 2 ^ 31 | TINT64 => - 2 ^ 63
  | TINTN => - 2 ^ (W - 1)
  | _ => 0
  end.
Definition type_hi (t : CTYPE) : Z :=
  match t with
  | TINT8 | TCHAR8 => 2 ^ 7 - 1 | TINT16 => 2 ^ 15 - 1
  | TINT32 => 2 ^ 31 - 1 | TINT64 => 2 ^ 63 - 1 | TINTN => 2 ^ (W - 1) - 1
  | TUINT8 => 2 ^ 8 - 1 | TUINT16 => 2 ^ 16 - 1 | TUINT32 => 2 ^ 32 - 1
  | TUINT64 => 2 ^ 64 - 1 | TUINTN => 2 ^ W - 1
  end.
Definition fits (t : CTYPE) (x : Z) : bool := (type_lo t <=? x) && (x <=? type_hi t).

(** The value stored on overflow: all ones, or 0x7F for CHAR8. *)
Definition type_error (t : CTYPE) : Z :=
  match t with
  | TINT8 | TINT16 | TINT32 | TINT64 | TINTN => -1
  | TCHAR8 => 127
  | _ => type_hi t
  end.

(** The values an operand of the type may have. *)
Definition operand_of (t : CTYPE) (x : Z) : Prop :=
  match t with
  | TCHAR8 => if char_signed then - 2 ^ 7 <= x < 2 ^ 7 else 0 <= x < 2 ^ 8
  | _ => type_lo t <= x <= type_hi t
  end.

Definition ConvSpec (dst : CTYPE) (x : Z) (Result : OUTP) : RETURN_STATUS * OUTP :=
  match Result with
  | None => (RETURN_INVALID_PARAMETER, None)
  | Some _ =>
      if fits dst x then (RETURN_SUCCESS, Some x)
      else (RETURN_BUFFER_TOO_SMALL, Some (type_error dst))
  end.

Definition BinSpec (t : CTYPE) (op : Z -> Z -> Z) (a b : Z) (Result : OUTP)
  : RETURN_STATUS * OUTP :=
  match Result with
  | None => (RETURN_INVALID_PARAMETER, None)
  | Some _ =>
      if fits t a && fits t b && fits t (op a b) then (RETURN_SUCCESS, Some (op a b))
      else (RETURN_BUFFER_TOO_SMALL, Some (type_error t))
  end.

(** ** Tables of the library's functions *)

Record Conv := mkConv {
  conv_src : CTYPE;
  conv_dst : CTYPE;
  conv_fn : Z -> OUTP -> RETURN_STATUS * OUTP
}.

Record Binop := mkBinop {
  bin_type : CTYPE;
  bin_op : Z -> Z -> Z;
  bin_fn : Z -> Z -> OUTP -> outcome (RETURN_STATUS * OUTP)
}.

(** A function that always returns. *)
Definition total (f : Z -> Z -> OUTP -> RETURN_STATUS * OUTP) (a b : Z) (R : OUTP)
  : outcome (RETURN_STATUS * OUTP) := Ok (f a b R).

Definition SafeConversions : list Conv :=
  [mkConv TINT8 TUINT8 SafeInt8ToUint8;
   mkConv TINT8 TCHAR8 SafeInt8ToChar8;
   mkConv TINT8 TUINT16 SafeInt8ToUint16;
   mkConv TINT8 TUINT32 SafeInt8ToUint32;
   mkConv TINT8 TUINTN SafeInt8ToUintn;
   mkConv TINT8 TUINT64 SafeInt8ToUint64;
   mkConv TUINT8 TINT8 SafeUint8ToInt8;
   mkConv TUINT8 TCHAR8 SafeUint8ToChar8;
   mkConv TINT16 TINT8 SafeInt16ToInt8;
   mkConv TINT16 TCHAR8 SafeInt16ToChar8;
   mkConv TINT16 TUINT8 SafeInt16ToUint8;
   mkConv TINT16 TUINT16 SafeInt16ToUint16;
   mkConv TINT16 TUINT32 SafeInt16ToUint32;
   mkConv TINT16 TUINTN SafeInt16ToUintn;
   mkConv TINT16 TUINT64 SafeInt16ToUint64;
   mkConv TUINT16 TINT8 SafeUint16ToInt8;
   mkConv TUINT16 TCHAR8 SafeUint16ToChar8;
   mkConv TUINT16 TUINT8 SafeUint16ToUint8;
   mkConv TUINT16 TINT16 SafeUint16ToInt16;
   mkConv TINT32 TINT8 SafeInt32ToInt8;
   mkConv TINT32 TCHAR8 SafeInt32ToChar8;
   mkConv TINT32 TUINT8 SafeInt32ToUint8;
   mkConv TINT32 TINT16 SafeInt32ToInt16;
   mkConv TINT32 TUINT16 SafeInt32ToUint16;
   mkConv TINT32 TUINT32 SafeInt32ToUint32;
   mkConv TINT32 TUINT64 SafeInt32ToUint64;
   mkConv TUINT32 TINT8 SafeUint32ToInt8;
   mkConv TUINT32 TCHAR8 SafeUint32ToChar8;
   mkConv TUINT32 TUINT8 SafeUint32ToUint8;
   mkConv TUINT32 TINT16 SafeUint32ToInt16;
   mkConv TUINT32 TUINT16 SafeUint32ToUint16;
   mkConv TUINT32 TINT32 SafeUint32ToInt32;
   mkConv TINTN TINT8 SafeIntnToInt8;
   mkConv TINTN TCHAR8 SafeIntnToChar8;
   mkConv TINTN TUINT8 SafeIntnToUint8;
   mkConv TINTN TINT16 SafeIntnToInt16;
   mkConv TINTN TUINT16 SafeIntnToUint16;
   mkConv TINTN TUINTN SafeIntnToUintn;
   mkConv TINTN TUINT64 SafeIntnToUint64;
   mkConv TUINTN TINT8 SafeUintnToInt8;
   mkConv TUINTN TCHAR8 SafeUintnToChar8;
   mkConv TUINTN TUINT8 SafeUintnToUint8;
   mkConv TUINTN TINT16 SafeUintnToInt16;
   mkConv TUINTN TUINT16 SafeUintnToUint16;
   mkConv TUINTN TINT32 SafeUintnToInt32;
   mkConv TUINTN TINTN SafeUintnToIntn;
   mkConv TINT64 TINT8 SafeInt64ToInt8;
   mkConv TINT64 TCHAR8 SafeInt64ToChar8;
   mkConv TINT64 TUINT8 SafeInt64ToUint8;
   mkConv TINT64 TINT16 SafeInt64ToInt16;
   mkConv TINT64 TUINT16 SafeInt64ToUint16;
   mkConv TINT64 TINT32 SafeInt64ToInt32;
   mkConv TINT64 TUINT32 SafeInt64ToUint32;
   mkConv TINT64 TUINT64 SafeInt64ToUint64;
   mkConv TUINT64 TINT8 SafeUint64ToInt8;
   mkConv TUINT64 TCHAR8 SafeUint64ToChar8;
   mkConv TUINT64 TUINT8 SafeUint64ToUint8;
   mkConv TUINT64 TINT16 SafeUint64ToInt16;
   mkConv TUINT64 TUINT16 SafeUint64ToUint16;
   mkConv TUINT64 TINT32 SafeUint64ToInt32;
   mkConv TUINT64 TUINT32 SafeUint64ToUint32;
   mkConv TUINT64 TINTN SafeUint64ToIntn;
   mkConv TUINT64 TINT64 SafeUint64ToInt64].

Definition SafeConversions32 : list Conv :=
  [mkConv TINT32 TUINTN SafeInt32ToUintn_32;
   mkConv TUINT32 TINTN SafeUint32ToIntn_32;
   mkConv TINTN TINT32 SafeIntnToInt32_32;
   mkConv TINTN TUINT32 SafeIntnToUint32_32;
   mkConv TUINTN TUINT32 SafeUintnToUint32_32;
   mkConv TUINTN TINT64 SafeUintnToInt64_32;
   mkConv TINT64 TINTN SafeInt64ToIntn_32;
   mkConv TINT64 TUINTN SafeInt64ToUintn_32;
   mkConv TUINT64 TUINTN SafeUint64ToUintn_32].

Definition SafeConversions64 : list Conv :=
  [mkConv TINT32 TUINTN SafeInt32ToUintn_64;
   mkConv TUINT32 TINTN SafeUint32ToIntn_64;
   mkConv TINTN TINT32 SafeIntnToInt32_64;
   mkConv TINTN TUINT32 SafeIntnToUint32_64;
   mkConv TUINTN TUINT32 SafeUintnToUint32_64;
   mkConv TUINTN TINT64 SafeUintnToInt64_64;
   mkConv TINT64 TINTN SafeInt64ToIntn_64;
   mkConv TINT64 TUINTN SafeInt64ToUintn_64;
   mkConv TUINT64 TUINTN SafeUint64ToUintn_64].

Definition SafeBinops : list Binop :=
  [mkBinop TUINT8 Z.add (total SafeUint8Add); mkBinop TUINT16 Z.add (total SafeUint16Add);
   mkBinop TUINT32 Z.add (total SafeUint32Add); mkBinop TUINT64 Z.add (total SafeUint64Add);
   mkBinop TUINT8 Z.sub (total SafeUint8Sub); mkBinop TUINT16 Z.sub (total SafeUint16Sub);
   mkBinop TUINT32 Z.sub (total SafeUint32Sub); mkBinop TUINT64 Z.sub (total SafeUint64Sub);
   mkBinop TUINT8 Z.mul (total SafeUint8Mult); mkBinop TUINT16 Z.mul (total SafeUint16Mult);
   mkBinop TUINT32 Z.mul (total SafeUint32Mult); mkBinop TUINT64 Z.mul SafeUint64Mult;
   mkBinop TINT8 Z.add (total SafeInt8Add); mkBinop TCHAR8 Z.add (total SafeChar8Add);
   mkBinop TINT16 Z.add (total SafeInt16Add); mkBinop TINT32 Z.add (total SafeInt32Add);
   mkBinop TINT64 Z.add (total SafeInt64Add);
   mkBinop TINT8 Z.sub (total SafeInt8Sub); mkBinop TCHAR8 Z.sub (total SafeChar8Sub);
   mkBinop TINT16 Z.sub (total SafeInt16Sub); mkBinop TINT32 Z.sub (total SafeInt32Sub);
   mkBinop TINT64 Z.sub (total SafeInt64Sub);
   mkBinop TINT8 Z.mul (total SafeInt8Mult); mkBinop TCHAR8 Z.mul (total SafeChar8Mult);
   mkBinop TINT16 Z.mul (total SafeInt16Mult); mkBinop TINT32 Z.mul (total SafeInt32Mult);
   mkBinop TINT64 Z.mul SafeInt64Mult].

Definition SafeBinops32 : list Binop :=
  [mkBinop TUINTN Z.add (total SafeUintnAdd_32); mkBinop TUINTN Z.sub (total SafeUintnSub_32);
   mkBinop TUINTN Z.mul (total SafeUintnMult_32); mkBinop TINTN Z.add (total SafeIntnAdd_32);
   mkBinop TINTN Z.sub (total SafeIntnSub_32); mkBinop TINTN Z.mul (total SafeIntnMult_32)].

Definition SafeBinops64 : list Binop :=
  [mkBinop TUINTN Z.add (total SafeUintnAdd_64); mkBinop TUINTN Z.sub (total SafeUintnSub_64);
   mkBinop TUINTN Z.mul SafeUintnMult_64; mkBinop TINTN Z.add (total SafeIntnAdd_64);
   mkBinop TINTN Z.sub (total SafeIntnSub_64); mkBinop TINTN Z.mul SafeIntnMult_64].

Definition conv_correct (c : Conv) : Prop :=
  forall x R, operand_of (conv_src c) x -> conv_fn c x R = ConvSpec (conv_dst c) x R.

Definition binop_correct (o : Binop) : Prop :=
  forall a b R, operand_of (bin_type o) a -> operand_of (bin_type o) b ->
    bin_fn o a b R = Ok (BinSpec (bin_type o) (bin_op o) a b R).

(** ** Proof support *)

Lemma CHAR8_id x : 0 <= x < 128 -> CHAR8 x = x.
Proof.
  intros. unfold CHAR8. destruct char_signed.
  - apply wrapS_id; unfold inS; lia.
  - apply wrapU_id; unfold inU; lia.
Qed.

(** The shape all conversions share: a test, a cast, an error value. *)
Lemma conv_shape (test : bool) (v : Z) err dst x (R : OUTP) :
  test = fits dst x -> (fits dst x = true -> v = x) -> err = type_error dst ->
  match R with
  | None => (RETURN_INVALID_PARAMETER, None)
  | Some _ => if test then (RETURN_SUCCESS, Some v) else (RETURN_BUFFER_TOO_SMALL, Some err)
  end = ConvSpec dst x R.
Proof.
  intros -> Hv ->. unfold ConvSpec. destruct R; [|done].
  destruct (fits dst x) eqn:E; [|done]. now rewrite Hv.
Qed.
End SafeIntLib.

#[local] Opaque Z.pow.
Ltac safe_consts :=
  unfold INT8_ERROR, UINT8_ERROR, CHAR8_ERROR, INT16_ERROR, UINT16_ERROR, INT32_ERROR,
    UINT32_ERROR, INT64_ERROR, UINT64_ERROR, INTN_ERROR, UINTN_ERROR, MIN_INT64_MAGNITUDE,
    INT8, UINT8, INT16, UINT16, INT32, UINT32, INT64, UINT64, INTN, UINTN,
    MAX_INT8, MAX_UINT8, MAX_INT16, MAX_UINT16, MAX_INT32, MAX_UINT32, MAX_INT64, MAX_UINT64,
    MIN_INT8, MIN_INT16, MIN_INT32, MIN_INT64, MAX_INTN, MAX_UINTN, type_error in *.
Ltac safe_fits :=
  unfold fits, operand_of, type_lo, type_hi in *;
  change (2 ^ (32 - 1)) with (2 ^ 31) in *; change (2 ^ (64 - 1)) with (2 ^ 63) in *.
Ltac leb_cases :=
  repeat match goal with
    | |- context [?a <=? ?b] => destruct (Z.leb_spec a b); try lia
    | |- context [?a <? ?b] => destruct (Z.ltb_spec a b); try lia
    end.
Ltac wrap_ids :=
  repeat first
    [ rewrite wrapU_id by (unfold inU; lia)
    | rewrite wrapS_id by (unfold inS; lia)
    | rewrite CHAR8_id by lia ].
Ltac conv_solve :=
  intros x R Hx; cbn [conv_src conv_dst conv_fn] in *;
  apply conv_shape;
  [ safe_consts; safe_fits; leb_cases; reflexivity
  | intros Hf; safe_consts; safe_fits; rewrite andb_true_iff, !Z.leb_le in Hf; wrap_ids; reflexivity
  | safe_consts; safe_fits; wrap_ids; reflexivity ].

(** ** Arithmetic *)

(** The wrap-around test [(a + b) >= a] detects exactly the overflow. *)
Lemma add_test w a b :
  0 <= w -> inU w a -> inU w b -> (a <=? wrapU w (a + b)) = (a + b <=? 2 ^ w - 1).
Proof.
  intros Hw Ha Hb. rewrite wrapU_add_wrap by done. unfold inU in *.
  case_decide; destruct (Z.leb_spec (a + b) (2 ^ w - 1)); try lia;
    destruct (Z.leb_spec a (a + b)), (Z.leb_spec a (a + b - 2 ^ w)); try lia; done.
Qed.

(** The shape of the checked additions and subtractions. *)
Lemma bin_shape (test : bool) (v : Z) err t op a b W (R : OUTP) :
  fits W t a = true -> fits W t b = true ->
  test = fits W t (op a b) -> (fits W t (op a b) = true -> v = op a b) -> err = type_error W t ->
  match R with
  | None => (RETURN_INVALID_PARAMETER, None)
  | Some _ => if test then (RETURN_SUCCESS, Some v) else (RETURN_BUFFER_TOO_SMALL, Some err)
  end = BinSpec W t op a b R.
Proof.
  intros Ha Hb -> Hv ->. unfold BinSpec. rewrite Ha, Hb. destruct R; [|done]. cbn [andb].
  destruct (fits W t (op a b)) eqn:E; [|done]. now rewrite Hv.
Qed.

Lemma bin_of_conv W t op a b R :
  fits W t a = true -> fits W t b = true -> ConvSpec W t (op a b) R = BinSpec W t op a b R.
Proof. intros Ha Hb. unfold ConvSpec, BinSpec. now rewrite Ha, Hb. Qed.

Lemma fits_iff W t x : fits W t x = true <-> type_lo W t <= x <= type_hi W t.
Proof. unfold fits. now rewrite andb_true_iff, !Z.leb_le. Qed.

Lemma land_high_zero P :
  inU 64 P -> (Z.land P 0xffffffff00000000 =? 0) = (P <? 2 ^ 32).
Proof.
  intros HP. assert (E : Z.land P 0xffffffff00000000 = P - P mod 2 ^ 32).
  { replace (P - P mod 2 ^ 32) with (Z.shiftl (Z.shiftr P 32) 32).
    - change 0xffffffff00000000 with (Z.shiftl (Z.ones 32) 32).
      apply Z.bits_inj'. intros i Hi. autorewrite with bits.
      destruct (Z.lt_ge_cases i 32).
      + rewrite !(Z.testbit_neg_r _ (i - 32)) by lia. now rewrite andb_false_r.
      + rewrite Z.shiftr_spec by lia. replace (i - 32 + 32) with i by lia.
        destruct (Z.lt_ge_cases i 64).
        * rewrite Z.ones_spec_low by lia. now rewrite andb_true_r.
        * rewrite (testbit_inU_high 64 P i) by (done || lia). done.
    - rewrite Z.shiftl_mul_pow2, Z.shiftr_div_pow2 by lia.
      pose proof (Z.div_mod P (2 ^ 32) ltac:(lia)). lia. }
  rewrite E. unfold inU in HP. destruct (Z.ltb_spec P (2 ^ 32)).
  - rewrite Z.mod_small by lia. apply Z.eqb_eq. lia.
  - apply Z.eqb_neq. pose proof (Z.mod_pos_bound P (2 ^ 32) ltac:(lia)). lia.
Qed.

Lemma shift_halves a :
  inU 64 a -> RShiftU64 a 32 = Ok (a / 2 ^ 32) /\ inU 32 (a / 2 ^ 32) /\
              inU 32 (a mod 2 ^ 32) /\ a = a / 2 ^ 32 * 2 ^ 32 + a mod 2 ^ 32.
Proof.
  unfold inU. intros Ha. split_and!; try (apply Z.mod_pos_bound; lia).
  - now rewrite RShiftU64_Ok, Z.shiftr_div_pow2 by lia.
  - apply Z.div_pos; lia.
  - apply Z.div_lt_upper_bound; lia.
  - pose proof (Z.div_mod a (2 ^ 32) ltac:(lia)). lia.
Qed.

Lemma SafeUint64Add_spec a b R :
  inU 64 a -> inU 64 b -> SafeUint64Add a b R = BinSpec 64 TUINT64 Z.add a b R.
Proof.
  intros Ha Hb. assert (Ha' := Ha). assert (Hb' := Hb). unfold inU in Ha', Hb'.
  apply bin_shape; try (rewrite fits_iff; cbn [type_lo type_hi]; lia); try done.
  - unfold UINT64. rewrite add_test by (done || lia). unfold fits. cbn [type_lo type_hi].
    destruct (Z.leb_spec 0 (a + b)); [done|lia].
  - rewrite fits_iff. cbn [type_lo type_hi]. intros. apply wrapU_id. unfold inU; lia.
Qed.

Lemma SafeUint64Add_ok a b r : inU 64 a -> inU 64 b -> a + b < 2 ^ 64 ->
  SafeUint64Add a b (Some r) = (RETURN_SUCCESS, Some (a + b)).
Proof.
  intros Ha Hb H. rewrite SafeUint64Add_spec by done. unfold BinSpec, inU in *.
  rewrite !(proj2 (fits_iff _ _ _)) by (cbn [type_lo type_hi]; lia). done.
Qed.

Lemma SafeUint64Add_err a b r : inU 64 a -> inU 64 b -> 2 ^ 64 <= a + b ->
  SafeUint64Add a b (Some r) = (RETURN_BUFFER_TOO_SMALL, Some UINT64_ERROR).
Proof.
  intros Ha Hb H. rewrite SafeUint64Add_spec by done. unfold BinSpec, inU in *.
  replace (fits 64 TUINT64 (a + b)) with false; [now rewrite andb_false_r|].
  symmetry. apply not_true_iff_false. rewrite fits_iff. cbn [type_lo type_hi]. lia.
Qed.

Lemma LShiftU64_32 P : 0 <= P < 2 ^ 32 -> LShiftU64 P 32 = Ok (P * 2 ^ 32).
Proof.
  intros HP. rewrite LShiftU64_Ok, Z.shiftl_mul_pow2 by lia. f_equal. apply wrapU_id.
  unfold inU; lia.
Qed.

Lemma mult_fits a b :
  inU 64 a -> inU 64 b -> fits 64 TUINT64 (a * b) = (a * b <? 2 ^ 64).
Proof.
  unfold inU, fits. cbn [type_lo type_hi]. intros.
  destruct (Z.leb_spec 0 (a * b)); [|nia].
  destruct (Z.leb_spec (a * b) (2 ^ 64 - 1)), (Z.ltb_spec (a * b) (2 ^ 64)); done || lia.
Qed.

(** Products of two 32-bit values are exact in 64 bits. *)
Lemma MultU64x64_32 x y :
  inU 32 x -> inU 32 y -> MultU64x64 (UINT64 x) (UINT64 y) = x * y /\ inU 64 (x * y).
Proof.
  unfold inU, MultU64x64, InternalMathMultU64x64, UINT64. intros Hx Hy.
  rewrite (wrapU_id 64 x), (wrapU_id 64 y) by (unfold inU; lia).
  assert (inU 64 (x * y)) by (unfold inU; nia). split; [now apply wrapU_id|done].
Qed.

Lemma SafeUint64Mult_spec a b R :
  inU 64 a -> inU 64 b -> SafeUint64Mult a b R = Ok (BinSpec 64 TUINT64 Z.mul a b R).
Proof.
  intros Ha Hb. destruct R as [r|]; [|done].
  destruct (shift_halves a Ha) as (EA & HA & HB & Ea), (shift_halves b Hb) as (EC & HC & HD & Eb).
  assert (Fa : fits 64 TUINT64 a = true) by (rewrite fits_iff; cbn [type_lo type_hi]; unfold inU in *; lia).
  assert (Fb : fits 64 TUINT64 b = true) by (rewrite fits_iff; cbn [type_lo type_hi]; unfold inU in *; lia).
  unfold SafeUint64Mult, BinSpec. rewrite EA, EC, Fa, Fb, mult_fits by done. cbn [obind andb].
  unfold UINT32. rewrite (wrapU_id 32 (a / _)), (wrapU_id 32 (b / _)) by done.
  change (wrapU 32 a) with (a mod 2 ^ 32). change (wrapU 32 b) with (b mod 2 ^ 32).
  revert HA HB HC HD Ea Eb. generalize (a / 2 ^ 32) (a mod 2 ^ 32) (b / 2 ^ 32) (b mod 2 ^ 32).
  intros A B C D HA HB HC HD Ea Eb.
  destruct (MultU64x64_32 A D HA HD) as [-> RAD], (MultU64x64_32 B C HB HC) as [-> RBC],
    (MultU64x64_32 B D HB HD) as [E RBD]. rewrite E.
  change (wrapU 64 (UINT64 B * UINT64 D)) with (MultU64x64 (UINT64 B) (UINT64 D)) ||
  change (UINT64 (UINT64 B * UINT64 D)) with (MultU64x64 (UINT64 B) (UINT64 D)). rewrite E.
  rewrite !land_high_zero by done. unfold inU in *.
  destruct (Z.eqb_spec A 0) as [->|HA0], (Z.eqb_spec C 0) as [->|HC0]; cbn [andb orb].
  - destruct (Z.ltb_spec (a * b) (2 ^ 64)); [|nia]. do 3 f_equal; nia.
  - destruct (Z.ltb_spec (0 * D) (2 ^ 32)); [|lia].
    destruct (Z.ltb_spec (B * C) (2 ^ 32)).
    + rewrite !LShiftU64_32 by nia. cbn [obind].
      rewrite SafeUint64Add_ok by (unfold inU; nia). cbn [RETURN_ERROR].
      destruct (Z.ltb_spec (a * b) (2 ^ 64)).
      * rewrite SafeUint64Add_ok by (unfold inU; nia). do 3 f_equal; nia.
      * rewrite SafeUint64Add_err by (unfold inU; nia). done.
    + destruct (Z.ltb_spec (a * b) (2 ^ 64)); [nia|done].
  - destruct (Z.ltb_spec (A * D) (2 ^ 32)).
    + destruct (Z.ltb_spec (B * 0) (2 ^ 32)); [|lia].
      rewrite !LShiftU64_32 by nia. cbn [obind].
      rewrite SafeUint64Add_ok by (unfold inU; nia).
      destruct (Z.ltb_spec (a * b) (2 ^ 64)).
      * rewrite SafeUint64Add_ok by (unfold inU; nia). do 3 f_equal; nia.
      * rewrite SafeUint64Add_err by (unfold inU; nia). done.
    + destruct (Z.ltb_spec (a * b) (2 ^ 64)); [nia|done].
  - destruct (Z.ltb_spec (a * b) (2 ^ 64)); [nia|done].
Qed.

(** Magnitudes: |x| fits 64 unsigned bits, computed without negating MIN_INT64. *)
Lemma magnitude x :
  inS 64 x ->
  (if x <? 0 then UINT64 (UINT64 (INT64 (- INT64 (x + 1))) + 1) else UINT64 x) = Z.abs x /\
  inU 64 (Z.abs x) /\ Z.abs x <= 2 ^ 63.
Proof.
  unfold inS. change (2 ^ (64 - 1)) with (2 ^ 63). intros Hx.
  split; [|unfold inU; lia]. unfold UINT64, INT64. destruct (Z.ltb_spec x 0).
  - rewrite (wrapS_id 64 (x + 1)) by (unfold inS; lia).
    rewrite (wrapS_id 64 (- (x + 1))) by (unfold inS; lia).
    rewrite (wrapU_id 64 (- (x + 1))) by (unfold inU; lia).
    rewrite wrapU_id by (unfold inU; lia). lia.
  - rewrite wrapU_id by (unfold inU; lia). lia.
Qed.

Lemma SafeInt64Mult_spec a b R :
  inS 64 a -> inS 64 b -> SafeInt64Mult a b R = Ok (BinSpec 64 TINT64 Z.mul a b R).
Proof.
  intros Ha Hb. destruct R as [r|]; [|done].
  destruct (magnitude a Ha) as (Ea & Ua & La), (magnitude b Hb) as (Eb & Ub & Lb).
  unfold inS in Ha, Hb. change (2 ^ (64 - 1)) with (2 ^ 63) in *.
  unfold SafeInt64Mult. rewrite Ea, Eb, SafeUint64Mult_spec by done. cbn [obind].
  unfold BinSpec. rewrite mult_fits by done.
  replace (fits 64 TINT64 a) with true by (symmetry; rewrite fits_iff; cbn [type_lo type_hi]; lia).
  replace (fits 64 TINT64 b) with true by (symmetry; rewrite fits_iff; cbn [type_lo type_hi]; lia).
  rewrite !(proj2 (fits_iff 64 TUINT64 _)) by (unfold inU in *; cbn [type_lo type_hi]; lia).
  cbn [andb]. rewrite <- Z.abs_mul. unfold MIN_INT64_MAGNITUDE, UINT64, INT64, MAX_INT64, INT64_ERROR.
  change (wrapU 64 (wrapU 64 (- (MIN_INT64 + 1)) + 1)) with (2 ^ 63).
  assert (S : Z.sgn (a * b) = -1 -> negb (Bool.eqb (a <? 0) (b <? 0)) = true).
  { destruct (Z.ltb_spec a 0), (Z.ltb_spec b 0); cbn; try done; nia. }
  assert (S' : 0 < a * b -> negb (Bool.eqb (a <? 0) (b <? 0)) = false).
  { destruct (Z.ltb_spec a 0), (Z.ltb_spec b 0); cbn; try done; nia. }
  unfold fits. cbn [type_lo type_hi].
  destruct (Z.ltb_spec (Z.abs (a * b)) (2 ^ 64)); cycle 1.
  { cbn. destruct (Z.leb_spec (- 2 ^ 63) (a * b)), (Z.leb_spec (a * b) (2 ^ 63 - 1)); try done; lia. }
  destruct (Z.lt_trichotomy (a * b) 0) as [Hn|[Hz|Hp]].
  - rewrite S by lia. rewrite Z.abs_neq by lia.
    destruct (Z.leb_spec (a * b) (2 ^ 63 - 1)); [|lia]. rewrite andb_true_r.
    destruct (Z.ltb_spec (2 ^ 63) (- (a * b))).
    + destruct (Z.leb_spec (- 2 ^ 63) (a * b)); [lia|done].
    + destruct (Z.leb_spec (- 2 ^ 63) (a * b)); [|lia].
      destruct (Z.eqb_spec (- (a * b)) (2 ^ 63)) as [E|E].
      * do 3 f_equal. unfold MIN_INT64. lia.
      * do 3 f_equal. rewrite !wrapS_id; unfold inS; rewrite ?wrapS_id; unfold inS;
          change (2 ^ (64 - 1)) with (2 ^ 63); lia.
  - rewrite Hz. change (Z.abs 0) with 0. cbn. now destruct (negb _).
  - rewrite S' by lia. rewrite Z.abs_eq by lia.
    destruct (Z.leb_spec (- 2 ^ 63) (a * b)); [|lia]. cbn [andb].
    change 0x7FFFFFFFFFFFFFFF with (2 ^ 63 - 1).
    destruct (Z.ltb_spec (2 ^ 63 - 1) (a * b)), (Z.leb_spec (a * b) (2 ^ 63 - 1)); try lia; [done|].
    do 3 f_equal. apply wrapS_id; unfold inS; change (2 ^ (64 - 1)) with (2 ^ 63); lia.
Qed.

(** BinSpec at a word type is BinSpec at the fixed-width type. *)
Lemma BinSpec_uintn64 op a b R : BinSpec 64 TUINTN op a b R = BinSpec 64 TUINT64 op a b R.
Proof. reflexivity. Qed.
Lemma BinSpec_intn64 op a b R : BinSpec 64 TINTN op a b R = BinSpec 64 TINT64 op a b R.
Proof. reflexivity. Qed.
Lemma BinSpec_W W t op a b R :
  t <> TINTN -> t <> TUINTN -> BinSpec W t op a b R = BinSpec 64 t op a b R.
Proof. intros H1 H2. destruct t; try done. Qed.

Lemma SafeInt64Add_spec a b R :
  inS 64 a -> inS 64 b -> SafeInt64Add a b R = BinSpec 64 TINT64 Z.add a b R.
Proof.
  unfold inS. change (2 ^ (64 - 1)) with (2 ^ 63). intros Ha Hb. destruct R; [|done].
  unfold SafeInt64Add, BinSpec, fits. cbn [type_lo type_hi]. safe_consts.
  destruct (Z.ltb_spec 0 b), (Z.ltb_spec b 0); try lia; cbn [andb orb];
    rewrite ?orb_false_r; wrap_ids; leb_cases; cbn [andb orb]; try done; wrap_ids; done.
Qed.

Lemma SafeInt64Sub_spec a b R :
  inS 64 a -> inS 64 b -> SafeInt64Sub a b R = BinSpec 64 TINT64 Z.sub a b R.
Proof.
  unfold inS. change (2 ^ (64 - 1)) with (2 ^ 63). intros Ha Hb. destruct R; [|done].
  unfold SafeInt64Sub, BinSpec, fits. cbn [type_lo type_hi]. safe_consts.
  destruct (Z.ltb_spec 0 b), (Z.ltb_spec b 0); try lia; cbn [andb orb];
    rewrite ?orb_false_r; wrap_ids; leb_cases; cbn [andb orb]; try done; wrap_ids; done.
Qed.

Lemma MultS64x64_exact a b : inS 32 a -> inS 32 b -> MultS64x64 a b = a * b.
Proof.
  unfold inS. change (2 ^ (32 - 1)) with (2 ^ 31). intros Ha Hb.
  unfold MultS64x64, MultU64x64, InternalMathMultU64x64, wrapU, wrapS.
  rewrite <- Zmult_mod, Zplus_mod_idemp_l.
  change (2 ^ (64 - 1)) with (2 ^ 63). rewrite Z.mod_small by nia. lia.
Qed.

Ltac bin_intro :=
  let Ha := fresh "Ha" in let Hb := fresh "Hb" in
  intros a b R Ha Hb; cbn [bin_type bin_op bin_fn] in *; unfold total.
(** Widening functions: the intermediate value is exact, then a conversion. *)
Ltac widen_unfold :=
  unfold SafeUint8Mult, SafeUint16Mult, SafeUint32Mult, SafeInt8Add, SafeInt16Add, SafeInt32Add,
    SafeInt8Sub, SafeInt16Sub, SafeInt32Sub, SafeInt8Mult, SafeInt16Mult, SafeInt32Mult,
    SafeUintnMult_32, SafeIntnAdd_32, SafeIntnSub_32, SafeIntnMult_32, SafeUint64ToUintn_32,
    SafeInt64ToIntn_32, INT32, UINT32, INT64, UINT64.
(** Innermost reductions first. *)
Ltac wrap_products :=
  repeat match goal with
    | |- context [wrapU ?w ?x] =>
        lazymatch x with
        | context [wrapU] => fail
        | context [wrapS] => fail
        | _ => rewrite (wrapU_id w x) by (unfold inU; nia)
        end
    | |- context [wrapS ?w ?x] =>
        lazymatch x with
        | context [wrapU] => fail
        | context [wrapS] => fail
        | _ => rewrite (wrapS_id w x) by (unfold inS; nia)
        end
    end.
Ltac conv_parts :=
  apply conv_shape;
  [ safe_consts; safe_fits; leb_cases; reflexivity
  | intros Hf; safe_consts; safe_fits; rewrite andb_true_iff, !Z.leb_le in Hf; wrap_ids; reflexivity
  | safe_consts; safe_fits; wrap_ids; reflexivity ].
Ltac bin_narrow :=
  bin_intro; f_equal; safe_fits; widen_unfold;
  try rewrite MultS64x64_exact by (unfold inS; lia); wrap_products;
  rewrite <- bin_of_conv by (rewrite fits_iff; cbn [type_lo type_hi]; safe_fits; lia);
  try match goal with |- _ = ConvSpec _ _ (?x * ?y) _ => rewrite (Z.mul_comm y x) end;
  conv_parts.
Lemma char_operand W cs x : operand_of W cs TCHAR8 x -> -128 <= x < 256.
Proof. unfold operand_of. destruct cs; lia. Qed.
(** CHAR8: both operands are checked before the addition. *)
Ltac bin_char :=
  intros a b R Ha Hb; cbn [bin_type bin_op bin_fn] in *; unfold total;
  destruct R as [r|]; [|reflexivity]; f_equal;
  apply char_operand in Ha; apply char_operand in Hb;
  unfold SafeChar8Add, SafeChar8Sub, SafeChar8Mult, SafeInt32ToChar8, BinSpec; safe_consts; safe_fits;
  wrap_products; leb_cases; cbn [andb orb]; try nia; rewrite ?CHAR8_id by lia; reflexivity.
(** Direct functions: a test on the wrapped result. *)
Ltac bin_direct :=
  bin_intro; f_equal; safe_fits;
  apply bin_shape; try (rewrite fits_iff; cbn [type_lo type_hi]; lia); safe_consts; try reflexivity;
  [ rewrite ?add_test by (unfold inU; lia); safe_fits; leb_cases; reflexivity
  | rewrite fits_iff; cbn [type_lo type_hi]; intros; wrap_ids; reflexivity ].

Lemma SafeBinops_common W cs : W = 32 \/ W = 64 -> Forall (binop_correct W cs) (SafeBinops cs).
Proof.
  intros HW. unfold SafeBinops.
  repeat (apply Forall_cons; split); [..|apply Forall_nil; exact I].
  1-8: bin_direct.
  all: try solve [bin_narrow | bin_char].
  all: bin_intro; safe_fits; rewrite BinSpec_W by done.
  - apply SafeUint64Mult_spec; unfold inU; lia.
  - f_equal; apply SafeInt64Add_spec; unfold inS; lia.
  - f_equal; apply SafeInt64Sub_spec; unfold inS; lia.
  - apply SafeInt64Mult_spec; unfold inS; lia.
Qed.

Lemma SafeBinops_32 cs : Forall (binop_correct 32 cs) (SafeBinops32 32).
Proof.
  unfold SafeBinops32. repeat (apply Forall_cons; split); [..|apply Forall_nil; exact I].
  1-2: bin_direct.
  all: bin_narrow.
Qed.

Lemma SafeBinops_64 cs : Forall (binop_correct 64 cs) SafeBinops64.
Proof.
  unfold SafeBinops64. repeat (apply Forall_cons; split); [..|apply Forall_nil; exact I].
  all: bin_intro; safe_fits;
    unfold SafeUintnAdd_64, SafeUintnSub_64, SafeUintnMult_64, SafeIntnAdd_64, SafeIntnSub_64,
      SafeIntnMult_64, UINT64, INT64; wrap_products.
  - f_equal. apply SafeUint64Add_spec; unfold inU; lia.
  - pose proof (SafeBinops_common 64 cs (or_intror eq_refl)) as H.
    rewrite Forall_forall in H.
    apply (H (mkBinop TUINT64 Z.sub (total SafeUint64Sub))); cbn [bin_type operand_of type_lo type_hi];
      [|lia|lia]. unfold SafeBinops; repeat constructor.
  - apply SafeUint64Mult_spec; unfold inU; lia.
  - f_equal. apply SafeInt64Add_spec; unfold inS; lia.
  - f_equal. apply SafeInt64Sub_spec; unfold inS; lia.
  - apply SafeInt64Mult_spec; unfold inS; lia.
Qed.

Lemma SafeConversions_common W cs :
  W = 32 \/ W = 64 -> Forall (conv_correct W cs) (SafeConversions W cs).
Proof.
  intros [-> | ->]; unfold SafeConversions.
  all: repeat (apply Forall_cons; split); [..|apply Forall_nil; exact I].
  all: conv_solve.
Qed.

Ltac conv_word :=
  intros x R Hx; cbn [conv_src conv_dst conv_fn] in *; safe_fits;
  unfold SafeUint64ToUintn_32, SafeIntnToInt32_64, SafeIntnToUint32_64, SafeUintnToUint32_64,
    SafeUintnToInt64_64, INT64, UINT64; wrap_products; conv_parts.
(** A function without a test: every operand fits. *)
Ltac conv_always :=
  intros x R Hx; cbn [conv_src conv_dst conv_fn] in *; destruct R as [r|]; [|reflexivity];
  unfold ConvSpec; rewrite (proj2 (fits_iff _ _ _)) by (safe_fits; lia);
  unfold SafeIntnToInt32_32, SafeUintnToUint32_32, SafeUintnToInt64_32, SafeUint32ToIntn_64,
    SafeInt64ToIntn_64, SafeUint64ToUintn_64; safe_consts; safe_fits; wrap_ids; reflexivity.

Lemma SafeConversions_32 cs : Forall (conv_correct 32 cs) SafeConversions32.
Proof.
  unfold SafeConversions32. repeat (apply Forall_cons; split); [..|apply Forall_nil; exact I].
  all: solve [conv_always | conv_word].
Qed.

Lemma SafeConversions_64 cs : Forall (conv_correct 64 cs) (SafeConversions64 64).
Proof.
  unfold SafeConversions64. repeat (apply Forall_cons; split); [..|apply Forall_nil; exact I].
  all: solve [conv_always | conv_word].
Qed.

(** ** Claims *)

(** Every conversion of SafeIntLib (all word sizes)
    and of SafeIntLib32.c or SafeIntLib64.c on its word size implements
    [ConvSpec]: a NULL result pointer gives RETURN_INVALID_PARAMETER; an
    operand the destination type can hold is stored unchanged with
    RETURN_SUCCESS; any other operand stores the type's error value with
    RETURN_BUFFER_TOO_SMALL.  This holds for every operand value and for
    signed and unsigned [char]. *)
Theorem SafeInt_conversions (W : Z) (char_signed : bool) :
  W = 32 \/ W = 64 ->
  Forall (conv_correct W char_signed) (SafeConversions W char_signed) /\
  (W = 32 -> Forall (conv_correct W char_signed) SafeConversions32) /\
  (W = 64 -> Forall (conv_correct W char_signed) (SafeConversions64 W)).
Proof.
  intros HW. split_and!.
  - now apply SafeConversions_common.
  - intros ->. apply SafeConversions_32.
  - intros ->. apply SafeConversions_64.
Qed.

Lemma SafeInt_conversions_witness :
  SafeInt16ToChar8 true 300 (Some 0) = (RETURN_BUFFER_TOO_SMALL, Some 127) /\
  SafeIntnToInt32_64 (- 2 ^ 31) (Some 0) = (RETURN_SUCCESS, Some (- 2 ^ 31)).
Proof.
  destruct (SafeInt_conversions 64 true (or_intror eq_refl)) as (H & _ & H64).
  specialize (H64 eq_refl). rewrite Forall_forall in H, H64. split.
  - assert (E := H (mkConv TINT16 TCHAR8 (SafeInt16ToChar8 true))).
    unfold SafeConversions in E. specialize (E ltac:(repeat constructor)).
    apply (E 300 (Some 0)). cbn. lia.
  - assert (E := H64 (mkConv TINTN TINT32 SafeIntnToInt32_64)).
    unfold SafeConversions64 in E. specialize (E ltac:(repeat constructor)).
    apply (E (- 2 ^ 31) (Some 0)). cbn. lia.
Defined.

(** C38 Every checked addition, subtraction and
    multiplication of SafeIntLib, including the 64-bit products built from
    32-bit halves and from sign and magnitude, returns (no ASSERT, no
    undefined shift) and implements [BinSpec]: the exact mathematical result
    with RETURN_SUCCESS when it fits the type, the type's error value with
    RETURN_BUFFER_TOO_SMALL otherwise. *)
Theorem SafeInt_arithmetic (W : Z) (char_signed : bool) :
  W = 32 \/ W = 64 ->
  Forall (binop_correct W char_signed) (SafeBinops char_signed) /\
  (W = 32 -> Forall (binop_correct W char_signed) (SafeBinops32 W)) /\
  (W = 64 -> Forall (binop_correct W char_signed) SafeBinops64).
Proof.
  intros HW. split_and!.
  - now apply SafeBinops_common.
  - intros ->. apply SafeBinops_32.
  - intros ->. apply SafeBinops_64.
Qed.

Lemma SafeInt_arithmetic_witness :
  SafeUint64Mult (2 ^ 33) (2 ^ 31) (Some 0) = Ok (RETURN_BUFFER_TOO_SMALL, Some (2 ^ 64 - 1)) /\
  SafeInt64Mult (- 2 ^ 32) (2 ^ 31) (Some 0) = Ok (RETURN_SUCCESS, Some (- 2 ^ 63)).
Proof.
  destruct (SafeInt_arithmetic 32 false (or_introl eq_refl)) as (H & _).
  rewrite Forall_forall in H. unfold SafeBinops in H. split.
  - apply (H (mkBinop TUINT64 Z.mul SafeUint64Mult) ltac:(repeat constructor) (2 ^ 33) (2 ^ 31) (Some 0));
      cbn; lia.
  - apply (H (mkBinop TINT64 Z.mul SafeInt64Mult) ltac:(repeat constructor) (- 2 ^ 32) (2 ^ 31) (Some 0));
      cbn; lia.
Defined.
