(* ===== verification/LinkedList.v ===== *)
(** * LinkedList: circular doubly-linked lists in memory

    MdePkg/Library/BaseLib/LinkedList.c.  The heap maps the address of a
    LIST_ENTRY to its two links; 0 is NULL, and an access outside the heap is
    a [Fault].  [Config] carries the build options the code reads: whether
    ASSERT is compiled in (MDEPKG_NDEBUG), PcdVerifyNodeInList and
    PcdMaximumLinkedListLength.

    The representation predicate [dll h head xs] says that [head] is the
    head node of a list whose nodes are [xs] in order; the theorems show
    that each operation implements the operation on the sequence [xs], leaves
    every other cell alone ([frame]) and passes its own debug assertions.
    The clients (the event and timer queues) model their lists as such
    sequences. *)

From stdpp Require Import base option list gmap fin_maps.
From Stdlib Require Import ZArith Lia.
From S2P Require Import Prelude.

Local Open Scope Z_scope.
Local Open Scope edk_scope.

Record LIST_ENTRY := mkEntry { ForwardLink : Z; BackLink : Z }.

#[global] Instance LIST_ENTRY_eq_dec : EqDecision LIST_ENTRY.
Proof. solve_decision. Defined.

Abbreviation heap := (gmap Z LIST_ENTRY).

Record Config := mkConfig {
  MDEPKG_NDEBUG : bool;
  PcdVerifyNodeInList : bool;
  PcdMaximumLinkedListLength : Z
}.

(** ** Memory access *)

Definition NULL : Z := 0.

Definition load (p : Z) : M heap LIST_ENTRY :=
  fun h => match h !! p with Some e => Ok (e, h) | None => Fault end.
Definition get_fwd (p : Z) : M heap Z := let! e := load p in Mret (ForwardLink e).
Definition get_back (p : Z) : M heap Z := let! e := load p in Mret (BackLink e).
Definition set_fwd (p v : Z) : M heap unit :=
  let! e := load p in Mmodify (fun h => <[p := mkEntry v (BackLink e)]> h).
Definition set_back (p v : Z) : M heap unit :=
  let! e := load p in Mmodify (fun h => <[p := mkEntry (ForwardLink e) v]> h).

Section LinkedListLib.
Context (cfg : Config).

(** ASSERT evaluates its condition only when it is compiled in. *)
Definition ASSERTM (c : M heap bool) : M heap unit :=
  if MDEPKG_NDEBUG cfg then Mret tt
  else let! b := c in if b then Mret tt else Mfail AssertFail.

(** ** Validity *)

(** The counting loop of InternalBaseLibIsListValid: a do-while that runs
    at most PcdMaximumLinkedListLength times, which is its fuel. *)
Fixpoint list_count (fuel : nat) (List Ptr Count : Z) : M heap Z :=
  match fuel with
  | O => Mfail OutOfFuel
  | S fuel' =>
      let! Ptr := get_fwd Ptr in
      let Count := Count + 1 in
      if negb (Ptr =? List) && (Count <? PcdMaximumLinkedListLength cfg)
      then list_count fuel' List Ptr Count
      else Mret Count
  end.

Definition InternalBaseLibIsListValid (List : Z) : M heap bool :=
  ASSERTM (Mret (negb (List =? NULL))) ;;;
  ASSERTM (let! f := get_fwd List in Mret (negb (f =? NULL))) ;;;
  ASSERTM (let! b := get_back List in Mret (negb (b =? NULL))) ;;;
  if 0 <? PcdMaximumLinkedListLength cfg then
    let! Count := list_count (Z.to_nat (PcdMaximumLinkedListLength cfg)) List List 0 in
    Mret (Count <? PcdMaximumLinkedListLength cfg)
  else Mret true.

(** The search loop of IsNodeInList.  With PcdMaximumLinkedListLength 0 it
    ends only by meeting SecondEntry or FirstEntry; one round per heap cell
    is enough fuel when the links form a cycle. *)
Fixpoint find_node (fuel : nat) (FirstEntry SecondEntry Ptr Count : Z) : M heap bool :=
  match fuel with
  | O => Mfail OutOfFuel
  | S fuel' =>
      let! Ptr := get_fwd Ptr in
      let Count := if 0 <? PcdMaximumLinkedListLength cfg then Count + 1 else Count in
      if (0 <? PcdMaximumLinkedListLength cfg) && (Count =? PcdMaximumLinkedListLength cfg)
      then Mret (Ptr =? SecondEntry)
      else if Ptr =? SecondEntry then Mret true
      else if negb (Ptr =? FirstEntry)
      then find_node fuel' FirstEntry SecondEntry Ptr Count
      else Mret false
  end.

Definition IsNodeInList (FirstEntry SecondEntry : Z) : M heap bool :=
  ASSERTM (InternalBaseLibIsListValid FirstEntry) ;;;
  ASSERTM (Mret (negb (SecondEntry =? NULL))) ;;;
  let! h := Mget in
  find_node (S (size h)) FirstEntry SecondEntry FirstEntry 0.

(** ASSERT_VERIFY_NODE_IN_VALID_LIST *)
Definition ASSERT_VERIFY_NODE_IN_VALID_LIST (FirstEntry SecondEntry : Z) (InList : bool)
  : M heap unit :=
  if MDEPKG_NDEBUG cfg then Mret tt
  else if PcdVerifyNodeInList cfg
  then ASSERTM (let! b := IsNodeInList FirstEntry SecondEntry in Mret (Bool.eqb InList b))
  else ASSERTM (InternalBaseLibIsListValid FirstEntry).

(** ** Operations *)

Definition InitializeListHead (ListHead : Z) : M heap Z :=
  ASSERTM (Mret (negb (ListHead =? NULL))) ;;;
  set_fwd ListHead ListHead ;;;
  set_back ListHead ListHead ;;;
  Mret ListHead.

Definition InsertHeadList (ListHead Entry : Z) : M heap Z :=
  ASSERT_VERIFY_NODE_IN_VALID_LIST ListHead Entry false ;;;
  let! f := get_fwd ListHead in
  set_fwd Entry f ;;;
  set_back Entry ListHead ;;;
  let! ef := get_fwd Entry in
  set_back ef Entry ;;;
  set_fwd ListHead Entry ;;;
  Mret ListHead.

Definition InsertTailList (ListHead Entry : Z) : M heap Z :=
  ASSERT_VERIFY_NODE_IN_VALID_LIST ListHead Entry false ;;;
  set_fwd Entry ListHead ;;;
  let! b := get_back ListHead in
  set_back Entry b ;;;
  let! eb := get_back Entry in
  set_fwd eb Entry ;;;
  set_back ListHead Entry ;;;
  Mret ListHead.

Definition GetFirstNode (List : Z) : M heap Z :=
  ASSERTM (InternalBaseLibIsListValid List) ;;;
  get_fwd List.

Definition GetNextNode (List Node : Z) : M heap Z :=
  ASSERT_VERIFY_NODE_IN_VALID_LIST List Node true ;;;
  get_fwd Node.

Definition GetPreviousNode (List Node : Z) : M heap Z :=
  ASSERT_VERIFY_NODE_IN_VALID_LIST List Node true ;;;
  get_back Node.

Definition IsListEmpty (ListHead : Z) : M heap bool :=
  ASSERTM (InternalBaseLibIsListValid ListHead) ;;;
  let! f := get_fwd ListHead in
  Mret (f =? ListHead).

Definition IsNull (List Node : Z) : M heap bool :=
  ASSERT_VERIFY_NODE_IN_VALID_LIST List Node true ;;;
  Mret (Node =? List).

Definition IsNodeAtEnd (List Node : Z) : M heap bool :=
  ASSERT_VERIFY_NODE_IN_VALID_LIST List Node true ;;;
  let! n := IsNull List Node in
  if n then Mret false
  else let! b := get_back List in Mret (b =? Node).

Definition RemoveEntryList (Entry : Z) : M heap Z :=
  ASSERTM (let! e := IsListEmpty Entry in Mret (negb e)) ;;;
  let! f := get_fwd Entry in
  let! b := get_back Entry in
  set_back f b ;;;
  let! b' := get_back Entry in
  let! f' := get_fwd Entry in
  set_fwd b' f' ;;;
  get_fwd Entry.

Definition SwapListEntries (FirstEntry SecondEntry : Z) : M heap Z :=
  if FirstEntry =? SecondEntry then Mret SecondEntry
  else
    ASSERT_VERIFY_NODE_IN_VALID_LIST FirstEntry SecondEntry true ;;;
    let! Ptr := RemoveEntryList FirstEntry in
    let! pb := get_back Ptr in
    if pb =? SecondEntry then InsertTailList SecondEntry FirstEntry
    else
      let! r := InsertHeadList SecondEntry FirstEntry in
      if Ptr =? r then Mret Ptr
      else
        RemoveEntryList SecondEntry ;;;
        InsertTailList Ptr SecondEntry ;;;
        Mret SecondEntry.
End LinkedListLib.

(** ** Representation *)

Definition fwd (h : heap) (p : Z) : option Z := ForwardLink <$> h !! p.
Definition back (h : heap) (p : Z) : option Z := BackLink <$> h !! p.

(** Nodes [xs] lead from [a] to [b], with both directions linked. *)
Fixpoint seg (h : heap) (a : Z) (xs : list Z) (b : Z) : Prop :=
  match xs with
  | [] => fwd h a = Some b /\ back h b = Some a
  | x :: xs' => fwd h a = Some x /\ back h x = Some a /\ seg h x xs' b
  end.

Definition dll (h : heap) (head : Z) (xs : list Z) : Prop :=
  seg h head xs head /\ NoDup (head :: xs) /\ NULL ∉ head :: xs.

(** The list is short enough for the configured maximum (0: no limit). *)
Definition short_enough (cfg : Config) (xs : list Z) : Prop :=
  0 < PcdMaximumLinkedListLength cfg ->
  Z.of_nat (length xs) + 1 < PcdMaximumLinkedListLength cfg.

(** ** Field updates *)

Definition upd_fwd (p v : Z) (h : heap) : heap := alter (fun e => mkEntry v (BackLink e)) p h.
Definition upd_back (p v : Z) (h : heap) : heap := alter (fun e => mkEntry (ForwardLink e) v) p h.

#[global] Arguments upd_fwd : simpl never.
#[global] Arguments upd_back : simpl never.

(** [p] is the address of a LIST_ENTRY. *)
Definition cell (h : heap) (p : Z) : Prop := is_Some (h !! p).

Lemma fwd_cell h p v : fwd h p = Some v -> cell h p.
Proof. unfold fwd, cell. destruct (h !! p); naive_solver. Qed.
Lemma back_cell h p v : back h p = Some v -> cell h p.
Proof. unfold back, cell. destruct (h !! p); naive_solver. Qed.

Lemma cell_upd_fwd p v h q : cell (upd_fwd p v h) q <-> cell h q.
Proof. unfold cell, upd_fwd. rewrite lookup_alter. case_decide; subst; rewrite ?fmap_is_Some; done. Qed.
Lemma cell_upd_back p v h q : cell (upd_back p v h) q <-> cell h q.
Proof. unfold cell, upd_back. rewrite lookup_alter. case_decide; subst; rewrite ?fmap_is_Some; done. Qed.

Lemma fwd_upd_fwd_eq p v h : cell h p -> fwd (upd_fwd p v h) p = Some v.
Proof. intros [e He]. unfold fwd, upd_fwd. by rewrite lookup_alter_eq, He. Qed.
Lemma fwd_upd_fwd_ne p v h q : p ≠ q -> fwd (upd_fwd p v h) q = fwd h q.
Proof. intros. unfold fwd, upd_fwd. by rewrite lookup_alter_ne. Qed.
Lemma back_upd_fwd p v h q : back (upd_fwd p v h) q = back h q.
Proof.
  unfold back, upd_fwd. rewrite lookup_alter. case_decide; subst; [|done]. by destruct (h !! q).
Qed.
Lemma back_upd_back_eq p v h : cell h p -> back (upd_back p v h) p = Some v.
Proof. intros [e He]. unfold back, upd_back. by rewrite lookup_alter_eq, He. Qed.
Lemma back_upd_back_ne p v h q : p ≠ q -> back (upd_back p v h) q = back h q.
Proof. intros. unfold back, upd_back. by rewrite lookup_alter_ne. Qed.
Lemma fwd_upd_back p v h q : fwd (upd_back p v h) q = fwd h q.
Proof.
  unfold fwd, upd_back. rewrite lookup_alter. case_decide; subst; [|done]. by destruct (h !! q).
Qed.
Lemma lookup_upd_fwd_ne p v h q : p ≠ q -> upd_fwd p v h !! q = h !! q.
Proof. apply lookup_alter_ne. Qed.
Lemma lookup_upd_back_ne p v h q : p ≠ q -> upd_back p v h !! q = h !! q.
Proof. apply lookup_alter_ne. Qed.

Create Rewrite HintDb cells.
#[export] Hint Rewrite cell_upd_fwd cell_upd_back : cells.
Ltac solve_cell := autorewrite with cells; eauto using fwd_cell, back_cell.

Create Rewrite HintDb fld.
#[export] Hint Rewrite back_upd_fwd fwd_upd_back : fld.
#[export] Hint Rewrite fwd_upd_fwd_eq back_upd_back_eq using solve_cell : fld.
#[export] Hint Rewrite fwd_upd_fwd_ne back_upd_back_ne lookup_upd_fwd_ne lookup_upd_back_ne
  using congruence : fld.
(** Read the fields of an updated heap; disequalities of addresses come from
    the context. *)
Ltac fld := autorewrite with fld cells; eauto using fwd_cell, back_cell.

Lemma get_fwd_Ok h p v : fwd h p = Some v -> get_fwd p h = Ok (v, h).
Proof. unfold fwd, get_fwd, Mbind, load. destruct (h !! p); naive_solver. Qed.
Lemma get_back_Ok h p v : back h p = Some v -> get_back p h = Ok (v, h).
Proof. unfold back, get_back, Mbind, load. destruct (h !! p); naive_solver. Qed.
Lemma set_fwd_Ok h p v : cell h p -> set_fwd p v h = Ok (tt, upd_fwd p v h).
Proof.
  intros [e He]. unfold set_fwd, Mbind, load. rewrite He. unfold Mmodify. do 2 f_equal.
  unfold upd_fwd. apply map_eq. intros i. rewrite lookup_alter, lookup_insert.
  case_decide; subst; [|done]. by rewrite He.
Qed.
Lemma set_back_Ok h p v : cell h p -> set_back p v h = Ok (tt, upd_back p v h).
Proof.
  intros [e He]. unfold set_back, Mbind, load. rewrite He. unfold Mmodify. do 2 f_equal.
  unfold upd_back. apply map_eq. intros i. rewrite lookup_alter, lookup_insert.
  case_decide; subst; [|done]. by rewrite He.
Qed.

(** ** Segments *)

Lemma seg_frame h h' a xs b :
  (forall p, p ∈ a :: xs -> fwd h' p = fwd h p) ->
  (forall p, p ∈ xs ++ [b] -> back h' p = back h p) ->
  seg h a xs b -> seg h' a xs b.
Proof.
  revert a. induction xs as [|x xs IH]; intros a Hf Hb; cbn.
  - rewrite Hf, Hb by set_solver. done.
  - rewrite Hf, (Hb x) by set_solver. intros (? & ? & ?). split_and!; try done.
    apply IH; [intros p Hp; apply Hf; set_solver|intros p Hp; apply Hb; set_solver|done].
Qed.

Lemma seg_app h a xs m ys b :
  seg h a (xs ++ m :: ys) b <-> seg h a xs m /\ seg h m ys b.
Proof.
  revert a. induction xs as [|x xs IH]; intros a; cbn; [tauto|]. rewrite IH. tauto.
Qed.

(** The successor of the start and the predecessor of the end. *)
Lemma seg_fwd h a xs b : seg h a xs b -> fwd h a = Some (default b (head xs)).
Proof. destruct xs; cbn; tauto. Qed.
Lemma seg_back h a xs b : seg h a xs b -> back h b = Some (default a (last xs)).
Proof.
  destruct xs as [|y ys _] using rev_ind; cbn; [tauto|].
  rewrite seg_app, last_snoc. cbn. tauto.
Qed.

Lemma seg_cells h a xs b : seg h a xs b -> forall p, p ∈ a :: xs ++ [b] -> cell h p.
Proof.
  revert a. induction xs as [|x xs IH]; intros a; cbn.
  - intros [? ?] p Hp. apply elem_of_cons in Hp as [->|Hp]; [by eapply fwd_cell|].
    apply list_elem_of_singleton in Hp as ->. by eapply back_cell.
  - intros (? & ? & Hs) p Hp. apply elem_of_cons in Hp as [->|Hp]; [by eapply fwd_cell|].
    by eapply IH.
Qed.

Lemma dll_cells h a xs p : dll h a xs -> p ∈ a :: xs -> cell h p.
Proof. intros (Hs & _) Hp. eapply seg_cells; [done|]. set_solver. Qed.

(** Any node of the circle can serve as its head. *)
Lemma dll_rotate h a xs p ys : dll h a (xs ++ p :: ys) -> dll h p (ys ++ a :: xs).
Proof.
  intros (Hs & Hn & Hz). apply seg_app in Hs as [H1 H2].
  assert (Hp : p :: ys ++ a :: xs ≡ₚ a :: xs ++ p :: ys) by solve_Permutation.
  split_and!; [by apply seg_app|by rewrite Hp|].
  intros Hin. apply Hz. by rewrite Hp in Hin.
Qed.

Lemma dll_rotate_to h a xs p :
  dll h a xs -> p ∈ a :: xs ->
  exists ys, dll h p ys /\ p :: ys ≡ₚ a :: xs.
Proof.
  intros Hd Hp. apply elem_of_cons in Hp as [->|Hp]; [by exists xs|].
  apply list_elem_of_split in Hp as (l1 & l2 & ->).
  exists (l2 ++ a :: l1). split; [by apply dll_rotate|]. solve_Permutation.
Qed.

Lemma dll_length h a xs : dll h a xs -> (length (a :: xs) <= size h)%nat.
Proof.
  intros Hd. assert (Hn := proj1 (proj2 Hd)).
  rewrite <- size_dom, <- (size_list_to_set (C := gset Z) _ Hn). apply subseteq_size.
  intros p Hp. apply elem_of_list_to_set in Hp. apply elem_of_dom. by eapply dll_cells.
Qed.

#[global] Instance short_enough_perm cfg : Proper ((≡ₚ) ==> iff) (short_enough cfg).
Proof. intros xs ys H. unfold short_enough. by rewrite H. Qed.

(** ** Assertions hold on well-formed lists *)

Lemma ASSERTM_true cfg c h : c h = Ok (true, h) -> ASSERTM cfg c h = Ok (tt, h).
Proof. intros H. unfold ASSERTM. destruct (MDEPKG_NDEBUG cfg); [done|]. by run_step H. Qed.

Lemma list_count_run cfg h fuel List p ys c :
  seg h p ys List -> List ∉ ys -> (length ys < fuel)%nat ->
  c + Z.of_nat (length ys) + 1 < PcdMaximumLinkedListLength cfg ->
  list_count cfg fuel List p c h = Ok (c + Z.of_nat (length ys) + 1, h).
Proof.
  revert p ys c. induction fuel as [|fuel IH]; intros p ys c Hs Hn Hf Hc; [lia|].
  cbn [list_count]. destruct ys as [|y ys]; cbn [seg length] in *.
  - destruct Hs as [Hp _]. run_step (get_fwd_Ok _ _ _ Hp). rewrite Z.eqb_refl. cbn [negb andb].
    unfold Mret. do 2 f_equal. lia.
  - destruct Hs as (Hp & _ & Hs). run_step (get_fwd_Ok _ _ _ Hp).
    destruct (Z.eqb_spec y List) as [->|_]; [set_solver|].
    destruct (Z.ltb_spec (c + 1) (PcdMaximumLinkedListLength cfg)); [|lia]. cbn [negb andb].
    rewrite (IH y ys (c + 1) Hs ltac:(set_solver) ltac:(lia) ltac:(lia)). do 2 f_equal. lia.
Qed.

Lemma seg_links_nonnull h a xs :
  dll h a xs -> exists f b, fwd h a = Some f /\ back h a = Some b /\ f ≠ NULL /\ b ≠ NULL.
Proof.
  intros (Hs & _ & Hz). exists (default a (head xs)), (default a (last xs)).
  split_and!; [by apply seg_fwd|by apply seg_back| |].
  - destruct xs; cbn; set_solver.
  - destruct (last xs) as [l|] eqn:E; cbn; [|set_solver].
    apply last_Some_elem_of in E. set_solver.
Qed.

(** The three NULL checks pass; what remains is the length check. *)
Lemma valid_reduce cfg h a xs :
  dll h a xs ->
  InternalBaseLibIsListValid cfg a h =
  (if 0 <? PcdMaximumLinkedListLength cfg then
     let! Count := list_count cfg (Z.to_nat (PcdMaximumLinkedListLength cfg)) a a 0 in
     Mret (Count <? PcdMaximumLinkedListLength cfg)
   else Mret true) h.
Proof.
  intros Hd. destruct (seg_links_nonnull _ _ _ Hd) as (f & b & Hf & Hb & Nf & Nb).
  assert (a ≠ NULL) by (destruct Hd as (_ & _ & ?); set_solver).
  unfold InternalBaseLibIsListValid.
  assert (A1 : ASSERTM cfg (Mret (negb (a =? NULL))) h = Ok (tt, h)).
  { apply ASSERTM_true. by destruct (Z.eqb_spec a NULL). }
  run_step A1.
  assert (A2 : ASSERTM cfg (let! f := get_fwd a in Mret (negb (f =? NULL))) h = Ok (tt, h)).
  { apply ASSERTM_true. run_step (get_fwd_Ok _ _ _ Hf). by destruct (Z.eqb_spec f NULL). }
  run_step A2.
  assert (A3 : ASSERTM cfg (let! f := get_back a in Mret (negb (f =? NULL))) h = Ok (tt, h)).
  { apply ASSERTM_true. run_step (get_back_Ok _ _ _ Hb). by destruct (Z.eqb_spec b NULL). }
  by run_step A3.
Qed.

Lemma valid_ok cfg h a xs :
  dll h a xs -> short_enough cfg xs -> InternalBaseLibIsListValid cfg a h = Ok (true, h).
Proof.
  intros Hd Hl. rewrite (valid_reduce _ _ _ _ Hd).
  destruct (Z.ltb_spec 0 (PcdMaximumLinkedListLength cfg)) as [Hp|]; [|done].
  destruct Hd as (Hs & Hn & _). apply NoDup_cons in Hn as [Hn _]. specialize (Hl Hp).
  run_step (list_count_run cfg h (Z.to_nat (PcdMaximumLinkedListLength cfg)) a a xs 0
              Hs Hn ltac:(lia) ltac:(lia)).
  unfold Mret. destruct (Z.ltb_spec (0 + Z.of_nat (length xs) + 1) (PcdMaximumLinkedListLength cfg)); [done|lia].
Qed.

Lemma find_node_run cfg h fuel First Second p ys c :
  seg h p ys First -> First ∉ ys -> (length ys < fuel)%nat ->
  (0 < PcdMaximumLinkedListLength cfg ->
     c + Z.of_nat (length ys) + 1 < PcdMaximumLinkedListLength cfg) ->
  find_node cfg fuel First Second p c h = Ok (bool_decide (Second ∈ ys ++ [First]), h).
Proof.
  revert p ys c. induction fuel as [|fuel IH]; intros p ys c Hs Hn Hf Hc; [lia|].
  cbn [find_node]. set (c' := if 0 <? PcdMaximumLinkedListLength cfg then c + 1 else c).
  assert (Hc' : (0 <? PcdMaximumLinkedListLength cfg) && (c' =? PcdMaximumLinkedListLength cfg) = false).
  { subst c'. destruct (Z.ltb_spec 0 (PcdMaximumLinkedListLength cfg)); [|done]. cbn [andb].
    apply Z.eqb_neq. lia. }
  destruct ys as [|y ys]; cbn [seg length app] in *.
  - destruct Hs as [Hp _]. run_step (get_fwd_Ok _ _ _ Hp). rewrite Hc', Z.eqb_refl. cbn [negb].
    unfold Mret. destruct (Z.eqb_spec First Second) as [->|];
      [rewrite bool_decide_true by set_solver|rewrite bool_decide_false by set_solver]; done.
  - destruct Hs as (Hp & _ & Hs). run_step (get_fwd_Ok _ _ _ Hp). rewrite Hc'.
    destruct (Z.eqb_spec y Second) as [->|].
    + unfold Mret. rewrite bool_decide_true by set_solver. done.
    + destruct (Z.eqb_spec y First) as [->|]; [set_solver|]. cbn [negb].
      assert (Hc2 : 0 < PcdMaximumLinkedListLength cfg ->
                    c' + Z.of_nat (length ys) + 1 < PcdMaximumLinkedListLength cfg)
        by (subst c'; destruct (Z.ltb_spec 0 (PcdMaximumLinkedListLength cfg)); lia).
      rewrite (IH y ys c' Hs ltac:(set_solver) ltac:(lia) Hc2).
      do 2 f_equal. apply bool_decide_ext. set_solver.
Qed.

Lemma IsNodeInList_run cfg h a xs p :
  dll h a xs -> short_enough cfg xs -> p ≠ NULL ->
  IsNodeInList cfg a p h = Ok (bool_decide (p ∈ a :: xs), h).
Proof.
  intros Hd Hl Hp. unfold IsNodeInList.
  run_step (ASSERTM_true cfg _ _ (valid_ok _ _ _ _ Hd Hl)).
  assert (A : ASSERTM cfg (Mret (negb (p =? NULL))) h = Ok (tt, h)).
  { apply ASSERTM_true. by destruct (Z.eqb_spec p NULL). }
  run_step A. unfold Mbind, Mget. pose proof (dll_length _ _ _ Hd).
  destruct Hd as (Hs & Hn & _). apply NoDup_cons in Hn as [Hn _].
  rewrite (find_node_run cfg h _ a p a xs) by (done || (cbn in *; lia) || (intros; specialize (Hl ltac:(done)); lia)).
  do 2 f_equal. apply bool_decide_ext. set_solver.
Qed.

(** The debug check passes at any node [a] of a list, for a [p] that is, or
    is not, in the list, as the caller claims. *)
Lemma verify_ok cfg h a xs p (b : bool) :
  dll h a xs -> short_enough cfg xs -> p ≠ NULL -> b = bool_decide (p ∈ a :: xs) ->
  ASSERT_VERIFY_NODE_IN_VALID_LIST cfg a p b h = Ok (tt, h).
Proof.
  intros Hd Hl Hp ->. unfold ASSERT_VERIFY_NODE_IN_VALID_LIST.
  destruct (MDEPKG_NDEBUG cfg); [done|]. destruct (PcdVerifyNodeInList cfg).
  - apply ASSERTM_true. run_step (IsNodeInList_run _ _ _ _ _ Hd Hl Hp).
    unfold Mret. by rewrite Bool.eqb_reflx.
  - apply ASSERTM_true. by apply valid_ok with xs.
Qed.

Lemma IsListEmpty_run cfg h a xs :
  dll h a xs -> short_enough cfg xs -> IsListEmpty cfg a h = Ok (bool_decide (xs = []), h).
Proof.
  intros Hd Hl. unfold IsListEmpty. run_step (ASSERTM_true cfg _ _ (valid_ok _ _ _ _ Hd Hl)).
  destruct Hd as (Hs & Hn & _). run_step (get_fwd_Ok _ _ _ (seg_fwd _ _ _ _ Hs)).
  unfold Mret. do 2 f_equal. destruct xs as [|x xs]; cbn.
  - apply Z.eqb_refl.
  - apply Z.eqb_neq. apply NoDup_cons in Hn. set_solver.
Qed.

(** ** Links of the changed heaps *)

(** Fresh node [e] is an entry outside the list. *)
Definition fresh (h : heap) (e : Z) (l : list Z) : Prop := cell h e /\ e ∉ l /\ e ≠ NULL.

Definition ins_heap (p n e : Z) (h : heap) : heap :=
  upd_fwd p e (upd_back n e (upd_back e p (upd_fwd e n h))).

Lemma insert_dll h a xs e :
  dll h a xs -> fresh h e (a :: xs) ->
  dll (ins_heap a (default a (head xs)) e h) a (e :: xs).
Proof.
  intros (Hs & Hn & Hz) (Hc & Hni & He).
  assert (Hca : cell h a) by (eapply seg_cells; [done|set_solver]).
  assert (Nae : a ≠ e) by set_solver.
  unfold ins_heap. split; [|split; [|set_solver]].
  - destruct xs as [|x xs]; cbn in Hs |- *.
    + split_and!; fld.
    + destruct Hs as (H1 & H2 & H3). apply NoDup_cons in Hn as [Hna Hn]. apply NoDup_cons in Hn as [Hnx Hn].
      assert (cell h x) by by eapply back_cell.
      assert (x ≠ e) by set_solver. assert (x ≠ a) by set_solver.
      split_and!; [fld|fld|fld|fld|]. revert H3. apply seg_frame; intros p Hp.
      * assert (p ≠ a) by set_solver. assert (p ≠ e) by set_solver. fld.
      * assert (p ≠ x) by set_solver. assert (p ≠ e) by set_solver. fld.
  - apply NoDup_cons in Hn as [? Hn]. rewrite !NoDup_cons. set_solver.
Qed.

Lemma insert_tail_dll h a xs e :
  dll h a xs -> fresh h e (a :: xs) ->
  dll (upd_back a e (upd_fwd (default a (last xs)) e
        (upd_back e (default a (last xs)) (upd_fwd e a h)))) a (xs ++ [e]).
Proof.
  intros Hd Hf. set (l := default a (last xs)).
  (* [e] goes right after [l]: insert at the head of the circle seen from [l]. *)
  assert (E : exists ys, dll h l ys /\ default l (head ys) = a /\
                (forall h', dll h' l (e :: ys) -> dll h' a (xs ++ [e])) /\ l :: ys ≡ₚ a :: xs).
  { subst l. destruct xs as [|x xs _] using rev_ind; cbn [last default from_option].
    - exists []. split_and!; try done.
    - rewrite last_snoc. cbn [default from_option]. exists (a :: xs). split_and!; [|done| |solve_Permutation].
      + by apply (dll_rotate h a xs x []).
      + intros h' H. rewrite <- app_assoc. by apply (dll_rotate h' x [e] a xs). }
  destruct E as (ys & Hd' & Hh & Hback & Hp). apply Hback. clearbody l.
  replace (upd_back a e _) with (ins_heap l (default l (head ys)) e h).
  - apply insert_dll; [done|]. destruct Hf as (? & ? & ?). split_and!; try done. by rewrite Hp.
  - rewrite Hh. unfold ins_heap.
    assert (e ≠ a) by (destruct Hf as (_ & ? & _); set_solver).
    assert (l ≠ e) by (destruct Hf as (_ & Hni & _); rewrite <- Hp in Hni; set_solver).
    clear Hh Hd Hf Hd' Hback Hp.
    apply map_eq. intros i. unfold upd_fwd, upd_back. rewrite !lookup_alter.
    repeat case_decide; subst; try congruence; rewrite <- ?option_fmap_compose; try done.
    all: by destruct (h !! _).
Qed.

Definition rem_heap (p n : Z) (h : heap) : heap := upd_fwd p n (upd_back n p h).

Lemma remove_head_dll h a e zs :
  dll h a (e :: zs) -> dll (rem_heap a (default a (head zs)) h) a zs.
Proof.
  intros (Hs & Hn & Hz). cbn in Hs. destruct Hs as (H1 & H2 & H3).
  apply NoDup_cons in Hn as [Hna Hn]. apply NoDup_cons in Hn as [Hne Hn].
  unfold rem_heap. split; [|split; [apply NoDup_cons; set_solver|set_solver]].
  destruct zs as [|z zs]; cbn in H3 |- *.
  - split; fld.
  - destruct H3 as (H4 & H5 & H6). assert (a ≠ z) by set_solver.
    apply NoDup_cons in Hn as [Hnz Hn].
    split_and!; [fld|fld|]. revert H6. apply seg_frame; intros p Hp.
    + assert (p ≠ a) by set_solver. fld.
    + assert (p ≠ z) by set_solver. fld.
Qed.

(** Unlinking the node [e] between its neighbours. *)
Lemma remove_dll h a xs e ys :
  dll h a (xs ++ e :: ys) ->
  dll (rem_heap (default a (last xs)) (default a (head ys)) h) a (xs ++ ys) /\
  fwd h e = Some (default a (head ys)) /\ back h e = Some (default a (last xs)).
Proof.
  intros Hd. split.
  - destruct xs as [|p xs _] using rev_ind; [by apply remove_head_dll with e|].
    rewrite last_snoc. change (default a (Some p)) with p. rewrite <- app_assoc in Hd |- *.
    assert (Hd' : dll h p (e :: (ys ++ a :: xs))) by exact (dll_rotate h a xs p (e :: ys) Hd).
    apply remove_head_dll in Hd'.
    replace (default p (head (ys ++ a :: xs))) with (default a (head ys)) in Hd' by by destruct ys.
    by apply (dll_rotate _ p ys a xs).
  - destruct Hd as (Hs & _ & _). apply seg_app in Hs as [H1 H2].
    split; [by apply seg_fwd|by apply seg_back].
Qed.

(** What an operation leaves alone: every cell outside [l], and which
    addresses are cells. *)
Definition frame (l : list Z) (h h' : heap) : Prop :=
  (forall q, q ∉ l -> h' !! q = h !! q) /\ (forall q, cell h' q <-> cell h q).

#[global] Instance frame_perm : Proper ((≡ₚ) ==> (=) ==> (=) ==> iff) frame.
Proof. intros l l' H h ? <- h' ? <-. unfold frame. by setoid_rewrite H. Qed.

Lemma frame_upd_fwd l p v h : p ∈ l -> frame l h (upd_fwd p v h).
Proof.
  intros Hp. split; [|intros; apply cell_upd_fwd]. intros q Hq. apply lookup_upd_fwd_ne. set_solver.
Qed.
Lemma frame_upd_back l p v h : p ∈ l -> frame l h (upd_back p v h).
Proof.
  intros Hp. split; [|intros; apply cell_upd_back]. intros q Hq. apply lookup_upd_back_ne. set_solver.
Qed.
Lemma frame_trans l h1 h2 h3 : frame l h1 h2 -> frame l h2 h3 -> frame l h1 h3.
Proof.
  intros [A1 B1] [A2 B2]. split; [intros q Hq; by rewrite A2, A1|]. intros q. by rewrite B2, B1.
Qed.
Lemma frame_refl l h : frame l h h.
Proof. done. Qed.
Lemma frame_mono l l' h h' : l ⊆ l' -> frame l h h' -> frame l' h h'.
Proof. intros Hl [A B]. split; [|done]. intros q Hq. apply A. set_solver. Qed.

(** Frame of a chain of field updates. *)
Ltac frame_solve :=
  repeat (eapply frame_trans; [|first [apply frame_upd_fwd | apply frame_upd_back]; set_solver]);
  apply frame_refl.

(** A list none of whose nodes is touched stays a list. *)
Lemma dll_frame l h h' a xs :
  frame l h h' -> (forall q, q ∈ a :: xs -> q ∉ l) -> dll h a xs -> dll h' a xs.
Proof.
  intros [A _] Hd (Hs & ? & ?). split; [|done].
  revert Hs. apply seg_frame; intros p Hp; unfold fwd, back; rewrite A; try done; apply Hd; set_solver.
Qed.

Lemma head_in (a : Z) xs : default a (head xs) ∈ a :: xs.
Proof. destruct xs; cbn; set_solver. Qed.
Lemma last_in (a : Z) xs : default a (last xs) ∈ a :: xs.
Proof. destruct (last xs) eqn:E; cbn; [apply last_Some_elem_of in E|]; set_solver. Qed.

(** ** Runs of the operations *)

Lemma InsertHeadList_run cfg h a xs e :
  dll h a xs -> short_enough cfg xs -> fresh h e (a :: xs) ->
  exists h', InsertHeadList cfg a e h = Ok (a, h') /\ dll h' a (e :: xs) /\ frame (e :: a :: xs) h h'.
Proof.
  intros Hd Hl Hf. assert (D := insert_dll _ _ _ _ Hd Hf). destruct Hf as (Hc & Hni & He).
  assert (Nae : a ≠ e) by set_solver. assert (Ni := head_in a xs).
  assert (Nne : default a (head xs) ≠ e) by set_solver.
  assert (Hca := dll_cells _ _ _ a Hd ltac:(set_solver)).
  assert (Hcn := dll_cells _ _ _ _ Hd Ni).
  assert (Ff := seg_fwd _ _ _ _ (proj1 Hd)).
  eexists. split; [|split; [exact D|]].
  - unfold InsertHeadList.
    rewrite (Mbind_Ok _ _ _ _ _ (verify_ok cfg h a xs e false Hd Hl He
      ltac:(symmetry; by apply bool_decide_eq_false))).
    run_step (get_fwd_Ok _ _ _ Ff). run_step (set_fwd_Ok h e (default a (head xs)) Hc).
    set (h1 := upd_fwd e _ h). assert (C1 : cell h1 e) by (subst h1; solve_cell).
    run_step (set_back_Ok h1 e a C1). set (h2 := upd_back e a h1).
    assert (F2 : fwd h2 e = Some (default a (head xs))) by (subst h2 h1; fld).
    run_step (get_fwd_Ok _ _ _ F2).
    assert (C2 : cell h2 (default a (head xs))) by (subst h2 h1; solve_cell).
    run_step (set_back_Ok h2 _ e C2). set (h3 := upd_back _ e h2).
    assert (C3 : cell h3 a) by (subst h3 h2 h1; solve_cell).
    run_step (set_fwd_Ok h3 a e C3). done.
  - unfold ins_heap. frame_solve.
Qed.

Lemma InsertTailList_run cfg h a xs e :
  dll h a xs -> short_enough cfg xs -> fresh h e (a :: xs) ->
  exists h', InsertTailList cfg a e h = Ok (a, h') /\ dll h' a (xs ++ [e]) /\ frame (e :: a :: xs) h h'.
Proof.
  intros Hd Hl Hf. assert (D := insert_tail_dll _ _ _ _ Hd Hf). destruct Hf as (Hc & Hni & He).
  assert (Nae : a ≠ e) by set_solver. assert (Ni := last_in a xs).
  assert (Nne : default a (last xs) ≠ e) by set_solver.
  assert (Hca := dll_cells _ _ _ a Hd ltac:(set_solver)).
  assert (Hcn := dll_cells _ _ _ _ Hd Ni).
  assert (Fb := seg_back _ _ _ _ (proj1 Hd)).
  eexists. split; [|split; [exact D|]].
  - unfold InsertTailList.
    rewrite (Mbind_Ok _ _ _ _ _ (verify_ok cfg h a xs e false Hd Hl He
      ltac:(symmetry; by apply bool_decide_eq_false))).
    run_step (set_fwd_Ok h e a Hc). set (h1 := upd_fwd e a h).
    assert (F1 : back h1 a = Some (default a (last xs))) by (subst h1; fld).
    run_step (get_back_Ok _ _ _ F1). assert (C1 : cell h1 e) by (subst h1; solve_cell).
    run_step (set_back_Ok h1 e (default a (last xs)) C1). set (h2 := upd_back e _ h1).
    assert (F2 : back h2 e = Some (default a (last xs))) by (subst h2; fld).
    run_step (get_back_Ok _ _ _ F2).
    assert (C2 : cell h2 (default a (last xs))) by (subst h2 h1; solve_cell).
    run_step (set_fwd_Ok h2 _ e C2). set (h3 := upd_fwd _ e h2).
    assert (C3 : cell h3 a) by (subst h3 h2 h1; solve_cell).
    run_step (set_back_Ok h3 a e C3). done.
  - frame_solve.
Qed.

Lemma RemoveEntryList_run cfg h a xs e ys :
  dll h a (xs ++ e :: ys) -> short_enough cfg (xs ++ e :: ys) ->
  exists h', RemoveEntryList cfg e h = Ok (default a (head ys), h') /\ dll h' a (xs ++ ys) /\
    frame (a :: xs ++ ys) h h'.
Proof.
  intros Hd Hl. destruct (remove_dll _ _ _ _ _ Hd) as (D & Ff & Fb).
  set (n := default a (head ys)) in *. set (p := default a (last xs)) in *.
  assert (Hdr := dll_rotate _ _ _ _ _ Hd).
  assert (Hlr : short_enough cfg (ys ++ a :: xs)).
  { intros Hp. specialize (Hl Hp). rewrite !length_app in *. cbn in *. lia. }
  assert (Hn := head_in a ys). assert (Hp := last_in a xs). fold n in Hn. fold p in Hp.
  assert (Hnd := proj1 (proj2 Hdr)). apply NoDup_cons in Hnd as [Hne _].
  assert (n ≠ e) by set_solver. assert (p ≠ e) by set_solver.
  assert (Cn := dll_cells _ _ _ n Hd ltac:(set_solver)).
  assert (Cp := dll_cells _ _ _ p Hd ltac:(set_solver)).
  exists (rem_heap p n h). split; [|split; [done|unfold rem_heap; frame_solve]].
  unfold RemoveEntryList.
  assert (A : ASSERTM cfg (let! e := IsListEmpty cfg e in Mret (negb e)) h = Ok (tt, h)).
  { apply ASSERTM_true. run_step (IsListEmpty_run _ _ _ _ Hdr Hlr).
    rewrite bool_decide_false; [done|]. by destruct ys. }
  run_step A. run_step (get_fwd_Ok _ _ _ Ff). run_step (get_back_Ok _ _ _ Fb).
  run_step (set_back_Ok h n p Cn). set (h1 := upd_back n p h).
  assert (B1 : back h1 e = Some p) by (subst h1; fld).
  assert (F1 : fwd h1 e = Some n) by (subst h1; fld).
  run_step (get_back_Ok _ _ _ B1). run_step (get_fwd_Ok _ _ _ F1).
  assert (C1 : cell h1 p) by (subst h1; solve_cell).
  run_step (set_fwd_Ok h1 p n C1). apply get_fwd_Ok. subst h1. unfold rem_heap. fld.
Qed.

(** ** Swapping *)

(** The general case of the swap: [a] already follows [b]; move [b] in front
    of [m], the node that followed [a] at first. *)
Lemma move_before_run cfg h m ms b a zs :
  dll h b (a :: zs ++ m :: ms) -> short_enough cfg (a :: zs ++ m :: ms) ->
  exists h', (RemoveEntryList cfg b ;;; InsertTailList cfg m b ;;; Mret b) h = Ok (b, h') /\
    dll h' b ((m :: ms) ++ a :: zs) /\ frame (b :: a :: zs ++ m :: ms) h h'.
Proof.
  intros D Hl.
  assert (D' : dll h m (ms ++ b :: a :: zs)) by exact (dll_rotate h b (a :: zs) m ms D).
  assert (Hl3 : short_enough cfg (ms ++ b :: a :: zs)).
  { intros Hp. specialize (Hl Hp). cbn in *. rewrite !length_app in *. cbn in *. lia. }
  assert (Hl4 : short_enough cfg (ms ++ a :: zs)).
  { intros Hp. specialize (Hl3 Hp). rewrite !length_app in *. cbn in *. lia. }
  destruct (RemoveEntryList_run cfg h m ms b (a :: zs) D' Hl3) as (h3 & E3 & D3 & Fr3).
  run_step E3.
  assert (Fresh3 : fresh h3 b (m :: ms ++ a :: zs)).
  { assert (Hn2 := proj1 (proj2 D)). apply NoDup_cons in Hn2 as [Hn2 _].
    assert (Hz := proj2 (proj2 D)).
    split_and!; [apply (proj2 Fr3); eapply dll_cells; [exact D|set_solver]|set_solver|set_solver]. }
  destruct (InsertTailList_run cfg h3 m _ b D3 Hl4 Fresh3) as (h4 & E4 & D4 & Fr4).
  run_step E4. exists h4. split; [done|]. split; [exact (dll_rotate h4 m _ b [] D4)|].
  eapply frame_trans; [eapply frame_mono; [|exact Fr3]; set_solver|].
  eapply frame_mono; [|exact Fr4]; set_solver.
Qed.

(** Swap in the order in which [a] comes first, seen from [a]. *)
(** The predecessor of the first node of the second part. *)
Lemma dll_back_middle h b zs ms :
  dll h b (zs ++ ms) -> back h (default b (head ms)) = Some (default b (last zs)).
Proof.
  intros (Hs & _). destruct ms as [|m ms]; cbn [head default from_option].
  - rewrite app_nil_r in Hs. apply (seg_back _ _ _ _ Hs).
  - apply seg_app in Hs as [Hs _]. apply (seg_back _ _ _ _ Hs).
Qed.

Lemma default_last_nil b (zs : list Z) : b ∉ zs -> default b (last zs) = b -> zs = [].
Proof.
  intros Hb. destruct (last zs) as [l|] eqn:El; cbn; [|by apply last_None in El].
  intros ->. by apply last_Some_elem_of in El.
Qed.

Lemma default_head_nil b (ms : list Z) : b ∉ ms -> default b (head ms) = b -> ms = [].
Proof. intros Hb. destruct ms as [|m ms]; [done|]. cbn. intros ->. set_solver. Qed.

Lemma swap_run cfg h a ms b zs :
  dll h a (ms ++ b :: zs) -> short_enough cfg (ms ++ b :: zs) ->
  exists h', SwapListEntries cfg a b h = Ok (b, h') /\ dll h' b (ms ++ a :: zs) /\
    frame (a :: ms ++ b :: zs) h h'.
Proof.
  intros Hd Hl. assert (Hnd := proj1 (proj2 Hd)).
  assert (Hz := proj2 (proj2 Hd)).
  unfold SwapListEntries.
  apply NoDup_cons in Hnd as [Hna Hnd].
  destruct (Z.eqb_spec a b) as [->|Hab]; [set_solver|].
  rewrite (Mbind_Ok _ _ _ _ _ (verify_ok cfg h a _ b true Hd Hl ltac:(set_solver)
    ltac:(symmetry; apply bool_decide_eq_true; set_solver))). cbn beta.
  (* remove [a], seen from [b] *)
  assert (Hd1 := dll_rotate _ _ _ _ _ Hd).
  assert (Hl1 : short_enough cfg (zs ++ a :: ms)).
  { intros Hp. specialize (Hl Hp). rewrite !length_app in *. cbn in *. lia. }
  destruct (RemoveEntryList_run cfg h b zs a ms Hd1 Hl1) as (h1 & E1 & D1 & Fr1).
  run_step E1.
  assert (Hl2 : short_enough cfg (zs ++ ms)).
  { intros Hp. specialize (Hl1 Hp). rewrite !length_app in *. cbn in *. lia. }
  assert (Fresh1 : fresh h1 a (b :: zs ++ ms)).
  { split_and!; [apply (proj2 Fr1); eapply dll_cells; [exact Hd|set_solver]|set_solver|set_solver]. }
  assert (Hperm : a :: ms ++ b :: zs ≡ₚ a :: b :: zs ++ ms) by solve_Permutation.
  set (Ptr := default b (head ms)) in *.
  assert (Bp : back h1 Ptr = Some (default b (last zs))) by apply (dll_back_middle _ _ _ _ D1).
  assert (b ∉ zs /\ b ∉ ms) as [Hbz Hbm].
  { apply NoDup_app in Hnd as (_ & Hm & Hnd). apply NoDup_cons in Hnd. set_solver. }
  run_step (get_back_Ok _ _ _ Bp).
  destruct (Z.eqb_spec (default b (last zs)) b) as [Eb|Nb].
  - (* [a] follows [b] immediately *)
    apply (default_last_nil b) in Eb as ->; [|done].
    destruct (InsertTailList_run cfg h1 b ms a D1 Hl2 Fresh1) as (h2 & E2 & D2 & Fr2).
    exists h2. split; [done|]. split; [done|]. rewrite Hperm. cbn [app] in *.
    eapply frame_trans; [eapply frame_mono; [|exact Fr1]; set_solver|].
    eapply frame_mono; [|exact Fr2]; set_solver.
  - destruct (InsertHeadList_run cfg h1 b (zs ++ ms) a D1 Hl2 Fresh1) as (h2 & E2 & D2 & Fr2).
    run_step E2. destruct (Z.eqb_spec Ptr b) as [EP|NP].
    + (* [b] follows [a] immediately *)
      assert (ms = []) as -> by (by apply (default_head_nil b)).
      exists h2. rewrite EP. split; [done|]. rewrite app_nil_r in D2. split; [done|]. rewrite Hperm.
      eapply frame_trans; [eapply frame_mono; [|exact Fr1]; set_solver|].
      eapply frame_mono; [|exact Fr2]; set_solver.
    + (* both have other neighbours: move [b] in front of [Ptr] *)
      destruct ms as [|m ms]; [done|]. subst Ptr. cbn [head default from_option] in *.
      change (id m) with m in *.
      destruct (move_before_run cfg h2 m ms b a zs D2) as (h4 & E4 & D4 & Fr4).
      { intros Hp. specialize (Hl Hp). cbn in *. rewrite !length_app in *. cbn in *. lia. }
      exists h4. split; [done|]. split; [done|]. rewrite Hperm.
      do 2 (eapply frame_trans; [eapply frame_mono; [|eassumption]; set_solver|]).
      eapply frame_mono; [|exact Fr4]; set_solver.
Qed.

(** A list with as many nodes as the configured maximum is rejected. *)
Lemma list_count_stop cfg h fuel List p ys c :
  seg h p ys List -> List ∉ ys -> 0 <= c < PcdMaximumLinkedListLength cfg ->
  PcdMaximumLinkedListLength cfg <= c + Z.of_nat (length ys) + 1 ->
  PcdMaximumLinkedListLength cfg - c <= Z.of_nat fuel ->
  list_count cfg fuel List p c h = Ok (PcdMaximumLinkedListLength cfg, h).
Proof.
  revert p ys c. induction fuel as [|fuel IH]; intros p ys c Hs Hn Hc Hl Hf; [lia|].
  cbn [list_count]. destruct ys as [|y ys]; cbn [seg length] in *.
  - destruct Hs as [Hp _]. run_step (get_fwd_Ok _ _ _ Hp). rewrite Z.eqb_refl. cbn [negb andb].
    unfold Mret. do 2 f_equal. lia.
  - destruct Hs as (Hp & _ & Hs). run_step (get_fwd_Ok _ _ _ Hp).
    destruct (Z.eqb_spec y List) as [->|_]; [set_solver|]. cbn [negb andb].
    destruct (Z.ltb_spec (c + 1) (PcdMaximumLinkedListLength cfg)).
    + apply (IH y ys (c + 1) Hs); [set_solver|lia..].
    + unfold Mret. do 2 f_equal. lia.
Qed.

(** ** Claims *)

(** InsertHeadList and InsertTailList, called on the head
    node of a well-formed list that respects the configured maximum length
    with an entry that is not in it, pass their debug assertions, return the
    head, and turn the sequence xs into e :: xs and xs ++ [e]; no cell outside
    the list and the entry changes.  InitializeListHead makes an empty list. *)
Theorem List_insert (cfg : Config) (h : heap) (a e : Z) (xs : list Z) :
  dll h a xs -> short_enough cfg xs -> cell h e -> e ∉ a :: xs -> e ≠ NULL ->
  (exists h', InsertHeadList cfg a e h = Ok (a, h') /\ dll h' a (e :: xs) /\ frame (e :: a :: xs) h h') /\
  (exists h', InsertTailList cfg a e h = Ok (a, h') /\ dll h' a (xs ++ [e]) /\ frame (e :: a :: xs) h h') /\
  (exists h', InitializeListHead cfg e h = Ok (e, h') /\ dll h' e [] /\ dll h' a xs).
Proof.
  intros Hd Hl Hc Hn He. split_and!.
  - by apply InsertHeadList_run.
  - by apply InsertTailList_run.
  - exists (upd_back e e (upd_fwd e e h)).
    assert (F : frame [e] h (upd_back e e (upd_fwd e e h))) by frame_solve.
    split; [|split].
    + unfold InitializeListHead.
      assert (A : ASSERTM cfg (Mret (negb (e =? NULL))) h = Ok (tt, h)).
      { apply ASSERTM_true. by destruct (Z.eqb_spec e NULL). }
      run_step A. run_step (set_fwd_Ok h e e Hc).
      assert (C1 : cell (upd_fwd e e h) e) by solve_cell.
      by run_step (set_back_Ok _ e e C1).
    + split; [cbn; split; fld|]. split; [apply NoDup_singleton|set_solver].
    + eapply dll_frame; [exact F|set_solver|done].
Qed.

(** A heap with three entries; two of them form a list. *)
Definition demo_heap : heap :=
  {[ 1 := mkEntry 2 2; 2 := mkEntry 1 1; 3 := mkEntry 0 0 ]}.
Definition demo_cfg : Config := mkConfig false true 10.

Lemma demo_dll : dll demo_heap 1 [2].
Proof.
  split; [vm_compute; tauto|]. split; by_decide.
Qed.

Lemma List_insert_witness :
  exists h', InsertTailList demo_cfg 1 3 demo_heap = Ok (1, h') /\ dll h' 1 [2; 3].
Proof.
  destruct (List_insert demo_cfg demo_heap 1 3 [2]) as (_ & (h' & E & D & _) & _).
  - apply demo_dll.
  - intros _. cbn. lia.
  - vm_compute. eauto.
  - by_decide.
  - unfold NULL. lia.
  - exists h'. split; [exact E|exact D].
Defined.

(** RemoveEntryList, called on a node e of a well-formed
    list, passes its assertions, takes exactly e out of the sequence, leaves
    e's own links and every cell outside the list unchanged, and returns the
    node that followed e (the head when e was last). *)
Theorem List_remove (cfg : Config) (h : heap) (a e : Z) (xs ys : list Z) :
  dll h a (xs ++ e :: ys) -> short_enough cfg (xs ++ e :: ys) ->
  exists h', RemoveEntryList cfg e h = Ok (default a (head ys), h') /\ dll h' a (xs ++ ys) /\
    h' !! e = h !! e /\ frame (a :: xs ++ ys) h h'.
Proof.
  intros Hd Hl. destruct (RemoveEntryList_run cfg h a xs e ys Hd Hl) as (h' & E & D & F).
  exists h'. split_and!; try done; [|apply F..]. apply F.
  destruct Hd as (_ & Hn & _). change (NoDup ((a :: xs) ++ e :: ys)) in Hn.
  rewrite <- Permutation_middle in Hn. by apply NoDup_cons in Hn as [Hn _].
Qed.

Lemma List_remove_witness :
  exists h', RemoveEntryList demo_cfg 2 demo_heap = Ok (1, h') /\ dll h' 1 [].
Proof.
  destruct (List_remove demo_cfg demo_heap 1 2 [] []) as (h' & E & D & _).
  - apply demo_dll.
  - intros _. cbn. lia.
  - exists h'. split; [exact E|exact D].
Defined.

(** SwapListEntries exchanges the positions of two nodes of a
    list, in whichever order they are given and whether or not they are
    neighbours: every other node keeps its place, no cell outside the list
    changes, and the second argument is returned. *)
Theorem List_swap (cfg : Config) (h : heap) (hd a b : Z) (xs ms zs : list Z) :
  dll h hd (xs ++ a :: ms ++ b :: zs) -> short_enough cfg (xs ++ a :: ms ++ b :: zs) ->
  (exists h', SwapListEntries cfg a b h = Ok (b, h') /\ dll h' hd (xs ++ b :: ms ++ a :: zs) /\
     frame (hd :: xs ++ a :: ms ++ b :: zs) h h') /\
  (exists h', SwapListEntries cfg b a h = Ok (a, h') /\ dll h' hd (xs ++ b :: ms ++ a :: zs) /\
     frame (hd :: xs ++ a :: ms ++ b :: zs) h h').
Proof.
  intros Hd Hl. split.
  - assert (D1 : dll h a (ms ++ b :: (zs ++ hd :: xs))).
    { pose proof (dll_rotate _ _ _ _ _ Hd) as D. rewrite <- app_assoc in D. exact D. }
    destruct (swap_run cfg h a ms b (zs ++ hd :: xs) D1) as (h' & E & D & F).
    { intros Hp. specialize (Hl Hp). rewrite !length_app in *. cbn in *. rewrite !length_app in *. cbn in *. lia. }
    exists h'. split; [done|]. split.
    + rewrite (app_comm_cons zs), app_assoc in D. exact (dll_rotate _ _ _ _ _ D).
    + revert F. apply frame_mono. intros q. set_solver.
  - assert (D1 : dll h b ((zs ++ hd :: xs) ++ a :: ms)).
    { rewrite (app_comm_cons ms), app_assoc in Hd. pose proof (dll_rotate _ _ _ _ _ Hd) as D.
      rewrite <- !app_assoc. cbn [app]. exact D. }
    destruct (swap_run cfg h b (zs ++ hd :: xs) a ms D1) as (h' & E & D & F).
    { intros Hp. specialize (Hl Hp). rewrite !length_app in *. cbn in *. rewrite !length_app in *. cbn in *. lia. }
    exists h'. split; [done|]. split.
    + rewrite <- app_assoc in D. cbn [app] in D. pose proof (dll_rotate _ _ _ _ _ D) as D2.
      rewrite <- app_assoc in D2. exact D2.
    + revert F. apply frame_mono. intros q. set_solver.
Qed.

Definition demo_heap3 : heap :=
  {[ 1 := mkEntry 2 4; 2 := mkEntry 3 1; 3 := mkEntry 4 2; 4 := mkEntry 1 3 ]}.

Lemma List_swap_witness :
  exists h', SwapListEntries demo_cfg 4 2 demo_heap3 = Ok (2, h') /\ dll h' 1 [4; 3; 2].
Proof.
  destruct (List_swap demo_cfg demo_heap3 1 2 4 [] [3] []) as (_ & h' & E & D & _).
  - split; [vm_compute; tauto|]. split; by_decide.
  - intros _. cbn. lia.
  - exists h'. split; [exact E|exact D].
Defined.

(** On a well-formed list the queries return, change
    nothing and answer about the sequence: IsNodeInList decides membership
    (its loop terminates within the fuel, also when no maximum length is
    configured), IsListEmpty emptiness; GetNextNode and GetPreviousNode step
    to the neighbours, with the head after the last and before the first
    node; IsNodeAtEnd holds exactly of the last node. *)
Theorem List_queries (cfg : Config) (h : heap) (a p n : Z) (xs ys : list Z) :
  dll h a (xs ++ n :: ys) -> short_enough cfg (xs ++ n :: ys) -> p ≠ NULL ->
  IsNodeInList cfg a p h = Ok (bool_decide (p ∈ a :: xs ++ n :: ys), h) /\
  IsListEmpty cfg a h = Ok (false, h) /\
  GetFirstNode cfg a h = Ok (default n (head xs), h) /\
  GetNextNode cfg a n h = Ok (default a (head ys), h) /\
  GetPreviousNode cfg a n h = Ok (default a (last xs), h) /\
  IsNull cfg a n h = Ok (false, h) /\
  IsNodeAtEnd cfg a n h = Ok (bool_decide (ys = []), h).
Proof.
  intros Hd Hl Hp. assert (Hn := proj1 (proj2 Hd)). apply NoDup_cons in Hn as [Hna Hnd].
  assert (Hz := proj2 (proj2 Hd)).
  assert (V : ASSERT_VERIFY_NODE_IN_VALID_LIST cfg a n true h = Ok (tt, h)).
  { eapply verify_ok; [done|done|set_solver|]. symmetry. apply bool_decide_eq_true. set_solver. }
  assert (Hs := proj1 Hd). assert (Hs' := Hs). apply seg_app in Hs' as [H1 H2].
  assert (Nan : n ≠ a) by set_solver.
  assert (N : IsNull cfg a n h = Ok (false, h)).
  { unfold IsNull. run_step V. unfold Mret. do 2 f_equal. by apply Z.eqb_neq. }
  split_and!.
  - by apply IsNodeInList_run.
  - rewrite (IsListEmpty_run _ _ _ _ Hd Hl), bool_decide_false; [done|]. by destruct xs.
  - unfold GetFirstNode. run_step (ASSERTM_true cfg _ _ (valid_ok _ _ _ _ Hd Hl)).
    apply get_fwd_Ok. rewrite (seg_fwd _ _ _ _ Hs). by destruct xs.
  - unfold GetNextNode. run_step V. apply get_fwd_Ok, (seg_fwd _ _ _ _ H2).
  - unfold GetPreviousNode. run_step V. apply get_back_Ok, (seg_back _ _ _ _ H1).
  - done.
  - unfold IsNodeAtEnd. run_step V. run_step N. run_step (get_back_Ok _ _ _ (seg_back _ _ _ _ Hs)).
    unfold Mret. do 2 f_equal. destruct ys as [|y ys _] using rev_ind.
    + rewrite last_snoc. apply Z.eqb_refl.
    + rewrite bool_decide_false by by destruct ys.
      rewrite app_comm_cons, app_assoc, last_snoc. apply Z.eqb_neq. cbn.
      intros ->. apply NoDup_app in Hnd as (_ & _ & Hnd). apply NoDup_cons in Hnd. set_solver.
Qed.

Lemma List_queries_witness :
  IsNodeInList demo_cfg 1 3 demo_heap = Ok (false, demo_heap) /\
  IsNodeAtEnd demo_cfg 1 2 demo_heap = Ok (true, demo_heap).
Proof.
  destruct (List_queries demo_cfg demo_heap 1 3 2 [] []) as (H1 & _ & _ & _ & _ & _ & H2).
  - apply demo_dll.
  - intros _. cbn. lia.
  - unfold NULL. lia.
  - split; [exact H1|exact H2].
Defined.

(** With a non-zero PcdMaximumLinkedListLength, a
    well-formed list whose nodes, the head included, number at least the
    maximum is reported invalid, and then the insertions stop in their
    ASSERT (in a build with assertions and without PcdVerifyNodeInList); an
    entry that is already in the list also stops them when
    PcdVerifyNodeInList is set. *)
Theorem List_limit (cfg : Config) (h : heap) (a e : Z) (xs : list Z) :
  dll h a xs -> 0 < PcdMaximumLinkedListLength cfg -> MDEPKG_NDEBUG cfg = false ->
  (PcdMaximumLinkedListLength cfg <= Z.of_nat (length xs) + 1 ->
     InternalBaseLibIsListValid cfg a h = Ok (false, h) /\
     (PcdVerifyNodeInList cfg = false ->
        InsertHeadList cfg a e h = AssertFail /\ InsertTailList cfg a e h = AssertFail)) /\
  (short_enough cfg xs -> e ∈ a :: xs -> PcdVerifyNodeInList cfg = true ->
     InsertHeadList cfg a e h = AssertFail /\ InsertTailList cfg a e h = AssertFail).
Proof.
  intros Hd Hm Hdbg. split.
  - intros Hlong. assert (V : InternalBaseLibIsListValid cfg a h = Ok (false, h)).
    { rewrite (valid_reduce _ _ _ _ Hd).
      assert (Hs := proj1 Hd). assert (Hn := proj1 (proj2 Hd)). apply NoDup_cons in Hn as [Hn _].
      destruct (Z.ltb_spec 0 (PcdMaximumLinkedListLength cfg)); [|lia].
      run_step (list_count_stop cfg h (Z.to_nat (PcdMaximumLinkedListLength cfg)) a a xs 0 Hs Hn
        ltac:(lia) ltac:(lia) ltac:(lia)). unfold Mret. by rewrite Z.ltb_irrefl. }
    split; [done|]. intros Hv.
    assert (A : ASSERT_VERIFY_NODE_IN_VALID_LIST cfg a e false h = AssertFail).
    { unfold ASSERT_VERIFY_NODE_IN_VALID_LIST, ASSERTM, Mbind. by rewrite Hdbg, Hv, V. }
    unfold InsertHeadList, InsertTailList, Mbind. by rewrite A.
  - intros Hl He Hv.
    assert (Ne : e ≠ NULL) by (destruct Hd as (_ & _ & ?); set_solver).
    assert (A : ASSERT_VERIFY_NODE_IN_VALID_LIST cfg a e false h = AssertFail).
    { unfold ASSERT_VERIFY_NODE_IN_VALID_LIST, ASSERTM, Mbind. rewrite Hdbg, Hv.
      rewrite (IsNodeInList_run _ _ _ _ _ Hd Hl Ne). by rewrite bool_decide_true. }
    unfold InsertHeadList, InsertTailList, Mbind. by rewrite A.
Qed.

Lemma List_limit_witness :
  InternalBaseLibIsListValid (mkConfig false false 2) 1 demo_heap = Ok (false, demo_heap) /\
  InsertHeadList demo_cfg 1 2 demo_heap = AssertFail.
Proof.
  split.
  - destruct (List_limit (mkConfig false false 2) demo_heap 1 3 [2]) as (H & _);
      [apply demo_dll|cbn; lia|done|]. apply H. cbn. lia.
  - destruct (List_limit demo_cfg demo_heap 1 2 [2]) as (_ & H);
      [apply demo_dll|cbn; lia|done|]. apply H; [intros _; cbn; lia|set_solver|done].
Defined.
