(* ===== verification/BitField.v ===== *)
(** * BitField: bit-field access of BaseLib

    MdePkg/Library/BaseLib/BitField.c.  The 8, 16 and 32-bit functions work
    through UINTN workers ([W] is its width), the 64-bit ones through
    LShiftU64 and RShiftU64; the functions that count ones add up the bits in
    groups inside one word. *)

From stdpp Require Import base option list.
From Stdlib Require Import ZArith Lia Bool.
From S2P Require Import Prelude BaseMath.

Local Open Scope Z_scope.
Local Open Scope edk_scope.

Section BitField.
Context (W : Z).

(** ** The UINTN workers *)

(** [~((UINTN)-2 << EndBit)] *)
Definition low_mask (EndBit : Z) : outcome Z :=
  do m <- c_shl W (wrapU W (-2)) EndBit ; Ok (c_not W m).

Definition InternalBaseLibBitFieldReadUint (Operand StartBit EndBit : Z) : outcome Z :=
  do m <- low_mask EndBit ;
  c_shr W (Z.land Operand m) StartBit.

Definition InternalBaseLibBitFieldOrUint (Operand StartBit EndBit OrData : Z) : outcome Z :=
  do top <- c_shr W OrData (EndBit - StartBit) ;
  ASSERT (top =? Z.land top 1)
    (do d <- c_shl W OrData StartBit ;
     do m <- low_mask EndBit ;
     Ok (Z.lor Operand (Z.land d m))).

Definition InternalBaseLibBitFieldAndUint (Operand StartBit EndBit AndData : Z) : outcome Z :=
  do top <- c_shr W AndData (EndBit - StartBit) ;
  ASSERT (top =? Z.land top 1)
    (do d <- c_shl W (c_not W AndData) StartBit ;
     do m <- low_mask EndBit ;
     Ok (Z.land Operand (c_not W (Z.land d m)))).

(** ** The functions at width [w], 8, 16 or 32 *)

Definition check_bits {A} (w StartBit EndBit : Z) (k : outcome A) : outcome A :=
  ASSERT (EndBit <? w) (ASSERT (StartBit <=? EndBit) k).

Definition BitFieldRead (w Operand StartBit EndBit : Z) : outcome Z :=
  check_bits w StartBit EndBit
    (do r <- InternalBaseLibBitFieldReadUint Operand StartBit EndBit ; Ok (wrapU w r)).
Definition BitFieldOr (w Operand StartBit EndBit OrData : Z) : outcome Z :=
  check_bits w StartBit EndBit
    (do r <- InternalBaseLibBitFieldOrUint Operand StartBit EndBit OrData ; Ok (wrapU w r)).
Definition BitFieldAnd (w Operand StartBit EndBit AndData : Z) : outcome Z :=
  check_bits w StartBit EndBit
    (do r <- InternalBaseLibBitFieldAndUint Operand StartBit EndBit AndData ; Ok (wrapU w r)).
Definition BitFieldAndThenOr (w Operand StartBit EndBit AndData OrData : Z) : outcome Z :=
  check_bits w StartBit EndBit
    (do a <- BitFieldAnd w Operand StartBit EndBit AndData ;
     BitFieldOr w a StartBit EndBit OrData).
Definition BitFieldWrite (w Operand StartBit EndBit Value : Z) : outcome Z :=
  check_bits w StartBit EndBit (BitFieldAndThenOr w Operand StartBit EndBit 0 Value).

Definition BitFieldRead8 := BitFieldRead 8.
Definition BitFieldWrite8 := BitFieldWrite 8.
Definition BitFieldOr8 := BitFieldOr 8.
Definition BitFieldAnd8 := BitFieldAnd 8.
Definition BitFieldAndThenOr8 := BitFieldAndThenOr 8.
Definition BitFieldRead16 := BitFieldRead 16.
Definition BitFieldWrite16 := BitFieldWrite 16.
Definition BitFieldOr16 := BitFieldOr 16.
Definition BitFieldAnd16 := BitFieldAnd 16.
Definition BitFieldAndThenOr16 := BitFieldAndThenOr 16.
Definition BitFieldRead32 := BitFieldRead 32.
Definition BitFieldWrite32 := BitFieldWrite 32.
Definition BitFieldOr32 := BitFieldOr 32.
Definition BitFieldAnd32 := BitFieldAnd 32.
Definition BitFieldAndThenOr32 := BitFieldAndThenOr 32.
End BitField.

(** ** The 64-bit functions *)

Definition BitFieldRead64 (Operand StartBit EndBit : Z) : outcome Z :=
  check_bits 64 StartBit EndBit
    (do m <- LShiftU64 (wrapU 64 (-2)) EndBit ;
     RShiftU64 (Z.land Operand (c_not 64 m)) StartBit).
Definition BitFieldOr64 (Operand StartBit EndBit OrData : Z) : outcome Z :=
  check_bits 64 StartBit EndBit
    (do top <- RShiftU64 OrData (EndBit - StartBit) ;
     ASSERT (top =? Z.land top 1)
       (do Value1 <- LShiftU64 OrData StartBit ;
        do Value2 <- LShiftU64 (wrapU 64 (-2)) EndBit ;
        Ok (Z.lor Operand (Z.land Value1 (c_not 64 Value2))))).
Definition BitFieldAnd64 (Operand StartBit EndBit AndData : Z) : outcome Z :=
  check_bits 64 StartBit EndBit
    (do top <- RShiftU64 AndData (EndBit - StartBit) ;
     ASSERT (top =? Z.land top 1)
       (do Value1 <- LShiftU64 (c_not 64 AndData) StartBit ;
        do Value2 <- LShiftU64 (wrapU 64 (-2)) EndBit ;
        Ok (Z.land Operand (c_not 64 (Z.land Value1 (c_not 64 Value2)))))).
Definition BitFieldAndThenOr64 (Operand StartBit EndBit AndData OrData : Z) : outcome Z :=
  check_bits 64 StartBit EndBit
    (do a <- BitFieldAnd64 Operand StartBit EndBit AndData ;
     BitFieldOr64 a StartBit EndBit OrData).
Definition BitFieldWrite64 (Operand StartBit EndBit Value : Z) : outcome Z :=
  check_bits 64 StartBit EndBit (BitFieldAndThenOr64 Operand StartBit EndBit 0 Value).

(** ** Counting ones *)

Section CountOnes.
Context (W : Z).

(** The statements of BitFieldCountOnes32 after the read. *)
Definition count_ones_word (Count0 : Z) : Z :=
  let Count1 := wrapU 32 (Count0 - Z.land (Z.shiftr Count0 1) 0x55555555) in
  let Count2 := wrapU 32 (Z.land Count1 0x33333333 + Z.land (Z.shiftr Count1 2) 0x33333333) in
  let Count3 := wrapU 32 (Count2 + Z.shiftr Count2 4) in
  let Count4 := Z.land Count3 0x0F0F0F0F in
  let Count5 := wrapU 32 (Count4 + Z.shiftr Count4 8) in
  let Count6 := wrapU 32 (Count5 + Z.shiftr Count5 16) in
  Z.land (wrapU 8 Count6) 0x3F.

Definition BitFieldCountOnes32 (Operand StartBit EndBit : Z) : outcome Z :=
  check_bits 32 StartBit EndBit
    (do Count <- BitFieldRead32 W Operand StartBit EndBit ; Ok (count_ones_word Count)).

Definition BitFieldCountOnes64 (Operand StartBit EndBit : Z) : outcome Z :=
  check_bits 64 StartBit EndBit
    (do BitField <- BitFieldRead64 Operand StartBit EndBit ;
     do Count <- BitFieldCountOnes32 (wrapU 32 BitField) 0 31 ;
     do hi <- RShiftU64 BitField 32 ;
     do Count' <- BitFieldCountOnes32 (wrapU 32 hi) 0 31 ;
     Ok (wrapU 8 (Count + Count'))).
End CountOnes.

(** ** Specification *)

(** The number of ones among the [n] bits of [x] from bit [a] on. *)
Fixpoint ones (x a : Z) (n : nat) : Z :=
  match n with O => 0 | S n' => Z.b2z (Z.testbit x a) + ones x (a + 1) n' end.

(** The field [a..b] of [x], and [x] with the field replaced by [v]. *)
Definition field (x a b : Z) : Z := wrapU (b - a + 1) (Z.shiftr x a).
Definition set_field (x a b v : Z) : Z :=
  Z.lor (Z.ldiff x (Z.shiftl (Z.ones (b - a + 1)) a)) (Z.shiftl v a).

(** The three basic operations of a width: what the workers compute, in
    terms of bits. *)
Record field_ops (w : Z) (read : Z -> Z -> Z -> outcome Z) (or_ and_ : Z -> Z -> Z -> Z -> outcome Z) : Prop := {
  ops_read x a b : inU w x -> 0 <= a <= b -> b < w -> exists r, read x a b = Ok r /\ inU w r /\
    forall i, 0 <= i -> Z.testbit r i = (i <=? b - a) && Z.testbit x (i + a);
  ops_or x a b d : inU w x -> 0 <= a <= b -> b < w -> inU (b - a + 1) d ->
    exists r, or_ x a b d = Ok r /\ inU w r /\
    forall i, 0 <= i -> Z.testbit r i = Z.testbit x i || ((a <=? i) && Z.testbit d (i - a));
  ops_and x a b d : inU w x -> 0 <= a <= b -> b < w -> inU (b - a + 1) d ->
    exists r, and_ x a b d = Ok r /\ inU w r /\
    forall i, 0 <= i -> Z.testbit r i =
      Z.testbit x i && (negb ((a <=? i) && (i <=? b)) || Z.testbit d (i - a))
}.

(** The size check on the data. *)
Lemma top_bit a b d : 0 <= a <= b -> 0 <= d ->
  (Z.shiftr d (b - a) =? Z.land (Z.shiftr d (b - a)) 1) = (d <? 2 ^ (b - a + 1)).
Proof.
  intros Hab Hd. rewrite (Z.land_ones _ 1) by lia. rewrite Z.shiftr_div_pow2 by lia.
  change (2 ^ 1) with 2. assert (HP : 0 < 2 ^ (b - a)) by (apply Z.pow_pos_nonneg; lia).
  replace (2 ^ (b - a + 1)) with (2 * 2 ^ (b - a)) by (rewrite Z.pow_add_r by lia; lia).
  set (P := 2 ^ (b - a)) in *. pose proof (Z.div_pos d P Hd HP) as Hq.
  pose proof (Z.mod_pos_bound (d / P) 2 ltac:(lia)).
  destruct (Z.eqb_spec (d / P) ((d / P) mod 2)) as [E|E]; destruct (Z.ltb_spec d (2 * P)) as [H2|H2];
    [done| | |done].
  - pose proof (Z.div_le_lower_bound d P 2 HP ltac:(lia)). lia.
  - exfalso. apply E. symmetry. apply Z.mod_small. split; [done|]. apply Z.div_lt_upper_bound; lia.
Qed.

(** ** The workers in bits *)

Lemma c_not_bit W x i : 0 <= W -> 0 <= i -> Z.testbit (c_not W x) i = (i <? W) && negb (Z.testbit x i).
Proof. intros. unfold c_not. by rewrite testbit_wrapU, Z.lnot_spec by lia. Qed.

Lemma minus2_bit i : 0 <= i -> Z.testbit (-2) i = negb (i =? 0).
Proof.
  intros Hi. change (-2) with (Z.lnot 1). rewrite Z.lnot_spec by lia.
  destruct (Z.eqb_spec i 0) as [-> |]; [done|]. by rewrite (Z.bits_above_log2 1) by (cbn; lia).
Qed.

Lemma mask_bit W b i : 0 <= b < W -> 0 <= i ->
  Z.testbit (c_not W (wrapU W (Z.shiftl (wrapU W (-2)) b))) i = (i <=? b).
Proof.
  intros Hb Hi. rewrite c_not_bit, testbit_wrapU, Z.shiftl_spec by lia.
  destruct (Z.ltb_spec i W), (Z.leb_spec i b); cbn [andb negb]; try lia.
  - destruct (decide (i = b)) as [-> |].
    + by rewrite Z.sub_diag, testbit_wrapU, minus2_bit, andb_false_r by lia.
    + by rewrite Z.testbit_neg_r by lia.
  - rewrite testbit_wrapU, minus2_bit by lia.
    destruct (Z.ltb_spec (i - b) W), (Z.eqb_spec (i - b) 0); lia || done.
Qed.

Lemma inU_ge W w x : inU w x -> 0 <= w <= W -> inU W x.
Proof. unfold inU. intros H Hw. pose proof (Z.pow_le_mono_r 2 w W ltac:(lia) ltac:(lia)). lia. Qed.

(** The values the functions return, before they are put together. *)
Definition read_val (W x a b : Z) : Z :=
  Z.shiftr (Z.land x (c_not W (wrapU W (Z.shiftl (wrapU W (-2)) b)))) a.
Definition or_val (W x a b d : Z) : Z :=
  Z.lor x (Z.land (wrapU W (Z.shiftl d a)) (c_not W (wrapU W (Z.shiftl (wrapU W (-2)) b)))).
Definition and_val (W x a b d : Z) : Z :=
  Z.land x (c_not W (Z.land (wrapU W (Z.shiftl (c_not W d) a))
                       (c_not W (wrapU W (Z.shiftl (wrapU W (-2)) b))))).

Section Values.
Context (w W x a b : Z) (Hw : 0 < w <= W) (Hx : inU w x) (Hab : 0 <= a <= b) (Hb : b < w).

Lemma read_val_bit i : 0 <= i ->
  Z.testbit (read_val W x a b) i = (i <=? b - a) && Z.testbit x (i + a).
Proof.
  intros Hi. unfold read_val. rewrite Z.shiftr_spec, Z.land_spec, mask_bit by lia.
  replace (i + a <=? b) with (i <=? b - a); [apply andb_comm|].
  destruct (Z.leb_spec i (b - a)), (Z.leb_spec (i + a) b); lia || done.
Qed.

Lemma or_val_bit d i : inU (b - a + 1) d -> 0 <= i ->
  Z.testbit (or_val W x a b d) i = Z.testbit x i || ((a <=? i) && Z.testbit d (i - a)).
Proof.
  intros Hd Hi. unfold or_val.
  rewrite Z.lor_spec, Z.land_spec, mask_bit, testbit_wrapU, Z.shiftl_spec by lia. f_equal.
  destruct (Z.leb_spec a i).
  - destruct (Z.leb_spec i b).
    + destruct (Z.ltb_spec i W); [|lia]. cbn [andb]. by rewrite andb_true_r.
    + rewrite (testbit_inU_high (b - a + 1) d (i - a)) by (done || lia). by rewrite andb_false_r.
  - rewrite Z.testbit_neg_r by lia. by rewrite andb_false_r.
Qed.

Lemma and_val_bit d i : 0 <= i ->
  Z.testbit (and_val W x a b d) i =
  Z.testbit x i && (negb ((a <=? i) && (i <=? b)) || Z.testbit d (i - a)).
Proof.
  intros Hi. unfold and_val. rewrite Z.land_spec, c_not_bit, Z.land_spec, mask_bit, testbit_wrapU,
    Z.shiftl_spec by lia.
  destruct (Z.ltb_spec i W); cbn [andb].
  2:{ rewrite (testbit_inU_high w x i) by (done || lia). done. }
  f_equal. destruct (Z.leb_spec a i); cbn [andb].
  - rewrite c_not_bit by lia. destruct (Z.ltb_spec (i - a) W); [|lia]. cbn [andb].
    rewrite negb_andb, negb_involutive. apply orb_comm.
  - rewrite Z.testbit_neg_r by lia. done.
Qed.

(** All three fit the width again. *)
Lemma inU_val r : 0 <= r -> (forall i, w <= i -> Z.testbit r i = false) -> wrapU w r = r /\ inU w r.
Proof.
  intros Hr Hbit. assert (inU w r) by (apply inU_of_bits; [lia|done|done]).
  split; [by apply wrapU_id|done].
Qed.

Lemma read_val_fits : wrapU w (read_val W x a b) = read_val W x a b /\ inU w (read_val W x a b).
Proof.
  apply inU_val.
  - unfold read_val. apply Z.shiftr_nonneg, Z.land_nonneg. left. apply Hx.
  - intros i Hi. rewrite read_val_bit by lia. destruct (Z.leb_spec i (b - a)); [lia|done].
Qed.
Lemma or_val_fits d : inU (b - a + 1) d ->
  wrapU w (or_val W x a b d) = or_val W x a b d /\ inU w (or_val W x a b d).
Proof.
  intros Hd. apply inU_val.
  - unfold or_val. apply Z.lor_nonneg. split; [apply Hx|]. apply Z.land_nonneg. left.
    apply wrapU_range. lia.
  - intros i Hi. rewrite or_val_bit by (done || lia). rewrite (testbit_inU_high w x i) by (done || lia).
    rewrite (testbit_inU_high (b - a + 1) d (i - a)) by (done || lia). apply andb_false_r.
Qed.
Lemma and_val_fits d : wrapU w (and_val W x a b d) = and_val W x a b d /\ inU w (and_val W x a b d).
Proof.
  apply inU_val.
  - unfold and_val. apply Z.land_nonneg. left. apply Hx.
  - intros i Hi. rewrite and_val_bit by lia. by rewrite (testbit_inU_high w x i) by (done || lia).
Qed.
End Values.

Lemma check_bits_ok {A} w a b (k : outcome A) : 0 <= a <= b -> b < w -> check_bits w a b k = k.
Proof.
  intros Hab Hb. unfold check_bits, ASSERT. destruct (Z.ltb_spec b w); [|lia].
  by destruct (Z.leb_spec a b); [|lia].
Qed.

Lemma narrow_ops W w :
  W = 32 \/ W = 64 -> 0 < w <= W -> field_ops w (BitFieldRead W w) (BitFieldOr W w) (BitFieldAnd W w).
Proof.
  intros HW Hw.
  assert (Hsh : forall y n, n < W -> c_shl W y n = Ok (wrapU W (Z.shiftl y n)) /\ c_shr W y n = Ok (Z.shiftr y n)).
  { intros y n Hn. unfold c_shl, c_shr. by destruct (Z.ltb_spec n W); [|lia]. }
  constructor; intros x a b.
  - intros Hx Hab Hb. exists (read_val W x a b).
    destruct (read_val_fits w W x a b Hw Hx Hab Hb) as [E1 E2]. split_and!; [|done|intros; by eapply read_val_bit].
    unfold BitFieldRead, InternalBaseLibBitFieldReadUint, low_mask. rewrite check_bits_ok by done.
    rewrite (proj1 (Hsh _ b ltac:(lia))). cbn [obind]. rewrite (proj2 (Hsh _ a ltac:(lia))). cbn [obind].
    by fold (read_val W x a b); rewrite E1.
  - intros d Hx Hab Hb Hd. exists (or_val W x a b d).
    destruct (or_val_fits w W x a b Hw Hx Hab Hb d Hd) as [E1 E2].
    split_and!; [|done|intros; by apply (or_val_bit w W x a b)].
    unfold BitFieldOr, InternalBaseLibBitFieldOrUint, low_mask. rewrite check_bits_ok by done.
    rewrite (proj2 (Hsh d (b - a) ltac:(lia))). cbn [obind]. rewrite top_bit by (done || apply Hd).
    destruct Hd as [Hd1 Hd2]. destruct (Z.ltb_spec d (2 ^ (b - a + 1))); [|lia]. cbn [ASSERT].
    rewrite (proj1 (Hsh d a ltac:(lia))). cbn [obind]. rewrite (proj1 (Hsh _ b ltac:(lia))). cbn [obind].
    fold (or_val W x a b d). by rewrite E1.
  - intros d Hx Hab Hb Hd. exists (and_val W x a b d).
    destruct (and_val_fits w W x a b Hw Hx Hab Hb d) as [E1 E2].
    split_and!; [|done|intros; by apply (and_val_bit w W x a b)].
    unfold BitFieldAnd, InternalBaseLibBitFieldAndUint, low_mask. rewrite check_bits_ok by done.
    rewrite (proj2 (Hsh d (b - a) ltac:(lia))). cbn [obind]. rewrite top_bit by (done || apply Hd).
    destruct Hd as [Hd1 Hd2]. destruct (Z.ltb_spec d (2 ^ (b - a + 1))); [|lia]. cbn [ASSERT].
    rewrite (proj1 (Hsh (c_not W d) a ltac:(lia))). cbn [obind]. rewrite (proj1 (Hsh _ b ltac:(lia))). cbn [obind].
    fold (and_val W x a b d). by rewrite E1.
Qed.

Lemma wide_ops : field_ops 64 BitFieldRead64 BitFieldOr64 BitFieldAnd64.
Proof.
  constructor; intros x a b.
  - intros Hx Hab Hb. exists (read_val 64 x a b).
    destruct (read_val_fits 64 64 x a b ltac:(lia) Hx Hab Hb) as [_ E2].
    split_and!; [|done|intros; by eapply (read_val_bit 64)].
    unfold BitFieldRead64. rewrite check_bits_ok by done. rewrite LShiftU64_Ok by lia. cbn [obind].
    by rewrite RShiftU64_Ok by lia.
  - intros d Hx Hab Hb Hd. exists (or_val 64 x a b d).
    destruct (or_val_fits 64 64 x a b ltac:(lia) Hx Hab Hb d Hd) as [_ E2].
    split_and!; [|done|intros; by apply (or_val_bit 64 64 x a b)].
    unfold BitFieldOr64. rewrite check_bits_ok by done. rewrite RShiftU64_Ok by lia. cbn [obind].
    rewrite top_bit by (done || apply Hd). destruct Hd as [Hd1 Hd2].
    destruct (Z.ltb_spec d (2 ^ (b - a + 1))); [|lia]. cbn [ASSERT].
    rewrite LShiftU64_Ok by lia. cbn [obind]. by rewrite LShiftU64_Ok by lia.
  - intros d Hx Hab Hb Hd. exists (and_val 64 x a b d).
    destruct (and_val_fits 64 64 x a b ltac:(lia) Hx Hab Hb d) as [_ E2].
    split_and!; [|done|intros; by apply (and_val_bit 64 64 x a b)].
    unfold BitFieldAnd64. rewrite check_bits_ok by done. rewrite RShiftU64_Ok by lia. cbn [obind].
    rewrite top_bit by (done || apply Hd). destruct Hd as [Hd1 Hd2].
    destruct (Z.ltb_spec d (2 ^ (b - a + 1))); [|lia]. cbn [ASSERT].
    rewrite LShiftU64_Ok by lia. cbn [obind]. by rewrite LShiftU64_Ok by lia.
Qed.

(** ** Write, in terms of the three operations *)

Lemma field_bit x a b i : 0 <= a <= b -> 0 <= i ->
  Z.testbit (field x a b) i = (i <=? b - a) && Z.testbit x (i + a).
Proof.
  intros Hab Hi. unfold field. rewrite testbit_wrapU, Z.shiftr_spec by lia. f_equal.
  destruct (Z.ltb_spec i (b - a + 1)), (Z.leb_spec i (b - a)); lia || done.
Qed.

Lemma set_field_bit x a b v i : 0 <= a <= b -> inU (b - a + 1) v -> 0 <= i ->
  Z.testbit (set_field x a b v) i =
  if (a <=? i) && (i <=? b) then Z.testbit v (i - a) else Z.testbit x i.
Proof.
  intros Hab Hv Hi. unfold set_field. rewrite Z.lor_spec, Z.ldiff_spec, !Z.shiftl_spec by lia.
  destruct (Z.leb_spec a i); cbn [andb].
  - rewrite Z.testbit_ones_nonneg by lia. destruct (Z.leb_spec i b).
    + destruct (Z.ltb_spec (i - a) (b - a + 1)); [|lia]. cbn. by rewrite andb_false_r.
    + destruct (Z.ltb_spec (i - a) (b - a + 1)); [lia|].
      rewrite (testbit_inU_high (b - a + 1) v (i - a)) by (done || lia).
      by rewrite orb_false_r, andb_true_r.
  - rewrite !(Z.testbit_neg_r _ (i - a)) by lia. by rewrite orb_false_r, andb_true_r.
Qed.

(** AND with 0 then OR with the value replaces the field. *)
Lemma ops_write w read or_ and_ x a b v :
  field_ops w read or_ and_ -> inU w x -> 0 <= a <= b -> b < w -> inU (b - a + 1) v ->
  exists m, and_ x a b 0 = Ok m /\ or_ m a b v = Ok (set_field x a b v) /\ inU w (set_field x a b v).
Proof.
  intros Hops Hx Hab Hb Hv.
  assert (H0 : inU (b - a + 1) 0) by (unfold inU; pose proof (Z.pow_pos_nonneg 2 (b - a + 1)); lia).
  destruct (ops_and _ _ _ _ Hops x a b 0 Hx Hab Hb H0) as (m & Em & Hm & Bm). exists m. split; [done|].
  destruct (ops_or _ _ _ _ Hops m a b v Hm Hab Hb Hv) as (r & Er & Hr & Br).
  assert (E : r = set_field x a b v); [|by rewrite E in *].
  apply Z.bits_inj'. intros i Hi. rewrite Br, Bm, set_field_bit, Z.bits_0, orb_false_r by done.
  destruct (Z.leb_spec a i); cbn [andb negb]; [|by rewrite andb_true_r, orb_false_r].
  destruct (Z.leb_spec i b); cbn [negb]; [by rewrite andb_false_r|].
  rewrite (testbit_inU_high (b - a + 1) v (i - a)) by (done || lia). by rewrite andb_true_r, orb_false_r.
Qed.

Lemma ops_read_field w read or_ and_ x a b :
  field_ops w read or_ and_ -> inU w x -> 0 <= a <= b -> b < w -> read x a b = Ok (field x a b).
Proof.
  intros Hops Hx Hab Hb. destruct (ops_read _ _ _ _ Hops x a b Hx Hab Hb) as (r & -> & _ & Br).
  f_equal. apply Z.bits_inj'. intros i Hi. by rewrite Br, field_bit.
Qed.

Lemma field_set_field x a b v :
  0 <= a <= b -> inU (b - a + 1) v -> field (set_field x a b v) a b = v.
Proof.
  intros Hab Hv. apply Z.bits_inj'. intros i Hi. rewrite field_bit, set_field_bit by (done || lia).
  destruct (Z.leb_spec i (b - a)).
  - destruct (Z.leb_spec a (i + a)), (Z.leb_spec (i + a) b); try lia. cbn. f_equal. lia.
  - by rewrite (testbit_inU_high (b - a + 1) v i) by (done || lia).
Qed.

(** ** Counting ones *)

(** The number with digits [ds] in base [2 ^ k], least significant first. *)
Fixpoint num (k : Z) (ds : list Z) : Z :=
  match ds with [] => 0 | d :: ds' => d + 2 ^ k * num k ds' end.

Lemma num_range k ds : 0 <= k -> Forall (inU k) ds -> inU (k * Z.of_nat (length ds)) (num k ds).
Proof.
  intros Hk. induction 1 as [|d ds Hd _ IH]; cbn [num length].
  - by rewrite Z.mul_0_r.
  - replace (k * Z.of_nat (S (length ds))) with (k + k * Z.of_nat (length ds)) by lia.
    unfold inU in *. rewrite Z.pow_add_r by lia.
    pose proof (Z.mul_le_mono_nonneg_l (num k ds + 1) (2 ^ (k * Z.of_nat (length ds))) (2 ^ k)
      ltac:(lia) ltac:(lia)).
    pose proof (Z.mul_nonneg_nonneg (2 ^ k) (num k ds) ltac:(lia) ltac:(lia)). lia.
Qed.

Lemma shiftr_num k d ds : 0 <= k -> inU k d -> Z.shiftr (num k (d :: ds)) k = num k ds.
Proof.
  intros Hk Hd. unfold inU in Hd. rewrite Z.shiftr_div_pow2 by done. cbn [num].
  rewrite Z.mul_comm, Z.div_add, Z.div_small by lia. lia.
Qed.

(** Conjunction digit by digit. *)
Lemma land_digit k a m y n :
  0 <= k -> inU k a -> inU k m -> Z.land (a + 2 ^ k * y) (m + 2 ^ k * n) = Z.land a m + 2 ^ k * Z.land y n.
Proof.
  intros Hk Ha Hm.
  assert (E : forall u v, inU k u -> u + 2 ^ k * v = Z.lor u (Z.shiftl v k)).
  { intros u v Hu. replace (2 ^ k * v) with (Z.shiftl v k) by (rewrite Z.shiftl_mul_pow2; lia).
    rewrite <- Z.add_lor_land. replace (Z.land u (Z.shiftl v k)) with 0; [lia|].
    apply Z.bits_inj'. intros i Hi. destruct (Z.lt_ge_cases i k); bits_split; bits_done. }
  rewrite !E by done. rewrite (E (Z.land a m)).
  - apply Z.bits_inj'. intros i Hi. destruct (Z.lt_ge_cases i k); bits_split; bits_done.
  - apply inU_of_bits; [done|apply Z.land_nonneg; unfold inU in *; lia|].
    intros i Hi. rewrite Z.land_spec. by rewrite (testbit_inU_high k a i).
Qed.

(** The binary digits. *)
Fixpoint bits_of (n : nat) (x : Z) : list Z :=
  match n with O => [] | S n' => Z.b2z (Z.odd x) :: bits_of n' (Z.div2 x) end.

Lemma num_bits_of n x : inU (Z.of_nat n) x -> num 1 (bits_of n x) = x.
Proof.
  revert x. induction n as [|n IH]; intros x Hx; cbn [bits_of num].
  - unfold inU in Hx. change (2 ^ Z.of_nat 0) with 1 in Hx. lia.
  - rewrite IH; [pose proof (Z.div2_odd x); lia|]. unfold inU in *.
    rewrite Nat2Z.inj_succ, Z.pow_succ_r in Hx by lia. rewrite Z.div2_div.
    split; [apply Z.div_pos; lia|apply Z.div_lt_upper_bound; lia].
Qed.

Lemma bits_of_01 n x : Forall (fun d => 0 <= d <= 1) (bits_of n x).
Proof. revert x. induction n; intros x; constructor; [destruct (Z.odd x); cbn; lia|auto]. Qed.

Lemma ones_bits_of n y : ones y 0 n = foldr Z.add 0 (bits_of n y).
Proof.
  revert y. induction n as [|n IH]; intros y; [done|]. cbn [ones bits_of foldr]. rewrite <- IH, Z.bit0_odd.
  f_equal.
  cut (forall j, 0 <= j -> ones y (j + 1) n = ones (Z.div2 y) j n); [intros H; by apply (H 0)|]. clear.
  induction n as [|n IH]; intros j Hj; [done|]. cbn [ones]. rewrite IH by lia. f_equal.
  by rewrite Z.div2_spec, Z.shiftr_spec by lia.
Qed.

(** Neighbouring digits added: one level of the addition tree. *)
Fixpoint add_pairs (ds : list Z) : list Z :=
  match ds with d0 :: d1 :: ds' => d0 + d1 :: add_pairs ds' | _ => [] end.
(** The digits at even and at odd positions. *)
Fixpoint evens (ds : list Z) : list Z :=
  match ds with d0 :: _ :: ds' => d0 :: evens ds' | _ => [] end.
Fixpoint odds (ds : list Z) : list Z :=
  match ds with _ :: d1 :: ds' => d1 :: odds ds' | _ => [] end.

(** The mask of the even digits among [n] pairs. *)
Fixpoint even_mask (k : Z) (n : nat) : Z :=
  match n with O => 0 | S n' => Z.ones k + 2 ^ k * (0 + 2 ^ k * even_mask k n') end.

(** [n] pairs of digits, each at most [m]. *)
Definition digits (n : nat) (m : Z) (ds : list Z) : Prop :=
  length ds = (2 * n)%nat /\ Forall (fun d => 0 <= d <= m) ds.

(** Induction over pairs of digits. *)
Lemma digits_ind (m : Z) (P : nat -> list Z -> Prop) :
  P O [] ->
  (forall n d0 d1 ds, 0 <= d0 <= m -> 0 <= d1 <= m -> digits n m ds -> P n ds -> P (S n) (d0 :: d1 :: ds)) ->
  forall n ds, digits n m ds -> P n ds.
Proof.
  intros H0 HS n. induction n as [|n IH]; intros ds [Hl Hd].
  - by destruct ds.
  - destruct ds as [|d0 [|d1 ds]]; try (cbn in Hl; lia). rewrite !Forall_cons in Hd.
    assert (digits n m ds) by (split; [cbn in Hl; lia|apply Hd]). apply HS; [apply Hd..|done|by apply IH].
Qed.

Lemma digits_add_pairs n m ds : digits (2 * n) m ds -> digits n (2 * m) (add_pairs ds).
Proof.
  intros [Hl Hd]. revert ds Hl Hd. induction n as [|n IH]; intros ds Hl Hd.
  - destruct ds; [|done]. split; [done|constructor].
  - destruct ds as [|d0 [|d1 [|d2 [|d3 ds]]]]; try (cbn in Hl; lia).
    rewrite !Forall_cons in Hd. destruct Hd as (H0 & H1 & H2 & H3 & Hd).
    destruct (IH ds) as [IH1 IH2]; [cbn in Hl; lia|done|].
    split; [cbn; lia|]. cbn [add_pairs]. constructor; [lia|]. constructor; [lia|done].
Qed.

Lemma sum_add_pairs n m ds : digits n m ds -> foldr Z.add 0 (add_pairs ds) = foldr Z.add 0 ds.
Proof.
  revert n ds. apply digits_ind; [done|]. intros n d0 d1 ds _ _ _ IH. cbn [add_pairs foldr]. lia.
Qed.

Lemma num_add_pairs k n m ds : digits n m ds -> num k (evens ds) + num k (odds ds) = num k (add_pairs ds).
Proof.
  revert n ds. apply digits_ind; [done|]. intros n d0 d1 ds _ _ _ IH. cbn [add_pairs evens odds num]. lia.
Qed.

Section Level.
Context (k m : Z) (Hk : 0 <= k) (Hm : 0 <= m < 2 ^ k).

Lemma digit_in d : 0 <= d <= m -> inU k d.
Proof. unfold inU. lia. Qed.

Lemma ones_in : inU k (Z.ones k).
Proof. unfold inU. rewrite Z.ones_equiv. lia. Qed.

Lemma land_ones_digit d : 0 <= d <= m -> Z.land d (Z.ones k) = d.
Proof. intros Hd. rewrite Z.land_ones by done. apply Z.mod_small. lia. Qed.

Lemma num_split n ds : digits n m ds -> num k ds = num (2 * k) (evens ds) + 2 ^ k * num (2 * k) (odds ds).
Proof.
  revert n ds. apply digits_ind; [cbn; lia|]. intros n d0 d1 ds _ _ _ IH. cbn [num evens odds].
  rewrite IH. replace (2 ^ (2 * k)) with (2 ^ k * 2 ^ k) by (rewrite <- Z.pow_add_r by done; f_equal; lia). ring.
Qed.

Lemma land_pair d0 d1 y n : inU k d0 -> inU k d1 ->
  Z.land (d0 + 2 ^ k * (d1 + 2 ^ k * y)) (even_mask k (S n)) =
  Z.land d0 (Z.ones k) + 2 ^ (2 * k) * Z.land y (even_mask k n).
Proof.
  intros H0 H1. cbn [even_mask]. rewrite land_digit by (done || apply ones_in).
  rewrite land_digit by (done || unfold inU; lia). rewrite Z.land_0_r.
  replace (2 ^ (2 * k)) with (2 ^ k * 2 ^ k) by (rewrite <- Z.pow_add_r by done; f_equal; lia). ring.
Qed.

Lemma land_evens n ds : digits n m ds -> Z.land (num k ds) (even_mask k n) = num (2 * k) (evens ds).
Proof.
  revert n ds. apply digits_ind; [done|]. intros n d0 d1 ds H0 H1 _ IH. cbn [num evens].
  rewrite land_pair by (by apply digit_in). by rewrite IH, land_ones_digit.
Qed.

Lemma land_odds n ds : digits n m ds ->
  Z.land (Z.shiftr (num k ds) k) (even_mask k n) = num (2 * k) (odds ds).
Proof.
  intros H. replace (Z.shiftr (num k ds) k) with (num k (tail ds)).
  2:{ destruct ds as [|d ds]; [by rewrite Z.shiftr_0_l|]. destruct H as [_ Hd]. inversion Hd.
      symmetry. apply shiftr_num; [done|by apply digit_in]. }
  revert n ds H. apply digits_ind; [done|]. intros n d0 d1 ds H0 H1 [Hl Hd] IH. cbn [tail num odds].
  replace (num k ds) with (default 0 (head ds) + 2 ^ k * num k (tail ds)) by (destruct ds; cbn; lia).
  rewrite land_pair; [by rewrite IH, land_ones_digit|by apply digit_in|].
  destruct Hd; apply digit_in; cbn; lia.
Qed.
End Level.

(** The third level masks after the addition: the digits have room for it. *)
Fixpoint add_next (ds : list Z) : list Z :=
  match ds with d0 :: ds' => d0 + default 0 (head ds') :: add_next ds' | [] => [] end.

Lemma num_add_next k ds :
  0 <= k -> Forall (inU k) ds -> num k ds + Z.shiftr (num k ds) k = num k (add_next ds).
Proof.
  intros Hk [|d es Hd _]; [by rewrite Z.shiftr_0_l|]. rewrite shiftr_num by done. clear Hd.
  revert d. induction es as [|d' es IH]; intros d.
  - cbn. lia.
  - change (num k (add_next (d :: d' :: es))) with (d + d' + 2 ^ k * num k (add_next (d' :: es))).
    rewrite <- IH. cbn [num]. ring.
Qed.

Lemma evens_add_next n m ds : digits n m ds -> evens (add_next ds) = add_pairs ds.
Proof. revert n ds. apply digits_ind; [done|]. intros n d0 d1 ds _ _ _ IH. cbn [add_next evens add_pairs head default]. by rewrite IH. Qed.

Lemma digits_add_next n m ds : 0 <= m -> digits n m ds -> digits n (2 * m) (add_next ds).
Proof.
  intros Hm [Hl Hd]. split; [|clear Hl].
  - rewrite <- Hl. clear. induction ds; cbn; by f_equal.
  - induction Hd as [|d ds H Hd IH]; constructor; [|done]. destruct Hd; cbn; lia.
Qed.

Lemma digits_fit n m k ds : m < 2 ^ k -> digits n m ds -> Forall (inU k) ds.
Proof. intros Hm [_ Hd]. eapply Forall_impl; [exact Hd|]. unfold inU. cbn. lia. Qed.

(** The last levels, on the four bytes. *)
Lemma count_bytes ds :
  digits 2 8 ds ->
  (let c5 := wrapU 32 (num 8 ds + Z.shiftr (num 8 ds) 8) in
   Z.land (wrapU 8 (wrapU 32 (c5 + Z.shiftr c5 16))) 0x3F) = foldr Z.add 0 ds.
Proof.
  intros D. rewrite (num_add_next 8) by (lia || by apply (digits_fit 2 8)).
  destruct D as [Hl Hd]. destruct ds as [|r0 [|r1 [|r2 [|r3 [|]]]]]; try done.
  rewrite !Forall_cons in Hd. destruct Hd as (H0 & H1 & H2 & H3 & _).
  cbn [add_next head default num foldr id]. change (2 ^ 8) with 256. unfold wrapU. cbv zeta.
  change (2 ^ 32) with 4294967296. change (2 ^ 8) with 256. set (t := r0 + r1 + 256 * _).
  rewrite (Z.mod_small t) by (unfold t; lia). rewrite Z.shiftr_div_pow2 by lia. change (2 ^ 16) with 65536.
  rewrite <- (Z.div_unique t 65536 (r2 + r3 + 256 * r3) (r0 + r1 + 256 * (r1 + r2))) by (unfold t; lia).
  rewrite (Z.mod_small _ 4294967296) by (unfold t; lia).
  rewrite <- (Z.mod_unique _ 256 (r1 + r2 + 256 * (r2 + r3) + 65536 * r3 + r3) (r0 + r1 + r2 + r3))
    by (unfold t; lia).
  rewrite (Z.land_ones _ 6), Z.mod_small by lia. lia.
Qed.

(** The code adds up the digits of the word. *)
Lemma count_ones_word_digits ds :
  digits 16 1 ds -> count_ones_word (num 1 ds) = foldr Z.add 0 ds.
Proof.
  intros D1. pose proof (digits_add_pairs 8 1 ds D1) as D2. pose proof (digits_add_pairs 4 2 _ D2) as D4.
  pose proof (digits_add_pairs 2 4 _ D4) as D8.
  assert (R : forall k n m es, 0 <= k -> m < 2 ^ k -> k * Z.of_nat (2 * n) = 32 -> digits n m es ->
    wrapU 32 (num k es) = num k es).
  { intros k n m es Hk Hm E Hd. apply wrapU_id. rewrite <- E, <- (proj1 Hd). apply num_range; [done|].
    by apply (digits_fit n m). }
  unfold count_ones_word. cbv zeta. 
  change 0x55555555 with (even_mask 1 16). change 0x33333333 with (even_mask 2 8).
  change 0x0F0F0F0F with (even_mask 4 4).
  rewrite (land_odds 1 1 ltac:(lia) ltac:(lia) 16 ds D1), (num_split 1 1 ltac:(lia) 16 ds D1).
  replace (num (2 * 1) (evens ds) + 2 ^ 1 * num (2 * 1) (odds ds) - num (2 * 1) (odds ds))
    with (num 2 (add_pairs ds)) by (rewrite <- (num_add_pairs 2 16 1) by done; change (2 * 1) with 2; lia).
  rewrite (R 2 8%nat 2 (add_pairs ds)) by (done || lia).
  rewrite (land_evens 2 2 ltac:(lia) ltac:(lia) 8 _ D2), (land_odds 2 2 ltac:(lia) ltac:(lia) 8 _ D2).
  rewrite (num_add_pairs _ 8 2 _ D2). change (2 * 2) with 4.
  rewrite (R 4 4%nat 4 (add_pairs (add_pairs ds))) by (done || lia).
  rewrite num_add_next by (lia || by apply (digits_fit 4 4)).
  pose proof (digits_add_next 4 4 _ ltac:(lia) D4) as D5.
  rewrite (R 4 4%nat 8 (add_next _)) by (done || lia).
  rewrite (land_evens 4 8 ltac:(lia) ltac:(lia) 4 _ D5), (evens_add_next 4 4 _ D4). change (2 * 4) with 8.
  etransitivity; [exact (count_bytes _ D8)|].
  by rewrite (sum_add_pairs 4 4 _ D4), (sum_add_pairs 8 2 _ D2), (sum_add_pairs 16 1 _ D1).
Qed.

Lemma count_ones_word_ok x : inU 32 x -> count_ones_word x = ones x 0 32.
Proof.
  intros Hx. rewrite <- (num_bits_of 32 x Hx) at 1. rewrite count_ones_word_digits, ones_bits_of; [done|].
  split; [done|]. apply bits_of_01.
Qed.

(** *** Counting in a field *)

Lemma ones_app x a n k : ones x a (n + k) = ones x a n + ones x (a + Z.of_nat n) k.
Proof.
  revert a. induction n as [|n IH]; intros a; cbn [ones Nat.add].
  - by rewrite Z.add_0_r.
  - rewrite IH. replace (a + 1 + Z.of_nat n) with (a + Z.of_nat (S n)) by lia. lia.
Qed.

Lemma ones_ext x y a c n :
  (forall j, 0 <= j < Z.of_nat n -> Z.testbit x (a + j) = Z.testbit y (c + j)) -> ones x a n = ones y c n.
Proof.
  revert a c. induction n as [|n IH]; intros a c H; [done|]. cbn [ones]. f_equal.
  - specialize (H 0 ltac:(lia)). rewrite !Z.add_0_r in H. by rewrite H.
  - apply IH. intros j Hj. specialize (H (1 + j) ltac:(lia)). by rewrite !Z.add_assoc in H.
Qed.

Lemma ones_bound x a n : 0 <= ones x a n <= Z.of_nat n.
Proof.
  revert a. induction n as [|n IH]; intros a; cbn [ones]; [lia|].
  specialize (IH (a + 1)). destruct (Z.testbit x a); cbn; lia.
Qed.

Lemma ones_0 a n : ones 0 a n = 0.
Proof. revert a. induction n as [|n IH]; intros a; cbn [ones]; [done|]. by rewrite IH, Z.bits_0. Qed.

(** Every bit of the field, and nothing above it, in a word of [n] bits. *)
Lemma ones_field x a b (n : nat) :
  0 <= a <= b -> b - a + 1 <= Z.of_nat n -> ones (field x a b) 0 n = ones x a (Z.to_nat (b - a + 1)).
Proof.
  intros Hab Hn. replace n with (Z.to_nat (b - a + 1) + (n - Z.to_nat (b - a + 1)))%nat by lia.
  rewrite ones_app. rewrite (ones_ext (field x a b) 0 (0 + _) 0 (n - _)).
  - rewrite ones_0, Z.add_0_r. apply ones_ext. intros j Hj. rewrite field_bit by lia.
    destruct (Z.leb_spec (0 + j) (b - a)); [|lia]. cbn. f_equal. lia.
  - intros j Hj. rewrite field_bit, Z.bits_0 by lia.
    destruct (Z.leb_spec (0 + Z.of_nat (Z.to_nat (b - a + 1)) + j) (b - a)); [lia|done].
Qed.

Lemma BitFieldCountOnes32_ok W x a b :
  W = 32 \/ W = 64 -> inU 32 x -> 0 <= a <= b -> b < 32 ->
  BitFieldCountOnes32 W x a b = Ok (ones x a (Z.to_nat (b - a + 1))).
Proof.
  intros HW Hx Hab Hb. unfold BitFieldCountOnes32, BitFieldRead32. rewrite check_bits_ok by done.
  rewrite (ops_read_field 32 _ _ _ _ _ _ (narrow_ops W 32 HW ltac:(lia))) by done. cbn [obind].
  rewrite count_ones_word_ok, (ones_field x a b 32) by (done || lia || (unfold field; apply (inU_ge 32 (b - a + 1)); [apply wrapU_range|]; lia)).
  done.
Qed.

(** ** Claims *)

(** The 8, 16 and 32-bit functions, on 32 and 64-bit
    builds: reading returns the field; writing replaces the field and no
    other bit, stays in the width, and reading back gives the value written. *)
Lemma field_narrow W w x a b v :
  W = 32 \/ W = 64 -> w = 8 \/ w = 16 \/ w = 32 -> inU w x -> 0 <= a <= b -> b < w ->
  inU (b - a + 1) v ->
  BitFieldRead W w x a b = Ok (field x a b) /\
  BitFieldWrite W w x a b v = Ok (set_field x a b v) /\
  inU w (set_field x a b v) /\
  BitFieldRead W w (set_field x a b v) a b = Ok v.
Proof.
  intros HW Hw Hx Hab Hb Hv. pose proof (narrow_ops W w HW ltac:(lia)) as Hops.
  destruct (ops_write _ _ _ _ x a b v Hops Hx Hab Hb Hv) as (m & E1 & E2 & Hr).
  split_and!; [by apply (ops_read_field w _ _ _ _ _ _ Hops)| |done|].
  - unfold BitFieldWrite, BitFieldAndThenOr. rewrite !check_bits_ok by done. by rewrite E1.
  - rewrite (ops_read_field w _ _ _ _ _ _ Hops) by done. by rewrite field_set_field.
Qed.

(** The same for the 64-bit functions. *)
Lemma field_wide x a b v :
  inU 64 x -> 0 <= a <= b -> b < 64 -> inU (b - a + 1) v ->
  BitFieldRead64 x a b = Ok (field x a b) /\
  BitFieldWrite64 x a b v = Ok (set_field x a b v) /\
  inU 64 (set_field x a b v) /\
  BitFieldRead64 (set_field x a b v) a b = Ok v.
Proof.
  intros Hx Hab Hb Hv. pose proof wide_ops as Hops.
  destruct (ops_write _ _ _ _ x a b v Hops Hx Hab Hb Hv) as (m & E1 & E2 & Hr).
  split_and!; [by apply (ops_read_field 64 _ _ _ _ _ _ Hops)| |done|].
  - unfold BitFieldWrite64, BitFieldAndThenOr64. rewrite !check_bits_ok by done. by rewrite E1.
  - rewrite (ops_read_field 64 _ _ _ _ _ _ Hops) by done. by rewrite field_set_field.
Qed.

(** The field functions, 8, 16 and 32-bit ones on
    32 and 64-bit builds and the 64-bit ones: reading returns the field;
    writing replaces the field and no other bit, stays in the width, and
    reading back gives the value written. *)
Theorem BitField_roundtrip a b v :
  0 <= a <= b -> inU (b - a + 1) v ->
  (forall W w x, W = 32 \/ W = 64 -> w = 8 \/ w = 16 \/ w = 32 -> inU w x -> b < w ->
     BitFieldRead W w x a b = Ok (field x a b) /\
     BitFieldWrite W w x a b v = Ok (set_field x a b v) /\
     inU w (set_field x a b v) /\
     BitFieldRead W w (set_field x a b v) a b = Ok v) /\
  (forall x, inU 64 x -> b < 64 ->
     BitFieldRead64 x a b = Ok (field x a b) /\
     BitFieldWrite64 x a b v = Ok (set_field x a b v) /\
     inU 64 (set_field x a b v) /\
     BitFieldRead64 (set_field x a b v) a b = Ok v).
Proof. intros Hab Hv. split; intros; [by apply field_narrow|by apply field_wide]. Qed.

Lemma BitField_roundtrip_witness :
  BitFieldWrite8 64 0xFF 2 4 5 = Ok 0xF7 /\ BitFieldRead8 64 0xF7 2 4 = Ok 5 /\ BitFieldWrite64 0 2 4 5 = Ok 20.
Proof.
  destruct (BitField_roundtrip 2 4 5) as [H1 H2]; [lia|by_decide|].
  destruct (H1 64 8 0xFF) as (_ & E1 & _ & E2); [by right|by left|by_decide|lia|].
  destruct (H2 0) as (_ & E3 & _); [by_decide|lia|]. split_and!; [exact E1|exact E2|exact E3].
Defined.

(** BitFieldCountOnes32 and BitFieldCountOnes64,
    whose additions run in parallel inside one word, return the number of ones
    among the bits of the field. *)
Theorem CountOnes_popcount W x y a b c d :
  W = 32 \/ W = 64 -> inU 32 x -> 0 <= a <= b -> b < 32 -> inU 64 y -> 0 <= c <= d -> d < 64 ->
  BitFieldCountOnes32 W x a b = Ok (ones x a (Z.to_nat (b - a + 1))) /\
  BitFieldCountOnes64 W y c d = Ok (ones y c (Z.to_nat (d - c + 1))).
Proof.
  intros HW Hx Hab Hb Hy Hcd Hd. split; [by apply BitFieldCountOnes32_ok|].
  unfold BitFieldCountOnes64. rewrite check_bits_ok by done.
  rewrite (ops_read_field 64 _ _ _ _ _ _ wide_ops) by done. cbn [obind].
  assert (Hf : inU 64 (field y c d)) by (apply (inU_ge 64 (d - c + 1)); [apply wrapU_range|]; lia).
  rewrite BitFieldCountOnes32_ok by (done || lia || apply wrapU_range; lia). cbn [obind].
  rewrite RShiftU64_Ok by lia. cbn [obind].
  rewrite BitFieldCountOnes32_ok by (done || lia || apply wrapU_range; lia). cbn [obind].
  change (Z.to_nat (31 - 0 + 1)) with 32%nat. rewrite <- (ones_field y c d 64) by lia.
  change 64%nat with (32 + 32)%nat. rewrite ones_app.
  rewrite (ones_ext (wrapU 32 (field y c d)) (field y c d) 0 0 32)
    by (intros j Hj; rewrite testbit_wrapU by lia; by destruct (Z.ltb_spec (0 + j) 32); [|lia]).
  rewrite (ones_ext (wrapU 32 (Z.shiftr (field y c d) 32)) (field y c d) 0 (0 + Z.of_nat 32) 32)
    by (intros j Hj; rewrite testbit_wrapU, Z.shiftr_spec by lia;
        destruct (Z.ltb_spec (0 + j) 32); [|lia]; cbn [andb]; f_equal; lia).
  f_equal. apply wrapU_id. pose proof (ones_bound (field y c d) 0 32).
  pose proof (ones_bound (field y c d) (0 + Z.of_nat 32) 32). unfold inU. lia.
Qed.

Lemma CountOnes_popcount_witness :
  BitFieldCountOnes32 32 0xF0F0F0F1 0 30 = Ok 16 /\ BitFieldCountOnes64 32 0xFFFFFFFFFFFFFFFF 0 63 = Ok 64.
Proof.
  destruct (CountOnes_popcount 32 0xF0F0F0F1 0xFFFFFFFFFFFFFFFF 0 30 0 63) as [H1 H2];
    [by left|by_decide|lia|lia|by_decide|lia|lia|]. split; [exact H1|exact H2].
Defined.
