(* ===== verification/CheckSum.v ===== *)
(** * CheckSum: the checksums of BaseLib

    MdePkg/Library/BaseLib/CheckSum.c.  The buffer is an address in a memory
    of bytes ([mem], [None] where nothing may be read); elements of more than
    a byte are loaded in little-endian order, as on every CPU the tree
    supports.  [W] is the width of UINTN.  The sums are sums modulo the width,
    the checksums their two's complement, and the table-driven CRC is the
    bit-by-bit CRC of the polynomial 0xEDB88320. *)

From stdpp Require Import base option list.
From Stdlib Require Import ZArith Lia Bool.
From S2P Require Import Prelude BaseMath.

Local Open Scope Z_scope.
Local Open Scope edk_scope.

(** The table of CRCs of the 256 bytes. *)
Definition mCrcTable : list Z := [
  0x00000000; 0x77073096; 0xEE0E612C; 0x990951BA; 0x076DC419; 0x706AF48F; 0xE963A535; 0x9E6495A3;
  0x0EDB8832; 0x79DCB8A4; 0xE0D5E91E; 0x97D2D988; 0x09B64C2B; 0x7EB17CBD; 0xE7B82D07; 0x90BF1D91;
  0x1DB71064; 0x6AB020F2; 0xF3B97148; 0x84BE41DE; 0x1ADAD47D; 0x6DDDE4EB; 0xF4D4B551; 0x83D385C7;
  0x136C9856; 0x646BA8C0; 0xFD62F97A; 0x8A65C9EC; 0x14015C4F; 0x63066CD9; 0xFA0F3D63; 0x8D080DF5;
  0x3B6E20C8; 0x4C69105E; 0xD56041E4; 0xA2677172; 0x3C03E4D1; 0x4B04D447; 0xD20D85FD; 0xA50AB56B;
  0x35B5A8FA; 0x42B2986C; 0xDBBBC9D6; 0xACBCF940; 0x32D86CE3; 0x45DF5C75; 0xDCD60DCF; 0xABD13D59;
  0x26D930AC; 0x51DE003A; 0xC8D75180; 0xBFD06116; 0x21B4F4B5; 0x56B3C423; 0xCFBA9599; 0xB8BDA50F;
  0x2802B89E; 0x5F058808; 0xC60CD9B2; 0xB10BE924; 0x2F6F7C87; 0x58684C11; 0xC1611DAB; 0xB6662D3D;
  0x76DC4190; 0x01DB7106; 0x98D220BC; 0xEFD5102A; 0x71B18589; 0x06B6B51F; 0x9FBFE4A5; 0xE8B8D433;
  0x7807C9A2; 0x0F00F934; 0x9609A88E; 0xE10E9818; 0x7F6A0DBB; 0x086D3D2D; 0x91646C97; 0xE6635C01;
  0x6B6B51F4; 0x1C6C6162; 0x856530D8; 0xF262004E; 0x6C0695ED; 0x1B01A57B; 0x8208F4C1; 0xF50FC457;
  0x65B0D9C6; 0x12B7E950; 0x8BBEB8EA; 0xFCB9887C; 0x62DD1DDF; 0x15DA2D49; 0x8CD37CF3; 0xFBD44C65;
  0x4DB26158; 0x3AB551CE; 0xA3BC0074; 0xD4BB30E2; 0x4ADFA541; 0x3DD895D7; 0xA4D1C46D; 0xD3D6F4FB;
  0x4369E96A; 0x346ED9FC; 0xAD678846; 0xDA60B8D0; 0x44042D73; 0x33031DE5; 0xAA0A4C5F; 0xDD0D7CC9;
  0x5005713C; 0x270241AA; 0xBE0B1010; 0xC90C2086; 0x5768B525; 0x206F85B3; 0xB966D409; 0xCE61E49F;
  0x5EDEF90E; 0x29D9C998; 0xB0D09822; 0xC7D7A8B4; 0x59B33D17; 0x2EB40D81; 0xB7BD5C3B; 0xC0BA6CAD;
  0xEDB88320; 0x9ABFB3B6; 0x03B6E20C; 0x74B1D29A; 0xEAD54739; 0x9DD277AF; 0x04DB2615; 0x73DC1683;
  0xE3630B12; 0x94643B84; 0x0D6D6A3E; 0x7A6A5AA8; 0xE40ECF0B; 0x9309FF9D; 0x0A00AE27; 0x7D079EB1;
  0xF00F9344; 0x8708A3D2; 0x1E01F268; 0x6906C2FE; 0xF762575D; 0x806567CB; 0x196C3671; 0x6E6B06E7;
  0xFED41B76; 0x89D32BE0; 0x10DA7A5A; 0x67DD4ACC; 0xF9B9DF6F; 0x8EBEEFF9; 0x17B7BE43; 0x60B08ED5;
  0xD6D6A3E8; 0xA1D1937E; 0x38D8C2C4; 0x4FDFF252; 0xD1BB67F1; 0xA6BC5767; 0x3FB506DD; 0x48B2364B;
  0xD80D2BDA; 0xAF0A1B4C; 0x36034AF6; 0x41047A60; 0xDF60EFC3; 0xA867DF55; 0x316E8EEF; 0x4669BE79;
  0xCB61B38C; 0xBC66831A; 0x256FD2A0; 0x5268E236; 0xCC0C7795; 0xBB0B4703; 0x220216B9; 0x5505262F;
  0xC5BA3BBE; 0xB2BD0B28; 0x2BB45A92; 0x5CB36A04; 0xC2D7FFA7; 0xB5D0CF31; 0x2CD99E8B; 0x5BDEAE1D;
  0x9B64C2B0; 0xEC63F226; 0x756AA39C; 0x026D930A; 0x9C0906A9; 0xEB0E363F; 0x72076785; 0x05005713;
  0x95BF4A82; 0xE2B87A14; 0x7BB12BAE; 0x0CB61B38; 0x92D28E9B; 0xE5D5BE0D; 0x7CDCEFB7; 0x0BDBDF21;
  0x86D3D2D4; 0xF1D4E242; 0x68DDB3F8; 0x1FDA836E; 0x81BE16CD; 0xF6B9265B; 0x6FB077E1; 0x18B74777;
  0x88085AE6; 0xFF0F6A70; 0x66063BCA; 0x11010B5C; 0x8F659EFF; 0xF862AE69; 0x616BFFD3; 0x166CCF45;
  0xA00AE278; 0xD70DD2EE; 0x4E048354; 0x3903B3C2; 0xA7672661; 0xD06016F7; 0x4969474D; 0x3E6E77DB;
  0xAED16A4A; 0xD9D65ADC; 0x40DF0B66; 0x37D83BF0; 0xA9BCAE53; 0xDEBB9EC5; 0x47B2CF7F; 0x30B5FFE9;
  0xBDBDF21C; 0xCABAC28A; 0x53B39330; 0x24B4A3A6; 0xBAD03605; 0xCDD70693; 0x54DE5729; 0x23D967BF;
  0xB3667A2E; 0xC4614AB8; 0x5D681B02; 0x2A6F2B94; 0xB40BBE37; 0xC30C8EA1; 0x5A05DF1B; 0x2D02EF8D
].

Section CheckSum.
Context (W : Z) (mem : Z -> option Z).

Definition MAX_ADDRESS : Z := 2 ^ W - 1.

(** A load of [n] bytes, least significant byte first. *)
Fixpoint load_le (n : nat) (p : Z) : outcome Z :=
  match n with
  | O => Ok 0
  | S n' =>
      match mem p with
      | Some b => do hi <- load_le n' (p + 1) ; Ok (b + 2 ^ 8 * hi)
      | None => Fault
      end
  end.

(** [for (; Count < Total; Count++) Sum = Sum + *(Buffer + Count)], with
    [left] turns to go and elements of [n] bytes. *)
Fixpoint sum_loop (n : nat) (Buffer : Z) (left : nat) (Count Sum : Z) : outcome Z :=
  match left with
  | O => Ok Sum
  | S left' =>
      do x <- load_le n (Buffer + Count * Z.of_nat n) ;
      sum_loop n Buffer left' (Count + 1) (wrapU (8 * Z.of_nat n) (Sum + x))
  end.

Definition CalculateSum8 (Buffer Length : Z) : outcome Z :=
  ASSERT (negb (Buffer =? 0)) (
    ASSERT (Length <=? MAX_ADDRESS - Buffer + 1)
      (sum_loop 1 Buffer (Z.to_nat Length) 0 0)).
Definition CalculateCheckSum8 (Buffer Length : Z) : outcome Z :=
  do CheckSum <- CalculateSum8 Buffer Length ;
  Ok (wrapU 8 (2 ^ 8 - CheckSum)).

Definition CalculateSum16 (Buffer Length : Z) : outcome Z :=
  ASSERT (negb (Buffer =? 0)) (
    ASSERT (Z.land Buffer 1 =? 0) (ASSERT (Z.land Length 1 =? 0) (
    ASSERT (Length <=? MAX_ADDRESS - Buffer + 1)
      (sum_loop 2 Buffer (Z.to_nat (Length / 2)) 0 0)))).
Definition CalculateCheckSum16 (Buffer Length : Z) : outcome Z :=
  do CheckSum <- CalculateSum16 Buffer Length ;
  Ok (wrapU 16 (2 ^ 16 - CheckSum)).

Definition CalculateSum32 (Buffer Length : Z) : outcome Z :=
  ASSERT (negb (Buffer =? 0)) (
    ASSERT (Z.land Buffer 3 =? 0) (ASSERT (Z.land Length 3 =? 0) (
    ASSERT (Length <=? MAX_ADDRESS - Buffer + 1)
      (sum_loop 4 Buffer (Z.to_nat (Length / 4)) 0 0)))).
Definition CalculateCheckSum32 (Buffer Length : Z) : outcome Z :=
  do CheckSum <- CalculateSum32 Buffer Length ;
  Ok (wrapU 32 (wrapU 32 (wrapU 32 (-1) - CheckSum) + 1)).

Definition CalculateSum64 (Buffer Length : Z) : outcome Z :=
  ASSERT (negb (Buffer =? 0)) (
    ASSERT (Z.land Buffer 7 =? 0) (ASSERT (Z.land Length 7 =? 0) (
    ASSERT (Length <=? MAX_ADDRESS - Buffer + 1)
      (sum_loop 8 Buffer (Z.to_nat (Length / 8)) 0 0)))).
Definition CalculateCheckSum64 (Buffer Length : Z) : outcome Z :=
  do CheckSum <- CalculateSum64 Buffer Length ;
  Ok (wrapU 64 (wrapU 64 (wrapU 64 (-1) - CheckSum) + 1)).

(** [for (; Index < Length; Index++, Ptr++) ...] *)
Fixpoint crc_loop (left : nat) (Ptr Crc : Z) : outcome Z :=
  match left with
  | O => Ok Crc
  | S left' =>
      do b <- load_le 1 Ptr ;
      match mCrcTable !! Z.to_nat (Z.lxor (wrapU 8 Crc) b) with
      | Some t => crc_loop left' (Ptr + 1) (Z.lxor (Z.shiftr Crc 8) t)
      | None => Fault
      end
  end.

Definition CalculateCrc32 (Buffer Length : Z) : outcome Z :=
  ASSERT (negb (Buffer =? 0)) (
    ASSERT (Length <=? MAX_ADDRESS - Buffer + 1)
      (do Crc <- crc_loop (Z.to_nat Length) Buffer 0xffffffff ;
       Ok (Z.lxor Crc 0xffffffff))).
End CheckSum.

(** ** Specification *)

(** The bytes of a value of [n] bytes, least significant first. *)
Fixpoint le_bytes (n : nat) (v : Z) : list Z :=
  match n with O => [] | S n' => v mod 2 ^ 8 :: le_bytes n' (v / 2 ^ 8) end.

(** [l] lies in memory at [p]. *)
Fixpoint holds (mem : Z -> option Z) (p : Z) (l : list Z) : Prop :=
  match l with [] => True | b :: l' => mem p = Some b /\ holds mem (p + 1) l' end.

(** The memory that holds the one buffer [l] at [p]. *)
Definition buffer_at (p : Z) (l : list Z) : Z -> option Z :=
  fun a => if a <? p then None else l !! Z.to_nat (a - p).

Definition sum_of (vs : list Z) : Z := foldr Z.add 0 vs.

(** The CRC, one bit at a time. *)
Definition crc_bit (c : Z) : Z :=
  if Z.odd c then Z.lxor (Z.shiftr c 1) 0xEDB88320 else Z.shiftr c 1.
Definition crc_byte (c b : Z) : Z := Nat.iter 8 crc_bit (Z.lxor c b).
Definition crc32 (l : list Z) : Z :=
  Z.lxor (foldl crc_byte 0xffffffff l) 0xffffffff.

(** ** Sums *)

Lemma holds_app mem p l1 l2 :
  holds mem p (l1 ++ l2) <-> holds mem p l1 /\ holds mem (p + Z.of_nat (length l1)) l2.
Proof.
  revert p. induction l1 as [|b l1 IH]; intros p; cbn [app holds length].
  - rewrite Z.add_0_r. tauto.
  - rewrite IH. replace (p + 1 + Z.of_nat (length l1)) with (p + Z.of_nat (S (length l1))) by lia. tauto.
Qed.

Lemma buffer_at_holds p l : holds (buffer_at p l) p l.
Proof.
  cut (forall l1 l2, holds (buffer_at p (l1 ++ l2)) (p + Z.of_nat (length l1)) l2).
  { intros H. specialize (H [] l). cbn in H. by rewrite Z.add_0_r in H. }
  intros l1 l2. revert l1. induction l2 as [|b l2 IH]; intros l1; cbn [holds]; [done|]. split.
  - unfold buffer_at. destruct (Z.ltb_spec (p + Z.of_nat (length l1)) p); [lia|].
    replace (Z.to_nat _) with (length l1) by lia. by apply list_lookup_middle.
  - specialize (IH (l1 ++ [b])). rewrite <- app_assoc, length_app in IH. cbn in IH.
    by replace (p + Z.of_nat (length l1) + 1) with (p + Z.of_nat (length l1 + 1)) by lia.
Qed.

Lemma length_le_bytes n v : length (le_bytes n v) = n.
Proof. revert v. induction n; intros; cbn; by f_equal. Qed.

Lemma load_le_ok mem n p v :
  inU (8 * Z.of_nat n) v -> holds mem p (le_bytes n v) -> load_le mem n p = Ok v.
Proof.
  revert p v. induction n as [|n IH]; intros p v Hv; cbn [le_bytes holds load_le].
  - unfold inU in Hv. change (2 ^ (8 * Z.of_nat 0)) with 1 in Hv. intros _. f_equal. lia.
  - intros [-> H]. rewrite (IH _ (v / 2 ^ 8)); [|unfold inU in *|done].
    + cbn [obind]. f_equal. pose proof (Z.div_mod v (2 ^ 8)). lia.
    + replace (8 * Z.of_nat (S n)) with (8 + 8 * Z.of_nat n) in Hv by lia.
      rewrite Z.pow_add_r in Hv by lia. split; [apply Z.div_pos; lia|].
      apply Z.div_lt_upper_bound; lia.
Qed.

Section Sums.
Context (mem : Z -> option Z) (n : nat) (Buffer : Z).
Local Abbreviation w := (8 * Z.of_nat n).

(** The elements [vs] lie in memory at [Buffer]. *)
Definition elements_at (vs : list Z) : Prop :=
  Forall (inU w) vs /\ holds mem Buffer (vs ≫= le_bytes n).

Lemma sum_loop_ok vs Count Sum :
  Forall (inU w) vs -> holds mem (Buffer + Count * Z.of_nat n) (vs ≫= le_bytes n) ->
  inU w Sum -> sum_loop mem n Buffer (length vs) Count Sum = Ok (wrapU w (Sum + sum_of vs)).
Proof.
  intros Hvs. revert Count Sum. induction Hvs as [|v vs Hv _ IH]; intros Count Sum H HS.
  - cbn. by rewrite Z.add_0_r, wrapU_id.
  - cbn [mbind list_bind length sum_loop] in *. apply holds_app in H as [H1 H2].
    rewrite (load_le_ok mem n _ v Hv H1). cbn [obind]. rewrite length_le_bytes in H2.
    rewrite IH; [|by replace (Buffer + (Count + 1) * Z.of_nat n)
      with (Buffer + Count * Z.of_nat n + Z.of_nat n) by lia|apply wrapU_range; lia].
    f_equal. unfold wrapU. cbn [sum_of foldr]. rewrite Zplus_mod_idemp_l. f_equal. fold (sum_of vs). lia.
Qed.

Lemma sum_loop_elements vs :
  elements_at vs -> sum_loop mem n Buffer (length vs) 0 0 = Ok (wrapU w (sum_of vs)).
Proof.
  intros [H1 H2]. rewrite (sum_loop_ok vs 0 0); [done|done|by rewrite Z.mul_0_l, Z.add_0_r|].
  unfold inU. pose proof (Z.pow_pos_nonneg 2 w ltac:(lia) ltac:(lia)). lia.
Qed.
End Sums.

(** The two's complement of a sum cancels it. *)
Lemma complement_cancels w s : 0 <= w -> wrapU w (wrapU w s + wrapU w (2 ^ w - wrapU w s)) = 0.
Proof.
  intros Hw. unfold wrapU. assert (2 ^ w <> 0) by (pose proof (Z.pow_pos_nonneg 2 w); lia).
  rewrite Zplus_mod_idemp_r. replace (_ + _) with (1 * 2 ^ w) by lia. by apply Z_mod_mult.
Qed.

Lemma complement_two_steps w s :
  0 <= w -> wrapU w (wrapU w (wrapU w (-1) - s) + 1) = wrapU w (2 ^ w - s).
Proof.
  intros Hw. unfold wrapU. assert (2 ^ w <> 0) by (pose proof (Z.pow_pos_nonneg 2 w); lia).
  rewrite Zplus_mod_idemp_l. replace ((-1) mod 2 ^ w - s + 1) with ((-1) mod 2 ^ w + (1 - s)) by lia.
  rewrite Zplus_mod_idemp_l. replace (2 ^ w - s) with (-1 + (1 - s) + 1 * 2 ^ w) by lia.
  by rewrite Z_mod_plus_full.
Qed.

(** A sum function over elements of [n] bytes and its checksum: for every
    buffer that the documentation allows, the sum of the elements modulo the
    width, and the value that makes the sum zero. *)
Definition checks_sum (n : nat) (Sum CheckSum : Z -> (Z -> option Z) -> Z -> Z -> outcome Z) : Prop :=
  forall W mem Buffer vs,
    let w := 8 * Z.of_nat n in
    let Length := Z.of_nat n * Z.of_nat (length vs) in
    0 < Buffer -> Buffer mod Z.of_nat n = 0 -> Buffer + Length <= 2 ^ W ->
    elements_at mem n Buffer vs ->
    Sum W mem Buffer Length = Ok (wrapU w (sum_of vs)) /\
    exists c, CheckSum W mem Buffer Length = Ok c /\ inU w c /\ wrapU w (sum_of (c :: vs)) = 0.

(** What remains of the functions when their ASSERTs hold. *)
Lemma checks_sum_intro n Sum CheckSum :
  (forall W mem Buffer k, 0 < Buffer -> Buffer mod Z.of_nat n = 0 ->
     Buffer + Z.of_nat n * Z.of_nat k <= 2 ^ W ->
     Sum W mem Buffer (Z.of_nat n * Z.of_nat k) = sum_loop mem n Buffer k 0 0) ->
  (forall W mem Buffer Length s, Sum W mem Buffer Length = Ok s ->
     CheckSum W mem Buffer Length = Ok (wrapU (8 * Z.of_nat n) (2 ^ (8 * Z.of_nat n) - s))) ->
  checks_sum n Sum CheckSum.
Proof.
  intros HS HC W mem Buffer vs w Length H0 Ha Hl Hvs.
  assert (E : Sum W mem Buffer Length = Ok (wrapU w (sum_of vs))).
  { unfold Length. rewrite HS by done. by apply sum_loop_elements. }
  split; [done|]. eexists. split; [by apply HC|]. fold w. split; [apply wrapU_range; lia|].
  rewrite <- (complement_cancels w (sum_of vs)) by lia. cbn [sum_of foldr]. fold (sum_of vs).
  generalize (wrapU w (2 ^ w - wrapU w (sum_of vs))). intros y. unfold wrapU.
  rewrite Zplus_mod_idemp_l. by rewrite Z.add_comm.
Qed.

Ltac sum_asserts n :=
  intros W mem Buffer k H0 Ha Hl; unfold CalculateSum8, CalculateSum16, CalculateSum32, CalculateSum64, MAX_ADDRESS, ASSERT;
  destruct (Z.eqb_spec Buffer 0); [lia|]; cbn [negb];
  repeat match goal with
    | |- context [Z.land ?x ?m =? 0] =>
        replace (Z.land x m) with 0
          by (symmetry; change m with (Z.ones (Z.log2 n)); rewrite Z.land_ones by (cbn; lia);
              solve [assumption | rewrite Z.mul_comm; apply Z_mod_mult])
    end; cbn [Z.eqb];
  match goal with |- context [?a <=? ?b] => destruct (Z.leb_spec a b); [|lia] end;
  f_equal; rewrite ?(Z.mul_comm n), ?Z.div_mul by lia; lia.

(** ** CRC *)

(** One step is linear. *)
Lemma crc_bit_lxor a b : crc_bit (Z.lxor a b) = Z.lxor (crc_bit a) (crc_bit b).
Proof.
  unfold crc_bit. rewrite <- !Z.bit0_odd, Z.lxor_spec, Z.shiftr_lxor.
  set (P := 0xEDB88320). destruct (Z.testbit a 0), (Z.testbit b 0); cbn [xorb];
    apply Z.bits_inj'; intros i Hi; rewrite !Z.lxor_spec;
    repeat match goal with |- context [Z.testbit ?x ?i] => destruct (Z.testbit x i) end; done.
Qed.

Lemma crc_bits_lxor k a b :
  Nat.iter k crc_bit (Z.lxor a b) = Z.lxor (Nat.iter k crc_bit a) (Nat.iter k crc_bit b).
Proof. induction k as [|k IH]; [done|]. rewrite !Nat.iter_succ, IH. apply crc_bit_lxor. Qed.

(** The steps shift out what is above them. *)
Lemma crc_bits_shiftl k x : Nat.iter k crc_bit (Z.shiftl x (Z.of_nat k)) = x.
Proof.
  induction k as [|k IH]; [apply Z.shiftl_0_r|]. rewrite Nat.iter_succ_r.
  replace (crc_bit _) with (Z.shiftl x (Z.of_nat k)); [done|].
  unfold crc_bit. rewrite <- Z.bit0_odd, Z.shiftl_spec_low by lia.
  rewrite Z.shiftr_shiftl_l by lia. f_equal. lia.
Qed.

(** The table holds the CRC of each byte. *)
Lemma mCrcTable_entry x : inU 8 x -> mCrcTable !! Z.to_nat x = Some (Nat.iter 8 crc_bit x).
Proof.
  intros [H0 H1]. change (2 ^ 8) with 256 in H1.
  assert (H : Forall (fun i => mCrcTable !! i = Some (Nat.iter 8 crc_bit (Z.of_nat i))) (seq 0 256)) by by_decide.
  rewrite Forall_forall in H. rewrite (H (Z.to_nat x)); [by rewrite Z2Nat.id by lia|].
  apply elem_of_seq. lia.
Qed.

Lemma inU_lxor w a b : 0 <= w -> inU w a -> inU w b -> inU w (Z.lxor a b).
Proof.
  intros Hw Ha Hb. apply inU_of_bits; [done|apply Z.lxor_nonneg; unfold inU in *; lia|].
  intros i Hi. rewrite Z.lxor_spec. by rewrite !(testbit_inU_high w _ i).
Qed.

(** One table lookup does the eight steps of a byte. *)
Lemma crc_table_step c b t :
  inU 8 b -> mCrcTable !! Z.to_nat (Z.lxor (wrapU 8 c) b) = Some t ->
  Z.lxor (Z.shiftr c 8) t = crc_byte c b.
Proof.
  intros Hb. rewrite mCrcTable_entry by (apply inU_lxor; [lia|apply wrapU_range; lia|done]).
  intros [= <-]. unfold crc_byte.
  replace (Z.lxor c b) with (Z.lxor (Z.shiftl (Z.shiftr c 8) 8) (Z.lxor (wrapU 8 c) b)).
  - rewrite (crc_bits_lxor 8 (Z.shiftl _ 8)). by rewrite (crc_bits_shiftl 8).
  - bits_eq. replace (i - 8 + 8) with i by lia. done.
Qed.

Lemma crc_loop_ok mem l Ptr Crc :
  Forall (inU 8) l -> holds mem Ptr l -> crc_loop mem (length l) Ptr Crc = Ok (foldl crc_byte Crc l).
Proof.
  intros Hl. revert Ptr Crc. induction Hl as [|b l Hb _ IH]; intros Ptr Crc; [done|].
  intros [Hm H]. cbn [length crc_loop load_le]. rewrite Hm. cbn [obind].
  replace (b + 2 ^ 8 * 0) with b by lia.
  destruct (mCrcTable !! Z.to_nat (Z.lxor (wrapU 8 Crc) b)) as [t|] eqn:E.
  - rewrite IH by done. cbn [foldl]. by rewrite (crc_table_step Crc b t).
  - rewrite mCrcTable_entry in E by (apply inU_lxor; [lia|apply wrapU_range; lia|done]). done.
Qed.

Lemma CalculateCrc32_ok W mem Buffer l :
  Forall (inU 8) l -> holds mem Buffer l -> 0 < Buffer -> Buffer + Z.of_nat (length l) <= 2 ^ W ->
  CalculateCrc32 W mem Buffer (Z.of_nat (length l)) = Ok (crc32 l).
Proof.
  intros Hl Hm H0 HW. unfold CalculateCrc32, MAX_ADDRESS, ASSERT.
  destruct (Z.eqb_spec Buffer 0); [lia|]. cbn [negb].
  destruct (Z.leb_spec (Z.of_nat (length l)) (2 ^ W - 1 - Buffer + 1)); [|lia].
  rewrite Nat2Z.id, crc_loop_ok by done. done.
Qed.

(** *** Detection of errors *)

Lemma crc_bit_range c : inU 32 c -> inU 32 (crc_bit c).
Proof.
  intros Hc. assert (H : inU 32 (Z.shiftr c 1)).
  { unfold inU in *. rewrite Z.shiftr_div_pow2 by lia. change (2 ^ 1) with 2.
    split; [apply Z.div_pos; lia|]. apply Z.div_lt_upper_bound; lia. }
  unfold crc_bit. destruct (Z.odd c); [|done]. apply inU_lxor; [lia|done|by_decide].
Qed.

(** The polynomial has its top bit set: a step loses nothing. *)
Lemma crc_bit_zero c : inU 32 c -> crc_bit c = 0 -> c = 0.
Proof.
  intros Hc. unfold crc_bit. destruct (Z.odd c) eqn:E; intros H.
  - apply Z.lxor_eq in H. exfalso.
    assert (Hb : Z.testbit (Z.shiftr c 1) 31 = true) by (rewrite H; done).
    rewrite Z.shiftr_spec in Hb by lia. by rewrite (testbit_inU_high 32 c) in Hb by (done || lia).
  - apply Z.bits_inj'. intros i Hi. rewrite Z.bits_0. destruct (decide (i = 0)) as [-> |].
    + by rewrite Z.bit0_odd.
    + replace i with (i - 1 + 1) by lia. by rewrite <- Z.shiftr_spec, H, Z.bits_0 by lia.
Qed.

Lemma crc_bits_zero k c : inU 32 c -> Nat.iter k crc_bit c = 0 -> c = 0.
Proof.
  revert c. induction k as [|k IH]; intros c Hc; [done|]. rewrite Nat.iter_succ_r. intros H.
  apply crc_bit_zero; [done|]. apply IH; [by apply crc_bit_range|done].
Qed.

Lemma crc_byte_inj c1 b1 c2 b2 :
  inU 32 c1 -> inU 32 c2 -> inU 8 b1 -> inU 8 b2 -> crc_byte c1 b1 = crc_byte c2 b2 ->
  Z.lxor c1 b1 = Z.lxor c2 b2.
Proof.
  intros H1 H2 H3 H4 E. apply Z.lxor_eq. apply (crc_bits_zero 8).
  - assert (inU 32 b1 /\ inU 32 b2) as [? ?] by (unfold inU in *; lia).
    repeat apply inU_lxor; done || lia.
  - rewrite crc_bits_lxor. unfold crc_byte in E. by rewrite E, Z.lxor_nilpotent.
Qed.

Lemma crc_byte_range c b : inU 32 c -> inU 8 b -> inU 32 (crc_byte c b).
Proof.
  intros Hc Hb. unfold crc_byte. generalize 8%nat as k. intros k. induction k as [|k IH].
  - apply inU_lxor; [lia|done|unfold inU in *; lia].
  - rewrite Nat.iter_succ. by apply crc_bit_range.
Qed.

Lemma lxor_cancel_r a b c : Z.lxor a c = Z.lxor b c -> a = b.
Proof.
  intros H. apply (f_equal (fun x => Z.lxor x c)) in H.
  by rewrite !Z.lxor_assoc, Z.lxor_nilpotent, !Z.lxor_0_r in H.
Qed.

Lemma foldl_crc_range l c : Forall (inU 8) l -> inU 32 c -> inU 32 (foldl crc_byte c l).
Proof. intros Hl. revert c. induction Hl as [|b l Hb _ IH]; intros c Hc; [done|]. by apply IH, crc_byte_range. Qed.

Lemma foldl_crc_inj l c1 c2 :
  Forall (inU 8) l -> inU 32 c1 -> inU 32 c2 -> foldl crc_byte c1 l = foldl crc_byte c2 l -> c1 = c2.
Proof.
  intros Hl. revert c1 c2. induction Hl as [|b l Hb _ IH]; intros c1 c2 H1 H2; [done|]. cbn. intros E.
  apply (lxor_cancel_r _ _ b), crc_byte_inj; [done..|].
  apply IH; [by apply crc_byte_range|by apply crc_byte_range|done].
Qed.

(** ** Claims *)

(** CalculateSum8/16/32/64 return the sum of the
    elements modulo the width for every aligned buffer inside the address
    space, and CalculateCheckSum8/16/32/64 the value that, added as one more
    element, makes the sum zero. *)
Theorem CheckSum_zero :
  checks_sum 1 CalculateSum8 CalculateCheckSum8 /\
  checks_sum 2 CalculateSum16 CalculateCheckSum16 /\
  checks_sum 4 CalculateSum32 CalculateCheckSum32 /\
  checks_sum 8 CalculateSum64 CalculateCheckSum64.
Proof.
  split_and!; apply checks_sum_intro.
  - sum_asserts 1.
  - intros W mem B L s E. unfold CalculateCheckSum8. by rewrite E.
  - sum_asserts 2.
  - intros W mem B L s E. unfold CalculateCheckSum16. by rewrite E.
  - sum_asserts 4.
  - intros W mem B L s E. unfold CalculateCheckSum32. rewrite E. cbn [obind]. by rewrite complement_two_steps.
  - sum_asserts 8.
  - intros W mem B L s E. unfold CalculateCheckSum64. rewrite E. cbn [obind]. by rewrite complement_two_steps.
Qed.

Lemma CheckSum_zero_witness :
  exists c, CalculateCheckSum16 64 (buffer_at 4096 [0x34; 0x12; 0xFF; 0xFF]) 4096 4 = Ok c /\
            wrapU 16 (c + 0x1234 + 0xFFFF) = 0.
Proof.
  destruct CheckSum_zero as (_ & H & _).
  destruct (H 64 (buffer_at 4096 [0x34; 0x12; 0xFF; 0xFF]) 4096 [0x1234; 0xFFFF]) as (_ & c & E & _ & Z).
  - lia.
  - reflexivity.
  - cbn. lia.
  - split; [repeat constructor; by_decide|]. apply buffer_at_holds.
  - exists c. split; [exact E|]. rewrite <- Z. f_equal. cbn. lia.
Defined.

(** CalculateCrc32 detects every error confined to one
    byte: two buffers that differ in exactly one byte have different CRCs. *)
Lemma crc32_detects W mem1 mem2 Buffer p b1 b2 q :
  Forall (inU 8) (p ++ b1 :: q) -> inU 8 b2 -> b1 <> b2 ->
  holds mem1 Buffer (p ++ b1 :: q) -> holds mem2 Buffer (p ++ b2 :: q) ->
  0 < Buffer -> Buffer + Z.of_nat (length (p ++ b1 :: q)) <= 2 ^ W ->
  CalculateCrc32 W mem1 Buffer (Z.of_nat (length (p ++ b1 :: q))) <>
  CalculateCrc32 W mem2 Buffer (Z.of_nat (length (p ++ b1 :: q))).
Proof.
  intros Hl Hb2 Hne Hm1 Hm2 H0 HW. pose proof Hl as Hl'.
  apply Forall_app in Hl' as [Hp Hq]. inversion_clear Hq as [|? ? Hb1 Hq'].
  rewrite (CalculateCrc32_ok W mem1) by done.
  replace (length (p ++ b1 :: q)) with (length (p ++ b2 :: q)) in * by (by rewrite !length_app).
  rewrite (CalculateCrc32_ok W mem2) by (done || (apply Forall_app; auto)).
  intros [= E]. apply lxor_cancel_r in E. rewrite !foldl_app in E. cbn [foldl] in E.
  assert (Hc : inU 32 (foldl crc_byte 0xffffffff p)) by (apply foldl_crc_range; [done|by_decide]).
  apply foldl_crc_inj in E; [|done|by apply crc_byte_range..].
  apply crc_byte_inj in E; [|done..]. rewrite !(Z.lxor_comm (foldl _ _ _)) in E.
  by apply lxor_cancel_r in E.
Qed.

(** C40 The table-driven CalculateCrc32 returns, for every
    buffer inside the address space, the CRC computed bit by bit with the
    reflected polynomial 0xEDB88320, the initial value and the final
    complement of ITU-T V.42; it detects every error confined to one byte. *)
Theorem Crc32_reference W mem Buffer p b q :
  Forall (inU 8) (p ++ b :: q) -> holds mem Buffer (p ++ b :: q) -> 0 < Buffer ->
  Buffer + Z.of_nat (length (p ++ b :: q)) <= 2 ^ W ->
  CalculateCrc32 W mem Buffer (Z.of_nat (length (p ++ b :: q))) = Ok (crc32 (p ++ b :: q)) /\
  forall mem' b', inU 8 b' -> b <> b' -> holds mem' Buffer (p ++ b' :: q) ->
    CalculateCrc32 W mem Buffer (Z.of_nat (length (p ++ b :: q))) <>
    CalculateCrc32 W mem' Buffer (Z.of_nat (length (p ++ b :: q))).
Proof.
  intros Hl Hm H0 HW. split; [by apply CalculateCrc32_ok|]. intros mem' b' Hb' Hne Hm'.
  by apply (crc32_detects W mem mem' Buffer p b b' q).
Qed.

(** The check value of the standard, for the string 123456789. *)
Lemma Crc32_reference_witness :
  CalculateCrc32 64 (buffer_at 4096 [49; 50; 51; 52; 53; 54; 55; 56; 57]) 4096 9 = Ok 0xCBF43926 /\
  CalculateCrc32 64 (buffer_at 4096 [49; 50; 51; 52; 53; 54; 55; 56; 57]) 4096 9 <>
  CalculateCrc32 64 (buffer_at 4096 [49; 51; 51; 52; 53; 54; 55; 56; 57]) 4096 9.
Proof.
  destruct (Crc32_reference 64 (buffer_at 4096 [49; 50; 51; 52; 53; 54; 55; 56; 57]) 4096 [49] 50 [51; 52; 53; 54; 55; 56; 57])
    as [H1 H2].
  - repeat constructor; by_decide.
  - apply buffer_at_holds.
  - lia.
  - cbn. lia.
  - split; [etransitivity; [exact H1|reflexivity]|]. apply (H2 _ 51); [by_decide|lia|apply buffer_at_holds].
Defined.
