(* ===== verification/Depex.v ===== *)
(** * Depex: the DXE dispatcher's dependency-expression evaluator

    MdeModulePkg/Core/Dxe/Dispatcher/Dependency.c, with
    CoreAllEfiServicesAvailable of DxeMain/DxeProtocolNotify.c.

    The state is the global evaluation stack (buffer, stack pointer) and the
    driver entry whose expression is being evaluated: the evaluator patches
    the expression in place.  A stack cell that was never written is [None];
    reading one, or a byte outside the expression's buffer, is a [Fault].

    Parameters: the outcome of AllocatePool for a size, the result of
    CoreLocateProtocol for a GUID (the protocol database), and whether
    ASSERTs are compiled out (MDEPKG_NDEBUG).

    The specification is the value of a boolean expression tree [dexp];
    [code] prints a tree as the byte string the build tools produce. *)

From stdpp Require Import base option list.
From Stdlib Require Import ZArith Lia.
From S2P Require Import Prelude.

Local Open Scope Z_scope.
Local Open Scope edk_scope.

(** ** Opcodes (MdePkg/Include/Pi/PiDependency.h, DxeMain.h) *)

Definition EFI_DEP_BEFORE : Z := 0x00.
Definition EFI_DEP_AFTER : Z := 0x01.
Definition EFI_DEP_PUSH : Z := 0x02.
Definition EFI_DEP_AND : Z := 0x03.
Definition EFI_DEP_OR : Z := 0x04.
Definition EFI_DEP_NOT : Z := 0x05.
Definition EFI_DEP_TRUE : Z := 0x06.
Definition EFI_DEP_FALSE : Z := 0x07.
Definition EFI_DEP_END : Z := 0x08.
Definition EFI_DEP_SOR : Z := 0x09.
Definition EFI_DEP_REPLACE_TRUE : Z := 0xff.
Definition DEPEX_STACK_SIZE_INCREMENT : nat := Z.to_nat 0x1000.

(** A GUID is its 16 bytes; sizeof (EFI_GUID) = 16. *)
Definition GUID : Type := list Z.
Definition sizeof_GUID : nat := 16.

(** ** State *)

(** The fields of EFI_CORE_DRIVER_ENTRY the evaluator uses. *)
Record DRIVER_ENTRY := mkDriver {
  Depex : option (list Z);
  DepexSize : Z;
  Before : bool;
  After : bool;
  Dependent : bool;
  Unrequested : bool;
  BeforeAfterGuid : GUID
}.

(** The evaluation stack: [mDepexEvaluationStack] with its capacity
    ([mDepexEvaluationStackEnd - mDepexEvaluationStack] cells), and the stack
    pointer as an offset; [None] is the NULL stack of the start. *)
Record DepexState := mkState {
  mDepexEvaluationStack : option (list (option bool));
  mDepexEvaluationStackPointer : nat;
  DriverEntry : DRIVER_ENTRY
}.

Definition set_stack (b : option (list (option bool))) (sp : nat) (s : DepexState) : DepexState :=
  mkState b sp (DriverEntry s).
Definition set_entry (d : DRIVER_ENTRY) (s : DepexState) : DepexState :=
  mkState (mDepexEvaluationStack s) (mDepexEvaluationStackPointer s) d.
Definition set_Depex (l : list Z) (d : DRIVER_ENTRY) : DRIVER_ENTRY :=
  mkDriver (Some l) (DepexSize d) (Before d) (After d) (Dependent d) (Unrequested d)
    (BeforeAfterGuid d).

(** Cells of the stack buffer (none when it is NULL). *)
Definition cells (s : DepexState) : list (option bool) := default [] (mDepexEvaluationStack s).

Section DepexEval.
Context (NDEBUG : bool) (AllocatePool_ok : nat -> bool) (LocateProtocol : GUID -> bool).

(** ** The Boolean stack *)

Definition GrowDepexStack : M DepexState EFI_STATUS := fun s =>
  let Size := (DEPEX_STACK_SIZE_INCREMENT +
    match mDepexEvaluationStack s with Some b => length b | None => 0 end)%nat in
  if AllocatePool_ok Size then
    let NewStack :=
      match mDepexEvaluationStack s with
      | Some b => b ++ replicate (Size - length b) None
      | None => replicate Size None
      end in
    Ok (EFI_SUCCESS, set_stack (Some NewStack) (mDepexEvaluationStackPointer s) s)
  else Ok (EFI_OUT_OF_RESOURCES, s).

Definition store_top (Value : bool) : M DepexState unit := fun s =>
  let sp := mDepexEvaluationStackPointer s in
  if decide (sp < length (cells s))%nat
  then Ok (tt, set_stack (Some (<[sp := Some Value]> (cells s))) (S sp) s)
  else Fault.

Definition PushBool (Value : bool) : M DepexState EFI_STATUS :=
  let! s := Mget in
  let! Status :=
    (if decide (mDepexEvaluationStackPointer s = length (cells s))
     then GrowDepexStack else Mret EFI_SUCCESS) in
  if EFI_ERROR Status then Mret Status
  else store_top Value ;;; Mret EFI_SUCCESS.

(** The popped value is meaningful when the status is EFI_SUCCESS. *)
Definition PopBool : M DepexState (EFI_STATUS * bool) := fun s =>
  match mDepexEvaluationStackPointer s with
  | O => Ok ((EFI_ACCESS_DENIED, false), s)
  | S sp =>
      match cells s !! sp with
      | Some (Some v) => Ok ((EFI_SUCCESS, v), set_stack (mDepexEvaluationStack s) sp s)
      | _ => Fault
      end
  end.

(** ** Preprocessing *)

Definition CorePreProcessDepex (d : DRIVER_ENTRY) : outcome (EFI_STATUS * DRIVER_ENTRY) :=
  match Depex d with
  | None => Fault
  | Some l =>
      match l !! 0%nat with
      | None => Fault
      | Some op =>
          let Unrequested' := if op =? EFI_DEP_SOR then true else Unrequested d in
          let Dependent' := if op =? EFI_DEP_SOR then Dependent d else true in
          let Before' := if op =? EFI_DEP_BEFORE then true else Before d in
          let After' :=
            if op =? EFI_DEP_BEFORE then After d
            else if op =? EFI_DEP_AFTER then true else After d in
          if Before' || After' then
            match slice 1 sizeof_GUID l with
            | None => Fault
            | Some g => Ok (EFI_SUCCESS,
                mkDriver (Depex d) (DepexSize d) Before' After' Dependent' Unrequested' g)
            end
          else Ok (EFI_SUCCESS,
                 mkDriver (Depex d) (DepexSize d) Before' After' Dependent' Unrequested'
                   (BeforeAfterGuid d))
      end
  end.

(** ** Evaluation *)

Definition CoreAllEfiServicesAvailable (mArchProtocols_Present : list bool) : EFI_STATUS :=
  if forallb id mArchProtocols_Present then EFI_SUCCESS else EFI_NOT_FOUND.

(** What one turn of the [while (TRUE)] loop does: return from the function,
    or go on with the iterator at the next opcode. *)
Inductive turn : Type := Return (b : bool) | Continue (Iterator : nat).

Definition read_byte (i : nat) : M DepexState Z := fun s =>
  match Depex (DriverEntry s) with
  | Some l => match l !! i with Some b => Ok (b, s) | None => Fault end
  | None => Fault
  end.
Definition write_byte (i : nat) (v : Z) : M DepexState unit := fun s =>
  match Depex (DriverEntry s) with
  | Some l =>
      if decide (i < length l)%nat
      then Ok (tt, set_entry (set_Depex (<[i := v]> l) (DriverEntry s)) s)
      else Fault
  | None => Fault
  end.
(** [CopyMem (&DriverGuid, Iterator + 1, sizeof (EFI_GUID))] *)
Definition copy_guid (i : nat) : M DepexState GUID := fun s =>
  match Depex (DriverEntry s) with
  | Some l => match slice (i + 1) sizeof_GUID l with Some g => Ok (g, s) | None => Fault end
  | None => Fault
  end.

(** Push, then continue at [next] or give up. *)
Definition push_and (v : bool) (next : nat) : M DepexState turn :=
  let! Status := PushBool v in
  if EFI_ERROR Status then Mret (Return false) else Mret (Continue next).

Definition pop2_push (op : bool -> bool -> bool) (i : nat) : M DepexState turn :=
  let! r1 := PopBool in
  if EFI_ERROR (fst r1) then Mret (Return false)
  else
    let! r2 := PopBool in
    if EFI_ERROR (fst r2) then Mret (Return false)
    else push_and (op (snd r1) (snd r2)) (i + 1).

(** The SOR case: legal only as the first opcode, where it is a NOP. *)
Definition sor_turn (i : nat) : M DepexState turn :=
  if decide (i = 0%nat) then Mret (Continue (i + 1)) else Mret (Return false).

(** The [switch] on the opcode. *)
Definition depex_switch (op : Z) (i : nat) : M DepexState turn :=
  if (op =? EFI_DEP_BEFORE) || (op =? EFI_DEP_AFTER) then
    if NDEBUG then sor_turn i else Mfail AssertFail
  else if op =? EFI_DEP_SOR then sor_turn i
  else if op =? EFI_DEP_PUSH then
    let! g := copy_guid i in
    if LocateProtocol g
    then write_byte i EFI_DEP_REPLACE_TRUE ;;; push_and true (i + sizeof_GUID + 1)
    else push_and false (i + sizeof_GUID + 1)
  else if op =? EFI_DEP_AND then pop2_push andb i
  else if op =? EFI_DEP_OR then pop2_push orb i
  else if op =? EFI_DEP_NOT then
    let! r := PopBool in
    if EFI_ERROR (fst r) then Mret (Return false)
    else push_and (negb (snd r)) (i + 1)
  else if op =? EFI_DEP_TRUE then push_and true (i + 1)
  else if op =? EFI_DEP_FALSE then push_and false (i + 1)
  else if op =? EFI_DEP_END then
    let! r := PopBool in
    if EFI_ERROR (fst r) then Mret (Return false) else Mret (Return (snd r))
  else if op =? EFI_DEP_REPLACE_TRUE then
    copy_guid i ;;; push_and true (i + sizeof_GUID + 1)
  else Mret (Return false).

(** One turn: the check that the iterator is still inside the expression,
    the fetch of the opcode, the [switch]. *)
Definition depex_turn (i : nat) : M DepexState turn :=
  let! s := Mget in
  if DepexSize (DriverEntry s) <=? Z.of_nat i then Mret (Return false)
  else
    let! op := read_byte i in
    depex_switch op i.

Fixpoint depex_loop (fuel : nat) (i : nat) : M DepexState bool :=
  match fuel with
  | O => Mfail OutOfFuel
  | S fuel' =>
      let! t := depex_turn i in
      match t with
      | Return b => Mret b
      | Continue i' => depex_loop fuel' i'
      end
  end.

(** The iterator grows at every turn, so one turn per byte of the expression
    and one more is enough fuel. *)
Definition CoreIsSchedulable (mArchProtocols_Present : list bool) : M DepexState bool :=
  let! s := Mget in
  let d := DriverEntry s in
  if After d || Before d then Mret false
  else match Depex d with
       | None => Mret (negb (EFI_ERROR (CoreAllEfiServicesAvailable mArchProtocols_Present)))
       | Some _ =>
           Mput (set_stack (mDepexEvaluationStack s) 0 s) ;;;
           depex_loop (S (Z.to_nat (DepexSize d))) 0
       end.
End DepexEval.

(** ** Specification *)

(** Dependency expressions; [DFound g] is a PUSH already patched. *)
Inductive dexp : Type :=
| DPush (g : GUID)
| DFound (g : GUID)
| DTrue
| DFalse
| DAnd (a b : dexp)
| DOr (a b : dexp)
| DNot (a : dexp).

Fixpoint eval (located : GUID -> bool) (e : dexp) : bool :=
  match e with
  | DPush g => located g
  | DFound _ => true
  | DTrue => true
  | DFalse => false
  | DAnd a b => eval located a && eval located b
  | DOr a b => eval located a || eval located b
  | DNot a => negb (eval located a)
  end.

(** The postfix byte string of an expression. *)
Fixpoint code (e : dexp) : list Z :=
  match e with
  | DPush g => EFI_DEP_PUSH :: g
  | DFound g => EFI_DEP_REPLACE_TRUE :: g
  | DTrue => [EFI_DEP_TRUE]
  | DFalse => [EFI_DEP_FALSE]
  | DAnd a b => code a ++ code b ++ [EFI_DEP_AND]
  | DOr a b => code a ++ code b ++ [EFI_DEP_OR]
  | DNot a => code a ++ [EFI_DEP_NOT]
  end.

(** The expression after an evaluation: located PUSHes are patched. *)
Fixpoint patch (located : GUID -> bool) (e : dexp) : dexp :=
  match e with
  | DPush g => if located g then DFound g else DPush g
  | DAnd a b => DAnd (patch located a) (patch located b)
  | DOr a b => DOr (patch located a) (patch located b)
  | DNot a => DNot (patch located a)
  | _ => e
  end.

(** GUIDs are 16 bytes long. *)
Fixpoint guids_ok (e : dexp) : Prop :=
  match e with
  | DPush g | DFound g => length g = sizeof_GUID
  | DAnd a b | DOr a b => guids_ok a /\ guids_ok b
  | DNot a => guids_ok a
  | _ => True
  end.

(** The opcode string of a driver: an optional SOR, the expression, END. *)
Definition depex_bytes (sor : bool) (e : dexp) : list Z :=
  (if sor then [EFI_DEP_SOR] else []) ++ code e ++ [EFI_DEP_END].

(** ** The stack as a list

    [stack_is s vs]: the evaluation stack of [s] holds [vs], top first. *)
Definition stack_is (s : DepexState) (vs : list bool) : Prop :=
  mDepexEvaluationStackPointer s = length vs /\
  exists rest, cells s = map Some (rev vs) ++ rest.

Lemma stack_is_empty s : stack_is (set_stack (mDepexEvaluationStack s) 0 s) [].
Proof. split; [done|]. by exists (cells s). Qed.

Lemma PopBool_nil s : stack_is s [] -> PopBool s = Ok ((EFI_ACCESS_DENIED, false), s).
Proof. intros [Hsp _]. unfold PopBool. now rewrite Hsp. Qed.

Lemma PopBool_cons s v vs :
  stack_is s (v :: vs) ->
  exists s', PopBool s = Ok ((EFI_SUCCESS, v), s') /\ stack_is s' vs /\
             DriverEntry s' = DriverEntry s.
Proof.
  intros [Hsp [rest Hc]]. unfold PopBool. rewrite Hsp. cbn [length].
  cbn [rev] in Hc. rewrite map_app, <- app_assoc in Hc. cbn [map app] in Hc.
  assert (Hl : length vs = length (map Some (rev vs)))
    by now rewrite length_map, length_rev.
  rewrite Hc, lookup_app_r by lia. rewrite Hl, Nat.sub_diag.
  cbn [lookup list_lookup]. eexists. split; [done|]. split; [|done].
  split; [done|]. exists (Some v :: rest). exact Hc.
Qed.

Section DepexProofs.
Context (NDEBUG : bool) (AllocatePool_ok : nat -> bool) (LocateProtocol : GUID -> bool).

Local Abbreviation push := (PushBool AllocatePool_ok).
Local Abbreviation turn_at := (depex_turn NDEBUG AllocatePool_ok LocateProtocol).
Local Abbreviation loop := (depex_loop NDEBUG AllocatePool_ok LocateProtocol).

(** An allocation was refused. *)
Definition refused : Prop := exists n, AllocatePool_ok n = false.

Lemma store_top_ok v s vs :
  stack_is s vs -> (length vs < length (cells s))%nat ->
  exists s', store_top v s = Ok (tt, s') /\ stack_is s' (v :: vs) /\
             DriverEntry s' = DriverEntry s.
Proof.
  intros [Hsp [rest Hc]] Hlt. unfold store_top. rewrite Hsp. case_decide; [|lia].
  eexists. split; [done|]. split; [|done]. split; [done|].
  rewrite Hc in Hlt |- *. rewrite length_app, length_map, length_rev in Hlt.
  destruct rest as [|r rest]; [cbn in Hlt; lia|]. exists rest.
  unfold cells. cbn [mDepexEvaluationStack set_stack default from_option id].
  assert (Hl : length vs = length (map Some (rev vs)))
    by now rewrite length_map, length_rev.
  change (<[length vs := Some v]> (map Some (rev vs) ++ r :: rest) =
          map Some (rev (v :: vs)) ++ rest).
  rewrite insert_app_r_alt by lia. rewrite Hl, Nat.sub_diag.
  cbn [rev]. rewrite map_app, <- app_assoc. done.
Qed.

Lemma Grow_ok s vs :
  stack_is s vs ->
  (exists s', GrowDepexStack AllocatePool_ok s = Ok (EFI_SUCCESS, s') /\
     stack_is s' vs /\ (length vs < length (cells s'))%nat /\ DriverEntry s' = DriverEntry s) \/
  (GrowDepexStack AllocatePool_ok s = Ok (EFI_OUT_OF_RESOURCES, s) /\ refused).
Proof.
  intros [Hsp [rest Hc]]. unfold GrowDepexStack.
  destruct (AllocatePool_ok _) eqn:E; [left|right; split; [done|by eexists]].
  eexists. split; [done|]. unfold stack_is, cells in *.
  cbn [set_stack mDepexEvaluationStack mDepexEvaluationStackPointer DriverEntry default
       from_option id] in *.
  assert (HI : (0 < DEPEX_STACK_SIZE_INCREMENT)%nat) by (unfold DEPEX_STACK_SIZE_INCREMENT; lia).
  clear E. generalize dependent DEPEX_STACK_SIZE_INCREMENT. intros inc HI.
  destruct (mDepexEvaluationStack s) as [b|]; cbn [default from_option id] in *.
  - unfold id in *. split; [split; [done|]|].
    + exists (rest ++ replicate (inc + length b - length b) None).
      rewrite Hc at 1. by rewrite <- app_assoc.
    + rewrite !length_app, length_replicate. split; [|done].
      rewrite Hc, length_app, length_map, length_rev. lia.
  - destruct vs as [|v vs]; [|apply (f_equal length) in Hc;
      rewrite length_app, length_map, length_rev in Hc; cbn in Hc; lia].
    rewrite length_replicate. repeat split; [done|by eexists|cbn; lia].
Qed.

(** A push adds the value, growing the stack when it is full, or reports
    that the allocation was refused and changes nothing. *)
Lemma PushBool_ok v s vs :
  stack_is s vs ->
  (exists s', push v s = Ok (EFI_SUCCESS, s') /\ stack_is s' (v :: vs) /\
              DriverEntry s' = DriverEntry s) \/
  (push v s = Ok (EFI_OUT_OF_RESOURCES, s) /\ refused).
Proof.
  intros Hs. unfold PushBool. rewrite (Mbind_Ok Mget _ s s s eq_refl).
  destruct (decide _) as [Hfull|Hroom].
  - destruct (Grow_ok s vs Hs) as [(s1 & E & Hs1 & Hlt & Hd)|[E Hr]]; run_step E; cbn [EFI_ERROR].
    + left. destruct (store_top_ok v s1 vs Hs1 Hlt) as (s2 & E2 & Hs2 & Hd2).
      exists s2. run_step E2. by rewrite Hd2.
    + by right.
  - left. run_step (eq_refl : Mret EFI_SUCCESS s = Ok (EFI_SUCCESS, s)). cbn [EFI_ERROR]. pose proof Hs as [Hsp [rest Hc]].
    assert (length vs < length (cells s))%nat.
    { rewrite Hc, length_app, length_map, length_rev in *. lia. }
    destruct (store_top_ok v s vs Hs) as (s2 & E2 & Hs2 & Hd2); [done|].
    exists s2. by run_step E2.
Qed.

Lemma push_and_ok v next s vs :
  stack_is s vs ->
  (exists s', push_and AllocatePool_ok v next s = Ok (Continue next, s') /\
              stack_is s' (v :: vs) /\ DriverEntry s' = DriverEntry s) \/
  (push_and AllocatePool_ok v next s = Ok (Return false, s) /\ refused).
Proof.
  intros Hs. unfold push_and.
  destruct (PushBool_ok v s vs Hs) as [(s' & E & ?)|[E ?]]; run_step E; [left|right]; eauto.
Qed.

Lemma pop2_push_ok op i s v1 v2 vs :
  stack_is s (v1 :: v2 :: vs) ->
  exists s', DriverEntry s' = DriverEntry s /\
  ((pop2_push AllocatePool_ok op i s = Ok (Continue (i + 1)%nat, s') /\
              stack_is s' (op v1 v2 :: vs)) \/
  (pop2_push AllocatePool_ok op i s = Ok (Return false, s') /\ refused)).
Proof.
  intros Hs. unfold pop2_push.
  destruct (PopBool_cons _ _ _ Hs) as (s1 & E1 & Hs1 & D1). run_step E1. cbn [fst snd EFI_ERROR].
  destruct (PopBool_cons _ _ _ Hs1) as (s2 & E2 & Hs2 & D2). run_step E2. cbn [fst snd EFI_ERROR].
  destruct (push_and_ok (op v1 v2) (i + 1) s2 vs Hs2) as [(s3 & E3 & Hs3 & D3)|[E3 Hr]];
    [exists s3|exists s2]; (split; [congruence|]); [left|right]; done.
Qed.

(** ** One opcode *)

Lemma turn_fetch s l d i op :
  DriverEntry s = set_Depex l d -> DepexSize d = Z.of_nat (length l) -> l !! i = Some op ->
  turn_at i s = depex_switch NDEBUG AllocatePool_ok LocateProtocol op i s.
Proof.
  intros Hd Hz Hi. unfold depex_turn. rewrite (Mbind_Ok Mget _ s s s eq_refl).
  pose proof (lookup_lt_Some _ _ _ Hi). rewrite Hd. cbn [set_Depex DepexSize].
  destruct (Z.leb_spec (DepexSize d) (Z.of_nat i)); [lia|].
  assert (E : read_byte i s = Ok (op, s)).
  { unfold read_byte. rewrite Hd. cbn [set_Depex Depex]. by rewrite Hi. }
  by run_step E.
Qed.

(** The turn at the opcode after the prefix [p], and what the loop makes of
    its result. *)
Lemma loop_op f s d p op q :
  DriverEntry s = set_Depex (p ++ op :: q) d ->
  DepexSize d = Z.of_nat (length (p ++ op :: q)) ->
  loop (S f) (length p) s =
  Mbind (depex_switch NDEBUG AllocatePool_ok LocateProtocol op (length p))
    (fun t => match t with Return b => Mret b | Continue i' => loop f i' end) s.
Proof.
  intros Hd Hz. cbn [depex_loop]. unfold Mbind.
  rewrite (turn_fetch s (p ++ op :: q) d (length p) op Hd Hz); [done|].
  rewrite lookup_app_r by lia. by rewrite Nat.sub_diag.
Qed.

Lemma copy_guid_ok s d p op g q :
  DriverEntry s = set_Depex (p ++ (op :: g) ++ q) d -> length g = sizeof_GUID ->
  copy_guid (length p) s = Ok (g, s).
Proof.
  intros Hd Hg. unfold copy_guid. rewrite Hd. cbn [set_Depex Depex].
  rewrite <- Hg. replace (length p + 1)%nat with (length (p ++ [op]))
    by (rewrite length_app; cbn; lia).
  replace (p ++ (op :: g) ++ q) with ((p ++ [op]) ++ g ++ q) by by rewrite <- app_assoc.
  by rewrite slice_app.
Qed.

Lemma write_byte_ok s d p op r v :
  DriverEntry s = set_Depex (p ++ op :: r) d ->
  exists s', write_byte (length p) v s = Ok (tt, s') /\
             DriverEntry s' = set_Depex (p ++ v :: r) d /\
             (forall vs, stack_is s vs -> stack_is s' vs).
Proof.
  intros Hd. unfold write_byte. rewrite Hd. cbn [set_Depex Depex].
  rewrite decide_True by (rewrite length_app; cbn; lia).
  eexists. split; [done|]. split; [|done].
  cbn [set_entry DriverEntry set_Depex DepexSize Before After Dependent Unrequested
       BeforeAfterGuid]. unfold set_Depex. f_equal. f_equal.
  rewrite insert_app_r_alt by lia. by rewrite Nat.sub_diag.
Qed.

(** ** The loop over the code of an expression *)

(** How many opcodes an expression has. *)
Fixpoint steps (e : dexp) : nat :=
  match e with
  | DAnd a b | DOr a b => steps a + steps b + 1
  | DNot a => steps a + 1
  | _ => 1
  end.

Lemma steps_code e : (steps e <= length (code e))%nat.
Proof. induction e; cbn [steps code]; rewrite ?length_app; cbn [length]; lia. Qed.

Lemma length_code_patch e : length (code (patch LocateProtocol e)) = length (code e).
Proof.
  induction e; cbn [patch code]; rewrite ?length_app; cbn [length]; auto.
  by destruct (LocateProtocol g).
Qed.

(** The loop runs through the code of [e] placed between [p] and [q]: it
    pushes the value of [e] and patches the located PUSHes, or an
    allocation is refused and it returns FALSE. *)
Definition runs_code (e : dexp) : Prop :=
  forall f p q d s vs,
  DriverEntry s = set_Depex (p ++ code e ++ q) d ->
  DepexSize d = Z.of_nat (length (p ++ code e ++ q)) ->
  stack_is s vs ->
  (exists s', loop (steps e + f) (length p) s = loop f (length p + length (code e)) s' /\
     stack_is s' (eval LocateProtocol e :: vs) /\
     DriverEntry s' = set_Depex (p ++ code (patch LocateProtocol e) ++ q) d) \/
  (refused /\ exists s', loop (steps e + f) (length p) s = Ok (false, s')).

(** What a push at the end of an opcode leaves to prove. *)
Lemma runs_push f p next v op n q l d s s0 vs :
  DriverEntry s0 = set_Depex (p ++ op :: q) d ->
  DepexSize d = Z.of_nat (length (p ++ op :: q)) ->
  depex_switch NDEBUG AllocatePool_ok LocateProtocol op (length p) s0 =
    push_and AllocatePool_ok v next s ->
  next = (length p + n)%nat ->
  DriverEntry s = set_Depex l d -> stack_is s vs ->
  (exists s', loop (1 + f) (length p) s0 = loop f (length p + n) s' /\
     stack_is s' (v :: vs) /\ DriverEntry s' = set_Depex l d) \/
  (refused /\ exists s', loop (1 + f) (length p) s0 = Ok (false, s')).
Proof.
  intros Hd0 Hz E -> Hd Hs. cbn [Nat.add]. rewrite (loop_op f s0 d p op q Hd0 Hz).
  unfold Mbind. rewrite E.
  destruct (push_and_ok v (length p + n) s vs Hs) as [(s' & E' & Hs' & D')|[E' Hr]]; rewrite E'.
  - left. exists s'. split; [done|]. split; [done|congruence].
  - right. split; [done|]. by exists s.
Qed.

(** The two opcodes that carry a GUID. *)
Lemma switch_PUSH i s :
  depex_switch NDEBUG AllocatePool_ok LocateProtocol EFI_DEP_PUSH i s =
  (let! g := copy_guid i in
   if LocateProtocol g
   then write_byte i EFI_DEP_REPLACE_TRUE ;;;
        push_and AllocatePool_ok true (i + sizeof_GUID + 1)
   else push_and AllocatePool_ok false (i + sizeof_GUID + 1)) s.
Proof. done. Qed.

Lemma switch_REPLACE_TRUE i s :
  depex_switch NDEBUG AllocatePool_ok LocateProtocol EFI_DEP_REPLACE_TRUE i s =
  (copy_guid i ;;; push_and AllocatePool_ok true (i + sizeof_GUID + 1)) s.
Proof. done. Qed.

Lemma runs_push_guid g : length g = sizeof_GUID -> runs_code (DPush g).
Proof.
  intros Hg f p q d s vs Hd Hz Hs. cbn [code steps eval patch] in *.
  pose proof (copy_guid_ok s d p _ g q Hd Hg) as HC.
  destruct (LocateProtocol g) eqn:EL.
  - destruct (write_byte_ok s d p EFI_DEP_PUSH (g ++ q) EFI_DEP_REPLACE_TRUE Hd)
      as (s1 & E1 & D1 & H1).
    apply (runs_push f p (length p + sizeof_GUID + 1) true EFI_DEP_PUSH (S (length g)) (g ++ q)
             (p ++ (EFI_DEP_REPLACE_TRUE :: g) ++ q) d s1 s vs Hd Hz); auto; [|lia].
    rewrite switch_PUSH. run_step HC. rewrite EL. by run_step E1.
  - apply (runs_push f p (length p + sizeof_GUID + 1) false EFI_DEP_PUSH (S (length g)) (g ++ q)
             (p ++ (EFI_DEP_PUSH :: g) ++ q) d s s vs Hd Hz); auto; [|lia].
    rewrite switch_PUSH. run_step HC. by rewrite EL.
Qed.

Lemma runs_found_guid g : length g = sizeof_GUID -> runs_code (DFound g).
Proof.
  intros Hg f p q d s vs Hd Hz Hs. cbn [code steps eval patch] in *.
  pose proof (copy_guid_ok s d p _ g q Hd Hg) as HC.
  apply (runs_push f p (length p + sizeof_GUID + 1) true EFI_DEP_REPLACE_TRUE (S (length g))
           (g ++ q) (p ++ (EFI_DEP_REPLACE_TRUE :: g) ++ q) d s s vs Hd Hz); auto; [|lia].
  rewrite switch_REPLACE_TRUE. by run_step HC.
Qed.

Lemma runs_const (v : bool) :
  runs_code (if v then DTrue else DFalse).
Proof.
  intros f p q d s vs Hd Hz Hs.
  destruct v; cbn [code steps eval patch] in *;
    [eapply (runs_push f p _ true EFI_DEP_TRUE 1 q)|eapply (runs_push f p _ false EFI_DEP_FALSE 1 q)];
    eauto.
Qed.

(** The binary operators: the operator's turn, after both operands. *)
Lemma runs_binary op code_op a b e :
  runs_code a -> runs_code b ->
  code e = code a ++ code b ++ [code_op] -> steps e = (steps a + steps b + 1)%nat ->
  eval LocateProtocol e = op (eval LocateProtocol b) (eval LocateProtocol a) ->
  code (patch LocateProtocol e) =
    code (patch LocateProtocol a) ++ code (patch LocateProtocol b) ++ [code_op] ->
  (forall i s, depex_switch NDEBUG AllocatePool_ok LocateProtocol code_op i s =
               pop2_push AllocatePool_ok op i s) ->
  runs_code e.
Proof.
  intros Ha Hb Ec Es Ee Ep Hop f p q d s vs. rewrite Ec, Es, Ee, Ep. intros Hd Hz Hs.
  replace (steps a + steps b + 1 + f)%nat with (steps a + (steps b + (1 + f)))%nat by lia.
  rewrite <- !app_assoc in *.
  destruct (Ha (steps b + (1 + f))%nat p (code b ++ [code_op] ++ q) d s vs Hd Hz Hs)
    as [(s1 & E1 & Hs1 & D1)|R]; [rewrite E1|by right].
  set (pa := p ++ code (patch LocateProtocol a)).
  assert (Hpa : length pa = (length p + length (code a))%nat)
    by (unfold pa; rewrite length_app, length_code_patch; done).
  rewrite <- Hpa. rewrite (app_assoc p) in D1. fold pa in D1.
  destruct (Hb (1 + f)%nat pa ([code_op] ++ q) d s1 (eval LocateProtocol a :: vs) D1) as [(s2 & E2 & Hs2 & D2)|R];
    [rewrite Hz, !length_app, Hpa; lia|done|rewrite E2|by right].
  set (pb := pa ++ code (patch LocateProtocol b)).
  assert (Hpb : length pb = (length pa + length (code b))%nat)
    by (unfold pb; rewrite length_app, length_code_patch; done).
  rewrite <- Hpb. rewrite (app_assoc pa) in D2. fold pb in D2. cbn [Nat.add].
  rewrite (loop_op f s2 d pb code_op q D2) by (rewrite Hz, !length_app in *; cbn in *; lia).
  unfold Mbind. rewrite Hop.
  destruct (pop2_push_ok op (length pb) s2 _ _ _ Hs2) as (s3 & D3 & [[E3 Hs3]|[E3 R]]);
    rewrite E3; [left; exists s3|right; split; [done|by exists s3]].
  rewrite !length_app. cbn [length]. split; [f_equal; lia|]. split; [done|].
  rewrite D3, D2. f_equal. unfold pb, pa. by rewrite <- !app_assoc.
Qed.

Lemma runs_not a : runs_code a -> runs_code (DNot a).
Proof.
  intros Ha f p q d s vs Hd Hz Hs. cbn [code steps eval patch] in *.
  replace (steps a + 1 + f)%nat with (steps a + (1 + f))%nat by lia.
  rewrite <- !app_assoc in *.
  destruct (Ha (1 + f)%nat p ([EFI_DEP_NOT] ++ q) d s vs Hd Hz Hs)
    as [(s1 & E1 & Hs1 & D1)|R]; [rewrite E1|by right].
  set (pa := p ++ code (patch LocateProtocol a)).
  assert (Hpa : length pa = (length p + length (code a))%nat)
    by (unfold pa; rewrite length_app, length_code_patch; done).
  rewrite <- Hpa. rewrite (app_assoc p) in D1. fold pa in D1.
  destruct (PopBool_cons _ _ _ Hs1) as (s2 & E2 & Hs2 & D2).
  destruct (runs_push f pa (length pa + 1) (negb (eval LocateProtocol a)) EFI_DEP_NOT 1 q
              (pa ++ [EFI_DEP_NOT] ++ q) d s2 s1 vs D1) as [(s3 & E3 & Hs3 & D3)|R];
    [rewrite Hz, !length_app in *; cbn in *; lia| |done|congruence|done| |by right].
  - change (depex_switch NDEBUG AllocatePool_ok LocateProtocol EFI_DEP_NOT (length pa) s1) with
      ((let! r := PopBool in if EFI_ERROR (fst r) then Mret (Return false)
        else push_and AllocatePool_ok (negb (snd r)) (length pa + 1)) s1).
    by run_step E2.
  - left. exists s3. rewrite E3, length_app. cbn [length]. split; [f_equal; lia|].
    split; [done|]. rewrite D3. unfold pa. by rewrite <- app_assoc.
Qed.

Lemma runs_all e : guids_ok e -> runs_code e.
Proof.
  induction e; cbn [guids_ok]; intros.
  - by apply runs_push_guid.
  - by apply runs_found_guid.
  - apply (runs_const true).
  - apply (runs_const false).
  - eapply (runs_binary andb EFI_DEP_AND e1 e2); naive_solver (done || apply andb_comm).
  - eapply (runs_binary orb EFI_DEP_OR e1 e2); naive_solver (done || apply orb_comm).
  - apply runs_not; auto.
Qed.

(** ** The whole evaluation *)

Local Abbreviation schedulable := (CoreIsSchedulable NDEBUG AllocatePool_ok LocateProtocol).

Lemma schedulable_loop arch s l d :
  DriverEntry s = set_Depex l d -> Before d = false -> After d = false ->
  schedulable arch s =
  loop (S (Z.to_nat (DepexSize d))) 0 (set_stack (mDepexEvaluationStack s) 0 s).
Proof.
  intros Hd HB HA. unfold CoreIsSchedulable. rewrite (Mbind_Ok Mget _ s s s eq_refl).
  rewrite Hd. cbn [set_Depex Depex DepexSize Before After]. by rewrite HA, HB.
Qed.

(** The turn at the END opcode. *)
Lemma loop_end f s d p q v vs :
  DriverEntry s = set_Depex (p ++ EFI_DEP_END :: q) d ->
  DepexSize d = Z.of_nat (length (p ++ EFI_DEP_END :: q)) -> stack_is s (v :: vs) ->
  exists s', loop (S f) (length p) s = Ok (v, s') /\ DriverEntry s' = DriverEntry s.
Proof.
  intros Hd Hz Hs. rewrite (loop_op f s d p EFI_DEP_END q Hd Hz).
  destruct (PopBool_cons _ _ _ Hs) as (s1 & E1 & _ & D1). exists s1. split; [|done].
  unfold Mbind.
  change (depex_switch NDEBUG AllocatePool_ok LocateProtocol EFI_DEP_END (length p) s) with
    ((let! r := PopBool in if EFI_ERROR (fst r) then Mret (Return false)
      else Mret (Return (snd r))) s).
  by run_step E1.
Qed.

(** The optional SOR is skipped. *)
Lemma loop_sor f s d q :
  DriverEntry s = set_Depex (EFI_DEP_SOR :: q) d ->
  DepexSize d = Z.of_nat (length (EFI_DEP_SOR :: q)) ->
  loop (S f) 0 s = loop f 1 s.
Proof. intros Hd Hz. exact (loop_op f s d [] EFI_DEP_SOR q Hd Hz). Qed.

(** The evaluation of the bytes of an expression from any stack. *)
Lemma schedulable_run arch s d sor e :
  guids_ok e ->
  DriverEntry s = set_Depex (depex_bytes sor e) d ->
  DepexSize d = Z.of_nat (length (depex_bytes sor e)) ->
  Before d = false -> After d = false ->
  (exists s', schedulable arch s = Ok (eval LocateProtocol e, s') /\
     DriverEntry s' = set_Depex (depex_bytes sor (patch LocateProtocol e)) d) \/
  (refused /\ exists s', schedulable arch s = Ok (false, s')).
Proof.
  intros He Hd Hz HB HA. rewrite (schedulable_loop arch s _ d Hd HB HA).
  set (s0 := set_stack _ _ _). pose proof (stack_is_empty s) as Hs. fold s0 in Hs.
  assert (Hd0 : DriverEntry s0 = set_Depex (depex_bytes sor e) d) by done.
  rewrite Hz, Nat2Z.id. unfold depex_bytes in *.
  set (p := if sor then [EFI_DEP_SOR] else []) in *.
  pose proof (steps_code e) as Hst.
  set (n := length (code e)) in *.
  assert (HE : exists f, loop (S (length (p ++ code e ++ [EFI_DEP_END]))) 0 s0 =
               loop (steps e + S f) (length p) s0).
  { rewrite !length_app. fold n. cbn [length]. unfold p in *. destruct sor; cbn [app length] in *.
    - exists (n - steps e + 1)%nat. rewrite (loop_sor _ s0 d _ Hd0 Hz).
      f_equal. lia.
    - exists (n - steps e + 1)%nat. f_equal. lia. }
  destruct HE as [f ->].
  destruct (runs_all e He (S f) p [EFI_DEP_END] d s0 [] Hd0 Hz Hs)
    as [(s1 & E1 & Hs1 & D1)|R]; [rewrite E1|by right].
  left. rewrite app_assoc in D1.
  destruct (fun H => loop_end f s1 d (p ++ code (patch LocateProtocol e)) [] _ _ D1 H Hs1)
    as (s2 & E2 & D2).
  { rewrite Hz, !length_app, length_code_patch. cbn [length]. lia. }
  exists s2. rewrite <- E2, D2, D1, <- app_assoc. split; [|done]. f_equal.
  rewrite length_app, length_code_patch. done.
Qed.

(** ** Arbitrary byte strings

    Evaluation may be given anything: [patched l l'] says that [l'] differs
    from [l] only in PUSH opcodes replaced by REPLACE_TRUE. *)
Definition patched : list Z -> list Z -> Prop :=
  Forall2 (fun a b => a = b \/ (a = EFI_DEP_PUSH /\ b = EFI_DEP_REPLACE_TRUE)).

(** A GUID-carrying opcode less than 16 bytes before the end. *)
Definition truncated_at (l : list Z) (i : nat) : Prop :=
  (l !! i = Some EFI_DEP_PUSH \/ l !! i = Some EFI_DEP_REPLACE_TRUE) /\
  (length l < i + 1 + sizeof_GUID)%nat.
Definition stray_at (l : list Z) (i : nat) : Prop :=
  l !! i = Some EFI_DEP_BEFORE \/ l !! i = Some EFI_DEP_AFTER.

(** The loop's invariant for the driver entry [d] and original bytes [l]. *)
Definition good (l : list Z) (d : DRIVER_ENTRY) (s : DepexState) : Prop :=
  (exists vs, stack_is s vs) /\ exists l', DriverEntry s = set_Depex l' d /\ patched l l'.

Definition turn_ok (l : list Z) (d : DRIVER_ENTRY) (i : nat) (r : outcome (turn * DepexState)) : Prop :=
  exists t s', r = Ok (t, s') /\ good l d s' /\
    match t with Return _ => True | Continue i' => (i < i')%nat end.

Lemma good_entry l d s s' vs :
  good l d s -> DriverEntry s' = DriverEntry s -> stack_is s' vs -> good l d s'.
Proof. intros [_ Hl] HD Hs. split; [by exists vs|]. by rewrite HD. Qed.

Lemma patched_refl l : patched l l.
Proof. apply Forall_Forall2_diag, Forall_true. by left. Qed.

Lemma PopBool_good l d s :
  good l d s -> exists r s', PopBool s = Ok (r, s') /\ good l d s'.
Proof.
  intros Hg. pose proof Hg as [[[|v vs] Hs] _].
  - eexists _, s. by split; [apply PopBool_nil|].
  - destruct (PopBool_cons _ _ _ Hs) as (s' & E & Hs' & HD).
    eexists _, s'. split; [exact E|]. by apply (good_entry l d s s' vs).
Qed.

Lemma push_and_good l d i v next s :
  good l d s -> (i < next)%nat -> turn_ok l d i (push_and AllocatePool_ok v next s).
Proof.
  intros Hg Hn. pose proof Hg as [[vs Hs] _].
  destruct (push_and_ok v next s vs Hs) as [(s' & E & Hs' & D)|[E _]]; rewrite E.
  - eexists _, s'. split; [done|]. split; [|done]. by apply (good_entry l d s s' (v :: vs)).
  - by eexists _, s.
Qed.

(** A pop followed by a return or a continuation that is fine. *)
Lemma pop_then_good l d i (k : bool -> M DepexState turn) s :
  good l d s -> (forall v s', good l d s' -> turn_ok l d i (k v s')) ->
  turn_ok l d i ((let! r := PopBool in
    if EFI_ERROR (fst r) then Mret (Return false) else k (snd r)) s).
Proof.
  intros Hg Hk. destruct (PopBool_good l d s Hg) as (r & s' & E & Hg'). run_step E.
  destruct (EFI_ERROR _); [by eexists _, s'|auto].
Qed.

Lemma pop2_push_good l d i op s : good l d s -> turn_ok l d i (pop2_push AllocatePool_ok op i s).
Proof.
  intros Hg. unfold pop2_push.
  apply (pop_then_good l d i (fun v1 => let! r2 := PopBool in
    if EFI_ERROR (fst r2) then Mret (Return false)
    else push_and AllocatePool_ok (op v1 (snd r2)) (i + 1)) s Hg); intros v1 s1 H1.
  apply (pop_then_good l d i (fun v2 => push_and AllocatePool_ok (op v1 v2) (i + 1)) s1 H1).
  intros. apply push_and_good; [done|lia].
Qed.

Lemma sor_turn_good l d i s : good l d s -> turn_ok l d i (sor_turn i s).
Proof. intros. unfold sor_turn. case_decide; eexists _, s; (split; [done|]); split; [done|lia|done|done]. Qed.

Lemma patched_lookup l l' i op :
  patched l l' -> l' !! i = Some op -> exists op', l !! i = Some op' /\
    (op' = op \/ (op' = EFI_DEP_PUSH /\ op = EFI_DEP_REPLACE_TRUE)).
Proof.
  intros Hp Hi. destruct (Forall2_lookup_r _ _ _ _ _ Hp Hi) as (op' & ? & ?). eauto.
Qed.

(** The GUID fetch stays inside the expression or the opcode is truncated. *)
Lemma copy_guid_good l d i s :
  good l d s -> (exists g, copy_guid i s = Ok (g, s)) \/
  (copy_guid i s = Fault /\ (length l < i + 1 + sizeof_GUID)%nat).
Proof.
  intros [_ (l' & HD & Hp)]. unfold copy_guid. rewrite HD. cbn [set_Depex Depex]. unfold slice.
  rewrite <- (Forall2_length _ _ _ Hp). case_decide; [left; by eexists|right; split; [done|lia]].
Qed.

Lemma write_byte_good l d i s :
  good l d s -> l !! i = Some EFI_DEP_PUSH ->
  exists s', write_byte i EFI_DEP_REPLACE_TRUE s = Ok (tt, s') /\ good l d s'.
Proof.
  intros [[vs Hs] (l' & HD & Hp)] Hi. unfold write_byte. rewrite HD. cbn [set_Depex Depex].
  pose proof (lookup_lt_Some _ _ _ Hi). rewrite decide_True by (rewrite <- (Forall2_length _ _ _ Hp); done).
  eexists. split; [done|]. split; [by exists vs|]. eexists. split; [done|].
  unfold patched. rewrite <- (list_insert_id l i EFI_DEP_PUSH Hi).
  apply Forall2_insert; [done|by right].
Qed.

(** One turn on arbitrary bytes: it returns, or the opcode is truncated, or
    it is a stray BEFORE or AFTER in a debug build. *)
Lemma switch_safe l l' d i op s :
  good l d s -> patched l l' -> l' !! i = Some op ->
  let r := depex_switch NDEBUG AllocatePool_ok LocateProtocol op i s in
  turn_ok l d i r \/ (r = Fault /\ truncated_at l i) \/
  (r = AssertFail /\ NDEBUG = false /\ stray_at l i).
Proof.
  intros Hg Hp Hi r. subst r.
  destruct (patched_lookup l l' i op Hp Hi) as (op' & Hi' & Hop).
  unfold depex_switch. destruct (_ || _) eqn:EB.
  { apply orb_true_iff in EB. rewrite !Z.eqb_eq in EB.
    destruct NDEBUG; [left; by apply sor_turn_good|right; right].
    split_and!; [done..|]. unfold stray_at. naive_solver. }
  clear EB. case_match; [left; by apply sor_turn_good|].
  destruct (Z.eqb_spec op EFI_DEP_PUSH) as [->|Hn]; [|clear Hn].
  { destruct Hop as [->|[_ [=]]].
    destruct (copy_guid_good l d i s Hg) as [[g E]|[E Ht]].
    - left. run_step E. destruct (LocateProtocol g); [|apply push_and_good; [done|lia]].
      destruct (write_byte_good l d i s Hg Hi') as (s' & E' & Hg'). run_step E'.
      apply push_and_good; [done|lia].
    - right; left. unfold Mbind. rewrite E. split; [done|]. split; [by left|lia]. }
  do 2 (case_match; [left; by apply pop2_push_good|]).
  case_match.
  { left. apply (pop_then_good l d i (fun v => push_and AllocatePool_ok (negb v) (i + 1)) s Hg).
    intros. apply push_and_good; [done|lia]. }
  do 2 (case_match; [left; apply push_and_good; [done|lia]|]).
  case_match.
  { left. apply (pop_then_good l d i (fun v => Mret (Return v)) s Hg). intros; by eexists _, _. }
  destruct (Z.eqb_spec op EFI_DEP_REPLACE_TRUE) as [->|Hn]; [|left; by eexists _, _].
  destruct (copy_guid_good l d i s Hg) as [[g E]|[E Ht]].
  - left. run_step E. apply push_and_good; [done|lia].
  - right; left. unfold Mbind. rewrite E. split; [done|].
    split; [|lia]. destruct Hop as [->|[-> _]]; auto.
Qed.

Lemma turn_safe l d i s :
  good l d s -> DepexSize d = Z.of_nat (length l) ->
  let r := turn_at i s in
  (turn_ok l d i r /\ (length l <= i -> r = Ok (Return false, s))%nat) \/
  (r = Fault /\ truncated_at l i) \/ (r = AssertFail /\ NDEBUG = false /\ stray_at l i).
Proof.
  intros Hg Hz r. subst r. pose proof Hg as [_ (l' & HD & Hp)].
  pose proof (Forall2_length _ _ _ Hp) as Hl. destruct (decide (i < length l)%nat) as [Hi|Hi].
  - destruct (lookup_lt_is_Some_2 l' i) as [op Hop]; [lia|].
    rewrite (turn_fetch s l' d i op HD) by (congruence || done).
    destruct (switch_safe l l' d i op s Hg Hp Hop) as [?|?]; [left; split; [done|lia]|by right].
  - left. assert (E : turn_at i s = Ok (Return false, s)); [|rewrite E; split; [|done]; by eexists _, s].
    unfold depex_turn. rewrite (Mbind_Ok Mget _ s s s eq_refl), HD. cbn [set_Depex DepexSize].
    by destruct (Z.leb_spec (DepexSize d) (Z.of_nat i)); [|lia].
Qed.

Lemma loop_safe l d f : forall i s,
  good l d s -> DepexSize d = Z.of_nat (length l) -> (length l < i + f)%nat -> (0 < f)%nat ->
  let r := loop f i s in
  (exists b s', r = Ok (b, s') /\ good l d s') \/
  (r = Fault /\ exists i, truncated_at l i) \/
  (r = AssertFail /\ NDEBUG = false /\ exists i, stray_at l i).
Proof.
  induction f as [|f IH]; intros i s Hg Hz Hf Hf0 r; subst r; [lia|]. cbn [depex_loop].
  unfold Mbind. destruct (turn_safe l d i s Hg Hz)
    as [[(t & s' & E & Hg' & Ht) Hend]|[[E Ht]|(E & Hn & Ht)]]; rewrite E.
  - destruct t as [b|i']; [left; by eexists _, _|]. rewrite E in Hend.
    apply IH; try done; [lia|]. destruct f; [|lia]. assert (length l <= i)%nat as Hle by lia.
    by specialize (Hend Hle).
  - right; left. eauto.
  - right; right. eauto.
Qed.

(** Evaluation from any bytes and any stack. *)
Lemma schedulable_safe arch s l d :
  DriverEntry s = set_Depex l d -> DepexSize d = Z.of_nat (length l) ->
  Before d = false -> After d = false ->
  let r := schedulable arch s in
  (exists b s', r = Ok (b, s') /\ good l d s') \/
  (r = Fault /\ exists i, truncated_at l i) \/
  (r = AssertFail /\ NDEBUG = false /\ exists i, stray_at l i).
Proof.
  intros HD Hz HB HA r. subst r. rewrite (schedulable_loop arch s l d HD HB HA).
  apply loop_safe; try done; [|lia..]. split; [exists []; apply stack_is_empty|].
  exists l. split; [done|apply patched_refl].
Qed.

(** A truncated PUSH right after the code of an expression is fetched past
    the end of the buffer. *)
Lemma truncated_push_faults arch s d e short :
  guids_ok e -> ~ refused -> (length short < sizeof_GUID)%nat ->
  DriverEntry s = set_Depex (code e ++ EFI_DEP_PUSH :: short) d ->
  DepexSize d = Z.of_nat (length (code e ++ EFI_DEP_PUSH :: short)) ->
  Before d = false -> After d = false ->
  schedulable arch s = Fault.
Proof.
  intros He Hr Hs HD Hz HB HA. rewrite (schedulable_loop arch s _ d HD HB HA), Hz, Nat2Z.id.
  set (s0 := set_stack _ _ _).
  set (f := (length (code e ++ EFI_DEP_PUSH :: short) - steps e)%nat).
  replace (S (length (code e ++ EFI_DEP_PUSH :: short))) with (steps e + S f)%nat
    by (pose proof (steps_code e); unfold f; rewrite length_app; lia).
  destruct (runs_all e He (S f) [] (EFI_DEP_PUSH :: short) d s0 [] HD Hz (stack_is_empty s))
    as [(s1 & E1 & Hs1 & D1)|[? _]]; [|done]. cbn [length app Nat.add] in E1, D1.
  rewrite E1, <- (length_code_patch e).
  rewrite (loop_op f s1 d (code (patch LocateProtocol e)) EFI_DEP_PUSH short D1)
    by (rewrite Hz, !length_app, length_code_patch; done).
  unfold Mbind at 1. rewrite switch_PUSH. unfold Mbind, copy_guid, slice. rewrite D1.
  cbn [set_Depex Depex]. rewrite decide_False; [done|].
  rewrite !length_app. cbn [length]. lia.
Qed.
End DepexProofs.

Lemma eval_patch l1 l2 e : eval l2 (patch l1 e) = eval (fun g => l1 g || l2 g) e.
Proof.
  induction e; cbn [patch eval]; try congruence. by destruct (l1 g).
Qed.

Lemma guids_ok_patch l e : guids_ok e -> guids_ok (patch l e).
Proof. induction e; cbn [patch guids_ok]; try naive_solver. by destruct (l g). Qed.

(** A driver entry with the opcode string [l] that CoreIsSchedulable
    evaluates. *)
Definition has_depex (l : list Z) (d : DRIVER_ENTRY) : Prop :=
  Depex d = Some l /\ DepexSize d = Z.of_nat (length l) /\ Before d = false /\ After d = false.

Lemma has_depex_set l d : has_depex l d -> d = set_Depex l d.
Proof. intros (H & _). destruct d; cbn in *. by rewrite H. Qed.

Lemma has_depex_update l l' d : has_depex l d -> length l' = length l -> has_depex l' (set_Depex l' d).
Proof. intros (? & Hz & ? & ?) Hl. repeat split; cbn; [|done..]. by rewrite Hl. Qed.

Lemma length_depex_patch located sor e :
  length (depex_bytes sor (patch located e)) = length (depex_bytes sor e).
Proof. unfold depex_bytes. by rewrite !length_app, length_code_patch. Qed.

(** A successful evaluation, in terms of [has_depex]. *)
Lemma schedulable_eval NDEBUG alloc located arch s sor e :
  guids_ok e -> has_depex (depex_bytes sor e) (DriverEntry s) ->
  (exists s', CoreIsSchedulable NDEBUG alloc located arch s = Ok (eval located e, s') /\
     DriverEntry s' = set_Depex (depex_bytes sor (patch located e)) (DriverEntry s)) \/
  (refused alloc /\ exists s', CoreIsSchedulable NDEBUG alloc located arch s = Ok (false, s')).
Proof.
  intros He Hd. pose proof (has_depex_set _ _ Hd) as HS. destruct Hd as (_ & Hz & HB & HA).
  by apply schedulable_run.
Qed.

(** A small expression for the witnesses:
    (PUSH g1 AND NOT PUSH g2) OR FALSE, with a leading SOR. *)
Definition wit_g1 : GUID := repeat 1 16.
Definition wit_g2 : GUID := repeat 2 16.
Definition wit_e : dexp := DOr (DAnd (DPush wit_g1) (DNot (DPush wit_g2))) DFalse.
Definition wit_located (g : GUID) : bool := bool_decide (g = wit_g1).
Definition wit_state (l : list Z) : DepexState :=
  mkState None 0 (mkDriver (Some l) (Z.of_nat (length l)) false false true false []).

(** C8 The evaluator computes the value of the
    expression.  For the bytes of any dependency expression (optional SOR,
    postfix code, END), any state of the shared stack, and an allocator that
    succeeds, [CoreIsSchedulable] returns the boolean value of the expression
    over the located protocols, and leaves the driver entry unchanged except
    that every PUSH of a located protocol has become a REPLACE_TRUE. *)
Theorem Depex_evaluation NDEBUG alloc located arch s sor e :
  (forall n, alloc n = true) -> guids_ok e ->
  has_depex (depex_bytes sor e) (DriverEntry s) ->
  exists s', CoreIsSchedulable NDEBUG alloc located arch s = Ok (eval located e, s') /\
    DriverEntry s' = set_Depex (depex_bytes sor (patch located e)) (DriverEntry s).
Proof.
  intros Ha He Hd.
  destruct (schedulable_eval NDEBUG alloc located arch s sor e He Hd) as [?|[[n Hn] _]]; [done|].
  by rewrite Ha in Hn.
Qed.

Lemma Depex_evaluation_witness :
  exists s', CoreIsSchedulable false (fun _ => true) wit_located [] (wit_state (depex_bytes true wit_e))
             = Ok (true, s') /\
    Depex (DriverEntry s') =
      Some (depex_bytes true (DOr (DAnd (DFound wit_g1) (DNot (DPush wit_g2))) DFalse)).
Proof.
  destruct (Depex_evaluation false (fun _ => true) wit_located []
              (wit_state (depex_bytes true wit_e)) true wit_e) as (s' & E & D);
    [done|by_decide|repeat split|].
  exists s'. split; [exact E|]. by rewrite D.
Defined.

(** Whatever the allocator does, the evaluation of a
    well-formed expression returns (no loop, no fault, no assertion), and it
    returns TRUE only if the expression is true: a shortage of memory can
    delay a driver, it cannot dispatch one too early. *)
Theorem Depex_fail_safe NDEBUG alloc located arch s sor e :
  guids_ok e -> has_depex (depex_bytes sor e) (DriverEntry s) ->
  exists b s', CoreIsSchedulable NDEBUG alloc located arch s = Ok (b, s') /\
    (b = true -> eval located e = true) /\
    (b <> eval located e -> exists n, alloc n = false).
Proof.
  intros He Hd.
  destruct (schedulable_eval NDEBUG alloc located arch s sor e He Hd) as [(s' & E & _)|[Hr [s' E]]].
  - by exists (eval located e), s'.
  - by exists false, s'.
Qed.

Lemma Depex_fail_safe_witness :
  exists b s', CoreIsSchedulable true (fun _ => false) wit_located [] (wit_state (depex_bytes true wit_e))
               = Ok (b, s') /\ (b <> true -> exists n : nat, (fun _ => false) n = false).
Proof.
  destruct (Depex_fail_safe true (fun _ => false) wit_located []
              (wit_state (depex_bytes true wit_e)) true wit_e) as (b & s' & E & _ & H);
    [by_decide|repeat split|].
  exists b, s'. split; [exact E|exact H].
Defined.

(** The patching is a sound cache.  Evaluating
    the same driver again later, when the located protocols are [l2], gives
    the value of the original expression with a PUSH true when its protocol
    was located at either evaluation: a protocol seen once counts as present
    from then on, even if it has been uninstalled since. *)
Theorem Depex_reevaluation NDEBUG alloc l1 l2 arch s sor e b1 s1 :
  (forall n, alloc n = true) -> guids_ok e ->
  has_depex (depex_bytes sor e) (DriverEntry s) ->
  CoreIsSchedulable NDEBUG alloc l1 arch s = Ok (b1, s1) ->
  exists s2, CoreIsSchedulable NDEBUG alloc l2 arch s1 =
             Ok (eval (fun g => l1 g || l2 g) e, s2).
Proof.
  intros Ha He Hd E1.
  destruct (schedulable_eval NDEBUG alloc l1 arch s sor e He Hd)
    as [(s1' & E1' & D1)|[[n Hn] _]]; [|by rewrite Ha in Hn].
  assert (s1' = s1) as -> by congruence.
  destruct (schedulable_eval NDEBUG alloc l2 arch s1 sor (patch l1 e))
    as [(s2 & E2 & _)|[[n Hn] _]]; [by apply guids_ok_patch| | |by rewrite Ha in Hn].
  - rewrite D1. eapply has_depex_update; [done|apply length_depex_patch].
  - exists s2. by rewrite E2, eval_patch.
Qed.

Lemma Depex_reevaluation_witness :
  exists s1 s2, CoreIsSchedulable true (fun _ => true) wit_located [] (wit_state (depex_bytes false wit_e))
                = Ok (true, s1) /\
    CoreIsSchedulable true (fun _ => true) (fun _ => false) [] s1 = Ok (true, s2).
Proof.
  destruct (CoreIsSchedulable true (fun _ => true) wit_located []
              (wit_state (depex_bytes false wit_e))) as [[b s1]| | |] eqn:E;
    [|vm_compute in E; discriminate E..].
  destruct (Depex_reevaluation true (fun _ => true) wit_located (fun _ => false) []
              (wit_state (depex_bytes false wit_e)) false wit_e b s1) as (s2 & E2);
    [done|by_decide|repeat split|exact E|].
  exists s1, s2. split; [|exact E2]. f_equal. f_equal. vm_compute in E. congruence.
Defined.

(** C39 Arbitrary bytes.  On any byte string of the stated
    size, [CoreIsSchedulable] terminates.  It returns a verdict and only
    replaces PUSH opcodes by REPLACE_TRUE, unless a GUID-carrying opcode has
    fewer than 16 bytes after it (then the GUID may be read past the end), or
    the build has ASSERTs and there is a BEFORE or AFTER opcode.  The bound
    check covers only the opcode: a PUSH whose GUID is cut short by the end of
    the expression, after any well-formed prefix, does make the evaluator copy
    16 bytes from beyond the buffer. *)
Theorem Depex_total NDEBUG alloc located arch s l :
  has_depex l (DriverEntry s) ->
  let r := CoreIsSchedulable NDEBUG alloc located arch s in
  ((exists b s' l', r = Ok (b, s') /\ patched l l' /\
      DriverEntry s' = set_Depex l' (DriverEntry s)) \/
   (r = Fault /\ exists i, truncated_at l i) \/
   (r = AssertFail /\ NDEBUG = false /\ exists i, stray_at l i)) /\
  (forall e short, guids_ok e -> (forall n, alloc n = true) -> (length short < sizeof_GUID)%nat ->
     l = code e ++ EFI_DEP_PUSH :: short -> r = Fault).
Proof.
  intros Hd. pose proof (has_depex_set _ _ Hd) as HS. destruct Hd as (_ & Hz & HB & HA). split.
  - destruct (schedulable_safe NDEBUG alloc located arch s l _ HS Hz HB HA)
      as [(b & s' & E & _ & l' & D & Hp)|[?|?]]; [left; eauto 8|auto..].
  - intros e short He Ha Hs ->. eapply truncated_push_faults; eauto. intros [n Hn]. by rewrite Ha in Hn.
Qed.

Lemma Depex_total_witness :
  CoreIsSchedulable true (fun _ => true) wit_located [] (wit_state [3; 7; 99]) <> OutOfFuel /\
  CoreIsSchedulable true (fun _ => true) wit_located [] (wit_state [EFI_DEP_TRUE; EFI_DEP_PUSH; 5]) = Fault.
Proof.
  split.
  - intros E. destruct (Depex_total true (fun _ => true) wit_located [] (wit_state [3; 7; 99]) [3; 7; 99])
      as [[(b & s' & l' & Hr & _)|[[Hr _]|[Hr _]]] _]; [repeat split|rewrite E in Hr; discriminate Hr..].
  - apply (Depex_total true (fun _ => true) wit_located [] (wit_state [EFI_DEP_TRUE; EFI_DEP_PUSH; 5])
      [EFI_DEP_TRUE; EFI_DEP_PUSH; 5] ltac:(repeat split)) with (e := DTrue) (short := [5]); [by_decide|done|by_decide|done].
Defined.

Lemma slice_tail op (rest : list Z) n :
  slice 1 n (op :: rest) = if decide (n <= length rest)%nat then Some (take n rest) else None.
Proof. unfold slice. cbn [length drop]. case_decide; case_decide; done || lia. Qed.

(** Preprocessing classifies a driver by its first
    opcode.  A fresh entry whose expression starts with BEFORE or AFTER gets
    that flag and the 16-byte GUID that follows (and is from then on never
    schedulable by itself: evaluation answers FALSE and changes nothing); SOR
    sets Unrequested; everything else sets Dependent.  The function fails
    only by reading a cut-short BEFORE or AFTER GUID past the end. *)
Theorem Depex_preprocess d op rest :
  Depex d = Some (op :: rest) -> Before d = false -> After d = false ->
  let special := (op =? EFI_DEP_BEFORE) || (op =? EFI_DEP_AFTER) in
  (CorePreProcessDepex d = Fault /\ special = true /\ (length rest < sizeof_GUID)%nat) \/
  exists d', CorePreProcessDepex d = Ok (EFI_SUCCESS, d') /\
    Depex d' = Depex d /\ DepexSize d' = DepexSize d /\
    Before d' = (op =? EFI_DEP_BEFORE) /\ After d' = (op =? EFI_DEP_AFTER) /\
    Unrequested d' = ((op =? EFI_DEP_SOR) || Unrequested d) /\
    Dependent d' = (negb (op =? EFI_DEP_SOR) || Dependent d) /\
    BeforeAfterGuid d' = (if special then take sizeof_GUID rest else BeforeAfterGuid d) /\
    (special = true -> forall NDEBUG alloc located arch s, DriverEntry s = d' ->
       CoreIsSchedulable NDEBUG alloc located arch s = Ok (false, s)).
Proof.
  intros HD HB HA special. unfold CorePreProcessDepex. rewrite HD. cbn [lookup list_lookup].
  rewrite HB, HA, slice_tail. subst special.
  destruct (Z.eqb_spec op EFI_DEP_SOR) as [->|]; [|destruct (Z.eqb_spec op EFI_DEP_BEFORE) as [->|];
    [|destruct (Z.eqb_spec op EFI_DEP_AFTER) as [->|]]]; cbn [orb negb].
  - right. eexists. by split_and!.
  - case_decide; [right|left; split_and!; [done..|lia]]. eexists. split_and!; [done..|].
    intros _ ????? Es. unfold CoreIsSchedulable, Mbind, Mget. by rewrite Es.
  - case_decide; [right|left; split_and!; [done..|lia]]. eexists. split_and!; [done..|].
    intros _ ????? Es. unfold CoreIsSchedulable, Mbind, Mget. by rewrite Es.
  - right. eexists. by split_and!.
Qed.

Lemma Depex_preprocess_witness :
  exists d', CorePreProcessDepex (DriverEntry (wit_state (EFI_DEP_AFTER :: wit_g1 ++ [EFI_DEP_END])))
             = Ok (EFI_SUCCESS, d') /\ After d' = true /\ BeforeAfterGuid d' = wit_g1.
Proof.
  destruct (Depex_preprocess (DriverEntry (wit_state (EFI_DEP_AFTER :: wit_g1 ++ [EFI_DEP_END])))
              EFI_DEP_AFTER (wit_g1 ++ [EFI_DEP_END]))
    as [(_ & _ & Hl)|(d' & E & _ & _ & _ & HA & _ & _ & HG & _)]; [done..| |].
  - vm_compute in Hl. lia.
  - exists d'. split; [exact E|]. split; [exact HA|]. rewrite HG. reflexivity.
Defined.
