(* ===== verification/EventState.v ===== *)
(** * EventState: the data of the DXE event, timer and TPL services

    MdeModulePkg/Core/Dxe/Event (Event.h, and the globals of Event.c, Tpl.c
    and Timer.c), with the locks of Library/Library.c.

    An IEVENT is addressed by a handle (its address, never 0).  The four
    LIST_ENTRY lists an event can be on are lists of handles; for each link
    the event keeps whether its ForwardLink is non-NULL, which is what the
    code tests.  Removing a link that is set but on no list would follow
    stale pointers: it is a [Fault].  That the pointer representation
    implements such lists is the subject of LinkedList.v. *)

From stdpp Require Import base option list gmap fin_maps.
From Stdlib Require Import ZArith Lia.
From S2P Require Import Prelude BaseMath.

Local Open Scope Z_scope.
Local Open Scope edk_scope.

(** ** Constants (MdePkg/Include/Uefi/UefiSpec.h, Event.h) *)

Definition TPL_APPLICATION : Z := 4.
Definition TPL_CALLBACK : Z := 8.
Definition TPL_NOTIFY : Z := 16.
Definition TPL_HIGH_LEVEL : Z := 31.
Definition VALID_TPL (a : Z) : bool := a <=? TPL_HIGH_LEVEL.

Definition EVT_TIMER : Z := 0x80000000.
Definition EVT_RUNTIME : Z := 0x40000000.
Definition EVT_NOTIFY_WAIT : Z := 0x00000100.
Definition EVT_NOTIFY_SIGNAL : Z := 0x00000200.
Definition EVT_SIGNAL_EXIT_BOOT_SERVICES : Z := 0x00000201.
Definition EVT_SIGNAL_VIRTUAL_ADDRESS_CHANGE : Z := 0x60000202.
Definition EVT_EXFLAG_EVENT_GROUP : Z := 0x01.
Definition EVT_EXFLAG_EVENT_PROTOCOL_NOTIFICATION : Z := 0x02.

(** SIGNATURE_32 ('e','v','n','t') *)
Definition EVENT_SIGNATURE : Z := 0x746e7665.

(** [(x & m) != 0] *)
Definition has (x m : Z) : bool := negb (Z.land x m =? 0).

(** ** Events *)

(** Function pointers: the two notification functions of the core, and the
    functions of the rest of the firmware. *)
Inductive EFI_EVENT_NOTIFY : Type :=
| Fn_CoreCheckTimers
| Fn_EfiEventEmptyFunction
| Fn_User (n : nat).

Record IEVENT := mkEvent {
  Signature : Z;
  Type_ : Z;
  SignalCount : Z;
  SignalLink : bool;
  NotifyTpl : Z;
  NotifyFunction : option EFI_EVENT_NOTIFY;
  NotifyContext : Z;
  EventGroup : Z;
  NotifyLink : bool;
  ExFlag : Z;
  RuntimeLink : bool;
  TimerLink : bool;
  TriggerTime : Z;
  Period : Z
}.

Definition upd_SignalCount (v : Z) (e : IEVENT) : IEVENT :=
  mkEvent (Signature e) (Type_ e) v (SignalLink e) (NotifyTpl e) (NotifyFunction e)
    (NotifyContext e) (EventGroup e) (NotifyLink e) (ExFlag e) (RuntimeLink e) (TimerLink e)
    (TriggerTime e) (Period e).
Definition upd_NotifyLink (v : bool) (e : IEVENT) : IEVENT :=
  mkEvent (Signature e) (Type_ e) (SignalCount e) (SignalLink e) (NotifyTpl e) (NotifyFunction e)
    (NotifyContext e) (EventGroup e) v (ExFlag e) (RuntimeLink e) (TimerLink e)
    (TriggerTime e) (Period e).
Definition upd_SignalLink (v : bool) (e : IEVENT) : IEVENT :=
  mkEvent (Signature e) (Type_ e) (SignalCount e) v (NotifyTpl e) (NotifyFunction e)
    (NotifyContext e) (EventGroup e) (NotifyLink e) (ExFlag e) (RuntimeLink e) (TimerLink e)
    (TriggerTime e) (Period e).
Definition upd_RuntimeLink (v : bool) (e : IEVENT) : IEVENT :=
  mkEvent (Signature e) (Type_ e) (SignalCount e) (SignalLink e) (NotifyTpl e) (NotifyFunction e)
    (NotifyContext e) (EventGroup e) (NotifyLink e) (ExFlag e) v (TimerLink e)
    (TriggerTime e) (Period e).
Definition upd_Timer (link : bool) (trigger period : Z) (e : IEVENT) : IEVENT :=
  mkEvent (Signature e) (Type_ e) (SignalCount e) (SignalLink e) (NotifyTpl e) (NotifyFunction e)
    (NotifyContext e) (EventGroup e) (NotifyLink e) (ExFlag e) (RuntimeLink e) link
    trigger period.

(** ** Locks *)

Inductive EFI_LOCK_STATE : Type := EfiLockUninitialized | EfiLockReleased | EfiLockAcquired.
#[global] Instance EFI_LOCK_STATE_eq_dec : EqDecision EFI_LOCK_STATE.
Proof. solve_decision. Defined.

Record EFI_LOCK := mkLock { Tpl : Z; OwnerTpl : Z; Lock : EFI_LOCK_STATE }.

(** The locks of the event services. *)
Inductive LOCK_ID : Type := gEventQueueLock | mEfiTimerLock | mEfiSystemTimeLock.
#[global] Instance LOCK_ID_eq_dec : EqDecision LOCK_ID.
Proof. solve_decision. Defined.

(** ** The state of the event services *)

(** The data the locks protect: queues, events and timers. *)
Record DATA := mkData {
  gEventQueue : gmap Z (list Z);
  gEventPending : Z;
  gEventSignalQueue : list Z;
  events : gmap Z IEVENT;
  gRuntime_EventHead : list Z;
  mEfiTimerList : list Z;
  mEfiSystemTime : Z;
  mEfiCheckTimerEvent : Z;
  gIdleLoopEvent : Z;
  (** The notification calls made so far: event and the TPL of the call. *)
  Calls : list (Z * Z)
}.

(** The control part: the current TPL, the locks, the processor's interrupt
    flag; and the data. *)
Record STATE := mkSTATE {
  gEfiCurrentTpl : Z;
  locks : LOCK_ID -> EFI_LOCK;
  Interrupts : bool;
  data :> DATA
}.

Definition set_Tpl (v : Z) (s : STATE) : STATE := mkSTATE v (locks s) (Interrupts s) (data s).
Definition set_lock (l : LOCK_ID) (v : EFI_LOCK) (s : STATE) : STATE :=
  mkSTATE (gEfiCurrentTpl s) (fun l' => if decide (l' = l) then v else locks s l')
    (Interrupts s) (data s).
Definition set_interrupts (v : bool) (s : STATE) : STATE :=
  mkSTATE (gEfiCurrentTpl s) (locks s) v (data s).
Definition set_data (d : DATA) (s : STATE) : STATE :=
  mkSTATE (gEfiCurrentTpl s) (locks s) (Interrupts s) d.

Definition set_queue (q : gmap Z (list Z)) (pending : Z) (d : DATA) : DATA :=
  mkData q pending (gEventSignalQueue d) (events d) (gRuntime_EventHead d) (mEfiTimerList d)
    (mEfiSystemTime d) (mEfiCheckTimerEvent d) (gIdleLoopEvent d) (Calls d).
Definition set_signalq (v : list Z) (d : DATA) : DATA :=
  mkData (gEventQueue d) (gEventPending d) v (events d) (gRuntime_EventHead d)
    (mEfiTimerList d) (mEfiSystemTime d) (mEfiCheckTimerEvent d) (gIdleLoopEvent d) (Calls d).
Definition set_events (v : gmap Z IEVENT) (d : DATA) : DATA :=
  mkData (gEventQueue d) (gEventPending d) (gEventSignalQueue d) v (gRuntime_EventHead d)
    (mEfiTimerList d) (mEfiSystemTime d) (mEfiCheckTimerEvent d) (gIdleLoopEvent d) (Calls d).
Definition set_runtime (v : list Z) (d : DATA) : DATA :=
  mkData (gEventQueue d) (gEventPending d) (gEventSignalQueue d) (events d) v (mEfiTimerList
    d) (mEfiSystemTime d) (mEfiCheckTimerEvent d) (gIdleLoopEvent d) (Calls d).
Definition set_timers (v : list Z) (d : DATA) : DATA :=
  mkData (gEventQueue d) (gEventPending d) (gEventSignalQueue d) (events d)
    (gRuntime_EventHead d) v (mEfiSystemTime d) (mEfiCheckTimerEvent d) (gIdleLoopEvent d)
    (Calls d).
Definition set_time (v : Z) (d : DATA) : DATA :=
  mkData (gEventQueue d) (gEventPending d) (gEventSignalQueue d) (events d)
    (gRuntime_EventHead d) (mEfiTimerList d) v (mEfiCheckTimerEvent d) (gIdleLoopEvent d)
    (Calls d).
Definition set_check (v : Z) (d : DATA) : DATA :=
  mkData (gEventQueue d) (gEventPending d) (gEventSignalQueue d) (events d)
    (gRuntime_EventHead d) (mEfiTimerList d) (mEfiSystemTime d) v (gIdleLoopEvent d) (Calls d).
Definition set_idle (v : Z) (d : DATA) : DATA :=
  mkData (gEventQueue d) (gEventPending d) (gEventSignalQueue d) (events d)
    (gRuntime_EventHead d) (mEfiTimerList d) (mEfiSystemTime d) (mEfiCheckTimerEvent d) v
    (Calls d).
Definition add_call (c : Z * Z) (d : DATA) : DATA :=
  mkData (gEventQueue d) (gEventPending d) (gEventSignalQueue d) (events d)
    (gRuntime_EventHead d) (mEfiTimerList d) (mEfiSystemTime d) (mEfiCheckTimerEvent d)
    (gIdleLoopEvent d) (Calls d ++ [c]).

Definition GetState : M STATE STATE := Mget.
(** A step on the data alone. *)
Definition Mdata (f : DATA -> DATA) : M STATE unit := fun s => Ok (tt, set_data (f (data s)) s).

(** The notification queue of a level. *)
Definition queue (d : DATA) (p : Z) : list Z := default [] (gEventQueue d !! p).

(** Access to an event; a handle that is not allocated is a bad pointer. *)
Definition load (e : Z) : M STATE IEVENT := fun s =>
  match events s !! e with Some v => Ok (v, s) | None => Fault end.
Definition update (e : Z) (f : IEVENT -> IEVENT) : M STATE unit := fun s =>
  match events s !! e with
  | Some v => Ok (tt, set_data (set_events (<[e := f v]> (events s)) s) s)
  | None => Fault
  end.

(** ** Configuration: build flags and the protocols the core calls *)

Record CONFIG := mkConfigE {
  (** Width of UINTN, 32 or 64. *)
  W : Z;
  (** ASSERTs compiled out. *)
  MDEPKG_NDEBUG : bool;
  (** gCpu is installed. *)
  gCpu : bool;
  (** gSmmBase2 and the answer of its InSmm. *)
  gSmmBase2 : option (EFI_STATUS * bool);
  (** gTimer->GetTimerPeriod. *)
  TimerPeriod : Z
}.

Definition ASSERTE (cfg : CONFIG) (b : bool) : M STATE unit :=
  if MDEPKG_NDEBUG cfg || b then Mret tt else Mfail AssertFail.
