(* ===== verification/Event.v ===== *)
(** * Event: the operations of the DXE event, timer and TPL services

    MdeModulePkg/Core/Dxe/Event/Tpl.c, Event.c and Timer.c, and the lock
    functions of Library/Library.c.

    The services are mutually recursive: lowering the TPL dispatches pending
    notifications, a dispatch takes and releases the event lock (which lowers
    the TPL again), and the timer check, itself a notification, signals
    events.  The functions that lower the TPL take CoreRestoreTpl as an
    argument; [CoreRestoreTpl] at the end of the recursion is indexed by the
    nesting depth, which TPLs bound by 32.  The two dispatch loops and the
    timer loop have fuel.

    [Notify n e] is the behaviour of the firmware's notification function
    number [n] on event [e]. *)

From stdpp Require Import base option list gmap fin_maps.
From Stdlib Require Import ZArith Lia.
From S2P Require Import Prelude BaseMath EventState.

Local Open Scope Z_scope.
Local Open Scope edk_scope.

Section EventServices.
Context (cfg : CONFIG) (Notify : nat -> Z -> M STATE unit).
Local Abbreviation ASSERT_ := (ASSERTE cfg).

(** ** Task priority levels (Tpl.c) *)

Definition CoreSetInterruptState (Enable : bool) : M STATE unit :=
  if negb (gCpu cfg) then Mret tt
  else if negb Enable then Mmodify (set_interrupts false)
  else match gSmmBase2 cfg with
       | None => Mmodify (set_interrupts true)
       | Some (Status, InSmm) =>
           if negb (EFI_ERROR Status) && negb InSmm
           then Mmodify (set_interrupts true) else Mret tt
       end.

Definition CoreRaiseTpl (NewTpl : Z) : M STATE Z :=
  let! s := GetState in
  let OldTpl := gEfiCurrentTpl s in
  ASSERT_ (negb (NewTpl <? OldTpl)) ;;;
  ASSERT_ (VALID_TPL NewTpl) ;;;
  (if (TPL_HIGH_LEVEL <=? NewTpl) && (OldTpl <? TPL_HIGH_LEVEL)
   then CoreSetInterruptState false else Mret tt) ;;;
  Mmodify (set_Tpl NewTpl) ;;;
  Mret OldTpl.

(** [(UINTN)(1 << n)]: the int is shifted at 32 bits, then widened. *)
Definition tpl_bit (n : Z) : outcome Z :=
  match c_shl 32 1 n with
  | Ok v => Ok (wrapU (W cfg) (wrapS 32 v))
  | _ => Fault
  end.

(** ** Locks (Library.c) *)

Definition CoreAcquireLock (l : LOCK_ID) : M STATE unit :=
  let! s := GetState in
  ASSERT_ (bool_decide (Lock (locks s l) = EfiLockReleased)) ;;;
  let! Owner := CoreRaiseTpl (Tpl (locks s l)) in
  Mmodify (set_lock l (mkLock (Tpl (locks s l)) Owner EfiLockAcquired)).

Definition CoreAcquireLockOrFail (l : LOCK_ID) : M STATE EFI_STATUS :=
  let! s := GetState in
  ASSERT_ (bool_decide (Lock (locks s l) <> EfiLockUninitialized)) ;;;
  if decide (Lock (locks s l) = EfiLockAcquired) then Mret EFI_ACCESS_DENIED
  else
    let! Owner := CoreRaiseTpl (Tpl (locks s l)) in
    Mmodify (set_lock l (mkLock (Tpl (locks s l)) Owner EfiLockAcquired)) ;;;
    Mret EFI_SUCCESS.

(** ** Queues *)

(** RemoveEntryList on the NotifyLink of an event: it comes off the queue it
    is on. *)
Definition remove_notify (e : Z) : M STATE unit := fun s =>
  match events s !! e with
  | Some v =>
      let p := NotifyTpl v in
      if decide (e ∈ queue s p)
      then Ok (tt, set_data (set_queue (<[p := filter (fun x => x <> e) (queue s p)]> (gEventQueue s))
                               (gEventPending s) s) s)
      else Fault
  | None => Fault
  end.

Definition CoreNotifyEvent (e : Z) : M STATE unit :=
  let! s := GetState in
  ASSERT_ (bool_decide (Lock (locks s gEventQueueLock) = EfiLockAcquired)) ;;;
  let! v := load e in
  (if NotifyLink v
   then remove_notify e ;;; update e (upd_NotifyLink false)
   else Mret tt) ;;;
  let! s1 := GetState in
  match tpl_bit (NotifyTpl v) with
  | Ok bit =>
      Mdata (set_queue (<[NotifyTpl v := queue s1 (NotifyTpl v) ++ [e]]> (gEventQueue s1))
               (Z.lor (gEventPending s1) bit)) ;;;
      update e (upd_NotifyLink true)
  | _ => Mfail Fault
  end.

(** ** Services that release locks *)

Section Open.
(** The CoreRestoreTpl that lock releases call. *)
Context (RestoreTpl : Z -> M STATE unit).

Definition CoreReleaseLock (l : LOCK_ID) : M STATE unit :=
  let! s := GetState in
  ASSERT_ (bool_decide (Lock (locks s l) = EfiLockAcquired)) ;;;
  Mmodify (set_lock l (mkLock (Tpl (locks s l)) (OwnerTpl (locks s l)) EfiLockReleased)) ;;;
  RestoreTpl (OwnerTpl (locks s l)).

Definition CoreAcquireEventLock : M STATE unit := CoreAcquireLock gEventQueueLock.
Definition CoreReleaseEventLock : M STATE unit := CoreReleaseLock gEventQueueLock.

(** The walk over gEventSignalQueue; CoreNotifyEvent does not change it. *)
Fixpoint signal_list_loop (Group : Z) (Links : list Z) : M STATE unit :=
  match Links with
  | [] => Mret tt
  | e :: Links' =>
      let! v := load e in
      (if EventGroup v =? Group then CoreNotifyEvent e else Mret tt) ;;;
      signal_list_loop Group Links'
  end.

Definition CoreNotifySignalList (Group : Z) : M STATE unit :=
  CoreAcquireEventLock ;;;
  let! s := GetState in
  signal_list_loop Group (gEventSignalQueue s) ;;;
  CoreReleaseEventLock.

Definition CoreSignalEvent (e : Z) : M STATE EFI_STATUS :=
  if e =? 0 then Mret EFI_INVALID_PARAMETER
  else
    let! v0 := load e in
    if negb (Signature v0 =? EVENT_SIGNATURE) then Mret EFI_INVALID_PARAMETER
    else
      CoreAcquireEventLock ;;;
      let! v := load e in
      (if SignalCount v =? 0 then
         update e (upd_SignalCount (wrapU 32 (SignalCount v + 1))) ;;;
         if has (Type_ v) EVT_NOTIFY_SIGNAL then
           if has (ExFlag v) EVT_EXFLAG_EVENT_GROUP then
             CoreReleaseEventLock ;;;
             let! vg := load e in
             CoreNotifySignalList (EventGroup vg) ;;;
             CoreAcquireEventLock
           else CoreNotifyEvent e
         else Mret tt
       else Mret tt) ;;;
      CoreReleaseEventLock ;;;
      Mret EFI_SUCCESS.

(** ** Timers (Timer.c) *)

(** The insertion point: before the first timer that triggers later. *)
Fixpoint timer_insert (evs : gmap Z IEVENT) (Trigger : Z) (e : Z) (l : list Z)
  : option (list Z) :=
  match l with
  | [] => Some [e]
  | e2 :: l' =>
      match evs !! e2 with
      | None => None
      | Some v2 =>
          if Trigger <? TriggerTime v2 then Some (e :: l)
          else match timer_insert evs Trigger e l' with
               | Some r => Some (e2 :: r)
               | None => None
               end
      end
  end.

Definition CoreInsertEventTimer (e : Z) : M STATE unit :=
  let! s := GetState in
  ASSERT_ (bool_decide (Lock (locks s mEfiTimerLock) = EfiLockAcquired)) ;;;
  let! v := load e in
  match timer_insert (events s) (TriggerTime v) e (mEfiTimerList s) with
  | Some l =>
      Mdata (set_timers l) ;;;
      update e (upd_Timer true (TriggerTime v) (Period v))
  | None => Mfail Fault
  end.

(** RemoveEntryList on the Timer.Link of an event. *)
Definition remove_timer (e : Z) : M STATE unit := fun s =>
  if decide (e ∈ mEfiTimerList s)
  then Ok (tt, set_data (set_timers (filter (fun x => x <> e) (mEfiTimerList s)) s) s)
  else Fault.

Definition CoreCurrentSystemTime : M STATE Z :=
  CoreAcquireLock mEfiSystemTimeLock ;;;
  let! s := GetState in
  CoreReleaseLock mEfiSystemTimeLock ;;;
  Mret (mEfiSystemTime s).

(** The [while] loop of CoreCheckTimers. *)
Fixpoint check_timers_loop (fuel : nat) (SystemTime : Z) : M STATE unit :=
  match fuel with
  | O => Mfail OutOfFuel
  | S fuel' =>
      let! s := GetState in
      match mEfiTimerList s with
      | [] => Mret tt
      | e :: _ =>
          let! v := load e in
          if SystemTime <? TriggerTime v then Mret tt
          else
            remove_timer e ;;;
            update e (upd_Timer false (TriggerTime v) (Period v)) ;;;
            CoreSignalEvent e ;;;
            let! v1 := load e in
            (if Period v1 =? 0 then Mret tt
             else
               let next := wrapU 64 (TriggerTime v1 + Period v1) in
               (if next <=? SystemTime then
                  update e (upd_Timer (TimerLink v1) SystemTime (Period v1)) ;;;
                  let! s1 := GetState in
                  CoreSignalEvent (mEfiCheckTimerEvent s1) ;;;
                  Mret tt
                else update e (upd_Timer (TimerLink v1) next (Period v1))) ;;;
               CoreInsertEventTimer e) ;;;
            check_timers_loop fuel' SystemTime
      end
  end.

Definition CoreCheckTimers (fuel : nat) : M STATE unit :=
  CoreAcquireLock mEfiTimerLock ;;;
  let! SystemTime := CoreCurrentSystemTime in
  check_timers_loop fuel SystemTime ;;;
  CoreReleaseLock mEfiTimerLock.

Definition CoreTimerTick (Duration : Z) : M STATE unit :=
  CoreAcquireLock mEfiSystemTimeLock ;;;
  Mdata (fun d => set_time (wrapU 64 (mEfiSystemTime d + Duration)) d) ;;;
  let! s := GetState in
  match mEfiTimerList s with
  | [] => Mret tt
  | e :: _ =>
      let! v := load e in
      if TriggerTime v <=? mEfiSystemTime s
      then CoreSignalEvent (mEfiCheckTimerEvent s) ;;; Mret tt
      else Mret tt
  end ;;;
  CoreReleaseLock mEfiSystemTimeLock.

(** EFI_TIMER_DELAY as the UINT32 the caller passes. *)
Definition TimerCancel : Z := 0.
Definition TimerPeriodic : Z := 1.
Definition TimerRelative : Z := 2.

Definition CoreSetTimer (e DelayType : Z) (Trigger : Z) : M STATE EFI_STATUS :=
  if e =? 0 then Mret EFI_INVALID_PARAMETER
  else
    let! v0 := load e in
    if negb (Signature v0 =? EVENT_SIGNATURE) then Mret EFI_INVALID_PARAMETER
    else if (TimerRelative <? wrapU 32 DelayType) || negb (has (Type_ v0) EVT_TIMER)
    then Mret EFI_INVALID_PARAMETER
    else
      CoreAcquireLock mEfiTimerLock ;;;
      let! v := load e in
      (if TimerLink v then remove_timer e else Mret tt) ;;;
      update e (upd_Timer false 0 0) ;;;
      (if DelayType =? TimerCancel then Mret tt
       else
         let Trigger' :=
           if (DelayType =? TimerPeriodic) && (Trigger =? 0) then TimerPeriod cfg else Trigger in
         let Period' := if DelayType =? TimerPeriodic then Trigger' else 0 in
         let! now := CoreCurrentSystemTime in
         update e (upd_Timer false (wrapU 64 (now + Trigger')) Period') ;;;
         CoreInsertEventTimer e ;;;
         (if Trigger' =? 0 then
            let! s := GetState in
            CoreSignalEvent (mEfiCheckTimerEvent s) ;;; Mret tt
          else Mret tt)) ;;;
      CoreReleaseLock mEfiTimerLock ;;;
      Mret EFI_SUCCESS.

(** ** Dispatch (Event.c, Tpl.c) *)

(** The call through a notification function pointer. *)
Definition call_notify (fuel : nat) (e : Z) (fn : EFI_EVENT_NOTIFY) : M STATE unit :=
  let! s := GetState in
  Mdata (add_call (e, gEfiCurrentTpl s)) ;;;
  match fn with
  | Fn_CoreCheckTimers => CoreCheckTimers fuel
  | Fn_EfiEventEmptyFunction => Mret tt
  | Fn_User n => Notify n e
  end.

(** The [while] loop of CoreDispatchEventNotifies. *)
Fixpoint dispatch_loop (fuel : nat) (Priority : Z) : M STATE unit :=
  match fuel with
  | O => Mfail OutOfFuel
  | S fuel' =>
      let! s := GetState in
      match queue s Priority with
      | [] => Mret tt
      | e :: _ =>
          let! v := load e in
          remove_notify e ;;;
          update e (upd_NotifyLink false) ;;;
          (if has (Type_ v) EVT_NOTIFY_SIGNAL then update e (upd_SignalCount 0) else Mret tt) ;;;
          CoreReleaseEventLock ;;;
          let! v1 := load e in
          ASSERT_ (bool_decide (is_Some (NotifyFunction v1))) ;;;
          match NotifyFunction v1 with
          | Some fn => call_notify fuel' e fn
          | None => Mfail Fault
          end ;;;
          CoreAcquireEventLock ;;;
          dispatch_loop fuel' Priority
      end
  end.

Definition CoreDispatchEventNotifies (fuel : nat) (Priority : Z) : M STATE unit :=
  CoreAcquireEventLock ;;;
  let! s := GetState in
  ASSERT_ (OwnerTpl (locks s gEventQueueLock) =? Priority) ;;;
  dispatch_loop fuel Priority ;;;
  let! s1 := GetState in
  match tpl_bit Priority with
  | Ok bit =>
      Mdata (set_queue (gEventQueue s1) (Z.land (gEventPending s1) (c_not (W cfg) bit)))
  | _ => Mfail Fault
  end ;;;
  CoreReleaseEventLock.

(** The [while] loop of CoreRestoreTpl. *)
Fixpoint restore_loop (fuel : nat) (NewTpl : Z) : M STATE unit :=
  match fuel with
  | O => Mfail OutOfFuel
  | S fuel' =>
      let! s := GetState in
      if gEventPending s =? 0 then Mret tt
      else
        match HighBitSet64 (W cfg) (gEventPending s) with
        | Ok PendingTpl =>
            if PendingTpl <=? NewTpl then Mret tt
            else
              Mmodify (set_Tpl PendingTpl) ;;;
              (if PendingTpl <? TPL_HIGH_LEVEL then CoreSetInterruptState true else Mret tt) ;;;
              CoreDispatchEventNotifies fuel' PendingTpl ;;;
              restore_loop fuel' NewTpl
        | _ => Mfail Fault
        end
  end.

Definition restore_body (fuel : nat) (NewTpl : Z) : M STATE unit :=
  let! s := GetState in
  let OldTpl := gEfiCurrentTpl s in
  ASSERT_ (negb (OldTpl <? NewTpl)) ;;;
  ASSERT_ (VALID_TPL NewTpl) ;;;
  (if (TPL_HIGH_LEVEL <=? OldTpl) && (NewTpl <? TPL_HIGH_LEVEL)
   then Mmodify (set_Tpl TPL_HIGH_LEVEL) else Mret tt) ;;;
  restore_loop fuel NewTpl ;;;
  Mmodify (set_Tpl NewTpl) ;;;
  (if NewTpl <? TPL_HIGH_LEVEL then CoreSetInterruptState true else Mret tt).
End Open.

(** Tie the knot: [depth] bounds the nesting of dispatches. *)
Fixpoint CoreRestoreTpl (depth fuel : nat) (NewTpl : Z) : M STATE unit :=
  match depth with
  | O => Mfail OutOfFuel
  | S depth' => restore_body (CoreRestoreTpl depth' fuel) fuel NewTpl
  end.

(** ** Creating, checking, waiting for and closing events (Event.c) *)

Definition mEventTable : list Z :=
  [Z.lor EVT_TIMER EVT_NOTIFY_SIGNAL; EVT_TIMER; EVT_NOTIFY_WAIT; EVT_NOTIFY_SIGNAL;
   EVT_SIGNAL_EXIT_BOOT_SERVICES; EVT_SIGNAL_VIRTUAL_ADDRESS_CHANGE; 0;
   Z.lor EVT_TIMER EVT_NOTIFY_WAIT].

(** The GUIDs of the pre-defined groups are values of the firmware. *)
Record GROUPS := mkGroups {
  gEfiEventExitBootServicesGuid : Z;
  gEfiEventVirtualAddressChangeGuid : Z;
  gIdleLoopEventGuid : Z
}.

Section Create.
(** [AllocateZeroPool s]: the address of a new event, if there is memory. *)
Context (groups : GROUPS) (AllocateZeroPool : STATE -> option Z).
Context (RestoreTpl : Z -> M STATE unit).

(** The type and group an event gets from the requested ones; [None] when a
    pre-defined signal type is combined with a group. *)
Definition convert_group (EvType : Z) (Group : option Z) : option (Z * option Z) :=
  match Group with
  | Some g =>
      if (EvType =? EVT_SIGNAL_EXIT_BOOT_SERVICES) || (EvType =? EVT_SIGNAL_VIRTUAL_ADDRESS_CHANGE)
      then None
      else if g =? gEfiEventExitBootServicesGuid groups
      then Some (EVT_SIGNAL_EXIT_BOOT_SERVICES, Group)
      else if g =? gEfiEventVirtualAddressChangeGuid groups
      then Some (EVT_SIGNAL_VIRTUAL_ADDRESS_CHANGE, Group)
      else Some (EvType, Group)
  | None =>
      if EvType =? EVT_SIGNAL_EXIT_BOOT_SERVICES
      then Some (EvType, Some (gEfiEventExitBootServicesGuid groups))
      else if EvType =? EVT_SIGNAL_VIRTUAL_ADDRESS_CHANGE
      then Some (EvType, Some (gEfiEventVirtualAddressChangeGuid groups))
      else Some (EvType, None)
  end.

(** [EventOut] says whether the caller passed a place for the handle; the
    handle is returned beside the status. *)
Definition CoreCreateEventInternal (EvType NTpl : Z) (Fn : option EFI_EVENT_NOTIFY)
    (Context_ : Z) (Group : option Z) (EventOut : bool) : M STATE (EFI_STATUS * Z) :=
  if negb EventOut then Mret (EFI_INVALID_PARAMETER, 0)
  else if negb (existsb (Z.eqb EvType) mEventTable) then Mret (EFI_INVALID_PARAMETER, 0)
  else
    match convert_group EvType Group with
    | None => Mret (EFI_INVALID_PARAMETER, 0)
    | Some (EvType, Group) =>
        let notify := has EvType (Z.lor EVT_NOTIFY_WAIT EVT_NOTIFY_SIGNAL) in
        if notify && (bool_decide (Fn = None) || (NTpl <=? TPL_APPLICATION)
                      || (TPL_HIGH_LEVEL <=? NTpl))
        then Mret (EFI_INVALID_PARAMETER, 0)
        else
          let NTpl := if notify then NTpl else 0 in
          let Fn := if notify then Fn else None in
          let Context_ := if notify then Context_ else 0 in
          let! s := GetState in
          match AllocateZeroPool s with
          | None => Mret (EFI_OUT_OF_RESOURCES, 0)
          | Some e =>
              let runtime := has EvType EVT_RUNTIME in
              let v := mkEvent EVENT_SIGNATURE EvType 0 false NTpl Fn Context_
                         (default 0 Group) false
                         (match Group with Some _ => EVT_EXFLAG_EVENT_GROUP | None => 0 end) runtime false 0 0 in
              Mdata (set_events (<[e := v]> (events s))) ;;;
              (if runtime
               then Mdata (fun d => set_runtime (gRuntime_EventHead d ++ [e]) d)
               else Mret tt) ;;;
              CoreAcquireEventLock ;;;
              (if has EvType EVT_NOTIFY_SIGNAL
               then Mdata (fun d => set_signalq (e :: gEventSignalQueue d) d) ;;;
                    update e (upd_SignalLink true)
               else Mret tt) ;;;
              CoreReleaseEventLock RestoreTpl ;;;
              Mret (EFI_SUCCESS, e)
          end
    end.

Definition CoreCreateEventEx (EvType NTpl : Z) (Fn : option EFI_EVENT_NOTIFY)
    (Context_ : Z) (Group : option Z) (EventOut : bool) : M STATE (EFI_STATUS * Z) :=
  if has EvType (Z.lor EVT_NOTIFY_WAIT EVT_NOTIFY_SIGNAL)
     && negb (NTpl =? TPL_APPLICATION) && negb (NTpl =? TPL_CALLBACK) && negb (NTpl =? TPL_NOTIFY)
  then Mret (EFI_INVALID_PARAMETER, 0)
  else CoreCreateEventInternal EvType NTpl Fn Context_ Group EventOut.

Definition CoreCreateEvent (EvType NTpl : Z) (Fn : option EFI_EVENT_NOTIFY)
    (Context_ : Z) (EventOut : bool) : M STATE (EFI_STATUS * Z) :=
  CoreCreateEventEx EvType NTpl Fn Context_ None EventOut.

(** *** Initialisation *)

Definition CoreInitializeTimer : M STATE unit :=
  let! r := CoreCreateEventInternal EVT_NOTIFY_SIGNAL (TPL_HIGH_LEVEL - 1)
              (Some Fn_CoreCheckTimers) 0 None true in
  (if EFI_ERROR (fst r) then Mret tt else Mdata (set_check (snd r))) ;;;
  ASSERT_ (negb (EFI_ERROR (fst r))).

Definition CoreInitializeEventServices : M STATE EFI_STATUS :=
  Mdata (fun d => set_queue ∅ (gEventPending d) d) ;;;
  CoreInitializeTimer ;;;
  let! r := CoreCreateEventEx EVT_NOTIFY_SIGNAL TPL_NOTIFY (Some Fn_EfiEventEmptyFunction) 0
              (Some (gIdleLoopEventGuid groups)) true in
  (if EFI_ERROR (fst r) then Mret tt else Mdata (set_idle (snd r))) ;;;
  Mret EFI_SUCCESS.
End Create.

Section Check.
Context (RestoreTpl : Z -> M STATE unit).

Definition CoreCheckEvent (e : Z) : M STATE EFI_STATUS :=
  if e =? 0 then Mret EFI_INVALID_PARAMETER
  else
    let! v := load e in
    if negb (Signature v =? EVENT_SIGNATURE) then Mret EFI_INVALID_PARAMETER
    else if has (Type_ v) EVT_NOTIFY_SIGNAL then Mret EFI_INVALID_PARAMETER
    else
      (if (SignalCount v =? 0) && has (Type_ v) EVT_NOTIFY_WAIT then
         CoreAcquireEventLock ;;;
         let! v1 := load e in
         (if SignalCount v1 =? 0 then CoreNotifyEvent e else Mret tt) ;;;
         CoreReleaseEventLock RestoreTpl
       else Mret tt) ;;;
      let! v2 := load e in
      if SignalCount v2 =? 0 then Mret EFI_NOT_READY
      else
        CoreAcquireEventLock ;;;
        let! v3 := load e in
        let! Status :=
          (if SignalCount v3 =? 0 then Mret EFI_NOT_READY
           else update e (upd_SignalCount 0) ;;; Mret EFI_SUCCESS) in
        CoreReleaseEventLock RestoreTpl ;;;
        Mret Status.

(** One pass over the events of CoreWaitForEvent: the status and index of
    the first event that is not EFI_NOT_READY. *)
Fixpoint wait_pass (Index : nat) (UserEvents : list Z) : M STATE (option (EFI_STATUS * nat)) :=
  match UserEvents with
  | [] => Mret None
  | e :: l =>
      let! Status := CoreCheckEvent e in
      if decide (Status = EFI_NOT_READY) then wait_pass (S Index) l
      else Mret (Some (Status, Index))
  end.

(** The [for (;;)] loop; the index is meaningful when one is returned. *)
Fixpoint wait_loop (fuel : nat) (UserEvents : list Z) : M STATE (EFI_STATUS * option nat) :=
  match fuel with
  | O => Mfail OutOfFuel
  | S fuel' =>
      let! r := wait_pass 0 UserEvents in
      match r with
      | Some (Status, Index) => Mret (Status, Some Index)
      | None =>
          let! s := GetState in
          CoreSignalEvent RestoreTpl (gIdleLoopEvent s) ;;;
          wait_loop fuel' UserEvents
      end
  end.

(** [UserEvents] is [None] for a NULL array. *)
Definition CoreWaitForEvent (fuel : nat) (UserEvents : option (list Z))
  : M STATE (EFI_STATUS * option nat) :=
  let! s := GetState in
  if negb (gEfiCurrentTpl s =? TPL_APPLICATION) then Mret (EFI_UNSUPPORTED, None)
  else match UserEvents with
       | None => Mret (EFI_INVALID_PARAMETER, None)
       | Some [] => Mret (EFI_INVALID_PARAMETER, None)
       | Some l => wait_loop fuel l
       end.

(** CoreUnregisterProtocolNotify belongs to the protocol database. *)
Context (UnregisterProtocolNotify : Z -> M STATE unit).

Definition remove_signal (e : Z) : M STATE unit := fun s =>
  if decide (e ∈ gEventSignalQueue s)
  then Ok (tt, set_data (set_signalq (filter (fun x => x <> e) (gEventSignalQueue s)) s) s)
  else Fault.
Definition remove_runtime (e : Z) : M STATE unit := fun s =>
  if decide (e ∈ gRuntime_EventHead s)
  then Ok (tt, set_data (set_runtime (filter (fun x => x <> e) (gRuntime_EventHead s)) s) s)
  else Fault.

Definition CoreCloseEvent (e : Z) : M STATE EFI_STATUS :=
  if e =? 0 then Mret EFI_INVALID_PARAMETER
  else
    let! v := load e in
    if negb (Signature v =? EVENT_SIGNATURE) then Mret EFI_INVALID_PARAMETER
    else
      (if has (Type_ v) EVT_TIMER
       then CoreSetTimer RestoreTpl e TimerCancel 0 ;;; Mret tt else Mret tt) ;;;
      CoreAcquireEventLock ;;;
      let! v1 := load e in
      (if RuntimeLink v1 then remove_runtime e else Mret tt) ;;;
      (if NotifyLink v1 then remove_notify e else Mret tt) ;;;
      (if SignalLink v1 then remove_signal e else Mret tt) ;;;
      CoreReleaseEventLock RestoreTpl ;;;
      let! v2 := load e in
      (if has (ExFlag v2) EVT_EXFLAG_EVENT_PROTOCOL_NOTIFICATION
       then UnregisterProtocolNotify e else Mret tt) ;;;
      (* Signature = 0, then the memory is freed *)
      Mdata (fun d => set_events (delete e (events d)) d) ;;;
      Mret EFI_SUCCESS.
End Check.
End EventServices.
