(* ===== verification/EventInv.v ===== *)
(** * EventInv: the invariant of the event services and its preservation

    What holds of the queues, the timer list and the events whenever a task
    runs, that queueing a notification preserves it, and the behaviour of
    the lock and TPL functions when no dispatch is due. *)

From stdpp Require Import base option list gmap fin_maps sorting.
From Stdlib Require Import ZArith Lia.
From S2P Require Import Prelude BaseMath EventState Event.

Local Open Scope Z_scope.
Local Open Scope edk_scope.

(** ** The data invariant *)

Definition notifying (v : IEVENT) : Prop :=
  has (Type_ v) (Z.lor EVT_NOTIFY_WAIT EVT_NOTIFY_SIGNAL) = true.

Record event_ok (v : IEVENT) : Prop := {
  ok_sig : Signature v = EVENT_SIGNATURE;
  ok_notify : notifying v ->
    TPL_APPLICATION < NotifyTpl v < TPL_HIGH_LEVEL /\ is_Some (NotifyFunction v);
  ok_check : NotifyFunction v = Some Fn_CoreCheckTimers -> NotifyTpl v = TPL_HIGH_LEVEL - 1;
  ok_timer : TimerLink v = true -> has (Type_ v) EVT_TIMER = true;
  ok_trigger : inU 64 (TriggerTime v);
  ok_period : inU 64 (Period v)
}.

(** The notification queues and the pending mask.  The mask may have the bit
    of a queue that has become empty (closing an event leaves it). *)
Record wf_queues (d : DATA) : Prop := {
  q_live e p : e ∈ queue d p -> exists v, events d !! e = Some v /\ NotifyTpl v = p /\
    NotifyLink v = true /\ notifying v;
  q_link e v : events d !! e = Some v -> NotifyLink v = true -> e ∈ queue d (NotifyTpl v);
  q_nodup p : NoDup (queue d p);
  q_pending p : queue d p <> [] -> Z.testbit (gEventPending d) p = true;
  q_mask p : Z.testbit (gEventPending d) p = true -> TPL_APPLICATION < p < TPL_HIGH_LEVEL;
  q_nonneg : 0 <= gEventPending d
}.

Definition trigger (d : DATA) (e : Z) : Z := from_option TriggerTime 0 (events d !! e).

(** The timer list holds exactly the linked timer events, in the order of
    their trigger times. *)
Record wf_timers (d : DATA) : Prop := {
  t_live e : e ∈ mEfiTimerList d -> exists v, events d !! e = Some v /\ TimerLink v = true;
  t_link e v : events d !! e = Some v -> TimerLink v = true -> e ∈ mEfiTimerList d;
  t_nodup : NoDup (mEfiTimerList d);
  t_sorted : StronglySorted (fun a b => trigger d a <= trigger d b) (mEfiTimerList d);
  t_time : inU 64 (mEfiSystemTime d)
}.

(** The events themselves, the signal and runtime lists, and the core's own
    events. *)
Record wf_events (d : DATA) : Prop := {
  e_ok e v : events d !! e = Some v -> e <> 0 /\ event_ok v;
  s_live e : e ∈ gEventSignalQueue d -> exists v, events d !! e = Some v /\
    SignalLink v = true /\ has (Type_ v) EVT_NOTIFY_SIGNAL = true;
  s_link e v : events d !! e = Some v -> SignalLink v = true -> e ∈ gEventSignalQueue d;
  s_nodup : NoDup (gEventSignalQueue d);
  r_live e : e ∈ gRuntime_EventHead d -> exists v, events d !! e = Some v /\ RuntimeLink v = true;
  r_link e v : events d !! e = Some v -> RuntimeLink v = true -> e ∈ gRuntime_EventHead d;
  r_nodup : NoDup (gRuntime_EventHead d);
  check_ok : exists v, events d !! mEfiCheckTimerEvent d = Some v /\
    has (ExFlag v) EVT_EXFLAG_EVENT_GROUP = false /\
    has (Type_ v) EVT_NOTIFY_SIGNAL = true /\ NotifyTpl v = TPL_HIGH_LEVEL - 1;
  idle_ok : is_Some (events d !! gIdleLoopEvent d)
}.

Record wf (d : DATA) : Prop := { wf_q : wf_queues d; wf_t : wf_timers d; wf_e : wf_events d }.

(** ** Changes that only signal

    [sim d d']: [d'] differs from [d] at most in the queues, the pending
    mask and the SignalCount and NotifyLink of events. *)
Definition event_core (v : IEVENT) : IEVENT := upd_NotifyLink false (upd_SignalCount 0 v).

Record sim (d d' : DATA) : Prop := {
  sim_events e : event_core <$> events d' !! e = event_core <$> events d !! e;
  sim_signalq : gEventSignalQueue d' = gEventSignalQueue d;
  sim_runtime : gRuntime_EventHead d' = gRuntime_EventHead d;
  sim_timers : mEfiTimerList d' = mEfiTimerList d;
  sim_time : mEfiSystemTime d' = mEfiSystemTime d;
  sim_check : mEfiCheckTimerEvent d' = mEfiCheckTimerEvent d;
  sim_idle : gIdleLoopEvent d' = gIdleLoopEvent d;
  sim_calls : Calls d' = Calls d
}.

#[global] Instance sim_equivalence : Equivalence sim.
Proof.
  split.
  - by constructor.
  - intros d d' []. by constructor.
  - intros d1 d2 d3 [] []. constructor; congruence.
Qed.

Lemma sim_lookup d d' e v :
  sim d d' -> events d !! e = Some v ->
  exists v', events d' !! e = Some v' /\ event_core v' = event_core v.
Proof.
  intros H He. pose proof (sim_events d d' H e) as E. rewrite He in E.
  destruct (events d' !! e) as [v'|]; [|done]. exists v'. split; [done|].
  change (Some (event_core v') = Some (event_core v)) in E. by apply (inj Some) in E.
Qed.

(** The fields outside SignalCount and NotifyLink agree. *)
Lemma core_fields v v' :
  event_core v' = event_core v ->
  Signature v' = Signature v /\ Type_ v' = Type_ v /\ SignalLink v' = SignalLink v /\
  NotifyTpl v' = NotifyTpl v /\ NotifyFunction v' = NotifyFunction v /\
  EventGroup v' = EventGroup v /\ ExFlag v' = ExFlag v /\ RuntimeLink v' = RuntimeLink v /\
  TimerLink v' = TimerLink v /\ TriggerTime v' = TriggerTime v /\ Period v' = Period v.
Proof. destruct v, v'. cbn. intros [=]. by subst. Qed.

Lemma core_ok v v' : event_core v' = event_core v -> event_ok v -> event_ok v'.
Proof.
  intros (E1 & E2 & E3 & E4 & E5 & E6 & E7 & E8 & E9 & E10 & E11)%core_fields [].
  constructor; unfold notifying in *; rewrite ?E1, ?E2, ?E4, ?E5, ?E9, ?E10, ?E11; auto.
Qed.

Lemma sim_trigger d d' e : sim d d' -> trigger d' e = trigger d e.
Proof.
  intros H. unfold trigger. pose proof (sim_events d d' H e) as E.
  destruct (events d' !! e) as [v'|], (events d !! e) as [v|]; try done.
  change (Some (event_core v') = Some (event_core v)) in E. apply (inj Some) in E.
  cbn. by apply core_fields in E as (_ & _ & _ & _ & _ & _ & _ & _ & _ & -> & _).
Qed.

Lemma StronglySorted_ext {A} (R R' : A -> A -> Prop) l :
  (forall a b, R a b -> R' a b) -> StronglySorted R l -> StronglySorted R' l.
Proof. intros H. induction 1; constructor; auto. eapply Forall_impl; eauto. Qed.

Lemma sim_wf_timers d d' : sim d d' -> wf_timers d -> wf_timers d'.
Proof.
  intros H [Hl Hk Hn Hs Ht]. pose proof (symmetry H) as H'.
  constructor; rewrite ?(sim_timers _ _ H), ?(sim_time _ _ H); auto.
  - intros e (v & Hv & HT)%Hl. destruct (sim_lookup _ _ _ _ H Hv) as (v' & Hv' & E).
    exists v'. split; [done|]. apply core_fields in E. naive_solver congruence.
  - intros e v' Hv' HT. destruct (sim_lookup _ _ _ _ H' Hv') as (v & Hv & E).
    apply (Hk e v Hv). apply core_fields in E. naive_solver congruence.
  - eapply StronglySorted_ext; [|exact Hs]. intros a b. by rewrite !(sim_trigger d d').
Qed.

Lemma sim_wf_events d d' : sim d d' -> wf_events d -> wf_events d'.
Proof.
  intros H [He Hsl Hsk Hsn Hrl Hrk Hrn Hc Hi]. pose proof (symmetry H) as H'.
  constructor; rewrite ?(sim_signalq _ _ H), ?(sim_runtime _ _ H), ?(sim_check _ _ H),
    ?(sim_idle _ _ H); auto.
  - intros e v' Hv'. destruct (sim_lookup _ _ _ _ H' Hv') as (v & Hv & E).
    destruct (He e v Hv). split; [done|]. by eapply core_ok.
  - intros e (v & Hv & HT)%Hsl. destruct (sim_lookup _ _ _ _ H Hv) as (v' & Hv' & E).
    exists v'. split; [done|]. apply core_fields in E. naive_solver congruence.
  - intros e v' Hv' HT. destruct (sim_lookup _ _ _ _ H' Hv') as (v & Hv & E).
    apply (Hsk e v Hv). apply core_fields in E. naive_solver congruence.
  - intros e (v & Hv & HT)%Hrl. destruct (sim_lookup _ _ _ _ H Hv) as (v' & Hv' & E).
    exists v'. split; [done|]. apply core_fields in E. naive_solver congruence.
  - intros e v' Hv' HT. destruct (sim_lookup _ _ _ _ H' Hv') as (v & Hv & E).
    apply (Hrk e v Hv). apply core_fields in E. naive_solver congruence.
  - destruct Hc as (v & Hv & HT). destruct (sim_lookup _ _ _ _ H Hv) as (v' & Hv' & E).
    exists v'. split; [done|]. apply core_fields in E. naive_solver congruence.
  - destruct Hi as [v Hv]. destruct (sim_lookup _ _ _ _ H Hv) as (v' & Hv' & E). by exists v'.
Qed.

(** What is left to show for a change that only signals. *)
Lemma sim_wf d d' : sim d d' -> wf_queues d' -> wf d -> wf d'.
Proof.
  intros H Hq [_ Ht He]. constructor; [done|by eapply sim_wf_timers|by eapply sim_wf_events].
Qed.

(** ** Queueing a notification *)

Lemma queue_set d q n p : queue (set_queue q n d) p = default [] (q !! p).
Proof. done. Qed.

Lemma queue_insert d p l n p' :
  queue (set_queue (<[p := l]> (gEventQueue d)) n d) p' = if decide (p' = p) then l else queue d p'.
Proof.
  unfold queue. cbn [gEventQueue set_queue]. case_decide as E.
  - rewrite E. by rewrite lookup_insert_eq.
  - by rewrite lookup_insert_ne.
Qed.

(** What CoreNotifyEvent does to the data. *)
Definition notify_data (e : Z) (d : DATA) : DATA :=
  match events d !! e with
  | None => d
  | Some v =>
      set_events (<[e := upd_NotifyLink true v]> (events d))
        (set_queue (<[NotifyTpl v := filter (fun x => x <> e) (queue d (NotifyTpl v)) ++ [e]]>
                      (gEventQueue d))
           (Z.lor (gEventPending d) (2 ^ NotifyTpl v)) d)
  end.

Lemma notify_data_queue d e v p :
  events d !! e = Some v ->
  queue (notify_data e d) p =
  if decide (p = NotifyTpl v) then filter (fun x => x <> e) (queue d p) ++ [e] else queue d p.
Proof.
  intros Hv. unfold notify_data. rewrite Hv. unfold queue at 1.
  cbn [gEventQueue set_events set_queue]. case_decide as E.
  - rewrite E. by rewrite lookup_insert_eq.
  - by rewrite lookup_insert_ne.
Qed.

Lemma notify_data_pending d e v :
  events d !! e = Some v -> gEventPending (notify_data e d) = Z.lor (gEventPending d) (2 ^ NotifyTpl v).
Proof. intros Hv. unfold notify_data. by rewrite Hv. Qed.

Lemma notify_data_events d e v :
  events d !! e = Some v -> events (notify_data e d) = <[e := upd_NotifyLink true v]> (events d).
Proof. intros Hv. unfold notify_data. by rewrite Hv. Qed.

(** Updates of SignalCount and NotifyLink keep the core of every event. *)
Lemma core_insert d e v v' (e' : Z) :
  events d !! e = Some v -> event_core v' = event_core v ->
  event_core <$> (<[e := v']> (events d)) !! e' = event_core <$> events d !! e'.
Proof.
  intros Hv E. destruct (decide (e' = e)) as [->|Hne].
  - rewrite lookup_insert_eq, Hv. cbn. by f_equal.
  - by rewrite lookup_insert_ne.
Qed.

Lemma notify_sim d e : sim d (notify_data e d).
Proof.
  unfold notify_data. destruct (events d !! e) as [v|] eqn:Hv; [|reflexivity].
  constructor; try done. intros e'. by eapply core_insert.
Qed.

Lemma wf_queue_lookup d e v :
  wf_queues d -> events d !! e = Some v -> forall p, e ∈ queue d p -> p = NotifyTpl v.
Proof. intros H Hv p (v' & Hv' & <- & _)%(q_live _ H). by simplify_eq. Qed.

Lemma testbit_pow2 n p : 0 <= n -> Z.testbit (2 ^ n) p = bool_decide (p = n).
Proof.
  intros Hn. case_bool_decide; [subst; by apply Z.pow2_bits_true|by apply Z.pow2_bits_false; lia].
Qed.

Lemma notify_wf_queues d e v :
  wf d -> events d !! e = Some v -> notifying v -> wf_queues (notify_data e d).
Proof.
  intros [Hq _ He] Hv Hn. destruct (e_ok _ He e v Hv) as [_ Hok].
  destruct (ok_notify _ Hok Hn) as [Ht _]. unfold TPL_APPLICATION, TPL_HIGH_LEVEL in *.
  constructor.
  - intros e' p. rewrite (notify_data_queue d e v p Hv), (notify_data_events d e v Hv).
    destruct (decide (e' = e)) as [->|Hne].
    + rewrite lookup_insert_eq. intros Hin. exists (upd_NotifyLink true v). split; [done|].
      split; [|by split]. cbn [NotifyTpl upd_NotifyLink]. case_decide as E; [done|].
      symmetry. by eapply wf_queue_lookup.
    + rewrite lookup_insert_ne by done. case_decide; [|apply (q_live _ Hq)].
      rewrite elem_of_app, list_elem_of_filter, list_elem_of_singleton.
      intros [[_ Hin]| -> ]; [by apply (q_live _ Hq)|done].
  - intros e' v'. rewrite (notify_data_events d e v Hv). destruct (decide (e' = e)) as [->|Hne].
    + rewrite lookup_insert_eq. intros [= <-] _. rewrite (notify_data_queue d e v _ Hv).
      cbn [NotifyTpl upd_NotifyLink]. rewrite decide_True by done. set_solver.
    + rewrite lookup_insert_ne by done. intros Hv' HL. rewrite (notify_data_queue d e v _ Hv).
      pose proof (q_link _ Hq e' v' Hv' HL). case_decide; [|done].
      rewrite elem_of_app, list_elem_of_filter. by left.
  - intros p. rewrite (notify_data_queue d e v p Hv). pose proof (q_nodup _ Hq p).
    case_decide; [|done]. apply NoDup_app. split_and!; [by apply NoDup_filter| |apply NoDup_singleton].
    intros x [Hx _]%list_elem_of_filter Hx'. by apply list_elem_of_singleton in Hx'.
  - intros p. rewrite (notify_data_queue d e v p Hv), (notify_data_pending d e v Hv).
    rewrite Z.lor_spec, testbit_pow2 by lia. case_decide as E.
    + intros _. rewrite E, bool_decide_true by done. apply orb_true_r.
    + intros Hp%(q_pending _ Hq). by rewrite Hp.
  - intros p. rewrite (notify_data_pending d e v Hv), Z.lor_spec, testbit_pow2 by lia.
    intros Hp. apply orb_true_iff in Hp as [Hp|Hp]; [by apply (q_mask _ Hq)|]. apply bool_decide_eq_true in Hp.
    unfold TPL_APPLICATION, TPL_HIGH_LEVEL. lia.
  - rewrite (notify_data_pending d e v Hv). apply Z.lor_nonneg.
    split; [apply (q_nonneg _ Hq)|apply Z.pow_nonneg; lia].
Qed.

Lemma notify_wf d e v :
  wf d -> events d !! e = Some v -> notifying v -> wf (notify_data e d).
Proof.
  intros H Hv Hn. eapply sim_wf; [apply notify_sim|by eapply notify_wf_queues|done].
Qed.

(** ** The control state *)

Definition lock_tpl (l : LOCK_ID) : Z :=
  match l with mEfiTimerLock => TPL_HIGH_LEVEL - 1 | _ => TPL_HIGH_LEVEL end.

Definition ctl_ok (s : STATE) : Prop :=
  0 <= gEfiCurrentTpl s <= TPL_HIGH_LEVEL /\ forall l, Tpl (locks s l) = lock_tpl l.

Definition free (l : LOCK_ID) (s : STATE) : Prop := Lock (locks s l) = EfiLockReleased.
Definition held (l : LOCK_ID) (s : STATE) : Prop := Lock (locks s l) = EfiLockAcquired.

(** Locks agree; the owner level matters only while a lock is held. *)
Definition lock_equiv (k k' : EFI_LOCK) : Prop :=
  Tpl k' = Tpl k /\ Lock k' = Lock k /\ (Lock k = EfiLockAcquired -> OwnerTpl k' = OwnerTpl k).

Definition ctl_equiv (s s' : STATE) : Prop :=
  gEfiCurrentTpl s' = gEfiCurrentTpl s /\ forall l, lock_equiv (locks s l) (locks s' l).

#[global] Instance ctl_equiv_equivalence : Equivalence ctl_equiv.
Proof.
  split.
  - by split.
  - intros s s' [E H]. split; [done|]. intros l. destruct (H l) as (? & ? & H3).
    repeat split; [done..|]. intros. symmetry. apply H3. congruence.
  - intros s1 s2 s3 [E H] [E' H']. split; [congruence|]. intros l.
    destruct (H l) as (? & ? & H3), (H' l) as (? & ? & H3').
    repeat split; [congruence..|]. intros. rewrite H3', H3; congruence.
Qed.

Lemma ctl_equiv_ok s s' : ctl_equiv s s' -> ctl_ok s -> ctl_ok s'.
Proof.
  intros [E H] [Ht Hl]. split; [by rewrite E|]. intros l. destruct (H l) as (-> & _ & _). apply Hl.
Qed.
Lemma ctl_equiv_free l s s' : ctl_equiv s s' -> free l s -> free l s'.
Proof. intros [_ H]. unfold free. by destruct (H l) as (_ & -> & _). Qed.
Lemma ctl_equiv_held l s s' : ctl_equiv s s' -> held l s -> held l s'.
Proof. intros [_ H]. unfold held. by destruct (H l) as (_ & -> & _). Qed.

Lemma set_data_ctl d s : ctl_equiv s (set_data d s).
Proof. by split. Qed.

(** No notification above [t] is pending. *)
Definition pending_le (d : DATA) (t : Z) : Prop :=
  forall p, Z.testbit (gEventPending d) p = true -> p <= t.

Lemma pending_le_wf d t : wf d -> TPL_HIGH_LEVEL - 1 <= t -> pending_le d t.
Proof. intros H Ht p Hp%(q_mask _ (wf_q _ H)). lia. Qed.

Lemma pending_le_mono d t t' : pending_le d t -> t <= t' -> pending_le d t'.
Proof. intros H Ht p Hp%H. lia. Qed.

Create HintDb event discriminated.
#[export] Hint Resolve set_data_ctl ctl_equiv_ok ctl_equiv_free ctl_equiv_held : event.

Section Control.
Context (cfg : CONFIG) (Notify : nat -> Z -> M STATE unit) (tot : bool).
Context (cfg_W : W cfg = 32 \/ W cfg = 64).

Local Abbreviation wp_ := (wp tot).

Lemma ASSERT_true b s : b = true -> ASSERTE cfg b s = Ok (tt, s).
Proof. intros ->. unfold ASSERTE. by rewrite orb_true_r. Qed.

Lemma SetInterrupt_ok b s :
  exists i, CoreSetInterruptState cfg b s = Ok (tt, set_interrupts i s).
Proof.
  unfold CoreSetInterruptState.
  assert (Hs : s = set_interrupts (Interrupts s) s) by by destruct s.
  repeat case_match; first [eexists; reflexivity|exists (Interrupts s); by rewrite <- Hs].
Qed.

Lemma tpl_bit_ok n : 0 <= n < TPL_HIGH_LEVEL -> tpl_bit cfg n = Ok (2 ^ n).
Proof.
  unfold TPL_HIGH_LEVEL, tpl_bit, c_shl. intros Hn. destruct (Z.ltb_spec n 32); [|lia].
  rewrite Z.shiftl_1_l. pose proof (Z.pow_lt_mono_r 2 n 31 ltac:(lia) ltac:(lia) ltac:(lia)).
  pose proof (Z.pow_pos_nonneg 2 n ltac:(lia) ltac:(lia)).
  assert (2 ^ 31 < 2 ^ 32) by (cbn; lia).
  rewrite (wrapU_id 32) by (unfold inU; lia).
  rewrite wrapS_id by (unfold inS; cbn in *; lia). f_equal. apply wrapU_id. unfold inU.
  assert (2 ^ 32 <= 2 ^ W cfg) by (destruct cfg_W as [-> | ->]; cbn; lia). lia.
Qed.

Lemma RaiseTpl_ok t s :
  gEfiCurrentTpl s <= t <= TPL_HIGH_LEVEL ->
  exists i, CoreRaiseTpl cfg t s = Ok (gEfiCurrentTpl s, set_Tpl t (set_interrupts i s)).
Proof.
  intros Ht. unfold CoreRaiseTpl. rewrite (Mbind_Ok GetState _ s s s eq_refl).
  rewrite (Mbind_Ok _ _ _ tt s) by (apply ASSERT_true; destruct (Z.ltb_spec t (gEfiCurrentTpl s)); [lia|done]).
  rewrite (Mbind_Ok _ _ _ tt s) by (apply ASSERT_true; unfold VALID_TPL; apply Z.leb_le; lia).
  case_match.
  - destruct (SetInterrupt_ok false s) as [i E]. exists i. by run_step E.
  - exists (Interrupts s). by destruct s.
Qed.

(** The state after taking lock [l]. *)
Definition acquired (l : LOCK_ID) (s s' : STATE) : Prop :=
  gEfiCurrentTpl s' = lock_tpl l /\ data s' = data s /\
  locks s' l = mkLock (lock_tpl l) (gEfiCurrentTpl s) EfiLockAcquired /\
  (forall l', l' <> l -> locks s' l' = locks s l').

Lemma acquire_wp l Q s :
  ctl_ok s -> free l s -> gEfiCurrentTpl s <= lock_tpl l ->
  (forall s', acquired l s s' -> Q tt s') -> wp_ (CoreAcquireLock cfg l) Q s.
Proof.
  intros [Hc Hl] Hf Ht HQ. unfold CoreAcquireLock. apply (wp_step _ _ _ _ s s s); [done|].
  eapply wp_step; [apply ASSERT_true; by apply bool_decide_eq_true|]. cbn beta.
  destruct (RaiseTpl_ok (Tpl (locks s l)) s) as [i E].
  { rewrite Hl. destruct l; cbn [lock_tpl] in *; unfold TPL_HIGH_LEVEL in *; lia. }
  eapply wp_step; [exact E|]. cbn beta. eapply wp_eq; [done|]. apply HQ.
  rewrite Hl. split_and!; [done..| |]; cbn [locks set_lock set_Tpl set_interrupts].
  - by rewrite decide_True.
  - intros l' Hne. by rewrite decide_False.
Qed.

Lemma acquired_ok l s s' : ctl_ok s -> acquired l s s' -> ctl_ok s'.
Proof.
  intros [Hc Hl] (Ht & _ & Hk & Ho). split.
  - rewrite Ht. destruct l; cbn [lock_tpl]; unfold TPL_HIGH_LEVEL; lia.
  - intros l'. destruct (decide (l' = l)) as [-> | Hne]; [by rewrite Hk|]. by rewrite Ho.
Qed.
Lemma acquired_held l s s' : acquired l s s' -> held l s'.
Proof. intros (_ & _ & Hk & _). unfold held. by rewrite Hk. Qed.
Lemma acquired_free l l' s s' : acquired l s s' -> l' <> l -> free l' s -> free l' s'.
Proof. intros (_ & _ & _ & Ho) Hne. unfold free. by rewrite Ho. Qed.
Lemma acquired_other l l' s s' : acquired l s s' -> l' <> l -> held l' s -> held l' s'.
Proof. intros (_ & _ & _ & Ho) Hne. unfold held. by rewrite Ho. Qed.

(** After release, the lock section as a whole kept the control state. *)
Lemma released_ctl l s s1 s2 s3 :
  free l s -> ctl_ok s -> acquired l s s1 -> ctl_equiv s1 s2 ->
  gEfiCurrentTpl s3 = gEfiCurrentTpl s ->
  (forall l', lock_equiv (locks (set_lock l (mkLock (Tpl (locks s2 l)) (OwnerTpl (locks s2 l))
     EfiLockReleased) s2) l') (locks s3 l')) ->
  ctl_equiv s s3.
Proof.
  intros Hf [_ Hl] (_ & _ & Hk & Ho) [_ He] Ht H3. split; [done|]. intros l'. specialize (H3 l').
  cbn [locks set_lock] in H3. case_decide as E.
  - subst l'. destruct H3 as (E1 & E2 & _). cbn [Tpl Lock] in E1, E2.
    destruct (He l) as (E3 & _ & _). rewrite Hk in E3. cbn [Tpl] in E3.
    repeat split; [congruence..|]. unfold free in Hf. congruence.
  - destruct H3 as (E1 & E2 & E3). destruct (He l') as (F1 & F2 & F3). rewrite Ho in F1, F2, F3 by done.
    repeat split; [congruence..|]. intros HA. rewrite E3, F3; congruence.
Qed.

(** What CoreRestoreTpl promises when nothing above the new level is
    pending: it only sets the level (and perhaps the interrupt flag). *)
Definition quiet_spec (R : Z -> M STATE unit) : Prop :=
  forall t s, ctl_ok s -> 0 <= t <= gEfiCurrentTpl s -> 0 <= gEventPending s -> pending_le s t ->
  wp_ (R t) (fun _ s' => gEfiCurrentTpl s' = t /\ locks s' = locks s /\ data s' = data s) s.

(** The release at the end of a lock section, before CoreRestoreTpl runs. *)
Lemma release_start R l s s1 s2 Q :
  acquired l s s1 -> ctl_equiv s1 s2 ->
  wp_ (R (gEfiCurrentTpl s)) Q (set_lock l (mkLock (Tpl (locks s2 l)) (OwnerTpl (locks s2 l))
     EfiLockReleased) s2) ->
  wp_ (CoreReleaseLock cfg R l) Q s2.
Proof.
  intros Ha He HR. unfold CoreReleaseLock. apply (wp_step _ _ _ _ s2 s2 s2); [done|].
  pose proof (ctl_equiv_held l _ _ He (acquired_held _ _ _ Ha)) as Hh.
  eapply wp_step; [apply ASSERT_true; by apply bool_decide_eq_true|]. cbn beta.
  eapply wp_step; [done|]. cbn beta.
  destruct Ha as (_ & _ & Hk & _). destruct He as [_ He]. destruct (He l) as (_ & _ & E).
  rewrite Hk in E. cbn in E. rewrite E in * by done. done.
Qed.

Lemma release_quiet R l s s1 s2 Q :
  quiet_spec R -> ctl_ok s -> free l s -> gEfiCurrentTpl s <= lock_tpl l ->
  acquired l s s1 -> ctl_equiv s1 s2 ->
  0 <= gEventPending s2 -> pending_le s2 (gEfiCurrentTpl s) ->
  (forall s3, ctl_equiv s s3 -> data s3 = data s2 -> Q tt s3) ->
  wp_ (CoreReleaseLock cfg R l) Q s2.
Proof.
  intros HR Hc Hf Ht Ha He Hp0 Hp HQ. eapply release_start; [done|done|].
  set (s2' := set_lock _ _ _).
  assert (Hc2 : ctl_ok s2).
  { eapply ctl_equiv_ok; [exact He|]. by eapply acquired_ok. }
  eapply wp_mono; [apply (HR _ s2')|].
  - destruct Hc2 as [Hc2 Hl]. split; [done|]. intros l'. unfold s2'. cbn [locks set_lock].
    case_decide; [subst l'|]; apply Hl.
  - destruct Hc as [Hc _], Ha as (Ht1 & _), He as [Ht2 _]. cbn [gEfiCurrentTpl s2' set_lock].
    unfold s2'. cbn [gEfiCurrentTpl set_lock]. rewrite Ht2, Ht1. lia.
  - done.
  - done.
  - intros [] s3 (E1 & E2 & E3). apply HQ; [|done].
    eapply (released_ctl l s s1 s2 s3); try done. intros l'. rewrite E2. by repeat split.
Qed.
End Control.
