(* ===== verification/EventSafe.v ===== *)
(** * EventSafe: every service keeps the invariant

    Signalling, timers and dispatch never fail an ASSERT, never follow a
    stale link, and return to the caller's TPL with the invariant
    re-established, for any notification functions that do the same. *)

From stdpp Require Import base option list gmap fin_maps sorting.
From Stdlib Require Import ZArith Lia.
From S2P Require Import Prelude BaseMath EventState Event EventInv.

Local Open Scope Z_scope.
Local Open Scope edk_scope.

(** ** Data-level effects of signalling *)

Lemma has_lor_r x a b : has x b = true -> has x (Z.lor a b) = true.
Proof.
  unfold has. rewrite Z.land_lor_distr_r, !negb_true_iff, !Z.eqb_neq.
  intros H E%Z.lor_eq_0_iff. by destruct E.
Qed.
Lemma has_lor_l x a b : has x a = true -> has x (Z.lor a b) = true.
Proof. rewrite Z.lor_comm. apply has_lor_r. Qed.

Lemma signal_notifying v : has (Type_ v) EVT_NOTIFY_SIGNAL = true -> notifying v.
Proof. apply has_lor_r. Qed.
Lemma wait_notifying v : has (Type_ v) EVT_NOTIFY_WAIT = true -> notifying v.
Proof. apply has_lor_l. Qed.

Definition count_data (e c : Z) (d : DATA) : DATA :=
  match events d !! e with
  | Some v => set_events (<[e := upd_SignalCount c v]> (events d)) d
  | None => d
  end.

Definition in_group (Group : Z) (d : DATA) (e : Z) : bool :=
  match events d !! e with Some v => EventGroup v =? Group | None => false end.

Definition notify_list (Group : Z) (l : list Z) (d : DATA) : DATA :=
  fold_left (fun d e => if in_group Group d e then notify_data e d else d) l d.

(** What CoreSignalEvent does to the data before it lowers the TPL. *)
Definition signal_data (e : Z) (d : DATA) : DATA :=
  match events d !! e with
  | None => d
  | Some v =>
      if SignalCount v =? 0 then
        let d1 := count_data e 1 d in
        if has (Type_ v) EVT_NOTIFY_SIGNAL then
          if has (ExFlag v) EVT_EXFLAG_EVENT_GROUP
          then notify_list (EventGroup v) (gEventSignalQueue d1) d1
          else notify_data e d1
        else d1
      else d
  end.

Lemma count_sim e c d : sim d (count_data e c d).
Proof.
  unfold count_data. destruct (events d !! e) as [v|] eqn:Hv; [|reflexivity].
  constructor; try done. intros e'. by eapply core_insert.
Qed.

Lemma count_lookup e c d e' v' :
  events (count_data e c d) !! e' = Some v' ->
  exists v, events d !! e' = Some v /\ (v' = v \/ v' = upd_SignalCount c v).
Proof.
  unfold count_data. destruct (events d !! e) as [v|] eqn:Hv; [|eauto].
  cbn [events set_events]. destruct (decide (e' = e)) as [-> |Hne].
  - rewrite lookup_insert_eq. intros [= <-]. eauto.
  - rewrite lookup_insert_ne by done. eauto.
Qed.

Lemma count_lookup_fwd e c d e' v :
  events d !! e' = Some v -> exists v', events (count_data e c d) !! e' = Some v' /\
  (v' = v \/ v' = upd_SignalCount c v).
Proof.
  intros Hv'. unfold count_data. destruct (events d !! e) as [v0|] eqn:Hv; [|eauto].
  cbn [events set_events]. destruct (decide (e' = e)) as [-> |Hne].
  - rewrite lookup_insert_eq. simplify_eq. eauto.
  - rewrite lookup_insert_ne by done. eauto.
Qed.

Lemma count_queue e c d p : queue (count_data e c d) p = queue d p.
Proof. unfold count_data. by destruct (events d !! e). Qed.
Lemma count_pending e c d : gEventPending (count_data e c d) = gEventPending d.
Proof. unfold count_data. by destruct (events d !! e). Qed.

Lemma count_wf e c d : wf d -> wf (count_data e c d).
Proof.
  intros H. eapply sim_wf; [apply count_sim| |done]. destruct H as [Hq _ _].
  constructor; intros *; rewrite ?count_queue, ?count_pending; try apply Hq.
  - intros (v & Hv & HT)%(q_live _ Hq). destruct (count_lookup_fwd e c _ _ _ Hv) as (v' & Hv' & E).
    exists v'. split; [done|]. destruct E as [-> | ->]; done.
  - intros (v0 & Hv & E)%count_lookup HL. destruct E as [-> | ->]; exact (q_link _ Hq _ v0 Hv HL).
Qed.

Lemma sim_in_group d d' g e : sim d d' -> in_group g d' e = in_group g d e.
Proof.
  intros H. unfold in_group. pose proof (sim_events d d' H e) as E.
  destruct (events d' !! e) as [v'|], (events d !! e) as [v|]; try done.
  change (Some (event_core v') = Some (event_core v)) in E. apply (inj Some) in E.
  apply core_fields in E. destruct E as (_ & _ & _ & _ & _ & -> & _). done.
Qed.

(** Every handle of [l] is an event that can be queued. *)
Definition can_notify (d : DATA) (e : Z) : Prop := exists v, events d !! e = Some v /\ notifying v.

Lemma sim_can_notify d d' e : sim d d' -> can_notify d e -> can_notify d' e.
Proof.
  intros H (v & Hv & Hn). destruct (sim_lookup _ _ _ _ H Hv) as (v' & Hv' & E).
  exists v'. split; [done|]. unfold notifying in *. apply core_fields in E. naive_solver congruence.
Qed.

Lemma notify_list_ok g l : forall d, wf d -> Forall (can_notify d) l ->
  wf (notify_list g l d) /\ sim d (notify_list g l d).
Proof.
  induction l as [|e l IH]; intros d Hd Hl; cbn [notify_list fold_left]; [by split|].
  apply Forall_cons in Hl as [(v & Hv & Hn) Hl]. destruct (in_group g d e); [|by apply IH].
  pose proof (notify_sim d e) as Hs.
  destruct (IH (notify_data e d)) as [H1 H2]; [by eapply notify_wf| |].
  - eapply Forall_impl; [exact Hl|]. intros x. by apply sim_can_notify.
  - split; [done|]. by transitivity (notify_data e d).
Qed.

Lemma signalq_can_notify d : wf d -> Forall (can_notify d) (gEventSignalQueue d).
Proof.
  intros [_ _ H]. apply Forall_forall. intros e (v & Hv & _ & HT)%(s_live _ H).
  exists v. split; [done|]. by apply signal_notifying.
Qed.

Lemma signal_ok e d : wf d -> wf (signal_data e d) /\ sim d (signal_data e d).
Proof.
  intros H. unfold signal_data. destruct (events d !! e) as [v|] eqn:Hv; [|by split].
  case_match; [|by split]. pose proof (count_wf e 1 d H) as Hw. pose proof (count_sim e 1 d) as Hs.
  case_match; [|by split]. case_match.
  - destruct (notify_list_ok (EventGroup v) (gEventSignalQueue (count_data e 1 d))
                (count_data e 1 d) Hw) as [? ?]; [by apply signalq_can_notify|].
    split; [done|]. by transitivity (count_data e 1 d).
  - destruct (sim_lookup _ _ _ _ Hs Hv) as (v' & Hv' & E). split.
    + eapply notify_wf; [done|exact Hv'|]. apply signal_notifying.
      apply core_fields in E. naive_solver congruence.
    + transitivity (count_data e 1 d); [done|apply notify_sim].
Qed.

(** ** What every service leaves alone *)

(** No event disappears and the fields set at creation keep their values. *)
Definition static (v v' : IEVENT) : Prop :=
  Signature v' = Signature v /\ Type_ v' = Type_ v /\ NotifyTpl v' = NotifyTpl v /\
  NotifyFunction v' = NotifyFunction v /\ EventGroup v' = EventGroup v /\ ExFlag v' = ExFlag v.

Definition ext (d d' : DATA) : Prop :=
  (forall e v, events d !! e = Some v -> exists v', events d' !! e = Some v' /\ static v v') /\
  mEfiCheckTimerEvent d' = mEfiCheckTimerEvent d /\ gIdleLoopEvent d' = gIdleLoopEvent d.

#[global] Instance ext_preorder : PreOrder ext.
Proof.
  split.
  - intros d. repeat split. intros e v Hv. by exists v.
  - intros d1 d2 d3 (H1 & E1 & F1) (H2 & E2 & F2). repeat split; [|congruence..].
    intros e v Hv. destruct (H1 e v Hv) as (v1 & Hv1 & S1). destruct (H2 e v1 Hv1) as (v2 & Hv2 & S2).
    exists v2. split; [done|]. unfold static in *. naive_solver congruence.
Qed.

Lemma sim_ext d d' : sim d d' -> ext d d'.
Proof.
  intros H. repeat split; [|apply H..]. intros e v Hv.
  destruct (sim_lookup _ _ _ _ H Hv) as (v' & Hv' & E). exists v'. split; [done|].
  apply core_fields in E. unfold static. naive_solver.
Qed.

(** ** Exactly what a signal counts and queues *)

(** Signalling an event that already counts changes nothing. *)
Definition bump (c : Z) : Z := if c =? 0 then 1 else c.

(** Signalling [e] queues [x]: an uncounted NOTIFY_SIGNAL event queues itself,
    or, in a group, the members of its group on the signal queue. *)
Definition queues_event (d : DATA) (e x : Z) : Prop :=
  exists w v, events d !! e = Some w /\ events d !! x = Some v /\ SignalCount w = 0 /\
    has (Type_ w) EVT_NOTIFY_SIGNAL = true /\
    (if has (ExFlag w) EVT_EXFLAG_EVENT_GROUP
     then x ∈ gEventSignalQueue d /\ EventGroup v = EventGroup w else x = e).

(** From [d] to [d'] exactly the events of [L] were signalled: their counts
    are bumped and no other count changes, and exactly the events they queue
    are newly linked into a queue. *)
Record signalled (L : list Z) (d d' : DATA) : Prop := {
  sg_events x v : events d !! x = Some v -> exists v', events d' !! x = Some v' /\ static v v' /\
    SignalCount v' = (if decide (x ∈ L) then bump (SignalCount v) else SignalCount v) /\
    (NotifyLink v' = true <-> NotifyLink v = true \/ exists e, e ∈ L /\ queues_event d e x);
  sg_live x : is_Some (events d' !! x) -> is_Some (events d !! x);
  sg_signalq : gEventSignalQueue d' = gEventSignalQueue d
}.

Lemma bump_0 c : c = 0 -> bump c = 1.
Proof. by intros ->. Qed.
Lemma bump_pos c : c <> 0 -> bump c = c.
Proof. unfold bump. by destruct (Z.eqb_spec c 0). Qed.
Lemma bump_nz c : bump c <> 0.
Proof. unfold bump. by destruct (Z.eqb_spec c 0). Qed.

Lemma static_trans v v1 v2 : static v v1 -> static v1 v2 -> static v v2.
Proof. unfold static. naive_solver congruence. Qed.

(** What an event queues depends only on its own count and the fixed fields. *)
Lemma queues_event_later L d d' e x :
  signalled L d d' -> e ∉ L -> is_Some (events d !! x) -> queues_event d' e x <-> queues_event d e x.
Proof.
  intros H He [v Hv]. destruct (sg_events _ _ _ H x v Hv) as (v' & Hv' & Sv & _). split.
  - intros (w' & ? & Hw' & Hx & H0 & HT & HG). simplify_eq.
    destruct (sg_live _ _ _ H e ltac:(eauto)) as [w Hw].
    destruct (sg_events _ _ _ H e w Hw) as (? & ? & Sw & Cw & _). simplify_eq.
    rewrite decide_False in Cw by done. exists w, v. unfold static in *. rewrite (sg_signalq _ _ _ H) in HG.
    destruct Sv as (_ & _ & _ & _ & G & _), Sw as (_ & T & _ & _ & G' & X).
    rewrite X, ?G, ?G' in HG. rewrite T in HT. by rewrite Cw in H0.
  - intros (w & ? & Hw & Hx & H0 & HT & HG). simplify_eq.
    destruct (sg_events _ _ _ H e w Hw) as (w' & ? & Sw & Cw & _).
    rewrite decide_False in Cw by done. exists w', v'. rewrite (sg_signalq _ _ _ H).
    destruct Sv as (_ & _ & _ & _ & G & _), Sw as (_ & T & _ & _ & G' & X).
    by rewrite X, G, G', T, Cw.
Qed.

(** A counted event queues nothing. *)
Lemma queues_event_counted L d d' e x : signalled L d d' -> e ∈ L -> ~ queues_event d' e x.
Proof.
  intros H He (w' & ? & Hw' & _ & H0 & _). destruct (sg_live _ _ _ H e ltac:(eauto)) as [w Hw].
  destruct (sg_events _ _ _ H e w Hw) as (? & ? & _ & Cw & _). simplify_eq.
  rewrite decide_True in Cw by done. by destruct (bump_nz (SignalCount w)); congruence.
Qed.

Lemma signalled_trans L1 L2 d d1 d2 :
  signalled L1 d d1 -> signalled L2 d1 d2 -> signalled (L1 ++ L2) d d2.
Proof.
  intros H1 H2. constructor.
  - intros x v Hv. destruct (sg_events _ _ _ H1 x v Hv) as (v1 & Hv1 & S1 & C1 & N1).
    destruct (sg_events _ _ _ H2 x v1 Hv1) as (v2 & Hv2 & S2 & C2 & N2). exists v2.
    split_and!; [done|by eapply static_trans| |].
    + rewrite C2, C1. destruct (decide (x ∈ L1)), (decide (x ∈ L2)), (decide (x ∈ L1 ++ L2)) as [E|E];
        rewrite ?(bump_pos (bump _)) by apply bump_nz; try done; rewrite elem_of_app in E; tauto.
    + rewrite N2, N1. setoid_rewrite elem_of_app. split.
      * intros [[|(e & He & Q)]|(e & He & Q)]; [by left|right; eauto|].
        destruct (decide (e ∈ L1)); [by destruct (queues_event_counted _ _ _ e x H1 ltac:(done) Q)|].
        right. exists e. split; [by right|]. by apply (queues_event_later _ _ _ e x H1 ltac:(done) (mk_is_Some _ _ Hv)).
      * intros [|(e & [He|He] & Q)]; [by left; left|left; right; eauto|].
        destruct (decide (e ∈ L1)); [left; right; eauto|right]. exists e. split; [done|].
        by apply (queues_event_later _ _ _ e x H1 ltac:(done) (mk_is_Some _ _ Hv)).
  - intros x Hx. by apply (sg_live _ _ _ H1), (sg_live _ _ _ H2).
  - by rewrite (sg_signalq _ _ _ H2), (sg_signalq _ _ _ H1).
Qed.

Lemma signalled_nil d d' :
  (forall x v, events d !! x = Some v -> exists v', events d' !! x = Some v' /\ static v v' /\
     SignalCount v' = SignalCount v /\ NotifyLink v' = NotifyLink v) ->
  (forall x, is_Some (events d' !! x) -> is_Some (events d !! x)) ->
  gEventSignalQueue d' = gEventSignalQueue d -> signalled [] d d'.
Proof.
  intros H HL HS. constructor; [|done..]. intros x v Hv. destruct (H x v Hv) as (v' & Hv' & S & C & N).
  exists v'. rewrite decide_False, N by apply not_elem_of_nil. split_and!; [done..|].
  split; [by left|]. by intros [|(e & []%elem_of_nil & _)].
Qed.

Lemma signalled_refl d : signalled [] d d.
Proof. apply signalled_nil; [|done..]. intros x v Hv. exists v. by repeat split. Qed.

Lemma notify_data_link e d m v :
  events d !! m = Some v -> exists v', events (notify_data e d) !! m = Some v' /\
    SignalCount v' = SignalCount v /\ (NotifyLink v' = true <-> NotifyLink v = true \/ m = e).
Proof.
  intros Hv. unfold notify_data. destruct (events d !! e) as [w|] eqn:Hw.
  - cbn [events set_events]. destruct (decide (m = e)) as [-> |].
    + rewrite lookup_insert_eq. simplify_eq. eexists. split; [done|]. cbn. tauto.
    + rewrite lookup_insert_ne by done. exists v. tauto.
  - exists v. split_and!; [done..|]. split; [by left|]. intros [| ->]; [done|congruence].
Qed.

(** A walk over the group links exactly the members it passes. *)
Lemma notify_list_link g l : forall d m v,
  events d !! m = Some v -> exists v', events (notify_list g l d) !! m = Some v' /\
    SignalCount v' = SignalCount v /\
    (NotifyLink v' = true <-> NotifyLink v = true \/ (m ∈ l /\ EventGroup v = g)).
Proof.
  induction l as [|e l IH]; intros d m v Hv; cbn [notify_list fold_left].
  { exists v. pose proof (not_elem_of_nil m). tauto. }
  destruct (in_group g d e) eqn:Eg; unfold in_group in Eg.
  - destruct (notify_data_link e d m v Hv) as (v1 & Hv1 & C1 & HL1).
    destruct (sim_lookup _ _ _ _ (notify_sim d e) Hv) as (v1' & Hv1' & Ec).
    assert (v1' = v1) as -> by congruence.
    apply core_fields in Ec as (_ & _ & _ & _ & _ & EG & _).
    destruct (IH (notify_data e d) m v1 Hv1) as (v2 & Hv2 & C2 & HL2). exists v2.
    split_and!; [done|congruence|]. rewrite HL2, HL1, EG, elem_of_cons.
    destruct (decide (m = e)) as [-> |]; [|tauto]. rewrite Hv in Eg. apply Z.eqb_eq in Eg. tauto.
  - destruct (IH d m v Hv) as (v2 & Hv2 & C2 & HL2). exists v2. split_and!; [done..|]. rewrite HL2, elem_of_cons.
    destruct (decide (m = e)) as [-> |]; [|tauto]. rewrite Hv in Eg. apply Z.eqb_neq in Eg. tauto.
Qed.

Lemma count_data_link e d v x u :
  events d !! e = Some v -> SignalCount v = 0 -> events d !! x = Some u ->
  exists u', events (count_data e 1 d) !! x = Some u' /\ NotifyLink u' = NotifyLink u /\
    EventGroup u' = EventGroup u /\
    SignalCount u' = (if decide (x ∈ [e]) then bump (SignalCount u) else SignalCount u).
Proof.
  intros Hv H0 Hu. unfold count_data. rewrite Hv. cbn [events set_events].
  destruct (decide (x = e)) as [-> |Hne].
  - rewrite lookup_insert_eq. simplify_eq. eexists. rewrite decide_True by by left.
    rewrite bump_0 by done. done.
  - rewrite lookup_insert_ne by done. exists u.
    rewrite decide_False by (by rewrite list_elem_of_singleton). done.
Qed.

(** CoreSignalEvent signals exactly its event. *)
Lemma signal_signalled e d : wf d -> is_Some (events d !! e) -> signalled [e] d (signal_data e d).
Proof.
  intros Hw [v Hv]. destruct (signal_ok e d Hw) as [_ Hs]. constructor; [|intros x|apply Hs].
  - intros x u Hu. destruct (sim_lookup _ _ _ _ Hs Hu) as (u' & Hu' & Ec). exists u'.
    split; [done|]. split; [apply core_fields in Ec; unfold static; naive_solver|]. clear Ec Hs. revert Hu'.
    assert (HX : (exists e0, e0 ∈ [e] /\ queues_event d e0 x) <-> queues_event d e x).
    { split; [by intros (e0 & ->%list_elem_of_singleton & Q)|]. exists e. split; [left|done]. }
    rewrite HX. clear HX. unfold signal_data, queues_event. rewrite Hv.
    destruct (Z.eqb_spec (SignalCount v) 0) as [H0|H0].
    2:{ intros Hu'. simplify_eq. split; [|naive_solver]. case_decide as E; [|done].
        apply list_elem_of_singleton in E as ->. simplify_eq. by rewrite bump_pos. }
    destruct (count_data_link e d v x u Hv H0 Hu) as (u1 & Hu1 & N1 & G1 & C1). rewrite <- C1, <- N1.
    destruct (has (Type_ v) EVT_NOTIFY_SIGNAL) eqn:HT.
    2:{ intros Hu'. assert (u' = u1) as -> by congruence. split; [done|]. split; [by left|].
        intros [|(w & u'' & ? & _ & _ & F & _)]; [done|]. simplify_eq. congruence. }
    rewrite (sim_signalq _ _ (count_sim e 1 d)).
    destruct (has (ExFlag v) EVT_EXFLAG_EVENT_GROUP) eqn:HG.
    + destruct (notify_list_link (EventGroup v) (gEventSignalQueue d) _ x u1 Hu1) as (u2 & Hu2 & C2 & N2).
      intros Hu'. assert (u' = u2) as -> by congruence. rewrite N2, G1. split; [done|]. split.
      * intros [|[]]; [by left|right]. exists v, u. rewrite HG. done.
      * intros [|(w & u'' & ? & ? & _ & _ & F)]; [by left|right]. simplify_eq. by rewrite HG in F.
    + destruct (notify_data_link e _ x u1 Hu1) as (u2 & Hu2 & C2 & N2).
      intros Hu'. assert (u' = u2) as -> by congruence. rewrite N2. split; [done|]. split.
      * intros [| ->]; [by left|right]. exists v, u. rewrite HG. done.
      * intros [|(w & u'' & ? & ? & _ & _ & F)]; [by left|right]. simplify_eq. by rewrite HG in F.
  - intros [u' Hu']. destruct (sim_lookup _ _ _ _ (symmetry Hs) Hu') as (u & Hu & _). eauto.
Qed.

(** The queues after a walk over the group: the members leave their places
    and stand at the end of the queue of their level, in the order of the
    walk. *)
Definition member (g p : Z) (d : DATA) (x : Z) : bool :=
  match events d !! x with Some v => (EventGroup v =? g) && (NotifyTpl v =? p) | None => false end.

Lemma sim_member d d' g p x : sim d d' -> member g p d' x = member g p d x.
Proof.
  intros H. unfold member. pose proof (sim_events d d' H x) as E.
  destruct (events d' !! x) as [v'|], (events d !! x) as [v|]; try done.
  change (Some (event_core v') = Some (event_core v)) in E. apply (inj Some) in E.
  apply core_fields in E. by destruct E as (_ & _ & _ & -> & _ & -> & _).
Qed.

(** The head of the walk, when it is a member, moves to the end of its queue. *)
Lemma notify_member_queue g p d e v :
  events d !! e = Some v -> EventGroup v = g ->
  queue (notify_data e d) p =
  if member g p d e then filter (fun x => x <> e) (queue d p) ++ [e] else queue d p.
Proof.
  intros Hv Hg. rewrite (notify_data_queue d e v p Hv). unfold member. rewrite Hv.
  destruct (Z.eqb_spec (EventGroup v) g); [|done]. cbn [andb].
  destruct (Z.eqb_spec (NotifyTpl v) p); case_decide; congruence.
Qed.

Lemma notify_list_queue g p l : forall d, NoDup l -> (forall x, x ∈ l -> is_Some (events d !! x)) ->
  queue (notify_list g l d) p =
  filter (fun x => ~ (x ∈ l /\ member g p d x = true)) (queue d p) ++
  filter (fun x => member g p d x = true) l.
Proof.
  induction l as [|e l IH]; intros d Hnd Hl; cbn [notify_list fold_left].
  { rewrite filter_nil, app_nil_r. symmetry. apply filter_all. intros x _. by intros [[]%elem_of_nil _]. }
  apply NoDup_cons in Hnd as [Hne Hnd]. destruct (Hl e) as [v Hv]; [left|].
  assert (Hl' : forall x, x ∈ l -> is_Some (events d !! x)) by (intros; apply Hl; by right).
  destruct (member g p d e) eqn:Hm.
  - assert (Hg : in_group g d e = true).
    { unfold member in Hm. unfold in_group. rewrite Hv in *. by apply andb_true_iff in Hm as [? _]. }
    rewrite Hg. unfold in_group in Hg. rewrite Hv in Hg. apply Z.eqb_eq in Hg.
    fold (notify_list g l (notify_data e d)). pose proof (notify_sim d e) as Hs.
    rewrite IH; [|done|]. 2:{ intros x [u Hu]%Hl'. destruct (sim_lookup _ _ _ _ Hs Hu) as (? & ? & _). eauto. }
    rewrite (notify_member_queue g p d e v Hv Hg), Hm, filter_app.
    rewrite (filter_cons_True _ e []) by naive_solver. rewrite (filter_cons_True _ e l) by done.
    rewrite filter_nil, list_filter_filter, <- app_assoc. cbn [app].
    f_equal; [|f_equal]; apply filter_same; intros x Hx; rewrite ?elem_of_cons, (sim_member d _ _ _ _ Hs); naive_solver.
  - rewrite (filter_cons_False _ e) by congruence.
    assert (Hi : in_group g d e = (EventGroup v =? g)) by (unfold in_group; by rewrite Hv).
    rewrite Hi. destruct (Z.eqb_spec (EventGroup v) g) as [Hg|Hg].
    + fold (notify_list g l (notify_data e d)). pose proof (notify_sim d e) as Hs.
      rewrite IH; [|done|]. 2:{ intros x [u Hu]%Hl'. destruct (sim_lookup _ _ _ _ Hs Hu) as (? & ? & _). eauto. }
      rewrite (notify_member_queue g p d e v Hv Hg), Hm.
      f_equal; apply filter_same; intros x Hx; rewrite ?elem_of_cons, (sim_member d _ _ _ _ Hs); naive_solver congruence.
    + fold (notify_list g l d). rewrite IH by done. f_equal.
      apply filter_same; intros x Hx; rewrite ?elem_of_cons; naive_solver congruence.
Qed.

(** ** Queueing and signalling as runs *)

Lemma upd_link_twice v : upd_NotifyLink true (upd_NotifyLink false v) = upd_NotifyLink true v.
Proof. done. Qed.

Lemma queue_set_events evs d p : queue (set_events evs d) p = queue d p.
Proof. done. Qed.

Section Signal.
Context (cfg : CONFIG) (tot : bool) (cfg_W : W cfg = 32 \/ W cfg = 64).
Local Abbreviation wp_ := (wp tot).

Lemma NotifyEvent_ok e (s : STATE) v :
  wf s -> held gEventQueueLock s -> events s !! e = Some v -> notifying v ->
  CoreNotifyEvent cfg e s = Ok (tt, set_data (notify_data e s) s).
Proof.
  intros H Hh Hv Hn. unfold CoreNotifyEvent. rewrite (Mbind_Ok GetState _ s s s eq_refl).
  rewrite (Mbind_Ok _ _ _ tt s) by (apply ASSERT_true; by apply bool_decide_eq_true).
  assert (El : load e s = Ok (v, s)) by (unfold load; by rewrite Hv). run_step El.
  destruct (e_ok _ (wf_e _ H) e v Hv) as [_ Hok]. destruct (ok_notify _ Hok Hn) as [Ht _].
  assert (Eb : tpl_bit cfg (NotifyTpl v) = Ok (2 ^ NotifyTpl v))
    by (apply tpl_bit_ok; [done|unfold TPL_APPLICATION in *; lia]).
  unfold notify_data. rewrite Hv. destruct (NotifyLink v) eqn:HL.
  - pose proof (q_link _ (wf_q _ H) e v Hv HL) as Hin.
    unfold Mbind, remove_notify. rewrite Hv, decide_True by done.
    unfold update. cbn [events set_queue set_data data]. rewrite Hv.
    cbn [GetState Mget set_data data]. unfold GetState, Mget.
    cbn [set_data data set_events set_queue gEventQueue gEventPending events].
    rewrite Eb. unfold Mdata. cbn [set_data data set_events set_queue events].
    rewrite lookup_insert_eq. unfold set_data. cbn [data gEfiCurrentTpl locks Interrupts].
    rewrite insert_insert_eq. cbn [upd_NotifyLink].
    rewrite queue_set_events, queue_insert, decide_True, insert_insert_eq by done. done.
  - rewrite (Mbind_Ok (Mret tt) _ s tt s eq_refl), (Mbind_Ok GetState _ s s s eq_refl), Eb.
    unfold Mbind, Mdata, update. cbn [set_data data set_queue events]. rewrite Hv.
    rewrite filter_notin; [done|]. intros (v' & Hv' & _ & HL' & _)%(q_live _ (wf_q _ H)).
    congruence.
Qed.

Lemma signal_list_loop_ok g l : forall s : STATE,
  wf s -> held gEventQueueLock s -> Forall (can_notify s) l ->
  signal_list_loop cfg g l s = Ok (tt, set_data (notify_list g l s) s).
Proof.
  induction l as [|e l IH]; intros s H Hh Hl; cbn [signal_list_loop notify_list fold_left].
  { by destruct s. }
  apply Forall_cons in Hl as [(v & Hv & Hn) Hl].
  assert (El : load e s = Ok (v, s)) by (unfold load; by rewrite Hv). run_step El.
  unfold in_group. rewrite Hv. destruct (EventGroup v =? g).
  - run_step (NotifyEvent_ok e s v H Hh Hv Hn). rewrite IH; [done|by eapply notify_wf|done|].
    eapply Forall_impl; [exact Hl|]. intros x. apply sim_can_notify, notify_sim.
  - rewrite (Mbind_Ok (Mret tt) _ s tt s eq_refl). by apply IH.
Qed.

Lemma load_ok e (s : STATE) v : events s !! e = Some v -> load e s = Ok (v, s).
Proof. intros H. unfold load. by rewrite H. Qed.

Lemma update_count e c (s : STATE) v :
  events s !! e = Some v -> update e (upd_SignalCount c) s = Ok (tt, set_data (count_data e c s) s).
Proof. intros H. unfold update, count_data. by rewrite H. Qed.

(** The whole of CoreNotifySignalList when nothing is dispatched. *)
Lemma NotifySignalList_quiet R g (s : STATE) Q :
  quiet_spec tot R -> ctl_ok s -> wf s -> free gEventQueueLock s ->
  TPL_HIGH_LEVEL - 1 <= gEfiCurrentTpl s ->
  (forall s', ctl_equiv s s' -> data s' = notify_list g (gEventSignalQueue s) s -> Q tt s') ->
  wp_ (CoreNotifySignalList cfg R g) Q s.
Proof.
  intros HR Hc Hw Hf Ht HQ. unfold CoreNotifySignalList. apply wp_bind.
  apply acquire_wp; [done|done|apply Hc|]. intros s1 Ha.
  destruct (Ha) as (_ & E1 & _). apply (wp_step _ _ _ _ s1 s1 s1); [done|].
  destruct (notify_list_ok g (gEventSignalQueue s) s Hw (signalq_can_notify _ Hw)) as [Hw' Hs].
  eapply wp_step.
  { apply signal_list_loop_ok; [by rewrite E1|by eapply acquired_held|].
    rewrite E1. by apply signalq_can_notify. }
  cbn beta. rewrite E1.
  apply (release_quiet cfg tot R gEventQueueLock s s1); auto with event; [apply Hc| |].
  - cbn [data set_data]. apply (q_nonneg _ (wf_q _ Hw')).
  - cbn [data set_data]. by apply pending_le_wf.
Qed.

(** CoreSignalEvent at a level from which nothing is dispatched. *)
Lemma SignalEvent_quiet R e (s : STATE) v Q :
  quiet_spec tot R -> ctl_ok s -> wf s -> free gEventQueueLock s ->
  TPL_HIGH_LEVEL - 1 <= gEfiCurrentTpl s -> events s !! e = Some v ->
  (forall s', ctl_equiv s s' -> data s' = signal_data e s -> Q EFI_SUCCESS s') ->
  wp_ (CoreSignalEvent cfg R e) Q s.
Proof.
  intros HR Hc Hw Hf Ht Hv HQ. unfold CoreSignalEvent.
  destruct (e_ok _ (wf_e _ Hw) e v Hv) as [H0 Hok].
  destruct (Z.eqb_spec e 0); [done|]. eapply wp_step; [by apply load_ok|]. cbn beta.
  rewrite (ok_sig _ Hok). cbn [negb Z.eqb]. apply wp_bind.
  apply acquire_wp; [done|done|apply Hc|]. intros s1 Ha. destruct (Ha) as (_ & E1 & _).
  eapply wp_step; [apply load_ok; by rewrite E1|]. cbn beta.
  assert (Hrel : forall s2 d', ctl_equiv s1 s2 -> data s2 = d' -> wf d' -> d' = signal_data e s ->
    wp_ (CoreReleaseEventLock cfg R ;;; Mret EFI_SUCCESS) Q s2).
  { intros s2 d' He Ed Hwd Es. apply wp_bind.
    apply (release_quiet cfg tot R gEventQueueLock s s1); auto with event; [apply Hc|..].
    - rewrite Ed. apply (q_nonneg _ (wf_q _ Hwd)).
    - rewrite Ed. by apply pending_le_wf.
    - intros s3 H3 E3. apply HQ; congruence. }
  destruct (signal_ok e s Hw) as [Hws Hss].
  revert Hrel Hws Hss. unfold signal_data. rewrite Hv. intros Hrel Hws Hss.
  destruct (Z.eqb_spec (SignalCount v) 0) as [Hcnt|].
  2:{ eapply wp_step; [done|]. eapply Hrel; [reflexivity|exact E1|done|done]. }
  rewrite Hcnt. apply wp_bind. eapply wp_step; [eapply update_count; by rewrite E1|]. cbn beta.
  rewrite E1. change (wrapU 32 (0 + 1)) with 1. pose proof (count_wf e 1 s Hw) as Hw1.
  destruct (has (Type_ v) EVT_NOTIFY_SIGNAL) eqn:HT.
  2:{ apply wp_ret. eapply Hrel; [apply set_data_ctl|done|done|done]. }
  destruct (has (ExFlag v) EVT_EXFLAG_EVENT_GROUP) eqn:HG.
  - apply wp_bind. apply (release_quiet cfg tot R gEventQueueLock s s1); auto with event;
      [apply Hc|apply (q_nonneg _ (wf_q _ Hw1))|by apply pending_le_wf|].
    intros s3 H3 E3. cbn [data set_data] in E3.
    destruct (sim_lookup _ _ _ _ (count_sim e 1 s) Hv) as (vg & Hvg & Ec).
    apply core_fields in Ec as (_ & _ & _ & _ & _ & EG & _).
    eapply wp_step; [apply load_ok; by rewrite E3|]. cbn beta. rewrite EG. apply wp_bind.
    apply NotifySignalList_quiet; [done|by eapply ctl_equiv_ok|by rewrite E3|by eapply ctl_equiv_free|
      by rewrite (proj1 H3)|].
    intros s4 H4 E4. rewrite E3 in E4.
    assert (H04 : ctl_equiv s s4) by (by transitivity s3).
    apply acquire_wp; [by eapply ctl_equiv_ok|by eapply ctl_equiv_free|rewrite (proj1 H04); apply Hc|].
    intros s5 Ha5. destruct (Ha5) as (_ & E5 & _). apply wp_bind.
    assert (Ht4 : TPL_HIGH_LEVEL - 1 <= gEfiCurrentTpl s4) by (by rewrite (proj1 H04)).
    apply (release_quiet cfg tot R gEventQueueLock s4 s5); auto with event;
      [by eapply ctl_equiv_ok|by eapply ctl_equiv_free|rewrite (proj1 H04); apply Hc|reflexivity|..].
    + rewrite E5, E4. apply (q_nonneg _ (wf_q _ Hws)).
    + rewrite E5, E4. by apply pending_le_wf.
    + intros s6 H6 E6. apply wp_ret, HQ; [by transitivity s4|]. rewrite E6, E5, E4.
      unfold signal_data. rewrite Hv, Hcnt, HT, HG. done.
  - destruct (sim_lookup _ _ _ _ (count_sim e 1 s) Hv) as (v' & Hv' & Ec).
    assert (Hn' : notifying v').
    { apply signal_notifying. apply core_fields in Ec. naive_solver congruence. }
    eapply wp_eq.
    { eapply NotifyEvent_ok; [done| |exact Hv'|exact Hn'].
      eapply ctl_equiv_held; [apply set_data_ctl|]. by eapply acquired_held. }
    eapply Hrel; [|done|done|done]. by repeat split.
Qed.
End Signal.
