(* ===== verification/EventTimer.v ===== *)
(** * EventTimer: the timer list and the timer check

    Insertion keeps the list sorted; CoreCheckTimers, which runs at
    TPL_HIGH_LEVEL - 1 under the timer lock, dispatches nothing itself and
    keeps the invariant. *)

From stdpp Require Import base option list gmap fin_maps sorting.
From Stdlib Require Import ZArith Lia.
From S2P Require Import Prelude BaseMath EventState Event EventInv EventSafe.

Local Open Scope Z_scope.
Local Open Scope edk_scope.

(** ** Data-level timer operations *)

(** Set the timer fields of an event and the timer list. *)
Definition timer_data (e : Z) (link : bool) (t p : Z) (l : list Z) (d : DATA) : DATA :=
  match events d !! e with
  | Some v => set_events (<[e := upd_Timer link t p v]> (events d)) (set_timers l d)
  | None => d
  end.

Lemma timer_data_lookup e link t p l d v :
  events d !! e = Some v ->
  events (timer_data e link t p l d) = <[e := upd_Timer link t p v]> (events d) /\
  mEfiTimerList (timer_data e link t p l d) = l.
Proof. intros Hv. unfold timer_data. by rewrite Hv. Qed.

Lemma timer_wf_queues e link t p l d v :
  events d !! e = Some v -> wf_queues d -> wf_queues (timer_data e link t p l d).
Proof.
  intros Hv H. unfold timer_data. rewrite Hv.
  constructor; intros *; try apply H; cbn [events set_events set_timers].
  - intros (v' & Hv' & HT)%(q_live _ H). destruct (decide (e0 = e)) as [-> |].
    + rewrite lookup_insert_eq. eexists. split; [done|]. simplify_eq. exact HT.
    + rewrite lookup_insert_ne by done. eauto.
  - destruct (decide (e0 = e)) as [-> |].
    + rewrite lookup_insert_eq. intros [= <-] HL. exact (q_link _ H e v Hv HL).
    + rewrite lookup_insert_ne by done. intros Hv' HL. exact (q_link _ H _ _ Hv' HL).
Qed.

(** A list of live events with some property is still one after the change,
    when the property does not depend on the timer fields. *)
Lemma timer_live (P : IEVENT -> Prop) e link t p d v (e' : Z) :
  events d !! e = Some v -> (P v -> P (upd_Timer link t p v)) ->
  (exists v', events d !! e' = Some v' /\ P v') ->
  exists v', (<[e := upd_Timer link t p v]> (events d)) !! e' = Some v' /\ P v'.
Proof.
  intros Hv HP (v' & Hv' & HT). destruct (decide (e' = e)) as [-> |].
  - rewrite lookup_insert_eq. eexists. split; [done|]. simplify_eq. auto.
  - rewrite lookup_insert_ne by done. eauto.
Qed.

Lemma timer_wf_events e link t p l d v :
  events d !! e = Some v -> inU 64 t -> inU 64 p ->
  (link = true -> has (Type_ v) EVT_TIMER = true) -> wf_events d ->
  wf_events (timer_data e link t p l d).
Proof.
  intros Hv Ht Hp HTy H. unfold timer_data. rewrite Hv.
  assert (HB : forall (Q : IEVENT -> bool) (L : list Z),
    (Q (upd_Timer link t p v) = Q v) ->
    (forall e v, events d !! e = Some v -> Q v = true -> e ∈ L) ->
    forall e' v', (<[e := upd_Timer link t p v]> (events d)) !! e' = Some v' -> Q v' = true -> e' ∈ L).
  { intros Q L EQ HQ e' v'. destruct (decide (e' = e)) as [-> |].
    - rewrite lookup_insert_eq. intros [= <-] HL. apply (HQ e v Hv). congruence.
    - rewrite lookup_insert_ne by done. eauto. }
  constructor; cbn [events set_events set_timers gEventSignalQueue gRuntime_EventHead
    mEfiCheckTimerEvent gIdleLoopEvent]; try apply H.
  - intros e' v'. destruct (decide (e' = e)) as [-> |].
    + rewrite lookup_insert_eq. intros [= <-]. destruct (e_ok _ H e v Hv) as [H0 []].
      split; [done|]. by constructor.
    + rewrite lookup_insert_ne by done. apply (e_ok _ H).
  - intros e' Hin%(s_live _ H).
    by apply (timer_live (fun v => SignalLink v = true /\ has (Type_ v) EVT_NOTIFY_SIGNAL = true)).
  - apply (HB SignalLink); [done|apply (s_link _ H)].
  - intros e' Hin%(r_live _ H). by apply (timer_live (fun v => RuntimeLink v = true)).
  - apply (HB RuntimeLink); [done|apply (r_link _ H)].
  - by apply (timer_live (fun v => has (ExFlag v) EVT_EXFLAG_EVENT_GROUP = false /\
      has (Type_ v) EVT_NOTIFY_SIGNAL = true /\ NotifyTpl v = TPL_HIGH_LEVEL - 1)); [| |apply (check_ok _ H)].
  - destruct (idle_ok _ H) as [v' Hv']. destruct (decide (gIdleLoopEvent d = e)) as [-> |].
    + rewrite lookup_insert_eq. eauto.
    + rewrite lookup_insert_ne by done. eauto.
Qed.

Lemma trigger_other e link t p l d v (x : Z) :
  events d !! e = Some v -> x <> e -> trigger (timer_data e link t p l d) x = trigger d x.
Proof.
  intros Hv Hx. unfold trigger. rewrite (proj1 (timer_data_lookup e link t p l d v Hv)).
  by rewrite lookup_insert_ne.
Qed.
Lemma trigger_same e link t p l d v :
  events d !! e = Some v -> trigger (timer_data e link t p l d) e = t.
Proof.
  intros Hv. unfold trigger. rewrite (proj1 (timer_data_lookup e link t p l d v Hv)).
  by rewrite lookup_insert_eq.
Qed.

(** Sortedness only depends on the triggers of the members. *)
Lemma StronglySorted_in {A} (R R' : A -> A -> Prop) l :
  (forall a b, a ∈ l -> b ∈ l -> R a b -> R' a b) -> StronglySorted R l -> StronglySorted R' l.
Proof.
  intros H Hs. induction Hs as [|x l Hs IH Hx]; constructor.
  - apply IH. intros. apply H; [by right..|done].
  - rewrite Forall_forall in Hx |- *. intros y Hy. apply H; [left|by right|by apply Hx].
Qed.

Lemma sorted_filter {A} (R : A -> A -> Prop) (P : A -> Prop) `{forall x, Decision (P x)} l :
  StronglySorted R l -> StronglySorted R (filter P l).
Proof.
  induction 1 as [|x l Hs IH Hx]; [constructor|]. rewrite filter_cons. case_decide; [|done].
  constructor; [done|]. rewrite Forall_forall in Hx |- *. intros y [_ Hy]%list_elem_of_filter. by apply Hx.
Qed.

(** Taking an event off the timer list (and setting its timer fields). *)
Lemma untimer_wf_timers e t p d v :
  events d !! e = Some v -> wf_timers d ->
  wf_timers (timer_data e false t p (filter (fun x => x <> e) (mEfiTimerList d)) d).
Proof.
  intros Hv H. destruct (timer_data_lookup e false t p (filter (fun x => x <> e) (mEfiTimerList d)) d v Hv)
    as [E1 E2].
  constructor; rewrite ?E1, ?E2.
  - intros e' [Hne Hin]%list_elem_of_filter. rewrite lookup_insert_ne by done. by apply (t_live _ H).
  - intros e' v'. destruct (decide (e' = e)) as [-> |].
    + rewrite lookup_insert_eq. by intros [= <-].
    + rewrite lookup_insert_ne by done. intros Hv' HL. apply list_elem_of_filter.
      split; [done|]. by apply (t_link _ H e' v').
  - apply NoDup_filter, (t_nodup _ H).
  - apply (StronglySorted_in (fun a b => trigger d a <= trigger d b)).
    + intros a b [Ha _]%list_elem_of_filter [Hb _]%list_elem_of_filter.
      by rewrite !(trigger_other e _ _ _ _ d v).
    + apply sorted_filter, (t_sorted _ H).
  - unfold timer_data. rewrite Hv. apply (t_time _ H).
Qed.

Lemma untimer_wf e t p d v :
  events d !! e = Some v -> inU 64 t -> inU 64 p -> wf d ->
  wf (timer_data e false t p (filter (fun x => x <> e) (mEfiTimerList d)) d).
Proof.
  intros Hv Ht Hp [Hq Htm He]. constructor.
  - by eapply timer_wf_queues.
  - by eapply untimer_wf_timers.
  - by eapply timer_wf_events.
Qed.

(** ** Sorted insertion *)

Lemma timer_insert_ok evs T e l :
  (forall x, x ∈ l -> is_Some (evs !! x)) ->
  exists r, timer_insert evs T e l = Some r /\ r ≡ₚ e :: l.
Proof.
  induction l as [|x l IH]; intros Hl; cbn [timer_insert]; [by exists [e]|].
  destruct (Hl x) as [v Hv]; [left|]. rewrite Hv. case_match; [by eexists|].
  destruct IH as (r & -> & Hr); [intros y Hy; apply Hl; by right|].
  exists (x :: r). split; [done|]. rewrite Hr. apply Permutation_swap.
Qed.

Lemma timer_insert_sorted d T e l r :
  e ∉ l -> StronglySorted (fun a b => trigger d a <= trigger d b) l ->
  timer_insert (events d) T e l = Some r ->
  StronglySorted (fun a b => (if decide (a = e) then T else trigger d a) <=
                             (if decide (b = e) then T else trigger d b)) r.
Proof.
  intros He Hs. revert r. induction Hs as [|x l Hs IH Hx]; intros r; cbn [timer_insert].
  { intros [= <-]. repeat constructor. }
  apply not_elem_of_cons in He as [Hex He].
  destruct (events d !! x) as [vx|] eqn:Hvx; [|done].
  assert (Tx : trigger d x = TriggerTime vx) by (unfold trigger; by rewrite Hvx).
  rewrite Forall_forall in Hx. destruct (Z.ltb_spec T (TriggerTime vx)).
  - intros [= <-]. constructor.
    + apply (StronglySorted_in (fun a b => trigger d a <= trigger d b));
        [|constructor; [done|by apply Forall_forall]].
      intros a b Ha Hb. rewrite !decide_False by (intros ->; set_solver). done.
    + apply Forall_forall. intros y Hy. rewrite decide_True by done.
      rewrite decide_False by (intros ->; set_solver).
      apply elem_of_cons in Hy as [-> |Hy]; [lia|]. specialize (Hx y Hy). lia.
  - destruct (timer_insert (events d) T e l) as [r'|] eqn:Er; [|done]. intros [= <-].
    constructor; [by apply IH|]. apply Forall_forall. intros y Hy.
    rewrite (decide_False (P := x = e)) by congruence. case_decide as Ey; [lia|].
    apply Hx. assert (Hp : forall z, z ∈ r' -> z = e \/ z ∈ l).
    { clear -Er. revert r' Er. induction l as [|z l IH]; intros r'; cbn [timer_insert].
      - intros [= <-] y Hy. set_solver.
      - destruct (events d !! z); [|done]. case_match; [intros [= <-]; set_solver|].
        destruct (timer_insert _ _ _ l) as [r''|]; [|done]. intros [= <-] y Hy.
        apply elem_of_cons in Hy as [-> |Hy]; [right; left|].
        destruct (IH r'' eq_refl y Hy); [by left|right; by right]. }
    destruct (Hp y Hy); [done|done].
Qed.

(** Linking an unlinked event at its place. *)
Lemma timer_link_wf e d v r :
  events d !! e = Some v -> TimerLink v = false -> has (Type_ v) EVT_TIMER = true -> wf d ->
  timer_insert (events d) (TriggerTime v) e (mEfiTimerList d) = Some r ->
  wf (timer_data e true (TriggerTime v) (Period v) r d).
Proof.
  intros Hv HL HTy [Hq H He] Er.
  destruct (timer_data_lookup e true (TriggerTime v) (Period v) r d v Hv) as [E1 E2].
  assert (Hne : e ∉ mEfiTimerList d).
  { intros (v' & Hv' & HT)%(t_live _ H). congruence. }
  destruct (timer_insert_ok (events d) (TriggerTime v) e (mEfiTimerList d)) as (r' & Er' & Hr).
  { intros x (v' & Hv' & _)%(t_live _ H). by exists v'. }
  assert (r' = r) as -> by congruence.
  destruct (e_ok _ He e v Hv) as [_ []].
  constructor; [by eapply timer_wf_queues| |by eapply timer_wf_events].
  constructor; rewrite ?E1, ?E2.
  - intros e'. rewrite Hr. intros [-> |Hin]%elem_of_cons.
    + rewrite lookup_insert_eq. by eexists.
    + rewrite lookup_insert_ne by (intros ->; done). by apply (t_live _ H).
  - intros e' v'. rewrite Hr. destruct (decide (e' = e)) as [-> |]; [by left|].
    rewrite lookup_insert_ne by done. intros Hv' HL'. right. by apply (t_link _ H e' v').
  - rewrite Hr. constructor; [done|apply (t_nodup _ H)].
  - pose proof (timer_insert_sorted d _ e _ r Hne (t_sorted _ H) Er) as Hs.
    eapply StronglySorted_ext; [|exact Hs]. intros a b. cbn beta.
    assert (ET : forall x, trigger (timer_data e true (TriggerTime v) (Period v) r d) x =
      if decide (x = e) then TriggerTime v else trigger d x).
    { intros x. case_decide; [subst; by eapply trigger_same|by eapply trigger_other]. }
    by rewrite !ET.
  - unfold timer_data. rewrite Hv. apply (t_time _ H).
Qed.

Lemma timer_ext e link t p l d v : events d !! e = Some v -> ext d (timer_data e link t p l d).
Proof.
  intros Hv. unfold timer_data. rewrite Hv. repeat split. intros e' v' Hv'.
  cbn [events set_events]. destruct (decide (e' = e)) as [-> |].
  - rewrite lookup_insert_eq. eexists. split; [done|]. simplify_eq. by repeat split.
  - rewrite lookup_insert_ne by done. by exists v'.
Qed.

(** ** One turn of the timer check *)

(** Set the trigger time of an unlinked event. *)
Definition retime (e t : Z) (d : DATA) : DATA :=
  timer_data e false t (from_option Period 0 (events d !! e)) (mEfiTimerList d) d.

Definition link_timer (e : Z) (d : DATA) : DATA :=
  match events d !! e with
  | Some v => timer_data e true (TriggerTime v) (Period v)
                (default [] (timer_insert (events d) (TriggerTime v) e (mEfiTimerList d))) d
  | None => d
  end.

(** The effect of the loop body on the expired timer [e]. *)
Definition expire_data (now e : Z) (d : DATA) : DATA :=
  match events d !! e with
  | None => d
  | Some v =>
      let d1 := timer_data e false (TriggerTime v) (Period v)
                  (filter (fun x => x <> e) (mEfiTimerList d)) d in
      let d2 := signal_data e d1 in
      if Period v =? 0 then d2
      else
        let next := wrapU 64 (TriggerTime v + Period v) in
        let d3 := if next <=? now
                  then signal_data (mEfiCheckTimerEvent d) (retime e now d2)
                  else retime e next d2 in
        link_timer e d3
  end.

Lemma filter_not_linked e d v :
  wf_timers d -> events d !! e = Some v -> TimerLink v = false ->
  filter (fun x => x <> e) (mEfiTimerList d) = mEfiTimerList d.
Proof.
  intros H Hv HL. apply filter_notin. intros (v' & Hv' & HL')%(t_live _ H). congruence.
Qed.

Lemma retime_wf e t d v :
  events d !! e = Some v -> TimerLink v = false -> inU 64 t -> wf d -> wf (retime e t d).
Proof.
  intros Hv HL Ht H. unfold retime. rewrite Hv. cbn [from_option].
  rewrite <- (filter_not_linked e d v (wf_t _ H) Hv HL).
  eapply untimer_wf; eauto. by destruct (e_ok _ (wf_e _ H) e v Hv) as [_ []].
Qed.

Lemma link_wf e d v :
  events d !! e = Some v -> TimerLink v = false -> has (Type_ v) EVT_TIMER = true -> wf d ->
  wf (link_timer e d).
Proof.
  intros Hv HL HTy H. unfold link_timer. rewrite Hv.
  destruct (timer_insert_ok (events d) (TriggerTime v) e (mEfiTimerList d)) as (r & Er & _).
  { intros x (v' & Hv' & _)%(t_live _ (wf_t _ H)). by exists v'. }
  rewrite Er. cbn [default from_option]. by eapply timer_link_wf.
Qed.

(** How the event [e] itself looks through the turn. *)
Lemma signal_lookup e d e' v :
  wf d -> events d !! e' = Some v -> exists v', events (signal_data e d) !! e' = Some v' /\
    event_core v' = event_core v /\ (SignalCount v <> 0 -> SignalCount v' <> 0) /\
    (e' = e -> SignalCount v' <> 0).
Proof.
  intros Hw Hv. unfold signal_data.
  assert (HC : forall d1 e1 v1, events d1 !! e' = Some v1 ->
    exists v2, events (notify_data e1 d1) !! e' = Some v2 /\ event_core v2 = event_core v1 /\
      SignalCount v2 = SignalCount v1).
  { intros d1 e1 v1 Hv1. unfold notify_data. destruct (events d1 !! e1) as [w|] eqn:Hw1; [|eauto].
    cbn [events set_events]. destruct (decide (e' = e1)) as [-> |].
    - rewrite lookup_insert_eq. simplify_eq. eauto.
    - rewrite lookup_insert_ne by done. eauto. }
  assert (HL : forall g l d1 v1, events d1 !! e' = Some v1 ->
    exists v2, events (notify_list g l d1) !! e' = Some v2 /\ event_core v2 = event_core v1 /\
      SignalCount v2 = SignalCount v1).
  { intros g l. induction l as [|x l IH]; intros d1 v1 Hv1; cbn [notify_list fold_left]; [eauto|].
    case_match; [|by apply IH]. destruct (HC d1 x v1 Hv1) as (v2 & Hv2 & E2 & F2).
    destruct (IH (notify_data x d1) v2 Hv2) as (v3 & Hv3 & E3 & F3).
    exists v3. split; [done|]. split; congruence. }
  destruct (events d !! e) as [w|] eqn:Hwe; [|exists v; naive_solver].
  destruct (Z.eqb_spec (SignalCount w) 0) as [H0|H0].
  2:{ exists v. split_and!; [done..|]. intros ->. congruence. }
  assert (H1 : exists v1, events (count_data e 1 d) !! e' = Some v1 /\ event_core v1 = event_core v /\
    (SignalCount v <> 0 -> SignalCount v1 <> 0) /\ (e' = e -> SignalCount v1 <> 0)).
  { unfold count_data. rewrite Hwe. cbn [events set_events]. destruct (decide (e' = e)) as [-> |].
    - rewrite lookup_insert_eq. simplify_eq. eexists. by split_and!.
    - rewrite lookup_insert_ne by done. by exists v. }
  destruct H1 as (v1 & Hv1 & E1 & F1 & G1). case_match; [|by exists v1].
  assert (H2 : exists v2, events (if has (ExFlag w) EVT_EXFLAG_EVENT_GROUP
      then notify_list (EventGroup w) (gEventSignalQueue (count_data e 1 d)) (count_data e 1 d)
      else notify_data e (count_data e 1 d)) !! e' = Some v2 /\
      event_core v2 = event_core v1 /\ SignalCount v2 = SignalCount v1).
  { case_match; [by apply HL|by apply HC]. }
  destruct H2 as (v2 & Hv2 & E2 & F2). exists v2. rewrite F2.
  split_and!; [done|congruence|done|done].
Qed.

Lemma timer_data_time e link t p l d : mEfiSystemTime (timer_data e link t p l d) = mEfiSystemTime d.
Proof. unfold timer_data. by destruct (events d !! e). Qed.

(** The new trigger time of a periodic timer that expired. *)
Definition next_trigger (now : Z) (v : IEVENT) : Z :=
  let next := wrapU 64 (TriggerTime v + Period v) in if next <=? now then now else next.

(** What a turn on the expired timer [e] does to event [e']. *)
Definition expire_post (now e e' : Z) (v v' : IEVENT) : Prop :=
  static v v' /\ (SignalCount v <> 0 -> SignalCount v' <> 0) /\ Period v' = Period v /\
  (if decide (e' = e) then
     SignalCount v' <> 0 /\
     (if Period v =? 0 then TimerLink v' = false
      else TimerLink v' = true /\ TriggerTime v' = next_trigger now v)
   else TimerLink v' = TimerLink v /\ TriggerTime v' = TriggerTime v).

Lemma core_static v v' : event_core v' = event_core v ->
  static v v' /\ Period v' = Period v /\ TimerLink v' = TimerLink v /\ TriggerTime v' = TriggerTime v.
Proof. intros E%core_fields. unfold static. naive_solver. Qed.

(** The unlinking and first signalling of the turn. *)
Lemma expire_first e d v :
  wf d -> events d !! e = Some v ->
  let d2 := signal_data e (timer_data e false (TriggerTime v) (Period v)
              (filter (fun x => x <> e) (mEfiTimerList d)) d) in
  wf d2 /\ mEfiTimerList d2 = filter (fun x => x <> e) (mEfiTimerList d) /\
  mEfiCheckTimerEvent d2 = mEfiCheckTimerEvent d /\ mEfiSystemTime d2 = mEfiSystemTime d /\
  gIdleLoopEvent d2 = gIdleLoopEvent d /\
  (forall e' w, events d !! e' = Some w -> exists w', events d2 !! e' = Some w' /\
     static w w' /\ (SignalCount w <> 0 -> SignalCount w' <> 0) /\ Period w' = Period w /\
     TriggerTime w' = TriggerTime w /\
     (if decide (e' = e) then SignalCount w' <> 0 /\ TimerLink w' = false
      else TimerLink w' = TimerLink w)).
Proof.
  intros H Hv. destruct (e_ok _ (wf_e _ H) e v Hv) as [_ []].
  set (d1 := timer_data _ _ _ _ _ d). intros d2.
  assert (Hw1 : wf d1) by by eapply untimer_wf.
  destruct (signal_ok e d1 Hw1) as [Hw2 Hs].
  split_and!; [done|..].
  - unfold d2. rewrite (sim_timers _ _ Hs). by eapply timer_data_lookup.
  - unfold d2. rewrite (sim_check _ _ Hs). unfold d1, timer_data. by rewrite Hv.
  - unfold d2. rewrite (sim_time _ _ Hs). apply timer_data_time.
  - unfold d2. rewrite (sim_idle _ _ Hs). unfold d1, timer_data. by rewrite Hv.
  - intros e' w Hw. pose proof (proj1 (timer_data_lookup e false (TriggerTime v) (Period v)
      (filter (fun x => x <> e) (mEfiTimerList d)) d v Hv)) as E1. fold d1 in E1.
    destruct (decide (e' = e)) as [-> |Hne].
    + simplify_eq. destruct (signal_lookup e d1 e (upd_Timer false (TriggerTime v) (Period v) v) Hw1)
        as (w' & Hw' & Ec & F & G); [by rewrite E1, lookup_insert_eq|].
      exists w'. split; [done|]. apply core_static in Ec. cbn in Ec. naive_solver.
    + destruct (signal_lookup e d1 e' w Hw1) as (w' & Hw' & Ec & F & G);
        [by rewrite E1, lookup_insert_ne|].
      exists w'. split; [done|]. apply core_static in Ec. naive_solver.
Qed.

Lemma check_live d : wf d -> exists v, events d !! mEfiCheckTimerEvent d = Some v.
Proof. intros H. destruct (check_ok _ (wf_e _ H)) as (v & ? & _). eauto. Qed.

(** Rescheduling an unlinked periodic timer. *)
Lemma reschedule_ok (now e : Z) d2 w (next : Z) :
  wf d2 -> events d2 !! e = Some w -> TimerLink w = false -> inU 64 next -> inU 64 now ->
  let d3 := if next <=? now then signal_data (mEfiCheckTimerEvent d2) (retime e now d2)
            else retime e next d2 in
  wf d3 /\ mEfiTimerList d3 = mEfiTimerList d2 /\ mEfiSystemTime d3 = mEfiSystemTime d2 /\
  mEfiCheckTimerEvent d3 = mEfiCheckTimerEvent d2 /\ gIdleLoopEvent d3 = gIdleLoopEvent d2 /\
  (forall e' u, events d2 !! e' = Some u -> exists u', events d3 !! e' = Some u' /\
     static u u' /\ (SignalCount u <> 0 -> SignalCount u' <> 0) /\ Period u' = Period u /\
     TimerLink u' = TimerLink u /\
     TriggerTime u' = if decide (e' = e) then (if next <=? now then now else next) else TriggerTime u).
Proof.
  intros H Hw HL Hn Ht d3.
  assert (HR : forall t, inU 64 t -> wf (retime e t d2) /\ mEfiTimerList (retime e t d2) = mEfiTimerList d2 /\
    mEfiSystemTime (retime e t d2) = mEfiSystemTime d2 /\
    mEfiCheckTimerEvent (retime e t d2) = mEfiCheckTimerEvent d2 /\
    gIdleLoopEvent (retime e t d2) = gIdleLoopEvent d2 /\
    forall e' u, events d2 !! e' = Some u -> exists u', events (retime e t d2) !! e' = Some u' /\
     static u u' /\ (SignalCount u <> 0 -> SignalCount u' <> 0) /\ Period u' = Period u /\
     TimerLink u' = TimerLink u /\ TriggerTime u' = if decide (e' = e) then t else TriggerTime u).
  { intros t Hti. split; [by eapply retime_wf|]. unfold retime, timer_data. rewrite Hw.
    cbn [from_option]. split_and!; [done..|]. intros e' u Hu. cbn [events set_events].
    destruct (decide (e' = e)) as [-> |].
    - rewrite lookup_insert_eq. simplify_eq. eexists. split; [done|]. by repeat split.
    - rewrite lookup_insert_ne by done. exists u. by repeat split. }
  subst d3. destruct (next <=? now); [|by apply HR].
  destruct (HR now Ht) as (Hw3 & E1 & E2 & E3 & E4 & Hev).
  destruct (signal_ok (mEfiCheckTimerEvent d2) _ Hw3) as [Hw4 Hs].
  split_and!; [done|rewrite (sim_timers _ _ Hs)|rewrite (sim_time _ _ Hs)|rewrite (sim_check _ _ Hs)|
    rewrite (sim_idle _ _ Hs)|]; try done.
  intros e' u Hu. destruct (Hev e' u Hu) as (u1 & Hu1 & S1 & F1 & P1 & L1 & T1).
  destruct (signal_lookup (mEfiCheckTimerEvent d2) _ e' u1 Hw3 Hu1) as (u2 & Hu2 & Ec & F2 & _).
  exists u2. split; [done|]. apply core_static in Ec. unfold static in *. naive_solver congruence.
Qed.

Lemma expire_ok now e d v :
  wf d -> inU 64 now -> events d !! e = Some v -> TimerLink v = true ->
  wf (expire_data now e d) /\ ext d (expire_data now e d) /\
  mEfiSystemTime (expire_data now e d) = mEfiSystemTime d /\
  mEfiTimerList (expire_data now e d) ≡ₚ
    (if Period v =? 0 then [] else [e]) ++ filter (fun x => x <> e) (mEfiTimerList d) /\
  (forall e' w, events d !! e' = Some w -> exists w', events (expire_data now e d) !! e' = Some w' /\
     expire_post now e e' w w').
Proof.
  intros H Hnow Hv HLv.
  destruct (expire_first e d v H Hv) as (Hw2 & L2 & C2 & T2 & I2 & Hev2).
  unfold expire_data. rewrite Hv. cbv zeta.
  set (d2 := signal_data e _) in *. destruct (Hev2 e v Hv) as (w2 & Hw2e & S2 & F2 & P2 & Tr2 & Hd2).
  rewrite decide_True in Hd2 by done. destruct Hd2 as [Hc2 Hl2].
  destruct (Z.eqb_spec (Period v) 0) as [HP|HP].
  - rewrite L2. split_and!; [done| |done|done|].
    + repeat split; [|done..]. intros e' w Hw. destruct (Hev2 e' w Hw) as (w' & ? & ? & _). eauto.
    + intros e' w Hw. destruct (Hev2 e' w Hw) as (w' & Hw' & S & F & P & T & D). exists w'.
      split; [done|]. unfold expire_post. split_and!; [done..|]. case_decide; [|naive_solver].
      subst e'. simplify_eq. destruct (Z.eqb_spec (Period v) 0); naive_solver.
  - assert (Hnx : inU 64 (wrapU 64 (TriggerTime v + Period v))) by by apply wrapU_range.
    rewrite <- C2.
    destruct (reschedule_ok now e d2 w2 _ Hw2 Hw2e Hl2 Hnx Hnow) as (Hw3 & L3 & T3 & C3 & I3 & Hev3).
    set (d3 := if _ <=? _ then _ else _) in *.
    destruct (Hev3 e w2 Hw2e) as (w3 & Hw3e & S3 & F3 & P3 & Lk3 & Tr3).
    rewrite decide_True in Tr3 by done. fold (next_trigger now v) in Tr3.
    assert (Hl3 : TimerLink w3 = false) by congruence.
    assert (HTy : has (Type_ w3) EVT_TIMER = true).
    { destruct (e_ok _ (wf_e _ H) e v Hv) as [_ Hok]. pose proof (ok_timer _ Hok HLv).
      unfold static in *. naive_solver congruence. }
    pose proof (link_wf e d3 w3 Hw3e Hl3 HTy Hw3) as Hw4.
    assert (E4 : events (link_timer e d3) = <[e := upd_Timer true (TriggerTime w3) (Period w3) w3]> (events d3) /\
      mEfiTimerList (link_timer e d3) ≡ₚ e :: mEfiTimerList d3 /\
      mEfiSystemTime (link_timer e d3) = mEfiSystemTime d3 /\
      mEfiCheckTimerEvent (link_timer e d3) = mEfiCheckTimerEvent d3 /\
      gIdleLoopEvent (link_timer e d3) = gIdleLoopEvent d3).
    { unfold link_timer, timer_data. rewrite Hw3e. split_and!; [done| |done..]. cbn [mEfiTimerList set_events set_timers].
      destruct (timer_insert_ok (events d3) (TriggerTime w3) e (mEfiTimerList d3)) as (r & -> & Hr); [|done].
      intros x (v' & Hv' & _)%(t_live _ (wf_t _ Hw3)). by exists v'. }
    destruct E4 as (E4 & L4 & T4 & C4 & I4).
    assert (HEV : forall e' w, events d !! e' = Some w ->
      exists w', events (link_timer e d3) !! e' = Some w' /\ expire_post now e e' w w').
    { intros e' w Hw. destruct (Hev2 e' w Hw) as (u & Hu & Su & Fu & Pu & Tu & Du).
      destruct (Hev3 e' u Hu) as (u' & Hu' & Su' & Fu' & Pu' & Lu' & Tu').
      assert (Hst : static w u') by (unfold static in *; naive_solver congruence).
      rewrite E4. destruct (decide (e' = e)) as [-> |Hne].
      - rewrite lookup_insert_eq. eexists. split; [done|]. unfold expire_post.
        rewrite decide_True by done. simplify_eq. destruct (Z.eqb_spec (Period v) 0); [done|].
        cbn [SignalCount Period TimerLink TriggerTime upd_Timer].
        split_and!; [exact Hst|naive_solver|congruence|naive_solver|done|done].
      - rewrite lookup_insert_ne by done. exists u'. split; [done|]. unfold expire_post.
        rewrite decide_False by done. split_and!; [done|naive_solver|congruence|congruence|congruence]. }
    split_and!; [done| |congruence| |exact HEV].
    + repeat split; [|congruence..]. intros e' w Hw. destruct (HEV e' w Hw) as (w' & ? & ? & _). eauto.
    + rewrite L4, L3, L2. done.
Qed.

(** ** The whole check *)

(** What the check at time [now] does to an event. *)
Definition check_post (now : Z) (v v' : IEVENT) : Prop :=
  static v v' /\ (SignalCount v <> 0 -> SignalCount v' <> 0) /\ Period v' = Period v /\
  (if TimerLink v && (TriggerTime v <=? now) then
     SignalCount v' <> 0 /\
     (if Period v =? 0 then TimerLink v' = false
      else TimerLink v' = true /\ now < TriggerTime v')
   else TimerLink v' = TimerLink v /\ TriggerTime v' = TriggerTime v).

Lemma check_post_trans now e e' v v1 v2 :
  TimerLink v && (TriggerTime v <=? now) = true \/ e' <> e ->
  expire_post now e e' v v1 -> check_post now v1 v2 -> check_post now v v2.
Proof.
  intros Hor (S1 & F1 & P1 & D1) (S2 & F2 & P2 & D2). unfold check_post.
  split_and!; [unfold static in *; naive_solver congruence|auto|congruence|].
  rewrite P1 in D2. destruct (decide (e' = e)).
  - destruct Hor as [HE|]; [|done]. rewrite HE. destruct D1 as [C1 D1].
    split; [by apply F2; auto|]. destruct (Period v =? 0).
    + rewrite D1 in D2. cbn [andb] in D2. naive_solver.
    + destruct D1 as [L1 T1]. rewrite L1 in D2. cbn [andb] in D2.
      destruct (Z.leb_spec (TriggerTime v1) now); [naive_solver|].
      destruct D2 as [L2 T2]. split; [done|]. lia.
  - destruct D1 as [L1 T1]. by rewrite L1, T1 in D2.
Qed.

Lemma check_post_refl now v :
  (TimerLink v = true -> now < TriggerTime v) -> check_post now v v.
Proof.
  intros H. unfold check_post. split_and!; [by repeat split|done..|].
  destruct (TimerLink v); cbn [andb]; [|done].
  destruct (Z.leb_spec (TriggerTime v) now); [|done]. specialize (H eq_refl). lia.
Qed.

(** ** Which events the check signals *)

Definition due (now : Z) (v : IEVENT) : bool := TimerLink v && (TriggerTime v <=? now).

(** A periodic timer is due and so is its next tick. *)
Definition missed_tick (now : Z) (v : IEVENT) : Prop :=
  due now v = true /\ Period v <> 0 /\ wrapU 64 (TriggerTime v + Period v) <= now.
Definition missed (now : Z) (d : DATA) : Prop :=
  exists e v, events d !! e = Some v /\ missed_tick now v.

(** The events the check at time [now] signals: the due timers and, when a
    tick was missed, the event of the check itself. *)
Definition raised (now : Z) (d : DATA) (x : Z) : Prop :=
  (exists v, events d !! x = Some v /\ due now v = true) \/ (x = mEfiCheckTimerEvent d /\ missed now d).

(** The events one turn signals. *)
Definition turn_signals (now e : Z) (v : IEVENT) (d : DATA) : list Z :=
  e :: if negb (Period v =? 0) && (wrapU 64 (TriggerTime v + Period v) <=? now)
       then [mEfiCheckTimerEvent d] else [].

Lemma timer_signalled e link t p l d : signalled [] d (timer_data e link t p l d).
Proof.
  unfold timer_data. destruct (events d !! e) as [v|] eqn:Hv; [|apply signalled_refl].
  apply signalled_nil; [..|done]; cbn [events set_events]; intros x.
  - intros u Hu. destruct (decide (x = e)) as [-> |]; [rewrite lookup_insert_eq|rewrite lookup_insert_ne by done];
      simplify_eq; eexists; split; try done; by repeat split.
  - destruct (decide (x = e)) as [-> |]; [by eauto|by rewrite lookup_insert_ne by done].
Qed.

Lemma retime_signalled e t d : signalled [] d (retime e t d).
Proof. apply timer_signalled. Qed.

Lemma link_signalled e d : signalled [] d (link_timer e d).
Proof. unfold link_timer. destruct (events d !! e); [apply timer_signalled|apply signalled_refl]. Qed.

Lemma expire_signalled now e d v :
  wf d -> inU 64 now -> events d !! e = Some v ->
  signalled (turn_signals now e v d) d (expire_data now e d).
Proof.
  intros H Hnow Hv. destruct (expire_first e d v H Hv) as (Hw2 & _ & C2 & _ & _ & Hev2).
  assert (H2 : signalled [e] d (signal_data e (timer_data e false (TriggerTime v) (Period v)
                (filter (fun x => x <> e) (mEfiTimerList d)) d))).
  { eapply (signalled_trans [] [e]); [apply timer_signalled|]. apply signal_signalled.
    - destruct (e_ok _ (wf_e _ H) e v Hv) as [_ []]. by eapply untimer_wf.
    - rewrite (proj1 (timer_data_lookup _ _ _ _ _ _ _ Hv)), lookup_insert_eq. by eexists. }
  unfold expire_data, turn_signals. rewrite Hv. cbv zeta. set (d2 := signal_data e _) in *.
  destruct (Z.eqb_spec (Period v) 0); cbn [negb andb]; [done|].
  destruct (Hev2 e v Hv) as (w & Hw & _ & _ & _ & _ & D). rewrite decide_True in D by done.
  destruct (wrapU 64 (TriggerTime v + Period v) <=? now).
  - apply (signalled_trans [e] [mEfiCheckTimerEvent d] _ d2); [done|].
    assert (Hw3 : wf (retime e now d2)) by (eapply retime_wf; naive_solver).
    apply (signalled_trans [] [mEfiCheckTimerEvent d] _ (retime e now d2)); [apply retime_signalled|].
    apply (signalled_trans [mEfiCheckTimerEvent d] [] _ (signal_data (mEfiCheckTimerEvent d) (retime e now d2)));
      [|apply link_signalled].
    apply signal_signalled; [done|]. destruct (check_live _ Hw3) as [c Hc].
    assert (EC : mEfiCheckTimerEvent (retime e now d2) = mEfiCheckTimerEvent d2)
      by (unfold retime, timer_data; by rewrite Hw).
    rewrite EC, C2 in Hc. by eexists.
  - apply (signalled_trans [e] [] _ d2); [done|].
    apply (signalled_trans [] [] _ (retime e (wrapU 64 (TriggerTime v + Period v)) d2));
      [apply retime_signalled|apply link_signalled].
Qed.

(** What is left to signal after a turn. *)
Lemma expire_raised now e d v x :
  wf d -> inU 64 now -> events d !! e = Some v -> due now v = true ->
  raised now d x <-> x ∈ turn_signals now e v d \/ raised now (expire_data now e d) x.
Proof.
  intros H Hnow Hv Hdue. pose proof (Hdue) as [HL HT]%andb_true_iff. apply Z.leb_le in HT.
  destruct (expire_ok now e d v H Hnow Hv HL) as (_ & (_ & EC & _) & _ & _ & Hev).
  pose proof (sg_live _ _ _ (expire_signalled now e d v H Hnow Hv)) as Hlive.
  set (d1 := expire_data now e d) in *. unfold turn_signals. rewrite elem_of_cons.
  assert (Hother : forall y u u1, y <> e -> events d !! y = Some u -> events d1 !! y = Some u1 ->
    due now u1 = due now u /\ Period u1 = Period u /\ TriggerTime u1 = TriggerTime u).
  { intros y u u1 Hne Hu Hu1. destruct (Hev y u Hu) as (? & ? & _ & _ & EP & D). simplify_eq.
    rewrite decide_False in D by done. destruct D as [ELk ET]. unfold due. by rewrite ELk, ET. }
  assert (Hself : forall u1, events d1 !! e = Some u1 -> due now u1 = true -> missed_tick now v).
  { intros u1 Hu1 [HL1 HT1]%andb_true_iff. destruct (Hev e v Hv) as (? & ? & _ & _ & EP & D). simplify_eq.
    rewrite decide_True in D by done. destruct D as [_ D]. apply Z.leb_le in HT1.
    destruct (Z.eqb_spec (Period v) 0); [congruence|]. destruct D as [_ ET]. split_and!; [done..|].
    unfold next_trigger in ET. destruct (Z.leb_spec (wrapU 64 (TriggerTime v + Period v)) now); lia. }
  assert (Hm : missed now d1 -> missed now d).
  { intros (y & u1 & Hu1 & Hd1 & HP & Hn). destruct (decide (y = e)) as [-> |Hne].
    - exists e, v. split; [done|]. by eapply Hself.
    - destruct (Hlive y ltac:(eauto)) as [u Hu]. destruct (Hother y u u1 Hne Hu Hu1) as (D & P & T).
      exists y, u. unfold missed_tick. by rewrite <- D, <- P, <- T. }
  split.
  - intros [(u & Hu & D)|[-> (y & u & Hu & D & HP & Hn)]].
    + destruct (decide (x = e)) as [-> |Hne]; [by left; left|right; left].
      destruct (Hev x u Hu) as (u1 & Hu1 & _). exists u1. split; [done|].
      by destruct (Hother x u u1 Hne Hu Hu1) as (-> & _).
    + destruct (decide (y = e)) as [-> |Hne].
      * left; right. simplify_eq. apply Z.eqb_neq in HP. apply Z.leb_le in Hn. rewrite HP, Hn. left.
      * right; right. split; [done|]. destruct (Hev y u Hu) as (u1 & Hu1 & _).
        exists y, u1. split; [done|]. destruct (Hother y u u1 Hne Hu Hu1) as (D' & P & T).
        unfold missed_tick. by rewrite D', P, T.
  - intros [[-> |Hx]|[(u1 & Hu1 & D)|[-> Hmiss]]].
    + left. by exists v.
    + right. destruct (Z.eqb_spec (Period v) 0); [by apply elem_of_nil in Hx|]. cbn [negb andb] in Hx.
      destruct (Z.leb_spec (wrapU 64 (TriggerTime v + Period v)) now); [|by apply elem_of_nil in Hx].
      apply list_elem_of_singleton in Hx. split; [done|]. by exists e, v.
    + left. destruct (decide (x = e)) as [-> |Hne]; [by exists v|].
      destruct (Hlive x ltac:(eauto)) as [u Hu]. exists u. split; [done|].
      by destruct (Hother x u u1 Hne Hu Hu1) as (<- & _).
    + right. split; [done|]. by apply Hm.
Qed.

(** The number of turns a timer can still take, when adding its period to
    [now] does not wrap. *)
Definition timer_weight (now : Z) (v : IEVENT) : nat :=
  if TriggerTime v <=? now
  then if (Period v =? 0) || (now <? TriggerTime v + Period v) then 1 else 2
  else 0.
Definition measure (now : Z) (d : DATA) : nat :=
  sum_list_with (fun e => from_option (timer_weight now) 0%nat (events d !! e)) (mEfiTimerList d).
Definition no_wrap (now : Z) (d : DATA) : Prop :=
  forall e v, events d !! e = Some v -> TimerLink v = true -> now + Period v < 2 ^ 64.

Lemma sum_perm (f : Z -> nat) l k : l ≡ₚ k -> sum_list_with f l = sum_list_with f k.
Proof. induction 1; cbn [sum_list_with]; lia. Qed.

Lemma sum_ext (f g : Z -> nat) l :
  (forall x, x ∈ l -> f x = g x) -> sum_list_with f l = sum_list_with g l.
Proof.
  induction l as [|x l IH]; intros H; cbn [sum_list_with]; [done|].
  rewrite H by left. rewrite IH; [done|]. intros y Hy. apply H. by right.
Qed.

Lemma expire_measure now e d v rest :
  wf d -> inU 64 now -> events d !! e = Some v -> mEfiTimerList d = e :: rest ->
  TriggerTime v <= now -> no_wrap now d ->
  (measure now (expire_data now e d) < measure now d)%nat /\ no_wrap now (expire_data now e d).
Proof.
  intros H Hnow Hv HT Hexp Hnw.
  destruct (t_live _ (wf_t _ H) e) as (v0 & Hv0 & HL); [rewrite HT; left|]. simplify_eq.
  destruct (expire_ok now e d v H Hnow Hv HL) as (Hw' & _ & _ & HP & Hev).
  pose proof (t_nodup _ (wf_t _ H)) as Hnd. rewrite HT in Hnd. apply NoDup_cons in Hnd as [Hne Hnd].
  pose proof (Hnw e v Hv HL) as Hb. destruct (e_ok _ (wf_e _ H) e v Hv) as [_ [_ _ _ _ Ht Hp]].
  unfold inU in *. split.
  - unfold measure. rewrite (sum_perm _ _ _ HP), HT, filter_cons_False by auto.
    rewrite filter_notin by done. cbn [sum_list_with]. rewrite Hv. cbn [from_option].
    rewrite sum_list_with_app.
    rewrite (sum_ext _ (fun e0 => from_option (timer_weight now) 0%nat (events d !! e0)) rest).
    2:{ intros x Hx. destruct (t_live _ (wf_t _ H) x) as (w & Hw & _); [rewrite HT; by right|].
        destruct (Hev x w Hw) as (w' & Hw'' & _ & _ & P & D). rewrite Hw, Hw''.
        cbn [from_option]. rewrite decide_False in D by (intros ->; done).
        unfold timer_weight. destruct D as [_ ->]. by rewrite P. }
    destruct (Hev e v Hv) as (w & Hw & _ & _ & P & D). rewrite decide_True in D by done.
    destruct D as [_ D].
    assert (HWv : timer_weight now v =
      if (Period v =? 0) || (now <? TriggerTime v + Period v) then 1%nat else 2%nat).
    { unfold timer_weight. by destruct (Z.leb_spec (TriggerTime v) now); [|lia]. }
    rewrite HWv. generalize (sum_list_with (fun e0 => from_option (timer_weight now) 0%nat
      (events d !! e0)) rest). intros n.
    destruct (Z.eqb_spec (Period v) 0) as [HP0|HP0]; [cbn [sum_list_with orb]; lia|].
    cbn [sum_list_with orb]. rewrite Hw. cbn [from_option]. unfold timer_weight.
    destruct D as [_ ->]. rewrite P. unfold next_trigger. rewrite wrapU_id by (unfold inU; lia).
    destruct (Z.leb_spec (TriggerTime v + Period v) now).
    + rewrite Z.leb_refl. destruct (Z.eqb_spec (Period v) 0); [done|].
      destruct (Z.ltb_spec now (now + Period v)); [|lia].
      destruct (Z.ltb_spec now (TriggerTime v + Period v)); cbn [orb]; lia.
    + destruct (Z.leb_spec (TriggerTime v + Period v) now); [lia|].
      destruct (Z.ltb_spec now (TriggerTime v + Period v)); lia.
  - intros x w' Hw'x HLx. destruct (events d !! x) as [w|] eqn:Hw.
    + destruct (Hev x w Hw) as (w2 & Hw2 & _ & _ & P & D). simplify_eq. rewrite P.
      apply (Hnw x w Hw). destruct (decide (x = e)) as [-> |]; [congruence|]. naive_solver congruence.
    + exfalso. pose proof (t_link _ (wf_t _ Hw') x w' Hw'x HLx) as Hin. rewrite HP in Hin.
      apply elem_of_app in Hin as [Hin|[_ Hin]%list_elem_of_filter].
      * case_match; [by apply elem_of_nil in Hin|]. apply list_elem_of_singleton in Hin. congruence.
      * destruct (t_live _ (wf_t _ H) x Hin) as (? & ? & _). congruence.
Qed.

(** ** The timer functions as runs *)

Section TimerRuns.
Context (cfg : CONFIG) (tot : bool) (cfg_W : W cfg = 32 \/ W cfg = 64).
Context (R : Z -> M STATE unit) (HR : quiet_spec tot R).
Local Abbreviation wp_ := (wp tot).

Lemma CurrentSystemTime_quiet (s : STATE) Q :
  ctl_ok s -> wf s -> free mEfiSystemTimeLock s -> pending_le s (gEfiCurrentTpl s) ->
  (forall s', ctl_equiv s s' -> data s' = data s -> Q (mEfiSystemTime s) s') ->
  wp_ (CoreCurrentSystemTime cfg R) Q s.
Proof.
  intros Hc Hw Hf Hp HQ. unfold CoreCurrentSystemTime. apply wp_bind.
  apply acquire_wp; [done|done|apply Hc|]. intros s1 Ha. destruct (Ha) as (_ & E1 & _).
  apply (wp_step _ _ _ _ s1 s1 s1); [done|]. apply wp_bind.
  apply (release_quiet cfg tot R mEfiSystemTimeLock s s1); auto with event;
    [apply Hc|reflexivity|rewrite E1; apply (q_nonneg _ (wf_q _ Hw))|by rewrite E1|].
  intros s3 H3 E3. apply wp_ret. rewrite E1. apply HQ; congruence.
Qed.

Lemma InsertEventTimer_ok e (s : STATE) v :
  wf s -> held mEfiTimerLock s -> events s !! e = Some v ->
  CoreInsertEventTimer cfg e s = Ok (tt, set_data (link_timer e s) s).
Proof.
  intros Hw Hh Hv. unfold CoreInsertEventTimer. rewrite (Mbind_Ok GetState _ s s s eq_refl).
  rewrite (Mbind_Ok _ _ _ tt s) by (apply ASSERT_true; by apply bool_decide_eq_true).
  run_step (load_ok e s v Hv). unfold link_timer. rewrite Hv.
  destruct (timer_insert_ok (events s) (TriggerTime v) e (mEfiTimerList s)) as (r & -> & _).
  { intros x (v' & Hv' & _)%(t_live _ (wf_t _ Hw)). by exists v'. }
  unfold Mbind, Mdata, update, timer_data. cbn [set_data data set_timers events].
  by rewrite Hv.
Qed.

Lemma update_timer e link t p (s : STATE) v :
  events s !! e = Some v ->
  update e (upd_Timer link t p) s = Ok (tt, set_data (timer_data e link t p (mEfiTimerList s) s) s).
Proof. intros H. unfold update, timer_data. rewrite H. by destruct s as [? ? ? []]. Qed.

(** Unlinking: RemoveEntryList and the reset of the link. *)
Lemma unlink_ok e t p (s : STATE) v (k : M STATE unit) Q :
  events s !! e = Some v -> e ∈ mEfiTimerList s ->
  wp_ k Q (set_data (timer_data e false t p (filter (fun x => x <> e) (mEfiTimerList s)) s) s) ->
  wp_ (remove_timer e ;;; update e (upd_Timer false t p) ;;; k) Q s.
Proof.
  intros Hv Hin Hk. eapply wp_step; [unfold remove_timer; by rewrite decide_True|]. cbn beta.
  eapply wp_step; [|exact Hk]. unfold update, timer_data. cbn [set_data data set_timers events].
  by rewrite Hv.
Qed.

Lemma reschedule_run e (s : STATE) w now Q :
  ctl_ok s -> wf s -> free gEventQueueLock s -> held mEfiTimerLock s ->
  TPL_HIGH_LEVEL - 1 <= gEfiCurrentTpl s -> inU 64 now ->
  events s !! e = Some w -> TimerLink w = false -> Period w <> 0 ->
  let next := wrapU 64 (TriggerTime w + Period w) in
  let d3 := if next <=? now then signal_data (mEfiCheckTimerEvent s) (retime e now s)
            else retime e next s in
  (forall s', ctl_equiv s s' -> data s' = link_timer e d3 -> Q tt s') ->
  wp_ (if Period w =? 0 then Mret tt
       else (if next <=? now then
               update e (upd_Timer (TimerLink w) now (Period w)) ;;;
               let! s1 := GetState in
               CoreSignalEvent cfg R (mEfiCheckTimerEvent s1) ;;; Mret tt
             else update e (upd_Timer (TimerLink w) next (Period w))) ;;;
            CoreInsertEventTimer cfg e) Q s.
Proof.
  intros Hc Hw Hf Hh Ht Hnow Hv HL HP next d3 HQ.
  destruct (Z.eqb_spec (Period w) 0); [done|]. rewrite HL. apply wp_bind.
  assert (Hnx : inU 64 next) by by apply wrapU_range.
  destruct (reschedule_ok now e s w next Hw Hv HL Hnx Hnow) as (Hw3 & _ & _ & _ & _ & Hev).
  fold d3 in Hw3, Hev. destruct (Hev e w Hv) as (w3 & Hw3e & _).
  assert (HI : forall s3, ctl_equiv s s3 -> data s3 = d3 -> wp_ (CoreInsertEventTimer cfg e) Q s3).
  { intros s3 H3 E3. eapply wp_eq.
    - apply (InsertEventTimer_ok e s3 w3); [by rewrite E3|by eapply ctl_equiv_held|by rewrite E3].
    - apply HQ; [|by rewrite E3]. transitivity s3; [done|apply set_data_ctl]. }
  assert (HRT : forall t, timer_data e false t (Period w) (mEfiTimerList s) s = retime e t s)
    by (intros t; unfold retime; by rewrite Hv).
  subst d3. destruct (next <=? now).
  - eapply wp_step; [by eapply update_timer|]. cbn beta. rewrite HRT.
    eapply wp_step; [done|]. cbn beta. apply wp_bind.
    assert (Hw1 : wf (retime e now s)) by by eapply retime_wf.
    assert (EC : mEfiCheckTimerEvent (retime e now s) = mEfiCheckTimerEvent s)
      by (unfold retime, timer_data; by rewrite Hv).
    destruct (check_live _ Hw1) as [c Hcl]. cbn [set_data data]. rewrite EC in Hcl |- *.
    eapply SignalEvent_quiet; eauto with event.
  - eapply wp_eq; [by eapply update_timer|]. rewrite HRT. apply HI; [apply set_data_ctl|done].
Qed.

(** One turn of the loop on an expired head. *)
Lemma check_turn fuel now (s : STATE) e rest v Q :
  ctl_ok s -> wf s -> free gEventQueueLock s -> held mEfiTimerLock s ->
  TPL_HIGH_LEVEL - 1 <= gEfiCurrentTpl s -> inU 64 now ->
  mEfiTimerList s = e :: rest -> events s !! e = Some v -> TriggerTime v <= now ->
  (forall s', ctl_equiv s s' -> data s' = expire_data now e s ->
     wp_ (check_timers_loop cfg R fuel now) Q s') ->
  wp_ (check_timers_loop cfg R (S fuel) now) Q s.
Proof.
  intros Hc Hw Hf Hh Ht Hnow HT Hv Hexp HQ. cbn [check_timers_loop].
  apply (wp_step _ _ _ _ s s s); [done|]. cbn beta. rewrite HT.
  eapply wp_step; [by apply load_ok|]. cbn beta.
  destruct (Z.ltb_spec now (TriggerTime v)); [lia|].
  destruct (e_ok _ (wf_e _ Hw) e v Hv) as [_ Hok]. destruct (Hok).
  eapply unlink_ok; [done|rewrite HT; left|].
  destruct (expire_first e s v Hw Hv) as (Hw2 & L2 & C2 & T2 & I2 & Hev2).
  set (d1 := timer_data _ _ _ _ _ _) in *.
  assert (Hw1 : wf d1) by by eapply untimer_wf.
  assert (Hd1 : exists v1, events d1 !! e = Some v1).
  { unfold d1. rewrite (proj1 (timer_data_lookup _ _ _ _ _ _ _ Hv)), lookup_insert_eq. eauto. }
  destruct Hd1 as [v1 Hv1].
  apply wp_bind. eapply SignalEvent_quiet; eauto with event.
  intros s2 H2 E2. cbn [data set_data] in E2.
  assert (H02 : ctl_equiv s s2) by (transitivity (set_data d1 s); [apply set_data_ctl|done]).
  destruct (Hev2 e v Hv) as (w & Hwe & S2 & F2 & P2 & Tr2 & Hd2).
  rewrite decide_True in Hd2 by done. destruct Hd2 as [_ HL]. rewrite <- E2 in Hwe, Hw2, C2.
  eapply wp_step; [by apply load_ok|]. cbn beta. apply wp_bind.
  assert (HE : expire_data now e s = if Period w =? 0 then data s2 else
     link_timer e (if wrapU 64 (TriggerTime w + Period w) <=? now
                   then signal_data (mEfiCheckTimerEvent s2) (retime e now s2)
                   else retime e (wrapU 64 (TriggerTime w + Period w)) s2)).
  { unfold expire_data. rewrite Hv, P2, Tr2, C2, E2. done. }
  destruct (decide (Period w = 0)) as [HP|HP].
  - rewrite HP in HE |- *. cbn [Z.eqb] in *. apply wp_ret, HQ; congruence.
  - eapply reschedule_run; eauto with event; [by rewrite (proj1 H02)|].
    intros s3 H3 E3. apply HQ; [by transitivity s2|]. rewrite E3, HE.
    by destruct (Z.eqb_spec (Period w) 0).
Qed.

(** The whole loop: it never fails; it stops when no listed timer is due,
    and it does stop when no rescheduled trigger time wraps. *)
Lemma check_loop_ok fuel now : forall s : STATE,
  ctl_ok s -> wf s -> free gEventQueueLock s -> held mEfiTimerLock s ->
  TPL_HIGH_LEVEL - 1 <= gEfiCurrentTpl s -> inU 64 now ->
  (tot = true -> no_wrap now s /\ (measure now s < fuel)%nat) ->
  wp_ (check_timers_loop cfg R fuel now) (fun _ s' => ctl_equiv s s' /\ wf s' /\ ext s s' /\
    mEfiSystemTime s' = mEfiSystemTime s /\
    Forall (fun e => now < trigger s' e) (mEfiTimerList s') /\
    (forall e v, events s !! e = Some v -> exists v', events s' !! e = Some v' /\ check_post now v v') /\
    (exists L, signalled L s s' /\ forall x, x ∈ L <-> raised now s x)) s.
Proof.
  induction fuel as [|fuel IH]; intros s Hc Hw Hf Hh Ht Hnow Htot.
  { unfold wp. cbn. destruct tot; [|done]. destruct (Htot eq_refl). lia. }
  assert (Hdone : Forall (fun e => now < trigger s e) (mEfiTimerList s) ->
    ctl_equiv s s /\ wf s /\ ext s s /\ mEfiSystemTime s = mEfiSystemTime s /\
    Forall (fun e => now < trigger s e) (mEfiTimerList s) /\
    (forall e v, events s !! e = Some v -> exists v', events s !! e = Some v' /\ check_post now v v') /\
    (exists L, signalled L s s /\ forall x, x ∈ L <-> raised now s x)).
  { intros HF. assert (HN : forall e v, events s !! e = Some v -> TimerLink v = true -> now < TriggerTime v).
    { intros e v Hv HL. rewrite Forall_forall in HF.
      specialize (HF e (t_link _ (wf_t _ Hw) e v Hv HL)). unfold trigger in HF. by rewrite Hv in HF. }
    assert (HD : forall e v, events s !! e = Some v -> due now v = true -> False).
    { intros e v Hv [HL HT]%andb_true_iff. apply Z.leb_le in HT. specialize (HN e v Hv HL). lia. }
    split_and!; [done..| |].
    - intros e v Hv. exists v. split; [done|]. apply check_post_refl. by eapply HN.
    - exists []. split; [apply signalled_refl|]. intros x. split; [by intros []%elem_of_nil|].
      intros [(v & Hv & D)|[_ (e & v & Hv & D & _)]]; by destruct (HD _ _ Hv D). }
  destruct (mEfiTimerList s) as [|e rest] eqn:HT.
  { cbn [check_timers_loop]. apply (wp_step _ _ _ _ s s s); [done|]. cbn beta. rewrite HT.
    apply wp_ret. rewrite HT. by apply Hdone. }
  destruct (t_live _ (wf_t _ Hw) e) as (v & Hv & HL); [rewrite HT; left|].
  destruct (Z.ltb_spec now (TriggerTime v)) as [Hlt|Hge].
  { cbn [check_timers_loop]. apply (wp_step _ _ _ _ s s s); [done|]. cbn beta. rewrite HT.
    eapply wp_step; [by apply load_ok|]. cbn beta. destruct (Z.ltb_spec now (TriggerTime v)); [|lia].
    apply wp_ret. rewrite HT. apply Hdone.
    pose proof (t_sorted _ (wf_t _ Hw)) as Hs. rewrite HT in Hs. inversion Hs as [|? ? _ Hall]; subst.
    assert (Tv : trigger s e = TriggerTime v) by (unfold trigger; by rewrite Hv).
    constructor; [lia|]. eapply Forall_impl; [exact Hall|]. cbn beta. intros. lia. }
  destruct (expire_ok now e s v Hw Hnow Hv HL) as (Hw' & Hx & HTm & HP & Hev).
  eapply check_turn; eauto. intros s' H' E'.
  eapply wp_mono; [apply (IH s')|]; eauto with event; rewrite ?E'; auto.
  - by rewrite (proj1 H').
  - intros Et. destruct (Htot Et) as [Hnw Hm].
    destruct (expire_measure now e s v rest Hw Hnow Hv HT Hge Hnw). split; [done|lia].
  - intros [] s2 (H2 & Hw2 & Hx2 & HTm2 & HF2 & Hev2 & L2 & HS2 & HL2).
    assert (Hd : due now v = true) by (apply andb_true_iff; split; [done|by apply Z.leb_le]).
    split_and!; [by transitivity s'|done|by etransitivity|congruence|done| |].
    2:{ exists (turn_signals now e v s ++ L2). split.
        - eapply signalled_trans; [by apply expire_signalled|done].
        - intros x. rewrite elem_of_app, HL2. symmetry. by apply expire_raised. }
    intros e' w Hwe. destruct (Hev e' w Hwe) as (w1 & Hw1 & Q1).
    destruct (Hev2 e' w1 Hw1) as (w2 & Hw2' & Q2). exists w2. split; [done|].
    eapply check_post_trans; [|exact Q1|exact Q2].
    destruct (decide (e' = e)) as [-> |]; [left|by right]. simplify_eq. rewrite HL. cbn [andb].
    by apply Z.leb_le.
Qed.
End TimerRuns.
