(* ===== verification/EventDispatch.v ===== *)
(** * EventDispatch: lowering the TPL and dispatching notifications

    The invariant of running tasks, and that every service and
    CoreRestoreTpl keep it, for any notification functions that do. *)

From stdpp Require Import base option list gmap fin_maps sorting.
From Stdlib Require Import ZArith Lia.
From S2P Require Import Prelude BaseMath EventState Event EventInv EventSafe EventTimer.

Local Open Scope Z_scope.
Local Open Scope edk_scope.

(** ** Tasks *)

Definition all_free (s : STATE) : Prop := forall l, free l s.

(** The state in which firmware code runs at its TPL: no lock of the core is
    held, the data is consistent, and no notification above the current
    level is waiting. *)
Record task (s : STATE) : Prop := {
  task_ctl : ctl_ok s;
  task_wf : wf s;
  task_free : all_free s;
  task_settled : pending_le s (gEfiCurrentTpl s)
}.

(** From task to task at the same level, with all events still there. *)
Definition task_step (s s' : STATE) : Prop :=
  task s' /\ gEfiCurrentTpl s' = gEfiCurrentTpl s /\ ext s s'.

Lemma task_step_refl s : task s -> task_step s s.
Proof. intros H. by split_and!. Qed.

Lemma task_step_trans s1 s2 s3 : task_step s1 s2 -> task_step s2 s3 -> task_step s1 s3.
Proof.
  intros (_ & E1 & X1) (T2 & E2 & X2). split_and!; [done|congruence|by etransitivity].
Qed.

(** What lowering the TPL to [t] promises in general. *)
Definition restore_spec (tot : bool) (R : Z -> M STATE unit) : Prop :=
  forall t s, ctl_ok s -> wf s -> all_free s -> 0 <= t <= gEfiCurrentTpl s ->
  wp tot (R t) (fun _ s' => task s' /\ gEfiCurrentTpl s' = t /\ ext s s') s.

(** The contract of notification functions: called in a task state, they
    return to one at the same level and close no event (and like all code
    here, they do not fail an ASSERT or fault). *)
Definition notify_spec (tot : bool) (Notify : nat -> Z -> M STATE unit) : Prop :=
  forall n e s, task s -> wp tot (Notify n e) (fun _ s' => task_step s s') s.

(** Holding the event lock, taken at level [p]. *)
Record locked (p : Z) (s : STATE) : Prop := {
  locked_ctl : ctl_ok s;
  locked_wf : wf s;
  locked_tpl : gEfiCurrentTpl s = TPL_HIGH_LEVEL;
  locked_lock : locks s gEventQueueLock = mkLock TPL_HIGH_LEVEL p EfiLockAcquired;
  locked_free l : l <> gEventQueueLock -> free l s
}.

Lemma locked_held p s : locked p s -> held gEventQueueLock s.
Proof. intros H. unfold held. by rewrite (locked_lock _ _ H). Qed.

Lemma locked_data p s d : locked p s -> wf d -> locked p (set_data d s).
Proof. intros [] Hd. by constructor. Qed.

(** ** Taking an event off its queue *)

Definition pop_data (e : Z) (d : DATA) : DATA :=
  match events d !! e with
  | None => d
  | Some v =>
      set_events (<[e := upd_NotifyLink false v]> (events d))
        (set_queue (<[NotifyTpl v := filter (fun x => x <> e) (queue d (NotifyTpl v))]> (gEventQueue d))
           (gEventPending d) d)
  end.

Lemma pop_queue d e v p :
  events d !! e = Some v ->
  queue (pop_data e d) p =
  if decide (p = NotifyTpl v) then filter (fun x => x <> e) (queue d p) else queue d p.
Proof.
  intros Hv. unfold pop_data. rewrite Hv. unfold queue at 1.
  cbn [gEventQueue set_events set_queue]. case_decide as E.
  - rewrite E. by rewrite lookup_insert_eq.
  - by rewrite lookup_insert_ne.
Qed.

Lemma pop_events d e v :
  events d !! e = Some v -> events (pop_data e d) = <[e := upd_NotifyLink false v]> (events d).
Proof. intros Hv. unfold pop_data. by rewrite Hv. Qed.

Lemma pop_pending d e : gEventPending (pop_data e d) = gEventPending d.
Proof. unfold pop_data. by destruct (events d !! e). Qed.

Lemma pop_sim d e : sim d (pop_data e d).
Proof.
  unfold pop_data. destruct (events d !! e) as [v|] eqn:Hv; [|reflexivity].
  constructor; try done. intros e'. by eapply core_insert.
Qed.

Lemma pop_wf d e v : wf d -> events d !! e = Some v -> wf (pop_data e d).
Proof.
  intros H Hv. eapply sim_wf; [apply pop_sim| |done]. destruct H as [Hq _ _].
  constructor.
  - intros e' p. rewrite (pop_queue d e v p Hv), (pop_events d e v Hv).
    assert (He : e' ∈ (if decide (p = NotifyTpl v) then filter (fun x => x <> e) (queue d p) else queue d p)
      -> e' <> e /\ e' ∈ queue d p).
    { case_decide as E; [by intros []%list_elem_of_filter|]. intros Hin. split; [|done].
      intros ->. apply E. by eapply wf_queue_lookup. }
    intros [Hne Hin]%He. rewrite lookup_insert_ne by done. by apply (q_live _ Hq).
  - intros e' v'. rewrite (pop_events d e v Hv), (pop_queue d e v _ Hv).
    destruct (decide (e' = e)) as [-> |Hne]; [rewrite lookup_insert_eq; by intros [= <-]|].
    rewrite lookup_insert_ne by done. intros Hv' HL. pose proof (q_link _ Hq e' v' Hv' HL).
    case_decide; [|done]. by apply list_elem_of_filter.
  - intros p. rewrite (pop_queue d e v p Hv). pose proof (q_nodup _ Hq p).
    case_decide; [by apply NoDup_filter|done].
  - intros p. rewrite (pop_queue d e v p Hv), pop_pending. intros Hp. apply (q_pending _ Hq).
    intros E. apply Hp. rewrite E. by case_decide.
  - intros p. rewrite pop_pending. apply (q_mask _ Hq).
  - rewrite pop_pending. apply (q_nonneg _ Hq).
Qed.

(** The dispatcher also resets the count of SIGNAL events. *)
Definition take_data (e : Z) (v : IEVENT) (d : DATA) : DATA :=
  if has (Type_ v) EVT_NOTIFY_SIGNAL then count_data e 0 (pop_data e d) else pop_data e d.

Lemma take_ok d e v :
  wf d -> events d !! e = Some v ->
  wf (take_data e v d) /\ sim d (take_data e v d) /\
  gEventPending (take_data e v d) = gEventPending d /\
  (forall p, queue (take_data e v d) p = queue (pop_data e d) p).
Proof.
  intros H Hv. pose proof (pop_wf d e v H Hv) as Hw. pose proof (pop_sim d e) as Hs.
  unfold take_data. case_match.
  - split_and!; [by apply count_wf|etransitivity; [exact Hs|apply count_sim]|
      rewrite count_pending; apply pop_pending|intros; apply count_queue].
  - split_and!; [done|done|apply pop_pending|done].
Qed.

(** ** Clearing the pending bit of an empty queue *)

Definition clear_data (W_ p : Z) (d : DATA) : DATA :=
  set_queue (gEventQueue d) (Z.land (gEventPending d) (c_not W_ (2 ^ p))) d.

Lemma clear_bit W_ p d q :
  W_ = 32 \/ W_ = 64 -> wf d -> 0 <= p < TPL_HIGH_LEVEL ->
  Z.testbit (gEventPending (clear_data W_ p d)) q =
  Z.testbit (gEventPending d) q && negb (bool_decide (q = p)).
Proof.
  intros HW H Hp. unfold TPL_HIGH_LEVEL in *. unfold clear_data. cbn [gEventPending set_queue].
  unfold c_not. rewrite Z.land_spec, testbit_wrapU by lia.
  destruct (Z.testbit (gEventPending d) q) eqn:E; [|done].
  apply (q_mask _ (wf_q _ H)) in E. unfold TPL_APPLICATION, TPL_HIGH_LEVEL in E.
  rewrite Z.lnot_spec, testbit_pow2 by lia. destruct (Z.ltb_spec q W_); [done|lia].
Qed.

Lemma clear_wf W_ p d :
  W_ = 32 \/ W_ = 64 -> wf d -> 0 <= p < TPL_HIGH_LEVEL -> queue d p = [] -> wf (clear_data W_ p d).
Proof.
  intros HW H Hp HQ. apply (sim_wf d); [by constructor| |done]. pose proof (wf_q _ H) as Hq.
  constructor; try apply Hq.
  - intros q Hne. rewrite clear_bit by done. rewrite (q_pending _ Hq) by done.
    rewrite bool_decide_false; [done|]. intros ->. by apply Hne.
  - intros q. rewrite clear_bit by done. intros [E _]%andb_true_iff. by apply (q_mask _ Hq).
  - unfold clear_data. cbn [gEventPending set_queue]. apply Z.land_nonneg. left. apply (q_nonneg _ Hq).
Qed.

(** ** Lock sections of tasks *)

Section Dispatch.
Context (cfg : CONFIG) (Notify : nat -> Z -> M STATE unit) (tot : bool).
Context (cfg_W : W cfg = 32 \/ W cfg = 64).
Local Abbreviation wp_ := (wp tot).

Lemma task_acquire (s : STATE) Q :
  task s -> (forall s', locked (gEfiCurrentTpl s) s' -> data s' = data s -> Q tt s') ->
  wp_ (CoreAcquireEventLock cfg) Q s.
Proof.
  intros [Hc Hw Hf Hp] HQ. apply acquire_wp; [done|done|apply Hc|]. intros s' Ha.
  pose proof (acquired_ok _ _ _ Hc Ha). destruct (Ha) as (Ht & Ed & Hk & Ho).
  apply HQ; [|done]. constructor; [done|by rewrite Ed|done|done|].
  intros l Hl. by eapply acquired_free.
Qed.

Lemma release_run R p (s : STATE) Q :
  locked p s ->
  wp_ (R p) Q (set_lock gEventQueueLock (mkLock TPL_HIGH_LEVEL p EfiLockReleased) s) ->
  wp_ (CoreReleaseEventLock cfg R) Q s.
Proof.
  intros HL HR. unfold CoreReleaseEventLock, CoreReleaseLock.
  apply (wp_step _ _ _ _ s s s); [done|].
  eapply wp_step; [apply ASSERT_true; apply bool_decide_eq_true; by eapply locked_held|]. cbn beta.
  eapply wp_step; [done|]. cbn beta. by rewrite (locked_lock _ _ HL).
Qed.

Lemma unlocked_state p s :
  locked p s -> let s' := set_lock gEventQueueLock (mkLock TPL_HIGH_LEVEL p EfiLockReleased) s in
  ctl_ok s' /\ all_free s' /\ data s' = data s /\ gEfiCurrentTpl s' = TPL_HIGH_LEVEL.
Proof.
  intros [[Hc Hl] Hw Ht Hk Hf] s'. split_and!; [split; [done|]|..|done|done]; intros l.
  - unfold s'. cbn [locks set_lock]. case_decide; [by subst|apply Hl].
  - unfold free, s'. cbn [locks set_lock]. case_decide; [by subst|by apply Hf].
Qed.

(** Releasing the event lock of a task section, with dispatch. *)
Lemma task_release R p (s : STATE) Q :
  restore_spec tot R -> locked p s -> 0 <= p <= TPL_HIGH_LEVEL ->
  (forall s', task s' -> gEfiCurrentTpl s' = p -> ext s s' -> Q tt s') ->
  wp_ (CoreReleaseEventLock cfg R) Q s.
Proof.
  intros HR HL Hp HQ. apply (release_run R p); [done|].
  destruct (unlocked_state p s HL) as (Hc & Hf & Ed & Ht). pose proof (locked_wf _ _ HL) as Hw.
  eapply wp_mono; [apply HR; [done|by rewrite Ed|done|by rewrite Ht]|].
  intros [] s' (HT & Et & Hx). apply HQ; [done..|]. by rewrite Ed in Hx.
Qed.

(** Releasing it when nothing is due. *)
Lemma task_release_quiet R p (s : STATE) Q :
  quiet_spec tot R -> locked p s -> 0 <= p <= TPL_HIGH_LEVEL -> pending_le s p ->
  (forall s', task s' -> gEfiCurrentTpl s' = p -> data s' = data s -> Q tt s') ->
  wp_ (CoreReleaseEventLock cfg R) Q s.
Proof.
  intros HR HL Hp Hle HQ. apply (release_run R p); [done|].
  destruct (unlocked_state p s HL) as (Hc & Hf & Ed & Ht). pose proof (locked_wf _ _ HL) as Hw.
  eapply wp_mono; [apply HR; [done|by rewrite Ht|rewrite Ed; apply (q_nonneg _ (wf_q _ Hw))|by rewrite Ed]|].
  intros [] s' (Et & El & Ed'). rewrite Ed in Ed'. apply HQ; [|done..]. constructor.
  - destruct Hc as [_ Hl]. split; [rewrite Et; done|]. by rewrite El.
  - by rewrite Ed'.
  - intros l. unfold free. rewrite El. apply Hf.
  - by rewrite Ed', Et.
Qed.

(** ** Signalling from a task *)

Lemma signal_task R e (s : STATE) v :
  restore_spec tot R -> quiet_spec tot R -> task s -> events s !! e = Some v ->
  wp_ (CoreSignalEvent cfg R e) (fun st s' => st = EFI_SUCCESS /\ task_step s s') s.
Proof.
  intros HR HQ HT Hv. pose proof (task_wf _ HT) as Hw. unfold CoreSignalEvent.
  pose proof (proj1 (task_ctl _ HT)) as Htpl.
  destruct (e_ok _ (wf_e _ Hw) e v Hv) as [H0 Hok].
  destruct (Z.eqb_spec e 0); [done|]. eapply wp_step; [by apply load_ok|]. cbn beta.
  rewrite (ok_sig _ Hok). cbn [negb Z.eqb]. apply wp_bind.
  apply task_acquire; [done|]. intros s1 HL E1.
  eapply wp_step; [apply load_ok; by rewrite E1|]. cbn beta.
  assert (Hrel : forall s2 : STATE, locked (gEfiCurrentTpl s) s2 -> ext s s2 ->
    wp_ (CoreReleaseEventLock cfg R ;;; Mret EFI_SUCCESS)
      (fun st s' => st = EFI_SUCCESS /\ task_step s s') s2).
  { intros s2 HL2 Hx. apply wp_bind. eapply task_release; [done|done|done|].
    intros s3 HT3 Et Hx3. apply wp_ret. split; [done|]. split_and!; [done..|by etransitivity]. }
  destruct (Z.eqb_spec (SignalCount v) 0) as [Hcnt|].
  2:{ eapply wp_step; [done|]. apply Hrel; [done|by rewrite E1]. }
  rewrite Hcnt. apply wp_bind. eapply wp_step; [eapply update_count; by rewrite E1|]. cbn beta.
  change (wrapU 32 (0 + 1)) with 1. rewrite E1.
  pose proof (count_wf e 1 s Hw) as Hw1. pose proof (count_sim e 1 s) as Hs1.
  pose proof (locked_data _ _ _ HL Hw1) as HL1.
  destruct (has (Type_ v) EVT_NOTIFY_SIGNAL) eqn:HS.
  2:{ apply wp_ret. apply Hrel; [done|]. by apply sim_ext. }
  destruct (has (ExFlag v) EVT_EXFLAG_EVENT_GROUP) eqn:HG.
  - apply wp_bind. eapply task_release_quiet; [done|done|done| |].
    { intros p. cbn [data set_data]. rewrite count_pending. apply (task_settled _ HT). }
    intros s3 HT3 Et3 E3. cbn [data set_data] in E3.
    destruct (sim_lookup _ _ _ _ Hs1 Hv) as (vg & Hvg & Ec).
    apply core_fields in Ec as (_ & _ & _ & _ & _ & EG & _).
    eapply wp_step; [apply load_ok; by rewrite E3|]. cbn beta. rewrite EG. apply wp_bind. unfold CoreNotifySignalList.
    apply wp_bind. apply task_acquire; [done|]. intros s4 HL4 E4. rewrite E3 in E4.
    apply (wp_step _ _ _ _ s4 s4 s4); [done|]. rewrite Et3 in HL4.
    destruct (notify_list_ok (EventGroup v) (gEventSignalQueue (count_data e 1 s)) (count_data e 1 s) Hw1)
      as [Hw5 Hs5]; [by apply signalq_can_notify|].
    eapply wp_step.
    { eapply signal_list_loop_ok; [done|by apply HL4|by eapply locked_held|].
      rewrite E4. by apply signalq_can_notify. }
    cbn beta. rewrite E4. eapply task_release; [done|by apply locked_data|done|].
    intros s5 HT5 Et5 Hx5. cbn [data set_data] in Hx5.
    apply task_acquire; [done|]. intros s6 HL6 E6. rewrite Et5 in HL6. apply Hrel; [done|].
    rewrite E6. etransitivity; [by apply sim_ext|]. etransitivity; [|exact Hx5]. by apply sim_ext.
  - destruct (sim_lookup _ _ _ _ Hs1 Hv) as (v' & Hv' & Ec).
    assert (Hn' : notifying v').
    { apply signal_notifying. apply core_fields in Ec. naive_solver congruence. }
    eapply wp_eq.
    { eapply NotifyEvent_ok; [done|done|by eapply locked_held|exact Hv'|exact Hn']. }
    cbn [data set_data]. apply Hrel.
    + apply (locked_data _ (set_data _ s1)); [done|]. by eapply notify_wf.
    + cbn [data set_data]. etransitivity; [by apply sim_ext|]. apply sim_ext, notify_sim.
Qed.

(** ** The timer check as a notification *)

Lemma CheckTimers_ok R fuel (s : STATE) :
  quiet_spec tot R -> task s -> gEfiCurrentTpl s = TPL_HIGH_LEVEL - 1 ->
  (tot = true -> no_wrap (mEfiSystemTime s) s /\ (measure (mEfiSystemTime s) s < fuel)%nat) ->
  wp_ (CoreCheckTimers cfg R fuel) (fun _ s' => task_step s s' /\
    mEfiSystemTime s' = mEfiSystemTime s /\
    Forall (fun e => mEfiSystemTime s < trigger s' e) (mEfiTimerList s') /\
    (forall e v, events s !! e = Some v ->
       exists v', events s' !! e = Some v' /\ check_post (mEfiSystemTime s) v v') /\
    (exists L, signalled L s s' /\ forall x, x ∈ L <-> raised (mEfiSystemTime s) s x)) s.
Proof.
  intros HQ HT Ht Htot. destruct (HT) as [Hc Hw Hf Hp]. unfold CoreCheckTimers. apply wp_bind.
  apply acquire_wp; [done|apply Hf|by rewrite Ht|]. intros s1 Ha.
  pose proof (acquired_ok _ _ _ Hc Ha) as Hc1. destruct (Ha) as (Ht1 & E1 & _).
  cbn [lock_tpl] in Ht1. apply wp_bind.
  assert (Hf1 : forall l, l <> mEfiTimerLock -> free l s1) by (intros; by eapply acquired_free).
  apply CurrentSystemTime_quiet; [done|done|by rewrite E1|by apply Hf1|by rewrite E1, Ht1, <- Ht|].
  intros s2 H2 E2. rewrite E1 in E2 |- *. apply wp_bind.
  assert (Hh2 : held mEfiTimerLock s2) by (eapply ctl_equiv_held; [done|by eapply acquired_held]).
  eapply wp_mono; [apply (check_loop_ok cfg tot cfg_W R HQ fuel (mEfiSystemTime s) s2)|]; rewrite ?E2; auto.
  - by eapply ctl_equiv_ok.
  - eapply ctl_equiv_free; [done|by apply Hf1].
  - rewrite (proj1 H2), Ht1. lia.
  - apply (t_time _ (wf_t _ Hw)).
  - intros [] s3 (H3 & Hw3 & Hx3 & Htm3 & HF3 & Hev3 & HL3).
    eapply (release_quiet cfg tot R mEfiTimerLock s s1 s3); auto.
    + by rewrite Ht.
    + by transitivity s2.
    + apply (q_nonneg _ (wf_q _ Hw3)).
    + apply pending_le_wf; [done|lia].
    + intros s4 H4 E4. rewrite E4. split_and!; auto. split_and!; [|by apply H4|by rewrite E4].
      constructor; [by eapply ctl_equiv_ok|by rewrite E4|intros l; by eapply ctl_equiv_free|].
      rewrite E4. apply pending_le_wf; [done|]. rewrite (proj1 H4). lia.
Qed.
End Dispatch.

(** The frame of CoreRestoreTpl around its loop: only the level and the
    interrupt flag change there. *)
Lemma restore_body_wp cfg Notify R tot fuel t (s : STATE) Q :
  ctl_ok s -> 0 <= t <= gEfiCurrentTpl s ->
  (forall t1, 0 <= t1 <= TPL_HIGH_LEVEL ->
     wp tot (restore_loop cfg Notify R fuel t)
       (fun _ s2 => forall i, Q tt (set_interrupts i (set_Tpl t s2))) (set_Tpl t1 s)) ->
  wp tot (restore_body cfg Notify R fuel t) Q s.
Proof.
  intros [Hb Hl] Ht Hloop. unfold restore_body. apply (wp_step _ _ _ _ s s s); [done|].
  eapply wp_step; [apply ASSERT_true; destruct (Z.ltb_spec (gEfiCurrentTpl s) t); [lia|done]|]. cbn beta.
  eapply wp_step; [apply ASSERT_true; unfold VALID_TPL; apply Z.leb_le; lia|]. cbn beta.
  assert (H1 : exists t1, (if (TPL_HIGH_LEVEL <=? gEfiCurrentTpl s) && (t <? TPL_HIGH_LEVEL)
    then Mmodify (set_Tpl TPL_HIGH_LEVEL) else Mret tt) s = Ok (tt, set_Tpl t1 s) /\
    0 <= t1 <= TPL_HIGH_LEVEL).
  { case_match; [exists TPL_HIGH_LEVEL; split; [done|unfold TPL_HIGH_LEVEL; lia]|].
    exists (gEfiCurrentTpl s). by destruct s. }
  destruct H1 as (t1 & E1 & Ht1). eapply wp_step; [exact E1|]. cbn beta.
  eapply wp_seq; [by apply Hloop|]. intros [] s2 HQ. eapply wp_step; [done|]. cbn beta.
  destruct (t <? TPL_HIGH_LEVEL).
  - destruct (SetInterrupt_ok cfg true (set_Tpl t s2)) as [i Ei]. by eapply wp_eq.
  - apply wp_ret. specialize (HQ (Interrupts s2)). by destruct s2.
Qed.

(** ** Dispatch with arbitrary notification functions *)

Lemma add_call_wf c d : wf d -> wf (add_call c d) /\ ext d (add_call c d).
Proof.
  intros [Hq Ht He]. split.
  - constructor; [destruct Hq; by constructor|destruct Ht; by constructor|destruct He; by constructor].
  - repeat split. intros e v Hv. by exists v.
Qed.

Section Partial.
Context (cfg : CONFIG) (Notify : nat -> Z -> M STATE unit).
Context (cfg_W : W cfg = 32 \/ W cfg = 64) (HN : notify_spec false Notify).
Context (R : Z -> M STATE unit) (HR : restore_spec false R) (HQ : quiet_spec false R).

Lemma call_notify_safe fuel e fn (s : STATE) :
  task s -> (fn = Fn_CoreCheckTimers -> gEfiCurrentTpl s = TPL_HIGH_LEVEL - 1) ->
  wp false (call_notify cfg Notify R fuel e fn) (fun _ s' => task_step s s') s.
Proof.
  intros HT Hfn. unfold call_notify. apply (wp_step _ _ _ _ s s s); [done|].
  eapply wp_step; [done|]. cbn beta. set (s1 := set_data _ s).
  destruct (add_call_wf (e, gEfiCurrentTpl s) s (task_wf _ HT)) as [Hw1 Hx1].
  assert (HT1 : task s1) by (constructor; [apply HT|exact Hw1|apply HT..]).
  assert (Hpost : forall s', task_step s1 s' -> task_step s s').
  { intros s' (H1 & H2 & H3). split_and!; [done|done|]. by etransitivity. }
  destruct fn.
  - eapply wp_mono; [apply CheckTimers_ok; [done|done|done|by apply Hfn|done]|].
    intros [] s' [H' _]. by apply Hpost.
  - apply wp_ret, Hpost. by apply task_step_refl.
  - eapply wp_mono; [by apply HN|]. intros [] s'. apply Hpost.
Qed.

(** The turn of the dispatch loop up to the release of the lock. *)
Lemma take_run e (s : STATE) v (k : M STATE unit) tot Q :
  wf s -> events s !! e = Some v -> e ∈ queue s (NotifyTpl v) ->
  wp tot k Q (set_data (take_data e v s) s) ->
  wp tot (remove_notify e ;;; update e (upd_NotifyLink false) ;;;
    (if has (Type_ v) EVT_NOTIFY_SIGNAL then update e (upd_SignalCount 0) else Mret tt) ;;; k) Q s.
Proof.
  intros Hw Hv Hin Hk. eapply wp_step; [unfold remove_notify; by rewrite Hv, decide_True|]. cbn beta.
  assert (E : update e (upd_NotifyLink false) (set_data (set_queue (<[NotifyTpl v := filter (fun x => x <> e)
      (queue s (NotifyTpl v))]> (gEventQueue s)) (gEventPending s) s) s) =
    Ok (tt, set_data (pop_data e s) s)).
  { unfold update, pop_data. cbn [set_data data set_queue events]. by rewrite Hv. }
  eapply wp_step; [exact E|]. cbn beta. unfold take_data in Hk. case_match.
  - eapply wp_step; [eapply update_count; cbn [data set_data]; by rewrite (pop_events s e v Hv), lookup_insert_eq|].
    exact Hk.
  - eapply wp_step; [done|]. exact Hk.
Qed.

Lemma dispatch_loop_safe fuel p : forall s : STATE,
  locked p s -> TPL_APPLICATION < p < TPL_HIGH_LEVEL ->
  wp false (dispatch_loop cfg Notify R fuel p)
    (fun _ s' => locked p s' /\ queue s' p = [] /\ ext s s') s.
Proof.
  induction fuel as [|fuel IH]; intros s HL Hp; [done|]. cbn [dispatch_loop].
  apply (wp_step _ _ _ _ s s s); [done|]. cbn beta.
  destruct (queue s p) as [|e rest] eqn:EQ; [by apply wp_ret; rewrite EQ|].
  pose proof (locked_wf _ _ HL) as Hw.
  destruct (q_live _ (wf_q _ Hw) e p) as (v & Hv & Hp' & HNL & Hn); [rewrite EQ; left|].
  eapply wp_step; [by apply load_ok|]. cbn beta.
  destruct (take_ok s e v Hw Hv) as (Hw1 & Hs1 & _ & _).
  apply (take_run e s v); [done|done|rewrite Hp', EQ; left|].
  apply wp_bind. eapply task_release; [done|by apply locked_data|unfold TPL_APPLICATION in *; lia|].
  intros s2 HT2 Et2 Hx2. cbn [data set_data] in Hx2.
  assert (Hx02 : ext s s2) by (etransitivity; [by apply sim_ext|done]).
  destruct (proj1 Hx02 e v Hv) as (v2 & Hv2 & Hst).
  destruct (e_ok _ (wf_e _ (task_wf _ HT2)) e v2 Hv2) as [_ Hok2].
  assert (Hn2 : notifying v2) by (unfold notifying, static in *; naive_solver congruence).
  destruct (ok_notify _ Hok2 Hn2) as [_ [fn Hfn]].
  eapply wp_step; [by apply load_ok|]. cbn beta.
  eapply wp_step; [apply ASSERT_true; apply bool_decide_eq_true; by exists fn|]. cbn beta.
  rewrite Hfn. apply wp_bind. eapply wp_mono; [apply call_notify_safe; [done|]|].
  { intros ->. pose proof (ok_check _ Hok2 Hfn). rewrite Et2, <- Hp'. unfold static in Hst.
    naive_solver congruence. }
  intros [] s3 (HT3 & Et3 & Hx3). apply wp_bind. apply task_acquire; [done|].
  intros s4 HL4 E4. rewrite Et3, Et2 in HL4.
  eapply wp_mono; [apply IH; [done|done]|]. intros [] s5 (HL5 & EQ5 & Hx5).
  split_and!; [done..|]. rewrite E4 in Hx5. do 2 (etransitivity; [eassumption|]). done.
Qed.

Lemma dispatch_safe fuel p (s : STATE) :
  task s -> gEfiCurrentTpl s = p -> TPL_APPLICATION < p < TPL_HIGH_LEVEL ->
  wp false (CoreDispatchEventNotifies cfg Notify R fuel p) (fun _ s' => task_step s s') s.
Proof.
  intros HT Ht Hp. assert (0 <= p < TPL_HIGH_LEVEL) by (unfold TPL_APPLICATION in *; lia).
  unfold CoreDispatchEventNotifies. apply wp_bind. apply task_acquire; [done|].
  intros s1 HL1 E1. rewrite Ht in HL1. apply (wp_step _ _ _ _ s1 s1 s1); [done|].
  eapply wp_step; [apply ASSERT_true; rewrite (locked_lock _ _ HL1); apply Z.eqb_refl|]. cbn beta.
  apply wp_bind. eapply wp_mono; [by apply dispatch_loop_safe|]. intros [] s2 (HL2 & EQ2 & Hx2).
  apply (wp_step _ _ _ _ s2 s2 s2); [done|]. cbn beta. rewrite tpl_bit_ok by done.
  eapply wp_step; [done|]. cbn beta.
  pose proof (clear_wf (W cfg) p s2 cfg_W (locked_wf _ _ HL2) ltac:(done) EQ2) as Hw3.
  eapply task_release; [done|by apply locked_data|lia|]. intros s3 HT3 Et3 Hx3.
  split_and!; [done|congruence|]. rewrite <- E1. etransitivity; [exact Hx2|].
  etransitivity; [|exact Hx3]. cbn [data set_data]. repeat split. intros e v Hv. by exists v.
Qed.

(** ** Lowering the TPL *)

Lemma log2_pending d :
  wf d -> gEventPending d <> 0 ->
  let p := Z.log2 (gEventPending d) in
  HighBitSet64 (W cfg) (gEventPending d) = Ok p /\ TPL_APPLICATION < p < TPL_HIGH_LEVEL /\ pending_le d p.
Proof.
  intros H Hne p. pose proof (q_nonneg _ (wf_q _ H)) as H0.
  assert (Hp : Z.testbit (gEventPending d) p = true) by (apply Z.bit_log2; lia).
  pose proof (q_mask _ (wf_q _ H) p Hp) as Hm. split_and!; [|lia|lia|].
  - apply HighBitSet64_spec; [|lia]. split; [done|]. apply Z.log2_lt_pow2; [lia|].
    fold p. unfold TPL_HIGH_LEVEL in *. lia.
  - intros q Hq. destruct (Z.le_gt_cases q p); [done|].
    rewrite Z.bits_above_log2 in Hq by (done || lia). done.
Qed.

Lemma restore_loop_safe fuel t : forall s : STATE,
  ctl_ok s -> wf s -> all_free s -> 0 <= t ->
  wp false (restore_loop cfg Notify R fuel t)
    (fun _ s' => ctl_ok s' /\ wf s' /\ all_free s' /\ pending_le s' t /\ ext s s') s.
Proof.
  induction fuel as [|fuel IH]; intros s Hc Hw Hf Ht; [done|]. cbn [restore_loop].
  apply (wp_step _ _ _ _ s s s); [done|]. cbn beta.
  destruct (Z.eqb_spec (gEventPending s) 0) as [E0|E0].
  { apply wp_ret. split_and!; [done..| |done]. intros p. by rewrite E0, Z.bits_0. }
  destruct (log2_pending s Hw E0) as (EH & Hp & Hle). rewrite EH.
  set (p := Z.log2 (gEventPending s)) in *. destruct (Z.leb_spec p t).
  { apply wp_ret. split_and!; [done..| |done]. by eapply pending_le_mono. }
  eapply wp_step; [done|]. cbn beta. destruct (Z.ltb_spec p TPL_HIGH_LEVEL); [|lia].
  destruct (SetInterrupt_ok cfg true (set_Tpl p s)) as [i Ei].
  eapply wp_step; [exact Ei|]. cbn beta. apply wp_bind.
  eapply wp_mono; [apply dispatch_safe|]; [|done|done|].
  { constructor; [|done|done|done]. destruct Hc as [Hc Hl]. split; [|done].
    unfold TPL_APPLICATION, TPL_HIGH_LEVEL in *. cbn [gEfiCurrentTpl set_interrupts set_Tpl]. lia. }
  intros [] s2 (HT2 & _ & Hx2). destruct HT2.
  eapply wp_mono; [apply IH; done|]. intros [] s3 (? & ? & ? & ? & Hx3).
  split_and!; [done..|]. etransitivity; [exact Hx2|done].
Qed.

Lemma restore_body_safe fuel : restore_spec false (restore_body cfg Notify R fuel).
Proof.
  intros t s Hc Hw Hf Ht. apply restore_body_wp; [done|done|]. intros t1 Ht1.
  destruct (Hc) as [Hb Hl].
  eapply wp_mono; [apply restore_loop_safe; [done|done|done|lia]|].
  intros [] s2 (Hc2 & Hw2 & Hf2 & Hp2 & Hx2) i. split_and!; [|done|done].
  constructor; [|done..]. destruct Hc2 as [_ Hl2]. split; [cbn; lia|done].
Qed.
End Partial.

(** ** Lowering the TPL when nothing is due *)

Section Quiet.
Context (cfg : CONFIG) (Notify : nat -> Z -> M STATE unit) (tot : bool).

Lemma pending_log2 (s : STATE) t :
  0 <= gEventPending s -> pending_le s t -> t <= TPL_HIGH_LEVEL -> gEventPending s <> 0 ->
  HighBitSet64 (W cfg) (gEventPending s) = Ok (Z.log2 (gEventPending s)) /\
  Z.log2 (gEventPending s) <= t.
Proof.
  intros H0 Hle Ht Hne.
  assert (Hl : Z.log2 (gEventPending s) <= t) by (apply Hle, Z.bit_log2; lia).
  split; [|done]. apply HighBitSet64_spec; [|lia]. split; [done|].
  apply Z.log2_lt_pow2; unfold TPL_HIGH_LEVEL in *; lia.
Qed.

Lemma restore_quiet R fuel :
  (tot = true -> fuel <> 0%nat) -> quiet_spec tot (restore_body cfg Notify R fuel).
Proof.
  intros Hfuel t s Hc Ht H0 Hp. apply restore_body_wp; [done|done|]. intros t1 Ht1.
  destruct fuel as [|fuel]; [destruct tot; [by destruct (Hfuel eq_refl)|done]|].
  assert (E2 : restore_loop cfg Notify R (S fuel) t (set_Tpl t1 s) = Ok (tt, set_Tpl t1 s)).
  { cbn [restore_loop]. rewrite (Mbind_Ok GetState _ (set_Tpl t1 s) _ _ eq_refl).
    cbn [data set_Tpl]. destruct (Z.eqb_spec (gEventPending s) 0) as [|Hne]; [done|].
    destruct Hc as [Hb _]. destruct (pending_log2 s t) as [-> Hle]; [done..|lia|done|].
    by destruct (Z.leb_spec (Z.log2 (gEventPending s)) t); [|lia]. }
  by eapply wp_eq.
Qed.
End Quiet.

(** ** The services as they are linked *)

Section Linked.
Context (cfg : CONFIG) (Notify : nat -> Z -> M STATE unit).
Context (cfg_W : W cfg = 32 \/ W cfg = 64) (HN : notify_spec false Notify).

Lemma CoreRestoreTpl_quiet tot depth fuel :
  (tot = true -> depth <> 0%nat /\ fuel <> 0%nat) ->
  quiet_spec tot (CoreRestoreTpl cfg Notify depth fuel).
Proof.
  intros H. destruct depth as [|depth]; cbn [CoreRestoreTpl].
  - intros t s _ _ _ _. unfold wp. cbn. destruct tot; [|done]. by destruct (H eq_refl).
  - apply restore_quiet. intros E. by destruct (H E).
Qed.

Lemma CoreRestoreTpl_safe depth fuel : restore_spec false (CoreRestoreTpl cfg Notify depth fuel).
Proof.
  induction depth as [|depth IH]; cbn [CoreRestoreTpl]; [done|].
  apply restore_body_safe; [done|done|done|]. by apply CoreRestoreTpl_quiet.
Qed.
End Linked.
