(* ===== verification/EventServices.v ===== *)
(** * EventServices: what the boot services promise their callers

    Safety of every event and timer service from any task state, the order
    of dispatch, the timer check and its termination. *)

From stdpp Require Import base option list gmap fin_maps sorting.
From Stdlib Require Import ZArith Lia.
From S2P Require Import Prelude BaseMath EventState Event EventInv EventSafe EventTimer EventDispatch.

Local Open Scope Z_scope.
Local Open Scope edk_scope.

Section Services.
Context (cfg : CONFIG) (tot : bool) (cfg_W : W cfg = 32 \/ W cfg = 64).
Context (R : Z -> M STATE unit) (HR : restore_spec tot R) (HQ : quiet_spec tot R).
Local Abbreviation wp_ := (wp tot).

(** Releasing any lock of a section entered from a task. *)
Lemma section_release l (s s1 s2 : STATE) Q :
  task s -> gEfiCurrentTpl s <= lock_tpl l -> acquired l s s1 -> ctl_equiv s1 s2 -> wf s2 ->
  (forall s3, task s3 -> gEfiCurrentTpl s3 = gEfiCurrentTpl s -> ext s2 s3 -> Q tt s3) ->
  wp_ (CoreReleaseLock cfg R l) Q s2.
Proof.
  intros HT Ht Ha He Hw HQ'. destruct HT as [Hc _ Hf _].
  eapply (release_start cfg tot R l s s1 s2); [done|done|].
  pose proof (ctl_equiv_ok _ _ He (acquired_ok _ _ _ Hc Ha)) as [Hb Hl].
  eapply wp_mono; [apply HR|].
  - split; [done|]. intros l'. cbn [locks set_lock]. case_decide; [subst l'|]; apply Hl.
  - done.
  - intros l'. unfold free. cbn [locks set_lock]. case_decide; [done|].
    eapply ctl_equiv_free; [done|]. eapply acquired_free; [done..|apply Hf].
  - destruct Hc as [Hc _], Ha as (Ht1 & _), He as [Ht2 _]. cbn [gEfiCurrentTpl set_lock].
    rewrite Ht2, Ht1. lia.
  - intros [] s3 (HT3 & Et & Hx). by apply HQ'.
Qed.

Lemma check_event_lookup d v e link t p l :
  events d !! e = Some v ->
  mEfiCheckTimerEvent (timer_data e link t p l d) = mEfiCheckTimerEvent d.
Proof. intros Hv. unfold timer_data. by rewrite Hv. Qed.

(** Arming: from the unlinked event to the release of the timer lock. *)
Lemma arm_run e now trig per (s : STATE) v Q :
  ctl_ok s -> wf s -> free gEventQueueLock s -> held mEfiTimerLock s ->
  TPL_HIGH_LEVEL - 1 <= gEfiCurrentTpl s -> events s !! e = Some v -> TimerLink v = false ->
  has (Type_ v) EVT_TIMER = true -> inU 64 per ->
  (forall s', ctl_equiv s s' -> wf s' -> ext s s' -> Q tt s') ->
  wp_ (update e (upd_Timer false (wrapU 64 (now + trig)) per) ;;;
       CoreInsertEventTimer cfg e ;;;
       (if trig =? 0 then
          let! s := GetState in
          CoreSignalEvent cfg R (mEfiCheckTimerEvent s) ;;; Mret tt
        else Mret tt)) Q s.
Proof.
  intros Hc Hw Hf Hh Ht Hv HL HTy Hper HQ'.
  assert (Htr : inU 64 (wrapU 64 (now + trig))) by by apply wrapU_range.
  eapply wp_step; [by eapply update_timer|]. cbn beta.
  set (d1 := timer_data _ _ _ _ _ _).
  assert (Hw1 : wf d1).
  { unfold d1. rewrite <- (filter_not_linked e s v (wf_t _ Hw) Hv HL). by eapply untimer_wf. }
  assert (Hv1 : events d1 !! e = Some (upd_Timer false (wrapU 64 (now + trig)) per v)).
  { unfold d1. by rewrite (proj1 (timer_data_lookup _ _ _ _ _ _ _ Hv)), lookup_insert_eq. }
  assert (Hx1 : ext s d1) by by eapply timer_ext.
  eapply wp_step; [eapply InsertEventTimer_ok; [done|done|exact Hv1]|]. cbn beta. cbn [data set_data].
  assert (Hw2 : wf (link_timer e d1)) by by eapply link_wf.
  assert (Hx2 : ext s (link_timer e d1)).
  { etransitivity; [exact Hx1|]. unfold link_timer. rewrite Hv1. by eapply timer_ext. }
  destruct (trig =? 0); [|apply wp_ret; by apply HQ'].
  eapply wp_step; [done|]. cbn beta. cbn [data set_data]. apply wp_bind.
  destruct (check_live _ Hw2) as [c Hcl]. destruct (signal_ok (mEfiCheckTimerEvent (link_timer e d1)) _ Hw2).
  eapply SignalEvent_quiet; eauto with event.
  intros s3 H3 E3. apply wp_ret, HQ'; [done|by rewrite E3|]. rewrite E3.
  etransitivity; [exact Hx2|]. by apply sim_ext.
Qed.

(** Disarming: off the timer list, trigger time and period reset. *)
Definition disarm_data (e : Z) (d : DATA) : DATA :=
  timer_data e false 0 0 (filter (fun x => x <> e) (mEfiTimerList d)) d.

Lemma disarm_run e (s : STATE) v (k : M STATE EFI_STATUS) Q :
  wf s -> events s !! e = Some v -> wp_ k Q (set_data (disarm_data e s) s) ->
  wp_ ((if TimerLink v then remove_timer e else Mret tt) ;;; update e (upd_Timer false 0 0) ;;; k) Q s.
Proof.
  intros Hw Hv Hk. destruct (TimerLink v) eqn:HL.
  - eapply wp_step; [unfold remove_timer; rewrite decide_True; [done|by apply (t_link _ (wf_t _ Hw) e v)]|].
    cbn beta. eapply wp_step; [|exact Hk]. unfold update, disarm_data, timer_data.
    cbn [set_data data set_timers events]. by rewrite Hv.
  - eapply wp_step; [done|]. cbn beta. eapply wp_step; [|exact Hk].
    rewrite (update_timer e false 0 0 s v) by done. unfold disarm_data.
    by rewrite (filter_not_linked e s v (wf_t _ Hw) Hv HL).
Qed.

Lemma disarm_ok e d v :
  wf d -> events d !! e = Some v ->
  wf (disarm_data e d) /\ ext d (disarm_data e d) /\
  events (disarm_data e d) !! e = Some (upd_Timer false 0 0 v).
Proof.
  intros Hw Hv. assert (Hz : inU 64 0) by (unfold inU; lia). split_and!.
  - by apply (untimer_wf e 0 0 d v).
  - by eapply timer_ext.
  - unfold disarm_data. by rewrite (proj1 (timer_data_lookup _ _ _ _ _ _ _ Hv)), lookup_insert_eq.
Qed.

(** CoreSetTimer from a task below the level of the timer lock. *)
Lemma SetTimer_task e ty trig (s : STATE) v :
  task s -> gEfiCurrentTpl s < TPL_HIGH_LEVEL -> events s !! e = Some v -> inU 64 trig ->
  inU 64 (TimerPeriod cfg) ->
  wp_ (CoreSetTimer cfg R e ty trig) (fun st s' => task_step s s' /\
    st = if (TimerRelative <? wrapU 32 ty) || negb (has (Type_ v) EVT_TIMER)
         then EFI_INVALID_PARAMETER else EFI_SUCCESS) s.
Proof.
  intros HT Hlt Hv Htr Hper. pose proof (task_wf _ HT) as Hw. unfold CoreSetTimer.
  destruct (e_ok _ (wf_e _ Hw) e v Hv) as [H0 Hok].
  destruct (Z.eqb_spec e 0); [done|]. eapply wp_step; [by apply load_ok|]. cbn beta.
  rewrite (ok_sig _ Hok), Z.eqb_refl. cbn [negb].
  destruct (_ || _) eqn:EB; [apply wp_ret; split; [by apply task_step_refl|done]|].
  apply orb_false_iff in EB as [_ HTy%negb_false_iff].
  destruct (HT) as [Hc _ Hf Hp]. apply wp_bind.
  apply acquire_wp; [done|apply Hf|cbn [lock_tpl]; lia|]. intros s1 Ha.
  pose proof (acquired_ok _ _ _ Hc Ha) as Hc1. destruct (Ha) as (Ht1 & E1 & _). cbn [lock_tpl] in Ht1.
  pose proof (acquired_held _ _ _ Ha) as Hh1.
  assert (Hf1 : forall l, l <> mEfiTimerLock -> free l s1) by (intros; by eapply acquired_free).
  assert (Hrel : forall s2 : STATE, ctl_equiv s1 s2 -> wf s2 -> ext s s2 ->
    wp_ (CoreReleaseLock cfg R mEfiTimerLock ;;; Mret EFI_SUCCESS)
      (fun st s' => task_step s s' /\ st = EFI_SUCCESS) s2).
  { intros s2 H2 Hw2 Hx2. apply wp_bind. eapply section_release; [done|cbn [lock_tpl]; lia|done..|].
    intros s3 HT3 Et3 Hx3. apply wp_ret. split; [|done]. split_and!; [done..|by etransitivity]. }
  eapply wp_step; [apply load_ok; by rewrite E1|]. cbn beta.
  destruct (disarm_ok e s v Hw Hv) as (Hw2 & Hx2 & Hv2).
  apply disarm_run; [by rewrite E1|by rewrite E1|]. rewrite E1. set (d2 := disarm_data e s) in *.
  apply wp_bind. destruct (ty =? TimerCancel).
  { apply wp_ret. by apply Hrel; [apply set_data_ctl|..]. }
  apply wp_bind. apply CurrentSystemTime_quiet; [done|done|done|by apply Hf1| |].
  { cbn [data set_data gEfiCurrentTpl]. rewrite Ht1. apply pending_le_wf; [done|lia]. }
  intros s3 H3 E3. cbn [data set_data] in E3 |- *.
  assert (H13 : ctl_equiv s1 s3) by (transitivity (set_data d2 s1); [apply set_data_ctl|done]).
  eapply arm_run; [by eapply ctl_equiv_ok|by rewrite E3|eapply ctl_equiv_free; [done|by apply Hf1]|
    by eapply ctl_equiv_held|rewrite (proj1 H13), Ht1; lia|by rewrite E3|done|done|by repeat case_match|].
  intros s4 H4 Hw4 Hx4. apply Hrel; [by transitivity s3|done|]. rewrite E3 in Hx4. by etransitivity.
Qed.

Lemma set_time_wf t d : wf d -> inU 64 t -> wf (set_time t d) /\ ext d (set_time t d).
Proof.
  intros [Hq Ht He] Hti. split.
  - constructor; [destruct Hq; by constructor|destruct Ht; by constructor|destruct He; by constructor].
  - repeat split. intros e v Hv. by exists v.
Qed.

(** CoreTimerTick, called by the timer interrupt from any level. *)
Lemma TimerTick_task Duration (s : STATE) :
  task s -> 
  wp_ (CoreTimerTick cfg R Duration) (fun _ s' => task_step s s') s.
Proof.
  intros HT. destruct (HT) as [Hc Hw Hf Hp]. unfold CoreTimerTick. apply wp_bind.
  apply acquire_wp; [done|apply Hf|apply Hc|]. intros s1 Ha.
  pose proof (acquired_ok _ _ _ Hc Ha) as Hc1. destruct (Ha) as (Ht1 & E1 & _). cbn [lock_tpl] in Ht1.
  eapply wp_step; [done|]. cbn beta. eapply wp_step; [done|]. cbn beta. cbn [data set_data]. rewrite E1.
  destruct (set_time_wf (wrapU 64 (mEfiSystemTime s + Duration)) s Hw) as [Hw2 Hx2];
    [by apply wrapU_range|].
  set (d2 := set_time _ _) in *.
  assert (Hrel : forall s2 : STATE, ctl_equiv s1 s2 -> wf s2 -> ext s s2 ->
    wp_ (CoreReleaseLock cfg R mEfiSystemTimeLock) (fun _ s' => task_step s s') s2).
  { intros s2 H2 Hw2' Hx2'. eapply section_release; [done|apply Hc|done..|].
    intros s3 HT3 Et3 Hx3. split_and!; [done..|by etransitivity]. }
  destruct (mEfiTimerList s) as [|e rest] eqn:HTL; cbn [mEfiTimerList d2 set_time]; rewrite HTL.
  { eapply wp_step; [done|]. by apply Hrel; [apply set_data_ctl|..]. }
  apply wp_bind. destruct (t_live _ (wf_t _ Hw) e) as (v & Hv & _); [rewrite HTL; left|].
  eapply wp_step; [by apply load_ok|]. cbn beta. case_match.
  2:{ apply wp_ret. by apply Hrel; [apply set_data_ctl|..]. }
  apply wp_bind. destruct (check_live _ Hw2) as [c Hcl].
  destruct (signal_ok (mEfiCheckTimerEvent d2) _ Hw2).
  eapply (SignalEvent_quiet cfg tot cfg_W R (mEfiCheckTimerEvent d2) (set_data d2 s1));
    [done|done|done| |cbn [gEfiCurrentTpl set_data]; rewrite Ht1; lia|exact Hcl|].
  { eapply (ctl_equiv_free _ s1); [apply set_data_ctl|]. eapply acquired_free; [exact Ha|done|apply Hf]. }
  intros s3 H3 E3. apply wp_ret, Hrel; [|by rewrite E3|].
  - transitivity (set_data d2 s1); [apply set_data_ctl|done].
  - rewrite E3. etransitivity; [exact Hx2|]. by apply sim_ext.
Qed.

Lemma ext_lookup (d d' : DATA) e v :
  ext d d' -> events d !! e = Some v -> exists v', events d' !! e = Some v' /\ static v v'.
Proof. intros H. apply (proj1 H). Qed.

(** CoreCheckEvent: the status tells what kind of event it was; the state is
    a task state again. *)
Lemma CheckEvent_task e (s : STATE) v :
  task s -> events s !! e = Some v ->
  wp_ (CoreCheckEvent cfg R e) (fun st s' => task_step s s' /\
    (if has (Type_ v) EVT_NOTIFY_SIGNAL then st = EFI_INVALID_PARAMETER
     else (st = EFI_SUCCESS \/ st = EFI_NOT_READY) /\
          (SignalCount v <> 0 -> st = EFI_SUCCESS /\ exists v', events s' !! e = Some v' /\ static v v'))) s.
Proof.
  intros HT Hv. pose proof (task_wf _ HT) as Hw. unfold CoreCheckEvent.
  pose proof (proj1 (task_ctl _ HT)) as Htpl.
  destruct (e_ok _ (wf_e _ Hw) e v Hv) as [H0 Hok].
  destruct (Z.eqb_spec e 0); [done|]. eapply wp_step; [by apply load_ok|]. cbn beta.
  rewrite (ok_sig _ Hok), Z.eqb_refl. cbn [negb].
  destruct (has (Type_ v) EVT_NOTIFY_SIGNAL) eqn:HS.
  { apply wp_ret. split; [by apply task_step_refl|done]. }
  assert (Hend : forall s1 : STATE, task_step s s1 ->
    (SignalCount v <> 0 -> exists v1, events s1 !! e = Some v1 /\ SignalCount v1 <> 0) ->
    wp_ (let! v2 := load e in
         if SignalCount v2 =? 0 then Mret EFI_NOT_READY
         else CoreAcquireEventLock cfg ;;;
              let! v3 := load e in
              let! Status := (if SignalCount v3 =? 0 then Mret EFI_NOT_READY
                              else update e (upd_SignalCount 0) ;;; Mret EFI_SUCCESS) in
              CoreReleaseEventLock cfg R ;;; Mret Status)
      (fun st s' => task_step s s' /\ (st = EFI_SUCCESS \/ st = EFI_NOT_READY) /\
         (SignalCount v <> 0 -> st = EFI_SUCCESS /\ exists v', events s' !! e = Some v' /\ static v v')) s1).
  { intros s1 (HT1 & Et1 & Hx1) Hcnt. destruct (ext_lookup _ _ e v Hx1 Hv) as (v1 & Hv1 & _).
    eapply wp_step; [by apply load_ok|]. cbn beta. destruct (Z.eqb_spec (SignalCount v1) 0) as [E0|E0].
    { apply wp_ret. split_and!; [by split_and!|by right|]. intros Hne.
      destruct (Hcnt Hne) as (? & ? & ?). congruence. }
    apply wp_bind. apply task_acquire; [done|]. intros s2 HL2 E2.
    eapply wp_step; [apply load_ok; by rewrite E2|]. cbn beta.
    destruct (Z.eqb_spec (SignalCount v1) 0); [done|]. apply wp_bind.
    eapply wp_step; [eapply update_count; by rewrite E2|]. apply wp_ret. rewrite E2. apply wp_bind.
    eapply task_release; [done|apply locked_data; [done|by apply count_wf; apply HT1]|by rewrite Et1|].
    intros s3 HT3 Et3 Hx3. cbn [data set_data] in Hx3.
    assert (Hx : ext s s3).
    { etransitivity; [exact Hx1|]. etransitivity; [|exact Hx3]. apply sim_ext, count_sim. }
    apply wp_ret. split_and!; [split_and!; [done|congruence|done]|by left|]. intros _. split; [done|].
    by apply (ext_lookup _ _ e v Hx). }
  apply wp_bind. destruct ((SignalCount v =? 0) && has (Type_ v) EVT_NOTIFY_WAIT) eqn:HB.
  2:{ apply wp_ret. eapply wp_mono; [apply Hend; [by apply task_step_refl|]|]; [eauto|]. done. }
  apply andb_true_iff in HB as [HB1 HB2]. apply Z.eqb_eq in HB1.
  apply wp_bind. apply task_acquire; [done|]. intros s1 HL1 E1.
  eapply wp_step; [apply load_ok; by rewrite E1|]. cbn beta. destruct (Z.eqb_spec (SignalCount v) 0); [|done].
  pose proof (wait_notifying v HB2) as Hn.
  eapply wp_step; [eapply NotifyEvent_ok; [done|by rewrite E1|by eapply locked_held|by rewrite E1|done]|].
  cbn beta. rewrite E1. eapply task_release; [done|apply locked_data; [done|by eapply notify_wf]|done|].
  intros s2 HT2 Et2 Hx2. cbn [data set_data] in Hx2. apply Hend; [|by rewrite HB1].
  split_and!; [done..|]. etransitivity; [|exact Hx2]. apply sim_ext, notify_sim.
Qed.
End Services.
