(* ===== verification/EventLife.v ===== *)
(** * EventLife: creating and closing events *)

From stdpp Require Import base option list gmap fin_maps sorting.
From Stdlib Require Import ZArith Lia.
From S2P Require Import Prelude BaseMath EventState Event EventInv EventSafe EventTimer EventDispatch.
From S2P Require Import EventServices.

Local Open Scope Z_scope.
Local Open Scope edk_scope.

(** ** Adding an event *)

(** The data with the new event [v] at [e], on the runtime list if it is a
    runtime event. *)
Definition create_data (e : Z) (v : IEVENT) (d : DATA) : DATA :=
  let d1 := set_events (<[e := v]> (events d)) d in
  if RuntimeLink v then set_runtime (gRuntime_EventHead d ++ [e]) d1 else d1.

Lemma create_events e v d : events (create_data e v d) = <[e := v]> (events d).
Proof. unfold create_data. by destruct (RuntimeLink v). Qed.
Lemma create_fields e v d :
  gEventQueue (create_data e v d) = gEventQueue d /\ gEventPending (create_data e v d) = gEventPending d /\
  gEventSignalQueue (create_data e v d) = gEventSignalQueue d /\
  mEfiTimerList (create_data e v d) = mEfiTimerList d /\
  mEfiSystemTime (create_data e v d) = mEfiSystemTime d /\
  mEfiCheckTimerEvent (create_data e v d) = mEfiCheckTimerEvent d /\
  gIdleLoopEvent (create_data e v d) = gIdleLoopEvent d /\
  gRuntime_EventHead (create_data e v d) =
    (if RuntimeLink v then gRuntime_EventHead d ++ [e] else gRuntime_EventHead d).
Proof. unfold create_data. by destruct (RuntimeLink v). Qed.

(** A live handle stays live, with the same event, when a fresh one is added. *)
Lemma create_keep (P : IEVENT -> Prop) e v d e' :
  events d !! e = None -> (exists w, events d !! e' = Some w /\ P w) ->
  exists w, (<[e := v]> (events d)) !! e' = Some w /\ P w.
Proof.
  intros Hn (w & Hw & HP). exists w. split; [|done]. rewrite lookup_insert_ne; [done|congruence].
Qed.

(** Membership by a link flag, when the new event's flag is not set. *)
Lemma create_link (Q : IEVENT -> bool) e v d (L : list Z) :
  Q v = false -> (forall e v, events d !! e = Some v -> Q v = true -> e ∈ L) ->
  forall e' v', (<[e := v]> (events d)) !! e' = Some v' -> Q v' = true -> e' ∈ L.
Proof.
  intros HQ HL e' v'. destruct (decide (e' = e)) as [-> |].
  - rewrite lookup_insert_eq. intros [= <-]. congruence.
  - rewrite lookup_insert_ne by done. eauto.
Qed.

Lemma create_wf e v d :
  wf d -> e <> 0 -> events d !! e = None -> event_ok v ->
  NotifyLink v = false -> TimerLink v = false -> SignalLink v = false ->
  wf (create_data e v d) /\ ext d (create_data e v d).
Proof.
  intros [Hq Ht He] H0 Hn Hok HN HT HS. pose proof (create_events e v d) as EE.
  destruct (create_fields e v d) as (F1 & F2 & F3 & F4 & F5 & F6 & F7 & F8).
  assert (FQ : forall p, queue (create_data e v d) p = queue d p)
    by (intros p; unfold queue; by rewrite F1).
  split; [constructor|].
  - constructor; intros *; rewrite ?FQ, ?F2, ?EE; try apply Hq.
    + intros Hin%(q_live _ Hq).
      by apply (create_keep (fun v => NotifyTpl v = p /\ NotifyLink v = true /\ notifying v)).
    + intros Hv HL. destruct (decide (e0 = e)) as [-> |].
      * rewrite lookup_insert_eq in Hv. simplify_eq. congruence.
      * rewrite lookup_insert_ne in Hv by done. by apply (q_link _ Hq _ _ Hv).
  - constructor; rewrite ?F4, ?F5, ?EE; try apply Ht.
    + intros e' Hin%(t_live _ Ht). by apply (create_keep (fun v => TimerLink v = true)).
    + apply (create_link TimerLink); [done|apply (t_link _ Ht)].
    + apply (StronglySorted_in (fun a b => trigger d a <= trigger d b)); [|apply (t_sorted _ Ht)].
      assert (ET : forall x, x ∈ mEfiTimerList d -> trigger (create_data e v d) x = trigger d x).
      { intros x (w & Hw & _)%(t_live _ Ht). unfold trigger. rewrite EE, lookup_insert_ne; congruence. }
      intros a b Ha Hb. by rewrite !ET.
  - constructor; rewrite ?F3, ?F6, ?F7, ?F8, ?EE; try apply He.
    + intros e' v'. destruct (decide (e' = e)) as [-> |].
      * rewrite lookup_insert_eq. by intros [= <-].
      * rewrite lookup_insert_ne by done. apply (e_ok _ He).
    + intros e' Hin%(s_live _ He).
      by apply (create_keep (fun v => SignalLink v = true /\ has (Type_ v) EVT_NOTIFY_SIGNAL = true)).
    + apply (create_link SignalLink); [done|apply (s_link _ He)].
    + intros e' Hin. destruct (RuntimeLink v) eqn:HRL.
      * apply elem_of_app in Hin as [Hin%(r_live _ He)|Hin%list_elem_of_singleton].
        -- by apply (create_keep (fun v => RuntimeLink v = true)).
        -- subst e'. rewrite lookup_insert_eq. eauto.
      * apply (r_live _ He) in Hin. by apply (create_keep (fun v => RuntimeLink v = true)).
    + intros e' v'. destruct (decide (e' = e)) as [-> |].
      * rewrite lookup_insert_eq. intros [= <-] ->. apply elem_of_app. right. by apply list_elem_of_singleton.
      * rewrite lookup_insert_ne by done. intros Hv' HL. pose proof (r_link _ He e' v' Hv' HL).
        case_match; [apply elem_of_app; by left|done].
    + case_match; [|apply (r_nodup _ He)]. apply NoDup_app. split_and!; [apply (r_nodup _ He)| |apply NoDup_singleton].
      intros x (w & Hw & _)%(r_live _ He) Hx%list_elem_of_singleton. congruence.
    + by apply (create_keep (fun v => has (ExFlag v) EVT_EXFLAG_EVENT_GROUP = false /\
        has (Type_ v) EVT_NOTIFY_SIGNAL = true /\ NotifyTpl v = TPL_HIGH_LEVEL - 1)); [|apply (check_ok _ He)].
    + destruct (idle_ok _ He) as [w Hw]. rewrite lookup_insert_ne; [eauto|congruence].
  - repeat split; [|done..]. intros e' w Hw. exists w. rewrite EE.
    split; [rewrite lookup_insert_ne; [done|congruence]|by repeat split].
Qed.

(** Putting a fresh event on the signal queue. *)
Definition signal_link_data (e : Z) (v : IEVENT) (d : DATA) : DATA :=
  set_events (<[e := upd_SignalLink true v]> (events d)) (set_signalq (e :: gEventSignalQueue d) d).

Lemma signal_link_keep (P : IEVENT -> Prop) e v d e' :
  events d !! e = Some v -> (P v -> P (upd_SignalLink true v)) ->
  (exists w, events d !! e' = Some w /\ P w) ->
  exists w, (<[e := upd_SignalLink true v]> (events d)) !! e' = Some w /\ P w.
Proof.
  intros Hv HP (w & Hw & Hp). destruct (decide (e' = e)) as [-> |].
  - rewrite lookup_insert_eq. simplify_eq. eauto.
  - rewrite lookup_insert_ne by done. eauto.
Qed.

Lemma signal_link_link (Q : IEVENT -> bool) e v d (L : list Z) :
  events d !! e = Some v -> Q (upd_SignalLink true v) = Q v ->
  (forall e v, events d !! e = Some v -> Q v = true -> e ∈ L) ->
  forall e' v', (<[e := upd_SignalLink true v]> (events d)) !! e' = Some v' -> Q v' = true -> e' ∈ L.
Proof.
  intros Hv HQ HL e' v'. destruct (decide (e' = e)) as [-> |].
  - rewrite lookup_insert_eq. intros [= <-]. rewrite HQ. by apply HL.
  - rewrite lookup_insert_ne by done. eauto.
Qed.

Lemma signal_link_wf e v d :
  wf d -> events d !! e = Some v -> SignalLink v = false ->
  has (Type_ v) EVT_NOTIFY_SIGNAL = true ->
  wf (signal_link_data e v d) /\ ext d (signal_link_data e v d).
Proof.
  intros [Hq Ht He] Hv HSL HS.
  split; [constructor|].
  - constructor; intros *; try apply Hq; cbn [events set_events signal_link_data].
    + intros Hin%(q_live _ Hq).
      by apply (signal_link_keep (fun v => NotifyTpl v = p /\ NotifyLink v = true /\ notifying v)).
    + intros Hv0 HL. destruct (decide (e0 = e)) as [-> |].
      * rewrite lookup_insert_eq in Hv0. simplify_eq. exact (q_link _ Hq e v Hv HL).
      * rewrite lookup_insert_ne in Hv0 by done. exact (q_link _ Hq _ _ Hv0 HL).
  - constructor; try apply Ht; cbn [events set_events signal_link_data mEfiTimerList set_signalq].
    + intros e' Hin%(t_live _ Ht). by apply (signal_link_keep (fun v => TimerLink v = true)).
    + apply (signal_link_link TimerLink); [done|done|apply (t_link _ Ht)].
    + apply (StronglySorted_ext (fun a b => trigger d a <= trigger d b)); [|apply (t_sorted _ Ht)].
      assert (ET : forall x, trigger (signal_link_data e v d) x = trigger d x).
      { intros x. unfold trigger. cbn [events set_events signal_link_data].
        destruct (decide (x = e)) as [-> |]; [by rewrite lookup_insert_eq, Hv|by rewrite lookup_insert_ne]. }
      intros a b. by rewrite !ET.
  - constructor; try apply He; cbn [events set_events signal_link_data gEventSignalQueue set_signalq
      gRuntime_EventHead mEfiCheckTimerEvent gIdleLoopEvent].
    + intros e' v'. destruct (decide (e' = e)) as [-> |].
      * rewrite lookup_insert_eq. intros [= <-]. destruct (e_ok _ He e v Hv) as [? []]. split; [done|by constructor].
      * rewrite lookup_insert_ne by done. apply (e_ok _ He).
    + intros e' [-> |Hin%(s_live _ He)]%elem_of_cons.
      * rewrite lookup_insert_eq. by eexists.
      * by apply (signal_link_keep (fun v => SignalLink v = true /\ has (Type_ v) EVT_NOTIFY_SIGNAL = true)).
    + intros e' v'. destruct (decide (e' = e)) as [-> |]; [by left|].
      rewrite lookup_insert_ne by done. intros Hv' HL. right. by apply (s_link _ He e' v').
    + constructor; [|apply (s_nodup _ He)]. intros (w & Hw & HL & _)%(s_live _ He). congruence.
    + intros e' Hin%(r_live _ He). by apply (signal_link_keep (fun v => RuntimeLink v = true)).
    + apply (signal_link_link RuntimeLink); [done|done|apply (r_link _ He)].
    + by apply (signal_link_keep (fun v => has (ExFlag v) EVT_EXFLAG_EVENT_GROUP = false /\
        has (Type_ v) EVT_NOTIFY_SIGNAL = true /\ NotifyTpl v = TPL_HIGH_LEVEL - 1)); [| |apply (check_ok _ He)].
    + destruct (idle_ok _ He) as [w Hw]. destruct (decide (gIdleLoopEvent d = e)) as [-> |];
        [rewrite lookup_insert_eq|rewrite lookup_insert_ne by done]; eauto.
  - repeat split. intros e' w Hw. cbn [events set_events signal_link_data].
    destruct (decide (e' = e)) as [-> |]; [rewrite lookup_insert_eq|rewrite lookup_insert_ne by done];
      eexists; (split; [done|]); simplify_eq; by repeat split.
Qed.

(** ** CoreCreateEventInternal *)

(** The allocator returns addresses that are not in use, and not NULL. *)
Definition fresh_alloc (alloc : STATE -> option Z) : Prop :=
  forall s e, alloc s = Some e -> e <> 0 /\ events s !! e = None.

(** The parameters the service accepts: a known type, no group with the
    pre-defined signal types, and for notification events (after the
    pre-defined groups changed the type) a function and a level strictly
    between TPL_APPLICATION and TPL_HIGH_LEVEL. *)
Definition create_params (groups : GROUPS) (ty tpl : Z) (fn : option EFI_EVENT_NOTIFY)
    (group : option Z) (out : bool) (ty' : Z) (group' : option Z) : Prop :=
  out = true /\ ty ∈ mEventTable /\ convert_group groups ty group = Some (ty', group') /\
  (has ty' (Z.lor EVT_NOTIFY_WAIT EVT_NOTIFY_SIGNAL) = true ->
     is_Some fn /\ TPL_APPLICATION < tpl < TPL_HIGH_LEVEL).

(** The event that is created. *)
Definition new_event (ty tpl : Z) (fn : option EFI_EVENT_NOTIFY) (ctx : Z) (group : option Z) : IEVENT :=
  let notify := has ty (Z.lor EVT_NOTIFY_WAIT EVT_NOTIFY_SIGNAL) in
  mkEvent EVENT_SIGNATURE ty 0 false (if notify then tpl else 0) (if notify then fn else None)
    (if notify then ctx else 0) (default 0 group) false
    (match group with Some _ => EVT_EXFLAG_EVENT_GROUP | None => 0 end)
    (has ty EVT_RUNTIME) false 0 0.

Lemma new_event_ok ty tpl fn ctx group :
  (has ty (Z.lor EVT_NOTIFY_WAIT EVT_NOTIFY_SIGNAL) = true ->
     is_Some fn /\ TPL_APPLICATION < tpl < TPL_HIGH_LEVEL) ->
  fn <> Some Fn_CoreCheckTimers \/ tpl = TPL_HIGH_LEVEL - 1 ->
  event_ok (new_event ty tpl fn ctx group).
Proof.
  intros Hn Hc. constructor; cbn [new_event Signature NotifyTpl NotifyFunction TriggerTime Period];
    try (unfold inU; lia); try done.
  - unfold notifying. cbn [new_event Type_]. intros E. rewrite E. by destruct (Hn E).
  - case_match; [|done]. intros E. by destruct Hc.
Qed.

Lemma in_mEventTable ty : existsb (Z.eqb ty) mEventTable = true <-> ty ∈ mEventTable.
Proof.
  rewrite existsb_exists. setoid_rewrite Z.eqb_eq. setoid_rewrite <- list_elem_of_In.
  split; [by intros (x & Hx & ->)|by eexists].
Qed.

(** The check of function and level. *)
Lemma notify_check notify (fn : option EFI_EVENT_NOTIFY) tpl :
  notify && (bool_decide (fn = None) || (tpl <=? TPL_APPLICATION) || (TPL_HIGH_LEVEL <=? tpl)) = false <->
  (notify = true -> is_Some fn /\ TPL_APPLICATION < tpl < TPL_HIGH_LEVEL).
Proof.
  rewrite andb_false_iff, !orb_false_iff, bool_decide_eq_false, !Z.leb_gt, <- not_eq_None_Some.
  destruct notify; naive_solver.
Qed.

Section Create.
Context (cfg : CONFIG) (tot : bool) (cfg_W : W cfg = 32 \/ W cfg = 64).
Context (R : Z -> M STATE unit) (HR : restore_spec tot R).
Context (groups : GROUPS) (alloc : STATE -> option Z) (Halloc : fresh_alloc alloc).
Local Abbreviation wp_ := (wp tot).

(** Either the parameters are refused, or there is no memory, or the event
    exists from now on; in every case the caller is back in a task state. *)
Definition create_result ty tpl fn ctx group out (s : STATE) (r : EFI_STATUS * Z) (s' : STATE) : Prop :=
  task_step s s' /\
  match fst r with
  | EFI_INVALID_PARAMETER => s' = s /\ (forall ty' g', ~ create_params groups ty tpl fn group out ty' g')
  | EFI_OUT_OF_RESOURCES => s' = s /\ alloc s = None
  | EFI_SUCCESS => exists ty' g', create_params groups ty tpl fn group out ty' g' /\
      alloc s = Some (snd r) /\
      exists v', events s' !! snd r = Some v' /\ static (new_event ty' tpl fn ctx g') v'
  | _ => False
  end.

Lemma CreateEventInternal_task ty tpl fn ctx group out (s : STATE) :
  task s -> fn <> Some Fn_CoreCheckTimers \/ tpl = TPL_HIGH_LEVEL - 1 ->
  wp_ (CoreCreateEventInternal cfg groups alloc R ty tpl fn ctx group out)
    (create_result ty tpl fn ctx group out s) s.
Proof.
  intros HT Hfn. pose proof (task_wf _ HT) as Hw. pose proof (proj1 (task_ctl _ HT)) as Htpl.
  assert (Hrefuse : (forall ty' g', ~ create_params groups ty tpl fn group out ty' g') ->
    wp_ (Mret (EFI_INVALID_PARAMETER, 0)) (create_result ty tpl fn ctx group out s) s).
  { intros Hno. apply wp_ret. split; [by apply task_step_refl|done]. }
  unfold CoreCreateEventInternal. destruct out; cbn [negb]; [|apply Hrefuse; by intros ?? [? _]].
  destruct (existsb (Z.eqb ty) mEventTable) eqn:Etab; cbn [negb].
  2:{ apply Hrefuse. intros ty' g' (_ & Hin%in_mEventTable & _). congruence. }
  apply in_mEventTable in Etab.
  destruct (convert_group groups ty group) as [[ty' g']|] eqn:Econv.
  2:{ apply Hrefuse. intros ty' g' (_ & _ & E & _). congruence. }
  set (notify := has ty' (Z.lor EVT_NOTIFY_WAIT EVT_NOTIFY_SIGNAL)).
  destruct (notify && _) eqn:Ebad.
  { apply Hrefuse. intros ty2 g2 (_ & _ & E & Hn). simplify_eq. apply notify_check in Hn.
    fold notify in Hn. congruence. }
  pose proof (proj1 (notify_check notify fn tpl) Ebad) as Hn.
  assert (Hpar : create_params groups ty tpl fn group true ty' g') by by split_and!.
  apply (wp_step _ _ _ _ s s s); [done|]. cbn beta zeta.
  destruct (alloc s) as [e|] eqn:Ealloc.
  2:{ apply wp_ret. split; [by apply task_step_refl|done]. }
  destruct (Halloc s e Ealloc) as [He0 Hfresh].
  fold (new_event ty' tpl fn ctx g'). set (v := mkEvent _ _ _ _ _ _ _ _ _ _ _ _ _ _).
  assert (Ev : v = new_event ty' tpl fn ctx g') by done. clearbody v. subst v.
  pose proof (new_event_ok ty' tpl fn ctx g' Hn Hfn) as Hok. set (v := new_event _ _ _ _ _) in *.
  destruct (create_wf e v s Hw He0 Hfresh Hok) as [Hw1 Hx1]; [done..|].
  eapply wp_step; [done|]. cbn beta.
  assert (E1 : (if has ty' EVT_RUNTIME then Mdata (fun d => set_runtime (gRuntime_EventHead d ++ [e]) d)
      else Mret tt) (set_data (set_events (<[e := v]> (events s)) s) s) =
    Ok (tt, set_data (create_data e v s) s)).
  { unfold create_data. change (RuntimeLink v) with (has ty' EVT_RUNTIME). by case_match. }
  eapply wp_step; [exact E1|]. cbn beta. apply wp_bind.
  assert (HT1 : task (set_data (create_data e v s) s)).
  { destruct (create_fields e v s) as (_ & F2 & _). destruct HT as [Hc _ Hf Hp].
    constructor; [done|done|done|]. intros p. cbn [data set_data]. rewrite F2. apply Hp. }
  apply task_acquire; [done|]. intros s2 HL2 E2. cbn [data set_data gEfiCurrentTpl] in HL2, E2.
  assert (Hv2 : events s2 !! e = Some v) by (by rewrite E2, create_events, lookup_insert_eq).
  assert (Hrel : forall s3 : STATE, locked (gEfiCurrentTpl s) s3 -> ext (create_data e v s) s3 ->
    wp_ (CoreReleaseEventLock cfg R ;;; Mret (EFI_SUCCESS, e)) (create_result ty tpl fn ctx group true s) s3).
  { intros s3 HL3 Hx3. apply wp_bind. eapply task_release; [done|done|done|].
    intros s4 HT4 Et4 Hx4. apply wp_ret.
    assert (Hx : ext (create_data e v s) s4) by by etransitivity.
    split; [split_and!; [done..|by etransitivity]|]. cbn [fst snd]. exists ty', g'. split_and!; [done..|].
    apply (ext_lookup _ _ e v Hx). by rewrite create_events, lookup_insert_eq. }
  apply wp_bind. destruct (has ty' EVT_NOTIFY_SIGNAL) eqn:HS.
  2:{ apply wp_ret. apply Hrel; [done|by rewrite E2]. }
  destruct (signal_link_wf e v s2 (locked_wf _ _ HL2) Hv2) as [Hw3 Hx3]; [done|done|].
  eapply wp_step; [done|]. cbn beta. eapply wp_eq.
  { unfold update. cbn [data set_data set_signalq events]. by rewrite Hv2. }
  apply Hrel; [by apply (locked_data _ s2)|]. rewrite <- E2. exact Hx3.
Qed.
End Create.

(** ** Closing *)

(** The lists without the event; the event itself is still allocated. *)
Definition unlink_data (e : Z) (v : IEVENT) (d : DATA) : DATA :=
  let d1 := if RuntimeLink v
            then set_runtime (filter (fun x => x <> e) (gRuntime_EventHead d)) d else d in
  let d2 := if NotifyLink v
            then set_queue (<[NotifyTpl v := filter (fun x => x <> e) (queue d1 (NotifyTpl v))]>
                              (gEventQueue d1)) (gEventPending d1) d1 else d1 in
  if SignalLink v then set_signalq (filter (fun x => x <> e) (gEventSignalQueue d2)) d2 else d2.

Lemma unlink_fields e v d :
  wf d -> events d !! e = Some v ->
  events (unlink_data e v d) = events d /\ gEventPending (unlink_data e v d) = gEventPending d /\
  (forall p, queue (unlink_data e v d) p = filter (fun x => x <> e) (queue d p)) /\
  gEventSignalQueue (unlink_data e v d) = filter (fun x => x <> e) (gEventSignalQueue d) /\
  gRuntime_EventHead (unlink_data e v d) = filter (fun x => x <> e) (gRuntime_EventHead d) /\
  mEfiTimerList (unlink_data e v d) = mEfiTimerList d /\
  mEfiSystemTime (unlink_data e v d) = mEfiSystemTime d /\
  mEfiCheckTimerEvent (unlink_data e v d) = mEfiCheckTimerEvent d /\
  gIdleLoopEvent (unlink_data e v d) = gIdleLoopEvent d.
Proof.
  intros [Hq Ht He] Hv.
  assert (ER : RuntimeLink v = false -> filter (fun x => x <> e) (gRuntime_EventHead d) = gRuntime_EventHead d).
  { intros E. apply filter_notin. intros (w & Hw & HL)%(r_live _ He). congruence. }
  assert (ES : SignalLink v = false -> filter (fun x => x <> e) (gEventSignalQueue d) = gEventSignalQueue d).
  { intros E. apply filter_notin. intros (w & Hw & HL & _)%(s_live _ He). congruence. }
  assert (EQ : forall p, (NotifyLink v = false \/ p <> NotifyTpl v) ->
    filter (fun x => x <> e) (queue d p) = queue d p).
  { intros p Hp. apply filter_notin. intros (w & Hw & Hpw & HL & _)%(q_live _ Hq).
    destruct Hp; congruence. }
  unfold unlink_data. split_and!; try by (repeat case_match).
  - intros p. destruct (NotifyLink v) eqn:EN.
    + set (d' := if SignalLink v then _ else _).
      assert (GQ : gEventQueue d' =
        <[NotifyTpl v := filter (fun x => x <> e) (queue d (NotifyTpl v))]> (gEventQueue d))
        by (unfold d'; by repeat case_match).
      unfold queue at 1. rewrite GQ. destruct (decide (p = NotifyTpl v)) as [-> |Hne].
      * by rewrite lookup_insert_eq.
      * rewrite lookup_insert_ne by done. rewrite EQ by auto. done.
    + rewrite EQ by auto. by repeat case_match.
  - destruct (SignalLink v); [by repeat case_match|]. rewrite ES by done. by repeat case_match.
  - destruct (RuntimeLink v); [by repeat case_match|]. rewrite ER by done. by repeat case_match.
Qed.

Definition close_data (e : Z) (v : IEVENT) (d : DATA) : DATA :=
  set_events (delete e (events (unlink_data e v d))) (unlink_data e v d).

Lemma close_wf e v d :
  wf d -> events d !! e = Some v -> TimerLink v = false ->
  e <> mEfiCheckTimerEvent d -> e <> gIdleLoopEvent d -> wf (close_data e v d).
Proof.
  intros Hw Hv HL Hc Hi. destruct (unlink_fields e v d Hw Hv) as (F1 & F2 & F3 & F4 & F5 & F6 & F7 & F8 & F9).
  destruct Hw as [Hq Ht He].
  assert (FE : events (close_data e v d) = delete e (events d)) by (unfold close_data; cbn; by rewrite F1).
  assert (FQ : forall p, queue (close_data e v d) p = filter (fun x => x <> e) (queue d p)) by exact F3.
  assert (HK : forall (P : IEVENT -> Prop) e', e' <> e -> (exists w, events d !! e' = Some w /\ P w) ->
    exists w, delete e (events d) !! e' = Some w /\ P w).
  { intros P e' Hne (w & Hw & HP). exists w. by rewrite lookup_delete_ne. }
  assert (HM : forall (P : IEVENT -> Prop) (L : list Z),
    (forall e', e' ∈ L -> exists w, events d !! e' = Some w /\ P w) ->
    forall e', e' ∈ filter (fun x => x <> e) L -> exists w, delete e (events d) !! e' = Some w /\ P w).
  { intros P L H e' [Hne Hin]%list_elem_of_filter. by apply HK, H. }
  assert (HB : forall (Q : IEVENT -> bool) (L : list Z),
    (forall e v, events d !! e = Some v -> Q v = true -> e ∈ L) ->
    forall e' v', delete e (events d) !! e' = Some v' -> Q v' = true -> e' ∈ filter (fun x => x <> e) L).
  { intros Q L H e' v' [Hne Hv']%lookup_delete_Some HQ. apply list_elem_of_filter. split; [done|eauto]. }
  constructor.
  - constructor; intros *; rewrite ?FQ, ?FE; cbn [gEventPending close_data set_events]; rewrite ?F2; try apply Hq.
    + apply (HM (fun v => NotifyTpl v = p /\ NotifyLink v = true /\ notifying v)).
      intros e' Hin. by apply (q_live _ Hq).
    + intros [Hne Hv0]%lookup_delete_Some HLk. apply list_elem_of_filter. split; [done|].
      by apply (q_link _ Hq _ _ Hv0).
    + apply NoDup_filter, (q_nodup _ Hq).
    + intros Hne. apply (q_pending _ Hq). intros E. apply Hne. by rewrite E.
  - constructor; rewrite ?FE; cbn [mEfiTimerList mEfiSystemTime close_data set_events]; rewrite ?F6, ?F7; try apply Ht.
    + intros e' Hin. apply (HK (fun v => TimerLink v = true)); [|by apply (t_live _ Ht)].
      intros ->. destruct (t_live _ Ht e Hin) as (w & Hw & ?). congruence.
    + intros e' v' [_ Hv']%lookup_delete_Some. by apply (t_link _ Ht).
    + apply (StronglySorted_in (fun a b => trigger d a <= trigger d b)); [|apply (t_sorted _ Ht)].
      assert (ET : forall x, x ∈ mEfiTimerList d -> trigger (close_data e v d) x = trigger d x).
      { intros x (w & Hw & ?)%(t_live _ Ht). unfold trigger. rewrite FE, lookup_delete_ne; congruence. }
      intros a b Ha Hb. by rewrite !ET.
  - constructor; rewrite ?FE; cbn [gEventSignalQueue gRuntime_EventHead mEfiCheckTimerEvent gIdleLoopEvent
      close_data set_events]; rewrite ?F4, ?F5, ?F8, ?F9.
    + intros e' v' [_ Hv']%lookup_delete_Some. by apply (e_ok _ He).
    + apply (HM (fun v => SignalLink v = true /\ has (Type_ v) EVT_NOTIFY_SIGNAL = true)), (s_live _ He).
    + apply (HB SignalLink), (s_link _ He).
    + apply NoDup_filter, (s_nodup _ He).
    + apply (HM (fun v => RuntimeLink v = true)), (r_live _ He).
    + apply (HB RuntimeLink), (r_link _ He).
    + apply NoDup_filter, (r_nodup _ He).
    + apply (HK (fun v => has (ExFlag v) EVT_EXFLAG_EVENT_GROUP = false /\
        has (Type_ v) EVT_NOTIFY_SIGNAL = true /\ NotifyTpl v = TPL_HIGH_LEVEL - 1)); [done|apply (check_ok _ He)].
    + rewrite lookup_delete_ne by done. apply (idle_ok _ He).
Qed.

Section Close.
Context (cfg : CONFIG) (tot : bool).
Context (R : Z -> M STATE unit) (HQ : quiet_spec tot R).
Context (Unregister : Z -> M STATE unit) (HU : forall e s, Unregister e s = Ok (tt, s)).
Local Abbreviation wp_ := (wp tot).

Lemma SetTimer_cancel e (s : STATE) v Q :
  task s -> gEfiCurrentTpl s < TPL_HIGH_LEVEL -> events s !! e = Some v ->
  has (Type_ v) EVT_TIMER = true ->
  (forall s', ctl_equiv s s' -> data s' = disarm_data e s -> Q EFI_SUCCESS s') ->
  wp_ (CoreSetTimer cfg R e TimerCancel 0) Q s.
Proof.
  intros HT Hlt Hv HTy HQ'. destruct (HT) as [Hc Hw Hf Hp]. unfold CoreSetTimer.
  destruct (e_ok _ (wf_e _ Hw) e v Hv) as [H0 Hok].
  destruct (Z.eqb_spec e 0); [done|]. eapply wp_step; [by apply load_ok|]. cbn beta.
  rewrite (ok_sig _ Hok), Z.eqb_refl, HTy. cbn [negb]. rewrite orb_false_r.
  change (TimerRelative <? wrapU 32 TimerCancel) with false. cbn iota. apply wp_bind.
  apply acquire_wp; [done|apply Hf|cbn [lock_tpl]; lia|]. intros s1 Ha. destruct (Ha) as (Ht1 & E1 & _).
  eapply wp_step; [apply load_ok; by rewrite E1|]. cbn beta.
  apply disarm_run; [by rewrite E1|by rewrite E1|]. rewrite E1.
  rewrite Z.eqb_refl. eapply wp_step; [done|]. cbn beta. apply wp_bind.
  destruct (disarm_ok e s v Hw Hv) as (Hw2 & _ & _).
  eapply (release_quiet cfg tot R mEfiTimerLock s s1); auto with event; [cbn [lock_tpl]; lia|..].
  - cbn [data set_data]. apply (q_nonneg _ (wf_q _ Hw2)).
  - intros p. cbn [data set_data]. unfold disarm_data, timer_data. rewrite Hv. apply Hp.
Qed.

(** Taking the event off its lists, as three removals. *)
Lemma unlink_run e (s s1 : STATE) v (k : M STATE EFI_STATUS) Q :
  wf s -> events s !! e = Some v -> data s1 = data s ->
  wp_ k Q (set_data (unlink_data e v s) s1) ->
  wp_ ((if RuntimeLink v then remove_runtime e else Mret tt) ;;;
       (if NotifyLink v then remove_notify e else Mret tt) ;;;
       (if SignalLink v then remove_signal e else Mret tt) ;;; k) Q s1.
Proof.
  intros Hw Hv E1 Hk. unfold unlink_data in Hk. destruct s1 as [t1 l1 i1 d1]. cbn [data] in E1. subst d1.
  pose proof (r_link _ (wf_e _ Hw) e v Hv) as Hr. pose proof (q_link _ (wf_q _ Hw) e v Hv) as Hq.
  pose proof (s_link _ (wf_e _ Hw) e v Hv) as Hs.
  assert (S1 : (if RuntimeLink v then remove_runtime e else Mret tt) (mkSTATE t1 l1 i1 s) =
    Ok (tt, mkSTATE t1 l1 i1 (if RuntimeLink v
      then set_runtime (filter (fun x => x <> e) (gRuntime_EventHead s)) s else s))).
  { destruct (RuntimeLink v); [|done]. unfold remove_runtime. cbn [data]. by rewrite decide_True by auto. }
  eapply wp_step; [exact S1|]. cbn beta. set (d2 := if RuntimeLink v then _ else _) in *.
  assert (D2 : events d2 = events s /\ (forall p, queue d2 p = queue s p) /\
    gEventSignalQueue d2 = gEventSignalQueue s) by (unfold d2; by destruct (RuntimeLink v)).
  destruct D2 as (D2e & D2q & D2s).
  assert (S2 : (if NotifyLink v then remove_notify e else Mret tt) (mkSTATE t1 l1 i1 d2) =
    Ok (tt, mkSTATE t1 l1 i1 (if NotifyLink v
      then set_queue (<[NotifyTpl v := filter (fun x => x <> e) (queue d2 (NotifyTpl v))]> (gEventQueue d2))
             (gEventPending d2) d2 else d2))).
  { destruct (NotifyLink v); [|done]. unfold remove_notify. cbn [data]. rewrite D2e, Hv, D2q.
    by rewrite decide_True by auto. }
  eapply wp_step; [exact S2|]. cbn beta. set (d3 := if NotifyLink v then _ else _) in *.
  assert (D3s : gEventSignalQueue d3 = gEventSignalQueue s) by (unfold d3; by destruct (NotifyLink v)).
  eapply wp_step; [|exact Hk]. destruct (SignalLink v); [|done].
  unfold remove_signal. cbn [data]. rewrite D3s. by rewrite decide_True by auto.
Qed.

(** What is left of CoreCloseEvent once the timer is off. *)
Lemma close_run e (s : STATE) v :
  task s -> events s !! e = Some v -> TimerLink v = false ->
  e <> mEfiCheckTimerEvent s -> e <> gIdleLoopEvent s ->
  wp_ (CoreAcquireEventLock cfg ;;;
      let! v1 := load e in
      (if RuntimeLink v1 then remove_runtime e else Mret tt) ;;;
      (if NotifyLink v1 then remove_notify e else Mret tt) ;;;
      (if SignalLink v1 then remove_signal e else Mret tt) ;;;
      CoreReleaseEventLock cfg R ;;;
      let! v2 := load e in
      (if has (ExFlag v2) EVT_EXFLAG_EVENT_PROTOCOL_NOTIFICATION then Unregister e else Mret tt) ;;;
      Mdata (fun d => set_events (delete e (events d)) d) ;;;
      Mret EFI_SUCCESS)
    (fun st s' => st = EFI_SUCCESS /\ task s' /\ gEfiCurrentTpl s' = gEfiCurrentTpl s /\
       data s' = close_data e v s) s.
Proof.
  intros HT Hv HL Hnc Hni. destruct (HT) as [Hc Hw Hf Hp]. apply wp_bind.
  apply acquire_wp; [done|apply Hf|apply Hc|]. intros s1 Ha. destruct (Ha) as (Ht1 & E1 & _).
  eapply wp_step; [apply load_ok; by rewrite E1|]. cbn beta.
  apply (unlink_run e s s1 v); [done..|]. destruct (unlink_fields e v s Hw Hv) as (F1 & F2 & _).
  apply wp_bind. eapply (release_quiet cfg tot R gEventQueueLock s s1); auto with event; [apply Hc|..].
  { cbn [data set_data]. rewrite F2. apply (q_nonneg _ (wf_q _ Hw)). }
  { intros p. cbn [data set_data]. rewrite F2. apply Hp. }
  intros s3 H3 E3. cbn [data set_data] in E3.
  eapply wp_step; [apply load_ok; rewrite E3, F1; exact Hv|]. cbn beta.
  assert (S4 : (if has (ExFlag v) EVT_EXFLAG_EVENT_PROTOCOL_NOTIFICATION then Unregister e else Mret tt) s3
    = Ok (tt, s3)) by (destruct (has _ _); [apply HU|done]).
  eapply wp_step; [exact S4|]. cbn beta. eapply wp_step; [done|]. apply wp_ret.
  assert (Ed : set_events (delete e (events s3)) s3 = close_data e v s) by (by rewrite E3).
  split_and!; [done| |by apply H3|exact Ed].
  constructor; cbn [data set_data gEfiCurrentTpl].
  - eapply ctl_equiv_ok; [|exact Hc]. by transitivity s3.
  - rewrite Ed. by apply close_wf.
  - intros l. eapply (ctl_equiv_free _ s); [|apply Hf]. by transitivity s3.
  - intros p. rewrite Ed. cbn [gEventPending close_data set_events]. rewrite F2, (proj1 H3). apply Hp.
Qed.

(** CoreCloseEvent: the event is gone from every list and freed; no other
    event changes. *)
Lemma CloseEvent_task e (s : STATE) v :
  task s -> gEfiCurrentTpl s < TPL_HIGH_LEVEL -> events s !! e = Some v ->
  e <> mEfiCheckTimerEvent s -> e <> gIdleLoopEvent s ->
  wp_ (CoreCloseEvent cfg R Unregister e) (fun st s' => st = EFI_SUCCESS /\ task s' /\
    gEfiCurrentTpl s' = gEfiCurrentTpl s /\
    events s' = delete e (events s) /\ (forall p, queue s' p = filter (fun x => x <> e) (queue s p)) /\
    mEfiTimerList s' = filter (fun x => x <> e) (mEfiTimerList s) /\
    gEventSignalQueue s' = filter (fun x => x <> e) (gEventSignalQueue s)) s.
Proof.
  intros HT Hlt Hv Hnc Hni. pose proof (task_wf _ HT) as Hw. unfold CoreCloseEvent.
  destruct (e_ok _ (wf_e _ Hw) e v Hv) as [H0 Hok].
  destruct (Z.eqb_spec e 0); [done|]. eapply wp_step; [by apply load_ok|]. cbn beta.
  rewrite (ok_sig _ Hok), Z.eqb_refl. cbn [negb]. apply wp_bind.
  destruct (has (Type_ v) EVT_TIMER) eqn:HTy.
  - apply wp_bind. eapply SetTimer_cancel; [done..|]. intros s1 H1 E1. apply wp_ret.
    destruct (disarm_ok e s v Hw Hv) as (Hw1 & _ & Hv1). rewrite <- E1 in Hw1, Hv1.
    assert (EP : gEventPending s1 = gEventPending s /\ (forall p, queue s1 p = queue s p) /\
      mEfiTimerList s1 = filter (fun x => x <> e) (mEfiTimerList s) /\
      gEventSignalQueue s1 = gEventSignalQueue s /\ mEfiCheckTimerEvent s1 = mEfiCheckTimerEvent s /\
      gIdleLoopEvent s1 = gIdleLoopEvent s /\ events s1 = <[e := upd_Timer false 0 0 v]> (events s)).
    { rewrite E1. unfold disarm_data, timer_data. by rewrite Hv. }
    destruct EP as (P1 & P2 & P3 & P4 & P5 & P6 & P7). destruct (HT) as [Hc _ Hf Hp].
    assert (HT1 : task s1).
    { constructor; [by eapply ctl_equiv_ok|done|intros l; eapply ctl_equiv_free; [done|apply Hf]|].
      intros p. rewrite P1, (proj1 H1). apply Hp. }
    eapply wp_mono; [eapply close_run; [done|exact Hv1|done|congruence|congruence]|].
    intros st s2 (-> & HT2 & Et2 & E2).
    destruct (unlink_fields e _ s1 Hw1 Hv1) as (F1 & _ & F3 & F4 & _ & F6 & _).
    rewrite E2. cbn [close_data set_events events mEfiTimerList gEventSignalQueue].
    rewrite F1, F4, F6, P3, P4, P7, delete_insert_eq. split_and!; [done|done|by rewrite Et2, (proj1 H1)|done| |done|done].
    intros p. rewrite <- P2. apply F3.
  - assert (HL : TimerLink v = false).
    { destruct (TimerLink v) eqn:E; [|done]. by rewrite (ok_timer _ Hok E) in HTy. }
    apply wp_ret. eapply wp_mono; [by eapply close_run|]. intros st s2 (-> & HT2 & Et2 & E2).
    destruct (unlink_fields e _ s Hw Hv) as (F1 & _ & F3 & F4 & _ & F6 & _).
    rewrite E2. cbn [close_data set_events events mEfiTimerList gEventSignalQueue].
    rewrite F1, F4, F6. split_and!; [done|done|done|done|exact F3| |done].
    symmetry. by apply (filter_not_linked e s v (wf_t _ Hw)).
Qed.
End Close.
