(* ===== verification/EventOrder.v ===== *)
(** * EventOrder: the order in which notifications are dispatched

    For notification functions that call no event service, lowering the TPL
    is a total function: all notifications queued above the new level run,
    highest level first and in the order they were queued. *)

From stdpp Require Import base option list gmap fin_maps sorting list_numbers.
From Stdlib Require Import ZArith Lia.
From S2P Require Import Prelude BaseMath EventState Event EventInv EventSafe EventTimer EventDispatch.

Local Open Scope Z_scope.
Local Open Scope edk_scope.

(** No queued notification is the timer check. *)
Definition inert_queues (d : DATA) : Prop :=
  forall p e v, e ∈ queue d p -> events d !! e = Some v -> NotifyFunction v <> Some Fn_CoreCheckTimers.

(** The calls that lowering from [hi] to [t] makes. *)
Definition dispatch_trace (d : DATA) (hi t : Z) : list (Z * Z) :=
  concat (map (fun p => map (fun e => (e, p)) (queue d p)) (rev (seqZ (t + 1) (hi - t)))).

Lemma dispatch_trace_nil d t : dispatch_trace d t t = [].
Proof. unfold dispatch_trace. by rewrite Z.sub_diag. Qed.

Lemma dispatch_trace_step d d' hi t :
  t < hi -> (forall q, q < hi -> queue d' q = queue d q) ->
  dispatch_trace d hi t = map (fun e => (e, hi)) (queue d hi) ++ dispatch_trace d' (hi - 1) t.
Proof.
  intros Hlt HQ. unfold dispatch_trace.
  replace (hi - t) with ((hi - 1 - t) + 1) by lia.
  rewrite seqZ_app by lia. rewrite rev_app_distr. cbn [map].
  replace (seqZ (t + 1 + (hi - 1 - t)) 1) with [hi].
  2:{ unfold seqZ. change (Z.to_nat 1) with 1%nat. cbn [seq fmap list_fmap]. f_equal. lia. }
  cbn [rev app map concat]. f_equal. f_equal. apply map_ext_in. intros q Hq.
  apply in_rev in Hq. rewrite HQ; [done|]. apply list_elem_of_In, elem_of_seqZ in Hq. lia.
Qed.

(** Only the queue of level [p] changed; everything else about the queues,
    and the functions of the events, did not. *)
Definition only_level (p : Z) (d d' : DATA) : Prop :=
  (forall q, q <> p -> queue d' q = queue d q) /\ ext d d'.

Section Inert.
Context (cfg : CONFIG) (Notify : nat -> Z -> M STATE unit).
Context (cfg_W : W cfg = 32 \/ W cfg = 64) (Hinert : forall n e s, Notify n e s = Ok (tt, s)).
Context (R : Z -> M STATE unit) (HQ : quiet_spec true R).

Lemma call_inert fuel e fn (s : STATE) :
  fn <> Fn_CoreCheckTimers ->
  call_notify cfg Notify R fuel e fn s = Ok (tt, set_data (add_call (e, gEfiCurrentTpl s) s) s).
Proof.
  intros Hfn. unfold call_notify. rewrite (Mbind_Ok GetState _ s s s eq_refl).
  unfold Mbind, Mdata. destruct fn; [done|done|apply Hinert].
Qed.

Lemma inert_ext (d d' : DATA) :
  inert_queues d -> ext d d' -> (forall q e, e ∈ queue d' q -> e ∈ queue d q) -> wf d -> inert_queues d'.
Proof.
  intros HI [Hx _] HQ' Hw p e v' Hin Hv'. apply HQ' in Hin.
  destruct (q_live _ (wf_q _ Hw) e p Hin) as (v & Hv & _).
  destruct (Hx e v Hv) as (v2 & Hv2 & Hst). simplify_eq.
  unfold static in Hst. destruct Hst as (_ & _ & _ & -> & _). by apply (HI p e v).
Qed.

Lemma dispatch_inert p : forall l fuel (s : STATE),
  locked p s -> 0 <= p <= TPL_HIGH_LEVEL -> queue s p = l -> (length l < fuel)%nat ->
  pending_le s p -> inert_queues s ->
  wp true (dispatch_loop cfg Notify R fuel p) (fun _ s' => locked p s' /\ queue s' p = [] /\
    only_level p s s' /\ gEventPending s' = gEventPending s /\
    Calls s' = Calls s ++ map (fun e => (e, p)) l) s.
Proof.
  induction l as [|e l IH]; intros fuel s HL Hp EQ Hfuel Hle HI; (destruct fuel as [|fuel]; [cbn in Hfuel; lia|]);
    cbn [dispatch_loop]; (apply (wp_step _ _ _ _ s s s); [done|]); cbn beta; rewrite EQ.
  { apply wp_ret. rewrite app_nil_r. split_and!; [done|done|by split|done|done]. }
  pose proof (locked_wf _ _ HL) as Hw.
  destruct (q_live _ (wf_q _ Hw) e p) as (v & Hv & Hp' & HNL & Hn); [rewrite EQ; left|].
  eapply wp_step; [by apply load_ok|]. cbn beta.
  destruct (take_ok s e v Hw Hv) as (Hw1 & Hs1 & P1 & Q1).
  assert (Hnd : e ∉ l) by (pose proof (q_nodup _ (wf_q _ Hw) p) as Hnd; rewrite EQ in Hnd;
    by apply NoDup_cons in Hnd as [? _]).
  assert (EQ1 : queue (take_data e v s) p = l).
  { rewrite Q1, (pop_queue s e v p Hv), decide_True, EQ, filter_cons_False by auto. by apply filter_notin. }
  assert (EQo : forall q, q <> p -> queue (take_data e v s) q = queue s q).
  { intros q Hq. rewrite Q1, (pop_queue s e v q Hv), decide_False by congruence. done. }
  apply (take_run e s v); [done|done|rewrite Hp', EQ; left|].
  apply wp_bind. eapply task_release_quiet; [done|by apply locked_data|done|intros q; cbn [data set_data]; rewrite P1; apply Hle|].
  intros s2 HT2 Et2 E2. cbn [data set_data] in E2.
  destruct (sim_lookup _ _ _ _ Hs1 Hv) as (v2 & Hv2 & Ec). rewrite <- E2 in Hv2.
  destruct (e_ok _ (wf_e _ Hw) e v Hv) as [_ Hok].
  destruct (ok_notify _ Hok Hn) as [_ [fn Hfn]].
  assert (Hfn2 : NotifyFunction v2 = Some fn) by (apply core_fields in Ec; naive_solver congruence).
  eapply wp_step; [by apply load_ok|]. cbn beta.
  eapply wp_step; [apply ASSERT_true; apply bool_decide_eq_true; by exists fn|]. cbn beta.
  rewrite Hfn2.
  assert (Hfnc : fn <> Fn_CoreCheckTimers).
  { intros ->. apply (HI p e v); [rewrite EQ; left|done|done]. }
  eapply wp_step; [by apply call_inert|]. cbn beta. rewrite Et2. apply wp_bind.
  destruct (add_call_wf (e, p) s2 (task_wf _ HT2)) as [Hw3 Hx3].
  apply task_acquire; [destruct HT2; by constructor|]. intros s4 HL4 E4.
  cbn [data set_data gEfiCurrentTpl] in HL4, E4. rewrite Et2 in HL4. rewrite E2 in E4.
  assert (Q4 : forall q, queue s4 q = queue (take_data e v s) q) by (intros q; by rewrite E4).
  assert (Hx4 : ext s s4).
  { etransitivity; [by apply sim_ext|]. rewrite E4, <- E2. exact Hx3. }
  eapply wp_mono; [apply IH|]; [done|done|by rewrite Q4|cbn in Hfuel; lia| | |].
  - intros q. rewrite E4. cbn [gEventPending add_call]. rewrite P1. apply Hle.
  - apply (inert_ext s); [done|done| |done]. intros q x. rewrite Q4.
    destruct (decide (q = p)) as [-> |]; [rewrite EQ1, EQ; by right|by rewrite EQo].
  - intros [] s5 (HL5 & EQ5 & [HO5 Hx5] & P5 & C5). split_and!; [done|done| | |].
    + split; [|by etransitivity]. intros q Hq. rewrite HO5, Q4 by done. by apply EQo.
    + rewrite P5, E4. cbn [gEventPending add_call]. exact P1.
    + rewrite C5, E4. cbn [Calls add_call map]. rewrite (sim_calls _ _ Hs1), <- app_assoc. done.
Qed.

Lemma dispatch_level fuel p (s : STATE) :
  task s -> gEfiCurrentTpl s = p -> TPL_APPLICATION < p < TPL_HIGH_LEVEL ->
  (length (queue s p) < fuel)%nat -> inert_queues s ->
  wp true (CoreDispatchEventNotifies cfg Notify R fuel p) (fun _ s' => task s' /\
    queue s' p = [] /\ only_level p s s' /\ pending_le s' (p - 1) /\
    Calls s' = Calls s ++ map (fun e => (e, p)) (queue s p)) s.
Proof.
  intros HT Ht Hp Hfuel HI. assert (Hp0 : 0 <= p < TPL_HIGH_LEVEL) by (unfold TPL_APPLICATION in *; lia).
  unfold CoreDispatchEventNotifies. apply wp_bind. apply task_acquire; [done|].
  intros s1 HL1 E1. rewrite Ht in HL1. apply (wp_step _ _ _ _ s1 s1 s1); [done|].
  eapply wp_step; [apply ASSERT_true; rewrite (locked_lock _ _ HL1); apply Z.eqb_refl|]. cbn beta.
  apply wp_bind. pose proof (task_settled _ HT) as Hset. rewrite Ht in Hset.
  eapply wp_mono; [apply (dispatch_inert p (queue s p)); [done|lia|by rewrite E1|done|by rewrite E1|by rewrite E1]|].
  intros [] s2 (HL2 & EQ2 & [HO2 Hx2] & P2 & C2). rewrite E1 in *.
  apply (wp_step _ _ _ _ s2 s2 s2); [done|]. cbn beta. rewrite tpl_bit_ok by done.
  eapply wp_step; [done|]. cbn beta. pose proof (locked_wf _ _ HL2) as Hw2.
  pose proof (clear_wf (W cfg) p s2 cfg_W Hw2 Hp0 EQ2) as Hw3.
  assert (Hcl : pending_le (clear_data (W cfg) p s2) (p - 1)).
  { intros q Hq. rewrite clear_bit in Hq by done. apply andb_true_iff in Hq as [Hq1 Hq2].
    rewrite P2 in Hq1. specialize (Hset q Hq1). apply negb_true_iff, bool_decide_eq_false in Hq2. lia. }
  eapply task_release_quiet; [done|by apply locked_data|lia| |].
  { cbn [data set_data]. eapply pending_le_mono; [exact Hcl|lia]. }
  intros s3 HT3 Et3 E3. cbn [data set_data] in E3. rewrite E3. split_and!; [done|exact EQ2| |exact Hcl|exact C2].
  split; [exact HO2|]. etransitivity; [exact Hx2|]. repeat split. intros e v Hv. by exists v.
Qed.

Lemma restore_loop_inert L t : 0 <= t -> forall n hi fuel (s : STATE),
  hi = t + Z.of_nat n -> hi < TPL_HIGH_LEVEL ->
  ctl_ok s -> wf s -> all_free s -> pending_le s hi -> inert_queues s ->
  (forall p, (length (queue s p) <= L)%nat) -> (L + n < fuel)%nat ->
  wp true (restore_loop cfg Notify R fuel t) (fun _ s' => ctl_ok s' /\ wf s' /\ all_free s' /\
    pending_le s' t /\ ext s s' /\ (forall q, q <= t -> queue s' q = queue s q) /\
    Calls s' = Calls s ++ dispatch_trace s hi t) s.
Proof.
  intros Ht. induction n as [|n IH]; intros hi fuel s Hhi Hlt Hc Hw Hf Hle HI HL Hfuel.
  - assert (hi = t) as -> by lia. destruct fuel as [|fuel]; [lia|]. cbn [restore_loop].
    eapply wp_eq.
    { rewrite (Mbind_Ok GetState _ s s s eq_refl).
      destruct (Z.eqb_spec (gEventPending s) 0) as [|Hne]; [done|].
      destruct (pending_log2 cfg s t) as [-> Hl]; [apply (q_nonneg _ (wf_q _ Hw))|done|lia|done|].
      by destruct (Z.leb_spec (Z.log2 (gEventPending s)) t); [|lia]. }
    rewrite dispatch_trace_nil, app_nil_r. by split_and!.
  - destruct (Z.testbit (gEventPending s) hi) eqn:EB.
    2:{ assert (EQ : queue s hi = []).
        { destruct (decide (queue s hi = [])) as [|Hne]; [done|].
          apply (q_pending _ (wf_q _ Hw)) in Hne. congruence. }
        rewrite (dispatch_trace_step s s hi t) by (done || lia). rewrite EQ. cbn [map app].
        apply IH; try done; [lia|lia| |lia]. intros q Hq. specialize (Hle q Hq).
        assert (q <> hi) by congruence. lia. }
    destruct fuel as [|fuel]; [lia|]. cbn [restore_loop].
    apply (wp_step _ _ _ _ s s s); [done|]. cbn beta.
    destruct (Z.eqb_spec (gEventPending s) 0) as [E0|E0]; [by rewrite E0, Z.bits_0 in EB|].
    destruct (log2_pending cfg s Hw E0) as (EH & Hp & Hle'). rewrite EH.
    assert (Ehi : Z.log2 (gEventPending s) = hi).
    { specialize (Hle' hi EB). specialize (Hle (Z.log2 (gEventPending s))
        (Z.bit_log2 (gEventPending s) ltac:(pose proof (q_nonneg _ (wf_q _ Hw)); lia))). lia. }
    rewrite Ehi in *. destruct (Z.leb_spec hi t); [lia|].
    eapply wp_step; [done|]. cbn beta. destruct (Z.ltb_spec hi TPL_HIGH_LEVEL); [|lia].
    destruct (SetInterrupt_ok cfg true (set_Tpl hi s)) as [i Ei].
    eapply wp_step; [exact Ei|]. cbn beta. apply wp_bind.
    eapply wp_mono; [apply dispatch_level|]; [|done|done|specialize (HL hi); cbn [data set_interrupts set_Tpl]; lia|done|].
    { constructor; [|done|done|done]. destruct Hc as [Hc Hl]. split; [|done].
      unfold TPL_APPLICATION, TPL_HIGH_LEVEL in *. cbn [gEfiCurrentTpl set_interrupts set_Tpl]. lia. }
    cbn [data set_interrupts set_Tpl]. intros [] s2 (HT2 & EQ2 & [HO2 Hx2] & Hle2 & C2). destruct HT2.
    eapply wp_mono; [apply (IH (hi - 1))|]; [lia|lia|done|done|done|done| | |lia|].
    + apply (inert_ext s); [done|done| |done]. intros q e.
      destruct (decide (q = hi)) as [-> |]; [rewrite EQ2; by intros ?%elem_of_nil|by rewrite HO2].
    + intros q. destruct (decide (q = hi)) as [-> |]; [rewrite EQ2; cbn; lia|by rewrite HO2].
    + intros [] s3 (? & ? & ? & ? & Hx3 & HQ3 & C3). split_and!; [done..|by etransitivity| |].
      * intros q Hq. rewrite HQ3 by done. apply HO2. lia.
      * rewrite C3, C2, <- app_assoc. f_equal. symmetry. apply dispatch_trace_step; [lia|].
        intros q Hq. apply HO2. lia.
Qed.
End Inert.
