(* ===== verification/EventTheorems.v ===== *)
(** * EventTheorems: the properties of the event, timer and TPL services *)

From stdpp Require Import base option list gmap fin_maps sorting list_numbers.
From Stdlib Require Import ZArith Lia.
From S2P Require Import Prelude BaseMath EventState Event EventInv EventSafe EventTimer EventDispatch.
From S2P Require Import EventServices EventLife EventOrder.

Local Open Scope Z_scope.
Local Open Scope edk_scope.

(** ** A concrete system for the witnesses *)

Definition demo_cfg : CONFIG := mkConfigE 64 false true None 100000.
(** Notification functions that do nothing. *)
Definition demo_notify (n : nat) (e : Z) : M STATE unit := Mret tt.

Definition demo_event (ty tpl : Z) (fn : EFI_EVENT_NOTIFY) (link : bool) (t p : Z) : IEVENT :=
  mkEvent EVENT_SIGNATURE ty 0 (has ty EVT_NOTIFY_SIGNAL) tpl (Some fn) 0 0 false 0 false link t p.

(** The timer check event 1, the idle event 2, a callback 3 at TPL_CALLBACK,
    a periodic timer 4 at TPL_NOTIFY due at [t] with period [p]. *)
Definition demo_data (now t p : Z) : DATA :=
  mkData ∅ 0 [4; 3; 2; 1]
    (<[1 := demo_event EVT_NOTIFY_SIGNAL 30 Fn_CoreCheckTimers false 0 0]>
     (<[2 := demo_event EVT_NOTIFY_SIGNAL 16 Fn_EfiEventEmptyFunction false 0 0]>
      (<[3 := demo_event EVT_NOTIFY_SIGNAL 8 (Fn_User 0) false 0 0]>
       (<[4 := demo_event (Z.lor EVT_TIMER EVT_NOTIFY_SIGNAL) 16 (Fn_User 1) true t p]> ∅))))
    [] [4] now 1 2 [].

Definition demo_state (tpl : Z) (d : DATA) : STATE :=
  mkSTATE tpl (fun l => mkLock (lock_tpl l) 4 EfiLockReleased) false d.

Lemma demo_event_ok ty tpl fn link t p :
  TPL_APPLICATION < tpl < TPL_HIGH_LEVEL -> (fn = Fn_CoreCheckTimers -> tpl = 30) ->
  (link = true -> has ty EVT_TIMER = true) -> inU 64 t -> inU 64 p ->
  event_ok (demo_event ty tpl fn link t p).
Proof.
  intros Ht Hc Hl ??.
  constructor; [done|intros _; split; [done|by eexists]|intros [= E]; exact (Hc E)|exact Hl|done|done].
Qed.

Lemma demo_wf now t p : inU 64 now -> inU 64 t -> inU 64 p -> wf (demo_data now t p).
Proof.
  intros Hn Ht Hp. assert (Hz : inU 64 0) by (unfold inU; lia).
  constructor; constructor.
  - intros e q H. by apply elem_of_nil in H.
  - intros e v H HL. cbn [events demo_data] in H.
    repeat (apply lookup_insert_Some in H as [[<- <-]|[? H]]; [done|]). by rewrite lookup_empty in H.
  - intros q. apply NoDup_nil_2.
  - by intros q H.
  - intros q H. by rewrite Z.bits_0 in H.
  - done.
  - intros e He. apply list_elem_of_singleton in He as ->. by eexists.
  - intros e v H HL. cbn [events demo_data] in H.
    repeat (apply lookup_insert_Some in H as [[<- <-]|[? H]]; [first [discriminate HL|cbn; by left]|]).
    by rewrite lookup_empty in H.
  - apply NoDup_singleton.
  - repeat constructor.
  - done.
  - intros e v H. cbn [events demo_data] in H.
    repeat (apply lookup_insert_Some in H as [[<- <-]|[? H]]; [split; [done|by apply demo_event_ok]|]).
    by rewrite lookup_empty in H.
  - intros e He. cbn [gEventSignalQueue demo_data] in He.
    repeat (apply elem_of_cons in He as [-> |He]; [by eexists|]). by apply elem_of_nil in He.
  - intros e v H HL. cbn [events demo_data] in H.
    repeat (apply lookup_insert_Some in H as [[<- <-]|[? H]]; [cbn; set_solver|]).
    by rewrite lookup_empty in H.
  - cbn. by_decide.
  - intros e He. by apply elem_of_nil in He.
  - intros e v H HL. cbn [events demo_data] in H.
    repeat (apply lookup_insert_Some in H as [[<- <-]|[? H]]; [done|]). by rewrite lookup_empty in H.
  - apply NoDup_nil_2.
  - by eexists.
  - by eexists.
Qed.

Lemma demo_ctl tpl d : 0 <= tpl <= TPL_HIGH_LEVEL -> ctl_ok (demo_state tpl d).
Proof. intros H. by split. Qed.

Lemma demo_task tpl now t p :
  0 <= tpl <= TPL_HIGH_LEVEL -> inU 64 now -> inU 64 t -> inU 64 p ->
  task (demo_state tpl (demo_data now t p)).
Proof.
  intros Ht Hn Ht' Hp. constructor; [by apply demo_ctl|by apply demo_wf|done|].
  intros q H. by rewrite Z.bits_0 in H.
Qed.

Lemma demo_notify_spec tot : notify_spec tot demo_notify.
Proof. intros n e s H. apply wp_ret. by apply task_step_refl. Qed.

(** ** Safety of the services *)

(** C1 Raising, restoring, signalling and checking are
    safe and settle the system.  In any task state, with any notification
    functions that keep their contract, and however deep dispatches nest: no
    ASSERT fails and no stale link or dead event is touched; when the service
    returns, the caller is at the TPL it should be at, the core's locks are
    free, the queues, timers and events are consistent, no event has
    disappeared, and no notification above the current TPL is pending.
    CoreSignalEvent reports success; CoreCheckEvent refuses NOTIFY_SIGNAL
    events and reports a signalled event as such. *)
Theorem Event_tpl_safe cfg Notify depth fuel (s : STATE) :
  W cfg = 32 \/ W cfg = 64 -> notify_spec false Notify -> task s ->
  let R := CoreRestoreTpl cfg Notify depth fuel in
  (forall t, 0 <= t <= gEfiCurrentTpl s ->
     wp false (R t) (fun _ s' => task s' /\ gEfiCurrentTpl s' = t /\ ext s s') s) /\
  (forall t, gEfiCurrentTpl s <= t <= TPL_HIGH_LEVEL ->
     exists s', CoreRaiseTpl cfg t s = Ok (gEfiCurrentTpl s, s') /\
       task s' /\ gEfiCurrentTpl s' = t /\ data s' = data s) /\
  (forall e v, events s !! e = Some v ->
     wp false (CoreSignalEvent cfg R e) (fun st s' => st = EFI_SUCCESS /\ task_step s s') s /\
     wp false (CoreCheckEvent cfg R e) (fun st s' => task_step s s' /\
       (if has (Type_ v) EVT_NOTIFY_SIGNAL then st = EFI_INVALID_PARAMETER
        else (st = EFI_SUCCESS \/ st = EFI_NOT_READY) /\
             (SignalCount v <> 0 -> st = EFI_SUCCESS))) s).
Proof.
  intros HW HN HT R. pose proof (CoreRestoreTpl_safe cfg Notify HW HN depth fuel) as HR.
  pose proof (CoreRestoreTpl_quiet cfg Notify false depth fuel ltac:(done)) as HQ. fold R in HR, HQ.
  split_and!.
  - intros t Ht. destruct HT. by apply HR.
  - intros t Ht. destruct (RaiseTpl_ok cfg t s Ht) as [i E]. eexists. split; [exact E|].
    destruct HT as [[Hc Hl] Hw Hf Hp]. split_and!; [|done|done]. constructor; [|done|done|].
    + split; [cbn; lia|done].
    + intros q Hq. specialize (Hp q Hq). cbn. lia.
  - intros e v Hv. split; [by apply (signal_task cfg false HW R e s v)|].
    eapply wp_mono; [by apply (CheckEvent_task cfg false HW R HR e s v)|].
    intros st s' [Hst Hcase]. split; [done|]. case_match; [done|]. naive_solver.
Qed.

Lemma Event_tpl_safe_witness :
  wp false (CoreSignalEvent demo_cfg (CoreRestoreTpl demo_cfg demo_notify 40 100) 3)
    (fun st s' => st = EFI_SUCCESS /\ task_step (demo_state 4 (demo_data 0 50 10)) s')
    (demo_state 4 (demo_data 0 50 10)).
Proof.
  destruct (Event_tpl_safe demo_cfg demo_notify 40 100 (demo_state 4 (demo_data 0 50 10)))
    as (_ & _ & H); [by right|apply demo_notify_spec|apply demo_task; by_decide|].
  destruct (H 3 (demo_event EVT_NOTIFY_SIGNAL 8 (Fn_User 0) false 0 0) eq_refl) as [H3 _]. exact H3.
Defined.

(** C4 The timer services are safe in the same
    sense: CoreTimerTick from any level, CoreSetTimer from any level below
    TPL_HIGH_LEVEL; CoreSetTimer refuses exactly the unknown delay types and
    the events that are not timers. *)
Theorem Timer_services_safe cfg Notify depth fuel (s : STATE) :
  W cfg = 32 \/ W cfg = 64 -> inU 64 (TimerPeriod cfg) -> notify_spec false Notify -> task s ->
  let R := CoreRestoreTpl cfg Notify depth fuel in
  (forall Duration, wp false (CoreTimerTick cfg R Duration) (fun _ s' => task_step s s') s) /\
  (forall e v ty trig, events s !! e = Some v -> gEfiCurrentTpl s < TPL_HIGH_LEVEL -> inU 64 trig ->
     wp false (CoreSetTimer cfg R e ty trig) (fun st s' => task_step s s' /\
       st = if (TimerRelative <? wrapU 32 ty) || negb (has (Type_ v) EVT_TIMER)
            then EFI_INVALID_PARAMETER else EFI_SUCCESS) s).
Proof.
  intros HW HP HN HT R. pose proof (CoreRestoreTpl_safe cfg Notify HW HN depth fuel) as HR.
  pose proof (CoreRestoreTpl_quiet cfg Notify false depth fuel ltac:(done)) as HQ. fold R in HR, HQ. split.
  - intros D. by apply TimerTick_task.
  - intros e v ty trig Hv Hlt Htr. by apply SetTimer_task.
Qed.

Lemma Timer_services_safe_witness :
  wp false (CoreTimerTick demo_cfg (CoreRestoreTpl demo_cfg demo_notify 40 100) 60)
    (fun _ s' => task_step (demo_state 4 (demo_data 0 50 10)) s') (demo_state 4 (demo_data 0 50 10)).
Proof.
  destruct (Timer_services_safe demo_cfg demo_notify 40 100 (demo_state 4 (demo_data 0 50 10)))
    as (H & _); [by right|by_decide|apply demo_notify_spec|apply demo_task; by_decide|].
  exact (H 60).
Defined.

(** ** Dispatch order *)

(** C2 Lowering the TPL dispatches in priority order, for notification
    functions that leave the event state as it is (they call no event or
    timer service) and when the queues hold no timer check: the event of
    CoreCheckTimers, which signals further events, is not queued.  Under
    these two conditions restoring a lower TPL [t] returns (the fuel needed is
    the longest queue plus one unit per level), has called exactly the
    notifications that were queued above [t], highest TPL first, at that TPL,
    and within a level in the order they were queued; the queues at or below
    [t] are untouched, and the caller runs at [t].  Nothing is said here of
    notifications that signal, create or close events: C1 covers those, for
    safety only. *)
Theorem Dispatch_order cfg Notify depth fuel (s : STATE) L t :
  W cfg = 32 \/ W cfg = 64 -> (forall n e s, Notify n e s = Ok (tt, s)) ->
  ctl_ok s -> wf s -> all_free s -> inert_queues s ->
  0 <= t <= gEfiCurrentTpl s -> t < TPL_HIGH_LEVEL ->
  (forall p, (length (queue s p) <= L)%nat) -> (L + 31 < fuel)%nat -> (1 < depth)%nat ->
  exists s', CoreRestoreTpl cfg Notify depth fuel t s = Ok (tt, s') /\
    gEfiCurrentTpl s' = t /\ task s' /\
    Calls s' = Calls s ++ dispatch_trace s (TPL_HIGH_LEVEL - 1) t /\
    (forall p, t < p -> queue s' p = []) /\ (forall p, p <= t -> queue s' p = queue s p).
Proof.
  intros HW HN Hc Hw Hf HI Ht Htl HL Hfuel Hd. destruct depth as [|depth]; [lia|]. cbn [CoreRestoreTpl].
  pose proof (CoreRestoreTpl_quiet cfg Notify true depth fuel ltac:(lia)) as HQ.
  set (R := CoreRestoreTpl cfg Notify depth fuel) in *.
  destruct (wp_total (restore_body cfg Notify R fuel t) (fun _ s' => gEfiCurrentTpl s' = t /\ task s' /\
    Calls s' = Calls s ++ dispatch_trace s (TPL_HIGH_LEVEL - 1) t /\
    (forall p, t < p -> queue s' p = []) /\ (forall p, p <= t -> queue s' p = queue s p)) s)
    as ([] & s' & E & H); [|by exists s'].
  apply restore_body_wp; [done|done|]. intros t1 Ht1.
  eapply wp_mono; [apply (restore_loop_inert cfg Notify HW HN R HQ L t ltac:(lia)
    (Z.to_nat (TPL_HIGH_LEVEL - 1 - t)) (TPL_HIGH_LEVEL - 1)); try done|].
  - lia.
  - destruct Hc as [_ Hl]. by split.
  - apply pending_le_wf; [done|lia].
  - unfold TPL_HIGH_LEVEL in *. lia.
  - intros [] s2 (Hc2 & Hw2 & Hf2 & Hp2 & Hx2 & HQ2 & C2) i.
    assert (Hempty : forall p, t < p -> queue s2 p = []).
    { intros p Hp. destruct (decide (queue s2 p = [])) as [|Hne]; [done|].
      apply (q_pending _ (wf_q _ Hw2)), Hp2 in Hne. lia. }
    split_and!; [done| |done|done|done]. constructor; [|done..].
    destruct Hc2 as [_ Hl2]. split; [cbn; lia|done].
Qed.

(** Events 3 (TPL 8) and 4 (TPL 16) queued at TPL_HIGH_LEVEL, in that order. *)
Definition demo_queued : STATE := demo_state 31 (notify_data 4 (notify_data 3 (demo_data 0 50 10))).

Lemma demo_queued_wf : wf demo_queued.
Proof.
  unfold demo_queued, demo_state. cbn [data].
  assert (H : wf (demo_data 0 50 10)) by (apply demo_wf; by_decide).
  eapply notify_wf; [eapply notify_wf; [done|reflexivity|reflexivity]|reflexivity|reflexivity].
Qed.

Lemma demo_queues p :
  queue demo_queued p = if decide (p = 16) then [4] else if decide (p = 8) then [3] else [].
Proof.
  unfold demo_queued, demo_state. cbn [data].
  rewrite (notify_data_queue _ 4 (demo_event (Z.lor EVT_TIMER EVT_NOTIFY_SIGNAL) 16 (Fn_User 1) true 50 10))
    by reflexivity.
  rewrite (notify_data_queue _ 3 (demo_event EVT_NOTIFY_SIGNAL 8 (Fn_User 0) false 0 0)) by reflexivity.
  cbn [NotifyTpl demo_event]. repeat case_decide; subst; done.
Qed.

Lemma demo_queued_inert : inert_queues demo_queued.
Proof.
  intros p e v. rewrite demo_queues. repeat case_decide.
  - intros ->%list_elem_of_singleton. intros [= <-]. done.
  - intros ->%list_elem_of_singleton. intros [= <-]. done.
  - by intros ?%elem_of_nil.
Qed.

Lemma Dispatch_order_witness :
  exists s', CoreRestoreTpl demo_cfg demo_notify 2 40 4 demo_queued = Ok (tt, s') /\
    Calls s' = [(4, 16); (3, 8)].
Proof.
  destruct (Dispatch_order demo_cfg demo_notify 2 40 demo_queued 1 4)
    as (s' & E & _ & _ & C & _);
    [by right|done|apply demo_ctl; by_decide|apply demo_queued_wf|done|apply demo_queued_inert|
     by_decide|by_decide| |lia|lia|].
  - intros p. rewrite demo_queues. repeat case_decide; cbn; lia.
  - exists s'. split; [exact E|]. rewrite C. reflexivity.
Defined.

(** ** Timers *)

(** C3 CoreCheckTimers, called at its TPL, signals exactly the due timers.
    It terminates when no period of a listed timer added to the current time
    reaches 2^64 (two turns per listed timer are enough).  Exactly the events
    of [L] were signalled: the timers that are due now and, only when a
    periodic timer has missed a tick, the event of the check itself.  Each of
    them counts 1 unless it counted already, every other event keeps its
    count, and exactly the events that these signals queue are newly queued
    (a NOTIFY_SIGNAL event itself or the members of its group).  Afterwards
    every timer left on the list is in the future; a one-shot timer that was
    due is off the list and a periodic one is armed again for a time after
    now; the timers that were not due, and the fixed fields of all events,
    are as before. *)
Theorem Timer_check cfg Notify depth fuel fuel' (s : STATE) :
  W cfg = 32 \/ W cfg = 64 -> task s -> gEfiCurrentTpl s = TPL_HIGH_LEVEL - 1 ->
  no_wrap (mEfiSystemTime s) s -> (0 < depth)%nat -> (0 < fuel)%nat ->
  (2 * length (mEfiTimerList s) < fuel')%nat ->
  exists s', CoreCheckTimers cfg (CoreRestoreTpl cfg Notify depth fuel) fuel' s = Ok (tt, s') /\
    task s' /\ gEfiCurrentTpl s' = gEfiCurrentTpl s /\
    Forall (fun e => mEfiSystemTime s < trigger s' e) (mEfiTimerList s') /\
    (forall e v, events s !! e = Some v ->
       exists v', events s' !! e = Some v' /\ check_post (mEfiSystemTime s) v v') /\
    (exists L, signalled L s s' /\ forall x, x ∈ L <-> raised (mEfiSystemTime s) s x).
Proof.
  intros HW HT Ht Hnw Hd Hf Hf'.
  pose proof (CoreRestoreTpl_quiet cfg Notify true depth fuel ltac:(lia)) as HQ.
  assert (Hm : (measure (mEfiSystemTime s) s < fuel')%nat).
  { assert (Hs : forall l, (sum_list_with (fun e => from_option (timer_weight (mEfiSystemTime s)) 0%nat
      (events s !! e)) l <= 2 * length l)%nat); [|unfold measure; specialize (Hs (mEfiTimerList s)); lia].
    induction l as [|e l IH]; cbn [sum_list_with length]; [lia|].
    assert (from_option (timer_weight (mEfiSystemTime s)) 0 (events s !! e) <= 2)%nat; [|lia].
    destruct (events s !! e) as [v|]; cbn [from_option]; [|lia]. unfold timer_weight. repeat case_match; lia. }
  destruct (wp_total _ _ _ (CheckTimers_ok cfg true HW _ fuel' s HQ HT Ht (fun _ => conj Hnw Hm)))
    as ([] & s' & E & (HT' & Et & _) & _ & HF & Hev & HL). by exists s'.
Qed.

Lemma Timer_check_witness :
  exists s', CoreCheckTimers demo_cfg (CoreRestoreTpl demo_cfg demo_notify 1 1) 3
               (demo_state 30 (demo_data 75 50 10)) = Ok (tt, s') /\
    Forall (fun e => 75 < trigger s' e) (mEfiTimerList s').
Proof.
  destruct (Timer_check demo_cfg demo_notify 1 1 3 (demo_state 30 (demo_data 75 50 10)))
    as (s' & E & _ & _ & HF & _ & _); [by right|apply demo_task; by_decide|reflexivity| |lia|lia|cbn; lia|].
  - intros e v Hv HL. cbn [data demo_state demo_data events] in Hv.
    repeat (apply lookup_insert_Some in Hv as [[<- <-]|[? Hv]]; [cbn; lia|]). by rewrite lookup_empty in Hv.
  - exists s'. split; [exact E|exact HF].
Defined.

(** A linked periodic timer that is due and whose next trigger time, from its
    own or from the current time, wraps to the past. *)
Definition stuck (now e : Z) (d : DATA) : Prop :=
  exists v, events d !! e = Some v /\ TimerLink v = true /\ Period v <> 0 /\ TriggerTime v <= now /\
    wrapU 64 (TriggerTime v + Period v) <= now /\ wrapU 64 (now + Period v) <= now.

Lemma stuck_expire now e e' d v :
  wf d -> inU 64 now -> events d !! e' = Some v -> TimerLink v = true ->
  stuck now e d -> stuck now e (expire_data now e' d).
Proof.
  intros Hw Hn Hv HL (w & Hwe & HLw & HP & Ht & Hn1 & Hn2).
  destruct (expire_ok now e' d v Hw Hn Hv HL) as (_ & _ & _ & _ & Hev).
  destruct (Hev e w Hwe) as (w' & Hw' & _ & _ & EP & D). exists w'. rewrite EP.
  destruct (decide (e = e')).
  - destruct D as [_ D]. destruct (Z.eqb_spec (Period w) 0); [done|]. destruct D as [-> ->].
    assert (ET : next_trigger now w = now).
    { unfold next_trigger. by destruct (Z.leb_spec (wrapU 64 (TriggerTime w + Period w)) now); [|lia]. }
    rewrite ET. split_and!; [done..|lia|done|done].
  - destruct D as [-> ->]. by split_and!.
Qed.

Lemma stuck_loop cfg R now e fuel : W cfg = 32 \/ W cfg = 64 -> quiet_spec false R -> forall s : STATE,
  ctl_ok s -> wf s -> free gEventQueueLock s -> held mEfiTimerLock s ->
  TPL_HIGH_LEVEL - 1 <= gEfiCurrentTpl s -> inU 64 now -> stuck now e s ->
  wp false (check_timers_loop cfg R fuel now) (fun _ _ => False) s.
Proof.
  intros HW HQ. induction fuel as [|fuel IH]; intros s Hc Hw Hf Hh Ht Hn Hst; [done|].
  destruct (Hst) as (w & Hwe & HLw & _ & Htw & _). pose proof (t_link _ (wf_t _ Hw) e w Hwe HLw) as Hin.
  destruct (mEfiTimerList s) as [|h rest] eqn:HT; [by apply elem_of_nil in Hin|].
  destruct (t_live _ (wf_t _ Hw) h) as (v & Hv & HL); [rewrite HT; left|].
  assert (Hdue : TriggerTime v <= now).
  { pose proof (t_sorted _ (wf_t _ Hw)) as Hs. rewrite HT in Hs. inversion Hs as [|? ? _ Hall]; subst.
    rewrite Forall_forall in Hall. apply elem_of_cons in Hin as [-> |Hin]; [congruence|].
    specialize (Hall e Hin). unfold trigger in Hall. rewrite Hv, Hwe in Hall. cbn in Hall. lia. }
  eapply check_turn; eauto. intros s' H' E'.
  destruct (expire_ok now h s v Hw Hn Hv HL) as (Hw' & _).
  apply IH; rewrite ?E'; eauto with event; [by rewrite (proj1 H')|]. by eapply stuck_expire.
Qed.

(** A large period hangs the timer check.  If a due
    periodic timer's period is so large that adding it to the trigger time
    and to the current time wraps around 2^64 (for instance a period of
    2^64 - 1, which CoreSetTimer accepts), the loop of CoreCheckTimers never
    ends: the timer is due again after every turn, at TPL_HIGH_LEVEL - 1. *)
Theorem Timer_period_hang cfg Notify depth fuel fuel' (s : STATE) e :
  W cfg = 32 \/ W cfg = 64 -> task s -> gEfiCurrentTpl s = TPL_HIGH_LEVEL - 1 ->
  stuck (mEfiSystemTime s) e s -> (0 < depth)%nat -> (0 < fuel)%nat ->
  CoreCheckTimers cfg (CoreRestoreTpl cfg Notify depth fuel) fuel' s = OutOfFuel.
Proof.
  intros HW HT Ht Hst Hd Hf.
  pose proof (CoreRestoreTpl_quiet cfg Notify false depth fuel ltac:(done)) as HQ.
  set (R := CoreRestoreTpl cfg Notify depth fuel) in *.
  enough (Hwp : wp false (CoreCheckTimers cfg R fuel') (fun _ _ => False) s).
  { unfold wp in Hwp. by destruct (CoreCheckTimers cfg R fuel' s) as [[]| | |]. }
  destruct HT as [Hc Hw Hfr Hp]. unfold CoreCheckTimers. apply wp_bind.
  apply acquire_wp; [done|apply Hfr|by rewrite Ht|]. intros s1 Ha.
  pose proof (acquired_ok _ _ _ Hc Ha) as Hc1. destruct (Ha) as (Ht1 & E1 & _).
  cbn [lock_tpl] in Ht1. apply wp_bind.
  assert (Hf1 : forall l, l <> mEfiTimerLock -> free l s1) by (intros; by eapply acquired_free).
  apply CurrentSystemTime_quiet; [done|done|by rewrite E1|by apply Hf1|by rewrite E1, Ht1, <- Ht|].
  intros s2 H2 E2. rewrite E1 in E2 |- *. apply wp_bind.
  eapply wp_mono; [apply (stuck_loop cfg R (mEfiSystemTime s) e fuel' HW HQ s2)|done]; rewrite ?E2; auto.
  - by eapply ctl_equiv_ok.
  - eapply ctl_equiv_free; [done|by apply Hf1].
  - eapply ctl_equiv_held; [done|by eapply acquired_held].
  - rewrite (proj1 H2), Ht1. lia.
  - apply (t_time _ (wf_t _ Hw)).
Qed.

Lemma Timer_period_hang_witness :
  CoreCheckTimers demo_cfg (CoreRestoreTpl demo_cfg demo_notify 1 1) 1000
    (demo_state 30 (demo_data 75 74 (2 ^ 64 - 1))) = OutOfFuel.
Proof.
  apply (Timer_period_hang demo_cfg demo_notify 1 1 1000 (demo_state 30 (demo_data 75 74 (2 ^ 64 - 1))) 4);
    [by right|apply demo_task; by_decide|reflexivity| |lia|lia].
  eexists. split; [reflexivity|]. by_decide.
Defined.

(** ** Signalling *)

(** C5 What CoreSignalEvent counts and queues.  From a level at which
    nothing is dispatched (the current TPL is TPL_HIGH_LEVEL - 1 or above, as
    in the timer check or an interrupt handler), it returns success without
    calling anything.  An event that is already signalled changes nothing.
    Otherwise its count becomes 1, whatever its type, no other count changes,
    and: a NOTIFY_SIGNAL event outside any group is moved to the end of the
    queue of its TPL and its pending bit is set; for a group event exactly
    the members of its group on the signal queue are moved, in the order of
    that queue, to the end of the queue of their TPL, and all other entries
    keep their places; an event without NOTIFY_SIGNAL queues nothing.  Timers,
    the signal and runtime lists and all other fields are as before. *)
Theorem Signal_queues cfg Notify depth fuel (s : STATE) e v :
  W cfg = 32 \/ W cfg = 64 -> ctl_ok s -> wf s -> free gEventQueueLock s ->
  TPL_HIGH_LEVEL - 1 <= gEfiCurrentTpl s -> events s !! e = Some v -> (0 < depth)%nat -> (0 < fuel)%nat ->
  exists s', CoreSignalEvent cfg (CoreRestoreTpl cfg Notify depth fuel) e s = Ok (EFI_SUCCESS, s') /\
    gEfiCurrentTpl s' = gEfiCurrentTpl s /\ wf s' /\ Calls s' = Calls s /\ sim s s' /\ signalled [e] s s' /\
    (SignalCount v <> 0 -> data s' = data s) /\
    (SignalCount v = 0 -> exists v', events s' !! e = Some v' /\ SignalCount v' = 1) /\
    (SignalCount v = 0 -> has (Type_ v) EVT_NOTIFY_SIGNAL = true ->
     has (ExFlag v) EVT_EXFLAG_EVENT_GROUP = false ->
       Z.testbit (gEventPending s') (NotifyTpl v) = true /\
       forall p, queue s' p = if decide (p = NotifyTpl v)
                              then filter (fun x => x <> e) (queue s p) ++ [e] else queue s p) /\
    (SignalCount v = 0 -> has (Type_ v) EVT_NOTIFY_SIGNAL = true ->
     has (ExFlag v) EVT_EXFLAG_EVENT_GROUP = true ->
       forall p, queue s' p =
         filter (fun x => ~ (x ∈ gEventSignalQueue s /\ member (EventGroup v) p s x = true)) (queue s p) ++
         filter (fun x => member (EventGroup v) p s x = true) (gEventSignalQueue s)) /\
    (SignalCount v = 0 -> has (Type_ v) EVT_NOTIFY_SIGNAL = false -> forall p, queue s' p = queue s p).
Proof.
  intros HW Hc Hw Hf Ht Hv Hd Hfu.
  pose proof (CoreRestoreTpl_quiet cfg Notify true depth fuel ltac:(lia)) as HQ.
  set (R := CoreRestoreTpl cfg Notify depth fuel) in *.
  destruct (wp_total (CoreSignalEvent cfg R e)
    (fun st s' => st = EFI_SUCCESS /\ ctl_equiv s s' /\ data s' = signal_data e s) s)
    as (st & s' & E & -> & H' & Ed); [by eapply SignalEvent_quiet|].
  destruct (signal_ok e s Hw) as [Hws Hss]. exists s'. rewrite Ed.
  assert (HS1 : signalled [e] s (signal_data e s)) by (apply signal_signalled; [done|by eexists]).
  split_and!; [done|by apply H'|done|apply (sim_calls _ _ Hss)|done|done|..].
  - intros Hne. unfold signal_data. rewrite Hv. by destruct (Z.eqb_spec (SignalCount v) 0).
  - intros E0. destruct (sg_events _ _ _ HS1 e v Hv) as (v' & Hv' & _ & C & _). exists v'.
    rewrite decide_True, bump_0 in C by (done || left). done.
  - intros E0 HS HG. revert Hws. unfold signal_data. rewrite Hv, E0, HS, HG. cbn [Z.eqb]. intros Hws.
    assert (Hv1 : events (count_data e 1 s) !! e = Some (upd_SignalCount 1 v)).
    { unfold count_data. rewrite Hv. cbn. by rewrite lookup_insert_eq. }
    pose proof (notify_data_queue _ e _ (NotifyTpl v) Hv1) as HQe. cbn [NotifyTpl upd_SignalCount] in HQe.
    rewrite decide_True in HQe by done. split_and!.
    + apply (q_pending _ (wf_q _ Hws)). rewrite HQe. by intros [_ [=]]%app_eq_nil.
    + intros p. rewrite (notify_data_queue _ e _ p Hv1), count_queue. done.
  - intros E0 HS HG p. unfold signal_data. rewrite Hv, E0, HS, HG. cbn [Z.eqb].
    pose proof (count_sim e 1 s) as Hcs. rewrite notify_list_queue; rewrite ?(sim_signalq _ _ Hcs).
    + rewrite count_queue. f_equal; apply filter_same; intros x _; by rewrite (sim_member _ _ _ _ _ Hcs).
    + apply (s_nodup _ (wf_e _ Hw)).
    + intros x (w & Hx & _)%(s_live _ (wf_e _ Hw)). destruct (sim_lookup _ _ _ _ Hcs Hx) as (? & ? & _). eauto.
  - intros E0 HS p. unfold signal_data. rewrite Hv, E0, HS. cbn [Z.eqb]. apply count_queue.
Qed.

Lemma Signal_queues_witness :
  exists s', CoreSignalEvent demo_cfg (CoreRestoreTpl demo_cfg demo_notify 1 1) 3
               (demo_state 31 (demo_data 0 50 10)) = Ok (EFI_SUCCESS, s') /\ queue s' 8 = [3].
Proof.
  destruct (Signal_queues demo_cfg demo_notify 1 1 (demo_state 31 (demo_data 0 50 10)) 3
              (demo_event EVT_NOTIFY_SIGNAL 8 (Fn_User 0) false 0 0))
    as (s' & E & _ & _ & _ & _ & _ & _ & _ & H & _);
    [by right|apply demo_ctl; by_decide|apply demo_wf; by_decide|done|by_decide|reflexivity|lia|lia|].
  destruct (H eq_refl eq_refl eq_refl) as (_ & HQ). exists s'. split; [exact E|]. rewrite HQ. reflexivity.
Defined.

(** ** Creating and closing *)

(** CoreCreateEventInternal from a task state: it
    answers EFI_INVALID_PARAMETER exactly when the parameters are not
    acceptable and EFI_OUT_OF_RESOURCES exactly when they are and there is no
    memory, changing nothing in both cases; otherwise the returned handle is
    the allocated one and refers to a new event with the requested type
    (converted for the pre-defined groups), level, function and group, with
    the system settled and consistent. *)
Theorem Event_create cfg Notify groups alloc depth fuel (s : STATE) ty tpl fn ctx group out :
  W cfg = 32 \/ W cfg = 64 -> notify_spec false Notify -> fresh_alloc alloc -> task s ->
  fn <> Some Fn_CoreCheckTimers \/ tpl = TPL_HIGH_LEVEL - 1 ->
  let R := CoreRestoreTpl cfg Notify depth fuel in
  wp false (CoreCreateEventInternal cfg groups alloc R ty tpl fn ctx group out)
    (fun r s' => task_step s s' /\
       match fst r with
       | EFI_INVALID_PARAMETER => s' = s /\
           forall ty' g', ~ create_params groups ty tpl fn group out ty' g'
       | EFI_OUT_OF_RESOURCES => s' = s /\ alloc s = None
       | EFI_SUCCESS => exists ty' g', create_params groups ty tpl fn group out ty' g' /\
           alloc s = Some (snd r) /\
           exists v', events s' !! snd r = Some v' /\ static (new_event ty' tpl fn ctx g') v'
       | _ => False
       end) s.
Proof.
  intros HW HN Ha HT Hfn R.
  apply (CreateEventInternal_task cfg false R (CoreRestoreTpl_safe cfg Notify HW HN depth fuel)
           groups alloc Ha ty tpl fn ctx group out s HT Hfn).
Qed.

(** An allocator for the witness: a handle that is not in use. *)
Definition demo_alloc (s : STATE) : option Z :=
  let e := fresh ({[0]} ∪ dom (events s)) in Some e.

Lemma demo_alloc_fresh : fresh_alloc demo_alloc.
Proof.
  intros s e [= <-]. pose proof (is_fresh ({[0]} ∪ dom (events s))) as H.
  apply not_elem_of_union in H as [H1 H2]. apply not_elem_of_dom in H2. split; [set_solver|done].
Qed.

Lemma Event_create_witness :
  wp false (CoreCreateEventInternal demo_cfg (mkGroups 100 101 102) demo_alloc
              (CoreRestoreTpl demo_cfg demo_notify 40 100) EVT_TIMER 0 None 0 None true)
    (fun r s' => task s') (demo_state 4 (demo_data 0 50 10)).
Proof.
  eapply wp_mono.
  - apply (Event_create demo_cfg demo_notify (mkGroups 100 101 102) demo_alloc 40 100
             (demo_state 4 (demo_data 0 50 10)) EVT_TIMER 0 None 0 None true);
      [by right|apply demo_notify_spec|apply demo_alloc_fresh|apply demo_task; by_decide|by left].
  - intros r s' [[HT _] _]. exact HT.
Defined.

(** C7 CoreCloseEvent from a task state returns success and
    the event is gone: it is freed and on no queue, timer list or signal list
    any more, so it can be neither notified nor signalled by a timer later;
    all other events and the order of the others in every list are
    untouched. *)
Theorem Event_close cfg Notify Unregister depth fuel (s : STATE) e v :
  (forall e s, Unregister e s = Ok (tt, s)) -> task s -> gEfiCurrentTpl s < TPL_HIGH_LEVEL ->
  events s !! e = Some v -> e <> mEfiCheckTimerEvent s -> e <> gIdleLoopEvent s ->
  (0 < depth)%nat -> (0 < fuel)%nat ->
  exists s', CoreCloseEvent cfg (CoreRestoreTpl cfg Notify depth fuel) Unregister e s = Ok (EFI_SUCCESS, s') /\
    task s' /\ gEfiCurrentTpl s' = gEfiCurrentTpl s /\ events s' = delete e (events s) /\
    (forall p, queue s' p = filter (fun x => x <> e) (queue s p)) /\
    mEfiTimerList s' = filter (fun x => x <> e) (mEfiTimerList s) /\
    gEventSignalQueue s' = filter (fun x => x <> e) (gEventSignalQueue s).
Proof.
  intros HU HT Hlt Hv Hnc Hni Hd Hf.
  pose proof (CoreRestoreTpl_quiet cfg Notify true depth fuel ltac:(lia)) as HQ.
  destruct (wp_total _ _ _ (CloseEvent_task cfg true _ HQ Unregister HU e s v HT Hlt Hv Hnc Hni))
    as (st & s' & E & -> & H). by exists s'.
Qed.

Lemma Event_close_witness :
  exists s', CoreCloseEvent demo_cfg (CoreRestoreTpl demo_cfg demo_notify 1 1) (fun _ => Mret tt) 4
               (demo_state 8 (demo_data 0 50 10)) = Ok (EFI_SUCCESS, s') /\ mEfiTimerList s' = [].
Proof.
  destruct (Event_close demo_cfg demo_notify (fun _ => Mret tt) 1 1 (demo_state 8 (demo_data 0 50 10)) 4
              (demo_event (Z.lor EVT_TIMER EVT_NOTIFY_SIGNAL) 16 (Fn_User 1) true 50 10))
    as (s' & E & _ & _ & _ & _ & HL & _);
    [done|apply demo_task; by_decide|by_decide|reflexivity|done|done|lia|lia|].
  exists s'. split; [exact E|]. rewrite HL. reflexivity.
Defined.
