(* ===== verification/EventInit.v ===== *)
(** * EventInit: the event services after initialisation

    CoreInitializeEventServices, from the state the static initialisers of
    Event.c and Timer.c describe, establishes the invariant that the other
    event theorems start from. *)

From stdpp Require Import base option list gmap fin_maps sorting.
From Stdlib Require Import ZArith Lia.
From S2P Require Import Prelude BaseMath EventState Event EventInv EventSafe EventTimer EventDispatch.
From S2P Require Import EventServices EventLife EventOrder EventTheorems.

Local Open Scope Z_scope.
Local Open Scope edk_scope.

(** The values of the globals before the core runs. *)
Definition reset_data : DATA := mkData ∅ 0 [] ∅ [] [] 0 0 0 [].
Definition reset_state : STATE :=
  mkSTATE TPL_APPLICATION
    (fun l => mkLock (match l with mEfiTimerLock => TPL_HIGH_LEVEL - 1 | _ => TPL_HIGH_LEVEL end)
                TPL_APPLICATION EfiLockReleased)
    false reset_data.

(** The notification event that initialisation creates, linked in the signal
    list. *)
Definition core_event (tpl : Z) (fn : EFI_EVENT_NOTIFY) (g : option Z) : IEVENT :=
  mkEvent EVENT_SIGNATURE EVT_NOTIFY_SIGNAL 0 true tpl (Some fn) 0 (default 0 g) false
    (match g with Some _ => EVT_EXFLAG_EVENT_GROUP | None => 0 end) false false 0 0.

Definition add_core_event (e : Z) (v : IEVENT) (d : DATA) : DATA :=
  set_events (<[e := v]> (events d)) (set_signalq (e :: gEventSignalQueue d) d).

(** Free locks, and nothing pending. *)
Definition idle_ctl (s : STATE) : Prop := ctl_ok s /\ all_free s /\ gEventPending s = 0.

Lemma idle_ctl_step s s' :
  ctl_equiv s s' -> gEventPending s' = gEventPending s -> idle_ctl s -> idle_ctl s'.
Proof.
  intros He Ep (Hc & Hf & H0). split_and!; [by eapply ctl_equiv_ok| |congruence].
  intros l. by eapply ctl_equiv_free.
Qed.

Lemma core_event_ok tpl fn g :
  TPL_APPLICATION < tpl < TPL_HIGH_LEVEL -> (fn = Fn_CoreCheckTimers -> tpl = TPL_HIGH_LEVEL - 1) ->
  event_ok (core_event tpl fn g).
Proof. intros Ht Hc. constructor; cbn; try done; naive_solver. Qed.

Section Data.
Context (groups : GROUPS).

(** The data after initialisation. *)
Definition init_data (e1 e2 : Z) : DATA :=
  set_idle e2
    (add_core_event e2 (core_event TPL_NOTIFY Fn_EfiEventEmptyFunction (Some (gIdleLoopEventGuid groups)))
      (set_check e1
        (add_core_event e1 (core_event (TPL_HIGH_LEVEL - 1) Fn_CoreCheckTimers None) reset_data))).

(** Properties of the two events, one by one. *)
Lemma init_events e1 e2 e v (P : Z -> IEVENT -> Prop) :
  P e1 (core_event (TPL_HIGH_LEVEL - 1) Fn_CoreCheckTimers None) ->
  P e2 (core_event TPL_NOTIFY Fn_EfiEventEmptyFunction (Some (gIdleLoopEventGuid groups))) ->
  events (init_data e1 e2) !! e = Some v -> P e v.
Proof.
  intros H1 H2 H. cbn [init_data set_idle add_core_event set_events events set_check set_signalq reset_data] in H.
  apply lookup_insert_Some in H as [[<- <-]|[_ H]]; [done|].
  apply lookup_insert_Some in H as [[<- <-]|[_ H]]; [done|]. by rewrite lookup_empty in H.
Qed.

Lemma init_check e1 e2 : e1 <> e2 ->
  events (init_data e1 e2) !! e1 = Some (core_event (TPL_HIGH_LEVEL - 1) Fn_CoreCheckTimers None).
Proof.
  intros H. cbn [init_data set_idle add_core_event set_events events set_check set_signalq].
  by rewrite lookup_insert_ne, lookup_insert_eq by done.
Qed.
Lemma init_idle e1 e2 : events (init_data e1 e2) !! e2 =
  Some (core_event TPL_NOTIFY Fn_EfiEventEmptyFunction (Some (gIdleLoopEventGuid groups))).
Proof. apply lookup_insert_eq. Qed.

Lemma init_data_wf e1 e2 : e1 <> 0 -> e2 <> 0 -> e1 <> e2 -> wf (init_data e1 e2).
Proof.
  intros H1 H2 Hne. constructor; constructor.
  - intros e q H. by apply elem_of_nil in H.
  - intros e v H HL. exfalso. revert HL. by apply (init_events e1 e2 e v (fun _ v => NotifyLink v = true -> False)).
  - intros q. apply NoDup_nil_2.
  - by intros q H.
  - intros q H. by rewrite Z.bits_0 in H.
  - done.
  - intros e H. by apply elem_of_nil in H.
  - intros e v H HL. exfalso. revert HL. by apply (init_events e1 e2 e v (fun _ v => TimerLink v = true -> False)).
  - apply NoDup_nil_2.
  - constructor.
  - done.
  - intros e v. apply (init_events e1 e2 e v (fun e v => e <> 0 /\ event_ok v));
      (split; [done|by apply core_event_ok]).
  - intros e [-> | [-> | []%elem_of_nil]%elem_of_cons]%elem_of_cons;
      [rewrite init_idle|rewrite init_check by done]; by eexists.
  - intros e v H _. revert H. apply (init_events e1 e2 e v (fun e _ => e ∈ [e2; e1])); set_solver.
  - apply NoDup_cons. split; [|apply NoDup_singleton]. intros ?%list_elem_of_singleton. congruence.
  - intros e H. by apply elem_of_nil in H.
  - intros e v H HL. exfalso. revert HL. by apply (init_events e1 e2 e v (fun _ v => RuntimeLink v = true -> False)).
  - apply NoDup_nil_2.
  - eexists. split; [by apply init_check|done].
  - eexists. apply init_idle.
Qed.
End Data.

Section Init.
Context (cfg : CONFIG) (tot : bool) (cfg_W : W cfg = 32 \/ W cfg = 64).
Context (R : Z -> M STATE unit) (HQ : quiet_spec tot R).
Context (groups : GROUPS) (alloc : STATE -> option Z).
Local Abbreviation wp_ := (wp tot).

(** Creating an event before the invariant holds. *)
Lemma create_core tpl fn g (s : STATE) e Q :
  idle_ctl s -> TPL_APPLICATION < tpl < TPL_HIGH_LEVEL ->
  (forall x, g = Some x -> x <> gEfiEventExitBootServicesGuid groups /\
     x <> gEfiEventVirtualAddressChangeGuid groups) ->
  alloc s = Some e ->
  (forall s', ctl_equiv s s' -> data s' = add_core_event e (core_event tpl fn g) (data s) ->
     Q (EFI_SUCCESS, e) s') ->
  wp_ (CoreCreateEventInternal cfg groups alloc R EVT_NOTIFY_SIGNAL tpl (Some fn) 0 g true) Q s.
Proof.
  intros HI Ht Hg Ha HK. unfold CoreCreateEventInternal. cbn [negb].
  change (existsb (Z.eqb EVT_NOTIFY_SIGNAL) mEventTable) with true. cbn [negb].
  replace (convert_group groups EVT_NOTIFY_SIGNAL g) with (Some (EVT_NOTIFY_SIGNAL, g)).
  2:{ unfold convert_group. destruct g as [x|]; [|done]. destruct (Hg x eq_refl) as [H1 H2].
      change ((EVT_NOTIFY_SIGNAL =? EVT_SIGNAL_EXIT_BOOT_SERVICES) ||
              (EVT_NOTIFY_SIGNAL =? EVT_SIGNAL_VIRTUAL_ADDRESS_CHANGE)) with false.
      by rewrite (proj2 (Z.eqb_neq _ _) H1), (proj2 (Z.eqb_neq _ _) H2). }
  change (has EVT_NOTIFY_SIGNAL (Z.lor EVT_NOTIFY_WAIT EVT_NOTIFY_SIGNAL)) with true.
  rewrite bool_decide_false by done. cbn [orb andb].
  destruct (Z.leb_spec tpl TPL_APPLICATION); [lia|]. destruct (Z.leb_spec TPL_HIGH_LEVEL tpl); [lia|].
  cbn [orb]. cbv zeta. apply (wp_step _ _ _ _ s s s); [done|]. cbn beta. rewrite Ha.
  change (has EVT_NOTIFY_SIGNAL EVT_RUNTIME) with false.
  change (has EVT_NOTIFY_SIGNAL EVT_NOTIFY_SIGNAL) with true. cbv iota.
  set (v := mkEvent _ _ _ _ _ _ _ _ _ _ _ _ _ _).
  eapply wp_step; [done|]. cbn beta. eapply wp_step; [done|]. cbn beta.
  set (s1 := set_data _ s). assert (HI1 : idle_ctl s1) by (by apply (idle_ctl_step s)).
  destruct HI1 as (Hc1 & Hf1 & H01). apply wp_bind.
  apply acquire_wp; [done|apply Hf1|apply Hc1|]. intros s2 Ha2. pose proof Ha2 as (_ & E2 & _).
  assert (E3 : (Mdata (fun d => set_signalq (e :: gEventSignalQueue d) d) ;;; update e (upd_SignalLink true)) s2
    = Ok (tt, set_data (add_core_event e (core_event tpl fn g) s) s2)).
  { unfold Mbind, Mdata, update. cbn [data set_data set_signalq events]. rewrite E2. cbn [data s1 set_data].
    unfold s1. cbn [data set_data set_events events]. by rewrite lookup_insert_eq, insert_insert_eq. }
  eapply wp_step; [exact E3|]. cbn beta. apply wp_bind.
  eapply (release_quiet cfg tot R gEventQueueLock s1 s2); [done|done|apply Hf1|apply Hc1|done|apply set_data_ctl| | |].
  - change (0 <= gEventPending s). by rewrite (proj2 (proj2 HI)).
  - intros p. change (Z.testbit (gEventPending s) p = true -> p <= gEfiCurrentTpl s1).
    by rewrite (proj2 (proj2 HI)), Z.bits_0.
  - intros s3 He3 Ed3. apply wp_ret. apply HK; [|by rewrite Ed3]. etransitivity; [apply set_data_ctl|exact He3].
Qed.

Lemma init_run Q :
  fresh_alloc alloc -> (forall s, is_Some (alloc s)) ->
  gIdleLoopEventGuid groups <> gEfiEventExitBootServicesGuid groups ->
  gIdleLoopEventGuid groups <> gEfiEventVirtualAddressChangeGuid groups ->
  (forall e1 e2 s', e1 <> 0 -> e2 <> 0 -> e1 <> e2 -> ctl_equiv reset_state s' ->
     data s' = init_data groups e1 e2 -> Q EFI_SUCCESS s') ->
  wp_ (CoreInitializeEventServices cfg groups alloc R) Q reset_state.
Proof.
  intros Hfresh Hmem G1 G2 HK. unfold CoreInitializeEventServices, CoreInitializeTimer.
  assert (HI : idle_ctl reset_state) by (split_and!; [by split; [|intros []]|intros []; done|done]).
  eapply wp_step; [done|]. cbn beta. change (set_data _ reset_state) with reset_state.
  apply wp_bind, wp_bind. destruct (Hmem reset_state) as [e1 Ha1].
  eapply create_core; [done|done|done|done|]. intros s1 C1 D1. cbn [fst snd EFI_ERROR negb].
  eapply wp_step; [done|]. cbn beta. eapply wp_eq; [by apply ASSERT_true|].
  set (s1' := set_data _ s1). assert (C1' : ctl_equiv reset_state s1') by (etransitivity; [exact C1|apply set_data_ctl]).
  assert (D1' : data s1' = set_check e1 (add_core_event e1
    (core_event (TPL_HIGH_LEVEL - 1) Fn_CoreCheckTimers None) reset_data)) by (unfold s1'; cbn [data set_data]; by rewrite D1).
  unfold CoreCreateEventEx. change (has EVT_NOTIFY_SIGNAL _ && _ && _ && _) with false. cbv iota.
  apply wp_bind. destruct (Hmem s1') as [e2 Ha2].
  destruct (Hfresh _ _ Ha1) as [N1 _], (Hfresh _ _ Ha2) as [N2 F2].
  assert (Hne : e1 <> e2).
  { intros <-. rewrite D1' in F2. cbn [set_check add_core_event set_events events] in F2.
    by rewrite lookup_insert_eq in F2. }
  eapply create_core; [|done|by intros x [= <-]|done|].
  { apply (idle_ctl_step reset_state); [done|by rewrite D1'|done]. }
  intros s2 C2 D2. cbn [fst snd EFI_ERROR]. eapply wp_step; [done|]. cbn beta. apply wp_ret.
  apply (HK e1 e2); [done..| |cbn [data set_data]; by rewrite D2, D1'].
  etransitivity; [exact C1'|]. etransitivity; [exact C2|apply set_data_ctl].
Qed.
End Init.

(** C6 With memory for two events, CoreInitializeEventServices
    succeeds from the reset state without failing an ASSERT, and leaves the
    system at TPL_APPLICATION in a task state, with nothing queued: the timer
    check event notifies CoreCheckTimers just below TPL_HIGH_LEVEL and the idle
    event belongs to the idle loop group. *)
Theorem Event_init cfg Notify groups alloc depth fuel :
  W cfg = 32 \/ W cfg = 64 -> fresh_alloc alloc -> (forall s, is_Some (alloc s)) ->
  gIdleLoopEventGuid groups <> gEfiEventExitBootServicesGuid groups ->
  gIdleLoopEventGuid groups <> gEfiEventVirtualAddressChangeGuid groups ->
  depth <> 0%nat -> fuel <> 0%nat ->
  exists s', CoreInitializeEventServices cfg groups alloc (CoreRestoreTpl cfg Notify depth fuel) reset_state
             = Ok (EFI_SUCCESS, s') /\
    task s' /\ gEfiCurrentTpl s' = TPL_APPLICATION /\ (forall p, queue s' p = []) /\
    (exists v, events s' !! mEfiCheckTimerEvent s' = Some v /\
       NotifyFunction v = Some Fn_CoreCheckTimers /\ NotifyTpl v = TPL_HIGH_LEVEL - 1) /\
    (exists v, events s' !! gIdleLoopEvent s' = Some v /\
       EventGroup v = gIdleLoopEventGuid groups /\ NotifyTpl v = TPL_NOTIFY).
Proof.
  intros HW Ha Hm G1 G2 Hd Hf.
  cut (wp true (CoreInitializeEventServices cfg groups alloc (CoreRestoreTpl cfg Notify depth fuel))
    (fun st s' => st = EFI_SUCCESS /\ exists e1 e2, e1 <> 0 /\ e2 <> 0 /\ e1 <> e2 /\
       ctl_equiv reset_state s' /\ data s' = init_data groups e1 e2) reset_state).
  - intros (st & s' & E & -> & e1 & e2 & N1 & N2 & Hne & C & D)%wp_total. exists s'. split; [done|].
    rewrite D. split_and!; [|apply C|done| |].
    + constructor; [|rewrite D; by apply init_data_wf| |].
      * eapply ctl_equiv_ok; [exact C|]. split; [done|by intros []].
      * intros l. eapply ctl_equiv_free; [exact C|]. by destruct l.
      * rewrite D. intros p Hp. by rewrite Z.bits_0 in Hp.
    + change (mEfiCheckTimerEvent (init_data groups e1 e2)) with e1. rewrite init_check by done.
      by eexists.
    + change (gIdleLoopEvent (init_data groups e1 e2)) with e2. rewrite init_idle. by eexists.
  - apply init_run; [by apply CoreRestoreTpl_quiet|done..|].
    intros e1 e2 s' N1 N2 Hne C D. split; [done|]. by exists e1, e2.
Qed.

Lemma Event_init_witness :
  exists s', CoreInitializeEventServices demo_cfg (mkGroups 100 101 102) demo_alloc
    (CoreRestoreTpl demo_cfg demo_notify 1 1) reset_state = Ok (EFI_SUCCESS, s') /\ task s'.
Proof.
  destruct (Event_init demo_cfg demo_notify (mkGroups 100 101 102) demo_alloc 1 1) as (s' & E & T & _);
    [by right|apply demo_alloc_fresh|by eexists|done|done|done|done|]. exists s'. split; [exact E|exact T].
Defined.
