(* ===== verification/RbTree.v ===== *)
(** * RbTree: the red-black tree of OrderedCollectionLib

    MdePkg/Library/BaseOrderedCollectionRedBlackTreeLib, on a heap of nodes
    with parent, left and right pointers.  NULL is 0.  A branch of the C code
    and its mirror image are one definition with the side as an argument
    ([SideLeft] is the branch that the source writes out first).  Loops take
    at most one turn per node of the heap and one more; AllocatePool and
    FreePool are modelled by the heap, the allocator is a parameter. *)

From stdpp Require Import base option list gmap fin_maps.
From Stdlib Require Import ZArith Lia.
From S2P Require Import Prelude.

Local Open Scope Z_scope.
Local Open Scope edk_scope.

(** ** Data *)

Inductive RED_BLACK_TREE_COLOR : Type := RedBlackTreeRed | RedBlackTreeBlack.
#[global] Instance RED_BLACK_TREE_COLOR_eq_dec : EqDecision RED_BLACK_TREE_COLOR.
Proof. solve_decision. Defined.

(** struct ORDERED_COLLECTION; the function pointers are functions. *)
Record RED_BLACK_TREE := mkTree {
  Root : Z;
  UserStructCompare : Z -> Z -> Z;
  KeyCompare : Z -> Z -> Z
}.

(** struct ORDERED_COLLECTION_ENTRY *)
Record RED_BLACK_TREE_NODE := mkNode {
  UserStruct : Z;
  Parent : Z;
  Left : Z;
  Right : Z;
  Color : RED_BLACK_TREE_COLOR
}.

(** The memory: the tree structures and the nodes, by address. *)
Record MEM := mkMem { trees : gmap Z RED_BLACK_TREE; nodes : gmap Z RED_BLACK_TREE_NODE }.

Definition set_UserStruct (v : Z) (n : RED_BLACK_TREE_NODE) :=
  mkNode v (Parent n) (Left n) (Right n) (Color n).
Definition set_Parent (v : Z) (n : RED_BLACK_TREE_NODE) :=
  mkNode (UserStruct n) v (Left n) (Right n) (Color n).
Definition set_Left (v : Z) (n : RED_BLACK_TREE_NODE) :=
  mkNode (UserStruct n) (Parent n) v (Right n) (Color n).
Definition set_Right (v : Z) (n : RED_BLACK_TREE_NODE) :=
  mkNode (UserStruct n) (Parent n) (Left n) v (Color n).
Definition set_Color (v : RED_BLACK_TREE_COLOR) (n : RED_BLACK_TREE_NODE) :=
  mkNode (UserStruct n) (Parent n) (Left n) (Right n) v.
Definition set_Root (v : Z) (t : RED_BLACK_TREE) := mkTree v (UserStructCompare t) (KeyCompare t).

Definition load_tree (T : Z) : M MEM RED_BLACK_TREE := fun s =>
  match trees s !! T with Some t => Ok (t, s) | None => Fault end.
Definition load (p : Z) : M MEM RED_BLACK_TREE_NODE := fun s =>
  match nodes s !! p with Some n => Ok (n, s) | None => Fault end.
Definition store (p : Z) (f : RED_BLACK_TREE_NODE -> RED_BLACK_TREE_NODE) : M MEM unit := fun s =>
  match nodes s !! p with
  | Some n => Ok (tt, mkMem (trees s) (<[p := f n]> (nodes s)))
  | None => Fault
  end.
Definition store_tree (T : Z) (f : RED_BLACK_TREE -> RED_BLACK_TREE) : M MEM unit := fun s =>
  match trees s !! T with
  | Some t => Ok (tt, mkMem (<[T := f t]> (trees s)) (nodes s))
  | None => Fault
  end.
Definition FreePool_node (p : Z) : M MEM unit := fun s =>
  match nodes s !! p with
  | Some _ => Ok (tt, mkMem (trees s) (delete p (nodes s)))
  | None => Fault
  end.
Definition FreePool_tree (T : Z) : M MEM unit := fun s =>
  match trees s !! T with
  | Some _ => Ok (tt, mkMem (delete T (trees s)) (nodes s))
  | None => Fault
  end.
Definition MASSERT (b : bool) : M MEM unit := if b then Mret tt else Mfail AssertFail.
(** [if (p != NULL) { ... }] *)
Definition when_ (b : bool) (c : M MEM unit) : M MEM unit := if b then c else Mret tt.

(** Turns enough for any walk that meets no node twice. *)
Definition turns : M MEM nat := fun s => Ok (S (size (nodes s)), s).

(** ** Sides *)

Inductive side : Type := SideLeft | SideRight.
#[global] Instance side_eq_dec : EqDecision side.
Proof. solve_decision. Defined.
Definition opp (sd : side) : side := match sd with SideLeft => SideRight | SideRight => SideLeft end.
Definition child (sd : side) (n : RED_BLACK_TREE_NODE) : Z :=
  match sd with SideLeft => Left n | SideRight => Right n end.
Definition set_child (sd : side) (v : Z) (n : RED_BLACK_TREE_NODE) : RED_BLACK_TREE_NODE :=
  match sd with SideLeft => set_Left v n | SideRight => set_Right v n end.

(** ** Queries *)

Definition OrderedCollectionUserStruct (Node : Z) : M MEM Z :=
  let! n := load Node in Mret (UserStruct n).

Definition OrderedCollectionIsEmpty (Tree : Z) : M MEM bool :=
  let! t := load_tree Tree in Mret (Root t =? 0).

Definition NodeIsNullOrBlack (Node : Z) : M MEM bool :=
  if Node =? 0 then Mret true
  else let! n := load Node in Mret (bool_decide (Color n = RedBlackTreeBlack)).

Fixpoint find_loop (fuel : nat) (cmp : Z -> Z -> Z) (StandaloneKey Node : Z) : M MEM Z :=
  match fuel with
  | O => Mfail OutOfFuel
  | S fuel =>
      if Node =? 0 then Mret Node
      else
        let! n := load Node in
        let Result := cmp StandaloneKey (UserStruct n) in
        if Result =? 0 then Mret Node
        else find_loop fuel cmp StandaloneKey (if Result <? 0 then Left n else Right n)
  end.

Definition OrderedCollectionFind (Tree StandaloneKey : Z) : M MEM Z :=
  let! t := load_tree Tree in
  let! fuel := turns in
  find_loop fuel (KeyCompare t) StandaloneKey (Root t).

(** [while (Node->Left != NULL) Node = Node->Left;] and its mirror image *)
Fixpoint descend (sd : side) (fuel : nat) (Node : Z) : M MEM Z :=
  match fuel with
  | O => Mfail OutOfFuel
  | S fuel =>
      let! n := load Node in
      if child sd n =? 0 then Mret Node else descend sd fuel (child sd n)
  end.

(** [while (Walk != NULL && Child == Walk->Right) ...] and its mirror image *)
Fixpoint ascend (sd : side) (fuel : nat) (Child Walk : Z) : M MEM Z :=
  match fuel with
  | O => Mfail OutOfFuel
  | S fuel =>
      if Walk =? 0 then Mret Walk
      else
        let! n := load Walk in
        if Child =? child sd n then ascend sd fuel Walk (Parent n) else Mret Walk
  end.

Definition extremum (sd : side) (Tree : Z) : M MEM Z :=
  let! t := load_tree Tree in
  if Root t =? 0 then Mret 0
  else let! fuel := turns in descend sd fuel (Root t).
Definition OrderedCollectionMin : Z -> M MEM Z := extremum SideLeft.
Definition OrderedCollectionMax : Z -> M MEM Z := extremum SideRight.

(** The neighbour of [Node] towards [sd]. *)
Definition neighbour (sd : side) (Node : Z) : M MEM Z :=
  if Node =? 0 then Mret 0
  else
    let! n := load Node in
    let! fuel := turns in
    if negb (child sd n =? 0) then descend (opp sd) fuel (child sd n)
    else ascend sd fuel Node (Parent n).
Definition OrderedCollectionNext : Z -> M MEM Z := neighbour SideRight.
Definition OrderedCollectionPrev : Z -> M MEM Z := neighbour SideLeft.

(** ** Validation *)

Fixpoint RedBlackTreeRecursiveCheck (fuel : nat) (Node : Z) : M MEM Z :=
  match fuel with
  | O => Mfail OutOfFuel
  | S fuel =>
      if Node =? 0 then Mret 1
      else
        let! n := load Node in
        (if bool_decide (Color n = RedBlackTreeRed) then
           let! bl := NodeIsNullOrBlack (Left n) in MASSERT bl ;;;
           let! br := NodeIsNullOrBlack (Right n) in MASSERT br
         else Mret tt) ;;;
        let! LeftHeight := RedBlackTreeRecursiveCheck fuel (Left n) in
        let! RightHeight := RedBlackTreeRecursiveCheck fuel (Right n) in
        MASSERT (LeftHeight =? RightHeight) ;;;
        Mret (wrapU 32 (Z.b2z (bool_decide (Color n = RedBlackTreeBlack)) + LeftHeight))
  end.

(** The loops that check the order: [ok] is the test on the result of the
    comparison of the last node and the next one. *)
Fixpoint order_loop (fuel : nat) (next : Z -> M MEM Z) (cmp : Z -> Z -> Z) (ok : Z -> bool)
    (Last Count : Z) : M MEM Z :=
  match fuel with
  | O => Mfail OutOfFuel
  | S fuel =>
      let! Node := next Last in
      if Node =? 0 then Mret Count
      else
        let! l := load Last in
        let! n := load Node in
        MASSERT (ok (cmp (UserStruct l) (UserStruct n))) ;;;
        order_loop fuel next cmp ok Node (wrapU 32 (Count + 1))
  end.

Definition RedBlackTreeValidate (Tree : Z) : M MEM unit :=
  let! t := load_tree Tree in
  let! b := NodeIsNullOrBlack (Root t) in
  MASSERT b ;;;
  let! fuel := turns in
  RedBlackTreeRecursiveCheck fuel (Root t) ;;;
  let! First := OrderedCollectionMin Tree in
  let! ForwardCount := order_loop fuel OrderedCollectionNext (UserStructCompare t)
                         (fun r => r <? 0) First (Z.b2z (negb (First =? 0))) in
  let! Last := OrderedCollectionMax Tree in
  let! BackwardCount := order_loop fuel OrderedCollectionPrev (UserStructCompare t)
                          (fun r => 0 <? r) Last (Z.b2z (negb (Last =? 0))) in
  MASSERT (ForwardCount =? BackwardCount).

(** ** Rotation

    The functions return the new value of [*NewRoot]. *)

Definition RedBlackTreeRotateRight (Pivot NewRoot : Z) : M MEM Z :=
  let! pivot := load Pivot in
  let Parent_ := Parent pivot in
  let LeftChild := Left pivot in
  let! l := load LeftChild in
  let LeftRightChild := Right l in
  store Pivot (set_Left LeftRightChild) ;;;
  when_ (negb (LeftRightChild =? 0)) (store LeftRightChild (set_Parent Pivot)) ;;;
  store LeftChild (set_Parent Parent_) ;;;
  let! NewRoot :=
    (if Parent_ =? 0 then Mret LeftChild
     else
       let! p := load Parent_ in
       (if Pivot =? Left p then store Parent_ (set_Left LeftChild)
        else store Parent_ (set_Right LeftChild)) ;;;
       Mret NewRoot) in
  store LeftChild (set_Right Pivot) ;;;
  store Pivot (set_Parent LeftChild) ;;;
  Mret NewRoot.

Definition RedBlackTreeRotateLeft (Pivot NewRoot : Z) : M MEM Z :=
  let! pivot := load Pivot in
  let Parent_ := Parent pivot in
  let RightChild := Right pivot in
  let! r := load RightChild in
  let RightLeftChild := Left r in
  store Pivot (set_Right RightLeftChild) ;;;
  when_ (negb (RightLeftChild =? 0)) (store RightLeftChild (set_Parent Pivot)) ;;;
  store RightChild (set_Parent Parent_) ;;;
  let! NewRoot :=
    (if Parent_ =? 0 then Mret RightChild
     else
       let! p := load Parent_ in
       (if Pivot =? Left p then store Parent_ (set_Left RightChild)
        else store Parent_ (set_Right RightChild)) ;;;
       Mret NewRoot) in
  store RightChild (set_Left Pivot) ;;;
  store Pivot (set_Parent RightChild) ;;;
  Mret NewRoot.

(** The rotation that moves the pivot down to side [sd]. *)
Definition rotate (sd : side) : Z -> Z -> M MEM Z :=
  match sd with SideLeft => RedBlackTreeRotateLeft | SideRight => RedBlackTreeRotateRight end.

(** ** Insertion *)

(** The search for a collision; [Tmp], [Parent] and [Result] when it ends. *)
Fixpoint insert_search (fuel : nat) (cmp : Z -> Z -> Z) (User Tmp Parent_ Result : Z) : M MEM (Z * Z * Z) :=
  match fuel with
  | O => Mfail OutOfFuel
  | S fuel =>
      if Tmp =? 0 then Mret (Tmp, Parent_, Result)
      else
        let! n := load Tmp in
        let Result := cmp User (UserStruct n) in
        if Result =? 0 then Mret (Tmp, Parent_, Result)
        else insert_search fuel cmp User (if Result <? 0 then Left n else Right n) Tmp Result
  end.

(** What a turn of a loop ends with: the variables of the next one. *)
Definition loop_vars : Type := Z * Z * Z.

(** The body of the loop that restores property #3, for a parent on side
    [sd] of the grandparent. *)
Definition insert_fixup_side (sd : side) (GrandParent Tmp Parent_ NewRoot : Z) : M MEM loop_vars :=
  let! g := load GrandParent in
  let Uncle := child (opp sd) g in
  let! black := NodeIsNullOrBlack Uncle in
  if negb black then
    store Parent_ (set_Color RedBlackTreeBlack) ;;;
    store Uncle (set_Color RedBlackTreeBlack) ;;;
    store GrandParent (set_Color RedBlackTreeRed) ;;;
    let Tmp := GrandParent in
    let! t := load Tmp in
    Mret (Tmp, Parent t, NewRoot)
  else
    let! p := load Parent_ in
    let! v :=
      (if Tmp =? child (opp sd) p then
         let Tmp := Parent_ in
         let! NewRoot := rotate sd Tmp NewRoot in
         let! t := load Tmp in
         let Parent_ := Parent t in
         let! p := load Parent_ in
         MASSERT (GrandParent =? Parent p) ;;;
         Mret (Tmp, Parent_, NewRoot)
       else Mret (Tmp, Parent_, NewRoot)) in
    let '(Tmp, Parent_, NewRoot) := v in
    store Parent_ (set_Color RedBlackTreeBlack) ;;;
    store GrandParent (set_Color RedBlackTreeRed) ;;;
    let! NewRoot := rotate (opp sd) GrandParent NewRoot in
    Mret (Tmp, Parent_, NewRoot).

Fixpoint insert_fixup (fuel : nat) (Tmp Parent_ NewRoot : Z) : M MEM Z :=
  match fuel with
  | O => Mfail OutOfFuel
  | S fuel =>
      if Tmp =? NewRoot then Mret NewRoot
      else
        let! p := load Parent_ in
        if bool_decide (Color p = RedBlackTreeBlack) then Mret NewRoot
        else
          let GrandParent := Parent p in
          let! g := load GrandParent in
          let! v := insert_fixup_side (if Parent_ =? Left g then SideLeft else SideRight)
                      GrandParent Tmp Parent_ NewRoot in
          let '(Tmp, Parent_, NewRoot) := v in
          insert_fixup fuel Tmp Parent_ NewRoot
  end.

(** ** Deletion *)

(** The loop body that moves the black increment up, for a child on side
    [sd] of the parent, from its end.  The far nephew is red: *)
Definition delete_far_nephew (sd : side) (Parent_ Sibling FarNephew NewRoot : Z) : M MEM loop_vars :=
  MASSERT (negb (FarNephew =? 0)) ;;;
  let! far := load FarNephew in
  MASSERT (bool_decide (Color far = RedBlackTreeRed)) ;;;
  MASSERT (negb (Sibling =? 0)) ;;;
  let! sib := load Sibling in
  MASSERT (bool_decide (Color sib = RedBlackTreeBlack)) ;;;
  let! p := load Parent_ in
  store Sibling (set_Color (Color p)) ;;;
  store Parent_ (set_Color RedBlackTreeBlack) ;;;
  store FarNephew (set_Color RedBlackTreeBlack) ;;;
  let! NewRoot := rotate sd Parent_ NewRoot in
  Mret (NewRoot, Parent_, NewRoot).

(** The sibling is black: *)
Definition delete_black_sibling (sd : side) (Parent_ Sibling NewRoot : Z) : M MEM loop_vars :=
  let! sib := load Sibling in
  MASSERT (bool_decide (Color sib = RedBlackTreeBlack)) ;;;
  let NearNephew := child sd sib in
  let FarNephew := child (opp sd) sib in
  let! near_black := NodeIsNullOrBlack NearNephew in
  let! far_black := (if near_black then NodeIsNullOrBlack FarNephew else Mret false) in
  if near_black && far_black then
    store Sibling (set_Color RedBlackTreeRed) ;;;
    let Child := Parent_ in
    let! p := load Parent_ in
    Mret (Child, Parent p, NewRoot)
  else
    let! far_black := NodeIsNullOrBlack FarNephew in
    if far_black then
      store NearNephew (set_Color RedBlackTreeBlack) ;;;
      store Sibling (set_Color RedBlackTreeRed) ;;;
      let! NewRoot := rotate (opp sd) Sibling NewRoot in
      let! p := load Parent_ in
      let Sibling := child (opp sd) p in
      let! sib := load Sibling in
      delete_far_nephew sd Parent_ Sibling (child (opp sd) sib) NewRoot
    else delete_far_nephew sd Parent_ Sibling FarNephew NewRoot.

(** The whole body: *)
Definition delete_fixup_side (sd : side) (Parent_ NewRoot : Z) : M MEM loop_vars :=
  let! p := load Parent_ in
  let Sibling := child (opp sd) p in
  MASSERT (negb (Sibling =? 0)) ;;;
  let! sib := load Sibling in
  if bool_decide (Color sib = RedBlackTreeRed) then
    store Sibling (set_Color RedBlackTreeBlack) ;;;
    store Parent_ (set_Color RedBlackTreeRed) ;;;
    let! NewRoot := rotate sd Parent_ NewRoot in
    let! p := load Parent_ in
    let Sibling := child (opp sd) p in
    MASSERT (negb (Sibling =? 0)) ;;;
    delete_black_sibling sd Parent_ Sibling NewRoot
  else delete_black_sibling sd Parent_ Sibling NewRoot.

(** The loop; [Child] and [NewRoot] when it ends. *)
Fixpoint delete_fixup (fuel : nat) (Child Parent_ NewRoot : Z) : M MEM (Z * Z) :=
  match fuel with
  | O => Mfail OutOfFuel
  | S fuel =>
      if Child =? NewRoot then Mret (Child, NewRoot)
      else
        let! black := NodeIsNullOrBlack Child in
        if negb black then Mret (Child, NewRoot)
        else
          let! p := load Parent_ in
          let! v := delete_fixup_side (if Child =? Left p then SideLeft else SideRight) Parent_ NewRoot in
          let '(Child, Parent_, NewRoot) := v in
          delete_fixup fuel Child Parent_ NewRoot
  end.

(** [if (OrigParent == NULL) NewRoot = New; else ...]: put [New] in the place
    of [Node] under its parent; the new value of [NewRoot]. *)
Definition replace_child (OrigParent Node New NewRoot : Z) : M MEM Z :=
  if OrigParent =? 0 then Mret New
  else
    let! op := load OrigParent in
    (if Node =? Left op then store OrigParent (set_Left New) else store OrigParent (set_Right New)) ;;;
    Mret NewRoot.

(** Unlink a node with at most one child: [Child], [Parent], the colour of
    the unlinked node and [NewRoot]. *)
Definition unlink_simple (Node OrigLeftChild OrigRightChild OrigParent NewRoot : Z) :
    M MEM (Z * Z * RED_BLACK_TREE_COLOR * Z) :=
  let Parent_ := OrigParent in
  let Child := if negb (OrigLeftChild =? 0) then OrigLeftChild else OrigRightChild in
  let! n := load Node in
  let ColorOfUnlinked := Color n in
  when_ (negb (Child =? 0)) (store Child (set_Parent Parent_)) ;;;
  let! NewRoot := replace_child OrigParent Node Child NewRoot in
  Mret (Child, Parent_, ColorOfUnlinked, NewRoot).

(** Unlink a node with two children, by moving its successor in its place. *)
Definition unlink_successor (Node OrigLeftChild OrigRightChild OrigParent NewRoot : Z) :
    M MEM (Z * Z * RED_BLACK_TREE_COLOR * Z) :=
  let! r := load OrigRightChild in
  let! v :=
    (if Left r =? 0 then Mret (OrigRightChild, OrigRightChild, Right r)
     else
       let! fuel := turns in
       let! ToRelink := descend SideLeft fuel (Left r) in
       let! t := load ToRelink in
       let Parent_ := Parent t in
       let Child := Right t in
       store Parent_ (set_Left Child) ;;;
       when_ (negb (Child =? 0)) (store Child (set_Parent Parent_)) ;;;
       store ToRelink (set_Right OrigRightChild) ;;;
       store OrigRightChild (set_Parent ToRelink) ;;;
       Mret (ToRelink, Parent_, Child)) in
  let '(ToRelink, Parent_, Child) := v in
  store ToRelink (set_Left OrigLeftChild) ;;;
  store OrigLeftChild (set_Parent ToRelink) ;;;
  let! t := load ToRelink in
  let ColorOfUnlinked := Color t in
  let! n := load Node in
  store ToRelink (set_Color (Color n)) ;;;
  store ToRelink (set_Parent OrigParent) ;;;
  let! NewRoot := replace_child OrigParent Node ToRelink NewRoot in
  Mret (Child, Parent_, ColorOfUnlinked, NewRoot).

(** ** The operations on a tree *)

Section Collection.
(** [AllocatePool s]: the address and the stale contents of a new block, if
    there is memory. *)
Context (PcdValidateOrderedCollection : bool).
Context (AllocateTree : MEM -> option Z) (AllocateNode : MEM -> option (Z * RED_BLACK_TREE_NODE)).

Definition OrderedCollectionInit (UserCompare KeyComp : Z -> Z -> Z) : M MEM Z :=
  let! s := Mget in
  match AllocateTree s with
  | None => Mret 0
  | Some T =>
      Mput (mkMem (<[T := mkTree 0 UserCompare KeyComp]> (trees s)) (nodes s)) ;;;
      when_ PcdValidateOrderedCollection (RedBlackTreeValidate T) ;;;
      Mret T
  end.

Definition OrderedCollectionUninit (Tree : Z) : M MEM unit :=
  let! e := OrderedCollectionIsEmpty Tree in
  MASSERT e ;;;
  FreePool_tree Tree.

(** The status, and the value stored in [*Node] if one is. *)
Definition OrderedCollectionInsert (Tree : Z) (NodeOut : bool) (User : Z) :
    M MEM (EFI_STATUS * option Z) :=
  let! t := load_tree Tree in
  let! fuel := turns in
  let! r := insert_search fuel (UserStructCompare t) User (Root t) 0 0 in
  let '(Tmp, Parent_, Result) := r in
  let out := fun p : Z => if NodeOut then Some p else None in
  let done_ := fun res : EFI_STATUS * option Z =>
    when_ PcdValidateOrderedCollection (RedBlackTreeValidate Tree) ;;; Mret res in
  if negb (Tmp =? 0) then done_ (EFI_ALREADY_STARTED, out Tmp)
  else
    let! s := Mget in
    match AllocateNode s with
    | None => done_ (EFI_OUT_OF_RESOURCES, None)
    | Some (Tmp, stale) =>
        Mput (mkMem (trees s) (<[Tmp := stale]> (nodes s))) ;;;
        store Tmp (set_UserStruct User) ;;;
        store Tmp (set_Parent Parent_) ;;;
        store Tmp (set_Left 0) ;;;
        store Tmp (set_Right 0) ;;;
        if Parent_ =? 0 then
          store_tree Tree (set_Root Tmp) ;;;
          store Tmp (set_Color RedBlackTreeBlack) ;;;
          done_ (EFI_SUCCESS, out Tmp)
        else
          (if Result <? 0 then store Parent_ (set_Left Tmp) else store Parent_ (set_Right Tmp)) ;;;
          store Tmp (set_Color RedBlackTreeRed) ;;;
          let! t := load_tree Tree in
          let! fuel := turns in
          let! NewRoot := insert_fixup fuel Tmp Parent_ (Root t) in
          store NewRoot (set_Color RedBlackTreeBlack) ;;;
          store_tree Tree (set_Root NewRoot) ;;;
          done_ (EFI_SUCCESS, out Tmp)
    end.

(** The user structure, if the caller asked for it. *)
Definition OrderedCollectionDelete (Tree Node : Z) (UserStructOut : bool) : M MEM (option Z) :=
  let! t := load_tree Tree in
  let NewRoot := Root t in
  let! n := load Node in
  let OrigLeftChild := Left n in
  let OrigRightChild := Right n in
  let OrigParent := Parent n in
  let out := if UserStructOut then Some (UserStruct n) else None in
  let! v :=
    (if (OrigLeftChild =? 0) || (OrigRightChild =? 0)
     then unlink_simple Node OrigLeftChild OrigRightChild OrigParent NewRoot
     else unlink_successor Node OrigLeftChild OrigRightChild OrigParent NewRoot) in
  let '(Child, Parent_, ColorOfUnlinked, NewRoot) := v in
  FreePool_node Node ;;;
  let! NewRoot :=
    (if bool_decide (ColorOfUnlinked = RedBlackTreeBlack) then
       let! fuel := turns in
       let! r := delete_fixup fuel Child Parent_ NewRoot in
       let '(Child, NewRoot) := r in
       when_ (negb (Child =? 0)) (store Child (set_Color RedBlackTreeBlack)) ;;;
       Mret NewRoot
     else Mret NewRoot) in
  store_tree Tree (set_Root NewRoot) ;;;
  when_ PcdValidateOrderedCollection (RedBlackTreeValidate Tree) ;;;
  Mret out.
End Collection.
