(* ===== verification/RbShape.v ===== *)
(** * RbShape: trees in the heap

    The abstract trees and contexts (zippers) that the pointer structure of
    RbTree.v represents, the representation as a list of cells, and the
    behaviour of the elementary steps and rotations on it. *)

From stdpp Require Import base option list gmap fin_maps sorting.
From Stdlib Require Import ZArith Lia.
From S2P Require Import Prelude RbTree.

Local Open Scope Z_scope.
Local Open Scope edk_scope.

Abbreviation COLOR := RED_BLACK_TREE_COLOR.
Abbreviation Red := RedBlackTreeRed.
Abbreviation Black := RedBlackTreeBlack.
Abbreviation NODE := RED_BLACK_TREE_NODE.

(** ** Cells

    [heap_is h L]: the heap [h] consists of exactly the cells [L], none of
    them at NULL.  The order of the cells does not matter. *)

Definition heap_is (h : gmap Z NODE) (L : list (Z * NODE)) : Prop :=
  NoDup L.*1 /\ 0 ∉ L.*1 /\ h = list_to_map L.

#[global] Instance heap_is_perm h : Proper (Permutation ==> iff) (heap_is h).
Proof.
  assert (H : forall L L', L ≡ₚ L' -> heap_is h L -> heap_is h L').
  { intros L L' HL (Hn & H0 & ->). split_and!; [by rewrite <- HL..|].
    by apply list_to_map_proper. }
  intros L L' HL. split; by apply H.
Qed.

Definition has_cells (Ts : gmap Z RED_BLACK_TREE) (L : list (Z * NODE)) (s : MEM) : Prop :=
  trees s = Ts /\ heap_is (nodes s) L.

#[global] Instance has_cells_perm Ts : Proper (Permutation ==> eq ==> iff) (has_cells Ts).
Proof. intros L L' HL s s' <-. unfold has_cells. by rewrite HL. Qed.

Lemma has_cells_reorder Ts L L' s : has_cells Ts L s -> L ≡ₚ L' -> has_cells Ts L' s.
Proof. intros H HL. by rewrite <- HL. Qed.

Lemma has_cells_lookup Ts L s p n : has_cells Ts L s -> (p, n) ∈ L -> nodes s !! p = Some n.
Proof.
  intros (_ & Hn & _ & ->) Hp. by apply elem_of_list_to_map_1.
Qed.

Lemma has_cells_nonnull Ts L s p : has_cells Ts L s -> p ∈ L.*1 -> p <> 0.
Proof. intros (_ & _ & H0 & _) Hp ->. done. Qed.

Lemma has_cells_nodup Ts L s : has_cells Ts L s -> NoDup L.*1.
Proof. by intros (_ & Hn & _). Qed.

Lemma has_cells_size Ts L s : has_cells Ts L s -> size (nodes s) = length L.
Proof. intros (_ & Hn & _ & ->). by apply map_size_list_to_map. Qed.

(** Find a cell by its address, or bring it to the front. *)
Ltac in_cells :=
  match goal with
  | |- _ ∈ _ :: _ => first [apply list_elem_of_here | apply list_elem_of_further; in_cells]
  | |- _ ∈ _ ++ _ => apply elem_of_app; first [left; in_cells | right; in_cells]
  end.

Section Pull.
Context {A : Type} (B : list A).
Lemma pull_cons x (L L' : list A) : L ≡ₚ B ++ L' -> x :: L ≡ₚ B ++ x :: L'.
Proof. intros ->. apply Permutation_middle. Qed.
Lemma pull_app_l (L1 L1' L2 : list A) : L1 ≡ₚ B ++ L1' -> L1 ++ L2 ≡ₚ B ++ L1' ++ L2.
Proof. intros ->. by rewrite app_assoc. Qed.
Lemma pull_app_r (L1 L2 L2' : list A) : L2 ≡ₚ B ++ L2' -> L1 ++ L2 ≡ₚ B ++ L1 ++ L2'.
Proof. intros ->. apply Permutation_app_swap_app. Qed.
Lemma pull_all : B ≡ₚ B ++ [].
Proof. by rewrite app_nil_r. Qed.
End Pull.

Lemma pull_here {A} (x : A) L : x :: L ≡ₚ [x] ++ L.
Proof. done. Qed.
Lemma pull_one {A} (x : A) L L' : L ≡ₚ [x] ++ L' -> L ≡ₚ x :: L'.
Proof. done. Qed.

Ltac pull_block :=
  first
    [ match goal with
      | |- _ :: _ ≡ₚ [_] ++ _ => apply pull_here
      | |- ?B ++ _ ≡ₚ ?B ++ _ => reflexivity
      | |- ?B ≡ₚ ?B ++ _ => apply pull_all
      end
    | match goal with
      | |- _ :: _ ≡ₚ _ => eapply pull_cons; pull_block
      | |- _ ++ _ ≡ₚ _ => first [eapply pull_app_l; pull_block | eapply pull_app_r; pull_block]
      end ].
Ltac pull := eapply pull_one; pull_block.
Ltac pull_ H := eapply has_cells_reorder; [exact H|pull_block].

(** The same cells in another order. *)
Ltac reorder H := eapply has_cells_reorder; [exact H|solve_Permutation].

(** *** Steps on cells *)

Lemma wp_load Ts L s p n (Q : NODE -> MEM -> Prop) :
  has_cells Ts L s -> (p, n) ∈ L -> Q n s -> wp true (load p) Q s.
Proof.
  intros H Hp HQ. apply (wp_eq _ _ _ _ n s); [|done]. unfold load. by rewrite (has_cells_lookup Ts L s p n).
Qed.

Lemma wp_store Ts L L' s p n f (Q : unit -> MEM -> Prop) :
  has_cells Ts L s -> L ≡ₚ (p, n) :: L' ->
  (forall s', has_cells Ts ((p, f n) :: L') s' -> Q tt s') -> wp true (store p f) Q s.
Proof.
  intros H HL HQ. rewrite HL in H.
  pose proof (has_cells_lookup _ _ _ p n H ltac:(by left)) as E.
  eapply wp_eq; [unfold store; by rewrite E|]. apply HQ. destruct H as (HT & Hn & H0 & ->).
  split; [done|]. split_and!; [exact Hn|exact H0|]. cbn. by rewrite insert_insert_eq.
Qed.

Lemma wp_free Ts L L' s p n (Q : unit -> MEM -> Prop) :
  has_cells Ts L s -> L ≡ₚ (p, n) :: L' ->
  (forall s', has_cells Ts L' s' -> Q tt s') -> wp true (FreePool_node p) Q s.
Proof.
  intros H HL HQ. rewrite HL in H.
  pose proof (has_cells_lookup _ _ _ p n H ltac:(by left)) as E.
  eapply wp_eq; [unfold FreePool_node; by rewrite E|]. apply HQ. destruct H as (HT & Hn & H0 & ->).
  cbn in Hn, H0. apply NoDup_cons in Hn as [Hp Hn]. rewrite not_elem_of_cons in H0.
  split; [done|]. split_and!; [done|apply H0|]. cbn. apply delete_insert_id.
  by apply not_elem_of_list_to_map_1.
Qed.

Lemma has_cells_alloc Ts L s p n :
  has_cells Ts L s -> p <> 0 -> nodes s !! p = None ->
  has_cells Ts ((p, n) :: L) (mkMem (trees s) (<[p := n]> (nodes s))).
Proof.
  intros (HT & Hn & H0 & E) Hp Hf. rewrite E in Hf |- *. split; [done|]. split_and!; [| |done]; cbn.
  - apply NoDup_cons. split; [|done]. by apply not_elem_of_list_to_map_2.
  - apply not_elem_of_cons. done.
Qed.

(** ** Trees and contexts *)

Inductive tree : Type :=
| E
| T (c : COLOR) (l : tree) (p u : Z) (r : tree).

#[global] Instance tree_eq_dec : EqDecision tree.
Proof. unfold EqDecision, Decision. decide equality; apply (decide (_ = _)). Defined.

Definition root (t : tree) : Z := match t with E => 0 | T _ _ p _ _ => p end.
Definition color (t : tree) : COLOR := match t with E => Black | T c _ _ _ _ => c end.
Definition paint (c : COLOR) (t : tree) : tree := match t with E => E | T _ l p u r => T c l p u r end.

(** Nodes in order: address and user structure. *)
Fixpoint inorder (t : tree) : list (Z * Z) :=
  match t with E => [] | T _ l p u r => inorder l ++ (p, u) :: inorder r end.

(** The cells of a tree under parent [par]. *)
Fixpoint layout (par : Z) (t : tree) : list (Z * NODE) :=
  match t with
  | E => []
  | T c l p u r => (p, mkNode u par (root l) (root r) c) :: layout p l ++ layout p r
  end.

(** A node with its subtree on side [sd] and the one on the other side. *)
Definition nd (sd : side) (c : COLOR) (p u : Z) (near far : tree) : tree :=
  match sd with SideLeft => T c near p u far | SideRight => T c far p u near end.

(** One level of a context: a node with a hole on side [fside]. *)
Record frame := Fr { fside : side; fcolor : COLOR; faddr : Z; fuser : Z; fsib : tree }.
#[global] Instance frame_eq_dec : EqDecision frame.
Proof. solve_decision. Defined.
Definition ctx : Type := list frame.

Definition fill (f : frame) (t : tree) : tree := nd (fside f) (fcolor f) (faddr f) (fuser f) t (fsib f).
Definition plug (k : ctx) (t : tree) : tree := foldl (fun t f => fill f t) t k.
Definition top (k : ctx) : Z := match k with [] => 0 | f :: _ => faddr f end.

Definition fnode (f : frame) (par hole : Z) : NODE :=
  match fside f with
  | SideLeft => mkNode (fuser f) par hole (root (fsib f)) (fcolor f)
  | SideRight => mkNode (fuser f) par (root (fsib f)) hole (fcolor f)
  end.

(** The cells of a context whose hole holds a tree with root [hole]. *)
Fixpoint clayout (k : ctx) (hole : Z) : list (Z * NODE) :=
  match k with
  | [] => []
  | f :: k' => (faddr f, fnode f (top k') hole) :: layout (faddr f) (fsib f) ++ clayout k' (faddr f)
  end.

(** The nodes in order before and after the hole. *)
Fixpoint before (k : ctx) : list (Z * Z) :=
  match k with
  | [] => []
  | f :: k' =>
      before k' ++ match fside f with SideLeft => [] | SideRight => inorder (fsib f) ++ [(faddr f, fuser f)] end
  end.
Fixpoint after (k : ctx) : list (Z * Z) :=
  match k with
  | [] => []
  | f :: k' =>
      match fside f with SideLeft => (faddr f, fuser f) :: inorder (fsib f) | SideRight => [] end ++ after k'
  end.

Lemma opp_opp sd : opp (opp sd) = sd.
Proof. by destruct sd. Qed.
Lemma nd_opp sd c p u a b : nd sd c p u a b = nd (opp sd) c p u b a.
Proof. by destruct sd. Qed.
Lemma root_nd sd c p u a b : root (nd sd c p u a b) = p.
Proof. by destruct sd. Qed.
Lemma color_nd sd c p u a b : color (nd sd c p u a b) = c.
Proof. by destruct sd. Qed.
Lemma paint_nd sd c p u a b c' : paint c' (nd sd c p u a b) = nd sd c' p u a b.
Proof. by destruct sd. Qed.
Lemma nd_eta sd t : t <> E -> exists c p u a b, t = nd sd c p u a b.
Proof. destruct t as [|c l p u r]; [done|]. intros _. destruct sd; by repeat eexists. Qed.
Lemma nd_not_E sd c p u a b : nd sd c p u a b <> E.
Proof. by destruct sd. Qed.

Lemma plug_cons f k t : plug (f :: k) t = plug k (fill f t).
Proof. done. Qed.
Lemma plug_app k k' t : plug (k ++ k') t = plug k' (plug k t).
Proof. apply foldl_app. Qed.

Lemma inorder_plug k t : inorder (plug k t) = before k ++ inorder t ++ after k.
Proof.
  revert t. induction k as [|[sd c p u x] k IH]; intros t; cbn [before after].
  - by rewrite app_nil_r.
  - rewrite plug_cons, IH. destruct sd; cbn; rewrite ?app_nil_r, <- ?app_assoc; done.
Qed.

Lemma layout_addrs par t : (layout par t).*1 ≡ₚ (inorder t).*1.
Proof.
  revert par. induction t as [|c l IHl p u r IHr]; intros par; [done|]. cbn [layout inorder].
  rewrite fmap_app, !fmap_cons, fmap_app, IHl, IHr. cbn. apply Permutation_middle.
Qed.

Lemma length_layout par t : length (layout par t) = length (inorder t).
Proof.
  rewrite <- (length_fmap fst (layout par t)), <- (length_fmap fst (inorder t)). by rewrite layout_addrs.
Qed.

(** A tree in its context, seen from the hole or as a whole. *)
Lemma zip_cells f k t :
  layout (faddr f) t ++ clayout (f :: k) (root t) ≡ₚ layout (top k) (fill f t) ++ clayout k (faddr f).
Proof.
  destruct f as [sd c p u x]. destruct sd; cbn; solve_Permutation.
Qed.

(** ** A tree in context in memory

    [zip Ts k t F]: the cells of tree [t] in context [k], and the cells [F]
    of everything else. *)
Definition zip (Ts : gmap Z RED_BLACK_TREE) (k : ctx) (t : tree) (F : list (Z * NODE)) : MEM -> Prop :=
  has_cells Ts (layout (top k) t ++ clayout k (root t) ++ F).

Lemma root_fill f t : root (fill f t) = faddr f.
Proof. apply root_nd. Qed.

Lemma zip_up Ts f k t F s : zip Ts (f :: k) t F s <-> zip Ts k (fill f t) F s.
Proof.
  unfold zip. rewrite root_fill, !(app_assoc (layout _ _)). change (top (f :: k)) with (faddr f).
  by rewrite zip_cells.
Qed.

Lemma zip_plug Ts k t F s : zip Ts k t F s <-> zip Ts [] (plug k t) F s.
Proof. revert t. induction k as [|f k IH]; intros t; [done|]. by rewrite zip_up, IH. Qed.

Lemma zip_whole Ts k t F s : zip Ts k t F s -> zip Ts [] (plug k t) F s.
Proof. apply zip_plug. Qed.

Lemma zip_app Ts k k' t F s : zip Ts (k ++ k') t F s <-> zip Ts k' (plug k t) F s.
Proof. by rewrite zip_plug, plug_app, <- zip_plug. Qed.

(** The hole moved to the other side of the top frame. *)
Lemma zip_flip Ts sd c p u x k t F s :
  zip Ts (Fr sd c p u x :: k) t F s <-> zip Ts (Fr (opp sd) c p u t :: k) x F s.
Proof. rewrite !zip_up. unfold fill. cbn. by rewrite nd_opp. Qed.

Lemma zip_nd Ts k sd c p u a b F s : zip Ts k (nd sd c p u a b) F s <-> zip Ts (Fr sd c p u b :: k) a F s.
Proof. by rewrite zip_up. Qed.

Lemma zip_down Ts k sd c p u a b F s : zip Ts k (nd sd c p u a b) F s -> zip Ts (Fr sd c p u b :: k) a F s.
Proof. apply zip_nd. Qed.
Lemma zip_out Ts k sd c p u a b F s : zip Ts (Fr sd c p u b :: k) a F s -> zip Ts k (nd sd c p u a b) F s.
Proof. apply zip_nd. Qed.
(** Down to the other side. *)
Lemma zip_down_far Ts k sd c p u a b F s :
  zip Ts k (nd sd c p u a b) F s -> zip Ts (Fr (opp sd) c p u a :: k) b F s.
Proof. rewrite nd_opp. apply zip_nd. Qed.
Lemma zip_out_far Ts k sd c p u a b F s :
  zip Ts (Fr (opp sd) c p u a :: k) b F s -> zip Ts k (nd sd c p u a b) F s.
Proof. rewrite nd_opp. apply zip_nd. Qed.

(** *** Addresses *)

Lemma root_in par t : t <> E -> root t ∈ (layout par t).*1.
Proof. destruct t; [done|]. intros _. cbn. by left. Qed.

Lemma root_plug_in k t h : k <> [] -> root (plug k t) ∈ (clayout k h).*1.
Proof.
  revert t h. induction k as [|f k IH]; intros t h Hk; [done|]. rewrite plug_cons.
  destruct k as [|f' k]; cbn [clayout]; rewrite fmap_cons, ?fmap_app.
  - cbn. rewrite root_fill. by left.
  - right. apply elem_of_app. right. by apply IH.
Qed.

Section Addresses.
Context (Ts : gmap Z RED_BLACK_TREE) (F : list (Z * NODE)) (s : MEM).

Lemma zip_nodup k t : zip Ts k t F s -> NoDup ((layout (top k) t).*1 ++ (clayout k (root t)).*1 ++ F.*1).
Proof. intros H. apply has_cells_nodup in H. by rewrite !fmap_app in H. Qed.

Lemma zip_root_nonnull k t : zip Ts k t F s -> t <> E -> root t <> 0.
Proof.
  intros H Ht. eapply has_cells_nonnull; [exact H|]. rewrite fmap_app. apply elem_of_app. left.
  by apply root_in.
Qed.

Lemma zip_root_0 k t : zip Ts k t F s -> (root t =? 0) = bool_decide (t = E).
Proof.
  intros H. destruct (decide (t = E)) as [-> | Ht]; [done|]. rewrite bool_decide_false by done.
  apply Z.eqb_neq. by eapply zip_root_nonnull.
Qed.

Lemma zip_top_nonnull f k t : zip Ts (f :: k) t F s -> faddr f <> 0.
Proof. rewrite zip_up. intros H%zip_root_nonnull; [by rewrite root_fill in H|apply nd_not_E]. Qed.

Lemma zip_top_0 k t : zip Ts k t F s -> (top k =? 0) = bool_decide (k = []).
Proof.
  destruct k as [|f k]; [done|]. intros H%zip_top_nonnull. rewrite bool_decide_false by done.
  by apply Z.eqb_neq.
Qed.

(** The root of a proper subtree is not the root of the whole tree. *)
Lemma zip_not_root k t : zip Ts k t F s -> k <> [] -> root t <> root (plug k t).
Proof.
  intros H Hk Heq. destruct (decide (t = E)) as [-> | Ht].
  - rewrite zip_plug in H. apply zip_root_nonnull in H; [by rewrite <- Heq in H|].
    destruct k as [|f k] using rev_ind; [done|]. rewrite plug_app. apply nd_not_E.
  - apply zip_nodup, NoDup_app in H as (_ & H & _). apply (H (root t)); [by apply root_in|].
    rewrite Heq. apply elem_of_app. left. by apply root_plug_in.
Qed.

Lemma zip_is_root k t : zip Ts k t F s -> (root t =? root (plug k t)) = bool_decide (k = []).
Proof.
  intros H. destruct (decide (k = [])) as [-> | Hk]; [by rewrite Z.eqb_refl|].
  rewrite bool_decide_false by done. apply Z.eqb_neq. by apply zip_not_root.
Qed.

(** A non-empty subtree is told from its sibling by its root. *)
Lemma zip_sib f k t : zip Ts (f :: k) t F s -> t <> E -> root t <> root (fsib f).
Proof.
  intros H Ht Heq. destruct (decide (fsib f = E)) as [Hs | Hs].
  - apply zip_root_nonnull in H; [|done]. by rewrite Heq, Hs in H.
  - apply zip_nodup, NoDup_app in H as (_ & H & _). apply (H (root t)); [by apply root_in|].
    rewrite Heq. cbn [clayout]. rewrite fmap_cons, fmap_app, !elem_of_app, elem_of_cons. left. right.
    apply elem_of_app. left. by apply root_in.
Qed.

Lemma zip_side f k t : zip Ts (f :: k) t F s -> t <> E \/ fsib f <> E ->
  (root t =? Left (fnode f (top k) (root t))) = bool_decide (fside f = SideLeft).
Proof.
  intros H Ht. destruct f as [sd c p u x]. destruct sd; cbn in *; [by rewrite Z.eqb_refl|].
  apply Z.eqb_neq. destruct (decide (t = E)) as [-> | Hn]; [|by apply (zip_sib _ _ _ H)].
  destruct Ht as [|Hx]; [done|]. apply zip_flip, zip_root_nonnull in H; [|done]. by intros Heq.
Qed.
End Addresses.

Lemma child_fnode sd c p u x par h : child sd (fnode (Fr sd c p u x) par h) = h.
Proof. by destruct sd. Qed.
Lemma child_opp_fnode sd c p u x par h : child (opp sd) (fnode (Fr sd c p u x) par h) = root x.
Proof. by destruct sd. Qed.
Lemma child_fnode_other sd c p u x par h : child sd (fnode (Fr (opp sd) c p u x) par h) = root x.
Proof. by destruct sd. Qed.
Lemma Parent_fnode f par h : Parent (fnode f par h) = par.
Proof. by destruct f as [[] ? ? ? ?]. Qed.
Lemma Color_fnode f par h : Color (fnode f par h) = fcolor f.
Proof. by destruct f as [[] ? ? ? ?]. Qed.
Lemma UserStruct_fnode f par h : UserStruct (fnode f par h) = fuser f.
Proof. by destruct f as [[] ? ? ? ?]. Qed.
Create Rewrite HintDb rb.
#[export] Hint Rewrite child_fnode child_opp_fnode child_fnode_other Parent_fnode Color_fnode UserStruct_fnode
  root_nd color_nd opp_opp : rb.

(** *** Reading and painting *)

Section Steps.
Context (Ts : gmap Z RED_BLACK_TREE) (F : list (Z * NODE)).

Lemma zip_load_top f k t s (Q : NODE -> MEM -> Prop) :
  zip Ts (f :: k) t F s -> Q (fnode f (top k) (root t)) s -> wp true (load (faddr f)) Q s.
Proof. intros H. eapply wp_load; [exact H|]. cbn. rewrite elem_of_app. right. by left. Qed.

Lemma zip_load k sd c p u a b s (Q : NODE -> MEM -> Prop) :
  zip Ts k (nd sd c p u a b) F s -> Q (fnode (Fr sd c p u b) (top k) (root a)) s -> wp true (load p) Q s.
Proof. intros H%zip_nd. by apply (zip_load_top (Fr sd c p u b)). Qed.

Lemma zip_null_or_black k t s (Q : bool -> MEM -> Prop) :
  zip Ts k t F s -> Q (bool_decide (color t = Black)) s -> wp true (NodeIsNullOrBlack (root t)) Q s.
Proof.
  intros H HQ. unfold NodeIsNullOrBlack. rewrite (zip_root_0 _ _ _ _ _ H).
  destruct (decide (t = E)) as [-> | Ht]; [by apply wp_ret|]. rewrite bool_decide_false by done.
  destruct (nd_eta SideLeft t Ht) as (c & p & u & a & b & ->). rewrite root_nd.
  apply wp_bind. eapply zip_load; [exact H|]. autorewrite with rb. apply wp_ret. done.
Qed.

Lemma zip_paint_top sd c c' p u x k t s (Q : unit -> MEM -> Prop) :
  zip Ts (Fr sd c p u x :: k) t F s ->
  (forall s', zip Ts (Fr sd c' p u x :: k) t F s' -> Q tt s') -> wp true (store p (set_Color c')) Q s.
Proof.
  intros H HQ. eapply wp_store; [exact H|cbn; rewrite <- Permutation_middle; reflexivity|].
  intros s' H'. apply HQ. unfold zip. cbn. rewrite <- Permutation_middle. by destruct sd.
Qed.

Lemma zip_paint c' k t s (Q : unit -> MEM -> Prop) :
  zip Ts k t F s -> t <> E ->
  (forall s', zip Ts k (paint c' t) F s' -> Q tt s') -> wp true (store (root t) (set_Color c')) Q s.
Proof.
  intros H Ht HQ. destruct (nd_eta SideLeft t Ht) as (c & p & u & a & b & ->). rewrite root_nd.
  apply zip_nd in H. eapply zip_paint_top; [exact H|]. intros s' H'%zip_nd. apply HQ. by rewrite paint_nd.
Qed.
End Steps.

(** ** Relinking *)

Lemma root_plug k t t' : k <> [] -> root (plug k t) = root (plug k t').
Proof.
  destruct k as [|f k] using rev_ind; [done|]. intros _. rewrite !plug_app. cbn. by rewrite !root_fill.
Qed.

Lemma wp_reparent Ts par q t L s (Q : unit -> MEM -> Prop) :
  has_cells Ts (layout par t ++ L) s ->
  (forall s', has_cells Ts (layout q t ++ L) s' -> Q tt s') ->
  wp true (when_ (negb (root t =? 0)) (store (root t) (set_Parent q))) Q s.
Proof.
  intros H HQ. destruct t as [|c l p u r]; [apply wp_ret; by apply HQ|].
  pose proof (has_cells_nonnull _ _ _ p H ltac:(cbn; by left)) as Hp.
  cbn [root]. destruct (Z.eqb_spec p 0) as [|_]; [done|]. cbn [negb when_].
  eapply wp_store; [exact H|cbn; reflexivity|]. done.
Qed.

Lemma wp_replace Ts k old new NewRoot L s (Q : Z -> MEM -> Prop) :
  has_cells Ts (clayout k old ++ L) s ->
  (forall f k', k = f :: k' -> old <> root (fsib f)) ->
  (forall s', has_cells Ts (clayout k new ++ L) s' ->
     Q (if decide (k = []) then new else NewRoot) s') ->
  wp true (replace_child (top k) old new NewRoot) Q s.
Proof.
  intros H Hold HQ. unfold replace_child. destruct k as [|[sd c p u x] k]; [apply wp_ret; by apply HQ|].
  pose proof (has_cells_nonnull _ _ _ p H ltac:(cbn; by left)) as Hp. specialize (Hold _ _ eq_refl).
  cbn [top faddr]. destruct (Z.eqb_spec p 0) as [|_]; [done|]. apply wp_bind.
  eapply wp_load; [exact H|by left|]. apply wp_bind.
  destruct sd; cbn [fnode fside fuser fcolor fsib Left] in *.
  - rewrite Z.eqb_refl. eapply wp_store; [exact H|cbn; reflexivity|]. intros s' H'. apply wp_ret. by apply HQ.
  - destruct (Z.eqb_spec old (root x)) as [|_]; [done|].
    eapply wp_store; [exact H|cbn; reflexivity|]. intros s' H'. apply wp_ret. by apply HQ.
Qed.

Lemma replace_root k t t' :
  (if decide (k = []) then root t' else root (plug k t)) = root (plug k t').
Proof. case_decide as Hk; [by rewrite Hk|by apply root_plug]. Qed.

(** The rotations share their inner part with deletion. *)
Lemma rotate_unfold sd Pivot NewRoot :
  rotate sd Pivot NewRoot =
  (let! pivot := load Pivot in
   let! x := load (child (opp sd) pivot) in
   store Pivot (set_child (opp sd) (child sd x)) ;;;
   when_ (negb (child sd x =? 0)) (store (child sd x) (set_Parent Pivot)) ;;;
   store (child (opp sd) pivot) (set_Parent (Parent pivot)) ;;;
   let! NewRoot := replace_child (Parent pivot) Pivot (child (opp sd) pivot) NewRoot in
   store (child (opp sd) pivot) (set_child sd Pivot) ;;;
   store Pivot (set_Parent (child (opp sd) pivot)) ;;;
   Mret NewRoot).
Proof. by destruct sd. Qed.

Lemma set_child_fnode sd c p u x par h v :
  set_child sd v (fnode (Fr sd c p u x) par h) = fnode (Fr sd c p u x) par v.
Proof. by destruct sd. Qed.
Lemma set_child_opp_fnode sd c p u x y par h :
  set_child (opp sd) (root y) (fnode (Fr sd c p u x) par h) = fnode (Fr sd c p u y) par h.
Proof. by destruct sd. Qed.
Lemma set_Parent_fnode f par par' h : set_Parent par' (fnode f par h) = fnode f par' h.
Proof. by destruct f as [[] ? ? ? ?]. Qed.

(** The cells of a node and of its subtrees. *)
Lemma layout_nd par sd c p u a b :
  layout par (nd sd c p u a b) ≡ₚ (p, fnode (Fr sd c p u b) par (root a)) :: layout p a ++ layout p b.
Proof. destruct sd; cbn; [done|]. solve_Permutation. Qed.

Lemma zip_rotate Ts sd c p u a c' q u' b d k F s (Q : Z -> MEM -> Prop) :
  let t := nd sd c p u a (nd sd c' q u' b d) in
  let t' := nd sd c' q u' (nd sd c p u a b) d in
  zip Ts k t F s ->
  (forall s', zip Ts k t' F s' -> Q (root (plug k t')) s') ->
  wp true (rotate sd p (root (plug k t))) Q s.
Proof.
  intros t t' H HQ. rewrite rotate_unfold. apply wp_bind. eapply zip_load; [exact H|].
  autorewrite with rb. apply wp_bind.
  assert (Hold : forall f k', k = f :: k' -> p <> root (fsib f)).
  { intros f k' ->. pose proof (zip_sib _ _ _ _ _ _ H (nd_not_E _ _ _ _ _ _)) as Hs.
    unfold t in Hs. by rewrite root_nd in Hs. }
  unfold zip, t in H. rewrite !layout_nd, !root_nd in H.
  eapply wp_load; [exact H|in_cells|]. autorewrite with rb. apply wp_bind.
  eapply wp_store; [exact H|pull|]. clear s H. intros s H.
  rewrite set_child_opp_fnode in H. apply wp_bind.
  eapply (wp_reparent Ts q p b); [pull_ H|].
  clear s H. intros s H. apply wp_bind.
  eapply wp_store; [exact H|pull|]. clear s H. intros s H. rewrite set_Parent_fnode in H.
  apply wp_bind.
  eapply (wp_replace Ts k p q); [pull_ H|done|].
  clear s H. intros s H. apply wp_bind.
  eapply wp_store; [exact H|pull|]. clear s H. intros s H. rewrite set_child_fnode in H.
  apply wp_bind. eapply wp_store; [exact H|pull|]. clear s H. intros s H.
  rewrite set_Parent_fnode in H. apply wp_ret.
  replace (if decide (k = []) then q else root (plug k t)) with (root (plug k t')).
  2:{ rewrite <- (replace_root k t t'). unfold t'. by rewrite root_nd. }
  apply HQ. unfold zip, t'. rewrite !layout_nd, !root_nd.
  reorder H.
Qed.

(** Equal sequences of nodes, up to association. *)
Ltac inorder_eq := cbn; repeat (rewrite <- app_assoc; cbn); reflexivity.

Lemma inorder_rotate sd c p u a c' q u' b d :
  inorder (nd sd c' q u' (nd sd c p u a b) d) = inorder (nd sd c p u a (nd sd c' q u' b d)).
Proof. destruct sd; inorder_eq. Qed.
