(* ===== verification/RbInsert.v ===== *)
(** * RbInsert: the red-black properties, and insertion

    The properties #2 to #5 of the source as an inductive predicate, and that
    the loop of OrderedCollectionInsert restores them. *)

From stdpp Require Import base option list gmap fin_maps sorting.
From Stdlib Require Import ZArith Lia.
From S2P Require Import Prelude RbTree RbShape.

Local Open Scope Z_scope.
Local Open Scope edk_scope.

(** ** The red-black properties

    [rb t c n]: red nodes have black children, every path from the root of
    [t] to a leaf has [n] black nodes, and the root has colour [c]. *)
Inductive rb : tree -> COLOR -> nat -> Prop :=
| rb_E : rb E Black 0
| rb_red l p u r n : rb l Black n -> rb r Black n -> rb (T Red l p u r) Red n
| rb_black l p u r cl cr n : rb l cl n -> rb r cr n -> rb (T Black l p u r) Black (S n).

(** [hole k c n]: a tree with [rb _ c n] in the hole makes the whole tree
    satisfy the properties, with a black root. *)
Fixpoint hole (k : ctx) (c : COLOR) (n : nat) : Prop :=
  match k with
  | [] => c = Black
  | f :: k' =>
      match fcolor f with
      | Red => c = Black /\ rb (fsib f) Black n /\ hole k' Red n
      | Black => (exists cs, rb (fsib f) cs n) /\ hole k' Black (S n)
      end
  end.

Lemma rb_color t c n : rb t c n -> color t = c.
Proof. by destruct 1. Qed.
Lemma rb_nd_red sd p u a b n : rb a Black n -> rb b Black n -> rb (nd sd Red p u a b) Red n.
Proof. intros. by destruct sd; constructor. Qed.
Lemma rb_nd_black sd p u a b ca cb n : rb a ca n -> rb b cb n -> rb (nd sd Black p u a b) Black (S n).
Proof. intros. by destruct sd; econstructor. Qed.
Lemma rb_red_inv sd c p u a b n : rb (nd sd c p u a b) Red n -> c = Red /\ rb a Black n /\ rb b Black n.
Proof. destruct sd; inversion 1; by simplify_eq. Qed.
Lemma rb_black_inv sd c p u a b n :
  rb (nd sd c p u a b) Black n -> exists m ca cb, c = Black /\ n = S m /\ rb a ca m /\ rb b cb m.
Proof. destruct sd; inversion 1; simplify_eq; by repeat eexists. Qed.
Lemma rb_E_inv c n : rb E c n -> c = Black /\ n = O.
Proof. by inversion 1. Qed.
Lemma rb_red_nd sd t n : rb t Red n -> exists p u a b, t = nd sd Red p u a b /\ rb a Black n /\ rb b Black n.
Proof. inversion 1; subst. destruct sd; by repeat eexists. Qed.
Lemma rb_S_nd sd t n : rb t Black (S n) ->
  exists p u a b ca cb, t = nd sd Black p u a b /\ rb a ca n /\ rb b cb n.
Proof. inversion 1; subst. destruct sd; by repeat eexists. Qed.

Lemma rb_paint_black t c n : rb t c n -> exists m, rb (paint Black t) Black m.
Proof. inversion 1; subst; cbn; eexists; econstructor; done. Qed.
Lemma rb_paint_red t n : rb t Red n -> rb (paint Black t) Black (S n).
Proof. inversion 1; subst; cbn; by econstructor. Qed.

#[export] Hint Resolve rb_nd_red rb_nd_black : edk.

(** A hole that takes a red tree takes a black one. *)
Lemma hole_black k c n : hole k c n -> hole k Black n.
Proof.
  destruct k as [|[sd fc p u x] k]; [done|]. cbn. destruct fc; [|done]. by intros (_ & ? & ?).
Qed.

Lemma hole_plug k : forall t c n, rb t c n -> hole k c n -> exists m, rb (plug k t) Black m.
Proof.
  induction k as [|[sd fc p u x] k IH]; intros t c n Ht Hk; cbn in Hk.
  - subst c. by exists n.
  - rewrite plug_cons. unfold fill. cbn [fside fcolor faddr fuser fsib]. destruct fc.
    + destruct Hk as (-> & Hx & Hk). eapply IH; [by apply rb_nd_red|done].
    + destruct Hk as ((cs & Hx) & Hk). eapply IH; [by eapply rb_nd_black|done].
Qed.

Lemma plug_hole k : forall t m, rb (plug k t) Black m ->
  exists c n, rb t c n /\ hole k c n.
Proof.
  induction k as [|[sd fc p u x] k IH]; intros t m H; [by exists Black, m|].
  rewrite plug_cons in H. destruct (IH _ m H) as (c' & n' & Ht & Hk). unfold fill in Ht. cbn in Ht.
  destruct c'.
  - apply rb_red_inv in Ht as (-> & Ha & Hb). exists Black, n'. by cbn.
  - apply rb_black_inv in Ht as (j & ca & cb & -> & -> & Ha & Hb). exists ca, j. cbn. eauto.
Qed.

(** ** The loop of OrderedCollectionInsert *)

Section Fixup.
Context (Ts : gmap Z RED_BLACK_TREE) (F : list (Z * NODE)).

(** A red uncle: recolour and go on two levels up. *)
Definition recoloured (k : ctx) (g : tree) (n : nat) (v : loop_vars) (s : MEM) : Prop :=
  exists t, zip Ts k t F s /\ rb t Red (S n) /\ inorder t = inorder g /\
    v = (root t, top k, root (plug k t)).
(** A black uncle: rotate, and the loop ends. *)
Definition rotated (k : ctx) (g : tree) (n : nat) (v : loop_vars) (s : MEM) : Prop :=
  exists f t, zip Ts (f :: k) t F s /\ t <> E /\ fcolor f = Black /\ rb (fill f t) Black (S n) /\
    inorder (fill f t) = inorder g /\ v = (root t, faddr f, root (plug (f :: k) t)).

(** The case of a black uncle, with [Tmp] on the outer side. *)
Lemma insert_straight sd p u x q v y k t n s :
  let g := nd sd Black q v (nd sd Red p u t x) y in
  zip Ts k g F s -> rb t Red n -> rb x Black n -> rb y Black n ->
  wp true (store p (set_Color Black) ;;;
           store q (set_Color Red) ;;;
           let! NewRoot := rotate (opp sd) q (root (plug k g)) in
           Mret (root t, p, NewRoot)) (rotated k g n) s.
Proof.
  intros g H Ht Hx Hy. unfold g in H. apply zip_down, zip_down in H. apply wp_bind.
  eapply zip_paint_top; [exact H|]. clear s H. intros s H. apply zip_out in H. apply wp_bind.
  eapply zip_paint_top; [exact H|]. clear s H. intros s H. apply zip_out in H. apply wp_bind.
  rewrite nd_opp, (nd_opp sd Black p) in H.
  replace (root (plug k g)) with (root (plug k (nd (opp sd) Red q v y (nd (opp sd) Black p u x t)))).
  2:{ destruct k as [|f k]; [cbn; unfold g; by rewrite !root_nd|by apply root_plug]. }
  eapply zip_rotate; [exact H|]. clear s H. intros s H. apply wp_ret.
  exists (Fr sd Black p u (nd (opp sd) Red q v y x)), t.
  rewrite nd_opp, opp_opp in H. apply zip_down in H. unfold fill. cbn [fside fcolor faddr fuser fsib].
  split_and!; [done| |done| | |].
  - intros ->. by apply rb_E_inv in Ht as [? _].
  - eapply rb_nd_black; [done|by apply rb_nd_red].
  - unfold g. destruct sd; inorder_eq.
  - rewrite plug_cons. unfold fill. cbn [fside fcolor faddr fuser fsib]. by rewrite nd_opp, opp_opp.
Qed.

Lemma insert_red_uncle sd s1 p u x q v y k t n s :
  let g := nd sd Black q v (nd s1 Red p u t x) y in
  zip Ts k g F s -> rb t Red n -> rb x Black n -> rb y Red n ->
  wp true (store p (set_Color Black) ;;;
           store (root y) (set_Color Black) ;;;
           store q (set_Color Red) ;;;
           let! t := load q in
           Mret (q, Parent t, root (plug k g))) (recoloured k g n) s.
Proof.
  intros g H Ht Hx Hy. apply wp_bind.
  apply zip_down, zip_down in H. eapply zip_paint_top; [exact H|]. clear s H. intros s H.
  apply zip_out, zip_out, zip_down_far in H. apply wp_bind.
  eapply zip_paint; [exact H|by intros ->; apply rb_E_inv in Hy as [? _]|]. clear s H. intros s H.
  apply wp_bind. eapply zip_paint_top; [exact H|]. clear s H. intros s H. apply zip_out_far in H.
  apply wp_bind. eapply zip_load; [exact H|]. autorewrite with rb.
  apply wp_ret. eexists. split; [exact H|]. rewrite root_nd. split_and!.
  - apply rb_nd_red; [by eapply rb_nd_black|by apply rb_paint_red].
  - unfold g. destruct sd, s1; cbn; by destruct y.
  - destruct k as [|f k]; [cbn; unfold g; by rewrite !root_nd|]. f_equal. by apply root_plug.
Qed.

Lemma insert_side_ok sd s1 p u x q v y k t n cy s :
  let g := nd sd Black q v (nd s1 Red p u t x) y in
  zip Ts k g F s -> rb t Red n -> rb x Black n -> rb y cy n ->
  wp true (insert_fixup_side sd q (root t) p (root (plug k g)))
    (fun w s' => recoloured k g n w s' \/ rotated k g n w s') s.
Proof.
  intros g H Ht Hx Hy. unfold insert_fixup_side. apply wp_bind. eapply zip_load; [exact H|].
  autorewrite with rb. apply wp_bind.
  eapply zip_null_or_black; [apply zip_down_far; exact H|]. rewrite (rb_color _ _ _ Hy).
  assert (Hne : t <> E) by (intros ->; by apply rb_E_inv in Ht as [? _]).
  destruct cy; [rewrite bool_decide_false by done|rewrite bool_decide_true by done]; cbn [negb].
  { eapply wp_mono; [by apply insert_red_uncle|by left]. }
  apply wp_bind. eapply zip_load; [apply zip_down; exact H|].
  destruct (decide (s1 = sd)) as [-> | Hs].
  - autorewrite with rb. pose proof (zip_down _ _ _ _ _ _ _ _ _ _ (zip_down _ _ _ _ _ _ _ _ _ _ H)) as H2.
    apply zip_sib in H2; [|done]. cbn in H2. rewrite (proj2 (Z.eqb_neq _ _) H2).
    apply wp_bind, wp_ret. cbn beta iota.
    eapply wp_mono; [by apply insert_straight|by right].
  - assert (s1 = opp sd) as -> by (by destruct sd, s1). autorewrite with rb. rewrite Z.eqb_refl.
    destruct (rb_red_nd sd t n Ht) as (r & w & a & b & -> & Ha & Hb).
    apply zip_down in H. rewrite nd_opp, opp_opp in H. apply wp_bind, wp_bind.
    replace (root (plug k g)) with
      (root (plug (Fr sd Black q v y :: k) (nd sd Red p u x (nd sd Red r w a b)))).
    2:{ rewrite plug_cons. unfold fill, g. cbn. by rewrite (nd_opp (opp sd)), opp_opp. }
    eapply zip_rotate; [exact H|]. clear s H. intros s H. apply wp_bind.
    eapply zip_load; [apply zip_down; exact H|]. autorewrite with rb. cbn [top faddr]. apply wp_bind.
    eapply zip_load; [exact H|]. autorewrite with rb. cbn [top faddr].
    rewrite Z.eqb_refl. apply wp_bind, wp_ret, wp_ret. cbn beta iota. apply zip_out in H.
    rewrite plug_cons. unfold fill. cbn [fside fcolor faddr fuser fsib].
    pose proof (insert_straight sd r w b q v y k _ n s H ltac:(by apply rb_nd_red) Hb Hy) as Hw.
    rewrite root_nd in Hw. eapply wp_mono; [exact Hw|].
    intros w' s' (f & t' & H' & Ht' & Hf & Hr & Hi & ->). right. exists f, t'. split_and!; try done.
    rewrite Hi. unfold g. destruct sd; inorder_eq.
Qed.

(** What the loop leaves: a tree with the same nodes in order, that satisfies
    all properties but perhaps #5. *)
Definition fixed (t : tree) (NewRoot : Z) (s : MEM) : Prop :=
  exists t' c m, zip Ts [] t' F s /\ NewRoot = root t' /\ t' <> E /\ inorder t' = inorder t /\ rb t' c m.

Lemma plug_not_E k t : t <> E -> plug k t <> E.
Proof.
  revert t. induction k as [|f k IH]; intros t Ht; [done|]. rewrite plug_cons. apply IH, nd_not_E.
Qed.

Lemma inorder_plug_eq k t t' : inorder t = inorder t' -> inorder (plug k t) = inorder (plug k t').
Proof. intros H. by rewrite !inorder_plug, H. Qed.

(** The loop ends at a black parent. *)
Lemma insert_fixup_stop fuel f k t s c n :
  zip Ts (f :: k) t F s -> t <> E -> fcolor f = Black -> rb (fill f t) c n -> hole k c n ->
  wp true (insert_fixup (S fuel) (root t) (faddr f) (root (plug (f :: k) t))) (fixed (plug (f :: k) t)) s.
Proof.
  intros H Ht Hf Hr Hk. cbn [insert_fixup]. rewrite (zip_is_root _ _ _ _ _ H), bool_decide_false by done.
  apply wp_bind. eapply zip_load_top; [exact H|]. autorewrite with rb. rewrite Hf, bool_decide_true by done.
  apply wp_ret. destruct (hole_plug k _ _ _ Hr Hk) as [m Hm]. exists (plug (f :: k) t), Black, m.
  split_and!; [by rewrite <- zip_plug|done|by apply plug_not_E|done|done].
Qed.

Lemma insert_fixup_ok fuel : forall k t n s,
  zip Ts k t F s -> rb t Red n -> hole k Black n -> (length k < fuel)%nat ->
  wp true (insert_fixup fuel (root t) (top k) (root (plug k t))) (fixed (plug k t)) s.
Proof.
  induction fuel as [fuel IH] using lt_wf_ind. intros k t n s H Ht Hk Hf.
  destruct fuel as [|fuel]; [lia|].
  assert (Hne : t <> E) by (intros ->; by apply rb_E_inv in Ht as [? _]).
  destruct k as [|[s1 c1 p u x] k].
  { cbn [insert_fixup]. rewrite (zip_is_root _ _ _ _ _ H), bool_decide_true by done. apply wp_ret.
    exists t, Red, n. by split_and!. }
  destruct c1; cbn in Hk.
  2:{ destruct Hk as [[cs Hx] Hk]. eapply insert_fixup_stop; [done|done|done|by eapply rb_nd_black|done]. }
  destruct Hk as (_ & Hx & Hk).
  destruct k as [|[sd c2 q v y] k]; [done|]. destruct c2; cbn in Hk; [by destruct Hk|].
  destruct Hk as [[cy Hy] Hk]. cbn [insert_fixup].
  rewrite (zip_is_root _ _ _ _ _ H), bool_decide_false by done. apply wp_bind. cbn [top faddr].
  eapply zip_load; [apply zip_out; exact H|]. autorewrite with rb. rewrite bool_decide_false by done.
  cbn [top faddr]. apply wp_bind. apply zip_out in H. eapply zip_load; [apply zip_out; exact H|].
  pose proof (zip_side _ _ _ _ _ _ H ltac:(left; apply nd_not_E)) as Hside. rewrite root_nd in Hside.
  rewrite root_nd, Hside. cbn [fside].
  replace (if bool_decide (sd = SideLeft) then SideLeft else SideRight) with sd by by destruct sd.
  apply wp_bind. apply zip_out in H.
  change (plug (Fr s1 Red p u x :: Fr sd Black q v y :: k) t)
    with (plug k (nd sd Black q v (nd s1 Red p u t x) y)).
  eapply wp_mono; [apply (insert_side_ok sd s1 p u x q v y k t n cy s H Ht Hx Hy)|].
  intros w s' [(t' & H' & Hr & Hi & ->)|(f & t' & H' & Hne' & Hf' & Hr & Hi & ->)]; cbn beta iota.
  - eapply wp_mono; [apply (IH fuel ltac:(lia) k t' (S n) s'); [done|done|done|cbn in Hf; lia]|].
    intros NewRoot s2 (t2 & c2 & m & H2 & -> & Hne2 & Hi2 & Hr2). exists t2, c2, m. split_and!; try done.
    rewrite Hi2. by apply inorder_plug_eq.
  - destruct fuel as [|fuel]; [cbn in Hf; lia|].
    eapply wp_mono; [by apply (insert_fixup_stop fuel f k t' s' Black (S n))|].
    intros NewRoot s2 (t2 & c2 & m & H2 & -> & Hne2 & Hi2 & Hr2). exists t2, c2, m. split_and!; try done.
    rewrite Hi2. by apply (inorder_plug_eq k).
Qed.
End Fixup.
