(* ===== verification/RbWalk.v ===== *)
(** * RbWalk: searching, iterating and validating

    The loops of RbTree.v that only read: what they return, in terms of the
    sequence of nodes in order. *)

From stdpp Require Import base option list gmap fin_maps sorting.
From Stdlib Require Import ZArith Lia.
From S2P Require Import Prelude RbTree RbShape RbInsert.

Local Open Scope Z_scope.
Local Open Scope edk_scope.

(** ** Comparison functions

    What the library expects of UserStructCompare and KeyCompare: the first
    is a total preorder, the second places a key consistently in it. *)
Class UserCompare (cmp : Z -> Z -> Z) : Prop := {
  cmp_sym a b : cmp a b < 0 <-> 0 < cmp b a;
  cmp_mono a b c : cmp a b <= 0 -> cmp b c < 0 -> cmp a c < 0
}.
Class KeyOrder (cmp kc : Z -> Z -> Z) : Prop := {
  key_mono k a b : kc k a <= 0 -> cmp a b < 0 -> kc k b < 0
}.

#[global] Instance UserCompare_KeyOrder cmp : UserCompare cmp -> KeyOrder cmp cmp.
Proof. intros H. constructor. intros k a b. apply cmp_mono. Qed.

(** Numbers compared by subtraction. *)
#[global] Instance sub_UserCompare : UserCompare Z.sub.
Proof. constructor; lia. Qed.

Definition node_lt (cmp : Z -> Z -> Z) (a b : Z * Z) : Prop := cmp (a.2) (b.2) < 0.
Definition in_order (cmp : Z -> Z -> Z) (l : list (Z * Z)) : Prop := StronglySorted (node_lt cmp) l.

(** ** Heights *)

Fixpoint height (t : tree) : nat :=
  match t with E => O | T _ l _ _ r => S (height l `max` height r) end.

Lemma height_length t : (height t <= length (inorder t))%nat.
Proof. induction t as [|c l IHl p u r IHr]; cbn; [done|]. rewrite length_app. cbn. lia. Qed.

Lemma height_nd sd c p u a b : height (nd sd c p u a b) = S (height a `max` height b).
Proof. destruct sd; cbn; lia. Qed.

Lemma ctx_length k t : (length k + length (inorder t) <= length (inorder (plug k t)))%nat.
Proof.
  revert t. induction k as [|[sd c p u x] k IH]; intros t; [done|]. rewrite plug_cons.
  specialize (IH (fill (Fr sd c p u x) t)). cbn [length].
  assert (length (inorder (fill (Fr sd c p u x) t)) = S (length (inorder t) + length (inorder x)))%nat; [|lia].
  destruct sd; cbn; rewrite length_app; cbn; lia.
Qed.

Lemma zip_turns Ts k t F s : zip Ts k t F s -> (length (inorder (plug k t)) <= size (nodes s))%nat.
Proof.
  rewrite zip_plug. intros H. rewrite (has_cells_size _ _ _ H), !length_app, length_layout. lia.
Qed.

(** A red-black tree with [m] nodes is at most [2 * log2 (m + 1)] high. *)
Lemma rb_bounds t c n : rb t c n ->
  (height t <= 2 * n + match c with Red => 1 | Black => 0 end)%nat /\ 2 ^ Z.of_nat n <= Z.of_nat (length (inorder t)) + 1.
Proof.
  induction 1 as [|l p u r n _ [H1 H2] _ [H3 H4]|l p u r cl cr n _ [H1 H2] _ [H3 H4]]; cbn [height inorder].
  - by cbn.
  - rewrite length_app. cbn [length]. lia.
  - rewrite length_app, Nat2Z.inj_succ, Z.pow_succ_r by lia. cbn [length].
    destruct cl, cr; lia.
Qed.

Lemma rb_log_height t n : rb t Black n ->
  (height t <= 2 * Z.to_nat (Z.log2 (Z.of_nat (length (inorder t)) + 1)))%nat.
Proof.
  intros [H1 H2]%rb_bounds. apply Z.log2_le_mono in H2. rewrite Z.log2_pow2 in H2 by lia. lia.
Qed.

(** ** Reading, as equations *)

Section Reads.
Context (Ts : gmap Z RED_BLACK_TREE) (F : list (Z * NODE)) (s : MEM).

Lemma load_nd k sd c p u a b :
  zip Ts k (nd sd c p u a b) F s -> load p s = Ok (fnode (Fr sd c p u b) (top k) (root a), s).
Proof.
  intros H%zip_down. unfold load. rewrite (has_cells_lookup _ _ _ p (fnode (Fr sd c p u b) (top k) (root a)) H); [done|].
  cbn. apply elem_of_app. right. by left.
Qed.

Lemma null_or_black k t :
  zip Ts k t F s -> NodeIsNullOrBlack (root t) s = Ok (bool_decide (color t = Black), s).
Proof.
  intros H. assert (Hw : wp true (NodeIsNullOrBlack (root t))
    (fun a s' => a = bool_decide (color t = Black) /\ s' = s) s) by (by eapply zip_null_or_black).
  by apply wp_total in Hw as (a & s' & -> & -> & ->).
Qed.

(** ** Walks along a side *)

(** The first or the last node of a sequence. *)
Definition ends (sd : side) (l : list (Z * Z)) : option (Z * Z) :=
  match sd with SideLeft => head l | SideRight => last l end.
Definition addr (o : option (Z * Z)) : Z := from_option fst 0 o.

Lemma inorder_nil t : inorder t = [] -> t = E.
Proof. destruct t as [|c l p u r]; [done|]. cbn. by destruct (inorder l). Qed.

Lemma last_app_ne {A} (l1 l2 : list A) : l2 <> [] -> last (l1 ++ l2) = last l2.
Proof. intros H. rewrite last_app. destruct (last l2) eqn:E; [done|]. by apply last_None in E. Qed.
Lemma head_app_ne {A} (l1 l2 : list A) : l1 <> [] -> head (l1 ++ l2) = head l1.
Proof. by destruct l1. Qed.

Lemma ends_nd sd c p u a b :
  ends sd (inorder (nd sd c p u a b)) = if decide (a = E) then Some (p, u) else ends sd (inorder a).
Proof.
  case_decide as Ha.
  - subst a. destruct sd; cbn; [done|]. by rewrite last_snoc.
  - assert (inorder a <> []) by (by intros ?%inorder_nil). destruct sd; cbn.
    + by apply head_app_ne.
    + change ((p, u) :: inorder a) with ([(p, u)] ++ inorder a). by rewrite app_assoc, last_app_ne.
Qed.

Lemma descend_ok sd : forall fuel t k,
  zip Ts k t F s -> t <> E -> (height t <= fuel)%nat ->
  descend sd fuel (root t) s = Ok (addr (ends sd (inorder t)), s).
Proof.
  induction fuel as [|fuel IH]; intros t k H Ht Hf; destruct (nd_eta sd t Ht) as (c & p & u & a & b & ->);
    rewrite height_nd in Hf; [lia|].
  cbn [descend]. rewrite root_nd. run_step (load_nd _ _ _ _ _ _ _ H). rewrite child_fnode, ends_nd.
  apply zip_down in H. rewrite (zip_root_0 _ _ _ _ _ H). case_decide as Ha.
  - by rewrite bool_decide_true.
  - rewrite bool_decide_false by done. by apply (IH a _ H); [|lia].
Qed.

Definition outside (sd : side) (k : ctx) : list (Z * Z) :=
  match sd with SideLeft => before k | SideRight => after k end.

Lemma outside_same sd c p u x k : outside sd (Fr sd c p u x :: k) = outside sd k.
Proof. destruct sd; cbn; [|done]. by rewrite app_nil_r. Qed.
Lemma outside_opp sd c p u x k :
  ends (opp sd) (outside sd (Fr (opp sd) c p u x :: k)) = Some (p, u).
Proof. destruct sd; cbn; [|done]. by rewrite app_assoc, last_snoc. Qed.

Lemma ascend_ok sd : forall fuel k t,
  zip Ts k t F s -> t <> E -> (length k < fuel)%nat ->
  ascend sd fuel (root t) (top k) s = Ok (addr (ends (opp sd) (outside sd k)), s).
Proof.
  induction fuel as [|fuel IH]; intros k t H Ht Hf; [lia|]. cbn [ascend].
  rewrite (zip_top_0 _ _ _ _ _ H). destruct k as [|[s1 c p u x] k].
  { rewrite bool_decide_true by done. by destruct sd. }
  rewrite bool_decide_false by done. cbn [top faddr].
  run_step (load_nd _ _ _ _ _ _ _ (zip_out _ _ _ _ _ _ _ _ _ _ H)).
  destruct (decide (s1 = sd)) as [-> | Hs].
  - rewrite child_fnode, Z.eqb_refl, Parent_fnode, outside_same.
    rewrite <- (root_nd sd c p u t x) at 1. apply IH; [by apply zip_out|apply nd_not_E|cbn in Hf; lia].
  - assert (s1 = opp sd) as -> by (by destruct s1, sd).
    rewrite outside_opp, child_fnode_other.
    pose proof (zip_sib _ _ _ _ _ _ H Ht) as Hx. cbn in Hx. by rewrite (proj2 (Z.eqb_neq _ _) Hx).
Qed.

(** The fuel that the functions take is enough for every walk. *)
Lemma zip_fuel k t : zip Ts k t F s ->
  (length k < S (size (nodes s)))%nat /\ (height t < S (size (nodes s)))%nat.
Proof.
  intros H. pose proof (zip_turns _ _ _ _ _ H). pose proof (ctx_length k t). pose proof (height_length t). lia.
Qed.

Lemma neighbour_ok sd k c p u a b :
  zip Ts k (nd sd c p u a b) F s ->
  neighbour sd p s =
    Ok (addr (ends (opp sd) (if decide (a = E) then outside sd k else inorder a)), s).
Proof.
  intros H. pose proof (zip_root_nonnull _ _ _ _ _ H (nd_not_E _ _ _ _ _ _)) as Hp. rewrite root_nd in Hp.
  unfold neighbour. rewrite (proj2 (Z.eqb_neq _ _) Hp). run_step (load_nd _ _ _ _ _ _ _ H).
  rewrite (Mbind_Ok turns _ s _ s eq_refl). rewrite child_fnode, Parent_fnode.
  rewrite (zip_root_0 _ _ _ _ _ (zip_down _ _ _ _ _ _ _ _ _ _ H)). case_decide as Ha.
  - rewrite bool_decide_true by done. cbn [negb]. rewrite <- (root_nd sd c p u a b) at 1.
    apply ascend_ok; [done|apply nd_not_E|apply (zip_fuel _ _ H)].
  - rewrite bool_decide_false by done. cbn [negb]. apply zip_down in H.
    apply (descend_ok (opp sd) _ _ _ H Ha). pose proof (zip_fuel _ _ H). lia.
Qed.
End Reads.

(** ** Positions *)

Lemma before_app k k' : before (k ++ k') = before k' ++ before k.
Proof. induction k as [|f k IH]; cbn; [by rewrite app_nil_r|]. by rewrite IH, app_assoc. Qed.
Lemma after_app k k' : after (k ++ k') = after k ++ after k'.
Proof. induction k as [|f k IH]; cbn; [done|]. by rewrite IH, app_assoc. Qed.

Lemma locate t : forall l1 p u l2, inorder t = l1 ++ (p, u) :: l2 ->
  exists k c a b, t = plug k (T c a p u b) /\ l1 = before k ++ inorder a /\ l2 = inorder b ++ after k.
Proof.
  induction t as [|c l IHl q v r IHr]; intros l1 p u l2; cbn [inorder]; [by destruct l1|].
  intros Heq. apply app_eq_inv in Heq as [(m & E1 & E2)|(m & E1 & E2)].
  - destruct m as [|[p' u'] m]; cbn in E2.
    + injection E2 as -> -> ->. rewrite app_nil_r in E1. exists [], c, l, r. cbn. by rewrite E1, app_nil_r.
    + injection E2 as -> -> ->. destruct (IHl _ _ _ _ E1) as (k & c' & a & b & -> & -> & ->).
      exists (k ++ [Fr SideLeft c q v r]), c', a, b. rewrite plug_app, before_app, after_app. cbn.
      by rewrite app_nil_r, <- app_assoc.
  - destruct m as [|[q' v'] m]; cbn in E2.
    + injection E2 as -> -> <-. rewrite app_nil_r in E1. exists [], c, l, r. cbn. by rewrite E1, app_nil_r.
    + injection E2 as -> -> E3. destruct (IHr _ _ _ _ E3) as (k & c' & a & b & -> & -> & ->).
      exists (k ++ [Fr SideRight c q' v' l]), c', a, b. rewrite plug_app, before_app, after_app. cbn.
      rewrite E1, !app_nil_r, <- !app_assoc. done.
Qed.

Lemma head_app {A} (l1 l2 : list A) : head (l1 ++ l2) = match l1 with [] => head l2 | x :: _ => Some x end.
Proof. by destruct l1. Qed.

Section Iterate.
Context (Ts : gmap Z RED_BLACK_TREE) (F : list (Z * NODE)) (s : MEM).
Context (t : tree) (Ht : zip Ts [] t F s).

Lemma Next_ok l1 p u l2 :
  inorder t = l1 ++ (p, u) :: l2 -> OrderedCollectionNext p s = Ok (addr (head l2), s).
Proof.
  intros (k & c & a & b & -> & -> & ->)%locate. rewrite <- zip_plug in Ht.
  unfold OrderedCollectionNext. rewrite (neighbour_ok Ts F s SideRight k c p u b a Ht). do 3 f_equal. cbn.
  case_decide as Hb; [by subst b|]. by rewrite head_app_ne by (by intros ?%inorder_nil).
Qed.

Lemma Prev_ok l1 p u l2 :
  inorder t = l1 ++ (p, u) :: l2 -> OrderedCollectionPrev p s = Ok (addr (last l1), s).
Proof.
  intros (k & c & a & b & -> & -> & ->)%locate. rewrite <- zip_plug in Ht.
  unfold OrderedCollectionPrev. rewrite (neighbour_ok Ts F s SideLeft k c p u a b Ht). do 3 f_equal. cbn.
  case_decide as Ha; [subst a; by rewrite app_nil_r|]. by rewrite last_app_ne by (by intros ?%inorder_nil).
Qed.

Lemma extremum_ok sd Tree cmp kc :
  Ts !! Tree = Some (mkTree (root t) cmp kc) ->
  extremum sd Tree s = Ok (addr (ends sd (inorder t)), s).
Proof.
  intros HT. unfold extremum. assert (E1 : load_tree Tree s = Ok (mkTree (root t) cmp kc, s)).
  { unfold load_tree. by rewrite (proj1 Ht), HT. }
  run_step E1. cbn [Root]. rewrite (zip_root_0 _ _ _ _ _ Ht). destruct (decide (t = E)) as [-> | Hne].
  - rewrite bool_decide_true by done. by destruct sd.
  - rewrite bool_decide_false by done. rewrite (Mbind_Ok turns _ s _ s eq_refl).
    apply (descend_ok Ts F s sd _ t [] Ht Hne). pose proof (zip_fuel _ _ _ _ _ Ht). lia.
Qed.

End Iterate.

(** ** Searching *)

(** What a search has found out about the nodes outside the current
    subtree. *)
Definition placed (probe : Z -> Z) (k : ctx) : Prop :=
  Forall (fun x => 0 < probe x.2) (before k) /\ Forall (fun x => probe x.2 < 0) (after k).

(** The result of the last comparison tells the side of the hole. *)
Definition last_side (k : ctx) (Result : Z) : Prop :=
  match k with [] => True | f :: _ => (Result <? 0) = bool_decide (fside f = SideLeft) end.

Section Search.
Context (Ts : gmap Z RED_BLACK_TREE) (F : list (Z * NODE)) (s : MEM).
Context (cmp kc : Z -> Z -> Z) `{!KeyOrder cmp kc} (key : Z).

Lemma placed_left k c a p u b :
  in_order cmp (inorder (plug k (T c a p u b))) -> placed (kc key) k -> kc key u < 0 ->
  placed (kc key) (Fr SideLeft c p u b :: k).
Proof.
  rewrite inorder_plug. intros Hs [H1 H2] Hu. split; cbn; [by rewrite app_nil_r|].
  apply StronglySorted_app_1_r, StronglySorted_app_1_l in Hs. cbn in Hs.
  apply StronglySorted_app_1_r, StronglySorted_cons in Hs as [Hs _].
  constructor; [done|]. apply Forall_app. split; [|done]. eapply Forall_impl; [exact Hs|].
  intros x Hx. eapply key_mono; [|exact Hx]. cbn. lia.
Qed.

Lemma placed_right k c a p u b :
  in_order cmp (inorder (plug k (T c a p u b))) -> placed (kc key) k -> 0 < kc key u ->
  placed (kc key) (Fr SideRight c p u a :: k).
Proof.
  rewrite inorder_plug. intros Hs [H1 H2] Hu. split; cbn; [|done].
  apply StronglySorted_app_1_r, StronglySorted_app_1_l in Hs. cbn in Hs.
  rewrite !Forall_app, Forall_singleton. split_and!; [done| |done]. apply Forall_forall. intros x Hx.
  pose proof (StronglySorted_app_1_elem_of _ _ _ x (p, u) Hs Hx ltac:(by left)) as Hlt.
  destruct (Z.lt_ge_cases 0 (kc key x.2)) as [|Hle]; [done|]. pose proof (key_mono key x.2 u Hle Hlt). lia.
Qed.

(** The descent ends at an equal node or at the place for a new one. *)
Definition search_result (t : tree) (r : Z * Z * Z) : Prop :=
  let '(Tmp, Parent_, Result) := r in
  (exists u, (Tmp, u) ∈ inorder t /\ kc key u = 0) \/
  (Tmp = 0 /\ exists k, plug k E = t /\ Parent_ = top k /\ placed (kc key) k /\ last_side k Result).

Lemma search_ok fuel : forall k t Result,
  zip Ts k t F s -> in_order cmp (inorder (plug k t)) -> placed (kc key) k -> last_side k Result ->
  (height t < fuel)%nat ->
  exists r, insert_search fuel kc key (root t) (top k) Result s = Ok (r, s) /\ search_result (plug k t) r.
Proof.
  induction fuel as [|fuel IH]; intros k t Result H Hs Hp Hl Hf; [lia|]. cbn [insert_search].
  rewrite (zip_root_0 _ _ _ _ _ H). destruct t as [|c a p u b].
  { rewrite bool_decide_true by done. eexists. split; [done|]. right. split; [done|]. by exists k. }
  rewrite bool_decide_false by done. cbn [root].
  run_step (load_nd _ _ _ _ SideLeft _ _ _ _ _ H). cbn [fnode fside fuser fcolor fsib UserStruct Left Right].
  cbn [height] in Hf. destruct (Z.eqb_spec (kc key u) 0) as [E0|N0].
  { eexists. split; [done|]. left. exists u. split; [|done]. rewrite inorder_plug. cbn. set_solver. }
  destruct (Z.ltb_spec (kc key u) 0) as [Hlt|Hge].
  - apply (IH (Fr SideLeft c p u b :: k) a); [by apply (zip_down _ _ SideLeft)|done|by apply (placed_left _ _ a)| |lia].
    cbn. by destruct (Z.ltb_spec (kc key u) 0); [|lia].
  - apply (IH (Fr SideRight c p u a :: k) b); [by apply (zip_down _ _ SideRight)|done|apply (placed_right _ _ _ _ _ b); [done..|lia]| |lia].
    cbn. by destruct (Z.ltb_spec (kc key u) 0); [lia|].
Qed.

(** The loop of OrderedCollectionFind is the same descent. *)
Lemma find_search fuel : forall Node Parent_ Result r s',
  insert_search fuel kc key Node Parent_ Result s = Ok (r, s') -> find_loop fuel kc key Node s = Ok (r.1.1, s').
Proof.
  induction fuel as [|fuel IH]; intros Node Parent_ Result r s'; cbn [insert_search find_loop]; [done|].
  destruct (Node =? 0); [by intros [= <- <-]|]. unfold Mbind.
  destruct (load Node s) as [[n s1]| | |] eqn:El; try done.
  assert (s1 = s) as -> by (unfold load in El; by destruct (nodes s !! Node); simplify_eq).
  cbn beta zeta. destruct (kc key (UserStruct n) =? 0); [by intros [= <- <-]|]. apply IH.
Qed.

(** A place for the key means that no node matches it. *)
Lemma placed_none k : placed (kc key) k -> Forall (fun x => kc key x.2 <> 0) (inorder (plug k E)).
Proof.
  intros [H1 H2]. rewrite inorder_plug. apply Forall_app. split; [|apply Forall_app; split; [constructor|]].
  - eapply Forall_impl; [exact H1|]. cbn. lia.
  - eapply Forall_impl; [exact H2|]. cbn. lia.
Qed.
End Search.
