(* ===== verification/RbValidate.v ===== *)
(** * RbValidate: the self-check of the red-black tree

    RedBlackTreeValidate passes exactly on valid trees: its recursion decides
    the red-black properties, its loops the order. *)

From stdpp Require Import base option list gmap fin_maps sorting.
From Stdlib Require Import ZArith Lia.
From S2P Require Import Prelude RbTree RbShape RbInsert RbWalk.

Local Open Scope Z_scope.
Local Open Scope edk_scope.

Lemma Mbind_AssertFail {S A B} (c : M S A) (k : A -> M S B) s : c s = AssertFail -> Mbind c k s = AssertFail.
Proof. unfold Mbind. by intros ->. Qed.

(** ** The recursion *)

(** Property #3 at one node. *)
Definition red_ok (c : COLOR) (l r : tree) : bool :=
  bool_decide (c = Red -> color l = Black /\ color r = Black).

(** The black height, if the properties #3 and #4 hold. *)
Fixpoint check (t : tree) : option nat :=
  match t with
  | E => Some O
  | T c l p u r =>
      if red_ok c l r then
        match check l, check r with
        | Some m, Some n => if (m =? n)%nat then Some (match c with Red => m | Black => S m end) else None
        | _, _ => None
        end
      else None
  end.

Lemma rb_check t c n : rb t c n -> check t = Some n.
Proof.
  induction 1 as [|l p u r n Hl IHl Hr IHr|l p u r cl cr n Hl IHl Hr IHr]; cbn [check]; [done|..].
  - unfold red_ok. rewrite bool_decide_true by (by split; eapply rb_color). by rewrite IHl, IHr, Nat.eqb_refl.
  - unfold red_ok. rewrite bool_decide_true by done. by rewrite IHl, IHr, Nat.eqb_refl.
Qed.

Lemma check_rb t : forall n, check t = Some n -> rb t (color t) n.
Proof.
  induction t as [|c l IHl p u r IHr]; intros n; cbn [check color]; [intros [= <-]; constructor|].
  unfold red_ok. case_bool_decide as Hred; [|done].
  destruct (check l) as [m|]; [|done]. destruct (check r) as [m'|]; [|done].
  destruct (Nat.eqb_spec m m') as [<- | _]; [|done]. intros [= <-].
  specialize (IHl _ eq_refl). specialize (IHr _ eq_refl). destruct c; [|by econstructor].
  destruct (Hred eq_refl) as [E1 E2]. rewrite E1 in IHl. rewrite E2 in IHr. by constructor.
Qed.

Lemma check_height t : forall n, check t = Some n -> (n <= height t)%nat.
Proof.
  induction t as [|c l IHl p u r IHr]; intros n; cbn [check height]; [intros [= <-]; lia|].
  destruct (red_ok c l r); [|done]. destruct (check l) as [m|]; [|done]. destruct (check r) as [m'|]; [|done].
  destruct (m =? m')%nat; [|done]. specialize (IHl m eq_refl). destruct c; intros [= <-]; lia.
Qed.

Section Validate.
Context (Ts : gmap Z RED_BLACK_TREE) (F : list (Z * NODE)) (s : MEM).

(** The two assertions on a red node. *)
Lemma red_asserts k c l p u r :
  zip Ts k (T c l p u r) F s ->
  (if bool_decide (c = Red) then
     let! bl := NodeIsNullOrBlack (root l) in MASSERT bl ;;;
     let! br := NodeIsNullOrBlack (root r) in MASSERT br
   else Mret tt) s = if red_ok c l r then Ok (tt, s) else AssertFail.
Proof.
  intros H. unfold red_ok. destruct c; [|done]. rewrite bool_decide_true by done.
  run_step (null_or_black Ts F s _ l (zip_down _ _ SideLeft _ _ _ _ _ _ _ H)).
  case_bool_decide as Hl; [|cbn; case_bool_decide; naive_solver].
  rewrite (Mbind_Ok (MASSERT true) _ s tt s eq_refl).
  run_step (null_or_black Ts F s _ r (zip_down _ _ SideRight _ _ _ _ _ _ _ H)).
  repeat case_bool_decide; naive_solver.
Qed.

Lemma check_run fuel : forall k t,
  zip Ts k t F s -> (height t < fuel)%nat -> Z.of_nat (height t) + 1 < 2 ^ 32 ->
  RedBlackTreeRecursiveCheck fuel (root t) s =
    match check t with Some n => Ok (Z.of_nat n + 1, s) | None => AssertFail end.
Proof.
  induction fuel as [|fuel IH]; intros k t H Hf Hb; [lia|]. cbn [RedBlackTreeRecursiveCheck].
  rewrite (zip_root_0 _ _ _ _ _ H). destruct t as [|c l p u r].
  { by rewrite bool_decide_true. }
  rewrite bool_decide_false by done. cbn [root].
  run_step (load_nd _ _ _ _ SideLeft _ _ _ _ _ H). cbn [fnode fside fuser fcolor fsib Color Left Right].
  cbn [check]. cbn [height] in Hf, Hb. pose proof (red_asserts _ _ _ _ _ _ H) as Hred.
  destruct (red_ok c l r); [run_step Hred|by rewrite (Mbind_AssertFail _ _ _ Hred)].
  pose proof (IH _ l (zip_down _ _ SideLeft _ _ _ _ _ _ _ H) ltac:(lia) ltac:(lia)) as Hl.
  pose proof (IH _ r (zip_down _ _ SideRight _ _ _ _ _ _ _ H) ltac:(lia) ltac:(lia)) as Hr.
  destruct (check l) as [m|] eqn:El; [run_step Hl|by rewrite (Mbind_AssertFail _ _ _ Hl)].
  destruct (check r) as [m'|] eqn:Er; [run_step Hr|by rewrite (Mbind_AssertFail _ _ _ Hr)].
  apply check_height in El. destruct (Nat.eqb_spec m m') as [<- | Hne].
  - rewrite Z.eqb_refl. unfold Mbind, MASSERT, Mret. do 2 f_equal. unfold wrapU.
    destruct c; [rewrite bool_decide_false by done|rewrite bool_decide_true by done]; cbn [Z.b2z];
      rewrite Z.mod_small by lia; lia.
  - by rewrite (proj2 (Z.eqb_neq (Z.of_nat m + 1) (Z.of_nat m' + 1))) by lia.
Qed.
End Validate.

(** ** The order *)

(** Every two neighbours satisfy [R]. *)
Fixpoint chain (R : Z -> Z -> bool) (u : Z) (l : list (Z * Z)) : bool :=
  match l with [] => true | (_, v) :: l' => R u v && chain R v l' end.

Lemma chain_sorted R x l : StronglySorted (fun a b => R a.2 b.2 = true) (x :: l) -> chain R x.2 l = true.
Proof.
  revert x. induction l as [|[q v] l IH]; intros x; cbn; [done|].
  rewrite !StronglySorted_cons, Forall_cons. intros ((H1 & _) & H2 & H3).
  apply andb_true_iff. split; [done|]. apply (IH (q, v)). by apply StronglySorted_cons.
Qed.

Lemma chain_list_sorted R l :
  StronglySorted (fun a b => R a.2 b.2 = true) l -> chain R (default 0 (snd <$> head l)) (tail l) = true.
Proof. destruct l as [|x l]; [done|]. apply chain_sorted. Qed.

Lemma sorted_weaken {A} (R R' : A -> A -> Prop) l :
  (forall a b, R a b -> R' a b) -> StronglySorted R l -> StronglySorted R' l.
Proof. intros H. induction 1; constructor; [done|]. eapply Forall_impl; eauto. Qed.

Lemma chain_in_order cmp `{!UserCompare cmp} p u l :
  chain (fun a b => cmp a b <? 0) u l = true -> in_order cmp ((p, u) :: l).
Proof.
  revert p u. induction l as [|[q v] l IH]; intros p u; cbn; [by intros; repeat constructor|].
  rewrite andb_true_iff, Z.ltb_lt. intros [Huv Hl]. pose proof (IH q v Hl) as Hs.
  apply StronglySorted_cons. split; [|done]. apply StronglySorted_cons in Hs as [Hs _].
  constructor; [done|]. eapply Forall_impl; [exact Hs|]. intros x Hx. unfold node_lt in *. cbn in *.
  apply (cmp_mono u v); [lia|done].
Qed.

Lemma StronglySorted_reverse {A} (R : A -> A -> Prop) l :
  StronglySorted R l -> StronglySorted (fun a b => R b a) (reverse l).
Proof.
  induction 1 as [|x l _ IH Hx]; [constructor|]. rewrite reverse_cons. apply StronglySorted_app_2.
  - intros a b Ha ->%list_elem_of_singleton. rewrite elem_of_reverse in Ha. rewrite Forall_forall in Hx.
    by apply Hx.
  - done.
  - repeat constructor.
Qed.

Section Order.
Context (s : MEM) (L : list (Z * Z)) (next : Z -> M MEM Z) (cmp : Z -> Z -> Z) (ok : Z -> bool).
Context (Hnext : forall l1 p u l2, L = l1 ++ (p, u) :: l2 -> next p s = Ok (addr (head l2), s)).
Context (Hload : forall p u, (p, u) ∈ L -> p <> 0 /\ exists n, load p s = Ok (n, s) /\ UserStruct n = u).

Definition count_up (n : nat) (c : Z) : Z := Nat.iter n (fun c => wrapU 32 (c + 1)) c.

Lemma order_loop_run fuel : forall l1 p u l2 Count,
  L = l1 ++ (p, u) :: l2 -> (length l2 < fuel)%nat ->
  order_loop fuel next cmp ok p Count s =
    if chain (fun a b => ok (cmp a b)) u l2 then Ok (count_up (length l2) Count, s) else AssertFail.
Proof.
  induction fuel as [|fuel IH]; intros l1 p u l2 Count HL Hf; [lia|]. cbn [order_loop].
  run_step (Hnext _ _ _ _ HL). destruct l2 as [|[q v] l2]; [done|]. cbn [head addr from_option fst].
  destruct (Hload p u ltac:(rewrite HL; set_solver)) as (_ & n & En & <-).
  destruct (Hload q v ltac:(rewrite HL; set_solver)) as (Hq & m & Em & <-).
  rewrite (proj2 (Z.eqb_neq _ _) Hq). run_step En. run_step Em. cbn [chain].
  destruct (ok (cmp (UserStruct n) (UserStruct m))); [|done].
  rewrite (Mbind_Ok (MASSERT true) _ s tt s eq_refl). cbn [andb length count_up].
  rewrite (IH (l1 ++ [(p, UserStruct n)]) q (UserStruct m) l2);
    [|by rewrite HL, <- app_assoc|cbn in Hf; lia].
  unfold count_up. by rewrite Nat.iter_succ_r.
Qed.
End Order.

Section ValidateTree.
Context (Ts : gmap Z RED_BLACK_TREE) (F : list (Z * NODE)) (s : MEM) (t : tree) (Ht : zip Ts [] t F s).
Lemma tree_load p u : (p, u) ∈ inorder t -> p <> 0 /\ exists n, load p s = Ok (n, s) /\ UserStruct n = u.
Proof.
  intros (l1 & l2 & E)%list_elem_of_split. destruct (locate _ _ _ _ _ E) as (k & c & a & b & -> & _).
  pose proof Ht as H. rewrite <- zip_plug in H. split; [by apply (zip_root_nonnull _ _ _ _ _ H)|].
  eexists. split; [apply (load_nd _ _ _ _ SideLeft _ _ _ _ _ H)|done].
Qed.

Context (cmp kc : Z -> Z -> Z) `{!UserCompare cmp} (Tree : Z).
Context (HT : Ts !! Tree = Some (mkTree (root t) cmp kc)) (Hsize : Z.of_nat (height t) + 1 < 2 ^ 32).

Definition valid (cmp : Z -> Z -> Z) (t : tree) : Prop :=
  (exists n, rb t Black n) /\ in_order cmp (inorder t).

(** The two loops, from the first and from the last node. *)
Lemma forward_run fuel :
  (length (inorder t) <= fuel)%nat -> inorder t <> [] ->
  order_loop fuel OrderedCollectionNext cmp (fun r => r <? 0) (addr (head (inorder t))) 1 s =
    if chain (fun a b => cmp a b <? 0) (default 0 (snd <$> head (inorder t))) (tail (inorder t))
    then Ok (count_up (length (inorder t) - 1) 1, s) else AssertFail.
Proof.
  intros Hf Hne. destruct (inorder t) as [|[p u] l] eqn:El; [done|]. cbn [head tail addr from_option fst length].
  replace (S (length l) - 1)%nat with (length l) by lia.
  apply (order_loop_run s (inorder t)) with (l1 := []); [by apply (Next_ok Ts F s t Ht)|apply tree_load|done|].
  cbn in Hf. lia.
Qed.

Lemma backward_run fuel :
  (length (inorder t) <= fuel)%nat -> inorder t <> [] ->
  order_loop fuel OrderedCollectionPrev cmp (fun r => 0 <? r) (addr (last (inorder t))) 1 s =
    if chain (fun a b => 0 <? cmp a b) (default 0 (snd <$> last (inorder t))) (tail (reverse (inorder t)))
    then Ok (count_up (length (inorder t) - 1) 1, s) else AssertFail.
Proof.
  intros Hf Hne. destruct (inorder t) as [|[p u] l _] eqn:El using rev_ind; [done|].
  rewrite last_snoc, reverse_snoc. cbn [tail addr from_option fst].
  replace (length (l ++ [(p, u)]) - 1)%nat with (length (reverse l))
    by (rewrite length_reverse, length_app; cbn; lia).
  apply (order_loop_run s (reverse (inorder t))) with (l1 := []).
  - intros l1 q v l2 E. rewrite (Prev_ok Ts F s t Ht (reverse l2) q v (reverse l1)).
    + by rewrite last_reverse.
    + apply (f_equal reverse) in E. rewrite reverse_involutive in E. rewrite E, reverse_app, reverse_cons.
      by rewrite <- app_assoc.
  - intros q v Hq. rewrite elem_of_reverse in Hq. by apply tree_load.
  - by rewrite El, reverse_snoc.
  - rewrite length_app in Hf. rewrite length_reverse. cbn in Hf. lia.
Qed.

Lemma Validate_run :
  RedBlackTreeValidate Tree s =
    if bool_decide (color t = Black) && bool_decide (is_Some (check t)) &&
       chain (fun a b => cmp a b <? 0) (default 0 (snd <$> head (inorder t))) (tail (inorder t)) &&
       chain (fun a b => 0 <? cmp a b) (default 0 (snd <$> last (inorder t))) (tail (reverse (inorder t)))
    then Ok (tt, s) else AssertFail.
Proof.
  unfold RedBlackTreeValidate.
  assert (E1 : load_tree Tree s = Ok (mkTree (root t) cmp kc, s)).
  { unfold load_tree. by rewrite (proj1 Ht), HT. }
  run_step E1. cbn [Root UserStructCompare]. run_step (null_or_black Ts F s _ t Ht).
  case_bool_decide as Hc; [|done]. rewrite (Mbind_Ok (MASSERT true) _ s tt s eq_refl).
  rewrite (Mbind_Ok turns _ s _ s eq_refl).
  pose proof (check_run Ts F s (S (size (nodes s))) [] t Ht (proj2 (zip_fuel _ _ _ _ _ Ht)) Hsize) as Hk.
  destruct (check t) as [n|]; [run_step Hk|by rewrite (Mbind_AssertFail _ _ _ Hk)].
  rewrite bool_decide_true by done. cbn [andb].
  run_step (extremum_ok Ts F s t Ht SideLeft Tree cmp kc HT). cbn [ends].
  pose proof (zip_turns _ _ _ _ _ Ht) as Hfuel. cbn [plug foldl] in Hfuel.
  destruct (decide (inorder t = [])) as [El | Hne].
  { rewrite El. cbn [head addr from_option Z.eqb negb Z.b2z].
    rewrite (Mbind_Ok _ _ s 0 s) by done.
    run_step (extremum_ok Ts F s t Ht SideRight Tree cmp kc HT). cbn [ends]. rewrite El.
    by rewrite (Mbind_Ok _ _ s 0 s) by done. }
  assert (Hnz : addr (head (inorder t)) <> 0 /\ addr (last (inorder t)) <> 0).
  { split; [destruct (inorder t) as [|[p u] l] eqn:El; [done|]; apply (tree_load p u); rewrite El; by left|].
    destruct (last (inorder t)) as [[p u]|] eqn:El; [|by apply last_None in El].
    apply (tree_load p u). by apply last_Some_elem_of. }
  destruct Hnz as [N1 N2]. rewrite (proj2 (Z.eqb_neq _ _) N1). cbn [negb Z.b2z].
  pose proof (forward_run (S (size (nodes s))) ltac:(lia) Hne) as Hfw.
  destruct (chain _ _ (tail (inorder t))); [run_step Hfw|by rewrite (Mbind_AssertFail _ _ _ Hfw)].
  run_step (extremum_ok Ts F s t Ht SideRight Tree cmp kc HT). cbn [ends].
  rewrite (proj2 (Z.eqb_neq _ _) N2). cbn [negb Z.b2z andb].
  pose proof (backward_run (S (size (nodes s))) ltac:(lia) Hne) as Hbw.
  destruct (chain _ _ (tail (reverse (inorder t)))); [run_step Hbw|by rewrite (Mbind_AssertFail _ _ _ Hbw)].
  by rewrite Z.eqb_refl.
Qed.

Lemma Validate_ok : valid cmp t -> RedBlackTreeValidate Tree s = Ok (tt, s).
Proof.
  intros [[n Hr] Hs]. rewrite Validate_run, (rb_color _ _ _ Hr), (rb_check _ _ _ Hr).
  rewrite !bool_decide_true by done. cbn [andb].
  rewrite chain_list_sorted by (eapply sorted_weaken; [|exact Hs]; intros a b; apply Z.ltb_lt).
  rewrite <- head_reverse, chain_list_sorted; [done|].
  eapply sorted_weaken; [|apply StronglySorted_reverse, Hs].
  intros a b Hab. apply Z.ltb_lt. by apply cmp_sym.
Qed.

Lemma Validate_sound : RedBlackTreeValidate Tree s = Ok (tt, s) -> valid cmp t.
Proof.
  rewrite Validate_run. destruct (_ && _) eqn:Hv; [|done]. intros _.
  rewrite !andb_true_iff, !bool_decide_eq_true in Hv. destruct Hv as (((Hc & [n Hk]) & Hf) & _). split.
  - exists n. rewrite <- Hc. by apply check_rb.
  - destruct (inorder t) as [|[p u] l]; [constructor|]. by apply chain_in_order.
Qed.

Lemma Validate_decides : RedBlackTreeValidate Tree s = Ok (tt, s) \/ RedBlackTreeValidate Tree s = AssertFail.
Proof. rewrite Validate_run. case_match; auto. Qed.
End ValidateTree.
