(* ===== verification/RbDelete.v ===== *)
(** * RbDelete: taking a node out of the tree

    First the loop of OrderedCollectionDelete, which moves the black increment
    of an unlinked black node up the tree until it can be absorbed. Then the
    unlinking before it: what the two ways of unlinking a node leave in memory,
    and which property they may break. *)

From stdpp Require Import base option list gmap fin_maps sorting.
From Stdlib Require Import ZArith Lia.
From S2P Require Import Prelude RbTree RbShape RbInsert RbWalk.

Local Open Scope Z_scope.
Local Open Scope edk_scope.

(** [extra k t]: the subtree [t] in context [k] lacks one black node; painting
    a red root black would make up for it. *)
Definition extra (k : ctx) (t : tree) : Prop :=
  exists n, hole k Black (S n) /\ (rb t Black n \/ color t = Red /\ rb (paint Black t) Black (S n)).

Lemma paint_id c t : color t = c -> paint c t = t.
Proof. intros <-. by destruct t. Qed.
Lemma inorder_paint c t : inorder (paint c t) = inorder t.
Proof. by destruct t. Qed.
Lemma root_paint c t : root (paint c t) = root t.
Proof. by destruct t. Qed.

(** The context above a parent of colour [c] whose subtrees have black height
    [S n]. *)
Definition above (c : COLOR) (k : ctx) (n : nat) : Prop :=
  match c with Red => hole k Red (S n) | Black => hole k Black (S (S n)) end.

(** When the loop stops, painting the child black restores the properties. *)
Lemma extra_stop k t : extra k t -> color t = Red \/ k = [] -> exists m, rb (plug k (paint Black t)) Black m.
Proof.
  intros (n & Hk & [Ht | [Hc Ht]]) Hstop.
  - pose proof (rb_color _ _ _ Ht) as E. destruct Hstop as [E' | ->]; [congruence|].
    exists n. cbn. by rewrite paint_id.
  - by apply (hole_plug k _ Black (S n)).
Qed.

Section Fixup.
Context (Ts : gmap Z RED_BLACK_TREE) (F : list (Z * NODE)).

(** The loop goes on with the increment one level up ... *)
Definition moved_up (f : frame) (k : ctx) (t : tree) (v : loop_vars) (s : MEM) : Prop :=
  exists k' t', zip Ts k' t' F s /\ extra k' t' /\ v = (root t', top k', root (plug k' t')) /\
    (color t' = Red \/ (length k' < length (f :: k))%nat) /\ inorder (plug k' t') = inorder (plug (f :: k) t).
(** ... or is done. *)
Definition absorbed (t : tree) (v : loop_vars) (s : MEM) : Prop :=
  exists t' m p, zip Ts [] t' F s /\ rb t' Black m /\ v = (root t', p, root t') /\ inorder t' = inorder t.

(** The last case of the body: the far nephew is red. *)
Lemma delete_far_red sd c p u q v a b k t n ca s :
  let g := nd sd c p u t (nd sd Black q v a b) in
  zip Ts k g F s -> rb t Black n -> rb a ca n -> rb b Red n -> above c k n ->
  wp true (delete_far_nephew sd p q (root b) (root (plug k g))) (absorbed (plug k g)) s.
Proof.
  intros g H Ht Ha Hb Hk. unfold delete_far_nephew.
  pose proof (zip_down_far _ _ _ _ _ _ _ _ _ _ H) as Hsib.
  pose proof (zip_down_far _ _ _ _ _ _ _ _ _ _ Hsib) as Hfar.
  assert (Hbn : b <> E) by (intros ->; by apply rb_E_inv in Hb as [? _]).
  rewrite (zip_root_0 _ _ _ _ _ Hfar), bool_decide_false by done. apply wp_bind, wp_ret. cbn beta.
  destruct (rb_red_nd sd b n Hb) as (r & w & b1 & b2 & -> & Hb1 & Hb2). rewrite root_nd.
  apply wp_bind. eapply zip_load; [exact Hfar|]. autorewrite with rb. rewrite bool_decide_true by done.
  apply wp_bind, wp_ret. cbn beta.
  pose proof (zip_root_nonnull _ _ _ _ _ Hsib (nd_not_E _ _ _ _ _ _)) as Hq. rewrite root_nd in Hq.
  rewrite (proj2 (Z.eqb_neq _ _) Hq). apply wp_bind, wp_ret. cbn beta. apply wp_bind.
  eapply zip_load; [exact Hsib|]. autorewrite with rb. rewrite bool_decide_true by done.
  apply wp_bind, wp_ret. cbn beta. apply wp_bind. eapply zip_load; [exact H|]. autorewrite with rb.
  apply wp_bind. apply zip_down in Hsib. eapply zip_paint_top; [exact Hsib|]. clear s H Hsib Hfar. intros s H.
  apply zip_out in H. apply wp_bind. eapply zip_paint_top; [exact H|]. clear s H. intros s H.
  apply zip_down_far in H. apply wp_bind. rewrite <- (root_nd sd Red r w b1 b2) at 1.
  eapply zip_paint; [exact H|done|]. clear s H. intros s H.
  rewrite paint_nd in H. apply zip_out_far, zip_out_far in H. apply wp_bind.
  set (b' := nd sd Black r w b1 b2) in *.
  replace (root (plug k g)) with (root (plug k (nd sd Black p u t (nd sd c q v a b')))).
  2:{ destruct k as [|f k]; [cbn; unfold g; by rewrite !root_nd|by apply root_plug]. }
  eapply zip_rotate; [exact H|]. clear s H. intros s H. apply wp_ret.
  set (g' := nd sd c q v (nd sd Black p u t a) b') in *.
  assert (Hg : exists m, rb (plug k g') Black m).
  { destruct c; cbn in Hk; (eapply hole_plug; [|exact Hk]).
    - apply rb_nd_red; eapply rb_nd_black; eassumption.
    - eapply rb_nd_black; eapply rb_nd_black; eassumption. }
  destruct Hg as [m Hm]. exists (plug k g'), m, p. split_and!; [by rewrite <- zip_plug|done|done|].
  apply inorder_plug_eq. unfold g', g, b'. destruct sd; inorder_eq.
Qed.

(** Only the near nephew is red: a rotation makes the far one red. *)
Lemma delete_near_red sd c p u q v a b k t n s :
  let x := nd sd Black q v a b in
  let g := nd sd c p u t x in
  zip Ts k g F s -> rb t Black n -> rb a Red n -> rb b Black n -> above c k n ->
  wp true (store (root a) (set_Color Black) ;;;
           store q (set_Color Red) ;;;
           let! NewRoot := rotate (opp sd) q (root (plug k g)) in
           let! pn := load p in
           let! sib := load (child (opp sd) pn) in
           delete_far_nephew sd p (child (opp sd) pn) (child (opp sd) sib) NewRoot)
    (absorbed (plug k g)) s.
Proof.
  intros x g H Ht Ha Hb Hk. apply zip_down_far, zip_down in H.
  destruct (rb_red_nd sd a n Ha) as (r & w & a1 & a2 & -> & Ha1 & Ha2). apply wp_bind.
  eapply zip_paint; [exact H|apply nd_not_E|]. clear s H. intros s H.
  rewrite paint_nd in H. apply wp_bind. eapply zip_paint_top; [exact H|]. clear s H. intros s H.
  apply zip_out in H. apply wp_bind. rewrite nd_opp, (nd_opp sd Black r) in H.
  replace (root (plug k g)) with (root (plug (Fr (opp sd) c p u t :: k)
    (nd (opp sd) Red q v b (nd (opp sd) Black r w a2 a1)))).
  2:{ rewrite plug_cons. destruct k as [|f k]; [cbn; unfold g; by rewrite root_fill, root_nd|by apply root_plug]. }
  eapply zip_rotate; [exact H|]. clear s H. intros s H.
  rewrite nd_opp, opp_opp in H. rewrite (nd_opp (opp sd) Black r), opp_opp.
  set (b' := nd (opp sd) Red q v b a2) in *.
  assert (Hb' : rb b' Red n) by by apply rb_nd_red.
  change (plug (Fr (opp sd) c p u t :: k) (nd sd Black r w a1 b'))
    with (plug k (nd (opp sd) c p u (nd sd Black r w a1 b') t)).
  rewrite (nd_opp (opp sd) c p), opp_opp.
  pose proof (zip_out_far _ _ _ _ _ _ _ _ _ _ H) as Hg.
  apply wp_bind. eapply zip_load; [exact Hg|]. autorewrite with rb. apply wp_bind.
  eapply zip_load; [exact H|]. autorewrite with rb.
  eapply wp_mono; [by apply (delete_far_red sd c p u r w a1 b' k t n Black)|].
  intros w' s' (t' & m & p' & Hz & Hm & -> & Hi). exists t', m, p'. split_and!; try done.
  rewrite Hi. apply inorder_plug_eq. unfold g, x, b'. destruct sd; inorder_eq.
Qed.

(** The sibling is black. *)
Lemma delete_black_ok sd c p u q v a b k t n ca cb s :
  let x := nd sd Black q v a b in
  let g := nd sd c p u t x in
  zip Ts k g F s -> rb t Black n -> rb a ca n -> rb b cb n -> above c k n ->
  wp true (delete_black_sibling sd p q (root (plug k g)))
    (fun w s' => absorbed (plug k g) w s' \/
       exists t', zip Ts k t' F s' /\ extra k t' /\ color t' = c /\ w = (root t', top k, root (plug k t')) /\
         inorder t' = inorder g) s.
Proof.
  intros x g H Ht Ha Hb Hk. unfold delete_black_sibling.
  pose proof (zip_down_far _ _ _ _ _ _ _ _ _ _ H) as Hsib. apply wp_bind.
  eapply zip_load; [exact Hsib|]. autorewrite with rb. rewrite bool_decide_true by done.
  apply wp_bind, wp_ret. cbn beta zeta.
  pose proof (zip_down _ _ _ _ _ _ _ _ _ _ Hsib) as Hnear.
  pose proof (zip_down_far _ _ _ _ _ _ _ _ _ _ Hsib) as Hfar.
  apply wp_bind. eapply zip_null_or_black; [exact Hnear|]. rewrite (rb_color _ _ _ Ha).
  assert (Hroot : forall g', root g' = p -> root (plug k g) = root (plug k g')).
  { intros g' E. destruct k as [|f k']; [cbn; unfold g; by rewrite root_nd|by apply root_plug]. }
  destruct (decide (ca = Black /\ cb = Black)) as [[-> ->] | Hred].
  - (* both nephews are black *)
    rewrite bool_decide_true by done. apply wp_bind. eapply zip_null_or_black; [exact Hfar|].
    rewrite (rb_color _ _ _ Hb), bool_decide_true by done. cbn [andb]. apply wp_bind.
    eapply zip_paint_top; [exact Hnear|]. clear s H Hsib Hnear Hfar. intros s H.
    apply zip_out, zip_out_far in H. apply wp_bind. eapply zip_load; [exact H|]. autorewrite with rb.
    apply wp_ret. right. eexists. split; [exact H|].
    rewrite <- (Hroot (nd sd c p u t (nd sd Red q v a b))) by apply root_nd.
    rewrite root_nd, color_nd. split_and!; [|done|done|].
    + destruct c; cbn in Hk.
      * exists n. split; [by eapply hole_black|]. right.
        rewrite color_nd, paint_nd. split; [done|]. eapply rb_nd_black; [exact Ht|by apply rb_nd_red].
      * exists (S n). split; [done|]. left.
        eapply rb_nd_black; [exact Ht|by apply rb_nd_red].
    + unfold g, x. destruct sd; inorder_eq.
  - (* a nephew is red *)
    apply wp_bind.
    assert (Hbb : wp true (if bool_decide (ca = Black) then NodeIsNullOrBlack (root b) else Mret false)
      (fun fb s' => bool_decide (ca = Black) && fb = false /\ s' = s) s).
    { case_bool_decide; [|by apply wp_ret]. eapply zip_null_or_black; [exact Hfar|].
      rewrite (rb_color _ _ _ Hb). split; [|done]. cbn. apply bool_decide_false. naive_solver. }
    eapply wp_mono; [exact Hbb|]. clear Hbb. intros fb s' [-> ->]. cbn beta. apply wp_bind.
    eapply zip_null_or_black; [exact Hfar|]. rewrite (rb_color _ _ _ Hb). destruct cb.
    + rewrite bool_decide_false by done. eapply wp_mono; [by eapply delete_far_red|]. by left.
    + rewrite bool_decide_true by done. assert (ca = Red) as -> by (destruct ca; naive_solver).
      eapply wp_mono; [by eapply delete_near_red|]. by left.
Qed.

Lemma hole_above sd c p u x k n :
  hole (Fr sd c p u x :: k) Black (S n) -> above c k n /\ exists cs, rb x cs (S n) /\ (c = Red -> cs = Black).
Proof.
  cbn. destruct c; [intros (_ & Hx & Hk)|intros ((cs & Hx) & Hk)]; (split; [done|]); by eexists.
Qed.

Lemma delete_side_ok sd c p u x k t n s :
  zip Ts (Fr sd c p u x :: k) t F s -> rb t Black n -> hole (Fr sd c p u x :: k) Black (S n) ->
  wp true (delete_fixup_side sd p (root (plug (Fr sd c p u x :: k) t)))
    (fun w s' => absorbed (plug (Fr sd c p u x :: k) t) w s' \/ moved_up (Fr sd c p u x) k t w s') s.
Proof.
  intros H Ht Hk. destruct (hole_above _ _ _ _ _ _ _ Hk) as (Hab & cs & Hx & Hcs).
  unfold delete_fixup_side. apply zip_out in H. apply wp_bind. eapply zip_load; [exact H|].
  autorewrite with rb. pose proof (zip_down_far _ _ _ _ _ _ _ _ _ _ H) as Hsib.
  assert (Hxn : x <> E) by (intros ->; by apply rb_E_inv in Hx as [_ ?]).
  rewrite (zip_root_0 _ _ _ _ _ Hsib), bool_decide_false by done. apply wp_bind, wp_ret. cbn beta.
  change (plug (Fr sd c p u x :: k) t) with (plug k (nd sd c p u t x)). destruct cs.
  - (* red sibling *)
    assert (c = Black) as -> by (destruct c; naive_solver).
    destruct (rb_red_nd sd x _ Hx) as (q & v & a & b & -> & Ha & Hb). rewrite root_nd. apply wp_bind.
    eapply zip_load; [exact Hsib|]. autorewrite with rb. rewrite bool_decide_true by done. apply wp_bind.
    apply zip_down in Hsib. eapply zip_paint_top; [exact Hsib|]. clear s H Hsib. intros s H.
    apply zip_out in H. apply wp_bind. eapply zip_paint_top; [exact H|]. clear s H. intros s H.
    apply zip_out_far in H. apply wp_bind.
    replace (root (plug k (nd sd Black p u t (nd sd Red q v a b))))
      with (root (plug k (nd sd Red p u t (nd sd Black q v a b)))).
    2:{ destruct k as [|f k]; [cbn; by rewrite !root_nd|by apply root_plug]. }
    eapply zip_rotate; [exact H|]. clear s H. intros s H. apply zip_down in H.
    apply wp_bind. eapply zip_load; [exact H|]. autorewrite with rb.
    destruct (rb_S_nd sd a _ Ha) as (q' & v' & a1 & a2 & ca & cb & -> & Ha1 & Ha2).
    pose proof (zip_down_far _ _ _ _ _ _ _ _ _ _ H) as Hs2.
    rewrite (zip_root_0 _ _ _ _ _ Hs2), bool_decide_false by apply nd_not_E. apply wp_bind, wp_ret. cbn beta.
    rewrite root_nd.
    change (plug k (nd sd Black q v (nd sd Red p u t (nd sd Black q' v' a1 a2)) b))
      with (plug (Fr sd Black q v b :: k) (nd sd Red p u t (nd sd Black q' v' a1 a2))).
    eapply wp_mono; [eapply (delete_black_ok sd Red p u q' v' a1 a2 (Fr sd Black q v b :: k)); try done|].
    { cbn. eauto. }
    intros w s' [Habs | (t' & Hz & Hex & Hc & -> & Hi)].
    + left. destruct Habs as (t' & m & p' & Hz & Hm & -> & Hi). exists t', m, p'. split_and!; try done.
      rewrite Hi, plug_cons. apply inorder_plug_eq. destruct sd; inorder_eq.
    + right. exists (Fr sd Black q v b :: k), t'. split_and!; try done; [by left|].
      rewrite !plug_cons. apply inorder_plug_eq. destruct sd; cbn; rewrite Hi; inorder_eq.
  - (* black sibling *)
    destruct (rb_S_nd sd x _ Hx) as (q & v & a & b & ca & cb & -> & Ha & Hb). rewrite root_nd. apply wp_bind.
    eapply zip_load; [exact Hsib|]. autorewrite with rb. rewrite bool_decide_false by done.
    eapply wp_mono; [by eapply delete_black_ok|].
    intros w s' [Habs | (t' & Hz & Hex & Hc & -> & Hi)]; [by left|]. right. exists k, t'.
    split_and!; try done; [right; cbn; lia|]. rewrite plug_cons. by apply inorder_plug_eq.
Qed.

(** What the loop leaves, once the child is painted black. *)
Definition restored (t : tree) (v : Z * Z) (s : MEM) : Prop :=
  exists k t' m, zip Ts k t' F s /\ v = (root t', root (plug k t')) /\
    rb (plug k (paint Black t')) Black m /\ inorder (plug k t') = inorder t.

Lemma delete_fixup_ok fuel : forall k t s,
  zip Ts k t F s -> extra k t -> (if decide (color t = Red) then 0 < fuel else length k < fuel)%nat ->
  wp true (delete_fixup fuel (root t) (top k) (root (plug k t))) (restored (plug k t)) s.
Proof.
  induction fuel as [|fuel IH]; intros k t s H Hex Hf; [case_decide; lia|]. cbn [delete_fixup].
  assert (Hstop : color t = Red \/ k = [] -> restored (plug k t) (root t, root (plug k t)) s).
  { intros Hst. destruct (extra_stop _ _ Hex Hst) as [m Hm]. exists k, t, m. by split_and!. }
  rewrite (zip_is_root _ _ _ _ _ H). destruct k as [|[sd c p u x] k].
  { rewrite bool_decide_true by done. apply wp_ret. apply Hstop. by right. }
  rewrite bool_decide_false by done. apply wp_bind. eapply zip_null_or_black; [exact H|].
  destruct (color t) eqn:Ec.
  { rewrite bool_decide_false by done. cbn [negb]. apply wp_ret. apply Hstop. by left. }
  rewrite bool_decide_true by done. cbn [negb].
  destruct Hex as (n & Hk & [Ht | [? _]]); [|congruence].
  destruct (hole_above _ _ _ _ _ _ _ Hk) as (_ & cs & Hx & _).
  assert (Hxn : x <> E) by (intros ->; by apply rb_E_inv in Hx as [_ ?]).
  apply wp_bind. cbn [top faddr]. eapply zip_load; [apply zip_out; exact H|].
  rewrite (zip_side _ _ _ (Fr sd c p u x) _ _ H) by (by right). cbn [fside].
  replace (if bool_decide (sd = SideLeft) then SideLeft else SideRight) with sd by by destruct sd.
  apply wp_bind. eapply wp_mono; [by apply (delete_side_ok sd c p u x k t n)|].
  intros w s' [(t' & m & p' & Hz & Hm & -> & Hi) | (k' & t' & Hz & Hex & -> & Hlen & Hi)]; cbn beta iota.
  - destruct fuel as [|fuel]; [rewrite decide_False in Hf by done; cbn in Hf; lia|].
    cbn [delete_fixup]. rewrite Z.eqb_refl. apply wp_ret. exists [], t', m. split_and!; try done.
    cbn. by rewrite paint_id by (by eapply rb_color).
  - eapply wp_mono; [apply (IH k' t' s' Hz Hex)|].
    + rewrite decide_False in Hf by done. cbn in Hf, Hlen. case_decide; [lia|]. destruct Hlen; [done|lia].
    + intros v' s2 (k2 & t2 & m & Hz2 & -> & Hm & Hi2). exists k2, t2, m. split_and!; try done. by rewrite Hi2.
Qed.
End Fixup.

(** ** In memory *)

Section Memory.
Context (Ts : gmap Z RED_BLACK_TREE) (F : list (Z * NODE)).

(** A store to the Parent field of the root of a tree that is not empty. *)
Lemma wp_reparent_ne par q t L s (Q : unit -> MEM -> Prop) :
  has_cells Ts (layout par t ++ L) s -> t <> E ->
  (forall s', has_cells Ts (layout q t ++ L) s' -> Q tt s') -> wp true (store (root t) (set_Parent q)) Q s.
Proof.
  intros H Ht HQ. pose proof (has_cells_nonnull _ _ _ (root t) H) as Hn.
  rewrite fmap_app, elem_of_app in Hn. specialize (Hn (or_introl (root_in _ _ Ht))).
  pose proof (wp_reparent Ts par q t L s Q H HQ) as Hw.
  rewrite (proj2 (Z.eqb_neq _ _) Hn) in Hw. exact Hw.
Qed.

Lemma simple_ok k c a p u b s :
  zip Ts k (T c a p u b) F s -> a = E \/ b = E ->
  let t' := if decide (a = E) then b else a in
  wp true (unlink_simple p (root a) (root b) (top k) (root (plug k (T c a p u b))))
    (fun v s' => v = (root t', top k, c, root (plug k t')) /\ exists n, zip Ts k t' ((p, n) :: F) s') s.
Proof.
  intros H Hab t'. unfold unlink_simple.
  assert (Hold : forall f k', k = f :: k' -> p <> root (fsib f)).
  { intros f k' ->. by apply (zip_sib _ _ _ _ _ _ H). }
  pose proof (zip_down _ _ SideLeft _ _ _ _ _ _ _ H) as Ha. rewrite (zip_root_0 _ _ _ _ _ Ha).
  apply wp_bind. eapply (zip_load _ _ _ SideLeft); [exact H|]. autorewrite with rb. cbn [fcolor].
  replace (if negb (bool_decide (a = E)) then root a else root b) with (root t').
  2:{ unfold t'. by case_decide as Hd; [rewrite bool_decide_true|rewrite bool_decide_false]. }
  assert (H' : has_cells Ts (layout p t' ++ clayout k p ++ (p, mkNode u (top k) (root a) (root b) c) :: F) s).
  { unfold zip in H. cbn in H. unfold t'. case_decide as Hd.
    - subst a. cbn in H. reorder H.
    - destruct Hab as [| ->]; [done|]. cbn in H. rewrite app_nil_r in H. reorder H. }
  apply wp_bind. eapply wp_reparent; [exact H'|]. clear s H Ha H'. intros s H. apply wp_bind.
  eapply (wp_replace Ts k p (root t')); [pull_ H|done|]. clear s H. intros s H.
  apply wp_ret. rewrite replace_root. split; [done|]. eexists. unfold zip. reorder H.
Qed.

(** The part of unlink_successor that both cases share. *)
Lemma relink_ok k c a p u b q w par lq cq r s (Q : Z * Z * COLOR * Z -> MEM -> Prop)
    Child Parent_ t0 :
  let node := mkNode u (top k) (root a) r c in
  has_cells Ts ((q, mkNode w par lq (root b) cq) :: layout q b ++ (p, node) :: layout p a ++ clayout k p ++ F) s ->
  a <> E -> (forall f k', k = f :: k' -> p <> root (fsib f)) ->
  (forall s', zip Ts k (T c a q w b) ((p, node) :: F) s' ->
     Q (Child, Parent_, cq, root (plug k (T c a q w b))) s') ->
  wp true (store q (set_Left (root a)) ;;;
           store (root a) (set_Parent q) ;;;
           let! t := load q in
           let! n := load p in
           store q (set_Color (Color n)) ;;;
           store q (set_Parent (top k)) ;;;
           let! NewRoot := replace_child (top k) p q (root (plug k t0)) in
           Mret (Child, Parent_, Color t, NewRoot)) Q s.
Proof.
  intros node H Ha Hold HQ. apply wp_bind. eapply wp_store; [exact H|pull|]. clear s H. intros s H.
  cbn [set_Left UserStruct Parent Right Color] in H.
  apply wp_bind. eapply (wp_reparent_ne p q a); [pull_ H|done|]. clear s H. intros s H. apply wp_bind.
  eapply wp_load; [exact H|in_cells|]. apply wp_bind. eapply wp_load; [exact H|in_cells|].
  cbn [node Color]. apply wp_bind. eapply wp_store; [exact H|pull|]. clear s H. intros s H.
  apply wp_bind. eapply wp_store; [exact H|pull|]. clear s H. intros s H. apply wp_bind.
  cbn [set_Color set_Parent UserStruct Parent Left Right Color] in H.
  eapply (wp_replace Ts k p q); [pull_ H|done|]. clear s H. intros s H. apply wp_ret.
  change q with (root (T c a q w b)) at 1. rewrite (replace_root k t0).
  apply HQ. unfold zip. cbn. reorder H.
Qed.

(** The leftmost node of a tree. *)
Lemma min_split t : t <> E -> exists kl cq q w d,
  t = plug kl (T cq E q w d) /\ Forall (fun f => fside f = SideLeft) kl.
Proof.
  induction t as [|c l IH p u r _]; [done|]. intros _. destruct (decide (l = E)) as [-> | Hl].
  - by exists [], c, p, u, r.
  - destruct (IH Hl) as (kl & cq & q & w & d & -> & Hkl).
    exists (kl ++ [Fr SideLeft c p u r]), cq, q, w, d. rewrite plug_app. split; [done|].
    apply Forall_app. split; [done|]. by repeat constructor.
Qed.

Lemma left_before kl : Forall (fun f => fside f = SideLeft) kl -> before kl = [].
Proof. induction 1 as [|f kl Hf _ IH]; [done|]. cbn. by rewrite IH, Hf. Qed.

(** Taking the leftmost node [q] out of the right subtree. *)
Lemma unlink_min {A} f K cq q w d (rest : M MEM A) s (Q : A -> MEM -> Prop) :
  zip Ts (f :: K) (T cq E q w d) F s -> fside f = SideLeft ->
  (forall s', zip Ts (f :: K) d ((q, mkNode w (faddr f) 0 (root d) cq) :: F) s' -> wp true rest Q s') ->
  wp true (store (faddr f) (set_Left (root d)) ;;;
           when_ (negb (root d =? 0)) (store (root d) (set_Parent (faddr f))) ;;;
           rest) Q s.
Proof.
  intros H Hf HQ. destruct f as [sd c p u x]. cbn in Hf. subst sd. unfold zip in H. cbn in H.
  apply wp_bind. eapply wp_store; [exact H|pull|]. clear s H. intros s H. cbn [faddr]. apply wp_bind.
  eapply (wp_reparent Ts q p d); [pull_ H|]. clear s H. intros s H. apply HQ. unfold zip. cbn. reorder H.
Qed.

Definition relinked (k : ctx) (c : COLOR) (a : tree) (p q w : Z) (b : tree) (s : MEM) : Prop :=
  exists n, zip Ts k (T c a q w b) ((p, n) :: F) s.

Lemma successor_ok k c a p u b s :
  zip Ts k (T c a p u b) F s -> a <> E -> b <> E ->
  exists kl cq q w d, b = plug kl (T cq E q w d) /\ before kl = [] /\
  wp true (unlink_successor p (root a) (root b) (top k) (root (plug k (T c a p u b))))
    (fun v s' => v = (root d, top (kl ++ Fr SideRight c q w a :: k), cq,
                      root (plug k (T c a q w (plug kl d)))) /\
                 relinked k c a p q w (plug kl d) s') s.
Proof.
  intros H Ha Hb. destruct (min_split b Hb) as (kl & cq & q & w & d & -> & Hkl).
  exists kl, cq, q, w, d. split_and!; [done|by apply left_before|].
  assert (Hold : forall f k', k = f :: k' -> p <> root (fsib f)).
  { intros f k' ->. by apply (zip_sib _ _ _ _ _ _ H). }
  unfold unlink_successor. apply wp_bind.
  destruct kl as [|[sd cb pb ub br] k1 _] using rev_ind.
  - cbn [plug foldl root].
    pose proof (zip_down _ _ SideRight _ _ _ _ _ _ _ H) as Hz.
    eapply (zip_load _ _ _ SideLeft); [exact Hz|]. cbn [fnode fside fuser fcolor fsib Left Right root Z.eqb].
    apply wp_bind, wp_ret. cbn beta iota.
    eapply (relink_ok k c a p u d q w); [unfold zip in H; cbn in H; reorder H|done|done|].
    intros s' H'. split; [done|]. by eexists.
  - rewrite Forall_app, Forall_singleton in Hkl. destruct Hkl as [Hk1 Hsd]. cbn in Hsd. subst sd.
    set (kl := k1 ++ [Fr SideLeft cb pb ub br]) in *.
    assert (Epb : forall x, root (plug kl x) = pb) by (intros x; unfold kl; by rewrite plug_app).
    rewrite Epb. pose proof (zip_down _ _ SideRight _ _ _ _ _ _ _ H) as Hz.
    assert (Hbl : zip Ts (Fr SideLeft cb pb ub br :: Fr SideRight c p u a :: k) (plug k1 (T cq E q w d)) F s).
    { apply (zip_down _ _ SideLeft). unfold kl in Hz. by rewrite plug_app in Hz. }
    assert (Hbln : plug k1 (T cq E q w d) <> E) by by apply plug_not_E.
    eapply (zip_load _ _ _ SideLeft cb pb ub); [apply zip_out; exact Hbl|].
    cbn [fnode fside fuser fcolor fsib Left Right].
    rewrite (zip_root_0 _ _ _ _ _ Hbl), bool_decide_false by done.
    apply wp_bind, (wp_step _ _ _ _ s _ s eq_refl). cbn beta.
    eapply wp_step; [apply (descend_ok _ _ _ _ _ _ _ Hbl Hbln); pose proof (zip_fuel _ _ _ _ _ Hbl); lia|].
    replace (addr (ends SideLeft (inorder (plug k1 (T cq E q w d))))) with q
      by (rewrite inorder_plug, (left_before k1 Hk1); done).
    cbn beta. apply wp_bind. rewrite <- (zip_app Ts kl) in Hz.
    eapply (zip_load _ _ _ SideLeft cq q w E d); [exact Hz|].
    cbn [fnode fside fuser fcolor fsib Left Right Parent].
    assert (exists f kl', kl = f :: kl' /\ fside f = SideLeft) as (f & kl' & Ekl & Hf).
    { unfold kl. destruct k1 as [|f k1]; [by repeat eexists|]. inversion Hk1. by repeat eexists. }
    rewrite Ekl in Hz |- *. cbn [top app].
    eapply (unlink_min f); [exact Hz|done|]. clear s H Hz Hbl. intros s H.
    apply (proj1 (zip_app Ts (f :: kl') (Fr SideRight c p u a :: k) d _ s)) in H.
    rewrite <- Ekl in H. unfold zip in H. cbn [top faddr clayout fnode fside fuser fsib fcolor] in H.
    apply wp_bind. eapply wp_store; [exact H|pull|]. clear s H. intros s H. apply wp_bind.
    rewrite <- (Epb d) at 1. eapply (wp_reparent_ne p q (plug kl d)); [pull_ H| |].
    { rewrite Ekl, plug_cons. apply plug_not_E, nd_not_E. }
    clear s H. intros s H. apply wp_ret. cbn beta iota. rewrite <- Ekl.
    eapply (relink_ok k c a p u (plug kl d) q w);
      [rewrite Epb; cbn [set_Right UserStruct Parent Left Right Color] in H; reorder H|done|done|].
    intros s' H'. split; [by rewrite Ekl|]. by eexists.
Qed.
End Memory.
