(* ===== verification/RbTheorems.v ===== *)
(** * RbTheorems: the ordered collection

    A collection is its sequence of nodes in order; the operations of
    RbTree.v implement insertion, removal and lookup on it. *)

From stdpp Require Import base option list gmap fin_maps sorting.
From Stdlib Require Import ZArith Lia.
From S2P Require Import Prelude RbTree RbShape RbInsert RbWalk RbValidate RbDelete.

Local Open Scope Z_scope.
Local Open Scope edk_scope.

(** ** Collections

    [collection Tree cmp kc F l]: the structure at [Tree] is a valid red-black
    tree whose nodes are [l], addresses with user structures, in strictly
    ascending order; [F] are the nodes of other trees. *)
Definition collection (Tree : Z) (cmp kc : Z -> Z -> Z) (F : list (Z * NODE)) (l : list (Z * Z)) (s : MEM) : Prop :=
  exists t, zip (trees s) [] t F s /\ trees s !! Tree = Some (mkTree (root t) cmp kc) /\
    valid cmp t /\ inorder t = l.

(** The nodes fit in the address space. *)
Definition fits (l : list (Z * Z)) : Prop := Z.of_nat (length l) < 2 ^ 64 - 1.

Lemma fits_height cmp t : valid cmp t -> fits (inorder t) -> Z.of_nat (height t) + 1 < 2 ^ 32.
Proof.
  intros [[n Hr] _] Hf. apply rb_log_height in Hr. unfold fits in Hf.
  assert (Z.log2 (Z.of_nat (length (inorder t)) + 1) < 64) by (apply Z.log2_lt_pow2; lia). lia.
Qed.

Lemma validate_when b Tree cmp kc F l s `{!UserCompare cmp} :
  collection Tree cmp kc F l s -> fits l ->
  when_ b (RedBlackTreeValidate Tree) s = Ok (tt, s).
Proof.
  intros (t & Hz & HT & Hv & <-) Hf. destruct b; [|done].
  apply (Validate_ok _ _ _ _ Hz cmp kc Tree HT); [by eapply fits_height|done].
Qed.

Lemma wp_store_tree Ts L s Tree f t (Q : unit -> MEM -> Prop) :
  has_cells Ts L s -> Ts !! Tree = Some t ->
  (forall s', has_cells (<[Tree := f t]> Ts) L s' -> Q tt s') -> wp true (store_tree Tree f) Q s.
Proof.
  intros [E H] HT HQ. eapply wp_eq; [unfold store_tree; by rewrite E, HT|]. apply HQ. by split.
Qed.

Lemma load_tree_ok Ts L s Tree t : has_cells Ts L s -> Ts !! Tree = Some t -> load_tree Tree s = Ok (t, s).
Proof. intros [E _] HT. unfold load_tree. by rewrite E, HT. Qed.

(** The last steps of both writers. *)
Lemma finish_ok {A} b Ts t F s Tree cmp kc r0 (res : A) `{!UserCompare cmp} :
  zip Ts [] t F s -> Ts !! Tree = Some (mkTree r0 cmp kc) -> valid cmp t -> fits (inorder t) ->
  wp true (store_tree Tree (set_Root (root t)) ;;; when_ b (RedBlackTreeValidate Tree) ;;; Mret res)
    (fun r s' => r = res /\ collection Tree cmp kc F (inorder t) s' /\
       forall T', T' <> Tree -> trees s' !! T' = Ts !! T') s.
Proof.
  intros Hz HT Hv Hf. apply wp_bind. eapply wp_store_tree; [exact Hz|exact HT|]. intros s' Hz'.
  assert (HC : collection Tree cmp kc F (inorder t) s').
  { exists t. destruct (Hz') as [E _]. rewrite E. split_and!; [done|by rewrite lookup_insert_eq|done|done]. }
  eapply wp_step; [by eapply validate_when|]. cbn beta. apply wp_ret. split_and!; [done|done|].
  intros T' HT'. by rewrite (proj1 Hz'), lookup_insert_ne.
Qed.

(** ** Deletion *)

Lemma hole_readdr kl sd c p u q w a k cc n :
  hole (kl ++ Fr sd c p u a :: k) cc n <-> hole (kl ++ Fr sd c q w a :: k) cc n.
Proof.
  revert cc n. induction kl as [|f kl IH]; intros cc n; cbn; [done|]. destruct (fcolor f); by rewrite IH.
Qed.

(** Replacing a node by its only child. *)
Lemma unlink_props K c a p u b n :
  rb (T c a p u b) c n -> hole K c n -> a = E \/ b = E ->
  let t' := if decide (a = E) then b else a in
  match c with Red => exists m, rb (plug K t') Black m | Black => extra K t' end.
Proof.
  intros Hr Hk Hab t'. assert (Ht : exists ct m, rb t' ct m /\
    match c with Red => ct = Black /\ m = n | Black => n = S m end).
  { inversion Hr as [|? ? ? ? ? Ha Hb|? ? ? ? ca cb m Ha Hb]; subst; unfold t'; case_decide; by repeat eexists. }
  destruct Ht as (ct & m & Ht & Hc). destruct c.
  - destruct Hc as [-> ->]. eapply hole_plug; [exact Ht|by eapply hole_black].
  - subst n. exists m. split; [done|]. destruct ct; [right|by left].
    split; [by eapply rb_color|by apply rb_paint_red].
Qed.

(** Everything after the node is unlinked. *)
Lemma delete_rest b Ts K t F s Tree cmp kc r0 (c : COLOR) (out : option Z) l `{!UserCompare cmp} :
  zip Ts K t F s -> Ts !! Tree = Some (mkTree r0 cmp kc) ->
  match c with Red => exists m, rb (plug K t) Black m | Black => extra K t end ->
  inorder (plug K t) = l -> in_order cmp l -> fits l ->
  wp true
    (let! NewRoot :=
       (if bool_decide (c = Black) then
          let! fuel := turns in
          let! r := delete_fixup fuel (root t) (top K) (root (plug K t)) in
          let '(Child, NewRoot) := r in
          when_ (negb (Child =? 0)) (store Child (set_Color Black)) ;;;
          Mret NewRoot
        else Mret (root (plug K t))) in
     store_tree Tree (set_Root NewRoot) ;;; when_ b (RedBlackTreeValidate Tree) ;;; Mret out)
    (fun r s' => r = out /\ collection Tree cmp kc F l s' /\
       forall T', T' <> Tree -> trees s' !! T' = Ts !! T') s.
Proof.
  intros Hz HT Hc Hl Hs Hf. apply wp_bind.
  assert (Hfin : forall t' s' m, zip Ts [] t' F s' -> rb t' Black m -> inorder t' = l ->
    wp true (store_tree Tree (set_Root (root t')) ;;; when_ b (RedBlackTreeValidate Tree) ;;; Mret out)
    (fun r s' => r = out /\ collection Tree cmp kc F l s' /\
       forall T', T' <> Tree -> trees s' !! T' = Ts !! T') s').
  { intros t' s' m Hz' Hr' <-. eapply (finish_ok b Ts t' F s' Tree cmp kc r0 out); [done|done|by split; [exists m|]|].
    exact Hf. }
  destruct c.
  - destruct Hc as [m Hm]. rewrite bool_decide_false by done. apply wp_ret.
    apply (Hfin (plug K t) s m); [by apply zip_whole|done|done].
  - rewrite bool_decide_true by done. eapply wp_step; [done|]. cbn beta. apply wp_bind.
    pose proof (zip_fuel _ _ _ _ _ Hz) as [Hfu _].
    eapply wp_mono; [apply (delete_fixup_ok Ts F _ K t s Hz Hc); case_decide; lia|].
    intros v s' (k & t' & m & Hz' & -> & Hm & Hi). cbn beta iota. apply wp_bind.
    destruct (decide (t' = E)) as [-> | Ht'].
    + cbn [root Z.eqb negb when_]. apply wp_ret, wp_ret. apply (Hfin (plug k E) s' m); [by apply zip_whole|done|congruence].
    + rewrite (zip_root_0 _ _ _ _ _ Hz'), bool_decide_false by done. cbn [negb when_].
      eapply zip_paint; [exact Hz'|done|]. clear s' Hz'. intros s' Hz'. apply wp_ret.
      replace (root (plug k t')) with (root (plug k (paint Black t'))).
      2:{ destruct k as [|f k]; [cbn; apply root_paint|by apply root_plug]. }
      apply (Hfin _ s' m); [by apply zip_whole|done|]. rewrite <- Hl, <- Hi. apply inorder_plug_eq, inorder_paint.
Qed.

(** The node is freed, and what follows. *)
Lemma freed_rest {A} Ts k t p n F (rest : M MEM A) s (Q : A -> MEM -> Prop) :
  zip Ts k t ((p, n) :: F) s -> (forall s', zip Ts k t F s' -> wp true rest Q s') ->
  wp true (FreePool_node p ;;; rest) Q s.
Proof.
  intros H HQ. apply wp_bind. eapply wp_free; [exact H| |exact HQ]. solve_Permutation.
Qed.

Lemma in_order_remove cmp l1 x l2 : in_order cmp (l1 ++ x :: l2) -> in_order cmp (l1 ++ l2).
Proof.
  unfold in_order. induction l1 as [|y l1 IH]; cbn; intros H; apply StronglySorted_cons in H as [Hy H]; [done|].
  apply StronglySorted_cons. split; [|by apply IH]. rewrite !Forall_app, Forall_cons in *. naive_solver.
Qed.

Lemma fits_remove l1 x l2 : fits (l1 ++ x :: l2) -> fits (l1 ++ l2).
Proof. unfold fits. rewrite !length_app. cbn [length]. lia. Qed.

Section Delete.
Context (b UserStructOut : bool) (Tree : Z) (cmp kc : Z -> Z -> Z) `{!UserCompare cmp}.
Context (Ts : gmap Z RED_BLACK_TREE) (F : list (Z * NODE)) (s : MEM).
Context (k : ctx) (c : COLOR) (l : tree) (p u : Z) (r : tree).
Context (Hz : zip Ts k (T c l p u r) F s).
Context (HT : Ts !! Tree = Some (mkTree (root (plug k (T c l p u r))) cmp kc)).
Context (Hv : valid cmp (plug k (T c l p u r))) (Hf : fits (inorder (plug k (T c l p u r)))).

Lemma remaining_ok :
  in_order cmp ((before k ++ inorder l) ++ inorder r ++ after k) /\
  fits ((before k ++ inorder l) ++ inorder r ++ after k).
Proof.
  pose proof (proj2 Hv) as Ho. rewrite inorder_plug in Ho, Hf. cbn [inorder] in Ho, Hf.
  rewrite <- (app_assoc (inorder l)), (app_assoc (before k)) in Ho, Hf. cbn in Ho, Hf.
  split; [by eapply in_order_remove|by eapply fits_remove].
Qed.

Definition deleted (v : option Z) (s' : MEM) : Prop :=
  v = (if UserStructOut then Some u else None) /\
  collection Tree cmp kc F ((before k ++ inorder l) ++ inorder r ++ after k) s' /\
  forall T', T' <> Tree -> trees s' !! T' = Ts !! T'.

Lemma delete_ok : wp true (OrderedCollectionDelete b Tree p UserStructOut) deleted s.
Proof.
  unfold OrderedCollectionDelete. destruct remaining_ok as [Ho' Hf'].
  eapply wp_step; [by eapply load_tree_ok|]. cbn beta.
  apply wp_bind. eapply (zip_load _ _ _ SideLeft); [exact Hz|].
  cbn [fnode fside fuser fcolor fsib Left Right Parent UserStruct Root]. destruct Hv as [[m Hm] _].
  rewrite (zip_root_0 _ _ _ _ _ (zip_down _ _ SideLeft _ _ _ _ _ _ _ Hz)).
  rewrite (zip_root_0 _ _ _ _ _ (zip_down _ _ SideRight _ _ _ _ _ _ _ Hz)).
  rewrite <- bool_decide_or. apply wp_bind. case_bool_decide as Hlr.
  - destruct (plug_hole k _ _ Hm) as (c0 & n & Hr & Hk). pose proof (rb_color _ _ _ Hr). cbn in *. subst c0.
    eapply wp_mono; [by apply (simple_ok Ts F k c l p u r s Hz)|].
    intros v s' (-> & n' & Hz'). cbn beta iota. eapply freed_rest; [exact Hz'|]. clear s' Hz'. intros s' Hz'.
    eapply delete_rest; [exact _|exact Hz'|exact HT|by apply (unlink_props _ _ _ p u _ n)| |exact Ho'|exact Hf'].
    rewrite inorder_plug. case_decide as Hl; [subst l; by rewrite app_nil_r|].
    destruct Hlr as [| ->]; [done|]. by rewrite <- app_assoc.
  - assert (l <> E /\ r <> E) as [Hl Hr] by (by split; contradict Hlr; auto).
    destruct (successor_ok Ts F k c l p u r s Hz Hl Hr) as (kl & cq & q & w & d & Er & Hkl & Hw).
    eapply wp_mono; [exact Hw|]. intros v s' (-> & n' & Hz'). cbn beta iota.
    eapply freed_rest; [exact Hz'|]. clear s' Hz'. intros s' Hz'.
    apply (zip_down _ _ SideRight), zip_app in Hz'.
    assert (Hm' : rb (plug (kl ++ Fr SideRight c p u l :: k) (T cq E q w d)) Black m) by (by rewrite plug_app, <- Er).
    destruct (plug_hole _ _ _ Hm') as (c0 & n & Hrb & Hk). pose proof (rb_color _ _ _ Hrb). cbn in *. subst c0.
    apply hole_readdr with (q := q) (w := w) in Hk.
    pose proof (delete_rest b Ts _ d F s' Tree cmp kc (root (plug k (T c l p u r))) cq
      (if UserStructOut then Some u else None) _ Hz' HT (unlink_props _ _ _ q w _ n Hrb Hk (or_introl eq_refl))
      eq_refl) as Hd.
    replace (inorder (plug (kl ++ _ :: k) d)) with ((before k ++ inorder l) ++ inorder r ++ after k) in Hd.
    2:{ rewrite Er, !inorder_plug, before_app, after_app, Hkl. cbn. rewrite !app_nil_r, <- !app_assoc. done. }
    rewrite !plug_app in Hd. by apply Hd.
Qed.
End Delete.

(** ** The abstract collection

    Lookup by a probe (a key with its comparison applied) and insertion, on
    the sequence of nodes. *)
Fixpoint find_key (probe : Z -> Z) (l : list (Z * Z)) : option (Z * Z) :=
  match l with
  | [] => None
  | x :: l' => if probe x.2 =? 0 then Some x else find_key probe l'
  end.

Fixpoint insert_key (probe : Z -> Z) (x : Z * Z) (l : list (Z * Z)) : list (Z * Z) :=
  match l with
  | [] => [x]
  | y :: l' => if probe y.2 <? 0 then x :: l else y :: insert_key probe x l'
  end.

Section Abstract.
Context (probe : Z -> Z).

Lemma find_key_none l : Forall (fun x => probe x.2 <> 0) l -> find_key probe l = None.
Proof. induction 1 as [|x l Hx _ IH]; [done|]. cbn. by rewrite (proj2 (Z.eqb_neq _ _) Hx). Qed.

Lemma insert_key_at l1 x l2 :
  Forall (fun y => 0 < probe y.2) l1 -> Forall (fun y => probe y.2 < 0) l2 ->
  insert_key probe x (l1 ++ l2) = l1 ++ x :: l2.
Proof.
  intros H1 H2. induction H1 as [|y l1 Hy _ IH]; cbn.
  - destruct H2 as [|y l2 Hy _]; [done|]. cbn. by rewrite (proj2 (Z.ltb_lt _ _) Hy).
  - rewrite IH. by destruct (Z.ltb_spec (probe y.2) 0); [lia|].
Qed.

Lemma insert_key_perm x l : insert_key probe x l ≡ₚ x :: l.
Proof.
  induction l as [|y l IH]; [done|]. cbn. destruct (_ <? 0); [done|]. rewrite IH. apply Permutation_swap.
Qed.
End Abstract.

Lemma fits_insert probe x l : fits (x :: l) -> fits (insert_key probe x l).
Proof. unfold fits. by rewrite insert_key_perm. Qed.

(** At most one node matches a key. *)
Lemma find_key_eq cmp kc `{!KeyOrder cmp kc} key l p u :
  in_order cmp l -> (p, u) ∈ l -> kc key u = 0 -> find_key (kc key) l = Some (p, u).
Proof.
  intros Hs (l1 & l2 & ->)%list_elem_of_split Hu. induction l1 as [|y l1 IH]; cbn.
  - by rewrite Hu.
  - apply StronglySorted_cons in Hs as [Hy Hs]. apply Forall_app in Hy as [_ Hy].
    apply Forall_cons in Hy as [Hy _]. destruct (Z.eqb_spec (kc key y.2) 0) as [E0|_]; [|by apply IH].
    pose proof (key_mono (cmp := cmp) (kc := kc) key y.2 u ltac:(lia) Hy). lia.
Qed.

(** A new node in its place keeps the order. *)
Lemma in_order_insert cmp `{!UserCompare cmp} l1 l2 p u :
  in_order cmp (l1 ++ l2) -> Forall (fun y => 0 < cmp u y.2) l1 -> Forall (fun y => cmp u y.2 < 0) l2 ->
  in_order cmp (l1 ++ (p, u) :: l2).
Proof.
  unfold in_order. intros Hs H1 H2. induction H1 as [|y l1 Hy _ IH]; cbn in *.
  - apply StronglySorted_cons. by split.
  - apply StronglySorted_cons in Hs as [Hl Hs]. apply StronglySorted_cons. split; [|by apply IH].
    rewrite Forall_app, Forall_cons in *. split_and!; [apply Hl| |apply Hl]. by apply cmp_sym.
Qed.

Lemma done_ok {A} b Tree cmp kc F l s (res : A) `{!UserCompare cmp} :
  collection Tree cmp kc F l s -> fits l ->
  (when_ b (RedBlackTreeValidate Tree) ;;; Mret res) s = Ok (res, s).
Proof. intros HC Hf. by rewrite (Mbind_Ok _ _ s tt s (validate_when b _ _ _ _ _ _ HC Hf)). Qed.

(** ** Insertion *)

(** What the library relies on of AllocatePool: a new block is not at NULL
    and overlaps no node. *)
Definition fresh_nodes (AllocateNode : MEM -> option (Z * NODE)) : Prop :=
  forall s p n, AllocateNode s = Some (p, n) -> p <> 0 /\ nodes s !! p = None.

Section Insert.
Context (b : bool) (Tree : Z) (cmp kc : Z -> Z -> Z) `{!UserCompare cmp} (F : list (Z * NODE)).
Context (Ts : gmap Z RED_BLACK_TREE) (k : ctx) (p User : Z) (n0 : NODE).
Context (Hv : valid cmp (plug k E)) (Hp : placed (cmp User) k) (Hf : fits ((p, User) :: inorder (plug k E))).
Context (HT : Ts !! Tree = Some (mkTree (root (plug k E)) cmp kc)).

(** The sequence with the new node. *)
Abbreviation l' := (insert_key (cmp User) (p, User) (inorder (plug k E))).
Definition inserted {A} (res v : A) (s' : MEM) : Prop :=
  v = res /\ collection Tree cmp kc F l' s' /\ forall T', T' <> Tree -> trees s' !! T' = Ts !! T'.

Lemma new_order c : l' = inorder (plug k (T c E p User E)) /\ in_order cmp l' /\ fits l'.
Proof.
  destruct Hv as [_ Ho], Hp as [H1 H2]. rewrite !inorder_plug in *. cbn [inorder app] in *.
  rewrite insert_key_at by done. split_and!; [done|by apply in_order_insert|].
  rewrite <- (insert_key_at (cmp User)) by done. by apply fits_insert.
Qed.

(** An empty tree. *)
Lemma insert_root_ok {A} (res : A) s :
  k = [] -> has_cells Ts ((p, n0) :: F) s -> n0 = mkNode User 0 0 0 (Color n0) ->
  wp true (store_tree Tree (set_Root p) ;;; store p (set_Color Black) ;;;
           when_ b (RedBlackTreeValidate Tree) ;;; Mret res) (inserted res) s.
Proof.
  intros Hk Hz En. destruct (new_order Black) as (El & Ho & Hfit).
  apply wp_bind. eapply wp_store_tree; [exact Hz|exact HT|]. clear s Hz. intros s Hz. apply wp_bind.
  eapply wp_store; [exact Hz|done|]. clear s Hz. intros s Hz. rewrite En, ?Hk in Hz.
  assert (HC : collection Tree cmp kc F l' s).
  { exists (T Black E p User E). destruct Hz as [ETs Hz]. rewrite ETs, Hk. split_and!; [done| |split|done].
    - by rewrite lookup_insert_eq.
    - exists 1%nat. econstructor; constructor.
    - repeat constructor. }
  eapply wp_eq; [exact (done_ok b Tree cmp kc F _ s res HC Hfit)|]. split_and!; [done|done|].
  intros T' HT'. by rewrite (proj1 Hz), lookup_insert_ne.
Qed.

(** The new node below a leaf's parent. *)
Lemma insert_below_ok {A} f k1 Result (res : A) s :
  k = f :: k1 -> last_side k Result ->
  has_cells Ts ((p, n0) :: clayout k 0 ++ F) s -> n0 = mkNode User (top k) 0 0 (Color n0) ->
  wp true ((if Result <? 0 then store (top k) (set_Left p) else store (top k) (set_Right p)) ;;;
           store p (set_Color Red) ;;;
           let! t := load_tree Tree in
           let! fuel := turns in
           let! NewRoot := insert_fixup fuel p (top k) (Root t) in
           store NewRoot (set_Color Black) ;;;
           store_tree Tree (set_Root NewRoot) ;;;
           when_ b (RedBlackTreeValidate Tree) ;;; Mret res) (inserted res) s.
Proof.
  intros Hk Hl Hz En. destruct (new_order Red) as (El & Ho & Hfit).
  assert (Hlink : forall Q : unit -> MEM -> Prop,
    (forall s', has_cells Ts ((p, n0) :: clayout k p ++ F) s' -> Q tt s') ->
    wp true (if Result <? 0 then store (top k) (set_Left p) else store (top k) (set_Right p)) Q s).
  { intros Q HQ. rewrite Hk in *. destruct f as [sd c q v x]. cbn in Hl |- *. rewrite Hl.
    destruct sd; cbn; (eapply wp_store; [exact Hz|cbn; pull|]);
      intros s' H'; apply HQ; cbn; cbn in H'; reorder H'. }
  apply wp_bind, Hlink. clear s Hz Hlink. intros s Hz. apply wp_bind.
  eapply wp_store; [exact Hz|done|]. clear s Hz. intros s Hz. rewrite En in Hz.
  assert (Hzip : zip Ts k (T Red E p User E) F s) by exact Hz.
  eapply wp_step; [by eapply load_tree_ok|]. cbn beta. eapply wp_step; [done|]. cbn beta. apply wp_bind.
  cbn [Root]. rewrite (root_plug k E (T Red E p User E)) by (by rewrite Hk).
  destruct Hv as [[m Hm] _]. destruct (plug_hole k _ _ Hm) as (c & n & [-> ->]%rb_E_inv & Hh).
  eapply wp_mono.
  { apply (insert_fixup_ok Ts F _ k (T Red E p User E) 0 s Hzip); [by repeat constructor|done|apply (zip_fuel _ _ _ _ _ Hzip)]. }
  clear s Hz Hzip. intros NewRoot s (t' & c & m' & Hz & -> & Hne & Hi & Hr). apply wp_bind.
  eapply zip_paint; [exact Hz|done|]. clear s Hz. intros s Hz.
  rewrite <- (root_paint Black t'). unfold inserted. rewrite El, <- Hi, <- (inorder_paint Black t') in *.
  eapply (finish_ok b Ts (paint Black t') F s Tree cmp kc _ res Hz HT); [|done].
  split; [by eapply rb_paint_black|done].
Qed.
End Insert.

(** The search, on the sequence. *)
Lemma search_find cmp kc key t r `{!KeyOrder cmp kc} :
  in_order cmp (inorder t) -> search_result kc key t r -> r.1.1 = addr (find_key (kc key) (inorder t)).
Proof.
  intros Ho Hres. destruct r as [[Tmp par] R]. cbn in *.
  destruct Hres as [(u & Hin & Hu)|(-> & k & <- & _ & Hp & _)].
  - by rewrite (find_key_eq cmp kc key _ _ _ Ho Hin Hu).
  - by rewrite find_key_none by (by eapply placed_none).
Qed.

Lemma collection_search Tree cmp kc F l s fcmp key `{!KeyOrder cmp fcmp} :
  collection Tree cmp kc F l s ->
  exists t r, zip (trees s) [] t F s /\ trees s !! Tree = Some (mkTree (root t) cmp kc) /\ valid cmp t /\
    inorder t = l /\ insert_search (S (size (nodes s))) fcmp key (root t) 0 0 s = Ok (r, s) /\
    r.1.1 = addr (find_key (fcmp key) l) /\
    (find_key (fcmp key) l = None -> exists k, plug k E = t /\ r.1.2 = top k /\ placed (fcmp key) k /\ last_side k r.2).
Proof.
  intros (t & Hz & HT & Hv & <-).
  destruct (search_ok (trees s) F s cmp fcmp key (S (size (nodes s))) [] t 0 Hz (proj2 Hv)) as (r & Hr & Hres);
    [by split|done|apply (zip_fuel _ _ _ _ _ Hz)|].
  exists t, r. split_and!; [done..| |].
  - by apply (search_find cmp fcmp _ _ _ (proj2 Hv)).
  - intros Hnone. destruct r as [[Tmp par] R]. cbn in *.
    destruct Hres as [(u & Hin & Hu)|(-> & k & Hk & Hpar & Hp & Hl)]; [|by exists k].
    by rewrite (find_key_eq cmp fcmp key _ _ _ (proj2 Hv) Hin Hu) in Hnone.
Qed.

Lemma find_key_in probe l x : find_key probe l = Some x -> x ∈ l.
Proof.
  induction l as [|y l IH]; cbn; [done|]. destruct (_ =? 0); [intros [= ->]; by left|]. intros H. right. by apply IH.
Qed.

Lemma collection_addr Tree cmp kc F l s p u : collection Tree cmp kc F l s -> (p, u) ∈ l -> p <> 0.
Proof. intros (t & Hz & _ & _ & <-) Hin. exact (proj1 (tree_load _ F s t Hz p u Hin)). Qed.

Section InsertAll.
Context (b : bool) (AllocateNode : MEM -> option (Z * NODE)) (Hfresh : fresh_nodes AllocateNode).
Context (Tree : Z) (cmp kc : Z -> Z -> Z) `{!UserCompare cmp} (F : list (Z * NODE)) (l : list (Z * Z)) (s : MEM).
Context (HC : collection Tree cmp kc F l s) (NodeOut : bool) (User : Z) (Hf : fits ((0, User) :: l)).
Abbreviation out p := (if NodeOut then Some p else None).
Abbreviation Insert := (OrderedCollectionInsert b AllocateNode Tree NodeOut User).

Lemma fits_cons x : fits (x :: l).
Proof. exact Hf. Qed.
Lemma fits_tail : fits l.
Proof. revert Hf. unfold fits. cbn [length]. lia. Qed.

(** The two early exits. *)
Lemma insert_exit res :
  match find_key (cmp User) l, AllocateNode s with
  | Some (q, _), _ => res = (EFI_ALREADY_STARTED, out q)
  | None, None => res = (EFI_OUT_OF_RESOURCES, None)
  | None, Some _ => False
  end -> Insert s = Ok (res, s).
Proof.
  destruct (collection_search _ _ _ _ _ _ cmp User HC) as (t & r & Hz & HT & Hv & Hi & Hr & Htmp & _).
  destruct (find_key (cmp User) l) as [[q v]|] eqn:Ef; [|destruct (AllocateNode s) eqn:Ea; [done|]].
  all: intros ->.
  all: unfold OrderedCollectionInsert; run_step (load_tree_ok _ _ _ Tree _ Hz HT).
  all: rewrite (Mbind_Ok turns _ s _ s eq_refl); cbn [Root UserStructCompare]; run_step Hr.
  all: destruct r as [[Tmp par] R]; cbn in Htmp; subst Tmp.
  - cbn [addr from_option fst].
    rewrite (proj2 (Z.eqb_neq _ _) (collection_addr _ _ _ _ _ _ _ _ HC (find_key_in _ _ _ Ef))). cbn [negb].
    exact (done_ok b Tree cmp kc F _ s _ HC fits_tail).
  - cbn [addr from_option fst Z.eqb negb]. rewrite (Mbind_Ok Mget _ s s s eq_refl), Ea.
    exact (done_ok b Tree cmp kc F _ s _ HC fits_tail).
Qed.

Lemma insert_new p stale :
  find_key (cmp User) l = None -> AllocateNode s = Some (p, stale) ->
  exists s', Insert s = Ok ((EFI_SUCCESS, out p), s') /\
    collection Tree cmp kc F (insert_key (cmp User) (p, User) l) s' /\
    forall T', T' <> Tree -> trees s' !! T' = trees s !! T'.
Proof.
  intros Ef Ea.
  destruct (collection_search _ _ _ _ _ _ cmp User HC) as (t & r & Hz & HT & Hv & Hi & Hr & Htmp & Hk).
  destruct (Hk Ef) as (k & <- & Hpar & Hp & Hl). rewrite Ef in Htmp. subst l.
  destruct r as [[Tmp par] R]. cbn in Htmp, Hpar, Hl. subst Tmp par.
  assert (Hw : wp true Insert (inserted Tree cmp kc F (trees s) k p User (EFI_SUCCESS, out p)) s).
  2:{ apply wp_total in Hw as (v & s' & E & -> & HC' & HT'). by exists s'. }
  unfold OrderedCollectionInsert. eapply wp_step; [by eapply load_tree_ok|]. cbn beta.
  eapply wp_step; [done|]. cbn beta. eapply wp_step; [exact Hr|]. cbn beta iota. cbn [Z.eqb negb].
  eapply wp_step; [done|]. cbn beta. rewrite Ea. destruct (Hfresh _ _ _ Ea) as [Hp0 Hnone].
  eapply wp_step; [done|]. cbn beta.
  apply zip_plug in Hz. pose proof (zip_top_0 _ _ _ _ _ Hz) as Htop.
  pose proof (has_cells_alloc _ _ _ p stale Hz Hp0 Hnone) as H. cbn [layout root app] in H.
  set (s1 := mkMem _ _) in *. clearbody s1. revert s1 H. intros s1 H.
  do 4 (apply wp_bind; eapply wp_store; [exact H|done|]; clear s1 H; intros s1 H).
  unfold set_Right, set_Left, set_Parent, set_UserStruct in H. cbn [UserStruct Parent Left Right Color] in H.
  rewrite Htop. destruct k as [|f k1].
  - rewrite bool_decide_true by done. eapply insert_root_ok; try done.
  - rewrite bool_decide_false by done. eapply insert_below_ok; try done.
Qed.
End InsertAll.

(** ** The contract of the library *)

(** C10 OrderedCollectionInsert inserts in the sorted sequence of nodes:
    a user structure that compares equal to an element's is refused with
    EFI_ALREADY_STARTED and the address of that element; without memory the
    result is EFI_OUT_OF_RESOURCES; both leave the memory as it was.
    Otherwise the result is EFI_SUCCESS and the address of the new node, the
    tree is a valid red-black tree whose nodes in order are the old ones with
    the new one inserted by the comparison, and the nodes and structures of
    other trees are untouched. *)
Theorem Rb_insert b AllocateNode Tree cmp kc `{!UserCompare cmp} F l s (NodeOut : bool) User :
  fresh_nodes AllocateNode -> collection Tree cmp kc F l s -> Z.of_nat (length l) < 2 ^ 64 - 2 ->
  let out := fun p : Z => if NodeOut then Some p else None in
  let Insert := OrderedCollectionInsert b AllocateNode Tree NodeOut User in
  match find_key (cmp User) l, AllocateNode s with
  | Some (q, _), _ => Insert s = Ok ((EFI_ALREADY_STARTED, out q), s)
  | None, None => Insert s = Ok ((EFI_OUT_OF_RESOURCES, None), s)
  | None, Some (p, _) =>
      exists s', Insert s = Ok ((EFI_SUCCESS, out p), s') /\
        collection Tree cmp kc F (insert_key (cmp User) (p, User) l) s' /\
        forall T', T' <> Tree -> trees s' !! T' = trees s !! T'
  end.
Proof.
  intros Hfresh HC Hlen out Insert. assert (Hf : fits ((0, User) :: l)) by (unfold fits; cbn [length]; lia).
  pose proof (insert_exit b AllocateNode Tree cmp kc F l s HC NodeOut User Hf) as Hex.
  pose proof (insert_new b AllocateNode Hfresh Tree cmp kc F l s HC NodeOut User Hf) as Hnew.
  destruct (find_key (cmp User) l) as [[q v]|]; [by apply Hex|].
  destruct (AllocateNode s) as [[p stale]|]; [by apply (Hnew p stale)|by apply Hex].
Qed.

(** C9 OrderedCollectionDelete removes a node: it returns the node's user
    structure if the caller asked for it, frees the node, and leaves a valid
    red-black tree of the other nodes in the same order; the nodes and
    structures of other trees are untouched, and no ASSERT fails. *)
Theorem Rb_delete b Tree cmp kc `{!UserCompare cmp} F l1 p u l2 s (UserStructOut : bool) :
  collection Tree cmp kc F (l1 ++ (p, u) :: l2) s -> fits (l1 ++ (p, u) :: l2) ->
  exists s', OrderedCollectionDelete b Tree p UserStructOut s = Ok (if UserStructOut then Some u else None, s') /\
    collection Tree cmp kc F (l1 ++ l2) s' /\
    forall T', T' <> Tree -> trees s' !! T' = trees s !! T'.
Proof.
  intros (t & Hz & HT & Hv & Hi) Hf. destruct (locate _ _ _ _ _ Hi) as (k & c & l & r & -> & -> & ->).
  rewrite <- Hi in Hf. apply zip_plug in Hz.
  destruct (wp_total _ _ _ (delete_ok b UserStructOut Tree cmp kc _ F s k c l p u r Hz HT Hv Hf))
    as (v & s' & E & -> & HC & HT'). by exists s'.
Qed.

(** The queries read the sorted sequence of nodes and change nothing:
    OrderedCollectionFind returns the node that matches the key or NULL,
    OrderedCollectionIsEmpty whether there is none, OrderedCollectionMin and
    OrderedCollectionMax the ends, OrderedCollectionNext and
    OrderedCollectionPrev the neighbours (NULL at the ends and of NULL), and
    OrderedCollectionUserStruct the structure of a node. *)
Theorem Rb_queries Tree cmp kc `{!KeyOrder cmp kc} F l s :
  collection Tree cmp kc F l s ->
  (forall key, OrderedCollectionFind Tree key s = Ok (addr (find_key (kc key) l), s)) /\
  OrderedCollectionIsEmpty Tree s = Ok (bool_decide (l = []), s) /\
  OrderedCollectionMin Tree s = Ok (addr (head l), s) /\
  OrderedCollectionMax Tree s = Ok (addr (last l), s) /\
  OrderedCollectionNext 0 s = Ok (0, s) /\ OrderedCollectionPrev 0 s = Ok (0, s) /\
  forall l1 p u l2, l = l1 ++ (p, u) :: l2 ->
    OrderedCollectionUserStruct p s = Ok (u, s) /\
    OrderedCollectionNext p s = Ok (addr (head l2), s) /\
    OrderedCollectionPrev p s = Ok (addr (last l1), s).
Proof.
  intros HC. pose proof HC as (t & Hz & HT & Hv & Hi). split_and!; [|..|done|done|].
  - intros key. destruct (collection_search _ _ _ _ _ _ kc key HC) as (t' & r & Hz' & HT' & _ & _ & Hr & Htmp & _).
    unfold OrderedCollectionFind. run_step (load_tree_ok _ _ _ Tree _ Hz' HT').
    rewrite (Mbind_Ok turns _ s _ s eq_refl). cbn [KeyCompare Root]. rewrite (find_search s kc key _ _ _ _ _ _ Hr).
    by rewrite Htmp.
  - unfold OrderedCollectionIsEmpty. run_step (load_tree_ok _ _ _ Tree _ Hz HT). unfold Mret. cbn [Root].
    rewrite (zip_root_0 _ _ _ _ _ Hz), <- Hi. do 2 f_equal. apply bool_decide_ext.
    split; [by intros ->|apply inorder_nil].
  - rewrite <- Hi. apply (extremum_ok _ F s t Hz SideLeft Tree cmp kc HT).
  - rewrite <- Hi. apply (extremum_ok _ F s t Hz SideRight Tree cmp kc HT).
  - intros l1 p u l2 El. rewrite El in Hi. split_and!.
    + destruct (tree_load _ F s t Hz p u) as (_ & n & En & <-); [rewrite Hi; set_solver|].
      unfold OrderedCollectionUserStruct. by run_step En.
    + by apply (Next_ok _ F s t Hz l1 p u).
    + by apply (Prev_ok _ F s t Hz l1 p u l2).
Qed.

(** OrderedCollectionFind looks at no more than 2 * log2 (n + 1)
    nodes of a collection of n: its loop ends within that many turns and the
    one that meets NULL, with the node that matches the key or NULL. *)
Theorem Rb_find_log Tree cmp kc `{!KeyOrder cmp kc} F l s key :
  collection Tree cmp kc F l s ->
  exists t, trees s !! Tree = Some t /\
    find_loop (2 * Z.to_nat (Z.log2 (Z.of_nat (length l) + 1)) + 1) (KeyCompare t) key (Root t) s =
      Ok (addr (find_key (kc key) l), s).
Proof.
  intros (t & Hz & HT & Hv & <-). eexists. split; [exact HT|]. cbn [KeyCompare Root].
  destruct Hv as [[n Hr] Ho]. pose proof (rb_log_height t n Hr).
  destruct (search_ok _ F s cmp kc key (2 * Z.to_nat (Z.log2 (Z.of_nat (length (inorder t)) + 1)) + 1) [] t 0 Hz Ho)
    as (r & Hrun & Hres); [by split|done|lia|].
  rewrite (find_search s kc key _ _ _ _ _ _ Hrun). do 2 f_equal.
  by apply (search_find _ _ _ _ _ Ho).
Qed.

(** RedBlackTreeValidate decides the contract: on any binary tree in
    memory, whatever its colours and order, it returns if and only if the
    root is black, red nodes have black children, all paths have the same
    number of black nodes and the nodes are in strictly ascending order;
    otherwise one of its ASSERTs fails. *)
Theorem Rb_validate Tree cmp kc `{!UserCompare cmp} F t s :
  zip (trees s) [] t F s -> trees s !! Tree = Some (mkTree (root t) cmp kc) ->
  Z.of_nat (height t) + 1 < 2 ^ 32 ->
  (RedBlackTreeValidate Tree s = Ok (tt, s) <-> valid cmp t) /\
  (RedBlackTreeValidate Tree s = AssertFail <-> ~ valid cmp t).
Proof.
  intros Hz HT Hh. pose proof (Validate_ok _ F s t Hz cmp kc Tree HT Hh) as H1.
  pose proof (Validate_sound _ F s t Hz cmp kc Tree HT Hh) as H2.
  destruct (Validate_decides _ F s t Hz cmp kc Tree HT Hh) as [E|E]; rewrite E in *; naive_solver.
Qed.

(** OrderedCollectionInit returns NULL and changes nothing when there
    is no memory, and otherwise the address of an empty collection, beside
    the trees there were; OrderedCollectionUninit frees the structure of an
    empty collection and nothing else, and fails its ASSERT on any other. *)
Theorem Rb_lifecycle b AllocateTree ucmp kc `{!UserCompare ucmp} s :
  nodes s !! 0 = None ->
  match AllocateTree s with
  | None => OrderedCollectionInit b AllocateTree ucmp kc s = Ok (0, s)
  | Some Tree =>
      exists s', OrderedCollectionInit b AllocateTree ucmp kc s = Ok (Tree, s') /\
        collection Tree ucmp kc (map_to_list (nodes s)) [] s' /\
        (forall T', T' <> Tree -> trees s' !! T' = trees s !! T')
  end /\
  forall Tree cmp kc' F l, collection Tree cmp kc' F l s ->
    OrderedCollectionUninit Tree s =
      if decide (l = []) then Ok (tt, mkMem (delete Tree (trees s)) (nodes s)) else AssertFail.
Proof.
  intros H0. split.
  - unfold OrderedCollectionInit. rewrite (Mbind_Ok Mget _ s s s eq_refl).
    destruct (AllocateTree s) as [Tree|]; [|done]. set (s' := mkMem _ _).
    assert (HC : collection Tree ucmp kc (map_to_list (nodes s)) [] s').
    { exists E. cbn [trees s' inorder root]. split_and!; [split; [done|]|by rewrite lookup_insert_eq|split|done].
      - cbn. split_and!; [apply NoDup_fst_map_to_list| |by rewrite list_to_map_to_list].
        intros ([? n] & Hn & Hin)%list_elem_of_fmap. cbn in Hn. subst. apply elem_of_map_to_list in Hin. congruence.
      - exists 0%nat. constructor.
      - constructor. }
    exists s'. rewrite (Mbind_Ok (Mput s') _ s tt s' eq_refl). split_and!; [|done|].
    + exact (done_ok b Tree ucmp kc _ _ s' Tree HC ltac:(done)).
    + intros T' HT'. cbn. by rewrite lookup_insert_ne.
  - intros Tree cmp kc' F l (t & Hz & HT & _ & <-). unfold OrderedCollectionUninit, OrderedCollectionIsEmpty.
    rewrite (Mbind_Ok _ _ s (root t =? 0) s)
      by (by rewrite (Mbind_Ok _ _ s _ s (load_tree_ok _ _ _ Tree _ Hz HT))).
    rewrite (zip_root_0 _ _ _ _ _ Hz). destruct (decide (t = E)) as [-> | Hne].
    + rewrite bool_decide_true by done. rewrite (Mbind_Ok (MASSERT true) _ s tt s eq_refl). unfold FreePool_tree.
      by rewrite HT.
    + rewrite bool_decide_false by done. rewrite decide_False; [done|]. by intros ?%inorder_nil.
Qed.

(** ** A collection of three numbers

    compared by subtraction, the tree structure at address 1. *)
Definition ex_tree : tree := T Black (T Red E 20 3 E) 10 5 (T Red E 30 8 E).
Definition ex_mem : MEM := mkMem {[1 := mkTree 10 Z.sub Z.sub]} (list_to_map (layout 0 ex_tree)).
Definition ex_alloc (s : MEM) : option (Z * NODE) :=
  if decide (nodes s !! 40 = None) then Some (40, mkNode 7 7 7 7 Black) else None.

Lemma ex_alloc_fresh : fresh_nodes ex_alloc.
Proof. intros s p n. unfold ex_alloc. by case_decide; [intros [= <- <-]|]. Qed.

Lemma ex_zip : zip (trees ex_mem) [] ex_tree [] ex_mem.
Proof. split; [done|]. split_and!; [|by vm_compute; set_solver|done]. repeat constructor; set_solver. Qed.

Lemma ex_valid : valid Z.sub ex_tree.
Proof. split; [exists 1%nat; repeat econstructor|]. unfold in_order. cbn. repeat constructor. Qed.

Lemma ex_collection : collection 1 Z.sub Z.sub [] [(20, 3); (10, 5); (30, 8)] ex_mem.
Proof. exists ex_tree. split_and!; [apply ex_zip|done|apply ex_valid|done]. Qed.

(** 4 is inserted between 3 and 5; the loop recolours. *)
Lemma Rb_insert_witness :
  exists s', OrderedCollectionInsert true ex_alloc 1 true 4 ex_mem = Ok ((EFI_SUCCESS, Some 40), s') /\
    collection 1 Z.sub Z.sub [] [(20, 3); (40, 4); (10, 5); (30, 8)] s' /\
    forall T', T' <> 1 -> trees s' !! T' = trees ex_mem !! T'.
Proof.
  exact (Rb_insert true ex_alloc 1 Z.sub Z.sub [] _ ex_mem true 4 ex_alloc_fresh ex_collection eq_refl).
Defined.

(** The root is removed; its successor takes its place. *)
Lemma Rb_delete_witness :
  exists s', OrderedCollectionDelete true 1 10 true ex_mem = Ok (Some 5, s') /\
    collection 1 Z.sub Z.sub [] [(20, 3); (30, 8)] s' /\
    forall T', T' <> 1 -> trees s' !! T' = trees ex_mem !! T'.
Proof.
  exact (Rb_delete true 1 Z.sub Z.sub [] [(20, 3)] 10 5 [(30, 8)] ex_mem true ex_collection eq_refl).
Defined.

Lemma Rb_queries_witness : OrderedCollectionFind 1 8 ex_mem = Ok (30, ex_mem).
Proof. exact (proj1 (Rb_queries 1 Z.sub Z.sub [] _ ex_mem ex_collection) 8). Defined.

Lemma Rb_find_log_witness :
  exists t, trees ex_mem !! 1 = Some t /\ find_loop 5 (KeyCompare t) 8 (Root t) ex_mem = Ok (30, ex_mem).
Proof. exact (Rb_find_log 1 Z.sub Z.sub [] _ ex_mem 8 ex_collection). Defined.

Lemma Rb_validate_witness : RedBlackTreeValidate 1 ex_mem = Ok (tt, ex_mem).
Proof.
  exact (proj2 (proj1 (Rb_validate 1 Z.sub Z.sub [] ex_tree ex_mem ex_zip eq_refl eq_refl)) ex_valid).
Defined.

Lemma Rb_lifecycle_witness :
  OrderedCollectionUninit 1 ex_mem = AssertFail /\
  exists s', OrderedCollectionInit true (fun _ => Some 2) Z.sub Z.sub ex_mem = Ok (2, s') /\
    collection 2 Z.sub Z.sub (map_to_list (nodes ex_mem)) [] s' /\
    (forall T', T' <> 2 -> trees s' !! T' = trees ex_mem !! T').
Proof.
  destruct (Rb_lifecycle true (fun _ => Some 2) Z.sub Z.sub ex_mem eq_refl) as [H1 H2].
  split; [exact (H2 1 Z.sub Z.sub [] _ ex_collection)|exact H1].
Defined.
