(* ===== verification/Hand.v ===== *)
(** * Hand: the handle and protocol database of the DXE core

    MdeModulePkg/Core/Dxe/Hand: Handle.c, Notify.c and Locate.c.  The
    structures live in heaps by address; a LIST_ENTRY list is the list of the
    structures linked on it, and a pointer to a link of such a list is [None]
    for the list head and [Some p] for the link inside [p].  NULL is 0.

    Parameters are the pool allocator, the driver model
    (CoreConnectController, CoreDisconnectController: they run the drivers'
    code), and CoreRestoreTpl, which runs the notification functions that are
    pending when the database lock is released.  The calls into the event
    services are recorded in [event_calls]. *)

From stdpp Require Import base option list gmap fin_maps.
From Stdlib Require Import ZArith Lia.
From S2P Require Import Prelude.

Local Open Scope Z_scope.
Local Open Scope edk_scope.

(** ** Data (Handle.h) *)

(** A GUID is its 16 bytes. *)
Definition EFI_GUID : Type := list Z.

Record OPEN_PROTOCOL_DATA := mkOpen {
  AgentHandle : Z;
  ControllerHandle : Z;
  Attributes : Z;
  OpenCount : Z
}.

Record PROTOCOL_INTERFACE := mkProt {
  Handle : Z;
  Protocol : Z;
  Interface : Z;
  OpenList : list OPEN_PROTOCOL_DATA;
  OpenListCount : Z
}.

Record PROTOCOL_NOTIFY := mkNotify {
  NotifyProtocol : Z;
  NotifyEvent : Z;
  Position : option Z
}.

Record PROTOCOL_ENTRY := mkEntry {
  ProtocolID : EFI_GUID;
  EntryProtocols : list Z;
  Notify : list Z
}.

Record IHANDLE := mkHandle {
  HandleProtocols : list Z;
  LocateRequest : Z;
  Key : Z
}.

(** What the database asks of the event services: CoreSignalEvent, and the
    ExFlag bit EVT_EXFLAG_EVENT_PROTOCOL_NOTIFICATION. *)
Inductive EVENT_CALL : Type :=
| SignalEvent (Event : Z)
| MarkNotification (Event : Z).

Record DB := mkDB {
  mProtocolDatabase : list Z;
  gHandleList : list Z;
  gHandleDatabaseKey : Z;
  mEfiLocateHandleRequest : Z;
  gProtocolDatabaseLock : bool;
  handles : gmap Z IHANDLE;
  entries : gmap Z PROTOCOL_ENTRY;
  interfaces : gmap Z PROTOCOL_INTERFACE;
  notifies : gmap Z PROTOCOL_NOTIFY;
  event_calls : list EVENT_CALL
}.

Definition upd_mProtocolDatabase (v : list Z) (s : DB) : DB :=
  mkDB v (gHandleList s) (gHandleDatabaseKey s) (mEfiLocateHandleRequest s) (gProtocolDatabaseLock s)
    (handles s) (entries s) (interfaces s) (notifies s) (event_calls s).
Definition upd_gHandleList (v : list Z) (s : DB) : DB :=
  mkDB (mProtocolDatabase s) v (gHandleDatabaseKey s) (mEfiLocateHandleRequest s) (gProtocolDatabaseLock s)
    (handles s) (entries s) (interfaces s) (notifies s) (event_calls s).
Definition upd_gHandleDatabaseKey (v : Z) (s : DB) : DB :=
  mkDB (mProtocolDatabase s) (gHandleList s) v (mEfiLocateHandleRequest s) (gProtocolDatabaseLock s)
    (handles s) (entries s) (interfaces s) (notifies s) (event_calls s).
Definition upd_mEfiLocateHandleRequest (v : Z) (s : DB) : DB :=
  mkDB (mProtocolDatabase s) (gHandleList s) (gHandleDatabaseKey s) v (gProtocolDatabaseLock s)
    (handles s) (entries s) (interfaces s) (notifies s) (event_calls s).
Definition upd_gProtocolDatabaseLock (v : bool) (s : DB) : DB :=
  mkDB (mProtocolDatabase s) (gHandleList s) (gHandleDatabaseKey s) (mEfiLocateHandleRequest s) v
    (handles s) (entries s) (interfaces s) (notifies s) (event_calls s).
Definition upd_handles (v : gmap Z IHANDLE) (s : DB) : DB :=
  mkDB (mProtocolDatabase s) (gHandleList s) (gHandleDatabaseKey s) (mEfiLocateHandleRequest s)
    (gProtocolDatabaseLock s) v (entries s) (interfaces s) (notifies s) (event_calls s).
Definition upd_entries (v : gmap Z PROTOCOL_ENTRY) (s : DB) : DB :=
  mkDB (mProtocolDatabase s) (gHandleList s) (gHandleDatabaseKey s) (mEfiLocateHandleRequest s)
    (gProtocolDatabaseLock s) (handles s) v (interfaces s) (notifies s) (event_calls s).
Definition upd_interfaces (v : gmap Z PROTOCOL_INTERFACE) (s : DB) : DB :=
  mkDB (mProtocolDatabase s) (gHandleList s) (gHandleDatabaseKey s) (mEfiLocateHandleRequest s)
    (gProtocolDatabaseLock s) (handles s) (entries s) v (notifies s) (event_calls s).
Definition upd_notifies (v : gmap Z PROTOCOL_NOTIFY) (s : DB) : DB :=
  mkDB (mProtocolDatabase s) (gHandleList s) (gHandleDatabaseKey s) (mEfiLocateHandleRequest s)
    (gProtocolDatabaseLock s) (handles s) (entries s) (interfaces s) v (event_calls s).
Definition call_event (c : EVENT_CALL) (s : DB) : DB :=
  mkDB (mProtocolDatabase s) (gHandleList s) (gHandleDatabaseKey s) (mEfiLocateHandleRequest s)
    (gProtocolDatabaseLock s) (handles s) (entries s) (interfaces s) (notifies s) (event_calls s ++ [c]).

Definition set_OpenList (l : list OPEN_PROTOCOL_DATA) (n : Z) (P : PROTOCOL_INTERFACE) :=
  mkProt (Handle P) (Protocol P) (Interface P) l n.
Definition set_Interface (v : Z) (P : PROTOCOL_INTERFACE) :=
  mkProt (Handle P) (Protocol P) v (OpenList P) (OpenListCount P).
Definition set_Position (v : option Z) (n : PROTOCOL_NOTIFY) := mkNotify (NotifyProtocol n) (NotifyEvent n) v.
Definition set_EntryProtocols (l : list Z) (e : PROTOCOL_ENTRY) := mkEntry (ProtocolID e) l (Notify e).
Definition set_Notify (l : list Z) (e : PROTOCOL_ENTRY) := mkEntry (ProtocolID e) (EntryProtocols e) l.
Definition set_HandleProtocols (l : list Z) (h : IHANDLE) := mkHandle l (LocateRequest h) (Key h).
Definition set_LocateRequest (v : Z) (h : IHANDLE) := mkHandle (HandleProtocols h) v (Key h).
Definition set_Key (v : Z) (h : IHANDLE) := mkHandle (HandleProtocols h) (LocateRequest h) v.

(** Dereferencing; a dead pointer faults. *)
Definition deref {A} (m : DB -> gmap Z A) (p : Z) : M DB A := fun s =>
  match m s !! p with Some x => Ok (x, s) | None => Fault end.
Definition handle_at : Z -> M DB IHANDLE := deref handles.
Definition entry_at : Z -> M DB PROTOCOL_ENTRY := deref entries.
Definition interface_at : Z -> M DB PROTOCOL_INTERFACE := deref interfaces.
Definition notify_at : Z -> M DB PROTOCOL_NOTIFY := deref notifies.

Definition on_handle (h : Z) (f : IHANDLE -> IHANDLE) : M DB unit :=
  let! x := handle_at h in Mmodify (fun s => upd_handles (<[h := f x]> (handles s)) s).
Definition on_entry (e : Z) (f : PROTOCOL_ENTRY -> PROTOCOL_ENTRY) : M DB unit :=
  let! x := entry_at e in Mmodify (fun s => upd_entries (<[e := f x]> (entries s)) s).
Definition on_interface (p : Z) (f : PROTOCOL_INTERFACE -> PROTOCOL_INTERFACE) : M DB unit :=
  let! x := interface_at p in Mmodify (fun s => upd_interfaces (<[p := f x]> (interfaces s)) s).
Definition on_notify (n : Z) (f : PROTOCOL_NOTIFY -> PROTOCOL_NOTIFY) : M DB unit :=
  let! x := notify_at n in Mmodify (fun s => upd_notifies (<[n := f x]> (notifies s)) s).

(** CoreFreePool *)
Definition free_handle (h : Z) : M DB unit :=
  handle_at h ;;; Mmodify (fun s => upd_handles (delete h (handles s)) s).
Definition free_interface (p : Z) : M DB unit :=
  interface_at p ;;; Mmodify (fun s => upd_interfaces (delete p (interfaces s)) s).
Definition free_notify (n : Z) : M DB unit :=
  notify_at n ;;; Mmodify (fun s => upd_notifies (delete n (notifies s)) s).

Definition HASSERT (b : bool) : M DB unit := if b then Mret tt else Mfail AssertFail.

(** RemoveEntryList *)
Definition unlink (p : Z) (l : list Z) : list Z := List.remove Z.eq_dec p l.

(** The link after and before a link of a list whose links are [l]. *)
Fixpoint link_after (l : list Z) (p : Z) : option (option Z) :=
  match l with
  | [] => None
  | x :: l' => if x =? p then Some (head l') else link_after l' p
  end.
Definition ForwardLink (l : list Z) (pos : option Z) : option (option Z) :=
  match pos with None => Some (head l) | Some p => link_after l p end.
Definition BackLink (l : list Z) (p : Z) : option (option Z) := link_after (reverse l) p.

(** ** Constants (UefiSpec.h) *)

Definition EFI_NATIVE_INTERFACE : Z := 0.
Definition EFI_OPEN_PROTOCOL_BY_HANDLE_PROTOCOL : Z := 0x01.
Definition EFI_OPEN_PROTOCOL_GET_PROTOCOL : Z := 0x02.
Definition EFI_OPEN_PROTOCOL_TEST_PROTOCOL : Z := 0x04.
Definition EFI_OPEN_PROTOCOL_BY_CHILD_CONTROLLER : Z := 0x08.
Definition EFI_OPEN_PROTOCOL_BY_DRIVER : Z := 0x10.
Definition EFI_OPEN_PROTOCOL_EXCLUSIVE : Z := 0x20.
Definition EFI_OPEN_PROTOCOL_BY_DRIVER_EXCLUSIVE : Z :=
  Z.lor EFI_OPEN_PROTOCOL_BY_DRIVER EFI_OPEN_PROTOCOL_EXCLUSIVE.
(** [(Attributes & mask) != 0] *)
Definition has_attr (a mask : Z) : bool := negb (Z.land a mask =? 0).

Inductive EFI_LOCATE_SEARCH_TYPE : Type :=
| AllHandles
| ByRegisterNotify
| ByProtocol
| OtherSearchType (n : Z).
#[global] Instance EFI_LOCATE_SEARCH_TYPE_eq_dec : EqDecision EFI_LOCATE_SEARCH_TYPE.
Proof. solve_decision. Defined.

(** ** What the database calls

    [AllocatePool s]: the address of a new block, if there is memory;
    [AllocateBuffer n s]: whether a buffer of [n] bytes can be allocated;
    [RestoreTpl]: what CoreRestoreTpl dispatches when the lock is released;
    [CoreDisconnectController ControllerHandle DriverHandle] and
    [CoreConnectController ControllerHandle]: the driver model; [fuel]: turns
    for the loops that run code from outside. *)
Class HAND_ENV := mkEnv {
  gDxeCoreImageHandle : Z;
  AllocatePool : DB -> option Z;
  AllocateBuffer : Z -> DB -> bool;
  RestoreTpl : M DB unit;
  CoreDisconnectController : Z -> Z -> M DB EFI_STATUS;
  CoreConnectController : Z -> M DB EFI_STATUS;
  fuel : nat
}.

Section Database.
Context `{Env : HAND_ENV}.

(** *** Locks *)

Definition CoreAcquireProtocolLock : M DB unit :=
  let! s := Mget in
  HASSERT (negb (gProtocolDatabaseLock s)) ;;;
  Mmodify (upd_gProtocolDatabaseLock true).

Definition CoreReleaseProtocolLock : M DB unit :=
  let! s := Mget in
  HASSERT (gProtocolDatabaseLock s) ;;;
  Mmodify (upd_gProtocolDatabaseLock false) ;;;
  RestoreTpl.

Definition ASSERT_LOCKED : M DB unit := let! s := Mget in HASSERT (gProtocolDatabaseLock s).

(** *** Finding *)

Definition CoreValidateHandle (UserHandle : Z) : M DB EFI_STATUS :=
  if UserHandle =? 0 then Mret EFI_INVALID_PARAMETER
  else
    let! s := Mget in
    Mret (if existsb (Z.eqb UserHandle) (reverse (gHandleList s)) then EFI_SUCCESS else EFI_INVALID_PARAMETER).

Fixpoint find_entry (g : EFI_GUID) (l : list Z) : M DB Z :=
  match l with
  | [] => Mret 0
  | e :: l' =>
      let! Item := entry_at e in
      if bool_decide (ProtocolID Item = g) then Mret e else find_entry g l'
  end.

Definition CoreFindProtocolEntry (g : EFI_GUID) (Create : bool) : M DB Z :=
  ASSERT_LOCKED ;;;
  let! s := Mget in
  let! ProtEntry := find_entry g (mProtocolDatabase s) in
  if (ProtEntry =? 0) && Create then
    match AllocatePool s with
    | None => Mret 0
    | Some e =>
        Mmodify (fun s => upd_entries (<[e := mkEntry g [] []]> (entries s)) s) ;;;
        Mmodify (fun s => upd_mProtocolDatabase (mProtocolDatabase s ++ [e]) s) ;;;
        Mret e
    end
  else Mret ProtEntry.

Fixpoint find_interface (ProtEntry Iface : Z) (l : list Z) : M DB Z :=
  match l with
  | [] => Mret 0
  | p :: l' =>
      let! Prot := interface_at p in
      if (Interface Prot =? Iface) && (Protocol Prot =? ProtEntry) then Mret p
      else find_interface ProtEntry Iface l'
  end.

Definition CoreFindProtocolInterface (h : Z) (g : EFI_GUID) (Iface : Z) : M DB Z :=
  ASSERT_LOCKED ;;;
  let! ProtEntry := CoreFindProtocolEntry g false in
  if negb (ProtEntry =? 0) then
    let! H := handle_at h in find_interface ProtEntry Iface (HandleProtocols H)
  else Mret 0.

Fixpoint get_interface (g : EFI_GUID) (l : list Z) : M DB Z :=
  match l with
  | [] => Mret 0
  | p :: l' =>
      let! Prot := interface_at p in
      let! ProtEntry := entry_at (Protocol Prot) in
      if bool_decide (ProtocolID ProtEntry = g) then Mret p else get_interface g l'
  end.

Definition CoreGetProtocolInterface (UserHandle : Z) (g : EFI_GUID) : M DB Z :=
  let! Status := CoreValidateHandle UserHandle in
  if EFI_ERROR Status then Mret 0
  else let! H := handle_at UserHandle in get_interface g (HandleProtocols H).

(** *** Notification (Notify.c) *)

Fixpoint signal_all (l : list Z) : M DB unit :=
  match l with
  | [] => Mret tt
  | n :: l' =>
      let! ProtNotify := notify_at n in
      Mmodify (call_event (SignalEvent (NotifyEvent ProtNotify))) ;;;
      signal_all l'
  end.

Definition CoreNotifyProtocolEntry (ProtEntry : Z) : M DB unit :=
  ASSERT_LOCKED ;;;
  let! E := entry_at ProtEntry in
  signal_all (Notify E).

(** Positions at [p] go back to [Back]. *)
Fixpoint back_up (p : Z) (Back : option Z) (l : list Z) : M DB unit :=
  match l with
  | [] => Mret tt
  | n :: l' =>
      let! ProtNotify := notify_at n in
      (if bool_decide (Position ProtNotify = Some p) then on_notify n (set_Position Back) else Mret tt) ;;;
      back_up p Back l'
  end.

Definition CoreRemoveInterfaceFromProtocol (h : Z) (g : EFI_GUID) (Iface : Z) : M DB Z :=
  ASSERT_LOCKED ;;;
  let! p := CoreFindProtocolInterface h g Iface in
  if negb (p =? 0) then
    let! Prot := interface_at p in
    let! E := entry_at (Protocol Prot) in
    match BackLink (EntryProtocols E) p with
    | None => Mfail Fault
    | Some Back =>
        back_up p Back (Notify E) ;;;
        on_entry (Protocol Prot) (fun E => set_EntryProtocols (unlink p (EntryProtocols E)) E) ;;;
        Mret p
    end
  else Mret p.

(** The status, and the registration if one is returned. *)
Definition CoreRegisterProtocolNotify (Prot : option EFI_GUID) (Event : Z) (Registration : bool) :
    M DB (EFI_STATUS * Z) :=
  match Prot with
  | None => Mret (EFI_INVALID_PARAMETER, 0)
  | Some g =>
      if (Event =? 0) || negb Registration then Mret (EFI_INVALID_PARAMETER, 0)
      else
        CoreAcquireProtocolLock ;;;
        let! ProtEntry := CoreFindProtocolEntry g true in
        let! ProtNotify :=
          (if negb (ProtEntry =? 0) then
             let! s := Mget in
             match AllocatePool s with
             | None => Mret 0
             | Some n =>
                 Mmodify (call_event (MarkNotification Event)) ;;;
                 Mmodify (fun s => upd_notifies (<[n := mkNotify ProtEntry Event None]> (notifies s)) s) ;;;
                 on_entry ProtEntry (fun E => set_Notify (Notify E ++ [n]) E) ;;;
                 Mret n
             end
           else Mret 0) in
        CoreReleaseProtocolLock ;;;
        if negb (ProtNotify =? 0) then Mret (EFI_SUCCESS, ProtNotify)
        else Mret (EFI_OUT_OF_RESOURCES, 0)
  end.

(** The first notification record of [Event] on [l]. *)
Fixpoint find_notify (Event : Z) (l : list Z) : M DB Z :=
  match l with
  | [] => Mret 0
  | n :: l' =>
      let! ProtNotify := notify_at n in
      if NotifyEvent ProtNotify =? Event then Mret n else find_notify Event l'
  end.

Fixpoint unregister_loop (Event : Z) (l : list Z) : M DB EFI_STATUS :=
  match l with
  | [] => Mret EFI_NOT_FOUND
  | e :: l' =>
      let! ProtEntry := entry_at e in
      let! n := find_notify Event (Notify ProtEntry) in
      if negb (n =? 0) then
        on_entry e (fun E => set_Notify (unlink n (Notify E)) E) ;;;
        free_notify n ;;;
        Mret EFI_SUCCESS
      else unregister_loop Event l'
  end.

Definition CoreUnregisterProtocolNotifyEvent (Event : Z) : M DB EFI_STATUS :=
  CoreAcquireProtocolLock ;;;
  let! s := Mget in
  let! Status := unregister_loop Event (mProtocolDatabase s) in
  CoreReleaseProtocolLock ;;;
  Mret Status.

Fixpoint unregister_all (turns : nat) (Event : Z) : M DB EFI_STATUS :=
  match turns with
  | O => Mfail OutOfFuel
  | S turns =>
      let! Status := CoreUnregisterProtocolNotifyEvent Event in
      if negb (EFI_ERROR Status) then unregister_all turns Event else Mret EFI_SUCCESS
  end.

Definition CoreUnregisterProtocolNotify (Event : Z) : M DB EFI_STATUS := unregister_all fuel Event.

(** *** Opening and closing *)

(** The walk over OpenList: a result with the new list, or the two flags. *)
Inductive open_scan_result : Type :=
| ScanDone (Status : EFI_STATUS) (l : list OPEN_PROTOCOL_DATA)
| ScanEnd (ByDriver Exclusive : bool).

Fixpoint open_scan (ImageHandle Controller Attr : Z) (ByDriver Exclusive : bool) (l : list OPEN_PROTOCOL_DATA) :
    open_scan_result :=
  match l with
  | [] => ScanEnd ByDriver Exclusive
  | o :: l' =>
      let ExactMatch := (AgentHandle o =? ImageHandle) && (Attributes o =? Attr) && (ControllerHandle o =? Controller) in
      let driver := has_attr (Attributes o) EFI_OPEN_PROTOCOL_BY_DRIVER in
      if driver && ExactMatch then ScanDone EFI_ALREADY_STARTED (o :: l')
      else if negb (has_attr (Attributes o) EFI_OPEN_PROTOCOL_EXCLUSIVE) && ExactMatch then
        ScanDone EFI_SUCCESS
          (mkOpen (AgentHandle o) (ControllerHandle o) (Attributes o) (wrapU 32 (OpenCount o + 1)) :: l')
      else
        match open_scan ImageHandle Controller Attr (ByDriver || driver)
                (Exclusive || has_attr (Attributes o) EFI_OPEN_PROTOCOL_EXCLUSIVE) l' with
        | ScanDone Status l'' => ScanDone Status (o :: l'')
        | r => r
        end
  end.

(** The first open by a driver. *)
Definition first_driver (l : list OPEN_PROTOCOL_DATA) : option OPEN_PROTOCOL_DATA :=
  List.find (fun o => has_attr (Attributes o) EFI_OPEN_PROTOCOL_BY_DRIVER) l.

(** [do { ... } while (Disconnect)] and [do { ... } while (ItemFound)]:
    EFI_SUCCESS when no driver is left, and [refused] of the status of the
    first disconnection that fails. *)
Fixpoint disconnect_drivers (refused : EFI_STATUS -> EFI_STATUS) (turns : nat) (UserHandle p : Z) : M DB EFI_STATUS :=
  match turns with
  | O => Mfail OutOfFuel
  | S turns =>
      let! Prot := interface_at p in
      match first_driver (OpenList Prot) with
      | None => Mret EFI_SUCCESS
      | Some OpenData =>
          CoreReleaseProtocolLock ;;;
          let! Status := CoreDisconnectController UserHandle (AgentHandle OpenData) in
          CoreAcquireProtocolLock ;;;
          if EFI_ERROR Status then Mret (refused Status) else disconnect_drivers refused turns UserHandle p
      end
  end.

(** The checks of the handles that the Attributes require. *)
Definition check_attributes (UserHandle ImageHandle Controller Attr : Z) : M DB EFI_STATUS :=
  if Attr =? EFI_OPEN_PROTOCOL_BY_CHILD_CONTROLLER then
    let! Status := CoreValidateHandle ImageHandle in
    if EFI_ERROR Status then Mret Status
    else
      let! Status := CoreValidateHandle Controller in
      if EFI_ERROR Status then Mret Status
      else if UserHandle =? Controller then Mret EFI_INVALID_PARAMETER else Mret EFI_SUCCESS
  else if (Attr =? EFI_OPEN_PROTOCOL_BY_DRIVER) || (Attr =? EFI_OPEN_PROTOCOL_BY_DRIVER_EXCLUSIVE) then
    let! Status := CoreValidateHandle ImageHandle in
    if EFI_ERROR Status then Mret Status else CoreValidateHandle Controller
  else if Attr =? EFI_OPEN_PROTOCOL_EXCLUSIVE then CoreValidateHandle ImageHandle
  else if (Attr =? EFI_OPEN_PROTOCOL_BY_HANDLE_PROTOCOL) || (Attr =? EFI_OPEN_PROTOCOL_GET_PROTOCOL) ||
          (Attr =? EFI_OPEN_PROTOCOL_TEST_PROTOCOL) then Mret EFI_SUCCESS
  else Mret EFI_INVALID_PARAMETER.

(** The second switch on Attributes. *)
Definition open_access (UserHandle p Attr : Z) (ByDriver Exclusive : bool) : M DB EFI_STATUS :=
  if Attr =? EFI_OPEN_PROTOCOL_BY_DRIVER then
    Mret (if Exclusive || ByDriver then EFI_ACCESS_DENIED else EFI_SUCCESS)
  else if (Attr =? EFI_OPEN_PROTOCOL_BY_DRIVER_EXCLUSIVE) || (Attr =? EFI_OPEN_PROTOCOL_EXCLUSIVE) then
    if Exclusive then Mret EFI_ACCESS_DENIED
    else if ByDriver then disconnect_drivers (fun _ => EFI_ACCESS_DENIED) fuel UserHandle p
    else Mret EFI_SUCCESS
  else Mret EFI_SUCCESS.

(** What happens with the lock held, up to the label Done: the status. *)
Definition open_locked (UserHandle p ImageHandle Controller Attr : Z) : M DB EFI_STATUS :=
  let! Prot := interface_at p in
  match open_scan ImageHandle Controller Attr false false (OpenList Prot) with
  | ScanDone Status l => on_interface p (fun P => set_OpenList l (OpenListCount P) P) ;;; Mret Status
  | ScanEnd ByDriver Exclusive =>
      let! Status := open_access UserHandle p Attr ByDriver Exclusive in
      if EFI_ERROR Status then Mret Status
      else if ImageHandle =? 0 then Mret EFI_SUCCESS
      else
        let! s := Mget in
        match AllocatePool s with
        | None => Mret EFI_OUT_OF_RESOURCES
        | Some _ =>
            on_interface p (fun P =>
              set_OpenList (OpenList P ++ [mkOpen ImageHandle Controller Attr 1]) (wrapU 64 (OpenListCount P + 1)) P) ;;;
            Mret EFI_SUCCESS
        end
  end.

(** The status, and the value stored in [*Interface] if one is;
    [Iface] tells whether Interface is not NULL. *)
Definition CoreOpenProtocol (UserHandle : Z) (Prot : option EFI_GUID) (Iface : bool)
    (ImageHandle Controller Attr : Z) : M DB (EFI_STATUS * option Z) :=
  match Prot with
  | None => Mret (EFI_INVALID_PARAMETER, None)
  | Some g =>
      if negb (Attr =? EFI_OPEN_PROTOCOL_TEST_PROTOCOL) && negb Iface then Mret (EFI_INVALID_PARAMETER, None)
      else
        let! Status := CoreValidateHandle UserHandle in
        if EFI_ERROR Status then Mret (Status, None)
        else
          let! Status := check_attributes UserHandle ImageHandle Controller Attr in
          if EFI_ERROR Status then Mret (Status, None)
          else
            CoreAcquireProtocolLock ;;;
            let! p := CoreGetProtocolInterface UserHandle g in
            let! Status :=
              (if p =? 0 then Mret EFI_UNSUPPORTED
               else open_locked UserHandle p ImageHandle Controller Attr) in
            let! out :=
              (if negb (Attr =? EFI_OPEN_PROTOCOL_TEST_PROTOCOL) then
                 if negb (EFI_ERROR Status) || bool_decide (Status = EFI_ALREADY_STARTED) then
                   HASSERT (negb (p =? 0)) ;;;
                   let! P := interface_at p in Mret (Some (Interface P))
                 else Mret (if bool_decide (Status = EFI_UNSUPPORTED) then Some 0 else None)
               else Mret None) in
            CoreReleaseProtocolLock ;;;
            Mret (Status, out)
  end.

Definition CoreHandleProtocol (UserHandle : Z) (Prot : option EFI_GUID) (Iface : bool) :
    M DB (EFI_STATUS * option Z) :=
  CoreOpenProtocol UserHandle Prot Iface gDxeCoreImageHandle 0 EFI_OPEN_PROTOCOL_BY_HANDLE_PROTOCOL.

Definition opened_by (Agent Controller : Z) (o : OPEN_PROTOCOL_DATA) : bool :=
  (AgentHandle o =? Agent) && (ControllerHandle o =? Controller).

(** The walk that removes the items [f]; the new list, the new count and
    whether one was removed. *)
Fixpoint remove_opens (f : OPEN_PROTOCOL_DATA -> bool) (Count : Z) (l : list OPEN_PROTOCOL_DATA) :
    list OPEN_PROTOCOL_DATA * Z * bool :=
  match l with
  | [] => ([], Count, false)
  | o :: l' =>
      if f o then let '(l'', n, _) := remove_opens f (wrapU 64 (Count - 1)) l' in (l'', n, true)
      else let '(l'', n, b) := remove_opens f Count l' in (o :: l'', n, b)
  end.

Definition CoreCloseProtocol (UserHandle : Z) (Prot : option EFI_GUID) (Agent Controller : Z) : M DB EFI_STATUS :=
  let! Status := CoreValidateHandle UserHandle in
  if EFI_ERROR Status then Mret Status
  else
    let! Status := CoreValidateHandle Agent in
    if EFI_ERROR Status then Mret Status
    else
      let! Status := (if negb (Controller =? 0) then CoreValidateHandle Controller else Mret EFI_SUCCESS) in
      if EFI_ERROR Status then Mret Status
      else
        match Prot with
        | None => Mret EFI_INVALID_PARAMETER
        | Some g =>
            CoreAcquireProtocolLock ;;;
            let! p := CoreGetProtocolInterface UserHandle g in
            let! Status :=
              (if p =? 0 then Mret EFI_NOT_FOUND
               else
                 let! P := interface_at p in
                 let '(l, n, b) := remove_opens (opened_by Agent Controller) (OpenListCount P) (OpenList P) in
                 on_interface p (set_OpenList l n) ;;;
                 Mret (if b then EFI_SUCCESS else EFI_NOT_FOUND)) in
            CoreReleaseProtocolLock ;;;
            Mret Status
        end.

(** The status and the entries returned in EntryBuffer. *)
Definition CoreOpenProtocolInformation (UserHandle : Z) (g : EFI_GUID) :
    M DB (EFI_STATUS * list OPEN_PROTOCOL_DATA) :=
  CoreAcquireProtocolLock ;;;
  let! p := CoreGetProtocolInterface UserHandle g in
  let! r :=
    (if p =? 0 then Mret (EFI_NOT_FOUND, [])
     else
       let! P := interface_at p in
       let Count := wrapU 64 (Z.of_nat (length (OpenList P))) in
       HASSERT (Count =? OpenListCount P) ;;;
       let Size := if Count =? 0 then 24 else wrapU 64 (Count * 24) in
       let! s := Mget in
       if AllocateBuffer Size s then Mret (EFI_SUCCESS, OpenList P) else Mret (EFI_OUT_OF_RESOURCES, [])) in
  CoreReleaseProtocolLock ;;;
  Mret r.

Fixpoint protocol_ids (l : list Z) : M DB (list EFI_GUID) :=
  match l with
  | [] => Mret []
  | p :: l' =>
      let! P := interface_at p in
      let! E := entry_at (Protocol P) in
      let! r := protocol_ids l' in
      Mret (ProtocolID E :: r)
  end.

(** The status, and the GUIDs in ProtocolBuffer if it is set. *)
Definition CoreProtocolsPerHandle (UserHandle : Z) (ProtocolBuffer ProtocolBufferCount : bool) :
    M DB (EFI_STATUS * list EFI_GUID) :=
  let! Status := CoreValidateHandle UserHandle in
  if EFI_ERROR Status then Mret (Status, [])
  else if negb ProtocolBuffer || negb ProtocolBufferCount then Mret (EFI_INVALID_PARAMETER, [])
  else
    CoreAcquireProtocolLock ;;;
    let! H := handle_at UserHandle in
    let ProtocolCount := wrapU 64 (Z.of_nat (length (HandleProtocols H))) in
    let! s := Mget in
    let! r :=
      (if ProtocolCount =? 0 then Mret (EFI_INVALID_PARAMETER, [])
       else if AllocateBuffer (wrapU 64 (8 * ProtocolCount)) s then
         let! Buffer := protocol_ids (HandleProtocols H) in Mret (EFI_SUCCESS, Buffer)
       else Mret (EFI_OUT_OF_RESOURCES, [])) in
    CoreReleaseProtocolLock ;;;
    Mret r.

(** *** Installing and uninstalling *)

Definition CoreDisconnectControllersUsingProtocolInterface (UserHandle p : Z) : M DB EFI_STATUS :=
  let! Status := disconnect_drivers (fun Status => Status) fuel UserHandle p in
  (if negb (EFI_ERROR Status) then
     let! P := interface_at p in
     let mask := Z.lor (Z.lor EFI_OPEN_PROTOCOL_BY_HANDLE_PROTOCOL EFI_OPEN_PROTOCOL_GET_PROTOCOL)
                   EFI_OPEN_PROTOCOL_TEST_PROTOCOL in
     let '(l, n, _) := remove_opens (fun o => has_attr (Attributes o) mask) (OpenListCount P) (OpenList P) in
     on_interface p (set_OpenList l n)
   else Mret tt) ;;;
  let! P := interface_at p in
  if EFI_ERROR Status || (0 <? OpenListCount P) then
    CoreReleaseProtocolLock ;;;
    CoreConnectController UserHandle ;;;
    CoreAcquireProtocolLock ;;;
    Mret EFI_ACCESS_DENIED
  else Mret Status.

(** [gHandleDatabaseKey++; Handle->Key = gHandleDatabaseKey] *)
Definition touch_handle (h : Z) : M DB unit :=
  Mmodify (fun s => upd_gHandleDatabaseKey (wrapU 64 (gHandleDatabaseKey s + 1)) s) ;;;
  let! s := Mget in
  on_handle h (set_Key (gHandleDatabaseKey s)).

(** The steps of installation with the lock held, up to the label Done:
    the status, [Prot] and [Handle]. *)
Definition install_locked (UserHandle : Z) (g : EFI_GUID) (Iface : Z) (NotifyList : bool) (Status : EFI_STATUS) :
    M DB (EFI_STATUS * Z * Z) :=
  let! ProtEntry := CoreFindProtocolEntry g true in
  if ProtEntry =? 0 then Mret (Status, 0, 0)
  else
    let! s := Mget in
    match AllocatePool s with
    | None => Mret (EFI_OUT_OF_RESOURCES, 0, 0)
    | Some Prot =>
        Mmodify (fun s => upd_interfaces (<[Prot := mkProt 0 0 0 [] 0]> (interfaces s)) s) ;;;
        let! r :=
          (if UserHandle =? 0 then
             let! s := Mget in
             match AllocatePool s with
             | None => Mret (EFI_OUT_OF_RESOURCES, 0)
             | Some h =>
                 Mmodify (fun s => upd_handles (<[h := mkHandle [] 0 0]> (handles s)) s) ;;;
                 touch_handle h ;;;
                 Mmodify (fun s => upd_gHandleList (gHandleList s ++ [h]) s) ;;;
                 Mret (EFI_SUCCESS, h)
             end
           else let! Status := CoreValidateHandle UserHandle in Mret (Status, UserHandle)) in
        let '(Status, h) := r in
        if EFI_ERROR Status then Mret (Status, Prot, h)
        else
          let! Existing := CoreFindProtocolInterface h g Iface in
          HASSERT (Existing =? 0) ;;;
          on_interface Prot (fun _ => mkProt h ProtEntry Iface [] 0) ;;;
          on_handle h (fun H => set_HandleProtocols (Prot :: HandleProtocols H) H) ;;;
          on_entry ProtEntry (fun E => set_EntryProtocols (EntryProtocols E ++ [Prot]) E) ;;;
          (if NotifyList then CoreNotifyProtocolEntry ProtEntry else Mret tt) ;;;
          Mret (EFI_SUCCESS, Prot, h)
    end.

(** [UserHandle] is [None] for NULL; the status and the new value of
    [*UserHandle]. *)
Definition CoreInstallProtocolInterfaceNotify (UserHandle : option Z) (Prot : option EFI_GUID)
    (InterfaceType Iface : Z) (NotifyList : bool) : M DB (EFI_STATUS * Z) :=
  match UserHandle, Prot with
  | Some Handle0, Some g =>
      if negb (InterfaceType =? EFI_NATIVE_INTERFACE) then Mret (EFI_INVALID_PARAMETER, Handle0)
      else
        let! r :=
          (if negb (Handle0 =? 0) then CoreHandleProtocol Handle0 Prot true
           else Mret (EFI_OUT_OF_RESOURCES, None)) in
        let '(Status, _) := r in
        if negb (Handle0 =? 0) && negb (EFI_ERROR Status) then Mret (EFI_INVALID_PARAMETER, Handle0)
        else
          CoreAcquireProtocolLock ;;;
          let! r := install_locked Handle0 g Iface NotifyList Status in
          let '(Status, P, h) := r in
          CoreReleaseProtocolLock ;;;
          if negb (EFI_ERROR Status) then Mret (Status, h)
          else (if negb (P =? 0) then free_interface P else Mret tt) ;;; Mret (Status, Handle0)
  | Some Handle0, None => Mret (EFI_INVALID_PARAMETER, Handle0)
  | None, _ => Mret (EFI_INVALID_PARAMETER, 0)
  end.

Definition CoreInstallProtocolInterface (UserHandle : option Z) (Prot : option EFI_GUID)
    (InterfaceType Iface : Z) : M DB (EFI_STATUS * Z) :=
  CoreInstallProtocolInterfaceNotify UserHandle Prot InterfaceType Iface true.

(** The steps of removal with the lock held, up to the label Done. *)
Definition uninstall_locked (UserHandle : Z) (g : EFI_GUID) (Iface : Z) : M DB EFI_STATUS :=
  let! p := CoreFindProtocolInterface UserHandle g Iface in
  if p =? 0 then Mret EFI_NOT_FOUND
  else
    let! Status := CoreDisconnectControllersUsingProtocolInterface UserHandle p in
    if EFI_ERROR Status then Mret Status
    else
      let! p := CoreRemoveInterfaceFromProtocol UserHandle g Iface in
      let! Status :=
        (if negb (p =? 0) then
           touch_handle UserHandle ;;;
           let! P := interface_at p in
           on_handle (Handle P) (fun H => set_HandleProtocols (unlink p (HandleProtocols H)) H) ;;;
           free_interface p ;;;
           Mret EFI_SUCCESS
         else Mret EFI_NOT_FOUND) in
      let! H := handle_at UserHandle in
      (if bool_decide (HandleProtocols H = []) then
         Mmodify (fun s => upd_gHandleList (unlink UserHandle (gHandleList s)) s) ;;;
         free_handle UserHandle
       else Mret tt) ;;;
      Mret Status.

Definition CoreUninstallProtocolInterface (UserHandle : Z) (Prot : option EFI_GUID) (Iface : Z) : M DB EFI_STATUS :=
  match Prot with
  | None => Mret EFI_INVALID_PARAMETER
  | Some g =>
      let! Status := CoreValidateHandle UserHandle in
      if EFI_ERROR Status then Mret Status
      else
        CoreAcquireProtocolLock ;;;
        let! Status := uninstall_locked UserHandle g Iface in
        CoreReleaseProtocolLock ;;;
        Mret Status
  end.

Definition reinstall_locked (UserHandle : Z) (g : EFI_GUID) (OldInterface NewInterface : Z) : M DB EFI_STATUS :=
  let! p := CoreFindProtocolInterface UserHandle g OldInterface in
  if p =? 0 then Mret EFI_NOT_FOUND
  else
    let! Status := CoreDisconnectControllersUsingProtocolInterface UserHandle p in
    if EFI_ERROR Status then Mret Status
    else
      let! p := CoreRemoveInterfaceFromProtocol UserHandle g OldInterface in
      if p =? 0 then Mret EFI_NOT_FOUND
      else
        let! P := interface_at p in
        on_interface p (set_Interface NewInterface) ;;;
        on_entry (Protocol P) (fun E => set_EntryProtocols (EntryProtocols E ++ [p]) E) ;;;
        touch_handle UserHandle ;;;
        CoreReleaseProtocolLock ;;;
        CoreConnectController UserHandle ;;;
        CoreAcquireProtocolLock ;;;
        CoreNotifyProtocolEntry (Protocol P) ;;;
        Mret EFI_SUCCESS.

Definition CoreReinstallProtocolInterface (UserHandle : Z) (Prot : option EFI_GUID)
    (OldInterface NewInterface : Z) : M DB EFI_STATUS :=
  let! Status := CoreValidateHandle UserHandle in
  if EFI_ERROR Status then Mret Status
  else
    match Prot with
    | None => Mret EFI_INVALID_PARAMETER
    | Some g =>
        CoreAcquireProtocolLock ;;;
        let! Status := reinstall_locked UserHandle g OldInterface NewInterface in
        CoreReleaseProtocolLock ;;;
        Mret Status
    end.

(** *** The database key *)

Definition CoreGetHandleDatabaseKey : M DB Z := let! s := Mget in Mret (gHandleDatabaseKey s).

Fixpoint modified_since (k : Z) (l : list Z) : M DB (list Z) :=
  match l with
  | [] => Mret []
  | h :: l' =>
      let! H := handle_at h in
      let! r := modified_since k l' in
      Mret (if k <? Key H then h :: r else r)
  end.

Fixpoint connect_all (l : list Z) : M DB unit :=
  match l with [] => Mret tt | h :: l' => CoreConnectController h ;;; connect_all l' end.

Definition CoreConnectHandlesByKey (k : Z) : M DB unit :=
  CoreAcquireProtocolLock ;;;
  let! s := Mget in
  let! HandleBuffer := modified_since k (gHandleList s) in
  if AllocateBuffer (wrapU 64 (8 * Z.of_nat (length HandleBuffer))) s then
    CoreReleaseProtocolLock ;;; connect_all HandleBuffer
  else CoreReleaseProtocolLock.

(** *** Locating (Locate.c) *)

(** LOCATE_POSITION; the Protocol field is never read. *)
Record LOCATE_POSITION := mkPosition {
  SearchKey : Z;
  PositionLink : option Z;
  ProtEntryOf : Z
}.

(** A GetNext function returns the handle (0 at the end), the interface and
    the position. *)
Definition CoreGetNextLocateAllHandles (pos : LOCATE_POSITION) : M DB (Z * Z * LOCATE_POSITION) :=
  let! s := Mget in
  match ForwardLink (gHandleList s) (PositionLink pos) with
  | None => Mfail Fault
  | Some link => Mret (default 0 link, 0, mkPosition (SearchKey pos) link (ProtEntryOf pos))
  end.

Definition CoreGetNextLocateByRegisterNotify (pos : LOCATE_POSITION) : M DB (Z * Z * LOCATE_POSITION) :=
  if negb (SearchKey pos =? 0) then
    let! ProtNotify := notify_at (SearchKey pos) in
    let! E := entry_at (NotifyProtocol ProtNotify) in
    let pos := mkPosition 0 (PositionLink pos) (ProtEntryOf pos) in
    match ForwardLink (EntryProtocols E) (Position ProtNotify) with
    | None => Mfail Fault
    | Some None => Mret (0, 0, pos)
    | Some (Some p) => let! P := interface_at p in Mret (Handle P, Interface P, pos)
    end
  else Mret (0, 0, pos).

(** The links after the position, up to the list head. *)
Fixpoint next_unmarked (Iface : Z) (l : list Z) (pos : LOCATE_POSITION) : M DB (Z * Z * LOCATE_POSITION) :=
  match l with
  | [] => Mret (0, Iface, mkPosition (SearchKey pos) None (ProtEntryOf pos))
  | p :: l' =>
      let! P := interface_at p in
      let! H := handle_at (Handle P) in
      let! s := Mget in
      if negb (LocateRequest H =? mEfiLocateHandleRequest s) then
        on_handle (Handle P) (set_LocateRequest (mEfiLocateHandleRequest s)) ;;;
        Mret (Handle P, Interface P, mkPosition (SearchKey pos) (Some p) (ProtEntryOf pos))
      else next_unmarked (Interface P) l' pos
  end.

Fixpoint links_from (l : list Z) (p : Z) : option (list Z) :=
  match l with
  | [] => None
  | x :: l' => if x =? p then Some l' else links_from l' p
  end.

Definition CoreGetNextLocateByProtocol (pos : LOCATE_POSITION) : M DB (Z * Z * LOCATE_POSITION) :=
  let! E := entry_at (ProtEntryOf pos) in
  match match PositionLink pos with
        | None => Some (EntryProtocols E)
        | Some p => links_from (EntryProtocols E) p
        end with
  | None => Mfail Fault
  | Some l => next_unmarked 0 l pos
  end.

(** [for (;;) { Handle = GetNext (&Position, &Interface); ... }]: the result
    size and the handles that fit. *)
Fixpoint locate_loop (turns : nat) (GetNext : LOCATE_POSITION -> M DB (Z * Z * LOCATE_POSITION))
    (BufferSize ResultSize : Z) (ResultBuffer : list Z) (pos : LOCATE_POSITION) : M DB (Z * list Z) :=
  match turns with
  | O => Mfail OutOfFuel
  | S turns =>
      let! r := GetNext pos in
      let '(h, _, pos) := r in
      if h =? 0 then Mret (ResultSize, ResultBuffer)
      else
        let ResultSize := wrapU 64 (ResultSize + 8) in
        locate_loop turns GetNext BufferSize ResultSize
          (if ResultSize <=? BufferSize then ResultBuffer ++ [h] else ResultBuffer) pos
  end.

(** [ProtNotify->Position = ProtNotify->Position->ForwardLink] *)
Definition advance_notify (n : Z) : M DB unit :=
  let! ProtNotify := notify_at n in
  let! E := entry_at (NotifyProtocol ProtNotify) in
  match ForwardLink (EntryProtocols E) (Position ProtNotify) with
  | None => Mfail Fault
  | Some link => on_notify n (set_Position link)
  end.

(** The switch on SearchType: the status, GetNext and the initial position. *)
Definition locate_setup (SearchType : EFI_LOCATE_SEARCH_TYPE) (Prot : option EFI_GUID) (Key_ : Z) :
    M DB (EFI_STATUS * (LOCATE_POSITION -> M DB (Z * Z * LOCATE_POSITION)) * LOCATE_POSITION) :=
  match SearchType with
  | AllHandles => Mret (EFI_SUCCESS, CoreGetNextLocateAllHandles, mkPosition Key_ None 0)
  | ByRegisterNotify =>
      Mret (if Key_ =? 0 then EFI_INVALID_PARAMETER else EFI_SUCCESS,
            CoreGetNextLocateByRegisterNotify, mkPosition Key_ None 0)
  | ByProtocol =>
      match Prot with
      | None => Mret (EFI_INVALID_PARAMETER, CoreGetNextLocateByProtocol, mkPosition Key_ None 0)
      | Some g =>
          let! ProtEntry := CoreFindProtocolEntry g false in
          Mret (if ProtEntry =? 0 then EFI_NOT_FOUND else EFI_SUCCESS,
                CoreGetNextLocateByProtocol, mkPosition Key_ None ProtEntry)
      end
  | OtherSearchType _ => Mret (EFI_INVALID_PARAMETER, CoreGetNextLocateAllHandles, mkPosition Key_ None 0)
  end.

(** [BufferSize] is [None] for NULL, [Buffer] tells whether Buffer is not
    NULL; the status, the new value of [*BufferSize] and what is stored in
    Buffer. *)
Definition CoreLocateHandle (SearchType : EFI_LOCATE_SEARCH_TYPE) (Prot : option EFI_GUID) (Key_ : Z)
    (BufferSize : option Z) (Buffer : bool) : M DB (EFI_STATUS * Z * list Z) :=
  match BufferSize with
  | None => Mret (EFI_INVALID_PARAMETER, 0, [])
  | Some BufferSize =>
      if (0 <? BufferSize) && negb Buffer then Mret (EFI_INVALID_PARAMETER, BufferSize, [])
      else
        CoreAcquireProtocolLock ;;;
        let! r := locate_setup SearchType Prot Key_ in
        let '(Status, GetNext, pos) := r in
        if EFI_ERROR Status then CoreReleaseProtocolLock ;;; Mret (Status, BufferSize, [])
        else
          Mmodify (fun s => upd_mEfiLocateHandleRequest (wrapU 64 (mEfiLocateHandleRequest s + 1)) s) ;;;
          let! s := Mget in
          let! r := locate_loop (S (size (handles s) + size (interfaces s))) GetNext BufferSize 0 [] pos in
          let '(ResultSize, ResultBuffer) := r in
          let! r :=
            (if ResultSize =? 0 then Mret (EFI_NOT_FOUND, BufferSize, ResultBuffer)
             else
               let Status := if BufferSize <? ResultSize then EFI_BUFFER_TOO_SMALL else EFI_SUCCESS in
               (if bool_decide (SearchType = ByRegisterNotify) && negb (EFI_ERROR Status) then
                  HASSERT (negb (Key_ =? 0)) ;;; advance_notify Key_
                else Mret tt) ;;;
               Mret (Status, ResultSize, ResultBuffer)) in
          CoreReleaseProtocolLock ;;;
          Mret r
  end.

(** CoreAcquireLockOrFail (&gProtocolDatabaseLock) *)
Definition CoreAcquireProtocolLockOrFail : M DB EFI_STATUS :=
  let! s := Mget in
  if gProtocolDatabaseLock s then Mret EFI_ACCESS_DENIED
  else Mmodify (upd_gProtocolDatabaseLock true) ;;; Mret EFI_SUCCESS.

(** The status and the value stored in [*Interface] if Interface is not
    NULL. *)
Definition CoreLocateProtocol (Prot : option EFI_GUID) (Registration : Z) (Iface : bool) :
    M DB (EFI_STATUS * option Z) :=
  match Prot with
  | None => Mret (EFI_INVALID_PARAMETER, None)
  | Some g =>
      if negb Iface then Mret (EFI_INVALID_PARAMETER, None)
      else
        let! Status := CoreAcquireProtocolLockOrFail in
        if EFI_ERROR Status then Mret (EFI_NOT_FOUND, Some 0)
        else
          Mmodify (fun s => upd_mEfiLocateHandleRequest (wrapU 64 (mEfiLocateHandleRequest s + 1)) s) ;;;
          let! r :=
            (if Registration =? 0 then
               let! ProtEntry := CoreFindProtocolEntry g false in
               if ProtEntry =? 0 then Mret (EFI_NOT_FOUND, Some 0)
               else
                 let! r := CoreGetNextLocateByProtocol (mkPosition Registration None ProtEntry) in
                 let '(h, i, _) := r in
                 Mret (if h =? 0 then EFI_NOT_FOUND else EFI_SUCCESS, Some i)
             else
               let! r := CoreGetNextLocateByRegisterNotify (mkPosition Registration None 0) in
               let '(h, i, _) := r in
               if h =? 0 then Mret (EFI_NOT_FOUND, Some i)
               else advance_notify Registration ;;; Mret (EFI_SUCCESS, Some i)) in
          CoreReleaseProtocolLock ;;;
          Mret r
  end.

(** The status, the count and the handles in the buffer. *)
Definition CoreLocateHandleBuffer (SearchType : EFI_LOCATE_SEARCH_TYPE) (Prot : option EFI_GUID) (Key_ : Z)
    (NumberHandles Buffer : bool) : M DB (EFI_STATUS * Z * list Z) :=
  if negb NumberHandles || negb Buffer then Mret (EFI_INVALID_PARAMETER, 0, [])
  else
    let! r := CoreLocateHandle SearchType Prot Key_ (Some 0) false in
    let '(Status, BufferSize, _) := r in
    if EFI_ERROR Status && negb (bool_decide (Status = EFI_BUFFER_TOO_SMALL)) then
      Mret (if bool_decide (Status = EFI_INVALID_PARAMETER) then Status else EFI_NOT_FOUND, 0, [])
    else
      let! s := Mget in
      if AllocateBuffer BufferSize s then
        let! r := CoreLocateHandle SearchType Prot Key_ (Some BufferSize) true in
        let '(Status, BufferSize, l) := r in
        Mret (Status, if EFI_ERROR Status then 0 else BufferSize / 8, l)
      else Mret (EFI_OUT_OF_RESOURCES, 0, []).
End Database.
