(* ===== verification/HandInv.v ===== *)
(** * HandInv: the invariant of the protocol database

    What ties the handles, the protocol entries, the interfaces and the
    notification records together, and that the elementary changes of the
    database keep it. *)

From stdpp Require Import base option list gmap fin_maps.
From Stdlib Require Import ZArith Lia.
From S2P Require Import Prelude Hand.

Local Open Scope Z_scope.
Local Open Scope edk_scope.

(** ** Views *)

Definition hprots (s : DB) (h : Z) : list Z := from_option HandleProtocols [] (handles s !! h).
Definition eprots (s : DB) (e : Z) : list Z := from_option EntryProtocols [] (entries s !! e).
Definition enots (s : DB) (e : Z) : list Z := from_option Notify [] (entries s !! e).
Definition eguid (s : DB) (e : Z) : option EFI_GUID := ProtocolID <$> entries s !! e.
(** Handle and protocol entry of an interface. *)
Definition ifc (s : DB) (p : Z) : option (Z * Z) := (fun P => (Handle P, Protocol P)) <$> interfaces s !! p.

(** [p] is an interface on handle [h] of protocol entry [e]. *)
Definition linked (s : DB) (p h e : Z) : Prop :=
  ifc s p = Some (h, e) /\ h ∈ gHandleList s /\ e ∈ mProtocolDatabase s /\ p ∈ hprots s h /\ p ∈ eprots s e.

Definition notify_ok (s : DB) (e n : Z) : Prop :=
  exists N, notifies s !! n = Some N /\ NotifyProtocol N = e /\
    forall p, Position N = Some p -> p ∈ eprots s e.

Definition counted (s : DB) : Prop :=
  forall p P, interfaces s !! p = Some P -> OpenListCount P = wrapU 64 (Z.of_nat (length (OpenList P))).

(** ** The invariant *)

Record wf (s : DB) : Prop := {
  wf_handles : NoDup (gHandleList s) /\ forall h, h ∈ gHandleList s -> is_Some (handles s !! h);
  wf_entries : NoDup (mProtocolDatabase s) /\ forall e, e ∈ mProtocolDatabase s -> is_Some (entries s !! e);
  wf_guids : forall e1 e2, e1 ∈ mProtocolDatabase s -> e2 ∈ mProtocolDatabase s -> eguid s e1 = eguid s e2 -> e1 = e2;
  wf_hprots : forall h, h ∈ gHandleList s -> NoDup (hprots s h) /\ hprots s h <> [];
  wf_eprots : forall e, e ∈ mProtocolDatabase s -> NoDup (eprots s e) /\ NoDup (enots s e);
  wf_hlink : forall h p, h ∈ gHandleList s -> p ∈ hprots s h -> exists e, linked s p h e;
  wf_elink : forall e p, e ∈ mProtocolDatabase s -> p ∈ eprots s e -> exists h, linked s p h e;
  wf_notify : forall e n, e ∈ mProtocolDatabase s -> n ∈ enots s e -> notify_ok s e n;
  wf_count : counted s;
  wf_null : handles s !! 0 = None /\ entries s !! 0 = None /\ interfaces s !! 0 = None /\ notifies s !! 0 = None
}.

(** The invariant does not depend on keys, requests, opens, the lock, the
    calls of event services and blocks that are not linked. *)
Lemma wf_ext s s' :
  wf s -> gHandleList s' = gHandleList s -> mProtocolDatabase s' = mProtocolDatabase s ->
  (forall h, HandleProtocols <$> handles s' !! h = HandleProtocols <$> handles s !! h) ->
  entries s' = entries s -> (forall p h e, linked s p h e -> ifc s' p = ifc s p) -> notifies s' = notifies s ->
  counted s' -> interfaces s' !! 0 = None -> wf s'.
Proof.
  intros [W1 W2 W3 W4 W5 W6 W7 W8 W9 W10] EL ED EH EE EI EN HC HI0.
  assert (Eh : forall h, hprots s' h = hprots s h).
  { intros h. unfold hprots. specialize (EH h). by destruct (handles s' !! h), (handles s !! h); simplify_eq/=. }
  assert (Ee : forall e, eprots s' e = eprots s e) by (intros e; unfold eprots; by rewrite EE).
  assert (En : forall e, enots s' e = enots s e) by (intros e; unfold enots; by rewrite EE).
  assert (Eg : forall e, eguid s' e = eguid s e) by (intros e; unfold eguid; by rewrite EE).
  assert (El : forall p h e, linked s p h e -> linked s' p h e).
  { intros p h e Hl. pose proof (EI p h e Hl) as E. unfold linked in *. by rewrite E, EL, ED, Eh, Ee. }
  assert (Eo : forall e n, notify_ok s' e n <-> notify_ok s e n).
  { intros e n. unfold notify_ok. by setoid_rewrite Ee; setoid_rewrite EN. }
  assert (Es : forall h, is_Some (handles s' !! h) <-> is_Some (handles s !! h)).
  { intros h. rewrite <- !(fmap_is_Some HandleProtocols). by rewrite EH. }
  constructor; rewrite ?EL, ?ED.
  - split; [apply W1|]. intros h Hh. apply Es. by apply W1.
  - by rewrite EE.
  - intros e1 e2. rewrite !Eg. apply W3.
  - intros h. rewrite Eh. apply W4.
  - intros e. rewrite Ee, En. apply W5.
  - intros h p. rewrite Eh. intros Hh Hp. destruct (W6 h p Hh Hp) as [e He]. eauto.
  - intros e p. rewrite Ee. intros He Hp. destruct (W7 e p He Hp) as [h Hh]. eauto.
  - intros e n. rewrite En, Eo. apply W8.
  - done.
  - destruct W10 as (N1 & N2 & N3 & N4). rewrite EE, EN. split_and!; try done.
    apply eq_None_not_Some. intros H%Es. by rewrite N1 in H; destruct H.
Qed.

(** ** Views of changed databases *)

Section Views.
Context (s : DB).

Lemma eprots_insert e E x s' : entries s' = <[e := E]> (entries s) ->
  eprots s' x = if decide (x = e) then EntryProtocols E else eprots s x.
Proof. intros H. unfold eprots. rewrite H. case_decide; [subst; by rewrite lookup_insert_eq|by rewrite lookup_insert_ne]. Qed.
Lemma enots_insert e E x s' : entries s' = <[e := E]> (entries s) ->
  enots s' x = if decide (x = e) then Notify E else enots s x.
Proof. intros H. unfold enots. rewrite H. case_decide; [subst; by rewrite lookup_insert_eq|by rewrite lookup_insert_ne]. Qed.
Lemma eguid_insert e E x s' : entries s' = <[e := E]> (entries s) ->
  eguid s' x = if decide (x = e) then Some (ProtocolID E) else eguid s x.
Proof. intros H. unfold eguid. rewrite H. case_decide; [subst; by rewrite lookup_insert_eq|by rewrite lookup_insert_ne]. Qed.
Lemma hprots_insert h H x s' : handles s' = <[h := H]> (handles s) ->
  hprots s' x = if decide (x = h) then HandleProtocols H else hprots s x.
Proof. intros E. unfold hprots. rewrite E. case_decide; [subst; by rewrite lookup_insert_eq|by rewrite lookup_insert_ne]. Qed.
Lemma ifc_insert p P x s' : interfaces s' = <[p := P]> (interfaces s) ->
  ifc s' x = if decide (x = p) then Some (Handle P, Protocol P) else ifc s x.
Proof. intros E. unfold ifc. rewrite E. case_decide; [subst; by rewrite lookup_insert_eq|by rewrite lookup_insert_ne]. Qed.
Lemma ifc_delete p x s' : interfaces s' = delete p (interfaces s) ->
  ifc s' x = if decide (x = p) then None else ifc s x.
Proof. intros E. unfold ifc. rewrite E. case_decide; [subst; by rewrite lookup_delete_eq|by rewrite lookup_delete_ne]. Qed.
End Views.

Section Facts.
Context (s : DB) (W : wf s).

Lemma wf_entry e : e ∈ mProtocolDatabase s -> exists E, entries s !! e = Some E.
Proof. intros He. by apply (proj2 (wf_entries s W)). Qed.
Lemma wf_handle h : h ∈ gHandleList s -> exists H, handles s !! h = Some H.
Proof. intros Hh. by apply (proj2 (wf_handles s W)). Qed.
Lemma entry_nonnull e : e ∈ mProtocolDatabase s -> e <> 0.
Proof. intros [E HE]%wf_entry ->. destruct (wf_null s W) as (_ & N & _). congruence. Qed.
Lemma handle_nonnull h : h ∈ gHandleList s -> h <> 0.
Proof. intros [H HH]%wf_handle ->. destruct (wf_null s W) as (N & _). congruence. Qed.

Lemma linked_interface p h e : linked s p h e ->
  p <> 0 /\ exists P, interfaces s !! p = Some P /\ Handle P = h /\ Protocol P = e.
Proof.
  intros [H _]. unfold ifc in H. destruct (interfaces s !! p) as [P|] eqn:EP; [|done]. simplify_eq/=.
  split; [|by exists P]. intros ->. destruct (wf_null s W) as (_ & _ & N & _). congruence.
Qed.

Lemma linked_fun p h e h' e' : linked s p h e -> linked s p h' e' -> h = h' /\ e = e'.
Proof. intros [H1 _] [H2 _]. rewrite H1 in H2. by simplify_eq. Qed.

(** A block that no handle has is in no protocol entry either. *)
Lemma unlinked_entry p :
  (forall h, h ∈ gHandleList s -> p ∉ hprots s h) -> forall e, e ∈ mProtocolDatabase s -> p ∉ eprots s e.
Proof. intros Hp e He Hin. destruct (wf_elink s W e p He Hin) as (h & _ & Hh & _ & Hph & _). by apply (Hp h). Qed.

Lemma notify_at_ok e n : e ∈ mProtocolDatabase s -> n ∈ enots s e -> n <> 0 /\ is_Some (notifies s !! n).
Proof.
  intros He Hn. destruct (wf_notify s W e n He Hn) as (N & HN & _). split; [|by exists N].
  intros ->. destruct (wf_null s W) as (_ & _ & _ & N0). congruence.
Qed.
End Facts.

(** ** Elementary changes *)

Lemma wf_new_entry s s' e g :
  wf s -> entries s !! e = None -> e <> 0 ->
  (forall x, x ∈ mProtocolDatabase s -> eguid s x <> Some g) ->
  mProtocolDatabase s' = mProtocolDatabase s ++ [e] -> entries s' = <[e := mkEntry g [] []]> (entries s) ->
  gHandleList s' = gHandleList s -> handles s' = handles s -> interfaces s' = interfaces s -> notifies s' = notifies s ->
  wf s'.
Proof.
  intros W Hfresh He0 Hg ED EE EL EH EI EN.
  assert (Hnew : e ∉ mProtocolDatabase s) by (intros [E HE]%(wf_entry s W); congruence).
  assert (Hne : forall x, x ∈ mProtocolDatabase s -> x <> e) by (intros x Hx ->; done).
  assert (Eh : forall h, hprots s' h = hprots s h) by (intros h; unfold hprots; by rewrite EH).
  assert (Ei : forall p, ifc s' p = ifc s p) by (intros p; unfold ifc; by rewrite EI).
  assert (Hin : forall x, x ∈ mProtocolDatabase s' <-> x ∈ mProtocolDatabase s \/ x = e)
    by (intros x; rewrite ED; set_solver).
  pose proof (fun x => eprots_insert s _ _ x s' EE) as Ep. pose proof (fun x => enots_insert s _ _ x s' EE) as Es.
  pose proof (fun x => eguid_insert s _ _ x s' EE) as Eg. cbn in Ep, Es, Eg.
  assert (El : forall p h x, linked s p h x -> linked s' p h x).
  { intros p h x (? & ? & ? & ? & ?). unfold linked. rewrite Ei, EL, Hin, Eh, Ep, decide_False by auto. auto. }
  constructor.
  - rewrite EL, EH. apply W.
  - split.
    + rewrite ED. apply NoDup_app. split_and!; [apply W|set_solver|apply NoDup_singleton].
    + intros x [Hx | ->]%Hin; rewrite EE; [rewrite lookup_insert_ne by (by apply not_eq_sym, Hne)|by rewrite lookup_insert_eq].
      by apply W.
  - intros e1 e2 [H1 | ->]%Hin [H2 | ->]%Hin; rewrite !Eg; repeat case_decide; try done; subst; try done.
    + by apply W.
    + intros E1. by destruct (Hg _ H1).
    + intros E1. by destruct (Hg _ H2).
  - intros h. rewrite EL, Eh. apply W.
  - intros x [Hx | ->]%Hin; rewrite Ep, Es; [rewrite !decide_False by auto; by apply W|].
    rewrite !decide_True by done. split; constructor.
  - intros h p. rewrite EL, Eh. intros Hh Hp. destruct (wf_hlink s W h p Hh Hp) as [x Hx]. eauto.
  - intros x p [Hx | ->]%Hin; rewrite Ep; [rewrite decide_False by auto|rewrite decide_True by done; set_solver].
    intros Hp. destruct (wf_elink s W x p Hx Hp) as [h Hh]. eauto.
  - intros x n [Hx | ->]%Hin; rewrite Es; [rewrite decide_False by auto|rewrite decide_True by done; set_solver].
    intros Hn. destruct (wf_notify s W x n Hx Hn) as (N & HN & HE & HP). exists N.
    rewrite EN, Ep, decide_False by auto. auto.
  - unfold counted. rewrite EI. apply W.
  - rewrite EH, EE, EI, EN, lookup_insert_ne by done. apply W.
Qed.

(** A new interface [p] on handle [h], which may be new as well. *)
Lemma wf_link s s' p h e i H' E :
  wf s -> h <> 0 -> p <> 0 -> (forall x, x ∈ gHandleList s -> p ∉ hprots s x) ->
  e ∈ mProtocolDatabase s -> entries s !! e = Some E ->
  NoDup (gHandleList s') -> (forall x, x ∈ gHandleList s' <-> x = h \/ x ∈ gHandleList s) ->
  h ∈ gHandleList s \/ hprots s h = [] -> mProtocolDatabase s' = mProtocolDatabase s ->
  handles s' = <[h := H']> (handles s) -> HandleProtocols H' = p :: hprots s h ->
  entries s' = <[e := set_EntryProtocols (EntryProtocols E ++ [p]) E]> (entries s) ->
  interfaces s' = <[p := mkProt h e i [] 0]> (interfaces s) -> notifies s' = notifies s -> wf s'.
Proof.
  intros W Hh0 Hp0 Hun He HE HnoL HinL Hh ED EH EHp EE EI EN.
  pose proof (unlinked_entry s W p Hun) as Hue.
  pose proof (fun x => eprots_insert s _ _ x s' EE) as Ep. pose proof (fun x => enots_insert s _ _ x s' EE) as Es.
  pose proof (fun x => eguid_insert s _ _ x s' EE) as Eg. pose proof (fun x => hprots_insert s _ _ x s' EH) as Eh.
  pose proof (fun x => ifc_insert s _ _ x s' EI) as Ei. cbn in Ep, Es, Eg, Ei. rewrite EHp in Eh.
  assert (Eep : EntryProtocols E = eprots s e) by (unfold eprots; by rewrite HE).
  assert (Een : Notify E = enots s e) by (unfold enots; by rewrite HE).
  assert (Eeg : Some (ProtocolID E) = eguid s e) by (unfold eguid; by rewrite HE).
  assert (Eg' : forall x, eguid s' x = eguid s x) by (intros x; rewrite Eg; case_decide; congruence).
  assert (Es' : forall x, enots s' x = enots s x) by (intros x; rewrite Es; case_decide; congruence).
  assert (Ep' : forall x q, q ∈ eprots s x -> q ∈ eprots s' x).
  { intros x q Hq. rewrite Ep. case_decide; [subst; rewrite Eep; apply elem_of_app; by left|done]. }
  assert (Eh' : forall x q, q ∈ hprots s x -> q ∈ hprots s' x).
  { intros x q Hq. rewrite Eh. case_decide; [subst; by right|done]. }
  assert (El : forall q x y, linked s q x y -> linked s' q x y).
  { intros q x y (H1 & H2 & H3 & H4 & H5). unfold linked. rewrite Ei, HinL, ED.
    rewrite decide_False by (intros ->; by apply (Hun x)). split_and!; auto. }
  assert (Hnew : linked s' p h e).
  { unfold linked. rewrite Ei, HinL, ED, Eh, Ep, !decide_True by done. split_and!; [done|by left|done|by left|].
    apply elem_of_app. right. by left. }
  constructor.
  - split; [done|]. intros x [-> | Hx]%HinL; rewrite EH; [by rewrite lookup_insert_eq|].
    destruct (decide (x = h)) as [-> | Hne]; [by rewrite lookup_insert_eq|].
    rewrite lookup_insert_ne by done. by apply W.
  - rewrite ED. split; [apply W|]. intros x Hx. rewrite EE.
    destruct (decide (x = e)) as [-> | Hne]; [by rewrite lookup_insert_eq|rewrite lookup_insert_ne by done; by apply W].
  - intros e1 e2. rewrite ED, !Eg'. apply W.
  - intros x Hx. rewrite Eh. case_decide as Hd.
    + subst x. split; [|done]. apply NoDup_cons. destruct Hh as [Hh | ->]; [split; [by apply Hun|by apply W]|].
      split; [apply not_elem_of_nil|constructor].
    + apply HinL in Hx as [-> | Hx]; [done|by apply W].
  - intros x. rewrite ED, Es', Ep. intros Hx. split; [|by apply W]. case_decide; [subst x|by apply W].
    rewrite Eep. apply NoDup_app. split_and!; [by apply W| |apply NoDup_singleton].
    intros q Hq ->%list_elem_of_singleton. by apply (Hue e).
  - intros x q Hx Hq. rewrite Eh in Hq. case_decide as Hd.
    + subst x. apply elem_of_cons in Hq as [-> | Hq]; [by exists e|]. destruct Hh as [Hh | Hh]; [|rewrite Hh in Hq; by apply not_elem_of_nil in Hq].
      destruct (wf_hlink s W h q Hh Hq) as [y Hy]. eauto.
    + apply HinL in Hx as [-> | Hx]; [done|]. destruct (wf_hlink s W x q Hx Hq) as [y Hy]. eauto.
  - intros x q Hx Hq. rewrite ED in Hx. rewrite Ep in Hq. case_decide as Hd.
    + subst x. rewrite Eep in Hq. apply elem_of_app in Hq as [Hq | Hq].
      * destruct (wf_elink s W e q Hx Hq) as [y Hy]. eauto.
      * apply list_elem_of_singleton in Hq as ->. by exists h.
    + destruct (wf_elink s W x q Hx Hq) as [y Hy]. eauto.
  - intros x n. rewrite ED, Es'. intros Hx Hn. destruct (wf_notify s W x n Hx Hn) as (N & HN & HNE & HP).
    exists N. rewrite EN. split_and!; [done|done|]. intros q Hq. by apply Ep', HP.
  - intros q Q. rewrite EI. destruct (decide (q = p)) as [-> | Hq].
    + rewrite lookup_insert_eq. by intros [= <-].
    + rewrite lookup_insert_ne by done. apply W.
  - rewrite EH, EE, EI, EN, !lookup_insert_ne by (done || (intros ->; by apply (entry_nonnull s W 0))). apply W.
Qed.

(** ** Lists of links *)

Lemma elem_of_unlink p q l : q ∈ unlink p l <-> q ∈ l /\ q <> p.
Proof.
  unfold unlink. rewrite !list_elem_of_In. split.
  - intros H%in_remove. naive_solver.
  - intros [H1 H2]. by apply in_in_remove.
Qed.
Lemma NoDup_unlink p l : NoDup l -> NoDup (unlink p l).
Proof.
  unfold unlink. induction 1 as [|x l Hx _ IH]; cbn; [constructor|]. case_match; [done|].
  constructor; [|done]. by rewrite (elem_of_unlink p x l); intros [? _].
Qed.
Lemma unlink_id p l : p ∉ l -> unlink p l = l.
Proof. intros H. apply notin_remove. by rewrite <- list_elem_of_In. Qed.
Lemma unlink_app p l1 l2 : unlink p (l1 ++ l2) = unlink p l1 ++ unlink p l2.
Proof. apply remove_app. Qed.
Lemma unlink_mid p l1 l2 : NoDup (l1 ++ p :: l2) -> unlink p (l1 ++ p :: l2) = l1 ++ l2.
Proof.
  intros (H1 & H2 & H3)%NoDup_app. apply NoDup_cons in H3 as [H3 _].
  rewrite unlink_app. cbn. destruct (Z.eq_dec p p); [|done]. rewrite unlink_id, unlink_id; [done|done|].
  intros Hp. by apply (H2 p Hp); left.
Qed.

Lemma link_after_mid l1 p l2 : p ∉ l1 -> link_after (l1 ++ p :: l2) p = Some (head l2).
Proof.
  induction l1 as [|x l1 IH]; cbn; intros Hp; [by rewrite Z.eqb_refl|].
  apply not_elem_of_cons in Hp as [Hx Hp]. rewrite (proj2 (Z.eqb_neq x p)) by congruence. by apply IH.
Qed.
Lemma BackLink_mid l1 p l2 : p ∉ l2 -> BackLink (l1 ++ p :: l2) p = Some (last l1).
Proof.
  intros Hp. unfold BackLink. rewrite reverse_app, reverse_cons, <- app_assoc. cbn.
  rewrite link_after_mid by (by rewrite elem_of_reverse). by rewrite head_reverse.
Qed.

Lemma NoDup_split (p : Z) l : p ∈ l -> NoDup l -> exists l1 l2, l = l1 ++ p :: l2 /\ p ∉ l1 /\ p ∉ l2.
Proof.
  intros (l1 & l2 & ->)%list_elem_of_split Hn. exists l1, l2. apply NoDup_app in Hn as (_ & H2 & H3).
  apply NoDup_cons in H3 as [H3 _]. split_and!; [done| |done]. intros Hp. by apply (H2 p Hp); left.
Qed.

(** The link before a link of the list is another one, or the head. *)
Lemma BackLink_ok p l : p ∈ l -> NoDup l ->
  exists Back, BackLink l p = Some Back /\ forall q, Back = Some q -> q ∈ l /\ q <> p.
Proof.
  intros Hp Hn. destruct (NoDup_split p l Hp Hn) as (l1 & l2 & -> & H1 & H2). eexists.
  split; [by apply BackLink_mid|]. intros q Hq%last_Some_elem_of. split; [apply elem_of_app; by left|by intros ->].
Qed.

(** A notification record whose position is backed up from [p]. *)
Definition back (p : Z) (Back : option Z) (N : PROTOCOL_NOTIFY) : PROTOCOL_NOTIFY :=
  if bool_decide (Position N = Some p) then set_Position Back N else N.
Definition backed (p : Z) (Back : option Z) (l : list Z) (ns ns' : gmap Z PROTOCOL_NOTIFY) : Prop :=
  forall n, ns' !! n = if decide (n ∈ l) then back p Back <$> ns !! n else ns !! n.

(** The notification records after the interface [p] left its entry. *)
Lemma backed_ok s s' p Back e E :
  wf s -> e ∈ mProtocolDatabase s -> p ∈ eprots s e -> entries s !! e = Some E ->
  BackLink (eprots s e) p = Some Back -> backed p Back (enots s e) (notifies s) (notifies s') ->
  mProtocolDatabase s' = mProtocolDatabase s ->
  (forall x, x <> e -> eprots s' x = eprots s x) -> (forall q, q ∈ eprots s e -> q <> p -> q ∈ eprots s' e) ->
  (forall x, enots s' x = enots s x) ->
  forall x n, x ∈ mProtocolDatabase s' -> n ∈ enots s' x -> notify_ok s' x n.
Proof.
  intros W He Hp HE HB Hbk ED Ep Ep' Es x n Hx Hn. rewrite ED in Hx. rewrite Es in Hn.
  destruct (BackLink_ok p (eprots s e) Hp (proj1 (wf_eprots s W e He))) as (Back' & HB' & Hback).
  rewrite HB in HB'. simplify_eq. destruct (wf_notify s W x n Hx Hn) as (N & HN & HNE & HP).
  destruct (decide (x = e)) as [-> | Hne].
  - exists (back p Back' N). rewrite Hbk, decide_True, HN by done. split; [done|]. unfold back.
    case_bool_decide as Hpos; cbn; (split; [done|]); intros q Hq.
    + destruct (Hback q Hq). by apply Ep'.
    + apply Ep'; [by apply HP|]. congruence.
  - exists N. rewrite Hbk, decide_False, HN; [|intros Hn'].
    + split_and!; [done|done|]. by rewrite Ep.
    + destruct (wf_notify s W e n He Hn') as (N' & HN' & HNE' & _). congruence.
Qed.

(** An interface [p] leaves the database; its handle goes with the last one. *)
Lemma wf_unlink s s' p h e E Back :
  wf s -> linked s p h e -> entries s !! e = Some E -> BackLink (eprots s e) p = Some Back ->
  let rest := unlink p (hprots s h) in
  NoDup (gHandleList s') -> (forall x, x ∈ gHandleList s' <-> x ∈ gHandleList s /\ (x = h -> rest <> [])) ->
  mProtocolDatabase s' = mProtocolDatabase s -> (forall x, x <> h -> handles s' !! x = handles s !! x) ->
  (rest <> [] -> exists H', handles s' !! h = Some H' /\ HandleProtocols H' = rest) ->
  entries s' = <[e := set_EntryProtocols (unlink p (EntryProtocols E)) E]> (entries s) ->
  interfaces s' = delete p (interfaces s) -> backed p Back (enots s e) (notifies s) (notifies s') -> wf s'.
Proof.
  intros W Hl HE HB rest HnoL HinL ED EH EHh EE EI EN. destruct (Hl) as (Hi & Hh & He & Hph & Hpe).
  pose proof (fun x => eprots_insert s _ _ x s' EE) as Ep. pose proof (fun x => enots_insert s _ _ x s' EE) as Es.
  pose proof (fun x => eguid_insert s _ _ x s' EE) as Eg. pose proof (fun x => ifc_delete s _ x s' EI) as Ei.
  cbn in Ep, Es, Eg, Ei.
  assert (Eep : EntryProtocols E = eprots s e) by (unfold eprots; by rewrite HE).
  assert (Een : Notify E = enots s e) by (unfold enots; by rewrite HE).
  assert (Eeg : Some (ProtocolID E) = eguid s e) by (unfold eguid; by rewrite HE).
  assert (Eg' : forall x, eguid s' x = eguid s x) by (intros x; rewrite Eg; case_decide; congruence).
  assert (Es' : forall x, enots s' x = enots s x) by (intros x; rewrite Es; case_decide; congruence).
  assert (Eh' : forall x, x ∈ gHandleList s' -> hprots s' x = unlink p (hprots s x)).
  { intros x [Hx Hr]%HinL. destruct (decide (x = h)) as [-> | Hne].
    - destruct (EHh (Hr eq_refl)) as (H' & HH' & Hr'). unfold hprots at 1. rewrite HH'. exact Hr'.
    - rewrite unlink_id; [unfold hprots; by rewrite EH|]. intros Hq.
      destruct (wf_hlink s W x p Hx Hq) as [y Hy]. by destruct (linked_fun s _ _ _ _ _ Hl Hy). }
  assert (Ep' : forall x, x ∈ mProtocolDatabase s -> eprots s' x = unlink p (eprots s x)).
  { intros x Hx. rewrite Ep. case_decide as Hd; [subst; by rewrite Eep|]. rewrite unlink_id; [done|]. intros Hq.
    destruct (wf_elink s W x p Hx Hq) as [y Hy]. by destruct (linked_fun s _ _ _ _ _ Hl Hy). }
  assert (El : forall q x y, linked s q x y -> q <> p -> linked s' q x y).
  { intros q x y (H1 & H2 & H3 & H4 & H5) Hq. assert (x ∈ gHandleList s').
    { apply HinL. split; [done|]. intros -> Hr. eapply (not_elem_of_nil q). rewrite <- Hr. by apply elem_of_unlink. }
    unfold linked. rewrite Ei, ED, Eh', Ep', decide_False, !elem_of_unlink by done. done. }
  constructor.
  - split; [done|]. intros x Hx. destruct (proj1 (HinL x) Hx) as [Hx' Hr].
    destruct (decide (x = h)) as [-> | Hne]; [destruct (EHh (Hr eq_refl)) as (H' & -> & _); done|].
    rewrite EH by done. by apply W.
  - rewrite ED. split; [apply W|]. intros x Hx. rewrite EE.
    destruct (decide (x = e)) as [-> | Hne]; [by rewrite lookup_insert_eq|rewrite lookup_insert_ne by done; by apply W].
  - intros e1 e2. rewrite ED, !Eg'. apply W.
  - intros x Hx. rewrite Eh' by done. destruct (proj1 (HinL x) Hx) as [Hx' Hr]. split; [by apply NoDup_unlink, W|].
    destruct (decide (x = h)) as [-> | Hne]; [by apply Hr|]. rewrite unlink_id; [by apply W|]. intros Hq.
    destruct (wf_hlink s W x p Hx' Hq) as [y Hy]. by destruct (linked_fun s _ _ _ _ _ Hl Hy).
  - intros x. rewrite ED, Es'. intros Hx. rewrite Ep' by done.
    destruct (wf_eprots s W x Hx). split; [by apply NoDup_unlink|done].
  - intros x q Hx. rewrite Eh', elem_of_unlink by done. intros [Hq Hqp]. destruct (proj1 (HinL x) Hx) as [Hx' _].
    destruct (wf_hlink s W x q Hx' Hq) as [y Hy]. eauto.
  - intros x q. rewrite ED. intros Hx. rewrite Ep', elem_of_unlink by done. intros [Hq Hqp].
    destruct (wf_elink s W x q Hx Hq) as [y Hy]. eauto.
  - eapply (backed_ok s s' p Back e E); try done.
    + intros x Hx. by rewrite Ep, decide_False.
    + intros q Hq Hqp. rewrite Ep' by done. by apply elem_of_unlink.
  - intros q Q. rewrite EI, lookup_delete_Some. intros [_ HQ]. by apply (wf_count s W q).
  - destruct (wf_null s W) as (N1 & N2 & N3 & N4). split_and!.
    + rewrite EH; [done|]. intros <-. by apply (handle_nonnull s W 0).
    + rewrite EE, lookup_insert_ne; [done|]. by apply (entry_nonnull s W).
    + rewrite EI. by apply lookup_delete_None; right.
    + rewrite EN, N4. by case_decide.
Qed.

(** A change of the links and notification records of one entry, which keeps
    its interfaces. *)
Lemma wf_entry_change s s' e E' :
  wf s -> e ∈ mProtocolDatabase s -> Some (ProtocolID E') = eguid s e ->
  NoDup (EntryProtocols E') -> (forall q, q ∈ EntryProtocols E' <-> q ∈ eprots s e) -> NoDup (Notify E') ->
  gHandleList s' = gHandleList s -> mProtocolDatabase s' = mProtocolDatabase s ->
  (forall h, HandleProtocols <$> handles s' !! h = HandleProtocols <$> handles s !! h) ->
  entries s' = <[e := E']> (entries s) -> (forall p, ifc s' p = ifc s p) -> counted s' ->
  notifies s' !! 0 = None ->
  (forall x n, x ∈ mProtocolDatabase s' -> n ∈ enots s' x -> notify_ok s' x n) -> wf s'.
Proof.
  intros W He HG HnoE HinE HnoN EL ED EH EE Ei HC HN0 HN.
  pose proof (fun x => eprots_insert s _ _ x s' EE) as Ep. pose proof (fun x => enots_insert s _ _ x s' EE) as Es.
  pose proof (fun x => eguid_insert s _ _ x s' EE) as Eg.
  assert (Eg' : forall x, eguid s' x = eguid s x) by (intros x; rewrite Eg; case_decide; congruence).
  assert (Ep' : forall x q, q ∈ eprots s' x <-> q ∈ eprots s x).
  { intros x q. rewrite Ep. case_decide; [subst; apply HinE|done]. }
  assert (Eh : forall h, hprots s' h = hprots s h).
  { intros h. unfold hprots. specialize (EH h). by destruct (handles s' !! h), (handles s !! h); simplify_eq/=. }
  assert (Eh' : forall h, is_Some (handles s' !! h) <-> is_Some (handles s !! h)).
  { intros h. rewrite <- !(fmap_is_Some HandleProtocols). by rewrite EH. }
  assert (El : forall q x y, linked s' q x y <-> linked s q x y).
  { intros q x y. unfold linked. by rewrite Ei, EL, ED, Eh, Ep'. }
  constructor; rewrite ?EL, ?ED.
  - split; [apply W|]. intros h Hh. apply Eh'. by apply W.
  - split; [apply W|]. intros x Hx. rewrite EE.
    destruct (decide (x = e)) as [-> | Hne]; [by rewrite lookup_insert_eq|rewrite lookup_insert_ne by done; by apply W].
  - intros e1 e2. rewrite !Eg'. apply W.
  - intros h. rewrite Eh. apply W.
  - intros x Hx. rewrite Ep, Es. case_decide; [done|]. by apply W.
  - intros h q. rewrite Eh. setoid_rewrite El. apply W.
  - intros x q Hx Hq. setoid_rewrite El. apply Ep' in Hq. by apply W.
  - intros x n Hx. apply HN. by rewrite ED.
  - done.
  - destruct (wf_null s W) as (N1 & N2 & N3 & N4). split_and!; [| | |done].
    + apply eq_None_not_Some. intros H%Eh'. rewrite N1 in H. by destruct H.
    + rewrite EE, lookup_insert_ne; [done|]. by apply (entry_nonnull s W).
    + specialize (Ei 0). unfold ifc in Ei. rewrite N3 in Ei. by destruct (interfaces s' !! 0).
Qed.

(** The interface [p] moves to the end of its entry. *)
Lemma wf_relink s s' p h e E Back :
  wf s -> linked s p h e -> entries s !! e = Some E -> BackLink (eprots s e) p = Some Back ->
  gHandleList s' = gHandleList s -> mProtocolDatabase s' = mProtocolDatabase s ->
  (forall h, HandleProtocols <$> handles s' !! h = HandleProtocols <$> handles s !! h) ->
  entries s' = <[e := set_EntryProtocols (unlink p (EntryProtocols E) ++ [p]) E]> (entries s) ->
  (forall p, ifc s' p = ifc s p) -> counted s' -> backed p Back (enots s e) (notifies s) (notifies s') -> wf s'.
Proof.
  intros W Hl HE HB EL ED EH EE Ei HC EN. destruct (Hl) as (Hi & Hh & He & Hph & Hpe).
  assert (Eep : EntryProtocols E = eprots s e) by (unfold eprots; by rewrite HE).
  assert (Een : Notify E = enots s e) by (unfold enots; by rewrite HE).
  pose proof (fun x => eprots_insert s _ _ x s' EE) as Ep. pose proof (fun x => enots_insert s _ _ x s' EE) as Es.
  cbn in Ep, Es. destruct (wf_eprots s W e He) as [HnoE HnoN].
  eapply (wf_entry_change s s' e); try done; cbn.
  - unfold eguid. by rewrite HE.
  - rewrite Eep. apply NoDup_app. split_and!; [by apply NoDup_unlink| |apply NoDup_singleton].
    intros q [_ Hq]%elem_of_unlink ->%list_elem_of_singleton. done.
  - intros q. rewrite Eep, elem_of_app, elem_of_unlink, list_elem_of_singleton.
    destruct (decide (q = p)) as [-> |]; tauto.
  - by rewrite Een.
  - rewrite EN, (proj2 (proj2 (proj2 (wf_null s W)))). by case_decide.
  - eapply (backed_ok s s' p Back e E); try done.
    + intros x Hx. by rewrite Ep, decide_False.
    + intros q Hq Hqp. rewrite Ep, decide_True, Eep, elem_of_app, elem_of_unlink by done. by left.
    + intros x. rewrite Es. case_decide; congruence.
Qed.

Lemma wf_new_notify s s' n e E Event :
  wf s -> e ∈ mProtocolDatabase s -> entries s !! e = Some E -> notifies s !! n = None -> n <> 0 ->
  gHandleList s' = gHandleList s -> mProtocolDatabase s' = mProtocolDatabase s -> handles s' = handles s ->
  entries s' = <[e := set_Notify (Notify E ++ [n]) E]> (entries s) -> interfaces s' = interfaces s ->
  notifies s' = <[n := mkNotify e Event None]> (notifies s) -> wf s'.
Proof.
  intros W He HE Hn Hn0 EL ED EH EE EI EN.
  assert (Eep : EntryProtocols E = eprots s e) by (unfold eprots; by rewrite HE).
  assert (Een : Notify E = enots s e) by (unfold enots; by rewrite HE).
  pose proof (fun x => eprots_insert s _ _ x s' EE) as Ep. pose proof (fun x => enots_insert s _ _ x s' EE) as Es.
  cbn in Ep, Es. destruct (wf_eprots s W e He) as [HnoE HnoN].
  assert (Ep' : forall x, eprots s' x = eprots s x) by (intros x; rewrite Ep; case_decide; congruence).
  assert (Hold : forall x m, x ∈ mProtocolDatabase s -> m ∈ enots s x -> notify_ok s' x m).
  { intros x m Hx Hm. destruct (wf_notify s W x m Hx Hm) as (N & HN & HNE & HP). exists N.
    rewrite EN, lookup_insert_ne by congruence. setoid_rewrite Ep'. done. }
  eapply (wf_entry_change s s' e); try done; cbn.
  - unfold eguid. by rewrite HE.
  - by rewrite Eep.
  - by rewrite Eep.
  - rewrite Een. apply NoDup_app. split_and!; [done| |apply NoDup_singleton].
    intros m Hm ->%list_elem_of_singleton. destruct (notify_at_ok s W e n He Hm) as [_ [N HN]]. congruence.
  - by rewrite EH.
  - intros p. unfold ifc. by rewrite EI.
  - unfold counted. rewrite EI. apply W.
  - rewrite EN, lookup_insert_ne by done. apply W.
  - intros x m. rewrite ED, Es. intros Hx Hm. case_decide as Hd; [subst x|by apply Hold].
    rewrite Een in Hm. apply elem_of_app in Hm as [Hm | ->%list_elem_of_singleton]; [by apply Hold|].
    exists (mkNotify e Event None). by rewrite EN, lookup_insert_eq.
Qed.

Lemma wf_del_notify s s' n e E :
  wf s -> e ∈ mProtocolDatabase s -> entries s !! e = Some E -> n ∈ enots s e ->
  gHandleList s' = gHandleList s -> mProtocolDatabase s' = mProtocolDatabase s -> handles s' = handles s ->
  entries s' = <[e := set_Notify (unlink n (Notify E)) E]> (entries s) -> interfaces s' = interfaces s ->
  notifies s' = delete n (notifies s) -> wf s'.
Proof.
  intros W He HE Hn EL ED EH EE EI EN.
  assert (Eep : EntryProtocols E = eprots s e) by (unfold eprots; by rewrite HE).
  assert (Een : Notify E = enots s e) by (unfold enots; by rewrite HE).
  pose proof (fun x => eprots_insert s _ _ x s' EE) as Ep. pose proof (fun x => enots_insert s _ _ x s' EE) as Es.
  cbn in Ep, Es. destruct (wf_eprots s W e He) as [HnoE HnoN].
  assert (Ep' : forall x, eprots s' x = eprots s x) by (intros x; rewrite Ep; case_decide; congruence).
  destruct (wf_notify s W e n He Hn) as (Nn & HNn & HNnE & _).
  eapply (wf_entry_change s s' e); try done; cbn.
  - unfold eguid. by rewrite HE.
  - by rewrite Eep.
  - by rewrite Eep.
  - rewrite Een. by apply NoDup_unlink.
  - by rewrite EH.
  - intros p. unfold ifc. by rewrite EI.
  - unfold counted. rewrite EI. apply W.
  - rewrite EN. apply lookup_delete_None. right. apply W.
  - intros x m. rewrite ED, Es. intros Hx Hm. assert (m ∈ enots s x /\ m <> n) as [Hm' Hmn].
    { case_decide as Hd; [subst x; rewrite Een in Hm; by apply elem_of_unlink|]. split; [done|]. intros ->.
      destruct (wf_notify s W x n Hx Hm) as (N & HN & HNE & _). congruence. }
    destruct (wf_notify s W x m Hx Hm') as (N & HN & HNE & HP). exists N.
    rewrite EN, lookup_delete_ne by done. setoid_rewrite Ep'. done.
Qed.

Lemma wf_set_position s s' n N link e :
  wf s -> e ∈ mProtocolDatabase s -> notifies s !! n = Some N -> NotifyProtocol N = e ->
  (forall p, link = Some p -> p ∈ eprots s e) ->
  gHandleList s' = gHandleList s -> mProtocolDatabase s' = mProtocolDatabase s -> handles s' = handles s ->
  entries s' = entries s -> interfaces s' = interfaces s -> notifies s' = <[n := set_Position link N]> (notifies s) ->
  wf s'.
Proof.
  intros W He HN HNE Hlink EL ED EH EE EI EN. destruct (wf_entry s W e He) as [E HE].
  assert (Ep : forall x, eprots s' x = eprots s x) by (intros x; unfold eprots; by rewrite EE).
  assert (Es : forall x, enots s' x = enots s x) by (intros x; unfold enots; by rewrite EE).
  assert (Eep : EntryProtocols E = eprots s e) by (unfold eprots; by rewrite HE).
  assert (Een : Notify E = enots s e) by (unfold enots; by rewrite HE).
  destruct (wf_eprots s W e He) as [HnoE HnoN].
  eapply (wf_entry_change s s' e E); try done.
  - unfold eguid. by rewrite HE.
  - by rewrite Eep.
  - by rewrite Eep.
  - by rewrite Een.
  - by rewrite EH.
  - by rewrite EE, insert_id.
  - intros p. unfold ifc. by rewrite EI.
  - unfold counted. rewrite EI. apply W.
  - rewrite EN, lookup_insert_ne; [apply W|]. intros ->. destruct (wf_null s W) as (_ & _ & _ & N0). congruence.
  - intros x m. rewrite ED, Es. intros Hx Hm. destruct (wf_notify s W x m Hx Hm) as (N' & HN' & HNE' & HP).
    destruct (decide (m = n)) as [-> | Hmn].
    + exists (set_Position link N). rewrite EN, lookup_insert_eq. rewrite HN in HN'. simplify_eq. cbn.
      split_and!; [done|done|]. by setoid_rewrite Ep.
    + exists N'. rewrite EN, lookup_insert_ne by done. by setoid_rewrite Ep.
Qed.
