(* ===== verification/HandRun.v ===== *)
(** * HandRun: runs of the database's helpers

    What the searches return, what the elementary changes leave, and the
    contract of the code that runs when the lock is released. *)

From stdpp Require Import base option list gmap fin_maps.
From Stdlib Require Import ZArith Lia.
From S2P Require Import Prelude Hand HandInv.

Local Open Scope Z_scope.
Local Open Scope edk_scope.

(** [p] is the protocol [g] on handle [h]. *)
Definition provides (s : DB) (p h : Z) (g : EFI_GUID) : Prop :=
  exists e, linked s p h e /\ eguid s e = Some g.
(** [g] is on handle [h] with the interface [i]. *)
Definition has (s : DB) (h : Z) (g : EFI_GUID) (i : Z) : Prop :=
  exists p P, provides s p h g /\ interfaces s !! p = Some P /\ Interface P = i.

(** ** Queues of registrations *)

(** The links after a position. *)
Definition after (l : list Z) (pos : option Z) : list Z :=
  match pos with None => l | Some p => default [] (links_from l p) end.
(** Interfaces that registration [n] has not seen yet. *)
Definition queue (s : DB) (n : Z) : list Z :=
  from_option (fun N => after (eprots s (NotifyProtocol N)) (Position N)) [] (notifies s !! n).
Definition registered (s : DB) (n : Z) : Prop := exists e, e ∈ mProtocolDatabase s /\ n ∈ enots s e.
(** [n] is a registration for the protocol [g]. *)
Definition registered_for (s : DB) (n : Z) (g : EFI_GUID) : Prop :=
  exists e, e ∈ mProtocolDatabase s /\ n ∈ enots s e /\ eguid s e = Some g.

Lemma links_from_mid l1 p l2 : p ∉ l1 -> links_from (l1 ++ p :: l2) p = Some l2.
Proof.
  induction l1 as [|x l1 IH]; intros Hp; cbn [links_from app]; [by rewrite Z.eqb_refl|].
  rewrite (proj2 (Z.eqb_neq x p)) by (intros ->; apply Hp; by left). apply IH. intros H. apply Hp. by right.
Qed.

Lemma links_from_split l1 p l2 : NoDup (l1 ++ p :: l2) -> links_from (l1 ++ p :: l2) p = Some l2.
Proof. intros (_ & H & _)%NoDup_app. apply links_from_mid. intros Hx. apply (H p Hx). by left. Qed.

Lemma after_snoc l pos x : NoDup l -> (forall p, pos = Some p -> p ∈ l) -> after (l ++ [x]) pos = after l pos ++ [x].
Proof.
  intros Hn Hp. destruct pos as [p|]; [|done]. destruct (NoDup_split p l (Hp p eq_refl) Hn) as (l1 & l2 & -> & H1 & _).
  rewrite <- app_assoc. cbn [app after]. by rewrite !links_from_mid.
Qed.

Lemma elem_of_after q l pos : q ∈ after l pos -> q ∈ l.
Proof.
  destruct pos as [p|]; [|done]. cbn [after]. induction l as [|x l IH]; cbn [links_from]; [done|].
  destruct (x =? p); cbn; intros H; right; [done|by apply IH].
Qed.

(** Removing a link [q], with a position at [q] moved to the link before. *)
Lemma after_unlink l pos q Back : NoDup l -> q ∈ l -> BackLink l q = Some Back -> (forall p, pos = Some p -> p ∈ l) ->
  after (unlink q l) (if bool_decide (pos = Some q) then Back else pos) = unlink q (after l pos).
Proof.
  intros Hn Hq HB Hp. destruct (NoDup_split q l Hq Hn) as (l1 & l2 & -> & H1 & H2).
  rewrite (unlink_mid _ _ _ Hn). rewrite BackLink_mid in HB by done. injection HB as <-.
  assert (Hn' : NoDup (l1 ++ l2)) by (rewrite <- (unlink_mid q) by done; by apply NoDup_unlink).
  destruct pos as [p|]; cbn [after]; [|rewrite bool_decide_false by done; by rewrite unlink_mid].
  case_bool_decide as Hpq.
  - injection Hpq as ->. rewrite links_from_mid by done. change (default [] (Some l2)) with l2. rewrite (unlink_id q l2 H2).
    destruct (last l1) as [x|] eqn:Hx; cbn [after]; [|by apply last_None in Hx as ->].
    apply last_Some in Hx as [l0 ->]. rewrite <- app_assoc in *. cbn in *. by rewrite links_from_split.
  - assert (Hpq' : p <> q) by congruence. specialize (Hp p eq_refl). apply elem_of_app in Hp as [Hin|[?|Hin]%elem_of_cons]; [|done|].
    + apply list_elem_of_split in Hin as (l3 & l4 & ->).
      assert (Ea : forall l, (l3 ++ p :: l4) ++ l = l3 ++ p :: l4 ++ l) by (intros l; by rewrite <- app_assoc).
      rewrite !Ea in *. cbn [after]. rewrite !links_from_split by done. cbn [default from_option id].
      apply NoDup_app in Hn as (_ & _ & [_ Hn]%NoDup_cons). symmetry. exact (unlink_mid q l4 l2 Hn).
    + apply list_elem_of_split in Hin as (l3 & l4 & ->). rewrite app_assoc in Hn'. cbn [after].
      rewrite app_assoc, links_from_split by done.
      replace (l1 ++ q :: l3 ++ p :: l4) with ((l1 ++ q :: l3) ++ p :: l4) in * by (by rewrite <- app_assoc).
      rewrite links_from_split by done. cbn [default from_option id]. symmetry. apply unlink_id. intros Hq4. apply H2. set_solver.
Qed.

(** ** Steps *)

Lemma deref_ok {A} (m : DB -> gmap Z A) p x s : m s !! p = Some x -> deref m p s = Ok (x, s).
Proof. intros H. unfold deref. by rewrite H. Qed.

Lemma on_handle_ok h f H s : handles s !! h = Some H ->
  on_handle h f s = Ok (tt, upd_handles (<[h := f H]> (handles s)) s).
Proof. intros E. unfold on_handle. by run_step (deref_ok handles h H s E). Qed.
Lemma on_entry_ok e f E s : entries s !! e = Some E ->
  on_entry e f s = Ok (tt, upd_entries (<[e := f E]> (entries s)) s).
Proof. intros HE. unfold on_entry. by run_step (deref_ok entries e E s HE). Qed.
Lemma on_interface_ok p f P s : interfaces s !! p = Some P ->
  on_interface p f s = Ok (tt, upd_interfaces (<[p := f P]> (interfaces s)) s).
Proof. intros E. unfold on_interface. by run_step (deref_ok interfaces p P s E). Qed.
Lemma on_notify_ok n f N s : notifies s !! n = Some N ->
  on_notify n f s = Ok (tt, upd_notifies (<[n := f N]> (notifies s)) s).
Proof. intros E. unfold on_notify. by run_step (deref_ok notifies n N s E). Qed.
Lemma free_interface_ok p P s : interfaces s !! p = Some P ->
  free_interface p s = Ok (tt, upd_interfaces (delete p (interfaces s)) s).
Proof. intros E. unfold free_interface. by run_step (deref_ok interfaces p P s E). Qed.
Lemma free_handle_ok h H s : handles s !! h = Some H ->
  free_handle h s = Ok (tt, upd_handles (delete h (handles s)) s).
Proof. intros E. unfold free_handle. by run_step (deref_ok handles h H s E). Qed.
Lemma free_notify_ok n N s : notifies s !! n = Some N ->
  free_notify n s = Ok (tt, upd_notifies (delete n (notifies s)) s).
Proof. intros E. unfold free_notify. by run_step (deref_ok notifies n N s E). Qed.

(** The same step at the head of a sequence, under [wp]. *)
Lemma wp_deref {A B} tot (m : DB -> gmap Z A) p x (k : A -> M DB B) Q s :
  m s !! p = Some x -> wp tot (k x) Q s -> wp tot (Mbind (deref m p) k) Q s.
Proof. intros H. apply wp_step. by apply deref_ok. Qed.
Section Runs.
Context `{Env : HAND_ENV}.

(** ** Searches *)

Section Searches.
Context (s : DB) (W : wf s).

Lemma validate_run h :
  CoreValidateHandle h s = Ok (if bool_decide (h ∈ gHandleList s) then EFI_SUCCESS else EFI_INVALID_PARAMETER, s).
Proof.
  unfold CoreValidateHandle. destruct (Z.eqb_spec h 0) as [-> | Hh].
  { rewrite bool_decide_false; [done|]. intros H. by apply (handle_nonnull s W 0). }
  rewrite (Mbind_Ok Mget _ s s s eq_refl). unfold Mret.
  replace (existsb (Z.eqb h) (reverse (gHandleList s))) with (bool_decide (h ∈ gHandleList s)); [done|].
  apply Bool.eq_iff_eq_true. rewrite bool_decide_eq_true, existsb_exists. split.
  - intros H. exists h. by rewrite <- list_elem_of_In, elem_of_reverse, Z.eqb_refl.
  - intros (x & Hx & ->%Z.eqb_eq). by rewrite <- list_elem_of_In, elem_of_reverse in Hx.
Qed.

Lemma find_entry_run g : forall l, (forall x, x ∈ l -> x ∈ mProtocolDatabase s) ->
  exists e, find_entry g l s = Ok (e, s) /\
    ((e ∈ l /\ eguid s e = Some g) \/ (e = 0 /\ forall x, x ∈ l -> eguid s x <> Some g)).
Proof.
  induction l as [|x l IH]; intros Hl; cbn [find_entry].
  { exists 0. split; [done|]. right. split; [done|]. intros x Hx. by apply not_elem_of_nil in Hx. }
  destruct (wf_entry s W x) as [E HE]; [apply Hl; by left|]. unfold entry_at. run_step (deref_ok entries x E s HE).
  assert (EG : eguid s x = Some (ProtocolID E)) by (unfold eguid; by rewrite HE). case_bool_decide as Hg.
  - exists x. split; [done|]. left. split; [by left|]. by rewrite EG, Hg.
  - destruct IH as (e & He & Hspec); [intros y Hy; apply Hl; by right|]. exists e. split; [done|].
    destruct Hspec as [[H1 H2]|[H1 H2]]; [left; split; [by right|done]|right; split; [done|]].
    intros y [-> | Hy]%elem_of_cons; [congruence|auto].
Qed.

(** The entry of a protocol, 0 if there is none. *)
Definition entry_spec (g : EFI_GUID) (e : Z) : Prop :=
  (e ∈ mProtocolDatabase s /\ eguid s e = Some g) \/
  (e = 0 /\ forall x, x ∈ mProtocolDatabase s -> eguid s x <> Some g).

Lemma entry_run g : gProtocolDatabaseLock s = true ->
  exists e, CoreFindProtocolEntry g false s = Ok (e, s) /\ entry_spec g e.
Proof.
  intros Hlock. destruct (find_entry_run g (mProtocolDatabase s) ltac:(done)) as (e & He & Hspec).
  exists e. split; [|done]. unfold CoreFindProtocolEntry, ASSERT_LOCKED.
  rewrite (Mbind_Ok _ _ s tt s) by (by rewrite (Mbind_Ok Mget _ s s s eq_refl), Hlock).
  rewrite (Mbind_Ok Mget _ s s s eq_refl). run_step He. by rewrite andb_false_r.
Qed.

Lemma find_interface_run e i h : forall l, (forall p, p ∈ l -> exists y, linked s p h y) ->
  exists p, find_interface e i l s = Ok (p, s) /\
    ((p ∈ l /\ exists P, interfaces s !! p = Some P /\ Protocol P = e /\ Interface P = i) \/
     (p = 0 /\ forall q P, q ∈ l -> interfaces s !! q = Some P -> Protocol P = e -> Interface P <> i)).
Proof.
  induction l as [|q l IH]; intros Hl; cbn [find_interface].
  { exists 0. split; [done|]. right. split; [done|]. intros x P Hx. by apply not_elem_of_nil in Hx. }
  destruct (Hl q) as [y Hy]; [by left|]. destruct (linked_interface s W q h y Hy) as (Hq0 & P & HP & _ & _).
  unfold interface_at. run_step (deref_ok interfaces q P s HP).
  destruct (Z.eqb_spec (Interface P) i) as [Ei|Ni]; destruct (Z.eqb_spec (Protocol P) e) as [Ee|Ne]; cbn [andb].
  1: { exists q. split; [done|]. left. split; [by left|]. by exists P. }
  all: destruct IH as (p & Hp & Hspec); [intros z Hz; apply Hl; by right|]; exists p; split; [done|];
    (destruct Hspec as [[H1 H2]|[H1 H2]]; [left; split; [by right|done]|right; split; [done|]]);
    intros z Q [-> | Hz]%elem_of_cons HQ HQe; [congruence|by eapply H2].
Qed.

(** The protocol [g] on handle [h] with interface [i], 0 if there is none. *)
Definition interface_spec (h : Z) (g : EFI_GUID) (i p : Z) : Prop :=
  (provides s p h g /\ exists P, interfaces s !! p = Some P /\ Interface P = i) \/ (p = 0 /\ ~ has s h g i).

Lemma interface_run h g i : gProtocolDatabaseLock s = true -> h ∈ gHandleList s ->
  exists p, CoreFindProtocolInterface h g i s = Ok (p, s) /\ interface_spec h g i p.
Proof.
  intros Hlock Hh. destruct (entry_run g Hlock) as (e & He & Hspec). unfold CoreFindProtocolInterface, ASSERT_LOCKED.
  rewrite (Mbind_Ok _ _ s tt s) by (by rewrite (Mbind_Ok Mget _ s s s eq_refl), Hlock). run_step He.
  destruct Hspec as [[He1 He2]|[-> Hnone]].
  - rewrite (proj2 (Z.eqb_neq e 0)) by (by apply (entry_nonnull s W)). cbn [negb].
    destruct (wf_handle s W h Hh) as [H HH]. unfold handle_at. run_step (deref_ok handles h H s HH).
    assert (EH : HandleProtocols H = hprots s h) by (unfold hprots; by rewrite HH). rewrite EH.
    destruct (find_interface_run e i h (hprots s h)) as (p & Hp & Hs); [intros p Hp; by apply W|].
    exists p. split; [done|]. destruct Hs as [(Hp1 & P & HP & HPe & HPi)|[-> Hno]].
    + left. split; [|by exists P]. destruct (wf_hlink s W h p Hh Hp1) as [y Hy]. exists e.
      destruct (linked_interface s W p h y Hy) as (_ & P' & HP' & _ & HPy). by simplify_eq.
    + right. split; [done|]. intros (p & P & (y & Hy & Hg) & HP & HPi).
      destruct (linked_interface s W p h y Hy) as (_ & P' & HP' & _ & HPy).
      assert (y = e) as -> by (apply (wf_guids s W); [by destruct Hy as (_ & _ & ? & _)|done|congruence]).
      simplify_eq. apply (Hno p P); [by destruct Hy as (_ & _ & _ & ? & _)|done|done|done].
  - exists 0. split; [done|]. right. split; [done|]. intros (p & P & (y & Hy & Hg) & _).
    apply (Hnone y); [by destruct Hy as (_ & _ & ? & _)|done].
Qed.

Lemma get_interface_run g h : forall l, (forall p, p ∈ l -> exists y, linked s p h y) ->
  exists p, get_interface g l s = Ok (p, s) /\
    ((p ∈ l /\ provides s p h g) \/ (p = 0 /\ forall q, q ∈ l -> ~ provides s q h g)).
Proof.
  induction l as [|q l IH]; intros Hl; cbn [get_interface].
  { exists 0. split; [done|]. right. split; [done|]. intros x Hx. by apply not_elem_of_nil in Hx. }
  destruct (Hl q) as [y Hy]; [by left|]. destruct (linked_interface s W q h y Hy) as (Hq0 & P & HP & _ & HPy).
  unfold interface_at. run_step (deref_ok interfaces q P s HP).
  destruct (wf_entry s W y) as [E HE]; [by destruct Hy as (_ & _ & ? & _)|]. rewrite HPy.
  unfold entry_at. run_step (deref_ok entries y E s HE).
  assert (EG : eguid s y = Some (ProtocolID E)) by (unfold eguid; by rewrite HE). case_bool_decide as Hg.
  - exists q. split; [done|]. left. split; [by left|]. exists y. by rewrite EG, Hg.
  - destruct IH as (p & Hp & Hspec); [intros z Hz; apply Hl; by right|]. exists p. split; [done|].
    destruct Hspec as [[H1 H2]|[H1 H2]]; [left; split; [by right|done]|right; split; [done|]].
    intros z [-> | Hz]%elem_of_cons; [|auto]. intros (y' & Hy' & Hg').
    destruct (linked_fun s _ _ _ _ _ Hy Hy') as [_ <-]. congruence.
Qed.

(** The protocol [g] on handle [h], 0 if there is none. *)
Definition protocol_spec (h : Z) (g : EFI_GUID) (p : Z) : Prop :=
  provides s p h g \/ (p = 0 /\ forall q, ~ provides s q h g).

Lemma protocol_run h g : exists p, CoreGetProtocolInterface h g s = Ok (p, s) /\ protocol_spec h g p.
Proof.
  unfold CoreGetProtocolInterface. run_step (validate_run h). case_bool_decide as Hh; cbn [EFI_ERROR].
  - destruct (wf_handle s W h Hh) as [H HH]. unfold handle_at. run_step (deref_ok handles h H s HH).
    assert (EH : HandleProtocols H = hprots s h) by (unfold hprots; by rewrite HH). rewrite EH.
    destruct (get_interface_run g h (hprots s h)) as (p & Hp & Hs); [intros p Hp; by apply W|].
    exists p. split; [done|]. destruct Hs as [[_ Hs]|[-> Hs]]; [by left|right]. split; [done|].
    intros q Hq. apply (Hs q); [|done]. by destruct Hq as (y & (_ & _ & _ & ? & _) & _).
  - exists 0. split; [done|]. right. split; [done|]. intros q (y & (_ & ? & _) & _). done.
Qed.
End Searches.

(** ** What the services keep

    A block that is on no handle belongs to the function that allocated it;
    protocol entries live for ever. *)
Definition orphan (s : DB) (p : Z) (P : PROTOCOL_INTERFACE) : Prop :=
  interfaces s !! p = Some P /\ forall h, h ∈ gHandleList s -> p ∉ hprots s h.
Definition orphans_kept (s s' : DB) : Prop := forall p P, orphan s p P -> orphan s' p P.
Definition entries_kept (s s' : DB) : Prop :=
  forall e, e ∈ mProtocolDatabase s -> e ∈ mProtocolDatabase s' /\ eguid s' e = eguid s e.

(** The database goes from [s] to a state [s'] with the lock [b]. *)
Definition goes (b : bool) (s s' : DB) : Prop :=
  wf s' /\ gProtocolDatabaseLock s' = b /\ orphans_kept s s' /\ entries_kept s s'.

Lemma goes_refl s : wf s -> goes (gProtocolDatabaseLock s) s s.
Proof. intros W. split_and!; [done|done|by intros p P|by intros e He]. Qed.
Lemma goes_trans b b' s1 s2 s3 : goes b s1 s2 -> goes b' s2 s3 -> goes b' s1 s3.
Proof.
  intros (_ & _ & O1 & E1) (W & L & O2 & E2). split_and!; [done|done|by intros p P H; apply O2, O1|].
  intros e He. destruct (E1 e He) as [He2 G1]. destruct (E2 e He2) as [He3 G2]. split; [done|congruence].
Qed.

(** Changes of the lock, the counters and the calls of event services. *)
Definition same (s s' : DB) : Prop :=
  gHandleList s' = gHandleList s /\ mProtocolDatabase s' = mProtocolDatabase s /\ handles s' = handles s /\
  entries s' = entries s /\ interfaces s' = interfaces s /\ notifies s' = notifies s.

Lemma same_goes s s' : wf s -> same s s' -> goes (gProtocolDatabaseLock s') s s'.
Proof.
  intros W (EL & ED & EH & EE & EI & EN). split_and!; [|done|..].
  - eapply wf_ext; [exact W|done|done|by rewrite EH|done| |done| |by rewrite EI; apply W].
    + intros p h e _. unfold ifc. by rewrite EI.
    + unfold counted. rewrite EI. apply W.
  - intros p P. unfold orphan, hprots. by rewrite EI, EL, EH.
  - intros e. unfold eguid. by rewrite ED, EE.
Qed.

(** The contract of the code that runs while the lock is not held: besides
    keeping the database well formed, it lets the interfaces [stays] on their
    handles and never installs the protocols [never]. *)
Definition moves (stays : Z -> Prop) (never : Z -> EFI_GUID -> Z -> Prop) (b : bool) (s s' : DB) : Prop :=
  goes b s s' /\
  (forall p h e P, stays p -> linked s p h e -> interfaces s !! p = Some P ->
     linked s' p h e /\ exists P', interfaces s' !! p = Some P' /\ Interface P' = Interface P) /\
  (forall h g i, never h g i -> ~ has s h g i -> ~ has s' h g i).
Definition outside (stays : Z -> Prop) (never : Z -> EFI_GUID -> Z -> Prop) : DB -> DB -> Prop :=
  moves stays never false.

Class HAND_LAWS (tot : bool) (stays : Z -> Prop) (never : Z -> EFI_GUID -> Z -> Prop) : Prop := {
  alloc_fresh s p : AllocatePool s = Some p ->
    p <> 0 /\ handles s !! p = None /\ entries s !! p = None /\ interfaces s !! p = None /\ notifies s !! p = None;
  restore_ok s : wf s -> gProtocolDatabaseLock s = false -> wp tot RestoreTpl (fun _ => outside stays never s) s;
  disconnect_ok h a s : wf s -> gProtocolDatabaseLock s = false ->
    wp tot (CoreDisconnectController h a) (fun _ => outside stays never s) s;
  connect_ok h s : wf s -> gProtocolDatabaseLock s = false ->
    wp tot (CoreConnectController h) (fun _ => outside stays never s) s
}.

Lemma moves_goes stays never b s s' : moves stays never b s s' -> goes b s s'.
Proof. by intros [H _]. Qed.

Lemma moves_trans stays never b b' s1 s2 s3 :
  moves stays never b s1 s2 -> moves stays never b' s2 s3 -> moves stays never b' s1 s3.
Proof.
  intros (G1 & S1 & N1) (G2 & S2 & N2). split_and!; [by eapply goes_trans| |].
  - intros p h e P Hp Hl HP. destruct (S1 p h e P Hp Hl HP) as (Hl2 & P2 & HP2 & E2).
    destruct (S2 p h e P2 Hp Hl2 HP2) as (Hl3 & P3 & HP3 & E3). split; [done|]. exists P3. split; [done|congruence].
  - intros h g i Hn H1. by apply N2, N1.
Qed.

Lemma same_moves stays never s s' : wf s -> same s s' -> moves stays never (gProtocolDatabaseLock s') s s'.
Proof.
  intros W Hs. split; [by apply same_goes|]. destruct Hs as (EL & ED & EH & EE & EI & EN).
  unfold has, provides, linked, ifc, hprots, eprots, eguid. rewrite EL, ED, EH, EE, EI. split; [|done].
  intros p h e P _ Hl HP. split; [done|]. by exists P.
Qed.

Lemma moves_refl stays never s : wf s -> moves stays never (gProtocolDatabaseLock s) s s.
Proof. intros W. by apply same_moves. Qed.

(** ** Locks *)

Section Laws.
Context (tot : bool) (stays : Z -> Prop) (never : Z -> EFI_GUID -> Z -> Prop) `{!HAND_LAWS tot stays never}.

Lemma wp_acquire {B} (k : unit -> M DB B) Q s :
  gProtocolDatabaseLock s = false -> wp tot (k tt) Q (upd_gProtocolDatabaseLock true s) ->
  wp tot (Mbind CoreAcquireProtocolLock k) Q s.
Proof.
  intros Hl. apply wp_step. unfold CoreAcquireProtocolLock. by rewrite (Mbind_Ok Mget _ s s s eq_refl), Hl.
Qed.

Lemma release_ok s : wf s -> gProtocolDatabaseLock s = true ->
  wp tot CoreReleaseProtocolLock (fun _ => outside stays never s) s.
Proof.
  intros W Hl. unfold CoreReleaseProtocolLock. apply wp_get. rewrite Hl. apply wp_modify.
  apply (restore_ok (upd_gProtocolDatabaseLock false s)); [|done].
  by apply (same_goes s (upd_gProtocolDatabaseLock false s) W).
Qed.

Lemma wp_release {B} (k : unit -> M DB B) Q s :
  wf s -> gProtocolDatabaseLock s = true ->
  (forall s', outside stays never s s' -> wp tot (k tt) Q s') -> wp tot (Mbind CoreReleaseProtocolLock k) Q s.
Proof. intros W Hl HQ. eapply wp_seq; [by apply release_ok|]. intros [] s' H. by apply HQ. Qed.

Lemma locked_wf s : wf s -> wf (upd_gProtocolDatabaseLock true s).
Proof. intros W. by apply (same_goes s (upd_gProtocolDatabaseLock true s) W). Qed.
End Laws.
End Runs.
