(* ===== verification/HandSafe.v ===== *)
(** * HandSafe: the services keep the invariant

    Every service of the protocol database, from any well formed state and
    with any allocator, returns with a well formed database and the lock
    released, provided that the code it runs without the lock does. *)

From stdpp Require Import base option list gmap fin_maps.
From Stdlib Require Import ZArith Lia.
From S2P Require Import Prelude Hand HandInv HandRun.

Local Open Scope Z_scope.
Local Open Scope edk_scope.

(** Interface [i] at [p] is on handle [h] of entry [e]. *)
Definition pinned (p h e i : Z) (s : DB) : Prop :=
  linked s p h e /\ exists P, interfaces s !! p = Some P /\ Interface P = i.

Lemma moves_pinned stays never b s s' p h e i :
  moves stays never b s s' -> stays p -> pinned p h e i s -> pinned p h e i s'.
Proof.
  intros (_ & S & _) Hp (Hl & P & HP & Hi). destruct (S p h e P Hp Hl HP) as (Hl' & P' & HP' & Hi').
  split; [done|]. exists P'. split; [done|congruence].
Qed.

Lemma pinned_lock p h e i b s : pinned p h e i s -> pinned p h e i (upd_gProtocolDatabaseLock b s).
Proof. done. Qed.

(** ** Changes of the opens *)

Section Opens.
Context (s : DB) (W : wf s) (p h e : Z) (Hl : linked s p h e) (P : PROTOCOL_INTERFACE) (HP : interfaces s !! p = Some P).
Context (l : list OPEN_PROTOCOL_DATA) (n : Z) (Hn : n = wrapU 64 (Z.of_nat (length l))).
Let s' := upd_interfaces (<[p := set_OpenList l n P]> (interfaces s)) s.

Lemma opens_ifc q : ifc s' q = ifc s q.
Proof.
  rewrite (ifc_insert s p _ q s' eq_refl). case_decide; [subst|done]. unfold ifc. by rewrite HP.
Qed.

Lemma opens_goes : goes (gProtocolDatabaseLock s) s s'.
Proof.
  split_and!; [|done| |by intros x Hx].
  - eapply wf_ext; [exact W|done|done|done|done| |done| |].
    + intros q x y _. apply opens_ifc.
    + intros q Q. cbn. destruct (decide (q = p)) as [-> | Hq].
      * rewrite lookup_insert_eq. by intros [= <-].
      * rewrite lookup_insert_ne by done. apply W.
    + cbn. rewrite lookup_insert_ne; [apply W|]. by apply (linked_interface s W p h e).
  - intros q Q [HQ Hno]. split; [|done]. cbn. rewrite lookup_insert_ne; [done|]. intros <-.
    destruct Hl as (_ & Hh & _ & Hp & _). by apply (Hno h).
Qed.

Lemma opens_linked_inv q x y : linked s' q x y -> linked s q x y.
Proof. intros (H1 & H2). split; [by rewrite <- opens_ifc|exact H2]. Qed.

Lemma opens_linked q x y : linked s q x y -> linked s' q x y.
Proof. intros (H1 & H2). split; [by rewrite opens_ifc|exact H2]. Qed.

Lemma opens_pinned q x y i : pinned q x y i s -> pinned q x y i s'.
Proof.
  intros (H1 & Q & HQ & Hi). split; [by apply opens_linked|]. destruct (decide (q = p)) as [-> | Hq].
  - exists (set_OpenList l n P). cbn. rewrite lookup_insert_eq. simplify_eq. done.
  - exists Q. cbn. by rewrite lookup_insert_ne.
Qed.

Lemma opens_moves stays never : moves stays never (gProtocolDatabaseLock s) s s'.
Proof.
  split_and!; [apply opens_goes| |].
  - intros q x y Q _ Hq HQ. destruct (opens_pinned q x y (Interface Q)) as (H1 & H2); [|done].
    split; [done|]. by exists Q.
  - intros x g i _ Hno (q & Q & (y & Hy & Hg) & HQ & Hi). apply Hno. apply opens_linked_inv in Hy.
    cbn in HQ. destruct (decide (q = p)) as [-> | Hq].
    + rewrite lookup_insert_eq in HQ. exists p, P. simplify_eq. split; [by exists y|done].
    + rewrite lookup_insert_ne in HQ by done. exists q, Q. split; [by exists y|done].
Qed.
End Opens.

Lemma wrapU_of_nat_pred n : wrapU 64 (wrapU 64 (Z.of_nat (S n)) - 1) = wrapU 64 (Z.of_nat n).
Proof. unfold wrapU. rewrite Zminus_mod_idemp_l. f_equal. lia. Qed.

(** The walks over OpenList keep its count. *)
Lemma remove_opens_ok f : forall l,
  let '(l', n, b) := remove_opens f (wrapU 64 (Z.of_nat (length l))) l in
  l' = filter (fun o => f o = false) l /\ n = wrapU 64 (Z.of_nat (length l')) /\ b = existsb f l.
Proof.
  enough (H : forall l k, let '(l', n, b) := remove_opens f (wrapU 64 (Z.of_nat (length l + k))) l in
    l' = filter (fun o => f o = false) l /\ n = wrapU 64 (Z.of_nat (length l' + k)) /\ b = existsb f l).
  { intros l. specialize (H l O). rewrite Nat.add_0_r in H. destruct (remove_opens _ _ l) as [[l' n] b].
    by rewrite Nat.add_0_r in H. }
  induction l as [|o l IH]; intros k; cbn [remove_opens]; [done|]. rewrite filter_cons. cbn [length existsb].
  destruct (f o) eqn:Ef.
  - change (S (length l) + k)%nat with (S (length l + k)). rewrite wrapU_of_nat_pred. specialize (IH k).
    destruct (remove_opens f _ l) as [[l' n] b]. rewrite decide_False by done. naive_solver.
  - replace (S (length l) + k)%nat with (length l + S k)%nat by lia. specialize (IH (S k)).
    destruct (remove_opens f _ l) as [[l' n] b]. rewrite decide_True by done. destruct IH as (-> & -> & ->).
    split_and!; [done| |done]. f_equal. cbn [length]. lia.
Qed.

Lemma open_scan_length im co at_ : forall l bd ex Status l',
  open_scan im co at_ bd ex l = ScanDone Status l' -> length l' = length l.
Proof.
  induction l as [|o l IH]; intros bd ex Status l'; cbn [open_scan]; [done|].
  destruct (_ && _); [by intros [= <- <-]|]. destruct (negb _ && _); [by intros [= <- <-]|].
  destruct (open_scan _ _ _ _ _ l) eqn:E; [|done]. intros [= <- <-]. cbn. f_equal. by eapply IH.
Qed.

Lemma open_scan_status im co at_ : forall l bd ex Status l',
  open_scan im co at_ bd ex l = ScanDone Status l' ->
  Status = EFI_SUCCESS \/ (Status = EFI_ALREADY_STARTED /\ has_attr at_ EFI_OPEN_PROTOCOL_BY_DRIVER = true).
Proof.
  induction l as [|o l IH]; intros bd ex Status l'; cbn [open_scan]; [done|].
  destruct (has_attr (Attributes o) EFI_OPEN_PROTOCOL_BY_DRIVER && _) eqn:Hd.
  { intros [= <- _]. right. split; [done|]. apply andb_prop in Hd as [Hd Hm]. apply andb_prop in Hm as [Hm _].
    apply andb_prop in Hm as [_ <-%Z.eqb_eq]. done. }
  destruct (negb _ && _); [intros [= <- _]; by left|].
  destruct (open_scan _ _ _ _ _ l) eqn:E; [|done]. intros [= <- _]. by eapply IH.
Qed.

Section Safe.
Context `{Env : HAND_ENV} (tot : bool) (stays : Z -> Prop) (never : Z -> EFI_GUID -> Z -> Prop).
Context `{!HAND_LAWS tot stays never}.
Abbreviation release := (wp_release tot stays never).

(** ** The driver loop *)

Definition no_driver (p : Z) (s : DB) : Prop :=
  exists P, interfaces s !! p = Some P /\ first_driver (OpenList P) = None.

(** Code that runs in a window without the lock. *)
Lemma wp_window {A B} (c : M DB A) (k : A -> M DB B) (Q : B -> DB -> Prop) s :
  wf s -> gProtocolDatabaseLock s = true ->
  (forall s', wf s' -> gProtocolDatabaseLock s' = false -> wp tot c (fun _ => outside stays never s') s') ->
  (forall a s', moves stays never true s s' -> wp tot (k a) Q s') ->
  wp tot (CoreReleaseProtocolLock ;;; let! a := c in CoreAcquireProtocolLock ;;; k a) Q s.
Proof.
  intros W Hlk Hc HQ. apply release; [done|done|]. intros s1 O1. destruct (O1) as ((W1 & L1 & _) & _).
  eapply wp_seq; [by apply Hc|]. cbn beta. intros a s2 O2. destruct (O2) as ((W2 & L2 & _) & _).
  apply wp_acquire; [done|]. apply HQ. eapply moves_trans; [by eapply moves_trans|].
  by apply (same_moves _ _ s2 (upd_gProtocolDatabaseLock true s2) W2).
Qed.

(** Nothing runs out of fuel if no driver is to be disconnected. *)
Definition ends (turns : nat) (p : Z) (s : DB) : Prop := tot = false \/ (turns <> O /\ no_driver p s).

Lemma disconnect_drivers_ok refused h p e i : stays p -> forall turns s,
  wf s -> gProtocolDatabaseLock s = true -> pinned p h e i s -> ends turns p s ->
  wp tot (disconnect_drivers refused turns h p)
    (fun st s' => moves stays never true s s' /\ pinned p h e i s' /\
       ((st = EFI_SUCCESS /\ no_driver p s') \/ exists st0, EFI_ERROR st0 = true /\ st = refused st0) /\
       (no_driver p s -> st = EFI_SUCCESS /\ s' = s)) s.
Proof.
  intros Hst. induction turns as [|turns IH]; intros s W Hlk Hpin Hend.
  { destruct Hend as [-> | [? _]]; done. }
  cbn [disconnect_drivers]. destruct (Hpin) as (Hl & P & HP & _). unfold interface_at. eapply wp_deref; [exact HP|].
  destruct (first_driver (OpenList P)) as [o|] eqn:Hd.
  2:{ apply wp_ret. split_and!; [by rewrite <- Hlk; apply moves_refl|done|left|done]. split; [done|by exists P]. }
  assert (Hdr : ~ no_driver p s) by (intros (P' & HP' & Hno); simplify_eq).
  assert (tot = false) as Htot by (by destruct Hend as [|[_ ?]]).
  apply wp_window; [done|done|intros s1 W1 L1; by apply disconnect_ok|]. intros st s' G.
  destruct (EFI_ERROR st) eqn:Est.
  { apply wp_ret. split_and!; [done|by eapply moves_pinned|right; by exists st|done]. }
  destruct (G) as ((W' & L' & _) & _). eapply wp_mono; [apply IH; [done|done|by eapply moves_pinned|by left]|].
  cbn. intros st' s'' (G' & Hp' & Hrest & _). split_and!; [by eapply moves_trans|done|done|done].
Qed.

(** ** Opening *)

(** Memory can run out. *)
Definition short : Prop := exists s, AllocatePool s = None.

(** The attributes that may disconnect drivers. *)
Definition exclusive (at_ : Z) : bool :=
  (at_ =? EFI_OPEN_PROTOCOL_BY_DRIVER_EXCLUSIVE) || (at_ =? EFI_OPEN_PROTOCOL_EXCLUSIVE).

Definition may_open (at_ p : Z) : Prop := exclusive at_ = false \/ (tot = false /\ stays p).

Lemma open_access_ok h p e i at_ bd ex s :
  may_open at_ p -> wf s -> gProtocolDatabaseLock s = true -> pinned p h e i s ->
  wp tot (open_access h p at_ bd ex) (fun st s' => moves stays never true s s' /\ pinned p h e i s' /\
    (at_ = EFI_OPEN_PROTOCOL_BY_HANDLE_PROTOCOL -> st = EFI_SUCCESS)) s.
Proof.
  intros Hmay W Hlk Hpin. unfold open_access. fold (exclusive at_).
  assert (Hr : moves stays never true s s /\ pinned p h e i s) by (split; [by rewrite <- Hlk; apply moves_refl|done]).
  destruct (Z.eqb_spec at_ EFI_OPEN_PROTOCOL_BY_DRIVER) as [-> | _].
  { apply wp_ret. destruct Hr. split_and!; [done|done|discriminate]. }
  assert (Hok : wp tot (Mret EFI_SUCCESS) (fun st s' => moves stays never true s s' /\ pinned p h e i s' /\
    (at_ = EFI_OPEN_PROTOCOL_BY_HANDLE_PROTOCOL -> st = EFI_SUCCESS)) s) by (apply wp_ret; by destruct Hr).
  destruct Hmay as [-> | [Ht Hst]]; [done|]. destruct (exclusive at_) eqn:Hex; [|done].
  assert (Hat : at_ <> EFI_OPEN_PROTOCOL_BY_HANDLE_PROTOCOL) by (intros ->; discriminate).
  destruct ex; [apply wp_ret; destruct Hr; naive_solver|]. destruct bd; [|done].
  eapply wp_mono; [by apply (disconnect_drivers_ok _ h p e i Hst fuel s W Hlk Hpin); left|]. cbn. naive_solver.
Qed.

(** One more open at the end of the list. *)
Lemma counted_snoc (n : nat) : wrapU 64 (wrapU 64 (Z.of_nat n) + 1) = wrapU 64 (Z.of_nat (n + 1)).
Proof. unfold wrapU. rewrite Zplus_mod_idemp_l. f_equal. lia. Qed.

Lemma open_locked_ok h p e i im co at_ s :
  may_open at_ p -> wf s -> gProtocolDatabaseLock s = true -> pinned p h e i s ->
  wp tot (open_locked h p im co at_) (fun st s' => moves stays never true s s' /\ pinned p h e i s' /\
    (at_ = EFI_OPEN_PROTOCOL_BY_HANDLE_PROTOCOL -> st = EFI_SUCCESS \/ (st = EFI_OUT_OF_RESOURCES /\ short))) s.
Proof.
  intros Hmay W Hlk Hpin. unfold open_locked. destruct (Hpin) as (Hl & P & HP & _).
  unfold interface_at. eapply wp_deref; [exact HP|].
  destruct (open_scan im co at_ false false (OpenList P)) as [st l|bd ex] eqn:Escan.
  - eapply wp_step; [by apply on_interface_ok|]. apply wp_ret. pose proof (open_scan_status _ _ _ _ _ _ _ _ Escan) as Hs.
    apply open_scan_length in Escan.
    assert (Hn : OpenListCount P = wrapU 64 (Z.of_nat (length l))) by (rewrite Escan; by apply (wf_count s W p)).
    split_and!; [rewrite <- Hlk; by apply (opens_moves s W p h e Hl P HP)|by apply (opens_pinned s p P HP)|].
    intros ->. by destruct Hs as [-> | [_ Hs]]; [left|].
  - eapply wp_seq; [by apply (open_access_ok h p e i)|]. cbn. intros st s1 (G1 & Hpin1 & Hs).
    destruct (EFI_ERROR st) eqn:Est; [apply wp_ret; split_and!; [done|done|]; intros Hat; by rewrite (Hs Hat) in Est|].
    destruct (im =? 0); [apply wp_ret; split_and!; [done|done|by left]|].
    apply wp_get. destruct (AllocatePool s1) as [o|] eqn:Ha.
    2:{ apply wp_ret. split_and!; [done|done|]. intros _. right. split; [done|]. by exists s1. }
    destruct (Hpin1) as (Hl1 & P1 & HP1 & _). destruct (G1) as ((W1 & L1 & _) & _).
    eapply wp_step; [by apply on_interface_ok|]. apply wp_ret.
    assert (Hn : wrapU 64 (OpenListCount P1 + 1) =
      wrapU 64 (Z.of_nat (length (OpenList P1 ++ [mkOpen im co at_ 1])))).
    { rewrite (wf_count s1 W1 p P1 HP1), counted_snoc, length_app. done. }
    split_and!; [|by apply (opens_pinned s1 p P1 HP1)|by left].
    eapply moves_trans; [exact G1|]. rewrite <- L1. by apply (opens_moves s1 W1 p h e Hl1 P1 HP1).
Qed.

Lemma check_attributes_ok h im co at_ s : wf s ->
  exists st, check_attributes h im co at_ s = Ok (st, s).
Proof.
  intros W. unfold check_attributes. pose proof (validate_run s W) as V.
  repeat match goal with
    | |- context [if ?b then _ else _] =>
        match b with
        | EFI_ERROR _ => fail 1
        | bool_decide _ => fail 1
        | _ => destruct b
        end
    | |- exists st, Mbind (CoreValidateHandle ?x) _ s = _ => run_step (V x); case_bool_decide; cbn [EFI_ERROR]
    | |- exists st, CoreValidateHandle ?x s = _ => rewrite (V x)
    end; eauto.
Qed.

Lemma provides_pinned s p h g : wf s -> provides s p h g -> p <> 0 /\ exists e i, pinned p h e i s.
Proof.
  intros W (e & Hl & _). destruct (linked_interface s W p h e Hl) as (Hp & P & HP & _).
  split; [done|]. exists e, (Interface P). split; [done|]. by exists P.
Qed.

(** The end of a service: release the lock and return. *)
Lemma finish {A} (r : A) s0 s (Q : A -> DB -> Prop) :
  moves stays never true s0 s -> (forall s', outside stays never s0 s' -> Q r s') ->
  wp tot (CoreReleaseProtocolLock ;;; Mret r) Q s.
Proof.
  intros G HQ. destruct (G) as ((W & L & _) & _). apply release; [done|done|]. intros s' O.
  apply wp_ret, HQ. by eapply moves_trans.
Qed.

Lemma locked_moves s : wf s -> moves stays never true s (upd_gProtocolDatabaseLock true s).
Proof. intros W. by apply (same_moves _ _ s (upd_gProtocolDatabaseLock true s) W). Qed.

Lemma unchanged s : wf s -> gProtocolDatabaseLock s = false -> outside stays never s s.
Proof. intros W Hl. unfold outside. rewrite <- Hl. by apply moves_refl. Qed.

(** A protocol is opened only if it is there; CoreHandleProtocol fails on a
    protocol that is there only for want of memory. *)
Definition opened (s : DB) (h : Z) (g : option EFI_GUID) (ib : bool) (at_ : Z) (st : EFI_STATUS) : Prop :=
  (EFI_ERROR st = false -> exists g' p, g = Some g' /\ provides s p h g') /\
  (at_ = EFI_OPEN_PROTOCOL_BY_HANDLE_PROTOCOL -> ib = true -> forall g' p, g = Some g' -> provides s p h g' ->
   EFI_ERROR st = false \/ (st = EFI_OUT_OF_RESOURCES /\ short)).

Lemma open_refused s h g ib at_ st : EFI_ERROR st = true ->
  (at_ = EFI_OPEN_PROTOCOL_BY_HANDLE_PROTOCOL -> ib = true -> forall g' p, g = Some g' -> ~ provides s p h g') ->
  opened s h g ib at_ st.
Proof. intros Hst Hno. split; [congruence|]. intros H1 H2 g' p Hg Hp. by destruct (Hno H1 H2 g' p Hg). Qed.

Lemma check_handle_protocol h im co s :
  check_attributes h im co EFI_OPEN_PROTOCOL_BY_HANDLE_PROTOCOL s = Ok (EFI_SUCCESS, s).
Proof. done. Qed.

Lemma open_safe h g ib im co at_ s :
  wf s -> gProtocolDatabaseLock s = false ->
  (forall g' p, g = Some g' -> provides s p h g' -> may_open at_ p) ->
  wp tot (CoreOpenProtocol h g ib im co at_) (fun r s' => outside stays never s s' /\ opened s h g ib at_ r.1) s.
Proof.
  intros W Hlk Hmay. pose proof (unchanged s W Hlk) as Hsame. unfold CoreOpenProtocol.
  destruct g as [g|]; [|apply wp_ret; split; [done|]; by apply open_refused].
  destruct (negb _ && negb ib) eqn:Hib.
  { apply wp_ret. split; [done|]. apply open_refused; [done|]. intros _ ->. by rewrite andb_false_r in Hib. }
  eapply wp_step; [by apply validate_run|]. cbn beta. case_bool_decide as Hh; cbn [EFI_ERROR].
  2:{ apply wp_ret. split; [done|]. apply open_refused; [done|]. by intros _ _ g' p _ (e & (_ & ? & _) & _). }
  destruct (check_attributes_ok h im co at_ s W) as [st Hst]. eapply wp_step; [exact Hst|]. cbn beta.
  destruct (EFI_ERROR st) eqn:Est.
  { apply wp_ret. split; [done|]. apply open_refused; [done|]. intros ->. rewrite check_handle_protocol in Hst. injection Hst as <-. discriminate. }
  apply wp_acquire; [done|].
  pose proof (locked_moves s W) as G0. set (s0 := upd_gProtocolDatabaseLock true s) in *.
  pose proof (proj1 (moves_goes _ _ _ _ _ G0)) as W0.
  destruct (protocol_run s0 W0 h g) as (p & Hp & Hspec). eapply wp_step; [exact Hp|]. cbn beta.
  destruct Hspec as [Hprov|[-> Hno]].
  - destruct (provides_pinned s0 p h g W0 Hprov) as (Hp0 & e & i & Hpin).
    rewrite (proj2 (Z.eqb_neq p 0) Hp0). cbn [negb]. eapply wp_seq.
    { apply (open_locked_ok h p e i im co at_ s0); [by apply (Hmay g)|done|done|done]. }
    cbn beta. intros st' s1 (G1 & (Hl1 & P1 & HP1 & _) & Hs1). pose proof (moves_trans _ _ _ _ _ _ _ G0 G1) as G.
    assert (Ho : opened s h (Some g) ib at_ st').
    { split; [intros _; by exists g, p|]. intros Hat _ _ _ _ _. destruct (Hs1 Hat) as [-> | ?]; [by left|by right]. }
    assert (Hfin : forall out : option Z, wp tot (CoreReleaseProtocolLock ;;; Mret (st', out))
      (fun r s' => outside stays never s s' /\ opened s h (Some g) ib at_ r.1) s1) by (intros out; by eapply finish).
    destruct (negb (at_ =? _)); [|eapply wp_step; [done|apply Hfin]].
    destruct (_ || _); [|eapply wp_step; [done|apply Hfin]].
    apply wp_bind. eapply wp_step; [done|]. unfold interface_at. eapply wp_deref; [exact HP1|]. apply wp_ret, Hfin.
  - assert (Ho : opened s h (Some g) ib at_ EFI_UNSUPPORTED).
    { apply open_refused; [done|]. intros _ _ g' p [= <-]. apply Hno. }
    eapply wp_step; [done|]. cbn [Z.eqb negb EFI_ERROR]. rewrite (bool_decide_false (EFI_UNSUPPORTED = _)) by done.
    cbn [orb]. destruct (negb (at_ =? _)); (eapply wp_step; [done|]); by eapply finish.
Qed.

Lemma handle_protocol_safe h g ib s :
  wf s -> gProtocolDatabaseLock s = false -> wp tot (CoreHandleProtocol h g ib) (fun r s' =>
    outside stays never s s' /\ opened s h g ib EFI_OPEN_PROTOCOL_BY_HANDLE_PROTOCOL r.1) s.
Proof. intros W Hlk. apply open_safe; [done|done|]. intros. by left. Qed.

Lemma close_safe h g a co s :
  wf s -> gProtocolDatabaseLock s = false ->
  wp tot (CoreCloseProtocol h g a co) (fun _ => outside stays never s) s.
Proof.
  intros W Hlk. pose proof (unchanged s W Hlk) as Hsame. unfold CoreCloseProtocol.
  eapply wp_step; [by apply validate_run|]. cbn beta. destruct (EFI_ERROR _); [by apply wp_ret|].
  eapply wp_step; [by apply validate_run|]. cbn beta. destruct (EFI_ERROR _); [by apply wp_ret|].
  assert (Hc : exists st, (if negb (co =? 0) then CoreValidateHandle co else Mret EFI_SUCCESS) s = Ok (st, s)).
  { destruct (negb _); eexists; [by apply validate_run|done]. }
  destruct Hc as [st Hc]. eapply wp_step; [exact Hc|]. cbn beta. destruct (EFI_ERROR st); [by apply wp_ret|].
  destruct g as [g|]; [|by apply wp_ret]. apply wp_acquire; [done|].
  pose proof (locked_moves s W) as G0. set (s0 := upd_gProtocolDatabaseLock true s) in *.
  pose proof (proj1 (moves_goes _ _ _ _ _ G0)) as W0.
  destruct (protocol_run s0 W0 h g) as (p & Hp & Hspec). eapply wp_step; [exact Hp|]. cbn beta.
  destruct Hspec as [Hprov|[-> _]]; [|eapply wp_step; [done|]; by eapply finish].
  destruct (provides_pinned s0 p h g W0 Hprov) as (Hp0 & e & i & (Hl & P & HP & _)).
  rewrite (proj2 (Z.eqb_neq p 0) Hp0). apply wp_bind. unfold interface_at. eapply wp_deref; [exact HP|].
  pose proof (remove_opens_ok (opened_by a co) (OpenList P)) as Hrm. rewrite <- (wf_count s0 W0 p P HP) in Hrm.
  destruct (remove_opens _ _ _) as [[l n] b]. destruct Hrm as (_ & Hn & _).
  eapply wp_step; [by apply on_interface_ok|]. apply wp_ret. eapply finish; [|done].
  eapply moves_trans; [exact G0|]. by apply (opens_moves s0 W0 p h e Hl P HP l n Hn).
Qed.

(** ** Entries and notification records *)

(** Changes that keep what is installed. *)
Definition view (s s' : DB) : Prop :=
  gHandleList s' = gHandleList s /\ (forall h, hprots s' h = hprots s h) /\ (forall e, eprots s' e = eprots s e) /\
  interfaces s' = interfaces s /\ entries_kept s s'.

Lemma view_moves s s' : wf s -> wf s' -> view s s' -> moves stays never (gProtocolDatabaseLock s') s s'.
Proof.
  intros W W' (EL & EH & EP & EI & EK).
  assert (Ei : forall p, ifc s' p = ifc s p) by (intros p; unfold ifc; by rewrite EI).
  assert (Hl : forall p h e, linked s p h e -> linked s' p h e).
  { intros p h e (H1 & H2 & H3 & H4 & H5). unfold linked. rewrite Ei, EL, EH, EP. split_and!; try done. by apply EK. }
  split_and!; [split_and!; [done|done| |done]|..].
  - intros p P. unfold orphan. rewrite EI, EL. by setoid_rewrite EH.
  - intros p h e P _ H HP. split; [auto|]. exists P. by rewrite EI.
  - intros h g i _ Hno (p & P & (e & He & Hg) & HP & Hi). apply Hno. rewrite EI in HP. exists p, P.
    split; [|done]. destruct (He) as (H1 & H2 & H3 & H4 & H5). rewrite EL in H2. rewrite EH in H4.
    destruct (wf_hlink s W h p H2 H4) as (y & Hy). destruct (linked_fun s' p _ _ _ _ He (Hl _ _ _ Hy)) as [_ ->].
    exists y. split; [done|]. destruct Hy as (_ & _ & Hy & _). by rewrite <- (proj2 (EK y Hy)).
Qed.

Lemma entry_create g s : wf s -> gProtocolDatabaseLock s = true ->
  wp tot (CoreFindProtocolEntry g true) (fun e s' =>
    moves stays never true s s' /\ view s s' /\ handles s' = handles s /\ notifies s' = notifies s /\
    event_calls s' = event_calls s /\ (forall x, enots s' x = enots s x) /\
    ((e = 0 /\ s' = s /\ short) \/
     (e ∈ mProtocolDatabase s' /\ eguid s' e = Some g /\
      exists e0, entry_spec s g e0 /\ enots s' e = enots s e0 /\ eprots s' e = eprots s e0))) s.
Proof.
  intros W Hlk. unfold CoreFindProtocolEntry, ASSERT_LOCKED.
  eapply wp_step; [by rewrite (Mbind_Ok Mget _ s s s eq_refl), Hlk|]. cbn beta. apply wp_get.
  destruct (find_entry_run s W g (mProtocolDatabase s) ltac:(done)) as (e & He & Hspec).
  eapply wp_step; [exact He|]. cbn beta.
  assert (Hs : moves stays never true s s /\ view s s /\ handles s = handles s /\ notifies s = notifies s).
  { split_and!; [rewrite <- Hlk; by apply moves_refl| |done|done]. by split_and!. }
  destruct Hspec as [[He1 He2]|[-> Hnone]].
  { rewrite (proj2 (Z.eqb_neq e 0)) by (by apply (entry_nonnull s W)). cbn [andb]. apply wp_ret.
    destruct Hs as (H1 & H2 & H3 & H4). split_and!; try done. right. split_and!; [done|done|]. exists e. split; [by left|done]. }
  cbn [Z.eqb andb]. destruct (AllocatePool s) as [e|] eqn:Ha.
  2:{ apply wp_ret. destruct Hs as (H1 & H2 & H3 & H4). split_and!; try done. left. split_and!; [done|done|by exists s]. }
  destruct (alloc_fresh s e Ha) as (He0 & _ & HeE & _). apply wp_modify, wp_modify, wp_ret.
  set (s' := upd_mProtocolDatabase _ _).
  assert (W' : wf s') by (by eapply (wf_new_entry s s' e g)).
  assert (EE : entries s' = <[e := mkEntry g [] []]> (entries s)) by done.
  assert (Hv : view s s').
  { split_and!; try done.
    - intros x. rewrite (eprots_insert s e _ x s' EE). case_decide; [subst|done]. unfold eprots. by rewrite HeE.
    - intros x Hx. split; [cbn; apply elem_of_app; by left|]. rewrite (eguid_insert s e _ x s' EE).
      case_decide; [subst|done]. destruct (wf_entry s W e Hx) as [E HE]. congruence. }
  assert (Hen : forall x, enots s' x = enots s x).
  { intros x. rewrite (enots_insert s e _ x s' EE). case_decide; [subst|done]. unfold enots. by rewrite HeE. }
  split_and!; [rewrite <- Hlk; by apply (view_moves s s')|done|done|done|done|done|right].
  destruct (wf_null s W) as (_ & N0 & _).
  split_and!; [cbn; apply elem_of_app; right; by left|by rewrite (eguid_insert s e _ e s' EE), decide_True|].
  exists 0. split_and!; [by right|rewrite Hen; unfold enots; by rewrite HeE, N0|].
  rewrite (eprots_insert s e _ e s' EE), decide_True by done. unfold eprots. by rewrite N0.
Qed.

Lemma register_safe g ev rb s :
  wf s -> gProtocolDatabaseLock s = false ->
  wp tot (CoreRegisterProtocolNotify g ev rb) (fun _ => outside stays never s) s.
Proof.
  intros W Hlk. pose proof (unchanged s W Hlk) as Hsame. unfold CoreRegisterProtocolNotify.
  destruct g as [g|]; [|by apply wp_ret]. destruct (_ || _); [by apply wp_ret|]. apply wp_acquire; [done|].
  pose proof (locked_moves s W) as G0. set (s0 := upd_gProtocolDatabaseLock true s) in *.
  pose proof (proj1 (moves_goes _ _ _ _ _ G0)) as W0. eapply wp_seq; [by apply entry_create|].
  cbn beta. intros e s1 (G1 & _ & _ & _ & _ & _ & He). pose proof (moves_trans _ _ _ _ _ _ _ G0 G1) as G.
  assert (Hfin : forall s' (n : Z), moves stays never true s s' ->
    wp tot (CoreReleaseProtocolLock ;;; (if negb (n =? 0) then Mret (EFI_SUCCESS, n) else Mret (EFI_OUT_OF_RESOURCES, 0)))
      (fun _ => outside stays never s) s').
  { intros s' n Gs. destruct (Gs) as ((Ws & Ls & _) & _). apply release; [done|done|]. intros s2 O.
    destruct (negb _); apply wp_ret; by eapply moves_trans. }
  destruct He as [(-> & -> & _)|(He & Hg & _)]; [eapply wp_step; [done|]; by apply Hfin|].
  destruct (G1) as ((W1 & L1 & _) & _). rewrite (proj2 (Z.eqb_neq e 0)) by (by apply (entry_nonnull s1 W1)). cbn [negb].
  apply wp_bind, wp_get. destruct (AllocatePool s1) as [n|] eqn:Ha; [|apply wp_ret; by apply Hfin].
  destruct (alloc_fresh s1 n Ha) as (Hn0 & _ & _ & _ & Hn). apply wp_modify, wp_modify.
  destruct (wf_entry s1 W1 e He) as [E HE]. eapply wp_step; [by apply (on_entry_ok _ _ E)|].
  apply wp_ret. apply Hfin. eapply moves_trans; [exact G|]. set (s2 := upd_entries _ _).
  assert (W2 : wf s2) by (by eapply (wf_new_notify s1 s2 n e E ev)).
  assert (EE : entries s2 = <[e := set_Notify (Notify E ++ [n]) E]> (entries s1)) by done.
  rewrite <- L1. apply (view_moves s1 s2); [done|done|]. split_and!; try done.
  - intros x. rewrite (eprots_insert s1 e _ x s2 EE). case_decide; [subst|done]. unfold eprots. by rewrite HE.
  - intros x Hx. split; [done|]. rewrite (eguid_insert s1 e _ x s2 EE). case_decide; [subst|done]. unfold eguid. by rewrite HE.
Qed.

Lemma find_notify_run ev s : wf s -> forall e l, e ∈ mProtocolDatabase s -> (forall n, n ∈ l -> n ∈ enots s e) ->
  exists n, find_notify ev l s = Ok (n, s) /\ ((n <> 0 /\ n ∈ l) \/ n = 0).
Proof.
  intros W e l He. induction l as [|n l IH]; intros Hl; cbn [find_notify]; [by exists 0; auto|].
  destruct (notify_at_ok s W e n He (Hl n ltac:(by left))) as [Hn0 [N HN]]. unfold notify_at.
  run_step (deref_ok notifies n N s HN). destruct (_ =? ev).
  - exists n. split; [done|]. left. split; [done|by left].
  - destruct IH as (m & Hm & Hspec); [intros m Hm; apply Hl; by right|]. exists m. split; [done|].
    destruct Hspec as [[? ?]|?]; [left; split; [done|by right]|by right].
Qed.

Lemma unregister_loop_ok ev s : wf s -> gProtocolDatabaseLock s = true ->
  forall l, (forall e, e ∈ l -> e ∈ mProtocolDatabase s) ->
  wp tot (unregister_loop ev l) (fun st s' => moves stays never true s s' /\
    ((st = EFI_NOT_FOUND /\ s' = s) \/ (st = EFI_SUCCESS /\ (size (notifies s') < size (notifies s))%nat))) s.
Proof.
  intros W Hlk l. induction l as [|e l IH]; intros Hl; cbn [unregister_loop].
  { apply wp_ret. split; [rewrite <- Hlk; by apply moves_refl|by left]. }
  assert (He : e ∈ mProtocolDatabase s) by (apply Hl; by left). destruct (wf_entry s W e He) as [E HE].
  unfold entry_at. eapply wp_deref; [exact HE|].
  assert (Een : Notify E = enots s e) by (unfold enots; by rewrite HE).
  destruct (find_notify_run ev s W e (Notify E) He) as (n & Hn & Hspec); [by rewrite Een|].
  eapply wp_step; [exact Hn|]. cbn beta. destruct Hspec as [[Hn0 Hin]| ->].
  2:{ apply IH. intros x Hx. apply Hl. by right. }
  rewrite (proj2 (Z.eqb_neq n 0) Hn0). cbn [negb]. rewrite Een in Hin.
  destruct (notify_at_ok s W e n He Hin) as [_ [N HN]].
  eapply wp_step; [by apply (on_entry_ok _ _ E)|]. eapply wp_step; [by apply (free_notify_ok n N)|]. apply wp_ret.
  set (s' := upd_notifies _ _). assert (EE : entries s' = <[e := set_Notify (unlink n (Notify E)) E]> (entries s)) by done.
  split.
  - rewrite <- Hlk. apply (view_moves s s'); [done|by eapply (wf_del_notify s s' n e E)|]. split_and!; try done.
    + intros x. rewrite (eprots_insert s e _ x s' EE). case_decide; [subst|done]. unfold eprots. by rewrite HE.
    + intros x Hx. split; [done|]. rewrite (eguid_insert s e _ x s' EE). case_decide; [subst|done].
      unfold eguid. by rewrite HE.
  - right. split; [done|]. cbn. rewrite map_size_delete_Some by (by exists N).
    assert (notifies s <> ∅) as Hne by (intros E0; by rewrite E0, lookup_empty in HN).
    apply map_size_non_empty_iff in Hne. lia.
Qed.

Lemma unregister_event_safe ev s :
  wf s -> gProtocolDatabaseLock s = false ->
  wp tot (CoreUnregisterProtocolNotifyEvent ev) (fun _ => outside stays never s) s.
Proof.
  intros W Hlk. unfold CoreUnregisterProtocolNotifyEvent. apply wp_acquire; [done|].
  pose proof (locked_moves s W) as G0. set (s0 := upd_gProtocolDatabaseLock true s) in *.
  pose proof (proj1 (moves_goes _ _ _ _ _ G0)) as W0. apply wp_get.
  eapply wp_seq; [by apply unregister_loop_ok|]. cbn beta. intros st s1 [G1 _].
  eapply finish; [exact (moves_trans _ _ _ _ _ _ _ G0 G1)|done].
Qed.

Lemma unregister_safe ev s : tot = false ->
  wf s -> gProtocolDatabaseLock s = false ->
  wp tot (CoreUnregisterProtocolNotify ev) (fun _ => outside stays never s) s.
Proof.
  intros Ht. unfold CoreUnregisterProtocolNotify. generalize fuel as n. intros n. revert s.
  induction n as [|n IH]; intros s W Hlk; cbn [unregister_all]; [done|].
  eapply wp_seq; [by apply unregister_event_safe|]. cbn beta. intros st s1 O1. destruct (O1) as ((W1 & L1 & _) & _).
  destruct (negb _); [|by apply wp_ret]. eapply wp_mono; [by apply IH|]. cbn. intros _ s2 O2. by eapply moves_trans.
Qed.
End Safe.
