(* ===== verification/HandInstall.v ===== *)
(** * HandInstall: installing protocol interfaces

    CoreInstallProtocolInterfaceNotify puts one interface on one handle and
    leaves everything else; on an error nothing is installed. *)

From stdpp Require Import base option list gmap fin_maps.
From Stdlib Require Import ZArith Lia.
From S2P Require Import Prelude Hand HandInv HandRun HandSafe.

Local Open Scope Z_scope.
Local Open Scope edk_scope.

(** The calls of CoreSignalEvent for the notification records [l]. *)
Definition signals (s : DB) (l : list Z) : list EVENT_CALL :=
  omap (fun n => (fun N => SignalEvent (NotifyEvent N)) <$> notifies s !! n) l.

Lemma signal_all_run : forall l s, (forall n, n ∈ l -> is_Some (notifies s !! n)) ->
  exists s', signal_all l s = Ok (tt, s') /\ same s s' /\ gProtocolDatabaseLock s' = gProtocolDatabaseLock s /\
    event_calls s' = event_calls s ++ signals s l.
Proof.
  induction l as [|n l IH]; intros s Hl; cbn [signal_all].
  { exists s. cbn. by rewrite app_nil_r. }
  destruct (Hl n ltac:(by left)) as [N HN]. unfold notify_at. run_step (deref_ok notifies n N s HN).
  rewrite (Mbind_Ok (Mmodify _) _ s tt _ eq_refl).
  destruct (IH (call_event (SignalEvent (NotifyEvent N)) s)) as (s' & Hs & HS & HL & HE).
  { intros m Hm. apply Hl. by right. }
  exists s'. split_and!; [exact Hs|exact HS|exact HL|]. rewrite HE. cbn. rewrite HN. cbn. by rewrite <- app_assoc.
Qed.

(** ** Blocks that are not linked *)

Lemma orphan_new s p P : wf s -> p <> 0 -> interfaces s !! p = None ->
  OpenListCount P = wrapU 64 (Z.of_nat (length (OpenList P))) ->
  let s' := upd_interfaces (<[p := P]> (interfaces s)) s in
  goes (gProtocolDatabaseLock s) s s' /\ orphan s' p P.
Proof.
  intros W Hp Hn HC s'.
  assert (Hun : forall q h e, linked s q h e -> q <> p).
  { intros q h e Hl ->. destruct (linked_interface s W p h e Hl) as (_ & Q & HQ & _). congruence. }
  split; [split_and!; [|done| |by intros x Hx]|].
  - eapply wf_ext; [exact W|done|done|done|done| |done| |cbn; rewrite lookup_insert_ne by done; apply W].
    + intros q h e Hl%Hun. by rewrite (ifc_insert s p P q s' eq_refl), decide_False.
    + intros q Q. cbn. destruct (decide (q = p)) as [-> | Hq].
      * rewrite lookup_insert_eq. by intros [= <-].
      * rewrite lookup_insert_ne by done. apply W.
  - intros q Q [HQ Hno]. split; [|done]. cbn. rewrite lookup_insert_ne; [done|congruence].
  - split; [cbn; by rewrite lookup_insert_eq|]. intros h Hh Hin.
    destruct (wf_hlink s W h p Hh Hin) as [e He]. by apply (Hun p h e).
Qed.

Lemma orphan_free s p P : wf s -> orphan s p P ->
  let s' := upd_interfaces (delete p (interfaces s)) s in
  wf s' /\ gProtocolDatabaseLock s' = gProtocolDatabaseLock s /\ entries_kept s s' /\
  (forall q Q, q <> p -> orphan s q Q -> orphan s' q Q).
Proof.
  intros W [HP Hno] s'.
  assert (Hun : forall q h e, linked s q h e -> q <> p).
  { intros q h e (_ & Hh & _ & Hq & _) ->. by apply (Hno h). }
  split_and!; [|done|by intros x Hx|].
  - eapply wf_ext; [exact W|done|done|done|done| |done| |cbn; apply lookup_delete_None; right; apply W].
    + intros q h e Hl%Hun. by rewrite (ifc_delete s p q s' eq_refl), decide_False.
    + intros q Q. cbn. rewrite lookup_delete_Some. intros [_ HQ]. by apply (wf_count s W q).
  - intros q Q Hq [HQ HnoQ]. split; [|done]. cbn. by rewrite lookup_delete_ne.
Qed.

Definition freed (p : Z) (s : DB) : DB := upd_interfaces (delete p (interfaces s)) s.

Lemma freed_linked s p P : orphan s p P -> forall q x y, linked (freed p s) q x y <-> linked s q x y.
Proof.
  intros Ho q x y. unfold linked. rewrite (ifc_delete s p q (freed p s) eq_refl). case_decide; [subst q|done].
  split; [naive_solver|]. intros (_ & Hx & _ & Hin & _). by destruct (proj2 Ho x Hx).
Qed.

Lemma freed_has s p P x g i : orphan s p P -> has (freed p s) x g i <-> has s x g i.
Proof.
  intros Ho. unfold has, provides. setoid_rewrite (freed_linked s p P Ho). change (eguid (freed p s)) with (eguid s).
  split; intros (q & Q & (y & Hy & Hg) & HQ & Hi); exists q, Q; (split_and!; [by exists y| |done]).
  - cbn in HQ. by apply lookup_delete_Some in HQ as [_ HQ].
  - cbn. apply lookup_delete_Some. split; [|done]. intros <-. destruct Hy as (_ & Hx & _ & Hin & _).
    by destruct (proj2 Ho x Hx).
Qed.

(** Freeing a block that other code does not know of. *)
Lemma outside_freed stays never s s' p P : orphan s p P -> wf s -> outside stays never s s' ->
  outside stays never (freed p s) (freed p s').
Proof.
  intros Ho W ((W' & L' & O & EK) & S & N). pose proof (O p P Ho) as Ho'.
  destruct (orphan_free s' p P W' Ho') as (W3 & L3 & E3 & O3). split_and!; [split_and!; [done|done| |]|..].
  - intros q Q [Hq Hno]. cbn in Hq. apply lookup_delete_Some in Hq as [Hqp Hq]. apply O3; [done|]. by apply O.
  - exact EK.
  - intros q x y Q Hq Hl HQ. rewrite (freed_linked s p P Ho) in Hl. cbn in HQ. apply lookup_delete_Some in HQ as [Hqp HQ].
    destruct (S q x y Q Hq Hl HQ) as (Hl2 & Q2 & HQ2 & Hi2). rewrite (freed_linked s' p P Ho').
    split; [done|]. exists Q2. cbn. by rewrite lookup_delete_ne.
  - intros x g i. rewrite (freed_has s p P x g i Ho), (freed_has s' p P x g i Ho'). apply N.
Qed.

(** ** The searches on a database under construction *)

Lemma find_entry_frame `{Env : HAND_ENV} g s s' : entries s' = entries s -> forall l e,
  find_entry g l s = Ok (e, s) -> find_entry g l s' = Ok (e, s').
Proof.
  intros EE. induction l as [|x l IH]; intros e; cbn [find_entry]; [by intros [= <-]|].
  unfold entry_at, Mbind, deref. rewrite EE. destruct (entries s !! x) as [E|]; [|done].
  case_bool_decide; [by intros [= <-]|]. apply IH.
Qed.

Section Install.
Context `{Env : HAND_ENV} (tot : bool) (stays : Z -> Prop) (never : Z -> EFI_GUID -> Z -> Prop).
Context `{!HAND_LAWS tot stays never}.

(** [p] is the new interface [i] of protocol [g] on [h], and nothing else
    changed on any handle. *)
Definition installed (s s' : DB) (p h : Z) (g : EFI_GUID) (i : Z) : Prop :=
  provides s' p h g /\ interfaces s !! p = None /\
  (exists P, interfaces s' !! p = Some P /\ Interface P = i /\ OpenList P = []) /\
  (forall q x y Q, linked s q x y -> interfaces s !! q = Some Q -> linked s' q x y /\ interfaces s' !! q = Some Q) /\
  (forall q x y, linked s' q x y -> q = p \/ linked s q x y).

(** [p] is the last interface of the protocol [g]: it is at the end of the
    queues of the registrations for [g], and, if [nt], their events are
    signalled. *)
Definition announced (nt : bool) (s s' : DB) (p : Z) (g : EFI_GUID) : Prop :=
  exists e0 e, entry_spec s g e0 /\ e ∈ mProtocolDatabase s' /\ eguid s' e = Some g /\
    eprots s' e = eprots s e0 ++ [p] /\
    event_calls s' = event_calls s ++ (if nt then signals s (enots s e0) else []) /\
    (forall n, n ∈ enots s e0 -> queue s' n = queue s n ++ [p]) /\
    (forall n, registered s n -> n ∉ enots s e0 -> queue s' n = queue s n).

(** A new block at [P] that is not linked, and nothing else. *)
Definition aborted (s s' : DB) (P : Z) : Prop :=
  goes true s s' /\ (P = 0 \/ (interfaces s !! P = None /\ exists X, orphan s' P X)) /\
  (forall q x y, linked s' q x y <-> linked s q x y) /\
  (forall q, q <> P -> interfaces s' !! q = interfaces s !! q).

Lemma installed_same s s' s'' p h g i : installed s s' p h g i -> same s' s'' -> installed s s'' p h g i.
Proof.
  intros HI (EL & ED & EH & EE & EI & EN). unfold installed, provides, linked, ifc, hprots, eprots, eguid in *.
  by rewrite EL, ED, EH, EE, EI.
Qed.

(** ** Linking a new interface *)

Section Link.
Context (s1 s' : DB) (p h e i : Z) (E : PROTOCOL_ENTRY) (H' : IHANDLE) (W : wf s1).
Context (Hh0 : h <> 0) (Hp0 : p <> 0) (Hpf : interfaces s1 !! p = None).
Context (He : e ∈ mProtocolDatabase s1) (HE : entries s1 !! e = Some E).
Context (HnoL : NoDup (gHandleList s')) (HinL : forall x, x ∈ gHandleList s' <-> x = h \/ x ∈ gHandleList s1).
Context (Hh : h ∈ gHandleList s1 \/ hprots s1 h = []) (ED : mProtocolDatabase s' = mProtocolDatabase s1).
Context (EH : handles s' = <[h := H']> (handles s1)) (EHp : HandleProtocols H' = p :: hprots s1 h).
Context (EE : entries s' = <[e := set_EntryProtocols (EntryProtocols E ++ [p]) E]> (entries s1)).
Context (EI : interfaces s' = <[p := mkProt h e i [] 0]> (interfaces s1)) (EN : notifies s' = notifies s1).

Lemma link_unlinked x : x ∈ gHandleList s1 -> p ∉ hprots s1 x.
Proof.
  intros Hx Hin. destruct (wf_hlink s1 W x p Hx Hin) as [y Hy].
  destruct (linked_interface s1 W p x y Hy) as (_ & Q & HQ & _). congruence.
Qed.

Lemma link_new_wf : wf s'.
Proof. eapply (wf_link s1 s' p h e i H' E); try done. exact link_unlinked. Qed.

(** The interfaces of a handle are the old ones and [p]. *)
Lemma link_hprots q x : x ∈ gHandleList s' -> q ∈ hprots s' x -> q = p \/ (x ∈ gHandleList s1 /\ q ∈ hprots s1 x).
Proof.
  intros Hx. rewrite (hprots_insert s1 h _ x s' EH). apply HinL in Hx. case_decide as Hd.
  - subst x. rewrite EHp. intros [-> | Hin]%elem_of_cons; [by left|right].
    destruct Hh as [|Hh']; [done|]. rewrite Hh' in Hin. by apply not_elem_of_nil in Hin.
  - destruct Hx as [|Hx]; [done|]. by right.
Qed.

Lemma link_goes : goes (gProtocolDatabaseLock s') s1 s'.
Proof.
  split_and!; [apply link_new_wf|done| |].
  - intros q Q [HQ HnoQ]. split; [rewrite EI, lookup_insert_ne; [done|congruence]|].
    intros x Hx Hin. destruct (link_hprots q x Hx Hin) as [-> | [Hx1 Hin1]]; [congruence|]. by apply (HnoQ x).
  - intros x Hx. split; [by rewrite ED|]. rewrite (eguid_insert s1 e _ x s' EE). case_decide; [subst|done].
    unfold eguid. by rewrite HE.
Qed.

Lemma link_linked q x y : linked s1 q x y -> linked s' q x y.
Proof.
  intros Hl. assert (q <> p) by (intros ->; destruct (linked_interface s1 W p x y Hl) as (_ & Q & HQ & _); congruence).
  destruct Hl as (H1 & H2 & H3 & H4 & H5). unfold linked. rewrite (ifc_insert s1 p _ q s' EI), decide_False by done.
  rewrite (hprots_insert s1 h _ x s' EH), (eprots_insert s1 e _ y s' EE).
  split_and!; [done|apply HinL; by right|by rewrite ED| |].
  - case_decide; [subst x|done]. rewrite EHp. by right.
  - case_decide; [subst y|done]. cbn. apply elem_of_app. left. revert H5. unfold eprots. by rewrite HE.
Qed.

Lemma link_installed : installed s1 s' p h (ProtocolID E) i.
Proof.
  split_and!; [|done| | |].
  - exists e. rewrite (eguid_insert s1 e _ e s' EE), decide_True by done. split; [|done].
    unfold linked. rewrite (ifc_insert s1 p _ p s' EI), (hprots_insert s1 h _ h s' EH), (eprots_insert s1 e _ e s' EE).
    rewrite !decide_True by done. split_and!; [done|apply HinL; by left|by rewrite ED|rewrite EHp; by left|].
    cbn. apply elem_of_app. right. by left.
  - eexists. split; [rewrite EI; by rewrite lookup_insert_eq|done].
  - intros q x y Q Hq HQ. split; [by apply link_linked|]. rewrite EI, lookup_insert_ne; [done|congruence].
  - intros q x y (H1 & H2 & _ & H4 & _). destruct (link_hprots q x H2 H4) as [|[Hx Hqx]]; [by left|].
    destruct (wf_hlink s1 W x q Hx Hqx) as [z Hz]. destruct (link_linked q x z Hz) as (H1' & _).
    rewrite H1 in H1'. right. by simplify_eq.
Qed.
End Link.

(** The last steps: the interface is linked, and its registrations are
    signalled. *)
(** [p] is the last interface of entry [e]. *)
Definition added (s s' : DB) (e p : Z) : Prop :=
  eprots s' e = eprots s e ++ [p] /\ (forall x, x <> e -> eprots s' x = eprots s x) /\ notifies s' = notifies s.

Lemma install_link s1 s p h e E H i (nt : bool) :
  wf s1 -> gProtocolDatabaseLock s = true -> h <> 0 -> p <> 0 -> interfaces s1 !! p = None ->
  e ∈ mProtocolDatabase s1 -> entries s1 !! e = Some E ->
  NoDup (gHandleList s) -> (forall x, x ∈ gHandleList s <-> x = h \/ x ∈ gHandleList s1) ->
  h ∈ gHandleList s1 \/ hprots s1 h = [] -> mProtocolDatabase s = mProtocolDatabase s1 ->
  (exists H0, handles s = <[h := H0]> (handles s1)) \/ handles s = handles s1 ->
  handles s !! h = Some H -> HandleProtocols H = hprots s1 h ->
  entries s = entries s1 -> interfaces s = <[p := mkProt 0 0 0 [] 0]> (interfaces s1) -> notifies s = notifies s1 ->
  wp tot (on_interface p (fun _ => mkProt h e i [] 0) ;;;
          on_handle h (fun H => set_HandleProtocols (p :: HandleProtocols H) H) ;;;
          on_entry e (fun E => set_EntryProtocols (EntryProtocols E ++ [p]) E) ;;;
          (if nt then CoreNotifyProtocolEntry e else Mret tt) ;;;
          Mret (EFI_SUCCESS, p, h))
    (fun r s' => r = (EFI_SUCCESS, p, h) /\ goes true s1 s' /\ installed s1 s' p h (ProtocolID E) i /\
       added s1 s' e p /\ event_calls s' = event_calls s ++ (if nt then signals s1 (enots s1 e) else [])) s.
Proof.
  intros W Hlk Hh0 Hp0 Hpf He HE HnoL HinL Hh ED EHs HH EHp EE EI EN.
  eapply wp_step; [apply (on_interface_ok _ _ (mkProt 0 0 0 [] 0)); by rewrite EI, lookup_insert_eq|].
  eapply wp_step; [by apply (on_handle_ok _ _ H)|].
  eapply wp_step; [apply (on_entry_ok _ _ E); cbn; by rewrite EE|].
  set (s' := upd_entries _ _).
  assert (EHs' : handles s' = <[h := set_HandleProtocols (p :: HandleProtocols H) H]> (handles s1)).
  { cbn. destruct EHs as [[H0 ->]| ->]; [by rewrite insert_insert_eq|done]. }
  assert (EHp' : HandleProtocols (set_HandleProtocols (p :: HandleProtocols H) H) = p :: hprots s1 h) by (cbn; by rewrite EHp).
  assert (EI' : interfaces s' = <[p := mkProt h e i [] 0]> (interfaces s1)) by (cbn; by rewrite EI, insert_insert_eq).
  assert (EE' : entries s' = <[e := set_EntryProtocols (EntryProtocols E ++ [p]) E]> (entries s1)) by (cbn; by rewrite EE).
  assert (HI : installed s1 s' p h (ProtocolID E) i) by (by eapply (link_installed s1 s' p h e i E)).
  assert (G : goes true s1 s').
  { change true with (gProtocolDatabaseLock s') || rewrite <- Hlk. by eapply (link_goes s1 s' p h e i E). }
  assert (HA : added s1 s' e p).
  { split_and!; [| |cbn; by rewrite EN].
    - rewrite (eprots_insert s1 e _ e s' EE'), decide_True by done. unfold eprots. by rewrite HE.
    - intros x Hx. by rewrite (eprots_insert s1 e _ x s' EE'), decide_False. }
  destruct nt; [|eapply wp_step; [done|]; apply wp_ret; by rewrite app_nil_r].
  unfold CoreNotifyProtocolEntry, ASSERT_LOCKED. apply wp_bind.
  eapply wp_step; [rewrite (Mbind_Ok Mget _ s' s' s' eq_refl); cbn; by rewrite Hlk|]. cbn beta.
  unfold entry_at. eapply wp_deref; [rewrite EE'; by rewrite lookup_insert_eq|]. cbn [Notify set_EntryProtocols].
  assert (Een : Notify E = enots s1 e) by (unfold enots; by rewrite HE). rewrite Een.
  destruct (signal_all_run (enots s1 e) s') as (s2 & Hrun & HS & HL & HEv).
  { intros n Hn. cbn. rewrite EN. by apply (notify_at_ok s1 W e n He Hn). }
  eapply wp_eq; [exact Hrun|]. apply wp_ret. destruct (G) as (W' & L' & _). split_and!; [done| |by eapply installed_same| |].
  - eapply goes_trans; [exact G|]. rewrite <- L', <- HL. by apply same_goes.
  - destruct HS as (_ & _ & _ & SE & _ & SN). unfold added, eprots in *. by rewrite SE, SN.
  - rewrite HEv. f_equal. unfold signals. cbn. by rewrite EN.
Qed.

(** The queues after a new interface, given how entry [e] of [g] came about. *)
Lemma announce (nt : bool) s s1 s' p g e e0 :
  wf s -> wf s1 -> view s s1 -> notifies s1 = notifies s -> entry_spec s g e0 ->
  e ∈ mProtocolDatabase s1 -> eguid s1 e = Some g -> enots s1 e = enots s e0 -> eprots s1 e = eprots s e0 ->
  added s1 s' e p -> goes true s1 s' ->
  event_calls s' = event_calls s ++ (if nt then signals s1 (enots s1 e) else []) -> announced nt s s' p g.
Proof.
  intros W W1 (_ & _ & Hep & _ & EK) EN He0 He Hg En Ep (HA1 & HA2 & HA3) (_ & _ & _ & EK') EV.
  assert (Hsame : forall x, x ∈ mProtocolDatabase s -> eguid s x = Some g -> x = e /\ e0 = e).
  { intros x Hx Hxg. destruct (EK x Hx) as [Hx1 Hxg1]. assert (x = e) as -> by (apply (wf_guids s1 W1); [done|done|congruence]).
    split; [done|]. destruct He0 as [[H0 H0g]|[_ Hno]]; [|by destruct (Hno e Hx)].
    apply (wf_guids s W); [done|done|congruence]. }
  destruct (EK' e He) as [He' Hg']. exists e0, e. split_and!; [done|done|congruence|by rewrite HA1, Ep| | |].
  - rewrite EV, En. unfold signals. by rewrite EN.
  - intros n Hn. destruct He0 as [[H0 H0g]|[-> _]].
    2:{ unfold enots in Hn. destruct (wf_null s W) as (_ & N0 & _). rewrite N0 in Hn. by apply not_elem_of_nil in Hn. }
    destruct (wf_notify s W e0 n H0 Hn) as (N & HN & HNe & HNp). destruct (Hsame e0 H0 H0g) as [-> _].
    unfold queue. rewrite HA3, EN, HN. cbn. rewrite HNe, HA1, Ep. apply after_snoc; [by apply W|done].
  - intros n (x & Hx & Hn) Hno. destruct (wf_notify s W x n Hx Hn) as (N & HN & HNe & _).
    unfold queue. rewrite HA3, EN, HN. cbn. rewrite HNe. f_equal. assert (x <> e) as Hxe.
    { intros ->. destruct (EK e Hx) as [_ Hxg]. destruct (Hsame e Hx ltac:(congruence)) as [_ ->]. done. }
    rewrite HA2, Hep by done. done.
Qed.

(** ** The locked part *)

Lemma touch_handle_run h H s : handles s !! h = Some H ->
  let k := wrapU 64 (gHandleDatabaseKey s + 1) in
  touch_handle h s = Ok (tt, upd_handles (<[h := set_Key k H]> (handles s)) (upd_gHandleDatabaseKey k s)).
Proof.
  intros HH k. unfold touch_handle. rewrite (Mbind_Ok (Mmodify _) _ s tt _ eq_refl).
  set (s' := upd_gHandleDatabaseKey _ s). rewrite (Mbind_Ok Mget _ s' s' s' eq_refl). exact (on_handle_ok h (set_Key k) H s' HH).
Qed.

(** A handle under construction has no interface yet. *)
Lemma no_interface_yet h H g i s1 s : wf s1 -> gProtocolDatabaseLock s = true ->
  entries s = entries s1 -> mProtocolDatabase s = mProtocolDatabase s1 -> handles s !! h = Some H ->
  HandleProtocols H = [] -> CoreFindProtocolInterface h g i s = Ok (0, s).
Proof.
  intros W Hlk EE ED HH Hnil. unfold CoreFindProtocolInterface, CoreFindProtocolEntry, ASSERT_LOCKED.
  rewrite (Mbind_Ok _ _ s tt s) by (by rewrite (Mbind_Ok Mget _ s s s eq_refl), Hlk).
  destruct (find_entry_run s1 W g (mProtocolDatabase s1) ltac:(done)) as (e & He & _).
  rewrite (Mbind_Ok _ _ s e s).
  2:{ rewrite (Mbind_Ok _ _ s tt s) by (by rewrite (Mbind_Ok Mget _ s s s eq_refl), Hlk).
      rewrite (Mbind_Ok Mget _ s s s eq_refl), ED. rewrite (Mbind_Ok _ _ s e s (find_entry_frame g s1 s EE _ e He)).
      by rewrite andb_false_r. }
  destruct (negb _); [|done]. unfold handle_at. run_step (deref_ok handles h H s HH). by rewrite Hnil.
Qed.

Lemma view_linked s s1 : wf s -> wf s1 -> view s s1 -> forall q x y, linked s1 q x y <-> linked s q x y.
Proof.
  intros W W1 Hv. pose proof (view_moves stays never s s1 W W1 Hv) as (_ & _ & _).
  destruct Hv as (EL & EH & EP & EI & EK).
  assert (Ei : forall p, ifc s1 p = ifc s p) by (intros p; unfold ifc; by rewrite EI).
  assert (Hl : forall p h e, linked s p h e -> linked s1 p h e).
  { intros p h e (H1 & H2 & H3 & H4 & H5). unfold linked. rewrite Ei, EL, EH, EP. split_and!; try done. by apply EK. }
  intros q x y. split; [|apply Hl]. intros Hq. destruct (Hq) as (H1 & H2 & H3 & H4 & H5).
  rewrite EL in H2. rewrite EH in H4. destruct (wf_hlink s W x q H2 H4) as (z & Hz).
  by destruct (linked_fun s1 q _ _ _ _ Hq (Hl _ _ _ Hz)) as [_ ->].
Qed.

Lemma installed_view s s1 s' p h g i : wf s -> wf s1 -> view s s1 -> installed s1 s' p h g i -> installed s s' p h g i.
Proof.
  intros W W1 Hv (H1 & H2 & H3 & H4 & H5). pose proof (view_linked s s1 W W1 Hv) as Hl.
  destruct Hv as (_ & _ & _ & EI & _). rewrite EI in H2, H4. split_and!; [done|done|done| |].
  - intros q x y Q Hq. apply H4. by apply Hl.
  - intros q x y Hq. destruct (H5 q x y Hq) as [|Hq1]; [by left|right]. by apply Hl.
Qed.

(** What installation leaves with the lock held. *)
Definition install_result (U : Z) (g : EFI_GUID) (i : Z) (nt : bool) (Status : EFI_STATUS) (s : DB)
    (r : EFI_STATUS * Z * Z) (s' : DB) : Prop :=
  let '(st, P, h) := r in
  (st = EFI_SUCCESS /\ goes true s s' /\ installed s s' P h g i /\ announced nt s s' P g /\
   (U <> 0 -> h = U) /\ (U = 0 -> h ∉ gHandleList s)) \/
  (EFI_ERROR st = true /\ aborted s s' P /\
   ((short /\ (st = Status \/ st = EFI_OUT_OF_RESOURCES)) \/ (st = EFI_INVALID_PARAMETER /\ U <> 0 /\ U ∉ gHandleList s))).

Lemma aborted_block s s1 P : wf s -> wf s1 -> moves stays never true s s1 -> view s s1 ->
  P <> 0 -> interfaces s1 !! P = None ->
  aborted s (upd_interfaces (<[P := mkProt 0 0 0 [] 0]> (interfaces s1)) s1) P.
Proof.
  intros W W1 G Hv HP Hf. destruct (orphan_new s1 P (mkProt 0 0 0 [] 0) W1 HP Hf eq_refl) as [G2 Ho].
  pose proof (view_linked s s1 W W1 Hv) as Hl. destruct (G) as ((_ & L1 & _) & _). destruct Hv as (_ & _ & _ & EI & _).
  set (s2 := upd_interfaces _ s1) in *. split_and!.
  - eapply goes_trans; [by eapply moves_goes|]. by rewrite <- L1.
  - right. rewrite <- EI. split; [done|]. by eexists.
  - intros q x y. rewrite <- Hl. destruct (decide (q = P)) as [-> | Hq].
    + split; [intros (_ & Hx & _ & Hin & _); by destruct (proj2 Ho x Hx)|].
      intros Hq. destruct (linked_interface s1 W1 P x y Hq) as (_ & Q & HQ & _). congruence.
    + unfold linked. by rewrite (ifc_insert s1 P _ q s2 eq_refl), decide_False.
  - intros q Hq. cbn. by rewrite lookup_insert_ne, EI.
Qed.

Lemma install_locked_ok U g i nt Status s :
  wf s -> gProtocolDatabaseLock s = true -> EFI_ERROR Status = true -> ~ has s U g i ->
  wp tot (install_locked U g i nt Status) (install_result U g i nt Status s) s.
Proof.
  intros W Hlk HSt Hno. unfold install_locked. eapply wp_seq; [by apply (entry_create tot stays never)|]. cbn beta.
  intros e s1 (G1 & Hv & EHs & ENs & EVs & _ & He). destruct He as [(-> & -> & Hsh)|(He & Hg & e0 & He0 & En0 & Ep0)].
  { apply wp_ret. right. split_and!; [done| |left; by split; [|left]]. split_and!; [rewrite <- Hlk; by apply goes_refl|by left|done|done]. }
  destruct (G1) as ((W1 & L1 & _) & _).
  rewrite (proj2 (Z.eqb_neq e 0)) by (by apply (entry_nonnull s1 W1)). apply wp_get.
  destruct (AllocatePool s1) as [P|] eqn:Ha.
  2:{ apply wp_ret. right. split_and!; [done| |left; split; [by exists s1|by right]].
      split_and!; [by eapply moves_goes|by left|by apply view_linked|].
      intros q _. by destruct Hv as (_ & _ & _ & -> & _). }
  destruct (alloc_fresh s1 P Ha) as (HP0 & _ & _ & HPf & _). apply wp_modify.
  pose proof (aborted_block s s1 P W W1 G1 Hv HP0 HPf) as Hab. set (s2 := upd_interfaces _ s1) in *.
  destruct (wf_entry s1 W1 e He) as [E HE].
  assert (EG : ProtocolID E = g) by (unfold eguid in Hg; rewrite HE in Hg; by simplify_eq/=).
  assert (Hres : forall h r s', (U <> 0 -> h = U) -> (U = 0 -> h ∉ gHandleList s) ->
    r = (EFI_SUCCESS, P, h) /\ goes true s1 s' /\ installed s1 s' P h (ProtocolID E) i /\ added s1 s' e P /\
    event_calls s' = event_calls s2 ++ (if nt then signals s1 (enots s1 e) else []) ->
    install_result U g i nt Status s r s').
  { intros h r s' HU HU0 (-> & G' & HI & HA & EV). left. rewrite EG in HI. cbn in EV. rewrite EVs in EV.
    split_and!; [done|eapply goes_trans; [by eapply moves_goes|done]|by eapply installed_view| |done|done].
    by eapply (announce nt s s1 s' P g e e0). }
  destruct (Z.eqb_spec U 0) as [-> | HU].
  - apply wp_bind, wp_get. destruct (AllocatePool s2) as [h|] eqn:Hah.
    2:{ apply wp_ret. cbn beta iota. cbn [EFI_ERROR]. apply wp_ret. right. split_and!; [done|done|].
        left. split; [by exists s2|by right]. }
    destruct (alloc_fresh s2 h Hah) as (Hh0 & Hhf & _). apply wp_modify.
    eapply wp_step; [by apply (touch_handle_run h (mkHandle [] 0 0)); cbn; rewrite lookup_insert_eq|].
    apply wp_modify, wp_ret. cbn beta iota. cbn [EFI_ERROR].
    assert (Hnew : h ∉ gHandleList s1) by (intros [H HH]%(wf_handle s1 W1); cbn in Hhf; congruence).
    assert (EL : gHandleList s1 = gHandleList s) by apply Hv.
    set (s5 := upd_gHandleList _ _).
    assert (HH5 : exists H, handles s5 !! h = Some H /\ HandleProtocols H = []).
    { eexists. split; [cbn; by rewrite lookup_insert_eq|done]. }
    destruct HH5 as (H & HH & Hnil).
    eapply wp_step; [by apply (no_interface_yet h H g i s1)|]. cbn beta. eapply wp_step; [done|]. cbn beta.
    assert (Ehp : hprots s1 h = []) by (unfold hprots; cbn in Hhf; by rewrite Hhf).
    eapply wp_mono; [eapply (install_link s1 s5 P h e E H)|intros r s'; apply Hres]; try done.
    + cbn. apply NoDup_app. split_and!; [apply W1| |apply NoDup_singleton].
      intros x Hx ->%list_elem_of_singleton. done.
    + intros x. cbn. rewrite elem_of_app, list_elem_of_singleton. tauto.
    + by right.
    + left. eexists. cbn. by rewrite insert_insert_eq.
    + by rewrite Ehp.
    + intros _. by rewrite <- EL.
  - assert (W2 : wf s2) by (by destruct Hab as ((? & _) & _)).
    assert (EL : gHandleList s1 = gHandleList s) by apply Hv.
    eapply wp_step; [by rewrite (Mbind_Ok _ _ _ _ _ (validate_run s2 W2 U))|]. cbn beta iota.
    change (gHandleList s2) with (gHandleList s1). rewrite EL. case_bool_decide as HU'; cbn [EFI_ERROR].
    2:{ apply wp_ret. right. by split_and!; [|done|right]. }
    destruct (interface_run s2 W2 U g i) as (q & Hq & Hspec); [done|cbn; by rewrite EL|].
    destruct Hspec as [(Hprov & Q & HQ & HQi)|[-> _]].
    { destruct Hno. destruct Hab as (_ & _ & Hl & Hif). destruct Hprov as (y & Hy & Hgy). apply Hl in Hy.
      assert (q <> P).
      { intros ->. destruct (linked_interface s W P U y Hy) as (_ & Q' & HQ' & _).
        destruct Hv as (_ & _ & _ & EI & _). congruence. }
      exists q, Q. rewrite <- Hif by done. split_and!; [|done|done]. exists y. split; [done|].
      destruct Hy as (_ & _ & Hy & _). destruct Hv as (_ & _ & _ & _ & EK). by rewrite <- (proj2 (EK y Hy)). }
    eapply wp_step; [exact Hq|]. cbn beta. eapply wp_step; [done|]. cbn beta.
    destruct (wf_handle s1 W1 U) as [H HH]; [by rewrite EL|].
    eapply wp_mono; [eapply (install_link s1 s2 P U e E H)|intros r s'; apply Hres]; try done.
    + apply W1.
    + intros x. cbn. rewrite EL. naive_solver.
    + left. by rewrite EL.
    + by right.
    + unfold hprots. by rewrite HH.
Qed.

(** ** The service *)

(** The check that the protocol is not there yet. *)
Lemma quiet_error U g s :
  wf s -> gProtocolDatabaseLock s = false ->
  wp tot (if negb (U =? 0) then CoreHandleProtocol U (Some g) true else Mret (EFI_OUT_OF_RESOURCES, None))
    (fun r s' => outside stays never s s' /\ (U = 0 -> s' = s /\ EFI_ERROR r.1 = true) /\
       (EFI_ERROR r.1 = false -> exists p, provides s p U g) /\
       (forall p, provides s p U g -> EFI_ERROR r.1 = false \/ short)) s.
Proof.
  intros W Hlk. destruct (Z.eqb_spec U 0) as [-> | HU]; cbn [negb].
  - apply wp_ret. split_and!; [by apply unchanged|done|done|]. intros p (e & (_ & H0 & _) & _). by apply (handle_nonnull s W) in H0.
  - eapply wp_mono; [by apply (handle_protocol_safe tot stays never)|]. cbn. intros r s' (O & Ho1 & Ho2). split_and!; [done|done| |].
    + intros Hr. destruct (Ho1 Hr) as (g' & p & [= <-] & Hp). by exists p.
    + intros p Hp. destruct (Ho2 eq_refl eq_refl g p eq_refl Hp) as [|[_ ?]]; [by left|by right].
Qed.

(** The outcome of an installation that starts in [s] and ends in [s']: in
    between, other code may run when the lock is free.  A protocol is
    installed twice on a handle only if memory is short. *)
Definition install_outcome (U : Z) (g : EFI_GUID) (i : Z) (nt : bool) (s : DB) (r : EFI_STATUS * Z) (s' : DB) : Prop :=
  exists s0, outside stays never s s0 /\ (U = 0 -> s0 = s) /\
    ((r.1 = EFI_SUCCESS /\ (U <> 0 -> r.2 = U) /\ (U = 0 -> r.2 ∉ gHandleList s) /\
      ((forall p, ~ provides s p U g) \/ short) /\
      exists p s1, installed s0 s1 p r.2 g i /\ announced nt s0 s1 p g /\ outside stays never s1 s') \/
     (EFI_ERROR r.1 = true /\ r.2 = U /\
      (short \/ (r.1 = EFI_INVALID_PARAMETER /\ U <> 0 /\ ((exists p, provides s p U g) \/ U ∉ gHandleList s0))) /\
      exists s1, (forall q x y, linked s1 q x y <-> linked s0 q x y) /\ outside stays never s1 s')).

Lemma aborted_free s s1 s2 P :
  aborted s s1 P -> outside stays never s1 s2 ->
  wp tot (if negb (P =? 0) then free_interface P else Mret tt) (fun _ s3 => goes false s s3 /\
    exists s1', (forall q x y, linked s1' q x y <-> linked s q x y) /\ outside stays never s1' s3) s2.
Proof.
  intros (G & HP & Hl & Hif) O. pose proof (moves_goes _ _ _ _ _ O) as G2. destruct HP as [-> | (Hf & X & Ho)].
  { apply wp_ret. split; [by eapply goes_trans|]. by exists s1. }
  assert (HP0 : P <> 0).
  { intros ->. destruct G as (W1 & _). destruct (wf_null s1 W1) as (_ & _ & N & _), Ho as [Ho _]. congruence. }
  rewrite (proj2 (Z.eqb_neq P 0) HP0). cbn [negb]. destruct (G2) as (W2 & L2 & O2 & E2). pose proof (O2 P X Ho) as Ho2.
  destruct (orphan_free s2 P X W2 Ho2) as (W3 & L3 & E3 & O3).
  eapply wp_eq; [by apply (free_interface_ok P X); apply Ho2|]. fold (freed P s2) in *. split.
  - destruct G as (_ & _ & Os & Es). split_and!; [done|by rewrite L3| |].
    + intros q Q Hq. apply O3; [|by apply O2, Os]. intros ->. destruct Hq. congruence.
    + intros e He. destruct (Es e He) as [He1 Hg1]. destruct (E2 e He1) as [He2 Hg2]. destruct (E3 e He2) as [He3 Hg3].
      split; [done|congruence].
  - exists (freed P s1). split; [intros q x y; by rewrite (freed_linked s1 P X Ho)|].
    apply (outside_freed _ _ s1 s2 P X Ho); [apply G|done].
Qed.

Lemma install_ok U g i nt s :
  wf s -> gProtocolDatabaseLock s = false -> (U <> 0 -> never U g i) -> ~ has s U g i ->
  wp tot (CoreInstallProtocolInterfaceNotify (Some U) (Some g) EFI_NATIVE_INTERFACE i nt)
    (fun r s' => goes false s s' /\ install_outcome U g i nt s r s') s.
Proof.
  intros W Hlk Hnev Hno. unfold CoreInstallProtocolInterfaceNotify. rewrite Z.eqb_refl. cbn [negb].
  eapply wp_seq; [by apply quiet_error|]. cbn beta. intros [Status x] s0 (O0 & HU0 & Hthere & Hshort). cbn in HU0, Hthere, Hshort.
  destruct (O0) as ((W0 & L0 & _) & _ & N0). destruct (negb (U =? 0) && negb (EFI_ERROR Status)) eqn:Hdup.
  { apply wp_ret. split; [apply O0|]. exists s0. split_and!; [done|naive_solver|]. right. cbn.
    apply andb_prop in Hdup as [HU%negb_true_iff%Z.eqb_neq Hst%negb_true_iff].
    split_and!; [done|done|right; split_and!; [done|done|left; by apply Hthere]|].
    exists s0. split; [done|]. by apply unchanged. }
  assert (HSt : EFI_ERROR Status = true).
  { destruct (Z.eqb_spec U 0) as [-> | HU]; [by apply HU0|]. cbn in Hdup. by destruct (EFI_ERROR Status). }
  assert (Hno0 : ~ has s0 U g i).
  { destruct (decide (U = 0)) as [HU | HU]; [by destruct (HU0 HU) as [-> _]|]. by apply N0; [apply Hnev|]. }
  assert (Hnew : (forall p, ~ provides s p U g) \/ short).
  { destruct (protocol_run s W U g) as (p & _ & [Hp|[_ Hp]]); [|by left]. right.
    destruct (Hshort p Hp) as [Hst|]; [congruence|done]. }
  apply wp_acquire; [done|]. set (s0' := upd_gProtocolDatabaseLock true s0).
  assert (W0' : wf s0') by (by apply locked_wf).
  eapply wp_seq; [by apply (install_locked_ok U g i nt Status s0')|]. cbn beta. intros [[st P] h] s1 Hres.
  destruct Hres as [(-> & G1 & HI & HA & HhU & HhU0)|(Hst & Hab & Hwhy)].
  - destruct (G1) as (W1 & L1 & _). apply (wp_release tot stays never); [done|done|]. intros s2 O2. cbn [EFI_ERROR negb].
    apply wp_ret. split.
    + eapply goes_trans; [apply O0|]. eapply goes_trans; [exact G1|apply O2].
    + exists s0. split_and!; [done|naive_solver|]. left. cbn. split_and!; [done|done| |done|by exists P, s1].
      intros HU. destruct (HU0 HU) as [E _]. subst s0. by apply HhU0.
  - destruct (Hab) as ((W1 & L1 & _) & _). apply (wp_release tot stays never); [done|done|]. intros s2 O2.
    rewrite Hst. cbn [negb]. eapply wp_seq; [by apply (aborted_free s0' s1 s2 P)|]. cbn beta.
    intros _ s3 (G3 & s1' & Hl & O3). apply wp_ret. split; [eapply goes_trans; [apply O0|exact G3]|].
    exists s0. split_and!; [done|naive_solver|]. right. cbn. split_and!; [done|done|naive_solver|]. by exists s1'.
Qed.
End Install.
