(* ===== verification/HandRemove.v ===== *)
(** * HandRemove: uninstalling and reinstalling protocol interfaces *)

From stdpp Require Import base option list gmap fin_maps.
From Stdlib Require Import ZArith Lia.
From S2P Require Import Prelude Hand HandInv HandRun HandSafe HandInstall.

Local Open Scope Z_scope.
Local Open Scope edk_scope.

Lemma back_up_run p Back : Back <> Some p -> forall l s, (forall n, n ∈ l -> is_Some (notifies s !! n)) ->
  exists ns, back_up p Back l s = Ok (tt, upd_notifies ns s) /\ backed p Back l (notifies s) ns.
Proof.
  intros HB. induction l as [|n l IH]; intros s Hl; cbn [back_up].
  { exists (notifies s). split; [by destruct s|]. intros n. rewrite decide_False; [done|apply not_elem_of_nil]. }
  destruct (Hl n ltac:(by left)) as [N HN]. unfold notify_at. run_step (deref_ok notifies n N s HN).
  set (s1 := upd_notifies (<[n := back p Back N]> (notifies s)) s).
  assert (E1 : (if bool_decide (Position N = Some p) then on_notify n (set_Position Back) else Mret tt) s = Ok (tt, s1)).
  { unfold s1, back. case_bool_decide; [by apply on_notify_ok|]. rewrite insert_id by done. by destruct s. }
  run_step E1. destruct (IH s1) as (ns & Hrun & Hbk).
  { intros m Hm. cbn. destruct (decide (m = n)) as [-> |]; [by rewrite lookup_insert_eq|].
    rewrite lookup_insert_ne by done. apply Hl. by right. }
  exists ns. split; [done|]. intros m. rewrite Hbk. cbn.
  assert (Hb : back p Back (back p Back N) = back p Back N).
  { unfold back. case_bool_decide; [|by rewrite bool_decide_false]. by rewrite bool_decide_false. }
  destruct (decide (m = n)) as [-> | Hm].
  - rewrite lookup_insert_eq, HN, (decide_True (P := n ∈ n :: l)) by (by left).
    cbn. rewrite Hb. by destruct (decide (n ∈ l)).
  - rewrite lookup_insert_ne by done. assert (m ∈ n :: l <-> m ∈ l) as Hiff by (rewrite elem_of_cons; naive_solver).
    by repeat case_decide; try tauto.
Qed.

(** CoreRemoveInterfaceFromProtocol, on a protocol that is there. *)
Lemma remove_run `{Env : HAND_ENV} h g i s : wf s -> gProtocolDatabaseLock s = true -> h ∈ gHandleList s -> has s h g i ->
  exists p P e E Back ns, pinned p h e i s /\ eguid s e = Some g /\ interfaces s !! p = Some P /\ entries s !! e = Some E /\
    p <> 0 /\ BackLink (eprots s e) p = Some Back /\ backed p Back (enots s e) (notifies s) ns /\
    CoreRemoveInterfaceFromProtocol h g i s =
      Ok (p, upd_entries (<[e := set_EntryProtocols (unlink p (EntryProtocols E)) E]> (entries s)) (upd_notifies ns s)).
Proof.
  intros W Hlk Hh Hhas. destruct (interface_run s W h g i Hlk Hh) as (p & Hp & Hspec).
  destruct Hspec as [((e & Hl & Hg) & P & HP & HPi)|[_ Hno]]; [|done].
  destruct (linked_interface s W p h e Hl) as (Hp0 & P' & HP' & HPh & HPe). simplify_eq.
  destruct (Hl) as (_ & _ & He & _ & Hpe). destruct (wf_entry s W _ He) as [E HE].
  assert (Eep : EntryProtocols E = eprots s (Protocol P)) by (unfold eprots; by rewrite HE).
  assert (Een : Notify E = enots s (Protocol P)) by (unfold enots; by rewrite HE).
  destruct (BackLink_ok p _ Hpe (proj1 (wf_eprots s W _ He))) as (Back & HB & Hback).
  destruct (back_up_run p Back ltac:(intros ->; by destruct (Hback p eq_refl)) (enots s (Protocol P)) s) as (ns & Hrun & Hbk).
  { intros n Hn. by apply (notify_at_ok s W _ n He Hn). }
  exists p, P, (Protocol P), E, Back, ns. split_and!; try done.
  { split; [done|]. by exists P. }
  unfold CoreRemoveInterfaceFromProtocol, ASSERT_LOCKED.
  rewrite (Mbind_Ok _ _ s tt s) by (by rewrite (Mbind_Ok Mget _ s s s eq_refl), Hlk). run_step Hp.
  rewrite (proj2 (Z.eqb_neq p 0) Hp0). cbn [negb]. unfold interface_at. run_step (deref_ok interfaces p P s HP).
  unfold entry_at. run_step (deref_ok entries _ E s HE). rewrite Eep, HB, Een. run_step Hrun.
  rewrite (Mbind_Ok _ _ _ _ _ (on_entry_ok _ _ E (upd_notifies ns s) HE)). by rewrite Eep.
Qed.

(** [p] left handle [h], and nothing else changed on any handle. *)
Definition removed (s s' : DB) (p h : Z) : Prop :=
  interfaces s' !! p = None /\
  (forall q x y, linked s' q x y <-> linked s q x y /\ q <> p) /\
  (forall q, q <> p -> interfaces s' !! q = interfaces s !! q) /\
  (forall x, x ∈ gHandleList s' <-> x ∈ gHandleList s /\ (x = h -> hprots s h <> [p])) /\
  (forall e, e ∈ mProtocolDatabase s -> eprots s' e = unlink p (eprots s e)) /\
  (forall n, registered s n -> queue s' n = unlink p (queue s n)).

(** ** An interface leaves the database *)

Section Unlink.
Context (s s' : DB) (p h e : Z) (E : PROTOCOL_ENTRY) (Back : option Z) (W : wf s) (Hl : linked s p h e).
Context (HE : entries s !! e = Some E) (HB : BackLink (eprots s e) p = Some Back).
Let rest := unlink p (hprots s h).
Context (HnoL : NoDup (gHandleList s')).
Context (HinL : forall x, x ∈ gHandleList s' <-> x ∈ gHandleList s /\ (x = h -> rest <> [])).
Context (ED : mProtocolDatabase s' = mProtocolDatabase s) (EH : forall x, x <> h -> handles s' !! x = handles s !! x).
Context (EHh : rest <> [] -> exists H', handles s' !! h = Some H' /\ HandleProtocols H' = rest).
Context (EE : entries s' = <[e := set_EntryProtocols (unlink p (EntryProtocols E)) E]> (entries s)).
Context (EI : interfaces s' = delete p (interfaces s)) (EN : backed p Back (enots s e) (notifies s) (notifies s')).

Lemma unlink_wf : wf s'.
Proof. by eapply (wf_unlink s s' p h e E Back). Qed.

Lemma rest_nil : rest = [] <-> hprots s h = [p].
Proof.
  destruct Hl as (_ & Hh & _ & Hp & _). unfold rest.
  destruct (NoDup_split p _ Hp (proj1 (wf_hprots s W h Hh))) as (l1 & l2 & Heq & H1 & H2).
  rewrite Heq, unlink_mid by (rewrite <- Heq; by apply W). split.
  - intros [-> ->]%app_eq_nil. done.
  - destruct l1 as [|x l1]; [by intros [= ->]|]. intros [= -> Hbad]. by destruct l1.
Qed.

Lemma unlink_hprots x : x ∈ gHandleList s' -> hprots s' x = unlink p (hprots s x).
Proof.
  intros [Hx Hr]%HinL. destruct (decide (x = h)) as [-> | Hne].
  - destruct (EHh (Hr eq_refl)) as (H' & HH' & Hr'). unfold hprots at 1. rewrite HH'. exact Hr'.
  - rewrite unlink_id; [unfold hprots; by rewrite EH|]. intros Hq.
    destruct (wf_hlink s W x p Hx Hq) as [y Hy]. by destruct (linked_fun s _ _ _ _ _ Hl Hy).
Qed.

Lemma unlink_linked q x y : linked s' q x y <-> linked s q x y /\ q <> p.
Proof.
  pose proof unlink_wf as W'.
  assert (Hfw : linked s q x y -> q <> p -> linked s' q x y).
  { intros (H1 & H2 & H3 & H4 & H5) Hq. assert (x ∈ gHandleList s').
    { apply HinL. split; [done|]. intros -> Hr. eapply (not_elem_of_nil q). rewrite <- Hr. by apply elem_of_unlink. }
    unfold linked. rewrite (ifc_delete s p q s' EI), ED, unlink_hprots, (eprots_insert s e _ y s' EE), decide_False by done.
    rewrite elem_of_unlink. split_and!; try done. case_decide; [subst y|done]. cbn. apply elem_of_unlink.
    split; [|done]. revert H5. unfold eprots. by rewrite HE. }
  split; [|by intros [? ?]; apply Hfw]. intros Hq. destruct (Hq) as (H1 & H2 & _ & H4 & _).
  rewrite unlink_hprots, elem_of_unlink in H4 by done. destruct H4 as [H4 Hqp]. split; [|done].
  destruct (wf_hlink s W x q (proj1 (proj1 (HinL x) H2)) H4) as [z Hz].
  rewrite (ifc_delete s p q s' EI), decide_False in H1 by done. destruct (Hz) as (Hz' & _). rewrite H1 in Hz'.
  by simplify_eq.
Qed.

Lemma unlink_eprots x : x ∈ mProtocolDatabase s -> eprots s' x = unlink p (eprots s x).
Proof.
  intros Hx. rewrite (eprots_insert s e _ x s' EE). case_decide as Hd.
  - subst x. unfold eprots. by rewrite HE.
  - rewrite unlink_id; [done|]. intros Hp. destruct (wf_elink s W x p Hx Hp) as [y Hy].
    by destruct (linked_fun s _ _ _ _ _ Hl Hy).
Qed.

(** The interface leaves the queues. *)
Lemma unlink_queue n : registered s n -> queue s' n = unlink p (queue s n).
Proof.
  intros (x & Hx & Hn). destruct (wf_notify s W x n Hx Hn) as (N & HN & HNe & HNp). unfold queue. rewrite EN, HN.
  destruct (decide (n ∈ enots s e)) as [He|He]; cbn [fmap option_fmap option_map from_option].
  - assert (x = e) as ->.
    { destruct Hl as (_ & _ & Hdb & _). destruct (wf_notify s W e n Hdb He) as (N' & HN' & HNe' & _). congruence. }
    assert (Hb : back p Back N = set_Position (if bool_decide (Position N = Some p) then Back else Position N) N).
    { unfold back. case_bool_decide; [done|by destruct N]. }
    rewrite Hb. cbn. rewrite HNe, unlink_eprots by done. destruct Hl as (_ & _ & _ & _ & Hpe).
    apply after_unlink; [by apply W|done|done|done].
  - rewrite HNe, unlink_eprots by done. assert (x <> e) as Hxe by (by intros ->).
    assert (Hp : p ∉ eprots s x).
    { intros Hp. destruct (wf_elink s W x p Hx Hp) as [y Hy]. by destruct (linked_fun s _ _ _ _ _ Hl Hy). }
    rewrite (unlink_id p (eprots s x) Hp), unlink_id; [done|]. intros Hq%elem_of_after. done.
Qed.

Lemma unlink_goes : goes (gProtocolDatabaseLock s') s s' /\ removed s s' p h.
Proof.
  split; [split_and!; [apply unlink_wf|done| |]|split_and!].
  - intros q Q [HQ Hno]. split.
    + rewrite EI, lookup_delete_ne; [done|]. intros <-. destruct Hl as (_ & Hh & _ & Hp & _). by apply (Hno h).
    + intros x Hx. rewrite unlink_hprots, elem_of_unlink by done. intros [Hin _]. destruct (proj1 (HinL x) Hx) as [Hx1 _]. exact (Hno x Hx1 Hin).
  - intros x Hx. split; [by rewrite ED|]. rewrite (eguid_insert s e _ x s' EE). case_decide; [subst|done].
    unfold eguid. by rewrite HE.
  - rewrite EI. apply lookup_delete_eq.
  - apply unlink_linked.
  - intros q Hq. by rewrite EI, lookup_delete_ne.
  - intros x. rewrite HinL. by rewrite rest_nil.
  - apply unlink_eprots.
  - apply unlink_queue.
Qed.
End Unlink.

Section Remove.
Context `{Env : HAND_ENV} (tot : bool) (stays : Z -> Prop) (never : Z -> EFI_GUID -> Z -> Prop).
Context `{!HAND_LAWS tot stays never}.

(** The steps of removal after the drivers are disconnected. *)
Lemma uninstall_tail h g i s : wf s -> gProtocolDatabaseLock s = true -> h ∈ gHandleList s -> has s h g i ->
  wp tot
    (let! p := CoreRemoveInterfaceFromProtocol h g i in
     let! Status :=
       (if negb (p =? 0) then
          touch_handle h ;;;
          let! P := interface_at p in
          on_handle (Handle P) (fun H => set_HandleProtocols (unlink p (HandleProtocols H)) H) ;;;
          free_interface p ;;;
          Mret EFI_SUCCESS
        else Mret EFI_NOT_FOUND) in
     let! H := handle_at h in
     (if bool_decide (HandleProtocols H = []) then
        Mmodify (fun s => upd_gHandleList (unlink h (gHandleList s)) s) ;;;
        free_handle h
      else Mret tt) ;;;
     Mret Status)
    (fun st s' => st = EFI_SUCCESS /\ exists p e, pinned p h e i s /\ eguid s e = Some g /\
       goes true s s' /\ removed s s' p h) s.
Proof.
  intros W Hlk Hh Hhas.
  destruct (remove_run h g i s W Hlk Hh Hhas) as (p & P & e & E & Back & ns & Hpin & Hg & HP & HE & Hp0 & HB & Hbk & Hrun).
  destruct (Hpin) as (Hl & P' & HP' & _). rewrite HP in HP'. injection HP' as <-.
  destruct (linked_interface s W p h e Hl) as (_ & P' & HP' & HPh & HPe). rewrite HP in HP'. injection HP' as <-.
  destruct (wf_handle s W h Hh) as [H HH].
  assert (EHp : HandleProtocols H = hprots s h) by (unfold hprots; by rewrite HH).
  eapply wp_step; [exact Hrun|]. cbn beta. rewrite (proj2 (Z.eqb_neq p 0) Hp0). cbn [negb]. apply wp_bind.
  eapply wp_step; [by apply (touch_handle_run h H)|]. cbn beta. unfold interface_at. eapply wp_deref; [exact HP|].
  rewrite HPh. set (k := wrapU 64 _).
  eapply wp_step; [apply (on_handle_ok h _ (set_Key k H)); cbn; by rewrite lookup_insert_eq|]. cbn beta.
  eapply wp_step; [by apply (free_interface_ok p P)|]. cbn beta. apply wp_ret.
  set (s1 := upd_interfaces _ _). set (H1 := set_HandleProtocols _ _) in s1.
  assert (HH1 : handles s1 !! h = Some H1) by (cbn; by rewrite lookup_insert_eq).
  assert (EH1 : HandleProtocols H1 = unlink p (hprots s h)) by (cbn; by rewrite EHp).
  unfold handle_at. eapply wp_deref; [exact HH1|]. rewrite EH1.
  assert (Hother : forall x, x <> h -> handles s1 !! x = handles s !! x).
  { intros x Hx. cbn. by rewrite !lookup_insert_ne. }
  destruct (decide (unlink p (hprots s h) = [])) as [Hr | Hr].
  - rewrite bool_decide_true by done. apply wp_bind, wp_modify. eapply wp_eq; [by apply (free_handle_ok h H1)|].
    apply wp_ret. split; [done|]. exists p, e. set (s2 := upd_handles _ _).
    assert (HU : goes (gProtocolDatabaseLock s2) s s2 /\ removed s s2 p h).
    { eapply (unlink_goes s s2 p h e E Back); try done.
      - cbn. by apply NoDup_unlink, W.
      - intros x. cbn. rewrite elem_of_unlink. naive_solver.
      - intros x Hx. cbn. rewrite lookup_delete_ne by done. by apply Hother. }
    change (gProtocolDatabaseLock s2) with (gProtocolDatabaseLock s) in HU. rewrite Hlk in HU. by destruct HU.
  - rewrite bool_decide_false by done. eapply wp_step; [done|]. cbn beta. apply wp_ret. split; [done|]. exists p, e.
    assert (HU : goes (gProtocolDatabaseLock s1) s s1 /\ removed s s1 p h).
    { eapply (unlink_goes s s1 p h e E Back); try done; [apply W|intros x; naive_solver|]. intros _. by exists H1. }
    change (gProtocolDatabaseLock s1) with (gProtocolDatabaseLock s) in HU. rewrite Hlk in HU. by destruct HU.
Qed.

(** The opens that the removal of an interface does not undo by itself. *)
Definition holds (o : OPEN_PROTOCOL_DATA) : Prop :=
  has_attr (Attributes o) (Z.lor (Z.lor EFI_OPEN_PROTOCOL_BY_HANDLE_PROTOCOL EFI_OPEN_PROTOCOL_GET_PROTOCOL)
    EFI_OPEN_PROTOCOL_TEST_PROTOCOL) = false.
#[global] Instance holds_dec o : Decision (holds o).
Proof. unfold holds. apply _. Defined.

(** With no driver to disconnect, the removal is refused exactly if such an
    open is left. *)
Definition refusal (s : DB) (p : Z) (st : EFI_STATUS) : Prop :=
  no_driver p s -> forall P, interfaces s !! p = Some P ->
    (st <> EFI_SUCCESS -> filter holds (OpenList P) <> []) /\
    (st = EFI_SUCCESS -> Z.of_nat (length (OpenList P)) < 2 ^ 64 -> filter holds (OpenList P) = []).

(** Dropping the opens that do not hold the interface. *)
Lemma drop_opens_ok (h p e i : Z) s : wf s -> gProtocolDatabaseLock s = true -> pinned p h e i s ->
  wp tot (let! P := interface_at p in
          let mask := Z.lor (Z.lor EFI_OPEN_PROTOCOL_BY_HANDLE_PROTOCOL EFI_OPEN_PROTOCOL_GET_PROTOCOL)
                        EFI_OPEN_PROTOCOL_TEST_PROTOCOL in
          let '(l, n, _) := remove_opens (fun o => has_attr (Attributes o) mask) (OpenListCount P) (OpenList P) in
          on_interface p (set_OpenList l n))
    (fun _ s' => moves stays never true s s' /\ pinned p h e i s' /\
       forall P, interfaces s !! p = Some P -> exists P', interfaces s' !! p = Some P' /\
         OpenListCount P' = wrapU 64 (Z.of_nat (length (filter holds (OpenList P))))) s.
Proof.
  intros W Hlk Hpin. destruct (Hpin) as (Hl & P & HP & _). unfold interface_at. eapply wp_deref; [exact HP|]. cbn zeta.
  pose proof (remove_opens_ok (fun o => has_attr (Attributes o) (Z.lor (Z.lor EFI_OPEN_PROTOCOL_BY_HANDLE_PROTOCOL
    EFI_OPEN_PROTOCOL_GET_PROTOCOL) EFI_OPEN_PROTOCOL_TEST_PROTOCOL)) (OpenList P)) as Hrm.
  rewrite <- (wf_count s W p P HP) in Hrm. destruct (remove_opens _ _ _) as [[l n] b]. destruct Hrm as (El & Hn & _).
  eapply wp_eq; [by apply on_interface_ok|]. split_and!.
  - rewrite <- Hlk. by apply (opens_moves s W p h e Hl P HP l n Hn).
  - by apply (opens_pinned s p P HP).
  - intros P0 HP0. rewrite HP in HP0. injection HP0 as <-. eexists. split; [cbn; by rewrite lookup_insert_eq|].
    cbn. rewrite Hn, El. done.
Qed.

Lemma disconnect_using_ok h p e i s :
  stays p -> wf s -> gProtocolDatabaseLock s = true -> pinned p h e i s -> ends tot fuel p s ->
  wp tot (CoreDisconnectControllersUsingProtocolInterface h p)
    (fun st s' => moves stays never true s s' /\ pinned p h e i s' /\ (st = EFI_SUCCESS \/ st = EFI_ACCESS_DENIED) /\
       refusal s p st) s.
Proof.
  intros Hst W Hlk Hpin Hend. unfold CoreDisconnectControllersUsingProtocolInterface.
  eapply wp_seq; [by apply (disconnect_drivers_ok tot stays never _ h p e i)|]. cbn beta.
  intros st s1 (G1 & Hpin1 & Hcase & Hnone). destruct (G1) as ((W1 & L1 & _) & _).
  apply (wp_seq _ _ _ (fun _ s2 => moves stays never true s s2 /\ pinned p h e i s2 /\
    (no_driver p s -> forall P, interfaces s !! p = Some P -> exists P', interfaces s2 !! p = Some P' /\
       OpenListCount P' = wrapU 64 (Z.of_nat (length (filter holds (OpenList P))))))).
  { destruct (EFI_ERROR st) eqn:Est; cbn [negb].
    - apply wp_ret. split_and!; [done|done|]. intros Hno. destruct (Hnone Hno) as [-> _]. done.
    - eapply wp_mono; [by apply (drop_opens_ok h p e i s1)|]. cbn beta. intros _ s2 (G2 & Hpin2 & Hn2).
      split_and!; [by eapply moves_trans|done|]. intros Hno. destruct (Hnone Hno) as [_ ->]. done. }
  intros [] s2 (G2 & Hpin2 & Hn2). destruct (Hpin2) as (Hl2 & P2 & HP2 & _). destruct (G2) as ((W2 & L2 & _) & _).
  unfold interface_at. eapply wp_deref; [exact HP2|].
  assert (Hcount : no_driver p s -> forall P, interfaces s !! p = Some P ->
    OpenListCount P2 = wrapU 64 (Z.of_nat (length (filter holds (OpenList P))))).
  { intros Hno P HP. destruct (Hn2 Hno P HP) as (P' & HP' & E). rewrite HP2 in HP'. by injection HP' as <-. }
  destruct (_ || _) eqn:Hc.
  - apply (wp_window tot stays never); [done|done|intros; by apply connect_ok|]. intros _ s3 G3. apply wp_ret.
    split_and!; [by eapply moves_trans|by eapply moves_pinned|by right|]. intros Hno P HP. split; [|done]. intros _ Hnil.
    destruct (Hnone Hno) as [-> _]. rewrite (Hcount Hno P HP), Hnil in Hc. done.
  - apply wp_ret. apply orb_false_iff in Hc as [Hc Hz%Z.ltb_ge]. assert (st = EFI_SUCCESS) as -> by (by destruct st).
    split_and!; [done|done|by left|]. intros Hno P HP. split; [done|]. intros _ Hlen.
    rewrite (Hcount Hno P HP) in Hz. apply length_zero_iff_nil. pose proof (length_filter holds (OpenList P)) as Hf.
    unfold wrapU in Hz. rewrite Z.mod_small in Hz; lia.
Qed.

(** What CoreUninstallProtocolInterface does: other code may run before and
    after the removal. *)
Definition uninstall_outcome (h : Z) (g : EFI_GUID) (i : Z) (s : DB) (st : EFI_STATUS) (s' : DB) : Prop :=
  (st = EFI_SUCCESS /\ (exists p e, pinned p h e i s /\ eguid s e = Some g /\ refusal s p st) /\
     exists s1 s2 p e, moves stays never true s s1 /\ pinned p h e i s1 /\ eguid s1 e = Some g /\
     removed s1 s2 p h /\ outside stays never s2 s') \/
  (st = EFI_ACCESS_DENIED /\ (exists p e, pinned p h e i s /\ eguid s e = Some g /\ refusal s p st) /\
     outside stays never s s') \/
  (st = EFI_NOT_FOUND /\ h ∈ gHandleList s /\ ~ has s h g i /\ outside stays never s s') \/
  (st = EFI_INVALID_PARAMETER /\ h ∉ gHandleList s /\ s' = s).

Lemma provides_moves b s s' p h g : moves stays never b s s' -> provides s p h g -> stays p -> wf s -> provides s' p h g.
Proof.
  intros (G & S & _) (e & Hl & Hg) Hp W. destruct (linked_interface s W p h e Hl) as (_ & P & HP & _).
  exists e. split; [by apply (S p h e P)|]. destruct G as (_ & _ & _ & EK), Hl as (_ & _ & He & _).
  by rewrite (proj2 (EK e He)).
Qed.

(** The interface that a removal is about stays, and its drivers can be
    disconnected. *)
Definition removable (h : Z) (g : EFI_GUID) (i : Z) (s : DB) : Prop :=
  forall p P, provides s p h g -> interfaces s !! p = Some P -> Interface P = i -> stays p /\ ends tot fuel p s.

Lemma uninstall_ok h g i s :
  wf s -> gProtocolDatabaseLock s = false -> removable h g i s ->
  wp tot (CoreUninstallProtocolInterface h (Some g) i)
    (fun st s' => goes false s s' /\ uninstall_outcome h g i s st s') s.
Proof.
  intros W Hlk Hrem. unfold CoreUninstallProtocolInterface. eapply wp_step; [by apply validate_run|]. cbn beta.
  case_bool_decide as Hh; cbn [EFI_ERROR].
  2:{ apply wp_ret. split; [apply (unchanged stays never); done|]. by do 3 right. }
  apply wp_acquire; [done|]. pose proof (locked_moves stays never s W) as G0.
  set (s0 := upd_gProtocolDatabaseLock true s) in *. pose proof (proj1 (moves_goes _ _ _ _ _ G0)) as W0.
  unfold uninstall_locked. destruct (interface_run s0 W0 h g i eq_refl Hh) as (p & Hp & Hspec).
  apply wp_bind. eapply wp_step; [exact Hp|]. cbn beta. destruct Hspec as [(Hprov & P & HP & Hi)|[-> Hno]].
  2:{ apply wp_ret. eapply (finish tot stays never); [exact G0|]. intros s' O. split; [apply O|]. do 2 right. by left. }
  destruct (Hprov) as (e & Hl & Hg). destruct (linked_interface s0 W0 p h e Hl) as (Hp0 & _).
  rewrite (proj2 (Z.eqb_neq p 0) Hp0). destruct (Hrem p P Hprov HP Hi) as [Hst Hend].
  assert (Hpin : pinned p h e i s0) by (split; [done|by exists P]).
  eapply wp_seq; [by apply (disconnect_using_ok h p e i s0)|]. cbn beta. intros st s1 (G1 & Hpin1 & Hcase & Href).
  pose proof (moves_trans _ _ _ _ _ _ _ G0 G1) as G. destruct (G1) as ((W1 & L1 & _) & _).
  destruct Hcase as [-> | ->]; cbn [EFI_ERROR].
  2:{ apply wp_ret. eapply (finish tot stays never); [exact G|]. intros s' O. split; [apply O|]. right; left.
      split_and!; [done| |done]. by exists p, e. }
  destruct (Hpin1) as (Hl1 & P1 & HP1 & Hi1). pose proof (provides_moves _ _ _ _ _ _ G1 Hprov Hst W0) as Hprov1.
  assert (Hh1 : h ∈ gHandleList s1) by apply Hl1.
  assert (Hhas1 : has s1 h g i) by (exists p, P1; done).
  eapply wp_mono; [by apply (uninstall_tail h g i s1)|]. cbn beta.
  intros st s2 (-> & q & y & Hq & Hgy & G2 & HR). destruct (G2) as (W2 & L2 & _).
  apply (wp_release tot stays never); [done|done|]. intros s' O. apply wp_ret. split.
  - eapply goes_trans; [by eapply moves_goes|]. eapply goes_trans; [exact G2|apply O].
  - left. split_and!; [done|by exists p, e|by exists s1, s2, q, y].
Qed.

(** ** Reinstalling *)

Lemma notify_entry_ok e s : wf s -> gProtocolDatabaseLock s = true -> e ∈ mProtocolDatabase s ->
  wp tot (CoreNotifyProtocolEntry e) (fun _ s' => same s s' /\ gProtocolDatabaseLock s' = true /\
    event_calls s' = event_calls s ++ signals s (enots s e)) s.
Proof.
  intros W Hlk He. unfold CoreNotifyProtocolEntry, ASSERT_LOCKED.
  eapply wp_step; [by rewrite (Mbind_Ok Mget _ s s s eq_refl), Hlk|]. cbn beta.
  destruct (wf_entry s W e He) as [E HE]. unfold entry_at. eapply wp_deref; [exact HE|].
  assert (Een : Notify E = enots s e) by (unfold enots; by rewrite HE). rewrite Een.
  destruct (signal_all_run (enots s e) s) as (s' & Hrun & HS & HL & HEv).
  { intros n Hn. by apply (notify_at_ok s W e n He Hn). }
  eapply wp_eq; [exact Hrun|]. by rewrite HL.
Qed.

(** The interface [p] of [h] is now [v], the last of its protocol. *)
Definition replaced (s s' : DB) (p h e v : Z) : Prop :=
  linked s' p h e /\ (exists P, interfaces s' !! p = Some P /\ Interface P = v) /\ last (eprots s' e) = Some p /\
  (forall q x y, linked s' q x y <-> linked s q x y) /\ (forall q, q <> p -> interfaces s' !! q = interfaces s !! q).

Lemma reinstall_swap h g i v s : wf s -> gProtocolDatabaseLock s = true -> h ∈ gHandleList s -> has s h g i ->
  exists p P e s', CoreRemoveInterfaceFromProtocol h g i s = Ok (p, s') /\ p <> 0 /\ pinned p h e i s /\ eguid s e = Some g /\
    interfaces s' !! p = Some P /\ Protocol P = e /\
    forall (rest : M DB EFI_STATUS) Q, (forall s2, goes true s s2 -> replaced s s2 p h e v -> wp tot rest Q s2) ->
    wp tot (on_interface p (set_Interface v) ;;;
            on_entry e (fun E => set_EntryProtocols (EntryProtocols E ++ [p]) E) ;;;
            touch_handle h ;;; rest) Q s'.
Proof.
  intros W Hlk Hh Hhas.
  destruct (remove_run h g i s W Hlk Hh Hhas) as (p & P & e & E & Back & ns & Hpin & Hg & HP & HE & Hp0 & HB & Hbk & Hrun).
  destruct (Hpin) as (Hl & _). destruct (linked_interface s W p h e Hl) as (_ & P' & HP' & HPh & HPe).
  rewrite HP in HP'. injection HP' as <-. destruct (wf_handle s W h Hh) as [H HH].
  assert (Eep : EntryProtocols E = eprots s e) by (unfold eprots; by rewrite HE).
  eexists p, P, e, _. split_and!; [exact Hrun|done|done|done|exact HP|done|]. intros rest Q HQ.
  eapply wp_step; [by apply (on_interface_ok p _ P)|]. cbn beta.
  eapply wp_step; [apply (on_entry_ok e _ (set_EntryProtocols (unlink p (EntryProtocols E)) E)); cbn; by rewrite lookup_insert_eq|].
  eapply wp_step; [by apply (touch_handle_run h H)|]. set (k := wrapU 64 _). set (s2 := upd_handles _ _).
  assert (EE : entries s2 = <[e := set_EntryProtocols (unlink p (EntryProtocols E) ++ [p]) E]> (entries s))
    by (cbn; by rewrite insert_insert_eq).
  assert (EI : interfaces s2 = <[p := set_Interface v P]> (interfaces s)) by done.
  assert (Ei : forall q, ifc s2 q = ifc s q).
  { intros q. rewrite (ifc_insert s p _ q s2 EI). case_decide; [subst|done]. unfold ifc. by rewrite HP. }
  assert (EHs : forall x, HandleProtocols <$> handles s2 !! x = HandleProtocols <$> handles s !! x).
  { intros x. cbn. destruct (decide (x = h)) as [-> |]; [by rewrite lookup_insert_eq, HH|by rewrite lookup_insert_ne]. }
  assert (Eh : forall x, hprots s2 x = hprots s x).
  { intros x. unfold hprots. specialize (EHs x). by destruct (handles s2 !! x), (handles s !! x); simplify_eq/=. }
  assert (Ep : forall x q, q ∈ eprots s2 x <-> q ∈ eprots s x).
  { intros x q. rewrite (eprots_insert s e _ x s2 EE). case_decide; [subst x|done]. cbn.
    rewrite Eep, elem_of_app, elem_of_unlink, list_elem_of_singleton. destruct Hl as (_ & _ & _ & _ & Hpe).
    destruct (decide (q = p)) as [-> |]; tauto. }
  assert (Elk : forall q x y, linked s2 q x y <-> linked s q x y).
  { intros q x y. unfold linked. by rewrite Ei, Eh, Ep. }
  assert (W2 : wf s2).
  { eapply (wf_relink s s2 p h e E Back); try done. intros q Q'. rewrite EI. destruct (decide (q = p)) as [-> | Hq].
    - rewrite lookup_insert_eq. intros [= <-]. exact (wf_count s W p P HP).
    - rewrite lookup_insert_ne by done. apply W. }
  apply HQ; [split_and!; [done|done| |]|split_and!; [by apply Elk| | |done|]].
  - intros q Q' [HQ' Hno]. split; [|intros x Hx; rewrite Eh; by apply Hno]. rewrite EI, lookup_insert_ne; [done|].
    intros <-. destruct Hl as (_ & _ & _ & Hin & _). by apply (Hno h).
  - intros x Hx. split; [done|]. rewrite (eguid_insert s e _ x s2 EE). case_decide; [subst|done]. unfold eguid. by rewrite HE.
  - exists (set_Interface v P). by rewrite EI, lookup_insert_eq.
  - rewrite (eprots_insert s e _ e s2 EE), decide_True by done. cbn. by rewrite last_snoc.
  - intros q Hq. by rewrite EI, lookup_insert_ne.
Qed.

(** What CoreReinstallProtocolInterface does. *)
Definition reinstall_outcome (h : Z) (g : EFI_GUID) (i v : Z) (s : DB) (st : EFI_STATUS) (s' : DB) : Prop :=
  (st = EFI_SUCCESS /\ (exists p e, pinned p h e i s /\ eguid s e = Some g /\ refusal s p st) /\
     exists s1 s2 p e, moves stays never true s s1 /\ pinned p h e i s1 /\ eguid s1 e = Some g /\
     replaced s1 s2 p h e v /\ outside stays never s2 s') \/
  (st = EFI_ACCESS_DENIED /\ (exists p e, pinned p h e i s /\ eguid s e = Some g /\ refusal s p st) /\
     outside stays never s s') \/
  (st = EFI_NOT_FOUND /\ h ∈ gHandleList s /\ ~ has s h g i /\ outside stays never s s') \/
  (st = EFI_INVALID_PARAMETER /\ h ∉ gHandleList s /\ s' = s).

Lemma reinstall_ok h g i v s :
  wf s -> gProtocolDatabaseLock s = false -> removable h g i s ->
  wp tot (CoreReinstallProtocolInterface h (Some g) i v)
    (fun st s' => goes false s s' /\ reinstall_outcome h g i v s st s') s.
Proof.
  intros W Hlk Hrem. pose proof (unchanged stays never s W Hlk) as Hsame. unfold CoreReinstallProtocolInterface.
  eapply wp_step; [by apply validate_run|]. cbn beta. case_bool_decide as Hh; cbn [EFI_ERROR].
  2:{ apply wp_ret. split; [apply Hsame|]. by do 3 right. }
  apply wp_acquire; [done|]. pose proof (locked_moves stays never s W) as G0.
  set (s0 := upd_gProtocolDatabaseLock true s) in *. pose proof (proj1 (moves_goes _ _ _ _ _ G0)) as W0.
  unfold reinstall_locked. destruct (interface_run s0 W0 h g i eq_refl Hh) as (p & Hp & Hspec).
  apply wp_bind. eapply wp_step; [exact Hp|]. cbn beta. destruct Hspec as [(Hprov & P & HP & Hi)|[-> Hno]].
  2:{ apply wp_ret. eapply (finish tot stays never); [exact G0|]. intros s' O. split; [apply O|]. do 2 right. by left. }
  destruct (Hprov) as (e & Hl & Hg). destruct (linked_interface s0 W0 p h e Hl) as (Hp0 & _).
  rewrite (proj2 (Z.eqb_neq p 0) Hp0). destruct (Hrem p P Hprov HP Hi) as [Hst Hend].
  assert (Hpin : pinned p h e i s0) by (split; [done|by exists P]).
  eapply wp_seq; [by apply (disconnect_using_ok h p e i s0)|]. cbn beta. intros st s1 (G1 & Hpin1 & Hcase & Href).
  pose proof (moves_trans _ _ _ _ _ _ _ G0 G1) as G. destruct (G1) as ((W1 & L1 & _) & _).
  destruct Hcase as [-> | ->]; cbn [EFI_ERROR].
  2:{ apply wp_ret. eapply (finish tot stays never); [exact G|]. intros s' O. split; [apply O|]. right; left.
      split_and!; [done|by exists p, e|done]. }
  destruct (Hpin1) as (Hl1 & P1 & HP1 & Hi1). pose proof (provides_moves _ _ _ _ _ _ G1 Hprov Hst W0) as Hprov1.
  destruct (reinstall_swap h g i v s1 W1 L1 ltac:(apply Hl1) ltac:(by exists p, P1))
    as (q & Q & y & s2 & Hrun & Hq0 & Hpinq & Hgq & HQ & HQy & Hw).
  eapply wp_step; [exact Hrun|]. cbn beta. rewrite (proj2 (Z.eqb_neq q 0) Hq0).
  unfold interface_at. eapply wp_deref; [exact HQ|]. rewrite HQy.
  apply Hw. intros s3 G3 Hrep. destruct (Hrep) as (Hl3 & _). destruct (G3) as (W3 & L3 & _).
  apply (wp_window tot stays never); [done|done|intros; by apply connect_ok|]. intros _ s4 G4.
  destruct (G4) as ((W4 & L4 & _ & EK4) & _). eapply wp_seq; [apply notify_entry_ok; [done|done|]|].
  { apply EK4. apply Hl3. }
  cbn beta. intros _ s5 (HS & L5 & _). pose proof (same_moves stays never s4 s5 W4 HS) as G5. rewrite L5 in G5.
  apply wp_ret. eapply (finish tot stays never); [eapply moves_trans; [exact G4|exact G5]|]. intros s' O. split.
  - eapply goes_trans; [by eapply moves_goes|]. eapply goes_trans; [exact G3|apply O].
  - left. split_and!; [done|by exists p, e|by exists s1, s3, q, y].
Qed.
End Remove.
