(* ===== verification/HandLocate.v ===== *)
(** * HandLocate: locating handles and protocols

    The GetNext functions walk a list; CoreLocateHandle returns what the walk
    meets, CoreLocateProtocol the first of it. *)

From stdpp Require Import base option list gmap fin_maps.
From Stdlib Require Import ZArith Lia.
From S2P Require Import Prelude Hand HandInv HandRun HandSafe HandInstall.

Local Open Scope Z_scope.
Local Open Scope edk_scope.

(** ** Iterators

    From position [pos] in state [s], [GetNext] returns the handles [L] one
    by one and then NULL, and leaves the state [s']. *)
Fixpoint yields (GetNext : LOCATE_POSITION -> M DB (Z * Z * LOCATE_POSITION)) (s : DB) (pos : LOCATE_POSITION)
    (L : list Z) (s' : DB) : Prop :=
  match L with
  | [] => exists i pos', GetNext pos s = Ok ((0, i, pos'), s')
  | h :: L' => h <> 0 /\ exists i pos' s1, GetNext pos s = Ok ((h, i, pos'), s1) /\ yields GetNext s1 pos' L' s'
  end.

Lemma take_snoc_full {A} n (l : list A) x : (length l < n)%nat -> take n l ++ [x] = take n (l ++ [x]).
Proof. intros H. rewrite !take_ge; [done|rewrite length_app; cbn; lia|lia]. Qed.
Lemma take_snoc_drop {A} n (l : list A) x : (n <= length l)%nat -> take n l = take n (l ++ [x]).
Proof. intros H. by rewrite take_app_le. Qed.

Lemma locate_loop_ends GetNext B s' : forall L turns k b s pos,
  yields GetNext s pos L s' -> (length L < turns)%nat -> 0 <= k ->
  exists r, locate_loop turns GetNext B k b pos s = Ok (r, s') /\ 0 <= r.1.
Proof.
  induction L as [|h L IH]; intros turns k b s pos HL Ht Hk; (destruct turns as [|turns]; [cbn in Ht; lia|]); cbn [locate_loop].
  - destruct HL as (i & pos' & HG). run_step HG. by eexists.
  - destruct HL as (Hh & i & pos' & s1 & HG & HL). run_step HG. rewrite (proj2 (Z.eqb_neq h 0) Hh).
    apply IH; [done|cbn in Ht; lia|]. unfold wrapU. apply Z.mod_pos_bound. lia.
Qed.

(** The result size is that of all handles; those that fit are stored. *)
Lemma locate_loop_run GetNext B s' : 0 <= B -> forall L turns D s pos,
  yields GetNext s pos L s' -> (length L < turns)%nat -> 8 * Z.of_nat (length (D ++ L)) < 2 ^ 64 ->
  let n := Z.to_nat (B / 8) in
  locate_loop turns GetNext B (8 * Z.of_nat (length D)) (take n D) pos s =
    Ok ((8 * Z.of_nat (length (D ++ L)), take n (D ++ L)), s').
Proof.
  intros HB. induction L as [|h L IH]; intros turns D s pos HL Ht Hsz n; (destruct turns as [|turns]; [cbn in Ht; lia|]);
    cbn [locate_loop].
  - destruct HL as (i & pos' & HG). run_step HG. by rewrite app_nil_r.
  - destruct HL as (Hh & i & pos' & s1 & HG & HL). run_step HG. rewrite (proj2 (Z.eqb_neq h 0) Hh).
    rewrite length_app in Hsz. cbn [length] in Hsz, Ht.
    assert (Ew : wrapU 64 (8 * Z.of_nat (length D) + 8) = 8 * Z.of_nat (length (D ++ [h]))).
    { unfold wrapU. rewrite length_app. cbn [length]. rewrite Z.mod_small; lia. }
    rewrite Ew.
    replace (if 8 * Z.of_nat (length (D ++ [h])) <=? B then take n D ++ [h] else take n D) with (take n (D ++ [h])).
    2:{ rewrite length_app. cbn [length]. unfold n. destruct (Z.leb_spec (8 * Z.of_nat (length D + 1)) B) as [Hle|Hgt].
        - rewrite take_snoc_full; [done|]. assert (Z.of_nat (length D) + 1 <= B / 8) by (apply Z.div_le_lower_bound; lia). lia.
        - rewrite <- take_snoc_drop; [done|]. assert (B / 8 < Z.of_nat (length D) + 1) by (apply Z.div_lt_upper_bound; lia). lia. }
    replace (D ++ h :: L) with ((D ++ [h]) ++ L) by (by rewrite <- app_assoc).
    apply IH; [done|lia|]. rewrite !length_app. cbn [length]. lia.
Qed.

(** The loop ends; with sizes in 64 bits its result is exact. *)
Lemma locate_loop_total GetNext B s' L turns s pos : 0 <= B -> yields GetNext s pos L s' -> (length L < turns)%nat ->
  exists r, locate_loop turns GetNext B 0 [] pos s = Ok (r, s') /\ (L = [] -> r.1 = 0) /\ 0 <= r.1 /\
    (8 * Z.of_nat (length L) < 2 ^ 64 -> r = (8 * Z.of_nat (length L), take (Z.to_nat (B / 8)) L)).
Proof.
  intros HB HL Ht. destruct (Z_lt_dec (8 * Z.of_nat (length L)) (2 ^ 64)) as [Hs|Hs].
  - pose proof (locate_loop_run GetNext B s' HB L turns [] s pos HL Ht Hs) as Hr. cbn zeta in Hr. rewrite firstn_nil in Hr.
    eexists. split; [exact Hr|]. split_and!; [by intros ->|cbn [fst]; lia|done].
  - destruct (locate_loop_ends GetNext B s' L turns 0 [] s pos HL Ht ltac:(lia)) as (r & Hr & Hr0).
    exists r. split_and!; [done| |done|done].
    intros ->. by destruct Hs.
Qed.

(** ** All handles *)

Lemma link_after_split l1 x l2 : NoDup (l1 ++ x :: l2) -> link_after (l1 ++ x :: l2) x = Some (head l2).
Proof.
  intros (_ & H & _)%NoDup_app. apply link_after_mid. intros Hx. apply (H x Hx). by left.
Qed.

Lemma yields_all `{Env : HAND_ENV} s k e : NoDup (gHandleList s) -> 0 ∉ gHandleList s ->
  yields CoreGetNextLocateAllHandles s (mkPosition k None e) (gHandleList s) s.
Proof.
  intros Hn H0.
  assert (Hrest : forall l2 l1 x, gHandleList s = l1 ++ x :: l2 ->
    yields CoreGetNextLocateAllHandles s (mkPosition k (Some x) e) l2 s).
  { induction l2 as [|y l2 IH]; intros l1 x El; cbn [yields].
    - unfold CoreGetNextLocateAllHandles. rewrite (Mbind_Ok Mget _ s s s eq_refl). cbn [PositionLink ForwardLink].
      rewrite El, link_after_split by (by rewrite <- El). by do 2 eexists.
    - split; [intros ->; apply H0; rewrite El; set_solver|]. do 3 eexists. split.
      + unfold CoreGetNextLocateAllHandles. rewrite (Mbind_Ok Mget _ s s s eq_refl). cbn [PositionLink ForwardLink].
        rewrite El, link_after_split by (by rewrite <- El). done.
      + cbn [head SearchKey ProtEntryOf]. apply (IH (l1 ++ [x])). by rewrite <- app_assoc. }
  destruct (gHandleList s) as [|x l] eqn:El; cbn [yields].
  - unfold CoreGetNextLocateAllHandles. rewrite (Mbind_Ok Mget _ s s s eq_refl). cbn. rewrite El. by do 2 eexists.
  - split; [intros ->; apply H0; by left|]. do 3 eexists. split.
    + unfold CoreGetNextLocateAllHandles. rewrite (Mbind_Ok Mget _ s s s eq_refl). cbn. rewrite El. done.
    + cbn [head SearchKey ProtEntryOf]. by apply (Hrest l [] x).
Qed.

(** ** Handles of a protocol

    The walk marks the handles it returns with the number [req] of the
    request: the handles, and the marked heap. *)
Fixpoint visit (req : Z) (ifs : gmap Z PROTOCOL_INTERFACE) (l : list Z) (hs : gmap Z IHANDLE) :
    list Z * gmap Z IHANDLE :=
  match l with
  | [] => ([], hs)
  | p :: l' =>
      match ifs !! p with
      | None => ([], hs)
      | Some P =>
          match hs !! Handle P with
          | None => ([], hs)
          | Some H =>
              if LocateRequest H =? req then visit req ifs l' hs
              else
                let '(L, hs') := visit req ifs l' (<[Handle P := set_LocateRequest req H]> hs) in (Handle P :: L, hs')
          end
      end
  end.

(** The links [l] are of interfaces on live handles. *)
Definition alive (s : DB) (l : list Z) : Prop :=
  forall p, p ∈ l -> exists P H, interfaces s !! p = Some P /\ handles s !! Handle P = Some H /\ Handle P <> 0.

Definition marked (s : DB) (h : Z) (H : IHANDLE) : DB :=
  upd_handles (<[h := set_LocateRequest (mEfiLocateHandleRequest s) H]> (handles s)) s.

Lemma alive_marked s l h H : alive s l -> alive (marked s h H) l.
Proof.
  intros Hl p Hp. destruct (Hl p Hp) as (P & H0 & HP & HH & Hn). destruct (decide (Handle P = h)) as [<- | Hd].
  - exists P, (set_LocateRequest (mEfiLocateHandleRequest s) H). split_and!; [done|cbn; by rewrite lookup_insert_eq|done].
  - exists P, H0. split_and!; [done|cbn; by rewrite lookup_insert_ne|done].
Qed.

Lemma next_unmarked_run s pos : forall l i, alive s l ->
  let req := mEfiLocateHandleRequest s in
  (visit req (interfaces s) l (handles s) = ([], handles s) /\
   exists i', next_unmarked i l pos s = Ok ((0, i', mkPosition (SearchKey pos) None (ProtEntryOf pos)), s)) \/
  (exists l1 p l2 P H, l = l1 ++ p :: l2 /\ interfaces s !! p = Some P /\ handles s !! Handle P = Some H /\
     LocateRequest H <> req /\ Handle P <> 0 /\
     (let '(L, hs') := visit req (interfaces s) l2 (handles (marked s (Handle P) H)) in
      visit req (interfaces s) l (handles s) = (Handle P :: L, hs')) /\
     next_unmarked i l pos s =
       Ok ((Handle P, Interface P, mkPosition (SearchKey pos) (Some p) (ProtEntryOf pos)), marked s (Handle P) H)).
Proof.
  intros l i Hl req. subst req. revert i. induction l as [|p l IH]; intros i; cbn [next_unmarked visit].
  { left. split; [done|]. by eexists. }
  destruct (Hl p ltac:(by left)) as (P & H & HP & HH & Hn). unfold interface_at, handle_at.
  run_step (deref_ok interfaces p P s HP). run_step (deref_ok handles (Handle P) H s HH).
  rewrite (Mbind_Ok Mget _ s s s eq_refl), HP, HH. destruct (Z.eqb_spec (LocateRequest H) (mEfiLocateHandleRequest s)) as [Er|Nr]; cbn [negb].
  - destruct (IH ltac:(intros q Hq; apply Hl; by right) (Interface P)) as [Hno|(l1 & q & l2 & Q & HQ & El & Hrest)]; [left; exact Hno|right].
    exists (p :: l1), q, l2, Q, HQ. split; [by rewrite El|exact Hrest].
  - right. exists [], p, l, P, H. split_and!; try done.
    + change (handles (marked s (Handle P) H))
        with (<[Handle P := set_LocateRequest (mEfiLocateHandleRequest s) H]> (handles s)).
      by destruct (visit _ _ l (<[_ := _]> _)) as [L hs'].
    + by rewrite (Mbind_Ok _ _ _ _ _ (on_handle_ok (Handle P) _ H s HH)).
Qed.

Lemma yields_protocol e E k : forall n l s pos,
  (length l <= n)%nat -> entries s !! e = Some E -> NoDup (EntryProtocols E) -> alive s l ->
  (pos = None /\ l = EntryProtocols E \/ exists l1 p, pos = Some p /\ EntryProtocols E = l1 ++ p :: l) ->
  let '(L, hs) := visit (mEfiLocateHandleRequest s) (interfaces s) l (handles s) in
  yields CoreGetNextLocateByProtocol s (mkPosition k pos e) L (upd_handles hs s).
Proof.
  induction n as [|n IH]; intros l s pos Hn HE Hno Hal Hpos.
  all: assert (Hget : CoreGetNextLocateByProtocol (mkPosition k pos e) s = next_unmarked 0 l (mkPosition k pos e) s).
  1,3: unfold CoreGetNextLocateByProtocol, entry_at; run_step (deref_ok entries e E s HE); cbn [PositionLink];
    (destruct Hpos as [[-> ->]|(l1 & p & -> & El)]; [done|]); rewrite El, links_from_split by (by rewrite <- El); done.
  all: destruct (next_unmarked_run s (mkPosition k pos e) l 0 Hal) as
    [(-> & i & Hr)|(l1 & p & l2 & P & H & El & HP & HH & _ & Hn0 & Hv & Hr)]; cbn [SearchKey ProtEntryOf] in Hr.
  1,3: cbn [yields]; rewrite Hget, Hr; do 2 eexists; by destruct s.
  { rewrite El, length_app in Hn. cbn in Hn. lia. }
  assert (Hal2 : alive (marked s (Handle P) H) l2).
  { apply alive_marked. intros q Hq. apply Hal. rewrite El. apply elem_of_app. right. by right. }
  specialize (IH l2 (marked s (Handle P) H) (Some p)).
  change (mEfiLocateHandleRequest (marked s (Handle P) H)) with (mEfiLocateHandleRequest s) in IH.
  change (interfaces (marked s (Handle P) H)) with (interfaces s) in IH.
  destruct (visit _ _ l2 _) as [L hs]. rewrite Hv. cbn [yields]. split; [done|]. do 3 eexists.
  split; [by rewrite Hget|]. apply IH; [|done|done|done|].
  - rewrite El, length_app in Hn. cbn in Hn. lia.
  - right. destruct Hpos as [[-> El0]|(l0 & q & -> & El0)].
    + exists l1, p. split; [done|]. by rewrite <- El0, El.
    + exists (l0 ++ q :: l1), p. split; [done|]. rewrite El0, El. by rewrite <- app_assoc.
Qed.

(** ** What a search finds *)

Definition handle_of (s : DB) (p : Z) : Z := from_option Handle 0 (interfaces s !! p).

(** First occurrences. *)
Fixpoint firsts (seen l : list Z) : list Z :=
  match l with
  | [] => []
  | h :: l' => if bool_decide (h ∈ seen) then firsts seen l' else h :: firsts (h :: seen) l'
  end.

Lemma elem_of_firsts h : forall l seen, h ∈ firsts seen l <-> h ∈ l /\ h ∉ seen.
Proof.
  induction l as [|x l IH]; intros seen; cbn [firsts]; [set_solver|].
  case_bool_decide; rewrite ?elem_of_cons, IH; [set_solver|]. destruct (decide (h = x)); set_solver.
Qed.

Lemma NoDup_firsts : forall l seen, NoDup (firsts seen l).
Proof.
  induction l as [|x l IH]; intros seen; cbn [firsts]; [constructor|]. case_bool_decide; [done|].
  constructor; [|done]. rewrite elem_of_firsts. set_solver.
Qed.

Lemma length_firsts : forall l seen, (length (firsts seen l) <= length l)%nat.
Proof.
  induction l as [|x l IH]; intros seen; cbn [firsts length]; [lia|]. case_bool_decide; cbn [length];
    [specialize (IH seen)|specialize (IH (x :: seen))]; lia.
Qed.

Lemma visit_length req ifs : forall l hs, (length (visit req ifs l hs).1 <= length l)%nat.
Proof.
  induction l as [|p l IH]; intros hs; cbn [visit]; [done|]. destruct (ifs !! p) as [P|]; [|cbn; lia].
  destruct (hs !! Handle P) as [H|]; [|cbn; lia]. destruct (_ =? _); [specialize (IH hs); cbn; lia|].
  specialize (IH (<[Handle P := set_LocateRequest req H]> hs)). destruct (visit _ _ l _). cbn in *. lia.
Qed.

(** Only marks change. *)
Lemma visit_prots req ifs : forall l hs h,
  HandleProtocols <$> (visit req ifs l hs).2 !! h = HandleProtocols <$> hs !! h.
Proof.
  induction l as [|p l IH]; intros hs h; cbn [visit]; [done|]. destruct (ifs !! p) as [P|]; [|done].
  destruct (hs !! Handle P) as [H|] eqn:HH; [|done]. destruct (_ =? _); [done|].
  specialize (IH (<[Handle P := set_LocateRequest req H]> hs) h). destruct (visit _ _ l _). cbn in *. rewrite IH.
  destruct (decide (h = Handle P)) as [-> | Hd]; [by rewrite lookup_insert_eq, HH|by rewrite lookup_insert_ne].
Qed.

(** A search whose number no handle has finds every handle once. *)
Lemma visit_firsts req s : forall l hs seen,
  (forall p, p ∈ l -> exists P H, interfaces s !! p = Some P /\ hs !! Handle P = Some H /\
     (LocateRequest H = req <-> Handle P ∈ seen)) ->
  (visit req (interfaces s) l hs).1 = firsts seen (handle_of s <$> l).
Proof.
  induction l as [|p l IH]; intros hs seen Hl; cbn [visit firsts fmap list_fmap]; [done|].
  destruct (Hl p ltac:(by left)) as (P & H & HP & HH & Hs).
  assert (handle_of s p = Handle P) as -> by (unfold handle_of; by rewrite HP). rewrite HP, HH.
  assert (Hl' : forall q, q ∈ l -> exists P H, interfaces s !! q = Some P /\ hs !! Handle P = Some H /\
    (LocateRequest H = req <-> Handle P ∈ seen)) by (intros q Hq; apply Hl; by right).
  destruct (Z.eqb_spec (LocateRequest H) req) as [Er|Nr].
  { rewrite bool_decide_true by (by apply Hs). by apply IH. }
  rewrite bool_decide_false by (by intros ?%Hs).
  specialize (IH (<[Handle P := set_LocateRequest req H]> hs) (Handle P :: seen)).
  destruct (visit _ _ l (<[_ := _]> _)) as [L hs']. cbn [fst] in *. f_equal. apply IH.
  intros q Hq. destruct (Hl' q Hq) as (Q & HQ & H1 & H2 & H3). destruct (decide (Handle Q = Handle P)) as [Eq|Nq].
  - exists Q, (set_LocateRequest req H). rewrite Eq, lookup_insert_eq. split_and!; [done|done|]. cbn. set_solver.
  - exists Q, HQ. rewrite lookup_insert_ne by done. split_and!; [done|done|]. rewrite H3. set_solver.
Qed.

(** The handles a search has to return. *)
Definition located (s : DB) (ty : EFI_LOCATE_SEARCH_TYPE) (g : option EFI_GUID) (k : Z) (L : list Z) : Prop :=
  match ty with
  | AllHandles => L = gHandleList s
  | ByRegisterNotify => L = take 1 (handle_of s <$> queue s k)
  | ByProtocol => exists g' e, g = Some g' /\ entry_spec s g' e /\ L = firsts [] (handle_of s <$> eprots s e)
  | OtherSearchType _ => False
  end.

(** The parameters that no search accepts: no protocol, no registration, an
    unknown search type. *)
Definition bad_search (ty : EFI_LOCATE_SEARCH_TYPE) (g : option EFI_GUID) (k : Z) : bool :=
  match ty with
  | AllHandles => false
  | ByRegisterNotify => k =? 0
  | ByProtocol => bool_decide (g = None)
  | OtherSearchType _ => true
  end.

(** The number of the next search is not on any handle. *)
Definition requests_ok (s : DB) : Prop :=
  forall h H, handles s !! h = Some H -> LocateRequest H <> wrapU 64 (mEfiLocateHandleRequest s + 1).

Definition numbered (s : DB) : DB := upd_mEfiLocateHandleRequest (wrapU 64 (mEfiLocateHandleRequest s + 1)) s.

Section Locate.
Context `{Env : HAND_ENV} (tot : bool) (stays : Z -> Prop) (never : Z -> EFI_GUID -> Z -> Prop).
Context `{!HAND_LAWS tot stays never}.

Lemma marks_moves s s' : wf s -> gHandleList s' = gHandleList s -> mProtocolDatabase s' = mProtocolDatabase s ->
  (forall h, HandleProtocols <$> handles s' !! h = HandleProtocols <$> handles s !! h) ->
  entries s' = entries s -> interfaces s' = interfaces s -> notifies s' = notifies s ->
  moves stays never (gProtocolDatabaseLock s') s s'.
Proof.
  intros W EL ED EH EE EI EN.
  assert (W' : wf s').
  { eapply wf_ext; [exact W|done|done|done|done| |done| |rewrite EI; apply W].
    - intros p h e _. unfold ifc. by rewrite EI.
    - unfold counted. rewrite EI. apply W. }
  apply view_moves; [done|done|]. split_and!; [done| |intros e; unfold eprots; by rewrite EE|done|].
  - intros h. unfold hprots. specialize (EH h). by destruct (handles s' !! h), (handles s !! h); simplify_eq/=.
  - intros e He. rewrite ED. split; [done|]. unfold eguid. by rewrite EE.
Qed.

Lemma linked_alive s l e : wf s -> e ∈ mProtocolDatabase s -> (forall p, p ∈ l -> p ∈ eprots s e) -> alive s l.
Proof.
  intros W He Hl p Hp. destruct (wf_elink s W e p He (Hl p Hp)) as [h Hh].
  destruct (linked_interface s W p h e Hh) as (_ & P & HP & <- & _). destruct Hh as (_ & Hh & _).
  destruct (wf_handle s W _ Hh) as [H HH]. exists P, H. split_and!; [done|done|by apply (handle_nonnull s W)].
Qed.

Lemma elems_size {A} (m : gmap Z A) l : NoDup l -> (forall p, p ∈ l -> is_Some (m !! p)) -> (length l <= size m)%nat.
Proof.
  intros Hn Hl. rewrite <- size_dom, <- (size_list_to_set (C := gset Z) l Hn). apply subseteq_size.
  intros p Hp%elem_of_list_to_set. apply elem_of_dom. by apply Hl.
Qed.

Lemma eprots_size s e : wf s -> e ∈ mProtocolDatabase s -> (length (eprots s e) <= size (interfaces s))%nat.
Proof.
  intros W He. apply elems_size; [by apply W|]. intros p Hp. destruct (wf_elink s W e p He Hp) as [h Hh].
  destruct (linked_interface s W p h e Hh) as (_ & P & HP & _). by exists P.
Qed.

(** ** Registrations *)

Lemma after_next l pos : NoDup l -> (forall p, pos = Some p -> p ∈ l) ->
  ForwardLink l pos = Some (head (after l pos)) /\
  (forall q, head (after l pos) = Some q -> q ∈ l /\ after l (Some q) = tail (after l pos)).
Proof.
  intros Hn Hp. assert (exists l1, l = l1 ++ after l pos /\ ForwardLink l pos = Some (head (after l pos))) as (l1 & El & EF).
  { destruct pos as [p|]; [|by exists []]. destruct (NoDup_split p l (Hp p eq_refl) Hn) as (l1 & l2 & -> & H1 & H2).
    cbn [after ForwardLink]. rewrite links_from_mid, link_after_mid by done. exists (l1 ++ [p]).
    split; [by rewrite <- app_assoc|done]. }
  split; [done|]. intros q Hq. destruct (after l pos) as [|q' l2]; [done|]. injection Hq as ->. rewrite El. split; [set_solver|].
  cbn [after tail]. rewrite links_from_split; [done|]. by rewrite <- El.
Qed.

Lemma registered_run s n : wf s -> registered s n -> exists N e E,
  n <> 0 /\ notifies s !! n = Some N /\ NotifyProtocol N = e /\ e ∈ mProtocolDatabase s /\ entries s !! e = Some E /\
  EntryProtocols E = eprots s e /\ NoDup (eprots s e) /\ (forall p, Position N = Some p -> p ∈ eprots s e) /\
  queue s n = after (eprots s e) (Position N).
Proof.
  intros W (e & He & Hn). destruct (wf_notify s W e n He Hn) as (N & HN & HNe & HNp).
  destruct (wf_entry s W e He) as [E HE]. exists N, e, E. split_and!; try done.
  - by apply (notify_at_ok s W e n).
  - unfold eprots. by rewrite HE.
  - by apply W.
  - unfold queue. by rewrite HN, <- HNe.
Qed.

Lemma next_registered s n : wf s -> registered s n ->
  exists i, CoreGetNextLocateByRegisterNotify (mkPosition n None 0) s =
    Ok ((default 0 (handle_of s <$> head (queue s n)), i, mkPosition 0 None 0), s) /\
    (forall p, head (queue s n) = Some p -> handle_of s p <> 0 /\ exists P, interfaces s !! p = Some P /\ Interface P = i) /\
    (queue s n = [] -> i = 0).
Proof.
  intros W Hr. destruct (registered_run s n W Hr) as (N & e & E & Hn0 & HN & HNe & He & HE & EE & Hno & Hp & Hq).
  unfold CoreGetNextLocateByRegisterNotify. cbn [SearchKey PositionLink ProtEntryOf].
  rewrite (proj2 (Z.eqb_neq n 0) Hn0). cbn [negb]. unfold notify_at, entry_at.
  run_step (deref_ok notifies n N s HN). rewrite HNe. run_step (deref_ok entries e E s HE). rewrite EE.
  destruct (after_next (eprots s e) (Position N) Hno Hp) as [-> Hnext]. rewrite <- Hq in *.
  destruct (queue s n) as [|p l] eqn:El; cbn [head].
  { exists 0. split; [done|]. split; [done|done]. }
  destruct (Hnext p eq_refl) as [Hin _]. destruct (wf_elink s W e p He Hin) as [h Hh].
  destruct (linked_interface s W p h e Hh) as (_ & P & HP & HPh & _). unfold interface_at.
  run_step (deref_ok interfaces p P s HP). exists (Interface P).
  assert (EP : handle_of s p = Handle P) by (unfold handle_of; by rewrite HP).
  cbn. rewrite EP. split_and!; [done| |done]. intros q [= <-]. rewrite EP, HPh. split; [|by exists P].
  destruct Hh as (_ & Hh & _). by apply (handle_nonnull s W).
Qed.

(** Advancing a registration takes the first interface off its queue. *)
Lemma advance_run s n : wf s -> registered s n -> queue s n <> [] ->
  exists s', advance_notify n s = Ok (tt, s') /\ moves stays never (gProtocolDatabaseLock s) s s' /\
    queue s' n = tail (queue s n) /\ (forall m, m <> n -> queue s' m = queue s m) /\
    (forall m, registered s' m <-> registered s m).
Proof.
  intros W Hr Hne. destruct (registered_run s n W Hr) as (N & e & E & Hn0 & HN & HNe & He & HE & EE & Hno & Hp & Hq).
  unfold advance_notify, notify_at, entry_at. run_step (deref_ok notifies n N s HN). rewrite HNe.
  run_step (deref_ok entries e E s HE). rewrite EE.
  destruct (after_next (eprots s e) (Position N) Hno Hp) as [-> Hnext]. rewrite <- Hq in *.
  destruct (queue s n) as [|p l] eqn:El; [done|]. destruct (Hnext p eq_refl) as [Hin Haft]. cbn [head].
  eexists. split; [by apply (on_notify_ok n _ N)|]. set (s' := upd_notifies _ s).
  assert (W' : wf s') by (eapply (wf_set_position s s' n N (Some p) e); try done; intros q [= <-]; done).
  split_and!.
  - apply (view_moves stays never s s' W W'). by split_and!.
  - unfold queue. cbn. rewrite lookup_insert_eq. cbn. rewrite HNe. exact Haft.
  - intros m Hm. unfold queue. cbn. by rewrite lookup_insert_ne.
  - done.
Qed.

(** ** CoreLocateHandle *)

(** What the switch on SearchType prepares: an error, or an iterator over
    the handles that the search has to return. *)
Definition prepared (s : DB) (ty : EFI_LOCATE_SEARCH_TYPE) (g : option EFI_GUID) (k : Z)
    (r : EFI_STATUS * (LOCATE_POSITION -> M DB (Z * Z * LOCATE_POSITION)) * LOCATE_POSITION) : Prop :=
  let '(st, GetNext, pos) := r in
  (EFI_ERROR st = true /\ ((st = EFI_NOT_FOUND /\ bad_search ty g k = false /\ located s ty g k []) \/
     (st = EFI_INVALID_PARAMETER /\ bad_search ty g k = true))) \/
  (st = EFI_SUCCESS /\ bad_search ty g k = false /\ exists L s', yields GetNext (numbered s) pos L s' /\
     (length L <= size (handles s) + size (interfaces s))%nat /\ moves stays never (gProtocolDatabaseLock s) s s' /\
     notifies s' = notifies s /\ entries s' = entries s /\ mProtocolDatabase s' = mProtocolDatabase s /\
     (requests_ok s -> located s ty g k L) /\ (ty = ByRegisterNotify -> L <> [] -> queue s k <> [])).

Lemma prepared_notify s k g : wf s -> k <> 0 -> registered s k ->
  prepared s ByRegisterNotify g k (EFI_SUCCESS, CoreGetNextLocateByRegisterNotify, mkPosition k None 0).
Proof.
  intros W Hk Hr. right. split; [done|]. split; [by apply Z.eqb_neq|]. set (sn := numbered s).
  assert (Hm : moves stays never (gProtocolDatabaseLock s) s sn) by (by apply (same_moves stays never s sn W)).
  destruct (Hm) as ((Wn & _) & _). destruct (next_registered sn k Wn Hr) as (i & HG & Hh & Hnil).
  change (queue sn k) with (queue s k) in *.
  exists (take 1 (handle_of s <$> queue s k)), sn. split_and!; try done.
  - change (handle_of sn) with (handle_of s) in *. destruct (queue s k) as [|p l]; cbn in *; [by do 2 eexists|].
    split; [by apply Hh|]. do 3 eexists. split; [exact HG|]. by do 2 eexists.
  - destruct (registered_run s k W Hr) as (N & e & E & _ & _ & _ & He & _ & _ & _ & _ & Hq).
    rewrite length_take. destruct (queue s k) as [|p l]; [cbn; lia|]. destruct (interfaces s !! p) as [P|] eqn:HP.
    + assert (interfaces s <> ∅) as H1%map_size_non_empty_iff by (intros E0; by rewrite E0 in HP). lia.
    + destruct (Hh p eq_refl) as (_ & P & HP' & _). change (interfaces sn) with (interfaces s) in HP'. congruence.
  - intros _ HL Hq. by rewrite Hq in HL.
Qed.

Lemma prepared_protocol s g k e : wf s -> e ∈ mProtocolDatabase s -> eguid s e = Some g ->
  prepared s ByProtocol (Some g) k (EFI_SUCCESS, CoreGetNextLocateByProtocol, mkPosition k None e).
Proof.
  intros W He Hg. right. split; [done|]. split; [done|]. destruct (wf_entry s W e He) as [E HE].
  assert (EE : EntryProtocols E = eprots s e) by (unfold eprots; by rewrite HE).
  pose proof (linked_alive s (eprots s e) e W He ltac:(done)) as Hal.
  pose proof (yields_protocol e E k (length (eprots s e)) (eprots s e) (numbered s) None ltac:(lia) HE) as Hy.
  rewrite EE in Hy. specialize (Hy (proj1 (wf_eprots s W e He)) Hal ltac:(by left)).
  set (req := mEfiLocateHandleRequest (numbered s)) in *.
  change (interfaces (numbered s)) with (interfaces s) in Hy. change (handles (numbered s)) with (handles s) in Hy.
  pose proof (visit_length req (interfaces s) (eprots s e) (handles s)) as HL.
  pose proof (visit_prots req (interfaces s) (eprots s e) (handles s)) as HP.
  pose proof (visit_firsts req s (eprots s e) (handles s) []) as HF.
  destruct (visit _ _ _ _) as [L hs]. cbn [fst snd] in *. exists L, (upd_handles hs (numbered s)).
  split_and!; try done.
  - pose proof (eprots_size s e W He). lia.
  - by apply (marks_moves s (upd_handles hs (numbered s))).
  - intros Hreq. exists g, e. split_and!; [done|by left|]. apply HF. intros p Hp.
    destruct (Hal p Hp) as (P & H & HP1 & HH & _). exists P, H. split_and!; [done|done|].
    split; [|intros Hx; by apply not_elem_of_nil in Hx]. intros Er. by destruct (Hreq _ _ HH).
Qed.

Lemma setup_run s ty g k : wf s -> gProtocolDatabaseLock s = true ->
  (ty = ByRegisterNotify -> k <> 0 -> registered s k) ->
  exists r, locate_setup ty g k s = Ok (r, s) /\ prepared s ty g k r.
Proof.
  intros W Hlk Hreg. unfold locate_setup. destruct ty.
  - eexists. split; [done|]. right. split; [done|]. split; [done|]. exists (gHandleList s), (numbered s).
    assert (Hm : moves stays never (gProtocolDatabaseLock s) s (numbered s)) by (by apply (same_moves stays never s (numbered s) W)).
    split_and!; try done.
    + apply (yields_all (numbered s)); [apply W|]. intros H0. by apply (handle_nonnull s W 0).
    + pose proof (elems_size (handles s) (gHandleList s) (proj1 (wf_handles s W)) (proj2 (wf_handles s W))). lia.
  - eexists. split; [done|]. destruct (Z.eqb_spec k 0) as [-> | Hk]; [left; split; [done|by right]|].
    by apply prepared_notify; [| |apply Hreg].
  - destruct g as [g|]; [|eexists; split; [done|]; left; split; [done|by right]].
    destruct (entry_run s W g Hlk) as (e & He & Hspec). run_step He. eexists. split; [done|].
    destruct (Hspec) as [[He1 He2]|[-> Hnone]].
    + rewrite (proj2 (Z.eqb_neq e 0)) by (by apply (entry_nonnull s W)). by apply prepared_protocol.
    + left. split; [done|]. left. split; [done|]. split; [done|]. exists g, 0. split_and!; [done|done|].
      unfold eprots. destruct (wf_null s W) as (_ & -> & _). done.
  - eexists. split; [done|]. left. split; [done|by right].
Qed.

(** The result of CoreLocateHandle with a buffer of [B] bytes. *)
Definition locate_answer (s : DB) (ty : EFI_LOCATE_SEARCH_TYPE) (g : option EFI_GUID) (k B : Z)
    (r : EFI_STATUS * Z * list Z) : Prop :=
  if bad_search ty g k then r = (EFI_INVALID_PARAMETER, B, [])
  else exists L, located s ty g k L /\
    let n := 8 * Z.of_nat (length L) in
    r = if bool_decide (L = []) then (EFI_NOT_FOUND, B, [])
        else if B <? n then (EFI_BUFFER_TOO_SMALL, n, take (Z.to_nat (B / 8)) L) else (EFI_SUCCESS, n, L).

(** The queue of registration [k] after the search. *)
Definition dequeued (s : DB) (ty : EFI_LOCATE_SEARCH_TYPE) (k : Z) (st : EFI_STATUS) (s' : DB) : Prop :=
  forall m, queue s' m = if bool_decide (ty = ByRegisterNotify /\ m = k) && negb (EFI_ERROR st)
                        then tail (queue s m) else queue s m.

Definition small (s : DB) : Prop := 8 * Z.of_nat (size (handles s) + size (interfaces s)) < 2 ^ 64.

Lemma queue_same s s' : notifies s' = notifies s -> entries s' = entries s -> forall m, queue s' m = queue s m.
Proof. intros EN EE m. unfold queue, eprots. by rewrite EN, EE. Qed.

Lemma leave {A} (r : A) s (Q : A -> DB -> Prop) : wf s -> gProtocolDatabaseLock s = true ->
  (forall s', outside stays never s s' -> Q r s') -> wp tot (CoreReleaseProtocolLock ;;; Mret r) Q s.
Proof. intros W L HQ. apply (wp_release tot stays never); [done|done|]. intros s' O. by apply wp_ret, HQ. Qed.

(** The end of the search: the registration advances on success. *)
Lemma locate_advance ty k st s s1 :
  wf s1 -> (forall m, queue s1 m = queue s m) ->
  (ty = ByRegisterNotify -> EFI_ERROR st = false -> k <> 0 /\ registered s1 k /\ queue s1 k <> []) ->
  exists s2, (if bool_decide (ty = ByRegisterNotify) && negb (EFI_ERROR st)
              then HASSERT (negb (k =? 0)) ;;; advance_notify k else Mret tt) s1 = Ok (tt, s2) /\
    moves stays never (gProtocolDatabaseLock s1) s1 s2 /\ dequeued s ty k st s2.
Proof.
  intros W1 Hq Hreg. unfold dequeued. destruct (EFI_ERROR st); cbn [negb].
  { rewrite andb_false_r. exists s1. split_and!; [done|by apply moves_refl|]. intros m. rewrite andb_false_r. apply Hq. }
  rewrite andb_true_r. case_bool_decide as Hty.
  - destruct (Hreg Hty eq_refl) as (Hk & Hr & Hne). rewrite (proj2 (Z.eqb_neq k 0) Hk). cbn [negb].
    destruct (advance_run s1 k W1 Hr Hne) as (s2 & Hadv & G2 & Hq1 & Hq2 & _). exists s2.
    split_and!; [exact Hadv|done|]. intros m. rewrite andb_true_r. case_bool_decide as Hm.
    + destruct Hm as [_ ->]. by rewrite Hq1, Hq.
    + rewrite Hq2, Hq; [done|]. intros ->. by apply Hm.
  - exists s1. split_and!; [done|by apply moves_refl|]. intros m. rewrite andb_true_r, bool_decide_false by naive_solver. apply Hq.
Qed.

(** What the loop returns is the answer. *)
Lemma answer_ok s ty g k B L n l : 0 <= B -> bad_search ty g k = false -> located s ty g k L ->
  (n, l) = (8 * Z.of_nat (length L), take (Z.to_nat (B / 8)) L) ->
  locate_answer s ty g k B
    (if n =? 0 then (EFI_NOT_FOUND, B, l) else (if B <? n then EFI_BUFFER_TOO_SMALL else EFI_SUCCESS, n, l)).
Proof.
  intros HB Hok HL [= -> ->]. unfold locate_answer. rewrite Hok. exists L. split; [done|]. cbn zeta.
  case_bool_decide as HL0; [subst L; by rewrite firstn_nil|]. assert (length L <> O) by (by destruct L).
  rewrite (proj2 (Z.eqb_neq (8 * Z.of_nat (length L)) 0)) by lia.
  destruct (Z.ltb_spec B (8 * Z.of_nat (length L))) as [Hlt|Hge]; [done|]. f_equal. apply take_ge.
  assert (Z.of_nat (length L) <= B / 8) by (apply Z.div_le_lower_bound; lia). lia.
Qed.

Lemma locate_ok ty g k B bf s :
  wf s -> gProtocolDatabaseLock s = false -> 0 <= B -> (0 <? B) && negb bf = false ->
  (ty = ByRegisterNotify -> k <> 0 -> registered s k) ->
  wp tot (CoreLocateHandle ty g k (Some B) bf) (fun r s' =>
    exists s1, moves stays never true s s1 /\ outside stays never s1 s' /\ dequeued s ty k r.1.1 s1 /\
      0 <= r.1.2 /\ (small s -> requests_ok s -> locate_answer s ty g k B r)) s.
Proof.
  intros W Hlk HB Hbf Hreg. unfold CoreLocateHandle. rewrite Hbf. apply wp_acquire; [done|].
  pose proof (locked_moves stays never s W) as G0. set (s0 := upd_gProtocolDatabaseLock true s) in *.
  destruct (G0) as ((W0 & L0 & _) & _). destruct (setup_run s0 ty g k W0 L0 Hreg) as ([[st GetNext] pos] & Hset & Hprep).
  eapply wp_step; [exact Hset|]. cbn beta iota.
  destruct Hprep as [[Hst Herr]|(-> & Hok & L & s1 & HL & Hlen & G1 & EN & EE & ED & Hloc & Hq)].
  { rewrite Hst. apply leave; [done|done|]. intros s' O. exists s0. split_and!; [done|done| |done|].
    - intros m. cbn [fst]. rewrite Hst, andb_false_r. done.
    - intros _ _. unfold locate_answer. destruct Herr as [(-> & -> & Hn)|[-> ->]]; [|done]. exists []. split; [exact Hn|done]. }
  cbn [EFI_ERROR]. apply wp_modify, wp_get. fold (numbered s0).
  destruct (locate_loop_total GetNext B s1 L (S (size (handles s0) + size (interfaces s0))) (numbered s0) pos HB HL ltac:(lia))
    as ([n l] & Hrun & Hnil & Hn & Hex).
  eapply wp_step; [exact Hrun|]. cbn beta iota. cbn [fst] in Hnil. rewrite L0 in G1. destruct (G1) as ((W1 & L1 & _) & _).
  pose proof (moves_trans _ _ _ _ _ _ _ G0 G1) as G. pose proof (queue_same s s1 EN EE) as Hqs.
  assert (Hans : small s -> requests_ok s ->
    locate_answer s ty g k B
      (if n =? 0 then (EFI_NOT_FOUND, B, l) else (if B <? n then EFI_BUFFER_TOO_SMALL else EFI_SUCCESS, n, l))).
  { intros Hsm Hr. apply (answer_ok s ty g k B L); [done|done|by apply Hloc|]. apply Hex. unfold small in Hsm.
    change (handles s0) with (handles s) in Hlen. change (interfaces s0) with (interfaces s) in Hlen. lia. }
  destruct (Z.eqb_spec n 0) as [Hn0|Hn0].
  { eapply wp_step; [done|]. apply leave; [done|done|]. intros s' O. exists s1. split_and!; [done|done| |done|].
    - intros m. cbn. rewrite andb_false_r. apply Hqs.
    - exact Hans. }
  apply wp_bind. set (st := if B <? n then _ else _).
  destruct (locate_advance ty k st s s1 W1 Hqs) as (s2 & Hadv & G2 & Hdeq).
  { intros Hty _. assert (k <> 0) as Hk.
    { intros ->. subst ty. unfold locate_setup, Mret in Hset. cbn in Hset. discriminate Hset. }
    split_and!; [done| |rewrite Hqs; apply Hq; [done|auto]]. destruct (Hreg Hty Hk) as (e & He & Hen). exists e.
    rewrite ED. split; [done|]. unfold enots. by rewrite EE. }
  eapply wp_step; [exact Hadv|]. rewrite L1 in G2. destruct (G2) as ((W2 & L2 & _) & _). apply wp_ret. apply leave; [done|done|].
  intros s' O. exists s2. split_and!; [by eapply moves_trans|done|exact Hdeq|exact Hn|exact Hans].
Qed.

(** ** CoreLocateProtocol *)

Definition iface_of (s : DB) (p : Z) : Z := from_option Interface 0 (interfaces s !! p).

Lemma next_unmarked_head s pos l i : alive s l -> exists h i' pos' s',
  next_unmarked i l pos s = Ok ((h, i', pos'), s') /\
  (s' = s \/ exists x H, handles s !! x = Some H /\ s' = marked s x H) /\
  ((forall x H, handles s !! x = Some H -> LocateRequest H <> mEfiLocateHandleRequest s) ->
   match head l with None => h = 0 /\ i' = i | Some p => h <> 0 /\ i' = iface_of s p end).
Proof.
  intros Hal. destruct l as [|p l].
  { cbn. do 4 eexists. split; [done|]. split; [by left|done]. }
  destruct (Hal p ltac:(by left)) as (P & H & HP & HH & Hn).
  destruct (decide (LocateRequest H = mEfiLocateHandleRequest s)) as [Er|Nr].
  - destruct (next_unmarked_run s pos (p :: l) i Hal) as [(_ & i' & Hr)|(l1 & q & l2 & Q & X & _ & _ & HX & _ & _ & _ & Hr)];
      rewrite Hr; do 4 eexists; (split; [done|]); (split; [|intros Hx; by destruct (Hx _ _ HH)]); [by left|].
    right. by exists (Handle Q), X.
  - cbn [next_unmarked head]. unfold interface_at, handle_at. run_step (deref_ok interfaces p P s HP).
    run_step (deref_ok handles (Handle P) H s HH). rewrite (Mbind_Ok Mget _ s s s eq_refl), (proj2 (Z.eqb_neq _ _) Nr).
    cbn [negb]. rewrite (Mbind_Ok _ _ _ _ _ (on_handle_ok (Handle P) _ H s HH)). do 4 eexists. split; [done|].
    split; [right; by exists (Handle P), H|]. intros _. split; [done|]. unfold iface_of. by rewrite HP.
Qed.

Lemma marked_moves s h H : wf s -> handles s !! h = Some H ->
  moves stays never (gProtocolDatabaseLock s) s (marked s h H).
Proof.
  intros W HH. apply (marks_moves s (marked s h H) W); try done. intros x. cbn.
  destruct (decide (x = h)) as [-> | Hx]; [by rewrite lookup_insert_eq, HH|by rewrite lookup_insert_ne].
Qed.

(** The interfaces CoreLocateProtocol chooses the first of. *)
Definition candidates (s : DB) (g : EFI_GUID) (n : Z) (l : list Z) : Prop :=
  if n =? 0 then exists e, entry_spec s g e /\ l = eprots s e else l = queue s n.

Definition protocol_answer (s : DB) (g : EFI_GUID) (n : Z) (r : EFI_STATUS * option Z) : Prop :=
  exists l, candidates s g n l /\
    r = match head l with Some p => (EFI_SUCCESS, Some (iface_of s p)) | None => (EFI_NOT_FOUND, Some 0) end.

Lemma by_protocol_run s g : wf s -> gProtocolDatabaseLock s = true ->
  exists r s', (let! ProtEntry := CoreFindProtocolEntry g false in
    if ProtEntry =? 0 then Mret (EFI_NOT_FOUND, Some 0)
    else
      let! r := CoreGetNextLocateByProtocol (mkPosition 0 None ProtEntry) in
      let '(h, i, _) := r in
      Mret (if h =? 0 then EFI_NOT_FOUND else EFI_SUCCESS, Some i)) s = Ok (r, s') /\
    moves stays never true s s' /\ notifies s' = notifies s /\ entries s' = entries s /\
    ((forall x H, handles s !! x = Some H -> LocateRequest H <> mEfiLocateHandleRequest s) -> protocol_answer s g 0 r).
Proof.
  intros W Hlk. destruct (entry_run s W g Hlk) as (e & He & Hspec). run_step He.
  assert (Hs : moves stays never true s s) by (rewrite <- Hlk; by apply moves_refl).
  destruct (Hspec) as [[He1 He2]|[-> Hnone]].
  - rewrite (proj2 (Z.eqb_neq e 0)) by (by apply (entry_nonnull s W)).
    destruct (wf_entry s W e He1) as [E HE]. assert (EE : EntryProtocols E = eprots s e) by (unfold eprots; by rewrite HE).
    destruct (next_unmarked_head s (mkPosition 0 None e) (eprots s e) 0 (linked_alive s _ e W He1 ltac:(done)))
      as (h & i & pos' & s' & Hr & Hs' & Hans).
    assert (HG : CoreGetNextLocateByProtocol (mkPosition 0 None e) s = Ok ((h, i, pos'), s')).
    { unfold CoreGetNextLocateByProtocol, entry_at. run_step (deref_ok entries e E s HE). cbn [PositionLink]. by rewrite EE. }
    run_step HG. do 2 eexists. split; [done|].
    assert (moves stays never true s s' /\ notifies s' = notifies s /\ entries s' = entries s) as (H1 & H2 & H3).
    { destruct Hs' as [-> | (x & H & HH & ->)]; [done|]. split_and!; [rewrite <- Hlk; by apply marked_moves|done|done]. }
    split_and!; [done|done|done|]. intros Hreq. exists (eprots s e). split; [by exists e|].
    specialize (Hans Hreq). destruct (head (eprots s e)) as [p|]; destruct Hans as [Hh ->]; [|by subst h].
    by rewrite (proj2 (Z.eqb_neq h 0) Hh).
  - do 2 eexists. split; [done|]. split_and!; [done|done|done|]. intros _. exists []. split; [|done].
    exists 0. split; [done|]. unfold eprots. destruct (wf_null s W) as (_ & -> & _). done.
Qed.

Lemma by_registration_run s g n : wf s -> gProtocolDatabaseLock s = true -> n <> 0 -> registered s n ->
  exists r s', (let! r := CoreGetNextLocateByRegisterNotify (mkPosition n None 0) in
    let '(h, i, _) := r in
    if h =? 0 then Mret (EFI_NOT_FOUND, Some i) else advance_notify n ;;; Mret (EFI_SUCCESS, Some i)) s = Ok (r, s') /\
    moves stays never true s s' /\ dequeued s ByRegisterNotify n r.1 s' /\ protocol_answer s g n r.
Proof.
  intros W Hlk Hn Hr. destruct (next_registered s n W Hr) as (i & HG & Hh & Hnil). run_step HG.
  unfold protocol_answer, candidates. rewrite (proj2 (Z.eqb_neq n 0) Hn).
  destruct (queue s n) as [|p l] eqn:El; cbn [head fmap option_fmap option_map default from_option].
  - do 2 eexists. split; [done|]. split_and!; [rewrite <- Hlk; by apply moves_refl| |].
    + intros m. cbn. by rewrite andb_false_r.
    + exists []. split; [done|]. by rewrite (Hnil eq_refl).
  - destruct (Hh p eq_refl) as [Hp (P & HP & Hi)]. cbn. rewrite (proj2 (Z.eqb_neq _ 0) Hp).
    destruct (advance_run s n W Hr ltac:(by rewrite El)) as (s' & Hadv & G & Hq1 & Hq2 & _). run_step Hadv.
    do 2 eexists. split; [done|]. rewrite Hlk in G. split_and!; [done| |].
    + intros m. cbn. rewrite andb_true_r. case_bool_decide as Hm; [destruct Hm as [_ ->]; done|]. apply Hq2. naive_solver.
    + exists (p :: l). split; [done|]. unfold iface_of. cbn. rewrite HP. cbn. by rewrite Hi.
Qed.

Lemma locate_protocol_ok g n s :
  wf s -> gProtocolDatabaseLock s = false -> (n <> 0 -> registered s n) ->
  wp tot (CoreLocateProtocol (Some g) n true) (fun r s' =>
    exists s1, moves stays never true s s1 /\ outside stays never s1 s' /\ dequeued s ByRegisterNotify n r.1 s1 /\
      (requests_ok s -> protocol_answer s g n r)) s.
Proof.
  intros W Hlk Hreg. unfold CoreLocateProtocol. cbn [negb].
  set (s0 := upd_gProtocolDatabaseLock true s). set (sn := numbered s0).
  eapply wp_step; [unfold CoreAcquireProtocolLockOrFail; rewrite (Mbind_Ok Mget _ s s s eq_refl), Hlk; done|].
  cbn [EFI_ERROR]. apply wp_modify. fold s0. fold (numbered s0). fold sn.
  assert (G0 : moves stays never true s sn) by (by apply (same_moves stays never s sn W)). destruct (G0) as ((Wn & Ln & _) & _).
  destruct (Z.eqb_spec n 0) as [-> | Hn].
  - destruct (by_protocol_run sn g Wn Ln) as (r & s1 & Hr & G1 & EN & EE & Hans). eapply wp_step; [exact Hr|].
    destruct (G1) as ((W1 & L1 & _) & _). apply leave; [done|done|]. intros s' O. exists s1.
    split_and!; [exact (moves_trans _ _ _ _ _ _ _ G0 G1)|done| |exact Hans].
    intros m. rewrite (queue_same s s1 EN EE). destruct (_ && _) eqn:Hb; [|done]. apply andb_prop in Hb as [[_ ->]%bool_decide_eq_true _].
    unfold queue. destruct (wf_null s W) as (_ & _ & _ & ->). done.
  - destruct (by_registration_run sn g n Wn Ln Hn (Hreg Hn)) as (r & s1 & Hr & G1 & Hdq & Hans). eapply wp_step; [exact Hr|].
    destruct (G1) as ((W1 & L1 & _) & _). apply leave; [done|done|]. intros s' O. exists s1.
    split_and!; [exact (moves_trans _ _ _ _ _ _ _ G0 G1)|done|exact Hdq|by intros _].
Qed.
End Locate.
