(* ===== verification/HandOpen.v ===== *)
(** * HandOpen: who may open a protocol, and the services that only read

    The decision of CoreOpenProtocol as a function of the list of opens, and
    that it leaves at most one open that is a driver's or exclusive.  Then
    CoreOpenProtocolInformation, CoreProtocolsPerHandle,
    CoreLocateHandleBuffer and CoreConnectHandlesByKey. *)

From stdpp Require Import base option list gmap fin_maps.
From Stdlib Require Import ZArith Lia.
From S2P Require Import Prelude Hand HandInv HandRun HandSafe HandInstall HandLocate.

Local Open Scope Z_scope.
Local Open Scope edk_scope.

Definition by_driver (o : OPEN_PROTOCOL_DATA) : bool := has_attr (Attributes o) EFI_OPEN_PROTOCOL_BY_DRIVER.
Definition is_exclusive (o : OPEN_PROTOCOL_DATA) : bool := has_attr (Attributes o) EFI_OPEN_PROTOCOL_EXCLUSIVE.
Definition same_open (im co at_ : Z) (o : OPEN_PROTOCOL_DATA) : bool :=
  (AgentHandle o =? im) && (Attributes o =? at_) && (ControllerHandle o =? co).

(** One more open of the first entry [f]. *)
Fixpoint bump (f : OPEN_PROTOCOL_DATA -> bool) (l : list OPEN_PROTOCOL_DATA) : list OPEN_PROTOCOL_DATA :=
  match l with
  | [] => []
  | o :: l' =>
      if f o then mkOpen (AgentHandle o) (ControllerHandle o) (Attributes o) (wrapU 32 (OpenCount o + 1)) :: l'
      else o :: bump f l'
  end.

(** The decision: the status and the new list, when no driver has to be
    disconnected; [mem] tells whether there is memory for a new entry. *)
Definition verdict (mem : bool) (im co at_ : Z) (l : list OPEN_PROTOCOL_DATA) : EFI_STATUS * list OPEN_PROTOCOL_DATA :=
  let there := existsb (same_open im co at_) l in
  if there && has_attr at_ EFI_OPEN_PROTOCOL_BY_DRIVER then (EFI_ALREADY_STARTED, l)
  else if there && negb (has_attr at_ EFI_OPEN_PROTOCOL_EXCLUSIVE) then (EFI_SUCCESS, bump (same_open im co at_) l)
  else if ((at_ =? EFI_OPEN_PROTOCOL_BY_DRIVER) && (existsb is_exclusive l || existsb by_driver l)) ||
          (exclusive at_ && existsb is_exclusive l) then (EFI_ACCESS_DENIED, l)
  else if im =? 0 then (EFI_SUCCESS, l)
  else if mem then (EFI_SUCCESS, l ++ [mkOpen im co at_ 1])
  else (EFI_OUT_OF_RESOURCES, l).

Lemma open_scan_spec im co at_ : forall l bd ex,
  open_scan im co at_ bd ex l =
    let there := existsb (same_open im co at_) l in
    if there && has_attr at_ EFI_OPEN_PROTOCOL_BY_DRIVER then ScanDone EFI_ALREADY_STARTED l
    else if there && negb (has_attr at_ EFI_OPEN_PROTOCOL_EXCLUSIVE) then ScanDone EFI_SUCCESS (bump (same_open im co at_) l)
    else ScanEnd (bd || existsb by_driver l) (ex || existsb is_exclusive l).
Proof.
  induction l as [|o l IH]; intros bd ex; cbn [open_scan existsb bump]; [by rewrite !orb_false_r|].
  fold (same_open im co at_ o). fold (by_driver o). fold (is_exclusive o). rewrite IH. cbn zeta.
  destruct (same_open im co at_ o) eqn:Hs; cbn [orb andb].
  - assert (Attributes o = at_) as Ha.
    { apply andb_prop in Hs as [Hs _]. apply andb_prop in Hs as [_ Hs%Z.eqb_eq]. done. }
    unfold by_driver, is_exclusive. rewrite Ha. destruct (has_attr at_ EFI_OPEN_PROTOCOL_BY_DRIVER); cbn [andb]; [done|].
    destruct (has_attr at_ EFI_OPEN_PROTOCOL_EXCLUSIVE); cbn [negb andb]; [|done].
    rewrite !andb_false_r. by destruct bd, ex.
  - rewrite !andb_false_r. destruct (existsb (same_open im co at_) l); cbn [andb].
    + destruct (has_attr at_ EFI_OPEN_PROTOCOL_BY_DRIVER); [done|].
      destruct (has_attr at_ EFI_OPEN_PROTOCOL_EXCLUSIVE); cbn [negb]; [by rewrite !orb_assoc|done].
    + by rewrite !orb_assoc.
Qed.

Lemma first_driver_none l : first_driver l = None <-> existsb by_driver l = false.
Proof.
  unfold first_driver. fold by_driver. induction l as [|o l IH]; cbn; [done|]. by destruct (by_driver o).
Qed.

(** ** At most one owner *)

Definition owns (o : OPEN_PROTOCOL_DATA) : Prop := by_driver o || is_exclusive o = true.
#[global] Instance owns_dec o : Decision (owns o).
Proof. unfold owns. apply _. Defined.
Definition one_owner (l : list OPEN_PROTOCOL_DATA) : Prop := (length (filter owns l) <= 1)%nat.

Lemma bump_owners f l : length (filter owns (bump f l)) = length (filter owns l).
Proof.
  induction l as [|o l IH]; cbn [bump]; [done|]. destruct (f o).
  - rewrite !filter_cons. change (owns (mkOpen _ _ _ _)) with (owns o). by repeat case_decide.
  - rewrite !filter_cons. case_decide; cbn; by rewrite IH.
Qed.

Lemma no_owner l : existsb by_driver l = false -> existsb is_exclusive l = false -> filter owns l = [].
Proof.
  induction l as [|o l IH]; cbn [existsb]; [done|]. intros [H1 H2]%orb_false_iff [H3 H4]%orb_false_iff.
  rewrite filter_cons, decide_False, IH; [done|done|done|]. unfold owns. by rewrite H1, H3.
Qed.

(** The attributes that check_attributes lets through. *)
Definition valid_attributes (at_ : Z) : bool :=
  existsb (Z.eqb at_) [EFI_OPEN_PROTOCOL_BY_HANDLE_PROTOCOL; EFI_OPEN_PROTOCOL_GET_PROTOCOL; EFI_OPEN_PROTOCOL_TEST_PROTOCOL;
    EFI_OPEN_PROTOCOL_BY_CHILD_CONTROLLER; EFI_OPEN_PROTOCOL_BY_DRIVER; EFI_OPEN_PROTOCOL_EXCLUSIVE;
    EFI_OPEN_PROTOCOL_BY_DRIVER_EXCLUSIVE].

Lemma verdict_one_owner mem im co at_ l : valid_attributes at_ = true ->
  (exclusive at_ = true -> existsb by_driver l = false) -> one_owner l -> one_owner (verdict mem im co at_ l).2.
Proof.
  intros Hat Hdr Hone. unfold verdict. set (there := existsb _ l).
  destruct (there && _); [done|]. destruct (there && _); [unfold one_owner; cbn; by rewrite bump_owners|].
  destruct (_ || (_ && _)) eqn:Hden; [done|]. destruct (im =? 0); [done|]. destruct mem; [|done].
  apply orb_false_iff in Hden as [H1 H2]. unfold one_owner. cbn [snd]. rewrite filter_app, length_app, filter_cons.
  case_decide as Ho; [|cbn; unfold one_owner in Hone; lia].
  assert (filter owns l = []) as ->; [|cbn; lia].
  destruct (exclusive at_) eqn:Hex; cbn [andb] in H2; [by apply no_owner; [apply Hdr|]|].
  assert (at_ = EFI_OPEN_PROTOCOL_BY_DRIVER) as ->.
  { unfold owns, by_driver, is_exclusive in Ho. cbn [Attributes] in Ho. unfold valid_attributes in Hat.
    cbn [existsb] in Hat. repeat (apply orb_prop in Hat as [->%Z.eqb_eq|Hat]; [try done; try discriminate|]); done. }
  cbn in H1. apply orb_false_iff in H1 as [H1 H1']. by apply no_owner.
Qed.

Lemma check_valid `{Env : HAND_ENV} h im co at_ s :
  check_attributes h im co at_ s = Ok (EFI_SUCCESS, s) -> valid_attributes at_ = true.
Proof.
  unfold check_attributes, valid_attributes. cbn [existsb].
  destruct (at_ =? EFI_OPEN_PROTOCOL_BY_CHILD_CONTROLLER); [by rewrite !orb_true_r|].
  destruct (at_ =? EFI_OPEN_PROTOCOL_BY_DRIVER); [by rewrite !orb_true_r|].
  destruct (at_ =? EFI_OPEN_PROTOCOL_BY_DRIVER_EXCLUSIVE); [by rewrite !orb_true_r|].
  destruct (at_ =? EFI_OPEN_PROTOCOL_EXCLUSIVE); [by rewrite !orb_true_r|].
  destruct (at_ =? EFI_OPEN_PROTOCOL_BY_HANDLE_PROTOCOL); [done|].
  destruct (at_ =? EFI_OPEN_PROTOCOL_GET_PROTOCOL); [done|].
  by destruct (at_ =? EFI_OPEN_PROTOCOL_TEST_PROTOCOL).
Qed.

(** ** The service *)

Section Open.
Context `{Env : HAND_ENV} (tot : bool) (stays : Z -> Prop) (never : Z -> EFI_GUID -> Z -> Prop).
Context `{!HAND_LAWS tot stays never}.

Definition has_memory (s : DB) : bool := match AllocatePool s with Some _ => true | None => false end.

(** [p] has the opens [l], and nothing else changed. *)
Definition reopened (s s' : DB) (p : Z) (P : PROTOCOL_INTERFACE) (l : list OPEN_PROTOCOL_DATA) : Prop :=
  interfaces s' !! p = Some (set_OpenList l (wrapU 64 (Z.of_nat (length l))) P) /\
  (forall q, q <> p -> interfaces s' !! q = interfaces s !! q) /\
  gHandleList s' = gHandleList s /\ handles s' = handles s /\ entries s' = entries s /\
  mProtocolDatabase s' = mProtocolDatabase s /\ notifies s' = notifies s.

Lemma set_opens_id s p P : wf s -> interfaces s !! p = Some P ->
  set_OpenList (OpenList P) (wrapU 64 (Z.of_nat (length (OpenList P)))) P = P.
Proof. intros W HP. rewrite <- (wf_count s W p P HP). by destruct P. Qed.

Lemma reopened_id s p P : wf s -> interfaces s !! p = Some P -> reopened s s p P (OpenList P).
Proof. intros W HP. split; [|done]. by rewrite (set_opens_id s p P W HP). Qed.

Lemma reopened_set s p P l n : n = wrapU 64 (Z.of_nat (length l)) ->
  reopened s (upd_interfaces (<[p := set_OpenList l n P]> (interfaces s)) s) p P l.
Proof.
  intros ->. split; [cbn; by rewrite lookup_insert_eq|]. split; [|done]. intros q Hq. cbn. by rewrite lookup_insert_ne.
Qed.

Lemma access_run h p at_ bd ex s : (exclusive at_ = true -> bd = false) ->
  open_access h p at_ bd ex s =
    Ok (if ((at_ =? EFI_OPEN_PROTOCOL_BY_DRIVER) && (ex || bd)) || (exclusive at_ && ex) then EFI_ACCESS_DENIED
        else EFI_SUCCESS, s).
Proof.
  intros Hbd. unfold open_access. fold (exclusive at_).
  destruct (Z.eqb_spec at_ EFI_OPEN_PROTOCOL_BY_DRIVER) as [-> | Hd]; cbn [andb orb]; [by destruct (ex || bd)|].
  destruct (exclusive at_); [|done]. rewrite (Hbd eq_refl). by destruct ex.
Qed.

Lemma open_locked_run h p P im co at_ s : wf s -> interfaces s !! p = Some P ->
  (exclusive at_ = true -> first_driver (OpenList P) = None) ->
  exists s', open_locked h p im co at_ s = Ok ((verdict (has_memory s) im co at_ (OpenList P)).1, s') /\
    reopened s s' p P (verdict (has_memory s) im co at_ (OpenList P)).2 /\
    gProtocolDatabaseLock s' = gProtocolDatabaseLock s.
Proof.
  intros W HP Hdr. unfold open_locked, interface_at. run_step (deref_ok interfaces p P s HP).
  rewrite open_scan_spec. cbn zeta. cbn [orb]. unfold verdict. set (there := existsb _ (OpenList P)).
  pose proof (wf_count s W p P HP) as Hc.
  destruct (there && _).
  { run_step (on_interface_ok p (fun P => set_OpenList (OpenList P) (OpenListCount P) P) P s HP) ||
    rewrite (Mbind_Ok _ _ _ _ _ (on_interface_ok p _ P s HP)). eexists. split_and!; [done|by apply reopened_set|done]. }
  destruct (there && _).
  { rewrite (Mbind_Ok _ _ _ _ _ (on_interface_ok p _ P s HP)). eexists. split_and!; [done| |done]. apply reopened_set.
    rewrite Hc. do 2 f_equal. generalize (OpenList P) as l. induction l as [|o l IH]; cbn; [done|].
    destruct (same_open _ _ _ o); cbn; [done|]. by rewrite IH. }
  assert (Hbd : exclusive at_ = true -> existsb by_driver (OpenList P) = false).
  { intros Hex. by apply first_driver_none, Hdr. }
  run_step (access_run h p at_ _ (existsb is_exclusive (OpenList P)) s Hbd).
  assert (Hid : reopened s s p P (OpenList P)) by (by apply reopened_id).
  destruct (_ || (_ && _)); cbn [EFI_ERROR]; [by exists s|]. destruct (im =? 0); [by exists s|].
  rewrite (Mbind_Ok Mget _ s s s eq_refl). unfold has_memory. destruct (AllocatePool s) as [o|]; [|by exists s].
  rewrite (Mbind_Ok _ _ _ _ _ (on_interface_ok p _ P s HP)). eexists. split_and!; [done| |done]. apply reopened_set.
  rewrite Hc, counted_snoc. cbn [snd]. by rewrite length_app.
Qed.

(** The interface that is returned with the status. *)
Definition returned (at_ : Z) (P : PROTOCOL_INTERFACE) (st : EFI_STATUS) : option Z :=
  if negb (at_ =? EFI_OPEN_PROTOCOL_TEST_PROTOCOL) && (negb (EFI_ERROR st) || bool_decide (st = EFI_ALREADY_STARTED))
  then Some (Interface P) else None.

Lemma verdict_supported mem im co at_ l : (verdict mem im co at_ l).1 <> EFI_UNSUPPORTED.
Proof. unfold verdict. repeat case_match; done. Qed.

(** What CoreOpenProtocol does with a valid request. *)
Definition open_answer (s : DB) (h : Z) (g : EFI_GUID) (im co at_ : Z) (r : EFI_STATUS * option Z) (s' : DB) : Prop :=
  (exists p P s1, provides s p h g /\ interfaces s !! p = Some P /\
     let v := verdict (has_memory (upd_gProtocolDatabaseLock true s)) im co at_ (OpenList P) in
     r = (v.1, returned at_ P v.1) /\ reopened s s1 p P v.2 /\ outside stays never s1 s') \/
  ((forall p, ~ provides s p h g) /\ outside stays never s s' /\
   r = (EFI_UNSUPPORTED, if at_ =? EFI_OPEN_PROTOCOL_TEST_PROTOCOL then None else Some 0)).

Lemma reopened_wf s s' p P l : wf s -> p <> 0 -> interfaces s !! p = Some P -> reopened s s' p P l -> wf s'.
Proof.
  intros W Hp0 HP (HR1 & HR2 & HR3 & HR4 & HR5 & HR6 & HR7). eapply wf_ext; [exact W|done|done|by rewrite HR4|done| |done| |].
  - intros q x y Hq. unfold ifc. destruct (decide (q = p)) as [-> | Hd]; [by rewrite HR1, HP|by rewrite HR2].
  - intros q Q HQ. destruct (decide (q = p)) as [-> | Hd]; [rewrite HR1 in HQ; by injection HQ as <-|].
    rewrite HR2 in HQ by done. by apply (wf_count s W q).
  - rewrite HR2 by (by apply not_eq_sym). apply W.
Qed.

Lemma open_ok h g ib im co at_ s :
  wf s -> gProtocolDatabaseLock s = false -> h ∈ gHandleList s ->
  negb (at_ =? EFI_OPEN_PROTOCOL_TEST_PROTOCOL) && negb ib = false ->
  check_attributes h im co at_ s = Ok (EFI_SUCCESS, s) ->
  (forall p P, provides s p h g -> interfaces s !! p = Some P -> exclusive at_ = true -> first_driver (OpenList P) = None) ->
  wp tot (CoreOpenProtocol h (Some g) ib im co at_) (open_answer s h g im co at_) s.
Proof.
  intros W Hlk Hh Hib Hck Hdr. unfold CoreOpenProtocol. rewrite Hib.
  eapply wp_step; [by apply validate_run|]. rewrite bool_decide_true by done. cbn [EFI_ERROR].
  eapply wp_step; [exact Hck|]. cbn [EFI_ERROR]. apply wp_acquire; [done|].
  pose proof (locked_moves stays never s W) as G0. set (s0 := upd_gProtocolDatabaseLock true s) in *.
  destruct (G0) as ((W0 & L0 & _) & _). destruct (protocol_run s0 W0 h g) as (p & Hp & Hspec).
  eapply wp_step; [exact Hp|]. cbn beta. destruct Hspec as [Hprov|[-> Hno]].
  - destruct (provides_pinned s0 p h g W0 Hprov) as (Hp0 & e & i & (Hl & P & HP & _)).
    rewrite (proj2 (Z.eqb_neq p 0) Hp0). cbn [negb].
    destruct (open_locked_run h p P im co at_ s0 W0 HP (Hdr p P Hprov HP)) as (s1 & Hrun & HR & L1).
    eapply wp_step; [exact Hrun|]. cbn beta. pose proof (verdict_supported (has_memory s0) im co at_ (OpenList P)) as Hsup.
    set (v := verdict _ _ _ _ _) in *.
    assert (W1 : wf s1) by (by eapply (reopened_wf s0 s1 p P)).
    assert (Hfin : wp tot (CoreReleaseProtocolLock ;;; Mret (v.1, returned at_ P v.1)) (open_answer s h g im co at_) s1).
    { apply (leave tot stays never); [done|by rewrite L1|]. intros s' O. left. exists p, P, s1. done. }
    assert (Hret : returned at_ P v.1 = if negb (at_ =? EFI_OPEN_PROTOCOL_TEST_PROTOCOL) &&
      (negb (EFI_ERROR v.1) || bool_decide (v.1 = EFI_ALREADY_STARTED)) then Some (Interface P) else None) by done.
    rewrite Hret in Hfin. clear Hret. destruct (negb (at_ =? EFI_OPEN_PROTOCOL_TEST_PROTOCOL)); cbn [andb] in Hfin.
    2:{ eapply wp_step; [done|]. exact Hfin. }
    destruct (negb (EFI_ERROR v.1) || bool_decide (v.1 = EFI_ALREADY_STARTED)).
    + apply wp_bind. eapply wp_step; [done|]. unfold interface_at. eapply wp_deref; [apply HR|]. apply wp_ret. exact Hfin.
    + eapply wp_step; [done|]. rewrite bool_decide_false by done. exact Hfin.
  - eapply wp_step; [done|]. cbn [EFI_ERROR negb orb]. rewrite (bool_decide_false (EFI_UNSUPPORTED = EFI_ALREADY_STARTED)) by done.
    unfold open_answer. destruct (at_ =? EFI_OPEN_PROTOCOL_TEST_PROTOCOL); cbn [negb]; (eapply wp_step; [done|]);
      apply (leave tot stays never); try done; intros s' O; right; (split_and!; [done|exact (moves_trans _ _ _ _ _ _ _ G0 O)|done]).
Qed.
End Open.

Section Query.
Context `{Env : HAND_ENV} (tot : bool) (stays : Z -> Prop) (never : Z -> EFI_GUID -> Z -> Prop).
Context `{!HAND_LAWS tot stays never}.

(** The opens of the protocol are returned, unless memory is short. *)
Lemma information_ok h g s : wf s -> gProtocolDatabaseLock s = false ->
  wp tot (CoreOpenProtocolInformation h g) (fun r s' => outside stays never s s' /\
    ((exists p P, provides s p h g /\ interfaces s !! p = Some P /\ r = (EFI_SUCCESS, OpenList P)) \/
     (r = (EFI_NOT_FOUND, []) /\ forall p, ~ provides s p h g) \/ r = (EFI_OUT_OF_RESOURCES, []))) s.
Proof.
  intros W Hlk. unfold CoreOpenProtocolInformation. apply wp_acquire; [done|].
  pose proof (locked_moves stays never s W) as G0. set (s0 := upd_gProtocolDatabaseLock true s) in *.
  destruct (G0) as ((W0 & L0 & _) & _). destruct (protocol_run s0 W0 h g) as (p & Hp & Hspec).
  eapply wp_step; [exact Hp|]. cbn beta.
  assert (Hfin : forall r, ((exists p P, provides s p h g /\ interfaces s !! p = Some P /\ r = (EFI_SUCCESS, OpenList P)) \/
     (r = (EFI_NOT_FOUND, []) /\ forall p, ~ provides s p h g) \/ r = (EFI_OUT_OF_RESOURCES, [])) ->
     wp tot (CoreReleaseProtocolLock ;;; Mret r) (fun r s' => outside stays never s s' /\
    ((exists p P, provides s p h g /\ interfaces s !! p = Some P /\ r = (EFI_SUCCESS, OpenList P)) \/
     (r = (EFI_NOT_FOUND, []) /\ forall p, ~ provides s p h g) \/ r = (EFI_OUT_OF_RESOURCES, []))) s0).
  { intros r Hr. eapply (finish tot stays never); [exact G0|]. intros s' O. by split. }
  destruct Hspec as [Hprov|[-> Hno]].
  - destruct (Hprov) as (e & Hl & _). destruct (linked_interface s0 W0 p h e Hl) as (Hp0 & P & HP & _).
    rewrite (proj2 (Z.eqb_neq p 0) Hp0). apply wp_bind. unfold interface_at. eapply wp_deref; [exact HP|].
    rewrite (wf_count s0 W0 p P HP), Z.eqb_refl. eapply wp_step; [done|]. apply wp_get.
    destruct (AllocateBuffer _ _); apply wp_ret, Hfin; [left; by exists p, P|by do 2 right].
  - eapply wp_step; [done|]. apply Hfin. right. by left.
Qed.

(** The protocols on a handle. *)
Lemma protocol_ids_run h s : wf s -> forall l, (forall p, p ∈ l -> exists y, linked s p h y) ->
  exists gs, protocol_ids l s = Ok (gs, s) /\ Forall2 (fun p g => provides s p h g) l gs.
Proof.
  intros W. induction l as [|p l IH]; intros Hl; cbn [protocol_ids]; [by exists []|].
  destruct (Hl p ltac:(by left)) as [y Hy]. destruct (linked_interface s W p h y Hy) as (_ & P & HP & _ & HPy).
  destruct (wf_entry s W y) as [E HE]; [by destruct Hy as (_ & _ & ? & _)|].
  destruct IH as (gs & Hg & Hf); [intros q Hq; apply Hl; by right|]. unfold interface_at, entry_at.
  run_step (deref_ok interfaces p P s HP). rewrite HPy. run_step (deref_ok entries y E s HE). run_step Hg.
  eexists. split; [done|]. constructor; [|done]. exists y. split; [done|]. unfold eguid. by rewrite HE.
Qed.

Lemma per_handle_ok h pb pc s : wf s -> gProtocolDatabaseLock s = false ->
  wp tot (CoreProtocolsPerHandle h pb pc) (fun r s' => outside stays never s s' /\
    (r.1 = EFI_SUCCESS -> Forall2 (fun p g => provides s p h g) (hprots s h) r.2)) s.
Proof.
  intros W Hlk. pose proof (unchanged stays never s W Hlk) as Hsame. unfold CoreProtocolsPerHandle.
  eapply wp_step; [by apply validate_run|]. cbn beta. case_bool_decide as Hh; cbn [EFI_ERROR]; [|by apply wp_ret].
  destruct (_ || _); [by apply wp_ret|]. apply wp_acquire; [done|].
  pose proof (locked_moves stays never s W) as G0. set (s0 := upd_gProtocolDatabaseLock true s) in *.
  destruct (G0) as ((W0 & L0 & _) & _). destruct (wf_handle s0 W0 h Hh) as [H HH].
  unfold handle_at. eapply wp_deref; [exact HH|]. apply wp_get.
  assert (EH : HandleProtocols H = hprots s h) by (unfold hprots; change (handles s) with (handles s0); by rewrite HH).
  assert (Hfin : forall r, (r.1 = EFI_SUCCESS -> Forall2 (fun p g => provides s p h g) (hprots s h) r.2) ->
     wp tot (CoreReleaseProtocolLock ;;; Mret r) (fun r s' => outside stays never s s' /\
       (r.1 = EFI_SUCCESS -> Forall2 (fun p g => provides s p h g) (hprots s h) r.2)) s0).
  { intros r Hr. eapply (finish tot stays never); [exact G0|]. intros s' O. by split. }
  destruct (_ =? 0); [eapply wp_step; [done|]; by apply Hfin|].
  destruct (AllocateBuffer _ _); [|eapply wp_step; [done|]; by apply Hfin].
  destruct (protocol_ids_run h s0 W0 (HandleProtocols H)) as (gs & Hg & Hf).
  { intros p Hp. rewrite EH in Hp. by apply W0. }
  apply wp_bind. eapply wp_step; [exact Hg|]. apply wp_ret, Hfin. intros _. rewrite <- EH. exact Hf.
Qed.

(** ** CoreLocateHandleBuffer

    The buffer is allocated with the lock released, and filled by a second
    search; no handle is returned unless that search succeeds.  [s] is the
    state of the first search, [s2] that of the allocation and the second
    one. *)
Definition buffer_answer (s s2 : DB) (ty : EFI_LOCATE_SEARCH_TYPE) (g : option EFI_GUID) (k : Z)
    (r : EFI_STATUS * Z * list Z) : Prop :=
  if bad_search ty g k then r = (EFI_INVALID_PARAMETER, 0, [])
  else exists L, located s ty g k L /\
    if bool_decide (L = []) then r = (EFI_NOT_FOUND, 0, [])
    else if negb (AllocateBuffer (8 * Z.of_nat (length L)) s2) then r = (EFI_OUT_OF_RESOURCES, 0, [])
    else exists L2, located s2 ty g k L2 /\
      if bool_decide (L2 = []) then r = (EFI_NOT_FOUND, 0, [])
      else if bool_decide (length L < length L2)%nat then r = (EFI_BUFFER_TOO_SMALL, 0, take (length L) L2)
      else r = (EFI_SUCCESS, Z.of_nat (length L2), L2).

(** The answers of the two searches together. *)
Lemma buffer_answer_ok s s2 ty g k L r :
  bad_search ty g k = false -> located s ty g k L -> L <> [] -> AllocateBuffer (8 * Z.of_nat (length L)) s2 = true ->
  locate_answer s2 ty g k (8 * Z.of_nat (length L)) r ->
  buffer_answer s s2 ty g k (r.1.1, if EFI_ERROR r.1.1 then 0 else r.1.2 / 8, r.2).
Proof.
  intros Hok HL Hne Hmem. unfold locate_answer, buffer_answer. rewrite Hok. intros (L2 & HL2 & Hr).
  exists L. split; [done|]. rewrite bool_decide_false, Hmem by done. exists L2. split; [done|].
  cbn zeta in Hr. case_bool_decide as H2; subst r; cbn; [done|].
  destruct (Z.ltb_spec (8 * Z.of_nat (length L)) (8 * Z.of_nat (length L2))) as [Hlt|Hge]; cbn.
  - rewrite bool_decide_true by lia. by rewrite Z.mul_comm, Z.div_mul, Nat2Z.id.
  - rewrite bool_decide_false by lia. by rewrite Z.mul_comm, Z.div_mul.
Qed.

Lemma buffer_ok ty g k s :
  wf s -> gProtocolDatabaseLock s = false -> (ty = ByRegisterNotify -> k = 0) ->
  wp tot (CoreLocateHandleBuffer ty g k true true) (fun r s' => outside stays never s s' /\
    exists s2, outside stays never s s2 /\
      (small s -> requests_ok s -> small s2 -> requests_ok s2 -> buffer_answer s s2 ty g k r)) s.
Proof.
  intros W Hlk Hty. unfold CoreLocateHandleBuffer. cbn [negb orb].
  eapply wp_seq; [apply (locate_ok tot stays never); [done|done|lia|done|]; intros H1 H2; by destruct H2; auto|].
  cbn beta. intros [[st B] l] s2 (s1 & G1 & O1 & _ & HB & Hans). cbn [fst snd] in *.
  assert (O2 : outside stays never s s2) by (by eapply moves_trans). destruct (O2) as ((W2 & L2 & _) & _).
  assert (Hcase : small s -> requests_ok s ->
    if bad_search ty g k then st = EFI_INVALID_PARAMETER
    else exists L, located s ty g k L /\ if bool_decide (L = []) then st = EFI_NOT_FOUND
      else st = EFI_BUFFER_TOO_SMALL /\ B = 8 * Z.of_nat (length L)).
  { intros Hsm Hr. specialize (Hans Hsm Hr). unfold locate_answer in Hans.
    destruct (bad_search ty g k); [by injection Hans as -> _ _|]. destruct Hans as (L & HL & E). exists L. split; [done|].
    case_bool_decide as HL0; [by injection E as -> _ _|]. assert (length L <> O) by (by destruct L).
    rewrite (proj2 (Z.ltb_lt 0 (8 * Z.of_nat (length L)))) in E by lia. by injection E as -> -> _. }
  destruct (EFI_ERROR st && negb (bool_decide (st = EFI_BUFFER_TOO_SMALL))) eqn:Hst.
  { apply wp_ret. split; [done|]. exists s2. split; [done|]. intros Hsm Hr _ _. specialize (Hcase Hsm Hr).
    unfold buffer_answer. destruct (bad_search ty g k); [by subst st|]. destruct Hcase as (L & HL & E). exists L.
    split; [done|]. destruct (bool_decide (L = [])); [by subst st|]. by destruct E as [-> _]. }
  assert (Hgo : small s -> requests_ok s -> bad_search ty g k = false /\ exists L, located s ty g k L /\ L <> [] /\
    B = 8 * Z.of_nat (length L)).
  { intros Hsm Hr. specialize (Hcase Hsm Hr). destruct (bad_search ty g k); [by subst st|]. split; [done|].
    destruct Hcase as (L & HL & E). exists L.
    destruct (bool_decide_reflect (L = [])); [by subst st|]. by destruct E as [_ ->]. }
  apply wp_get. destruct (AllocateBuffer B s2) eqn:Hmem.
  2:{ apply wp_ret. split; [done|]. exists s2. split; [done|]. intros Hsm Hr _ _.
      destruct (Hgo Hsm Hr) as (Hok & L & HL & Hne & ->). unfold buffer_answer. rewrite Hok. exists L.
      split; [done|]. by rewrite bool_decide_false, Hmem by done. }
  eapply wp_seq; [apply (locate_ok tot stays never); [done|done|done|by rewrite andb_false_r|]; intros H1 H2; by destruct H2; auto|].
  cbn beta. intros r s' (s3 & G3 & O3 & _ & _ & Hans2). destruct r as [[st2 B2] l2]. apply wp_ret.
  split; [eapply moves_trans; [exact O2|]; by eapply moves_trans|]. exists s2. split; [done|]. intros Hsm Hr Hsm2 Hr2.
  destruct (Hgo Hsm Hr) as (Hok & L & HL & Hne & ->).
  exact (buffer_answer_ok s s2 ty g k L _ Hok HL Hne Hmem (Hans2 Hsm2 Hr2)).
Qed.

Lemma buffer_safe ty g k nb bb s :
  wf s -> gProtocolDatabaseLock s = false -> (ty = ByRegisterNotify -> k = 0) ->
  wp tot (CoreLocateHandleBuffer ty g k nb bb) (fun _ s' => outside stays never s s') s.
Proof.
  intros W Hlk Hty. destruct (negb nb || negb bb) eqn:E.
  - unfold CoreLocateHandleBuffer. rewrite E. apply wp_ret. by apply unchanged.
  - destruct nb, bb; try done. eapply wp_mono; [by apply buffer_ok|]. intros r s' [O _]. exact O.
Qed.

(** ** CoreConnectHandlesByKey *)

Lemma modified_since_run k s : forall l, (forall h, h ∈ l -> is_Some (handles s !! h)) ->
  modified_since k l s = Ok (filter (fun h => k < from_option Key 0 (handles s !! h)) l, s).
Proof.
  induction l as [|h l IH]; intros Hl; cbn [modified_since]; [done|]. destruct (Hl h ltac:(by left)) as [H HH].
  unfold handle_at. run_step (deref_ok handles h H s HH). run_step (IH (fun x Hx => Hl x (list_elem_of_further x h l Hx))).
  rewrite filter_cons, HH. cbn [from_option]. unfold Mret. do 2 f_equal. case_decide; destruct (Z.ltb_spec k (Key H)); lia || done.
Qed.

Lemma connect_all_ok : forall l s, wf s -> gProtocolDatabaseLock s = false ->
  wp tot (connect_all l) (fun _ => outside stays never s) s.
Proof.
  induction l as [|h l IH]; intros s W Hlk; cbn [connect_all]; [by apply wp_ret, unchanged|].
  eapply wp_seq; [by apply (connect_ok (tot := tot) (stays := stays) (never := never))|]. cbn beta. intros st s1 O1. destruct (O1) as ((W1 & L1 & _) & _).
  eapply wp_mono; [by apply IH|]. cbn. intros _ s2 O2. by eapply moves_trans.
Qed.

Lemma connect_by_key_ok k s : wf s -> gProtocolDatabaseLock s = false ->
  wp tot (CoreConnectHandlesByKey k) (fun _ => outside stays never s) s.
Proof.
  intros W Hlk. unfold CoreConnectHandlesByKey. apply wp_acquire; [done|].
  pose proof (locked_moves stays never s W) as G0. set (s0 := upd_gProtocolDatabaseLock true s) in *.
  destruct (G0) as ((W0 & L0 & _) & _). apply wp_get.
  eapply wp_step; [apply modified_since_run; intros h Hh; by apply (wf_handle s0 W0)|]. cbn beta.
  destruct (AllocateBuffer _ _).
  - apply (wp_release tot stays never); [done|done|]. intros s1 O1. destruct (O1) as ((W1 & L1 & _) & _).
    eapply wp_mono; [by apply connect_all_ok|]. cbn. intros _ s2 O2.
    eapply moves_trans; [exact G0|]. by eapply moves_trans.
  - eapply wp_mono; [by apply (release_ok tot stays never)|]. cbn. intros _ s1 O1. exact (moves_trans _ _ _ _ _ _ _ G0 O1).
Qed.
End Query.
