(* ===== verification/HandTheorems.v ===== *)
(** * HandTheorems: what the protocol database guarantees

    Histories of service calls keep the database well formed; what
    installing, uninstalling, opening and locating do; and the evaluation of
    dependency expressions over the database. *)

From stdpp Require Import base option list gmap fin_maps.
From Stdlib Require Import ZArith Lia.
From S2P Require Import Prelude Depex Hand HandInv HandRun HandSafe HandInstall HandRemove HandLocate HandOpen.

Local Open Scope Z_scope.
Local Open Scope edk_scope.

(** ** Histories *)

(** The calls of the services. *)
Inductive CALL : Type :=
| InstallProtocolInterface (UserHandle : option Z) (Prot : option EFI_GUID) (InterfaceType Iface : Z) (NotifyList : bool)
| UninstallProtocolInterface (UserHandle : Z) (Prot : option EFI_GUID) (Iface : Z)
| ReinstallProtocolInterface (UserHandle : Z) (Prot : option EFI_GUID) (OldInterface NewInterface : Z)
| OpenProtocol (UserHandle : Z) (Prot : option EFI_GUID) (Iface : bool) (ImageHandle Controller Attr : Z)
| HandleProtocol (UserHandle : Z) (Prot : option EFI_GUID) (Iface : bool)
| CloseProtocol (UserHandle : Z) (Prot : option EFI_GUID) (Agent Controller : Z)
| OpenProtocolInformation (UserHandle : Z) (Prot : EFI_GUID)
| ProtocolsPerHandle (UserHandle : Z) (ProtocolBuffer ProtocolBufferCount : bool)
| RegisterProtocolNotify (Prot : option EFI_GUID) (Event : Z) (Registration : bool)
| UnregisterProtocolNotify (Event : Z)
| LocateHandle (SearchType : EFI_LOCATE_SEARCH_TYPE) (Prot : option EFI_GUID) (Key_ : Z) (BufferSize : option Z) (Buffer : bool)
| LocateHandleBuffer (SearchType : EFI_LOCATE_SEARCH_TYPE) (Prot : option EFI_GUID) (Key_ : Z) (NumberHandles Buffer : bool)
| LocateProtocol (Prot : option EFI_GUID) (Registration : Z) (Iface : bool)
| ConnectHandlesByKey (Key_ : Z).

Section Histories.
Context `{Env : HAND_ENV} (tot : bool) (stays : Z -> Prop) (never : Z -> EFI_GUID -> Z -> Prop).

Definition run (c : CALL) : M DB unit :=
  match c with
  | InstallProtocolInterface u g t i n => CoreInstallProtocolInterfaceNotify u g t i n ;;; Mret tt
  | UninstallProtocolInterface h g i => CoreUninstallProtocolInterface h g i ;;; Mret tt
  | ReinstallProtocolInterface h g o n => CoreReinstallProtocolInterface h g o n ;;; Mret tt
  | OpenProtocol h g i im co a => CoreOpenProtocol h g i im co a ;;; Mret tt
  | HandleProtocol h g i => CoreHandleProtocol h g i ;;; Mret tt
  | CloseProtocol h g a co => CoreCloseProtocol h g a co ;;; Mret tt
  | OpenProtocolInformation h g => CoreOpenProtocolInformation h g ;;; Mret tt
  | ProtocolsPerHandle h b c => CoreProtocolsPerHandle h b c ;;; Mret tt
  | RegisterProtocolNotify g e r => CoreRegisterProtocolNotify g e r ;;; Mret tt
  | UnregisterProtocolNotify e => CoreUnregisterProtocolNotify e ;;; Mret tt
  | LocateHandle t g k b bf => CoreLocateHandle t g k b bf ;;; Mret tt
  | LocateHandleBuffer t g k n b => CoreLocateHandleBuffer t g k n b ;;; Mret tt
  | LocateProtocol g r i => CoreLocateProtocol g r i ;;; Mret tt
  | ConnectHandlesByKey k => CoreConnectHandlesByKey k
  end.

(** What a caller has to respect: not to install the same interface of a
    protocol twice on a handle; to search with live registrations; and the
    interface whose drivers the call disconnects is not removed by them. *)
Definition allowed (s : DB) (c : CALL) : Prop :=
  match c with
  | InstallProtocolInterface (Some u) (Some g) _ i _ => u <> 0 -> never u g i /\ ~ has s u g i
  | UninstallProtocolInterface h (Some g) i => removable tot stays h g i s
  | ReinstallProtocolInterface h (Some g) i _ => removable tot stays h g i s
  | OpenProtocol h (Some g) _ _ _ a => forall p, provides s p h g -> may_open tot stays a p
  | UnregisterProtocolNotify _ => tot = false
  | LocateHandle t _ k b _ => (forall n, b = Some n -> 0 <= n) /\ (t = ByRegisterNotify -> k <> 0 -> registered s k)
  | LocateHandleBuffer t _ k _ _ => t = ByRegisterNotify -> k = 0
  | LocateProtocol _ r _ => r <> 0 -> registered s r
  | _ => True
  end.

(** The database as the globals are initialized. *)
Definition InitialDatabase : DB := mkDB [] [] 0 0 false ∅ ∅ ∅ ∅ [].

Inductive reach : DB -> Prop :=
| reach_start : reach InitialDatabase
| reach_call s c s' : reach s -> allowed s c -> run c s = Ok (tt, s') -> reach s'.

Lemma initial_wf : wf InitialDatabase.
Proof.
  constructor; cbn; try done.
  - split; [constructor|]. intros h Hh. by apply not_elem_of_nil in Hh.
  - split; [constructor|]. intros h Hh. by apply not_elem_of_nil in Hh.
  - intros e1 e2 H. by apply not_elem_of_nil in H.
  - intros h H. by apply not_elem_of_nil in H.
  - intros h H. by apply not_elem_of_nil in H.
  - intros h p H. by apply not_elem_of_nil in H.
  - intros h p H. by apply not_elem_of_nil in H.
  - intros h p H. by apply not_elem_of_nil in H.
Qed.

Context `{!HAND_LAWS tot stays never}.

Lemma drop_result {A} (c : M DB A) (Q : A -> DB -> Prop) s : wp tot c Q s -> (forall a s', Q a s' -> goes false s s') ->
  wp tot (c ;;; Mret tt) (fun _ s' => goes false s s') s.
Proof. intros Hc HQ. eapply wp_seq; [exact Hc|]. intros a s' H. by apply wp_ret, (HQ a). Qed.

Lemma install_any u g t i n s : wf s -> gProtocolDatabaseLock s = false ->
  (forall u' g', u = Some u' -> g = Some g' -> u' <> 0 -> never u' g' i /\ ~ has s u' g' i) ->
  wp tot (CoreInstallProtocolInterfaceNotify u g t i n) (fun _ s' => goes false s s') s.
Proof.
  intros W Hlk Hal. assert (Hs : goes false s s) by (rewrite <- Hlk; by apply goes_refl).
  destruct (decide (t = EFI_NATIVE_INTERFACE)) as [-> | Ht].
  - destruct u as [u|]; [|by apply wp_ret]. destruct g as [g|]; [|by apply wp_ret].
    eapply wp_mono; [apply (install_ok tot stays never u g i n s W Hlk)|by intros a s' [? _]].
    + intros Hu. by apply (Hal u g).
    + destruct (decide (u = 0)) as [-> | Hu]; [|by apply (Hal u g)].
      intros (p & P & (e & (_ & H0 & _) & _) & _). by apply (handle_nonnull s W) in H0.
  - unfold CoreInstallProtocolInterfaceNotify. rewrite (proj2 (Z.eqb_neq _ _) Ht). cbn [negb].
    destruct u as [u|], g as [g|]; by apply wp_ret.
Qed.

Lemma locate_any ty g k b bf s : wf s -> gProtocolDatabaseLock s = false -> (forall n, b = Some n -> 0 <= n) ->
  (ty = ByRegisterNotify -> k <> 0 -> registered s k) ->
  wp tot (CoreLocateHandle ty g k b bf) (fun _ s' => goes false s s') s.
Proof.
  intros W Hlk Hb Hreg. assert (Hs : goes false s s) by (rewrite <- Hlk; by apply goes_refl).
  destruct b as [B|]; [|by apply wp_ret]. destruct ((0 <? B) && negb bf) eqn:Hbf.
  - unfold CoreLocateHandle. rewrite Hbf. by apply wp_ret.
  - eapply wp_mono; [by apply (locate_ok tot stays never ty g k B bf s W Hlk); [apply Hb| |]|].
    intros r s' (s1 & G1 & O1 & _). eapply moves_goes. by eapply moves_trans.
Qed.

Lemma locate_protocol_any g r i s : wf s -> gProtocolDatabaseLock s = false -> (r <> 0 -> registered s r) ->
  wp tot (CoreLocateProtocol g r i) (fun _ s' => goes false s s') s.
Proof.
  intros W Hlk Hreg. assert (Hs : goes false s s) by (rewrite <- Hlk; by apply goes_refl).
  destruct g as [g|]; [|by apply wp_ret]. destruct i; [|by apply wp_ret].
  eapply wp_mono; [by apply (locate_protocol_ok tot stays never g r s W Hlk)|].
  intros a s' (s1 & G1 & O1 & _). eapply moves_goes. by eapply moves_trans.
Qed.

(** Removal and replacement without a protocol GUID. *)
Lemma no_guid h s (k : EFI_STATUS -> M DB EFI_STATUS) : wf s -> gProtocolDatabaseLock s = false ->
  (forall st, k st = Mret st \/ k st = Mret EFI_INVALID_PARAMETER) ->
  wp tot (let! st := CoreValidateHandle h in k st) (fun _ s' => goes false s s') s.
Proof.
  intros W Hlk Hk. eapply wp_step; [by apply validate_run|]. destruct (Hk (if bool_decide (h ∈ gHandleList s) then EFI_SUCCESS
    else EFI_INVALID_PARAMETER)) as [-> | ->]; apply wp_ret; rewrite <- Hlk; by apply goes_refl.
Qed.

Lemma run_ok s c : wf s -> gProtocolDatabaseLock s = false -> allowed s c -> wp tot (run c) (fun _ s' => goes false s s') s.
Proof.
  intros W Hlk Hal. assert (Hs : goes false s s) by (rewrite <- Hlk; by apply goes_refl).
  destruct c; cbn [run].
  - eapply drop_result; [apply (install_any UserHandle Prot InterfaceType Iface NotifyList s W Hlk)|done].
    intros u' g' -> ->. exact Hal.
  - destruct Prot as [g|].
    + eapply drop_result; [by apply (uninstall_ok tot stays never _ g)|]. by intros a s' [? _].
    + apply (drop_result _ (fun _ s' => goes false s s')); [by apply wp_ret|done].
  - destruct Prot as [g|].
    + eapply drop_result; [by apply (reinstall_ok tot stays never _ g)|]. by intros a s' [? _].
    + apply (drop_result _ (fun _ s' => goes false s s')); [|done]. apply no_guid; [done|done|]. intros st. destruct (EFI_ERROR st); [by left|by right].
  - eapply drop_result; [apply (open_safe tot stays never); [done|done|]|intros a s' [O _]; apply O].
    intros g' p ->. apply Hal.
  - eapply drop_result; [by apply (handle_protocol_safe tot stays never)|intros a s' [O _]; apply O].
  - eapply drop_result; [by apply (close_safe tot stays never)|intros a s' O; apply O].
  - eapply drop_result; [by apply (information_ok tot stays never)|intros a s' [O _]; apply O].
  - eapply drop_result; [by apply (per_handle_ok tot stays never)|intros a s' [O _]; apply O].
  - eapply drop_result; [by apply (register_safe tot stays never)|intros a s' O; apply O].
  - eapply drop_result; [by apply (unregister_safe tot stays never)|intros a s' O; apply O].
  - destruct Hal as [Hb Hr]. eapply drop_result; [by apply locate_any|done].
  - eapply drop_result; [by apply (buffer_safe tot stays never)|intros a s' O; apply O].
  - eapply drop_result; [by apply locate_protocol_any|done].
  - eapply wp_mono; [by apply (connect_by_key_ok tot stays never)|]. intros a s' O. apply O.
Qed.

Lemma reach_wf s : reach s -> wf s /\ gProtocolDatabaseLock s = false.
Proof.
  induction 1 as [|s c s' _ [W Hlk] Hal Hrun]; [split; [apply initial_wf|done]|].
  pose proof (run_ok s c W Hlk Hal) as Hok. unfold wp in Hok. rewrite Hrun in Hok. by destruct Hok as (W' & L' & _).
Qed.
End Histories.

(** ** Searches in the database *)

Lemma located_protocol s g k L : wf s -> located s ByProtocol (Some g) k L ->
  NoDup L /\ forall h, h ∈ L <-> exists p, provides s p h g.
Proof.
  intros W (g' & e & [= <-] & He & ->). split; [apply NoDup_firsts|]. intros h. rewrite elem_of_firsts, list_elem_of_fmap.
  assert (Hp : forall p, p ∈ eprots s e -> provides s p (handle_of s p) g).
  { intros p Hp. destruct He as [[He Hg]|[-> _]].
    - destruct (wf_elink s W e p He Hp) as [x Hx]. destruct (linked_interface s W p x e Hx) as (_ & P & HP & HPx & _).
      exists e. unfold handle_of. rewrite HP. cbn. by rewrite HPx.
    - unfold eprots in Hp. destruct (wf_null s W) as (_ & N0 & _). rewrite N0 in Hp. by apply not_elem_of_nil in Hp. }
  split.
  - intros [(p & -> & Hin) _]. exists p. by apply Hp.
  - intros (p & y & Hy & Hg). split; [|apply not_elem_of_nil]. exists p.
    assert (y = e) as ->.
    { destruct (Hy) as (_ & _ & Hdb & _). destruct He as [[He Hge]|[_ Hno]]; [|by destruct (Hno y)].
      apply (wf_guids s W); [done|done|congruence]. }
    destruct (linked_interface s W p h e Hy) as (_ & P & HP & HPh & _). unfold handle_of. rewrite HP.
    destruct Hy as (_ & _ & _ & _ & Hin). done.
Qed.

(** Whether CoreLocateProtocol finds a protocol in the database [s]. *)
Definition database_has `{Env : HAND_ENV} (s : DB) (g : EFI_GUID) : bool :=
  match CoreLocateProtocol (Some g) 0 true s with Ok ((EFI_SUCCESS, _), _) => true | _ => false end.

Lemma database_has_spec `{Env : HAND_ENV} stays never `{!HAND_LAWS true stays never} s g :
  wf s -> gProtocolDatabaseLock s = false -> requests_ok s ->
  database_has s g = true <-> exists p h, provides s p h g.
Proof.
  intros W Hlk Hreq. unfold database_has.
  destruct (wp_total _ _ _ (locate_protocol_ok true stays never g 0 s W Hlk ltac:(done))) as (r & s' & -> & s1 & _ & _ & _ & Hans).
  destruct (Hans Hreq) as (l & (e & He & ->) & ->). destruct (eprots s e) as [|p l] eqn:El; cbn [head].
  - split; [done|]. intros (p & h & y & Hy & Hg). assert (y = e) as ->.
    { destruct (Hy) as (_ & _ & Hdb & _). destruct He as [[He Hge]|[_ Hno]]; [|by destruct (Hno y)].
      apply (wf_guids s W); [done|done|congruence]. }
    destruct Hy as (_ & _ & _ & _ & Hin). rewrite El in Hin. by apply not_elem_of_nil in Hin.
  - split; [|done]. intros _. exists p. destruct He as [[He Hg]|[-> _]].
    + destruct (wf_elink s W e p He) as [x Hx]; [rewrite El; by left|]. exists x, e. done.
    + unfold eprots in El. destruct (wf_null s W) as (_ & N0 & _). by rewrite N0 in El.
Qed.

(** ** A bench

    An allocator that returns unused addresses, and no other code: the
    parameters of the witnesses. *)

Definition keys {A} (m : gmap Z A) : list Z := (map_to_list m).*1.
Definition bench_alloc (s : DB) : option Z :=
  Some (1 + foldr Z.max 0 (keys (handles s) ++ keys (entries s) ++ keys (interfaces s) ++ keys (notifies s))).
Definition bench : HAND_ENV :=
  mkEnv 99 bench_alloc (fun _ _ => true) (Mret tt) (fun _ _ => Mret EFI_SUCCESS) (fun _ => Mret EFI_SUCCESS) 10.

Lemma max_above x l : x ∈ l -> x < 1 + foldr Z.max 0 l.
Proof. induction 1; cbn; lia. Qed.

Lemma max_nonneg l : 0 <= foldr Z.max 0 l.
Proof. induction l; cbn; lia. Qed.

Lemma above_fresh {A} (m : gmap Z A) l : (forall x, x ∈ keys m -> x ∈ l) -> m !! (1 + foldr Z.max 0 l) = None.
Proof.
  intros H. apply eq_None_not_Some. intros [v Hv]. assert (1 + foldr Z.max 0 l ∈ l) as Hin.
  { apply H. unfold keys. apply list_elem_of_fmap. exists (1 + foldr Z.max 0 l, v). split; [done|]. by apply elem_of_map_to_list. }
  apply max_above in Hin. lia.
Qed.

Lemma bench_laws tot : HAND_LAWS (Env := bench) tot (fun _ => True) (fun _ _ _ => True).
Proof.
  constructor.
  - intros s p [= <-]. split; [pose proof (max_nonneg (keys (handles s) ++ keys (entries s) ++ keys (interfaces s) ++ keys (notifies s))); lia|].
    split_and!; apply above_fresh; intros x Hx; rewrite !elem_of_app; tauto.
  - intros s W Hlk. apply wp_ret. by apply unchanged.
  - intros h a s W Hlk. apply wp_ret. by apply unchanged.
  - intros h s W Hlk. apply wp_ret. by apply unchanged.
Qed.

Definition wit_guid : EFI_GUID := repeat 7 16.
Definition wit_install : CALL := InstallProtocolInterface (Some 0) (Some wit_guid) EFI_NATIVE_INTERFACE 100 true.
Definition after_calls (cs : list CALL) : DB :=
  foldl (fun s c => match run (Env := bench) c s with Ok (_, s') => s' | _ => s end) InitialDatabase cs.
(** A registration at 2, and the protocol with interface 100 on the handle 4. *)
Definition wit_db : DB := after_calls [RegisterProtocolNotify (Some wit_guid) 55 true; wit_install].

Lemma wit_reach : reach (Env := bench) true (fun _ => True) (fun _ _ _ => True) wit_db.
Proof.
  apply (reach_call (Env := bench) _ _ _ (after_calls [RegisterProtocolNotify (Some wit_guid) 55 true]) wit_install).
  - apply (reach_call (Env := bench) _ _ _ InitialDatabase (RegisterProtocolNotify (Some wit_guid) 55 true));
      [apply reach_start|done|vm_compute; reflexivity].
  - done.
  - vm_compute. reflexivity.
Qed.

Lemma wit_wf : wf wit_db.
Proof. exact (proj1 (reach_wf (Env := bench) _ _ _ (HAND_LAWS0 := bench_laws true) _ wit_reach)). Qed.

(** C11 Every history of service calls keeps the protocol
    database well formed: links in both directions agree, no block is
    dangling, GUIDs are unique, opens are counted.  From any reachable state,
    any allowed call (any arguments, any allocator) releases the lock, fails
    no ASSERT and follows no dead pointer, provided that the driver model and
    the notifications that run without the lock do so too. *)
Theorem Hand_safe (Env : HAND_ENV) tot stays never s :
  HAND_LAWS tot stays never -> reach tot stays never s ->
  (wf s /\ gProtocolDatabaseLock s = false) /\
  forall c, allowed tot stays never s c ->
    wp tot (run c) (fun _ s' => wf s' /\ gProtocolDatabaseLock s' = false /\ entries_kept s s') s.
Proof.
  intros Hlaws Hr. destruct (reach_wf tot stays never s Hr) as [W Hlk]. split; [done|]. intros c Hal.
  eapply wp_mono; [by apply (run_ok tot stays never)|]. intros a s' (W' & L' & _ & E'). done.
Qed.

Lemma Hand_safe_witness :
  (wf wit_db /\ gProtocolDatabaseLock wit_db = false) /\
  wp true (run (Env := bench) (LocateHandle ByProtocol (Some wit_guid) 0 (Some 8) true))
    (fun _ s' => wf s' /\ gProtocolDatabaseLock s' = false /\ entries_kept wit_db s') wit_db.
Proof.
  destruct (Hand_safe bench true _ _ wit_db (bench_laws true) wit_reach) as [H1 H2]. split; [exact H1|].
  apply H2. split; [intros n [= <-]; lia|done].
Defined.

(** C12 CoreInstallProtocolInterface returns.  On success the
    interface is on the handle ([*UserHandle], or a new one), every other
    interface is where it was, the new one is last in the order of its
    protocol and at the end of the queue of every registration for it, and
    the events of these registrations are signalled.  It fails only for want
    of memory, or with EFI_INVALID_PARAMETER if the handle is not valid or
    has the protocol already, and then no handle changes.  A protocol is
    installed a second time on a handle only if memory is short. *)
Theorem Hand_install (Env : HAND_ENV) stays never s U g i :
  HAND_LAWS true stays never -> wf s -> gProtocolDatabaseLock s = false ->
  (U <> 0 -> never U g i) -> ~ has s U g i ->
  exists r s', CoreInstallProtocolInterface (Some U) (Some g) EFI_NATIVE_INTERFACE i s = Ok (r, s') /\
    goes false s s' /\ install_outcome stays never U g i true s r s'.
Proof. intros Hlaws W Hlk Hn Hno. by apply wp_total, (install_ok true stays never U g i true s). Qed.

Lemma Hand_install_witness :
  exists r s', CoreInstallProtocolInterface (Env := bench) (Some 4) (Some (repeat 8 16)) EFI_NATIVE_INTERFACE 200 wit_db = Ok (r, s') /\
    goes false wit_db s' /\
    install_outcome (Env := bench) (fun _ => True) (fun _ _ _ => True) 4 (repeat 8 16) 200 true wit_db r s'.
Proof.
  apply (Hand_install bench _ _ wit_db 4 (repeat 8 16) 200 (bench_laws true));
    [exact wit_wf|reflexivity|done|].
  intros (p & P & (e & (_ & _ & He & _) & Hg) & _). apply list_elem_of_singleton in He as ->. vm_compute in Hg. discriminate Hg.
Defined.

(** C13 CoreUninstallProtocolInterface and
    CoreReinstallProtocolInterface return, for an interface to which no driver
    is attached ([removable true]: no open BY_DRIVER, so that nothing has to
    be disconnected).  Both are refused with EFI_ACCESS_DENIED exactly if an
    open that is not by handle protocol, get protocol or test protocol is left
    on the interface, and succeed exactly if there is none; EFI_NOT_FOUND and
    EFI_INVALID_PARAMETER mean that the handle has no such interface and that
    it is no handle.  Removal takes exactly the interface off its handle and
    off the queues of the registrations (their positions back up), and the
    handle goes with its last interface.  Replacement changes the interface in
    place and moves it to the end of its protocol's order. *)
Theorem Hand_uninstall (Env : HAND_ENV) stays never s h g i v :
  HAND_LAWS true stays never -> wf s -> gProtocolDatabaseLock s = false -> removable true stays h g i s ->
  (exists st s', CoreUninstallProtocolInterface h (Some g) i s = Ok (st, s') /\ goes false s s' /\
     uninstall_outcome stays never h g i s st s') /\
  (exists st s', CoreReinstallProtocolInterface h (Some g) i v s = Ok (st, s') /\ goes false s s' /\
     reinstall_outcome stays never h g i v s st s').
Proof.
  intros Hlaws W Hlk Hrem. split; apply wp_total; [by apply (uninstall_ok true stays never)|by apply (reinstall_ok true stays never)].
Qed.

Lemma Hand_uninstall_witness :
  (exists st s', CoreUninstallProtocolInterface (Env := bench) 4 (Some wit_guid) 100 wit_db = Ok (st, s') /\
     goes false wit_db s' /\
     uninstall_outcome (fun _ => True) (fun _ _ _ => True) 4 wit_guid 100 wit_db st s') /\
  (exists st s', CoreReinstallProtocolInterface (Env := bench) 4 (Some wit_guid) 100 200 wit_db = Ok (st, s') /\
     goes false wit_db s' /\
     reinstall_outcome (fun _ => True) (fun _ _ _ => True) 4 wit_guid 100 200 wit_db st s').
Proof.
  apply (Hand_uninstall bench _ _ wit_db 4 wit_guid 100 200 (bench_laws true));
    [exact wit_wf|reflexivity|].
  intros p P (e & (_ & _ & _ & Hp & _) & _) HP _. split; [done|]. right. split; [done|].
  apply list_elem_of_singleton in Hp as ->. vm_compute in HP. injection HP as <-. eexists. split; reflexivity.
Defined.

(** C15 CoreOpenProtocol with valid attributes returns the
    interface and records the open as the access rules say (the function
    [verdict]): an agent that has the protocol open already only counts up, a
    second driver and a second exclusive open are denied, EFI_UNSUPPORTED
    means that the protocol is not there.  The rules leave at most one open
    that is a driver's or exclusive. *)
Theorem Hand_open (Env : HAND_ENV) stays never s h g ib im co at_ :
  HAND_LAWS true stays never -> wf s -> gProtocolDatabaseLock s = false -> h ∈ gHandleList s ->
  negb (at_ =? EFI_OPEN_PROTOCOL_TEST_PROTOCOL) && negb ib = false ->
  check_attributes h im co at_ s = Ok (EFI_SUCCESS, s) ->
  (forall p P, provides s p h g -> interfaces s !! p = Some P -> exclusive at_ = true -> first_driver (OpenList P) = None) ->
  (exists r s', CoreOpenProtocol h (Some g) ib im co at_ s = Ok (r, s') /\ open_answer stays never s h g im co at_ r s') /\
  (forall mem p P, provides s p h g -> interfaces s !! p = Some P ->
     one_owner (OpenList P) -> one_owner (verdict mem im co at_ (OpenList P)).2).
Proof.
  intros Hlaws W Hlk Hh Hib Hck Hdr. split; [by apply wp_total, (open_ok true stays never)|].
  intros mem p P Hp HP. apply verdict_one_owner; [by eapply check_valid|].
  intros Hex. apply first_driver_none. by apply (Hdr p).
Qed.

Lemma Hand_open_witness :
  (exists r s', CoreOpenProtocol (Env := bench) 4 (Some wit_guid) true 4 4 EFI_OPEN_PROTOCOL_BY_DRIVER wit_db = Ok (r, s') /\
     open_answer (Env := bench) (fun _ => True) (fun _ _ _ => True) wit_db 4 wit_guid 4 4 EFI_OPEN_PROTOCOL_BY_DRIVER r s') /\
  (forall mem p P, provides wit_db p 4 wit_guid -> interfaces wit_db !! p = Some P ->
     one_owner (OpenList P) -> one_owner (verdict mem 4 4 EFI_OPEN_PROTOCOL_BY_DRIVER (OpenList P)).2).
Proof.
  apply (Hand_open bench _ _ wit_db 4 wit_guid true 4 4 EFI_OPEN_PROTOCOL_BY_DRIVER (bench_laws true));
    [exact wit_wf|reflexivity|by left|reflexivity|vm_compute; reflexivity|].
  intros p P _ _ Hex. discriminate Hex.
Defined.

(** C14 The searches return what is in the database.
    CoreLocateHandle answers EFI_INVALID_PARAMETER exactly for parameters no
    search accepts ([bad_search]: a search by protocol without a protocol, by
    registration without a registration, or of an unknown type) and for a
    missing size or buffer; otherwise it returns the handles in order, those
    that fit in the buffer, the size of all of them, and EFI_NOT_FOUND exactly
    if there are none, EFI_BUFFER_TOO_SMALL exactly if they do not fit,
    EFI_SUCCESS else; for a protocol they are the handles that have it, each
    one once.  CoreLocateProtocol returns the first interface.  A search by
    registration returns the head of its queue and takes it off only if the
    search succeeds.  CoreLocateHandleBuffer (not by registration) returns
    all handles of the state in which it fills the buffer, and each error for
    its one cause: EFI_INVALID_PARAMETER as above, EFI_NOT_FOUND if there is
    no handle, EFI_OUT_OF_RESOURCES if the buffer cannot be allocated,
    EFI_BUFFER_TOO_SMALL if handles were added in between.  The database fits
    in the address space, and the number of the search is not yet on a
    handle. *)
Theorem Hand_locate (Env : HAND_ENV) stays never s ty g k B bf :
  HAND_LAWS true stays never -> wf s -> gProtocolDatabaseLock s = false -> small s -> requests_ok s ->
  0 <= B -> (ty = ByRegisterNotify -> k <> 0 -> registered s k) ->
  (if (0 <? B) && negb bf
   then CoreLocateHandle ty g k (Some B) bf s = Ok ((EFI_INVALID_PARAMETER, B, []), s)
   else exists r s1 s', CoreLocateHandle ty g k (Some B) bf s = Ok (r, s') /\ locate_answer s ty g k B r /\
     moves stays never true s s1 /\ dequeued s ty k r.1.1 s1 /\ outside stays never s1 s') /\
  CoreLocateHandle ty g k None bf s = Ok ((EFI_INVALID_PARAMETER, 0, []), s) /\
  (forall g' n, (n <> 0 -> registered s n) ->
     exists r s1 s', CoreLocateProtocol (Some g') n true s = Ok (r, s') /\ protocol_answer s g' n r /\
       moves stays never true s s1 /\ dequeued s ByRegisterNotify n r.1 s1 /\ outside stays never s1 s') /\
  ((ty = ByRegisterNotify -> k = 0) ->
     exists r s2 s', CoreLocateHandleBuffer ty g k true true s = Ok (r, s') /\
       outside stays never s s2 /\ (small s2 -> requests_ok s2 -> buffer_answer s s2 ty g k r)) /\
  (forall g' L, located s ByProtocol (Some g') k L -> NoDup L /\ forall h, h ∈ L <-> exists p, provides s p h g').
Proof.
  intros Hlaws W Hlk Hsm Hreq HB Hreg. split_and!.
  - destruct ((0 <? B) && negb bf) eqn:Hbf; [unfold CoreLocateHandle; by rewrite Hbf|].
    destruct (wp_total _ _ _ (locate_ok true stays never ty g k B bf s W Hlk HB Hbf Hreg)) as (r & s' & Hr & s1 & G & O & Hd & _ & Ha).
    exists r, s1, s'. split_and!; [done|by apply Ha|done|done|done].
  - done.
  - intros g' n Hn. destruct (wp_total _ _ _ (locate_protocol_ok true stays never g' n s W Hlk Hn)) as (r & s' & Hr & s1 & G & O & Hd & Ha).
    exists r, s1, s'. split_and!; [done|by apply Ha|done|done|done].
  - intros Hk. destruct (wp_total _ _ _ (buffer_ok true stays never ty g k s W Hlk Hk)) as (r & s' & Hr & _ & s2 & O & Ha).
    exists r, s2, s'. split_and!; [done|done|]. by apply Ha.
  - intros g' L. by apply located_protocol.
Qed.

Lemma wit_small : small wit_db.
Proof. vm_compute. reflexivity. Qed.

Lemma wit_requests : requests_ok wit_db.
Proof.
  intros h H HH. assert (handles wit_db = {[4 := mkHandle [3] 0 1]}) as E by (vm_compute; reflexivity). rewrite E in HH.
  apply lookup_singleton_Some in HH as [<- <-]. vm_compute. discriminate.
Qed.

Lemma Hand_locate_witness :
  (exists r s1 s', CoreLocateHandle (Env := bench) ByRegisterNotify None 2 (Some 8) true wit_db = Ok (r, s') /\
     locate_answer wit_db ByRegisterNotify None 2 8 r /\
     moves (fun _ => True) (fun _ _ _ => True) true wit_db s1 /\ dequeued wit_db ByRegisterNotify 2 r.1.1 s1 /\
     outside (fun _ => True) (fun _ _ _ => True) s1 s').
Proof.
  refine (proj1 (Hand_locate bench _ _ wit_db ByRegisterNotify None 2 8 true (bench_laws true) wit_wf eq_refl wit_small
    wit_requests _ _)); [lia|]. intros _ _. exists 1. split; [by left|]. vm_compute. left.
Defined.

(** C16 The dispatcher's question, answered by the database.  The
    evaluation of a dependency expression with CoreLocateProtocol of a well
    formed database returns the value of the expression in which a GUID is
    true exactly if some handle has that protocol installed. *)
Theorem Hand_depex (Env : HAND_ENV) stays never s NDEBUG alloc arch d sor e :
  HAND_LAWS true stays never -> wf s -> gProtocolDatabaseLock s = false -> requests_ok s ->
  (forall n, alloc n = true) -> guids_ok e -> has_depex (depex_bytes sor e) (DriverEntry d) ->
  exists located d', CoreIsSchedulable NDEBUG alloc (database_has s) arch d = Ok (eval located e, d') /\
    forall g, located g = true <-> exists p h, provides s p h g.
Proof.
  intros Hlaws W Hlk Hreq Ha He Hd. exists (database_has s).
  destruct (schedulable_eval NDEBUG alloc (database_has s) arch d sor e He Hd) as [(d' & Hr & _)|[[n Hn] _]]; [|by rewrite Ha in Hn].
  exists d'. split; [done|]. intros g. by apply (database_has_spec stays never).
Qed.

Lemma Hand_depex_witness :
  exists located d', CoreIsSchedulable false (fun _ => true) (database_has (Env := bench) wit_db) []
      (wit_state (depex_bytes false (DAnd (DPush wit_guid) (DNot (DPush (repeat 1 16)))))) =
      Ok (eval located (DAnd (DPush wit_guid) (DNot (DPush (repeat 1 16)))), d') /\
    forall g, located g = true <-> exists p h, provides wit_db p h g.
Proof.
  apply (Hand_depex bench _ _ wit_db false (fun _ => true) [] _ false _ (bench_laws true) wit_wf eq_refl wit_requests).
  - done.
  - vm_compute. repeat constructor.
  - vm_compute. repeat split.
Defined.

(** ** Shortage of memory during installation *)

(** No memory at all: the status is the one that CoreHandleProtocol left, and
    not EFI_OUT_OF_RESOURCES. *)
Definition poor : HAND_ENV :=
  mkEnv 99 (fun _ => None) (fun _ _ => false) (Mret tt) (fun _ _ => Mret EFI_SUCCESS) (fun _ => Mret EFI_SUCCESS) 10.

Example Install_leftover_status :
  exists s', CoreInstallProtocolInterface (Env := poor) (Some 4) (Some (repeat 8 16)) EFI_NATIVE_INTERFACE 200 wit_db =
    Ok ((EFI_UNSUPPORTED, 4), s').
Proof. eexists. vm_compute. reflexivity. Qed.

(** No memory until a notification has run: recording the open fails, which
    is taken for the absence of the protocol, and the handle 4 has the
    protocol twice. *)
Definition poor_once : HAND_ENV :=
  mkEnv 99 (fun s => if (length (event_calls s) <=? 2)%nat then None else bench_alloc s) (fun _ _ => false)
    (Mmodify (call_event (SignalEvent 1))) (fun _ _ => Mret EFI_SUCCESS) (fun _ => Mret EFI_SUCCESS) 10.

Example Install_twice :
  match CoreInstallProtocolInterface (Env := poor_once) (Some 4) (Some wit_guid) EFI_NATIVE_INTERFACE 200 wit_db with
  | Ok ((st, h), s') => st = EFI_SUCCESS /\ h = 4 /\ Protocol <$> omap (fun p => interfaces s' !! p) (hprots s' 4) = [1; 1]
  | _ => False
  end.
Proof. vm_compute. split_and!; reflexivity. Qed.
