(* ===== verification/Memory.v ===== *)
(** * Memory: buffers of bytes and BaseMemoryLib

    MdePkg/Library/BaseMemoryLib: CopyMem.c, SetMem.c, MemLibGeneric.c,
    MemLibGuid.c and the wrappers around them.

    Memory is a finite map from addresses to bytes; an access to an address
    that is not mapped is a [Fault].  A C access of [n] bytes is the
    little-endian combination of the bytes.  [W] is the width of UINTN and of
    addresses, and NULL is 0. *)

From stdpp Require Import base option list gmap fin_maps.
From Stdlib Require Import ZArith Lia.
From S2P Require Import Prelude BaseMath.

Local Open Scope Z_scope.
Local Open Scope edk_scope.

(** ** Memory *)

Abbreviation mem := (gmap Z Z).

Definition MAX_ADDRESS (W : Z) : Z := 2 ^ W - 1.
Definition MAX_UINTN (W : Z) : Z := 2 ^ W - 1.

(** The little-endian bytes of an integer, and back. *)
Fixpoint le_split (n : nat) (v : Z) : list Z :=
  match n with
  | O => []
  | S n' => v mod 256 :: le_split n' (v / 256)
  end.
Fixpoint le_combine (bs : list Z) : Z :=
  match bs with
  | [] => 0
  | b :: bs' => b + 256 * le_combine bs'
  end.

Fixpoint load_bytes (n : nat) (a : Z) (m : mem) : outcome (list Z) :=
  match n with
  | O => Ok []
  | S n' =>
      match m !! a with
      | None => Fault
      | Some b => do bs <- load_bytes n' (a + 1) m ; Ok (b :: bs)
      end
  end.
Fixpoint store_bytes (a : Z) (bs : list Z) (m : mem) : outcome mem :=
  match bs with
  | [] => Ok m
  | b :: bs' =>
      match m !! a with
      | None => Fault
      | Some _ => store_bytes (a + 1) bs' (<[a := b]> m)
      end
  end.

(** The bytes [bs] at [a] and everything else as in [m]. *)
Fixpoint blit (a : Z) (bs : list Z) (m : mem) : mem :=
  match bs with
  | [] => m
  | b :: bs' => blit (a + 1) bs' (<[a := b]> m)
  end.

(** An access of [n] bytes. *)
Definition load (n : nat) (a : Z) : M mem Z := fun m =>
  do bs <- load_bytes n a m ; Ok (le_combine bs, m).
Definition store (n : nat) (a v : Z) : M mem unit := fun m =>
  do m' <- store_bytes a (le_split n v) m ; Ok (tt, m').

Definition MASSERT {S} (b : bool) : M S unit := if b then Mret tt else Mfail AssertFail.

(** ** CopyMem.c

    The loops of InternalMemCopyMem.  [copy_up]: [while (Length >= w)
    *(Dst++) = *(Src++)], with elements of [w] bytes; for [w = 1] this is
    [while (Length-- != 0)].  [copy_down]: [while (Length > 0) *(--Dst) =
    *(--Src)]; the byte loop that starts at [Length - 1] and decrements
    afterwards makes the same accesses. *)
Fixpoint copy_up (fuel : nat) (w : Z) (Length Dst Src : Z) : M mem (Z * Z * Z) :=
  if w <=? Length then
    match fuel with
    | O => Mfail OutOfFuel
    | S f =>
        let! v := load (Z.to_nat w) Src in
        store (Z.to_nat w) Dst v ;;;
        copy_up f w (Length - w) (Dst + w) (Src + w)
    end
  else Mret (Dst, Src, Length).

Fixpoint copy_down (fuel : nat) (W w : Z) (Length Dst Src : Z) : M mem (Z * Z) :=
  if 0 <? Length then
    match fuel with
    | O => Mfail OutOfFuel
    | S f =>
        let! v := load (Z.to_nat w) (Src - w) in
        store (Z.to_nat w) (Dst - w) v ;;;
        copy_down f W w (wrapU W (Length - w)) (Dst - w) (Src - w)
    end
  else Mret (Dst, Src).

(** One of the word branches: words of [w] bytes, then or before them the
    bytes that do not fill a word. *)
Definition copy_words (W w : Z) (DestinationBuffer SourceBuffer Length : Z) : M mem unit :=
  let fuel := Z.to_nat Length in
  if DestinationBuffer <? SourceBuffer then
    let! r := copy_up fuel w Length DestinationBuffer SourceBuffer in
    let '(Destination8, Source8, Length) := r in
    copy_up fuel 1 Length Destination8 Source8 ;;; Mret tt
  else if SourceBuffer <? DestinationBuffer then
    let Destination := DestinationBuffer + Length in
    let Source := SourceBuffer + Length in
    let Alignment := Z.land Length (w - 1) in
    let! r :=
      (if negb (Alignment =? 0)
       then copy_down fuel W 1 Alignment Destination Source
       else Mret (Destination, Source)) in
    let '(Destination, Source) := r in
    copy_down fuel W w (Length - Alignment) Destination Source ;;; Mret tt
  else Mret tt.

Definition InternalMemCopyMem (W : Z) (DestinationBuffer SourceBuffer Length : Z) : M mem Z :=
  (if (Z.land DestinationBuffer 7 =? 0) && (Z.land SourceBuffer 7 =? 0) && (8 <=? Length) then
     copy_words W 8 DestinationBuffer SourceBuffer Length
   else if (Z.land DestinationBuffer 3 =? 0) && (Z.land SourceBuffer 3 =? 0) && (4 <=? Length) then
     copy_words W 4 DestinationBuffer SourceBuffer Length
   else if DestinationBuffer <? SourceBuffer then
     copy_up (Z.to_nat Length) 1 Length DestinationBuffer SourceBuffer ;;; Mret tt
   else if SourceBuffer <? DestinationBuffer then
     copy_down (Z.to_nat Length) W 1 Length (DestinationBuffer + Length) (SourceBuffer + Length) ;;; Mret tt
   else Mret tt) ;;;
  Mret DestinationBuffer.

Definition CopyMem (W : Z) (DestinationBuffer SourceBuffer Length : Z) : M mem Z :=
  if Length =? 0 then Mret DestinationBuffer
  else
    MASSERT (Length - 1 <=? MAX_ADDRESS W - DestinationBuffer) ;;;
    MASSERT (Length - 1 <=? MAX_ADDRESS W - SourceBuffer) ;;;
    if DestinationBuffer =? SourceBuffer then Mret DestinationBuffer
    else InternalMemCopyMem W DestinationBuffer SourceBuffer Length.

(** ** SetMem.c

    [while (Length >= w) *(Pointer++) = Value]. *)
Fixpoint set_up (fuel : nat) (w : Z) (Value : Z) (Length Pointer : Z) : M mem (Z * Z) :=
  if w <=? Length then
    match fuel with
    | O => Mfail OutOfFuel
    | S f => store (Z.to_nat w) Pointer Value ;;; set_up f w Value (Length - w) (Pointer + w)
    end
  else Mret (Pointer, Length).

(** [(Value << 24) | (Value << 16) | (Value << 8) | Value], as a UINT32. *)
Definition Value32 (Value : Z) : Z :=
  wrapU 32 (Z.lor (Z.lor (Z.lor (Z.shiftl Value 24) (Z.shiftl Value 16)) (Z.shiftl Value 8)) Value).

Definition InternalMemSetMem (Buffer Length Value : Z) : M mem Z :=
  let fuel := Z.to_nat Length in
  let! r :=
    (if (Z.land Buffer 7 =? 0) && (8 <=? Length) then
       let! Hi := (fun m => do v <- LShiftU64 (Value32 Value) 32 ; Ok (v, m)) in
       set_up fuel 8 (Z.lor Hi (Value32 Value)) Length Buffer
     else if (Z.land Buffer 3 =? 0) && (4 <=? Length) then
       set_up fuel 4 (Value32 Value) Length Buffer
     else Mret (Buffer, Length)) in
  let '(Pointer8, Length) := r in
  set_up fuel 1 Value Length Pointer8 ;;;
  Mret Buffer.

Definition SetMem (W : Z) (Buffer Length Value : Z) : M mem Z :=
  if Length =? 0 then Mret Buffer
  else
    MASSERT (Length - 1 <=? MAX_ADDRESS W - Buffer) ;;;
    InternalMemSetMem Buffer Length Value.

Definition InternalMemZeroMem (Buffer Length : Z) : M mem Z := InternalMemSetMem Buffer Length 0.

Definition ZeroMem (W : Z) (Buffer Length : Z) : M mem Z :=
  if Length =? 0 then Mret Buffer
  else
    MASSERT (negb (Buffer =? 0)) ;;;
    MASSERT (Length <=? wrapU W (MAX_ADDRESS W - Buffer + 1)) ;;;
    InternalMemZeroMem Buffer Length.

(** ** MemLibGeneric.c *)

(** [for (; Length != 0; Length--) ((UINTn* )Buffer)[Length - 1] = Value]
    with elements of [w] bytes. *)
Fixpoint set_elements (w : Z) (Value : Z) (Length : nat) (Buffer : Z) : M mem unit :=
  match Length with
  | O => Mret tt
  | S Length' =>
      store (Z.to_nat w) (Buffer + w * Z.of_nat Length') Value ;;;
      set_elements w Value Length' Buffer
  end.
Definition InternalMemSetMem16 (Buffer Length Value : Z) : M mem Z :=
  set_elements 2 Value (Z.to_nat Length) Buffer ;;; Mret Buffer.
Definition InternalMemSetMem32 (Buffer Length Value : Z) : M mem Z :=
  set_elements 4 Value (Z.to_nat Length) Buffer ;;; Mret Buffer.
Definition InternalMemSetMem64 (Buffer Length Value : Z) : M mem Z :=
  set_elements 8 Value (Z.to_nat Length) Buffer ;;; Mret Buffer.

(** The wrappers of SetMem16, 32 and 64 differ in [sizeof (Value)]. *)
Definition SetMem_sized (W w : Z) (Internal : Z -> Z -> Z -> M mem Z) (Buffer Length Value : Z) : M mem Z :=
  if Length =? 0 then Mret Buffer
  else
    MASSERT (negb (Buffer =? 0)) ;;;
    MASSERT (Length - 1 <=? MAX_ADDRESS W - Buffer) ;;;
    MASSERT (Z.land Buffer (w - 1) =? 0) ;;;
    MASSERT (Z.land Length (w - 1) =? 0) ;;;
    Internal Buffer (Length / w) Value.
Definition SetMem16 (W : Z) : Z -> Z -> Z -> M mem Z := SetMem_sized W 2 InternalMemSetMem16.
Definition SetMem32 (W : Z) : Z -> Z -> Z -> M mem Z := SetMem_sized W 4 InternalMemSetMem32.
Definition SetMem64 (W : Z) : Z -> Z -> Z -> M mem Z := SetMem_sized W 8 InternalMemSetMem64.
Definition SetMemN (W : Z) (Buffer Length Value : Z) : M mem Z :=
  if W / 8 =? 8 then SetMem64 W Buffer Length (wrapU 64 Value)
  else SetMem32 W Buffer Length (wrapU 32 Value).

(** [n] is the value of [--Length] that the next test of the loop sees. *)
Fixpoint compare_loop (n : nat) (DestinationBuffer SourceBuffer : Z) : M mem Z :=
  let result :=
    let! d := load 1 DestinationBuffer in
    let! s := load 1 SourceBuffer in
    Mret (d - s) in
  match n with
  | O => result
  | S n' =>
      let! d := load 1 DestinationBuffer in
      let! s := load 1 SourceBuffer in
      if wrapS 8 d =? wrapS 8 s
      then compare_loop n' (DestinationBuffer + 1) (SourceBuffer + 1)
      else result
  end.
Definition InternalMemCompareMem (DestinationBuffer SourceBuffer Length : Z) : M mem Z :=
  compare_loop (Z.to_nat (Length - 1)) DestinationBuffer SourceBuffer.

Definition CompareMem (W : Z) (DestinationBuffer SourceBuffer Length : Z) : M mem Z :=
  if (Length =? 0) || (DestinationBuffer =? SourceBuffer) then Mret 0
  else
    MASSERT (negb (DestinationBuffer =? 0)) ;;;
    MASSERT (negb (SourceBuffer =? 0)) ;;;
    MASSERT (Length - 1 <=? MAX_ADDRESS W - DestinationBuffer) ;;;
    MASSERT (Length - 1 <=? MAX_ADDRESS W - SourceBuffer) ;;;
    InternalMemCompareMem DestinationBuffer SourceBuffer Length.

(** [do { if ( *Pointer == Value) return Pointer; ++Pointer; } while
    (--Length != 0);] *)
Fixpoint scan_loop (w : Z) (Value : Z) (Length : nat) (Pointer : Z) : M mem Z :=
  let! v := load (Z.to_nat w) Pointer in
  if v =? Value then Mret Pointer
  else
    match Length with
    | O | S O => Mret 0
    | S Length' => scan_loop w Value Length' (Pointer + w)
    end.
Definition InternalMemScanMem8 (Buffer Length Value : Z) : M mem Z := scan_loop 1 Value (Z.to_nat Length) Buffer.
Definition InternalMemScanMem16 (Buffer Length Value : Z) : M mem Z := scan_loop 2 Value (Z.to_nat Length) Buffer.
Definition InternalMemScanMem32 (Buffer Length Value : Z) : M mem Z := scan_loop 4 Value (Z.to_nat Length) Buffer.
Definition InternalMemScanMem64 (Buffer Length Value : Z) : M mem Z := scan_loop 8 Value (Z.to_nat Length) Buffer.

Definition ScanMem8 (W : Z) (Buffer Length Value : Z) : M mem Z :=
  if Length =? 0 then Mret 0
  else
    MASSERT (negb (Buffer =? 0)) ;;;
    MASSERT (Length - 1 <=? MAX_ADDRESS W - Buffer) ;;;
    InternalMemScanMem8 Buffer Length Value.

Definition ScanMem_sized (W w : Z) (Internal : Z -> Z -> Z -> M mem Z) (Buffer Length Value : Z) : M mem Z :=
  if Length =? 0 then Mret 0
  else
    MASSERT (negb (Buffer =? 0)) ;;;
    MASSERT (Z.land Buffer (w - 1) =? 0) ;;;
    MASSERT (Length - 1 <=? MAX_ADDRESS W - Buffer) ;;;
    MASSERT (Z.land Length (w - 1) =? 0) ;;;
    Internal Buffer (Length / w) Value.
Definition ScanMem16 (W : Z) : Z -> Z -> Z -> M mem Z := ScanMem_sized W 2 InternalMemScanMem16.
Definition ScanMem32 (W : Z) : Z -> Z -> Z -> M mem Z := ScanMem_sized W 4 InternalMemScanMem32.
Definition ScanMem64 (W : Z) : Z -> Z -> Z -> M mem Z := ScanMem_sized W 8 InternalMemScanMem64.
Definition ScanMemN (W : Z) (Buffer Length Value : Z) : M mem Z :=
  if W / 8 =? 8 then ScanMem64 W Buffer Length (wrapU 64 Value)
  else ScanMem32 W Buffer Length (wrapU 32 Value).

Fixpoint zero_loop (n : nat) (p : Z) : M mem bool :=
  match n with
  | O => Mret true
  | S n' =>
      let! b := load 1 p in
      if negb (b =? 0) then Mret false else zero_loop n' (p + 1)
  end.
Definition InternalMemIsZeroBuffer (Buffer Length : Z) : M mem bool := zero_loop (Z.to_nat Length) Buffer.

(** The subtraction [Length - 1] is a UINTN subtraction. *)
Definition IsZeroBuffer (W : Z) (Buffer Length : Z) : M mem bool :=
  MASSERT (negb ((Buffer =? 0) && (0 <? Length))) ;;;
  MASSERT (wrapU W (Length - 1) <=? MAX_ADDRESS W - Buffer) ;;;
  InternalMemIsZeroBuffer Buffer Length.

(** ** MemLibGuid.c, and the accessors of BaseLib/Unaligned.c it uses *)

Definition ReadUnaligned (n : nat) (Buffer : Z) : M mem Z :=
  MASSERT (negb (Buffer =? 0)) ;;; load n Buffer.
Definition WriteUnaligned (n : nat) (Buffer Value : Z) : M mem Z :=
  MASSERT (negb (Buffer =? 0)) ;;; store n Buffer Value ;;; Mret Value.

Definition ReadUnaligned16 : Z -> M mem Z := ReadUnaligned 2.
Definition ReadUnaligned32 : Z -> M mem Z := ReadUnaligned 4.
Definition ReadUnaligned64 : Z -> M mem Z := ReadUnaligned 8.
Definition WriteUnaligned16 : Z -> Z -> M mem Z := WriteUnaligned 2.
Definition WriteUnaligned32 : Z -> Z -> M mem Z := WriteUnaligned 4.
Definition WriteUnaligned64 : Z -> Z -> M mem Z := WriteUnaligned 8.

Definition CopyGuid (DestinationGuid SourceGuid : Z) : M mem Z :=
  let! lo := ReadUnaligned64 SourceGuid in
  WriteUnaligned64 DestinationGuid lo ;;;
  let! hi := ReadUnaligned64 (SourceGuid + 8) in
  WriteUnaligned64 (DestinationGuid + 8) hi ;;;
  Mret DestinationGuid.

Definition CompareGuid (Guid1 Guid2 : Z) : M mem bool :=
  let! LowPartOfGuid1 := ReadUnaligned64 Guid1 in
  let! LowPartOfGuid2 := ReadUnaligned64 Guid2 in
  let! HighPartOfGuid1 := ReadUnaligned64 (Guid1 + 8) in
  let! HighPartOfGuid2 := ReadUnaligned64 (Guid2 + 8) in
  Mret ((LowPartOfGuid1 =? LowPartOfGuid2) && (HighPartOfGuid1 =? HighPartOfGuid2)).

(** [while (GuidPtr < Buffer)], for [n] GUIDs. *)
Fixpoint scan_guid (n : nat) (GuidPtr Guid : Z) : M mem Z :=
  match n with
  | O => Mret 0
  | S n' =>
      let! eq := CompareGuid GuidPtr Guid in
      if eq then Mret GuidPtr else scan_guid n' (GuidPtr + 16) Guid
  end.

Definition ScanGuid (W : Z) (Buffer Length Guid : Z) : M mem Z :=
  MASSERT (Z.land Buffer 3 =? 0) ;;;
  MASSERT (Length <=? wrapU W (MAX_ADDRESS W - Buffer + 1)) ;;;
  MASSERT (Z.land Length 15 =? 0) ;;;
  scan_guid (Z.to_nat (Length / 16)) Buffer Guid.

Definition IsZeroGuid (Guid : Z) : M mem bool :=
  let! LowPartOfGuid := ReadUnaligned64 Guid in
  let! HighPartOfGuid := ReadUnaligned64 (Guid + 8) in
  Mret ((LowPartOfGuid =? 0) && (HighPartOfGuid =? 0)).
