(* ===== verification/MemSpec.v ===== *)
(** * MemSpec: buffers as lists of bytes

    [at_bytes m a bs]: the bytes [bs] lie at address [a].  [Memory.blit a bs m]
    is the memory after they were written there.  The accesses, loops and functions
    of [Memory] are computed in these terms. *)

From stdpp Require Import base option list gmap fin_maps.
From Stdlib Require Import ZArith Lia.
From S2P Require Import Prelude BaseMath Memory.

Local Open Scope Z_scope.
Local Open Scope edk_scope.

(** ** Vocabulary *)

Abbreviation len bs := (Z.of_nat (length bs)).

(** The cells are bytes. *)
Definition mem_ok (m : mem) : Prop := map_Forall (fun _ b => inU 8 b) m.
Definition bytes_ok (bs : list Z) : Prop := Forall (inU 8) bs.

Definition mapped (m : mem) (a n : Z) : Prop := forall x, a <= x < a + n -> is_Some (m !! x).
Definition at_bytes (m : mem) (a : Z) (bs : list Z) : Prop :=
  forall i b, bs !! i = Some b -> m !! (a + Z.of_nat i) = Some b.

Lemma lookup_blit a bs m x :
  blit a bs m !! x = if decide (a <= x < a + len bs) then bs !! Z.to_nat (x - a) else m !! x.
Proof.
  revert a m. induction bs as [|b bs IH]; intros a m; cbn [blit length].
  - case_decide; [lia|done].
  - rewrite IH. destruct (decide (x = a)) as [->|Hx].
    + rewrite decide_False, decide_True by lia.
      by rewrite lookup_insert_eq, Z.sub_diag.
    + case_decide; case_decide; try lia.
      * by replace (Z.to_nat (x - a)) with (S (Z.to_nat (x - (a + 1)))) by lia.
      * by rewrite lookup_insert_ne by lia.
Qed.

Lemma lookup_blit_out a bs m x : ~ (a <= x < a + len bs) -> blit a bs m !! x = m !! x.
Proof. intros. rewrite lookup_blit, decide_False; done. Qed.
Lemma lookup_blit_in a bs m x : a <= x < a + len bs -> blit a bs m !! x = bs !! Z.to_nat (x - a).
Proof. intros. rewrite lookup_blit, decide_True; done. Qed.

Lemma blit_app a bs1 bs2 m : blit a (bs1 ++ bs2) m = blit (a + len bs1) bs2 (blit a bs1 m).
Proof.
  revert a m. induction bs1 as [|b bs1 IH]; intros a m; cbn [blit length app].
  - by rewrite Z.add_0_r.
  - rewrite IH. f_equal. lia.
Qed.

Lemma blit_app_down a bs1 bs2 m : blit a bs1 (blit (a + len bs1) bs2 m) = blit a (bs1 ++ bs2) m.
Proof.
  rewrite blit_app. apply map_eq. intros x. rewrite !lookup_blit.
  repeat case_decide; try lia; done.
Qed.

Lemma at_bytes_lookup m a bs x :
  at_bytes m a bs -> a <= x < a + len bs -> m !! x = bs !! Z.to_nat (x - a).
Proof.
  intros H Hx. destruct (bs !! Z.to_nat (x - a)) as [b|] eqn:E.
  - apply H in E. by replace (a + Z.of_nat (Z.to_nat (x - a))) with x in E by lia.
  - apply lookup_ge_None in E. lia.
Qed.
Lemma at_bytes_mapped m a bs : at_bytes m a bs -> mapped m a (len bs).
Proof.
  intros H x Hx. rewrite (at_bytes_lookup _ _ _ _ H Hx). apply lookup_lt_is_Some. lia.
Qed.
Lemma at_bytes_nil m a : at_bytes m a [].
Proof. intros i b. by rewrite lookup_nil. Qed.
Lemma at_bytes_cons m a b bs : at_bytes m a (b :: bs) <-> m !! a = Some b /\ at_bytes m (a + 1) bs.
Proof.
  split.
  - intros H. split.
    + specialize (H 0%nat b eq_refl). by rewrite Z.add_0_r in H.
    + intros i c Hi. specialize (H (S i) c Hi).
      by replace (a + 1 + Z.of_nat i) with (a + Z.of_nat (S i)) by lia.
  - intros [H1 H2] [|i] c Hi; cbn in Hi.
    + rewrite Z.add_0_r. congruence.
    + replace (a + Z.of_nat (S i)) with (a + 1 + Z.of_nat i) by lia. by apply H2.
Qed.
Lemma at_bytes_app m a bs1 bs2 :
  at_bytes m a (bs1 ++ bs2) <-> at_bytes m a bs1 /\ at_bytes m (a + len bs1) bs2.
Proof.
  revert a. induction bs1 as [|b bs1 IH]; intros a; cbn [app length].
  - rewrite Z.add_0_r. split; [by split; [apply at_bytes_nil|]|by intros [_ ?]].
  - rewrite !at_bytes_cons, IH.
    replace (a + 1 + len bs1) with (a + Z.of_nat (S (length bs1))) by lia. tauto.
Qed.
Lemma at_bytes_unique m a bs bs' : at_bytes m a bs -> at_bytes m a bs' -> length bs = length bs' -> bs = bs'.
Proof.
  intros H H' Hl. apply list_eq_same_length with (length bs); [done..|].
  intros i x y Hi Hx Hy. apply H in Hx. apply H' in Hy. congruence.
Qed.
Lemma at_bytes_ok m a bs : mem_ok m -> at_bytes m a bs -> bytes_ok bs.
Proof.
  intros Hm H. apply Forall_lookup. intros i b Hi. exact (Hm _ _ (H _ _ Hi)).
Qed.
Lemma at_bytes_mono m m' a bs : m ⊆ m' -> at_bytes m a bs -> at_bytes m' a bs.
Proof. intros Hs H i b Hi. eapply lookup_weaken; [by apply H|done]. Qed.

(** Mapped ranges hold some bytes. *)
Lemma mapped_at_bytes m a n : mapped m a (Z.of_nat n) -> exists bs, at_bytes m a bs /\ length bs = n.
Proof.
  revert a. induction n as [|n IH]; intros a H.
  - exists []. split; [apply at_bytes_nil|done].
  - destruct (H a) as [b Hb]; [lia|]. destruct (IH (a + 1)) as (bs & H1 & H2).
    { intros x Hx. apply H. lia. }
    exists (b :: bs). rewrite at_bytes_cons. cbn. auto.
Qed.
Lemma mapped_sub m a n a' n' : mapped m a n -> a <= a' -> a' + n' <= a + n -> mapped m a' n'.
Proof. intros H H1 H2 x Hx. apply H. lia. Qed.

Lemma at_bytes_blit m a bs : at_bytes (blit a bs m) a bs.
Proof.
  intros i b Hi. pose proof (lookup_lt_Some _ _ _ Hi).
  rewrite lookup_blit_in by lia. by replace (Z.to_nat (a + Z.of_nat i - a)) with i by lia.
Qed.
Lemma at_bytes_blit_other m a bs a' bs' :
  at_bytes m a' bs' -> a' + len bs' <= a \/ a + len bs <= a' -> at_bytes (blit a bs m) a' bs'.
Proof.
  intros H Hd i b Hi. pose proof (lookup_lt_Some _ _ _ Hi).
  rewrite lookup_blit_out by lia. by apply H.
Qed.
Lemma mapped_blit m a bs x n : mapped m x n -> mapped (blit a bs m) x n.
Proof.
  intros H y Hy. rewrite lookup_blit. case_decide; [|by apply H].
  apply lookup_lt_is_Some. lia.
Qed.
Lemma mem_ok_blit m a bs : mem_ok m -> bytes_ok bs -> mem_ok (blit a bs m).
Proof.
  intros Hm Hb x b. rewrite lookup_blit. case_decide; [|by apply Hm].
  intros Hl. exact (proj1 (Forall_lookup _ _) Hb _ _ Hl).
Qed.

(** ** Accesses *)

Lemma load_bytes_at n a m bs : at_bytes m a bs -> length bs = n -> load_bytes n a m = Ok bs.
Proof.
  revert a bs. induction n as [|n IH]; intros a bs H Hl; destruct bs as [|b bs]; try done.
  apply at_bytes_cons in H as [H1 H2]. cbn [load_bytes]. rewrite H1.
  rewrite (IH _ bs) by (done || (cbn in Hl; lia)). done.
Qed.
Lemma load_bytes_inv n a m bs : load_bytes n a m = Ok bs -> at_bytes m a bs /\ length bs = n.
Proof.
  revert a bs. induction n as [|n IH]; intros a bs; cbn [load_bytes].
  - intros [= <-]. split; [apply at_bytes_nil|done].
  - destruct (m !! a) as [b|] eqn:E; [|done].
    destruct (load_bytes n (a + 1) m) as [bs'| | |] eqn:E'; cbn; try done.
    intros [= <-]. apply IH in E' as [? ?]. rewrite at_bytes_cons. cbn. auto.
Qed.
Lemma store_bytes_blit a bs m : mapped m a (len bs) -> store_bytes a bs m = Ok (blit a bs m).
Proof.
  revert a m. induction bs as [|b bs IH]; intros a m H; [done|]. cbn [store_bytes blit].
  destruct (H a) as [c Hc]; [cbn; lia|]. rewrite Hc. apply IH.
  intros x Hx. destruct (decide (x = a)) as [->|]; [by rewrite lookup_insert_eq|].
  rewrite lookup_insert_ne by done. apply H. cbn; lia.
Qed.

Lemma le_split_length n v : length (le_split n v) = n.
Proof. revert v. induction n; intros; cbn; auto. Qed.
Lemma le_split_combine bs : bytes_ok bs -> le_split (length bs) (le_combine bs) = bs.
Proof.
  induction 1 as [|b bs Hb _ IH]; [done|]. cbn [le_combine length le_split].
  unfold inU in Hb. change (2 ^ 8) with 256 in Hb.
  replace (b + 256 * le_combine bs) with (b + le_combine bs * 256) by lia.
  rewrite Z.mod_add, Z.div_add, Z.mod_small, Z.div_small, Z.add_0_l, IH by lia. done.
Qed.
Lemma le_combine_inj bs bs' :
  bytes_ok bs -> bytes_ok bs' -> length bs = length bs' -> le_combine bs = le_combine bs' -> bs = bs'.
Proof.
  intros H H' Hl E. rewrite <- (le_split_combine bs H), <- (le_split_combine bs' H'). congruence.
Qed.
Lemma le_split_ok n v : bytes_ok (le_split n v).
Proof.
  revert v. induction n as [|n IH]; intros; constructor; [|apply IH].
  apply (Z.mod_pos_bound v 256). lia.
Qed.
Lemma le_combine_split n v : 0 <= v < 256 ^ Z.of_nat n -> le_combine (le_split n v) = v.
Proof.
  revert v. induction n as [|n IH]; intros v Hv; cbn [le_split le_combine].
  - change (256 ^ Z.of_nat 0) with 1 in Hv. lia.
  - rewrite Nat2Z.inj_succ, Z.pow_succ_r in Hv by lia.
    rewrite IH; [pose proof (Z.div_mod v 256 ltac:(lia)); lia|].
    split; [apply Z.div_pos; lia|apply Z.div_lt_upper_bound; lia].
Qed.
Lemma le_combine_bound bs : bytes_ok bs -> 0 <= le_combine bs < 256 ^ len bs.
Proof.
  induction 1 as [|b bs Hb _ IH]; cbn [le_combine length]; [change (256 ^ 0) with 1; lia|].
  rewrite Nat2Z.inj_succ, Z.pow_succ_r by lia. unfold inU in Hb. change (2 ^ 8) with 256 in Hb. lia.
Qed.

Lemma load_at n a m bs : at_bytes m a bs -> length bs = n -> load n a m = Ok (le_combine bs, m).
Proof. intros H Hl. unfold load. by rewrite (load_bytes_at _ _ _ _ H Hl). Qed.
Lemma load1_at a m b : m !! a = Some b -> load 1 a m = Ok (b, m).
Proof.
  intros H. rewrite (load_at 1 a m [b]); [|by rewrite at_bytes_cons; split; [|apply at_bytes_nil]|done].
  cbn [le_combine]. do 2 f_equal. lia.
Qed.
Lemma store_blit n a v m : mapped m a (Z.of_nat n) -> store n a v m = Ok (tt, blit a (le_split n v) m).
Proof. intros H. unfold store. by rewrite store_bytes_blit by (by rewrite le_split_length). Qed.

(** Load an element and store it elsewhere. *)
Lemma copy_element n D S m bs {A} (k : M mem A) :
  mem_ok m -> at_bytes m S bs -> length bs = n -> mapped m D (Z.of_nat n) ->
  Mbind (load n S) (fun v => Mbind (store n D v) (fun _ => k)) m = k (blit D bs m).
Proof.
  intros Hm Hs Hl Hd. rewrite (Mbind_Ok _ _ _ _ _ (load_at _ _ _ _ Hs Hl)).
  rewrite (Mbind_Ok _ _ _ _ _ (store_blit _ _ _ _ Hd)).
  rewrite <- Hl, le_split_combine; [done|]. exact (at_bytes_ok _ _ _ Hm Hs).
Qed.
