(* ===== verification/MemCopy.v ===== *)
(** * MemCopy: the loops of BaseMemoryLib

    Copying: the word-sized loops store the old bytes of the source at the
    destination.  Then filling, comparing and scanning. *)

From stdpp Require Import base option list gmap fin_maps.
From Stdlib Require Import ZArith Lia.
From S2P Require Import Prelude BaseMath Memory MemSpec.

Local Open Scope Z_scope.
Local Open Scope edk_scope.

(** ** Upwards, to a lower address *)

(** What is left of the source is intact. *)
Lemma at_bytes_rest m D S bs1 bs2 :
  D < S -> at_bytes m S (bs1 ++ bs2) -> at_bytes (blit D bs1 m) (S + len bs1) bs2.
Proof.
  intros HDS H%at_bytes_app. apply at_bytes_blit_other; [apply H|]. lia.
Qed.

Lemma copy_up_blit w f D S bs rest m :
  0 < w -> D < S -> mem_ok m -> at_bytes m S (bs ++ rest) -> mapped m D (len bs) ->
  len bs mod w = 0 -> len rest < w -> len bs <= Z.of_nat f ->
  copy_up f w (len (bs ++ rest)) D S m = Ok ((D + len bs, S + len bs, len rest), blit D bs m).
Proof.
  intros Hw. revert D S bs m.
  induction f as [|f IH]; intros D S bs m HDS Hm Hs Hd Hmod Hrest Hf; cbn [copy_up]; rewrite length_app.
  - destruct bs; [|cbn in Hf; lia]. destruct (Z.leb_spec w (Z.of_nat (length (@nil Z) + length rest))); [cbn in *; lia|].
    cbn. rewrite !Z.add_0_r. done.
  - destruct (Z.leb_spec w (Z.of_nat (length bs + length rest))) as [Hle|Hlt].
    + assert (w <= len bs) as Hwb.
      { destruct (decide (w <= len bs)); [done|]. rewrite Z.mod_small in Hmod by lia. lia. }
      rewrite <- (take_drop (Z.to_nat w) bs), <- app_assoc in Hs.
      pose proof (length_take_le bs (Z.to_nat w) ltac:(lia)) as Hl.
      rewrite (copy_element _ _ _ m (take (Z.to_nat w) bs)); [|done|exact (proj1 (proj1 (at_bytes_app _ _ _ _) Hs))|done|eapply mapped_sub; [exact Hd|lia..]].
      replace (Z.of_nat (length bs + length rest) - w) with (len (drop (Z.to_nat w) bs ++ rest))
        by (rewrite length_app, length_drop; lia).
      pose proof (at_bytes_rest _ _ _ _ _ HDS Hs) as Hs'. rewrite Hl, Z2Nat.id in Hs' by lia.
      rewrite IH; [|lia| |done| | |done|].
      * assert (blit D bs m = blit (D + w) (drop (Z.to_nat w) bs) (blit D (take (Z.to_nat w) bs) m)) as ->.
        { rewrite <- (take_drop (Z.to_nat w) bs) at 1. rewrite blit_app, Hl. by rewrite Z2Nat.id by lia. }
        rewrite length_drop.
        replace (D + w + Z.of_nat (length bs - Z.to_nat w)) with (D + len bs) by lia.
        by replace (S + w + Z.of_nat (length bs - Z.to_nat w)) with (S + len bs) by lia.
      * apply mem_ok_blit; [done|]. apply at_bytes_app in Hs as [Hs _]. by eapply at_bytes_ok.
      * apply mapped_blit. eapply mapped_sub; [exact Hd|rewrite ?length_drop; lia..].
      * rewrite length_drop. replace (Z.of_nat (length bs - Z.to_nat w)) with (len bs + (-1) * w) by lia.
        by rewrite Z.mod_add by lia.
      * rewrite length_drop. lia.
    + destruct (decide (len bs = 0)) as [E|E].
      * destruct bs; [|cbn in E; lia]. cbn. rewrite !Z.add_0_r. done.
      * rewrite Z.mod_small in Hmod by lia. lia.
Qed.

(** ** Downwards, to a higher address *)

Lemma copy_down_blit W w f D S bs m :
  0 < w -> S < D -> mem_ok m -> at_bytes m S bs -> mapped m D (len bs) ->
  len bs mod w = 0 -> len bs < 2 ^ W -> len bs <= Z.of_nat f ->
  copy_down f W w (len bs) (D + len bs) (S + len bs) m = Ok ((D, S), blit D bs m).
Proof.
  intros Hw HDS. revert bs m.
  induction f as [|f IH]; intros bs m Hm Hs Hd Hmod HW Hf; cbn [copy_down].
  - destruct bs; [|cbn in Hf; lia]. cbn. rewrite !Z.add_0_r. done.
  - destruct (Z.ltb_spec 0 (len bs)) as [Hlt|Hle].
    + assert (w <= len bs) as Hwb.
      { destruct (decide (w <= len bs)); [done|]. rewrite Z.mod_small in Hmod by lia. lia. }
      set (k := (length bs - Z.to_nat w)%nat).
      pose proof (length_take_le bs k ltac:(lia)) as Hl.
      assert (len bs - w = len (take k bs)) as Hk by lia.
      rewrite <- (take_drop k bs), at_bytes_app in Hs. destruct Hs as [Hs1 Hs2].
      rewrite (copy_element _ _ _ m (drop k bs)); [|done| |rewrite length_drop; lia|].
      2:{ by replace (S + len bs - w) with (S + len (take k bs)) by lia. }
      2:{ eapply mapped_sub; [exact Hd|lia..]. }
      rewrite Hk, (wrapU_id W) by (unfold inU; lia).
      replace (D + len bs - w) with (D + len (take k bs)) by lia.
      replace (S + len bs - w) with (S + len (take k bs)) by lia.
      rewrite IH; [| | | | |lia|lia].
      * rewrite blit_app_down, take_drop. done.
      * apply mem_ok_blit; [done|]. by eapply at_bytes_ok.
      * apply at_bytes_blit_other; [done|lia].
      * apply mapped_blit. eapply mapped_sub; [exact Hd|lia..].
      * rewrite <- Hk. replace (len bs - w) with (len bs + (-1) * w) by lia. by rewrite Z.mod_add by lia.
    + destruct bs; [|cbn in Hle; lia]. cbn. rewrite !Z.add_0_r. done.
Qed.

(** ** The word branches *)

Lemma split_mod w (bs : list Z) :
  0 < w -> exists bs1 bs2, bs = bs1 ++ bs2 /\ len bs1 mod w = 0 /\ len bs2 = len bs mod w.
Proof.
  intros Hw. pose proof (Z.mod_pos_bound (len bs) w Hw) as Hb. pose proof (Z.mod_le (len bs) w ltac:(lia) Hw).
  set (k := (length bs - Z.to_nat (len bs mod w))%nat).
  exists (take k bs), (drop k bs). rewrite take_drop, length_take_le, length_drop by lia.
  split; [done|split; [|lia]].
  replace (Z.of_nat k) with (len bs / w * w) by (pose proof (Z.div_mod (len bs) w ltac:(lia)); lia).
  apply Z.mod_mul. lia.
Qed.

Lemma blit_same m D bs : at_bytes m D bs -> blit D bs m = m.
Proof.
  intros H. apply map_eq. intros x. rewrite lookup_blit. case_decide; [|done].
  symmetry. by apply at_bytes_lookup.
Qed.

Section Copy.
Context (W D S : Z) (bs : list Z) (m : mem).
Hypothesis Hm : mem_ok m.
Hypothesis Hs : at_bytes m S bs.
Hypothesis Hd : mapped m D (len bs).
Hypothesis HW : len bs < 2 ^ W.

Lemma copy_words_blit w k :
  0 <= k -> w = 2 ^ k -> copy_words W w D S (len bs) m = Ok (tt, blit D bs m).
Proof.
  intros Hk ->. set (w := 2 ^ k). assert (0 < w) as Hw by (by apply Z.pow_pos_nonneg).
  destruct (split_mod w bs Hw) as (b1 & b2 & E & H1 & H2).
  pose proof (Z.mod_pos_bound (len bs) w Hw) as Hb.
  assert (Z.land (len bs) (w - 1) = len b2) as HA.
  { rewrite H2. subst w. rewrite <- Z.land_ones by done. f_equal. rewrite Z.ones_equiv. lia. }
  unfold copy_words. rewrite HA, Nat2Z.id.
  assert (length bs = (length b1 + length b2)%nat) as Hlen by (by rewrite E, length_app).
  destruct (Z.ltb_spec D S) as [HDS|HDS]; [|destruct (Z.ltb_spec S D) as [HSD|HSD]].
  - rewrite E at 2. erewrite Mbind_Ok; [|apply copy_up_blit; [done|done|done|by rewrite <- E| | |lia|lia]];
      [|eapply mapped_sub; [exact Hd|lia..]|done].
    cbn beta iota. rewrite E, at_bytes_app in Hs. destruct Hs as [Hs1 Hs2].
    rewrite <- (app_nil_r b2) at 1. erewrite Mbind_Ok; [|apply copy_up_blit; [lia|lia| | | | |cbn; lia|lia]].
    + cbn. by rewrite E, blit_app.
    + apply mem_ok_blit; [done|]. by eapply at_bytes_ok.
    + rewrite app_nil_r. apply at_bytes_blit_other; [done|lia].
    + apply mapped_blit. eapply mapped_sub; [exact Hd|lia..].
    + apply Z.mod_1_r.
  - rewrite E, at_bytes_app in Hs. destruct Hs as [Hs1 Hs2].
    rewrite (Mbind_Ok _ _ _ (D + len b1, S + len b1) (blit (D + len b1) b2 m)).
    + cbn beta iota. replace (len bs - len b2) with (len b1) by lia.
      erewrite Mbind_Ok; [|apply copy_down_blit; [done|lia| | | |done|lia|lia]].
      * cbn. by rewrite blit_app_down, <- E.
      * apply mem_ok_blit; [done|]. by eapply at_bytes_ok.
      * apply at_bytes_blit_other; [done|lia].
      * apply mapped_blit. eapply mapped_sub; [exact Hd|lia..].
    + destruct (Z.eqb_spec (len b2) 0) as [E0|E0]; cbn [negb].
      * destruct b2; [|cbn in E0; lia]. 
        replace (len bs) with (len b1) by (cbn in Hlen; lia). done.
      * replace (D + len bs) with (D + len b1 + len b2) by lia.
        replace (S + len bs) with (S + len b1 + len b2) by lia.
        apply copy_down_blit; [lia|lia|done|done| |apply Z.mod_1_r|lia|lia].
        eapply mapped_sub; [exact Hd|lia..].
  - assert (D = S) as -> by lia. unfold Mret. by rewrite blit_same.
Qed.

Lemma InternalMemCopyMem_blit : InternalMemCopyMem W D S (len bs) m = Ok (D, blit D bs m).
Proof.
  unfold InternalMemCopyMem.
  rewrite (Mbind_Ok _ _ _ tt (blit D bs m)); [done|].
  destruct (_ && _ && _); [by apply (copy_words_blit 8 3)|].
  destruct (_ && _ && _); [by apply (copy_words_blit 4 2)|]. rewrite Nat2Z.id.
  destruct (Z.ltb_spec D S) as [HDS|HDS]; [|destruct (Z.ltb_spec S D) as [HSD|HSD]].
  - rewrite <- (app_nil_r bs) at 2.
    erewrite Mbind_Ok; [|apply copy_up_blit; [lia|done|done|by rewrite app_nil_r|done|apply Z.mod_1_r|cbn; lia|lia]].
    done.
  - erewrite Mbind_Ok; [|apply copy_down_blit; [lia|done|done|done|done|apply Z.mod_1_r|lia|lia]]. done.
  - assert (D = S) as -> by lia. unfold Mret. by rewrite blit_same.
Qed.

Lemma CopyMem_blit :
  D + len bs <= 2 ^ W -> S + len bs <= 2 ^ W -> CopyMem W D S (len bs) m = Ok (D, blit D bs m).
Proof.
  intros HD HS. unfold CopyMem, MAX_ADDRESS.
  destruct (Z.eqb_spec (len bs) 0) as [E|E].
  { destruct bs; [done|cbn in E; lia]. }
  rewrite (proj2 (Z.leb_le _ _)) by lia. rewrite (proj2 (Z.leb_le _ _)) by lia.
  cbn [MASSERT]. unfold Mbind, Mret at 1 2.
  destruct (Z.eqb_spec D S) as [->|]; [unfold Mret; by rewrite blit_same|].
  apply InternalMemCopyMem_blit.
Qed.
End Copy.

(** Passing an ASSERT. *)
Lemma MASSERT_true {S A} (b : bool) (k : M S A) s : b = true -> Mbind (MASSERT b) (fun _ => k) s = k s.
Proof. by intros ->. Qed.
Ltac massert :=
  rewrite MASSERT_true by
    first [ done
          | apply negb_true_iff, Z.eqb_neq; lia
          | apply Z.leb_le; unfold MAX_ADDRESS in *; lia
          | apply Z.eqb_eq; done ].

(** ** Fills *)

Lemma set_up_blit w v V f P k r m :
  0 < w -> le_split (Z.to_nat w) v = replicate (Z.to_nat w) V -> mapped m P (Z.of_nat k) ->
  Z.of_nat k mod w = 0 -> 0 <= r < w -> (k <= f)%nat ->
  set_up f w v (Z.of_nat k + r) P m = Ok ((P + Z.of_nat k, r), blit P (replicate k V) m).
Proof.
  intros Hw Hv. revert P k m. induction f as [|f IH]; intros P k m Hm Hmod Hr Hf; cbn [set_up].
  - assert (k = 0%nat) as -> by lia. destruct (Z.leb_spec w (Z.of_nat 0 + r)); [lia|].
    cbn. by rewrite Z.add_0_r.
  - destruct (Z.leb_spec w (Z.of_nat k + r)) as [Hle|Hlt].
    + assert (w <= Z.of_nat k) as Hwk.
      { destruct (decide (w <= Z.of_nat k)); [done|]. rewrite Z.mod_small in Hmod by lia. lia. }
      erewrite Mbind_Ok; [|apply store_blit; eapply mapped_sub; [exact Hm|lia..]].
      rewrite Hv. set (n := (k - Z.to_nat w)%nat). assert (Z.of_nat n = Z.of_nat k - w) as Hn by lia.
      replace (Z.of_nat k + r - w) with (Z.of_nat n + r) by lia.
      rewrite IH; [| | |done|lia].
      * replace k with (Z.to_nat w + n)%nat by lia. rewrite replicate_add, blit_app, length_replicate.
        rewrite Z2Nat.id by lia. replace (P + Z.of_nat (Z.to_nat w + n)) with (P + w + Z.of_nat n) by lia. done.
      * apply mapped_blit. eapply mapped_sub; [exact Hm|lia..].
      * rewrite Hn. replace (Z.of_nat k - w) with (Z.of_nat k + (-1) * w) by lia. by rewrite Z.mod_add by lia.
    + destruct (decide (Z.of_nat k = 0)) as [E|E].
      * assert (k = 0%nat) as -> by lia. cbn. by rewrite Z.add_0_r.
      * rewrite Z.mod_small in Hmod by lia. lia.
Qed.

(** The four bytes of [Value32] and the eight of the 64-bit value. *)
Definition spreads (V : Z) : bool :=
  bool_decide (le_split 4 (Value32 V) = replicate 4 V) &&
  match LShiftU64 (Value32 V) 32 with
  | Ok Hi => bool_decide (le_split 8 (Z.lor Hi (Value32 V)) = replicate 8 V)
  | _ => false
  end.
Lemma spreads_all : forallb (fun n => spreads (Z.of_nat n)) (seq 0 256) = true.
Proof. vm_compute. reflexivity. Qed.
Lemma spreads_byte V : inU 8 V -> spreads V = true.
Proof.
  intros HV. unfold inU in HV. change (2 ^ 8) with 256 in HV.
  pose proof (proj1 (forallb_forall _ _) spreads_all (Z.to_nat V)) as H.
  cbn beta in H. rewrite Z2Nat.id in H by lia. apply H, in_seq. lia.
Qed.

Lemma InternalMemSetMem_blit B V n m :
  inU 8 V -> mapped m B (Z.of_nat n) ->
  InternalMemSetMem B (Z.of_nat n) V m = Ok (B, blit B (replicate n V) m).
Proof.
  intros HV Hm. pose proof (spreads_byte V HV) as Hsp. unfold spreads in Hsp.
  apply andb_true_iff in Hsp as [H4 H8]. apply bool_decide_eq_true in H4.
  destruct (LShiftU64 (Value32 V) 32) as [Hi| | |] eqn:EH; try done. apply bool_decide_eq_true in H8.
  assert (forall k P r m', mapped m' P (Z.of_nat r) -> (k + r = n)%nat -> P = B + Z.of_nat k -> m' = blit B (replicate k V) m ->
    (set_up n 1 V (Z.of_nat r) P ;;; Mret B) m' =
    Ok (B, blit B (replicate n V) m)) as Tail.
  { intros k P r m' Hm' Hkr -> ->.
    rewrite <- (Z.add_0_r (Z.of_nat r)). erewrite Mbind_Ok; [|apply (set_up_blit 1 V V); [lia| |done|apply Z.mod_1_r|lia|lia]].
    - unfold Mret. rewrite <- Hkr, replicate_add, blit_app, length_replicate. done.
    - change (Z.to_nat 1) with 1%nat. cbn [le_split replicate]. unfold inU in HV. change (2 ^ 8) with 256 in HV. by rewrite Z.mod_small. }
  assert (forall w v, 0 < w -> le_split (Z.to_nat w) v = replicate (Z.to_nat w) V ->
    (let! r := set_up n w v (Z.of_nat n) B in
     let '(Pointer8, Length) := r in set_up n 1 V Length Pointer8 ;;; Mret B) m =
    Ok (B, blit B (replicate n V) m)) as Words.
  { intros w v Hw Hv. pose proof (Z.mod_pos_bound (Z.of_nat n) w Hw) as Hb.
    pose proof (Z.mod_le (Z.of_nat n) w ltac:(lia) Hw) as Hle.
    set (r := Z.to_nat (Z.of_nat n mod w)). set (k := (n - r)%nat).
    assert (Z.of_nat k mod w = 0) as Hk.
    { replace (Z.of_nat k) with (Z.of_nat n / w * w); [apply Z.mod_mul; lia|].
      pose proof (Z.div_mod (Z.of_nat n) w ltac:(lia)). lia. }
    replace (Z.of_nat n) with (Z.of_nat k + Z.of_nat r) at 1 by lia.
    erewrite Mbind_Ok; [|apply (set_up_blit w v V); [done|done| |done|lia|lia]].
    - apply (Tail k); [|lia|done|done].
      apply mapped_blit. eapply mapped_sub; [exact Hm|lia..].
    - eapply mapped_sub; [exact Hm|lia..]. }
  unfold InternalMemSetMem. rewrite Nat2Z.id. destruct (_ && _).
  - rewrite EH. cbn [obind]. by apply (Words 8).
  - destruct (_ && _); [by apply (Words 4)|]. cbn [Mbind Mret].
    by apply (Tail 0%nat); [|lia|lia|].
Qed.

Lemma length_elements n (x : list Z) : length (mjoin (replicate n x)) = (n * length x)%nat.
Proof.
  induction n as [|n IH]; [done|]. change (mjoin (replicate (S n) x)) with (x ++ mjoin (replicate n x)).
  rewrite length_app, IH. lia.
Qed.

Lemma set_elements_blit w v n B m :
  0 < w -> mapped m B (w * Z.of_nat n) ->
  set_elements w v n B m = Ok (tt, blit B (mjoin (replicate n (le_split (Z.to_nat w) v))) m).
Proof.
  intros Hw. revert m. induction n as [|n IH]; intros m Hm; [done|]. cbn [set_elements].
  erewrite Mbind_Ok; [|apply store_blit; eapply mapped_sub; [exact Hm|lia..]].
  rewrite IH by (apply mapped_blit; eapply mapped_sub; [exact Hm|lia..]).
  rewrite replicate_S_end, join_app. cbn [mjoin list_join]. rewrite app_nil_r.
  rewrite <- blit_app_down, length_elements, le_split_length.
  by replace (Z.of_nat (n * Z.to_nat w)) with (w * Z.of_nat n) by lia.
Qed.

(** ** Comparison *)

(** The difference at the first mismatch. *)
Fixpoint first_diff (ds ss : list Z) : Z :=
  match ds, ss with
  | d :: ds', s :: ss' => if d =? s then first_diff ds' ss' else d - s
  | _, _ => 0
  end.

Lemma wrapS_8_inj d s : inU 8 d -> inU 8 s -> (wrapS 8 d =? wrapS 8 s) = (d =? s).
Proof.
  unfold inU, wrapS. change (2 ^ 8) with 256. change (2 ^ (8 - 1)) with 128. intros Hd Hs.
  destruct (Z.eqb_spec d s) as [->|Hne]; [apply Z.eqb_refl|]. apply Z.eqb_neq. Z.div_mod_to_equations. lia.
Qed.

Lemma compare_loop_diff n D S ds ss m :
  mem_ok m -> at_bytes m D ds -> at_bytes m S ss -> length ds = Datatypes.S n -> length ss = Datatypes.S n ->
  compare_loop n D S m = Ok (first_diff ds ss, m).
Proof.
  intros Hm. revert D S ds ss. induction n as [|n IH]; intros D S ds ss Hd Hs Hld Hls;
    destruct ds as [|d ds], ss as [|s ss]; try done; cbn in Hld, Hls;
    apply at_bytes_cons in Hd as [Hd1 Hd2]; apply at_bytes_cons in Hs as [Hs1 Hs2];
    cbn [compare_loop first_diff];
    rewrite (Mbind_Ok _ _ _ _ _ (load1_at _ _ _ Hd1)), (Mbind_Ok _ _ _ _ _ (load1_at _ _ _ Hs1)).
  - destruct ds; [|done]. destruct ss; [|done]. unfold Mret. cbn [first_diff].
    destruct (Z.eqb_spec d s); do 2 f_equal. lia.
  - rewrite (wrapS_8_inj d s (Hm _ _ Hd1) (Hm _ _ Hs1)). destruct (Z.eqb_spec d s) as [E|E].
    + apply IH; try done; lia.
    + rewrite (Mbind_Ok _ _ _ _ _ (load1_at _ _ _ Hd1)), (Mbind_Ok _ _ _ _ _ (load1_at _ _ _ Hs1)). done.
Qed.

Lemma first_diff_same bs : first_diff bs bs = 0.
Proof. induction bs as [|b bs IH]; [done|]. cbn. by rewrite Z.eqb_refl. Qed.
Lemma first_diff_at i ds ss d s :
  take i ds = take i ss -> ds !! i = Some d -> ss !! i = Some s -> d <> s -> first_diff ds ss = d - s.
Proof.
  revert ds ss. induction i as [|i IH]; intros [|x ds] [|y ss] Ht Hd Hs Hne; try done; cbn in *.
  - simplify_eq. by rewrite (proj2 (Z.eqb_neq _ _) Hne).
  - injection Ht as -> Ht. rewrite Z.eqb_refl. by apply IH.
Qed.
Lemma first_diff_zero ds ss : length ds = length ss -> first_diff ds ss = 0 <-> ds = ss.
Proof.
  intros Hl. split; [|intros ->; apply first_diff_same].
  revert ss Hl. induction ds as [|d ds IH]; intros [|s ss] Hl; try done. cbn in *.
  destruct (Z.eqb_spec d s) as [->|]; [|lia]. intros E. f_equal. apply IH; [lia|done].
Qed.

Lemma CompareMem_diff W D S ds ss m :
  mem_ok m -> at_bytes m D ds -> at_bytes m S ss -> length ss = length ds -> D <> 0 -> S <> 0 ->
  D + len ds <= 2 ^ W -> S + len ss <= 2 ^ W ->
  CompareMem W D S (len ds) m = Ok (first_diff ds ss, m).
Proof.
  intros Hm Hd Hs Hl HD HS HDW HSW. unfold CompareMem.
  destruct (Z.eqb_spec (len ds) 0) as [E|E].
  { destruct ds; [|cbn in E; lia]. destruct ss; done. }
  destruct (Z.eqb_spec D S) as [->|Hne]; cbn [orb].
  { rewrite (at_bytes_unique _ _ _ _ Hs Hd Hl), first_diff_same. done. }
  do 4 massert. apply compare_loop_diff; try done; lia.
Qed.

(** ** Searches *)

(** [found m w B n V r]: [r] is the address of the first of the [n] elements
    of [w] bytes at [B] that is [V], or NULL if none is. *)
Definition found (m : mem) (w B n V r : Z) : Prop :=
  (r = 0 /\ forall j, 0 <= j < n -> load (Z.to_nat w) (B + w * j) m <> Ok (V, m)) \/
  (exists i, 0 <= i < n /\ r = B + w * i /\ load (Z.to_nat w) (B + w * i) m = Ok (V, m) /\
     forall j, 0 <= j < i -> load (Z.to_nat w) (B + w * j) m <> Ok (V, m)).

Lemma scan_loop_found w V n B m :
  0 < w -> (0 < n)%nat -> mapped m B (w * Z.of_nat n) ->
  exists r, scan_loop w V n B m = Ok (r, m) /\ found m w B (Z.of_nat n) V r.
Proof.
  intros Hw. revert B. induction n as [|n IH]; intros B Hn Hm; [lia|]. cbn [scan_loop].
  destruct (mapped_at_bytes m B (Z.to_nat w)) as (bs & Hb & Hl).
  { eapply mapped_sub; [exact Hm|lia..]. }
  pose proof (load_at _ _ _ _ Hb Hl) as E. run_step E.
  destruct (Z.eqb_spec (le_combine bs) V) as [<-|Hne].
  - exists B. split; [done|]. right. exists 0. rewrite Z.mul_0_r, Z.add_0_r. split; [lia|split; [done|split; [done|intros; lia]]].
  - assert (load (Z.to_nat w) B m <> Ok (V, m)) as HB by (rewrite E; congruence).
    destruct n as [|n].
    + exists 0. split; [done|]. left. split; [done|]. intros j Hj. assert (j = 0) as -> by lia.
      by rewrite Z.mul_0_r, Z.add_0_r.
    + destruct (IH (B + w)) as (r & Er & Hr); [lia|eapply mapped_sub; [exact Hm|lia..]|].
      exists r. split; [done|].
      assert (forall j, 0 <= j -> load (Z.to_nat w) (B + w + w * (j - 1)) m <> Ok (V, m) \/ j = 0 ->
        load (Z.to_nat w) (B + w * j) m <> Ok (V, m)) as Shift.
      { intros j Hj [H | ->]; [|by rewrite Z.mul_0_r, Z.add_0_r].
        by replace (B + w * j) with (B + w + w * (j - 1)) by lia. }
      destruct Hr as [[-> Hr]|(i & Hi & -> & Hv & Hr)].
      * left. split; [done|]. intros j Hj. apply Shift; [lia|].
        destruct (decide (j = 0)); [by right|]. left. apply Hr. lia.
      * right. exists (i + 1). replace (B + w * (i + 1)) with (B + w + w * i) by lia.
        repeat split; [lia|lia|done|]. intros j Hj. apply Shift; [lia|].
        destruct (decide (j = 0)); [by right|]. left. apply Hr. lia.
Qed.

Lemma zero_loop_all n p bs m :
  at_bytes m p bs -> length bs = n -> zero_loop n p m = Ok (forallb (Z.eqb 0) bs, m).
Proof.
  revert p bs. induction n as [|n IH]; intros p [|b bs] Hb Hl; try done. cbn in Hl.
  apply at_bytes_cons in Hb as [H1 H2]. cbn [zero_loop forallb].
  rewrite (Mbind_Ok _ _ _ _ _ (load1_at _ _ _ H1)), Z.eqb_sym.
  destruct (Z.eqb_spec 0 b); cbn [negb andb]; [|done]. apply IH; [done|lia].
Qed.

(** ** GUIDs *)

Lemma ReadUnaligned_at n a m bs :
  a <> 0 -> at_bytes m a bs -> length bs = n -> ReadUnaligned n a m = Ok (le_combine bs, m).
Proof. intros Ha Hb Hl. unfold ReadUnaligned. massert. by apply load_at. Qed.

Lemma guid_halves m g bs :
  at_bytes m g bs -> length bs = 16%nat ->
  at_bytes m g (take 8 bs) /\ at_bytes m (g + 8) (drop 8 bs) /\
  length (take 8 bs) = 8%nat /\ length (drop 8 bs) = 8%nat.
Proof.
  intros Hb Hl. rewrite <- (take_drop 8 bs), at_bytes_app in Hb.
  rewrite length_take_le in Hb by lia. rewrite length_take, length_drop, Hl. tauto.
Qed.

Lemma halves_eqb b1 b2 :
  bytes_ok b1 -> bytes_ok b2 -> length b1 = 16%nat -> length b2 = 16%nat ->
  (le_combine (take 8 b1) =? le_combine (take 8 b2)) && (le_combine (drop 8 b1) =? le_combine (drop 8 b2)) =
  bool_decide (b1 = b2).
Proof.
  intros H1 H2 L1 L2. apply eq_true_iff_eq. rewrite andb_true_iff, !Z.eqb_eq, bool_decide_eq_true.
  split; [|by intros ->]. intros [E1 E2]. rewrite <- (take_drop 8 b1), <- (take_drop 8 b2).
  f_equal; apply le_combine_inj; rewrite ?length_take, ?length_drop; try lia;
    by apply Forall_take || apply Forall_drop.
Qed.

Lemma CompareGuid_eq m g1 g2 b1 b2 :
  mem_ok m -> at_bytes m g1 b1 -> at_bytes m g2 b2 -> length b1 = 16%nat -> length b2 = 16%nat ->
  0 < g1 -> 0 < g2 -> CompareGuid g1 g2 m = Ok (bool_decide (b1 = b2), m).
Proof.
  intros Hm H1 H2 L1 L2 P1 P2.
  destruct (guid_halves _ _ _ H1 L1) as (A1 & A2 & A3 & A4).
  destruct (guid_halves _ _ _ H2 L2) as (B1 & B2 & B3 & B4).
  unfold CompareGuid, ReadUnaligned64.
  rewrite (Mbind_Ok _ _ _ _ _ (ReadUnaligned_at 8 g1 m _ ltac:(lia) A1 A3)).
  rewrite (Mbind_Ok _ _ _ _ _ (ReadUnaligned_at 8 g2 m _ ltac:(lia) B1 B3)).
  rewrite (Mbind_Ok _ _ _ _ _ (ReadUnaligned_at 8 (g1 + 8) m _ ltac:(lia) A2 A4)).
  rewrite (Mbind_Ok _ _ _ _ _ (ReadUnaligned_at 8 (g2 + 8) m _ ltac:(lia) B2 B4)).
  unfold Mret. rewrite halves_eqb; [done|by eapply at_bytes_ok..|done|done].
Qed.

Lemma IsZeroGuid_eq m g bs :
  mem_ok m -> at_bytes m g bs -> length bs = 16%nat -> 0 < g ->
  IsZeroGuid g m = Ok (bool_decide (bs = replicate 16 0), m).
Proof.
  intros Hm H1 L1 P1. destruct (guid_halves _ _ _ H1 L1) as (A1 & A2 & A3 & A4).
  unfold IsZeroGuid, ReadUnaligned64.
  rewrite (Mbind_Ok _ _ _ _ _ (ReadUnaligned_at 8 g m _ ltac:(lia) A1 A3)).
  rewrite (Mbind_Ok _ _ _ _ _ (ReadUnaligned_at 8 (g + 8) m _ ltac:(lia) A2 A4)).
  unfold Mret. rewrite <- (halves_eqb bs (replicate 16 0)); [done|by eapply at_bytes_ok| |done|done].
  by apply Forall_replicate.
Qed.

Lemma scan_guid_first gs p g b m :
  mem_ok m -> at_bytes m p (mjoin gs) -> Forall (fun x => length x = 16%nat) gs ->
  at_bytes m g b -> length b = 16%nat -> 0 < p -> 0 < g ->
  scan_guid (length gs) p g m =
  Ok (match list_find (b =.) gs with Some (i, _) => p + 16 * Z.of_nat i | None => 0 end, m).
Proof.
  intros Hm Hp Hgs Hg Hl. revert p Hp. induction Hgs as [|x gs Hx _ IH]; intros p Hp P1 P2; [done|].
  cbn [mjoin list_join] in Hp. apply at_bytes_app in Hp as [Hp1 Hp2]. rewrite Hx in Hp2.
  cbn [length scan_guid list_find]. rewrite (Mbind_Ok _ _ _ _ _ (CompareGuid_eq _ _ _ _ _ Hm Hp1 Hg Hx Hl P1 P2)).
  destruct (decide (b = x)) as [->|Hne].
  - rewrite bool_decide_true by done. unfold Mret. do 2 f_equal. lia.
  - rewrite bool_decide_false by congruence. rewrite (IH (p + 16)); [|done|lia|done].
    destruct (list_find _ gs) as [[i y]|]; cbn; do 2 f_equal. lia.
Qed.
