(* ===== verification/MemTheorems.v ===== *)
(** * MemTheorems: what BaseMemoryLib promises

    CopyMem moves bytes whatever the alignment and overlap of the buffers,
    the fills fill exactly the buffer, the comparisons and searches answer as
    the bytes of the buffers do. *)

From stdpp Require Import base option list gmap fin_maps.
From Stdlib Require Import ZArith Lia.
From S2P Require Import Prelude BaseMath Memory MemSpec MemCopy.

Local Open Scope Z_scope.
Local Open Scope edk_scope.

Lemma dom_blit a bs m : mapped m a (len bs) -> dom (blit a bs m) = dom m.
Proof.
  intros H. apply set_eq. intros x. rewrite !elem_of_dom, lookup_blit. case_decide as Hx; [|done].
  split; intros _; [by apply H|]. apply lookup_lt_is_Some. lia.
Qed.

Lemma CopyGuid_blit D S bs m :
  mem_ok m -> at_bytes m S bs -> length bs = 16%nat -> mapped m D 16 -> 0 < D -> 0 < S ->
  D <= S \/ S + 16 <= D -> CopyGuid D S m = Ok (D, blit D bs m).
Proof.
  intros Hm Hs Hl Hd HD HS Hov. destruct (guid_halves _ _ _ Hs Hl) as (A1 & A2 & A3 & A4).
  assert (forall m' a b k, mem_ok m' -> length b = 8%nat -> bytes_ok b -> a <> 0 -> mapped m' a 8 ->
    Mbind (WriteUnaligned 8 a (le_combine b)) k m' = k (le_combine b) (blit a b m') :> outcome (Z * mem)) as Wr.
  { intros m' a b k Hm' Hb8 Hb Ha Hmp. unfold WriteUnaligned. rewrite (Mbind_Ok _ _ _ (le_combine b) (blit a b m')); [done|].
    massert. rewrite (Mbind_Ok _ _ _ _ _ (store_blit 8 _ _ _ Hmp)). by rewrite <- Hb8, le_split_combine by done. }
  pose proof (at_bytes_ok _ _ _ Hm A1) as O1. pose proof (at_bytes_ok _ _ _ Hm A2) as O2.
  unfold CopyGuid, ReadUnaligned64, WriteUnaligned64.
  rewrite (Mbind_Ok _ _ _ _ _ (ReadUnaligned_at 8 S m _ ltac:(lia) A1 A3)).
  rewrite Wr; [|done..|lia|eapply mapped_sub; [exact Hd|lia..]].
  assert (at_bytes (blit D (take 8 bs) m) (S + 8) (drop 8 bs)) as A5 by (apply at_bytes_blit_other; [exact A2|lia]).
  rewrite (Mbind_Ok _ _ _ _ _ (ReadUnaligned_at 8 (S + 8) _ (drop 8 bs) ltac:(lia) A5 A4)).
  rewrite Wr; [|by apply mem_ok_blit|done..|lia|apply mapped_blit; eapply mapped_sub; [exact Hd|lia..]].
  rewrite <- (take_drop 8 bs) at 3. rewrite blit_app, A3. done.
Qed.

(** C30  CopyMem is memmove: whenever the source holds the bytes
    [bs] and the destination is memory, whatever their alignment and overlap
    (the code copies words of 8 or 4 bytes or single bytes, upwards or
    downwards), it returns the destination, the destination then holds the
    bytes the source held before the call and no other byte has changed; the
    memory stays a memory of bytes with the same addresses.  A buffer that
    reaches past MAX_ADDRESS fails an ASSERT.  CopyGuid copies the 16 bytes of
    a GUID, unless the destination starts inside of the source. *)
Theorem Mem_copy (W D S : Z) (bs : list Z) (m : mem) :
  mem_ok m -> at_bytes m S bs -> mapped m D (len bs) -> 0 <= D < 2 ^ W -> 0 <= S < 2 ^ W -> len bs < 2 ^ W ->
  (D + len bs <= 2 ^ W -> S + len bs <= 2 ^ W ->
     exists m', CopyMem W D S (len bs) m = Ok (D, m') /\
       at_bytes m' D bs /\
       (forall x, ~ (D <= x < D + len bs) -> m' !! x = m !! x) /\
       mem_ok m' /\ dom m' = dom m) /\
  (2 ^ W < D + len bs \/ 2 ^ W < S + len bs -> CopyMem W D S (len bs) m = AssertFail) /\
  (length bs = 16%nat -> 0 < D -> 0 < S -> D <= S \/ S + 16 <= D ->
     exists m', CopyGuid D S m = Ok (D, m') /\ at_bytes m' D bs /\
       forall x, ~ (D <= x < D + 16) -> m' !! x = m !! x).
Proof.
  intros Hm Hs Hd HD HS HW. split; [|split].
  - intros HDW HSW. exists (blit D bs m). split; [by apply CopyMem_blit|].
    split; [apply at_bytes_blit|]. split; [intros x; apply lookup_blit_out|].
    split; [by eapply mem_ok_blit, at_bytes_ok|by apply dom_blit].
  - intros Hbad. unfold CopyMem, MAX_ADDRESS. rewrite (proj2 (Z.eqb_neq _ _)) by lia.
    destruct (Z.leb_spec (len bs - 1) (2 ^ W - 1 - D)); [|done]. cbn.
    destruct (Z.leb_spec (len bs - 1) (2 ^ W - 1 - S)); [lia|done].
  - intros Hl HD0 HS0 Hov. exists (blit D bs m). split; [apply CopyGuid_blit; try done; by rewrite Hl in Hd|].
    split; [apply at_bytes_blit|]. intros x Hx. apply lookup_blit_out. lia.
Qed.

(** Twenty-four bytes 0, 1, ..., 23 at address 64, and 23 zeros before. *)
Definition bench_mem : mem := blit 41 (replicate 23 0 ++ (Z.of_nat <$> seq 0 24)) ∅.
Lemma bench_mem_ok : mem_ok bench_mem.
Proof. by_decide. Qed.

Example Mem_copy_overlap :
  (load_bytes 24 64 <$> match CopyMem 64 72 64 13 bench_mem with Ok (_, m) => Some m | _ => None end) =
  Some (Ok ((Z.of_nat <$> seq 0 8) ++ (Z.of_nat <$> seq 0 13) ++ [21; 22; 23])).
Proof. vm_compute. reflexivity. Qed.

Lemma bench_mem_at a n bs :
  load_bytes n a bench_mem = Ok bs -> at_bytes bench_mem a bs /\ mapped bench_mem a (Z.of_nat n).
Proof. intros H%load_bytes_inv. destruct H as [H <-]. split; [done|by apply at_bytes_mapped]. Qed.

Lemma Mem_copy_witness :
  exists m', CopyMem 64 72 64 13 bench_mem = Ok (72, m') /\ at_bytes m' 72 (Z.of_nat <$> seq 0 13).
Proof.
  destruct (bench_mem_at 64 13 (Z.of_nat <$> seq 0 13)) as [Hs _]; [vm_compute; reflexivity|].
  destruct (bench_mem_at 72 13 (Z.of_nat <$> seq 8 13)) as [_ Hd]; [vm_compute; reflexivity|].
  destruct (Mem_copy 64 72 64 (Z.of_nat <$> seq 0 13) bench_mem bench_mem_ok Hs Hd) as [H _]; [by vm_compute..|].
  destruct H as (m' & E & H & _); [by vm_compute..|]. exists m'. split; [exact E|exact H].
Defined.

(** ** Fills *)

(** The outcome of filling a buffer: exactly the buffer changes. *)
Definition filled (B : Z) (bs : list Z) (m : mem) (r : outcome (Z * mem)) : Prop :=
  exists m', r = Ok (B, m') /\ at_bytes m' B bs /\
    (forall x, ~ (B <= x < B + len bs) -> m' !! x = m !! x).
Lemma filled_blit B bs m : filled B bs m (Ok (B, blit B bs m)).
Proof. exists (blit B bs m). split; [done|]. split; [apply at_bytes_blit|intros x; apply lookup_blit_out]. Qed.

Lemma SetMem_sized_blit W w k Internal B n v m :
  0 <= k -> w = 2 ^ k ->
  (forall B L v, Internal B L v = (set_elements w v (Z.to_nat L) B ;;; Mret B)) ->
  0 < B -> B mod w = 0 -> B + w * Z.of_nat n <= 2 ^ W -> mapped m B (w * Z.of_nat n) ->
  SetMem_sized W w Internal B (w * Z.of_nat n) v m =
  Ok (B, blit B (mjoin (replicate n (le_split (Z.to_nat w) v))) m).
Proof.
  intros Hk Hw HI HB Hal HW Hm. assert (0 < w) as Hw0 by (subst w; by apply Z.pow_pos_nonneg).
  assert (forall x, Z.land x (w - 1) = x mod w) as Hland.
  { intros x. subst w. rewrite <- Z.land_ones by done. f_equal. rewrite Z.ones_equiv. lia. }
  unfold SetMem_sized. destruct (Z.eqb_spec (w * Z.of_nat n) 0) as [E|E].
  { assert (n = 0%nat) as -> by nia. done. }
  do 2 massert. rewrite !Hland, Hal, Z.mul_comm, Z.mod_mul by lia. do 2 massert.
  rewrite Z.div_mul, HI, Nat2Z.id by lia.
  by rewrite (Mbind_Ok _ _ _ _ _ (set_elements_blit _ _ _ _ _ Hw0 Hm)).
Qed.

(** SetMem and ZeroMem make every byte of the buffer the
    value, though they write 8 or 4 bytes at a time where the buffer is
    aligned; SetMem16, SetMem32, SetMem64 and SetMemN repeat the
    little-endian bytes of the value; they return the buffer and no byte
    outside of it changes. *)
Theorem Mem_fill (W B V : Z) (n : nat) (m : mem) :
  0 < B -> 0 <= W ->
  (inU 8 V -> mapped m B (Z.of_nat n) -> B + Z.of_nat n <= 2 ^ W ->
     filled B (replicate n V) m (SetMem W B (Z.of_nat n) V m) /\
     filled B (replicate n 0) m (ZeroMem W B (Z.of_nat n) m)) /\
  (forall w f,
     In (w, f) ((2, SetMem16 W) :: (4, SetMem32 W) :: (8, SetMem64 W) ::
                (if W =? 64 then [(8, SetMemN W)] else if W =? 32 then [(4, SetMemN W)] else [])) ->
     B mod w = 0 -> mapped m B (w * Z.of_nat n) -> B + w * Z.of_nat n <= 2 ^ W -> inU (8 * w) V ->
     filled B (mjoin (replicate n (le_split (Z.to_nat w) V))) m (f B (w * Z.of_nat n) V m)).
Proof.
  intros HB HW. split.
  - intros HV Hm HBW. unfold SetMem, ZeroMem. destruct (Z.eqb_spec (Z.of_nat n) 0) as [E|E].
    { assert (n = 0%nat) as -> by lia. split; apply (filled_blit B []). }
    split; massert.
    + rewrite InternalMemSetMem_blit by done. apply filled_blit.
    + rewrite MASSERT_true; [unfold InternalMemZeroMem; rewrite InternalMemSetMem_blit by done; apply filled_blit|].
      unfold MAX_ADDRESS. rewrite wrapU_id by (unfold inU; lia). apply Z.leb_le. lia.
  - intros w f Hin Hal Hm HBW HV.
    assert (exists k Internal, 0 <= k /\ w = 2 ^ k /\
      (forall B L v, Internal B L v = (set_elements w v (Z.to_nat L) B ;;; Mret B)) /\
      f B (w * Z.of_nat n) V m = SetMem_sized W w Internal B (w * Z.of_nat n) V m) as (k & Int & H1 & H2 & H3 & ->).
    { destruct Hin as [[= <- <-]|[[= <- <-]|[[= <- <-]|Hin]]];
        [exists 1, InternalMemSetMem16|exists 2, InternalMemSetMem32|exists 3, InternalMemSetMem64|]; try done.
      destruct (Z.eqb_spec W 64) as [->|]; [|destruct (Z.eqb_spec W 32) as [->|]; [|done]];
        destruct Hin as [[= <- <-]|[]]; [exists 3, InternalMemSetMem64|exists 2, InternalMemSetMem32];
        split_and!; try done; unfold SetMemN; [change (64 / 8 =? 8) with true|change (32 / 8 =? 8) with false];
        cbn iota; [by rewrite (wrapU_id 64 V HV)|by rewrite (wrapU_id 32 V HV)]. }
    rewrite (SetMem_sized_blit W w k Int) by done. apply filled_blit.
Qed.

Lemma Mem_fill_witness :
  filled 64 (replicate 13 165) bench_mem (SetMem 64 64 13 165 bench_mem) /\
  filled 64 (mjoin (replicate 3 [0x34; 0x12])) bench_mem (SetMem16 64 64 6 0x1234 bench_mem).
Proof.
  destruct (bench_mem_at 64 13 (Z.of_nat <$> seq 0 13)) as [_ H13]; [vm_compute; reflexivity|].
  destruct (bench_mem_at 64 6 (Z.of_nat <$> seq 0 6)) as [_ H6]; [vm_compute; reflexivity|].
  split.
  - refine (proj1 (proj1 (Mem_fill 64 64 165 13 bench_mem _ _) _ H13 _)); by vm_compute.
  - refine (proj2 (Mem_fill 64 64 0x1234 3 bench_mem _ _) 2 (SetMem16 64) _ _ H6 _ _);
      [by vm_compute|by vm_compute|left; reflexivity|by vm_compute..].
Defined.

(** ** Comparisons and searches *)

Lemma ScanMem_sized_found W w k Internal B L V m :
  0 <= k -> w = 2 ^ k ->
  (forall B L v, Internal B L v = scan_loop w v (Z.to_nat L) B) ->
  0 < B -> B mod w = 0 -> L mod w = 0 -> 0 < L -> B + L <= 2 ^ W -> mapped m B L ->
  exists r, ScanMem_sized W w Internal B L V m = Ok (r, m) /\ found m w B (L / w) V r.
Proof.
  intros Hk Hw HI HB Hal HLal HL HW Hm. assert (0 < w) as Hw0 by (subst w; by apply Z.pow_pos_nonneg).
  assert (forall x, Z.land x (w - 1) = x mod w) as Hland.
  { intros x. subst w. rewrite <- Z.land_ones by done. f_equal. rewrite Z.ones_equiv. lia. }
  pose proof (Z.div_mod L w ltac:(lia)) as Hdiv. assert (0 < L / w) by nia.
  unfold ScanMem_sized. destruct (Z.eqb_spec L 0); [lia|].
  massert. rewrite !Hland, Hal, HLal. do 3 massert. rewrite HI.
  rewrite <- (Z2Nat.id (L / w)) in Hdiv by lia.
  destruct (scan_loop_found w V (Z.to_nat (L / w)) B m) as (r & E & Hr);
    [done|lia|eapply mapped_sub; [exact Hm|lia..]|].
  rewrite Z2Nat.id in Hr by lia. by exists r.
Qed.

(**  CompareMem is 0 exactly on equal buffers and else the
    difference of the bytes at the first mismatch; ScanMem8, 16, 32 and 64
    return the address of the first element equal to the value and NULL if
    there is none; IsZeroBuffer tells whether every byte is zero, but fails
    its ASSERT on an empty buffer at any address but NULL; CompareGuid,
    IsZeroGuid and ScanGuid compare all 16 bytes. *)
Theorem Mem_search (W B : Z) (bs : list Z) (m : mem) :
  mem_ok m -> at_bytes m B bs -> 0 < B -> 0 < W -> B + len bs <= 2 ^ W ->
  (forall S ss, at_bytes m S ss -> length ss = length bs -> 0 < S -> S + len ss <= 2 ^ W ->
     exists r, CompareMem W B S (len bs) m = Ok (r, m) /\ (r = 0 <-> bs = ss) /\
       forall i b s, take i bs = take i ss -> bs !! i = Some b -> ss !! i = Some s -> b <> s -> r = b - s) /\
  (forall w f V, In (w, f) [(1, ScanMem8 W); (2, ScanMem16 W); (4, ScanMem32 W); (8, ScanMem64 W)] ->
     B mod w = 0 -> len bs mod w = 0 ->
     exists r, f B (len bs) V m = Ok (r, m) /\ found m w B (len bs / w) V r) /\
  (IsZeroBuffer W B (len bs) m =
     if decide (bs = []) then AssertFail else Ok (forallb (Z.eqb 0) bs, m)) /\
  (forall G gs, at_bytes m G gs -> length gs = 16%nat -> 0 < G ->
     IsZeroGuid G m = Ok (bool_decide (gs = replicate 16 0), m) /\
     (length bs = 16%nat -> CompareGuid B G m = Ok (bool_decide (bs = gs), m)) /\
     forall l, bs = mjoin l -> Forall (fun x => length x = 16%nat) l -> B mod 4 = 0 ->
       ScanGuid W B (len bs) G m =
       Ok (match list_find (gs =.) l with Some (i, _) => B + 16 * Z.of_nat i | None => 0 end, m)).
Proof.
  intros Hm Hb HB HW0 HBW. split; [|split; [|split]].
  - intros S ss Hs Hl HS HSW. exists (first_diff bs ss).
    split; [apply CompareMem_diff; done || lia|]. split; [by apply first_diff_zero|].
    intros i b s. apply first_diff_at.
  - intros w f V Hin Hal HLal.
    destruct (decide (len bs = 0)) as [E0|E0].
    { exists 0. rewrite E0. split.
      - destruct Hin as [[= <- <-]|[[= <- <-]|[[= <- <-]|[[= <- <-]|[]]]]]; done.
      - left. split; [done|]. rewrite Z.div_0_l by (intros ->; destruct Hin as [|[|[|[|[]]]]]; congruence).
        intros; lia. }
    destruct Hin as [[= <- <-]|Hin].
    + unfold ScanMem8. destruct (Z.eqb_spec (len bs) 0); [lia|]. do 2 massert. unfold InternalMemScanMem8.
      rewrite Z.div_1_r, Nat2Z.id. apply scan_loop_found; [lia|lia|].
      rewrite Z.mul_1_l. by apply at_bytes_mapped.
    + destruct Hin as [[= <- <-]|[[= <- <-]|[[= <- <-]|[]]]];
        [apply (ScanMem_sized_found W 2 1)|apply (ScanMem_sized_found W 4 2)|apply (ScanMem_sized_found W 8 3)];
        by first [done|lia|apply at_bytes_mapped].
  - unfold IsZeroBuffer. destruct (decide (bs = [])) as [->|Hne].
    + cbn. rewrite andb_false_r. cbn. unfold MAX_ADDRESS, wrapU.
      change (Z.of_nat 0 - 1) with (-1).
      replace ((-1) mod 2 ^ W) with (2 ^ W - 1); [|apply Z.mod_unique with (-1); lia].
      rewrite (proj2 (Z.leb_gt _ _)) by lia. done.
    + assert (0 < len bs) by (destruct bs; cbn; [done|lia]).
      rewrite MASSERT_true by (destruct (Z.eqb_spec B 0); [lia|done]).
      rewrite wrapU_id by (unfold inU; lia). massert. unfold InternalMemIsZeroBuffer.
      rewrite Nat2Z.id. by apply zero_loop_all.
  - intros G gs HG HlG HG0. split; [by apply IsZeroGuid_eq|split; [by intros; apply CompareGuid_eq|]].
    intros l -> Hl Hal. assert (len (mjoin l) = len l * 16) as Hlen.
    { clear -Hl. induction Hl as [|x l Hx _ IH]; [done|].
      change (mjoin (x :: l)) with (x ++ mjoin l). rewrite length_app, Hx. cbn [length]. lia. }
    unfold ScanGuid. change 3 with (Z.ones 2). change 15 with (Z.ones 4). rewrite !Z.land_ones by lia.
    rewrite Hlen. change (2 ^ 4) with 16. rewrite Z.mod_mul, Z.div_mul by lia.
    massert. rewrite MASSERT_true; [|unfold MAX_ADDRESS; rewrite wrapU_id by (unfold inU; lia); apply Z.leb_le; lia].
    massert. rewrite Nat2Z.id. by apply scan_guid_first.
Qed.

Lemma Mem_search_witness :
  (exists r, CompareMem 64 64 44 8 bench_mem = Ok (r, bench_mem) /\ r = 1) /\
  (exists r, ScanMem16 64 64 8 0x0504 bench_mem = Ok (r, bench_mem) /\ found bench_mem 2 64 4 0x0504 r) /\
  IsZeroBuffer 64 64 8 bench_mem = Ok (false, bench_mem).
Proof.
  destruct (bench_mem_at 64 8 (Z.of_nat <$> seq 0 8)) as [Hb _]; [vm_compute; reflexivity|].
  destruct (bench_mem_at 44 8 (replicate 8 0)) as [Hs _]; [vm_compute; reflexivity|].
  destruct (Mem_search 64 64 (Z.of_nat <$> seq 0 8) bench_mem bench_mem_ok Hb) as (H1 & H2 & H3 & _); [by vm_compute..|].
  split; [|split].
  - destruct (H1 44 (replicate 8 0) Hs) as (r & E & _ & Hr); [by vm_compute..|]. exists r. split; [exact E|].
    apply (Hr 1%nat 1 0); by vm_compute.
  - apply (H2 2 (ScanMem16 64) 0x0504); [right; left; reflexivity|by vm_compute..].
  - exact H3.
Defined.

(** IsZeroBuffer on an empty buffer. *)
Example IsZeroBuffer_empty : IsZeroBuffer 64 64 0 bench_mem = AssertFail.
Proof. vm_compute. reflexivity. Qed.
