(* ===== verification/DevPath.v ===== *)
(** * DevPath: device paths

    MdePkg/Library/UefiDevicePathLib/DevicePathUtilities.c.  A device path is
    a sequence of nodes in memory, each with a type, a subtype and a 16-bit
    length, closed by an end node.  The functions that only read run on
    [Memory.mem]; the ones that allocate run on a [machine]: the memory, the
    pool blocks and the number of allocations so far.

    [DP_ENV] has the width of addresses, PcdMaximumDevicePathNodeCount and
    PcdMaximumUnicodeStringLength, the address of the constant
    mUefiDevicePathLibEndDevicePath, gBS->HandleProtocol for the device path
    protocol (NULL if the handle has none) and the pool:
    [pool_answer k m n] is the answer to the [k]-th request, of [n] bytes,
    when the memory is [m]: an address and what the new block contains.

    The loops over nodes have fuel for one turn per byte of memory and one
    more.  A loop that would not end runs out of it. *)

From stdpp Require Import base option list gmap fin_maps.
From Stdlib Require Import ZArith Lia.
From S2P Require Import Prelude BaseMath Memory.

Local Open Scope Z_scope.
Local Open Scope edk_scope.

Class DP_ENV := mkDpEnv {
  dpW : Z;
  PcdMaximumDevicePathNodeCount : Z;
  PcdMaximumUnicodeStringLength : Z;
  mUefiDevicePathLibEndDevicePath : Z;
  HandleDevicePath : Z -> Z;
  pool_answer : nat -> mem -> Z -> option (Z * list Z)
}.

(** ** Constants (Protocol/DevicePath.h) *)

Definition END_DEVICE_PATH_TYPE : Z := 0x7f.
Definition END_ENTIRE_DEVICE_PATH_SUBTYPE : Z := 0xFF.
Definition END_INSTANCE_DEVICE_PATH_SUBTYPE : Z := 0x01.
Definition END_DEVICE_PATH_LENGTH : Z := 4.
Definition MEDIA_DEVICE_PATH : Z := 0x04.
Definition MEDIA_FILEPATH_DP : Z := 0x04.
Definition SIZE_OF_FILEPATH_DEVICE_PATH : Z := 4.
Definition SIZE_64KB : Z := 0x10000.
(** [sizeof (EFI_DEVICE_PATH_PROTOCOL)] *)
Definition NODE_HEADER : Z := 4.

(** ** The machine *)

Record machine := mkMachine {
  ram : mem;
  blocks : gmap Z Z;
  pool_calls : nat
}.

Definition on_ram {A} (c : M mem A) : M machine A := fun s =>
  match c (ram s) with
  | Ok (a, m) => Ok (a, mkMachine m (blocks s) (pool_calls s))
  | AssertFail => AssertFail
  | Fault => Fault
  | OutOfFuel => OutOfFuel
  end.

(** A block disappears from memory. *)
Fixpoint unmap_block (a : Z) (n : nat) (m : mem) : mem :=
  match n with
  | O => m
  | S n' => unmap_block (a + 1) n' (delete a m)
  end.

Section DevicePath.
Context `{Env : DP_ENV}.

Definition AllocatePool (AllocationSize : Z) : M machine Z := fun s =>
  match pool_answer (pool_calls s) (ram s) AllocationSize with
  | None => Ok (0, mkMachine (ram s) (blocks s) (S (pool_calls s)))
  | Some (p, contents) =>
      Ok (p, mkMachine (blit p contents (ram s)) (<[p := AllocationSize]> (blocks s)) (S (pool_calls s)))
  end.

(** gBS->FreePool reports an error for what is not a pool block. *)
Definition FreePool (Buffer : Z) : M machine unit := fun s =>
  match blocks s !! Buffer with
  | None => AssertFail
  | Some n => Ok (tt, mkMachine (unmap_block Buffer (Z.to_nat n) (ram s)) (delete Buffer (blocks s)) (pool_calls s))
  end.

Definition AllocateZeroPool (AllocationSize : Z) : M machine Z :=
  let! Memory := AllocatePool AllocationSize in
  if negb (Memory =? 0) then on_ram (ZeroMem dpW Memory AllocationSize) else Mret Memory.

Definition AllocateCopyPool (AllocationSize Buffer : Z) : M machine Z :=
  MASSERT (negb (Buffer =? 0)) ;;;
  MASSERT (AllocationSize <=? wrapU dpW (MAX_ADDRESS dpW - Buffer + 1)) ;;;
  let! Memory := AllocatePool AllocationSize in
  if negb (Memory =? 0) then on_ram (CopyMem dpW Memory Buffer AllocationSize) else Mret Memory.

(** ** Nodes *)

Definition DevicePathType (Node : Z) : M mem Z :=
  MASSERT (negb (Node =? 0)) ;;; load 1 Node.
Definition DevicePathSubType (Node : Z) : M mem Z :=
  MASSERT (negb (Node =? 0)) ;;; load 1 (Node + 1).
Definition DevicePathNodeLength (Node : Z) : M mem Z :=
  MASSERT (negb (Node =? 0)) ;;; ReadUnaligned16 (Node + 2).
Definition NextDevicePathNode (Node : Z) : M mem Z :=
  MASSERT (negb (Node =? 0)) ;;;
  let! l := DevicePathNodeLength Node in
  Mret (Node + l).
Definition IsDevicePathEndType (Node : Z) : M mem bool :=
  MASSERT (negb (Node =? 0)) ;;;
  let! t := DevicePathType Node in
  Mret (t =? END_DEVICE_PATH_TYPE).
Definition IsDevicePathEnd (Node : Z) : M mem bool :=
  MASSERT (negb (Node =? 0)) ;;;
  let! e := IsDevicePathEndType Node in
  if e then let! t := DevicePathSubType Node in Mret (t =? END_ENTIRE_DEVICE_PATH_SUBTYPE)
  else Mret false.
Definition IsDevicePathEndInstance (Node : Z) : M mem bool :=
  MASSERT (negb (Node =? 0)) ;;;
  let! e := IsDevicePathEndType Node in
  if e then let! t := DevicePathSubType Node in Mret (t =? END_INSTANCE_DEVICE_PATH_SUBTYPE)
  else Mret false.

Definition SetDevicePathNodeLength (Node Length : Z) : M mem Z :=
  MASSERT (negb (Node =? 0)) ;;;
  MASSERT ((NODE_HEADER <=? Length) && (Length <? SIZE_64KB)) ;;;
  WriteUnaligned16 (Node + 2) (wrapU 16 Length).
Definition SetDevicePathEndNode (Node : Z) : M mem unit :=
  MASSERT (negb (Node =? 0)) ;;;
  CopyMem dpW Node mUefiDevicePathLibEndDevicePath NODE_HEADER ;;; Mret tt.

(** ** Validation *)

(** The body of the loop after the length checks: [None] for
    [return FALSE]. *)
Definition file_path_check (DevicePath NodeLength : Z) : M mem bool :=
  let! t := DevicePathType DevicePath in
  if negb (t =? MEDIA_DEVICE_PATH) then Mret true
  else
    let! st := DevicePathSubType DevicePath in
    if negb (st =? MEDIA_FILEPATH_DP) then Mret true
    else
      let! c := load 2 (DevicePath + NodeLength - 2) in
      Mret (c =? 0).

Fixpoint valid_loop (fuel : nat) (DevicePath MaxSize Count Size : Z) : M mem (option Z) :=
  let! e := IsDevicePathEnd DevicePath in
  if e then Mret (Some DevicePath)
  else
    match fuel with
    | O => Mfail OutOfFuel
    | S fuel' =>
        let! NodeLength := DevicePathNodeLength DevicePath in
        if NodeLength <? NODE_HEADER then Mret None
        else if MAX_UINTN dpW - Size <? NodeLength then Mret None
        else
          let Size := Size + NodeLength in
          if MaxSize - END_DEVICE_PATH_LENGTH <? Size then Mret None
          else
            let Count := if 0 <? PcdMaximumDevicePathNodeCount then Count + 1 else Count in
            if (0 <? PcdMaximumDevicePathNodeCount) && (PcdMaximumDevicePathNodeCount <=? Count) then Mret None
            else
              let! ok := file_path_check DevicePath NodeLength in
              if ok then
                let! DevicePath := NextDevicePathNode DevicePath in
                valid_loop fuel' DevicePath MaxSize Count Size
              else Mret None
    end.

(** One turn per byte of memory, and one more. *)
Definition turns (m : mem) : nat := S (size m).

Definition IsDevicePathValid (DevicePath MaxSize : Z) : M mem bool :=
  if (DevicePath =? 0) || ((0 <? MaxSize) && (MaxSize <? END_DEVICE_PATH_LENGTH)) then Mret false
  else
    let MaxSize := if MaxSize =? 0 then MAX_UINTN dpW else MaxSize in
    let! m := Mget in
    let! r := valid_loop (turns m) DevicePath MaxSize 0 0 in
    match r with
    | None => Mret false
    | Some DevicePath =>
        let! l := DevicePathNodeLength DevicePath in
        Mret (l =? END_DEVICE_PATH_LENGTH)
    end.

(** ** Walking *)

(** [while (!stop (DevicePath)) DevicePath = NextDevicePathNode (DevicePath);] *)
Fixpoint walk (fuel : nat) (stop : Z -> M mem bool) (DevicePath : Z) : M mem Z :=
  let! e := stop DevicePath in
  if e then Mret DevicePath
  else
    match fuel with
    | O => Mfail OutOfFuel
    | S fuel' => let! DevicePath := NextDevicePathNode DevicePath in walk fuel' stop DevicePath
    end.

Definition GetDevicePathSize (DevicePath : Z) : M mem Z :=
  if DevicePath =? 0 then Mret 0
  else
    let! valid := IsDevicePathValid DevicePath 0 in
    if negb valid then Mret 0
    else
      let! m := Mget in
      let! End := walk (turns m) IsDevicePathEnd DevicePath in
      let! l := DevicePathNodeLength End in
      Mret (wrapU dpW (wrapU dpW (End - DevicePath) + l)).

(** [while (!IsDevicePathEnd (Node)) { if (IsDevicePathEndInstance (Node))
    return TRUE; Node = NextDevicePathNode (Node); } return FALSE;] *)
Fixpoint multi_loop (fuel : nat) (Node : Z) : M mem bool :=
  let! e := IsDevicePathEnd Node in
  if e then Mret false
  else
    match fuel with
    | O => Mfail OutOfFuel
    | S fuel' =>
        let! i := IsDevicePathEndInstance Node in
        if i then Mret true
        else let! Node := NextDevicePathNode Node in multi_loop fuel' Node
    end.

Definition IsDevicePathMultiInstance (DevicePath : Z) : M mem bool :=
  if DevicePath =? 0 then Mret false
  else
    let! valid := IsDevicePathValid DevicePath 0 in
    if negb valid then Mret false
    else let! m := Mget in multi_loop (turns m) DevicePath.

(** ** Building *)

Definition DuplicateDevicePath (DevicePath : Z) : M machine Z :=
  let! Size := on_ram (GetDevicePathSize DevicePath) in
  if Size =? 0 then Mret 0
  else AllocateCopyPool Size DevicePath.

(** [!IsDevicePathValid (a, 0) || !IsDevicePathValid (b, 0)] *)
Definition either_invalid (a b : Z) : M mem bool :=
  let! va := IsDevicePathValid a 0 in
  if negb va then Mret true
  else let! vb := IsDevicePathValid b 0 in Mret (negb vb).

Definition AppendDevicePath (FirstDevicePath SecondDevicePath : Z) : M machine Z :=
  if FirstDevicePath =? 0 then
    DuplicateDevicePath (if negb (SecondDevicePath =? 0) then SecondDevicePath else mUefiDevicePathLibEndDevicePath)
  else if SecondDevicePath =? 0 then DuplicateDevicePath FirstDevicePath
  else
    let! bad := on_ram (either_invalid FirstDevicePath SecondDevicePath) in
    if bad then Mret 0
    else
      let! Size1 := on_ram (GetDevicePathSize FirstDevicePath) in
      let! Size2 := on_ram (GetDevicePathSize SecondDevicePath) in
      let Size := wrapU dpW (Size1 + Size2 - END_DEVICE_PATH_LENGTH) in
      let! NewDevicePath := AllocatePool Size in
      if negb (NewDevicePath =? 0) then
        let! NewDevicePath := on_ram (CopyMem dpW NewDevicePath FirstDevicePath Size1) in
        let DevicePath2 := NewDevicePath + (Size1 - END_DEVICE_PATH_LENGTH) in
        on_ram (CopyMem dpW DevicePath2 SecondDevicePath Size2) ;;;
        Mret NewDevicePath
      else Mret NewDevicePath.

Definition AppendDevicePathNode (DevicePath DevicePathNode : Z) : M machine Z :=
  if DevicePathNode =? 0 then
    DuplicateDevicePath (if negb (DevicePath =? 0) then DevicePath else mUefiDevicePathLibEndDevicePath)
  else
    let! NodeLength := on_ram (DevicePathNodeLength DevicePathNode) in
    let! TempDevicePath := AllocatePool (wrapU dpW (NodeLength + END_DEVICE_PATH_LENGTH)) in
    if TempDevicePath =? 0 then Mret 0
    else
      let! TempDevicePath := on_ram (CopyMem dpW TempDevicePath DevicePathNode NodeLength) in
      let! NextNode := on_ram (NextDevicePathNode TempDevicePath) in
      on_ram (SetDevicePathEndNode NextNode) ;;;
      let! NewDevicePath := AppendDevicePath DevicePath TempDevicePath in
      FreePool TempDevicePath ;;;
      Mret NewDevicePath.

Definition AppendDevicePathInstance (DevicePath DevicePathInstance : Z) : M machine Z :=
  if DevicePath =? 0 then DuplicateDevicePath DevicePathInstance
  else if DevicePathInstance =? 0 then Mret 0
  else
    let! bad := on_ram (either_invalid DevicePath DevicePathInstance) in
    if bad then Mret 0
    else
      let! SrcSize := on_ram (GetDevicePathSize DevicePath) in
      let! InstanceSize := on_ram (GetDevicePathSize DevicePathInstance) in
      let! NewDevicePath := AllocatePool (wrapU dpW (SrcSize + InstanceSize)) in
      if negb (NewDevicePath =? 0) then
        let! TempDevicePath := on_ram (CopyMem dpW NewDevicePath DevicePath SrcSize) in
        let! s := Mget in
        let! TempDevicePath := on_ram (walk (turns (ram s)) IsDevicePathEnd TempDevicePath) in
        on_ram (store 1 (TempDevicePath + 1) END_INSTANCE_DEVICE_PATH_SUBTYPE) ;;;
        let! TempDevicePath := on_ram (NextDevicePathNode TempDevicePath) in
        on_ram (CopyMem dpW TempDevicePath DevicePathInstance InstanceSize) ;;;
        Mret NewDevicePath
      else Mret NewDevicePath.

(** The parameters are what the pointers DevicePath and Size point to, [None]
    for NULL; the result is the return value with their new contents. *)
Definition GetNextDevicePathInstance (DevicePath Size : option Z) : M machine (Z * option Z * option Z) :=
  MASSERT (bool_decide (is_Some Size)) ;;;
  match DevicePath with
  | None => Mret (0, DevicePath, Some 0)
  | Some Path =>
      if Path =? 0 then Mret (0, DevicePath, Some 0)
      else
        let! valid := on_ram (IsDevicePathValid Path 0) in
        if negb valid then Mret (0, DevicePath, Size)
        else
          let! s := Mget in
          let! DevPath := on_ram (walk (turns (ram s)) IsDevicePathEndType Path) in
          let Size := wrapU dpW (wrapU dpW (DevPath - Path) + NODE_HEADER) in
          let! Temp := on_ram (load 1 (DevPath + 1)) in
          on_ram (store 1 (DevPath + 1) END_ENTIRE_DEVICE_PATH_SUBTYPE) ;;;
          let! ReturnValue := DuplicateDevicePath Path in
          on_ram (store 1 (DevPath + 1) Temp) ;;;
          let! st := on_ram (DevicePathSubType DevPath) in
          if st =? END_ENTIRE_DEVICE_PATH_SUBTYPE then Mret (ReturnValue, Some 0, Some Size)
          else
            let! Next := on_ram (NextDevicePathNode DevPath) in
            Mret (ReturnValue, Some Next, Some Size)
  end.

Definition CreateDeviceNode (NodeType NodeSubType NodeLength : Z) : M machine Z :=
  if NodeLength <? NODE_HEADER then Mret 0
  else
    let! DevicePath := AllocateZeroPool NodeLength in
    if negb (DevicePath =? 0) then
      on_ram (store 1 DevicePath NodeType) ;;;
      on_ram (store 1 (DevicePath + 1) NodeSubType) ;;;
      on_ram (SetDevicePathNodeLength DevicePath NodeLength) ;;;
      Mret DevicePath
    else Mret DevicePath.

(** ** File device paths *)

(** StrLen and StrSize of BaseLib/String.c. *)
Fixpoint str_loop (fuel : nat) (String Length : Z) : M mem Z :=
  let! c := load 2 String in
  if c =? 0 then Mret Length
  else
    match fuel with
    | O => Mfail OutOfFuel
    | S fuel' =>
        (if negb (PcdMaximumUnicodeStringLength =? 0)
         then MASSERT (Length <? PcdMaximumUnicodeStringLength) else Mret tt) ;;;
        str_loop fuel' (String + 2) (Length + 1)
    end.
Definition StrLen (String : Z) : M mem Z :=
  MASSERT (negb (String =? 0)) ;;;
  MASSERT (Z.land String 1 =? 0) ;;;
  let! m := Mget in
  str_loop (turns m) String 0.
Definition StrSize (String : Z) : M mem Z :=
  let! l := StrLen String in Mret ((l + 1) * 2).

(** DevicePathUtilitiesDxeSmm.c *)
Definition DevicePathFromHandle (Handle : Z) : Z := HandleDevicePath Handle.

Definition FileDevicePath (Device FileName : Z) : M machine Z :=
  let! Size := on_ram (StrSize FileName) in
  let! FileDevicePath := AllocatePool (wrapU dpW (Size + SIZE_OF_FILEPATH_DEVICE_PATH + END_DEVICE_PATH_LENGTH)) in
  if negb (FileDevicePath =? 0) then
    on_ram (store 1 FileDevicePath MEDIA_DEVICE_PATH) ;;;
    on_ram (store 1 (FileDevicePath + 1) MEDIA_FILEPATH_DP) ;;;
    on_ram (CopyMem dpW (FileDevicePath + 4) FileName Size) ;;;
    on_ram (SetDevicePathNodeLength FileDevicePath (Size + SIZE_OF_FILEPATH_DEVICE_PATH)) ;;;
    let! Next := on_ram (NextDevicePathNode FileDevicePath) in
    on_ram (SetDevicePathEndNode Next) ;;;
    let DevicePath := if negb (Device =? 0) then DevicePathFromHandle Device else 0 in
    let! DevicePath := AppendDevicePath DevicePath FileDevicePath in
    FreePool FileDevicePath ;;;
    Mret DevicePath
  else Mret 0.

End DevicePath.
