(* ===== verification/DevPathSpec.v ===== *)
(** * DevPathSpec: device paths as lists of nodes

    [encode ns] is the device path with the nodes [ns]; the functions of
    [DevPath] that read a path are computed for memory that holds one. *)

From stdpp Require Import base option list gmap fin_maps.
From Stdlib Require Import ZArith Lia.
From S2P Require Import Prelude BaseMath Memory MemSpec MemCopy DevPath.

Local Open Scope Z_scope.
Local Open Scope edk_scope.

(** ** The format *)

Record node := mkNode { n_type : Z; n_sub : Z; n_data : list Z }.
#[global] Instance node_eq_dec : EqDecision node.
Proof. solve_decision. Defined.

Definition node_len (n : node) : Z := 4 + len (n_data n).
Definition header (t st l : Z) : list Z := t :: st :: le_split 2 l.
Definition node_bytes (n : node) : list Z := header (n_type n) (n_sub n) (node_len n) ++ n_data n.
Definition path_bytes (ns : list node) : list Z := mjoin (node_bytes <$> ns).
Definition end_bytes : list Z := header 0x7f 0xff 4.
Definition encode (ns : list node) : list Z := path_bytes ns ++ end_bytes.

Definition is_end_type (n : node) : bool := n_type n =? 0x7f.
Definition is_end (n : node) : bool := is_end_type n && (n_sub n =? 0xff).
Definition is_instance (n : node) : bool := is_end_type n && (n_sub n =? 1).
Definition is_file (n : node) : bool := (n_type n =? 4) && (n_sub n =? 4).

(** A node that may stand in a path: its fields fit their widths, it does not
    end the path, and a file path node ends in a zero character. *)
Definition node_fits (n : node) : Prop :=
  inU 8 (n_type n) /\ inU 8 (n_sub n) /\ bytes_ok (n_data n) /\ node_len n < 65536.
Definition node_ok (n : node) : Prop :=
  node_fits n /\ is_end n = false /\
  (is_file n = true -> drop (2 + length (n_data n)) (node_bytes n) = [0; 0]).
#[global] Instance node_ok_dec n : Decision (node_ok n).
Proof. unfold node_ok, node_fits, inU, bytes_ok. apply _. Defined.
Definition path_ok (ns : list node) : Prop := Forall node_ok ns.

Lemma length_node_bytes n : length (node_bytes n) = (4 + length (n_data n))%nat.
Proof. done. Qed.
Lemma len_node_bytes n : len (node_bytes n) = node_len n.
Proof. rewrite length_node_bytes. unfold node_len. lia. Qed.
Lemma path_bytes_cons n ns : path_bytes (n :: ns) = node_bytes n ++ path_bytes ns.
Proof. done. Qed.
Lemma path_bytes_app ns ns' : path_bytes (ns ++ ns') = path_bytes ns ++ path_bytes ns'.
Proof. unfold path_bytes. by rewrite fmap_app, join_app. Qed.
Lemma encode_cons n ns : encode (n :: ns) = node_bytes n ++ encode ns.
Proof. unfold encode. by rewrite path_bytes_cons, app_assoc. Qed.
Lemma len_encode ns : len (encode ns) = len (path_bytes ns) + 4.
Proof. unfold encode. rewrite length_app. cbn [length end_bytes header le_split]. lia. Qed.
Lemma len_path_cons n ns : len (path_bytes (n :: ns)) = node_len n + len (path_bytes ns).
Proof. rewrite path_bytes_cons, length_app, <- len_node_bytes. lia. Qed.
Lemma len_path_bytes_ge ns : 4 * len ns <= len (path_bytes ns).
Proof.
  induction ns as [|n ns IH]; [done|]. rewrite len_path_cons. unfold node_len. cbn [length]. lia.
Qed.
Lemma node_len_pos n : 4 <= node_len n.
Proof. unfold node_len. lia. Qed.

Lemma node_bytes_ok n : node_fits n -> bytes_ok (node_bytes n).
Proof.
  intros (H1 & H2 & H3 & _). unfold node_bytes, header. constructor; [done|]. constructor; [done|].
  apply Forall_app. split; [apply le_split_ok|done].
Qed.

(** ** Headers in memory *)

(** A header with its length field. *)
Definition at_header (m : mem) (a t st l : Z) : Prop :=
  m !! a = Some t /\ m !! (a + 1) = Some st /\ at_bytes m (a + 2) (le_split 2 l).

Lemma at_bytes_header m a t st l : at_bytes m a (header t st l) <-> at_header m a t st l.
Proof.
  unfold header, at_header. rewrite !at_bytes_cons.
  replace (a + 1 + 1) with (a + 2) by lia. tauto.
Qed.
Lemma at_node_header m a n : at_bytes m a (node_bytes n) -> at_header m a (n_type n) (n_sub n) (node_len n).
Proof. intros H%at_bytes_app. apply at_bytes_header, H. Qed.

Section Readers.
Context `{Env : DP_ENV}.
Context (m : mem) (a t st l : Z).
Hypothesis Ha : 0 < a.
Hypothesis Hh : at_header m a t st l.

Lemma DevicePathType_at : DevicePathType a m = Ok (t, m).
Proof using Ha Hh. unfold DevicePathType. massert. apply load1_at, Hh. Qed.
Lemma DevicePathSubType_at : DevicePathSubType a m = Ok (st, m).
Proof using Ha Hh. unfold DevicePathSubType. massert. apply load1_at, Hh. Qed.
Lemma DevicePathNodeLength_at : 0 <= l < 65536 -> DevicePathNodeLength a m = Ok (l, m).
Proof using Ha Hh.
  intros Hl. unfold DevicePathNodeLength, ReadUnaligned16. massert.
  rewrite (ReadUnaligned_at 2 (a + 2) m (le_split 2 l)); [|lia|apply Hh|done].
  by rewrite le_combine_split.
Qed.
Lemma NextDevicePathNode_at : 0 <= l < 65536 -> NextDevicePathNode a m = Ok (a + l, m).
Proof using Ha Hh.
  intros Hl. unfold NextDevicePathNode. massert.
  by rewrite (Mbind_Ok _ _ _ _ _ (DevicePathNodeLength_at Hl)).
Qed.
Lemma IsDevicePathEndType_at : IsDevicePathEndType a m = Ok (t =? 0x7f, m).
Proof using Ha Hh.
  unfold IsDevicePathEndType. massert. by rewrite (Mbind_Ok _ _ _ _ _ DevicePathType_at).
Qed.
Lemma IsDevicePathEnd_at : IsDevicePathEnd a m = Ok ((t =? 0x7f) && (st =? 0xff), m).
Proof using Ha Hh.
  unfold IsDevicePathEnd. massert. run_step IsDevicePathEndType_at.
  destruct (t =? 0x7f); [|done]. by rewrite (Mbind_Ok _ _ _ _ _ DevicePathSubType_at).
Qed.
Lemma IsDevicePathEndInstance_at : IsDevicePathEndInstance a m = Ok ((t =? 0x7f) && (st =? 1), m).
Proof using Ha Hh.
  unfold IsDevicePathEndInstance. massert. run_step IsDevicePathEndType_at.
  destruct (t =? 0x7f); [|done]. by rewrite (Mbind_Ok _ _ _ _ _ DevicePathSubType_at).
Qed.
End Readers.

(** ** Fuel: every turn of a loop is at an address above the last *)

Definition above (a : Z) (m : mem) : nat := size (filter (fun kv => a <= kv.1) m).

Lemma above_lt a a' m : is_Some (m !! a) -> a < a' -> (above a' m < above a m)%nat.
Proof.
  intros [b Hb] Ha. unfold above. apply map_subset_size. split.
  - apply map_subseteq_spec. intros k x. rewrite !map_lookup_filter_Some. cbn. intros [H1 H2]. split; [done|lia].
  - intros Hs. assert (filter (fun kv => a <= kv.1) m !! a = Some b) as H
      by (apply map_lookup_filter_Some; split; [done|cbn; lia]).
    apply (lookup_weaken _ _ _ _ H) in Hs. clear H. rename Hs into H.
    apply map_lookup_filter_Some in H as [_ H]. cbn in H. lia.
Qed.
Lemma above_turns a m : (above a m < turns m)%nat.
Proof.
  unfold above, turns. apply Nat.lt_succ_r, map_subseteq_size, map_filter_subseteq.
Qed.

(** ** Walking over nodes *)

Section Walk.
Context `{Env : DP_ENV}.

Lemma node_next m a n :
  0 < a -> node_fits n -> at_bytes m a (node_bytes n) -> NextDevicePathNode a m = Ok (a + node_len n, m).
Proof.
  intros Ha (_ & _ & _ & Hl) Hn. pose proof (node_len_pos n).
  eapply NextDevicePathNode_at; [done|by apply at_node_header|lia].
Qed.

(** The walk passes the nodes where [stop] says no, up to one where it says
    yes. *)
Lemma walk_nodes stop f m a ns :
  0 < a -> Forall node_fits ns -> at_bytes m a (path_bytes ns) -> (above a m < f)%nat ->
  (forall b n, 0 < b -> n ∈ ns -> at_bytes m b (node_bytes n) -> stop b m = Ok (false, m)) ->
  stop (a + len (path_bytes ns)) m = Ok (true, m) ->
  walk f stop a m = Ok (a + len (path_bytes ns), m).
Proof.
  revert a f. induction ns as [|n ns IH]; intros a f Ha Hok Hat Hf Hno Hyes.
  - rewrite Z.add_0_r in *. destruct f; [lia|]. cbn [walk]. by rewrite (Mbind_Ok _ _ _ _ _ Hyes).
  - apply Forall_cons in Hok as [Hn Hns]. rewrite path_bytes_cons, at_bytes_app, len_node_bytes in Hat.
    destruct Hat as [Hat1 Hat2]. pose proof (node_len_pos n). rewrite len_path_cons, Z.add_assoc in Hyes |- *.
    destruct f as [|f]; [lia|]. cbn [walk].
    rewrite (Mbind_Ok _ _ _ _ _ (Hno a n Ha ltac:(by left) Hat1)). cbn beta iota.
    run_step (node_next m a n Ha Hn Hat1). apply IH; [lia|done|done| |intros b k Hb Hk; apply Hno; [done|by right]|done].
    apply Nat.lt_le_trans with (above a m); [|lia]. apply above_lt; [|lia].
    apply at_node_header in Hat1 as (-> & _). done.
Qed.

Lemma end_header m a ns : at_bytes m a (encode ns) -> at_header m (a + len (path_bytes ns)) 0x7f 0xff 4.
Proof. intros H%at_bytes_app. apply at_bytes_header, H. Qed.

Lemma walk_end m a ns :
  0 < a -> path_ok ns -> at_bytes m a (encode ns) ->
  walk (turns m) IsDevicePathEnd a m = Ok (a + len (path_bytes ns), m).
Proof.
  intros Ha Hok Hat. pose proof Hat as [Hp He]%at_bytes_app. apply walk_nodes; try done.
  - eapply Forall_impl; [exact Hok|]. by intros n [? _].
  - apply above_turns.
  - intros b n Hb Hn Hnb. rewrite (IsDevicePathEnd_at m b _ _ _ Hb (at_node_header _ _ _ Hnb)).
    apply (proj1 (Forall_forall _ _) Hok) in Hn as (_ & Hne & _). unfold is_end, is_end_type in Hne.
    by rewrite Hne.
  - by rewrite (IsDevicePathEnd_at m (a + len (path_bytes ns)) 0x7f 0xff 4 ltac:(lia) ltac:(by eapply end_header)).
Qed.
End Walk.
