(* ===== verification/DevPathValid.v ===== *)
(** * DevPathValid: what IsDevicePathValid accepts

    The bytes of a path determine its nodes, and IsDevicePathValid returns
    TRUE exactly on the bytes of well-formed paths. *)

From stdpp Require Import base option list gmap fin_maps.
From Stdlib Require Import ZArith Lia.
From S2P Require Import Prelude BaseMath Memory MemSpec MemCopy DevPath DevPathSpec.

Local Open Scope Z_scope.
Local Open Scope edk_scope.

(** ** The format is unambiguous *)

Lemma le_split_inj n v v' : 0 <= v < 256 ^ Z.of_nat n -> 0 <= v' < 256 ^ Z.of_nat n -> le_split n v = le_split n v' -> v = v'.
Proof. intros H H' E. rewrite <- (le_combine_split n v H), <- (le_combine_split n v' H'). by rewrite E. Qed.

Lemma node_bytes_parse n n' r r' :
  node_fits n -> node_fits n' -> node_bytes n ++ r = node_bytes n' ++ r' -> n = n' /\ r = r'.
Proof.
  intros (_ & _ & _ & Hl) (_ & _ & _ & Hl'). destruct n as [t s d], n' as [t' s' d'].
  pose proof (node_len_pos (mkNode t s d)) as P. pose proof (node_len_pos (mkNode t' s' d')) as P'.
  unfold node_bytes, header. cbn [n_type n_sub n_data app] in *. intros E.
  injection E as -> -> E0 E1 E2.
  assert (node_len (mkNode t' s' d) = node_len (mkNode t' s' d')) as El.
  { unfold node_len in *. cbn [n_data] in *. apply (le_split_inj 2); [cbn; lia|cbn; lia|]. cbn [le_split]. congruence. }
  unfold node_len in El. cbn [n_data] in El. apply app_inj_1 in E2; [|lia]. destruct E2 as [-> ->]. done.
Qed.

Lemma path_bytes_prefix ns ns' :
  Forall node_fits ns -> Forall node_fits ns' -> path_bytes ns `prefix_of` path_bytes ns' <-> ns `prefix_of` ns'.
Proof.
  intros H H'. split.
  - revert ns' H'. induction H as [|n ns Hn _ IH]; intros ns' H' Hp; [apply prefix_nil|].
    destruct Hp as [r Hr]. rewrite path_bytes_cons, <- app_assoc in Hr.
    destruct ns' as [|n' ns']; [by destruct (node_bytes n) eqn:E; [done|]|].
    apply Forall_cons in H' as [Hn' Hns']. rewrite path_bytes_cons in Hr.
    apply node_bytes_parse in Hr as [-> Hr]; [|done..]. apply prefix_cons, IH; [done|]. by exists r.
  - intros [k ->]. rewrite path_bytes_app. by apply prefix_app_r.
Qed.

Lemma end_not_node n r r' : node_fits n -> is_end n = false -> node_bytes n ++ r <> end_bytes ++ r'.
Proof.
  intros _ Hne E. unfold node_bytes, end_bytes, header in E. cbn [app] in E. injection E as E1 E2 _.
  unfold is_end, is_end_type in Hne. by rewrite E1, E2 in Hne.
Qed.

Lemma path_ok_fits ns : path_ok ns -> Forall node_fits ns.
Proof. intros H. eapply Forall_impl; [exact H|]. by intros n [? _]. Qed.

Lemma encode_inj ns ns' r r' : path_ok ns -> path_ok ns' -> encode ns ++ r = encode ns' ++ r' -> ns = ns' /\ r = r'.
Proof.
  intros H. revert ns'. induction H as [|n ns Hn _ IH]; intros ns' H' E; inversion H' as [|n' ns0 Hn' Hns']; subst.
  - by apply app_inv_head in E.
  - rewrite encode_cons, <- app_assoc in E. symmetry in E. by apply end_not_node in E; [..|apply Hn'|apply Hn'].
  - rewrite encode_cons, <- app_assoc in E. by apply end_not_node in E; [..|apply Hn|apply Hn].
  - rewrite !encode_cons, <- !app_assoc in E. apply node_bytes_parse in E as [-> E]; [|apply Hn|apply Hn'].
    apply IH in E as [-> ->]; done.
Qed.

Lemma at_bytes_prefix m a bs bs' :
  at_bytes m a bs -> at_bytes m a bs' -> (length bs <= length bs')%nat -> bs `prefix_of` bs'.
Proof.
  intros H H' Hl. exists (drop (length bs) bs'). rewrite <- (take_drop (length bs) bs') at 1. f_equal.
  rewrite <- (take_drop (length bs) bs'), at_bytes_app in H'. destruct H' as [H' _].
  eapply at_bytes_unique; [exact H'|exact H|]. rewrite length_take. lia.
Qed.

Lemma encode_unique m a ns ns' :
  path_ok ns -> path_ok ns' -> at_bytes m a (encode ns) -> at_bytes m a (encode ns') -> ns = ns'.
Proof.
  assert (forall ns ns', path_ok ns -> path_ok ns' -> at_bytes m a (encode ns) -> at_bytes m a (encode ns') ->
    (length (encode ns) <= length (encode ns'))%nat -> ns = ns') as Main.
  { intros x y Hx Hy Hax Hay Hl. destruct (at_bytes_prefix _ _ _ _ Hax Hay Hl) as [k Hk].
    rewrite <- (app_nil_r (encode y)) in Hk. symmetry. apply (encode_inj y x [] k); done. }
  intros H H' Ha Ha'. destruct (decide (length (encode ns) <= length (encode ns'))%nat); [by apply Main|].
  symmetry. apply Main; try done. lia.
Qed.

(** ** The loop *)

Section Valid.
Context `{Env : DP_ENV}.

(** The last two bytes of a node. *)
Lemma node_tail n : exists x y, drop (2 + length (n_data n)) (node_bytes n) = [x; y].
Proof.
  assert (length (drop (2 + length (n_data n)) (node_bytes n)) = 2%nat) as H
    by (rewrite length_drop, length_node_bytes; lia).
  destruct (drop _ _) as [|x [|y [|z l]]]; cbn in H; try lia. by exists x, y.
Qed.

Lemma file_path_check_at m a n :
  mem_ok m -> 0 < a -> at_bytes m a (node_bytes n) ->
  file_path_check a (node_len n) m =
  Ok (negb (is_file n) || bool_decide (drop (2 + length (n_data n)) (node_bytes n) = [0; 0]), m).
Proof.
  intros Hm Ha Hn. pose proof (at_node_header _ _ _ Hn) as Hh. unfold file_path_check, is_file.
  run_step (DevicePathType_at m a _ _ _ Ha Hh). change MEDIA_DEVICE_PATH with 4.
  destruct (n_type n =? 4); [|done]. cbn [negb andb].
  run_step (DevicePathSubType_at m a _ _ _ Ha Hh). change MEDIA_FILEPATH_DP with 4.
  destruct (n_sub n =? 4); [|done]. cbn [negb orb].
  destruct (node_tail n) as (x & y & Hxy). rewrite Hxy.
  assert (at_bytes m (a + node_len n - 2) [x; y]) as Hat.
  { rewrite <- (take_drop (2 + length (n_data n)) (node_bytes n)), Hxy, at_bytes_app in Hn.
    destruct Hn as [_ Hn]. rewrite length_take_le in Hn by (rewrite length_node_bytes; lia).
    by replace (a + node_len n - 2) with (a + Z.of_nat (2 + length (n_data n))) by (unfold node_len; lia). }
  rewrite (Mbind_Ok _ _ _ _ _ (load_at 2 _ _ _ Hat eq_refl)). unfold Mret.
  pose proof (at_bytes_ok _ _ _ Hm Hat) as Hb. apply Forall_cons in Hb as [Hx Hb]. apply Forall_cons in Hb as [Hy _].
  unfold inU in Hx, Hy. do 2 f_equal. apply eq_true_iff_eq. rewrite Z.eqb_eq, bool_decide_eq_true.
  cbn [le_combine]. split; [intros; f_equal; [lia|f_equal; lia]|intros [= -> ->]; lia].
Qed.

Definition count_ok (Count : Z) (ns : list node) : Prop :=
  0 < PcdMaximumDevicePathNodeCount -> ns = [] \/ Count + len ns < PcdMaximumDevicePathNodeCount.

Lemma valid_loop_path f m a ns Max Count Size :
  mem_ok m -> 0 < a -> path_ok ns -> at_bytes m a (encode ns) -> (above a m < f)%nat ->
  0 <= Size -> Size + len (encode ns) <= Max -> Max <= MAX_UINTN dpW -> count_ok Count ns ->
  valid_loop f a Max Count Size m = Ok (Some (a + len (path_bytes ns)), m).
Proof.
  intros Hm. revert f a Count Size. induction ns as [|n ns IH]; intros f a Count Size Ha Hok Hat Hf HS HMax HU Hc;
    (destruct f as [|f]; [lia|]); cbn [valid_loop].
  - pose proof (end_header _ _ _ Hat) as He. rewrite Z.add_0_r in *.
    by rewrite (Mbind_Ok _ _ _ _ _ (IsDevicePathEnd_at _ _ _ _ _ Ha He)).
  - apply Forall_cons in Hok as [Hn Hns]. rewrite encode_cons, at_bytes_app, len_node_bytes in Hat.
    destruct Hat as [Hat1 Hat2]. pose proof (at_node_header _ _ _ Hat1) as Hh. pose proof (node_len_pos n) as Hp.
    destruct Hn as (Hfit & Hne & Hfile). pose proof (proj2 (proj2 (proj2 Hfit))) as Hlen.
    rewrite len_encode, len_path_cons in HMax.
    run_step (IsDevicePathEnd_at _ _ _ _ _ Ha Hh). unfold is_end, is_end_type in Hne. rewrite Hne.
    run_step (DevicePathNodeLength_at _ _ _ _ _ Ha Hh ltac:(lia)).
    unfold NODE_HEADER, END_DEVICE_PATH_LENGTH.
    rewrite (proj2 (Z.ltb_ge _ _)) by lia. rewrite (proj2 (Z.ltb_ge _ _)) by lia. rewrite (proj2 (Z.ltb_ge _ _)) by lia.
    assert ((0 <? PcdMaximumDevicePathNodeCount) && (PcdMaximumDevicePathNodeCount <=?
      (if 0 <? PcdMaximumDevicePathNodeCount then Count + 1 else Count)) = false) as ->.
    { destruct (Z.ltb_spec 0 PcdMaximumDevicePathNodeCount) as [Hpcd|]; [|done]. cbn [andb].
      destruct (Hc Hpcd) as [|Hc']; [done|]. cbn [length] in Hc'. apply Z.leb_gt. lia. }
    run_step (file_path_check_at _ _ _ Hm Ha Hat1).
    assert (negb (is_file n) || bool_decide (drop (2 + length (n_data n)) (node_bytes n) = [0; 0]) = true) as ->.
    { destruct (is_file n); [|done]. by rewrite bool_decide_true by auto. }
    run_step (NextDevicePathNode_at _ _ _ _ _ Ha Hh ltac:(lia)).
    rewrite len_path_cons, Z.add_assoc. apply IH; try done; try lia.
    + pose proof (above_lt a (a + node_len n) m ltac:(destruct Hh as (-> & _); done) ltac:(lia)). lia.
    + rewrite len_encode. lia.
    + intros Hpcd. destruct (Hc Hpcd) as [|Hc']; [done|]. cbn [length] in Hc'.
      rewrite (proj2 (Z.ltb_lt _ _) Hpcd). right. lia.
Qed.

(** A header can be read off mapped memory. *)
Lemma mapped_header m a : mem_ok m -> mapped m a 4 -> exists t st l, at_header m a t st l /\ 0 <= l < 65536 /\ inU 8 t /\ inU 8 st.
Proof.
  intros Hm Hmp. destruct (mapped_at_bytes m a 4 Hmp) as (bs & Hb & Hl).
  destruct bs as [|t [|st [|x [|y [|]]]]]; cbn in Hl; try lia.
  pose proof (at_bytes_ok _ _ _ Hm Hb) as Hok.
  do 2 (apply Forall_cons in Hok as [? Hok]). exists t, st, (le_combine [x; y]).
  pose proof (le_combine_bound _ Hok) as Hbd. change (256 ^ len [x; y]) with 65536 in Hbd.
  split; [|done]. rewrite <- at_bytes_header. unfold header.
  change 2%nat with (length [x; y]). by rewrite (le_split_combine [x; y] Hok).
Qed.

Lemma mapped_node m a t st l :
  mem_ok m -> at_header m a t st l -> inU 8 t -> inU 8 st -> 4 <= l < 65536 -> mapped m a l ->
  exists d, at_bytes m a (node_bytes (mkNode t st d)) /\ node_len (mkNode t st d) = l /\ node_fits (mkNode t st d).
Proof.
  intros Hm Hh Ht Hst Hl Hmp. destruct (mapped_at_bytes m (a + 4) (Z.to_nat (l - 4))) as (d & Hd & Hld).
  { eapply mapped_sub; [exact Hmp|lia..]. }
  assert (node_len (mkNode t st d) = l) as Hlen by (unfold node_len; cbn; lia).
  exists d. split; [|split; [done|]].
  - unfold node_bytes. rewrite at_bytes_app, at_bytes_header, Hlen. done.
  - unfold node_fits. rewrite Hlen. cbn. split_and!; try done; [by eapply at_bytes_ok|lia].
Qed.

Lemma valid_loop_inv f m a Max Count Size :
  mem_ok m -> 0 < a -> (above a m < f)%nat -> 0 <= Size -> 4 <= Max - Size -> mapped m a (Max - Size) ->
  Max <= MAX_UINTN dpW ->
  exists r, valid_loop f a Max Count Size m = Ok (r, m) /\
    forall e, r = Some e -> exists ns l, path_ok ns /\ at_bytes m a (path_bytes ns) /\ e = a + len (path_bytes ns) /\
      at_header m e 0x7f 0xff l /\ 0 <= l < 65536 /\ Size + len (path_bytes ns) + 4 <= Max /\ count_ok Count ns.
Proof.
  intros Hm. revert a Count Size. induction f as [|f IH]; intros a Count Size Ha Hf HS H4 Hmp HU; [lia|].
  cbn [valid_loop]. destruct (mapped_header m a Hm) as (t & st & l & Hh & Hl & Ht & Hst).
  { eapply mapped_sub; [exact Hmp|lia..]. }
  run_step (IsDevicePathEnd_at _ _ _ _ _ Ha Hh).
  destruct ((t =? 0x7f) && (st =? 0xff)) eqn:Ee.
  { apply andb_true_iff in Ee as [->%Z.eqb_eq ->%Z.eqb_eq]. exists (Some a). split; [done|]. intros e [= <-].
    exists [], l. rewrite Z.add_0_r. split; [apply Forall_nil_2|]. split; [apply at_bytes_nil|].
    do 3 (split; [done|]). split; [cbn; lia|by left]. }
  run_step (DevicePathNodeLength_at _ _ _ _ _ Ha Hh ltac:(lia)). unfold NODE_HEADER, END_DEVICE_PATH_LENGTH.
  destruct (Z.ltb_spec l 4) as [|Hl4]; [by exists None|].
  destruct (Z.ltb_spec (MAX_UINTN dpW - Size) l); [by exists None|].
  destruct (Z.ltb_spec (Max - 4) (Size + l)); [by exists None|].
  destruct (_ && (PcdMaximumDevicePathNodeCount <=? _)) eqn:Ec; [by exists None|].
  destruct (mapped_node m a t st l Hm Hh Ht Hst ltac:(lia)) as (d & Hn & Hnl & Hfit).
  { eapply mapped_sub; [exact Hmp|lia..]. }
  set (n := mkNode t st d) in *. rewrite <- Hnl. run_step (file_path_check_at m a n Hm Ha Hn).
  destruct (negb (is_file n) || _) eqn:Efile; [|by exists None]. rewrite Hnl.
  run_step (NextDevicePathNode_at _ _ _ _ _ Ha Hh ltac:(lia)).
  set (Count' := if 0 <? PcdMaximumDevicePathNodeCount then Count + 1 else Count) in *.
  destruct (IH (a + l) Count' (Size + l)) as (r & E & Hr); [lia| |lia|lia| |done|].
  { pose proof (above_lt a (a + l) m ltac:(destruct Hh as (-> & _); done) ltac:(lia)). lia. }
  { eapply mapped_sub; [exact Hmp|lia..]. }
  exists r. split; [exact E|]. intros e Er. destruct (Hr e Er) as (ns & l' & H1 & H2 & -> & H5 & H6 & H7 & H8).
  exists (n :: ns), l'. rewrite len_path_cons, Hnl, path_bytes_cons, at_bytes_app, len_node_bytes, Hnl, Z.add_assoc.
  split_and!; try done; try lia.
  - constructor; [|done]. split; [done|]. split; [exact Ee|]. intros Hfl. rewrite Hfl in Efile. cbn in Efile.
    by apply bool_decide_eq_true in Efile.
  - intros Hpcd. right. subst Count'. rewrite (proj2 (Z.ltb_lt _ _) Hpcd) in Ec, H8. cbn [andb] in Ec. apply Z.leb_gt in Ec.
    destruct (H8 Hpcd) as [-> |]; cbn [length] in *; lia.
Qed.


(** ** Termination on any memory

    [reads c m P]: the run of [c] ends, changes nothing, and a result has
    [P]. *)
Definition reads {A} (c : M mem A) (m : mem) (P : A -> Prop) : Prop :=
  match c m with
  | Ok (v, m') => m' = m /\ P v
  | OutOfFuel => False
  | _ => True
  end.

Lemma reads_bind {A B} (c : M mem A) (k : A -> M mem B) m P Q :
  reads c m P -> (forall v, P v -> reads (k v) m Q) -> reads (Mbind c k) m Q.
Proof.
  unfold reads, Mbind. destruct (c m) as [[v m']| | |]; [|done..]. intros [-> Hv] Hk. exact (Hk v Hv).
Qed.
Lemma reads_ret {A} (v : A) m (P : A -> Prop) : P v -> reads (Mret v) m P.
Proof. done. Qed.
Lemma reads_assert b m : reads (MASSERT b) m (fun _ => True).
Proof. by destruct b. Qed.
Lemma reads_mono {A} (c : M mem A) m (P Q : A -> Prop) : reads c m P -> (forall v, P v -> Q v) -> reads c m Q.
Proof. unfold reads. destruct (c m) as [[v m']| | |]; try done. intros [-> ?]. auto. Qed.
Lemma load_bytes_fuel n a m : load_bytes n a m <> OutOfFuel.
Proof.
  revert a. induction n as [|n IH]; intros a; cbn [load_bytes]; [done|].
  destruct (m !! a); [|done]. specialize (IH (a + 1)). by destruct (load_bytes n (a + 1) m).
Qed.
Lemma reads_load n a m : (0 < n)%nat -> reads (load n a) m (fun _ => is_Some (m !! a)).
Proof.
  intros Hn. destruct n as [|n]; [lia|]. unfold reads, load. cbn [load_bytes].
  destruct (m !! a) eqn:E; [|done]. pose proof (load_bytes_fuel n (a + 1) m). by destruct (load_bytes n (a + 1) m).
Qed.
Lemma reads_known {A} (c : M mem A) m (P : A -> Prop) :
  reads c m P -> reads c m (fun v => P v /\ c m = Ok (v, m)).
Proof. unfold reads. destruct (c m) as [[v m']| | |]; try done. intros [-> ?]. auto. Qed.

Lemma reads_type a m : reads (DevicePathType a) m (fun _ => is_Some (m !! a)).
Proof. eapply reads_bind; [apply reads_assert|]. intros _ _. apply reads_load. lia. Qed.
Lemma reads_sub a m : reads (DevicePathSubType a) m (fun _ => True).
Proof.
  eapply reads_bind; [apply reads_assert|]. intros _ _. eapply reads_mono; [apply reads_load; lia|done].
Qed.
Lemma reads_length a m : reads (DevicePathNodeLength a) m (fun _ => True).
Proof.
  eapply reads_bind; [apply reads_assert|]. intros _ _. eapply reads_bind; [apply reads_assert|]. intros _ _.
  eapply reads_mono; [apply reads_load; lia|done].
Qed.
Lemma reads_next a m l : DevicePathNodeLength a m = Ok (l, m) -> reads (NextDevicePathNode a) m (fun v => v = a + l).
Proof.
  intros E. eapply reads_bind; [apply reads_assert|]. intros _ _.
  eapply (reads_bind _ _ _ (fun v => v = l)); [unfold reads; by rewrite E|]. by intros v ->.
Qed.
Lemma reads_end a m : reads (IsDevicePathEnd a) m (fun _ => is_Some (m !! a)).
Proof.
  eapply reads_bind; [apply reads_assert|]. intros _ _.
  eapply (reads_bind _ _ _ (fun _ => is_Some (m !! a))).
  - eapply reads_bind; [apply reads_assert|]. intros _ _. eapply reads_bind; [apply reads_type|]. by intros.
  - intros [] H; [|by apply reads_ret]. eapply reads_bind; [apply reads_sub|]. by intros.
Qed.
Lemma reads_file_path_check a l m : reads (file_path_check a l) m (fun _ => True).
Proof.
  eapply reads_bind; [apply reads_type|]. intros t _. destruct (negb _); [by apply reads_ret|].
  eapply reads_bind; [apply reads_sub|]. intros st _. destruct (negb _); [by apply reads_ret|].
  eapply reads_bind; [apply reads_load; lia|]. by intros.
Qed.

Lemma reads_valid_loop f m a Max Count Size :
  (above a m < f)%nat -> reads (valid_loop f a Max Count Size) m (fun _ => True).
Proof.
  revert a Count Size. induction f as [|f IH]; intros a Count Size Hf; [lia|]. cbn [valid_loop].
  eapply reads_bind; [apply reads_end|]. intros e Ha. destruct e; [by apply reads_ret|].
  eapply reads_bind; [apply reads_known, reads_length|]. intros l [_ El].
  unfold NODE_HEADER. destruct (Z.ltb_spec l 4); [by apply reads_ret|]. do 3 (case_match; [by apply reads_ret|]).
  eapply reads_bind; [apply reads_file_path_check|]. intros [] _; [|by apply reads_ret].
  eapply reads_bind; [by apply reads_next|]. intros ? ->. apply IH.
  pose proof (above_lt a (a + l) m Ha ltac:(lia)). lia.
Qed.

Lemma reads_valid m a MaxSize : reads (IsDevicePathValid a MaxSize) m (fun _ => True).
Proof.
  unfold IsDevicePathValid. destruct (_ || _); [by apply reads_ret|].
  eapply (reads_bind _ _ _ (fun v => v = m)); [done|]. intros ? ->.
  eapply reads_bind; [apply reads_valid_loop, above_turns|]. intros [] _; [|by apply reads_ret].
  eapply reads_bind; [apply reads_length|]. by intros.
Qed.

(** ** IsDevicePathValid *)

Lemma IsDevicePathValid_path m a ns MaxSize :
  mem_ok m -> 0 < a -> path_ok ns -> at_bytes m a (encode ns) -> count_ok 0 ns ->
  MaxSize = 0 /\ len (encode ns) < 2 ^ dpW \/ len (encode ns) <= MaxSize < 2 ^ dpW ->
  IsDevicePathValid a MaxSize m = Ok (true, m).
Proof.
  intros Hm Ha Hok Hat Hc Hsz. unfold IsDevicePathValid, END_DEVICE_PATH_LENGTH.
  pose proof (len_encode ns) as Hl.
  destruct (Z.eqb_spec a 0); [lia|].
  assert ((0 <? MaxSize) && (MaxSize <? 4) = false) as ->.
  { destruct (Z.ltb_spec 0 MaxSize), (Z.ltb_spec MaxSize 4); done || lia. }
  cbn [orb]. erewrite Mbind_Ok; [|done]. cbn beta.
  erewrite Mbind_Ok; [|apply valid_loop_path; try done; [apply above_turns| |]].
  - cbn beta iota. by erewrite Mbind_Ok; [|eapply DevicePathNodeLength_at; [|by eapply end_header|]; lia].
  - destruct (Z.eqb_spec MaxSize 0); unfold MAX_UINTN; lia.
  - destruct (Z.eqb_spec MaxSize 0); unfold MAX_UINTN; lia.
Qed.

Lemma IsDevicePathValid_inv m a MaxSize :
  mem_ok m -> 0 < a -> 4 <= MaxSize < 2 ^ dpW -> mapped m a MaxSize ->
  exists b, IsDevicePathValid a MaxSize m = Ok (b, m) /\
    (b = true -> exists ns, path_ok ns /\ at_bytes m a (encode ns) /\ len (encode ns) <= MaxSize /\ count_ok 0 ns).
Proof.
  intros Hm Ha Hsz Hmp. unfold IsDevicePathValid, END_DEVICE_PATH_LENGTH.
  destruct (Z.eqb_spec a 0); [lia|]. rewrite (proj2 (Z.ltb_ge MaxSize 4)), andb_false_r by lia. cbn [orb].
  destruct (Z.eqb_spec MaxSize 0); [lia|]. erewrite Mbind_Ok; [|done]. cbn beta.
  destruct (valid_loop_inv (turns m) m a MaxSize 0 0) as (r & E & Hr);
    [done|done|apply above_turns|lia|lia|by rewrite Z.sub_0_r|unfold MAX_UINTN; lia|].
  run_step E. destruct r as [e|]; [|by exists false].
  destruct (Hr e eq_refl) as (ns & l & H1 & H2 & -> & H4 & H5 & H6 & H7).
  run_step (DevicePathNodeLength_at m (a + len (path_bytes ns)) _ _ _ ltac:(pose proof (len_path_bytes_ge ns); lia) H4 H5).
  exists (l =? 4). split; [done|]. intros ->%Z.eqb_eq. exists ns. rewrite len_encode. split; [done|]. split; [|split; [lia|done]].
  unfold encode. rewrite at_bytes_app. split; [done|]. by apply at_bytes_header.
Qed.
End Valid.
