(* ===== verification/DevPathBuild.v ===== *)
(** * DevPathBuild: the functions that build device paths

    [made s bs r s']: the call returned NULL and changed nothing, or a new
    pool block with exactly the bytes [bs].  A pointer that may be NULL
    stands for a path by [path_at], NULL for the empty one. *)

From stdpp Require Import base option list gmap fin_maps.
From Stdlib Require Import ZArith Lia.
From S2P Require Import Prelude BaseMath Memory MemSpec MemCopy DevPath DevPathSpec DevPathValid.

Local Open Scope Z_scope.
Local Open Scope edk_scope.

(** ** The pool *)

(** What MemoryAllocationLib documents: a block of the requested size that
    overlaps nothing in use. *)
Class POOL_LAWS `{Env : DP_ENV} : Prop := {
  dpW_pos : 0 < dpW;
  pool_block k m n p c :
    pool_answer k m n = Some (p, c) -> 0 <= n < 2 ^ dpW ->
    len c = n /\ 0 < p /\ p + n <= 2 ^ dpW /\ bytes_ok c;
  pool_fresh k m n p c x :
    pool_answer k m n = Some (p, c) -> 0 <= n < 2 ^ dpW -> p <= x < p + n -> m !! x = None
}.

Definition fresh (m : mem) (p n : Z) : Prop := forall x, p <= x < p + n -> m !! x = None.

Lemma blit_fresh_sub m p bs : fresh m p (len bs) -> m ⊆ blit p bs m.
Proof.
  intros H. apply map_subseteq_spec. intros x b Hx. rewrite lookup_blit_out; [done|].
  intros Hr. by rewrite H in Hx.
Qed.
Lemma at_bytes_fresh m p bs a bs' : fresh m p (len bs) -> at_bytes m a bs' -> at_bytes (blit p bs m) a bs'.
Proof. intros H. by apply at_bytes_mono, blit_fresh_sub. Qed.
(** What was in use is not in a fresh block. *)
Lemma at_bytes_confined m m' p n a bs :
  fresh m p n -> (forall x, ~ (p <= x < p + n) -> m' !! x = m !! x) -> at_bytes m a bs -> at_bytes m' a bs.
Proof.
  intros Hf Hc Hb i b Hi. apply Hb in Hi as Hm. rewrite Hc; [done|]. intros Hx. by rewrite Hf in Hm.
Qed.
Lemma blit_over m p bs bs' : length bs' = length bs -> blit p bs' (blit p bs m) = blit p bs' m.
Proof.
  intros Hl. apply map_eq. intros x. rewrite !lookup_blit, Hl. repeat case_decide; done.
Qed.
Lemma lookup_unmap a n m x : unmap_block a n m !! x = if decide (a <= x < a + Z.of_nat n) then None else m !! x.
Proof.
  revert a m. induction n as [|n IH]; intros a m; cbn [unmap_block].
  - case_decide; [lia|done].
  - rewrite IH. destruct (decide (x = a)) as [->|].
    + rewrite lookup_delete_eq. case_decide; case_decide; done || lia.
    + rewrite lookup_delete_ne by done. case_decide; case_decide; done || lia.
Qed.

(** Unmapping a block that was fresh when it was mapped. *)
Lemma unmap_blit m p c : fresh m p (len c) -> unmap_block p (length c) (blit p c m) = m.
Proof.
  intros H. apply map_eq. intros x. rewrite lookup_unmap, lookup_blit. case_decide as E; [|done].
  symmetry. by apply H.
Qed.
Lemma unmap_blit_under m p c r bs :
  fresh m p (len c) -> r + len bs <= p \/ p + len c <= r ->
  unmap_block p (length c) (blit r bs (blit p c m)) = blit r bs m.
Proof.
  intros H Hd. apply map_eq. intros x. rewrite lookup_unmap, !lookup_blit.
  repeat case_decide; try lia; try done. symmetry. by apply H.
Qed.

Section Build.
Context `{Env : DP_ENV} {Laws : POOL_LAWS}.
Implicit Types (s : machine) (m : mem).

Lemma on_ram_Ok {A} (c : M mem A) s a m : c (ram s) = Ok (a, m) -> on_ram c s = Ok (a, mkMachine m (blocks s) (pool_calls s)).
Proof. unfold on_ram. by intros ->. Qed.
Lemma on_ram_read {A} (c : M mem A) s a : c (ram s) = Ok (a, ram s) -> on_ram c s = Ok (a, s).
Proof. unfold on_ram. intros ->. by destruct s. Qed.

Definition pool_fails : Prop := exists k m n, pool_answer k m n = None.

(** Everything but the number of pool calls. *)
Definition same_machine s s' : Prop := ram s' = ram s /\ blocks s' = blocks s.

Definition made s (bs : list Z) (r : Z) s' : Prop :=
  (r = 0 /\ same_machine s s' /\ pool_fails) \/
  (0 < r /\ r + len bs <= 2 ^ dpW /\ fresh (ram s) r (len bs) /\
   ram s' = blit r bs (ram s) /\ blocks s' = <[r := len bs]> (blocks s)).

Lemma made_mono s bs r s' : made s bs r s' -> ram s ⊆ ram s'.
Proof. intros [(_ & [-> _] & _)|(_ & _ & H & -> & _)]; [done|by apply blit_fresh_sub]. Qed.
Lemma made_bytes s bs r s' : made s bs r s' -> r <> 0 -> at_bytes (ram s') r bs.
Proof. intros [(-> & _)|(_ & _ & _ & -> & _)] ?; [done|apply at_bytes_blit]. Qed.
Lemma made_ok s bs r s' : mem_ok (ram s) -> bytes_ok bs -> made s bs r s' -> mem_ok (ram s').
Proof. intros Hm Hb [(_ & [-> _] & _)|(_ & _ & _ & -> & _)]; [done|by apply mem_ok_blit]. Qed.

(** What an allocation does. *)
Lemma AllocatePool_cases n s :
  0 <= n < 2 ^ dpW ->
  (exists s', AllocatePool n s = Ok (0, s') /\ same_machine s s' /\ pool_fails) \/
  (exists p c s', AllocatePool n s = Ok (p, s') /\ 0 < p /\ p + n <= 2 ^ dpW /\ len c = n /\ bytes_ok c /\
     fresh (ram s) p n /\ ram s' = blit p c (ram s) /\ blocks s' = <[p := n]> (blocks s)).
Proof.
  intros Hn. unfold AllocatePool. destruct (pool_answer (pool_calls s) (ram s) n) as [[p c]|] eqn:E.
  - right. destruct (pool_block _ _ _ _ _ E Hn) as (H1 & H2 & H3 & H4).
    eexists p, c, _. split; [done|]. split_and!; try done. intros x. by apply (pool_fresh _ _ _ _ _ _ E Hn).
  - left. eexists. split; [done|]. split; [done|]. by exists (pool_calls s), (ram s), n.
Qed.

(** ** Reading a path *)

Definition valid_at m a (ns : list node) : Prop :=
  0 < a /\ path_ok ns /\ at_bytes m a (encode ns) /\ count_ok 0 ns /\ a + len (encode ns) <= 2 ^ dpW.

Lemma valid_at_mono m m' a ns : m ⊆ m' -> valid_at m a ns -> valid_at m' a ns.
Proof. intros Hs (H1 & H2 & H3 & H4 & H5). split_and!; try done. by eapply at_bytes_mono. Qed.

Lemma valid_at_valid m a ns : mem_ok m -> valid_at m a ns -> IsDevicePathValid a 0 m = Ok (true, m).
Proof.
  intros Hm (H1 & H2 & H3 & H4 & H5). eapply IsDevicePathValid_path; try done. left. split; [done|lia].
Qed.

Lemma GetDevicePathSize_path m a ns : mem_ok m -> valid_at m a ns -> GetDevicePathSize a m = Ok (len (encode ns), m).
Proof.
  intros Hm Hv. pose proof (valid_at_valid _ _ _ Hm Hv) as E. destruct Hv as (H1 & H2 & H3 & H4 & H5).
  rewrite len_encode in H5. unfold GetDevicePathSize. destruct (Z.eqb_spec a 0); [lia|]. run_step E. cbn [negb].
  erewrite Mbind_Ok; [|done]. cbn beta. run_step (walk_end m a ns H1 H2 H3).
  run_step (DevicePathNodeLength_at m (a + len (path_bytes ns)) _ _ _ ltac:(lia) (end_header _ _ _ H3) ltac:(lia)).
  unfold Mret. rewrite len_encode. replace (a + len (path_bytes ns) - a) with (len (path_bytes ns)) by lia.
  rewrite !(wrapU_id dpW) by (rewrite ?wrapU_id by (unfold inU; lia); unfold inU; lia). done.
Qed.

Lemma GetDevicePathSize_invalid m a :
  a = 0 \/ IsDevicePathValid a 0 m = Ok (false, m) -> GetDevicePathSize a m = Ok (0, m).
Proof.
  intros [->|E]; [done|]. unfold GetDevicePathSize. destruct (a =? 0); [done|]. by rewrite (Mbind_Ok _ _ _ _ _ E).
Qed.

Lemma multi_loop_path f m a ns :
  0 < a -> path_ok ns -> at_bytes m a (encode ns) -> (above a m < f)%nat ->
  multi_loop f a m = Ok (existsb is_instance ns, m).
Proof.
  revert f a. induction ns as [|n ns IH]; intros f a Ha Hok Hat Hf; (destruct f as [|f]; [lia|]); cbn [multi_loop].
  - pose proof (end_header _ _ _ Hat) as He. rewrite Z.add_0_r in He.
    by rewrite (Mbind_Ok _ _ _ _ _ (IsDevicePathEnd_at _ _ _ _ _ Ha He)).
  - apply Forall_cons in Hok as [(Hfit & Hne & _) Hns]. rewrite encode_cons, at_bytes_app, len_node_bytes in Hat.
    destruct Hat as [Hat1 Hat2]. pose proof (at_node_header _ _ _ Hat1) as Hh. pose proof (node_len_pos n) as Hp.
    run_step (IsDevicePathEnd_at _ _ _ _ _ Ha Hh). unfold is_end, is_end_type in Hne. rewrite Hne.
    run_step (IsDevicePathEndInstance_at _ _ _ _ _ Ha Hh). cbn [existsb].
    change ((n_type n =? 0x7f) && (n_sub n =? 1)) with (is_instance n).
    destruct (is_instance n); [done|]. run_step (node_next m a n Ha Hfit Hat1). apply IH; try done; [lia|].
    pose proof (above_lt a (a + node_len n) m ltac:(destruct Hh as (-> & _); done) ltac:(lia)). lia.
Qed.

Lemma IsDevicePathMultiInstance_path m a ns :
  mem_ok m -> valid_at m a ns -> IsDevicePathMultiInstance a m = Ok (existsb is_instance ns, m).
Proof.
  intros Hm Hv. pose proof (valid_at_valid _ _ _ Hm Hv) as E. destruct Hv as (H1 & H2 & H3 & _).
  unfold IsDevicePathMultiInstance. destruct (Z.eqb_spec a 0); [lia|]. run_step E. cbn [negb].
  erewrite Mbind_Ok; [|done]. apply multi_loop_path; try done. apply above_turns.
Qed.

(** ** Copies *)

Lemma copy_into_block m p c bs a :
  mem_ok m -> bytes_ok c -> fresh m p (len c) -> at_bytes m a bs -> (length bs <= length c)%nat ->
  p + len c <= 2 ^ dpW -> 0 < p -> 0 <= a -> a + len bs <= 2 ^ dpW ->
  CopyMem dpW p a (len bs) (blit p c m) = Ok (p, blit p bs (blit p c m)).
Proof.
  intros Hm Hc Hf Hb Hl Hp Hp0 Ha Hab. apply CopyMem_blit.
  - by apply mem_ok_blit.
  - by apply at_bytes_fresh.
  - eapply mapped_sub; [apply at_bytes_mapped, at_bytes_blit|lia..].
  - lia.
  - lia.
  - lia.
Qed.

Lemma AllocateCopyPool_made s bs a :
  mem_ok (ram s) -> at_bytes (ram s) a bs -> 0 < a -> a + len bs <= 2 ^ dpW ->
  exists r s', AllocateCopyPool (len bs) a s = Ok (r, s') /\ made s bs r s'.
Proof.
  intros Hm Hb Ha Hab. unfold AllocateCopyPool, MAX_ADDRESS. massert.
  rewrite MASSERT_true by (rewrite wrapU_id by (unfold inU; lia); apply Z.leb_le; lia).
  destruct (AllocatePool_cases (len bs) s) as [(s' & E & Hs & Hf)|(p & c & s' & E & Hp & Hpn & Hc & Hcb & Hfr & Hr & Hbl)]; [lia| |].
  - run_step E. exists 0, s'. split; [done|]. by left.
  - run_step E. destruct (Z.eqb_spec p 0); [lia|]. cbn [negb].
    exists p. eexists. split.
    + apply on_ram_Ok. rewrite Hr. apply copy_into_block; try done; try lia. by rewrite Hc.
    + right. split_and!; try done. cbn [ram]. apply blit_over. lia.
Qed.

Lemma DuplicateDevicePath_made s a ns :
  mem_ok (ram s) -> valid_at (ram s) a ns ->
  exists r s', DuplicateDevicePath a s = Ok (r, s') /\ made s (encode ns) r s'.
Proof.
  intros Hm Hv. unfold DuplicateDevicePath. run_step (on_ram_read _ s _ (GetDevicePathSize_path _ _ _ Hm Hv)).
  pose proof (len_encode ns). destruct (Z.eqb_spec (len (encode ns)) 0); [lia|].
  destruct Hv as (H1 & H2 & H3 & H4 & H5). by apply AllocateCopyPool_made.
Qed.

Lemma DuplicateDevicePath_invalid s a :
  a = 0 \/ IsDevicePathValid a 0 (ram s) = Ok (false, ram s) -> DuplicateDevicePath a s = Ok (0, s).
Proof.
  intros H. unfold DuplicateDevicePath. by rewrite (Mbind_Ok _ _ _ _ _ (on_ram_read _ s _ (GetDevicePathSize_invalid _ _ H))).
Qed.

(** ** Appending *)

(** The pointer [a], if not NULL, points to the path [ns]. *)
Definition path_at m a (ns : list node) : Prop := (a = 0 /\ ns = []) \/ valid_at m a ns.

Definition end_at m : Prop :=
  0 < mUefiDevicePathLibEndDevicePath /\ at_bytes m mUefiDevicePathLibEndDevicePath end_bytes /\
  mUefiDevicePathLibEndDevicePath + 4 <= 2 ^ dpW.

Lemma end_valid m : end_at m -> valid_at m mUefiDevicePathLibEndDevicePath [].
Proof. intros (H1 & H2 & H3). split_and!; try done; [by apply Forall_nil_2|by left]. Qed.

Lemma either_invalid_path m a b ns1 ns2 :
  mem_ok m -> valid_at m a ns1 -> valid_at m b ns2 -> either_invalid a b m = Ok (false, m).
Proof.
  intros Hm H1 H2. unfold either_invalid. run_step (valid_at_valid _ _ _ Hm H1). cbn [negb].
  by rewrite (Mbind_Ok _ _ _ _ _ (valid_at_valid _ _ _ Hm H2)).
Qed.

(** Bytes written from the start of a block, and again from the middle on. *)
Lemma blit_two m p c x y z :
  (length (x ++ y) <= length (x ++ z))%nat -> length c = length (x ++ z) ->
  blit (p + len x) z (blit p (x ++ y) (blit p c m)) = blit p (x ++ z) m.
Proof.
  intros Hl Hc. rewrite !length_app in *. apply map_eq. intros w. rewrite !lookup_blit, !length_app, Hc.
  repeat case_decide; try lia; try done.
  - rewrite lookup_app_r by lia. f_equal. lia.
  - rewrite !lookup_app_l by lia. done.
Qed.

Lemma AppendDevicePath_both s a b ns1 ns2 :
  mem_ok (ram s) -> valid_at (ram s) a ns1 -> valid_at (ram s) b ns2 -> len (encode (ns1 ++ ns2)) < 2 ^ dpW ->
  exists r s', AppendDevicePath a b s = Ok (r, s') /\ made s (encode (ns1 ++ ns2)) r s'.
Proof.
  intros Hm H1 H2 Hsz. unfold AppendDevicePath. pose proof H1 as (Ha & _ & Hata & _ & Haw). pose proof H2 as (Hb & _ & Hatb & _ & Hbw).
  destruct (Z.eqb_spec a 0); [lia|]. destruct (Z.eqb_spec b 0); [lia|].
  run_step (on_ram_read _ s _ (either_invalid_path _ _ _ _ _ Hm H1 H2)).
  run_step (on_ram_read _ s _ (GetDevicePathSize_path _ _ _ Hm H1)).
  run_step (on_ram_read _ s _ (GetDevicePathSize_path _ _ _ Hm H2)).
  assert (encode (ns1 ++ ns2) = path_bytes ns1 ++ encode ns2) as Eenc
    by (unfold encode; by rewrite path_bytes_app, app_assoc).
  pose proof (len_encode ns1) as L1. pose proof (len_encode ns2) as L2.
  assert (len (encode (ns1 ++ ns2)) = len (path_bytes ns1) + len (encode ns2)) as L3 by (rewrite Eenc, length_app; lia).
  replace (wrapU dpW (len (encode ns1) + len (encode ns2) - END_DEVICE_PATH_LENGTH)) with (len (encode (ns1 ++ ns2)))
    by (rewrite wrapU_id; unfold inU, END_DEVICE_PATH_LENGTH; lia).
  destruct (AllocatePool_cases (len (encode (ns1 ++ ns2))) s) as [(s' & E & Hs & Hf)|(p & c & s' & E & Hp & Hpn & Hc & Hcb & Hfr & Hr & Hbl)]; [lia| |].
  - run_step E. exists 0, s'. split; [done|]. by left.
  - run_step E. destruct (Z.eqb_spec p 0); [lia|]. cbn [negb]. rewrite <- Hc in Hfr.
    assert (bytes_ok (encode ns1)) as Hb1 by (by eapply at_bytes_ok).
    erewrite Mbind_Ok; [|apply on_ram_Ok; rewrite Hr; apply copy_into_block; try done; lia]. cbn beta.
    set (m2 := blit p (encode ns1) (blit p c (ram s))).
    assert (CopyMem dpW (p + (len (encode ns1) - END_DEVICE_PATH_LENGTH)) b (len (encode ns2)) m2 =
      Ok (p + len (path_bytes ns1), blit (p + len (path_bytes ns1)) (encode ns2) m2)) as Ecopy.
    { unfold END_DEVICE_PATH_LENGTH. replace (len (encode ns1) - 4) with (len (path_bytes ns1)) by lia.
      apply CopyMem_blit; try lia.
      - by apply mem_ok_blit; [apply mem_ok_blit|].
      - eapply at_bytes_confined; [exact Hfr| |exact Hatb].
        intros x Hx. subst m2. rewrite !lookup_blit_out by lia. done.
      - apply mapped_blit. eapply mapped_sub; [apply at_bytes_mapped, at_bytes_blit|lia..]. }
    erewrite Mbind_Ok; [|apply on_ram_Ok; exact Ecopy]. exists p. eexists. split; [done|].
    right. split_and!; try done; [by rewrite <- Hc|]. cbn [ram]. subst m2. rewrite Eenc. unfold encode at 2.
    apply blit_two; rewrite <- ?Eenc, ?length_app; [|lia]. cbn [length end_bytes header le_split]. lia.
Qed.

Lemma AppendDevicePath_made s a b ns1 ns2 :
  mem_ok (ram s) -> end_at (ram s) -> path_at (ram s) a ns1 -> path_at (ram s) b ns2 ->
  len (encode (ns1 ++ ns2)) < 2 ^ dpW ->
  exists r s', AppendDevicePath a b s = Ok (r, s') /\ made s (encode (ns1 ++ ns2)) r s'.
Proof.
  intros Hm He [[-> ->]|H1] [[-> ->]|H2] Hsz.
  - unfold AppendDevicePath. cbn [Z.eqb negb app]. apply DuplicateDevicePath_made; [done|by apply end_valid].
  - unfold AppendDevicePath. pose proof H2 as (Hb & _). destruct (Z.eqb_spec b 0); [lia|]. cbn [negb].
    by apply DuplicateDevicePath_made.
  - unfold AppendDevicePath. pose proof H1 as (Ha & _). destruct (Z.eqb_spec a 0); [lia|]. cbn [Z.eqb].
    rewrite app_nil_r. by apply DuplicateDevicePath_made.
  - by apply AppendDevicePath_both.
Qed.
End Build.
