(* ===== verification/DevPathOps.v ===== *)
(** * DevPathOps: nodes and instances

    Appending a node, appending and splitting off device path instances,
    creating a node and building the path of a file. *)

From stdpp Require Import base option list gmap fin_maps.
From Stdlib Require Import ZArith Lia.
From S2P Require Import Prelude BaseMath Memory MemSpec MemCopy DevPath DevPathSpec DevPathValid DevPathBuild.

Local Open Scope Z_scope.
Local Open Scope edk_scope.

Section Ops.
Context `{Env : DP_ENV} {Laws : POOL_LAWS}.
Implicit Types (s : machine) (m : mem).

Lemma encode_one n : encode [n] = node_bytes n ++ end_bytes.
Proof. unfold encode, path_bytes. cbn. by rewrite app_nil_r. Qed.

Lemma encode_bytes_ok ns : path_ok ns -> bytes_ok (encode ns).
Proof.
  intros H. apply Forall_app. split; [|by_decide].
  induction H as [|n ns Hn _ IH]; [by apply Forall_nil_2|]. rewrite path_bytes_cons. apply Forall_app.
  split; [apply node_bytes_ok, Hn|done].
Qed.
Lemma SetDevicePathEndNode_blit m a :
  mem_ok m -> end_at m -> 0 < a -> mapped m a 4 -> a + 4 <= 2 ^ dpW ->
  SetDevicePathEndNode a m = Ok (tt, blit a end_bytes m).
Proof.
  intros Hm (H1 & H2 & H3) Ha Hmp Haw. unfold SetDevicePathEndNode. massert.
  change NODE_HEADER with (len end_bytes). erewrite Mbind_Ok; [|by apply CopyMem_blit; try (cbn; lia)]. done.
Qed.

Lemma end_at_mono m m' : m ⊆ m' -> end_at m -> end_at m'.
Proof. intros Hs (H1 & H2 & H3). split_and!; try done. by eapply at_bytes_mono. Qed.
Lemma path_at_mono m m' a ns : m ⊆ m' -> path_at m a ns -> path_at m' a ns.
Proof. intros Hs [H|H]; [by left|right; by eapply valid_at_mono]. Qed.

(** ** Machines

    The memory holds bytes and the constant end node, and the pool blocks are
    memory in use. *)
Definition machine_ok s : Prop :=
  mem_ok (ram s) /\ end_at (ram s) /\
  (forall p n, blocks s !! p = Some n -> 0 < n /\ mapped (ram s) p n).

Lemma mapped_mono m m' a n : m ⊆ m' -> mapped m a n -> mapped m' a n.
Proof. intros Hs H x Hx. destruct (H x Hx) as [b Hb]. exists b. by eapply lookup_weaken. Qed.

Lemma made_machine_ok s bs r s' :
  machine_ok s -> bytes_ok bs -> (0 < length bs)%nat -> made s bs r s' -> machine_ok s'.
Proof.
  intros (H1 & H2 & H3) Hb Hl Hm. pose proof (made_mono _ _ _ _ Hm) as Hs.
  split; [by eapply made_ok|]. split; [by eapply end_at_mono|].
  intros p n Hp. destruct Hm as [(_ & [E1 E2] & _)|(Hr & _ & _ & E1 & E2)].
  - rewrite E1. rewrite E2 in Hp. by apply H3.
  - rewrite E2 in Hp. destruct (decide (p = r)) as [->|].
    + rewrite lookup_insert_eq in Hp. injection Hp as <-. split; [lia|]. rewrite E1. apply at_bytes_mapped, at_bytes_blit.
    + rewrite lookup_insert_ne in Hp by done. destruct (H3 _ _ Hp). split; [done|]. by eapply mapped_mono.
Qed.

Lemma fresh_no_block s p n : machine_ok s -> fresh (ram s) p n -> 0 < n -> blocks s !! p = None.
Proof.
  intros (_ & _ & H) Hf Hn. destruct (blocks s !! p) as [k|] eqn:E; [|done].
  apply H in E as [Hk Hm]. destruct (Hm p) as [b Hb]; [lia|]. by rewrite Hf in Hb by lia.
Qed.

(** ** Building next to a temporary block

    A block was made, a path is built from it, and the block is freed: what
    is left is the path. *)
Lemma made_then_free s c p s1 bs r s2 :
  machine_ok s -> fresh (ram s) p (len c) -> ram s1 = blit p c (ram s) -> blocks s1 = <[p := len c]> (blocks s) ->
  (0 < length c)%nat -> (0 < length bs)%nat -> made s1 bs r s2 ->
  exists s3, FreePool p s2 = Ok (tt, s3) /\ made s bs r s3.
Proof.
  intros Hok Hf Hr Hb Hc Hbs Hm. pose proof (fresh_no_block _ _ _ Hok Hf ltac:(lia)) as Hnb.
  assert (Z.to_nat (len c) = length c) as Hlc by lia. unfold FreePool.
  destruct Hm as [(-> & [E1 E2] & Hfail)|(Hr0 & Hrw & Hfr & E1 & E2)].
  - rewrite E2, Hb, lookup_insert_eq. eexists. split; [done|]. left. split; [done|]. split; [|done].
    split; cbn [ram blocks]; [by rewrite E1, Hr, Hlc, unmap_blit|by rewrite delete_insert_id].
  - assert (r + len bs <= p \/ p + len c <= r) as Hdis.
    { destruct (decide (r + len bs <= p)); [by left|]. destruct (decide (p + len c <= r)); [by right|]. exfalso.
      pose proof (Hfr (Z.max p r) ltac:(lia)) as Hx. rewrite Hr, lookup_blit_in in Hx by lia.
      apply lookup_ge_None in Hx. lia. }
    rewrite E2, lookup_insert_ne, Hb, lookup_insert_eq by lia. eexists. split; [done|]. right.
    split_and!; try done; cbn [ram blocks].
    + intros x Hx. pose proof (Hfr x Hx) as Hn. rewrite Hr, lookup_blit_out in Hn; [done|lia].
    + by rewrite E1, Hr, Hlc, unmap_blit_under.
    + rewrite delete_insert_ne, delete_insert_id by (done || lia). done.
Qed.

(** ** AppendDevicePathNode *)

(** The path of one node in the temporary block is appended, and the block
    freed. *)
Lemma append_temp s s2 p n a ns :
  machine_ok s -> fresh (ram s) p (len (encode [n])) -> 0 < p -> p + len (encode [n]) <= 2 ^ dpW ->
  ram s2 = blit p (encode [n]) (ram s) -> blocks s2 = <[p := len (encode [n])]> (blocks s) ->
  node_ok n -> count_ok 0 [n] -> path_at (ram s) a ns -> len (encode (ns ++ [n])) < 2 ^ dpW ->
  exists r s', (let! NewDevicePath := AppendDevicePath a p in FreePool p ;;; Mret NewDevicePath) s2 = Ok (r, s') /\
    made s (encode (ns ++ [n])) r s'.
Proof.
  intros Hok Hfr Hp Hpn Hr2 Hb2 Hn Hc Ha Hsz. pose proof Hok as (Hm & He & _).
  assert (ram s ⊆ ram s2) as Hsub by (rewrite Hr2; by apply blit_fresh_sub).
  pose proof (len_encode [n]). pose proof (len_encode (ns ++ [n])).
  destruct (AppendDevicePath_made s2 a p ns [n]) as (r & s3 & E3 & Hmade).
  - rewrite Hr2. apply mem_ok_blit; [done|]. apply encode_bytes_ok. by constructor.
  - by eapply end_at_mono.
  - by eapply path_at_mono.
  - right. rewrite Hr2. split_and!; [done|by constructor|apply at_bytes_blit|done|lia].
  - done.
  - run_step E3. destruct (made_then_free s (encode [n]) p s2 (encode (ns ++ [n])) r s3 Hok Hfr) as (s4 & E4 & Hm4); try done; [lia|lia|].
    run_step E4. by exists r, s4.
Qed.

Definition node_at m a (o : list node) : Prop :=
  (a = 0 /\ o = []) \/
  (exists n, o = [n] /\ 0 < a /\ node_ok n /\ at_bytes m a (node_bytes n) /\ count_ok 0 [n] /\ a + node_len n <= 2 ^ dpW).

Lemma AppendDevicePathNode_made s a b ns o :
  machine_ok s -> path_at (ram s) a ns -> node_at (ram s) b o -> len (encode (ns ++ o)) < 2 ^ dpW -> 65540 <= 2 ^ dpW ->
  exists r s', AppendDevicePathNode a b s = Ok (r, s') /\ made s (encode (ns ++ o)) r s'.
Proof.
  intros Hok Ha Hb Hsz HW. pose proof Hok as (Hm & He & _). unfold AppendDevicePathNode.
  destruct Hb as [[-> ->]|(n & -> & Hb & Hn & Hat & Hc & Hbw)].
  { rewrite app_nil_r. cbn [Z.eqb]. destruct Ha as [[-> ->]|Ha].
    - cbn [Z.eqb negb]. apply DuplicateDevicePath_made; [done|by apply end_valid].
    - pose proof Ha as (Ha0 & _). destruct (Z.eqb_spec a 0); [lia|]. cbn [negb]. by apply DuplicateDevicePath_made. }
  destruct (Z.eqb_spec b 0); [lia|]. pose proof (node_len_pos n) as Hp. pose proof (proj2 (proj2 (proj2 (proj1 Hn)))) as Hlen.
  run_step (on_ram_read _ s _ (DevicePathNodeLength_at _ _ _ _ _ Hb (at_node_header _ _ _ Hat) ltac:(lia))).
  unfold END_DEVICE_PATH_LENGTH. rewrite wrapU_id by (unfold inU; lia).
  destruct (AllocatePool_cases (node_len n + 4) s) as [(s' & E & Hs & Hf)|(p & c & s' & E & Hp0 & Hpn & Hlc & Hcb & Hfr & Hr & Hbl)]; [lia| |].
  { run_step E. exists 0, s'. split; [done|]. by left. }
  run_step E. destruct (Z.eqb_spec p 0); [lia|]. rewrite <- Hlc in Hfr.
  pose proof (node_bytes_ok n (proj1 Hn)) as Hnb. rewrite <- len_node_bytes in *.
  erewrite Mbind_Ok; [|apply on_ram_Ok; rewrite Hr; apply copy_into_block; try done; lia]. cbn beta.
  set (m2 := blit p (node_bytes n) (blit p c (ram s))).
  assert (at_bytes m2 p (node_bytes n)) as Hat2 by apply at_bytes_blit.
  erewrite Mbind_Ok; [|apply on_ram_read; cbn [ram]; by apply (node_next m2 p n Hp0 (proj1 Hn))]. cbn beta.
  rewrite <- len_node_bytes.
  assert (end_at m2) as He2.
  { destruct He as (E1 & E2 & E3). split_and!; try done. eapply at_bytes_confined; [exact Hfr| |exact E2].
    intros x Hx. subst m2. by rewrite !lookup_blit_out by lia. }
  erewrite Mbind_Ok; [|apply on_ram_Ok; cbn [ram]; apply SetDevicePathEndNode_blit; [by apply mem_ok_blit; [apply mem_ok_blit|]|done|lia| |lia]].
  2:{ apply mapped_blit. eapply mapped_sub; [apply at_bytes_mapped, at_bytes_blit|lia..]. }
  assert (blit (p + len (node_bytes n)) end_bytes m2 = blit p (encode [n]) (ram s)) as ->.
  { rewrite encode_one. subst m2. rewrite <- (app_nil_r (node_bytes n)) at 2.
    apply blit_two; rewrite ?length_app; cbn [length end_bytes header le_split]; lia. }
  cbn [blocks pool_calls].
  assert (len c = len (encode [n])) as Hlc'
    by (rewrite len_encode, len_path_cons, <- len_node_bytes; change (path_bytes []) with (@nil Z); cbn [length]; lia).
  rewrite Hlc' in Hfr. apply append_temp; try done; [lia|]. cbn [blocks]. rewrite Hbl. f_equal. lia.
Qed.

(** ** Instances *)

(** The end-of-instance node. *)
Definition instance_end : node := mkNode 0x7f 1 [].
Lemma instance_end_ok : node_ok instance_end.
Proof. by_decide. Qed.

Lemma store1_blit a v m : is_Some (m !! a) -> inU 8 v -> store 1 a v m = Ok (tt, blit a [v] m).
Proof.
  intros Ha Hv. rewrite store_blit.
  - cbn [le_split]. unfold inU in Hv. change (2 ^ 8) with 256 in Hv. by rewrite Z.mod_small.
  - intros x Hx. by replace x with a by lia.
Qed.

(** Changing the second byte of a header. *)
Lemma blit_sub p x t st st' r m :
  blit (p + len x + 1) [st'] (blit p (x ++ t :: st :: r) m) = blit p (x ++ t :: st' :: r) m.
Proof.
  apply map_eq. intros w. rewrite !lookup_blit, !length_app. cbn [length].
  destruct (decide (w = p + len x + 1)) as [->|].
  - rewrite !decide_True by lia. rewrite lookup_app_r by lia.
    by replace (Z.to_nat (p + len x + 1 - (p + len x + 1))) with 0%nat by lia;
       replace (Z.to_nat (p + len x + 1 - p) - length x)%nat with 1%nat by lia.
  - case_decide; [lia|]. case_decide; [|done].
    destruct (decide (w - p < len x)); [by rewrite !lookup_app_l by lia|].
    rewrite !lookup_app_r by lia. destruct (Z.to_nat (w - p) - length x)%nat as [|[|k]] eqn:E; [done|lia|done].
Qed.

Lemma AppendDevicePathInstance_made s a b ns1 ns2 :
  machine_ok s -> valid_at (ram s) a ns1 -> valid_at (ram s) b ns2 ->
  len (encode (ns1 ++ instance_end :: ns2)) < 2 ^ dpW ->
  exists r s', AppendDevicePathInstance a b s = Ok (r, s') /\ made s (encode (ns1 ++ instance_end :: ns2)) r s'.
Proof.
  intros Hok H1 H2 Hsz. pose proof Hok as (Hm & _). unfold AppendDevicePathInstance.
  pose proof H1 as (Ha & Hok1 & Hata & _ & Haw). pose proof H2 as (Hb & Hok2 & Hatb & _ & Hbw).
  destruct (Z.eqb_spec a 0); [lia|]. destruct (Z.eqb_spec b 0); [lia|].
  run_step (on_ram_read _ s _ (either_invalid_path _ _ _ _ _ Hm H1 H2)).
  run_step (on_ram_read _ s _ (GetDevicePathSize_path _ _ _ Hm H1)).
  run_step (on_ram_read _ s _ (GetDevicePathSize_path _ _ _ Hm H2)).
  set (ie := [0x7f; 1; 4; 0]).
  assert (encode (ns1 ++ instance_end :: ns2) = (path_bytes ns1 ++ ie) ++ encode ns2) as Eenc.
  { unfold encode. rewrite path_bytes_app, path_bytes_cons, <- !app_assoc. done. }
  pose proof (len_encode ns1) as L1.
  assert (len (encode (ns1 ++ instance_end :: ns2)) = len (encode ns1) + len (encode ns2)) as L3.
  { rewrite Eenc, !length_app. cbn [length ie]. lia. }
  rewrite (wrapU_id dpW) by (unfold inU; lia). rewrite <- L3.
  destruct (AllocatePool_cases (len (encode (ns1 ++ instance_end :: ns2))) s)
    as [(s' & E & Hs & Hf)|(p & c & s' & E & Hp & Hpn & Hc & Hcb & Hfr & Hr & Hbl)]; [lia| |].
  { run_step E. exists 0, s'. split; [done|]. by left. }
  run_step E. destruct (Z.eqb_spec p 0); [lia|]. cbn [negb]. rewrite <- Hc in Hfr.
  assert (bytes_ok (encode ns1)) as Hb1 by (by eapply at_bytes_ok).
  erewrite Mbind_Ok; [|apply on_ram_Ok; rewrite Hr; apply copy_into_block; try done; lia]. cbn beta.
  set (m2 := blit p (encode ns1) (blit p c (ram s))).
  erewrite Mbind_Ok; [|done]. cbn beta. cbn [ram].
  assert (at_bytes m2 p (encode ns1)) as Hat2 by apply at_bytes_blit.
  erewrite Mbind_Ok; [|apply on_ram_read; cbn [ram]; by apply (walk_end m2 p ns1)]. cbn beta.
  set (e := p + len (path_bytes ns1)).
  pose proof (end_header _ _ _ Hat2) as He2. fold e in He2.
  erewrite Mbind_Ok; [|apply on_ram_Ok; cbn [ram]; apply store1_blit; [destruct He2 as (_ & -> & _); done|done]].
  assert (blit (e + 1) [END_INSTANCE_DEVICE_PATH_SUBTYPE] m2 = blit p (path_bytes ns1 ++ ie) (blit p c (ram s))) as ->.
  { subst m2 e. apply blit_sub. }
  cbn [blocks pool_calls]. set (m3 := blit p (path_bytes ns1 ++ ie) (blit p c (ram s))).
  assert (at_header m3 e 0x7f 1 4) as He3.
  { apply at_bytes_header. subst m3 e. pose proof (at_bytes_blit (blit p c (ram s)) p (path_bytes ns1 ++ ie)) as H.
    by apply at_bytes_app in H as [_ H]. }
  erewrite Mbind_Ok; [|apply on_ram_read; cbn [ram]; eapply NextDevicePathNode_at; [|exact He3|]; lia]. cbn beta.
  assert (e + 4 = p + len (path_bytes ns1 ++ ie)) as Ee by (subst e; rewrite length_app; cbn [length ie]; lia).
  rewrite Ee.
  erewrite Mbind_Ok; [|apply on_ram_Ok; cbn [ram]; apply CopyMem_blit].
  - exists p. eexists. split; [done|]. right. split_and!; try done; [by rewrite <- Hc|]. cbn [ram]. rewrite Eenc. subst m3.
    rewrite <- (app_nil_r (path_bytes ns1 ++ ie)) at 2. apply blit_two; rewrite ?length_app in *; cbn [length ie] in *; lia.
  - subst m3. apply mem_ok_blit; [by apply mem_ok_blit|].
    apply (Forall_app _ (path_bytes ns1) ie). split; [by apply Forall_app in Hb1 as [? _]|by_decide].
  - eapply at_bytes_confined; [exact Hfr| |exact Hatb].
    intros x Hx. subst m3. rewrite !lookup_blit_out; [done|lia|rewrite length_app; cbn [length ie]; lia].
  - subst m3. apply mapped_blit. eapply mapped_sub; [apply at_bytes_mapped, at_bytes_blit|rewrite ?length_app; cbn [length ie]; lia..].
  - lia.
  - rewrite length_app. cbn [length ie]. lia.
  - lia.
Qed.

(** ** Splitting off the first instance *)

Definition single (i : list node) : Prop := Forall (fun n => is_end_type n = false) i.

(** The first instance of a path and what follows it. *)
Inductive first_instance : list node -> list node -> option (list node) -> Prop :=
| only_instance i : single i -> first_instance i i None
| more_instances i e rest :
    single i -> is_end_type e = true -> n_data e = [] -> first_instance (i ++ e :: rest) i (Some rest).

Lemma count_ok_app ns ns' : count_ok 0 (ns ++ ns') -> count_ok 0 ns.
Proof.
  intros H Hp. destruct (H Hp) as [[-> _]%app_eq_nil|Hl]; [by left|]. right. rewrite length_app in Hl. lia.
Qed.
Lemma count_ok_tail ns ns' : count_ok 0 (ns ++ ns') -> count_ok 0 ns'.
Proof.
  intros H Hp. destruct (H Hp) as [[_ ->]%app_eq_nil|Hl]; [by left|]. right. rewrite length_app in Hl. lia.
Qed.

(** A byte is set, a path is made, and the byte is set back. *)
Lemma made_restore s d st v bs r s2 :
  ram s !! d = Some st -> inU 8 st ->
  made (mkMachine (blit d [v] (ram s)) (blocks s) (pool_calls s)) bs r s2 ->
  exists s3, on_ram (store 1 d st) s2 = Ok (tt, s3) /\ made s bs r s3.
Proof.
  intros Hd Hst Hm. pose proof (made_mono _ _ _ _ Hm) as Hsub. cbn [ram] in Hsub.
  assert (ram s2 !! d = Some v) as Hd2.
  { eapply lookup_weaken; [|exact Hsub]. rewrite lookup_blit_in by (cbn; lia). by rewrite Z.sub_diag. }
  eexists. split; [apply on_ram_Ok, store1_blit; [by rewrite Hd2|done]|].
  destruct Hm as [(-> & [E1 E2] & Hf)|(Hr & Hrw & Hfr & E1 & E2)]; cbn [ram blocks] in *.
  - left. split; [done|]. split; [|done]. split; cbn [ram blocks]; [|done]. rewrite E1, blit_over by done.
    apply blit_same. rewrite at_bytes_cons. split; [done|apply at_bytes_nil].
  - assert (forall x, r <= x < r + len bs -> x <> d) as Hne.
    { intros x Hx ->. specialize (Hfr d Hx). rewrite lookup_blit_in in Hfr by (cbn; lia). by rewrite Z.sub_diag in Hfr. }
    right. split_and!; try done; cbn [ram].
    + intros x Hx. specialize (Hfr x Hx). rewrite lookup_blit_out in Hfr; [done|]. specialize (Hne x Hx). cbn [length]. lia.
    + rewrite E1. apply map_eq. intros x. rewrite (lookup_blit d). cbn [length]. case_decide as Hx.
      * assert (x = d) as -> by lia. rewrite Z.sub_diag, lookup_blit_out; [by rewrite Hd|]. intros Hr'. by apply (Hne d).
      * rewrite (lookup_blit r), (lookup_blit r). case_decide; [done|]. by rewrite lookup_blit_out by (cbn [length]; lia).
Qed.

Lemma GetNextDevicePathInstance_header s a i st z :
  machine_ok s -> 0 < a -> path_ok i -> single i -> count_ok 0 i -> a + len (encode i) <= 2 ^ dpW ->
  at_bytes (ram s) a (path_bytes i ++ header 0x7f st 4) -> inU 8 st ->
  IsDevicePathValid a 0 (ram s) = Ok (true, ram s) ->
  exists r s', GetNextDevicePathInstance (Some a) (Some z) s =
    Ok ((r, Some (if st =? 0xff then 0 else a + len (encode i)), Some (len (encode i))), s') /\ made s (encode i) r s'.
Proof.
  intros Hok Ha Hi Hs Hc Haw Hat Hst Hval. pose proof Hok as (Hm & _). pose proof (len_encode i) as Li.
  apply at_bytes_app in Hat as [Hat1 Hat2]. set (d := a + len (path_bytes i)) in *.
  pose proof (proj1 (at_bytes_header _ _ _ _ _) Hat2) as Hh.
  unfold GetNextDevicePathInstance. rewrite MASSERT_true by done. destruct (Z.eqb_spec a 0) as [|_]; [lia|].
  run_step (on_ram_read _ s _ Hval). cbn [negb]. erewrite Mbind_Ok; [|done]. cbn beta.
  assert (walk (turns (ram s)) IsDevicePathEndType a (ram s) = Ok (d, ram s)) as Ew.
  { apply walk_nodes; try done; [by apply path_ok_fits|apply above_turns| |].
    - intros b n Hb Hn Hnb. rewrite (IsDevicePathEndType_at _ b _ _ _ Hb (at_node_header _ _ _ Hnb)).
      apply (proj1 (Forall_forall _ _) Hs) in Hn. unfold is_end_type in Hn. by rewrite Hn.
    - fold d. by rewrite (IsDevicePathEndType_at _ d _ _ _ ltac:(lia) Hh). }
  run_step (on_ram_read _ s _ Ew). replace (d - a) with (len (path_bytes i)) by lia. unfold NODE_HEADER.
  rewrite (wrapU_id dpW (len (path_bytes i))), (wrapU_id dpW), <- Li by (unfold inU; lia).
  destruct Hh as (Hh1 & Hh2 & Hh3). run_step (on_ram_read _ s _ (load1_at _ _ _ Hh2)).
  erewrite Mbind_Ok; [|apply on_ram_Ok, store1_blit; [by rewrite Hh2|done]].
  set (m1 := blit (d + 1) [END_ENTIRE_DEVICE_PATH_SUBTYPE] (ram s)).
  set (s1 := mkMachine m1 (blocks s) (pool_calls s)).
  assert (valid_at m1 a i) as Hv1.
  { split_and!; try done. unfold encode. rewrite at_bytes_app. fold d. split; [apply at_bytes_blit_other; [done|cbn; lia]|].
    unfold end_bytes. apply at_bytes_header. split; [|split].
    - unfold m1. by rewrite lookup_blit_out by (cbn; lia).
    - unfold m1. rewrite lookup_blit_in by (cbn; lia). by rewrite Z.sub_diag.
    - apply at_bytes_blit_other; [done|cbn; lia]. }
  assert (mem_ok m1) as Hm1 by (apply mem_ok_blit; [done|by_decide]).
  destruct (DuplicateDevicePath_made s1 a i Hm1 Hv1) as (r & s2 & E2 & Hmade). run_step E2.
  destruct (made_restore s (d + 1) st _ _ _ _ Hh2 Hst Hmade) as (s3 & E3 & Hmade3). run_step E3.
  assert (at_header (ram s3) d 0x7f st 4) as Hh'.
  { apply at_bytes_header. eapply at_bytes_mono; [by eapply made_mono|done]. }
  run_step (on_ram_read _ s3 _ (DevicePathSubType_at _ d _ _ _ ltac:(lia) Hh')).
  unfold END_ENTIRE_DEVICE_PATH_SUBTYPE. exists r, s3. split; [|done].
  destruct (st =? 255); [done|].
  run_step (on_ram_read _ s3 _ (NextDevicePathNode_at _ d _ _ _ ltac:(lia) Hh' ltac:(lia))).
  unfold Mret. by replace (d + 4) with (a + len (encode i)) by lia.
Qed.

Lemma GetNextDevicePathInstance_made s a ns i o z :
  machine_ok s -> valid_at (ram s) a ns -> first_instance ns i o ->
  exists r next s', GetNextDevicePathInstance (Some a) (Some z) s = Ok ((r, Some next, Some (len (encode i))), s') /\
    made s (encode i) r s' /\
    match o with None => next = 0 | Some rest => next = a + len (encode i) /\ valid_at (ram s') next rest end.
Proof.
  intros Hok Hv Hfi. pose proof Hok as (Hm & _). pose proof (valid_at_valid _ _ _ Hm Hv) as Hval.
  destruct Hv as (Ha & Hpo & Hat & Hc & Haw). pose proof (len_encode i) as Li.
  inversion Hfi as [i' Hs|i' e rest Hs He Hd]; subst.
  - destruct (GetNextDevicePathInstance_header s a i 0xff z) as (r & s' & E & Hmade); try done.
    by exists r, 0, s'.
  - pose proof Hpo as [Hpi Hpe]%Forall_app. apply Forall_cons in Hpe as [Hpe Hprest].
    destruct e as [t st d]. cbn in He, Hd. subst d. apply Z.eqb_eq in He as Ht. cbn in Ht. subst t.
    assert ((st =? 0xff) = false) as Hst by (by destruct Hpe as (_ & Hne & _)).
    pose proof (proj1 (proj2 (proj1 Hpe))) as Hst8. cbn in Hst8.
    assert (encode (i ++ mkNode 0x7f st [] :: rest) = (path_bytes i ++ header 0x7f st 4) ++ encode rest) as Eenc.
    { unfold encode. rewrite path_bytes_app, path_bytes_cons, <- !app_assoc. done. }
    rewrite Eenc, at_bytes_app in Hat. destruct Hat as [Hat1 Hat2]. rewrite Eenc, length_app in Haw.
    assert (len (path_bytes i ++ header 0x7f st 4) = len (encode i)) as Ll by (rewrite Li, length_app; cbn; lia).
    rewrite Ll in Hat2.
    destruct (GetNextDevicePathInstance_header s a i st z) as (r & s' & E & Hmade); try done; [by eapply count_ok_app|lia|].
    rewrite Hst in E. exists r, (a + len (encode i)), s'. split; [done|]. split; [done|]. split; [done|].
    split_and!; [lia|done|eapply at_bytes_mono; [by eapply made_mono|done]| |lia].
    apply (count_ok_tail (i ++ [mkNode 0x7f st []])). by rewrite <- app_assoc.
Qed.

(** ** New nodes *)

Lemma AllocateZeroPool_made s n :
  machine_ok s -> 0 < n < 2 ^ dpW ->
  exists r s', AllocateZeroPool n s = Ok (r, s') /\ made s (replicate (Z.to_nat n) 0) r s'.
Proof.
  intros (Hm & _) Hn. unfold AllocateZeroPool.
  destruct (AllocatePool_cases n s) as [(s' & E & Hs & Hf)|(p & c & s' & E & Hp & Hpn & Hc & Hcb & Hfr & Hr & Hbl)]; [lia| |].
  { run_step E. exists 0, s'. split; [done|]. by left. }
  run_step E. destruct (Z.eqb_spec p 0); [lia|]. cbn [negb].
  assert (ZeroMem dpW p n (ram s') = Ok (p, blit p (replicate (Z.to_nat n) 0) (ram s'))) as Ez.
  { unfold ZeroMem, InternalMemZeroMem. destruct (Z.eqb_spec n 0); [lia|]. massert.
    rewrite MASSERT_true by (unfold MAX_ADDRESS; rewrite wrapU_id by (unfold inU; lia); apply Z.leb_le; lia).
    rewrite <- (Z2Nat.id n) at 1 by lia. apply InternalMemSetMem_blit; [done|].
    rewrite Hr. eapply mapped_sub; [apply at_bytes_mapped, at_bytes_blit|lia..]. }
  exists p. eexists. split; [by apply on_ram_Ok|].
  right. rewrite length_replicate, Z2Nat.id by lia. split_and!; try done. cbn [ram]. rewrite Hr. apply blit_over.
  rewrite length_replicate. lia.
Qed.

Lemma SetDevicePathNodeLength_blit m a l :
  0 < a -> 4 <= l < 65536 -> mapped m (a + 2) 2 ->
  SetDevicePathNodeLength a l m = Ok (l, blit (a + 2) (le_split 2 l) m).
Proof.
  intros Ha Hl Hmp. unfold SetDevicePathNodeLength, NODE_HEADER, SIZE_64KB. massert.
  rewrite MASSERT_true by (apply andb_true_iff; rewrite Z.leb_le, Z.ltb_lt; lia).
  rewrite wrapU_id by (unfold inU; lia). unfold WriteUnaligned16, WriteUnaligned. massert.
  by rewrite (Mbind_Ok _ _ _ _ _ (store_blit 2 _ _ _ Hmp)).
Qed.

(** Writing over the head of a block. *)
Lemma blit_head p h h0 r m : length h0 = length h -> blit p h (blit p (h0 ++ r) m) = blit p (h ++ r) m.
Proof. intros Hl. by rewrite <- !blit_app_down, blit_over, Hl by done. Qed.

Lemma CreateDeviceNode_made s t st l :
  machine_ok s -> inU 8 t -> inU 8 st -> 4 <= l < 65536 -> 65536 <= 2 ^ dpW ->
  exists r s', CreateDeviceNode t st l s = Ok (r, s') /\
    made s (node_bytes (mkNode t st (replicate (Z.to_nat (l - 4)) 0))) r s'.
Proof.
  intros Hok Ht Hst Hl HW. unfold CreateDeviceNode, NODE_HEADER. rewrite (proj2 (Z.ltb_ge _ _)) by lia.
  destruct (AllocateZeroPool_made s l Hok ltac:(lia)) as (r & s' & E & Hm). run_step E.
  set (nb := node_bytes _). assert (length nb = Z.to_nat l) as Hnb.
  { subst nb. rewrite length_node_bytes. cbn [n_data]. rewrite length_replicate. lia. }
  destruct Hm as [(-> & Hs & Hf)|(Hr & Hrw & Hfr & E1 & E2)].
  { exists 0, s'. split; [done|]. by left. }
  rewrite length_replicate in Hrw, Hfr, E2. rewrite Z2Nat.id in Hrw, Hfr, E2 by lia.
  destruct (Z.eqb_spec r 0); [lia|]. cbn [negb].
  assert (mapped (ram s') r l) as Hmp.
  { rewrite E1. eapply mapped_sub; [apply at_bytes_mapped, at_bytes_blit|rewrite ?length_replicate; lia..]. }
  erewrite Mbind_Ok; [|apply on_ram_Ok, store1_blit; [apply Hmp; lia|done]].
  erewrite Mbind_Ok; [|apply on_ram_Ok; cbn [ram]; apply store1_blit; [apply (mapped_blit _ _ _ _ _ Hmp); lia|done]].
  erewrite Mbind_Ok; [|apply on_ram_Ok, SetDevicePathNodeLength_blit; [done|done|]].
  2:{ cbn [ram]. do 2 apply mapped_blit. eapply mapped_sub; [exact Hmp|lia..]. }
  exists r. eexists. split; [done|]. right. rewrite Hnb, Z2Nat.id by lia. split_and!; try done. cbn [ram].
  rewrite E1. subst nb. unfold node_bytes, node_len. cbn [n_type n_sub n_data].
  rewrite length_replicate. replace (4 + Z.of_nat (Z.to_nat (l - 4))) with l by lia.
  replace (Z.to_nat l) with (4 + Z.to_nat (l - 4))%nat by lia. rewrite replicate_add.
  rewrite <- (blit_head r (header t st l) (replicate 4 0)) by done. cbn [blit header].
  by replace (r + 1 + 1) with (r + 2) by lia.
Qed.

(** ** Files *)

(** A CHAR16 string with its terminator. *)
Definition str_bytes (cs : list Z) : list Z := mjoin (le_split 2 <$> cs) ++ [0; 0].
Definition chars_ok (cs : list Z) : Prop := Forall (fun c => 0 < c < 65536) cs.

Lemma str_bytes_cons c cs : str_bytes (c :: cs) = le_split 2 c ++ str_bytes cs.
Proof. unfold str_bytes. by rewrite fmap_cons, app_assoc. Qed.
Lemma len_str_bytes cs : len (str_bytes cs) = 2 * len cs + 2.
Proof.
  induction cs as [|c cs IH]; [done|]. rewrite str_bytes_cons, length_app, le_split_length. cbn [length]. lia.
Qed.

Lemma str_loop_chars f m p k cs :
  chars_ok cs -> at_bytes m p (str_bytes cs) -> (above p m < f)%nat ->
  PcdMaximumUnicodeStringLength = 0 \/ k + len cs <= PcdMaximumUnicodeStringLength ->
  str_loop f p k m = Ok (k + len cs, m).
Proof.
  intros Hcs. revert f p k. induction Hcs as [|c cs Hc _ IH]; intros f p k Hat Hf Hpcd; (destruct f as [|f]; [lia|]); cbn [str_loop].
  - run_step (load_at 2 p m [0; 0] Hat eq_refl). change (le_combine [0; 0] =? 0) with true.
    unfold Mret. cbn [length]. do 2 f_equal. lia.
  - rewrite str_bytes_cons, at_bytes_app in Hat. destruct Hat as [Hat1 Hat2].
    run_step (load_at 2 p m _ Hat1 (le_split_length _ _)). rewrite le_combine_split by (cbn; lia).
    destruct (Z.eqb_spec c 0) as [|_]; [lia|].
    assert ((if negb (PcdMaximumUnicodeStringLength =? 0) then MASSERT (k <? PcdMaximumUnicodeStringLength) else Mret tt) m
      = Ok (tt, m)) as Ep.
    { destruct (Z.eqb_spec PcdMaximumUnicodeStringLength 0); cbn [negb]; [done|].
      cbn [length] in Hpcd. by rewrite (proj2 (Z.ltb_lt _ _)) by lia. }
    run_step Ep. rewrite IH; [cbn [length]; do 2 f_equal; lia|done| |cbn [length] in Hpcd; lia].
    pose proof (above_lt p (p + 2) m) as Hab. rewrite (at_bytes_lookup _ _ _ p Hat1) in Hab by (rewrite le_split_length; lia).
    rewrite Z.sub_diag in Hab. specialize (Hab ltac:(done) ltac:(lia)). lia.
Qed.

Lemma StrSize_chars m p cs :
  chars_ok cs -> 0 < p -> p mod 2 = 0 -> at_bytes m p (str_bytes cs) ->
  PcdMaximumUnicodeStringLength = 0 \/ len cs <= PcdMaximumUnicodeStringLength ->
  StrSize p m = Ok (len (str_bytes cs), m).
Proof.
  intros Hcs Hp Hal Hat Hpcd. unfold StrSize.
  assert (StrLen p m = Ok (len cs, m)) as E.
  { unfold StrLen. massert. rewrite MASSERT_true by (change 1 with (Z.ones 1); rewrite Z.land_ones, Z.eqb_eq by lia; done).
    erewrite Mbind_Ok; [|done]. apply (str_loop_chars _ _ _ 0); try done. apply above_turns. }
  run_step E. unfold Mret. rewrite len_str_bytes. do 2 f_equal. lia.
Qed.

Definition file_node (cs : list Z) : node := mkNode 4 4 (str_bytes cs).

Lemma file_node_ok cs m p : mem_ok m -> at_bytes m p (str_bytes cs) -> len (str_bytes cs) + 4 < 65536 -> node_ok (file_node cs).
Proof.
  intros Hm Hat Hl. split; [|split; [done|]].
  - do 2 (split; [done|]). split; [by eapply at_bytes_ok|]. unfold node_len. cbn [file_node n_data]. lia.
  - intros _. unfold node_bytes. cbn [file_node n_data n_type n_sub].
    pose proof (len_str_bytes cs) as Hls. unfold str_bytes in *. rewrite length_app in *. cbn [length] in *.
    rewrite app_assoc, drop_app_length'; [done|]. rewrite length_app. cbn [length header le_split]. lia.
Qed.

(** A memory that differs from another in one buffer only. *)
Lemma blit_char m m' p bs :
  at_bytes m' p bs -> (forall x, ~ (p <= x < p + len bs) -> m' !! x = m !! x) -> m' = blit p bs m.
Proof.
  intros Hat Hout. apply map_eq. intros x. rewrite lookup_blit. case_decide as Hx; [by apply at_bytes_lookup|by apply Hout].
Qed.

Lemma FileDevicePath_made s Device FileName cs ns :
  machine_ok s -> chars_ok cs -> 0 < FileName -> FileName mod 2 = 0 -> FileName + len (str_bytes cs) <= 2 ^ dpW ->
  at_bytes (ram s) FileName (str_bytes cs) -> len (str_bytes cs) + 4 < 65536 ->
  PcdMaximumUnicodeStringLength = 0 \/ len cs <= PcdMaximumUnicodeStringLength ->
  path_at (ram s) (if negb (Device =? 0) then HandleDevicePath Device else 0) ns -> count_ok 0 [file_node cs] ->
  len (encode (ns ++ [file_node cs])) < 2 ^ dpW -> 65540 <= 2 ^ dpW ->
  exists r s', FileDevicePath Device FileName s = Ok (r, s') /\ made s (encode (ns ++ [file_node cs])) r s'.
Proof.
  intros Hok Hcs Hf Hfal Hfw Hat Hl Hpcd Hpath Hc Hsz HW. pose proof Hok as (Hm & He & _).
  unfold FileDevicePath. run_step (on_ram_read _ s _ (StrSize_chars _ _ _ Hcs Hf Hfal Hat Hpcd)).
  pose proof (file_node_ok cs _ _ Hm Hat Hl) as Hn. set (n := file_node cs) in *.
  assert (node_len n = len (str_bytes cs) + 4) as Hnl by (unfold node_len; cbn [n file_node n_data]; lia).
  assert (len (encode [n]) = node_len n + 4) as Hle by (rewrite len_encode, len_path_cons; change (path_bytes []) with (@nil Z); cbn [length]; lia).
  unfold SIZE_OF_FILEPATH_DEVICE_PATH, END_DEVICE_PATH_LENGTH. rewrite <- Hnl.
  rewrite wrapU_id by (unfold inU; lia). rewrite <- Hle.
  destruct (AllocatePool_cases (len (encode [n])) s) as [(s' & E & Hs & Hfl)|(p & c & s' & E & Hp0 & Hpn & Hlc & Hcb & Hfr & Hr & Hbl)]; [lia| |].
  { run_step E. exists 0, s'. split; [done|]. by left. }
  run_step E. destruct (Z.eqb_spec p 0) as [|_]; [lia|]. cbn [negb]. rewrite <- Hlc in Hfr.
  assert (mapped (ram s') p (len c)) as Hmp by (rewrite Hr; apply at_bytes_mapped, at_bytes_blit).
  erewrite Mbind_Ok; [|apply on_ram_Ok, store1_blit; [apply Hmp; lia|done]].
  erewrite Mbind_Ok; [|apply on_ram_Ok; cbn [ram]; apply store1_blit; [apply (mapped_blit _ _ _ _ _ Hmp); lia|done]].
  cbn [blocks pool_calls]. set (m2 := blit (p + 1) [MEDIA_FILEPATH_DP] _).
  assert (mem_ok m2 /\ mapped m2 p (len c) /\ forall x, ~ (p <= x < p + len c) -> m2 !! x = ram s !! x) as (O2 & Mp2 & C2).
  { subst m2. split_and!.
    - apply mem_ok_blit; [apply mem_ok_blit; [rewrite Hr; by apply mem_ok_blit|by_decide]|by_decide].
    - by do 2 apply mapped_blit.
    - intros x Hx. rewrite !lookup_blit_out by (cbn [length]; lia). rewrite Hr. by apply lookup_blit_out. }
  erewrite Mbind_Ok; [|apply on_ram_Ok; cbn [ram]; apply CopyMem_blit; [done| | |lia|lia|lia]].
  2:{ by eapply at_bytes_confined. }
  2:{ eapply mapped_sub; [exact Mp2|lia..]. }
  cbn [blocks pool_calls]. set (m3 := blit (p + 4) (str_bytes cs) m2).
  erewrite Mbind_Ok; [|apply on_ram_Ok; cbn [ram]; apply SetDevicePathNodeLength_blit; [done|lia|]].
  2:{ subst m3. apply mapped_blit. eapply mapped_sub; [exact Mp2|lia..]. }
  cbn [blocks pool_calls]. set (m4 := blit (p + 2) (le_split 2 (node_len n)) m3).
  assert (at_bytes m4 p (node_bytes n)) as At4.
  { unfold node_bytes. rewrite at_bytes_app, at_bytes_header. change (len (header (n_type n) (n_sub n) (node_len n))) with 4.
    split; [split; [|split]|].
    - subst m4 m3 m2. rewrite !lookup_blit_out by (rewrite ?le_split_length; cbn [length]; lia).
      rewrite lookup_blit_in by (cbn [length]; lia). by rewrite Z.sub_diag.
    - subst m4 m3 m2. rewrite !lookup_blit_out by (rewrite ?le_split_length; cbn [length]; lia).
      rewrite lookup_blit_in by (cbn [length]; lia). by rewrite Z.sub_diag.
    - apply at_bytes_blit.
    - apply at_bytes_blit_other; [apply at_bytes_blit|]. rewrite le_split_length. lia. }
  assert (forall x, ~ (p <= x < p + len c) -> m4 !! x = ram s !! x) as C4.
  { intros x Hx. subst m4 m3. rewrite !lookup_blit_out by (rewrite ?le_split_length; lia). by apply C2. }
  assert (mem_ok m4) as O4 by (apply mem_ok_blit; [apply mem_ok_blit; [done|exact (at_bytes_ok _ _ _ Hm Hat)]|apply le_split_ok]).
  assert (mapped m4 p (len c)) as Mp4 by (by do 2 apply mapped_blit).
  erewrite Mbind_Ok; [|apply on_ram_read; cbn [ram]; by apply (node_next m4 p n Hp0 (proj1 Hn))]. cbn beta.
  erewrite Mbind_Ok; [|apply on_ram_Ok; cbn [ram]; apply SetDevicePathEndNode_blit; [done| |lia| |lia]].
  2:{ destruct He as (E1 & E2 & E3). split_and!; try done. by eapply at_bytes_confined. }
  2:{ eapply mapped_sub; [exact Mp4|lia..]. }
  assert (blit (p + node_len n) end_bytes m4 = blit p (encode [n]) (ram s)) as ->.
  { apply blit_char.
    - rewrite encode_one, at_bytes_app, len_node_bytes. split; [|apply at_bytes_blit].
      apply at_bytes_blit_other; [done|]. rewrite len_node_bytes. lia.
    - intros x Hx. rewrite lookup_blit_out by (cbn [length end_bytes header le_split]; lia). apply C4. lia. }
  rewrite Hlc in Hfr. by apply append_temp.
Qed.
End Ops.
