(* ===== verification/DevPathTheorems.v ===== *)
(** * DevPathTheorems: what the device path library promises

    IsDevicePathValid accepts exactly the bytes of well-formed paths; the
    building functions are operations on lists of nodes; instances that are
    appended are split off again. *)

From stdpp Require Import base option list gmap fin_maps.
From Stdlib Require Import ZArith Lia.
From S2P Require Import Prelude BaseMath Memory MemSpec MemCopy DevPath DevPathSpec DevPathValid DevPathBuild DevPathOps.

Local Open Scope Z_scope.
Local Open Scope edk_scope.

(** ** A machine for the examples: a pool above everything in use *)

Definition top (m : mem) : Z := foldr Z.max 0 ((map_to_list m).*1).
Lemma top_bound m x b : m !! x = Some b -> x <= top m.
Proof.
  intros H%elem_of_map_to_list. unfold top.
  assert (x ∈ (map_to_list m).*1) as Hx by (apply list_elem_of_fmap; by exists (x, b)).
  induction ((map_to_list m).*1) as [|k l IH]; [by apply elem_of_nil in Hx|]. cbn [foldr].
  apply elem_of_cons in Hx as [->|Hx]; [lia|]. specialize (IH Hx). lia.
Qed.
Lemma top_nonneg m : 0 <= top m.
Proof. unfold top. induction ((map_to_list m).*1); cbn [foldr]; lia. Qed.

Definition bench_pool (k : nat) (m : mem) (n : Z) : option (Z * list Z) :=
  if top m + 1 + n <=? 2 ^ 64 then Some (top m + 1, replicate (Z.to_nat n) 0xAF) else None.
Definition bench_dp : DP_ENV := mkDpEnv 64 0 1000000 16 (fun _ => 0) bench_pool.

Lemma bench_pool_Some k m n p c :
  bench_pool k m n = Some (p, c) -> p = top m + 1 /\ c = replicate (Z.to_nat n) 0xAF /\ p + n <= 2 ^ 64.
Proof.
  unfold bench_pool. destruct (Z.leb_spec (top m + 1 + n) (2 ^ 64)) as [Hle|Hgt]; intros E; [|discriminate E].
  injection E as <- <-. done.
Qed.
Lemma bench_pool_laws : @POOL_LAWS bench_dp.
Proof.
  constructor; cbn [dpW bench_dp pool_answer].
  - done.
  - intros k m n p c H Hn. apply bench_pool_Some in H as (-> & -> & H). pose proof (top_nonneg m).
    rewrite length_replicate. split; [lia|]. split; [lia|]. split; [done|]. by apply Forall_replicate.
  - intros k m n p c x H Hn Hx. apply bench_pool_Some in H as (-> & -> & H).
    destruct (m !! x) as [b|] eqn:E; [|done]. apply top_bound in E. lia.
Qed.

(** A PCI root bridge and a PCI device, a file path, and the end node. *)
Definition acpi_node : node := mkNode 2 1 [0xD0; 0x41; 3; 0x0A; 0; 0; 0; 0].
Definition pci_node : node := mkNode 1 1 [0; 3].
Definition bench_ram : mem := blit 16 end_bytes (blit 100 (encode [acpi_node; pci_node]) (blit 200 (encode [pci_node]) ∅)).
Definition bench_machine : machine := mkMachine bench_ram ∅ 0.

Lemma bench_at n a bs : load_bytes n a bench_ram = Ok bs -> at_bytes bench_ram a bs.
Proof. by intros [? _]%load_bytes_inv. Qed.
Lemma bench_count (ns : list node) : @count_ok bench_dp 0 ns.
Proof. intros H. by cbn in H. Qed.
Lemma bench_machine_ok : @machine_ok bench_dp bench_machine.
Proof.
  split; [by_decide|]. split; [split; [done|split; [|by vm_compute]]|by intros p n H].
  apply (bench_at 4). vm_compute. reflexivity.
Qed.
Lemma bench_valid_100 : @valid_at bench_dp bench_ram 100 [acpi_node; pci_node].
Proof.
  split; [done|]. split; [by_decide|]. split; [apply (bench_at 22); vm_compute; reflexivity|].
  split; [apply bench_count|by vm_compute].
Qed.
Lemma bench_valid_200 : @valid_at bench_dp bench_ram 200 [pci_node].
Proof.
  split; [done|]. split; [by_decide|]. split; [apply (bench_at 10); vm_compute; reflexivity|].
  split; [apply bench_count|by vm_compute].
Qed.

Lemma returned_value {A} (c : M machine A) (s : machine) r s' v :
  c s = Ok (r, s') -> match c s with Ok (x, _) => x = v | _ => False end -> r = v.
Proof. by intros ->. Qed.

(** ** Validation *)

(** C31  IsDevicePathValid on any memory that has MaxSize
    bytes at the pointer returns, without reading past them, TRUE exactly
    when the bytes start with a well-formed device path of at most MaxSize
    bytes (and of fewer nodes than PcdMaximumDevicePathNodeCount, if that is
    set); without a bound it accepts every well-formed path.  The nodes of a
    path are determined by its bytes.  On no memory does the loop run on for
    ever, and the memory is never changed. *)
Theorem DevPath_valid `{Env : DP_ENV} (m : mem) (a : Z) :
  mem_ok m -> 0 < a ->
  (forall MaxSize, 0 < MaxSize < 2 ^ dpW -> mapped m a MaxSize ->
     exists b, IsDevicePathValid a MaxSize m = Ok (b, m) /\
       (b = true <-> exists ns, path_ok ns /\ at_bytes m a (encode ns) /\ len (encode ns) <= MaxSize /\ count_ok 0 ns)) /\
  (forall ns, path_ok ns -> at_bytes m a (encode ns) -> len (encode ns) < 2 ^ dpW -> count_ok 0 ns ->
     IsDevicePathValid a 0 m = Ok (true, m)) /\
  (forall ns ns', path_ok ns -> path_ok ns' -> at_bytes m a (encode ns) -> at_bytes m a (encode ns') -> ns = ns') /\
  (forall m' b MaxSize, reads (IsDevicePathValid b MaxSize) m' (fun _ => True)) /\
  (forall m' MaxSize, IsDevicePathValid 0 MaxSize m' = Ok (false, m')).
Proof.
  intros Hm Ha. split; [|split; [|split; [|split]]].
  - intros MaxSize Hsz Hmp. destruct (decide (4 <= MaxSize)) as [H4|H4].
    + assert (4 <= MaxSize < 2 ^ dpW) as Hs by lia.
      destruct (IsDevicePathValid_inv m a MaxSize Hm Ha Hs Hmp) as (b & E & Hb). exists b. split; [done|].
      split; [exact Hb|]. intros (ns & H1 & H2 & H3 & Hc).
      rewrite (IsDevicePathValid_path m a ns MaxSize Hm Ha H1 H2 Hc) in E by (right; lia). congruence.
    + exists false. unfold IsDevicePathValid, END_DEVICE_PATH_LENGTH.
      rewrite (proj2 (Z.ltb_lt 0 MaxSize)), (proj2 (Z.ltb_lt MaxSize 4)), orb_true_r by lia.
      split; [done|]. split; [done|]. intros (ns & _ & _ & H3 & _). rewrite len_encode in H3. lia.
  - intros ns H1 H2 H3 Hc. apply (IsDevicePathValid_path m a ns); try done. by left.
  - intros ns ns'. apply encode_unique.
  - intros. apply reads_valid.
  - done.
Qed.

Lemma DevPath_valid_witness :
  (exists b, @IsDevicePathValid bench_dp 100 22 bench_ram = Ok (b, bench_ram) /\ b = true) /\
  (exists b, @IsDevicePathValid bench_dp 100 21 bench_ram = Ok (b, bench_ram) /\ b = false).
Proof.
  destruct (@DevPath_valid bench_dp bench_ram 100) as (H & _); [by_decide|done|].
  assert (mapped bench_ram 100 22) as Hmp.
  { apply (at_bytes_mapped _ _ (encode [acpi_node; pci_node])). apply bench_valid_100. }
  split.
  - destruct (H 22) as (b & E & Hb); [by vm_compute|done|]. exists b. split; [done|]. apply Hb.
    exists [acpi_node; pci_node]. destruct bench_valid_100 as (_ & ? & ? & ? & _). split_and!; try done; by vm_compute.
  - destruct (H 21) as (b & E & _); [by vm_compute|eapply mapped_sub; [exact Hmp|lia..]|]. exists b. split; [done|].
    destruct b; [|done]. vm_compute in E. discriminate E.
Defined.

(** ** Building *)

(** C32  On a path [ns] GetDevicePathSize is its size,
    IsDevicePathMultiInstance tells whether it has an end-of-instance node,
    and DuplicateDevicePath makes a copy; an invalid path has size 0 and no
    copy.  AppendDevicePath makes the path [ns1 ++ ns2], with NULL for the
    empty path; AppendDevicePathNode makes [ns ++ [n]] and frees its
    temporary block; CreateDeviceNode makes a zeroed node with the header
    filled in; FileDevicePath appends the file path node of the name to the
    path of the device.  Each of them returns NULL only when the pool fails,
    and changes nothing else: afterwards there is exactly one more pool
    block, and its bytes are the result. *)
Theorem DevPath_build `{Env : DP_ENV} {Laws : POOL_LAWS} (s : machine) :
  machine_ok s -> 65540 <= 2 ^ dpW ->
  (forall bs r s', made s bs r s' -> bytes_ok bs -> (0 < length bs)%nat -> machine_ok s') /\
  (forall a ns, valid_at (ram s) a ns ->
     GetDevicePathSize a (ram s) = Ok (len (encode ns), ram s) /\
     IsDevicePathMultiInstance a (ram s) = Ok (existsb is_instance ns, ram s) /\
     exists r s', DuplicateDevicePath a s = Ok (r, s') /\ made s (encode ns) r s') /\
  (forall a, a = 0 \/ IsDevicePathValid a 0 (ram s) = Ok (false, ram s) ->
     GetDevicePathSize a (ram s) = Ok (0, ram s) /\ DuplicateDevicePath a s = Ok (0, s)) /\
  (forall a b ns1 ns2, path_at (ram s) a ns1 -> path_at (ram s) b ns2 -> len (encode (ns1 ++ ns2)) < 2 ^ dpW ->
     exists r s', AppendDevicePath a b s = Ok (r, s') /\ made s (encode (ns1 ++ ns2)) r s') /\
  (forall a b ns o, path_at (ram s) a ns -> node_at (ram s) b o -> len (encode (ns ++ o)) < 2 ^ dpW ->
     exists r s', AppendDevicePathNode a b s = Ok (r, s') /\ made s (encode (ns ++ o)) r s') /\
  (forall t st l, inU 8 t -> inU 8 st -> 0 <= l < 65536 ->
     if l <? 4 then CreateDeviceNode t st l s = Ok (0, s)
     else exists r s', CreateDeviceNode t st l s = Ok (r, s') /\
       made s (node_bytes (mkNode t st (replicate (Z.to_nat (l - 4)) 0))) r s') /\
  (forall Device FileName cs ns,
     chars_ok cs -> 0 < FileName -> FileName mod 2 = 0 -> FileName + len (str_bytes cs) <= 2 ^ dpW ->
     at_bytes (ram s) FileName (str_bytes cs) -> len (str_bytes cs) + 4 < 65536 ->
     PcdMaximumUnicodeStringLength = 0 \/ len cs <= PcdMaximumUnicodeStringLength ->
     path_at (ram s) (if negb (Device =? 0) then HandleDevicePath Device else 0) ns -> count_ok 0 [file_node cs] ->
     len (encode (ns ++ [file_node cs])) < 2 ^ dpW ->
     exists r s', FileDevicePath Device FileName s = Ok (r, s') /\ made s (encode (ns ++ [file_node cs])) r s').
Proof.
  intros Hok HW. pose proof Hok as (Hm & He & _). split; [|split; [|split; [|split; [|split; [|split]]]]].
  - intros bs r s' Hmade Hb Hl. by eapply made_machine_ok.
  - intros a ns Hv. split; [by apply GetDevicePathSize_path|]. split; [by apply IsDevicePathMultiInstance_path|].
    by apply DuplicateDevicePath_made.
  - intros a Ha. split; [by apply GetDevicePathSize_invalid|by apply DuplicateDevicePath_invalid].
  - intros. by apply AppendDevicePath_made.
  - intros. by apply AppendDevicePathNode_made.
  - intros t st l Ht Hst Hl. destruct (Z.ltb_spec l 4) as [H4|H4].
    + unfold CreateDeviceNode, NODE_HEADER. by rewrite (proj2 (Z.ltb_lt l 4) H4).
    + apply CreateDeviceNode_made; done || lia.
  - intros. by apply FileDevicePath_made.
Qed.

Lemma DevPath_build_witness :
  exists r s', @AppendDevicePath bench_dp 100 200 bench_machine = Ok (r, s') /\
    @made bench_dp bench_machine (encode [acpi_node; pci_node; pci_node]) r s' /\ r = 210.
Proof.
  destruct (@DevPath_build bench_dp bench_pool_laws bench_machine bench_machine_ok) as (_ & _ & _ & H & _); [by vm_compute|].
  destruct (H 100 200 [acpi_node; pci_node] [pci_node]) as (r & s' & E & Hm);
    [right; exact bench_valid_100|right; exact bench_valid_200|by vm_compute|].
  exists r, s'. split; [exact E|]. split; [exact Hm|]. apply (returned_value _ _ _ _ 210 E). vm_compute. reflexivity.
Defined.

(** ** Instances *)

(** C33  GetNextDevicePathInstance returns a copy of the
    first instance of a path with its size, leaves the path as it was and
    moves the pointer to the rest, or to NULL after the last instance.  So
    two paths joined by AppendDevicePathInstance come back one after the
    other. *)
Theorem DevPath_instances `{Env : DP_ENV} {Laws : POOL_LAWS} (s : machine) (a : Z) :
  machine_ok s ->
  (forall ns i o z, valid_at (ram s) a ns -> first_instance ns i o ->
     exists r next s', GetNextDevicePathInstance (Some a) (Some z) s = Ok ((r, Some next, Some (len (encode i))), s') /\
       made s (encode i) r s' /\
       match o with None => next = 0 | Some rest => next = a + len (encode i) /\ valid_at (ram s') next rest end) /\
  (forall b i j z, valid_at (ram s) a i -> valid_at (ram s) b j -> single i -> single j ->
     count_ok 0 (i ++ instance_end :: j) -> len (encode (i ++ instance_end :: j)) < 2 ^ dpW ->
     exists r s1, AppendDevicePathInstance a b s = Ok (r, s1) /\ made s (encode (i ++ instance_end :: j)) r s1 /\
       (r <> 0 ->
        IsDevicePathMultiInstance r (ram s1) = Ok (true, ram s1) /\
        exists r1 next s2 r2 s3,
          GetNextDevicePathInstance (Some r) (Some z) s1 = Ok ((r1, Some next, Some (len (encode i))), s2) /\
          made s1 (encode i) r1 s2 /\
          GetNextDevicePathInstance (Some next) (Some z) s2 = Ok ((r2, Some 0, Some (len (encode j))), s3) /\
          made s2 (encode j) r2 s3)).
Proof.
  intros Hok. split; [intros; by apply (GetNextDevicePathInstance_made s a ns)|].
  intros b i j z Hi Hj Hsi Hsj Hc Hsz.
  destruct (AppendDevicePathInstance_made s a b i j Hok Hi Hj Hsz) as (r & s1 & E & Hm). exists r, s1.
  split; [done|]. split; [done|]. intros Hr. set (ns := i ++ instance_end :: j) in *.
  pose proof Hi as (_ & Hpi & _). pose proof Hj as (_ & Hpj & _).
  assert (path_ok ns) as Hpo by (apply Forall_app; split; [done|]; constructor; [apply instance_end_ok|done]).
  assert (machine_ok s1) as Hok1.
  { eapply made_machine_ok; [exact Hok|exact (encode_bytes_ok ns Hpo)| |exact Hm]. pose proof (len_encode ns). lia. }
  assert (valid_at (ram s1) r ns) as Hv.
  { pose proof (made_bytes _ _ _ _ Hm Hr) as Hat. by destruct Hm as [(-> & _)|(Hr0 & Hrw & _)]. }
  pose proof Hok1 as (Hm1 & _). split.
  { rewrite (IsDevicePathMultiInstance_path _ _ _ Hm1 Hv). unfold ns. rewrite existsb_app. cbn [existsb].
    by rewrite orb_true_r. }
  destruct (GetNextDevicePathInstance_made s1 r ns i (Some j) z Hok1 Hv) as (r1 & next & s2 & E1 & Hm2 & Hnext & Hv2).
  { by apply more_instances. }
  assert (machine_ok s2) as Hok2.
  { eapply made_machine_ok; [exact Hok1|exact (encode_bytes_ok i Hpi)| |exact Hm2]. pose proof (len_encode i). lia. }
  destruct (GetNextDevicePathInstance_made s2 _ j j None z Hok2 Hv2) as (r2 & next2 & s3 & E2 & Hm3 & Hn2).
  { by apply only_instance. }
  subst next2. by exists r1, next, s2, r2, s3.
Qed.

Lemma DevPath_instances_witness :
  exists r s1, @AppendDevicePathInstance bench_dp 100 200 bench_machine = Ok (r, s1) /\
    @made bench_dp bench_machine (encode [acpi_node; pci_node; instance_end; pci_node]) r s1 /\ r = 210.
Proof.
  destruct (@DevPath_instances bench_dp bench_pool_laws bench_machine 100 bench_machine_ok) as (_ & H).
  destruct (H 200 [acpi_node; pci_node] [pci_node] 0 bench_valid_100 bench_valid_200) as (r & s1 & E & Hm & _);
    [by_decide|by_decide|apply bench_count|by vm_compute|].
  exists r, s1. split; [exact E|]. split; [exact Hm|]. apply (returned_value _ _ _ _ 210 E). vm_compute. reflexivity.
Defined.

(** A node whose length field is 0 makes a walk that was not preceded by a
    validation run on; the validation refuses it. *)
Example zero_length_node :
  let m := blit 8 [1; 1; 0; 0] ∅ in
  walk (turns m) IsDevicePathEnd 8 m = OutOfFuel /\ @IsDevicePathValid bench_dp 8 0 m = Ok (false, m).
Proof. by vm_compute. Qed.

(** An end-of-instance node longer than four bytes: the pointer moves on, but
    there is no copy of the instance. *)
Example long_instance_end :
  let m := blit 16 end_bytes (blit 100 (encode [pci_node; mkNode 0x7f 1 [0]; pci_node]) ∅) in
  match @GetNextDevicePathInstance bench_dp (Some 100) (Some 0) (mkMachine m ∅ 0) with
  | Ok ((r, next, Size), s') => (r, next, Size) = (0, Some 111, Some 10) /\ ram s' = m
  | _ => False
  end.
Proof. by vm_compute. Qed.
