(* ===== verification/HandPath.v ===== *)
(** * HandPath: device paths in the protocol database

    CoreLocateDevicePath (Hand/Locate.c) and the services that install and
    uninstall several protocols in one call (Hand/Handle.c).  The interfaces
    of the device path protocol point into the memory [m], which these
    services only read.

    CoreInstallMultipleProtocolInterfaces runs at TPL_NOTIFY: [Raised] is the
    environment of the calls it makes, in which only notifications above that
    level are dispatched, and [Env] the one in which the old TPL is
    restored. *)

From stdpp Require Import base option list gmap fin_maps.
From Stdlib Require Import ZArith Lia.
From S2P Require Import Prelude BaseMath Memory DevPath Hand.

Local Open Scope Z_scope.
Local Open Scope edk_scope.

(** gEfiDevicePathProtocolGuid, 09576E91-6D3F-11D2-8E39-00A0C969723B *)
Definition gEfiDevicePathProtocolGuid : EFI_GUID :=
  [0x91; 0x6e; 0x57; 0x09; 0x3f; 0x6d; 0xd2; 0x11; 0x8e; 0x39; 0x00; 0xa0; 0xc9; 0x69; 0x72; 0x3b].

(** A function of the device path library, on the memory [m]. *)
Definition reading {A} (m : mem) (c : M mem A) : M DB A := fun s =>
  match c m with
  | Ok (a, _) => Ok (a, s)
  | AssertFail => AssertFail
  | Fault => Fault
  | OutOfFuel => OutOfFuel
  end.

Section LocateDevicePath.
Context `{Dp : DP_ENV} (m : mem).

(** The condition that ends the first loop: the end of the path, or the
    break at the end of an instance. *)
Definition at_instance_end (TmpDevicePath : Z) : M mem bool :=
  let! e := IsDevicePathEnd TmpDevicePath in
  if e then Mret true else IsDevicePathEndInstance TmpDevicePath.

Section Loop.
Context `{Env : HAND_ENV}.

(** The loop over the handles: the best match and its handle. *)
Fixpoint match_loop (SourcePath SourceSize : Z) (Handles : list Z) (BestMatch BestDevice : Z) : M DB (Z * Z) :=
  match Handles with
  | [] => Mret (BestMatch, BestDevice)
  | Handle :: Handles' =>
      let! r := CoreHandleProtocol Handle (Some gEfiDevicePathProtocolGuid) true in
      let '(Status, Interface) := r in
      if EFI_ERROR Status then match_loop SourcePath SourceSize Handles' BestMatch BestDevice
      else
        match Interface with
        | None => Mfail Fault
        | Some TmpDevicePath =>
            let! n := reading m (GetDevicePathSize TmpDevicePath) in
            let Size := wrapS dpW (wrapU dpW (n - NODE_HEADER)) in
            HASSERT (0 <=? Size) ;;;
            let! same :=
              (if Size <=? SourceSize then
                 let! d := reading m (CompareMem dpW SourcePath TmpDevicePath (wrapU dpW Size)) in Mret (d =? 0)
               else Mret false) in
            if same then
              HASSERT (negb (Size =? BestMatch)) ;;;
              (if BestMatch <? Size then match_loop SourcePath SourceSize Handles' Size Handle
               else match_loop SourcePath SourceSize Handles' BestMatch BestDevice)
            else match_loop SourcePath SourceSize Handles' BestMatch BestDevice
        end
  end.

(** [DevicePath] is [None] for NULL and else the value of [*DevicePath];
    [Device] tells whether Device is not NULL.  The status, the new value of
    [*DevicePath], and the handle stored in [*Device] if one is. *)
Definition CoreLocateDevicePath (Prot : option EFI_GUID) (DevicePath : option Z) (Device : bool) :
    M DB (EFI_STATUS * option Z * option Z) :=
  match Prot, DevicePath with
  | Some g, Some SourcePath =>
      if SourcePath =? 0 then Mret (EFI_INVALID_PARAMETER, DevicePath, None)
      else
        let! TmpDevicePath := reading m (walk (turns m) at_instance_end SourcePath) in
        let SourceSize := wrapS dpW (wrapU dpW (TmpDevicePath - SourcePath)) in
        let! r := CoreLocateHandleBuffer ByProtocol (Some g) 0 true true in
        let '(Status, HandleCount, Handles) := r in
        if EFI_ERROR Status || (HandleCount =? 0) then Mret (EFI_NOT_FOUND, DevicePath, None)
        else
          let! r := match_loop SourcePath SourceSize Handles (-1) 0 in
          let '(BestMatch, BestDevice) := r in
          if BestMatch =? -1 then Mret (EFI_NOT_FOUND, DevicePath, None)
          else if negb Device then Mret (EFI_INVALID_PARAMETER, DevicePath, None)
          else Mret (EFI_SUCCESS, Some (SourcePath + BestMatch), Some BestDevice)
  | _, _ => Mret (EFI_INVALID_PARAMETER, DevicePath, None)
  end.

(** *** Several protocols at a time

    The variable arguments are the pairs of a protocol and an interface
    before the NULL.  The status, [*Handle] and Index when the loop is
    left. *)
Definition already_started (g : EFI_GUID) (Interface : Z) : M DB bool :=
  if bool_decide (g = gEfiDevicePathProtocolGuid) then
    let! r := CoreLocateDevicePath (Some gEfiDevicePathProtocolGuid) (Some Interface) true in
    let '(Status, DevicePath, DeviceHandle) := r in
    if negb (EFI_ERROR Status) && negb (default 0 DeviceHandle =? 0)
    then reading m (IsDevicePathEnd (default 0 DevicePath))
    else Mret false
  else Mret false.

Fixpoint install_each (Args : list (EFI_GUID * Z)) (Handle Index : Z) : M DB (EFI_STATUS * Z * Z) :=
  match Args with
  | [] => Mret (EFI_SUCCESS, Handle, Index)
  | (g, Interface) :: Args' =>
      let! started := already_started g Interface in
      if started then Mret (EFI_ALREADY_STARTED, Handle, Index + 1)
      else
        let! r := CoreInstallProtocolInterface (Some Handle) (Some g) EFI_NATIVE_INTERFACE Interface in
        let '(Status, Handle) := r in
        if EFI_ERROR Status then Mret (Status, Handle, Index + 1) else install_each Args' Handle (Index + 1)
  end.

(** [for (; Index > 1; Index--) CoreUninstallProtocolInterface (...)] over the
    first arguments. *)
Fixpoint uninstall_first (Args : list (EFI_GUID * Z)) (Handle Index : Z) : M DB unit :=
  match Args with
  | [] => Mret tt
  | (g, Interface) :: Args' =>
      if 1 <? Index then
        CoreUninstallProtocolInterface Handle (Some g) Interface ;;;
        uninstall_first Args' Handle (Index - 1)
      else Mret tt
  end.

(** What happens at TPL_NOTIFY. *)
Definition install_multiple_raised (Handle : Z) (Args : list (EFI_GUID * Z)) : M DB (EFI_STATUS * Z) :=
  let! r := install_each Args Handle 0 in
  let '(Status, NewHandle, Index) := r in
  if EFI_ERROR Status then uninstall_first Args NewHandle Index ;;; Mret (Status, Handle)
  else Mret (Status, NewHandle).

(** *** CoreUninstallMultipleProtocolInterfaces *)

Fixpoint uninstall_each (Args : list (EFI_GUID * Z)) (Handle Index : Z) : M DB (EFI_STATUS * Z) :=
  match Args with
  | [] => Mret (EFI_SUCCESS, Index)
  | (g, Interface) :: Args' =>
      let! Status := CoreUninstallProtocolInterface Handle (Some g) Interface in
      if EFI_ERROR Status then Mret (Status, Index + 1) else uninstall_each Args' Handle (Index + 1)
  end.

Fixpoint install_first (Args : list (EFI_GUID * Z)) (Handle Index : Z) : M DB unit :=
  match Args with
  | [] => Mret tt
  | (g, Interface) :: Args' =>
      if 1 <? Index then
        let! r := CoreInstallProtocolInterface (Some Handle) (Some g) EFI_NATIVE_INTERFACE Interface in
        install_first Args' r.2 (Index - 1)
      else Mret tt
  end.

Definition CoreUninstallMultipleProtocolInterfaces (Handle : Z) (Args : list (EFI_GUID * Z)) : M DB EFI_STATUS :=
  let! r := uninstall_each Args Handle 0 in
  let '(Status, Index) := r in
  if EFI_ERROR Status then install_first Args Handle Index ;;; Mret EFI_INVALID_PARAMETER else Mret Status.
End Loop.

(** [Handle] is [None] for NULL; the status and the new value of
    [*Handle]. *)
Definition CoreInstallMultipleProtocolInterfaces (Env Raised : HAND_ENV) (Handle : option Z) (Args : list (EFI_GUID * Z)) :
    M DB (EFI_STATUS * Z) :=
  match Handle with
  | None => Mret (EFI_INVALID_PARAMETER, 0)
  | Some Handle0 =>
      let! r := install_multiple_raised (Env := Raised) Handle0 Args in
      RestoreTpl (HAND_ENV := Env) ;;;
      Mret r
  end.
End LocateDevicePath.
