(* ===== verification/HandPathTheorems.v ===== *)
(** * HandPathTheorems: device paths and groups of protocols in the database

    CoreLocateDevicePath finds the handle whose device path is the longest
    prefix of the path that is searched for: first the loop over the handles,
    then the property.  The services for several protocols at a time install
    or uninstall all of them, or put the first ones back. *)

From stdpp Require Import base option list gmap fin_maps.
From Stdlib Require Import ZArith Lia.
From S2P Require Import Prelude BaseMath Memory MemSpec MemCopy DevPath DevPathSpec DevPathValid DevPathBuild DevPathTheorems.
From S2P Require Import Hand HandInv HandRun HandSafe HandInstall HandRemove HandLocate HandOpen HandTheorems HandPath.

Local Open Scope Z_scope.
Local Open Scope edk_scope.

(** ** Code from outside that leaves the installed protocols alone *)

Abbreviation all_stay := (fun _ : Z => True).
Abbreviation none_come := (fun (_ : Z) (_ : EFI_GUID) (_ : Z) => True).

Lemma has_lock s b h g i : has (upd_gProtocolDatabaseLock b s) h g i <-> has s h g i.
Proof. done. Qed.

Lemma has_dec `{Env : HAND_ENV} s h g i : wf s -> has s h g i \/ ~ has s h g i.
Proof.
  intros W. destruct (decide (h ∈ gHandleList s)) as [Hh|Hh].
  - pose proof (locked_wf s W) as W0. set (s0 := upd_gProtocolDatabaseLock true s) in *.
    destruct (interface_run s0 W0 h g i eq_refl Hh) as (p & _ & [(Hp & P & HP & Hi)|[_ Hno]]).
    + left. rewrite <- (has_lock s true). by exists p, P.
    + right. by rewrite <- (has_lock s true).
  - right. intros (p & P & (e & (_ & Hx & _) & _) & _). done.
Qed.

Lemma has_moves `{Env : HAND_ENV} b s s' h g i : wf s -> moves all_stay none_come b s s' -> has s' h g i <-> has s h g i.
Proof.
  intros W G. pose proof G as (G1 & G2 & G3). split.
  - intros H. destruct (has_dec s h g i W) as [|Hno]; [done|]. by destruct (G3 h g i I Hno).
  - intros (p & P & Hp & HP & Hi). pose proof Hp as (e & Hl & Hg).
    destruct (G2 p h e P I Hl HP) as (_ & P' & HP' & Hi'). exists p, P'.
    split; [by apply (provides_moves all_stay none_come b s s')|]. split; [done|congruence].
Qed.

Section Handle.
Context `{Env : HAND_ENV} `{!HAND_LAWS true all_stay none_come}.

(** CoreHandleProtocol with memory to spare. *)
Lemma handle_protocol_answer h g s :
  wf s -> gProtocolDatabaseLock s = false -> ~ short ->
  wp true (CoreHandleProtocol h (Some g) true) (fun r s' => outside all_stay none_come s s' /\
    ((exists i, has s h g i /\ r = (EFI_SUCCESS, Some i)) \/ ((forall i, ~ has s h g i) /\ EFI_ERROR r.1 = true))) s.
Proof.
  intros W Hlk Hsh. destruct (decide (h ∈ gHandleList s)) as [Hh|Hh].
  - eapply wp_mono; [apply wp_and; [by apply (handle_protocol_safe true all_stay none_come)|]|].
    { apply (open_ok true all_stay none_come); try done. }
    cbn beta. intros [st o] s' ((O & Ho1 & Ho2) & Ha). split; [done|]. cbn [fst] in Ho1, Ho2.
    destruct Ha as [(p & P & s1 & Hp & HP & Hr & _)|(Hno & _ & Hr)].
    + left. exists (Interface P). split; [by exists p, P|]. cbn zeta in Hr.
      destruct (Ho2 eq_refl eq_refl g p eq_refl Hp) as [Hst|[_ ?]]; [|done].
      set (v := verdict _ _ _ _ _) in *. injection Hr as -> ->. unfold returned. rewrite Hst. by destruct v.1.
    + right. injection Hr as -> ->. split; [|done]. intros i (p & P & Hp & _). by apply (Hno p).
  - eapply wp_mono; [by apply (handle_protocol_safe true all_stay none_come)|].
    intros [st o] s' (O & Ho1 & _). split; [done|]. right. split.
    + intros i (p & P & (e & (_ & Hx & _) & _) & _). done.
    + cbn. destruct (EFI_ERROR st) eqn:E; [done|]. destruct (Ho1 E) as (g' & p & _ & e & (_ & Hx & _) & _). done.
Qed.
End Handle.

(** ** The path that is searched for *)

(** The first instance of a path, for CoreLocateDevicePath: up to a node of
    the end-of-instance subtype. *)
Inductive source_instance : list node -> list node -> Prop :=
| source_whole i : Forall (fun n => is_instance n = false) i -> source_instance i i
| source_first i e rest :
    Forall (fun n => is_instance n = false) i -> is_instance e = true -> source_instance (i ++ e :: rest) i.

Section Source.
Context `{Dp : DP_ENV} (m : mem) (Hm : mem_ok m).

Lemma at_instance_end_at b t st l :
  0 < b -> at_header m b t st l ->
  at_instance_end b m = Ok ((t =? 0x7f) && (st =? 0xff) || (t =? 0x7f) && (st =? 1), m).
Proof.
  intros Hb Hh. unfold at_instance_end. run_step (IsDevicePathEnd_at _ _ _ _ _ Hb Hh).
  destruct (_ && (st =? 0xff)); [done|]. by rewrite (IsDevicePathEndInstance_at _ _ _ _ _ Hb Hh).
Qed.

Lemma source_walk a src i :
  0 < a -> path_ok src -> at_bytes m a (encode src) -> source_instance src i ->
  walk (turns m) at_instance_end a m = Ok (a + len (path_bytes i), m) /\ at_bytes m a (path_bytes i) /\ path_ok i.
Proof.
  intros Ha Hok Hat Hsrc.
  assert (exists t st l, at_header m (a + len (path_bytes i)) t st l /\
    (t =? 0x7f) && (st =? 0xff) || (t =? 0x7f) && (st =? 1) = true) as (t & st & l & Hh & Hstop).
  { destruct Hsrc as [i Hi|i e rest Hi He].
    - exists 0x7f, 0xff, 4. split; [by apply end_header|done].
    - unfold encode in Hat. rewrite path_bytes_app, path_bytes_cons, <- !app_assoc, !at_bytes_app in Hat.
      destruct Hat as (_ & Hn & _). eexists _, _, _. split; [by apply at_node_header|].
      unfold is_instance, is_end_type in He. by rewrite He, orb_true_r. }
  assert (at_bytes m a (path_bytes i) /\ path_ok i /\ Forall (fun n => is_instance n = false) i) as (Hati & Hoki & Hni).
  { destruct Hsrc as [i Hi|i e rest Hi He].
    - apply at_bytes_app in Hat as [? _]. done.
    - unfold encode in Hat. rewrite path_bytes_app, <- !app_assoc, at_bytes_app in Hat. apply Forall_app in Hok as [? _].
      by destruct Hat. }
  split; [|done]. apply walk_nodes; try done; [by apply path_ok_fits|apply above_turns| |].
  - intros b n Hb Hn Hnb. rewrite (at_instance_end_at _ _ _ _ Hb (at_node_header _ _ _ Hnb)).
    apply (proj1 (Forall_forall _ _) Hni) in Hn as H1. apply (proj1 (Forall_forall _ _) Hoki) in Hn as (_ & H2 & _).
    unfold is_instance, is_end_type in H1. unfold is_end, is_end_type in H2. by rewrite H1, H2.
  - pose proof (len_path_bytes_ge i). rewrite (at_instance_end_at _ t st l) by (done || lia). by rewrite Hstop.
Qed.

(** Comparing the bytes of the paths compares the paths. *)
Lemma compare_paths a i v ns :
  0 < a -> 0 < v -> at_bytes m a (path_bytes i) -> at_bytes m v (path_bytes ns) -> path_ok i -> path_ok ns ->
  a + len (path_bytes i) <= 2 ^ dpW -> v + len (path_bytes ns) <= 2 ^ dpW -> len (path_bytes ns) <= len (path_bytes i) ->
  exists d, CompareMem dpW a v (len (path_bytes ns)) m = Ok (d, m) /\ (d = 0 <-> ns `prefix_of` i).
Proof.
  intros Ha Hv Hati Hatn Hi Hn Haw Hvw Hle. set (k := length (path_bytes ns)).
  assert (length (take k (path_bytes i)) = k) as Hk by (apply length_take_le; lia).
  assert (at_bytes m a (take k (path_bytes i))) as Hatk.
  { rewrite <- (take_drop k (path_bytes i)), at_bytes_app in Hati. apply Hati. }
  exists (first_diff (take k (path_bytes i)) (path_bytes ns)). split.
  - assert (CompareMem dpW a v (len (take k (path_bytes i))) m = Ok (first_diff (take k (path_bytes i)) (path_bytes ns), m))
      as E by (apply CompareMem_diff; try done; lia).
    by rewrite Hk in E.
  - rewrite first_diff_zero by done. rewrite <- path_bytes_prefix by (by apply path_ok_fits). split.
    + intros E. rewrite <- E. apply prefix_take.
    + intros [r E]. rewrite E. subst k. by rewrite take_app_length.
Qed.

Lemma prefix_same_length i ns ns' :
  ns `prefix_of` i -> ns' `prefix_of` i -> len (path_bytes ns) = len (path_bytes ns') -> ns = ns'.
Proof.
  assert (forall x y, x `prefix_of` y -> len (path_bytes x) = len (path_bytes y) -> x = y) as Main.
  { intros x y [k ->] Hl. rewrite path_bytes_app, length_app in Hl. pose proof (len_path_bytes_ge k).
    destruct k; [by rewrite app_nil_r|cbn [length] in *; lia]. }
  intros H H' Hl. destruct (prefix_weak_total ns ns' i H H') as [Hp|Hp]; [by apply Main|symmetry; by apply Main].
Qed.
End Source.

(** ** The loop over the handles *)

Section Match.
Context `{Dp : DP_ENV} (m : mem) (Hm : mem_ok m) (HW : 0 < dpW).
Context `{Env : HAND_ENV} `{!HAND_LAWS true all_stay none_come} (Hmem : ~ short).
Context (s : DB) (a : Z) (i : list node).

(** The device path of a handle of the database [s]. *)
Definition has_path (h : Z) (ns : list node) : Prop :=
  exists v, has s h gEfiDevicePathProtocolGuid v /\ valid_at m v ns.

Context (L : list Z) (HL : NoDup L).
(** The device path interfaces are paths, one for each handle, and no two
    handles have the same one of those that match. *)
Hypothesis paths : forall h v, h ∈ L -> has s h gEfiDevicePathProtocolGuid v ->
  exists ns, valid_at m v ns /\ len (encode ns) < 2 ^ (dpW - 1).
Hypothesis one_path : forall h v v', h ∈ L ->
  has s h gEfiDevicePathProtocolGuid v -> has s h gEfiDevicePathProtocolGuid v' -> v = v'.
Hypothesis distinct : forall h h' ns, h ∈ L -> h' ∈ L -> has_path h ns -> has_path h' ns -> ns `prefix_of` i -> h = h'.
Hypothesis Ha : 0 < a.
Hypothesis Hati : at_bytes m a (path_bytes i).
Hypothesis Hi : path_ok i.
Hypothesis Haw : a + len (path_bytes i) <= 2 ^ dpW.
Hypothesis Hiw : len (path_bytes i) < 2 ^ (dpW - 1).

(** [bm] and [bd] are the size and the handle of the longest match among the
    handles [hs], -1 if there is none. *)
Definition best (hs : list Z) (bm bd : Z) : Prop :=
  (bm = -1 /\ forall h ns, h ∈ hs -> has_path h ns -> ~ ns `prefix_of` i) \/
  (bd ∈ hs /\ exists ns, has_path bd ns /\ ns `prefix_of` i /\ bm = len (path_bytes ns) /\
     forall h ns', h ∈ hs -> has_path h ns' -> ns' `prefix_of` i -> len (path_bytes ns') <= bm).

Lemma path_unique h v ns ns' :
  h ∈ L -> has s h gEfiDevicePathProtocolGuid v -> valid_at m v ns -> has_path h ns' -> ns' = ns.
Proof using one_path.
  intros Hh Hv (_ & H1 & H2 & _) (v' & Hv' & _ & H1' & H2' & _). rewrite <- (one_path h v v' Hh Hv Hv') in H2'.
  by apply (encode_unique m v).
Qed.

Lemma best_skip hs bm bd h : best hs bm bd -> (forall ns, has_path h ns -> ~ ns `prefix_of` i) -> best (hs ++ [h]) bm bd.
Proof.
  intros [[-> Hno]|(Hbd & ns & H1 & H2 & -> & Hmax)] Hh; [left|right]; (split; [set_solver|]).
  - intros h' ns [Hin|Hin]%elem_of_app; [by apply Hno|]. apply list_elem_of_singleton in Hin as ->. apply Hh.
  - exists ns. split_and!; try done. intros h' ns' [Hin|Hin]%elem_of_app; [by apply Hmax|].
    apply list_elem_of_singleton in Hin as ->. intros Hp Hpre. by destruct (Hh ns').
Qed.

Lemma match_loop_best s1 todo hs bm bd :
  L = hs ++ todo -> wf s -> moves all_stay none_come false s s1 -> best hs bm bd ->
  wp true (match_loop m a (len (path_bytes i)) todo bm bd)
    (fun r s2 => moves all_stay none_come false s s2 /\ best L r.1 r.2) s1.
Proof using All.
  intros EL W. revert s1 hs bm bd EL. induction todo as [|h todo IH]; intros s1 hs bm bd EL G HB; cbn [match_loop].
  { apply wp_ret. rewrite app_nil_r in EL. by subst L. }
  assert (h ∈ L) as HhL by (rewrite EL; set_solver). pose proof G as ((W1 & Lk1 & _) & _).
  assert (h ∉ hs) as Hnew. { rewrite EL in HL. apply NoDup_app in HL as (_ & Hd & _). intros Hx. apply (Hd h Hx). by left. }
  eapply wp_seq; [by apply handle_protocol_answer|]. cbn beta. intros [st o] s2 [O Hr].
  pose proof (moves_trans _ _ _ _ _ _ _ G O) as G2.
  assert (forall s3, s3 = s2 -> forall bm' bd', best (hs ++ [h]) bm' bd' ->
    wp true (match_loop m a (len (path_bytes i)) todo bm' bd')
      (fun r s3 => moves all_stay none_come false s s3 /\ best L r.1 r.2) s3) as Next.
  { intros s3 -> bm' bd' HB'. apply (IH s2 (hs ++ [h])); [by rewrite <- app_assoc|done|done]. }
  destruct Hr as [(v & Hv & [= -> ->])|[Hno Hst]].
  2:{ cbn [fst] in Hst. rewrite Hst. apply Next; [done|]. apply best_skip; [done|]. intros ns (v & Hv & _).
      rewrite <- (has_moves false s s1 h _ v W G) in Hv. by destruct (Hno v). }
  cbn [EFI_ERROR]. rewrite (has_moves false s s1 h _ v W G) in Hv. destruct (paths h v HhL Hv) as (ns & Hns & Hnw).
  pose proof Hns as (Hv0 & Hokn & Hatn & _ & Hvw). pose proof (len_encode ns) as Hle.
  assert (GetDevicePathSize v m = Ok (len (encode ns), m)) as Esz by (by apply GetDevicePathSize_path).
  eapply wp_step; [unfold reading; by rewrite Esz|]. cbn beta. unfold NODE_HEADER.
  pose proof (pow2_half dpW HW) as H2w.
  rewrite (wrapU_id dpW) by (unfold inU; lia). rewrite Hle. replace (len (path_bytes ns) + 4 - 4) with (len (path_bytes ns)) by lia.
  rewrite (wrapS_id dpW) by (unfold inS; lia). eapply wp_step; [by rewrite (proj2 (Z.leb_le _ _)) by lia|]. cbn beta.
  apply at_bytes_app in Hatn as [Hatn _].
  assert (forall ns', has_path h ns' -> ns' = ns) as Huniq by (intros ns'; by apply (path_unique h v)).
  destruct (Z.leb_spec (len (path_bytes ns)) (len (path_bytes i))) as [Hsz|Hsz].
  2:{ eapply wp_step; [done|]. cbn beta iota. apply Next; [done|]. apply best_skip; [done|].
      intros ns' ->%Huniq. intros [k ->]. rewrite path_bytes_app, length_app in Hsz. lia. }
  destruct (compare_paths m Hm a i v ns) as (d & Ed & Hd); try done; [lia|].
  eapply wp_step; [rewrite (wrapU_id dpW) by (unfold inU; lia); unfold reading; unfold Mbind; by rewrite Ed|]. cbn beta.
  destruct (Z.eqb_spec d 0) as [->|Hd0].
  2:{ apply Next; [done|]. apply best_skip; [done|]. intros ns' ->%Huniq Hp. by apply Hd in Hp. }
  assert (ns `prefix_of` i) as Hpre by (by apply Hd).
  assert (has_path h ns) as Hhp by (by exists v).
  assert (len (path_bytes ns) <> bm) as Hneq.
  { intros E. destruct HB as [[-> _]|(Hbd & ns0 & H1 & H2 & -> & _)]; [lia|].
    assert (ns = ns0) as <- by (by apply (prefix_same_length i)).
    assert (h = bd) as -> by (apply (distinct h bd ns); try done; rewrite EL; set_solver). done. }
  eapply wp_step; [by rewrite (proj2 (Z.eqb_neq _ _) Hneq)|]. cbn beta.
  destruct (Z.ltb_spec bm (len (path_bytes ns))) as [Hlt|Hge]; apply Next; try done.
  - right. split; [set_solver|]. exists ns. split_and!; try done. intros h' ns' [Hin|Hin]%elem_of_app Hp' Hpre'.
    + destruct HB as [[-> Hno]|(Hbd & ns0 & H1 & H2 & -> & Hmax)]; [by destruct (Hno h' ns')|].
      specialize (Hmax h' ns' Hin Hp' Hpre'). lia.
    + apply list_elem_of_singleton in Hin as ->. by rewrite (Huniq ns' Hp').
  - destruct HB as [[-> _]|(Hbd & ns0 & H1 & H2 & -> & Hmax)]; [lia|]. right. split; [set_solver|].
    exists ns0. split_and!; try done. intros h' ns' [Hin|Hin]%elem_of_app Hp' Hpre'; [by apply (Hmax h')|].
    apply list_elem_of_singleton in Hin as ->. rewrite (Huniq ns' Hp'). lia.
Qed.
End Match.


(** ** Locating a device path *)

(** The handles [L] of the database [s] can be searched for the path [i]:
    their device path interfaces are paths in the memory [m], one for each
    handle, and no two handles have the same path among those that match. *)
Record searchable `{Dp : DP_ENV} (m : mem) (s : DB) (i : list node) (L : list Z) : Prop := {
  path_of h v : h ∈ L -> has s h gEfiDevicePathProtocolGuid v ->
    exists ns, valid_at m v ns /\ len (encode ns) < 2 ^ (dpW - 1);
  only_path h v v' : h ∈ L ->
    has s h gEfiDevicePathProtocolGuid v -> has s h gEfiDevicePathProtocolGuid v' -> v = v';
  own_path h h' ns : h ∈ L -> h' ∈ L -> has_path m s h ns -> has_path m s h' ns -> ns `prefix_of` i -> h = h'
}.

(** The handle [h] has the longest path [ns] that the path [i] starts with. *)
Definition longest_match `{Dp : DP_ENV} (m : mem) (s : DB) (i : list node) (L : list Z) (h : Z) (ns : list node) : Prop :=
  h ∈ L /\ has_path m s h ns /\ ns `prefix_of` i /\
  forall h' ns', h' ∈ L -> has_path m s h' ns' -> ns' `prefix_of` i -> len (path_bytes ns') <= len (path_bytes ns).

Lemma source_prefix src i ns : source_instance src i -> ns `prefix_of` i -> exists rest, src = ns ++ rest.
Proof. intros [i' _|i' e rest _ _] [k ->]; eexists; [done|]. by rewrite <- app_assoc. Qed.

(** CoreLocateDevicePath looks among the handles [L]
    that CoreLocateHandleBuffer returns for the protocol.  With a source path
    in memory, whose first instance is [i], it returns EFI_NOT_FOUND if there
    are none or if [i] starts with the device path of none of them; else the
    handle whose device path is the longest that [i] starts with, and the
    pointer moved behind that part of the path, where the rest of it is, or
    EFI_INVALID_PARAMETER if Device is NULL.  The installed protocols stay
    what they are. *)
Theorem Hand_locate_path (Dp : DP_ENV) (Env : HAND_ENV) (m : mem) (s : DB) g a src i st n L s1 :
  HAND_LAWS true all_stay none_come -> ~ short -> wf s -> gProtocolDatabaseLock s = false ->
  mem_ok m -> 0 < dpW -> valid_at m a src -> source_instance src i -> len (path_bytes i) < 2 ^ (dpW - 1) ->
  CoreLocateHandleBuffer ByProtocol (Some g) 0 true true s = Ok ((st, n, L), s1) -> NoDup L -> searchable m s i L ->
  forall Device, exists r s', CoreLocateDevicePath m (Some g) (Some a) Device s = Ok (r, s') /\
    outside all_stay none_come s s' /\
    if EFI_ERROR st || (n =? 0) then r = (EFI_NOT_FOUND, Some a, None)
    else
      (r = (EFI_NOT_FOUND, Some a, None) /\ forall h ns, h ∈ L -> has_path m s h ns -> ~ ns `prefix_of` i) \/
      exists h ns rest, longest_match m s i L h ns /\
        src = ns ++ rest /\ at_bytes m (a + len (path_bytes ns)) (encode rest) /\
        r = if Device then (EFI_SUCCESS, Some (a + len (path_bytes ns)), Some h) else (EFI_INVALID_PARAMETER, Some a, None).
Proof.
  intros Hlaws Hsh W Hlk Hm HW (Ha & Hok & Hat & _ & Haw) Hsrc Hiw EB HL [Hp1 Hp2 Hp3] Device.
  destruct (source_walk m a src i Ha Hok Hat Hsrc) as (Ew & Hati & Hi).
  assert (len (path_bytes i) <= len (encode src)) as Hle.
  { destruct (source_prefix src i i Hsrc (reflexivity i)) as [rest ->]. rewrite len_encode, path_bytes_app, length_app. lia. }
  pose proof (buffer_ok true all_stay none_come ByProtocol (Some g) 0 s W Hlk) as Hbuf.
  destruct (wp_total _ _ _ (Hbuf ltac:(done))) as (? & ? & E & O1 & _). rewrite EB in E. injection E as <- <-.
  unfold CoreLocateDevicePath. rewrite (proj2 (Z.eqb_neq a 0)) by lia.
  erewrite Mbind_Ok by (unfold reading; by rewrite Ew). erewrite Mbind_Ok by exact EB. cbn beta iota.
  destruct (_ || (n =? 0)). { eexists _, s1. split_and!; done. }
  pose proof (pow2_half dpW HW) as H2w. replace (a + len (path_bytes i) - a) with (len (path_bytes i)) by lia.
  rewrite (wrapU_id dpW) by (unfold inU; lia). rewrite (wrapS_id dpW) by (unfold inS; lia).
  pose proof (match_loop_best m Hm HW Hsh s a i L HL Hp1 Hp2 Hp3 Ha Hati Hi ltac:(lia) Hiw s1 L [] (-1) 0 eq_refl W O1) as HMB.
  destruct (wp_total _ _ _ (HMB ltac:(left; split; [done|]; intros h ns Hh%elem_of_nil; done))) as ([bm bd] & s' & Er & O' & HB).
  erewrite Mbind_Ok by exact Er. cbn [fst snd] in *.
  destruct HB as [[-> Hno]|(Hbd & ns & H1 & H2 & -> & Hmax)].
  { eexists _, s'. split_and!; try done. by left. }
  rewrite (proj2 (Z.eqb_neq _ (-1))) by lia.
  destruct (source_prefix src i ns Hsrc H2) as [rest Erest].
  assert (at_bytes m (a + len (path_bytes ns)) (encode rest)) as Hrest.
  { unfold encode in Hat. rewrite Erest, path_bytes_app, <- app_assoc, at_bytes_app in Hat. apply Hat. }
  destruct Device; cbn [negb]; (eexists _, s'; split; [reflexivity|]; split; [done|]; right; by exists bd, ns, rest).
Qed.

(** Three handles with device paths; the source at 500 starts with two of
    them. *)
Definition path_ram : mem :=
  blit 300 (encode [acpi_node]) (blit 400 (encode [acpi_node; pci_node])
    (blit 500 (encode [acpi_node; pci_node; pci_node]) bench_ram)).
Definition install_path (v : Z) : CALL :=
  InstallProtocolInterface (Some 0) (Some gEfiDevicePathProtocolGuid) EFI_NATIVE_INTERFACE v true.
Definition path_db : DB := after_calls [install_path 200; install_path 300; install_path 400].

Lemma path_db_wf : wf path_db.
Proof.
  refine (proj1 (reach_wf (Env := bench) true all_stay none_come (HAND_LAWS0 := bench_laws true) path_db _)).
  assert (forall cs v, reach (Env := bench) true all_stay none_come (after_calls cs) ->
    run (Env := bench) (install_path v) (after_calls cs) = Ok (tt, after_calls (cs ++ [install_path v])) ->
    reach (Env := bench) true all_stay none_come (after_calls (cs ++ [install_path v]))) as Step.
  { intros cs v R E. by eapply (reach_call (Env := bench)); [exact R| |exact E]. }
  apply (Step [install_path 200; install_path 300] 400); [|vm_compute; reflexivity].
  apply (Step [install_path 200] 300); [|vm_compute; reflexivity].
  apply (Step [] 200); [apply reach_start|vm_compute; reflexivity].
Qed.

(** The interfaces of a protocol on a handle, computed. *)
Definition interface_values (s : DB) (h : Z) (g : EFI_GUID) : list Z :=
  omap (fun p => P ← interfaces s !! p;
    if decide (eguid s (Protocol P) = Some g) then Some (Interface P) else None) (hprots s h).

Lemma has_value s h g v : wf s -> has s h g v -> v ∈ interface_values s h g.
Proof.
  intros W (p & P & (e & Hl & Hg) & HP & <-). destruct (linked_interface s W p h e Hl) as (_ & P' & HP' & _ & He).
  destruct Hl as (_ & _ & _ & Hin & _). unfold interface_values. apply list_elem_of_omap. exists p. split; [done|].
  rewrite HP. assert (P' = P) as -> by congruence. cbn. subst e. by rewrite decide_True.
Qed.

Lemma path_at_ram n a bs : load_bytes n a path_ram = Ok bs -> at_bytes path_ram a bs.
Proof. by intros [? _]%load_bytes_inv. Qed.

Lemma path_db_paths h v : h ∈ [3; 5; 7] -> has path_db h gEfiDevicePathProtocolGuid v ->
  (h, v) = (3, 200) \/ (h, v) = (5, 300) \/ (h, v) = (7, 400).
Proof.
  intros Hh Hv%(has_value _ _ _ _ path_db_wf).
  rewrite !elem_of_cons, elem_of_nil in Hh. destruct Hh as [->|[->|[->|[]]]];
    (vm_compute in Hv; apply list_elem_of_singleton in Hv as ->); tauto.
Qed.

Lemma path_ram_valid v ns :
  (v, ns) ∈ [(200, [pci_node]); (300, [acpi_node]); (400, [acpi_node; pci_node]); (500, [acpi_node; pci_node; pci_node])] ->
  @valid_at bench_dp path_ram v ns.
Proof.
  assert (forall v' ns', 0 < v' -> path_ok ns' -> load_bytes (length (encode ns')) v' path_ram = Ok (encode ns') ->
    v' + len (encode ns') <= 2 ^ 64 -> @valid_at bench_dp path_ram v' ns') as Main.
  { intros v' ns' H1 H2 H3 H4. split; [done|]. split; [done|]. split; [by eapply path_at_ram|]. split; [apply bench_count|done]. }
  rewrite !elem_of_cons, elem_of_nil. intros Hv.
  destruct Hv as [[= -> ->]|[[= -> ->]|[[= -> ->]|[[= -> ->]|[]]]]];
    (apply Main; [done|by_decide|vm_compute; reflexivity|by vm_compute]).
Qed.

Definition path_table : list (Z * Z * list node) :=
  [(3, 200, [pci_node]); (5, 300, [acpi_node]); (7, 400, [acpi_node; pci_node])].

Lemma path_db_searchable i : @searchable bench_dp path_ram path_db i [3; 5; 7].
Proof.
  assert (forall h v, h ∈ [3; 5; 7] -> has path_db h gEfiDevicePathProtocolGuid v ->
    exists ns, In (h, v, ns) path_table /\ @valid_at bench_dp path_ram v ns) as Main.
  { intros h v Hh Hv. destruct (path_db_paths h v Hh Hv) as [[= -> ->]|[[= -> ->]|[= -> ->]]];
      (eexists; split; [unfold path_table; cbn [In]; tauto|apply path_ram_valid; set_solver]). }
  split.
  - intros h v Hh Hv. destruct (Main h v Hh Hv) as (ns & Hin & Hv'). exists ns. split; [done|].
    by destruct Hin as [[= <- <- <-]|[[= <- <- <-]|[[= <- <- <-]|[]]]].
  - intros h v v' Hh Hv Hv'. destruct (path_db_paths h v Hh Hv) as [[= -> ->]|[[= -> ->]|[= -> ->]]];
      by destruct (path_db_paths _ v' Hh Hv') as [[= ->]|[[= ->]|[= ->]]].
  - intros h h' ns Hh Hh' (v & Hv & _ & H1 & H2 & _) (v' & Hv' & _ & H1' & H2' & _) _.
    destruct (Main h v Hh Hv) as (n & Hin & _ & H3 & H4 & _). destruct (Main h' v' Hh' Hv') as (n' & Hin' & _ & H3' & H4' & _).
    rewrite <- (encode_unique path_ram v ns n H1 H3 H2 H4) in Hin.
    rewrite <- (encode_unique path_ram v' ns n' H1' H3' H2' H4') in Hin'.
    destruct Hin as [[= <- <- <-]|[[= <- <- <-]|[[= <- <- <-]|[]]]];
      by destruct Hin' as [[= <- <-]|[[= <- <-]|[[= <- <-]|[]]]].
Qed.

Lemma bench_pool_never_short : ~ short (Env := bench).
Proof. by intros [s H]. Qed.

Lemma Hand_locate_path_witness :
  exists r s', @CoreLocateDevicePath bench_dp path_ram bench (Some gEfiDevicePathProtocolGuid) (Some 500) true path_db = Ok (r, s') /\
    outside all_stay none_come path_db s' /\ r = (EFI_SUCCESS, Some 518, Some 7).
Proof.
  destruct (Hand_locate_path bench_dp bench path_ram path_db gEfiDevicePathProtocolGuid 500 [acpi_node; pci_node; pci_node]
    [acpi_node; pci_node; pci_node] EFI_SUCCESS 3 [3; 5; 7]
    (match CoreLocateHandleBuffer (Env := bench) ByProtocol (Some gEfiDevicePathProtocolGuid) 0 true true path_db with
     | Ok (_, s') => s' | _ => path_db end) (bench_laws true) bench_pool_never_short path_db_wf) with (Device := true)
    as (r & s' & E & O & _).
  - reflexivity.
  - by_decide.
  - done.
  - apply path_ram_valid. set_solver.
  - apply source_whole. by_decide.
  - by vm_compute.
  - vm_compute. reflexivity.
  - by_decide.
  - apply path_db_searchable.
  - exists r, s'. split; [exact E|]. split; [exact O|].
    assert (match @CoreLocateDevicePath bench_dp path_ram bench (Some gEfiDevicePathProtocolGuid) (Some 500) true path_db with
      | Ok (x, _) => x = (EFI_SUCCESS, Some 518, Some 7) | _ => False end) as V by (vm_compute; reflexivity).
    by rewrite E in V.
Defined.

(** ** Several protocols at a time *)

Definition guid_a : EFI_GUID := repeat 1 16.
Definition guid_b : EFI_GUID := repeat 2 16.

(** The second protocol is on the handle already: the first one is removed
    again. *)
Example Install_multiple_undone :
  match @CoreInstallMultipleProtocolInterfaces bench_dp path_ram bench bench (Some 4)
          [(guid_a, 11); (wit_guid, 12); (guid_b, 13)] wit_db with
  | Ok ((st, h), s') => st = EFI_INVALID_PARAMETER /\ h = 4 /\ hprots s' 4 = hprots wit_db 4
  | _ => False
  end.
Proof. vm_compute. split_and!; reflexivity. Qed.

(** A device path that is in the database already is refused, and what was
    installed before it is removed with its handle. *)
Example Install_multiple_already_started :
  match @CoreInstallMultipleProtocolInterfaces bench_dp path_ram bench bench (Some 0)
          [(guid_a, 11); (gEfiDevicePathProtocolGuid, 300)] path_db with
  | Ok ((st, h), s') => st = EFI_ALREADY_STARTED /\ h = 0 /\ gHandleList s' = gHandleList path_db
  | _ => False
  end.
Proof. vm_compute. split_and!; reflexivity. Qed.

(** The only protocol of the handle is uninstalled and the second removal
    fails.  The handle was freed with its last protocol, so that the
    protocol is not installed again. *)
Example Uninstall_multiple_loses :
  match @CoreUninstallMultipleProtocolInterfaces bench 4 [(wit_guid, 100); (guid_a, 11)] wit_db with
  | Ok (st, s') => st = EFI_INVALID_PARAMETER /\ gHandleList wit_db = [4] /\ gHandleList s' = []
  | _ => False
  end.
Proof. vm_compute. split_and!; reflexivity. Qed.
