(* ===== verification/Dispatch.v ===== *)
(** * Dispatch: the driver queues of the DXE dispatcher

    MdeModulePkg/Core/Dxe/Dispatcher/Dispatcher.c.  Every driver that is found
    in a firmware volume gets an entry on mDiscoveredList, which is never
    removed; drivers that may run are on mScheduledQueue, and the dispatcher
    loads and starts them in that order.

    The lists are lists of the addresses of the entries; putting an entry on
    a list that it is on already, or removing one that is not on it, is a
    [Fault].  The rest of the system is a value [world] of an abstract type.
    What the dispatcher calls is the class [DISP_ENV]: functions of the
    firmware volume protocol and the question whether a protocol is installed
    concern the world only; loading and starting images, signalling events and
    restoring the TPL run other code, which may call the dispatcher's services
    and so change its state. *)

From stdpp Require Import base option list gmap fin_maps.
From Stdlib Require Import ZArith Lia.
From S2P Require Import Prelude Depex.

Local Open Scope Z_scope.
Local Open Scope edk_scope.

(** ** Data *)

(** [Expr] holds Depex, DepexSize, Before, After, BeforeAfterGuid, Dependent
    and Unrequested. *)
Record EFI_CORE_DRIVER_ENTRY := mkEntry {
  FvHandle : Z;
  FileName : GUID;
  FvFileDevicePath : Z;
  Fv : Z;
  Expr : DRIVER_ENTRY;
  Scheduled : bool;
  Untrusted : bool;
  Initialized : bool;
  DepexProtocolError : bool;
  ImageHandle : Z;
  IsFvImage : bool
}.

Record KNOWN_HANDLE := mkKnown {
  KnownFv : Z;
  FvNameGuid : GUID
}.

Definition set_Expr (x : DRIVER_ENTRY) (e : EFI_CORE_DRIVER_ENTRY) : EFI_CORE_DRIVER_ENTRY :=
  mkEntry (FvHandle e) (FileName e) (FvFileDevicePath e) (Fv e) x (Scheduled e) (Untrusted e) (Initialized e)
    (DepexProtocolError e) (ImageHandle e) (IsFvImage e).
Definition set_Scheduled (b : bool) (e : EFI_CORE_DRIVER_ENTRY) : EFI_CORE_DRIVER_ENTRY :=
  mkEntry (FvHandle e) (FileName e) (FvFileDevicePath e) (Fv e) (Expr e) b (Untrusted e) (Initialized e)
    (DepexProtocolError e) (ImageHandle e) (IsFvImage e).
Definition set_Untrusted (b : bool) (e : EFI_CORE_DRIVER_ENTRY) : EFI_CORE_DRIVER_ENTRY :=
  mkEntry (FvHandle e) (FileName e) (FvFileDevicePath e) (Fv e) (Expr e) (Scheduled e) b (Initialized e)
    (DepexProtocolError e) (ImageHandle e) (IsFvImage e).
Definition set_Initialized (b : bool) (e : EFI_CORE_DRIVER_ENTRY) : EFI_CORE_DRIVER_ENTRY :=
  mkEntry (FvHandle e) (FileName e) (FvFileDevicePath e) (Fv e) (Expr e) (Scheduled e) (Untrusted e) b
    (DepexProtocolError e) (ImageHandle e) (IsFvImage e).
Definition set_DepexProtocolError (b : bool) (e : EFI_CORE_DRIVER_ENTRY) : EFI_CORE_DRIVER_ENTRY :=
  mkEntry (FvHandle e) (FileName e) (FvFileDevicePath e) (Fv e) (Expr e) (Scheduled e) (Untrusted e) (Initialized e)
    b (ImageHandle e) (IsFvImage e).
Definition set_ImageHandle (h : Z) (e : EFI_CORE_DRIVER_ENTRY) : EFI_CORE_DRIVER_ENTRY :=
  mkEntry (FvHandle e) (FileName e) (FvFileDevicePath e) (Fv e) (Expr e) (Scheduled e) (Untrusted e) (Initialized e)
    (DepexProtocolError e) h (IsFvImage e).
Definition set_Dependent (b : bool) (e : EFI_CORE_DRIVER_ENTRY) : EFI_CORE_DRIVER_ENTRY :=
  let x := Expr e in
  set_Expr (mkDriver (Depex x) (DepexSize x) (Before x) (After x) b (Unrequested x) (BeforeAfterGuid x)) e.
Definition set_Unrequested (b : bool) (e : EFI_CORE_DRIVER_ENTRY) : EFI_CORE_DRIVER_ENTRY :=
  let x := Expr e in
  set_Expr (mkDriver (Depex x) (DepexSize x) (Before x) (After x) (Dependent x) b (BeforeAfterGuid x)) e.

Record DISP (World : Type) := mkDisp {
  drivers : gmap Z EFI_CORE_DRIVER_ENTRY;
  mDiscoveredList : list Z;
  mScheduledQueue : list Z;
  mFvHandleList : list KNOWN_HANDLE;
  gDispatcherRunning : bool;
  mDispatcherLock : bool;
  mDepexStack : option (list (option bool)) * nat;
  gDxeCoreLoadedImage : Z * Z;
  world : World
}.
Arguments mkDisp {World}.
Arguments drivers {World}.
Arguments mDiscoveredList {World}.
Arguments mScheduledQueue {World}.
Arguments mFvHandleList {World}.
Arguments gDispatcherRunning {World}.
Arguments mDispatcherLock {World}.
Arguments mDepexStack {World}.
Arguments gDxeCoreLoadedImage {World}.
Arguments world {World}.

Section Update.
Context {World : Type}.
Implicit Type s : DISP World.

Definition upd_drivers (x : gmap Z EFI_CORE_DRIVER_ENTRY) s : DISP World :=
  mkDisp x (mDiscoveredList s) (mScheduledQueue s) (mFvHandleList s) (gDispatcherRunning s) (mDispatcherLock s)
    (mDepexStack s) (gDxeCoreLoadedImage s) (world s).
Definition upd_mDiscoveredList (x : list Z) s : DISP World :=
  mkDisp (drivers s) x (mScheduledQueue s) (mFvHandleList s) (gDispatcherRunning s) (mDispatcherLock s)
    (mDepexStack s) (gDxeCoreLoadedImage s) (world s).
Definition upd_mScheduledQueue (x : list Z) s : DISP World :=
  mkDisp (drivers s) (mDiscoveredList s) x (mFvHandleList s) (gDispatcherRunning s) (mDispatcherLock s)
    (mDepexStack s) (gDxeCoreLoadedImage s) (world s).
Definition upd_mFvHandleList (x : list KNOWN_HANDLE) s : DISP World :=
  mkDisp (drivers s) (mDiscoveredList s) (mScheduledQueue s) x (gDispatcherRunning s) (mDispatcherLock s)
    (mDepexStack s) (gDxeCoreLoadedImage s) (world s).
Definition upd_gDispatcherRunning (x : bool) s : DISP World :=
  mkDisp (drivers s) (mDiscoveredList s) (mScheduledQueue s) (mFvHandleList s) x (mDispatcherLock s)
    (mDepexStack s) (gDxeCoreLoadedImage s) (world s).
Definition upd_mDispatcherLock (x : bool) s : DISP World :=
  mkDisp (drivers s) (mDiscoveredList s) (mScheduledQueue s) (mFvHandleList s) (gDispatcherRunning s) x
    (mDepexStack s) (gDxeCoreLoadedImage s) (world s).
Definition upd_mDepexStack (x : option (list (option bool)) * nat) s : DISP World :=
  mkDisp (drivers s) (mDiscoveredList s) (mScheduledQueue s) (mFvHandleList s) (gDispatcherRunning s) (mDispatcherLock s)
    x (gDxeCoreLoadedImage s) (world s).
Definition upd_gDxeCoreLoadedImage (x : Z * Z) s : DISP World :=
  mkDisp (drivers s) (mDiscoveredList s) (mScheduledQueue s) (mFvHandleList s) (gDispatcherRunning s) (mDispatcherLock s)
    (mDepexStack s) x (world s).
Definition upd_world (x : World) s : DISP World :=
  mkDisp (drivers s) (mDiscoveredList s) (mScheduledQueue s) (mFvHandleList s) (gDispatcherRunning s) (mDispatcherLock s)
    (mDepexStack s) (gDxeCoreLoadedImage s) x.
End Update.

(** ** The environment *)

Class DISP_ENV (World : Type) := mkDispEnv {
  NDEBUG : bool;
  (** AllocatePool for the evaluation stack and for driver entries *)
  StackPool : nat -> bool;
  EntryPool : DISP World -> option Z;
  (** CoreLocateProtocol and mArchProtocols *)
  Located : World -> GUID -> bool;
  ArchProtocols : World -> list bool;
  (** Fv->ReadSection, instance 0 *)
  ReadSection : Z -> GUID -> Z -> M World (EFI_STATUS * list Z);
  CoreFvToDevicePath : Z -> Z -> GUID -> M World Z;
  RestoreTpl : M (DISP World) unit;
  (** the status and the value of DriverEntry->ImageHandle afterwards *)
  CoreLoadImage : Z -> M (DISP World) (EFI_STATUS * Z);
  CoreStartImage : Z -> M (DISP World) EFI_STATUS;
  CoreProcessFvImageFile : Z -> Z -> GUID -> M (DISP World) EFI_STATUS;
  CoreCreateEventEx : M (DISP World) (EFI_STATUS * Z);
  CoreSignalEvent : Z -> M (DISP World) unit;
  CoreCloseEvent : Z -> M (DISP World) unit;
  fuel : nat
}.

Definition EFI_SECTION_DXE_DEPEX : Z := 0x13.
Definition EFI_FV_FILETYPE_FIRMWARE_VOLUME_IMAGE : Z := 0x0B.

Section Dispatcher.
Context {World : Type} `{Env : !DISP_ENV World}.

Abbreviation D := (M (DISP World)).

Definition DASSERT (b : bool) : D unit := if b then Mret tt else Mfail AssertFail.

Definition on_world {A} (c : M World A) : D A := fun s =>
  match c (world s) with
  | Ok (a, w) => Ok (a, upd_world w s)
  | AssertFail => AssertFail
  | Fault => Fault
  | OutOfFuel => OutOfFuel
  end.

Definition entry_at (d : Z) : D EFI_CORE_DRIVER_ENTRY := fun s =>
  match drivers s !! d with Some e => Ok (e, s) | None => Fault end.
Definition on_entry (d : Z) (f : EFI_CORE_DRIVER_ENTRY -> EFI_CORE_DRIVER_ENTRY) : D unit :=
  let! e := entry_at d in Mmodify (fun s => upd_drivers (<[d := f e]> (drivers s)) s).

(** InsertTailList and RemoveEntryList for ScheduledLink *)
Definition enqueue (d : Z) : D unit := fun s =>
  if bool_decide (d ∈ mScheduledQueue s) then Fault
  else Ok (tt, upd_mScheduledQueue (mScheduledQueue s ++ [d]) s).
Definition dequeue (d : Z) : D unit := fun s =>
  if bool_decide (d ∈ mScheduledQueue s) then Ok (tt, upd_mScheduledQueue (filter (fun x => x <> d) (mScheduledQueue s)) s)
  else Fault.

Definition CoreAcquireDispatcherLock : D unit :=
  let! s := Mget in
  DASSERT (negb (mDispatcherLock s)) ;;;
  Mmodify (upd_mDispatcherLock true).

Definition CoreReleaseDispatcherLock : D unit :=
  let! s := Mget in
  DASSERT (mDispatcherLock s) ;;;
  Mmodify (upd_mDispatcherLock false) ;;;
  RestoreTpl.

(** ** Dependency expressions *)

Definition preprocess (d : Z) : D unit := fun s =>
  match drivers s !! d with
  | None => Fault
  | Some e =>
      match CorePreProcessDepex (Expr e) with
      | Ok (_, x) => Ok (tt, upd_drivers (<[d := set_Expr x e]> (drivers s)) s)
      | AssertFail => AssertFail
      | Fault => Fault
      | OutOfFuel => OutOfFuel
      end
  end.

Definition set_section (l : option (list Z)) (n : Z) (e : EFI_CORE_DRIVER_ENTRY) : EFI_CORE_DRIVER_ENTRY :=
  let x := Expr e in
  set_Expr (mkDriver l n (Before x) (After x) (Dependent x) (Unrequested x) (BeforeAfterGuid x)) e.

Definition CoreGetDepexSectionAndPreProccess (d : Z) : D EFI_STATUS :=
  let! e := entry_at d in
  let! r := on_world (ReadSection (Fv e) (FileName e) EFI_SECTION_DXE_DEPEX) in
  let '(Status, Section) := r in
  if EFI_ERROR Status then
    (if bool_decide (Status = EFI_PROTOCOL_ERROR) then on_entry d (set_DepexProtocolError true)
     else
       on_entry d (set_section None (DepexSize (Expr e))) ;;;
       on_entry d (set_Dependent true) ;;;
       on_entry d (set_DepexProtocolError false)) ;;;
    Mret Status
  else
    on_entry d (set_section (Some Section) (Z.of_nat (length Section))) ;;;
    preprocess d ;;;
    on_entry d (set_DepexProtocolError false) ;;;
    Mret Status.

(** CoreIsSchedulable (DriverEntry), with the global evaluation stack. *)
Definition schedulable (d : Z) : D bool := fun s =>
  match drivers s !! d with
  | None => Fault
  | Some e =>
      match CoreIsSchedulable NDEBUG StackPool (Located (world s)) (ArchProtocols (world s))
              (mkState (mDepexStack s).1 (mDepexStack s).2 (Expr e)) with
      | Ok (b, t) =>
          Ok (b, upd_mDepexStack (mDepexEvaluationStack t, mDepexEvaluationStackPointer t)
                   (upd_drivers (<[d := set_Expr (DriverEntry t) e]> (drivers s)) s))
      | AssertFail => AssertFail
      | Fault => Fault
      | OutOfFuel => OutOfFuel
      end
  end.

(** ** Requests by name *)

(** The first driver on the list with the properties. *)
Fixpoint find_driver (test : EFI_CORE_DRIVER_ENTRY -> bool) (l : list Z) : D (option Z) :=
  match l with
  | [] => Mret None
  | d :: l' =>
      let! e := entry_at d in
      if test e then Mret (Some d) else find_driver test l'
  end.

Definition CoreSchedule (FirmwareVolumeHandle : Z) (DriverName : GUID) : D EFI_STATUS :=
  let! s := Mget in
  let! r := find_driver (fun e => (FvHandle e =? FirmwareVolumeHandle) && Unrequested (Expr e) &&
                                  bool_decide (DriverName = FileName e)) (mDiscoveredList s) in
  match r with
  | Some d =>
      CoreAcquireDispatcherLock ;;;
      on_entry d (set_Unrequested false) ;;;
      on_entry d (set_Dependent true) ;;;
      CoreReleaseDispatcherLock ;;;
      Mret EFI_SUCCESS
  | None => Mret EFI_NOT_FOUND
  end.

Definition CoreTrust (FirmwareVolumeHandle : Z) (DriverName : GUID) : D EFI_STATUS :=
  let! s := Mget in
  let! r := find_driver (fun e => (FvHandle e =? FirmwareVolumeHandle) && Untrusted e &&
                                  bool_decide (DriverName = FileName e)) (mDiscoveredList s) in
  match r with
  | Some d =>
      CoreAcquireDispatcherLock ;;;
      on_entry d (set_Untrusted false) ;;;
      on_entry d (set_Scheduled true) ;;;
      enqueue d ;;;
      CoreReleaseDispatcherLock ;;;
      Mret EFI_SUCCESS
  | None => Mret EFI_NOT_FOUND
  end.

(** ** Discovery *)

(** What AllocateZeroPool makes of an entry. *)
Definition zero_entry : EFI_CORE_DRIVER_ENTRY :=
  mkEntry 0 (replicate sizeof_GUID 0) 0 0 (mkDriver None 0 false false false false (replicate sizeof_GUID 0))
    false false false false 0 false.

Definition CoreAddToDriverList (Fv_ FvHandle_ : Z) (DriverName : GUID) (Type_ : Z) : D EFI_STATUS :=
  let! s := Mget in
  match EntryPool s with
  | None => Mfail AssertFail
  | Some d =>
      let! path := on_world (CoreFvToDevicePath Fv_ FvHandle_ DriverName) in
      Mmodify (fun s => upd_drivers (<[d :=
        mkEntry FvHandle_ DriverName path Fv_ (Expr zero_entry) false false false false 0
          (Type_ =? EFI_FV_FILETYPE_FIRMWARE_VOLUME_IMAGE)]> (drivers s)) s) ;;;
      CoreGetDepexSectionAndPreProccess d ;;;
      CoreAcquireDispatcherLock ;;;
      Mmodify (fun s => upd_mDiscoveredList (mDiscoveredList s ++ [d]) s) ;;;
      CoreReleaseDispatcherLock ;;;
      Mret EFI_SUCCESS
  end.

(** ** Scheduling *)

(** [for (Link = mDiscoveredList.ForwardLink; Link != &mDiscoveredList; Link =
    Link->ForwardLink)]: the list may grow while the body runs.  The result
    tells whether the body returned TRUE for some driver. *)
Fixpoint next_link (l : list Z) (d : Z) : option (option Z) :=
  match l with
  | [] => None
  | x :: l' => if x =? d then Some (head l') else next_link l' d
  end.

Fixpoint each_driver (turns : nat) (body : Z -> D bool) (Link : option Z) (found : bool) : D bool :=
  match Link with
  | None => Mret found
  | Some d =>
      match turns with
      | O => Mfail OutOfFuel
      | S turns' =>
          let! b := body d in
          let! s := Mget in
          match next_link (mDiscoveredList s) d with
          | Some Link' => each_driver turns' body Link' (found || b)
          | None => Mfail Fault
          end
      end
  end.
Definition for_drivers (body : Z -> D bool) : D bool :=
  let! s := Mget in each_driver fuel body (head (mDiscoveredList s)) false.

(** One turn of the two loops: [flag] is Before or After. *)
Definition relative (flag : DRIVER_ENTRY -> bool) (insert : Z -> D unit) (InsertedDriverEntry d : Z) : D bool :=
  let! e := entry_at d in
  if flag (Expr e) && Dependent (Expr e) && negb (d =? InsertedDriverEntry) then
    let! i := entry_at InsertedDriverEntry in
    if bool_decide (FileName i = BeforeAfterGuid (Expr e)) then insert d ;;; Mret true else Mret false
  else Mret false.

Fixpoint insert_nested (depth : nat) (InsertedDriverEntry : Z) : D unit :=
  match depth with
  | O => Mfail OutOfFuel
  | S depth' =>
      for_drivers (relative Before (insert_nested depth') InsertedDriverEntry) ;;;
      CoreAcquireDispatcherLock ;;;
      on_entry InsertedDriverEntry (set_Dependent false) ;;;
      on_entry InsertedDriverEntry (set_Scheduled true) ;;;
      enqueue InsertedDriverEntry ;;;
      CoreReleaseDispatcherLock ;;;
      for_drivers (relative After (insert_nested depth') InsertedDriverEntry) ;;;
      Mret tt
  end.
Definition CoreInsertOnScheduledQueueWhileProcessingBeforeAndAfter (InsertedDriverEntry : Z) : D unit :=
  insert_nested fuel InsertedDriverEntry.

(** ** Dispatching *)

(** One driver at the head of the queue: whether it got as far as being
    started. *)
Definition dispatch_one (d : Z) : D bool :=
  let! e := entry_at d in
  let! Status :=
    (if (ImageHandle e =? 0) && negb (IsFvImage e) then
       let! r := CoreLoadImage (FvFileDevicePath e) in
       on_entry d (set_ImageHandle r.2) ;;;
       Mret r.1
     else Mret EFI_SUCCESS) in
  if EFI_ERROR Status then
    CoreAcquireDispatcherLock ;;;
    (if bool_decide (Status = EFI_SECURITY_VIOLATION) then on_entry d (set_Untrusted true)
     else on_entry d (set_Initialized true)) ;;;
    on_entry d (set_Scheduled false) ;;;
    dequeue d ;;;
    CoreReleaseDispatcherLock ;;;
    Mret false
  else
    CoreAcquireDispatcherLock ;;;
    on_entry d (set_Scheduled false) ;;;
    on_entry d (set_Initialized true) ;;;
    dequeue d ;;;
    CoreReleaseDispatcherLock ;;;
    let! e := entry_at d in
    (if IsFvImage e then CoreProcessFvImageFile (Fv e) (FvHandle e) (FileName e)
     else
       DASSERT (negb (ImageHandle e =? 0)) ;;;
       CoreStartImage (ImageHandle e)) ;;;
    Mret true.

(** [while (!IsListEmpty (&mScheduledQueue))] *)
Fixpoint drain (turns : nat) (ReturnStatus : EFI_STATUS) : D EFI_STATUS :=
  let! s := Mget in
  match mScheduledQueue s with
  | [] => Mret ReturnStatus
  | d :: _ =>
      match turns with
      | O => Mfail OutOfFuel
      | S turns' =>
          let! started := dispatch_one d in
          drain turns' (if started then EFI_SUCCESS else ReturnStatus)
      end
  end.

(** One driver of the search for drivers that became ready. *)
Definition consider (d : Z) : D bool :=
  let! e := entry_at d in
  (if DepexProtocolError e then CoreGetDepexSectionAndPreProccess d ;;; Mret tt else Mret tt) ;;;
  let! e := entry_at d in
  if Dependent (Expr e) then
    let! ready := schedulable d in
    if ready then CoreInsertOnScheduledQueueWhileProcessingBeforeAndAfter d ;;; Mret true else Mret false
  else Mret false.

Fixpoint dispatch_loop (turns : nat) (DxeDispatchEvent : Z) (ReturnStatus : EFI_STATUS) : D EFI_STATUS :=
  match turns with
  | O => Mfail OutOfFuel
  | S turns' =>
      let! ReturnStatus := drain fuel ReturnStatus in
      (if EFI_ERROR ReturnStatus then Mret tt else CoreSignalEvent DxeDispatchEvent) ;;;
      let! ReadyToRun := for_drivers consider in
      if ReadyToRun then dispatch_loop turns' DxeDispatchEvent ReturnStatus else Mret ReturnStatus
  end.

Definition CoreDispatcher : D EFI_STATUS :=
  let! s := Mget in
  if gDispatcherRunning s then Mret EFI_ALREADY_STARTED
  else
    Mmodify (upd_gDispatcherRunning true) ;;;
    let! r := CoreCreateEventEx in
    let '(Status, DxeDispatchEvent) := r in
    if EFI_ERROR Status then Mret Status
    else
      let! ReturnStatus := dispatch_loop fuel DxeDispatchEvent EFI_NOT_FOUND in
      CoreCloseEvent DxeDispatchEvent ;;;
      Mmodify (upd_gDispatcherRunning false) ;;;
      Mret ReturnStatus.
End Dispatcher.
