(* ===== verification/DispatchInv.v ===== *)
(** * DispatchInv: phases of a driver, and the invariant of the dispatcher

    The flags of an entry put the driver in one of six phases.  The queue
    holds exactly the drivers in phase [Queued].  Other code may discover
    drivers, request them and trust them; it does not touch the drivers that
    wait for their dependencies.  Then the contract of the environment and the
    basic steps. *)

From stdpp Require Import base option list gmap fin_maps.
From Stdlib Require Import ZArith Lia.
From S2P Require Import Prelude Depex Dispatch.

Local Open Scope Z_scope.
Local Open Scope edk_scope.

(** ** Phases *)

(** Depex not read, Unrequested, Dependent, Scheduled, Untrusted,
    Initialized *)
Inductive phase : Type := Unread | OnRequest | Waiting | Queued | Distrusted | Done.

#[global] Instance phase_eq_dec : EqDecision phase.
Proof. solve_decision. Defined.

Definition in_phase (e : EFI_CORE_DRIVER_ENTRY) (p : phase) : Prop :=
  DepexProtocolError e = bool_decide (p = Unread) /\ Unrequested (Expr e) = bool_decide (p = OnRequest) /\
  Dependent (Expr e) = bool_decide (p = Waiting) /\ Scheduled e = bool_decide (p = Queued) /\
  Untrusted e = bool_decide (p = Distrusted) /\ Initialized e = bool_decide (p = Done).

(** The dependency expression can be evaluated. *)
Definition depex_ok (x : DRIVER_ENTRY) : Prop :=
  Before x && After x = false /\
  (Before x = false -> After x = false ->
   Depex x = None \/ exists sor t, guids_ok t /\ has_depex (depex_bytes sor t) x).

Definition entry_ok (e : EFI_CORE_DRIVER_ENTRY) : Prop :=
  (exists p, in_phase e p) /\ depex_ok (Expr e) /\
  (DepexProtocolError e = true -> Before (Expr e) = false /\ After (Expr e) = false).

Lemma in_phase_unique e p q : in_phase e p -> in_phase e q -> p = q.
Proof.
  intros (H1 & H2 & H3 & H4 & H5 & H6) (K1 & K2 & K3 & K4 & K5 & K6).
  destruct p; [rewrite H1 in K1|rewrite H2 in K2|rewrite H3 in K3|rewrite H4 in K4|rewrite H5 in K5|rewrite H6 in K6];
    match goal with H : bool_decide (?x = ?x) = _ |- _ => rewrite bool_decide_true in H by done; symmetry in H;
      by apply bool_decide_eq_true in H end.
Qed.

(** ** The invariant; [N] bounds the number of drivers *)

Section Invariant.
Context {World : Type} (N : nat).
Implicit Types s : DISP World.

Record wf s : Prop := {
  wf_nodup : NoDup (mDiscoveredList s);
  wf_entries d : d ∈ mDiscoveredList s <-> is_Some (drivers s !! d);
  wf_size : (length (mDiscoveredList s) <= N)%nat;
  wf_queue : NoDup (mScheduledQueue s);
  wf_queued d : d ∈ mScheduledQueue s <-> exists e, drivers s !! d = Some e /\ Scheduled e = true;
  wf_entry d e : drivers s !! d = Some e -> entry_ok e;
  wf_names d d' e e' : drivers s !! d = Some e -> drivers s !! d' = Some e' -> FileName e = FileName e' -> d = d'
}.

Definition phase_of s (d : Z) (p : phase) : Prop := exists e, drivers s !! d = Some e /\ in_phase e p.
Definition settled s (d : Z) : Prop := phase_of s d Queued \/ phase_of s d Distrusted \/ phase_of s d Done.

Lemma phase_total s d e : wf s -> drivers s !! d = Some e -> exists p, phase_of s d p.
Proof. intros W He. destruct (wf_entry s W d e He) as ([p Hp] & _). by exists p, e. Qed.
Lemma phase_unique s d p q : phase_of s d p -> phase_of s d q -> p = q.
Proof. intros (e & He & Hp) (e' & He' & Hq). simplify_eq. by eapply in_phase_unique. Qed.
Lemma waiting_not_settled s d : phase_of s d Waiting -> ~ settled s d.
Proof. intros H [K|[K|K]]; by pose proof (phase_unique s d _ _ H K). Qed.
Lemma waiting_flag s d e : wf s -> drivers s !! d = Some e -> Dependent (Expr e) = true <-> phase_of s d Waiting.
Proof.
  intros W He. destruct (phase_total s d e W He) as (p & e' & He' & Hp). simplify_eq. split.
  - intros Hd. exists e. split; [done|]. pose proof Hp as (_ & _ & H & _). rewrite Hd in H.
    symmetry in H. by apply bool_decide_eq_true in H as ->.
  - intros (e' & He' & (_ & _ & H & _)). simplify_eq. done.
Qed.
Lemma queued_phase s d : wf s -> d ∈ mScheduledQueue s <-> phase_of s d Queued.
Proof.
  intros W. rewrite (wf_queued s W). split.
  - intros (e & He & Hs). exists e. split; [done|]. destruct (wf_entry s W d e He) as ([p Hp] & _).
    pose proof Hp as (_ & _ & _ & H & _). rewrite Hs in H. symmetry in H. by apply bool_decide_eq_true in H as ->.
  - intros (e & He & (_ & _ & _ & H & _)). by exists e.
Qed.

(** ** How states develop *)

(** What is known of a driver once its expression has been read. *)
Definition same_file (e e' : EFI_CORE_DRIVER_ENTRY) : Prop :=
  FvHandle e' = FvHandle e /\ FileName e' = FileName e /\ FvFileDevicePath e' = FvFileDevicePath e /\ Fv e' = Fv e /\
  IsFvImage e' = IsFvImage e /\ Depex (Expr e') = Depex (Expr e) /\ DepexSize (Expr e') = DepexSize (Expr e) /\
  Before (Expr e') = Before (Expr e) /\ After (Expr e') = After (Expr e) /\
  BeforeAfterGuid (Expr e') = BeforeAfterGuid (Expr e) /\ ImageHandle e' = ImageHandle e.

(** Requested by CoreSchedule, trusted by CoreTrust. *)
Definition asked (p p' : phase) : Prop :=
  p' = p \/ (p = OnRequest /\ p' = Waiting) \/ (p = Distrusted /\ p' = Queued).
(** ... or scheduled by the dispatcher. *)
Definition asked_or_queued (p p' : phase) : Prop :=
  asked p p' \/ ((p = Waiting \/ p = OnRequest) /\ p' = Queued).

Definition grows (R : phase -> phase -> Prop) s s' : Prop :=
  (exists k, mDiscoveredList s' = mDiscoveredList s ++ k) /\ (exists l, mScheduledQueue s' = mScheduledQueue s ++ l) /\
  gDispatcherRunning s' = gDispatcherRunning s /\
  forall d e, drivers s !! d = Some e -> exists e', drivers s' !! d = Some e' /\ same_file e e' /\
    forall p, in_phase e p -> exists p', in_phase e' p' /\ R p p'.

(** What code outside the dispatcher may do while the lock is free. *)
Definition outside s s' : Prop := grows asked s s' /\ wf s' /\ mDispatcherLock s' = false.

Lemma same_file_refl e : same_file e e.
Proof. done. Qed.
Lemma same_file_trans e1 e2 e3 : same_file e1 e2 -> same_file e2 e3 -> same_file e1 e3.
Proof. unfold same_file. intuition congruence. Qed.

Lemma grows_refl (R : phase -> phase -> Prop) `{!Reflexive R} s : grows R s s.
Proof.
  split; [exists []; by rewrite app_nil_r|]. split; [exists []; by rewrite app_nil_r|]. split; [done|].
  intros d e He. exists e. split_and!; try done. intros p Hp. by exists p.
Qed.
Lemma grows_trans (R : phase -> phase -> Prop) `{!Transitive R} s1 s2 s3 : grows R s1 s2 -> grows R s2 s3 -> grows R s1 s3.
Proof.
  intros ([k1 E1] & [l1 F1] & G1 & H1) ([k2 E2] & [l2 F2] & G2 & H2).
  split; [exists (k1 ++ k2); by rewrite E2, E1, app_assoc|]. split; [exists (l1 ++ l2); by rewrite F2, F1, app_assoc|].
  split; [congruence|]. intros d e He. destruct (H1 d e He) as (e1 & He1 & S1 & P1).
  destruct (H2 d e1 He1) as (e2 & He2 & S2 & P2). exists e2. split; [done|]. split; [by eapply same_file_trans|].
  intros p Hp. destruct (P1 p Hp) as (p1 & Hp1 & R1). destruct (P2 p1 Hp1) as (p2 & Hp2 & R2). exists p2.
  split; [done|]. by eapply transitivity.
Qed.
Lemma grows_weaken (R R' : phase -> phase -> Prop) s s' : (forall p p', R p p' -> R' p p') -> grows R s s' -> grows R' s s'.
Proof.
  intros HR (H1 & H2 & H3 & H4). split_and!; try done. intros d e He. destruct (H4 d e He) as (e' & He' & S & P).
  exists e'. split_and!; try done. intros p Hp. destruct (P p Hp) as (p' & Hp' & Hr). exists p'. auto.
Qed.

#[export] Instance asked_refl : Reflexive asked.
Proof. by left. Qed.
#[export] Instance asked_trans : Transitive asked.
Proof. unfold asked. intros p q r H1 H2. naive_solver. Qed.
#[export] Instance asked_or_queued_refl : Reflexive asked_or_queued.
Proof. intros p. by left. Qed.
#[export] Instance asked_or_queued_trans : Transitive asked_or_queued.
Proof. unfold asked_or_queued, asked. intros p q r H1 H2. naive_solver. Qed.

Lemma asked_grows s s' : grows asked s s' -> grows asked_or_queued s s'.
Proof. apply grows_weaken. by left. Qed.

Lemma grows_phase R s s' d p : grows R s s' -> phase_of s d p -> exists p', phase_of s' d p' /\ R p p'.
Proof.
  intros (_ & _ & _ & H) (e & He & Hp). destruct (H d e He) as (e' & He' & _ & P). destruct (P p Hp) as (p' & Hp' & HR).
  exists p'. split; [by exists e'|done].
Qed.
Lemma settled_grows s s' d : grows asked_or_queued s s' -> settled s d -> settled s' d.
Proof.
  intros G [H|[H|H]]; destruct (grows_phase _ _ _ _ _ G H) as (p' & Hp' & [[->|[[? ->]|[? ->]]]|[[?|?] ->]]); try done;
    unfold settled; tauto.
Qed.
(** A driver that waits goes on waiting, or is put on the queue. *)
Lemma waiting_grows s s' d : wf s' -> grows asked_or_queued s s' -> phase_of s d Waiting ->
  phase_of s' d Waiting \/ (settled s' d /\ d ∈ mScheduledQueue s').
Proof.
  intros W G H. destruct (grows_phase _ _ _ _ _ G H) as (p' & Hp' & [[->|[[? ->]|[? ->]]]|[[?|?] ->]]); try done; [by left|].
  right. split; [by left|by apply queued_phase].
Qed.
Lemma waiting_outside s s' d : grows asked s s' -> phase_of s d Waiting -> phase_of s' d Waiting.
Proof. intros G H. destruct (grows_phase _ _ _ _ _ G H) as (p' & Hp' & [->|[[? ->]|[? ->]]]); done. Qed.

(** Names and relations do not change. *)
Lemma grows_entry R s s' d e : grows R s s' -> drivers s !! d = Some e ->
  exists e', drivers s' !! d = Some e' /\ same_file e e'.
Proof. intros (_ & _ & _ & H) He. destruct (H d e He) as (e' & ? & ? & _). by exists e'. Qed.
End Invariant.

(** A dependency section that the build tools make: an expression, or BEFORE
    or AFTER with the name of a driver. *)
Definition section_ok (l : list Z) : Prop :=
  (exists sor t, guids_ok t /\ l = depex_bytes sor t) \/
  (exists op g rest, (op = EFI_DEP_BEFORE \/ op = EFI_DEP_AFTER) /\ length g = sizeof_GUID /\ l = op :: g ++ rest).

(** The environment: code outside returns to the dispatcher with the lock
    free and a state that is reached by its services; an image that was
    loaded has a handle, even if it may not be started; dependency sections
    are as the build tools make them; there is memory for the evaluation
    stack, and enough fuel for [N] drivers. *)
Class DISP_LAWS {World : Type} `{Env : !DISP_ENV World} (tot : bool) (N : nat) : Prop := {
  restore_law s : wf N s -> mDispatcherLock s = false -> wp tot RestoreTpl (fun _ => outside N s) s;
  load_law p s : wf N s -> mDispatcherLock s = false ->
    wp tot (CoreLoadImage p) (fun r s' => outside N s s' /\ (r.1 = EFI_SUCCESS \/ r.1 = EFI_SECURITY_VIOLATION -> r.2 <> 0)) s;
  start_law h s : wf N s -> mDispatcherLock s = false -> wp tot (CoreStartImage h) (fun _ => outside N s) s;
  process_law f h g s : wf N s -> mDispatcherLock s = false -> wp tot (CoreProcessFvImageFile f h g) (fun _ => outside N s) s;
  create_law s : wf N s -> mDispatcherLock s = false -> wp tot CoreCreateEventEx (fun _ => outside N s) s;
  signal_law e s : wf N s -> mDispatcherLock s = false -> wp tot (CoreSignalEvent e) (fun _ => outside N s) s;
  close_law e s : wf N s -> mDispatcherLock s = false -> wp tot (CoreCloseEvent e) (fun _ => outside N s) s;
  section_law f g w : exists st l w', ReadSection f g EFI_SECTION_DXE_DEPEX w = Ok ((st, l), w') /\
    (EFI_ERROR st = false -> section_ok l) /\ Located w' = Located w /\ ArchProtocols w' = ArchProtocols w;
  path_law f h g w : exists p w', CoreFvToDevicePath f h g w = Ok (p, w');
  entry_law s d : EntryPool s = Some d -> drivers s !! d = None;
  stack_law n : StackPool n = true;
  fuel_law : (2 * N + 2 <= fuel)%nat
}.

Section Steps.
Context {World : Type} `{Env : !DISP_ENV World} (tot : bool) (N : nat).
Implicit Types s : DISP World.

Lemma wp_entry {B} d e (k : _ -> M (DISP World) B) Q s :
  drivers s !! d = Some e -> wp tot (k e) Q s -> wp tot (Mbind (entry_at d) k) Q s.
Proof. intros H. apply wp_step. unfold entry_at. by rewrite H. Qed.
Lemma on_entry_run d e f s : drivers s !! d = Some e -> on_entry d f s = Ok (tt, upd_drivers (<[d := f e]> (drivers s)) s).
Proof. intros H. unfold on_entry. rewrite (Mbind_Ok _ _ _ e s); [done|]. unfold entry_at. by rewrite H. Qed.
Lemma wp_on_entry {B} d e f (k : unit -> M (DISP World) B) Q s :
  drivers s !! d = Some e -> wp tot (k tt) Q (upd_drivers (<[d := f e]> (drivers s)) s) -> wp tot (Mbind (on_entry d f) k) Q s.
Proof. intros H. apply wp_step. by apply on_entry_run. Qed.
Lemma wp_enqueue {B} d (k : unit -> M (DISP World) B) Q s :
  d ∉ mScheduledQueue s -> wp tot (k tt) Q (upd_mScheduledQueue (mScheduledQueue s ++ [d]) s) -> wp tot (Mbind (enqueue d) k) Q s.
Proof. intros H. apply wp_step. unfold enqueue. by rewrite bool_decide_false. Qed.
Lemma wp_dequeue {B} d (k : unit -> M (DISP World) B) Q s :
  d ∈ mScheduledQueue s ->
  wp tot (k tt) Q (upd_mScheduledQueue (filter (fun x => x <> d) (mScheduledQueue s)) s) -> wp tot (Mbind (dequeue d) k) Q s.
Proof. intros H. apply wp_step. unfold dequeue. by rewrite bool_decide_true. Qed.
Lemma wp_lock {B} (k : unit -> M (DISP World) B) Q s :
  mDispatcherLock s = false -> wp tot (k tt) Q (upd_mDispatcherLock true s) -> wp tot (Mbind CoreAcquireDispatcherLock k) Q s.
Proof. intros H. apply wp_step. unfold CoreAcquireDispatcherLock. by rewrite (Mbind_Ok Mget _ s s s eq_refl), H. Qed.
Lemma wp_unlock {B} `{!DISP_LAWS tot N} (k : unit -> M (DISP World) B) Q s :
  mDispatcherLock s = true -> wf N (upd_mDispatcherLock false s) ->
  (forall s', outside N (upd_mDispatcherLock false s) s' -> wp tot (k tt) Q s') ->
  wp tot (Mbind CoreReleaseDispatcherLock k) Q s.
Proof.
  intros Hl W HQ. apply wp_bind. unfold CoreReleaseDispatcherLock. apply wp_get. rewrite Hl. cbn [DASSERT].
  apply wp_modify. eapply wp_mono; [by apply (restore_law (N := N))|]. intros [] s' O. by apply HQ.
Qed.

(** ** Changing one entry *)

Lemma depex_ok_same x x' :
  Depex x' = Depex x -> DepexSize x' = DepexSize x -> Before x' = Before x -> After x' = After x -> depex_ok x -> depex_ok x'.
Proof.
  intros E1 E2 E3 E4 [H1 H2]. split; [by rewrite E3, E4|]. rewrite E3, E4. intros HB HA.
  destruct (H2 HB HA) as [Hn|(sor & t & Ht & K1 & K2 & K3 & K4)]; [left; congruence|]. right. exists sor, t. split; [done|].
  split_and!; congruence.
Qed.

Lemma wf_update s s' d e e' :
  wf N s -> drivers s !! d = Some e -> drivers s' = <[d := e']> (drivers s) -> mDiscoveredList s' = mDiscoveredList s ->
  FileName e' = FileName e -> entry_ok e' -> NoDup (mScheduledQueue s') ->
  (forall x, x ∈ mScheduledQueue s' <-> (x = d /\ Scheduled e' = true) \/ (x <> d /\ x ∈ mScheduledQueue s)) -> wf N s'.
Proof.
  intros W He Ed El Hn Hok Hq Hin. split.
  - rewrite El. apply (wf_nodup N s W).
  - intros x. rewrite El, Ed, (wf_entries N s W). destruct (decide (x = d)) as [->|Hx].
    + rewrite lookup_insert_eq. rewrite He. done.
    + by rewrite lookup_insert_ne by done.
  - rewrite El. apply (wf_size N s W).
  - done.
  - intros x. rewrite Hin, Ed. destruct (decide (x = d)) as [->|Hx].
    + rewrite lookup_insert_eq. naive_solver.
    + rewrite lookup_insert_ne by done. rewrite (wf_queued N s W). naive_solver.
  - intros x ex. rewrite Ed. destruct (decide (x = d)) as [->|Hx].
    + rewrite lookup_insert_eq. by intros [= <-].
    + rewrite lookup_insert_ne by done. apply (wf_entry N s W).
  - rewrite Ed. assert (forall x ex, <[d := e']> (drivers s) !! x = Some ex ->
      exists ex0, drivers s !! x = Some ex0 /\ FileName ex = FileName ex0) as Main.
    { intros x ex. destruct (decide (x = d)) as [->|Hx].
      - rewrite lookup_insert_eq. intros [= <-]. by exists e.
      - rewrite lookup_insert_ne by done. by exists ex. }
    intros x x' ex ex' Hx Hx'. destruct (Main x ex Hx) as (y & Hy & ->), (Main x' ex' Hx') as (y' & Hy' & ->).
    by apply (wf_names N s W).
Qed.

(** The state differs in the lock only. *)
Definition same_state s s' : Prop :=
  drivers s' = drivers s /\ mDiscoveredList s' = mDiscoveredList s /\ mScheduledQueue s' = mScheduledQueue s.
Lemma same_wf s s' : same_state s s' -> wf N s -> wf N s'.
Proof.
  intros (E1 & E2 & E3) W. destruct s, s'; cbn in *; subst. destruct W as [H1 H2 H3 H4 H5 H6 H7]. by split.
Qed.
(** The lock is released in a state that is [s1] but for the lock. *)
Lemma wp_unlock_as {B} `{!DISP_LAWS tot N} s1 (k : unit -> M (DISP World) B) Q s :
  mDispatcherLock s = true -> same_state s1 s -> gDispatcherRunning s = gDispatcherRunning s1 -> wf N s1 ->
  (forall s', outside N s1 s' -> wp tot (k tt) Q s') -> wp tot (Mbind CoreReleaseDispatcherLock k) Q s.
Proof.
  intros L Es Er W HQ. apply wp_unlock; [done|by apply (same_wf s1)|]. intros s' (G & O). apply HQ. split; [|done].
  destruct Es as (E1 & E2 & E3). unfold grows in *. cbn in G. by rewrite E1, E2, E3, Er in G.
Qed.
Lemma lock_wf b s : wf N s -> wf N (upd_mDispatcherLock b s).
Proof. by apply same_wf. Qed.
End Steps.

(** ** How far the drivers are *)

Section Count.
Context {World : Type} (N : nat).
Implicit Types s : DISP World.

Definition settledb s (d : Z) : bool :=
  match drivers s !! d with Some e => Scheduled e || Untrusted e || Initialized e | None => false end.

Lemma settledb_spec s d : wf N s -> settledb s d = true <-> settled s d.
Proof.
  intros W. unfold settledb, settled, phase_of. destruct (drivers s !! d) as [e|] eqn:He.
  - destruct (wf_entry N s W d e He) as ([p Hp] & _). pose proof Hp as (_ & _ & _ & -> & -> & ->). split.
    + intros H. destruct p; try discriminate H; [left|right; left|right; right]; by exists e.
    + intros [(e' & [= <-] & Hq)|[(e' & [= <-] & Hq)|(e' & [= <-] & Hq)]]; by rewrite (in_phase_unique _ _ _ Hp Hq).
  - split; [done|]. intros [(e' & ? & _)|[(e' & ? & _)|(e' & ? & _)]]; done.
Qed.

Definition settled_list s : list Z := filter (fun d => settledb s d = true) (mDiscoveredList s).

Lemma elem_of_settled_list s d : wf N s -> d ∈ settled_list s <-> settled s d.
Proof.
  intros W. unfold settled_list. rewrite list_elem_of_filter, (settledb_spec s d W). split; [tauto|]. intros H. split; [done|].
  apply (wf_entries N s W). destruct H as [(e & He & _)|[(e & He & _)|(e & He & _)]]; by exists e.
Qed.
Lemma NoDup_settled_list s : wf N s -> NoDup (settled_list s).
Proof. intros W. apply NoDup_filter, (wf_nodup N s W). Qed.

(** A set of drivers that are not settled fits beside the settled ones. *)
Lemma settled_room s P : wf N s -> NoDup P -> (forall x, x ∈ P -> phase_of s x Waiting) ->
  (length (settled_list s) + length P <= N)%nat.
Proof.
  intros W HP Hx. rewrite <- length_app. etrans; [|apply (wf_size N s W)]. apply submseteq_length, NoDup_submseteq.
  - apply NoDup_app. split; [by apply NoDup_settled_list|]. split; [|done].
    intros x H1%(elem_of_settled_list s x W) H2%Hx. by apply (waiting_not_settled s x).
  - intros x [H|H]%elem_of_app; [by apply list_elem_of_filter in H as [_ H]|].
    apply (wf_entries N s W). destruct (Hx x H) as (e & He & _). by exists e.
Qed.

Lemma settled_le s s' : wf N s -> wf N s' -> grows asked_or_queued s s' ->
  (length (settled_list s) <= length (settled_list s'))%nat.
Proof.
  intros W W' G. apply submseteq_length, NoDup_submseteq; [by apply NoDup_settled_list|].
  intros x. rewrite !elem_of_settled_list by done. by apply settled_grows.
Qed.
Lemma settled_lt s s' d : wf N s -> wf N s' -> grows asked_or_queued s s' -> ~ settled s d -> settled s' d ->
  (length (settled_list s) < length (settled_list s'))%nat.
Proof.
  intros W W' G Hn Hd. change (length (d :: settled_list s) <= length (settled_list s'))%nat.
  apply submseteq_length, NoDup_submseteq.
  - constructor; [by rewrite elem_of_settled_list|by apply NoDup_settled_list].
  - intros x [->|Hx]%elem_of_cons; [by apply elem_of_settled_list|].
    rewrite elem_of_settled_list in Hx |- * by done. by apply (settled_grows s).
Qed.
End Count.
