(* ===== verification/DispatchInsert.v ===== *)
(** * DispatchInsert: scheduling a driver with its relatives

    A driver goes on the queue after the drivers that ask to be before it and
    before those that ask to be after it.  The recursion ends because the
    drivers whose turn is pending are distinct: a name is asked for at most
    once along a chain of calls. *)

From stdpp Require Import base option list gmap fin_maps.
From Stdlib Require Import ZArith Lia.
From S2P Require Import Prelude Depex Dispatch DispatchInv.

Local Open Scope Z_scope.
Local Open Scope edk_scope.

(** ** The loop over the drivers *)

Lemma next_link_mid l1 d l2 : d ∉ l1 -> next_link (l1 ++ d :: l2) d = Some (head l2).
Proof.
  induction l1 as [|x l1 IH]; intros Hd; cbn [next_link app]; [by rewrite Z.eqb_refl|].
  apply not_elem_of_cons in Hd as [Hx Hd]. rewrite (proj2 (Z.eqb_neq x d)) by congruence. by apply IH.
Qed.

Section Each.
Context {World : Type} `{Env : !DISP_ENV World} (tot : bool) (N : nat).
Implicit Types s : DISP World.

(** [J s done found]: the state, the drivers visited so far, and the result
    so far. *)
Lemma each_driver_rule (J : DISP World -> list Z -> bool -> Prop) body :
  (forall s seen found, J s seen found -> wf N s) ->
  (forall s seen d rest found, J s seen found -> mDiscoveredList s = seen ++ d :: rest ->
     wp tot (body d) (fun b s' => J s' (seen ++ [d]) (found || b) /\ exists k, mDiscoveredList s' = mDiscoveredList s ++ k) s) ->
  forall turns s seen todo found, J s seen found -> mDiscoveredList s = seen ++ todo ->
    (tot = true -> N - length seen <= turns)%nat ->
    wp tot (each_driver turns body (head todo) found) (fun b s' => J s' (mDiscoveredList s') b) s.
Proof.
  intros HW Hbody. induction turns as [|turns IH]; intros s seen todo found HJ El Ht.
  - destruct todo as [|d rest]; [apply wp_ret; by rewrite El, app_nil_r|].
    cbn [head each_driver]. unfold wp, Mfail. destruct tot; [|done]. exfalso.
    pose proof (wf_size N s (HW _ _ _ HJ)) as Hsz. rewrite El, length_app in Hsz. cbn [length] in Hsz.
    specialize (Ht eq_refl). lia.
  - destruct todo as [|d rest]; [apply wp_ret; by rewrite El, app_nil_r|]. cbn [head each_driver].
    eapply wp_seq; [exact (Hbody _ _ _ _ _ HJ El)|]. cbn beta. intros b s' (HJ' & k & Ek). apply wp_get.
    pose proof (wf_nodup N s' (HW _ _ _ HJ')) as Hnd. rewrite Ek, El, <- app_assoc in Hnd. cbn [app] in Hnd.
    assert (mDiscoveredList s' = (seen ++ [d]) ++ (rest ++ k)) as E' by (by rewrite Ek, El, <- !app_assoc).
    rewrite Ek, El, <- app_assoc. cbn [app]. rewrite next_link_mid.
    2:{ apply NoDup_app in Hnd as (_ & Hd & _). intros Hx. apply (Hd d Hx). by left. }
    apply IH with (seen := seen ++ [d]); [done|done|]. intros E. specialize (Ht E). rewrite length_app. cbn [length]. lia.
Qed.

Lemma for_drivers_rule (J : DISP World -> list Z -> bool -> Prop) body s :
  (forall s seen found, J s seen found -> wf N s) ->
  (forall s seen d rest found, J s seen found -> mDiscoveredList s = seen ++ d :: rest ->
     wp tot (body d) (fun b s' => J s' (seen ++ [d]) (found || b) /\ exists k, mDiscoveredList s' = mDiscoveredList s ++ k) s) ->
  (tot = true -> N <= fuel)%nat -> J s [] false -> wp tot (for_drivers body) (fun b s' => J s' (mDiscoveredList s') b) s.
Proof.
  intros HW Hbody Hf HJ. unfold for_drivers. apply wp_get.
  apply (each_driver_rule J body HW Hbody fuel s [] (mDiscoveredList s)); [done|done|]. intros E. specialize (Hf E). cbn. lia.
Qed.
End Each.

(** ** Order on the queue *)

Definition precedes (l : list Z) (x y : Z) : Prop := exists l1 l2, l = l1 ++ y :: l2 /\ x ∈ l1.

Lemma precedes_app l k x y : precedes l x y -> precedes (l ++ k) x y.
Proof. intros (l1 & l2 & -> & H). exists l1, (l2 ++ k). by rewrite <- app_assoc. Qed.
Lemma precedes_split l k x y : x ∈ l -> y ∈ k -> precedes (l ++ k) x y.
Proof.
  intros Hx Hy. apply list_elem_of_split in Hy as (k1 & k2 & ->). exists (l ++ k1), k2. rewrite app_assoc. set_solver.
Qed.

Section Order.
Context {World : Type} (N : nat) (root : Z).
Implicit Types s : DISP World.

(** [x] is a driver that asks, by [flag], for a place next to [y]. *)
Definition asks (flag : DRIVER_ENTRY -> bool) s (x y : Z) : Prop :=
  exists ex ey, drivers s !! x = Some ex /\ drivers s !! y = Some ey /\ flag (Expr ex) = true /\
    FileName ey = BeforeAfterGuid (Expr ex).

(** Between [s] and [s'] drivers were scheduled in the right order: for every
    [y] scheduled in between, the drivers that wait and ask to be before it
    are on the queue before it, and, unless [y] is exempt, those that ask to
    be after it are behind it. *)
Definition ordered (exempt : Z -> Prop) s s' : Prop :=
  forall x y, phase_of s x Waiting -> phase_of s y Waiting -> x <> y -> settled s' y ->
    (asks Before s x y -> precedes (mScheduledQueue s') x y) /\
    (asks After s x y -> ~ exempt y -> precedes (mScheduledQueue s') y x).

(** A driver was scheduled between [s] and [s'] because it is the root, or
    because it asks for a place next to one that is scheduled or pending. *)
Definition justified (pending : Z -> Prop) s s' : Prop :=
  forall x e, drivers s !! x = Some e -> phase_of s x Waiting -> settled s' x ->
    (After (Expr e) = true -> exists y, asks After s' x y /\ settled s' y) /\
    (Before (Expr e) = true -> exists y, asks Before s' x y /\ (settled s' y \/ pending y)) /\
    (Before (Expr e) = false -> After (Expr e) = false -> x = root).

Lemma asks_grows R flag s s' x y : (flag = Before \/ flag = After) -> grows R s s' -> asks flag s x y -> asks flag s' x y.
Proof.
  intros Hf G (ex & ey & Hx & Hy & H1 & H2). destruct (grows_entry _ _ _ _ _ G Hx) as (ex' & Hx' & Sx).
  destruct (grows_entry _ _ _ _ _ G Hy) as (ey' & Hy' & Sy). exists ex', ey'. split_and!; try done.
  - destruct Sx as (_ & _ & _ & _ & _ & _ & _ & E1 & E2 & _). destruct Hf as [-> | ->]; congruence.
  - destruct Sx as (_ & _ & _ & _ & _ & _ & _ & _ & _ & E & _), Sy as (_ & E' & _). congruence.
Qed.
(** The other way: drivers that were there. *)
Lemma asks_grows_inv R flag s s' x y : (flag = Before \/ flag = After) -> grows R s s' ->
  is_Some (drivers s !! x) -> is_Some (drivers s !! y) -> asks flag s' x y -> asks flag s x y.
Proof.
  intros Hf G [ex Hx] [ey Hy] (ex' & ey' & Hx' & Hy' & H1 & H2). destruct (grows_entry _ _ _ _ _ G Hx) as (ex1 & Hx1 & Sx).
  destruct (grows_entry _ _ _ _ _ G Hy) as (ey1 & Hy1 & Sy). simplify_eq. exists ex, ey. split_and!; try done.
  - destruct Sx as (_ & _ & _ & _ & _ & _ & _ & E1 & E2 & _). destruct Hf as [-> | ->]; congruence.
  - destruct Sx as (_ & _ & _ & _ & _ & _ & _ & _ & _ & E & _), Sy as (_ & E' & _). congruence.
Qed.
Lemma asks_unique flag s x y y' : wf N s -> asks flag s x y -> asks flag s x y' -> y = y'.
Proof. intros W (ex & ey & Hx & Hy & _ & H2) (ex' & ey' & Hx' & Hy' & _ & H2'). simplify_eq. apply (wf_names N s W y y' ey ey'); congruence. Qed.

Lemma outside_ordered exempt s s' : grows asked s s' -> ordered exempt s s'.
Proof. intros G x y _ Hy _ Hs. destruct (waiting_not_settled s' y); [by eapply waiting_outside|done]. Qed.
Lemma outside_justified pending s s' : grows asked s s' -> justified pending s s'.
Proof. intros G x e _ Hx Hs. destruct (waiting_not_settled s' x); [by eapply waiting_outside|done]. Qed.

Lemma ordered_trans exempt s0 s1 s2 pending :
  wf N s0 -> wf N s1 -> wf N s2 -> grows asked_or_queued s0 s1 -> grows asked_or_queued s1 s2 ->
  ordered exempt s0 s1 -> justified pending s0 s1 -> ordered (fun _ => False) s1 s2 -> ordered exempt s0 s2.
Proof.
  intros W0 W1 W2 G1 G2 O1 J1 O2 x y Hx Hy Hne Hs.
  pose proof G2 as (_ & [l El] & _). destruct (waiting_grows N s0 s1 y W1 G1 Hy) as [Hy1|[Hy1 Hq]].
  - destruct (waiting_grows N s0 s1 x W1 G1 Hx) as [Hx1|[Hx1 Hqx]].
    + destruct (O2 x y Hx1 Hy1 Hne Hs) as [HB HA]. split; intros A.
      * apply HB. eapply asks_grows; [by left|exact G1|done].
      * intros _. apply HA; [|by intros []]. eapply asks_grows; [by right|exact G1|done].
    + split; intros A.
      * destruct (waiting_grows N s1 s2 y W2 G2 Hy1) as [Hy2|[_ Hq2]]; [by destruct (waiting_not_settled s2 y)|].
        rewrite El in Hq2 |- *. apply elem_of_app in Hq2 as [Hq2|Hq2]; [|by apply precedes_split].
        apply (queued_phase N) in Hq2; [|done]. by pose proof (phase_unique s1 y _ _ Hy1 Hq2).
      * destruct Hx as (e & He & Hp). assert (After (Expr e) = true) as Ha.
        { destruct A as (ex & _ & Hex & _ & Hf & _). congruence. }
        destruct (J1 x e He (ex_intro _ e (conj He Hp)) Hx1) as (HA & _). destruct (HA Ha) as (y' & A' & Hy').
        rewrite (asks_unique After s1 x y y' W1 (asks_grows _ _ _ _ _ _ (or_intror eq_refl) G1 A) A') in Hy1. by destruct (waiting_not_settled s1 y').
  - destruct (O1 x y Hx Hy Hne Hy1) as [HB HA]. rewrite El. split; intros A; [by apply precedes_app, HB|].
    intros He. by apply precedes_app, HA.
Qed.

Lemma justified_trans pending s0 s1 s2 :
  wf N s0 -> wf N s1 -> wf N s2 -> grows asked_or_queued s0 s1 -> grows asked_or_queued s1 s2 ->
  justified pending s0 s1 -> justified pending s1 s2 -> justified pending s0 s2.
Proof.
  intros W0 W1 W2 G1 G2 J1 J2 x e He Hx Hs. destruct (waiting_grows N s0 s1 x W1 G1 Hx) as [Hx1|[Hx1 _]].
  - destruct (grows_entry _ _ _ _ _ G1 He) as (e1 & He1 & Sm).
    destruct (J2 x e1 He1 Hx1 Hs) as (HA & HB & HR).
    pose proof Sm as (_ & _ & _ & _ & _ & _ & _ & E1 & E2 & _). by rewrite E1, E2 in *.
  - destruct (J1 x e He Hx Hx1) as (HA & HB & HR). split_and!; [| |done].
    + intros H. destruct (HA H) as (y & A & Hy). exists y. split; [|by apply (settled_grows s1)].
      eapply asks_grows; [by right|exact G2|done].
    + intros H. destruct (HB H) as (y & A & Hy). exists y. split; [eapply asks_grows; [by left|exact G2|done]|].
      destruct Hy as [Hy|Hy]; [left; by apply (settled_grows s1)|by right].
Qed.
End Order.

(** ** One driver is put on the queue *)

Section Schedule.
Context {World : Type} (N : nat) (d : Z).
Implicit Types s : DISP World.

(** [d] is marked and appended. *)
Definition scheduled_now s : DISP World :=
  match drivers s !! d with
  | Some e => upd_mScheduledQueue (mScheduledQueue s ++ [d])
                (upd_drivers (<[d := set_Scheduled true (set_Dependent false e)]> (drivers s)) s)
  | None => s
  end.

Lemma scheduled_now_ok s : wf N s -> phase_of s d Waiting ->
  wf N (scheduled_now s) /\ grows asked_or_queued s (scheduled_now s) /\ settled (scheduled_now s) d /\
  mScheduledQueue (scheduled_now s) = mScheduledQueue s ++ [d] /\ mDispatcherLock (scheduled_now s) = mDispatcherLock s /\
  (forall x p, x <> d -> phase_of (scheduled_now s) x p <-> phase_of s x p).
Proof.
  intros W (e & He & Hp). unfold scheduled_now. rewrite He. set (e' := set_Scheduled true (set_Dependent false e)).
  assert (in_phase e' Queued) as Hp' by (destruct Hp as (H1 & H2 & H3 & H4 & H5 & H6); by split_and!).
  assert (d ∉ mScheduledQueue s) as Hnq.
  { rewrite (queued_phase N s d W). intros Hq. by pose proof (phase_unique s d _ _ (ex_intro _ e (conj He Hp)) Hq). }
  split_and!.
  - apply (wf_update N s _ d e e'); try done.
    + destruct (wf_entry N s W d e He) as (_ & Hx & Hr). split; [by exists Queued|]. split; [by apply (depex_ok_same (Expr e))|].
      cbn. intros H. by apply Hr.
    + cbn. apply NoDup_app. split; [apply (wf_queue N s W)|]. split; [set_solver|apply NoDup_singleton].
    + intros x. cbn. rewrite elem_of_app, list_elem_of_singleton. destruct (decide (x = d)) as [->|]; tauto.
  - split; [exists []; by rewrite app_nil_r|]. split; [by exists [d]|]. split; [done|]. intros x ex Hx. cbn.
    destruct (decide (x = d)) as [->|Hne].
    + rewrite lookup_insert_eq. simplify_eq. exists e'. split_and!; try done. intros p Hq.
      rewrite (in_phase_unique _ _ _ Hq Hp). exists Queued. split; [done|]. right. tauto.
    + rewrite lookup_insert_ne by done. exists ex. split_and!; try done. intros p Hq. by exists p.
  - left. exists e'. split; [|done]. cbn. by rewrite lookup_insert_eq.
  - done.
  - done.
  - intros x p Hne. unfold phase_of. cbn. by rewrite lookup_insert_ne.
Qed.
End Schedule.

(** ** One call *)

Section Insert.
Context {World : Type} `{Env : !DISP_ENV World} (tot : bool) (N : nat) `{!DISP_LAWS tot N} (root : Z).
Implicit Types s : DISP World.

(** Why [x] is scheduled while the drivers [P] are pending. *)
Definition caller_ok s (P : list Z) (x : Z) : Prop :=
  forall e, drivers s !! x = Some e ->
    (Before (Expr e) = true -> exists q, q ∈ P /\ asks Before s x q) /\
    (After (Expr e) = true -> exists q, asks After s x q /\ settled s q) /\
    (Before (Expr e) = false -> After (Expr e) = false -> x = root).
Definition stack_ok s (P : list Z) : Prop :=
  NoDup P /\ forall x, x ∈ P -> phase_of s x Waiting /\ caller_ok s P x.

Definition inserted (P : list Z) (d : Z) s s' : Prop :=
  wf N s' /\ mDispatcherLock s' = false /\ grows asked_or_queued s s' /\ (forall x, x ∈ P -> phase_of s' x Waiting) /\
  settled s' d /\ ordered (fun _ => False) s s' /\ justified root (fun y => y ∈ P) s s'.

Lemma caller_grows s s' P x : grows asked_or_queued s s' -> is_Some (drivers s !! x) -> caller_ok s P x -> caller_ok s' P x.
Proof.
  intros G [e He] C e' He'. destruct (grows_entry _ _ _ _ _ G He) as (e1 & He1 & Sm). simplify_eq.
  destruct (C e He) as (HB & HA & HR). pose proof Sm as (_ & _ & _ & _ & _ & _ & _ & E1 & E2 & _). rewrite E1, E2.
  split_and!; [| |done].
  - intros H. destruct (HB H) as (q & Hq & A). exists q. split; [done|]. eapply asks_grows; [by left|exact G|done].
  - intros H. destruct (HA H) as (q & A & Hq). exists q. split; [|by apply (settled_grows s)].
    eapply asks_grows; [by right|exact G|done].
Qed.
Lemma waiting_some s x : phase_of s x Waiting -> is_Some (drivers s !! x).
Proof. intros (e & He & _). by exists e. Qed.
Lemma stack_grows s s' P : grows asked_or_queued s s' -> (forall x, x ∈ P -> phase_of s' x Waiting) -> stack_ok s P -> stack_ok s' P.
Proof.
  intros G HP [Hn H]. split; [done|]. intros x Hx. split; [by apply HP|]. destruct (H x Hx) as [Hw C].
  apply (caller_grows s); [done|by apply waiting_some|done].
Qed.
Lemma caller_more s P d x : caller_ok s P x -> caller_ok s (d :: P) x.
Proof. intros C e He. destruct (C e He) as (HB & HA & HR). split_and!; try done. intros H. destruct (HB H) as (q & ? & ?). exists q. set_solver. Qed.

(** Only one of the two flags is set. *)
Lemma flags_exclusive s x e : wf N s -> drivers s !! x = Some e -> Before (Expr e) = true -> After (Expr e) = true -> False.
Proof. intros W He HB HA. destruct (wf_entry N s W x e He) as (_ & [H _] & _). by rewrite HB, HA in H. Qed.

(** A driver that asks to be before [d] is not pending, and may be scheduled
    next. *)
Lemma before_candidate s P d x :
  wf N s -> stack_ok s P -> d ∉ P -> asks Before s x d -> x <> d -> x ∉ (d :: P) /\ caller_ok s (d :: P) x.
Proof.
  intros W [_ HP] Hd A Hx. split.
  - intros [->|Hin]%elem_of_cons; [done|]. destruct (HP x Hin) as [_ C]. pose proof A as (ex & ey & Hex & _ & Hb & _).
    destruct (C ex Hex) as (HB & _). destruct (HB Hb) as (q & Hq & A'). by rewrite (asks_unique N Before s x d q W A A') in Hd.
  - intros e He. pose proof A as (ex & ey & Hex & _ & Hb & _). simplify_eq. split_and!.
    + intros _. exists d. split; [by left|done].
    + intros Ha. by destruct (flags_exclusive s x e).
    + congruence.
Qed.

(** The same for one that asks to be after [d], which was waiting in [s0]. *)
Lemma after_candidate s0 s P d x :
  wf N s0 -> wf N s -> grows asked_or_queued s0 s -> stack_ok s0 P -> phase_of s0 d Waiting -> settled s d ->
  asks After s x d -> x <> d -> x ∉ P /\ caller_ok s P x.
Proof.
  intros W0 W G [_ HP] Hd Hs A Hx. split.
  - intros Hin. destruct (HP x Hin) as [Hw C].
    assert (asks After s0 x d) as A0.
    { eapply asks_grows_inv; [by right|exact G|by apply waiting_some|by apply waiting_some|done]. }
    pose proof A0 as (ex & ey & Hex & _ & Ha & _). destruct (C ex Hex) as (_ & HA & _). destruct (HA Ha) as (q & A' & Hq).
    rewrite <- (asks_unique N After s0 x d q W0 A0 A') in Hq. by destruct (waiting_not_settled s0 d).
  - intros e He. pose proof A as (ex & ey & Hex & _ & Ha & _). simplify_eq. split_and!.
    + intros Hb. by destruct (flags_exclusive s x e).
    + intros _. by exists d.
    + congruence.
Qed.

(** What [relative] decides. *)
Lemma relative_run flag ins s d x (Q : bool -> DISP World -> Prop) :
  wf N s -> is_Some (drivers s !! x) -> is_Some (drivers s !! d) ->
  (asks flag s x d -> phase_of s x Waiting -> x <> d -> wp tot (ins x) (fun _ => Q true) s) ->
  (~ (asks flag s x d /\ phase_of s x Waiting /\ x <> d) -> Q false s) ->
  wp tot (relative flag ins d x) Q s.
Proof.
  intros W [e He] [i Hi] Hyes Hno. unfold relative. eapply wp_entry; [exact He|]. pose proof (waiting_flag N s x e W He) as Hw.
  destruct (flag (Expr e)) eqn:Hf; cbn [andb].
  2:{ apply wp_ret, Hno. intros ((ex & ey & Hex & _ & Hf' & _) & _). congruence. }
  destruct (Dependent (Expr e)); cbn [andb].
  2:{ apply wp_ret, Hno. intros (_ & Hp & _). by apply Hw in Hp. }
  destruct (Z.eqb_spec x d) as [->|Hx]; cbn [negb]. { apply wp_ret, Hno. intros (_ & _ & ?). done. }
  eapply wp_entry; [exact Hi|]. case_bool_decide as Hname.
  - eapply wp_seq; [apply Hyes; [by exists e, i|by apply Hw|done]|]. cbn beta. intros [] s' HQ. by apply wp_ret.
  - apply wp_ret, Hno. intros ((ex & ey & Hex & Hey & _ & Hn) & _). by simplify_eq.
Qed.

(** *** The call for [d] from the state [s0] *)

Section Call.
Context (s0 : DISP World) (P : list Z) (d : Z) (depth : nat).
Hypothesis W0 : wf N s0.
Hypothesis HP : stack_ok s0 P.
Hypothesis Hd : phase_of s0 d Waiting.
Hypothesis HdP : d ∉ P.
Hypothesis HC : caller_ok s0 P d.
Hypothesis IH : forall s P' x, wf N s -> mDispatcherLock s = false -> stack_ok s P' -> phase_of s x Waiting -> x ∉ P' ->
  caller_ok s P' x -> (tot = true -> N - length (settled_list s) - length P' < depth)%nat ->
  wp tot (insert_nested depth x) (fun _ s' => inserted P' x s s') s.
Hypothesis Hdepth : tot = true -> (N - length (settled_list s0) - length P < S depth)%nat.

Lemma pending_stack : stack_ok s0 (d :: P).
Proof.
  destruct HP as [Hn H]. split; [by constructor|]. intros x [->|Hx]%elem_of_cons; [split; [done|by apply caller_more]|].
  destruct (H x Hx). split; [done|by apply caller_more].
Qed.
Lemma pending_room : (length (settled_list s0) + length P < N)%nat.
Proof.
  clear IH Hdepth. destruct pending_stack as [Hn H]. pose proof (settled_room N s0 (d :: P) W0 Hn (fun x Hx => proj1 (H x Hx))) as Hr.
  cbn [length] in Hr. lia.
Qed.

Definition before_inv s (seen : list Z) (_ : bool) : Prop :=
  wf N s /\ mDispatcherLock s = false /\ grows asked_or_queued s0 s /\ (forall x, x ∈ (d :: P) -> phase_of s x Waiting) /\
  ordered (fun _ => False) s0 s /\ justified root (fun y => y ∈ (d :: P)) s0 s /\
  (forall x, x ∈ seen -> phase_of s0 x Waiting -> asks Before s0 x d -> x <> d -> settled s x).

Lemma before_loop s : before_inv s [] false ->
  wp tot (for_drivers (relative Before (insert_nested depth) d)) (fun b s' => before_inv s' (mDiscoveredList s') b) s.
Proof.
  intros HJ. apply (for_drivers_rule tot N before_inv); [by intros ??? []| | |done].
  2:{ intros _. pose proof (fuel_law (tot := tot) (N := N)). lia. }
  clear s HJ. intros s seen x rest found (W & L & G & HW & HO & HJ & Hs) El.
  assert (is_Some (drivers s !! x)) as Hx by (apply (wf_entries N s W); rewrite El; set_solver).
  apply relative_run; try done; [apply waiting_some, HW; by left| |].
  - intros A Hxw Hne. pose proof (stack_grows s0 s (d :: P) G HW pending_stack) as HP1.
    assert (stack_ok s P) as HP2 by (apply (stack_grows s0); try done; intros y Hy; apply HW; by right).
    destruct (before_candidate s P d x W HP2 HdP A Hne) as [Hnin Hcall].
    eapply wp_mono; [apply (IH s (d :: P) x); try done|].
    { intros E. pose proof (settled_le N s0 s W0 W G). pose proof (Hdepth E). pose proof pending_room. cbn [length]. lia. }
    cbn beta. intros _ s' (W' & L' & G' & HW' & Hset & HO' & HJ'). pose proof (grows_trans _ _ _ _ G G') as G2.
    split; [|apply G']. split_and!; try done.
    + by apply (ordered_trans N root _ s0 s s' (fun y => y ∈ (d :: P))).
    + by apply (justified_trans N root _ s0 s s').
    + intros y [Hy|Hy]%elem_of_app Hw Ha Hyd; [apply (settled_grows s); [done|by apply Hs]|].
      by apply list_elem_of_singleton in Hy as ->.
  - intros Hno. split; [|exists []; by rewrite app_nil_r]. split_and!; try done.
    intros y [Hy|Hy]%elem_of_app Hw Ha Hyd; [by apply Hs|]. apply list_elem_of_singleton in Hy as ->.
    destruct (waiting_grows N s0 s x W G Hw) as [Hw'|[? _]]; [|done]. exfalso. apply Hno.
    split; [eapply asks_grows; [by left|exact G|done]|done].
Qed.

(** The drivers that ask to be after [d] are still waiting when it is
    scheduled. *)
Definition behind (q : list Z) : Prop :=
  forall x, phase_of s0 x Waiting -> asks After s0 x d -> x <> d -> x ∉ q.

Lemma scheduled_facts s : before_inv s (mDiscoveredList s) true ->
  let s1 := scheduled_now d s in
  wf N s1 /\ grows asked_or_queued s0 s1 /\ (forall x, x ∈ P -> phase_of s1 x Waiting) /\ settled s1 d /\
  ordered (fun y => y = d) s0 s1 /\ justified root (fun y => y ∈ P) s0 s1 /\ behind (mScheduledQueue s1).
Proof.
  clear IH Hdepth. intros (W & L & G & HW & HO & HJ & Hseen).
  destruct (scheduled_now_ok N d s W) as (W1 & G1 & Hset & Eq & _ & Hoth); [apply HW; by left|].
  set (s1 := scheduled_now d s) in *. cbn zeta. pose proof (grows_trans _ _ _ _ G G1) as G01.
  assert (forall x, x <> d -> settled s1 x -> settled s x) as Hback.
  { intros x Hx Hsx. unfold settled in *. by rewrite !Hoth in Hsx. }
  assert (forall x, phase_of s0 x Waiting -> settled s x -> x ∈ mScheduledQueue s) as Hon.
  { intros x Hx Hsx. destruct (waiting_grows N s0 s x W G Hx) as [Hw|[_ ?]]; [|done]. by destruct (waiting_not_settled s x). }
  split_and!; try done.
  - intros x Hx. apply Hoth; [by intros ->|]. apply HW. by right.
  - intros x y Hx Hy Hne Hsy. rewrite Eq. destruct (decide (y = d)) as [->|Hyd].
    + split; [|by intros _ []]. intros A. apply precedes_split; [|by left]. apply Hon; [done|]. apply Hseen; try done.
      apply (wf_entries N s W). destruct (waiting_some s0 x Hx) as [e He]. destruct (grows_entry _ _ _ _ _ G He) as (e' & ? & _).
      by exists e'.
    + destruct (HO x y Hx Hy Hne (Hback y Hyd Hsy)) as [HB HA]. split; intros A; [by apply precedes_app, HB|].
      intros _. apply precedes_app, HA; [done|]. by intros [].
  - intros x e He Hx Hsx. destruct (decide (x = d)) as [->|Hxd].
    + destruct (HC e He) as (HB & HA & HR). split_and!; [| |done].
      * intros H. destruct (HA H) as (q & A & Hq). exists q. split; [|by apply (settled_grows s0)].
        eapply asks_grows; [by right|exact G01|done].
      * intros H. destruct (HB H) as (q & Hq & A). exists q. split; [|by right]. eapply asks_grows; [by left|exact G01|done].
    + destruct (HJ x e He Hx (Hback x Hxd Hsx)) as (HA & HB & HR). split_and!; [| |done].
      * intros H. destruct (HA H) as (q & A & Hq). exists q. split; [|by apply (settled_grows s)].
        eapply asks_grows; [by right|exact G1|done].
      * intros H. destruct (HB H) as (q & A & Hq). exists q. split; [eapply asks_grows; [by left|exact G1|done]|].
        destruct Hq as [Hq|[->|Hq]%elem_of_cons]; [left; by apply (settled_grows s)|by left|by right].
  - intros x Hx A Hne. rewrite Eq, elem_of_app, list_elem_of_singleton. intros [Hq|?]; [|done].
    assert (settled s x) as Hsx by (left; by apply (queued_phase N)).
    pose proof (waiting_some s0 x Hx) as [e He].
    destruct (HJ x e He Hx Hsx) as (HA & _). destruct HA as (q & A' & Hq').
    { destruct A as (ex & _ & Hex & _ & Hf & _). congruence. }
    rewrite <- (asks_unique N After s x d q W (asks_grows _ _ _ _ _ _ (or_intror eq_refl) G A) A') in Hq'.
    destruct (waiting_not_settled s d); [|done]. apply HW. by left.
Qed.

Definition after_inv (q : list Z) s (seen : list Z) (_ : bool) : Prop :=
  wf N s /\ mDispatcherLock s = false /\ grows asked_or_queued s0 s /\ (forall x, x ∈ P -> phase_of s x Waiting) /\
  settled s d /\ ordered (fun y => y = d) s0 s /\ justified root (fun y => y ∈ P) s0 s /\
  (exists l, mScheduledQueue s = q ++ l) /\
  (forall x, x ∈ seen -> phase_of s0 x Waiting -> asks After s0 x d -> x <> d -> settled s x).

Lemma after_loop q s : after_inv q s [] false ->
  wp tot (for_drivers (relative After (insert_nested depth) d)) (fun b s' => after_inv q s' (mDiscoveredList s') b) s.
Proof.
  intros HJ. apply (for_drivers_rule tot N (after_inv q)); [by intros ??? []| | |done].
  2:{ intros _. pose proof (fuel_law (tot := tot) (N := N)). lia. }
  clear s HJ. intros s seen x rest found (W & L & G & HW & Hsd & HO & HJ & [l El'] & Hs) El.
  assert (is_Some (drivers s !! x)) as Hx by (apply (wf_entries N s W); rewrite El; set_solver).
  assert (is_Some (drivers s !! d)) as Hds by (destruct Hsd as [(e & He & _)|[(e & He & _)|(e & He & _)]]; by exists e).
  apply relative_run; try done.
  - intros A Hxw Hne. destruct (after_candidate s0 s P d x W0 W G HP Hd Hsd A Hne) as [Hnin Hcall].
    eapply wp_mono; [apply (IH s P x); try done|].
    { by apply (stack_grows s0). }
    { intros E. assert (~ settled s0 d) as Hn by (by apply waiting_not_settled).
      pose proof (settled_lt N s0 s d W0 W G Hn Hsd). pose proof (Hdepth E). pose proof pending_room. lia. }
    cbn beta. intros _ s' (W' & L' & G' & HW' & Hset & HO' & HJ'). pose proof (grows_trans _ _ _ _ G G') as G2.
    split; [|apply G']. split_and!; try done.
    + by apply (settled_grows s).
    + by apply (ordered_trans N root _ s0 s s' (fun y => y ∈ P)).
    + by apply (justified_trans N root _ s0 s s').
    + destruct G' as (_ & [l' ->] & _). exists (l ++ l'). by rewrite El', app_assoc.
    + intros y [Hy|Hy]%elem_of_app Hw Ha Hyd; [apply (settled_grows s); [done|by apply Hs]|].
      by apply list_elem_of_singleton in Hy as ->.
  - intros Hno. split; [|exists []; by rewrite app_nil_r]. split_and!; try done; [by exists l|].
    intros y [Hy|Hy]%elem_of_app Hw Ha Hyd; [by apply Hs|]. apply list_elem_of_singleton in Hy as ->.
    destruct (waiting_grows N s0 s x W G Hw) as [Hw'|[? _]]; [|done]. exfalso. apply Hno.
    split; [eapply asks_grows; [by right|exact G|done]|done].
Qed.

(** After the loop the order is complete. *)
Lemma after_done q s : behind q -> d ∈ q -> after_inv q s (mDiscoveredList s) true -> inserted P d s0 s.
Proof.
  clear IH Hdepth. intros Hbeh Hdq (W & L & G & HW & Hsd & HO & HJ & [l El] & Hs). split_and!; try done.
  intros x y Hx Hy Hne Hsy. destruct (HO x y Hx Hy Hne Hsy) as [HB HA]. split; [done|]. intros A _.
  destruct (decide (y = d)) as [->|Hyd]; [|by apply HA]. rewrite El. apply precedes_split; [done|].
  assert (settled s x) as Hsx.
  { apply Hs; try done. apply (wf_entries N s W). destruct (waiting_some s0 x Hx) as [e He].
    destruct (grows_entry _ _ _ _ _ G He) as (e' & ? & _). by exists e'. }
  destruct (waiting_grows N s0 s x W G Hx) as [Hw|[_ Hq]]; [by destruct (waiting_not_settled s x)|].
  rewrite El in Hq. apply elem_of_app in Hq as [Hq|?]; [|done]. by destruct (Hbeh x).
Qed.
End Call.

Theorem insert_nested_ok depth : forall s P d,
  wf N s -> mDispatcherLock s = false -> stack_ok s P -> phase_of s d Waiting -> d ∉ P -> caller_ok s P d ->
  (tot = true -> N - length (settled_list s) - length P < depth)%nat ->
  wp tot (insert_nested depth d) (fun _ s' => inserted P d s s') s.
Proof.
  induction depth as [|depth IH]; intros s P d W L HP Hd HdP HC Hdepth.
  { cbn [insert_nested]. unfold wp, Mfail. destruct tot; [|done]. specialize (Hdepth eq_refl). lia. }
  cbn [insert_nested].
  assert (before_inv s P d s [] false) as HJ0.
  { pose proof (pending_stack s P d HP Hd HdP HC) as [_ Hw]. split_and!; try done.
    - by apply grows_refl, _.
    - intros x Hx. by apply Hw.
    - apply outside_ordered. by apply grows_refl, _.
    - apply outside_justified. by apply grows_refl, _.
    - intros x Hx. by apply elem_of_nil in Hx. }
  eapply wp_seq; [by apply (before_loop s P d depth)|]. cbn beta. intros b s1 HJ1.
  pose proof (scheduled_facts s P d HdP HC s1 HJ1) as (W2 & G2 & HW2 & Hs2 & HO2 & HJ2 & Hbeh). cbn zeta in *.
  pose proof HJ1 as (W1 & L1 & _ & Hw1 & _). destruct (Hw1 d ltac:(by left)) as (e & He & Hp).
  assert (d ∉ mScheduledQueue s1) as Hnq.
  { rewrite (queued_phase N s1 d W1). intros Hq. by pose proof (phase_unique s1 d _ _ (ex_intro _ e (conj He Hp)) Hq). }
  assert (scheduled_now d s1 = upd_mScheduledQueue (mScheduledQueue s1 ++ [d])
    (upd_drivers (<[d := set_Scheduled true (set_Dependent false e)]> (drivers s1)) s1)) as E2.
  { unfold scheduled_now. by rewrite He. }
  apply wp_lock; [done|]. eapply wp_on_entry; [exact He|]. eapply wp_on_entry; [cbn; by rewrite lookup_insert_eq|].
  apply wp_enqueue; [done|]. apply (wp_unlock_as tot N (scheduled_now d s1));
    [done|rewrite E2; split_and!; cbn; [by rewrite insert_insert_eq|done|done]|by rewrite E2|done|].
  intros s3 (G3 & W3 & L3).
  pose proof (asked_grows _ _ G3) as G3'. pose proof (grows_trans _ _ _ _ G2 G3') as G03.
  eapply wp_seq; [apply (after_loop s P d depth W HP Hd HdP HC IH Hdepth (mScheduledQueue (scheduled_now d s1)))|].
  { split_and!; try done.
    - intros x Hx. apply (waiting_outside _ s3 x G3). by apply HW2.
    - by apply (settled_grows (scheduled_now d s1)).
    - apply (ordered_trans N root _ s (scheduled_now d s1) s3 (fun y => y ∈ P)); try done. by apply outside_ordered.
    - apply (justified_trans N root _ s (scheduled_now d s1) s3); try done. by apply outside_justified.
    - apply G3.
    - intros x Hx. by apply elem_of_nil in Hx. }
  cbn beta. intros b4 s4 HJ4. apply wp_ret. apply (after_done s P d (mScheduledQueue (scheduled_now d s1))); [done| |].
  - rewrite E2. cbn. set_solver.
  - by destruct b4.
Qed.
End Insert.
