(* ===== verification/DispatchLoop.v ===== *)
(** * DispatchLoop: the dispatcher's main loop

    Every turn of the loop over the scheduled queue brings a driver closer to
    its end, so the loops end: draining the queue, then looking for drivers
    that are ready. When the dispatcher stops, no driver that waits has a
    dependency expression that is true. *)

From stdpp Require Import base option list gmap fin_maps.
From Stdlib Require Import ZArith Lia.
From S2P Require Import Prelude Depex Dispatch DispatchInv DispatchInsert.

Local Open Scope Z_scope.
Local Open Scope edk_scope.

(** ** Sections *)

Lemma code_head t : exists op rest, code t = op :: rest /\
  (op = EFI_DEP_PUSH \/ op = EFI_DEP_REPLACE_TRUE \/ op = EFI_DEP_TRUE \/ op = EFI_DEP_FALSE).
Proof.
  induction t as [g|g| | |a IHa b _|a IHa b _|a IHa]; cbn [code]; try (eexists _, _; split; [reflexivity|tauto]);
    destruct IHa as (op & rest & -> & H); eexists _, _; (split; [reflexivity|exact H]).
Qed.

(** What preprocessing makes of a section in an entry with no flags set. *)
Lemma preprocess_section x l :
  Depex x = Some l -> DepexSize x = Z.of_nat (length l) -> section_ok l ->
  Before x = false -> After x = false -> Dependent x = false -> Unrequested x = false ->
  exists x', CorePreProcessDepex x = Ok (EFI_SUCCESS, x') /\ depex_ok x' /\
    Dependent x' = negb (Unrequested x') /\ (head l <> Some EFI_DEP_SOR -> Unrequested x' = false).
Proof.
  intros Hx Hz Hl HB HA HD HU. unfold CorePreProcessDepex. rewrite Hx.
  destruct Hl as [(sor & t & Ht & ->)|(op & g & rest & Hop & Hg & ->)].
  - destruct (code_head t) as (op & rest & Ec & Hop).
    assert (exists o r, depex_bytes sor t = o :: r /\ o <> EFI_DEP_BEFORE /\ o <> EFI_DEP_AFTER) as (o & r & Eo & N1 & N2).
    { unfold depex_bytes. rewrite Ec. destruct sor; eexists _, _; (split; [reflexivity|]); [done|].
      by destruct Hop as [-> |[-> |[-> | ->]]]. }
    rewrite Eo. cbn [lookup list_lookup]. rewrite (proj2 (Z.eqb_neq o _) N1), (proj2 (Z.eqb_neq o _) N2), HB, HA, HD, HU.
    cbn [orb]. eexists. split; [reflexivity|]. split.
    + split; [done|]. cbn. intros _ _. right. exists sor, t. split; [done|]. unfold has_depex. cbn. by rewrite Hz, ?Hx, Eo.
    + cbn. destruct (Z.eqb_spec o EFI_DEP_SOR) as [->|]; [|done]. split; [done|]. by intros [].
  - cbn [lookup list_lookup]. rewrite HB, HA, HD, HU. set (l := op :: g ++ rest).
    assert (slice 1 sizeof_GUID l = Some g) as Hs.
    { unfold l. rewrite slice_tail, decide_True by (rewrite length_app; lia). by rewrite <- Hg, take_app_length. }
    destruct Hop as [-> | ->]; cbn [Z.eqb EFI_DEP_BEFORE EFI_DEP_AFTER EFI_DEP_SOR orb]; rewrite Hs;
      (eexists; split; [reflexivity|]; done).
Qed.

Section Read.
Context {World : Type} `{Env : !DISP_ENV World} (tot : bool) (N : nat) `{!DISP_LAWS tot N}.
Implicit Types s : DISP World.

(** The parts of an entry that reading the section leaves alone. *)
Definition same_driver (e e' : EFI_CORE_DRIVER_ENTRY) : Prop :=
  FvHandle e' = FvHandle e /\ FileName e' = FileName e /\ FvFileDevicePath e' = FvFileDevicePath e /\ Fv e' = Fv e /\
  IsFvImage e' = IsFvImage e /\ ImageHandle e' = ImageHandle e.

(** An entry whose section was read, or could not be read yet. *)
Definition read_entry (e' : EFI_CORE_DRIVER_ENTRY) : Prop :=
  depex_ok (Expr e') /\ (DepexProtocolError e' = true -> Before (Expr e') = false /\ After (Expr e') = false) /\
  exists p, in_phase e' p /\ (p = Unread \/ p = OnRequest \/ p = Waiting).

(** The file can be read, and does not ask to be started on request. *)
Definition plain_section (f : Z) (g : GUID) : Prop := forall w st l w',
  ReadSection f g EFI_SECTION_DXE_DEPEX w = Ok ((st, l), w') ->
  st <> EFI_PROTOCOL_ERROR /\ (EFI_ERROR st = false -> head l <> Some EFI_DEP_SOR).

Lemma read_section_run d e s :
  drivers s !! d = Some e -> Before (Expr e) = false -> After (Expr e) = false -> Dependent (Expr e) = false ->
  Unrequested (Expr e) = false -> depex_ok (Expr e) -> Scheduled e = false -> Untrusted e = false -> Initialized e = false ->
  exists st e' w', CoreGetDepexSectionAndPreProccess d s = Ok (st, upd_drivers (<[d := e']> (drivers s)) (upd_world w' s)) /\
    same_driver e e' /\ read_entry e' /\ Located w' = Located (world s) /\ ArchProtocols w' = ArchProtocols (world s) /\
    (plain_section (Fv e) (FileName e) -> in_phase e' Waiting).
Proof.
  intros He HB HA HD HU HX HS HT HI. unfold CoreGetDepexSectionAndPreProccess.
  rewrite (Mbind_Ok _ _ _ e s) by (unfold entry_at; by rewrite He).
  destruct (section_law (tot := tot) (N := N) (Fv e) (FileName e) (world s)) as (st & l & w' & Er & Hok & HL & HAr).
  rewrite (Mbind_Ok _ _ _ (st, l) (upd_world w' s)) by (unfold on_world; by rewrite Er).
  set (s1 := upd_world w' s). assert (drivers s1 !! d = Some e) as He1 by done.
  destruct (EFI_ERROR st) eqn:Hst.
  - case_bool_decide as Hpe.
    + rewrite (Mbind_Ok _ _ _ _ _ (on_entry_run d e _ s1 He1)). eexists _, _, w'. split; [reflexivity|]. split; [done|].
      split; [|split_and!; [done|done|intros Pl; by destruct (Pl _ _ _ _ Er)]]. split; [exact HX|]. split; [done|].
      exists Unread. split; [|by left]. by split_and!.
    + unfold Mbind. rewrite (on_entry_run d e _ s1 He1).
      rewrite (on_entry_run d (set_section None (DepexSize (Expr e)) e)) by (cbn; by rewrite lookup_insert_eq).
      rewrite (on_entry_run d (set_Dependent true (set_section None (DepexSize (Expr e)) e))) by (cbn; by rewrite lookup_insert_eq).
      set (e' := set_DepexProtocolError false (set_Dependent true (set_section None (DepexSize (Expr e)) e))).
      assert (in_phase e' Waiting) as Hw by (by split_and!). eexists _, e', w'.
      split; [unfold Mret; do 2 f_equal; cbn; by rewrite !insert_insert_eq|]. split; [done|]. split; [|done].
      split; [split; [cbn; by rewrite HB|intros _ _; by left]|]. split; [done|]. exists Waiting. split; [done|tauto].
  - destruct (preprocess_section (mkDriver (Some l) (Z.of_nat (length l)) (Before (Expr e)) (After (Expr e)) (Dependent (Expr e))
      (Unrequested (Expr e)) (BeforeAfterGuid (Expr e))) l eq_refl eq_refl (Hok eq_refl) HB HA HD HU) as (x' & Ex & Hx' & HDU & Hsor).
    unfold Mbind. rewrite (on_entry_run d e _ s1 He1).
    unfold preprocess. cbn [drivers upd_drivers]. rewrite lookup_insert_eq. cbn [Expr set_section set_Expr]. rewrite Ex.
    rewrite (on_entry_run d (set_Expr x' (set_section (Some l) (Z.of_nat (length l)) e))) by (cbn; by rewrite lookup_insert_eq).
    set (e' := set_DepexProtocolError false (set_Expr x' (set_section (Some l) (Z.of_nat (length l)) e))).
    assert (in_phase e' (if Unrequested x' then OnRequest else Waiting)) as Hp.
    { unfold in_phase. cbn. destruct (Unrequested x'); rewrite ?HDU, ?HS, ?HT, ?HI; by split_and!. }
    eexists _, e', w'. split; [unfold Mret; do 2 f_equal; cbn; by rewrite !insert_insert_eq|]. split; [done|].
    split; [|split_and!; [done|done|]].
    + split; [done|]. split; [done|]. eexists. split; [exact Hp|]. destruct (Unrequested x'); tauto.
    + intros Pl. destruct (Pl _ _ _ _ Er) as [_ Hh]. by rewrite (Hsor (Hh Hst)) in Hp.
Qed.
End Read.

(** ** Progress *)

Lemma sum_list_with_le (f g : Z -> nat) l :
  (forall x, x ∈ l -> g x <= f x)%nat -> (sum_list_with g l <= sum_list_with f l)%nat.
Proof.
  induction l as [|x l IH]; intros H; cbn [sum_list_with]; [done|]. pose proof (H x ltac:(by left)).
  assert (sum_list_with g l <= sum_list_with f l)%nat by (apply IH; intros y Hy; apply H; by right). lia.
Qed.
Lemma sum_list_with_lt (d : Z) (f g : Z -> nat) l :
  (forall x, x ∈ l -> g x <= f x)%nat -> d ∈ l -> (g d < f d)%nat -> (sum_list_with g l < sum_list_with f l)%nat.
Proof.
  intros H (l1 & l2 & ->)%list_elem_of_split Hlt. rewrite !sum_list_with_app. cbn [sum_list_with].
  assert (sum_list_with g l1 <= sum_list_with f l1)%nat by (apply sum_list_with_le; intros x Hx; apply H; set_solver).
  assert (sum_list_with g l2 <= sum_list_with f l2)%nat by (apply sum_list_with_le; intros x Hx; apply H; set_solver). lia.
Qed.

Section Progress.
Context {World : Type} `{Env : !DISP_ENV World} (tot : bool) (N : nat) `{!DISP_LAWS tot N}.
Implicit Types s : DISP World.

(** How far a driver is from its end. *)
Definition rank_entry (e : EFI_CORE_DRIVER_ENTRY) : nat :=
  if Initialized e then 0 else if ImageHandle e =? 0 then 2 else 1.
Definition weight s (d : Z) : nat := from_option rank_entry 0%nat (drivers s !! d).
Definition rank s : nat :=
  (sum_list_with (weight s) (mDiscoveredList s) +
   2 * (N - length (mDiscoveredList s)))%nat.

(** Drivers stay on the list with their names; no driver goes back. *)
Definition evolves s s' : Prop :=
  (exists k, mDiscoveredList s' = mDiscoveredList s ++ k) /\ gDispatcherRunning s' = gDispatcherRunning s /\
  forall d e, drivers s !! d = Some e -> exists e', drivers s' !! d = Some e' /\ FileName e' = FileName e /\
    FvHandle e' = FvHandle e /\ (rank_entry e' <= rank_entry e)%nat /\ (Initialized e = true -> Initialized e' = true).

Lemma evolves_refl s : evolves s s.
Proof. split; [exists []; by rewrite app_nil_r|]. split; [done|]. intros d e He. by exists e. Qed.
Lemma evolves_trans s1 s2 s3 : evolves s1 s2 -> evolves s2 s3 -> evolves s1 s3.
Proof.
  intros ([k1 E1] & R1 & H1) ([k2 E2] & R2 & H2). split; [exists (k1 ++ k2); by rewrite E2, E1, app_assoc|].
  split; [congruence|]. intros d e He. destruct (H1 d e He) as (e1 & He1 & A1 & B1 & C1 & D1).
  destruct (H2 d e1 He1) as (e2 & He2 & A2 & B2 & C2 & D2). exists e2. split_and!; try congruence; [lia|auto].
Qed.
Lemma rank_entry_le e : (rank_entry e <= 2)%nat.
Proof. unfold rank_entry. destruct (Initialized e), (ImageHandle e =? 0); lia. Qed.

Lemma grows_evolves s s' : wf N s -> grows asked_or_queued s s' -> evolves s s'.
Proof.
  intros W (H1 & _ & H3 & H4). split_and!; try done. intros d e He. destruct (H4 d e He) as (e' & He' & Sm & Hp). exists e'.
  destruct (wf_entry N s W d e He) as ([p Hph] & _). destruct (Hp p Hph) as (p' & Hph' & HR).
  assert (Initialized e' = Initialized e) as EI.
  { destruct Hph as (_ & _ & _ & _ & _ & ->), Hph' as (_ & _ & _ & _ & _ & ->).
    destruct HR as [[->|[[-> ->]|[-> ->]]]|[[-> | ->] ->]]; done. }
  destruct Sm as (? & ? & _ & _ & _ & _ & _ & _ & _ & _ & Ei). split_and!; try done; [|by rewrite EI].
  unfold rank_entry. by rewrite EI, Ei.
Qed.
Lemma outside_evolves s s' : wf N s -> outside N s s' -> evolves s s'.
Proof. intros W [G _]. by apply grows_evolves, asked_grows. Qed.

Lemma sum_weight_new s k : (sum_list_with (weight s) k <= 2 * length k)%nat.
Proof.
  induction k as [|x k IH]; cbn [sum_list_with length]; [done|]. unfold weight at 1.
  destruct (drivers s !! x) as [e|]; cbn; [pose proof (rank_entry_le e)|]; lia.
Qed.
Lemma evolves_weight s s' d : evolves s s' -> is_Some (drivers s !! d) -> (weight s' d <= weight s d)%nat.
Proof.
  intros (_ & _ & H) [e He]. destruct (H d e He) as (e' & He' & _ & _ & Hr & _). unfold weight. by rewrite He, He'.
Qed.

Lemma rank_evolves s s' : wf N s -> wf N s' -> evolves s s' -> (rank s' <= rank s)%nat.
Proof.
  intros W W' V. pose proof V as ([k Ek] & _). pose proof (wf_size N s' W') as Hsz. unfold rank.
  rewrite Ek, sum_list_with_app, length_app in *. pose proof (sum_weight_new s' k).
  assert (sum_list_with (weight s') (mDiscoveredList s) <= sum_list_with (weight s) (mDiscoveredList s))%nat; [|lia].
  apply sum_list_with_le. intros d Hd. apply (evolves_weight s); [done|]. by apply (wf_entries N s W).
Qed.

Lemma rank_lt s s' d : wf N s -> wf N s' -> evolves s s' -> d ∈ mDiscoveredList s -> (weight s' d < weight s d)%nat ->
  (rank s' < rank s)%nat.
Proof.
  intros W W' V Hd Hlt. pose proof V as ([k Ek] & _). pose proof (wf_size N s' W') as Hsz. unfold rank.
  rewrite Ek, sum_list_with_app, length_app in *. pose proof (sum_weight_new s' k).
  assert (sum_list_with (weight s') (mDiscoveredList s) < sum_list_with (weight s) (mDiscoveredList s))%nat; [|lia].
  apply (sum_list_with_lt d); [|done|done]. intros x Hx. apply (evolves_weight s); [done|]. by apply (wf_entries N s W).
Qed.
Lemma rank_bound s : wf N s -> (rank s <= 2 * N)%nat.
Proof. intros W. pose proof (wf_size N s W). unfold rank. pose proof (sum_weight_new s (mDiscoveredList s)). lia. Qed.
End Progress.

Section Drain.
Context {World : Type} `{Env : !DISP_ENV World} (tot : bool) (N : nat) `{!DISP_LAWS tot N}.
Implicit Types s : DISP World.

(** ** A driver leaves the queue *)

Definition left_queue s (d : Z) (e' : EFI_CORE_DRIVER_ENTRY) : DISP World :=
  upd_mScheduledQueue (filter (fun x => x <> d) (mScheduledQueue s)) (upd_drivers (<[d := e']> (drivers s)) s).

Lemma entry_ok_same e e' p : entry_ok e -> in_phase e' p -> Expr e' = Expr e -> (DepexProtocolError e' = true -> DepexProtocolError e = true) ->
  entry_ok e'.
Proof. intros (_ & Hx & Hr) Hp Ex He. split; [by exists p|]. rewrite Ex. auto. Qed.

(** One entry changes and its driver is not behind where it was. *)
Lemma update_evolves s s' d e e' :
  drivers s !! d = Some e -> drivers s' = <[d := e']> (drivers s) -> mDiscoveredList s' = mDiscoveredList s ->
  gDispatcherRunning s' = gDispatcherRunning s -> FileName e' = FileName e -> FvHandle e' = FvHandle e ->
  (rank_entry e' <= rank_entry e)%nat -> (Initialized e = true -> Initialized e' = true) -> evolves s s'.
Proof.
  intros He Ed El Er H1 H2 H3 H4. split; [exists []; by rewrite El, app_nil_r|]. split; [done|]. intros x ex Hx. rewrite Ed.
  destruct (decide (x = d)) as [->|Hne].
  - rewrite lookup_insert_eq. simplify_eq. by exists e'.
  - rewrite lookup_insert_ne by done. by exists ex.
Qed.

Lemma left_queue_ok s d e e' p :
  wf N s -> drivers s !! d = Some e -> in_phase e Queued -> in_phase e' p -> p <> Queued -> Expr e' = Expr e ->
  DepexProtocolError e' = DepexProtocolError e -> FileName e' = FileName e -> wf N (left_queue s d e').
Proof.
  intros W He Hq Hp Hne Ex Ed En. apply (wf_update N s _ d e e'); try done.
  - apply (entry_ok_same e e' p); try done; [by apply (wf_entry N s W d)|by rewrite Ed].
  - cbn. apply NoDup_filter, (wf_queue N s W).
  - intros x. cbn. rewrite list_elem_of_filter. destruct Hp as (_ & _ & _ & -> & _). rewrite bool_decide_false by done.
    naive_solver.
Qed.

Lemma leave_queue {B} s d e f1 f2 p (k : M (DISP World) B) Q :
  wf N s -> mDispatcherLock s = false -> drivers s !! d = Some e -> in_phase e Queued ->
  in_phase (f2 (f1 e)) p -> p <> Queued -> Expr (f2 (f1 e)) = Expr e ->
  DepexProtocolError (f2 (f1 e)) = DepexProtocolError e -> FileName (f2 (f1 e)) = FileName e ->
  (forall s', outside N (left_queue s d (f2 (f1 e))) s' -> wp tot k Q s') ->
  wp tot (CoreAcquireDispatcherLock ;;; on_entry d f1 ;;; on_entry d f2 ;;; dequeue d ;;; CoreReleaseDispatcherLock ;;; k) Q s.
Proof.
  intros W L He Hq Hp Hne Ex Ed En HQ. pose proof (left_queue_ok s d e _ p W He Hq Hp Hne Ex Ed En) as W1.
  apply wp_lock; [done|]. eapply wp_on_entry; [exact He|]. eapply wp_on_entry; [cbn; by rewrite lookup_insert_eq|].
  apply wp_dequeue; [apply (wf_queued N s W); exists e; split; [done|apply Hq]|].
  apply (wp_unlock_as tot N (left_queue s d (f2 (f1 e))) (fun _ => k));
    [done|split_and!; cbn; [by rewrite insert_insert_eq|done|done]|done|done|exact HQ].
Qed.

(** A driver on the queue stays there while other code runs. *)
Lemma queued_outside s s' d e : outside N s s' -> drivers s !! d = Some e -> in_phase e Queued ->
  exists e', drivers s' !! d = Some e' /\ same_file e e' /\ in_phase e' Queued.
Proof.
  intros [(_ & _ & _ & H) _] He Hq. destruct (H d e He) as (e' & He' & Sm & Hp). exists e'. split_and!; try done.
  destruct (Hp Queued Hq) as (p' & Hp' & [->|[[? _]|[? _]]]); done.
Qed.
Lemma done_outside s s' d e : outside N s s' -> drivers s !! d = Some e -> exists e', drivers s' !! d = Some e' /\ same_file e e'.
Proof. intros [G _] He. by eapply grows_entry. Qed.

Lemma queued_initialized e : in_phase e Queued -> Initialized e = false.
Proof. by intros (_ & _ & _ & _ & _ & ->). Qed.

(** What one turn achieves. *)
Definition advanced s s' : Prop :=
  wf N s' /\ mDispatcherLock s' = false /\ evolves s s' /\ (rank N s' < rank N s)%nat.

(** A driver leaves the queue for an entry of lower rank; then other code
    runs. *)
Lemma left_advanced s0 s d e e' s' :
  wf N s0 -> wf N s -> evolves s0 s -> drivers s !! d = Some e -> wf N (left_queue s d e') -> FileName e' = FileName e ->
  FvHandle e' = FvHandle e -> Initialized e = false -> is_Some (drivers s0 !! d) -> (rank_entry e' < weight s0 d)%nat ->
  (rank_entry e' <= rank_entry e)%nat -> outside N (left_queue s d e') s' -> advanced s0 s'.
Proof.
  intros W0 W V He W1 En Eh Ei H0 Hlt Hle O.
  assert (evolves s (left_queue s d e')) as V1.
  { apply (update_evolves s _ d e e'); try done. by rewrite Ei. }
  pose proof (outside_evolves N _ _ W1 O) as V2. pose proof (evolves_trans _ _ _ V V1) as V01.
  pose proof (evolves_trans _ _ _ V01 V2) as V02. destruct O as (G & W' & L'). split_and!; try done.
  apply (rank_lt N s0 s' d); try done; [by apply (wf_entries N s0 W0)|].
  eapply Nat.le_lt_trans; [apply (evolves_weight _ s' d V2); cbn; by rewrite lookup_insert_eq|].
  unfold weight at 1. cbn. by rewrite lookup_insert_eq.
Qed.
(** The state in which the loaded driver [d] is taken off the queue: [s0] is
    where its turn began. *)
Definition loaded s0 s (d : Z) (st : EFI_STATUS) : Prop :=
  wf N s /\ mDispatcherLock s = false /\ evolves s0 s /\
  exists e, drivers s !! d = Some e /\ in_phase e Queued /\ (rank_entry e <= weight s0 d)%nat /\
    (st = EFI_SUCCESS -> ImageHandle e <> 0 \/ IsFvImage e = true) /\
    (st = EFI_SECURITY_VIOLATION -> (1 < weight s0 d)%nat /\ ImageHandle e <> 0).

Lemma load_step s d e : wf N s -> mDispatcherLock s = false -> drivers s !! d = Some e -> in_phase e Queued ->
  wp tot (if (ImageHandle e =? 0) && negb (IsFvImage e)
          then let! r := CoreLoadImage (FvFileDevicePath e) in on_entry d (set_ImageHandle r.2) ;;; Mret r.1
          else Mret EFI_SUCCESS) (fun st s' => loaded s s' d st) s.
Proof.
  intros W L He Hq. assert (weight s d = rank_entry e) as Ew by (unfold weight; by rewrite He).
  destruct (Z.eqb_spec (ImageHandle e) 0) as [Hh|Hh]; cbn [andb].
  2:{ apply wp_ret. split_and!; try done; [apply evolves_refl|]. exists e. split_and!; try done; [by rewrite Ew|tauto]. }
  destruct (IsFvImage e) eqn:Hf; cbn [negb].
  { apply wp_ret. split_and!; try done; [apply evolves_refl|]. exists e. split_and!; try done; [by rewrite Ew|tauto]. }
  assert (rank_entry e = 2%nat) as Er by (unfold rank_entry; by rewrite (queued_initialized e Hq), Hh).
  eapply wp_seq; [by apply (load_law (N := N))|]. cbn beta. intros [st h] s1 [O Hst]. cbn [fst snd] in *.
  destruct (queued_outside s s1 d e O He Hq) as (e1 & He1 & Sm & Hq1). pose proof O as (G & W1 & L1).
  eapply wp_on_entry; [exact He1|]. apply wp_ret. set (e2 := set_ImageHandle h e1).
  assert (in_phase e2 Queued) as Hq2 by done.
  split_and!.
  - apply (wf_update N s1 _ d e1 e2); try done.
    + apply (entry_ok_same e1 e2 Queued); try done. by apply (wf_entry N s1 W1 d).
    + cbn. apply (wf_queue N s1 W1).
    + intros x. cbn. destruct (decide (x = d)) as [->|Hne]; [|tauto]. split; [intros _; left; split; [done|apply Hq1]|].
      intros _. apply (wf_queued N s1 W1). exists e1. split; [done|apply Hq1].
  - done.
  - eapply evolves_trans; [by apply (outside_evolves N)|]. apply (update_evolves s1 _ d e1 e2); try done.
    assert (rank_entry e1 = 2%nat) as -> by (destruct Sm as (_ & _ & _ & _ & _ & _ & _ & _ & _ & _ & Ei);
      unfold rank_entry; by rewrite (queued_initialized e1 Hq1), Ei, Hh).
    apply rank_entry_le.
  - exists e2. cbn. rewrite lookup_insert_eq. rewrite Ew, Er. split_and!; try done; [apply rank_entry_le|tauto|].
    intros ->. split; [lia|]. by apply Hst; right.
Qed.

Lemma dispatch_one_ok s d : wf N s -> mDispatcherLock s = false -> d ∈ mScheduledQueue s ->
  wp tot (dispatch_one d) (fun _ s' => advanced s s') s.
Proof.
  intros W L (e & He & Hq)%(queued_phase N s d W). unfold dispatch_one. eapply wp_entry; [exact He|].
  eapply wp_seq; [by apply load_step|]. cbn beta. intros st s1 (W1 & L1 & V1 & e1 & He1 & Hq1 & Hr1 & Hs1 & Hs2).
  pose proof Hq1 as (H1 & H2 & H3 & H4 & H5 & H6). assert (is_Some (drivers s !! d)) as Hsome by (by exists e).
  assert (0 < rank_entry e1)%nat as Hpos
    by (unfold rank_entry; rewrite (queued_initialized e1 Hq1); destruct (_ =? 0); lia).
  destruct (EFI_ERROR st) eqn:Hst.
  - destruct (decide (st = EFI_SECURITY_VIOLATION)) as [Hsec|Hsec].
    + rewrite bool_decide_true by done. destruct (Hs2 Hsec) as [Hw Hh]. set (e2 := set_Scheduled false (set_Untrusted true e1)).
      assert (in_phase e2 Distrusted) as Hp2 by (by split_and!).
      apply (leave_queue s1 d e1 (set_Untrusted true) (set_Scheduled false) Distrusted); try done.
      intros s' O. apply wp_ret. apply (left_advanced s s1 d e1 e2 s'); try done.
      * by apply (left_queue_ok s1 d e1 e2 Distrusted).
      * unfold rank_entry. cbn. rewrite (queued_initialized e1 Hq1), (proj2 (Z.eqb_neq _ 0) Hh). lia.
    + rewrite bool_decide_false by done. set (e2 := set_Scheduled false (set_Initialized true e1)). assert (in_phase e2 Done) as Hp2 by (by split_and!).
      apply (leave_queue s1 d e1 (set_Initialized true) (set_Scheduled false) Done); try done.
      intros s' O. apply wp_ret. apply (left_advanced s s1 d e1 e2 s'); try done;
        [by apply (left_queue_ok s1 d e1 e2 Done)|cbn; lia|cbn; lia].
  - set (e2 := set_Initialized true (set_Scheduled false e1)). assert (in_phase e2 Done) as Hp2 by (by split_and!).
    assert (wf N (left_queue s1 d e2)) as W2 by (by apply (left_queue_ok s1 d e1 e2 Done)).
    apply (leave_queue s1 d e1 (set_Scheduled false) (set_Initialized true) Done); try done.
    intros s3 O. assert (advanced s s3) as (W3 & L3 & V3 & R3).
    { apply (left_advanced s s1 d e1 e2 s3); try done; [cbn; lia|cbn; lia]. }
    destruct (done_outside (left_queue s1 d e2) s3 d e2 O) as (e3 & He3 & Sm); [cbn; by rewrite lookup_insert_eq|].
    eapply wp_entry; [exact He3|].
    assert (forall s4, outside N s3 s4 -> advanced s s4) as Fin.
    { intros s4 O4. pose proof (outside_evolves N s3 s4 W3 O4) as V4. destruct O4 as (G4 & W4 & L4). split_and!; try done.
      - by eapply evolves_trans.
      - pose proof (rank_evolves N s3 s4 W3 W4 V4). lia. }
    assert (IsFvImage e3 = IsFvImage e1 /\ ImageHandle e3 = ImageHandle e1) as [Ef Eh].
    { destruct Sm as (_ & _ & _ & _ & E1 & _ & _ & _ & _ & _ & E2). done. }
    rewrite Ef, Eh. destruct (IsFvImage e1) eqn:Hf.
    + eapply wp_seq; [by apply (process_law (N := N))|]. cbn beta. intros _ s4 O4. by apply wp_ret, Fin.
    + assert (ImageHandle e1 <> 0) as Hh. { destruct (Hs1 ltac:(by destruct st)) as [?|?]; done. }
      rewrite (proj2 (Z.eqb_neq _ 0) Hh). cbn [negb DASSERT]. apply wp_bind. eapply wp_step; [done|].
      eapply wp_mono; [by apply (start_law (N := N))|]. cbn beta. intros _ s4 O4. by apply wp_ret, Fin.
Qed.

Lemma drain_ok turns : forall s rs, wf N s -> mDispatcherLock s = false -> (tot = true -> rank N s < turns)%nat ->
  wp tot (drain turns rs) (fun rs' s' => wf N s' /\ mDispatcherLock s' = false /\ evolves s s' /\ mScheduledQueue s' = [] /\
    (mScheduledQueue s <> [] -> (rank N s' < rank N s)%nat) /\ (rs' = rs \/ rs' = EFI_SUCCESS)) s.
Proof.
  induction turns as [|turns IH]; intros s rs W L Ht; cbn [drain]; apply wp_get; destruct (mScheduledQueue s) as [|d q] eqn:Eq.
  - apply wp_ret. split_and!; try done; [apply evolves_refl|by left].
  - unfold wp, Mfail. destruct tot; [|done]. specialize (Ht eq_refl). lia.
  - apply wp_ret. split_and!; try done; [apply evolves_refl|by left].
  - eapply wp_seq; [apply dispatch_one_ok; [done|done|rewrite Eq; by left]|]. cbn beta. intros b s1 (W1 & L1 & V1 & R1).
    eapply wp_mono; [apply IH; try done|].
    { intros E. specialize (Ht E). lia. }
    cbn beta. intros rs' s' (W' & L' & V' & Eq' & _ & Hrs). pose proof (rank_evolves N s1 s' W1 W' V'). split_and!; try done.
    + by eapply evolves_trans.
    + intros _. lia.
    + destruct Hrs as [->| ->]; [|by right]. destruct b; [by right|by left].
Qed.
End Drain.
