(* ===== verification/DispatchScan.v ===== *)
(** * DispatchScan: the search for drivers that are ready, and the dispatcher *)

From stdpp Require Import base option list gmap fin_maps.
From Stdlib Require Import ZArith Lia.
From S2P Require Import Prelude Depex Dispatch DispatchInv DispatchInsert DispatchLoop.

Local Open Scope Z_scope.
Local Open Scope edk_scope.

Lemma eval_ext l1 l2 t : (forall g, l1 g = l2 g) -> eval l1 t = eval l2 t.
Proof. intros H. induction t; cbn; congruence. Qed.
Lemma eval_patched loc t : eval loc (patch loc t) = eval loc t.
Proof. rewrite eval_patch. apply eval_ext. intros g. apply orb_diag. Qed.

Section Scan.
Context {World : Type} `{Env : !DISP_ENV World} (tot : bool) (N : nat) `{!DISP_LAWS tot N}.
Implicit Types s : DISP World.

(** The dependencies of a driver do not hold: it asks for a place next to
    another one, or its expression is false, or it has none and an
    architectural protocol is missing. *)
Definition unready (w : World) (x : DRIVER_ENTRY) : Prop :=
  Before x = true \/ After x = true \/
  match Depex x with
  | None => CoreAllEfiServicesAvailable (ArchProtocols w) <> EFI_SUCCESS
  | Some l => exists sor t, guids_ok t /\ l = depex_bytes sor t /\ eval (Located w) t = false
  end.

Lemma unready_world w w' x : Located w' = Located w -> ArchProtocols w' = ArchProtocols w -> unready w x -> unready w' x.
Proof. unfold unready. by intros -> ->. Qed.

(** The state of the evaluator for the entry [e]. *)
Definition evaluator s (e : EFI_CORE_DRIVER_ENTRY) : DepexState := mkState (mDepexStack s).1 (mDepexStack s).2 (Expr e).

(** The expression of a waiting driver is evaluated: the answer and the
    patched expression. *)
Lemma evaluation_answer s e : entry_ok e -> in_phase e Waiting ->
  exists b t, CoreIsSchedulable NDEBUG StackPool (Located (world s)) (ArchProtocols (world s)) (evaluator s e) = Ok (b, t) /\
    entry_ok (set_Expr (DriverEntry t) e) /\ in_phase (set_Expr (DriverEntry t) e) Waiting /\
    (b = true -> Before (DriverEntry t) = false /\ After (DriverEntry t) = false) /\
    (b = false -> unready (world s) (DriverEntry t)).
Proof.
  intros Hok Hp. pose proof Hok as (_ & [HX1 HX2] & HR).
  assert (set_Expr (Expr e) e = e) as Ee by (by destruct e).
  destruct (Before (Expr e) || After (Expr e)) eqn:Hba.
  { exists false, (evaluator s e). cbn [evaluator DriverEntry]. rewrite Ee. split_and!; try done.
    - unfold CoreIsSchedulable. rewrite (Mbind_Ok Mget _ _ _ _ eq_refl). cbn. by rewrite orb_comm, Hba.
    - intros _. unfold unready. apply orb_true_iff in Hba. tauto. }
  apply orb_false_iff in Hba as [HB HA]. destruct (HX2 HB HA) as [Hn|(sor & t & Ht & Hd)].
  { exists (negb (EFI_ERROR (CoreAllEfiServicesAvailable (ArchProtocols (world s))))), (evaluator s e).
    cbn [evaluator DriverEntry]. rewrite Ee. split_and!; try done.
    - unfold CoreIsSchedulable. rewrite (Mbind_Ok Mget _ _ _ _ eq_refl). cbn. by rewrite HA, HB, Hn.
    - intros H. right; right. rewrite Hn. intros E. by rewrite E in H. }
  destruct (schedulable_eval NDEBUG StackPool (Located (world s)) (ArchProtocols (world s)) (evaluator s e) sor t Ht Hd)
    as [(st1 & E1 & D1)|[[n Hn] _]].
  2:{ by rewrite (stack_law (tot := tot) (N := N)) in Hn. }
  eexists _, st1. split; [exact E1|]. rewrite D1. cbn [DriverEntry evaluator]. set (t' := patch (Located (world s)) t).
  assert (has_depex (depex_bytes sor t') (set_Depex (depex_bytes sor t') (Expr e))) as Hd'.
  { apply (has_depex_update _ _ _ Hd), length_depex_patch. }
  assert (guids_ok t') as Ht' by (by apply guids_ok_patch). split_and!; try done.
  - split; [by exists Waiting|]. split; [|done]. split; [done|]. intros _ _. right. by exists sor, t'.
  - intros Hf. right; right. cbn. exists sor, t'. split_and!; try done. unfold t'. by rewrite eval_patched.
Qed.

Lemma schedulable_step d e s b t : drivers s !! d = Some e ->
  CoreIsSchedulable NDEBUG StackPool (Located (world s)) (ArchProtocols (world s)) (evaluator s e) = Ok (b, t) ->
  schedulable d s = Ok (b, upd_mDepexStack (mDepexEvaluationStack t, mDepexEvaluationStackPointer t)
    (upd_drivers (<[d := set_Expr (DriverEntry t) e]> (drivers s)) s)).
Proof. intros He E. unfold schedulable. rewrite He. fold (evaluator s e). by rewrite E. Qed.

(** One entry changes in place. *)
Lemma replace_wf s s' d e e' p :
  wf N s -> drivers s !! d = Some e -> in_phase e p -> p <> Queued -> drivers s' = <[d := e']> (drivers s) ->
  mDiscoveredList s' = mDiscoveredList s -> mScheduledQueue s' = mScheduledQueue s -> FileName e' = FileName e ->
  Scheduled e' = false -> entry_ok e' -> wf N s'.
Proof.
  intros W He Hp Hne Ed El Eq En Hs Hok. apply (wf_update N s s' d e e'); try done.
  - rewrite Eq. apply (wf_queue N s W).
  - intros x. rewrite Eq, Hs. split; [|naive_solver]. intros Hx. right. split; [|done]. intros ->.
    apply (queued_phase N s d W) in Hx. by pose proof (phase_unique s d _ _ (ex_intro _ e (conj He Hp)) Hx).
Qed.

(** ** One driver *)

(** Looking at [d]: either nothing but its own entry changed, and it is not
    ready, or it is on the queue. *)
Definition considered (d : Z) (b : bool) s s' : Prop :=
  wf N s' /\ mDispatcherLock s' = false /\ evolves s s' /\ (exists l, mScheduledQueue s' = mScheduledQueue s ++ l) /\
  (b = true -> mScheduledQueue s' <> []) /\
  (b = false -> mScheduledQueue s' = mScheduledQueue s /\ mDiscoveredList s' = mDiscoveredList s /\
     (forall y, y <> d -> drivers s' !! y = drivers s !! y) /\
     Located (world s') = Located (world s) /\ ArchProtocols (world s') = ArchProtocols (world s) /\
     (forall e, drivers s' !! d = Some e -> in_phase e Waiting -> unready (world s') (Expr e))).

(** The section is read if it could not be before. *)
Lemma reread_ok s d e : wf N s -> mDispatcherLock s = false -> drivers s !! d = Some e ->
  wp tot (if DepexProtocolError e then CoreGetDepexSectionAndPreProccess d ;;; Mret tt else Mret tt)
    (fun _ s' => wf N s' /\ mDispatcherLock s' = false /\ evolves s s' /\ mScheduledQueue s' = mScheduledQueue s /\
       mDiscoveredList s' = mDiscoveredList s /\ (forall y, y <> d -> drivers s' !! y = drivers s !! y) /\
       is_Some (drivers s' !! d) /\
       Located (world s') = Located (world s) /\ ArchProtocols (world s') = ArchProtocols (world s)) s.
Proof.
  intros W L He. destruct (wf_entry N s W d e He) as ([p Hp] & Hx & HR). destruct (DepexProtocolError e) eqn:Hpe.
  2:{ apply wp_ret. split_and!; try done. apply evolves_refl. }
  assert (p = Unread) as ->. { destruct Hp as (H & _). rewrite Hpe in H. symmetry in H. by apply bool_decide_eq_true in H. }
  destruct (HR eq_refl) as [HB HA]. pose proof Hp as (_ & H2 & H3 & H4 & H5 & H6).
  destruct (read_section_run tot N d e s He HB HA H3 H2 Hx H4 H5 H6) as (st & e' & w' & E & Sd & (Hx' & HR' & p' & Hp' & Hph) & HL & HAr & _).
  eapply wp_step; [exact E|]. apply wp_ret. pose proof Sd as (Eh & En & _ & _ & _ & Ei).
  assert (p' <> Queued /\ p' <> Done) as [Hq Hdn] by (destruct Hph as [-> |[-> | ->]]; done).
  assert (Scheduled e' = false) as Hs' by (destruct Hp' as (_ & _ & _ & -> & _); by rewrite bool_decide_false).
  assert (Initialized e' = false) as Hi' by (destruct Hp' as (_ & _ & _ & _ & _ & ->); by rewrite bool_decide_false).
  split_and!; try done.
  - apply (replace_wf s _ d e e' Unread); try done. split; [by exists p'|done].
  - apply (update_evolves s _ d e e'); try done; [|by rewrite H6]. unfold rank_entry. by rewrite Hi', Ei, H6.
  - intros y Hy. cbn. by rewrite lookup_insert_ne.
  - cbn. by rewrite lookup_insert_eq.
Qed.

Lemma consider_ok s d : wf N s -> mDispatcherLock s = false -> is_Some (drivers s !! d) ->
  wp tot (consider d) (fun b s' => considered d b s s') s.
Proof.
  intros W L [e He]. unfold consider. eapply wp_entry; [exact He|]. eapply wp_seq; [by apply reread_ok|]. cbn beta.
  intros _ s1 (W1 & L1 & V1 & Eq1 & El1 & Hoth1 & [e1 He1] & HL1 & HA1). eapply wp_entry; [exact He1|].
  pose proof (waiting_flag N s1 d e1 W1 He1) as Hw. destruct (Dependent (Expr e1)) eqn:Hdep.
  2:{ apply wp_ret. split_and!; try done; [exists []; by rewrite Eq1, app_nil_r|]. intros _. split_and!; try done.
      intros e' He' Hp'. simplify_eq. destruct Hp' as (_ & _ & H & _). by rewrite Hdep in H. }
  destruct (proj1 Hw eq_refl) as (e1' & He1' & Hp1). simplify_eq.
  destruct (evaluation_answer s1 e1 (wf_entry N s1 W1 d e1 He1) Hp1) as (b & t & E & Hok & Hp2 & Hyes & Hno).
  set (e2 := set_Expr (DriverEntry t) e1) in *.
  eapply wp_step; [exact (schedulable_step d e1 s1 b t He1 E)|]. fold e2. set (s2 := upd_mDepexStack _ _).
  assert (wf N s2) as W2.
  { apply (replace_wf s1 s2 d e1 e2 Waiting); try done. apply Hp2. }
  assert (drivers s2 !! d = Some e2) as He2 by (cbn; by rewrite lookup_insert_eq).
  assert (evolves s s2) as V2.
  { eapply evolves_trans; [exact V1|]. apply (update_evolves s1 s2 d e1 e2); try done. }
  destruct b.
  - destruct (Hyes eq_refl) as [HB HA]. unfold CoreInsertOnScheduledQueueWhileProcessingBeforeAndAfter.
    assert (phase_of s2 d Waiting) as Hw2 by (by exists e2).
    eapply wp_seq; [apply (insert_nested_ok tot N d fuel s2 [] d); try done|].
    + split; [constructor|]. intros x Hx. by apply elem_of_nil in Hx.
    + apply not_elem_of_nil.
    + intros e' He'. simplify_eq. cbn in *. split_and!; congruence.
    + intros _. pose proof (fuel_law (tot := tot) (N := N)). lia.
    + cbn beta. intros _ s3 (W3 & L3 & G3 & _ & Hset & _). apply wp_ret. pose proof G3 as (_ & [l El] & _).
      split_and!; try done.
      * eapply evolves_trans; [exact V2|]. by apply (grows_evolves N).
      * exists l. rewrite El. cbn. by rewrite Eq1.
      * intros _ E3. destruct (waiting_grows N s2 s3 d W3 G3 Hw2) as [Hw3|[_ Hq]]; [by destruct (waiting_not_settled s3 d)|].
        rewrite E3 in Hq. by apply elem_of_nil in Hq.
  - apply wp_ret. split_and!; try done; [exists []; by rewrite app_nil_r|]. intros _. split_and!; try done.
    + intros y Hy. cbn. rewrite lookup_insert_ne by done. by apply Hoth1.
    + intros e' He' _. simplify_eq. by apply Hno.
Qed.
(** ** The loops *)

Definition no_ready s : Prop :=
  forall x e, drivers s !! x = Some e -> in_phase e Waiting -> unready (world s) (Expr e).

Definition scan_inv s0 s (seen : list Z) (found : bool) : Prop :=
  wf N s /\ mDispatcherLock s = false /\ evolves s0 s /\ (exists l, mScheduledQueue s = mScheduledQueue s0 ++ l) /\
  (found = true -> mScheduledQueue s <> []) /\
  (found = false -> mScheduledQueue s = mScheduledQueue s0 /\
     forall x e, x ∈ seen -> drivers s !! x = Some e -> in_phase e Waiting -> unready (world s) (Expr e)).

Lemma scan_ok s : wf N s -> mDispatcherLock s = false ->
  wp tot (for_drivers consider) (fun b s' => scan_inv s s' (mDiscoveredList s') b) s.
Proof.
  intros W L. apply (for_drivers_rule tot N (scan_inv s)); [by intros ??? []| | |].
  - intros s1 seen d rest found (W1 & L1 & V1 & [l El] & Hf & Hn) Ed.
    assert (is_Some (drivers s1 !! d)) as Hd by (apply (wf_entries N s1 W1); rewrite Ed; set_solver).
    eapply wp_mono; [by apply consider_ok|]. cbn beta. intros b s2 (W2 & L2 & V2 & [l2 El2] & Hb & Hnb).
    split; [|apply V2]. split_and!; try done.
    + by eapply evolves_trans.
    + exists (l ++ l2). by rewrite El2, El, app_assoc.
    + intros [Ht|Ht]%orb_true_iff; [|by apply Hb]. rewrite El2. intros [E _]%app_nil. by apply Hf.
    + intros [Hff Hbf]%orb_false_iff. destruct (Hn Hff) as [Eq Hseen]. destruct (Hnb Hbf) as (Eq2 & _ & Hoth & HLo & HAr & Hnew).
      split; [congruence|]. intros x e Hx He Hp. destruct (decide (x = d)) as [->|Hne]; [by apply Hnew|].
      rewrite Hoth in He by done. apply (unready_world (world s1)); [done|done|]. apply (Hseen x e); [|done|done].
      apply elem_of_app in Hx as [?|Hx]; [done|]. by apply list_elem_of_singleton in Hx as ->.
  - intros _. pose proof (fuel_law (tot := tot) (N := N)). lia.
  - split_and!; try done; [apply evolves_refl|exists []; by rewrite app_nil_r|]. intros _. split; [done|].
    intros x e Hx. by apply elem_of_nil in Hx.
Qed.

(** Event notifications that do not schedule drivers. *)
Definition quiet_signals : Prop := forall ev s, wf N s -> mDispatcherLock s = false ->
  wp tot (CoreSignalEvent ev) (fun _ s' => mScheduledQueue s' = mScheduledQueue s) s.

Lemma signal_step ev rs s : wf N s -> mDispatcherLock s = false ->
  wp tot (if EFI_ERROR rs then Mret tt else CoreSignalEvent ev)
    (fun _ s' => wf N s' /\ mDispatcherLock s' = false /\ evolves s s' /\
       (quiet_signals \/ EFI_ERROR rs = true -> mScheduledQueue s' = mScheduledQueue s)) s.
Proof.
  intros W L. destruct (EFI_ERROR rs). { apply wp_ret. split_and!; try done. apply evolves_refl. }
  eapply wp_mono; [apply wp_and; [by apply (signal_law (N := N))|]|].
  - instantiate (1 := fun _ s' => quiet_signals -> mScheduledQueue s' = mScheduledQueue s).
    pose proof (signal_law (N := N) ev s W L) as Hs. unfold wp in *.
    destruct (CoreSignalEvent ev s) as [[[] s']| | |] eqn:E; try done.
    intros Hq. specialize (Hq ev s W L). unfold wp in Hq. by rewrite E in Hq.
  - cbn beta. intros _ s' (O & Hq). pose proof (outside_evolves N s s' W O) as V. destruct O as (_ & W' & L').
    split_and!; try done. intros [?|?]; [by apply Hq|done].
Qed.

Lemma dispatch_loop_ok turns ev : forall s rs, wf N s -> mDispatcherLock s = false ->
  (tot = true -> rank N s + (if bool_decide (mScheduledQueue s = []) then 1 else 0) < turns)%nat ->
  wp tot (dispatch_loop turns ev rs) (fun rs' s' => wf N s' /\ mDispatcherLock s' = false /\ evolves s s' /\ no_ready s' /\
    (rs' = rs \/ rs' = EFI_SUCCESS) /\ (quiet_signals \/ EFI_ERROR rs' = true -> mScheduledQueue s' = [])) s.
Proof.
  induction turns as [|turns IH]; intros s rs W L Ht; cbn [dispatch_loop].
  { unfold wp, Mfail. destruct tot; [|done]. specialize (Ht eq_refl). lia. }
  eapply wp_seq; [apply drain_ok; try done|].
  { intros _. pose proof (fuel_law (tot := tot) (N := N)). pose proof (rank_bound N s W). lia. }
  cbn beta. intros rs1 s1 (W1 & L1 & V1 & Eq1 & Hlt & Hrs). eapply wp_seq; [by apply signal_step|]. cbn beta.
  intros _ s2 (W2 & L2 & V2 & Hq2). eapply wp_seq; [by apply scan_ok|]. cbn beta.
  intros b s3 (W3 & L3 & V3 & [l El] & Hyes & Hno).
  pose proof (evolves_trans _ _ _ V1 V2) as V12. pose proof (evolves_trans _ _ _ V12 V3) as V13.
  pose proof (rank_evolves N _ _ W1 W2 V2). pose proof (rank_evolves N _ _ W2 W3 V3). pose proof (rank_evolves N _ _ W W1 V1).
  destruct b.
  - specialize (Hyes eq_refl). eapply wp_mono; [apply IH; try done|].
    { intros E. specialize (Ht E). rewrite bool_decide_false by done. case_bool_decide as Hs; [lia|]. specialize (Hlt Hs). lia. }
    cbn beta. intros rs' s' (W' & L' & V' & Hn & Hrs' & Hq). split_and!; try done; [by eapply evolves_trans|].
    destruct Hrs' as [-> | ->]; [done|by right].
  - apply wp_ret. destruct (Hno eq_refl) as [Eq3 Hseen]. split_and!; try done.
    + intros x e He. apply (Hseen x e); [|done]. apply (wf_entries N s3 W3). by exists e.
    + intros Hor. rewrite Eq3, <- Eq1. by apply Hq2.
Qed.

(** ** CoreDispatcher *)

Lemma dispatcher_ok s : wf N s -> mDispatcherLock s = false -> gDispatcherRunning s = false ->
  wp tot CoreDispatcher (fun r s' => wf N s' /\ mDispatcherLock s' = false /\
    ((EFI_ERROR r = true /\ gDispatcherRunning s' = true /\ outside N (upd_gDispatcherRunning true s) s') \/
     (gDispatcherRunning s' = false /\ (r = EFI_SUCCESS \/ r = EFI_NOT_FOUND) /\
      exists s1 s2, evolves (upd_gDispatcherRunning true s) s1 /\ wf N s1 /\ no_ready s1 /\
        (quiet_signals \/ r = EFI_NOT_FOUND -> mScheduledQueue s1 = []) /\
        outside N s1 s2 /\ s' = upd_gDispatcherRunning false s2))) s.
Proof.
  intros W L R. unfold CoreDispatcher. apply wp_get. rewrite R. apply wp_modify. set (s0 := upd_gDispatcherRunning true s).
  assert (wf N s0) as W0 by (by apply (same_wf N s)).
  eapply wp_seq; [by apply (create_law (N := N))|]. cbn beta. intros [st ev] s1 O1. pose proof O1 as (G1 & W1 & L1).
  destruct (EFI_ERROR st) eqn:Hst.
  { apply wp_ret. split_and!; try done. left. split_and!; try done. by destruct G1 as (_ & _ & -> & _). }
  eapply wp_seq; [apply dispatch_loop_ok; try done|].
  { intros _. pose proof (fuel_law (tot := tot) (N := N)). pose proof (rank_bound N s1 W1). case_bool_decide; lia. }
  cbn beta. intros rs s2 (W2 & L2 & V2 & Hn & Hrs & Hq). eapply wp_seq; [by apply (close_law (N := N))|]. cbn beta.
  intros [] s3 O3. apply wp_modify, wp_ret. pose proof O3 as (G3 & W3 & L3). split_and!; [by apply (same_wf N s3)|done|].
  right. split_and!; [done|tauto|]. exists s2, s3. split_and!; try done.
  - eapply evolves_trans; [by apply (outside_evolves N)|done].
  - intros [H| ->]; apply Hq; [by left|by right].
Qed.
End Scan.
