(* ===== verification/DispatchServices.v ===== *)
(** * DispatchServices: what other code may ask of the dispatcher

    CoreSchedule, CoreTrust and CoreAddToDriverList change the state as
    [outside] allows: they are what code outside is made of. *)

From stdpp Require Import base option list gmap fin_maps.
From Stdlib Require Import ZArith Lia.
From S2P Require Import Prelude Depex Dispatch DispatchInv DispatchInsert DispatchLoop DispatchScan.

Local Open Scope Z_scope.
Local Open Scope edk_scope.

Section Services.
Context {World : Type} `{Env : !DISP_ENV World} (tot : bool) (N : nat) `{!DISP_LAWS tot N}.
Implicit Types s : DISP World.

Lemma find_driver_run test s l : (forall d, d ∈ l -> is_Some (drivers s !! d)) ->
  exists r, find_driver test l s = Ok (r, s) /\
    match r with
    | Some d => d ∈ l /\ exists e, drivers s !! d = Some e /\ test e = true
    | None => forall d e, d ∈ l -> drivers s !! d = Some e -> test e = false
    end.
Proof.
  induction l as [|d l IH]; intros H; cbn [find_driver].
  { exists None. split; [done|]. intros d e Hd. by apply elem_of_nil in Hd. }
  destruct (H d ltac:(by left)) as [e He]. rewrite (Mbind_Ok _ _ _ e s) by (unfold entry_at; by rewrite He).
  destruct (test e) eqn:Ht.
  { exists (Some d). split; [done|]. split; [by left|]. by exists e. }
  destruct IH as (r & -> & Hr); [intros x Hx; apply H; by right|]. exists r. split; [done|]. destruct r as [x|].
  - destruct Hr as [Hx Hr]. split; [by right|done].
  - intros x ex [->|Hx]%elem_of_cons Hex; [congruence|by apply (Hr x ex)].
Qed.

(** One driver takes a step that it was asked for. *)
Lemma change_outside s s' d e e' p p' l :
  wf N s' -> mDispatcherLock s' = false -> drivers s !! d = Some e -> drivers s' = <[d := e']> (drivers s) ->
  mDiscoveredList s' = mDiscoveredList s -> mScheduledQueue s' = mScheduledQueue s ++ l ->
  gDispatcherRunning s' = gDispatcherRunning s -> same_file e e' -> in_phase e p -> in_phase e' p' -> asked p p' ->
  outside N s s'.
Proof.
  intros W L He Ed El Eq Er Sm Hp Hp' HR. split; [|done]. split; [exists []; by rewrite app_nil_r|]. split; [by exists l|].
  split; [done|]. intros x ex Hx. rewrite Ed. destruct (decide (x = d)) as [->|Hne].
  - rewrite lookup_insert_eq. simplify_eq. exists e'. split_and!; try done. intros q Hq.
    rewrite (in_phase_unique _ _ _ Hq Hp). by exists p'.
  - rewrite lookup_insert_ne by done. exists ex. split_and!; try done. intros q Hq. by exists q.
Qed.
Lemma outside_trans s1 s2 s3 : outside N s1 s2 -> outside N s2 s3 -> outside N s1 s3.
Proof. intros (G1 & _) (G2 & ?). split; [|done]. by eapply grows_trans, G2; [apply _|]. Qed.
Lemma outside_refl s : wf N s -> mDispatcherLock s = false -> outside N s s.
Proof. intros W L. split; [by apply grows_refl, _|done]. Qed.

(** Entries of the drivers that a request is about. *)
Definition meant s (h : Z) (name : GUID) (p : phase) (d : Z) : Prop :=
  exists e, drivers s !! d = Some e /\ FvHandle e = h /\ FileName e = name /\ in_phase e p.

Lemma flag_phase s d e : wf N s -> drivers s !! d = Some e ->
  (Unrequested (Expr e) = true <-> in_phase e OnRequest) /\ (Untrusted e = true <-> in_phase e Distrusted).
Proof.
  intros W He. destruct (wf_entry N s W d e He) as ([p Hp] & _). split; split.
  - intros H. pose proof Hp as (_ & H2 & _). rewrite H in H2. symmetry in H2. by apply bool_decide_eq_true in H2 as ->.
  - by intros (_ & -> & _).
  - intros H. pose proof Hp as (_ & _ & _ & _ & H2 & _). rewrite H in H2. symmetry in H2. by apply bool_decide_eq_true in H2 as ->.
  - by intros (_ & _ & _ & _ & -> & _).
Qed.

(** The search that both services make. *)
Lemma request_search s h name (flag : EFI_CORE_DRIVER_ENTRY -> bool) p : wf N s ->
  (forall d e, drivers s !! d = Some e -> flag e = true <-> in_phase e p) ->
  exists r, find_driver (fun e => (FvHandle e =? h) && flag e && bool_decide (name = FileName e)) (mDiscoveredList s) s = Ok (r, s) /\
    match r with Some d => meant s h name p d | None => forall d, ~ meant s h name p d end.
Proof.
  intros W Hf. destruct (find_driver_run (fun e => (FvHandle e =? h) && flag e && bool_decide (name = FileName e)) s (mDiscoveredList s))
    as (r & E & Hr); [intros d; apply (wf_entries N s W)|]. exists r. split; [done|]. destruct r as [d|].
  - destruct Hr as (_ & e & He & Ht). apply andb_true_iff in Ht as [[Hh Hfl]%andb_true_iff Hn].
    apply bool_decide_eq_true in Hn. exists e. split_and!; try done; [lia|by apply (Hf d)].
  - intros d (e & He & Hh & Hn & Hp). assert (d ∈ mDiscoveredList s) as Hd by (apply (wf_entries N s W); by exists e).
    specialize (Hr d e Hd He). rewrite Hh, Z.eqb_refl, (proj2 (Hf d e He) Hp), bool_decide_true in Hr; done.
Qed.

Lemma schedule_ok s h name : wf N s -> mDispatcherLock s = false ->
  wp tot (CoreSchedule h name) (fun r s' => outside N s s' /\
    ((r = EFI_SUCCESS /\ exists d, meant s h name OnRequest d /\ phase_of s' d Waiting) \/
     (r = EFI_NOT_FOUND /\ s' = s /\ forall d, ~ meant s h name OnRequest d))) s.
Proof.
  intros W L. unfold CoreSchedule. apply wp_get.
  destruct (request_search s h name (fun e => Unrequested (Expr e)) OnRequest W) as (r & E & Hr).
  { intros d e He. by apply (flag_phase s d e). }
  eapply wp_step; [exact E|]. destruct r as [d|].
  2:{ apply wp_ret. split; [by apply outside_refl|]. by right. }
  pose proof Hr as (e & He & _ & _ & Hp). set (e' := set_Dependent true (set_Unrequested false e)).
  assert (in_phase e' Waiting) as Hp' by (destruct Hp as (H1 & H2 & H3 & H4 & H5 & H6); by split_and!).
  set (s1 := upd_drivers (<[d := e']> (drivers s)) s).
  assert (wf N s1) as W1.
  { apply (replace_wf N s s1 d e e' OnRequest); try done; [apply Hp|]. destruct (wf_entry N s W d e He) as (_ & Hx & HR).
    split; [by exists Waiting|]. split; [by apply (depex_ok_same (Expr e))|done]. }
  assert (outside N s s1) as O1 by (apply (change_outside s s1 d e e' OnRequest Waiting []); try done; [by rewrite app_nil_r|right; by left]).
  apply wp_lock; [done|]. eapply wp_on_entry; [exact He|]. eapply wp_on_entry; [cbn; by rewrite lookup_insert_eq|].
  apply (wp_unlock_as tot N s1);
    [done|split_and!; cbn; [by rewrite insert_insert_eq|done|done]|done|done|].
  intros s2 O2'. apply wp_ret.
  split; [by eapply outside_trans|]. left. split; [done|]. exists d. split; [done|]. apply (waiting_outside s1 s2 d (proj1 O2')).
  exists e'. cbn. by rewrite lookup_insert_eq.
Qed.

Lemma trust_ok s h name : wf N s -> mDispatcherLock s = false ->
  wp tot (CoreTrust h name) (fun r s' => outside N s s' /\
    ((r = EFI_SUCCESS /\ exists d, meant s h name Distrusted d /\ d ∈ mScheduledQueue s') \/
     (r = EFI_NOT_FOUND /\ s' = s /\ forall d, ~ meant s h name Distrusted d))) s.
Proof.
  intros W L. unfold CoreTrust. apply wp_get.
  destruct (request_search s h name Untrusted Distrusted W) as (r & E & Hr).
  { intros d e He. by apply (flag_phase s d e). }
  eapply wp_step; [exact E|]. destruct r as [d|].
  2:{ apply wp_ret. split; [by apply outside_refl|]. by right. }
  pose proof Hr as (e & He & _ & _ & Hp). set (e' := set_Scheduled true (set_Untrusted false e)).
  assert (in_phase e' Queued) as Hp' by (destruct Hp as (H1 & H2 & H3 & H4 & H5 & H6); by split_and!).
  assert (d ∉ mScheduledQueue s) as Hnq.
  { rewrite (queued_phase N s d W). intros Hq. by pose proof (phase_unique s d _ _ (ex_intro _ e (conj He Hp)) Hq). }
  set (s1 := upd_mScheduledQueue (mScheduledQueue s ++ [d]) (upd_drivers (<[d := e']> (drivers s)) s)).
  assert (wf N s1) as W1.
  { apply (wf_update N s s1 d e e'); try done.
    - apply (entry_ok_same e e' Queued); try done. by apply (wf_entry N s W d).
    - cbn. apply NoDup_app. split; [apply (wf_queue N s W)|]. split; [set_solver|apply NoDup_singleton].
    - intros x. cbn. rewrite elem_of_app, list_elem_of_singleton. destruct (decide (x = d)) as [->|]; tauto. }
  assert (outside N s s1) as O1 by (apply (change_outside s s1 d e e' Distrusted Queued [d]); try done; right; by right).
  apply wp_lock; [done|]. eapply wp_on_entry; [exact He|]. eapply wp_on_entry; [cbn; by rewrite lookup_insert_eq|].
  apply wp_enqueue; [done|]. apply (wp_unlock_as tot N s1);
    [done|split_and!; cbn; [by rewrite insert_insert_eq|done|done]|done|done|].
  intros s2 O2'. apply wp_ret.
  split; [by eapply outside_trans|]. left. split; [done|]. exists d. split; [done|].
  destruct O2' as ((_ & [l ->] & _) & _). cbn. set_solver.
Qed.

(** ** Discovery *)

Lemma wf_add s s' d e :
  wf N s -> drivers s !! d = None -> drivers s' = <[d := e]> (drivers s) -> mDiscoveredList s' = mDiscoveredList s ++ [d] ->
  mScheduledQueue s' = mScheduledQueue s -> (length (mDiscoveredList s) < N)%nat -> entry_ok e -> Scheduled e = false ->
  (forall x ex, drivers s !! x = Some ex -> FileName ex <> FileName e) -> wf N s'.
Proof.
  intros W Hd Ed El Eq Hsz Hok Hs Hn.
  assert (d ∉ mDiscoveredList s) as Hnd by (rewrite (wf_entries N s W), Hd; by intros [? ?]).
  assert (forall x ex, <[d := e]> (drivers s) !! x = Some ex -> (x = d /\ ex = e) \/ (x <> d /\ drivers s !! x = Some ex)) as Hl.
  { intros x ex. destruct (decide (x = d)) as [->|Hne]; [rewrite lookup_insert_eq|rewrite lookup_insert_ne by done]; naive_solver. }
  split.
  - rewrite El. apply NoDup_app. split; [apply (wf_nodup N s W)|]. split; [set_solver|apply NoDup_singleton].
  - intros x. rewrite El, Ed, elem_of_app, list_elem_of_singleton. destruct (decide (x = d)) as [->|Hne].
    + rewrite lookup_insert_eq. split; [by eexists|by right].
    + rewrite lookup_insert_ne by done. rewrite (wf_entries N s W). tauto.
  - rewrite El, length_app. cbn. lia.
  - rewrite Eq. apply (wf_queue N s W).
  - intros x. rewrite Eq, Ed, (wf_queued N s W). destruct (decide (x = d)) as [->|Hne].
    + rewrite lookup_insert_eq. split; [|naive_solver congruence]. intros (ex & Hx & _). congruence.
    + by rewrite lookup_insert_ne.
  - intros x ex. rewrite Ed. intros [[-> ->]|[_ Hx]]%Hl; [done|by apply (wf_entry N s W x)].
  - intros x x' ex ex'. rewrite Ed. intros [[-> ->]|[Hne Hx]]%Hl [[-> ->]|[Hne' Hx']]%Hl En; [done| | |].
    + by destruct (Hn x' ex' Hx').
    + by destruct (Hn x ex Hx).
    + by apply (wf_names N s W x x' ex ex').
Qed.

Lemma add_ok s f h name ty d0 : wf N s -> mDispatcherLock s = false -> EntryPool s = Some d0 ->
  (length (mDiscoveredList s) < N)%nat -> (forall x ex, drivers s !! x = Some ex -> FileName ex <> name) ->
  wp tot (CoreAddToDriverList f h name ty) (fun r s' => outside N s s' /\ r = EFI_SUCCESS /\
    exists d e p, drivers s !! d = None /\ drivers s' !! d = Some e /\ in_phase e p /\ (p = Unread \/ p = OnRequest \/ p = Waiting) /\
      FvHandle e = h /\ FileName e = name /\ (plain_section f name -> p = Waiting)) s.
Proof.
  intros W L Hp Hsz Hn. unfold CoreAddToDriverList. apply wp_get. rewrite Hp.
  pose proof (entry_law (tot := tot) (N := N) s d0 Hp) as Hd.
  destruct (path_law (tot := tot) (N := N) f h name (world s)) as (path & w' & Ep).
  eapply wp_step; [unfold on_world; by rewrite Ep|]. apply wp_modify. cbn beta.
  set (e0 := mkEntry h name path f _ _ _ _ _ _ _). set (s1 := upd_drivers _ (upd_world w' s)).
  assert (drivers s1 !! d0 = Some e0) as He0 by (cbn; by rewrite lookup_insert_eq).
  destruct (read_section_run tot N d0 e0 s1 He0) as (st & e & w2 & E & Sd & (Hx & HR & p & Hph & Hphs) & _ & _ & Hplain); try done.
  { split; [done|]. intros _ _. by left. }
  eapply wp_step; [exact E|]. pose proof Sd as (Eh & En & _). cbn in Eh, En.
  set (s2 := upd_mDiscoveredList (mDiscoveredList s ++ [d0]) (upd_drivers (<[d0 := e]> (drivers s)) (upd_world w2 s))).
  assert (p <> Queued) as Hpq by (destruct Hphs as [-> |[-> | ->]]; done).
  assert (wf N s2) as W2.
  { apply (wf_add s s2 d0 e); try done.
    - split; [by exists p|done].
    - destruct Hph as (_ & _ & _ & -> & _). by rewrite bool_decide_false.
    - rewrite En. done. }
  assert (outside N s s2) as O2.
  { split; [|done]. split; [by exists [d0]|]. split; [exists []; by rewrite app_nil_r|]. split; [done|]. intros x ex Hex.
    exists ex. cbn. rewrite lookup_insert_ne by congruence. split_and!; try done. intros q Hq. by exists q. }
  apply wp_lock; [done|]. apply wp_modify. apply (wp_unlock_as tot N s2);
    [done|split_and!; cbn; [by rewrite insert_insert_eq|done|done]|done|done|].
  intros s3 O3. apply wp_ret. split; [by eapply outside_trans|]. split; [done|].
  destruct O3 as ((_ & _ & _ & H3) & _). destruct (H3 d0 e) as (e3 & He3 & Sm & Hph3); [cbn; by rewrite lookup_insert_eq|].
  destruct (Hph3 p Hph) as (p3 & Hp3 & HR3). exists d0, e3, p3. pose proof Sm as (S1 & S2 & _). split_and!; try done.
  - destruct HR3 as [->|[[? ->]|[? ->]]]; [done|tauto|]. subst p. naive_solver.
  - by rewrite S1.
  - by rewrite S2.
  - intros Pl. rewrite (in_phase_unique _ _ _ Hph (Hplain Pl)) in HR3. by destruct HR3 as [->|[[? ->]|[? ->]]].
Qed.
End Services.
