(* ===== verification/DispatchTheorems.v ===== *)
(** * DispatchTheorems: what the dispatcher guarantees

    The services by name, the order on the scheduled queue, and the
    dispatcher's loop. *)

From stdpp Require Import base option list gmap fin_maps.
From Stdlib Require Import ZArith Lia.
From S2P Require Import Prelude Depex Dispatch DispatchInv DispatchInsert DispatchLoop DispatchScan.
From S2P Require Import DispatchServices.

Local Open Scope Z_scope.
Local Open Scope edk_scope.

(** ** A system for the examples

    The world is the list of the images that were started; the driver [k] has
    the name [name k], and starting it installs the protocol [name (100 +
    k)]. *)

Definition name (k : Z) : GUID := repeat k 16.

Definition bench_section (g : GUID) : EFI_STATUS * list Z :=
  match default 0 (head g) with
  | 1 => (EFI_SUCCESS, depex_bytes false DTrue)
  | 2 => (EFI_SUCCESS, depex_bytes false (DPush (name 101)))
  | 3 => (EFI_SUCCESS, EFI_DEP_BEFORE :: name 1)
  | 4 => (EFI_SUCCESS, EFI_DEP_AFTER :: name 1)
  | 5 => (EFI_SUCCESS, depex_bytes false (DPush (name 150)))
  | 6 => (EFI_SUCCESS, depex_bytes true DTrue)
  | 7 => (EFI_PROTOCOL_ERROR, [])
  | _ => (EFI_NOT_FOUND, [])
  end.

(** In the volumes from 3 on, a file asks to be before the files that have its
    own name. *)
Definition bench_file (f : Z) (g : GUID) : EFI_STATUS * list Z :=
  if 3 <=? f then (EFI_SUCCESS, EFI_DEP_BEFORE :: name (default 0 (head g))) else bench_section g.

Definition bench_entry_pool (s : DISP (list Z)) : option Z := Some (1 + foldr Z.max 0 (map_to_list (drivers s)).*1).

Definition bench_load (p : Z) : M (DISP (list Z)) (EFI_STATUS * Z) :=
  Mret (if p =? 9 then EFI_SECURITY_VIOLATION else EFI_SUCCESS, 1 + Z.abs p).
Definition bench_env (read : Z -> GUID -> Z -> EFI_STATUS * list Z) (create : EFI_STATUS) (signal : M (DISP (list Z)) unit) : DISP_ENV (list Z) := {|
  NDEBUG := false;
  StackPool _ := true;
  EntryPool := bench_entry_pool;
  Located w g := existsb (fun k => bool_decide (g = name (100 + k))) w;
  ArchProtocols _ := [true];
  ReadSection f g t := Mret (read f g t);
  CoreFvToDevicePath _ _ g := Mret (default 0 (head g));
  RestoreTpl := Mret tt;
  CoreLoadImage := bench_load;
  CoreStartImage h := Mmodify (fun s => upd_world (world s ++ [h - 1]) s) ;;; Mret EFI_SUCCESS;
  CoreProcessFvImageFile _ _ _ := Mret EFI_SUCCESS;
  CoreCreateEventEx := Mret (create, 77);
  CoreSignalEvent _ := signal;
  CoreCloseEvent _ := Mret tt;
  fuel := 50
|}.
Definition bench : DISP_ENV (list Z) := bench_env (fun f g _ => bench_file f g) EFI_SUCCESS (Mret tt).

Lemma world_outside N (s : DISP (list Z)) w : wf N s -> mDispatcherLock s = false -> outside N s (upd_world w s).
Proof.
  intros W L. split; [|split; [by apply (same_wf N s)|done]]. split; [exists []; by rewrite app_nil_r|].
  split; [exists []; by rewrite app_nil_r|]. split; [done|]. intros d e He. exists e. split_and!; try done.
  intros p Hp. by exists p.
Qed.

Lemma bench_sections g : EFI_ERROR (bench_section g).1 = false -> section_ok (bench_section g).2.
Proof.
  unfold bench_section. destruct (default 0 (head g)) as [|p|p]; [done| |done].
  do 3 (try destruct p as [p|p|]); cbn; try done; intros _;
    [left; exists false, (DPush (name 150))|right; exists EFI_DEP_BEFORE, (name 1), []|left; exists true, DTrue
    |right; exists EFI_DEP_AFTER, (name 1), []|left; exists false, (DPush (name 101))|left; exists false, DTrue];
    split_and!; try done; tauto.
Qed.

Lemma list_max_above (x : Z) l : x ∈ l -> x < 1 + foldr Z.max 0 l.
Proof. induction 1; cbn; lia. Qed.
Lemma max_key_above x (m : gmap Z EFI_CORE_DRIVER_ENTRY) : is_Some (m !! x) -> x < 1 + foldr Z.max 0 (map_to_list m).*1.
Proof.
  intros [e H%elem_of_map_to_list]. apply list_max_above, list_elem_of_fmap. by exists (x, e).
Qed.

Lemma bench_files f g : EFI_ERROR (bench_file f g).1 = false -> section_ok (bench_file f g).2.
Proof.
  unfold bench_file. destruct (3 <=? f); [|apply bench_sections]. intros _. right.
  by exists EFI_DEP_BEFORE, (name (default 0 (head g))), []; split_and!; [left| |rewrite app_nil_r].
Qed.

Lemma disp_bench_laws read :
  (forall f g, EFI_ERROR (read f g EFI_SECTION_DXE_DEPEX).1 = false -> section_ok (read f g EFI_SECTION_DXE_DEPEX).2) ->
  @DISP_LAWS (list Z) (bench_env read EFI_SUCCESS (Mret tt)) true 10.
Proof.
  intros Hread. constructor; try (intros; apply wp_ret; by apply outside_refl).
  - intros p s W L. apply wp_ret. split; [by apply outside_refl|]. cbn. lia.
  - intros h s W L. exact (world_outside 10 s _ W L).
  - intros f g w. cbn. exists (read f g EFI_SECTION_DXE_DEPEX).1, (read f g EFI_SECTION_DXE_DEPEX).2, w.
    split; [by destruct (read f g EFI_SECTION_DXE_DEPEX)|]. split; [apply Hread|done].
  - intros f h g w. by eexists _, w.
  - intros s d [= <-]. destruct (drivers s !! _) eqn:E; [|done]. exfalso.
    pose proof (max_key_above _ (drivers s) (ex_intro _ _ E)). lia.
  - done.
  - cbn. lia.
Qed.
Lemma bench_disp_laws : @DISP_LAWS (list Z) bench true 10.
Proof. apply disp_bench_laws, bench_files. Qed.

Definition empty_state : DISP (list Z) := mkDisp ∅ [] [] [] false false (None, 0%nat) (0, 0) [].
Definition add_driver (s : DISP (list Z)) (k : Z) : DISP (list Z) :=
  match CoreAddToDriverList (Env := bench) 1 2 (name k) 7 s with Ok (_, s') => s' | _ => s end.
Definition discovered (ks : list Z) : DISP (list Z) := foldl add_driver empty_state ks.

Lemma empty_wf N : wf N empty_state.
Proof.
  split; cbn; [apply NoDup_nil_2| |lia|apply NoDup_nil_2| | |]; intros *; rewrite ?lookup_empty, ?elem_of_nil; naive_solver.
Qed.

Lemma add_driver_wf s k : wf 10 s -> mDispatcherLock s = false -> (length (mDiscoveredList s) < 10)%nat ->
  map_Forall (fun _ e => FileName e <> name k) (drivers s) -> wf 10 (add_driver s k) /\ mDispatcherLock (add_driver s k) = false.
Proof.
  intros W L Hsz Hn. pose proof (add_ok (Env := bench) true 10 (DISP_LAWS0 := bench_disp_laws) s 1 2 (name k) 7 _ W L eq_refl Hsz Hn) as H.
  apply wp_total in H as (r & s' & E & (_ & W' & L') & _). unfold add_driver. by rewrite E.
Qed.

(** Drivers 1 to 7, as above. *)
Definition bench_state : DISP (list Z) := discovered [1; 2; 3; 4; 5; 6; 7].
Lemma bench_state_wf : wf 10 bench_state /\ mDispatcherLock bench_state = false.
Proof.
  unfold bench_state, discovered. cbn [foldl].
  do 7 (match goal with |- wf 10 (add_driver ?s ?k) /\ _ => assert (wf 10 s /\ mDispatcherLock s = false) as [? ?];
    [|apply add_driver_wf; [assumption|assumption|vm_compute; lia|by_decide]] end).
  split; [apply empty_wf|done].
Qed.

(** ** Claims *)

(** C19 CoreSchedule, CoreTrust and CoreAddToDriverList
    return and change the state only in the way that the dispatcher relies on
    while other code runs ([outside]: the invariant holds, the lock is free,
    nothing leaves a list, drivers that wait go on waiting).  CoreSchedule
    makes the driver of the volume with that name, if it waits for a request,
    wait for its dependencies, and else returns EFI_NOT_FOUND and changes
    nothing; CoreTrust puts a driver that was not trusted on the scheduled
    queue, and else returns EFI_NOT_FOUND and changes nothing.
    CoreAddToDriverList puts a new entry for the file on the list of
    discovered drivers, where it waits for its dependencies or for a request,
    or its dependencies are still to be read. *)
Theorem Disp_services {World} `{Env : !DISP_ENV World} (N : nat) `{!DISP_LAWS true N} (s : DISP World) :
  wf N s -> mDispatcherLock s = false ->
  (forall h name, exists r s', CoreSchedule h name s = Ok (r, s') /\ outside N s s' /\
     ((r = EFI_SUCCESS /\ exists d, meant s h name OnRequest d /\ phase_of s' d Waiting) \/
      (r = EFI_NOT_FOUND /\ s' = s /\ forall d, ~ meant s h name OnRequest d))) /\
  (forall h name, exists r s', CoreTrust h name s = Ok (r, s') /\ outside N s s' /\
     ((r = EFI_SUCCESS /\ exists d, meant s h name Distrusted d /\ d ∈ mScheduledQueue s') \/
      (r = EFI_NOT_FOUND /\ s' = s /\ forall d, ~ meant s h name Distrusted d))) /\
  (forall f h name ty d0, EntryPool s = Some d0 -> (length (mDiscoveredList s) < N)%nat ->
     map_Forall (fun _ e => FileName e <> name) (drivers s) ->
     exists s', CoreAddToDriverList f h name ty s = Ok (EFI_SUCCESS, s') /\ outside N s s' /\
     exists d e p, drivers s !! d = None /\ d ∈ mDiscoveredList s' /\ drivers s' !! d = Some e /\
       in_phase e p /\ (p = Unread \/ p = OnRequest \/ p = Waiting) /\ FvHandle e = h /\ FileName e = name).
Proof.
  intros W L. split_and!.
  - intros h nm. by apply wp_total, schedule_ok.
  - intros h nm. by apply wp_total, trust_ok.
  - intros f h nm ty d0 Hp Hsz Hn. pose proof (add_ok true N s f h nm ty d0 W L Hp Hsz Hn) as H.
    apply wp_total in H as (r & s' & E & O & -> & d & e & p & H1 & H2 & H3). exists s'. split_and!; try done.
    exists d, e, p. destruct H3 as (? & ? & ? & ? & _). split_and!; try done. apply (wf_entries N s' (proj1 (proj2 O))). by exists e.
Qed.

(** In the example, driver 6 is requested, and nothing else can be. *)
Lemma Disp_services_witness : exists r s', CoreSchedule (Env := bench) 2 (name 6) bench_state = Ok (r, s') /\
  outside 10 bench_state s' /\ r = EFI_SUCCESS.
Proof.
  destruct bench_state_wf as [W L].
  destruct (Disp_services (Env := bench) 10 (DISP_LAWS0 := bench_disp_laws) bench_state W L) as (H & _).
  destruct (H 2 (name 6)) as (r & s' & E & O & _). exists r, s'. split; [exact E|]. split; [exact O|].
  vm_compute in E. congruence.
Defined.

(** C18 The insertion,
    CoreInsertOnScheduledQueueWhileProcessingBeforeAndAfter returns, for a
    driver that waits for its dependencies and asks for no place of its own.
    The driver is put on the scheduled queue, with every driver that waits
    and asks to be before it, or after it, and so on for those; whatever was
    put on the queue, the drivers that ask to be before it are on the queue
    before it and those that ask to be after it are there behind it.  No other
    driver is put on the queue: each one asks for a place next to a driver
    that was scheduled, or is the driver of the call. *)
Theorem Disp_insert {World} `{Env : !DISP_ENV World} (N : nat) `{!DISP_LAWS true N} (s : DISP World) d e :
  wf N s -> mDispatcherLock s = false -> drivers s !! d = Some e -> in_phase e Waiting ->
  Before (Expr e) = false -> After (Expr e) = false ->
  exists s', CoreInsertOnScheduledQueueWhileProcessingBeforeAndAfter d s = Ok (tt, s') /\
    wf N s' /\ mDispatcherLock s' = false /\ grows asked_or_queued s s' /\ d ∈ mScheduledQueue s' /\
    (forall x y, phase_of s x Waiting -> phase_of s y Waiting -> x <> y -> y ∈ mScheduledQueue s' ->
       (asks Before s x y -> precedes (mScheduledQueue s') x y) /\
       (asks After s x y -> precedes (mScheduledQueue s') y x)) /\
    (forall x ex, drivers s !! x = Some ex -> phase_of s x Waiting -> x ∈ mScheduledQueue s' ->
       (Before (Expr ex) = true -> exists y, asks Before s' x y /\ settled s' y) /\
       (After (Expr ex) = true -> exists y, asks After s' x y /\ settled s' y) /\
       (Before (Expr ex) = false -> After (Expr ex) = false -> x = d)).
Proof.
  intros W L He Hp HB HA.
  assert (phase_of s d Waiting) as Hd by (by exists e).
  pose proof (insert_nested_ok true N d fuel s [] d W L) as H.
  assert (wp true (insert_nested fuel d) (fun _ s' => inserted N d [] d s s') s) as K.
  { apply H; [split; [apply NoDup_nil_2|by intros x ?%elem_of_nil]|done|by intros ?%elem_of_nil| |].
    - intros e' He'. simplify_eq. rewrite HB, HA. split_and!; done.
    - intros _. pose proof (fuel_law (tot := true) (N := N)). lia. }
  apply wp_total in K as ([] & s' & E & W' & L' & G & _ & S & O & J). exists s'. split_and!; try done.
  - destruct (waiting_grows N s s' d W' G Hd) as [Hw|[_ Hq]]; [by destruct (waiting_not_settled s' d Hw)|done].
  - intros x y Hx Hy Hne Hq. destruct (O x y Hx Hy Hne) as [O1 O2]; [left; by apply (queued_phase N s' y W')|].
    split; [done|]. intros Ha. apply O2; [done|by intros []].
  - intros x ex Hex Hx Hq. destruct (J x ex Hex Hx) as (J1 & J2 & J3); [left; by apply (queued_phase N s' x W')|].
    split_and!; try done. intros Hb. destruct (J2 Hb) as (y & Hy & [Hs|?%elem_of_nil]); [by exists y|done].
Qed.

(** Scheduling driver 1 puts 3 before it and 4 behind it. *)
Lemma Disp_insert_witness : exists e s', drivers bench_state !! 1 = Some e /\
  CoreInsertOnScheduledQueueWhileProcessingBeforeAndAfter (Env := bench) 1 bench_state = Ok (tt, s') /\
  wf 10 s' /\ mScheduledQueue s' = [3; 1; 4].
Proof.
  destruct bench_state_wf as [W L]. destruct (drivers bench_state !! 1) as [e|] eqn:E; [|by vm_compute in E].
  assert (in_phase e Waiting /\ Before (Expr e) = false /\ After (Expr e) = false) as (Hp & HB & HA).
  { clear W L. vm_compute in E. injection E as <-. by split_and!. }
  destruct (Disp_insert (Env := bench) 10 (DISP_LAWS0 := bench_disp_laws) bench_state 1 e W L E Hp HB HA)
    as (s' & R & W' & _). exists e, s'. split; [reflexivity|]. split; [exact R|]. split; [exact W'|]. 
  clear - R. vm_compute in R. by injection R as <-.
Defined.

(** C17 CoreDispatcher returns EFI_ALREADY_STARTED and does
    nothing while it runs; otherwise it returns if what it calls returns, with
    the invariant and the lock free.  Either the event could not be created,
    and gDispatcherRunning stays TRUE; or it returns EFI_SUCCESS or
    EFI_NOT_FOUND with gDispatcherRunning FALSE, when a state was reached in
    which every driver that waits has a dependency that is not met: no driver
    can be started any more that could be started.  The scheduled queue was
    empty then if no driver was dispatched, or if the notifications of the
    dispatch event put none on it. *)
Theorem Disp_dispatch {World} `{Env : !DISP_ENV World} (N : nat) `{!DISP_LAWS true N} (s : DISP World) :
  wf N s -> mDispatcherLock s = false ->
  (gDispatcherRunning s = true -> CoreDispatcher s = Ok (EFI_ALREADY_STARTED, s)) /\
  (gDispatcherRunning s = false -> exists r s', CoreDispatcher s = Ok (r, s') /\ wf N s' /\ mDispatcherLock s' = false /\
    ((EFI_ERROR r = true /\ gDispatcherRunning s' = true /\ outside N (upd_gDispatcherRunning true s) s') \/
     (gDispatcherRunning s' = false /\ (r = EFI_SUCCESS \/ r = EFI_NOT_FOUND) /\
      exists s1 s2, evolves (upd_gDispatcherRunning true s) s1 /\ wf N s1 /\ no_ready s1 /\
        (quiet_signals true N \/ r = EFI_NOT_FOUND -> mScheduledQueue s1 = []) /\
        outside N s1 s2 /\ s' = upd_gDispatcherRunning false s2))).
Proof.
  intros W L. split.
  - intros R. unfold CoreDispatcher. by rewrite (Mbind_Ok Mget _ s s s eq_refl), R.
  - intros R. by apply wp_total, dispatcher_ok.
Qed.

(** What there is to see of a run. *)
Definition seen {A} (r : outcome (A * DISP (list Z))) : option (A * list Z * list Z * bool) :=
  match r with Ok (a, s) => Some (a, world s, mScheduledQueue s, gDispatcherRunning s) | _ => None end.

(** Drivers 3, 1 and 4 run in this order; 2 runs in the second round, since
    it needs the protocol of 1; 5, 6 and 7 are not ready. *)
Lemma Disp_dispatch_witness : exists r s', CoreDispatcher (Env := bench) bench_state = Ok (r, s') /\ wf 10 s' /\
  seen (CoreDispatcher (Env := bench) bench_state) = Some (EFI_SUCCESS, [3; 1; 4; 2], [], false).
Proof.
  destruct bench_state_wf as [W L].
  destruct (Disp_dispatch (Env := bench) 10 (DISP_LAWS0 := bench_disp_laws) bench_state W L) as (_ & H).
  assert (gDispatcherRunning bench_state = false) as R by (clear; by vm_compute).
  destruct (H R) as (r & s' & E & W' & _). exists r, s'. split; [exact E|]. split; [exact W'|]. clear. by vm_compute.
Defined.

(** ** Corners *)

(** When the event cannot be created, the dispatcher can never run again. *)
Definition failed_create : DISP_ENV (list Z) := bench_env (fun f g _ => bench_file f g) EFI_OUT_OF_RESOURCES (Mret tt).
Example create_fails : seen (CoreDispatcher (Env := failed_create) bench_state) = Some (EFI_OUT_OF_RESOURCES, [], [], true) /\
  seen ((CoreDispatcher (Env := failed_create) ;;; CoreDispatcher (Env := bench)) bench_state) = Some (EFI_ALREADY_STARTED, [], [], true).
Proof. by vm_compute. Qed.

(** A notification of the dispatch event that trusts a driver: the dispatcher
    exits and the driver stays on the queue until the next call. *)
Definition trusting : DISP_ENV (list Z) := bench_env (fun f g _ => bench_file f g) EFI_SUCCESS (CoreTrust (Env := bench) 2 (name 9) ;;; Mret tt).
Example trusted_late : seen (CoreDispatcher (Env := trusting) (discovered [1; 9])) = Some (EFI_SUCCESS, [1], [2], false) /\
  seen ((CoreDispatcher (Env := trusting) ;;; CoreDispatcher (Env := bench)) (discovered [1; 9])) = Some (EFI_SUCCESS, [1; 9], [], false).
Proof. by vm_compute. Qed.

(** The hypothesis on the names is needed: three volumes have a file of the
    same name, of which two ask to be before it.  The insertion goes from one
    of these to the other and back. *)
Definition add_from (s : DISP (list Z)) (f : Z) : DISP (list Z) :=
  match CoreAddToDriverList (Env := bench) f f (name 1) 7 s with Ok (_, s') => s' | _ => s end.
Definition same_names : DISP (list Z) := foldl add_from empty_state [1; 3; 4].
Lemma each_driver_fails turns body d found s :
  body d s = OutOfFuel -> each_driver (World := list Z) (S turns) body (Some d) found s = OutOfFuel.
Proof. intros H. cbn [each_driver]. unfold Mbind. by rewrite H. Qed.
Lemma each_driver_skips turns body d d' found s :
  body d s = Ok (false, s) -> next_link (mDiscoveredList s) d = Some (Some d') ->
  each_driver (World := list Z) (S turns) body (Some d) found s = each_driver turns body (Some d') found s.
Proof.
  intros H E. cbn [each_driver]. rewrite (Mbind_Ok _ _ _ false s H), (Mbind_Ok Mget _ s s s eq_refl), E.
  by rewrite orb_false_r.
Qed.
Lemma relative_fails flag insert i d e ei (s : DISP (list Z)) :
  drivers s !! d = Some e -> drivers s !! i = Some ei -> flag (Expr e) && Dependent (Expr e) && negb (d =? i) = true ->
  FileName ei = BeforeAfterGuid (Expr e) -> insert d s = OutOfFuel -> relative flag insert i d s = OutOfFuel.
Proof.
  intros He Hi Hf Hn Hd. unfold relative. rewrite (Mbind_Ok _ _ _ e s), Hf by (unfold entry_at; by rewrite He).
  rewrite (Mbind_Ok _ _ _ ei s), bool_decide_true by (try done; unfold entry_at; by rewrite Hi).
  unfold Mbind. by rewrite Hd.
Qed.
Example endless_insert depth d : d = 1 \/ d = 2 \/ d = 3 -> insert_nested (Env := bench) depth d same_names = OutOfFuel.
Proof.
  revert d. induction depth as [|depth IH]; [done|]. intros d Hd. cbn [insert_nested]. revert IH.
  generalize (insert_nested (Env := bench) depth) as insert. intros insert IH.
  pose proof (IH 2 ltac:(tauto)) as E2. pose proof (IH 3 ltac:(tauto)) as E3. clear IH.
  unfold for_drivers. unfold Mbind at 1. unfold Mbind at 1. cbn [Mget]. change (fuel (DISP_ENV := bench)) with 50%nat.
  replace (head (mDiscoveredList same_names)) with (Some 1) by (clear; by vm_compute).
  erewrite each_driver_skips with (d' := 2);
    [|destruct Hd as [-> |[-> | ->]]; clear; by vm_compute|clear; by vm_compute].
  destruct Hd as [-> |[-> | ->]]; [rewrite each_driver_fails| |rewrite each_driver_fails]; try done.
  1,3: eapply relative_fails; [..|exact E2]; clear; vm_compute; reflexivity.
  erewrite each_driver_skips with (d' := 3); [|clear; by vm_compute..].
  rewrite each_driver_fails; [done|]. eapply relative_fails; [..|exact E3]; clear; vm_compute; reflexivity.
Qed.
