(* ===== verification/FvBlock.v ===== *)
(** * FvBlock: firmware volumes as block devices

    MdeModulePkg/Core/Dxe/FwVolBlock/FwVolBlock.c.  A firmware volume is a
    range of memory that begins with a header; the header has a map of the
    volume's blocks, in runs of blocks of the same size, closed by a run with
    zeros.  ProduceFVBProtocolOnBuffer makes a block device for a volume, with
    a cache of where each block begins; the other functions serve the device's
    protocol.

    A device is a record at an address; [Cache] is what LbaCache points to.  The
    bytes that a read copies to the caller's buffer are its result.  The state
    has the memory, the devices and the pool blocks that are in use.
    [FVB_ENV]: the width of UINTN, the answer of the pool to a request, and
    CoreInstallMultipleProtocolInterfaces for the device's two protocols, with
    the handle that it stores; CoreHandleProtocol for the firmware volume
    protocol; the address and length of the volumes in the HOB list, and with
    the authentication status for those in the HOBs of version 3. *)

From stdpp Require Import base option list gmap fin_maps.
From Stdlib Require Import ZArith Lia.
From S2P Require Import Prelude BaseMath Memory DevPath.

Local Open Scope Z_scope.
Local Open Scope edk_scope.

(** ** Constants (Pi/PiFirmwareVolume.h) *)

Definition EFI_FVB2_READ_STATUS : Z := 0x4.
Definition EFI_FVB2_WRITE_STATUS : Z := 0x20.
Definition EFI_FVB2_MEMORY_MAPPED : Z := 0x400.
Definition EFI_FVB2_ALIGNMENT : Z := 0x1F0000.
Definition EFI_FVB2_WEAK_ALIGNMENT : Z := 0x80000000.
Definition EFI_FVH_SIGNATURE : Z := 0x4856465F.

(** Where the fields of EFI_FIRMWARE_VOLUME_HEADER are. *)
Definition OFS_FileSystemGuid : Z := 16.
Definition OFS_FvLength : Z := 32.
Definition OFS_Signature : Z := 40.
Definition OFS_Attributes : Z := 44.
Definition OFS_HeaderLength : Z := 48.
Definition OFS_ExtHeaderOffset : Z := 52.
Definition OFS_BlockMap : Z := 56.

(** ** Data *)

Inductive FV_DEVICE_PATH : Type :=
| FvMemmap (StartingAddress EndingAddress : Z)
| FvPiwg (FvName : list Z).

Record EFI_FW_VOL_BLOCK_DEVICE := mkFvb {
  FvbHandle : Z;
  FvbDevicePath : Z * FV_DEVICE_PATH;
  ParentHandle : Z;
  NumBlocks : Z;
  LbaCache : Z;
  Cache : list (Z * Z);
  FvbAttributes : Z;
  BaseAddress : Z;
  AuthenticationStatus : Z
}.

Record FVS := mkFvs {
  fv_ram : mem;
  fvb_devices : gmap Z EFI_FW_VOL_BLOCK_DEVICE;
  fv_pool : list Z
}.

Inductive REQUEST : Type := DeviceRequest | CacheRequest (n : Z) | PathRequest.

Class FVB_ENV := mkFvbEnv {
  fvbW : Z;
  FvbPool : FVS -> REQUEST -> option Z;
  InstallFvb : Z -> M FVS (EFI_STATUS * Z);
  HandleFv2 : Z -> M FVS (EFI_STATUS * Z);
  FvHobs : list (Z * Z);
  Fv3Hobs : list (Z * Z * Z)
}.

(** [mFwVolBlock] *)
Definition mFwVolBlock : EFI_FW_VOL_BLOCK_DEVICE := mkFvb 0 (0, FvMemmap 0 0) 0 0 0 [] 0 0 0.

Section FwVolBlock.
Context `{Env : FVB_ENV}.

Definition at_ram {A} (c : M mem A) : M FVS A := fun s =>
  match c (fv_ram s) with
  | Ok (a, m) => Ok (a, mkFvs m (fvb_devices s) (fv_pool s))
  | AssertFail => AssertFail
  | Fault => Fault
  | OutOfFuel => OutOfFuel
  end.
Definition device_at (This : Z) : M FVS EFI_FW_VOL_BLOCK_DEVICE := fun s =>
  match fvb_devices s !! This with Some d => Ok (d, s) | None => Fault end.
Definition set_device (This : Z) (d : EFI_FW_VOL_BLOCK_DEVICE) : M FVS unit :=
  Mmodify (fun s => mkFvs (fv_ram s) (<[This := d]> (fvb_devices s)) (fv_pool s)).

(** [n] bytes of memory *)
Definition get_bytes (n : nat) (a : Z) : M FVS (list Z) :=
  at_ram (fun m => do bs <- load_bytes n a m ; Ok (bs, m)).

(** AllocatePool, 0 for NULL *)
Definition take_pool (r : REQUEST) : M FVS Z := fun s =>
  match FvbPool s r with
  | Some p => Ok (p, mkFvs (fv_ram s) (fvb_devices s) (p :: fv_pool s))
  | None => Ok (0, s)
  end.
Definition free_pool (p : Z) : M FVS unit := fun s =>
  if bool_decide (p ∈ fv_pool s)
  then Ok (tt, mkFvs (fv_ram s) (delete p (fvb_devices s)) (filter (fun q => q <> p) (fv_pool s)))
  else AssertFail.

(** ** The protocol *)

Definition FwVolBlockGetAttributes (This : Z) : M FVS (EFI_STATUS * Z) :=
  let! d := device_at This in
  Mret (EFI_SUCCESS, Z.land (FvbAttributes d) (wrapU 32 (Z.lnot EFI_FVB2_WRITE_STATUS))).

Definition FwVolBlockSetAttributes (This Attributes : Z) : M FVS EFI_STATUS := Mret EFI_UNSUPPORTED.
Definition FwVolBlockEraseBlock (This : Z) : M FVS EFI_STATUS := Mret EFI_UNSUPPORTED.
Definition FwVolBlockWriteBlock (This Lba Offset : Z) (Buffer : list Z) : M FVS EFI_STATUS := Mret EFI_UNSUPPORTED.

(** The status, and the bytes that were copied to the buffer. *)
Definition FwVolBlockReadBlock (This Lba Offset NumBytes : Z) : M FVS (EFI_STATUS * list Z) :=
  let! d := device_at This in
  if Z.land (FvbAttributes d) EFI_FVB2_READ_STATUS =? 0 then Mret (EFI_ACCESS_DENIED, [])
  else
    let LbaIndex := wrapU fvbW Lba in
    if NumBlocks d <=? LbaIndex then Mret (EFI_BAD_BUFFER_SIZE, [])
    else
      match Cache d !! Z.to_nat LbaIndex with
      | None => Mfail Fault
      | Some (Base, Length) =>
          if Length <? Offset then Mret (EFI_BAD_BUFFER_SIZE, [])
          else
            let NumOfBytesRead :=
              if Length <? wrapU fvbW (Offset + NumBytes) then wrapU fvbW (Length - Offset) else NumBytes in
            let LbaOffset := BaseAddress d + Base + Offset in
            let! Buffer := get_bytes (Z.to_nat NumOfBytesRead) LbaOffset in
            Mret (if NumOfBytesRead =? NumBytes then EFI_SUCCESS else EFI_BAD_BUFFER_SIZE, Buffer)
      end.

Definition FwVolBlockGetPhysicalAddress (This : Z) : M FVS (EFI_STATUS * Z) :=
  let! d := device_at This in
  if negb (Z.land (FvbAttributes d) EFI_FVB2_MEMORY_MAPPED =? 0) then Mret (EFI_SUCCESS, BaseAddress d)
  else Mret (EFI_UNSUPPORTED, 0).

(** [while ((PtrBlockMapEntry->NumBlocks != 0) || (PtrBlockMapEntry->Length
    != 0))]: the entry at which the loop stops, and TotalBlocks. *)
Fixpoint block_size_loop (fuel : nat) (Lba PtrBlockMapEntry TotalBlocks : Z) : M mem (Z * Z) :=
  let! n := load 4 PtrBlockMapEntry in
  let! last := (if n =? 0 then let! l := load 4 (PtrBlockMapEntry + 4) in Mret (l =? 0) else Mret false) in
  if last then Mret (PtrBlockMapEntry, TotalBlocks)
  else
    match fuel with
    | O => Mfail OutOfFuel
    | S fuel' =>
        let TotalBlocks := wrapU fvbW (TotalBlocks + n) in
        if Lba <? TotalBlocks then Mret (PtrBlockMapEntry, TotalBlocks)
        else block_size_loop fuel' Lba (PtrBlockMapEntry + 8) TotalBlocks
    end.

(** The status, BlockSize and NumberOfBlocks. *)
Definition FwVolBlockGetBlockSize (This Lba : Z) : M FVS (EFI_STATUS * (Z * Z)) :=
  let! d := device_at This in
  if NumBlocks d <=? Lba then Mret (EFI_INVALID_PARAMETER, (0, 0))
  else
    let! s := Mget in
    let! r := at_ram (block_size_loop (turns (fv_ram s)) Lba (BaseAddress d + OFS_BlockMap) 0) in
    let! BlockSize := at_ram (load 4 (r.1 + 4)) in
    Mret (EFI_SUCCESS, (BlockSize, wrapU fvbW (r.2 - wrapU fvbW Lba))).

Definition GetFvbAuthenticationStatus (FvbProtocol : Z) : M FVS Z := fun s =>
  match fvb_devices s !! FvbProtocol with
  | Some d => Ok (AuthenticationStatus d, s)
  | None => Ok (0, s)
  end.

(** ** Making a device *)

(** The number of blocks in the map. *)
Fixpoint count_blocks (fuel : nat) (PtrBlockMapEntry Total : Z) : M mem Z :=
  let! n := load 4 PtrBlockMapEntry in
  if n =? 0 then Mret Total
  else
    match fuel with
    | O => Mfail OutOfFuel
    | S fuel' => count_blocks fuel' (PtrBlockMapEntry + 8) (wrapU fvbW (Total + n))
    end.

(** The cells of a cache of [room] blocks that the loops write. *)
Fixpoint fill_run (n : nat) (room Length LinearOffset : Z) (cells : list (Z * Z)) : M mem (Z * list (Z * Z)) :=
  match n with
  | O => Mret (LinearOffset, cells)
  | S n' =>
      if Z.of_nat (length cells) <? room
      then fill_run n' room Length (wrapU fvbW (LinearOffset + Length)) (cells ++ [(LinearOffset, Length)])
      else Mfail Fault
  end.
Fixpoint fill_cache (fuel : nat) (room PtrBlockMapEntry LinearOffset : Z) (cells : list (Z * Z)) : M mem (list (Z * Z)) :=
  let! n := load 4 PtrBlockMapEntry in
  if n =? 0 then Mret cells
  else
    match fuel with
    | O => Mfail OutOfFuel
    | S fuel' =>
        let! l := load 4 (PtrBlockMapEntry + 4) in
        let! r := fill_run (Z.to_nat n) room l LinearOffset cells in
        fill_cache fuel' room (PtrBlockMapEntry + 8) r.1 r.2
    end.

(** [sizeof (LBA_CACHE)] *)
Definition sizeof_LBA_CACHE : Z := 2 * (fvbW / 8).

(** The alignment that the attributes of a volume ask for. *)
Definition fv_alignment (Attributes : Z) : Z :=
  let FvAlignment := wrapU 32 (Z.shiftl 1 (Z.shiftr (Z.land Attributes EFI_FVB2_ALIGNMENT) 16)) in
  if FvAlignment <? 8 then 8 else FvAlignment.

(** The device path of the volume; [None] when there is no memory. *)
Definition fv_device_path (Base : Z) : M FVS (option (Z * FV_DEVICE_PATH)) :=
  let! ext := at_ram (load 2 (Base + OFS_ExtHeaderOffset)) in
  let! p := take_pool PathRequest in
  if p =? 0 then Mret None
  else if ext =? 0 then
    let! FvLength := at_ram (load 8 (Base + OFS_FvLength)) in
    Mret (Some (p, FvMemmap Base (wrapU 64 (Base + FvLength - 1))))
  else
    let! name := get_bytes 16 (Base + ext) in
    Mret (Some (p, FvPiwg name)).

(** The protocols are put on a new handle, which is stored in the device. *)
Definition install_device (FvbDev : Z) : M FVS (EFI_STATUS * option Z) :=
  let! r := InstallFvb FvbDev in
  let '(Status, Handle) := r in
  let! d := device_at FvbDev in
  set_device FvbDev (mkFvb Handle (FvbDevicePath d) (ParentHandle d) (NumBlocks d) (LbaCache d) (Cache d)
                       (FvbAttributes d) (BaseAddress d) (AuthenticationStatus d)) ;;;
  Mret (Status, Some Handle).

(** The status, and the handle if one is stored in FvProtocol. *)
Definition ProduceFVBProtocolOnBuffer (Base Length ParentHandle_ AuthenticationStatus_ : Z) : M FVS (EFI_STATUS * option Z) :=
  let! Signature := at_ram (load 4 (Base + OFS_Signature)) in
  if negb (Signature =? EFI_FVH_SIGNATURE) then Mret (EFI_VOLUME_CORRUPTED, None)
  else
    let! Attributes := at_ram (load 4 (Base + OFS_Attributes)) in
    if negb (Z.land Attributes EFI_FVB2_WEAK_ALIGNMENT =? EFI_FVB2_WEAK_ALIGNMENT) &&
       negb (wrapU fvbW Base mod fv_alignment Attributes =? 0)
    then Mret (EFI_VOLUME_CORRUPTED, None)
    else
      let! FvbDev := take_pool DeviceRequest in
      if FvbDev =? 0 then Mret (EFI_OUT_OF_RESOURCES, None)
      else
        let! s := Mget in
        let! NumBlocks_ := at_ram (count_blocks (turns (fv_ram s)) (Base + OFS_BlockMap) 0) in
        set_device FvbDev (mkFvb 0 (0, FvMemmap 0 0) ParentHandle_ NumBlocks_ 0 [] Attributes Base AuthenticationStatus_) ;;;
        if MAX_ADDRESS fvbW / sizeof_LBA_CACHE <=? NumBlocks_ then free_pool FvbDev ;;; Mret (EFI_OUT_OF_RESOURCES, None)
        else
          let! Cache_ := take_pool (CacheRequest NumBlocks_) in
          if Cache_ =? 0 then free_pool FvbDev ;;; Mret (EFI_OUT_OF_RESOURCES, None)
          else
            let! cells := at_ram (fill_cache (turns (fv_ram s)) NumBlocks_ (Base + OFS_BlockMap) 0 []) in
            let! path := fv_device_path Base in
            match path with
            | None => free_pool FvbDev ;;; Mret (EFI_OUT_OF_RESOURCES, None)
            | Some dp =>
                set_device FvbDev
                  (mkFvb 0 dp ParentHandle_ NumBlocks_ Cache_ cells Attributes Base AuthenticationStatus_) ;;;
                install_device FvbDev
            end.

Fixpoint hob_status (l : list (Z * Z * Z)) (Base Length : Z) : Z :=
  match l with
  | [] => 0
  | (b, n, st) :: l' => if (b =? Base) && (n =? Length) then st else hob_status l' Base Length
  end.

Fixpoint produce_each (l : list (Z * Z)) : M FVS unit :=
  match l with
  | [] => Mret tt
  | (b, n) :: l' => ProduceFVBProtocolOnBuffer b n 0 (hob_status Fv3Hobs b n) ;;; produce_each l'
  end.
Definition FwVolBlockDriverInit : M FVS EFI_STATUS := produce_each FvHobs ;;; Mret EFI_SUCCESS.

(** The status, and FVProtocolHandle. *)
Definition CoreProcessFirmwareVolume (FvHeader Size : Z) : M FVS (EFI_STATUS * Z) :=
  let! r := ProduceFVBProtocolOnBuffer FvHeader Size 0 0 in
  let '(Status, h) := r in
  let FVProtocolHandle := default 0 h in
  if EFI_ERROR Status then Mret (Status, FVProtocolHandle)
  else
    MASSERT (negb (FVProtocolHandle =? 0)) ;;;
    let! q := HandleFv2 FVProtocolHandle in
    if EFI_ERROR q.1 || (q.2 =? 0) then Mret (EFI_VOLUME_CORRUPTED, FVProtocolHandle)
    else Mret (EFI_SUCCESS, FVProtocolHandle).
End FwVolBlock.
