(* ===== verification/FvRead.v ===== *)
(** * FvRead: reading a firmware volume through its block protocol

    ReadFvbData and GetFwVolHeader of MdeModulePkg/Core/Dxe/FwVol/FwVol.c,
    VerifyFvHeaderChecksum of FwVol/Ffs.c, and the search for the extension
    header in FvIsBeingProcessed (Dispatcher/Dispatcher.c).

    [FVB] is the part of the firmware volume block protocol that is used: the
    bytes that a read delivers, with its status, and the size of a block with
    the number of blocks of the same size from there on.  [FVB_VOLUME] says
    what a device does that holds a given sequence of blocks; [FvBlockDevice]
    shows it for the devices of [FvBlock]. *)

From stdpp Require Import base option list gmap fin_maps.
From Stdlib Require Import ZArith Lia.
From S2P Require Import Prelude BaseMath CheckSum Memory FvBlock.

Local Open Scope Z_scope.
Local Open Scope edk_scope.

Class FVB (St : Type) := mkFVB {
  fvW : Z;
  FvbRead : Z -> Z -> Z -> Z -> M St (EFI_STATUS * list Z);
  FvbGetBlockSize : Z -> Z -> M St (EFI_STATUS * (Z * Z))
}.

#[export] Instance FwVolBlockInstance `{Env : FVB_ENV} : FVB FVS := {|
  fvW := fvbW;
  FvbRead := FwVolBlockReadBlock;
  FvbGetBlockSize := FwVolBlockGetBlockSize
|}.

(** ** ReadFvbData *)

Section Read.
Context {St : Type} `{!FVB St}.

(** [while (BlockIndex < NumberOfBlocks && DataSize >= BlockSize)], with
    [left] blocks to go: BlockIndex, BlockSize, DataSize and the data so far,
    or the status of a read that failed. *)
Fixpoint read_blocks (left : nat) (Fvb StartLba BlockIndex BlockSize DataSize : Z) (Data : list Z) :
    M St (EFI_STATUS * (Z * Z * Z * list Z)) :=
  match left with
  | O => Mret (EFI_SUCCESS, (BlockIndex, BlockSize, DataSize, Data))
  | S left' =>
      if BlockSize <=? DataSize then
        let! r := FvbRead Fvb (wrapU 64 (StartLba + BlockIndex)) 0 BlockSize in
        let '(Status, bs) := r in
        if EFI_ERROR Status then Mret (Status, (BlockIndex, BlockSize, DataSize, Data))
        else
          let BlockSize := Z.of_nat (length bs) in
          read_blocks left' Fvb StartLba (BlockIndex + 1) BlockSize (wrapU fvW (DataSize - BlockSize)) (Data ++ bs)
      else Mret (EFI_SUCCESS, (BlockIndex, BlockSize, DataSize, Data))
  end.

(** [while (DataSize > 0)]: StartLba, BlockIndex, DataSize and the data. *)
Fixpoint read_ranges (turns : nat) (Fvb StartLba BlockIndex DataSize : Z) (Data : list Z) :
    M St (EFI_STATUS * (Z * Z * Z * list Z)) :=
  if 0 <? DataSize then
    match turns with
    | O => Mfail OutOfFuel
    | S turns' =>
        let! r := FvbGetBlockSize Fvb StartLba in
        let '(Status, (BlockSize, NumberOfBlocks)) := r in
        if EFI_ERROR Status then Mret (Status, (StartLba, BlockIndex, DataSize, Data))
        else
          let! q := read_blocks (Z.to_nat NumberOfBlocks) Fvb StartLba 0 BlockSize DataSize Data in
          let '(Status, (BlockIndex, BlockSize, DataSize, Data)) := q in
          if EFI_ERROR Status then Mret (Status, (StartLba, BlockIndex, DataSize, Data))
          else if DataSize <? BlockSize then Mret (EFI_SUCCESS, (StartLba, BlockIndex, DataSize, Data))
          else read_ranges turns' Fvb (wrapU 64 (StartLba + NumberOfBlocks)) BlockIndex DataSize Data
    end
  else Mret (EFI_SUCCESS, (StartLba, BlockIndex, DataSize, Data)).

(** The status, StartLba and Offset afterwards, and the data. *)
Definition ReadFvbData (Fvb StartLba Offset DataSize : Z) : M St (EFI_STATUS * (Z * Z * list Z)) :=
  let! r := FvbRead Fvb StartLba Offset DataSize in
  let '(Status, Data) := r in
  if bool_decide (Status = EFI_SUCCESS) then Mret (EFI_SUCCESS, (StartLba, wrapU fvW (Offset + DataSize), Data))
  else if negb (bool_decide (Status = EFI_BAD_BUFFER_SIZE)) then Mret (Status, (StartLba, Offset, Data))
  else
    let left := wrapU fvW (DataSize - Z.of_nat (length Data)) in
    let! q := read_ranges (S (Z.to_nat left)) Fvb (wrapU 64 (StartLba + 1)) 0 left Data in
    let '(Status, (StartLba, BlockIndex, DataSize, Data)) := q in
    if EFI_ERROR Status then Mret (Status, (StartLba, Offset, Data))
    else if 0 <? DataSize then
      let! r := FvbRead Fvb (wrapU 64 (StartLba + BlockIndex)) 0 DataSize in
      let '(Status, bs) := r in
      if EFI_ERROR Status then Mret (Status, (StartLba, Offset, Data))
      else Mret (EFI_SUCCESS, (wrapU 64 (StartLba + BlockIndex), Z.of_nat (length bs), Data ++ bs))
    else Mret (EFI_SUCCESS, (wrapU 64 (StartLba + BlockIndex), DataSize, Data)).

(** ** The header *)

(** [sizeof (EFI_FIRMWARE_VOLUME_HEADER)] *)
Definition sizeof_FV_HEADER : Z := 64.
Definition gEfiFirmwareFileSystem2Guid : list Z :=
  [0x78; 0xe5; 0x8c; 0x8c; 0x3d; 0x8a; 0x1c; 0x4f; 0x99; 0x35; 0x89; 0x61; 0x85; 0xc3; 0x2d; 0xd3].
Definition gEfiFirmwareFileSystem3Guid : list Z :=
  [0x7a; 0xc0; 0x73; 0x54; 0xcb; 0x3d; 0xca; 0x4d; 0xbd; 0x6f; 0x1e; 0x96; 0x89; 0xe7; 0x34; 0x9a].

(** A field of a header that was read; an access behind its end is a
    [Fault]. *)
Definition field_bytes (n : nat) (off : Z) (h : list Z) : outcome (list Z) :=
  match slice (Z.to_nat off) n h with Some bs => Ok bs | None => Fault end.
Definition field (n : nat) (off : Z) (h : list Z) : outcome Z := do bs <- field_bytes n off h ; Ok (le_combine bs).
Definition lift {A} (r : outcome A) : M St A := fun s => do a <- r ; Ok (a, s).

(** [AllocatePool_ok n]: whether the pool has [n] bytes.  The status, and the
    contents of the buffer that is returned in FwVolHeader. *)
Definition GetFwVolHeader (AllocatePool_ok : Z -> bool) (Fvb : Z) : M St (EFI_STATUS * option (list Z)) :=
  let! r := ReadFvbData Fvb 0 0 sizeof_FV_HEADER in
  let '(Status, (StartLba, Offset, TempFvh)) := r in
  if EFI_ERROR Status then Mret (Status, None)
  else
    let! Signature := lift (field 4 OFS_Signature TempFvh) in
    if negb (Signature =? EFI_FVH_SIGNATURE) then Mret (EFI_INVALID_PARAMETER, None)
    else
      let! guid := lift (field_bytes 16 OFS_FileSystemGuid TempFvh) in
      if negb (bool_decide (guid = gEfiFirmwareFileSystem2Guid)) && negb (bool_decide (guid = gEfiFirmwareFileSystem3Guid))
      then Mret (EFI_INVALID_PARAMETER, None)
      else
        let! HeaderLength := lift (field 2 OFS_HeaderLength TempFvh) in
        if negb (AllocatePool_ok HeaderLength) then Mret (EFI_OUT_OF_RESOURCES, None)
        else if HeaderLength <? sizeof_FV_HEADER then Mfail Fault
        else
          let! r := ReadFvbData Fvb StartLba Offset (HeaderLength - sizeof_FV_HEADER) in
          let '(Status, (_, _, rest)) := r in
          Mret (Status, if EFI_ERROR Status then None else Some (TempFvh ++ rest)).

(** The header lies at the address [p]. *)
Definition VerifyFvHeaderChecksum (p : Z) (h : list Z) : outcome bool :=
  do n <- field 2 OFS_HeaderLength h ;
  do Checksum <- CalculateSum16 fvW (buffer_at p h) p n ;
  Ok (Checksum =? 0).

(** ** Where the extension header is *)

(** The inner loop over one run of blocks; Index, LbaIndex and
    ExtHeaderOffset. *)
Fixpoint skip_blocks (left : nat) (Length Index LbaIndex ExtHeaderOffset : Z) : Z * Z * Z :=
  match left with
  | O => (Index, LbaIndex, ExtHeaderOffset)
  | S left' =>
      if Length <=? ExtHeaderOffset
      then skip_blocks left' Length (Index + 1) (LbaIndex + 1) (wrapU 32 (ExtHeaderOffset - Length))
      else (Index, LbaIndex, ExtHeaderOffset)
  end.
(** The loop over the block map at [BlockMap] in the header: LbaIndex and
    LbaOffset. *)
Fixpoint ext_header_lba (turns : nat) (h : list Z) (BlockMap LbaIndex ExtHeaderOffset : Z) : outcome (Z * Z) :=
  do n <- field 4 BlockMap h ;
  do l <- field 4 (BlockMap + 4) h ;
  if (n =? 0) && (l =? 0) then Ok (LbaIndex, 0)
  else
    match turns with
    | O => OutOfFuel
    | S turns' =>
        let '(Index, LbaIndex, ExtHeaderOffset) := skip_blocks (Z.to_nat n) l 0 LbaIndex ExtHeaderOffset in
        if Index <? n then Ok (LbaIndex, ExtHeaderOffset)
        else ext_header_lba turns' h (BlockMap + 8) LbaIndex ExtHeaderOffset
    end.
End Read.
