(* ===== verification/FvSpec.v ===== *)
(** * FvSpec: what a block device promises, and what reads deliver

    [volume s Fvb bs]: in the state [s] the device [Fvb] answers as one that
    holds the blocks [bs].  The content of the volume is the blocks one after
    the other; a block number and an offset are a position in it. *)

From stdpp Require Import base option list.
From Stdlib Require Import ZArith Lia.
From S2P Require Import Prelude Memory MemSpec FvBlock FvRead.

Local Open Scope Z_scope.
Local Open Scope edk_scope.

Definition content (bs : list (list Z)) : list Z := mjoin bs.
Definition position (bs : list (list Z)) (lba off : Z) : Z := len (content (take (Z.to_nat lba) bs)) + off.

(** The block sizes never decrease towards the end of the volume. *)
Definition sizes_grow (bs : list (list Z)) : Prop :=
  forall i b b', bs !! i = Some b -> bs !! S i = Some b' -> (length b <= length b')%nat.

Record volume {St} `{!FVB St} (s : St) (Fvb : Z) (bs : list (list Z)) : Prop := {
  vol_width : 0 < fvW <= 64;
  vol_blocks : Forall (fun b => b <> []) bs;
  vol_total : len (content bs) < 2 ^ fvW;
  vol_read i b off n : bs !! i = Some b -> 0 <= off <= len b -> 0 <= n -> off + n < 2 ^ fvW ->
    FvbRead Fvb (Z.of_nat i) off n s =
      Ok ((if off + n <=? len b then EFI_SUCCESS else EFI_BAD_BUFFER_SIZE, take (Z.to_nat n) (drop (Z.to_nat off) b)), s);
  vol_read_end n : 0 < n < 2 ^ fvW -> FvbRead Fvb (len bs) 0 n s = Ok ((EFI_BAD_BUFFER_SIZE, []), s);
  vol_run i b : bs !! i = Some b -> exists n : nat,
    FvbGetBlockSize Fvb (Z.of_nat i) s = Ok ((EFI_SUCCESS, (len b, Z.of_nat n)), s) /\ (0 < n)%nat /\
    forall j, (j < n)%nat -> exists b', bs !! (i + j)%nat = Some b' /\ length b' = length b;
  vol_run_end : exists x, FvbGetBlockSize Fvb (len bs) s = Ok ((EFI_INVALID_PARAMETER, x), s)
}.

(** ** The content from a block on *)

Definition from (bs : list (list Z)) (i : nat) : list Z := content (drop i bs).

Lemma from_cons bs i b : bs !! i = Some b -> from bs i = b ++ from bs (S i).
Proof. intros H. unfold from, content. by rewrite (drop_S _ b i H). Qed.
Lemma content_split bs i : content bs = content (take i bs) ++ from bs i.
Proof. unfold from, content. rewrite <- join_app. by rewrite take_drop. Qed.
Lemma content_take_S bs i b : bs !! i = Some b -> content (take (S i) bs) = content (take i bs) ++ b.
Proof. intros H. unfold content. rewrite (take_S_r _ _ b H), join_app. cbn. by rewrite app_nil_r. Qed.
Lemma from_end bs : from bs (length bs) = [].
Proof. unfold from. by rewrite drop_all. Qed.
Lemma position_from bs i : len (content bs) = position bs (Z.of_nat i) 0 + len (from bs i).
Proof. unfold position. rewrite Nat2Z.id, (content_split bs i) at 1. rewrite length_app. lia. Qed.
Lemma blocks_count bs : Forall (fun b => b <> []) bs -> (length bs <= length (content bs))%nat.
Proof.
  induction 1 as [|b bs Hb _ IH]; [done|]. change (content (b :: bs)) with (b ++ content bs). rewrite length_app. cbn [length].
  destruct b; [done|]. cbn [length]. lia.
Qed.

(** A run of [c] blocks of the size [sz]. *)
Definition run (bs : list (list Z)) (sz i c : nat) : Prop :=
  forall j, (j < c)%nat -> exists b, bs !! (i + j)%nat = Some b /\ length b = sz.

Lemma run_from bs sz i c : run bs sz i c ->
  length (content (take (i + c) bs)) = (length (content (take i bs)) + c * sz)%nat /\
  exists blk, from bs i = blk ++ from bs (i + c) /\ length blk = (c * sz)%nat.
Proof.
  induction c as [|c IH]; intros H.
  { rewrite Nat.add_0_r. split; [lia|]. by exists []. }
  destruct IH as (E & blk & F & L); [intros j Hj; apply H; lia|]. destruct (H c) as (b & Hb & Hl); [lia|].
  rewrite <- Nat.add_succ_comm in *. cbn [Nat.add]. split.
  - rewrite (content_take_S bs (i + c) b Hb), length_app. lia.
  - exists (blk ++ b). rewrite F, (from_cons bs (i + c) b Hb), <- app_assoc, length_app. split; [done|lia].
Qed.
Lemma run_inside bs sz i c : run bs sz i c -> (0 < c)%nat -> (i + c <= length bs)%nat.
Proof. intros H Hc. destruct (H (c - 1)%nat) as (b & Hb%lookup_lt_Some & _); lia. Qed.

Section Reads.
Context {St : Type} `{!FVB St} (s : St) (Fvb : Z) (bs : list (list Z)) (V : volume s Fvb bs).

Lemma block_pos i b : bs !! i = Some b -> (0 < length b)%nat.
Proof. intros H. pose proof (proj1 (Forall_lookup _ _) (vol_blocks s Fvb bs V) i b H). destruct b; [done|]. cbn. lia. Qed.
Lemma few_blocks : len bs < 2 ^ fvW /\ len bs < 2 ^ 64.
Proof.
  pose proof (blocks_count bs (vol_blocks s Fvb bs V)). pose proof (vol_total s Fvb bs V). pose proof (vol_width s Fvb bs V).
  assert (2 ^ fvW <= 2 ^ 64) by (apply Z.pow_le_mono_r; lia). lia.
Qed.
Lemma block_bound i b : bs !! i = Some b -> len b < 2 ^ fvW.
Proof.
  intros H. pose proof (vol_total s Fvb bs V) as Ht. rewrite (content_split bs i), (from_cons bs i b H), !length_app in Ht. lia.
Qed.

(** Whole blocks of one run. *)
Lemma read_blocks_run sz i left : forall k n Data,
  (0 < sz)%nat -> 0 <= n < 2 ^ fvW ->
  run bs sz (i + k) left ->
  exists c : nat, (c <= left)%nat /\ Z.of_nat c * Z.of_nat sz <= n /\
    ((c < left)%nat -> n - Z.of_nat c * Z.of_nat sz < Z.of_nat sz) /\
    read_blocks left Fvb (Z.of_nat i) (Z.of_nat k) (Z.of_nat sz) n Data s =
      Ok ((EFI_SUCCESS, (Z.of_nat (k + c), Z.of_nat sz, n - Z.of_nat c * Z.of_nat sz,
                         Data ++ take (c * sz) (from bs (i + k)))), s).
Proof.
  induction left as [|left IH]; intros k n Data Hsz Hn Hb; cbn [read_blocks].
  { exists 0%nat. split_and!; [lia..|]. rewrite Nat.add_0_r, Nat.mul_0_l, take_0, app_nil_r.
    by replace (n - Z.of_nat 0 * Z.of_nat sz) with n by lia. }
  destruct (Z.leb_spec (Z.of_nat sz) n) as [Hle|Hlt].
  2:{ exists 0%nat. split_and!; [lia..|]. rewrite Nat.add_0_r, Nat.mul_0_l, take_0, app_nil_r.
    by replace (n - Z.of_nat 0 * Z.of_nat sz) with n by lia. }
  destruct (Hb 0%nat) as (b & Hl & Hlen); [lia|]. rewrite Nat.add_0_r in Hl. pose proof few_blocks as [HbW Hb64].
  pose proof (lookup_lt_Some _ _ _ Hl) as Hik. pose proof (vol_width s Fvb bs V).
  rewrite (wrapU_id 64) by (unfold inU; lia). replace (Z.of_nat i + Z.of_nat k) with (Z.of_nat (i + k)) by lia.
  pose proof (vol_read s Fvb bs V (i + k) b 0 (Z.of_nat sz) Hl ltac:(lia) ltac:(lia) ltac:(lia)) as Hr.
  rewrite (proj2 (Z.leb_le _ _)) in Hr by lia. rewrite drop_0, Nat2Z.id, firstn_all2 in Hr by lia.
  rewrite (Mbind_Ok _ _ _ _ _ Hr). cbn beta iota. cbn [EFI_ERROR]. rewrite Hlen, wrapU_id by (unfold inU; lia).
  destruct (IH (S k) (n - Z.of_nat sz) (Data ++ b)) as (c & H1 & H2 & H3 & E); [done|lia| |].
  { intros j Hj. destruct (Hb (S j)) as (b' & Hb' & ?); [lia|]. exists b'. by rewrite <- Hb'; split; [f_equal; lia|]. }
  exists (S c). split_and!; [lia|lia|lia|]. replace (Z.of_nat k + 1) with (Z.of_nat (S k)) by lia. rewrite E.
  rewrite (from_cons bs (i + k) b Hl), <- app_assoc. replace (i + S k)%nat with (S (i + k)) by lia.
  replace (S c * sz)%nat with (length b + c * sz)%nat by lia. rewrite take_app_add.
  replace (k + S c)%nat with (S k + c)%nat by lia.
  by replace (n - Z.of_nat (S c) * Z.of_nat sz) with (n - Z.of_nat sz - Z.of_nat c * Z.of_nat sz) by lia.
Qed.

(** What the loop over the runs leaves to be read. *)
Definition remains (i i' bi : nat) (n n' : Z) : Prop :=
  0 <= n' <= n /\ (i' + bi <= length bs)%nat /\
  len (content (take (i' + bi) bs)) = len (content (take i bs)) + (n - n') /\
  (0 < n' -> exists b, bs !! (i' + bi)%nat = Some b /\ n' <= len b).

Lemma block_after sz i c b' : sizes_grow bs -> run bs sz i c -> (0 < c)%nat -> bs !! (i + c)%nat = Some b' -> (sz <= length b')%nat.
Proof.
  intros G R Hc Hb'. destruct (R (c - 1)%nat) as (b & Hb & <-); [lia|]. apply (G (i + (c - 1))%nat b b'); [done|].
  by replace (S (i + (c - 1))) with (i + c)%nat by lia.
Qed.

(** The end of one run is the end of the loop. *)
Lemma run_stops sz i c nn n : sizes_grow bs -> run bs sz i nn -> (0 < nn)%nat -> (c <= nn)%nat ->
  let n' := n - Z.of_nat c * Z.of_nat sz in
  0 <= n' < Z.of_nat sz ->
  (n <= len (from bs i) -> remains i i c n n') /\
  (len (from bs i) < n -> 0 < n' /\ (i + c)%nat = length bs).
Proof.
  intros G R Hnn Hc n' Hn'. assert (run bs sz i c) as Rc by (intros j Hj; apply R; lia).
  destruct (run_from bs sz i c Rc) as (E & blk & F & L). rewrite F, length_app.
  assert (i + c <= length bs)%nat as Hin by (pose proof (run_inside bs sz i nn R Hnn); lia).
  assert (forall b, bs !! (i + c)%nat = Some b -> (sz <= length b)%nat) as Hnext.
  { intros b Hb. destruct (decide (c = nn)) as [->|Hne]; [by apply (block_after sz i nn)|].
    destruct (R c) as (b' & Hb' & ?); [lia|]. simplify_eq. lia. }
  assert (i + c < length bs -> exists b, bs !! (i + c)%nat = Some b /\ (sz <= length (from bs (i + c)))%nat)%nat as Hmore.
  { intros Hlt. destruct (lookup_lt_is_Some_2 bs (i + c)%nat Hlt) as [b Hb]. exists b. split; [done|].
    rewrite (from_cons bs _ b Hb), length_app. pose proof (Hnext b Hb). lia. }
  split.
  - intros Hle. split_and!; [lia..|]. intros Hp. destruct (decide (i + c = length bs)%nat) as [Heq|Hne].
    + rewrite Heq, from_end in Hle. cbn in Hle. lia.
    + destruct Hmore as (b & Hb & _); [lia|]. exists b. split; [done|]. pose proof (Hnext b Hb). lia.
  - intros Hlt. destruct (decide (i + c = length bs)%nat) as [Heq|Hne]; [lia|]. destruct Hmore as (b & Hb & ?); lia.
Qed.

Lemma read_ranges_run turns : sizes_grow bs -> forall i bi n Data,
  (i <= length bs)%nat -> 0 <= n < 2 ^ fvW -> n < Z.of_nat turns -> (n = 0 -> bi = 0) ->
  (n <= len (from bs i) -> exists (i' bi' : nat) n', remains i i' bi' n n' /\
     read_ranges turns Fvb (Z.of_nat i) bi n Data s =
       Ok ((EFI_SUCCESS, (Z.of_nat i', Z.of_nat bi', n', Data ++ take (Z.to_nat (n - n')) (from bs i))), s)) /\
  (len (from bs i) < n -> exists st i' bi' n' D, read_ranges turns Fvb (Z.of_nat i) bi n Data s = Ok ((st, (i', bi', n', D)), s) /\
     (EFI_ERROR st = true \/ (st = EFI_SUCCESS /\ 0 < n' < 2 ^ fvW /\ i' + bi' = len bs))).
Proof.
  intros G. induction turns as [|turns IH]; intros i bi n Data Hi Hn Ht Hbi; [lia|]. cbn [read_ranges].
  destruct (Z.ltb_spec 0 n) as [Hpos|Hz].
  2:{ split; [|lia]. intros _. exists i, 0%nat, 0. assert (n = 0) as -> by lia. rewrite Hbi by done.
      split; [split_and!; try lia; by rewrite Nat.add_0_r, Z.add_0_r|]. by rewrite app_nil_r. }
  destruct (decide (i = length bs)) as [->|Hne].
  { rewrite from_end. split; [cbn; lia|]. intros _. destruct (vol_run_end s Fvb bs V) as [[x y] E].
    rewrite (Mbind_Ok _ _ _ _ _ E). cbn. eexists _, _, _, _, _. split; [reflexivity|by left]. }
  destruct (lookup_lt_is_Some_2 bs i ltac:(lia)) as [b Hb]. pose proof (block_pos i b Hb) as Hsz.
  destruct (vol_run s Fvb bs V i b Hb) as (nn & E & Hnn & R). rewrite (Mbind_Ok _ _ _ _ _ E). cbn beta iota. cbn [EFI_ERROR].
  destruct (read_blocks_run (length b) i nn 0 n Data Hsz Hn) as (c & Hc & H1 & H2 & Er); [by rewrite Nat.add_0_r|].
  rewrite Nat2Z.id, (Mbind_Ok _ _ _ _ _ Er). rewrite Nat.add_0_r. cbn beta iota. cbn [EFI_ERROR]. cbn [Nat.add].
  set (n' := n - Z.of_nat c * Z.of_nat (length b)) in *. destruct (Z.ltb_spec n' (len b)) as [Hlt|Hge].
  - destruct (run_stops (length b) i c nn n G R Hnn Hc) as [S1 S2]; [lia|]. split.
    + intros Hle. exists i, c, n'. split; [by apply S1|]. unfold Mret. do 5 f_equal. f_equal. unfold n'. lia.
    + intros Hgt. destruct (S2 Hgt) as [P1 P2]. eexists _, _, _, _, _. split; [reflexivity|]. right. split_and!; [done|lia..].
  - assert (c = nn) as -> by lia. destruct (run_from bs (length b) i nn R) as (Ec & blk & F & L).
    pose proof (run_inside bs (length b) i nn R Hnn) as Hin. pose proof few_blocks as [_ Hb64].
    rewrite wrapU_id by (unfold inU; lia). rewrite <- Nat2Z.inj_add.
    destruct (IH (i + nn)%nat (Z.of_nat nn) n' (Data ++ take (nn * length b) (from bs i))) as [I1 I2]; [lia|lia|nia|lia|].
    assert (len (from bs i) = len blk + len (from bs (i + nn))) as LF by (rewrite F, length_app; lia). split.
    + intros Hle. destruct I1 as (i' & bi' & n'' & (Q1 & Q2 & Q3 & Q4) & ->); [lia|]. exists i', bi', n''.
      split; [split_and!; try done; lia|]. rewrite <- app_assoc, F. do 5 f_equal. f_equal.
      rewrite (take_app_length' blk _ (nn * length b)) by lia.
      replace (Z.to_nat (n - n'')) with (length blk + Z.to_nat (n' - n''))%nat by lia. by rewrite take_app_add.
    + intros Hgt. apply I2. lia.
Qed.

Lemma from_drop i : from bs i = drop (length (content (take i bs))) (content bs).
Proof using. clear V. rewrite (content_split bs i). by rewrite drop_app_length. Qed.

(** What is left and what was read before are what was asked for. *)
Lemma remains_data i i' bi n n' b : remains i i' bi n n' -> bs !! (i' + bi)%nat = Some b -> n' <= len b ->
  take (Z.to_nat (n - n')) (from bs i) ++ take (Z.to_nat n') b = take (Z.to_nat n) (from bs i).
Proof.
  intros (H1 & _ & H3 & _) Hb Hle.
  assert (take (Z.to_nat n') b = take (Z.to_nat n') (drop (Z.to_nat (n - n')) (from bs i))) as ->.
  { rewrite (from_drop i), drop_drop. replace (length (content (take i bs)) + Z.to_nat (n - n'))%nat
      with (length (content (take (i' + bi) bs))) by lia.
    rewrite <- from_drop, (from_cons bs _ b Hb), take_app_le by lia. done. }
  rewrite take_take_drop. f_equal. lia.
Qed.

(** A position inside the volume or at its end. *)
Definition at_position (lba off p : Z) : Prop :=
  position bs lba off = p /\ 0 <= lba <= len bs /\ 0 <= off /\ forall b, bs !! Z.to_nat lba = Some b -> off <= len b.

Lemma content_at i b off n : bs !! i = Some b -> 0 <= off <= len b ->
  take n (drop (Z.to_nat (position bs (Z.of_nat i) off)) (content bs)) = take n (drop (Z.to_nat off) b ++ from bs (S i)).
Proof.
  intros Hb Hoff. unfold position. rewrite Nat2Z.id. f_equal.
  replace (Z.to_nat (len (content (take i bs)) + off)) with (length (content (take i bs)) + Z.to_nat off)%nat by lia.
  rewrite <- drop_drop, <- from_drop, (from_cons bs i b Hb). by rewrite drop_app_le by lia.
Qed.

Theorem ReadFvbData_run i b off n : sizes_grow bs -> bs !! i = Some b -> 0 <= off <= len b -> 0 <= n -> off + n < 2 ^ fvW ->
  let p := position bs (Z.of_nat i) off in
  (p + n <= len (content bs) -> exists lba' off', at_position lba' off' (p + n) /\
     ReadFvbData Fvb (Z.of_nat i) off n s =
       Ok ((EFI_SUCCESS, (lba', off', take (Z.to_nat n) (drop (Z.to_nat p) (content bs)))), s)) /\
  (len (content bs) < p + n -> exists st r, ReadFvbData Fvb (Z.of_nat i) off n s = Ok ((st, r), s) /\ EFI_ERROR st = true).
Proof.
  intros G Hb Hoff Hn Hw p. pose proof (lookup_lt_Some _ _ _ Hb) as Hi. pose proof few_blocks as [_ Hb64].
  assert (len (content bs) = p - off + len b + len (from bs (S i))) as Hlen.
  { subst p. unfold position. rewrite Nat2Z.id, (content_split bs i), (from_cons bs i b Hb), !length_app at 1. lia. }
  unfold ReadFvbData. rewrite (Mbind_Ok _ _ _ _ _ (vol_read s Fvb bs V i b off n Hb Hoff Hn Hw)).
  unfold p at 3. rewrite (content_at i b off _ Hb Hoff). destruct (Z.leb_spec (off + n) (len b)) as [Hin|Hout].
  { rewrite bool_decide_true by done. rewrite wrapU_id by (unfold inU; lia). split; [|lia]. intros _.
    exists (Z.of_nat i), (off + n). split.
    - split_and!; [unfold p, position; lia|lia..|]. rewrite Nat2Z.id. intros b' Hb'. simplify_eq. lia.
    - rewrite take_app_le by (rewrite length_drop; lia). done. }
  rewrite bool_decide_false by done. rewrite bool_decide_true by done. cbn [negb].
  rewrite (take_ge (drop _ b)) by (rewrite length_drop; lia). rewrite length_drop.
  set (left := n - (len b - off)). replace (wrapU fvW (n - Z.of_nat (length b - Z.to_nat off))) with left
    by (rewrite wrapU_id by (unfold inU; lia); lia).
  rewrite (wrapU_id 64) by (unfold inU; lia). replace (Z.of_nat i + 1) with (Z.of_nat (S i)) by lia.
  destruct (read_ranges_run (S (Z.to_nat left)) G (S i) 0 left (drop (Z.to_nat off) b)) as [R1 R2]; [lia|lia|lia|done|]. split.
  - intros Hle. destruct R1 as (i' & bi' & n' & Rm & E); [lia|]. pose proof Rm as (Q1 & Q2 & Q3 & Q4).
    rewrite (Mbind_Ok _ _ _ _ _ E). cbn beta iota. cbn [EFI_ERROR]. rewrite (wrapU_id 64) by (unfold inU; lia).
    rewrite <- Nat2Z.inj_add. rewrite (content_take_S bs i b Hb), length_app in Q3.
    assert (position bs (Z.of_nat (i' + bi')) n' = p + n) as Hpos by (unfold position, p, position; rewrite !Nat2Z.id; lia).
    rewrite (take_app_ge _ _ (Z.to_nat n)) by (rewrite length_drop; lia). rewrite length_drop.
    replace (Z.to_nat n - (length b - Z.to_nat off))%nat with (Z.to_nat left) by lia.
    destruct (Z.ltb_spec 0 n') as [Hp|Hz].
    + destruct (Q4 Hp) as (b' & Hb' & Hle').
      pose proof (vol_read s Fvb bs V _ b' 0 n' Hb' ltac:(lia) ltac:(lia) ltac:(pose proof (block_bound _ _ Hb'); lia)) as Er.
      rewrite (proj2 (Z.leb_le _ _)), drop_0 in Er by lia. rewrite (Mbind_Ok _ _ _ _ _ Er). cbn beta iota. cbn [EFI_ERROR].
      rewrite length_take. exists (Z.of_nat (i' + bi')), n'. split.
      * split_and!; [done|lia..|]. rewrite Nat2Z.id. intros b'' Hb''. simplify_eq. lia.
      * rewrite <- app_assoc, (remains_data (S i) i' bi' left n' b' Rm Hb' Hle'). unfold Mret. do 5 f_equal. lia.
    + assert (n' = 0) as -> by lia. exists (Z.of_nat (i' + bi')), 0. split; [|by rewrite Z.sub_0_r].
      split_and!; [done|lia..|]. intros b'' _. lia.
  - intros Hgt. destruct R2 as (st & i' & bi' & n' & D & E & Hst); [lia|]. rewrite (Mbind_Ok _ _ _ _ _ E). cbn beta iota.
    destruct Hst as [Hst|(-> & Hn' & Hend)].
    + rewrite Hst. by eexists _, _.
    + cbn [EFI_ERROR]. rewrite (proj2 (Z.ltb_lt 0 n')) by lia. rewrite Hend, (wrapU_id 64) by (unfold inU; lia).
      rewrite (Mbind_Ok _ _ _ _ _ (vol_read_end s Fvb bs V n' Hn')). by eexists _, _.
Qed.
End Reads.
