(* ===== verification/FvBlockDevice.v ===== *)
(** * FvBlockDevice: the devices of FwVolBlock.c hold their volumes

    A volume in memory has a map of runs of blocks; ProduceFVBProtocolOnBuffer
    makes a device that answers as [FvSpec.volume] asks. *)

From stdpp Require Import base option list gmap fin_maps.
From Stdlib Require Import ZArith Lia.
From S2P Require Import Prelude Memory MemSpec DevPath DevPathSpec FvBlock FvRead FvSpec.

Local Open Scope Z_scope.
Local Open Scope edk_scope.

(** ** The block map *)

(** A run: how many blocks, of which size. *)
Definition run_ok (r : nat * nat) : Prop := (0 < r.1)%nat /\ (0 < r.2)%nat /\ Z.of_nat r.1 < 2 ^ 32 /\ Z.of_nat r.2 < 2 ^ 32.
Definition entry_bytes (r : nat * nat) : list Z := le_split 4 (Z.of_nat r.1) ++ le_split 4 (Z.of_nat r.2).
Definition map_bytes (runs : list (nat * nat)) : list Z := mjoin (entry_bytes <$> runs) ++ replicate 8 0.
(** The sizes of all blocks. *)
Definition sizes (runs : list (nat * nat)) : list nat := mjoin ((fun r => replicate r.1 r.2) <$> runs).

Lemma sizes_cons r runs : sizes (r :: runs) = replicate r.1 r.2 ++ sizes runs.
Proof. done. Qed.
Lemma length_sizes_cons r runs : length (sizes (r :: runs)) = (r.1 + length (sizes runs))%nat.
Proof. by rewrite sizes_cons, length_app, length_replicate. Qed.

Lemma load_entry m p r l : run_ok r -> at_bytes m p (entry_bytes r ++ l) ->
  load 4 p m = Ok (Z.of_nat r.1, m) /\ load 4 (p + 4) m = Ok (Z.of_nat r.2, m) /\ at_bytes m (p + 8) l.
Proof.
  intros (_ & _ & H1 & H2) H. apply at_bytes_app in H as [He Hl]. apply at_bytes_app in He as [Ha Hb].
  rewrite le_split_length in Hb. change (2 ^ 32) with (256 ^ Z.of_nat 4) in *.
  rewrite (load_at _ _ _ _ Ha), (load_at _ _ _ _ Hb) by apply le_split_length.
  rewrite !le_combine_split by lia. split_and!; [done|done|exact Hl].
Qed.
Lemma load_last m p : at_bytes m p (map_bytes []) -> load 4 p m = Ok (0, m) /\ load 4 (p + 4) m = Ok (0, m).
Proof.
  intros H. change (map_bytes []) with (replicate 4 0 ++ replicate 4 0) in H. apply at_bytes_app in H as [H1 H2].
  by rewrite (load_at _ _ _ _ H1), (load_at _ _ _ _ H2).
Qed.
Lemma map_bytes_cons r runs : map_bytes (r :: runs) = entry_bytes r ++ map_bytes runs.
Proof. unfold map_bytes. cbn [fmap list_fmap mjoin list_join]. by rewrite app_assoc. Qed.
Lemma map_above m p r l : at_bytes m p (entry_bytes r ++ l) -> (above (p + 8) m < above p m)%nat.
Proof. intros H. apply above_lt; [|lia]. unfold entry_bytes in H. cbn in H. apply at_bytes_cons in H as [-> _]. by eexists. Qed.

Section Walks.
Context `{Env : FVB_ENV}.
Hypothesis width : 32 <= fvbW <= 64.

(** The run of a block. *)
Lemma block_size_loop_run m runs : Forall run_ok runs -> forall fuel p t lba,
  at_bytes m p (map_bytes runs) -> (above p m < fuel)%nat -> (t <= lba < t + length (sizes runs))%nat ->
  Z.of_nat (t + length (sizes runs)) < 2 ^ fvbW ->
  exists p' (t' sz : nat), block_size_loop fuel (Z.of_nat lba) p (Z.of_nat t) m = Ok ((p', Z.of_nat t'), m) /\
    load 4 (p' + 4) m = Ok (Z.of_nat sz, m) /\ (lba < t')%nat /\
    forall k, (lba <= k < t')%nat -> sizes runs !! (k - t)%nat = Some sz.
Proof.
  induction 1 as [|r runs Hr _ IH]; intros fuel p t lba Hm Hf Hlba Ht; [cbn in Hlba; lia|].
  rewrite map_bytes_cons in Hm. destruct (load_entry m p r _ Hr Hm) as (E1 & E2 & Hm').
  pose proof (map_above m p r _ Hm). destruct fuel as [|fuel]; [lia|]. cbn [block_size_loop].
  rewrite (Mbind_Ok _ _ _ _ _ E1). rewrite length_sizes_cons in Hlba, Ht. destruct Hr as (P1 & P2 & _).
  rewrite (proj2 (Z.eqb_neq _ 0)) by lia. rewrite (Mbind_Ok _ _ _ false m) by done.
  rewrite wrapU_id by (unfold inU; lia). rewrite <- Nat2Z.inj_add. destruct (Z.ltb_spec (Z.of_nat lba) (Z.of_nat (t + r.1))).
  - exists p, (t + r.1)%nat, r.2. split_and!; [done|done|lia|]. intros k Hk. rewrite sizes_cons.
    rewrite lookup_app_l by (rewrite length_replicate; lia). apply lookup_replicate. lia.
  - destruct (IH fuel (p + 8) (t + r.1)%nat lba) as (p' & t' & sz & E & Hs & Hlt & Hk); [done|lia|lia|lia|].
    exists p', t', sz. split_and!; [done|done|done|]. intros k Hkk. rewrite sizes_cons.
    rewrite lookup_app_r by (rewrite length_replicate; lia). rewrite length_replicate.
    replace (k - t - r.1)%nat with (k - (t + r.1))%nat by lia. by apply Hk.
Qed.

Lemma count_blocks_run m runs : Forall run_ok runs -> forall fuel p t,
  at_bytes m p (map_bytes runs) -> (above p m < fuel)%nat -> Z.of_nat (t + length (sizes runs)) < 2 ^ fvbW ->
  count_blocks fuel p (Z.of_nat t) m = Ok (Z.of_nat (t + length (sizes runs)), m).
Proof.
  induction 1 as [|r runs Hr _ IH]; intros fuel p t Hm Hf Ht; destruct fuel as [|fuel]; try lia; cbn [count_blocks].
  - rewrite (Mbind_Ok _ _ _ _ _ (proj1 (load_last m p Hm))). cbn. by rewrite Nat.add_0_r.
  - rewrite map_bytes_cons in Hm. destruct (load_entry m p r _ Hr Hm) as (E1 & E2 & Hm').
    pose proof (map_above m p r _ Hm). rewrite (Mbind_Ok _ _ _ _ _ E1). rewrite length_sizes_cons in *. destruct Hr as (P1 & _).
    rewrite (proj2 (Z.eqb_neq _ 0)) by lia. rewrite wrapU_id by (unfold inU; lia). rewrite <- Nat2Z.inj_add, Nat.add_assoc in *.
    apply IH; [done|lia|lia].
Qed.

(** The cells of the cache for blocks of these sizes. *)
Fixpoint cells_of (off : nat) (szs : list nat) : list (Z * Z) :=
  match szs with
  | [] => []
  | z :: szs' => (Z.of_nat off, Z.of_nat z) :: cells_of (off + z) szs'
  end.
Lemma length_cells off szs : length (cells_of off szs) = length szs.
Proof. revert off. induction szs; intros; cbn; auto. Qed.
Lemma cells_app off a b : cells_of off (a ++ b) = cells_of off a ++ cells_of (off + sum_list a) b.
Proof.
  revert off. induction a as [|z a IH]; intros off; cbn [app cells_of sum_list sum_list_with]; [by rewrite Nat.add_0_r|].
  rewrite IH. cbn. by rewrite Nat.add_assoc.
Qed.

Lemma fill_run_run m sz n : forall room off cells,
  len cells + Z.of_nat n <= room -> Z.of_nat (off + n * sz) < 2 ^ fvbW ->
  fill_run n room (Z.of_nat sz) (Z.of_nat off) cells m =
    Ok ((Z.of_nat (off + n * sz), cells ++ cells_of off (replicate n sz)), m).
Proof.
  induction n as [|n IH]; intros room off cells Hr Ho; cbn [fill_run].
  { by rewrite app_nil_r, Nat.add_0_r. }
  rewrite (proj2 (Z.ltb_lt _ _)) by lia. rewrite wrapU_id by (unfold inU; lia). rewrite <- Nat2Z.inj_add.
  rewrite IH by (rewrite ?length_app; cbn [length]; lia). rewrite <- app_assoc. cbn [replicate cells_of app].
  by replace (off + sz + n * sz)%nat with (off + S n * sz)%nat by lia.
Qed.
Lemma sum_replicate n z : sum_list (replicate n z) = (n * z)%nat.
Proof. induction n; cbn in *; lia. Qed.
Lemma sum_sizes_cons r runs : sum_list (sizes (r :: runs)) = (r.1 * r.2 + sum_list (sizes runs))%nat.
Proof. by rewrite sizes_cons, sum_list_with_app, sum_replicate. Qed.

Lemma fill_cache_run m runs : Forall run_ok runs -> forall fuel room p off cells,
  at_bytes m p (map_bytes runs) -> (above p m < fuel)%nat -> len cells + Z.of_nat (length (sizes runs)) <= room ->
  Z.of_nat (off + sum_list (sizes runs)) < 2 ^ fvbW ->
  fill_cache fuel room p (Z.of_nat off) cells m = Ok (cells ++ cells_of off (sizes runs), m).
Proof.
  induction 1 as [|r runs Hr _ IH]; intros fuel room p off cells Hm Hf Hroom Ho; destruct fuel as [|fuel]; try lia; cbn [fill_cache].
  - rewrite (Mbind_Ok _ _ _ _ _ (proj1 (load_last m p Hm))). cbn. by rewrite app_nil_r.
  - rewrite map_bytes_cons in Hm. destruct (load_entry m p r _ Hr Hm) as (E1 & E2 & Hm'). pose proof (map_above m p r _ Hm).
    rewrite length_sizes_cons in Hroom. rewrite sum_sizes_cons in Ho. rewrite (Mbind_Ok _ _ _ _ _ E1).
    destruct Hr as (P1 & _). rewrite (proj2 (Z.eqb_neq _ 0)) by lia. rewrite (Mbind_Ok _ _ _ _ _ E2), Nat2Z.id.
    rewrite (Mbind_Ok _ _ _ _ _ (fill_run_run m r.2 r.1 room off cells ltac:(lia) ltac:(lia))). cbn [fst snd].
    rewrite IH; [|done|lia| |lia].
    + by rewrite sizes_cons, cells_app, sum_replicate, app_assoc.
    + rewrite length_app, length_cells, length_replicate. lia.
Qed.
End Walks.

(** ** A device that holds a volume *)

Section Device.
Context `{Env : FVB_ENV}.
Hypothesis width : 32 <= fvbW <= 64.

Definition device_holds (s : FVS) (This : Z) (bs : list (list Z)) : Prop :=
  exists d runs, fvb_devices s !! This = Some d /\ NumBlocks d = len bs /\ Cache d = cells_of 0 (length <$> bs) /\
    Z.land (FvbAttributes d) EFI_FVB2_READ_STATUS <> 0 /\ Forall run_ok runs /\ sizes runs = length <$> bs /\
    at_bytes (fv_ram s) (BaseAddress d) (content bs) /\ at_bytes (fv_ram s) (BaseAddress d + OFS_BlockMap) (map_bytes runs) /\
    len (content bs) < 2 ^ fvbW.

Lemma cells_lookup bs : forall i b off, bs !! i = Some b ->
  cells_of off (length <$> bs) !! i = Some (Z.of_nat (off + length (content (take i bs))), len b).
Proof.
  induction bs as [|b0 bs IH]; intros i b off H; [done|]. cbn [fmap list_fmap cells_of].
  destruct i as [|i].
  - injection H as ->. cbn. by rewrite Nat.add_0_r.
  - change (cells_of (off + length b0) (length <$> bs) !! i = Some (Z.of_nat (off + length (b0 ++ content (take i bs))), len b)).
    rewrite (IH i b _ H), length_app. do 3 f_equal. lia.
Qed.
Lemma sizes_nonempty runs (bs : list (list Z)) : Forall run_ok runs -> sizes runs = length <$> bs -> Forall (fun b => b <> []) bs.
Proof.
  intros Hr E. apply Forall_lookup. intros i b Hb ->. assert (0%nat ∈ sizes runs) as H0.
  { rewrite E. apply list_elem_of_fmap. exists []. split; [done|]. by eapply list_elem_of_lookup_2. }
  clear E Hb. induction Hr as [|r runs (_ & H2 & _) _ IH]; [by apply elem_of_nil in H0|].
  rewrite sizes_cons in H0. apply elem_of_app in H0 as [[E0 _]%elem_of_replicate|H0]; [lia|by apply IH].
Qed.

(** The bytes of a block, or a part of it. *)
Lemma block_bytes m base bs i b off n : at_bytes m base (content bs) -> bs !! i = Some b -> (off <= length b)%nat ->
  at_bytes m (base + len (content (take i bs)) + Z.of_nat off) (take n (drop off b)).
Proof.
  intros H Hb Hoff. rewrite (content_split bs i), (from_cons bs i b Hb) in H. apply at_bytes_app in H as [_ H].
  apply at_bytes_app in H as [H _]. rewrite <- (take_drop off b) in H. apply at_bytes_app in H as [_ H].
  rewrite length_take, Nat.min_l in H by done. rewrite <- (take_drop n (drop off b)) in H. by apply at_bytes_app in H as [H _].
Qed.

Lemma get_bytes_at n a (s : FVS) bs : at_bytes (fv_ram s) a bs -> length bs = n -> get_bytes n a s = Ok (bs, s).
Proof. intros H Hl. unfold get_bytes, at_ram. rewrite (load_bytes_at n a _ bs H Hl). by destruct s. Qed.
Lemma at_ram_ok {A} (c : M mem A) (s : FVS) a : c (fv_ram s) = Ok (a, fv_ram s) -> at_ram c s = Ok (a, s).
Proof. intros H. unfold at_ram. rewrite H. by destruct s. Qed.

Lemma read_block_run s This bs i b off n : device_holds s This bs -> len bs < 2 ^ fvbW -> bs !! i = Some b ->
  0 <= off <= len b -> 0 <= n -> off + n < 2 ^ fvbW ->
  FwVolBlockReadBlock This (Z.of_nat i) off n s =
    Ok ((if off + n <=? len b then EFI_SUCCESS else EFI_BAD_BUFFER_SIZE, take (Z.to_nat n) (drop (Z.to_nat off) b)), s).
Proof.
  intros (d & runs & Hd & Hnb & Hc & Ha & _ & _ & Hm & _ & Ht) Hfew Hb Hoff Hn Hw. pose proof (lookup_lt_Some _ _ _ Hb).
  unfold FwVolBlockReadBlock. rewrite (Mbind_Ok _ _ _ d s) by (unfold device_at; by rewrite Hd).
  rewrite (proj2 (Z.eqb_neq _ 0)) by done. rewrite (wrapU_id fvbW) by (unfold inU; lia).
  rewrite (proj2 (Z.leb_gt _ _)) by lia. rewrite Nat2Z.id, Hc, (cells_lookup bs i b 0 Hb). cbn [Nat.add].
  rewrite (proj2 (Z.ltb_ge _ _)) by lia. rewrite (wrapU_id fvbW (off + n)) by (unfold inU; lia).
  pose proof (block_bytes (fv_ram s) (BaseAddress d) bs i b (Z.to_nat off) (Z.to_nat n) Hm Hb ltac:(lia)) as Hbytes.
  rewrite Z2Nat.id in Hbytes by lia.
  assert (len b < 2 ^ fvbW).
  { rewrite (content_split bs i), (from_cons bs i b Hb), !length_app in Ht. lia. }
  destruct (Z.ltb_spec (len b) (off + n)) as [Hout|Hin].
  - rewrite wrapU_id by (unfold inU; lia). rewrite (Mbind_Ok _ _ _ _ _ (get_bytes_at (Z.to_nat (len b - off)) _ s _ Hbytes
      ltac:(rewrite length_take, length_drop; lia))).
    rewrite (proj2 (Z.eqb_neq _ n)), (proj2 (Z.leb_gt _ _)) by lia. done.
  - rewrite (Mbind_Ok _ _ _ _ _ (get_bytes_at (Z.to_nat n) _ s _ Hbytes ltac:(rewrite length_take, length_drop; lia))).
    rewrite Z.eqb_refl, (proj2 (Z.leb_le _ _)) by lia. done.
Qed.

Lemma few_held s This bs : device_holds s This bs -> len bs < 2 ^ fvbW.
Proof.
  intros (d & runs & _ & _ & _ & _ & Hr & Es & _ & _ & Ht). pose proof (blocks_count bs (sizes_nonempty runs bs Hr Es)). lia.
Qed.

Lemma block_size_run s This bs i b : device_holds s This bs -> bs !! i = Some b -> exists n : nat,
  FwVolBlockGetBlockSize This (Z.of_nat i) s = Ok ((EFI_SUCCESS, (len b, Z.of_nat n)), s) /\ (0 < n)%nat /\ run bs (length b) i n.
Proof.
  intros Hh Hb. pose proof (few_held s This bs Hh) as Hfew. destruct Hh as (d & runs & Hd & Hnb & _ & _ & Hr & Es & _ & Hm & Ht).
  pose proof (lookup_lt_Some _ _ _ Hb). assert (length (sizes runs) = length bs) as El by (by rewrite Es, length_fmap).
  unfold FwVolBlockGetBlockSize. rewrite (Mbind_Ok _ _ _ d s) by (unfold device_at; by rewrite Hd).
  rewrite (proj2 (Z.leb_gt _ _)) by lia. rewrite (Mbind_Ok Mget _ s s s eq_refl).
  destruct (block_size_loop_run width (fv_ram s) runs Hr (turns (fv_ram s)) (BaseAddress d + OFS_BlockMap) 0 i)
    as (p' & t' & sz & E & Hs & Hlt & Hk); [done|apply above_turns|lia|lia|].
  rewrite (Mbind_Ok _ _ _ _ _ (at_ram_ok _ s _ E)). cbn [fst snd]. rewrite (Mbind_Ok _ _ _ _ _ (at_ram_ok _ s _ Hs)).
  assert (forall k, (i <= k < t')%nat -> exists b', bs !! k = Some b' /\ length b' = sz) as Hbk.
  { intros k Hkk. specialize (Hk k Hkk). rewrite Nat.sub_0_r, Es in Hk. apply list_lookup_fmap_Some in Hk as (b' & -> & Hb').
    by exists b'. }
  destruct (Hbk i) as (b' & Hb' & <-); [lia|]. simplify_eq.
  exists (t' - i)%nat. split; [|split; [lia|]].
  - destruct (Hbk (t' - 1)%nat) as (? & Hl%lookup_lt_Some & _); [lia|].
    rewrite (wrapU_id fvbW (Z.of_nat i)) by (unfold inU; lia). rewrite wrapU_id by (unfold inU; lia).
    unfold Mret. do 4 f_equal. lia.
  - intros j Hj. apply Hbk. lia.
Qed.

(** The device meets the contract of the block protocol. *)
Lemma device_volume s This bs : device_holds s This bs -> volume s This bs.
Proof.
  intros Hh. pose proof (few_held s This bs Hh) as Hfew. pose proof Hh as (d & runs & Hd & Hnb & _ & Ha & Hr & Es & _ & _ & Ht). split.
  - cbn. lia.
  - by apply (sizes_nonempty runs).
  - done.
  - intros i b off n. exact (read_block_run s This bs i b off n Hh Hfew).
  - intros n Hn. cbn. unfold FwVolBlockReadBlock. rewrite (Mbind_Ok _ _ _ d s) by (unfold device_at; by rewrite Hd).
    rewrite (proj2 (Z.eqb_neq _ 0)) by done. rewrite (wrapU_id fvbW) by (unfold inU; lia). by rewrite Hnb, Z.leb_refl.
  - intros i b Hb. exact (block_size_run s This bs i b Hh Hb).
  - cbn. unfold FwVolBlockGetBlockSize. rewrite (Mbind_Ok _ _ _ d s) by (unfold device_at; by rewrite Hd).
    rewrite Hnb, Z.leb_refl. by eexists.
Qed.
End Device.
