(* ===== verification/FvProduce.v ===== *)
(** * FvProduce: making a block device for a volume, and reading its header

    What ProduceFVBProtocolOnBuffer does with a volume whose header is well
    formed, for every answer of the pool. Then the header of a volume:
    GetFwVolHeader returns the first bytes of the volume; the walk over the
    block map in the header finds the block and the offset of a position. *)

From stdpp Require Import base option list gmap fin_maps.
From Stdlib Require Import ZArith Lia.
From S2P Require Import Prelude BaseMath Memory MemSpec DevPath DevPathSpec FvBlock FvRead FvSpec FvBlockDevice.

Local Open Scope Z_scope.
Local Open Scope edk_scope.

(** What is in the header of a volume with the blocks [bs]. *)
Record FV_IMAGE := mkImage {
  im_attributes : Z;
  im_length : Z;
  im_ext : Z;
  im_name : list Z;
  im_runs : list (nat * nat);
  im_blocks : list (list Z)
}.

Section Produce.
Context `{Env : FVB_ENV}.
Hypothesis width : 32 <= fvbW <= 64.

Record image_at (m : mem) (Base : Z) (im : FV_IMAGE) : Prop := {
  im_signature_at : load 4 (Base + OFS_Signature) m = Ok (EFI_FVH_SIGNATURE, m);
  im_attributes_at : load 4 (Base + OFS_Attributes) m = Ok (im_attributes im, m);
  im_length_at : load 8 (Base + OFS_FvLength) m = Ok (im_length im, m);
  im_ext_at : load 2 (Base + OFS_ExtHeaderOffset) m = Ok (im_ext im, m);
  im_name_at : im_ext im <> 0 -> at_bytes m (Base + im_ext im) (im_name im) /\ length (im_name im) = 16%nat;
  im_map_at : at_bytes m (Base + OFS_BlockMap) (map_bytes (im_runs im));
  im_content_at : at_bytes m Base (content (im_blocks im));
  im_runs_ok : Forall run_ok (im_runs im);
  im_sizes : sizes (im_runs im) = length <$> im_blocks im;
  im_total : len (content (im_blocks im)) < 2 ^ fvbW
}.

Definition aligned (Base : Z) (im : FV_IMAGE) : bool :=
  (Z.land (im_attributes im) EFI_FVB2_WEAK_ALIGNMENT =? EFI_FVB2_WEAK_ALIGNMENT) ||
  (wrapU fvbW Base mod fv_alignment (im_attributes im) =? 0).

Definition image_path (Base : Z) (im : FV_IMAGE) : FV_DEVICE_PATH :=
  if im_ext im =? 0 then FvMemmap Base (wrapU 64 (Base + im_length im - 1)) else FvPiwg (im_name im).

Definition fits (im : FV_IMAGE) : Prop := len (im_blocks im) < MAX_ADDRESS fvbW / sizeof_LBA_CACHE.

(** Pool blocks are new. *)
Definition pool_fresh : Prop := forall s r p, FvbPool s r = Some p -> p <> 0 /\ p ∉ fv_pool s /\ fvb_devices s !! p = None.
Definition refused (r : REQUEST) : Prop := exists s, FvbPool s r = None.

(** The state in which the new device is installed. *)
Definition produced (s s' : FVS) (dev Base Parent Auth : Z) (im : FV_IMAGE) : Prop :=
  exists c q, fv_ram s' = fv_ram s /\ fv_pool s' = [q; c; dev] ++ fv_pool s /\
    fvb_devices s' = <[dev := mkFvb 0 (q, image_path Base im) Parent (len (im_blocks im)) c
                                (cells_of 0 (length <$> im_blocks im)) (im_attributes im) Base Auth]> (fvb_devices s) /\
    dev <> 0 /\ dev ∉ fv_pool s.

Lemma take_pool_run s r : pool_fresh ->
  (exists p, take_pool r s = Ok (p, mkFvs (fv_ram s) (fvb_devices s) (p :: fv_pool s)) /\ p <> 0 /\ p ∉ fv_pool s /\
     fvb_devices s !! p = None) \/
  (take_pool r s = Ok (0, s) /\ refused r).
Proof.
  intros F. unfold take_pool. destruct (FvbPool s r) as [p|] eqn:E; [left|right; split; [done|by exists s]].
  exists p. split; [done|]. by apply (F s r).
Qed.
Lemma free_new_device (m : mem) devs pool p d : p ∉ pool -> devs !! p = None ->
  free_pool p (mkFvs m (<[p := d]> devs) (p :: pool)) = Ok (tt, mkFvs m devs pool).
Proof.
  intros Hp Hd. unfold free_pool. cbn [fv_pool fvb_devices fv_ram]. rewrite bool_decide_true by set_solver.
  rewrite filter_cons_False by (intros H; by apply H). by rewrite filter_notin, delete_insert_id.
Qed.

Lemma im_count m Base im : image_at m Base im -> Z.of_nat (length (sizes (im_runs im))) = len (im_blocks im) /\
  len (im_blocks im) < 2 ^ fvbW.
Proof.
  intros I. rewrite (im_sizes m Base im I), length_fmap. split; [done|].
  pose proof (blocks_count _ (sizes_nonempty _ _ (im_runs_ok m Base im I) (im_sizes m Base im I))).
  pose proof (im_total m Base im I). lia.
Qed.
Lemma sum_lengths (bs : list (list Z)) : sum_list (length <$> bs) = length (content bs).
Proof.
  induction bs as [|b bs IH]; [done|]. change (content (b :: bs)) with (b ++ content bs). rewrite length_app, <- IH. done.
Qed.

Lemma path_run (s : FVS) Base im : pool_fresh -> image_at (fv_ram s) Base im ->
  (exists q, fv_device_path Base s = Ok (Some (q, image_path Base im), mkFvs (fv_ram s) (fvb_devices s) (q :: fv_pool s)) /\
     q <> 0 /\ q ∉ fv_pool s) \/
  (fv_device_path Base s = Ok (None, s) /\ refused PathRequest).
Proof.
  intros F I. unfold fv_device_path, image_path. rewrite (Mbind_Ok _ _ _ _ _ (at_ram_ok _ s _ (im_ext_at _ _ _ I))).
  destruct (take_pool_run s PathRequest F) as [(q & E & Hq & Hn & _)|[E R]]; rewrite (Mbind_Ok _ _ _ _ _ E); [left|right; by split].
  exists q. split; [|done]. rewrite (proj2 (Z.eqb_neq q 0)) by done. destruct (Z.eqb_spec (im_ext im) 0) as [Hz|Hz].
  - by rewrite (Mbind_Ok _ _ _ _ _ (at_ram_ok _ (mkFvs _ _ _) _ (im_length_at _ _ _ I))).
  - destruct (im_name_at _ _ _ I Hz) as [Hb Hl]. by rewrite (Mbind_Ok _ _ _ _ _ (get_bytes_at 16 _ (mkFvs _ _ _) _ Hb Hl)).
Qed.

(** Every outcome for a well-formed volume. *)
Theorem produce_run s Base Length Parent Auth im : pool_fresh -> image_at (fv_ram s) Base im ->
  let c := ProduceFVBProtocolOnBuffer Base Length Parent Auth s in
  (aligned Base im = false -> c = Ok ((EFI_VOLUME_CORRUPTED, None), s)) /\
  (aligned Base im = true ->
     (c = Ok ((EFI_OUT_OF_RESOURCES, None), s) /\ (refused DeviceRequest \/ refused (CacheRequest (len (im_blocks im))) \/ ~ fits im)) \/
     (exists p, c = Ok ((EFI_OUT_OF_RESOURCES, None), mkFvs (fv_ram s) (fvb_devices s) (p :: fv_pool s)) /\
        p ∉ fv_pool s /\ refused PathRequest) \/
     (exists dev s', c = install_device dev s' /\ produced s s' dev Base Parent Auth im /\ fits im)).
Proof.
  intros F I c. destruct (im_count _ _ _ I) as [Hc Hw]. subst c. unfold ProduceFVBProtocolOnBuffer.
  rewrite (Mbind_Ok _ _ _ _ _ (at_ram_ok _ s _ (im_signature_at _ _ _ I))), Z.eqb_refl. cbn [negb].
  rewrite (Mbind_Ok _ _ _ _ _ (at_ram_ok _ s _ (im_attributes_at _ _ _ I))). rewrite <- negb_orb. fold (aligned Base im).
  destruct (aligned Base im); cbn [negb]; [split; [done|intros _]|by split].
  destruct (take_pool_run s DeviceRequest F) as [(dev & E & Hdev & Hdn & Hdd)|[E R]]; rewrite (Mbind_Ok _ _ _ _ _ E);
    [|left; split; [done|by left]]. rewrite (proj2 (Z.eqb_neq dev 0)) by done.
  set (s1 := mkFvs _ _ (dev :: _)). rewrite (Mbind_Ok Mget _ s1 s1 s1 eq_refl).
  pose proof (count_blocks_run width (fv_ram s) _ (im_runs_ok _ _ _ I) (turns (fv_ram s)) _ 0 (im_map_at _ _ _ I)
    (above_turns _ _) ltac:(cbn [Nat.add]; lia)) as Ec.
  rewrite (Mbind_Ok _ _ _ _ _ (at_ram_ok _ s1 _ Ec)). cbn [Nat.add]. rewrite Hc. set (d0 := mkFvb 0 _ _ _ _ _ _ _ _).
  set (s2 := mkFvs (fv_ram s) (<[dev := d0]> (fvb_devices s)) (dev :: fv_pool s)).
  rewrite (Mbind_Ok (set_device dev d0) _ s1 tt s2 eq_refl).
  assert (free_pool dev s2 = Ok (tt, s)) as Ef by (unfold s2; rewrite free_new_device by done; by destruct s).
  destruct (Z.leb_spec (MAX_ADDRESS fvbW / sizeof_LBA_CACHE) (len (im_blocks im))) as [Hbig|Hfit].
  { rewrite (Mbind_Ok _ _ _ _ _ Ef). left. split; [done|]. right. right. unfold fits. lia. }
  destruct (take_pool_run s2 (CacheRequest (len (im_blocks im))) F) as [(c & Ea & Hcn & Hcp & _)|[Ea R]];
    rewrite (Mbind_Ok _ _ _ _ _ Ea).
  2:{ rewrite Z.eqb_refl, (Mbind_Ok _ _ _ _ _ Ef). left. split; [done|]. right. by left. }
  rewrite (proj2 (Z.eqb_neq c 0)) by done. set (s3 := mkFvs _ _ (c :: _)). cbn [s2 fv_pool] in Hcp. apply not_elem_of_cons in Hcp as [Hcd Hcp].
  pose proof (fill_cache_run width (fv_ram s) _ (im_runs_ok _ _ _ I) (turns (fv_ram s)) (len (im_blocks im)) _ 0 []
    (im_map_at _ _ _ I) (above_turns _ _) ltac:(cbn [length]; lia)
    ltac:(rewrite (im_sizes _ _ _ I), sum_lengths; exact (im_total _ _ _ I))) as El.
  rewrite (Mbind_Ok _ _ _ _ _ (at_ram_ok _ s3 _ El)). cbn [app].
  destruct (path_run s3 Base im F I) as [(q & Ep & Hq & Hqn)|[Ep R]]; rewrite (Mbind_Ok _ _ _ _ _ Ep).
  - right. right. exists dev, (mkFvs (fv_ram s) (<[dev := mkFvb 0 (q, image_path Base im) Parent (len (im_blocks im)) c
      (cells_of 0 (sizes (im_runs im))) (im_attributes im) Base Auth]> (fvb_devices s)) (q :: c :: dev :: fv_pool s)).
    split; [|split; [|done]].
    + erewrite Mbind_Ok; [reflexivity|]. unfold set_device, Mmodify. cbn. by rewrite insert_insert_eq.
    + exists c, q. cbn. by rewrite (im_sizes _ _ _ I).
  - right. left. exists c. split; [|done]. rewrite (Mbind_Ok _ _ _ tt (mkFvs (fv_ram s) (fvb_devices s) (c :: fv_pool s))); [done|].
    unfold free_pool. cbn [s3 s2 fv_pool fvb_devices fv_ram]. rewrite bool_decide_true by set_solver.
    rewrite filter_cons_True by done. rewrite filter_cons_False by (intros H; by apply H).
    by rewrite filter_notin, delete_insert_id.
Qed.

(** The device that is installed holds the volume. *)
Lemma produced_holds s s' dev Base Parent Auth im : image_at (fv_ram s) Base im ->
  Z.land (im_attributes im) EFI_FVB2_READ_STATUS <> 0 -> produced s s' dev Base Parent Auth im -> device_holds s' dev (im_blocks im).
Proof.
  intros I Ha (c & q & Er & _ & Ed & _). eexists _, (im_runs im). rewrite Ed, lookup_insert_eq, Er. split_and!; cbn; try done; apply I.
Qed.
End Produce.

(** ** Fields *)

Lemma field_bytes_take n off h : 0 <= off -> off + Z.of_nat n <= len h ->
  field_bytes n off h = Ok (take n (drop (Z.to_nat off) h)).
Proof. intros H1 H2. unfold field_bytes, slice. by rewrite decide_True by lia. Qed.
Lemma field_app n p v q off : off = len p -> length v = n -> field n off (p ++ v ++ q) = Ok (le_combine v).
Proof.
  intros -> <-. unfold field. rewrite field_bytes_take by (rewrite ?length_app; lia). rewrite Nat2Z.id, drop_app_length.
  by rewrite take_app_length.
Qed.

(** ** The walk over the block map *)

Lemma skip_blocks_run l left : forall I L e, 0 < l -> 0 <= e < 2 ^ 32 ->
  exists k : nat, (k <= left)%nat /\ skip_blocks left l I L e = (I + Z.of_nat k, L + Z.of_nat k, e - Z.of_nat k * l) /\
    Z.of_nat k * l <= e /\ ((k < left)%nat -> e - Z.of_nat k * l < l).
Proof.
  induction left as [|left IH]; intros I L e Hl He; cbn [skip_blocks].
  { exists 0%nat. split_and!; try lia. by rewrite Z.mul_0_l, !Z.add_0_r, Z.sub_0_r. }
  destruct (Z.leb_spec l e) as [Hle|Hlt].
  - rewrite wrapU_id by (unfold inU; lia). destruct (IH (I + 1) (L + 1) (e - l)) as (k & H1 & -> & H2 & H3); [done|lia|].
    exists (S k). split_and!; try lia. f_equal; [f_equal|]; lia.
  - exists 0%nat. split_and!; try lia. by rewrite Z.mul_0_l, !Z.add_0_r, Z.sub_0_r.
Qed.

(** Where the position [e] is among blocks of these sizes. *)
Definition located (szs : list nat) (e : Z) (lba : nat) (off : Z) : Prop :=
  (e < Z.of_nat (sum_list szs) -> Z.of_nat (sum_list (take lba szs)) + off = e /\
     exists sz, szs !! lba = Some sz /\ 0 <= off < Z.of_nat sz) /\
  (Z.of_nat (sum_list szs) <= e -> lba = length szs /\ off = 0).

Lemma located_later r runs e lba off : 0 <= e -> located (sizes runs) e lba off ->
  located (sizes (r :: runs)) (Z.of_nat (r.1 * r.2) + e) (r.1 + lba) off.
Proof.
  intros He [H1 H2]. split; rewrite sum_sizes_cons.
  - intros Hlt. destruct H1 as (E & sz & Hs & Ho); [lia|]. rewrite sizes_cons, take_app_ge by (rewrite length_replicate; lia).
    rewrite length_replicate, sum_list_with_app. change (sum_list_with id) with sum_list. rewrite sum_replicate.
    replace (r.1 + lba - r.1)%nat with lba by lia. split; [lia|]. exists sz. split; [|done].
    rewrite lookup_app_r by (rewrite length_replicate; lia). rewrite length_replicate. by replace (r.1 + lba - r.1)%nat with lba by lia.
  - intros Hge. destruct H2 as [-> ->]; [lia|]. by rewrite length_sizes_cons.
Qed.
Lemma located_here r runs (k : nat) off : (k < r.1)%nat -> 0 <= off < Z.of_nat r.2 ->
  located (sizes (r :: runs)) (Z.of_nat (k * r.2) + off) k off.
Proof.
  intros Hk Ho. split; [|rewrite sum_sizes_cons; nia]. intros _.
  rewrite sizes_cons, take_app_le by (rewrite length_replicate; lia). rewrite take_replicate, Nat.min_l by lia.
  rewrite sum_replicate. split; [done|]. exists r.2. split; [|done].
  rewrite lookup_app_l by (rewrite length_replicate; lia). by apply lookup_replicate.
Qed.

Lemma ext_header_lba_run runs : Forall run_ok runs -> forall turns p q bm L e,
  bm = len p -> (length runs < turns)%nat -> 0 <= e < 2 ^ 32 ->
  exists (lba : nat) off, ext_header_lba turns (p ++ map_bytes runs ++ q) bm L e = Ok (L + Z.of_nat lba, off) /\ located (sizes runs) e lba off.
Proof.
  induction 1 as [|r runs Hr _ IH]; intros turns p q bm L e -> Ht He; destruct turns as [|turns]; try lia; cbn [ext_header_lba].
  - exists 0%nat, 0. change (map_bytes []) with (replicate 4 0 ++ replicate 4 0). rewrite <- app_assoc.
    rewrite (field_app 4 p (replicate 4 0) _ _ eq_refl eq_refl). cbn [obind].
    rewrite app_assoc, (field_app 4 (p ++ replicate 4 0) (replicate 4 0) q) by (rewrite ?length_app; cbn [length replicate]; lia).
    change (le_combine (replicate 4 0)) with 0. cbn [obind Z.eqb andb]. rewrite Z.add_0_r. split; [done|]. split; [intros H; cbn in H; lia|by intros _].
  - rewrite map_bytes_cons. unfold entry_bytes at 1 2. destruct Hr as (P1 & P2 & P3 & P4).
    rewrite <- !app_assoc. rewrite (field_app 4 p (le_split 4 (Z.of_nat r.1)) _ _ eq_refl (le_split_length _ _)). cbn [obind].
    rewrite (app_assoc p), (field_app 4 (p ++ le_split 4 (Z.of_nat r.1)) (le_split 4 (Z.of_nat r.2)))
      by (rewrite ?length_app, ?le_split_length; lia). cbn [obind].
    rewrite !le_combine_split by (change (256 ^ Z.of_nat 4) with (2 ^ 32); lia).
    rewrite (proj2 (Z.eqb_neq _ 0)) by lia. cbn [andb]. rewrite Nat2Z.id.
    destruct (skip_blocks_run (Z.of_nat r.2) r.1 0 L e) as (k & Hk & -> & Hle & Hlt); [lia|done|]. rewrite Z.add_0_l.
    destruct (Z.ltb_spec (Z.of_nat k) (Z.of_nat r.1)) as [Hin|Hall].
    + exists k, (e - Z.of_nat k * Z.of_nat r.2). split; [done|].
      pose proof (located_here r runs k (e - Z.of_nat k * Z.of_nat r.2) ltac:(lia) ltac:(lia)) as HL.
      by replace (Z.of_nat (k * r.2) + (e - Z.of_nat k * Z.of_nat r.2)) with e in HL by lia.
    + assert (k = r.1) as -> by lia.
      destruct (IH turns (p ++ entry_bytes r) q (len p + 8) (L + Z.of_nat r.1) (e - Z.of_nat r.1 * Z.of_nat r.2))
        as (lba & off & E & HL); [rewrite length_app; change (length (entry_bytes r)) with 8%nat; lia|cbn [length] in Ht; lia|lia|].
      rewrite <- app_assoc in E. rewrite E. exists (r.1 + lba)%nat, off.
      split; [do 2 f_equal; lia|]. apply (located_later r) in HL; [|lia].
      by replace (Z.of_nat (r.1 * r.2) + (e - Z.of_nat r.1 * Z.of_nat r.2)) with e in HL by lia.
Qed.

(** ** GetFwVolHeader *)

Definition hdr_signature (c : list Z) : Z := le_combine (take 4 (drop 40 c)).
Definition hdr_guid (c : list Z) : list Z := take 16 (drop 16 c).
Definition hdr_length (c : list Z) : Z := le_combine (take 2 (drop 48 c)).
(** The header is one of a file system that the DXE core knows. *)
Definition known_volume (c : list Z) : bool :=
  (hdr_signature c =? EFI_FVH_SIGNATURE) &&
  (bool_decide (hdr_guid c = gEfiFirmwareFileSystem2Guid) || bool_decide (hdr_guid c = gEfiFirmwareFileSystem3Guid)).

Section Header.
Context {St : Type} `{!FVB St} (s : St) (Fvb : Z) (bs : list (list Z)) (V : volume s Fvb bs).

Lemma read_at i b off n : sizes_grow bs -> bs !! i = Some b -> 0 <= off <= len b -> 0 <= n ->
  len (content bs) + n < 2 ^ fvW -> position bs (Z.of_nat i) off + n <= len (content bs) ->
  exists lba' off', at_position bs lba' off' (position bs (Z.of_nat i) off + n) /\
    ReadFvbData Fvb (Z.of_nat i) off n s =
      Ok ((EFI_SUCCESS, (lba', off', take (Z.to_nat n) (drop (Z.to_nat (position bs (Z.of_nat i) off)) (content bs)))), s).
Proof.
  intros G Hb Ho Hn Hw Hp. apply (ReadFvbData_run s Fvb bs V i b off n G Hb Ho Hn); [|done]. unfold position in Hp. lia.
Qed.

Lemma field_take64 n off c : (64 <= length c)%nat -> 0 <= off -> off + Z.of_nat n <= 64 ->
  field_bytes n off (take 64 c) = Ok (take n (drop (Z.to_nat off) c)).
Proof.
  intros Hl H1 H2. rewrite field_bytes_take by (rewrite ?length_take; lia). f_equal.
  rewrite take_drop_commute, take_take, take_drop_commute. do 2 f_equal. lia.
Qed.

Theorem GetFwVolHeader_run pool : sizes_grow bs -> (64 < length (content bs))%nat -> bytes_ok (content bs) ->
  len (content bs) + 2 ^ 16 < 2 ^ fvW ->
  let c := content bs in let r := GetFwVolHeader pool Fvb s in
  (known_volume c = false -> r = Ok ((EFI_INVALID_PARAMETER, None), s)) /\
  (known_volume c = true -> pool (hdr_length c) = false -> r = Ok ((EFI_OUT_OF_RESOURCES, None), s)) /\
  (known_volume c = true -> pool (hdr_length c) = true ->
     (hdr_length c < sizeof_FV_HEADER -> r = Fault) /\
     (sizeof_FV_HEADER <= hdr_length c <= len c -> r = Ok ((EFI_SUCCESS, Some (take (Z.to_nat (hdr_length c)) c)), s)) /\
     (sizeof_FV_HEADER <= hdr_length c -> len c < hdr_length c ->
        exists st, r = Ok ((st, None), s) /\ EFI_ERROR st = true)).
Proof.
  intros G H65 Hok Hw c r. subst r. assert (64 <= length (content bs))%nat as H64 by lia. destruct (lookup_lt_is_Some_2 bs 0) as [b Hb].
  { destruct bs; [cbn in H64; lia|cbn; lia]. }
  assert (position bs (Z.of_nat 0) 0 = 0) as Hp0 by (unfold position; by rewrite take_0).
  destruct (read_at 0 b 0 sizeof_FV_HEADER G Hb) as (lba & off & Pos & E);
    [lia|by unfold sizeof_FV_HEADER|unfold sizeof_FV_HEADER; lia|rewrite Hp0; unfold sizeof_FV_HEADER; lia|].
  rewrite Hp0 in E, Pos. change (Z.of_nat 0) with 0 in E. cbn [Z.to_nat] in E. rewrite drop_0 in E. rewrite Z.add_0_l in Pos.
  assert (GetFwVolHeader pool Fvb s =
    (if negb (known_volume c) then Mret (EFI_INVALID_PARAMETER, None)
     else if negb (pool (hdr_length c)) then Mret (EFI_OUT_OF_RESOURCES, None)
     else if hdr_length c <? sizeof_FV_HEADER then Mfail Fault
     else
       let! r := ReadFvbData Fvb lba off (hdr_length c - sizeof_FV_HEADER) in
       let '(Status, (_, _, rest)) := r in
       Mret (Status, if EFI_ERROR Status then None else Some (take 64 c ++ rest))) s) as ->.
  { unfold GetFwVolHeader. rewrite (Mbind_Ok _ _ _ _ _ E). cbn beta iota. cbn [EFI_ERROR].
    change (Z.to_nat sizeof_FV_HEADER) with 64%nat. fold c in H64 |- *. unfold known_volume.
    rewrite (Mbind_Ok _ _ _ (hdr_signature c) s)
      by (unfold lift, field; by rewrite (field_take64 4 OFS_Signature c H64) by (unfold OFS_Signature; lia)).
    destruct (hdr_signature c =? EFI_FVH_SIGNATURE); cbn [negb andb]; [|done].
    rewrite (Mbind_Ok _ _ _ (hdr_guid c) s)
      by (unfold lift; by rewrite (field_take64 16 OFS_FileSystemGuid c H64) by (unfold OFS_FileSystemGuid; lia)).
    rewrite <- negb_orb. destruct (bool_decide _ || bool_decide _); cbn [negb]; [|done].
    by rewrite (Mbind_Ok _ _ _ (hdr_length c) s)
      by (unfold lift, field; by rewrite (field_take64 2 OFS_HeaderLength c H64) by (unfold OFS_HeaderLength; lia)). }
  destruct (known_volume c); cbn [negb]; [|by split_and!]. split; [done|]. split; [by intros _ ->|]. intros _ ->. cbn [negb].
  assert (0 <= hdr_length c < 2 ^ 16) as Hhl.
  { assert (64 < length c)%nat by done. unfold hdr_length. pose proof (le_combine_bound (take 2 (drop 48 c)) (Forall_take _ _ _ (Forall_drop _ _ _ Hok))) as B.
    rewrite length_take, length_drop, Nat.min_l in B by lia. exact B. }
  destruct (Z.ltb_spec (hdr_length c) sizeof_FV_HEADER) as [Hshort|Hlong]; [split_and!; [done|lia|lia]|].
  split; [lia|]. pose proof Pos as (Ep & Hl & Ho & Hblk). destruct (lookup_lt_is_Some_2 bs (Z.to_nat lba)) as [b' Hb'].
  { enough (lba <> len bs) by lia. intros ->. unfold position in Ep. rewrite Nat2Z.id, firstn_all in Ep.
    unfold sizeof_FV_HEADER in Ep. lia. }
  specialize (Hblk b' Hb'). set (i := Z.to_nat lba) in *. assert (lba = Z.of_nat i) as Ei by (unfold i; lia). rewrite Ei in Ep |- *. set (n := hdr_length c - sizeof_FV_HEADER).
  assert (0 <= off + n < 2 ^ fvW) as Hon.
  { pose proof (block_bound s Fvb bs V i b' Hb'). unfold position in Ep. rewrite Nat2Z.id in Ep. unfold n, sizeof_FV_HEADER in *. fold c in H65. lia. }
  destruct (ReadFvbData_run s Fvb bs V i b' off n G Hb' ltac:(lia) ltac:(unfold n; lia) ltac:(lia)) as [R1 R2].
  rewrite Ep in R1, R2. fold c in R1, R2. split.
  - intros [_ Hle]. destruct R1 as (lba2 & off2 & _ & E2); [unfold n; lia|]. rewrite (Mbind_Ok _ _ _ _ _ E2). cbn [EFI_ERROR].
    unfold Mret. do 4 f_equal. change (Z.to_nat sizeof_FV_HEADER) with 64%nat. rewrite take_take_drop. f_equal.
    unfold n, sizeof_FV_HEADER in *. lia.
  - intros _ Hgt. destruct R2 as (st & [[x y] z] & E2 & Hst); [unfold n; lia|]. rewrite (Mbind_Ok _ _ _ _ _ E2), Hst.
    by exists st.
Qed.
End Header.
