(* ===== verification/FvTheorems.v ===== *)
(** * FvTheorems: firmware volumes as block devices

    What is read from a volume through its block protocol, what
    ProduceFVBProtocolOnBuffer makes of a volume in memory, and how the header
    and the name of a volume are found. *)

From stdpp Require Import base option list gmap fin_maps.
From Stdlib Require Import ZArith Lia.
From S2P Require Import Prelude BaseMath Memory MemSpec DevPath FvBlock FvRead FvSpec FvBlockDevice FvProduce.

Local Open Scope Z_scope.
Local Open Scope edk_scope.

(** ** A volume for the examples *)

Definition bench_name : list Z := replicate 16 7.
(** Runs of blocks, padded to [total] bytes; the name is at 96. *)
Definition bench_bytes (runs : list (nat * nat)) (total : nat) : list Z :=
  let hdr := replicate 16 0 ++ gEfiFirmwareFileSystem2Guid ++ le_split 8 (Z.of_nat total) ++ le_split 4 EFI_FVH_SIGNATURE ++
             le_split 4 0x30004 ++ le_split 2 80 ++ le_split 2 0 ++ le_split 2 96 ++ [0; 2] ++ map_bytes runs in
  take total (hdr ++ replicate (96 - length hdr) 0 ++ bench_name ++ replicate total 1).
(** The bytes cut into blocks. *)
Fixpoint cut (szs : list nat) (l : list Z) : list (list Z) :=
  match szs with
  | [] => []
  | z :: szs' => take z l :: cut szs' (drop z l)
  end.
Definition bench_image (runs : list (nat * nat)) : FV_IMAGE :=
  let total := sum_list (sizes runs) in
  mkImage 0x30004 (Z.of_nat total) 96 bench_name runs (cut (sizes runs) (bench_bytes runs total)).
Definition bench_pool (s : FVS) (_ : REQUEST) : option Z :=
  Some (1 + foldr Z.max 0 (fv_pool s ++ (map_to_list (fvb_devices s)).*1)).
Definition bench_fvb (pool : FVS -> REQUEST -> option Z) : FVB_ENV :=
  mkFvbEnv 64 pool (fun _ => Mret (EFI_SUCCESS, 5)) (fun _ => Mret (EFI_SUCCESS, 9)) [] [].
Definition bench_fv_state (runs : list (nat * nat)) : FVS :=
  mkFvs (blit 4096 (bench_bytes runs (sum_list (sizes runs))) ∅) ∅ [].
Definition bench_runs : list (nat * nat) := [(2, 32); (1, 64)]%nat.

Lemma bench_pool_fresh : @pool_fresh (bench_fvb bench_pool).
Proof.
  intros s r p [= <-]. set (l := _ ++ _). assert (forall x, x ∈ l -> x < 1 + foldr Z.max 0 l) as H.
  { clear. induction 1; cbn; lia. }
  assert (0 <= foldr Z.max 0 l) by (clear; induction l; cbn; lia). split; [lia|]. split.
  - intros Hx. enough (1 + foldr Z.max 0 l < 1 + foldr Z.max 0 l) by lia. apply H, elem_of_app. by left.
  - destruct (fvb_devices s !! _) as [d|] eqn:E; [|done]. exfalso. apply elem_of_map_to_list in E.
    enough (1 + foldr Z.max 0 l < 1 + foldr Z.max 0 l) by lia. apply H, elem_of_app. right. apply list_elem_of_fmap. by eexists (_, d).
Qed.
Lemma at_bytes_part m a l off n v : at_bytes m a l -> take n (drop off l) = v -> at_bytes m (a + Z.of_nat off) v.
Proof.
  intros H <-. destruct (le_lt_dec off (length l)); [|rewrite drop_ge, take_nil by lia; apply at_bytes_nil].
  rewrite <- (take_drop off l), <- (take_drop n (drop off l)) in H. apply at_bytes_app in H as [_ H].
  rewrite length_take, Nat.min_l in H by done. by apply at_bytes_app in H as [H _].
Qed.
Lemma bench_image_at : @image_at (bench_fvb bench_pool) (fv_ram (bench_fv_state bench_runs)) 4096 (bench_image bench_runs).
Proof.
  pose proof (at_bytes_blit ∅ 4096 (bench_bytes bench_runs (sum_list (sizes bench_runs)))) as H.
  change (blit _ _ _) with (fv_ram (bench_fv_state bench_runs)) in H. generalize dependent (fv_ram (bench_fv_state bench_runs)).
  intros m H. split.
  - exact (load_at 4 _ _ _ (at_bytes_part _ _ _ 40 4 (le_split 4 EFI_FVH_SIGNATURE) H eq_refl) eq_refl).
  - exact (load_at 4 _ _ _ (at_bytes_part _ _ _ 44 4 (le_split 4 0x30004) H eq_refl) eq_refl).
  - exact (load_at 8 _ _ _ (at_bytes_part _ _ _ 32 8 (le_split 8 128) H eq_refl) eq_refl).
  - exact (load_at 2 _ _ _ (at_bytes_part _ _ _ 52 2 (le_split 2 96) H eq_refl) eq_refl).
  - intros _. split; [|done]. exact (at_bytes_part _ _ _ 96 16 bench_name H eq_refl).
  - exact (at_bytes_part _ _ _ 56 24 (map_bytes bench_runs) H eq_refl).
  - exact H.
  - repeat constructor; cbn; lia.
  - by vm_compute.
  - by vm_compute.
Qed.

(** ** Claims *)

(** C27 ReadFvbData, through the block protocol of a device that
    holds the blocks of a volume, delivers the bytes of the volume from the
    given block and offset on, also across blocks and across runs of blocks of
    different sizes, and moves the block and the offset behind them; it
    returns an error when the volume ends before.  The sizes of the blocks
    must not decrease along the volume. *)
Theorem Fvb_read `{Env : FVB_ENV} (s : FVS) (This : Z) (bs : list (list Z)) (i : nat) b off n :
  32 <= fvbW <= 64 -> device_holds s This bs -> sizes_grow bs -> bs !! i = Some b -> 0 <= off <= len b -> 0 <= n ->
  off + n < 2 ^ fvbW ->
  let p := position bs (Z.of_nat i) off in
  (p + n <= len (content bs) -> exists lba' off', at_position bs lba' off' (p + n) /\
     ReadFvbData This (Z.of_nat i) off n s =
       Ok ((EFI_SUCCESS, (lba', off', take (Z.to_nat n) (drop (Z.to_nat p) (content bs)))), s)) /\
  (len (content bs) < p + n -> exists st r, ReadFvbData This (Z.of_nat i) off n s = Ok ((st, r), s) /\ EFI_ERROR st = true).
Proof. intros W H. exact (ReadFvbData_run s This bs (device_volume W s This bs H) i b off n). Qed.

(** C28 ProduceFVBProtocolOnBuffer rejects a buffer without the
    signature or, unless the volume is weakly aligned, at an address that is
    not aligned as the volume asks.  It allocates a device, its cache of
    blocks and its device path, and installs a device that holds the blocks of
    the volume, each with its place and size, and so serves reads as the block
    protocol promises.  When the pool is exhausted it returns
    EFI_OUT_OF_RESOURCES and has freed what it had allocated, except that the
    cache stays allocated if it is the device path that cannot be. *)
Theorem Fvb_produce `{Env : FVB_ENV} (s : FVS) Base Length Parent Auth im :
  32 <= fvbW <= 64 -> pool_fresh ->
  (forall v, load 4 (Base + OFS_Signature) (fv_ram s) = Ok (v, fv_ram s) -> v <> EFI_FVH_SIGNATURE ->
     ProduceFVBProtocolOnBuffer Base Length Parent Auth s = Ok ((EFI_VOLUME_CORRUPTED, None), s)) /\
  (image_at (fv_ram s) Base im ->
   let c := ProduceFVBProtocolOnBuffer Base Length Parent Auth s in
   (aligned Base im = false -> c = Ok ((EFI_VOLUME_CORRUPTED, None), s)) /\
   (aligned Base im = true ->
     (c = Ok ((EFI_OUT_OF_RESOURCES, None), s) /\ (refused DeviceRequest \/ refused (CacheRequest (len (im_blocks im))) \/ ~ fits im)) \/
     (exists p, c = Ok ((EFI_OUT_OF_RESOURCES, None), mkFvs (fv_ram s) (fvb_devices s) (p :: fv_pool s)) /\
        p ∉ fv_pool s /\ refused PathRequest) \/
     (exists dev s', c = install_device dev s' /\ produced s s' dev Base Parent Auth im /\
        (Z.land (im_attributes im) EFI_FVB2_READ_STATUS <> 0 -> volume s' dev (im_blocks im))))).
Proof.
  intros W F. split.
  - intros v E Hv. unfold ProduceFVBProtocolOnBuffer. rewrite (Mbind_Ok _ _ _ _ _ (at_ram_ok _ s _ E)).
    by rewrite (proj2 (Z.eqb_neq _ _)).
  - intros I. destruct (produce_run W s Base Length Parent Auth im F I) as [P1 P2]. split; [exact P1|]. intros Ha.
    destruct (P2 Ha) as [P|[P|(dev & s' & E & P & _)]]; [by left|right; by left|]. right. right. exists dev, s'. split_and!; try done.
    intros Hr. by apply device_volume, (produced_holds s s' dev Base Parent Auth im).
Qed.

(** C29 GetFwVolHeader, for a device that holds a volume,
    returns the first HeaderLength bytes of the volume; it returns
    EFI_INVALID_PARAMETER for a volume without the signature or with a file
    system it does not know, EFI_OUT_OF_RESOURCES without memory, and the
    error of the read when the volume is shorter than its header.  A
    HeaderLength below the size of the fixed part makes it write behind the
    buffer. *)
Theorem Fv_header `{Env : FVB_ENV} (s : FVS) (This : Z) (bs : list (list Z)) (pool : Z -> bool) :
  32 <= fvbW <= 64 -> device_holds s This bs -> sizes_grow bs -> (64 < length (content bs))%nat -> bytes_ok (content bs) ->
  len (content bs) + 2 ^ 16 < 2 ^ fvbW ->
  let c := content bs in let r := GetFwVolHeader pool This s in
  (known_volume c = false -> r = Ok ((EFI_INVALID_PARAMETER, None), s)) /\
  (known_volume c = true -> pool (hdr_length c) = false -> r = Ok ((EFI_OUT_OF_RESOURCES, None), s)) /\
  (known_volume c = true -> pool (hdr_length c) = true ->
     (hdr_length c < sizeof_FV_HEADER -> r = Fault) /\
     (sizeof_FV_HEADER <= hdr_length c <= len c -> r = Ok ((EFI_SUCCESS, Some (take (Z.to_nat (hdr_length c)) c)), s)) /\
     (sizeof_FV_HEADER <= hdr_length c -> len c < hdr_length c ->
        exists st, r = Ok ((st, None), s) /\ EFI_ERROR st = true)).
Proof. intros W H. exact (GetFwVolHeader_run s This bs (device_volume W s This bs H) pool). Qed.

(** The walk over the block map that FvIsBeingProcessed makes
    in the header of a volume ends, and finds the block and the offset in it
    of the extension header; the read from there delivers the name of the
    volume, the 16 bytes at ExtHeaderOffset.  For an offset behind the end of
    the volume it stops behind the last block. *)
Theorem Fv_name `{Env : FVB_ENV} (s : FVS) (This : Z) (bs : list (list Z)) runs p q e :
  32 <= fvbW <= 64 -> device_holds s This bs -> sizes_grow bs -> len (content bs) + 16 < 2 ^ fvbW ->
  Forall run_ok runs -> sizes runs = length <$> bs -> len p = OFS_BlockMap -> 0 <= e < 2 ^ 16 ->
  let h := p ++ map_bytes runs ++ q in
  (e + 16 <= len (content bs) -> exists lba off r, ext_header_lba (length h) h OFS_BlockMap 0 e = Ok (lba, off) /\
     position bs lba off = e /\ ReadFvbData This lba off 16 s = Ok ((EFI_SUCCESS, (r, take 16 (drop (Z.to_nat e) (content bs)))), s)) /\
  (len (content bs) <= e -> ext_header_lba (length h) h OFS_BlockMap 0 e = Ok (len bs, 0)).
Proof.
  intros W H G Hw Hr Es Hp He h. assert (forall k, sum_list (take k (sizes runs)) = length (content (take k bs))) as Hsum.
  { intros k. by rewrite Es, <- fmap_take, sum_lengths. }
  assert (sum_list (sizes runs) = length (content bs)) as Htot by (by rewrite Es, sum_lengths).
  destruct (ext_header_lba_run runs Hr (length h) p q OFS_BlockMap 0 e) as (lba & off & E & L1 & L2); [done| |lia|].
  { unfold h, map_bytes. rewrite !length_app. cbn [length replicate]. enough (length runs <= length (mjoin (entry_bytes <$> runs)))%nat by lia.
    clear. induction runs as [|r runs IH]; [done|].
    change (mjoin (entry_bytes <$> r :: runs)) with (entry_bytes r ++ mjoin (entry_bytes <$> runs)). rewrite length_app.
    change (length (entry_bytes r)) with 8%nat. cbn [length]. lia. }
  fold h in E. rewrite Z.add_0_l in E. rewrite Htot in L1, L2. split.
  - intros Hle. destruct L1 as (Ee & sz & Hsz & Ho); [lia|]. rewrite Es in Hsz. apply list_lookup_fmap_Some in Hsz as (b & -> & Hb).
    rewrite Hsum in Ee. assert (position bs (Z.of_nat lba) off = e) as Hpos by (unfold position; by rewrite Nat2Z.id).
    destruct (read_at s This bs (device_volume W s This bs H) lba b off 16 G Hb) as (lba' & off' & _ & R);
      [lia|lia|exact Hw|rewrite Hpos; lia|]. rewrite Hpos in R. exists (Z.of_nat lba), off, (lba', off'). by split_and!.
  - intros Hge. destruct L2 as [-> ->]; [lia|]. by rewrite E, Es, length_fmap.
Qed.

(** ** Witnesses *)

Definition device_state (runs : list (nat * nat)) : FVS :=
  let im := bench_image runs in
  mkFvs (fv_ram (bench_fv_state runs))
    {[1 := mkFvb 0 (3, image_path 4096 im) 0 (len (im_blocks im)) 2 (cells_of 0 (length <$> im_blocks im)) (im_attributes im) 4096 0]}
    [3; 2; 1].
Lemma bench_device : device_holds (Env := bench_fvb bench_pool) (device_state bench_runs) 1 (im_blocks (bench_image bench_runs)).
Proof.
  apply (produced_holds (Env := bench_fvb bench_pool) (bench_fv_state bench_runs) (device_state bench_runs) 1 4096 0 0 (bench_image bench_runs));
    [exact bench_image_at|done|]. exists 2, 3. split_and!; try done. by intros ?%elem_of_nil.
Qed.
Lemma bench_sizes_grow : sizes_grow (im_blocks (bench_image bench_runs)).
Proof. intros [|[|i]] b b' H H'; vm_compute in H, H'; [..|done]; simplify_eq; cbn; lia. Qed.

(** A read of 60 bytes from the 24th byte of the first block, over three
    blocks. *)
Lemma Fvb_read_witness : exists lba' off', ReadFvbData (FVB0 := FwVolBlockInstance (Env := bench_fvb bench_pool)) 1 0 24 60
    (device_state bench_runs) =
  Ok ((EFI_SUCCESS, (lba', off', take 60 (drop 24 (bench_bytes bench_runs 128)))), device_state bench_runs) /\ lba' = 2 /\ off' = 20.
Proof.
  destruct (Fvb_read (Env := bench_fvb bench_pool) (device_state bench_runs) 1 (im_blocks (bench_image bench_runs)) 0
    (take 32 (bench_bytes bench_runs 128)) 24 60) as [R _];
    [cbn; lia|exact bench_device|exact bench_sizes_grow|reflexivity|vm_compute; split; discriminate|lia|vm_compute; reflexivity|].
  destruct R as (lba' & off' & _ & E); [vm_compute; discriminate|]. exists lba', off'. split; [exact E|].
  vm_compute in E. by simplify_eq.
Defined.

Lemma Fvb_produce_witness : exists dev s', ProduceFVBProtocolOnBuffer (Env := bench_fvb bench_pool) 4096 128 0 0 (bench_fv_state bench_runs) =
  install_device (Env := bench_fvb bench_pool) dev s' /\
  volume (FVB0 := FwVolBlockInstance (Env := bench_fvb bench_pool)) s' dev (im_blocks (bench_image bench_runs)).
Proof.
  assert (forall r, ~ refused (Env := bench_fvb bench_pool) r) as NR by (intros r [s H]; done).
  destruct (Fvb_produce (Env := bench_fvb bench_pool) (bench_fv_state bench_runs) 4096 128 0 0 (bench_image bench_runs))
    as [_ H]; [cbn; lia|exact bench_pool_fresh|].
  destruct (H bench_image_at) as [_ P].
  destruct (P eq_refl) as [[_ [R|[R|R]]]|[(p & _ & _ & R)|(dev & s' & E & _ & V)]];
    [by destruct (NR _ R)|by destruct (NR _ R)|by destruct R|by destruct (NR _ R)|]. exists dev, s'. split; [exact E|]. by apply V.
Defined.

Lemma Fv_header_witness : GetFwVolHeader (FVB0 := FwVolBlockInstance (Env := bench_fvb bench_pool)) (fun _ => true) 1 (device_state bench_runs) =
  Ok ((EFI_SUCCESS, Some (take 80 (bench_bytes bench_runs 128))), device_state bench_runs).
Proof.
  destruct (Fv_header (Env := bench_fvb bench_pool) (device_state bench_runs) 1 (im_blocks (bench_image bench_runs)) (fun _ => true))
    as (_ & _ & H); [cbn; lia|exact bench_device|exact bench_sizes_grow|vm_compute; lia|by_decide|vm_compute; reflexivity|].
  destruct (H eq_refl eq_refl) as (_ & R & _). apply R. vm_compute. split; discriminate.
Defined.

Lemma Fv_name_witness : exists lba off r, let h := take 80 (bench_bytes bench_runs 128) in
  ext_header_lba (length h) h OFS_BlockMap 0 96 = Ok (lba, off) /\
  ReadFvbData (FVB0 := FwVolBlockInstance (Env := bench_fvb bench_pool)) 1 lba off 16 (device_state bench_runs) =
    Ok ((EFI_SUCCESS, (r, bench_name)), device_state bench_runs).
Proof.
  destruct (Fv_name (Env := bench_fvb bench_pool) (device_state bench_runs) 1 (im_blocks (bench_image bench_runs)) bench_runs
    (take 56 (bench_bytes bench_runs 128)) [] 96) as [H _];
    [cbn; lia|exact bench_device|exact bench_sizes_grow|vm_compute; reflexivity|repeat constructor; cbn; lia|reflexivity|reflexivity|lia|].
  destruct H as (lba & off & r & E & _ & R); [vm_compute; discriminate|]. exists lba, off, r. split; [exact E|exact R].
Defined.

(** ** Corners *)

(** Blocks of 96, 32 and then 8 bytes: 50 bytes from the 90th byte on, which
    the volume has, cannot be read.  After the run with the block of 32 bytes
    the last 12 bytes are asked for in one read, from a block of 8. *)
Definition shrinking : list (nat * nat) := [(1, 96); (1, 32); (4, 8)]%nat.
Example short_blocks :
  match ReadFvbData (FVB0 := FwVolBlockInstance (Env := bench_fvb bench_pool)) 1 0 90 50 (device_state shrinking) with
  | Ok ((st, _), _) => st = EFI_BAD_BUFFER_SIZE
  | _ => False
  end /\ (90 + 50 <= length (bench_bytes shrinking (sum_list (sizes shrinking))))%nat.
Proof. vm_compute. split; [done|lia]. Qed.

(** The pool has no memory for the device path: the cache, block 2, is not
    freed. *)
Definition pathless : FVB_ENV := bench_fvb (fun s r => match r with PathRequest => None | _ => bench_pool s r end).
Example cache_leaks : match ProduceFVBProtocolOnBuffer (Env := pathless) 4096 128 0 0 (bench_fv_state bench_runs) with
  | Ok ((st, _), s) => st = EFI_OUT_OF_RESOURCES /\ fv_pool s = [2]
  | _ => False
  end.
Proof. by vm_compute. Qed.
