(* ===== verification/DispatchFv.v ===== *)
(** * DispatchFv: drivers in a new firmware volume

    The part of MdeModulePkg/Core/Dxe/Dispatcher/Dispatcher.c that runs when a
    firmware volume protocol is installed: the files of the volume are added
    to the list of discovered drivers, and the drivers of its a priori file to
    the scheduled queue.

    [FV_ENV] has what the notification calls: CoreLocateHandle for the
    registration, CoreHandleProtocol for three protocols, the pool for the
    header (an address) and for a KNOWN_HANDLE, the HOBs of volumes that were
    extracted already (FileName and FvName), Fv->GetNextFile with the key, the
    type and the name that it returns, and DuplicateDevicePath for the path of
    a file.  The block protocol is [FvRead.FVB]. *)

From stdpp Require Import base option list gmap fin_maps.
From Stdlib Require Import ZArith Lia.
From S2P Require Import Prelude BaseMath Depex Dispatch FvBlock FvRead.

Local Open Scope Z_scope.
Local Open Scope edk_scope.

Definition EFI_FV_FILETYPE_DXE_CORE : Z := 0x05.
Definition EFI_FV_FILETYPE_DRIVER : Z := 0x07.
Definition EFI_FV_FILETYPE_COMBINED_PEIM_DRIVER : Z := 0x08.
Definition EFI_FV_FILETYPE_COMBINED_SMM_DXE : Z := 0x0C.
Definition EFI_SECTION_RAW : Z := 0x19.
Definition EFI_SECTION_SMM_DEPEX : Z := 0x1C.

Definition mDxeFileTypes : list Z :=
  [EFI_FV_FILETYPE_DRIVER; EFI_FV_FILETYPE_COMBINED_SMM_DXE; EFI_FV_FILETYPE_COMBINED_PEIM_DRIVER;
   EFI_FV_FILETYPE_DXE_CORE; EFI_FV_FILETYPE_FIRMWARE_VOLUME_IMAGE].

(** gAprioriGuid, FC510EE7-FFDC-11D4-BD41-0080C73C8881 *)
Definition gAprioriGuid : GUID :=
  [0xe7; 0x0e; 0x51; 0xfc; 0xdc; 0xff; 0xd4; 0x11; 0xbd; 0x41; 0x00; 0x80; 0xc7; 0x3c; 0x88; 0x81].

Class FV_ENV (World : Type) := mkFvEnv {
  LocateFv : M (DISP World) (EFI_STATUS * Z);
  HandleFvb : Z -> M (DISP World) (EFI_STATUS * Z);
  HandleFv : Z -> M (DISP World) (EFI_STATUS * Z);
  HandlePath : Z -> M (DISP World) EFI_STATUS;
  HeaderPool : Z -> option Z;
  KnownPool : bool;
  HobFv2 : list (GUID * GUID);
  gDxeCoreFileName : GUID;
  GetNextFile : Z -> Z -> Z -> M World (EFI_STATUS * (Z * Z * GUID));
  DuplicateFvPath : GUID -> M World Z
}.

Section Discovery.
Context {World : Type} `{Env : !DISP_ENV World} `{FvbW : !FVB World} `{FvE : !FV_ENV World}.

Abbreviation D := (M (DISP World)).

Definition FvHasBeenProcessed (FvHandle : Z) : D bool :=
  let! s := Mget in Mret (existsb (fun k => KnownFv k =? FvHandle) (mFvHandleList s)).

(** The name of the volume on which the block protocol [Fvb] is, if it has
    one that can be read. *)
Definition fv_name (Fvb : Z) : M World (option GUID) :=
  let! r := GetFwVolHeader (fun n => bool_decide (is_Some (HeaderPool n))) Fvb in
  match r with
  | (EFI_SUCCESS, Some h) =>
      let! sum_ok := lift (VerifyFvHeaderChecksum (default 0 (HeaderPool (Z.of_nat (length h)))) h) in
      let! ExtHeaderOffset := lift (field 2 OFS_ExtHeaderOffset h) in
      if sum_ok && negb (ExtHeaderOffset =? 0) then
        let! at_ := lift (ext_header_lba (length h) h OFS_BlockMap 0 ExtHeaderOffset) in
        let! q := ReadFvbData Fvb at_.1 at_.2 (Z.of_nat sizeof_GUID) in
        let '(Status, (_, FvNameGuid)) := q in
        Mret (if EFI_ERROR Status then None else Some FvNameGuid)
      else Mret None
  | _ => Mret None
  end.

(** The new KNOWN_HANDLE, or [None] for NULL. *)
Definition FvIsBeingProcessed (FvHandle : Z) : D (option KNOWN_HANDLE) :=
  let! r := HandleFvb FvHandle in
  let! name := (if EFI_ERROR r.1 then Mret None else DASSERT (negb (r.2 =? 0)) ;;; on_world (fv_name r.2)) in
  let! s := Mget in
  let seen := match name with
              | Some g => existsb (fun k => bool_decide (g = FvNameGuid k)) (mFvHandleList s)
              | None => false
              end in
  if seen then Mret None
  else
    DASSERT KnownPool ;;;
    let KnownHandle := mkKnown FvHandle (default (replicate sizeof_GUID 0) name) in
    Mmodify (fun s => upd_mFvHandleList (mFvHandleList s ++ [KnownHandle]) s) ;;;
    Mret (Some KnownHandle).

Definition FvFoundInHobFv2 (FvNameGuid DriverName : GUID) : bool :=
  existsb (fun h => bool_decide (DriverName = h.1) && bool_decide (FvNameGuid = h.2)) HobFv2.

(** ** The files *)

Definition found_fv_image (Fv_ FvHandle_ : Z) (Known : KNOWN_HANDLE) (Type_ : Z) (NameGuid : GUID) : D unit :=
  if FvFoundInHobFv2 (FvNameGuid Known) NameGuid then Mret tt
  else
    let! r := on_world (ReadSection Fv_ NameGuid EFI_SECTION_SMM_DEPEX) in
    DASSERT (EFI_ERROR r.1 || NDEBUG) ;;;
    let! r := on_world (ReadSection Fv_ NameGuid EFI_SECTION_DXE_DEPEX) in
    if EFI_ERROR r.1 then CoreProcessFvImageFile Fv_ FvHandle_ NameGuid ;;; Mret tt
    else CoreAddToDriverList Fv_ FvHandle_ NameGuid Type_ ;;; Mret tt.

Definition found_dxe_core (FvHandle_ : Z) (NameGuid : GUID) : D unit :=
  let! s := Mget in
  if ((gDxeCoreLoadedImage s).1 =? 0) && bool_decide (NameGuid = gDxeCoreFileName) then
    let! p := on_world (DuplicateFvPath NameGuid) in
    Mmodify (upd_gDxeCoreLoadedImage (p, FvHandle_))
  else Mret tt.

Definition found_file (Fv_ FvHandle_ : Z) (Known : KNOWN_HANDLE) (Type_ : Z) (NameGuid : GUID) : D unit :=
  if Type_ =? EFI_FV_FILETYPE_DXE_CORE then found_dxe_core FvHandle_ NameGuid
  else if Type_ =? EFI_FV_FILETYPE_FIRMWARE_VOLUME_IMAGE then found_fv_image Fv_ FvHandle_ Known Type_ NameGuid
  else CoreAddToDriverList Fv_ FvHandle_ NameGuid Type_ ;;; Mret tt.

(** [do ... while (!EFI_ERROR (GetNextFileStatus))] *)
Fixpoint files_loop (turns : nat) (Fv_ FvHandle_ : Z) (Known : KNOWN_HANDLE) (Type_ Key : Z) : D unit :=
  match turns with
  | O => Mfail OutOfFuel
  | S turns' =>
      let! r := on_world (GetNextFile Fv_ Key Type_) in
      let '(GetNextFileStatus, (Key', Type', NameGuid)) := r in
      if EFI_ERROR GetNextFileStatus then Mret tt
      else
        found_file Fv_ FvHandle_ Known Type' NameGuid ;;;
        files_loop turns' Fv_ FvHandle_ Known Type_ Key'
  end.
Fixpoint types_loop (Fv_ FvHandle_ : Z) (Known : KNOWN_HANDLE) (types : list Z) : D unit :=
  match types with
  | [] => Mret tt
  | t :: types' => files_loop fuel Fv_ FvHandle_ Known t 0 ;;; types_loop Fv_ FvHandle_ Known types'
  end.

(** ** The a priori file *)

(** The whole GUIDs in a buffer: SizeOfBuffer / sizeof (EFI_GUID) of them. *)
Fixpoint guids_of (n : nat) (l : list Z) : list GUID :=
  match n with
  | O => []
  | S n' => take sizeof_GUID l :: guids_of n' (drop sizeof_GUID l)
  end.

Fixpoint schedule_apriori (FvHandle_ : Z) (AprioriFile : list GUID) : D unit :=
  match AprioriFile with
  | [] => Mret tt
  | g :: AprioriFile' =>
      let! s := Mget in
      let! r := find_driver (fun e => bool_decide (FileName e = g) && (FvHandle_ =? FvHandle e)) (mDiscoveredList s) in
      (match r with
       | Some d =>
           CoreAcquireDispatcherLock ;;;
           on_entry d (set_Dependent false) ;;;
           on_entry d (set_Scheduled true) ;;;
           enqueue d ;;;
           CoreReleaseDispatcherLock
       | None => Mret tt
       end) ;;;
      schedule_apriori FvHandle_ AprioriFile'
  end.

(** ** The notification *)

Definition discover_volume (Fv_ FvHandle_ : Z) (Known : KNOWN_HANDLE) : D unit :=
  types_loop Fv_ FvHandle_ Known mDxeFileTypes ;;;
  let! r := on_world (ReadSection Fv_ gAprioriGuid EFI_SECTION_RAW) in
  let '(Status, AprioriFile) := r in
  schedule_apriori FvHandle_ (if EFI_ERROR Status then [] else guids_of (length AprioriFile / sizeof_GUID) AprioriFile).

(** One volume: the body of [while (TRUE)]. *)
Definition notify_volume (FvHandle_ : Z) : D unit :=
  let! seen := FvHasBeenProcessed FvHandle_ in
  if seen then Mret tt
  else
    let! k := FvIsBeingProcessed FvHandle_ in
    match k with
    | None => Mret tt
    | Some Known =>
        let! r := HandleFv FvHandle_ in
        if EFI_ERROR r.1 || (r.2 =? 0) then DASSERT NDEBUG
        else
          let! st := HandlePath FvHandle_ in
          if EFI_ERROR st then Mret tt else discover_volume r.2 FvHandle_ Known
    end.

Fixpoint notify_loop (turns : nat) : D unit :=
  match turns with
  | O => Mfail OutOfFuel
  | S turns' =>
      let! r := LocateFv in
      if EFI_ERROR r.1 then Mret tt else notify_volume r.2 ;;; notify_loop turns'
  end.
Definition CoreFwVolEventProtocolNotify : D unit := notify_loop fuel.
End Discovery.
