(* ===== verification/DispatchDiscover.v ===== *)
(** * DispatchDiscover: discovery keeps what the dispatcher relies on

    The notification for a new volume runs at TPL_CALLBACK, where no other
    discovery runs: the code it calls leaves the list of discovered drivers and
    the list of known volumes alone ([FV_LAWS]).  Then the drivers of the
    volume are added one by one, and those of the a priori file are scheduled;
    the drivers that were known before are not touched. *)

From stdpp Require Import base option list gmap fin_maps.
From Stdlib Require Import ZArith Lia.
From S2P Require Import Prelude Depex Dispatch DispatchInv DispatchInsert DispatchLoop DispatchScan.
From S2P Require Import DispatchServices FvRead DispatchFv.

Local Open Scope Z_scope.
Local Open Scope edk_scope.

Definition same_lists {World} (s s' : DISP World) : Prop :=
  mDiscoveredList s' = mDiscoveredList s /\ mFvHandleList s' = mFvHandleList s.

Class FV_LAWS {World : Type} `{Env : !DISP_ENV World} `{FvbW : !FVB World} `{FvE : !FV_ENV World} (tot : bool) (N : nat) : Prop := {
  restore_quiet s : post RestoreTpl (fun _ => same_lists s) s;
  process_quiet f h g s : post (CoreProcessFvImageFile f h g) (fun _ => same_lists s) s;
  fvb_law h s : wf N s -> mDispatcherLock s = false ->
    wp tot (HandleFvb h) (fun r s' => outside N s s' /\ same_lists s s' /\ (EFI_ERROR r.1 = false -> r.2 <> 0)) s;
  fv_law h s : wf N s -> mDispatcherLock s = false ->
    wp tot (HandleFv h) (fun r s' => outside N s s' /\ same_lists s s' /\ (EFI_ERROR r.1 = false /\ r.2 <> 0 \/ NDEBUG = true)) s;
  fvpath_law h s : wf N s -> mDispatcherLock s = false ->
    wp tot (HandlePath h) (fun _ s' => outside N s s' /\ same_lists s s') s;
  name_law fvb w : exists g w', fv_name fvb w = Ok (g, w');
  known_law : KnownPool = true;
  smm_law f g w : exists st l w', ReadSection f g EFI_SECTION_SMM_DEPEX w = Ok ((st, l), w') /\ EFI_ERROR st || NDEBUG = true;
  dup_law g w : exists p w', DuplicateFvPath g w = Ok (p, w')
}.

Section Discover.
Context {World : Type} `{Env : !DISP_ENV World} `{FvbW : !FVB World} `{FvE : !FV_ENV World} (tot : bool) (N : nat).
Context `{Laws : !DISP_LAWS tot N} `{FvL : !FV_LAWS tot N}.
Implicit Types s : DISP World.

(** ** The lists *)

Lemma same_lists_refl s : same_lists s s.
Proof. done. Qed.
Lemma same_lists_trans s1 s2 s3 : same_lists s1 s2 -> same_lists s2 s3 -> same_lists s1 s3.
Proof. intros [H1 H2] [H3 H4]. split; congruence. Qed.

Definition keeps {A} (c : M (DISP World) A) : Prop := forall s, post c (fun _ => same_lists s) s.
Lemma keeps_bind {A B} (c : M (DISP World) A) (k : A -> M (DISP World) B) : keeps c -> (forall a, keeps (k a)) -> keeps (Mbind c k).
Proof.
  intros H1 H2 s. apply post_bind. specialize (H1 s). unfold post in *. destruct (c s) as [[a s1]| | |]; try done.
  specialize (H2 a s1). unfold post in H2. destruct (k a s1) as [[b s2]| | |]; try done. by eapply same_lists_trans.
Qed.
Lemma keeps_ret {A} (a : A) : keeps (Mret a).
Proof. done. Qed.
Lemma keeps_modify f : (forall s, same_lists s (f s)) -> keeps (Mmodify f).
Proof. intros H s. apply H. Qed.
Lemma keeps_world {A} (c : M World A) : keeps (on_world c).
Proof. intros s. unfold post, on_world. by destruct (c (world s)) as [[a w]| | |]. Qed.
Lemma keeps_entry_at d : keeps (entry_at (World := World) d).
Proof. intros s. unfold post, entry_at. by destruct (drivers s !! d). Qed.
Lemma keeps_on_entry d f : keeps (on_entry (World := World) d f).
Proof. apply keeps_bind; [apply keeps_entry_at|]. intros e. by apply keeps_modify. Qed.
Lemma keeps_preprocess d : keeps (preprocess (World := World) d).
Proof.
  intros s. unfold post, preprocess. destruct (drivers s !! d) as [e|]; [|done].
  by destruct (CorePreProcessDepex (Expr e)) as [[? ?]| | |].
Qed.
Lemma keeps_section d : keeps (CoreGetDepexSectionAndPreProccess d).
Proof.
  apply keeps_bind; [apply keeps_entry_at|]. intros e. apply keeps_bind; [apply keeps_world|]. intros [st l].
  destruct (EFI_ERROR st).
  - apply keeps_bind; [|intros _; apply keeps_ret]. case_bool_decide; [apply keeps_on_entry|].
    repeat (apply keeps_bind; [apply keeps_on_entry|]; intros _). apply keeps_on_entry.
  - apply keeps_bind; [apply keeps_on_entry|]. intros _. apply keeps_bind; [apply keeps_preprocess|]. intros _.
    apply keeps_bind; [apply keeps_on_entry|]. intros _. apply keeps_ret.
Qed.
Lemma keeps_assert b : keeps (DASSERT (World := World) b).
Proof. by destruct b. Qed.
Lemma keeps_lock : keeps (CoreAcquireDispatcherLock (World := World)).
Proof. apply keeps_bind; [done|]. intros s. apply keeps_bind; [apply keeps_assert|]. intros _. by apply keeps_modify. Qed.
Lemma keeps_unlock : keeps CoreReleaseDispatcherLock.
Proof.
  apply keeps_bind; [done|]. intros s. apply keeps_bind; [apply keeps_assert|]. intros _.
  apply keeps_bind; [by apply keeps_modify|]. intros _ s'. apply (restore_quiet (FV_LAWS := FvL)).
Qed.

(** One driver is added to the list, and no volume. *)
Lemma add_lists f h g ty s : post (CoreAddToDriverList f h g ty)
  (fun _ s' => length (mDiscoveredList s') = S (length (mDiscoveredList s)) /\ mFvHandleList s' = mFvHandleList s) s.
Proof.
  unfold CoreAddToDriverList. apply post_bind. unfold post at 1, Mget. destruct (EntryPool s) as [d|]; [|done].
  assert (forall A (c : M (DISP World) A) B (k : A -> M (DISP World) B) Q s1, keeps c ->
    (forall a s2, same_lists s1 s2 -> post (k a) Q s2) -> post (Mbind c k) Q s1) as Step.
  { intros A c B k Q s1 Hc Hk. apply post_bind. specialize (Hc s1). unfold post in Hc |- * at 1.
    destruct (c s1) as [[a s2]| | |]; try done. by apply Hk. }
  apply Step; [apply keeps_world|]. intros p s1 H1. apply Step; [by apply keeps_modify|]. intros _ s2 H2.
  apply Step; [apply keeps_section|]. intros _ s3 H3. apply Step; [apply keeps_lock|]. intros _ s4 H4.
  apply post_bind. unfold post at 1, Mmodify. apply Step; [apply keeps_unlock|]. intros _ s5 [H5 H6].
  destruct H1 as [A1 B1], H2 as [A2 B2], H3 as [A3 B3], H4 as [A4 B4]. unfold post, Mret. rewrite H5, H6. cbn.
  rewrite length_app, A4, A3, A2, A1. cbn. split; [lia|congruence].
Qed.

(** ** One volume *)

Section Volume.
Context (s0 : DISP World) (f h : Z) (Known : KNOWN_HANDLE) (files : Z -> list GUID) (at_key : Z -> Z -> list GUID -> Prop) (G : list GUID).

(** The names of all files in the order of discovery. *)
Definition names : list GUID := mjoin (files <$> mDxeFileTypes).
(** The files that are drivers. *)
Definition plain_type (t : Z) : Prop := t <> EFI_FV_FILETYPE_DXE_CORE /\ t <> EFI_FV_FILETYPE_FIRMWARE_VOLUME_IMAGE.
Definition driver_file (g : GUID) : Prop := exists t, t ∈ mDxeFileTypes /\ plain_type t /\ g ∈ files t.
(** There is an entry for the file that was not there before. *)
Definition present (g : GUID) s : Prop := exists d e, drivers s !! d = Some e /\ drivers s0 !! d = None /\ FileName e = g.

(** GetNextFile enumerates the files of a type, [at_key t k l] says that [l]
    are the ones after the key [k]; the names are new, there is room for the
    files; the a priori file names each driver once, and those drivers need no
    request. *)
Record volume_ok : Prop := {
  vo_start t : at_key t 0 (files t);
  vo_next t k l w : at_key t k l ->
    match l with
    | [] => exists st r w', GetNextFile f k t w = Ok ((st, r), w') /\ EFI_ERROR st = true
    | g :: l' => exists k' w', GetNextFile f k t w = Ok ((EFI_SUCCESS, (k', t, g)), w') /\ at_key t k' l'
    end;
  vo_fuel t : (length (files t) < fuel)%nat;
  vo_names : NoDup names;
  vo_new d e : drivers s0 !! d = Some e -> FvHandle e <> h /\ FileName e ∉ names;
  vo_room : (length (mDiscoveredList s0) + length names <= N)%nat;
  vo_pool s : is_Some (EntryPool s);
  vo_apriori : NoDup G;
  vo_plain g : g ∈ G -> plain_section f g;
  vo_raw w : exists st l w', ReadSection f gAprioriGuid EFI_SECTION_RAW w = Ok ((st, l), w') /\
    (if EFI_ERROR st then [] else guids_of (length l / sizeof_GUID) l) = G
}.
Hypothesis VO : volume_ok.

(** The driver is not scheduled, nor was it. *)
Definition idle (e : EFI_CORE_DRIVER_ENTRY) : Prop :=
  exists p, in_phase e p /\ (p = Unread \/ p = OnRequest \/ p = Waiting).

(** After the files [done]: the new drivers are among them, and none of them
    is scheduled. *)
Definition discovering (done : list GUID) s : Prop :=
  outside N s0 s /\ mFvHandleList s = mFvHandleList s0 /\
  (length (mDiscoveredList s) <= length (mDiscoveredList s0) + length done)%nat /\
  (forall d e, drivers s !! d = Some e -> drivers s0 !! d = None ->
    FvHandle e = h /\ FileName e ∈ done /\ (FileName e ∈ G -> in_phase e Waiting) /\ idle e) /\
  (forall g, g ∈ done -> driver_file g -> present g s).

Lemma present_grows Rel g s s' : grows Rel s s' -> present g s -> present g s'.
Proof.
  intros Gr (d & e & He & Hn & Hg). destruct (grows_entry _ _ _ _ _ Gr He) as (e' & He' & (_ & S2 & _)).
  exists d, e'. split_and!; congruence.
Qed.

Lemma waits s s' d e e' : grows asked s s' -> drivers s !! d = Some e -> drivers s' !! d = Some e' ->
  same_file e e' /\ (in_phase e Waiting -> in_phase e' Waiting) /\ (idle e -> idle e').
Proof.
  intros (_ & _ & _ & H) He He'. destruct (H d e He) as (e1 & He1 & Sm & Hp). simplify_eq. split_and!; [done| |].
  - intros Hw. destruct (Hp Waiting Hw) as (p' & Hp' & [->|[[? ->]|[? ->]]]); done.
  - intros (p & Hi & Hid). destruct (Hp p Hi) as (p' & Hp' & Ha). exists p'. split; [done|].
    destruct Ha as [->|[[-> ->]|[-> ->]]]; naive_solver.
Qed.
Lemma known_before s s' d e' : wf N s -> wf N s' -> d ∈ mDiscoveredList s -> drivers s' !! d = Some e' -> exists e, drivers s !! d = Some e.
Proof. intros W W' Hd _. by apply (wf_entries N s W). Qed.

Lemma discovering_step done s s' : discovering done s -> outside N s s' -> same_lists s s' -> discovering done s'.
Proof.
  intros (O & E & L & H & Hpr) O' [E1 E2]. split_and!; [by eapply outside_trans|congruence|by rewrite E1| |].
  2:{ intros g Hg Hdf. destruct O' as (Gr & _). by apply (present_grows _ g s s' Gr), Hpr. }
  intros d e' He' Hn. destruct O as (_ & W & _), O' as (Gr & W' & _).
  destruct (known_before s s' d e' W W') as [e He]; [|done|].
  { rewrite <- E1. apply (wf_entries N s' W'). by exists e'. }
  destruct (waits s s' d e e' Gr He He') as [(S1 & S2 & _) [Hw Hi]]. destruct (H d e He Hn) as (H1 & H2 & H3 & H4).
  rewrite S1, S2. split_and!; [done|done|auto|auto].
Qed.
Lemma discovering_more done g s : ~ driver_file g -> discovering done s -> discovering (done ++ [g]) s.
Proof.
  intros Hnd (O & E & L & H & Hpr). split_and!; [done|done|rewrite length_app; lia| |].
  - intros d e He Hn. destruct (H d e He Hn) as (? & ? & ? & ?). split_and!; [done|set_solver|done|done].
  - intros x [Hx|Hx%list_elem_of_singleton]%elem_of_app Hd; [by apply Hpr|by subst].
Qed.
(** Changes that the dispatcher does not see. *)
Lemma unseen_outside s s' : same_state s s' -> gDispatcherRunning s' = gDispatcherRunning s -> mDispatcherLock s' = false ->
  wf N s -> outside N s s'.
Proof.
  intros Es Er L W. split; [|split; [by apply (same_wf N s)|done]]. destruct Es as (E1 & E2 & E3).
  split; [exists []; by rewrite app_nil_r|]. split; [exists []; by rewrite app_nil_r|]. split; [done|].
  intros d e He. exists e. rewrite E1. split_and!; try done. intros p Hp. by exists p.
Qed.
Lemma discovering_world done s w : discovering done s -> discovering done (upd_world w s).
Proof.
  intros J. pose proof J as ((_ & W & L) & _). apply (discovering_step done s); [done| |done]. by apply unseen_outside.
Qed.

Lemma discovering_fresh done rest g s : names = done ++ g :: rest -> discovering done s ->
  (length (mDiscoveredList s) < N)%nat /\ forall x ex, drivers s !! x = Some ex -> FileName ex <> g.
Proof.
  intros En ((Gr & W & _) & _ & L & H & _). pose proof (vo_room VO). rewrite En, length_app in *. cbn [length] in *. split; [lia|].
  intros x ex Hx <-. destruct (drivers s0 !! x) as [e0|] eqn:E0.
  - destruct (grows_entry _ _ _ _ _ Gr E0) as (e1 & He1 & (_ & S2 & _)). simplify_eq. destruct (vo_new VO x e0 E0) as [_ Hnn].
    apply Hnn. rewrite <- S2, En. set_solver.
  - destruct (H x ex Hx E0) as (_ & Hin & _). pose proof (vo_names VO) as ND. rewrite En in ND. apply NoDup_app in ND as (_ & ND & _).
    apply (ND _ Hin). by left.
Qed.

Lemma add_step done rest g ty s : names = done ++ g :: rest -> discovering done s ->
  wp tot (CoreAddToDriverList f h g ty) (fun _ s' => discovering (done ++ [g]) s') s.
Proof.
  intros En J. pose proof J as (O & Ek & L & H & Hpr). pose proof O as (G0 & W & Lk).
  destruct (discovering_fresh done rest g s En J) as [Hroom Hfresh]. destruct (vo_pool VO s) as [d0 Hpool].
  eapply wp_mono; [exact (wp_post _ _ _ _ _ (add_ok tot N s f h g ty d0 W Lk Hpool Hroom Hfresh) (add_lists f h g ty s))|].
  cbn beta. intros r s' [(O' & _ & d & e & p & Hd & Hd' & Hp & Hid & Hh & Hg & Hpl) [El Ek']].
  pose proof O' as (Gr & W' & _). split_and!; [by eapply outside_trans|congruence|rewrite length_app; cbn; lia| |].
  2:{ intros x [Hx|Hx%list_elem_of_singleton]%elem_of_app Hdf; [by apply (present_grows _ x s s' Gr), Hpr|].
      subst x. exists d, e. split_and!; [done| |done]. destruct (drivers s0 !! d) as [e0|] eqn:E0; [|done].
      destruct (grows_entry _ _ _ _ _ G0 E0) as (? & ? & _). congruence. }
  assert (mDiscoveredList s' = mDiscoveredList s ++ [d]) as Elist.
  { destruct Gr as ([k Ekk] & _). rewrite Ekk in El |- *. rewrite length_app in El. destruct k as [|x [|y k]]; cbn in El; try lia.
    assert (d ∈ mDiscoveredList s ++ [x]) as Hin by (rewrite <- Ekk; apply (wf_entries N s' W'); by exists e).
    apply elem_of_app in Hin as [Hin|Hin%list_elem_of_singleton]; [|by subst].
    apply (wf_entries N s W) in Hin as [? Hin]. congruence. }
  intros x ex Hx Hn. destruct (decide (x = d)) as [->|Hne].
  - simplify_eq. split_and!; [done|set_solver| |by exists p]. intros Hg. by rewrite (Hpl (vo_plain VO _ Hg)) in Hp.
  - destruct (known_before s s' x ex W W') as [e1 He1]; [|done|].
    { assert (x ∈ mDiscoveredList s') as Hin by (apply (wf_entries N s' W'); by exists ex). rewrite Elist in Hin. set_solver. }
    destruct (waits s s' x e1 ex Gr He1 Hx) as [(S1 & S2 & _) [Hw Hi]]. destruct (H x e1 He1 Hn) as (H1 & H2 & H3 & H4).
    rewrite S1, S2. split_and!; [done|set_solver|auto|auto].
Qed.

Lemma found_file_ok done rest g t s : names = done ++ g :: rest -> (plain_type t \/ ~ driver_file g) -> discovering done s ->
  wp tot (found_file f h Known t g) (fun _ s' => discovering (done ++ [g]) s') s.
Proof.
  intros En Ht J. unfold found_file. destruct (Z.eqb_spec t EFI_FV_FILETYPE_DXE_CORE) as [Hc|];
    [|destruct (Z.eqb_spec t EFI_FV_FILETYPE_FIRMWARE_VOLUME_IMAGE) as [Hf|]].
  - assert (~ driver_file g) as Hnd by (destruct Ht as [[Ht _]|]; done). unfold found_dxe_core. apply wp_get. destruct (_ && _); [|by apply wp_ret, discovering_more].
    destruct (dup_law (FV_LAWS := FvL) g (world s)) as (p & w' & E). eapply wp_step; [unfold on_world; by rewrite E|].
    pose proof (discovering_world _ _ w' (discovering_more _ g _ Hnd J)) as J'. pose proof J' as ((_ & W & L) & _).
    unfold wp, Mmodify. apply (discovering_step _ (upd_world w' s)); [done| |done]. by apply unseen_outside.
  - assert (~ driver_file g) as Hnd by (destruct Ht as [[_ Ht]|]; done). unfold found_fv_image. destruct (FvFoundInHobFv2 _ _); [by apply wp_ret, discovering_more|].
    destruct (smm_law (FV_LAWS := FvL) f g (world s)) as (st & l & w1 & E1 & Hs). eapply wp_step; [unfold on_world; by rewrite E1|].
    cbn [fst]. rewrite Hs. apply wp_step with (a := tt) (s' := upd_world w1 s); [done|].
    destruct (section_law (tot := tot) (N := N) f g w1) as (st2 & l2 & w2 & E2 & _). eapply wp_step; [unfold on_world; cbn [world upd_world]; by rewrite E2|].
    assert (discovering done (upd_world w2 (upd_world w1 s))) as J' by (by apply discovering_world, discovering_world).
    cbn [fst]. destruct (EFI_ERROR st2).
    + pose proof J' as ((_ & W & L) & _). eapply wp_seq; [exact (wp_post _ _ _ _ _ (process_law (N := N) f h g _ W L)
        (process_quiet (FV_LAWS := FvL) f h g _))|]. cbn beta. intros r s' [O Q]. apply wp_ret.
      by apply discovering_more, (discovering_step _ _ _ J').
    + eapply wp_seq; [by apply (add_step done rest)|]. cbn beta. intros r s' J2. by apply wp_ret.
  - eapply wp_seq; [by apply (add_step done rest)|]. cbn beta. intros r s' J2. by apply wp_ret.
Qed.

Lemma files_loop_ok t l : forall turns k done rest s, (plain_type t \/ forall g, g ∈ l -> ~ driver_file g) -> at_key t k l -> (length l < turns)%nat -> names = done ++ l ++ rest -> discovering done s ->
  wp tot (files_loop turns f h Known t k) (fun _ s' => discovering (done ++ l) s') s.
Proof.
  induction l as [|g l IH]; intros turns k done rest s Hdf Hk Ht En J; destruct turns as [|turns]; try (cbn in Ht; lia); cbn [files_loop];
    pose proof (vo_next VO t k _ (world s) Hk) as Hn; cbn in Hn.
  - destruct Hn as (st & [[k' t'] g'] & w' & E & He). eapply wp_step; [unfold on_world; by rewrite E|]. cbn beta iota. rewrite He.
    apply wp_ret. rewrite app_nil_r. by apply discovering_world.
  - destruct Hn as (k' & w' & E & Hk'). eapply wp_step; [unfold on_world; by rewrite E|]. cbn beta iota. cbn [EFI_ERROR].
    eapply wp_seq; [apply (found_file_ok done (l ++ rest)); [done| |by apply discovering_world]|].
    { destruct Hdf as [?|Hdf]; [by left|right; apply Hdf; by left]. }
    cbn beta. intros [] s' J'.
    replace (done ++ g :: l) with ((done ++ [g]) ++ l) by (by rewrite <- app_assoc). apply (IH turns k' _ rest); try done; [|cbn in Ht; lia|].
    + destruct Hdf as [?|Hdf]; [by left|right]. intros x Hx. apply Hdf. by right.
    + by rewrite <- app_assoc.
Qed.
(** A file of another type is not a driver too. *)
Lemma other_type t g : t ∈ mDxeFileTypes -> ~ plain_type t -> g ∈ files t -> ~ driver_file g.
Proof.
  intros Ht Hnp Hg (t' & Ht' & Hp' & Hg'). pose proof (vo_names VO) as ND. unfold names in ND.
  assert (t <> t') as Hne by (intros ->; done).
  apply list_elem_of_lookup in Ht as [i Hi], Ht' as [j Hj].
  assert (i <> j) as Hij by (intros ->; congruence).
  assert (forall i j t t', (i < j)%nat -> mDxeFileTypes !! i = Some t -> mDxeFileTypes !! j = Some t' -> g ∈ files t -> g ∈ files t' -> False) as Main.
  { clear - ND. intros i j t t' Hlt Hi Hj Hg Hg'. rewrite <- (take_drop_middle mDxeFileTypes i t Hi) in ND.
    rewrite fmap_app, join_app in ND. apply NoDup_app in ND as (_ & _ & ND). cbn [fmap list_fmap] in ND.
    change (NoDup (files t ++ mjoin (files <$> drop (S i) mDxeFileTypes))) in ND. apply NoDup_app in ND as (_ & ND & _).
    apply (ND g Hg). apply list_elem_of_join. exists (files t'). split; [done|]. apply list_elem_of_fmap. exists t'. split; [done|].
    apply list_elem_of_lookup. exists (j - S i)%nat. rewrite lookup_drop. by replace (S i + (j - S i))%nat with j by lia. }
  destruct (decide (i < j)%nat); [by apply (Main i j t t')|apply (Main j i t' t); [lia|done..]].
Qed.

Lemma types_loop_ok types : forall done s, types ⊆ mDxeFileTypes -> names = done ++ mjoin (files <$> types) -> discovering done s ->
  wp tot (types_loop f h Known types) (fun _ s' => discovering (done ++ mjoin (files <$> types)) s') s.
Proof.
  induction types as [|t types IH]; intros done s Hsub En J; cbn [types_loop].
  { apply wp_ret. by rewrite app_nil_r. }
  change (mjoin (files <$> t :: types)) with (files t ++ mjoin (files <$> types)) in *.
  eapply wp_seq; [apply (files_loop_ok t (files t) _ 0 done (mjoin (files <$> types))); try done; [|apply VO|apply VO]|].
  { destruct (decide (t = EFI_FV_FILETYPE_DXE_CORE \/ t = EFI_FV_FILETYPE_FIRMWARE_VOLUME_IMAGE)) as [Hd|Hd].
    - right. intros g Hg. apply (other_type t); [set_solver|unfold plain_type; tauto|done].
    - left. unfold plain_type. tauto. }
  cbn beta. intros [] s' J'. rewrite app_assoc. apply IH; [set_solver|by rewrite <- app_assoc|done].
Qed.

(** ** The a priori file *)

Definition ahead {A} (l : list A) (x y : A) : Prop := exists l1 l2 l3, l = l1 ++ x :: l2 ++ y :: l3.
Lemma ahead_snoc {A} (l : list A) g x y : ahead (l ++ [g]) x y -> ahead l x y \/ (y = g /\ x ∈ l).
Proof.
  intros (l1 & l2 & l3 & E). destruct l3 as [|z l3 _] using rev_ind.
  - right. assert (l ++ [g] = (l1 ++ x :: l2) ++ [y]) as E' by (rewrite E, <- app_assoc; done).
    apply app_inj_tail in E' as [-> ->]. split; [done|set_solver].
  - left. assert (l ++ [g] = (l1 ++ x :: l2 ++ y :: l3) ++ [z]) as E'.
    { rewrite E. rewrite <- !app_assoc. cbn. by rewrite <- app_assoc. }
    apply app_inj_tail in E' as [-> _]. by exists l1, l2, l3.
Qed.

(** The drivers named by [done] are scheduled, in this order, and no others;
    those named by [rest] still wait. *)
Definition scheduling (done rest : list GUID) s : Prop :=
  outside N s0 s /\ mFvHandleList s = mFvHandleList s0 /\
  (forall d e, drivers s !! d = Some e -> drivers s0 !! d = None -> FvHandle e = h /\ FileName e ∈ names /\
     (FileName e ∈ rest -> in_phase e Waiting) /\ (FileName e ∈ done -> in_phase e Queued) /\
     (FileName e ∉ done -> idle e)) /\
  (forall d1 d2 e1 e2, drivers s !! d1 = Some e1 -> drivers s !! d2 = Some e2 -> drivers s0 !! d1 = None -> drivers s0 !! d2 = None ->
     ahead done (FileName e1) (FileName e2) -> precedes (mScheduledQueue s) d1 d2) /\
  (forall g, driver_file g -> present g s).

Lemma stays s s' d e' p : outside N s s' -> wf N s -> same_lists s s' -> drivers s' !! d = Some e' -> (p = Waiting \/ p = Queued) ->
  exists e, drivers s !! d = Some e /\ same_file e e' /\ (in_phase e p -> in_phase e' p) /\ (idle e -> idle e').
Proof.
  intros (Gr & W' & _) W [E _] He' Hp. destruct (known_before s s' d e' W W') as [e He]; [|done|].
  { rewrite <- E. apply (wf_entries N s' W'). by exists e'. }
  exists e. split; [done|]. destruct (waits s s' d e e' Gr He He') as (_ & _ & Hid).
  destruct Gr as (_ & _ & _ & H). destruct (H d e He) as (e1 & He1 & Sm & Hph). simplify_eq. split; [done|]. split; [|done].
  intros Hi. destruct (Hph p Hi) as (p' & Hp' & [->|[[? ->]|[? ->]]]); [done|naive_solver..].
Qed.
Lemma scheduling_step done rest s s' : scheduling done rest s -> outside N s s' -> same_lists s s' -> scheduling done rest s'.
Proof.
  intros (O & E & H & Ho & Hpr) O' Q. pose proof O as (_ & W & _). split_and!; [by eapply outside_trans|destruct Q; congruence| | |].
  3:{ intros g Hdf. destruct O' as (Gr & _). by apply (present_grows _ g s s' Gr), Hpr. }
  - intros d e' He' Hn. destruct (stays s s' d e' Waiting O' W Q He') as (e & He & (S1 & S2 & _) & Hw & Hi); [by left|].
    destruct (stays s s' d e' Queued O' W Q He') as (e1 & He1 & _ & Hq & _); [by right|]. simplify_eq.
    destruct (H d e He Hn) as (H1 & H2 & H3 & H4 & H5). rewrite S1, S2. split_and!; auto.
  - intros d1 d2 e1' e2' H1 H2 N1 N2 Ha.
    destruct (stays s s' d1 e1' Waiting O' W Q H1) as (e1 & He1 & (_ & S1 & _) & _); [by left|].
    destruct (stays s s' d2 e2' Waiting O' W Q H2) as (e2 & He2 & (_ & S2 & _) & _); [by left|]. rewrite S1, S2 in Ha.
    destruct O' as ((_ & [l ->] & _) & _). by apply precedes_app, (Ho d1 d2 e1 e2).
Qed.

Lemma unlock_quiet s s1 : mDispatcherLock s = true -> wf N s1 -> s1 = upd_mDispatcherLock false s ->
  wp tot CoreReleaseDispatcherLock (fun _ s' => outside N s1 s' /\ same_lists s1 s') s.
Proof.
  intros Hl W ->. unfold CoreReleaseDispatcherLock. apply wp_get. rewrite Hl. cbn [DASSERT]. apply wp_modify.
  exact (wp_post _ _ _ _ _ (restore_law (N := N) _ W eq_refl) (restore_quiet (FV_LAWS := FvL) _)).
Qed.

(** A new driver is put on the queue. *)
Lemma outside_new s s' d e' : outside N s0 s -> drivers s0 !! d = None -> drivers s' = <[d := e']> (drivers s) ->
  mDiscoveredList s' = mDiscoveredList s -> mScheduledQueue s' = mScheduledQueue s ++ [d] ->
  gDispatcherRunning s' = gDispatcherRunning s -> wf N s' -> mDispatcherLock s' = false -> outside N s0 s'.
Proof.
  intros (([k Ek] & [l El] & Er & H) & _) Hn Ed E1 E2 E3 W L. split; [|done]. split; [exists k; congruence|].
  split; [exists (l ++ [d]); rewrite E2, El; by rewrite app_assoc|]. split; [congruence|]. intros x ex Hx. rewrite Ed, lookup_insert_ne by congruence.
  by apply H.
Qed.

Lemma schedule_one done rest g d e s : scheduling done (g :: rest) s -> G = done ++ g :: rest ->
  drivers s !! d = Some e -> FileName e = g -> FvHandle e = h ->
  wp tot (CoreAcquireDispatcherLock ;;; on_entry d (set_Dependent false) ;;; on_entry d (set_Scheduled true) ;;; enqueue d ;;;
          CoreReleaseDispatcherLock) (fun _ s' => scheduling (done ++ [g]) rest s') s.
Proof.
  intros Sc EG He Hg Hh. pose proof Sc as (O & Ek & H & Ho & Hpr). pose proof O as (Gr & W & L).
  assert (drivers s0 !! d = None) as Hn.
  { destruct (drivers s0 !! d) as [e0|] eqn:E0; [|done]. destruct (grows_entry _ _ _ _ _ Gr E0) as (e1 & He1 & (S1 & _)). simplify_eq.
    destruct (vo_new VO d e0 E0) as [Hx _]. congruence. }
  destruct (H d e He Hn) as (_ & Hnm & Hw & _). assert (in_phase e Waiting) as Hp by (apply Hw; subst g; by left).
  set (e' := set_Scheduled true (set_Dependent false e)).
  assert (in_phase e' Queued) as Hp' by (destruct Hp as (H1 & H2 & H3 & H4 & H5 & H6); by split_and!).
  assert (d ∉ mScheduledQueue s) as Hnq.
  { rewrite (queued_phase N s d W). intros Hq. by pose proof (phase_unique s d _ _ (ex_intro _ e (conj He Hp)) Hq). }
  set (s1 := upd_mScheduledQueue (mScheduledQueue s ++ [d]) (upd_drivers (<[d := e']> (drivers s)) s)).
  destruct (scheduled_now_ok N d s W (ex_intro _ e (conj He Hp))) as (W1 & _). unfold scheduled_now in W1. rewrite He in W1.
  change (wf N s1) in W1.
  assert (outside N s0 s1) as O1 by (by apply (outside_new s s1 d e')).
  assert (scheduling (done ++ [g]) rest s1) as Sc1.
  { pose proof (vo_apriori VO) as ND. rewrite EG in ND. apply NoDup_app in ND as (_ & ND1 & ND2). apply NoDup_cons in ND2 as [ND2 _].
    split_and!; [done|done| | |].
    3:{ intros x Hdf. destruct (Hpr x Hdf) as (y & ey & Hy & Ny & Fy). destruct (decide (y = d)) as [->|Hne].
        - exists d, e'. cbn. rewrite lookup_insert_eq. simplify_eq. done.
        - exists y, ey. cbn. by rewrite lookup_insert_ne. }
    - intros x ex Hx Nx. cbn in Hx. destruct (decide (x = d)) as [->|Hne].
      + rewrite lookup_insert_eq in Hx. injection Hx as <-. split_and!; [done|done| |done|].
        * intros Hr. by rewrite <- Hg in ND2.
        * intros Hd. destruct Hd. change (FileName e') with (FileName e). rewrite Hg. set_solver.
      + rewrite lookup_insert_ne in Hx by done. destruct (H x ex Hx Nx) as (H1 & H2 & H3 & H4 & H5). split_and!; [done|done| | |].
        * intros Hr. apply H3. by right.
        * intros [Hd|Hd%list_elem_of_singleton]%elem_of_app; [by apply H4|].
          destruct Hne. apply (wf_names N s W x d ex e Hx He). congruence.
        * intros Hd. apply H5. set_solver.
    - intros d1 d2 e1 e2 Hd1 Hd2 N1 N2 Ha. cbn in Hd1, Hd2 |- *.
      assert (forall x ex, <[d := e']> (drivers s) !! x = Some ex -> exists ey, drivers s !! x = Some ey /\ FileName ey = FileName ex) as Hname.
      { intros x ex. destruct (decide (x = d)) as [->|Hne]; [rewrite lookup_insert_eq; intros [= <-]; by exists e|].
        rewrite lookup_insert_ne by done. by exists ex. }
      destruct (Hname d1 e1 Hd1) as (f1 & F1 & M1), (Hname d2 e2 Hd2) as (f2 & F2 & M2). rewrite <- M1, <- M2 in Ha.
      destruct (ahead_snoc done g _ _ Ha) as [Ha'|[E2 Hin]]; [by apply precedes_app, (Ho d1 d2 f1 f2)|].
      assert (d2 = d) as -> by (apply (wf_names N s W d2 d f2 e F2 He); congruence). apply precedes_split; [|by left].
      apply (queued_phase N s d1 W). exists f1. split; [done|]. by apply (H d1 f1 F1 N1). }
  apply wp_lock; [done|]. eapply wp_on_entry; [exact He|]. eapply wp_on_entry; [cbn; by rewrite lookup_insert_eq|].
  apply wp_enqueue; [done|]. eapply wp_mono; [apply (unlock_quiet _ s1); [done|done|]|].
  - unfold s1. cbn. rewrite insert_insert_eq. destruct s. cbn in L |- *. by rewrite L.
  - cbn beta. intros r s' [O2 Q2]. by apply (scheduling_step _ _ s1).
Qed.

Lemma schedule_apriori_ok rest : forall done s, G = done ++ rest -> scheduling done rest s ->
  wp tot (schedule_apriori h rest) (fun _ s' => scheduling (done ++ rest) [] s') s.
Proof.
  induction rest as [|g rest IH]; intros done s EG Sc; cbn [schedule_apriori]; [apply wp_ret; by rewrite app_nil_r|].
  pose proof Sc as ((_ & W & _) & _ & H & Ho & Hpr). apply wp_get.
  destruct (find_driver_run (fun e => bool_decide (FileName e = g) && (h =? FvHandle e)) s (mDiscoveredList s)) as (r & E & Hr);
    [intros d; apply (wf_entries N s W)|]. eapply wp_step; [exact E|].
  eapply wp_seq with (P := fun _ s' => scheduling (done ++ [g]) rest s').
  - destruct r as [d|].
    + destruct Hr as (_ & e & He & Ht). apply andb_true_iff in Ht as [Hg Hh]. apply bool_decide_eq_true in Hg.
      apply (schedule_one done rest g d e); try done. lia.
    + assert (forall d e, drivers s !! d = Some e -> drivers s0 !! d = None -> FileName e <> g) as Hno.
      { intros d e He Hn Hg. destruct (H d e He Hn) as (Hh & _).
        assert (d ∈ mDiscoveredList s) as Hd by (apply (wf_entries N s W); by exists e).
        specialize (Hr d e Hd He). rewrite bool_decide_true, Hh, Z.eqb_refl in Hr by done. done. }
      apply wp_ret. destruct Sc as (O & Ek & _ & _). split_and!; [done|done| | |done].
      * intros d e He Hn. destruct (H d e He Hn) as (H1 & H2 & H3 & H4 & H5).
        split_and!; [done|done|intros Hi; apply H3; by right| |intros Hd; apply H5; set_solver].
        intros [Hi|Hi%list_elem_of_singleton]%elem_of_app; [by apply H4|]. by destruct (Hno d e He Hn).
      * intros d1 d2 e1 e2 H1 H2 N1 N2 Ha. destruct (ahead_snoc done g _ _ Ha) as [Ha'|[E2 _]]; [by apply (Ho d1 d2 e1 e2)|].
        by destruct (Hno d2 e2 H2 N2).
  - cbn beta. intros [] s' Sc'. replace (done ++ g :: rest) with ((done ++ [g]) ++ rest) by (by rewrite <- app_assoc).
    apply IH; [by rewrite <- app_assoc|done].
Qed.

Lemma discover_volume_ok : wf N s0 -> mDispatcherLock s0 = false ->
  wp tot (discover_volume f h Known) (fun _ s' => scheduling G [] s') s0.
Proof.
  intros W L. unfold discover_volume. eapply wp_seq; [apply (types_loop_ok mDxeFileTypes []); [done|done|]|].
  { split_and!; [by apply outside_refl|done|lia| |by intros g ?%elem_of_nil]. intros d e He Hn. congruence. }
  cbn beta. intros [] s1 J. change ([] ++ mjoin (files <$> mDxeFileTypes)) with names in J.
  destruct (vo_raw VO (world s1)) as (st & l & w' & E & EG). eapply wp_step; [unfold on_world; by rewrite E|]. cbn beta iota.
  rewrite EG. apply (schedule_apriori_ok G []); [done|]. apply (discovering_world _ _ w') in J. destruct J as (O & Ek & _ & H & Hpr).
  split_and!; [done|done| | |].
  - intros d e He Hn. destruct (H d e He Hn) as (H1 & H2 & H3 & H4). split_and!; try done. by intros ?%elem_of_nil.
  - intros d1 d2 e1 e2 _ _ _ _ (l1 & l2 & l3 & Ea). by destruct l1.
  - intros g Hdf. apply Hpr; [|done]. destruct Hdf as (t & Ht & _ & Hg). unfold names. apply list_elem_of_join. exists (files t).
    split; [done|]. apply list_elem_of_fmap. by exists t.
Qed.
End Volume.
End Discover.
