(* ===== verification/DispatchFvTheorems.v ===== *)
(** * DispatchFvTheorems: what discovery guarantees *)

From stdpp Require Import base option list gmap fin_maps.
From Stdlib Require Import ZArith Lia.
From S2P Require Import Prelude BaseMath Depex Dispatch DispatchInv DispatchInsert DispatchLoop DispatchScan.
From S2P Require Import DispatchServices DispatchTheorems FvBlock FvRead DispatchFv DispatchDiscover.

Local Open Scope Z_scope.
Local Open Scope edk_scope.

(** ** One notification *)

Section Notify.
Context {World : Type} `{Env : !DISP_ENV World} `{FvbW : !FVB World} `{FvE : !FV_ENV World} (tot : bool) (N : nat).
Context `{Laws : !DISP_LAWS tot N} `{FvL : !FV_LAWS tot N}.
Implicit Types s : DISP World.

Definition known s (h : Z) : Prop := h ∈ KnownFv <$> mFvHandleList s.
#[global] Instance known_dec s h : Decision (known s h).
Proof. unfold known. apply _. Defined.
(** A volume is known once, and the volume of every driver is known. *)
Definition known_ok s : Prop :=
  NoDup (KnownFv <$> mFvHandleList s) /\ forall d e, drivers s !! d = Some e -> known s (FvHandle e).

(** Code outside that leaves the list of drivers alone. *)
Lemma new_outside s s' d : outside N s s' -> wf N s -> mDiscoveredList s' = mDiscoveredList s -> drivers s !! d = None <-> drivers s' !! d = None.
Proof. intros (_ & W' & _) W E. rewrite !eq_None_not_Some, <- (wf_entries N s W), <- (wf_entries N s' W'). by rewrite E. Qed.
Lemma old_outside s s' d e' : outside N s s' -> wf N s -> mDiscoveredList s' = mDiscoveredList s -> drivers s' !! d = Some e' ->
  exists e, drivers s !! d = Some e /\ same_file e e'.
Proof.
  intros O W E He'. destruct (drivers s !! d) as [e|] eqn:He; [|apply (new_outside s s' d O W E) in He; congruence]. exists e. split; [done|].
  destruct O as (Gr & _). destruct (grows_entry _ _ _ _ _ Gr He) as (e1 & He1 & Sm). by simplify_eq.
Qed.
Lemma volume_ok_mono s s' f h files at_key G : outside N s s' -> wf N s -> mDiscoveredList s' = mDiscoveredList s ->
  volume_ok N s f h files at_key G -> volume_ok N s' f h files at_key G.
Proof.
  intros O W E [V1 V2 V3 V4 V5 V6 V7 V8 V9 V10]. split; try done; [|by rewrite E].
  intros d e' He'. destruct (old_outside s s' d e' O W E He') as (e & He & (S1 & S2 & _)). rewrite S1, S2. by apply (V5 d).
Qed.

Lemma has_been_run h s : FvHasBeenProcessed h s = Ok (bool_decide (known s h), s).
Proof.
  unfold FvHasBeenProcessed, Mbind, Mget, Mret. do 2 f_equal. symmetry. unfold known.
  destruct (existsb _ _) eqn:E.
  - apply bool_decide_eq_true. apply existsb_exists in E as (k & Hk & Ek). apply list_elem_of_fmap. exists k. split; [lia|by apply list_elem_of_In].
  - apply bool_decide_eq_false. intros (k & -> & Hk)%list_elem_of_fmap.
    assert (existsb (fun k0 => KnownFv k0 =? KnownFv k) (mFvHandleList s) = true); [|congruence].
    apply existsb_exists. exists k. split; [by apply list_elem_of_In|apply Z.eqb_refl].
Qed.

(** The volume has a name that can be read, and a known volume has the same. *)
Definition twin s (h : Z) : Prop := exists st fvb s1 g w',
  HandleFvb h s = Ok ((st, fvb), s1) /\ EFI_ERROR st = false /\ fv_name fvb (world s1) = Ok (Some g, w') /\ g ∈ FvNameGuid <$> mFvHandleList s.

Lemma is_being_ok h s : wf N s -> mDispatcherLock s = false ->
  wp tot (FvIsBeingProcessed h) (fun r s' => outside N s s' /\ mDiscoveredList s' = mDiscoveredList s /\
    match r with
    | None => twin s h /\ mFvHandleList s' = mFvHandleList s
    | Some k => ~ twin s h /\ KnownFv k = h /\ mFvHandleList s' = mFvHandleList s ++ [k]
    end) s.
Proof.
  intros W L. unfold FvIsBeingProcessed. eapply wp_seq; [by apply wp_run, (fvb_law (FV_LAWS := FvL))|]. cbn beta.
  intros [st fvb] s1 [Rb (O1 & [E1 E2] & Hz)]. pose proof O1 as (_ & W1 & L1). cbn [fst snd] in *.
  eapply wp_seq with (P := fun name s2 => exists w, s2 = upd_world w s1 /\
    (EFI_ERROR st = true /\ name = None \/ EFI_ERROR st = false /\ fv_name fvb (world s1) = Ok (name, w))).
  { destruct (EFI_ERROR st); [apply wp_ret; exists (world s1); destruct s1; by auto|]. rewrite (proj2 (Z.eqb_neq _ 0)) by (by apply Hz).
    apply wp_step with (a := tt) (s' := s1); [done|]. destruct (name_law (FV_LAWS := FvL) fvb (world s1)) as (g & w' & E).
    unfold wp, on_world. rewrite E. exists w'. by auto. }
  cbn beta. intros name s2 (w & -> & Hn). apply wp_get. cbn beta zeta. rewrite (known_law (FV_LAWS := FvL)).
  assert (outside N s (upd_world w s1)) as O2 by (eapply outside_trans; [exact O1|by apply unseen_outside]).
  assert ((match name with Some g => existsb (fun k => bool_decide (g = FvNameGuid k)) (mFvHandleList (upd_world w s1)) | None => false end)
    = true <-> twin s h) as Ht.
  { change (mFvHandleList (upd_world w s1)) with (mFvHandleList s1). rewrite E2. split.
    - destruct name as [g|]; [|done]. intros (k & Hk & Ek%bool_decide_eq_true)%existsb_exists.
      destruct Hn as [[_ ?]|[Hst Hf]]; [done|]. exists st, fvb, s1, g, w. split_and!; try done.
      apply list_elem_of_fmap. exists k. split; [done|by apply list_elem_of_In].
    - intros (st' & fvb' & s' & g & w' & Rb' & Hst & Hf & (k & -> & Hk)%list_elem_of_fmap). rewrite Rb in Rb'. simplify_eq.
      destruct Hn as [[Hst' _]|[_ Hf']]; [congruence|]. rewrite Hf in Hf'. simplify_eq. apply existsb_exists. exists k.
      split; [by apply list_elem_of_In|by apply bool_decide_eq_true]. }
  destruct (match name with Some g => _ | None => false end); [apply wp_ret; split_and!; try done; by apply Ht|].
  apply wp_step with (a := tt) (s' := upd_world w s1); [done|]. apply wp_modify. apply wp_ret. split_and!; [|done| |done|by rewrite <- E2].
  - eapply outside_trans; [exact O2|]. apply unseen_outside; try done. apply O2.
  - by rewrite <- Ht.
Qed.

(** The firmware volume protocol of the handle [h] is [f]: whenever it is
    asked for and there, it is this one. *)
Definition volume_of (h f : Z) : Prop :=
  forall s, post (HandleFv h) (fun r _ => EFI_ERROR r.1 || (r.2 =? 0) = false -> r.2 = f) s.

(** What the drivers of a volume are after its notification. *)
Definition discovered_from s s' (h : Z) (files : Z -> list GUID) (G : list GUID) : Prop :=
  (forall d e, drivers s' !! d = Some e -> drivers s !! d = None -> FvHandle e = h /\ FileName e ∈ names files /\
     (FileName e ∈ G -> in_phase e Queued) /\ (FileName e ∉ G -> idle e)) /\
  (forall d1 d2 e1 e2, drivers s' !! d1 = Some e1 -> drivers s' !! d2 = Some e2 -> drivers s !! d1 = None -> drivers s !! d2 = None ->
     ahead G (FileName e1) (FileName e2) -> precedes (mScheduledQueue s') d1 d2).
(** The handle has the firmware volume and the device path protocol. *)
Definition serves (h : Z) : Prop :=
  (forall s, post (HandleFv h) (fun r _ => EFI_ERROR r.1 || (r.2 =? 0) = false) s) /\
  (forall s, post (HandlePath h) (fun r _ => EFI_ERROR r = false) s).
Definition complete s s' (files : Z -> list GUID) : Prop := forall g, driver_file files g -> present s g s'.

Lemma nothing_new s s' h files G : outside N s s' -> wf N s -> mDiscoveredList s' = mDiscoveredList s -> discovered_from s s' h files G.
Proof.
  intros O W E. split.
  - intros d e He Hn. apply (new_outside s s' d O W E) in Hn. congruence.
  - intros d1 d2 e1 e2 H1 _ N1. apply (new_outside s s' d1 O W E) in N1. congruence.
Qed.

Lemma notify_volume_ok s h fv files at_key G : wf N s -> mDispatcherLock s = false -> known_ok s ->
  volume_of h fv -> (~ known s h -> volume_ok N s fv h files at_key G) ->
  wp tot (notify_volume h) (fun _ s' => outside N s s' /\ known_ok s' /\ discovered_from s s' h files G /\
    ((known s h /\ s' = s) \/
     (~ known s h /\ twin s h /\ mFvHandleList s' = mFvHandleList s /\ mDiscoveredList s' = mDiscoveredList s) \/
     (~ known s h /\ ~ twin s h /\ exists k, KnownFv k = h /\ mFvHandleList s' = mFvHandleList s ++ [k] /\
        (serves h -> complete s s' files)))) s.
Proof.
  intros W L K Hfv HV. unfold notify_volume. eapply wp_step; [apply has_been_run|].
  destruct (decide (known s h)) as [Hk|Hk]; [rewrite bool_decide_true by done|rewrite bool_decide_false by done].
  { apply wp_ret. split_and!; [by apply outside_refl|done|by apply nothing_new; [apply outside_refl| |]|by left]. }
  assert (forall s1 k, outside N s s1 -> mDiscoveredList s1 = mDiscoveredList s -> mFvHandleList s1 = mFvHandleList s ++ k ->
    (k = [] \/ exists x, k = [x] /\ KnownFv x = h) -> known_ok s1) as HK.
  { intros s1 k O E Ek Hkk. destruct K as [K1 K2]. split.
    - rewrite Ek, fmap_app. destruct Hkk as [->|(x & -> & <-)]; [by rewrite app_nil_r|]. apply NoDup_app. split; [done|].
      split; [|apply NoDup_singleton]. intros y Hy Hy'%list_elem_of_singleton. by subst.
    - intros d e He. destruct (old_outside s s1 d e O W E He) as (e0 & He0 & (S1 & _)). unfold known. rewrite Ek, fmap_app, S1.
      apply elem_of_app. left. by apply (K2 d). }
  eapply wp_seq; [by apply is_being_ok|]. cbn beta. intros [k|] s1 (O1 & E1 & Ek).
  2:{ destruct Ek as [Tw Ek]. apply wp_ret. split_and!; [done|apply (HK s1 []); try done; [by rewrite app_nil_r|by left]|by apply nothing_new|]. right. by left. }
  destruct Ek as (Tw & Hh & Ek). pose proof O1 as (_ & W1 & L1).
  eapply wp_seq; [by apply wp_run, (fv_law (FV_LAWS := FvL))|]. cbn beta. intros [st f] s2 [Rf (O2 & [E2 F2] & Hf)]. cbn [fst snd] in *.
  assert (outside N s s2) as O02 by (by eapply outside_trans). pose proof O02 as (_ & W2 & L2).
  assert (forall s3, outside N s s3 -> mDiscoveredList s3 = mDiscoveredList s -> mFvHandleList s3 = mFvHandleList s ++ [k] ->
    ~ serves h -> outside N s s3 /\ known_ok s3 /\ discovered_from s s3 h files G /\
    ((known s h /\ s3 = s) \/ (~ known s h /\ twin s h /\ mFvHandleList s3 = mFvHandleList s /\ mDiscoveredList s3 = mDiscoveredList s) \/
     (~ known s h /\ ~ twin s h /\ exists k, KnownFv k = h /\ mFvHandleList s3 = mFvHandleList s ++ [k] /\
        (serves h -> complete s s3 files)))) as Early.
  { intros s3 O E F Hns. split_and!; [done|apply (HK s3 [k]); try done; right; by exists k|by apply nothing_new|].
    right. right. do 2 (split; [done|]). exists k. by split_and!. }
  destruct (EFI_ERROR st || (f =? 0)) eqn:Est.
  { assert (NDEBUG = true) as ->.
    { destruct Hf as [[Hst Hf]|]; [|done]. rewrite Hst in Est. cbn in Est. lia. }
    apply wp_ret. apply Early; [done|congruence|congruence|]. intros [Hs _]. specialize (Hs s1). unfold post in Hs. rewrite Rf in Hs.
    cbn in Hs. congruence. }
  eapply wp_seq; [by apply wp_run, (fvpath_law (FV_LAWS := FvL))|]. cbn beta. intros st2 s3 [Rp (O3 & [E3 F3])].
  assert (outside N s s3) as O03 by (by eapply outside_trans). pose proof O03 as (_ & W3 & L3).
  assert (mDiscoveredList s3 = mDiscoveredList s) as E03 by congruence.
  assert (mFvHandleList s3 = mFvHandleList s ++ [k]) as F03 by congruence.
  destruct (EFI_ERROR st2) eqn:Est2.
  { apply wp_ret. apply Early; try done. intros [_ Hs]. specialize (Hs s2). unfold post in Hs. rewrite Rp in Hs. congruence. }
  assert (f = fv) as ->.
  { specialize (Hfv s1). unfold post in Hfv. rewrite Rf in Hfv. by apply Hfv. }
  eapply wp_mono; [exact (discover_volume_ok tot N s3 fv h k files at_key G (volume_ok_mono s s3 fv h files at_key G O03 W E03 (HV Hk)) W3 L3)|].
  cbn beta. intros [] s4 (O4 & F4 & H1 & H2 & H3).
  assert (forall d, drivers s !! d = None <-> drivers s3 !! d = None) as Hn by (intros d; by apply new_outside).
  assert (outside N s s4) as O04 by (by eapply outside_trans). split_and!; [done| | |].
  - destruct (HK s3 [k] O03 E03 F03) as [K1 K2]; [right; by exists k|]. split; [by rewrite F4|]. unfold known. rewrite F4.
    intros d e He. destruct (drivers s3 !! d) as [e3|] eqn:He3.
    + destruct O4 as (Gr & _). destruct (grows_entry _ _ _ _ _ Gr He3) as (e1 & He1 & (S1 & _)). simplify_eq. rewrite S1. by apply (K2 d).
    + destruct (H1 d e He He3) as (-> & _). rewrite F03, fmap_app. apply elem_of_app. right. cbn. rewrite Hh. by left.
  - split.
    + intros d e He Nd. apply Hn in Nd. destruct (H1 d e He Nd) as (? & ? & _ & ? & ?). done.
    + intros d1 d2 e1 e2 D1 D2 N1%Hn N2%Hn. by apply H2.
  - right. right. do 2 (split; [done|]). exists k. split_and!; [done|congruence|]. intros _ g Hg.
    destruct (H3 g Hg) as (d & e & He & Nd%Hn & Eg). by exists d, e.
Qed.
End Notify.

(** ** A volume for the examples

    The system of [DispatchTheorems], with a firmware volume on the handle 2,
    whose protocol is 1; [files] are its files by type, [apriori] the contents
    of its a priori file.  The volumes on the other handles are empty. *)

Definition fv_read (apriori : list Z) (f : Z) (g : GUID) (t : Z) : EFI_STATUS * list Z :=
  if t =? EFI_SECTION_RAW then (EFI_SUCCESS, mjoin (name <$> apriori))
  else if t =? EFI_SECTION_SMM_DEPEX then (EFI_NOT_FOUND, [])
  else bench_file f g.
Definition fv_system (apriori : list Z) : DISP_ENV (list Z) := bench_env (fv_read apriori) EFI_SUCCESS (Mret tt).
#[export] Instance no_fvb : FVB (list Z) :=
  mkFVB (list Z) 64 (fun _ _ _ _ => Mret (EFI_ACCESS_DENIED, [])) (fun _ _ => Mret (EFI_ACCESS_DENIED, (0, 0))).
Definition locate_new : M (DISP (list Z)) (EFI_STATUS * Z) := fun s =>
  Ok (if existsb (fun k => KnownFv k =? 2) (mFvHandleList s) then (EFI_NOT_FOUND, 0) else (EFI_SUCCESS, 2), s).
Definition next_file (files : Z -> list GUID) (f k t : Z) : M (list Z) (EFI_STATUS * (Z * Z * GUID)) :=
  Mret match (if f =? 1 then drop (Z.to_nat k) (files t) else []) with
       | [] => (EFI_NOT_FOUND, (k, t, []))
       | g :: _ => (EFI_SUCCESS, (k + 1, t, g))
       end.
Definition fv_bench (files : Z -> list GUID) : FV_ENV (list Z) :=
  mkFvEnv (list Z) locate_new (fun _ => Mret (EFI_UNSUPPORTED, 0)) (fun h => Mret (EFI_SUCCESS, if h =? 2 then 1 else 7)) (fun _ => Mret EFI_SUCCESS)
    (fun _ => Some 8) true [] (name 40) (next_file files) (fun _ => Mret 99).

(** Drivers 1, 4 and 3 of two types, the DXE core 40, a volume image 8. *)
Definition bench_types (t : Z) : list GUID :=
  if t =? EFI_FV_FILETYPE_DRIVER then [name 1; name 4] else if t =? EFI_FV_FILETYPE_COMBINED_PEIM_DRIVER then [name 3]
  else if t =? EFI_FV_FILETYPE_DXE_CORE then [name 40] else if t =? EFI_FV_FILETYPE_FIRMWARE_VOLUME_IMAGE then [name 8] else [].
Definition key_at (files : Z -> list GUID) (t k : Z) (l : list GUID) : Prop := 0 <= k /\ l = drop (Z.to_nat k) (files t).

Lemma fv_system_laws apriori : @DISP_LAWS (list Z) (fv_system apriori) true 10.
Proof. apply disp_bench_laws. intros f g. apply bench_files. Qed.
Lemma fv_bench_laws apriori files : @FV_LAWS (list Z) (fv_system apriori) no_fvb (fv_bench files) true 10.
Proof.
  constructor; try done.
  - intros h s W L. apply wp_ret. split_and!; [by apply outside_refl|done..].
  - intros h s W L. apply wp_ret. split_and!; [by apply outside_refl|done|left]. by destruct (h =? 2).
  - intros h s W L. apply wp_ret. split_and!; [by apply outside_refl|done..].
  - intros fvb w. by exists None, w.
  - intros f g w. by eexists _, _, w.
  - intros g w. by exists 99, w.
Qed.

Lemma bench_volume_ok : @volume_ok (list Z) (fv_system [4; 1]) (fv_bench bench_types) 10 empty_state 1 2 bench_types
  (key_at bench_types) [name 4; name 1].
Proof.
  constructor; try done.
  - intros t k l w [Hk ->]. cbn [GetNextFile fv_bench]. unfold next_file, Mret. cbn [Z.eqb Pos.eqb]. destruct (drop (Z.to_nat k) (bench_types t)) as [|g l] eqn:E.
    + by eexists _, _, w.
    + exists (k + 1), w. split; [done|]. split; [lia|]. replace (Z.to_nat (k + 1)) with (1 + Z.to_nat k)%nat by lia.
      by rewrite Nat.add_comm, <- drop_drop, E.
  - intros t. unfold bench_types. cbn. repeat case_match; cbn; lia.
  - by_decide.
  - cbn. lia.
  - by_decide.
  - intros g [->|[->|[]%elem_of_nil]%elem_of_cons]%elem_of_cons w st l w' E; cbn in E; unfold bench_file in E;
      vm_compute in E; simplify_eq; done.
  - intros w. by eexists _, _, w.
Qed.

(** ** Claim *)

(** C20 The notification for the firmware volume on the handle [h] returns.
    A volume that is known is skipped, as is one whose name is known;
    otherwise it becomes known, once, and if it has the protocols there is a
    new entry for every file that is a driver.  The new entries belong to this
    volume and its files; those that its a priori file names are on the
    scheduled queue, in the order of that file, and no other new entry is
    scheduled.  All of this is a change that the dispatcher allows the code
    that runs beside it ([outside]): no entry that was there goes away, and
    its state changes only if other code requests or trusts the driver.
    [fv] is the protocol of this handle, and only of this protocol it is asked
    that GetNextFile enumerates [files], that the names are new and there is
    memory, that the a priori file names a driver once, and none that waits
    for a request or whose dependencies cannot be read. *)
Theorem Disp_discovery {World} `{Env : !DISP_ENV World} `{FvbW : !FVB World} `{FvE : !FV_ENV World} (N : nat)
    `{Laws : !DISP_LAWS true N} `{FvL : !FV_LAWS true N} (s : DISP World) h fv files at_key G :
  wf N s -> mDispatcherLock s = false -> known_ok s -> volume_of h fv ->
  (~ known s h -> volume_ok N s fv h files at_key G) ->
  exists s', notify_volume h s = Ok (tt, s') /\ outside N s s' /\ known_ok s' /\
    (forall d e, drivers s' !! d = Some e -> drivers s !! d = None -> FvHandle e = h /\ FileName e ∈ names files /\
       (FileName e ∈ G -> in_phase e Queued) /\ (FileName e ∉ G -> idle e)) /\
    (forall d1 d2 e1 e2, drivers s' !! d1 = Some e1 -> drivers s' !! d2 = Some e2 -> drivers s !! d1 = None -> drivers s !! d2 = None ->
       ahead G (FileName e1) (FileName e2) -> precedes (mScheduledQueue s') d1 d2) /\
    ((known s h /\ s' = s) \/
     (~ known s h /\ twin s h /\ mFvHandleList s' = mFvHandleList s /\ mDiscoveredList s' = mDiscoveredList s) \/
     (~ known s h /\ ~ twin s h /\ exists k, KnownFv k = h /\ mFvHandleList s' = mFvHandleList s ++ [k] /\
        (serves h -> forall g, driver_file files g -> exists d e, drivers s' !! d = Some e /\ drivers s !! d = None /\ FileName e = g))).
Proof.
  intros W L K Hfv HV. pose proof (notify_volume_ok true N s h fv files at_key G W L K Hfv HV) as H.
  apply wp_total in H as ([] & s' & E & O & K' & [D1 D2] & C). exists s'. by split_and!.
Qed.

(** Three drivers are found; 4 and 1 are scheduled, in this order. *)
Lemma Disp_discovery_witness : exists s', notify_volume (Env := fv_system [4; 1]) (FvE := fv_bench bench_types) 2 empty_state = Ok (tt, s') /\
  outside 10 empty_state s' /\ mScheduledQueue s' = [2; 1] /\ mDiscoveredList s' = [1; 2; 3].
Proof.
  destruct (Disp_discovery (Env := fv_system [4; 1]) (FvE := fv_bench bench_types) 10 (Laws := fv_system_laws [4; 1])
    (FvL := fv_bench_laws [4; 1] bench_types) empty_state 2 1 bench_types (key_at bench_types) [name 4; name 1]) as (s' & E & O & _);
    [apply empty_wf|reflexivity|split; [by_decide|intros d e H; discriminate H]|intros s _; reflexivity|intros _; apply bench_volume_ok|].
  exists s'. split; [exact E|]. split; [exact O|]. clear - E. vm_compute in E. by injection E as <-.
Defined.

(** ** Corners *)

(** Discovery, then dispatching: 3 asks to be before 1, but 1 is in the a
    priori file and is scheduled without it, so 3 is never started. *)
Example apriori_first :
  seen ((CoreFwVolEventProtocolNotify (Env := fv_system [4; 1]) (FvE := fv_bench bench_types) ;;; CoreDispatcher (Env := bench)) empty_state) =
  Some (EFI_SUCCESS, [4; 1], [], false).
Proof. by vm_compute. Qed.

(** A driver in the a priori file that asks to be started on request: it is
    started, but it still looks as if it had not been requested.  When it is
    requested later, it is started a second time. *)
Definition sor_files (t : Z) : list GUID := if t =? EFI_FV_FILETYPE_DRIVER then [name 6] else [].
Example apriori_twice :
  seen ((CoreFwVolEventProtocolNotify (Env := fv_system [6]) (FvE := fv_bench sor_files) ;;; CoreDispatcher (Env := bench) ;;;
         CoreSchedule (Env := bench) 2 (name 6) ;;; CoreDispatcher (Env := bench)) empty_state) =
  Some (EFI_SUCCESS, [6; 6], [], false).
Proof. by vm_compute. Qed.

(** A driver that the a priori file names twice would be put on the queue while it
    is there. *)
Definition one_file (t : Z) : list GUID := if t =? EFI_FV_FILETYPE_DRIVER then [name 1] else [].
Example apriori_double : CoreFwVolEventProtocolNotify (Env := fv_system [1; 1]) (FvE := fv_bench one_file) empty_state = Fault.
Proof. by vm_compute. Qed.
