(* ===== verification/Gcd.v ===== *)
(** * Gcd: the global coherency domain

    MdeModulePkg/Core/Dxe/Gcd/Gcd.c.  Two maps, of the memory space and of the
    I/O space, say for every address what is there and who has allocated it.  A
    map is a list of entries in the order of their addresses; each entry is a
    range with the same type, capabilities, attributes and owner.  A service
    splits the entries at the ends of its range, changes those in the range and
    merges entries that have become alike.

    Entries are records at addresses ([gcd_entries]); a map is the list of the
    addresses of its entries, and a link is such an address, or [None] for the
    head of the list.  An enumeration is its value, since the services test for
    values that are out of range.

    [GCD_ENV]: the pool (for an entry, and for the array of descriptors; the
    latter is allocated without the lock and may change the maps), the CPU
    protocol, the two functions of the page allocator that the services tell of
    new memory, gDxeCoreImageHandle and the number of turns of the loop that
    copies a map.  Code that runs when a lock is released is a step of its
    own. *)

From stdpp Require Import base option list gmap fin_maps.
From Stdlib Require Import ZArith Lia.
From S2P Require Import Prelude BaseMath.

Local Open Scope Z_scope.
Local Open Scope edk_scope.

(** ** Constants *)

Definition GCD_MEMORY_SPACE_OPERATION : Z := 0x20.
Definition GCD_IO_SPACE_OPERATION : Z := 0x40.
Definition GCD_ADD_MEMORY_OPERATION : Z := 0x20.
Definition GCD_ALLOCATE_MEMORY_OPERATION : Z := 0x21.
Definition GCD_FREE_MEMORY_OPERATION : Z := 0x22.
Definition GCD_REMOVE_MEMORY_OPERATION : Z := 0x23.
Definition GCD_SET_ATTRIBUTES_MEMORY_OPERATION : Z := 0x24.
Definition GCD_SET_CAPABILITIES_MEMORY_OPERATION : Z := 0x25.
Definition GCD_ADD_IO_OPERATION : Z := 0x40.
Definition GCD_ALLOCATE_IO_OPERATION : Z := 0x41.
Definition GCD_FREE_IO_OPERATION : Z := 0x42.
Definition GCD_REMOVE_IO_OPERATION : Z := 0x43.

Definition EfiGcdMemoryTypeNonExistent : Z := 0.
Definition EfiGcdMemoryTypeReserved : Z := 1.
Definition EfiGcdMemoryTypeSystemMemory : Z := 2.
Definition EfiGcdMemoryTypeMemoryMappedIo : Z := 3.
Definition EfiGcdMemoryTypePersistent : Z := 4.
Definition EfiGcdMemoryTypeMoreReliable : Z := 5.
Definition EfiGcdMemoryTypeMaximum : Z := 6.
Definition EfiGcdIoTypeNonExistent : Z := 0.
Definition EfiGcdIoTypeReserved : Z := 1.
Definition EfiGcdIoTypeIo : Z := 2.
Definition EfiGcdIoTypeMaximum : Z := 3.
Definition EfiGcdAllocateAnySearchBottomUp : Z := 0.
Definition EfiGcdAllocateMaxAddressSearchBottomUp : Z := 1.
Definition EfiGcdAllocateAddress : Z := 2.
Definition EfiGcdAllocateAnySearchTopDown : Z := 3.
Definition EfiGcdAllocateMaxAddressSearchTopDown : Z := 4.
Definition EfiGcdMaxAllocateType : Z := 5.

Definition EFI_MEMORY_UC : Z := 0x1.
Definition EFI_MEMORY_WC : Z := 0x2.
Definition EFI_MEMORY_WT : Z := 0x4.
Definition EFI_MEMORY_WB : Z := 0x8.
Definition EFI_MEMORY_UCE : Z := 0x10.
Definition EFI_MEMORY_WP : Z := 0x1000.
Definition EFI_MEMORY_RP : Z := 0x2000.
Definition EFI_MEMORY_XP : Z := 0x4000.
Definition EFI_MEMORY_NV : Z := 0x8000.
Definition EFI_MEMORY_MORE_RELIABLE : Z := 0x10000.
Definition EFI_MEMORY_RO : Z := 0x20000.
Definition EFI_MEMORY_SP : Z := 0x40000.
Definition EFI_MEMORY_CPU_CRYPTO : Z := 0x80000.
Definition EFI_MEMORY_PRESENT : Z := 0x0100000000000000.
Definition EFI_MEMORY_INITIALIZED : Z := 0x0200000000000000.
Definition EFI_MEMORY_TESTED : Z := 0x0400000000000000.
Definition EFI_MEMORY_PORT_IO : Z := 0x4000000000000000.
Definition EFI_MEMORY_RUNTIME : Z := 0x8000000000000000.
Definition EFI_CACHE_ATTRIBUTE_MASK : Z :=
  Z.lor EFI_MEMORY_UC (Z.lor EFI_MEMORY_WC (Z.lor EFI_MEMORY_WT (Z.lor EFI_MEMORY_WB (Z.lor EFI_MEMORY_UCE EFI_MEMORY_WP)))).
Definition EFI_MEMORY_ACCESS_MASK : Z := Z.lor EFI_MEMORY_RP (Z.lor EFI_MEMORY_XP EFI_MEMORY_RO).
Definition EFI_MEMORY_ATTRIBUTE_MASK : Z := Z.lor EFI_MEMORY_ACCESS_MASK (Z.lor EFI_MEMORY_SP EFI_MEMORY_CPU_CRYPTO).

Definition EFI_PAGE_SHIFT : Z := 12.
Definition EFI_PAGE_SIZE : Z := 0x1000.
Definition EFI_PAGE_MASK : Z := 0xFFF.
Definition EfiConventionalMemory : Z := 7.

(** ** Data *)

Definition EFI_GCD_MAP_SIGNATURE : Z := 0x6D646367.
Record EFI_GCD_MAP_ENTRY := mkGcdEntry {
  Signature : Z;
  BaseAddress : Z;
  EndAddress : Z;
  Capabilities : Z;
  Attributes : Z;
  GcdMemoryType : Z;
  GcdIoType : Z;
  ImageHandle : Z;
  DeviceHandle : Z
}.
#[global] Instance EFI_GCD_MAP_ENTRY_eq_dec : EqDecision EFI_GCD_MAP_ENTRY.
Proof. solve_decision. Defined.

Definition zero_gcd_entry : EFI_GCD_MAP_ENTRY := mkGcdEntry 0 0 0 0 0 0 0 0 0.
Definition mGcdMemorySpaceMapEntryTemplate : EFI_GCD_MAP_ENTRY :=
  mkGcdEntry EFI_GCD_MAP_SIGNATURE 0 0 0 0 EfiGcdMemoryTypeNonExistent 0 0 0.
Definition mGcdIoSpaceMapEntryTemplate : EFI_GCD_MAP_ENTRY :=
  mkGcdEntry EFI_GCD_MAP_SIGNATURE 0 0 0 0 0 EfiGcdIoTypeNonExistent 0 0.

Definition set_Range (b n : Z) (e : EFI_GCD_MAP_ENTRY) : EFI_GCD_MAP_ENTRY :=
  mkGcdEntry (Signature e) b n (Capabilities e) (Attributes e) (GcdMemoryType e) (GcdIoType e) (ImageHandle e) (DeviceHandle e).
Definition set_Capabilities (x : Z) (e : EFI_GCD_MAP_ENTRY) : EFI_GCD_MAP_ENTRY :=
  mkGcdEntry (Signature e) (BaseAddress e) (EndAddress e) x (Attributes e) (GcdMemoryType e) (GcdIoType e) (ImageHandle e)
    (DeviceHandle e).
Definition set_Attributes (x : Z) (e : EFI_GCD_MAP_ENTRY) : EFI_GCD_MAP_ENTRY :=
  mkGcdEntry (Signature e) (BaseAddress e) (EndAddress e) (Capabilities e) x (GcdMemoryType e) (GcdIoType e) (ImageHandle e)
    (DeviceHandle e).
Definition set_GcdMemoryType (x : Z) (e : EFI_GCD_MAP_ENTRY) : EFI_GCD_MAP_ENTRY :=
  mkGcdEntry (Signature e) (BaseAddress e) (EndAddress e) (Capabilities e) (Attributes e) x (GcdIoType e) (ImageHandle e)
    (DeviceHandle e).
Definition set_GcdIoType (x : Z) (e : EFI_GCD_MAP_ENTRY) : EFI_GCD_MAP_ENTRY :=
  mkGcdEntry (Signature e) (BaseAddress e) (EndAddress e) (Capabilities e) (Attributes e) (GcdMemoryType e) x (ImageHandle e)
    (DeviceHandle e).
Definition set_Handles (i d : Z) (e : EFI_GCD_MAP_ENTRY) : EFI_GCD_MAP_ENTRY :=
  mkGcdEntry (Signature e) (BaseAddress e) (EndAddress e) (Capabilities e) (Attributes e) (GcdMemoryType e) (GcdIoType e) i d.

(** EFI_GCD_MEMORY_SPACE_DESCRIPTOR and EFI_GCD_IO_SPACE_DESCRIPTOR *)
Record MEMORY_DESCRIPTOR := mkMemoryDescriptor {
  md_BaseAddress : Z;
  md_Length : Z;
  md_Capabilities : Z;
  md_Attributes : Z;
  md_GcdMemoryType : Z;
  md_ImageHandle : Z;
  md_DeviceHandle : Z
}.
Record IO_DESCRIPTOR := mkIoDescriptor {
  io_BaseAddress : Z;
  io_Length : Z;
  io_GcdIoType : Z;
  io_ImageHandle : Z;
  io_DeviceHandle : Z
}.

(** &mGcdMemorySpaceMap and &mGcdIoSpaceMap *)
Inductive SPACE : Type := MemorySpace | IoSpace.
#[global] Instance SPACE_eq_dec : EqDecision SPACE.
Proof. solve_decision. Defined.

Record GCD (World : Type) := mkGcd {
  gcd_entries : gmap Z EFI_GCD_MAP_ENTRY;
  gcd_map : SPACE -> list Z;
  gcd_lock : SPACE -> bool;
  mOnGuarding : bool;
  gcd_world : World
}.
Arguments mkGcd {World}.
Arguments gcd_entries {World}.
Arguments gcd_map {World}.
Arguments gcd_lock {World}.
Arguments mOnGuarding {World}.
Arguments gcd_world {World}.

Definition upd_space {A} (sp : SPACE) (a : A) (f : SPACE -> A) : SPACE -> A :=
  fun x => if bool_decide (x = sp) then a else f x.

Section Update.
Context {World : Type}.
Implicit Type s : GCD World.
Definition upd_entries x s : GCD World := mkGcd x (gcd_map s) (gcd_lock s) (mOnGuarding s) (gcd_world s).
Definition upd_map sp x s : GCD World := mkGcd (gcd_entries s) (upd_space sp x (gcd_map s)) (gcd_lock s) (mOnGuarding s) (gcd_world s).
Definition upd_lock sp x s : GCD World := mkGcd (gcd_entries s) (gcd_map s) (upd_space sp x (gcd_lock s)) (mOnGuarding s) (gcd_world s).
Definition upd_guard x s : GCD World := mkGcd (gcd_entries s) (gcd_map s) (gcd_lock s) x (gcd_world s).
Definition upd_gworld x s : GCD World := mkGcd (gcd_entries s) (gcd_map s) (gcd_lock s) (mOnGuarding s) x.
End Update.

Class GCD_ENV (World : Type) := mkGcdEnv {
  GcdPool : GCD World -> option Z;
  MapPool : Z -> M (GCD World) Z;
  MapFree : Z -> M (GCD World) unit;
  gCpu : option (Z -> Z -> Z -> M World EFI_STATUS);
  CoreAddMemoryDescriptor : Z -> Z -> Z -> Z -> M World unit;
  CoreUpdateMemoryAttributes : Z -> Z -> Z -> M World unit;
  gDxeCoreImageHandle : Z;
  map_turns : nat
}.

(** ** Numbers *)

Definition AlignValue (Value Alignment : Z) (RoundUp : bool) : Z :=
  let AlignmentMask := wrapU 64 (Z.shiftl 1 Alignment - 1) in
  let Value := if RoundUp then wrapU 64 (Value + AlignmentMask) else Value in
  Z.land Value (wrapU 64 (Z.lnot AlignmentMask)).
Definition PageAlignAddress (Value : Z) : Z := AlignValue Value EFI_PAGE_SHIFT true.
Definition PageAlignLength (Value : Z) : Z := AlignValue Value EFI_PAGE_SHIFT false.

Definition ConverToCpuArchAttributes (Attributes_ : Z) : Z :=
  let CpuArchAttributes := Z.land Attributes_ EFI_MEMORY_ATTRIBUTE_MASK in
  if Z.land Attributes_ EFI_MEMORY_UC =? EFI_MEMORY_UC then Z.lor CpuArchAttributes EFI_MEMORY_UC
  else if Z.land Attributes_ EFI_MEMORY_WC =? EFI_MEMORY_WC then Z.lor CpuArchAttributes EFI_MEMORY_WC
  else if Z.land Attributes_ EFI_MEMORY_WT =? EFI_MEMORY_WT then Z.lor CpuArchAttributes EFI_MEMORY_WT
  else if Z.land Attributes_ EFI_MEMORY_WB =? EFI_MEMORY_WB then Z.lor CpuArchAttributes EFI_MEMORY_WB
  else if Z.land Attributes_ EFI_MEMORY_UCE =? EFI_MEMORY_UCE then Z.lor CpuArchAttributes EFI_MEMORY_UCE
  else if Z.land Attributes_ EFI_MEMORY_WP =? EFI_MEMORY_WP then Z.lor CpuArchAttributes EFI_MEMORY_WP
  else CpuArchAttributes.

(** ** Lists *)

(** Link->ForwardLink and Link->BackLink *)
Fixpoint ForwardLink (a : Z) (l : list Z) : option Z :=
  match l with
  | [] => None
  | b :: l' => if b =? a then head l' else ForwardLink a l'
  end.
Fixpoint back_from (prev : option Z) (a : Z) (l : list Z) : option Z :=
  match l with
  | [] => None
  | b :: l' => if b =? a then prev else back_from (Some b) a l'
  end.
Definition BackLink (a : Z) (l : list Z) : option Z := back_from None a l.
(** InsertTailList (Link, x) and InsertHeadList (Link, x) *)
Fixpoint insert_before (a x : Z) (l : list Z) : list Z :=
  match l with
  | [] => []
  | b :: l' => if b =? a then x :: b :: l' else b :: insert_before a x l'
  end.
Fixpoint insert_after (a x : Z) (l : list Z) : list Z :=
  match l with
  | [] => []
  | b :: l' => if b =? a then b :: x :: l' else b :: insert_after a x l'
  end.

Section Gcd.
Context {World : Type} `{Env : !GCD_ENV World}.

Abbreviation G := (M (GCD World)).

Definition GASSERT (b : bool) : G unit := if b then Mret tt else Mfail AssertFail.
Definition on_gworld {A} (c : M World A) : G A := fun s =>
  match c (gcd_world s) with
  | Ok (a, w) => Ok (a, upd_gworld w s)
  | AssertFail => AssertFail
  | Fault => Fault
  | OutOfFuel => OutOfFuel
  end.

(** ** Locks *)

Definition acquire_lock (sp : SPACE) : G unit :=
  let! s := Mget in GASSERT (negb (gcd_lock s sp)) ;;; Mmodify (upd_lock sp true).
Definition release_lock (sp : SPACE) : G unit :=
  let! s := Mget in GASSERT (gcd_lock s sp) ;;; Mmodify (upd_lock sp false).
Definition CoreAcquireGcdMemoryLock : G unit := acquire_lock MemorySpace.
Definition CoreReleaseGcdMemoryLock : G unit := release_lock MemorySpace.
Definition CoreAcquireGcdIoLock : G unit := acquire_lock IoSpace.
Definition CoreReleaseGcdIoLock : G unit := release_lock IoSpace.

(** The lock of the operation's map, and the map. *)
Definition acquire_for (Operation : Z) : G SPACE :=
  if negb (Z.land Operation GCD_MEMORY_SPACE_OPERATION =? 0) then CoreAcquireGcdMemoryLock ;;; Mret MemorySpace
  else if negb (Z.land Operation GCD_IO_SPACE_OPERATION =? 0) then CoreAcquireGcdIoLock ;;; Mret IoSpace
  else Mfail AssertFail.
Definition release_for (Operation : Z) : G unit :=
  (if negb (Z.land Operation GCD_MEMORY_SPACE_OPERATION =? 0) then CoreReleaseGcdMemoryLock else Mret tt) ;;;
  (if negb (Z.land Operation GCD_IO_SPACE_OPERATION =? 0) then CoreReleaseGcdIoLock else Mret tt).

(** ** Entries *)

Definition read_entry (a : Z) : G EFI_GCD_MAP_ENTRY := fun s =>
  match gcd_entries s !! a with Some e => Ok (e, s) | None => Fault end.
Definition write_entry (a : Z) (e : EFI_GCD_MAP_ENTRY) : G unit := fun s =>
  match gcd_entries s !! a with
  | Some _ => Ok (tt, upd_entries (<[a := e]> (gcd_entries s)) s)
  | None => Fault
  end.
(** [CR (Link, EFI_GCD_MAP_ENTRY, Link, EFI_GCD_MAP_SIGNATURE)] *)
Definition CR (Link : Z) : G EFI_GCD_MAP_ENTRY :=
  let! e := read_entry Link in GASSERT (Signature e =? EFI_GCD_MAP_SIGNATURE) ;;; Mret e.
(** CoreFreePool for an entry *)
Definition free_entry (a : Z) : G unit := fun s =>
  match gcd_entries s !! a with
  | Some _ => Ok (tt, upd_entries (delete a (gcd_entries s)) s)
  | None => Fault
  end.
(** AllocateZeroPool (sizeof (EFI_GCD_MAP_ENTRY)), not guarded; 0 for NULL *)
Definition new_entry : G Z :=
  Mmodify (upd_guard true) ;;;
  let! s := Mget in
  let! a := (match GcdPool s with
             | Some a => Mmodify (upd_entries (<[a := zero_gcd_entry]> (gcd_entries s))) ;;; Mret a
             | None => Mret 0
             end) in
  Mmodify (upd_guard false) ;;;
  Mret a.

(** The status, TopEntry and BottomEntry. *)
Definition CoreAllocateGcdMapEntry : G (EFI_STATUS * (Z * Z)) :=
  let! TopEntry := new_entry in
  if TopEntry =? 0 then Mret (EFI_OUT_OF_RESOURCES, (0, 0))
  else
    let! BottomEntry := new_entry in
    if BottomEntry =? 0 then free_entry TopEntry ;;; Mret (EFI_OUT_OF_RESOURCES, (0, 0))
    else Mret (EFI_SUCCESS, (TopEntry, BottomEntry)).

Definition CoreInsertGcdMapEntry (Map : SPACE) (Link Base Length TopEntry BottomEntry : Z) : G EFI_STATUS :=
  GASSERT (negb (Length =? 0)) ;;;
  let! Entry := read_entry Link in
  (if BaseAddress Entry <? Base then
     let! b := read_entry BottomEntry in
     GASSERT (Signature b =? 0) ;;;
     write_entry BottomEntry (set_Range (BaseAddress Entry) (wrapU 64 (Base - 1)) Entry) ;;;
     write_entry Link (set_Range Base (EndAddress Entry) Entry) ;;;
     Mmodify (fun s => upd_map Map (insert_before Link BottomEntry (gcd_map s Map)) s)
   else Mret tt) ;;;
  let! Entry := read_entry Link in
  (if wrapU 64 (Base + Length - 1) <? EndAddress Entry then
     let! t := read_entry TopEntry in
     GASSERT (Signature t =? 0) ;;;
     write_entry TopEntry (set_Range (wrapU 64 (Base + Length)) (EndAddress Entry) Entry) ;;;
     write_entry Link (set_Range (BaseAddress Entry) (wrapU 64 (Base + Length - 1)) Entry) ;;;
     Mmodify (fun s => upd_map Map (insert_after Link TopEntry (gcd_map s Map)) s)
   else Mret tt) ;;;
  Mret EFI_SUCCESS.

Definition CoreMergeGcdMapEntry (Map : SPACE) (Link : Z) (Forward : bool) : G EFI_STATUS :=
  let! s := Mget in
  match (if Forward then ForwardLink Link (gcd_map s Map) else BackLink Link (gcd_map s Map)) with
  | None => Mret EFI_SUCCESS
  | Some AdjacentLink =>
      let! Entry := CR Link in
      let! AdjacentEntry := CR AdjacentLink in
      if negb (Capabilities Entry =? Capabilities AdjacentEntry) then Mret EFI_UNSUPPORTED
      else if negb (Attributes Entry =? Attributes AdjacentEntry) then Mret EFI_UNSUPPORTED
      else if negb (GcdMemoryType Entry =? GcdMemoryType AdjacentEntry) then Mret EFI_UNSUPPORTED
      else if negb (GcdIoType Entry =? GcdIoType AdjacentEntry) then Mret EFI_UNSUPPORTED
      else if negb (ImageHandle Entry =? ImageHandle AdjacentEntry) then Mret EFI_UNSUPPORTED
      else if negb (DeviceHandle Entry =? DeviceHandle AdjacentEntry) then Mret EFI_UNSUPPORTED
      else
        write_entry Link (if Forward then set_Range (BaseAddress Entry) (EndAddress AdjacentEntry) Entry
                          else set_Range (BaseAddress AdjacentEntry) (EndAddress Entry) Entry) ;;;
        Mmodify (fun s => upd_map Map (filter (fun x => x <> AdjacentLink) (gcd_map s Map)) s) ;;;
        free_entry AdjacentLink ;;;
        Mret EFI_SUCCESS
  end.

(** [Link = StartLink; while (Link != EndLink->ForwardLink)] with
    [Link = Link->ForwardLink] at the end of the body; the body leaves the
    loop with [Some]. *)
Fixpoint each_link {A} (turns : nat) (Map : SPACE) (body : Z -> G (option A)) (Link : option Z) (EndLink : Z) : G (option A) :=
  let! s := Mget in
  if bool_decide (Link = ForwardLink EndLink (gcd_map s Map)) then Mret None
  else
    match turns, Link with
    | O, _ => Mfail OutOfFuel
    | S _, None => Mfail Fault
    | S turns', Some a =>
        let! r := body a in
        match r with
        | Some x => Mret (Some x)
        | None => let! s := Mget in each_link turns' Map body (ForwardLink a (gcd_map s Map)) EndLink
        end
    end.
(** A turn for every entry of the map, and for the one that may be added. *)
Definition for_links {A} (Map : SPACE) (StartLink EndLink : Z) (body : Z -> G (option A)) : G (option A) :=
  let! s := Mget in each_link (S (length (gcd_map s Map))) Map body (Some StartLink) EndLink.

Definition CoreCleanupGcdMapEntry (TopEntry BottomEntry StartLink EndLink : Z) (Map : SPACE) : G EFI_STATUS :=
  let! t := read_entry TopEntry in
  (if Signature t =? 0 then free_entry TopEntry else Mret tt) ;;;
  let! b := read_entry BottomEntry in
  (if Signature b =? 0 then free_entry BottomEntry else Mret tt) ;;;
  for_links Map StartLink EndLink (fun Link => CoreMergeGcdMapEntry Map Link false ;;; Mret (@None unit)) ;;;
  CoreMergeGcdMapEntry Map EndLink true ;;;
  Mret EFI_SUCCESS.

(** The search, from the entries [l] on; StartLink and EndLink if both are
    found. *)
Fixpoint search_from (l : list Z) (Base Length : Z) (StartLink : option Z) : G (EFI_STATUS * option (Z * Z)) :=
  match l with
  | [] => Mret (EFI_NOT_FOUND, None)
  | Link :: l' =>
      let! Entry := CR Link in
      let StartLink := if (BaseAddress Entry <=? Base) && (Base <=? EndAddress Entry) then Some Link else StartLink in
      match StartLink with
      | Some st =>
          let End := wrapU 64 (Base + Length - 1) in
          if (BaseAddress Entry <=? End) && (End <=? EndAddress Entry) then Mret (EFI_SUCCESS, Some (st, Link))
          else search_from l' Base Length StartLink
      | None => search_from l' Base Length StartLink
      end
  end.
Definition CoreSearchGcdMapEntry (Base Length : Z) (Map : SPACE) : G (EFI_STATUS * option (Z * Z)) :=
  GASSERT (negb (Length =? 0)) ;;;
  let! s := Mget in search_from (gcd_map s Map) Base Length None.

Definition CoreCountGcdMapEntry (Map : SPACE) : G Z :=
  let! s := Mget in Mret (Z.of_nat (length (gcd_map s Map))).

(** ** Changing a range *)

(** The checks of an entry before the change: the status that ends it. *)
Definition convert_check (Operation Base Length Capabilities_ Attributes_ : Z) (Entry : EFI_GCD_MAP_ENTRY) : option EFI_STATUS :=
  if Operation =? GCD_ADD_MEMORY_OPERATION then
    if negb (GcdMemoryType Entry =? EfiGcdMemoryTypeNonExistent) || negb (ImageHandle Entry =? 0) then Some EFI_ACCESS_DENIED else None
  else if Operation =? GCD_ADD_IO_OPERATION then
    if negb (GcdIoType Entry =? EfiGcdIoTypeNonExistent) || negb (ImageHandle Entry =? 0) then Some EFI_ACCESS_DENIED else None
  else if (Operation =? GCD_FREE_MEMORY_OPERATION) || (Operation =? GCD_FREE_IO_OPERATION) then
    if ImageHandle Entry =? 0 then Some EFI_NOT_FOUND else None
  else if Operation =? GCD_REMOVE_MEMORY_OPERATION then
    if GcdMemoryType Entry =? EfiGcdMemoryTypeNonExistent then Some EFI_NOT_FOUND
    else if negb (ImageHandle Entry =? 0) then Some EFI_ACCESS_DENIED else None
  else if Operation =? GCD_REMOVE_IO_OPERATION then
    if GcdIoType Entry =? EfiGcdIoTypeNonExistent then Some EFI_NOT_FOUND
    else if negb (ImageHandle Entry =? 0) then Some EFI_ACCESS_DENIED else None
  else if Operation =? GCD_SET_ATTRIBUTES_MEMORY_OPERATION then
    if negb (Z.land Attributes_ EFI_MEMORY_RUNTIME =? 0) &&
       (negb (Z.land Base EFI_PAGE_MASK =? 0) || negb (Z.land Length EFI_PAGE_MASK =? 0)) then Some EFI_INVALID_PARAMETER
    else if negb (Z.land (Capabilities Entry) Attributes_ =? Attributes_) then Some EFI_UNSUPPORTED else None
  else if Operation =? GCD_SET_CAPABILITIES_MEMORY_OPERATION then
    if negb (Z.land Base EFI_PAGE_MASK =? 0) || negb (Z.land Length EFI_PAGE_MASK =? 0) then Some EFI_INVALID_PARAMETER
    else if negb (Z.land Capabilities_ (Attributes Entry) =? Attributes Entry) then Some EFI_UNSUPPORTED else None
  else None.

(** The change of an entry, and of the variable Attributes, which the entries
    of the range share. *)
Definition convert_entry (Operation Type_ IoType Capabilities_ CpuArchAttributes Attributes_ : Z) (Entry : EFI_GCD_MAP_ENTRY) :
    EFI_GCD_MAP_ENTRY * Z :=
  if Operation =? GCD_ADD_MEMORY_OPERATION then
    (set_Capabilities (if Type_ =? EfiGcdMemoryTypeMemoryMappedIo then Z.lor (Z.lor Capabilities_ EFI_MEMORY_RUNTIME) EFI_MEMORY_PORT_IO
                       else Z.lor Capabilities_ EFI_MEMORY_RUNTIME) (set_GcdMemoryType Type_ Entry), Attributes_)
  else if Operation =? GCD_ADD_IO_OPERATION then (set_GcdIoType IoType Entry, Attributes_)
  else if (Operation =? GCD_FREE_MEMORY_OPERATION) || (Operation =? GCD_FREE_IO_OPERATION) then (set_Handles 0 0 Entry, Attributes_)
  else if Operation =? GCD_REMOVE_MEMORY_OPERATION then
    (set_Capabilities 0 (set_GcdMemoryType EfiGcdMemoryTypeNonExistent Entry), Attributes_)
  else if Operation =? GCD_REMOVE_IO_OPERATION then (set_GcdIoType EfiGcdIoTypeNonExistent Entry, Attributes_)
  else if Operation =? GCD_SET_ATTRIBUTES_MEMORY_OPERATION then
    let Attributes_ := if CpuArchAttributes =? 0
      then Z.lor Attributes_ (Z.land (Attributes Entry) (Z.lor EFI_CACHE_ATTRIBUTE_MASK EFI_MEMORY_ATTRIBUTE_MASK))
      else Attributes_ in
    (set_Attributes Attributes_ Entry, Attributes_)
  else if Operation =? GCD_SET_CAPABILITIES_MEMORY_OPERATION then (set_Capabilities Capabilities_ Entry, Attributes_)
  else (Entry, Attributes_).

(** [Link = StartLink; while (Link != EndLink->ForwardLink)] of the change:
    each entry is cut to the range and changed by [f], with a variable [x]
    that goes along. *)
Fixpoint change_links {A} (turns : nat) (Map : SPACE) (Base Length TopEntry BottomEntry : Z)
    (f : A -> EFI_GCD_MAP_ENTRY -> EFI_GCD_MAP_ENTRY * A) (x : A) (Link : option Z) (EndLink : Z) : G unit :=
  let! s := Mget in
  if bool_decide (Link = ForwardLink EndLink (gcd_map s Map)) then Mret tt
  else
    match turns, Link with
    | O, _ => Mfail OutOfFuel
    | S _, None => Mfail Fault
    | S turns', Some a =>
        CR a ;;;
        CoreInsertGcdMapEntry Map a Base Length TopEntry BottomEntry ;;;
        let! Entry := read_entry a in
        let r := f x Entry in
        write_entry a r.1 ;;;
        let! s := Mget in
        change_links turns' Map Base Length TopEntry BottomEntry f r.2 (ForwardLink a (gcd_map s Map)) EndLink
    end.
Definition change_range {A} (Map : SPACE) (Base Length TopEntry BottomEntry StartLink EndLink : Z)
    (f : A -> EFI_GCD_MAP_ENTRY -> EFI_GCD_MAP_ENTRY * A) (x : A) : G EFI_STATUS :=
  let! s := Mget in
  change_links (S (length (gcd_map s Map))) Map Base Length TopEntry BottomEntry f x (Some StartLink) EndLink ;;;
  CoreCleanupGcdMapEntry TopEntry BottomEntry StartLink EndLink Map.

(** gCpu->SetMemoryAttributes, for attributes that the CPU has. *)
Definition set_cpu_attributes (Base Length CpuArchAttributes : Z) : G EFI_STATUS :=
  if CpuArchAttributes =? 0 then Mret EFI_SUCCESS
  else
    match gCpu with
    | None => Mret EFI_NOT_AVAILABLE_YET
    | Some SetMemoryAttributes => on_gworld (SetMemoryAttributes Base Length CpuArchAttributes)
    end.

(** What CoreConvertSpace does between taking and releasing the lock. *)
Definition convert_locked (Map : SPACE) (Operation Type_ IoType Base Length Capabilities_ Attributes_ : Z) : G EFI_STATUS :=
  let! r := CoreSearchGcdMapEntry Base Length Map in
  match r with
  | (EFI_SUCCESS, Some (StartLink, EndLink)) =>
      let! bad := for_links Map StartLink EndLink
                    (fun Link => let! Entry := CR Link in Mret (convert_check Operation Base Length Capabilities_ Attributes_ Entry)) in
      match bad with
      | Some Status => Mret Status
      | None =>
          let! r := CoreAllocateGcdMapEntry in
          let '(Status, (TopEntry, BottomEntry)) := r in
          if EFI_ERROR Status then Mret EFI_OUT_OF_RESOURCES
          else
            let CpuArchAttributes :=
              if Operation =? GCD_SET_ATTRIBUTES_MEMORY_OPERATION then ConverToCpuArchAttributes Attributes_ else 0 in
            let! Status := set_cpu_attributes Base Length CpuArchAttributes in
            if EFI_ERROR Status then free_entry TopEntry ;;; free_entry BottomEntry ;;; Mret Status
            else
              change_range Map Base Length TopEntry BottomEntry StartLink EndLink
                (fun a e => convert_entry Operation Type_ IoType Capabilities_ CpuArchAttributes a e) Attributes_
      end
  | _ => Mret EFI_UNSUPPORTED
  end.

Definition CoreConvertSpace (Operation Type_ IoType Base Length Capabilities_ Attributes_ : Z) : G EFI_STATUS :=
  if Length =? 0 then Mret EFI_INVALID_PARAMETER
  else
    let! Map := acquire_for Operation in
    let! Status := convert_locked Map Operation Type_ IoType Base Length Capabilities_ Attributes_ in
    release_for Operation ;;;
    Mret Status.

(** ** Allocation *)

Definition CoreAllocateSpaceCheckEntry (Operation : Z) (Entry : EFI_GCD_MAP_ENTRY) (Type_ IoType : Z) : EFI_STATUS :=
  if negb (ImageHandle Entry =? 0) then EFI_NOT_FOUND
  else if Operation =? GCD_ALLOCATE_MEMORY_OPERATION then
    if negb (GcdMemoryType Entry =? Type_) then EFI_NOT_FOUND else EFI_SUCCESS
  else if Operation =? GCD_ALLOCATE_IO_OPERATION then
    if negb (GcdIoType Entry =? IoType) then EFI_NOT_FOUND else EFI_SUCCESS
  else EFI_UNSUPPORTED.

Definition top_down (AllocateType : Z) : bool :=
  (AllocateType =? EfiGcdAllocateMaxAddressSearchTopDown) || (AllocateType =? EfiGcdAllocateAnySearchTopDown).
Definition with_max (AllocateType : Z) : bool :=
  (AllocateType =? EfiGcdAllocateMaxAddressSearchBottomUp) || (AllocateType =? EfiGcdAllocateMaxAddressSearchTopDown).

(** What to do with an entry that can be used: go on, give up, or try the
    range at an address. *)
Inductive CANDIDATE : Type := Skip | GiveUp (Base : Z) | Try (Base : Z).
Definition candidate (TopDown : bool) (AlignmentMask Length MaxAddress Base : Z) (Entry : EFI_GCD_MAP_ENTRY) : CANDIDATE :=
  let NotMask := wrapU 64 (Z.lnot AlignmentMask) in
  if TopDown then
    if MaxAddress <? wrapU 64 (BaseAddress Entry + Length) then Skip
    else if wrapU 64 (EndAddress Entry + 1) <? Length then GiveUp Base
    else
      let Base := if MaxAddress <? EndAddress Entry then MaxAddress else EndAddress Entry in
      Try (Z.land (wrapU 64 (Base + 1 - Length)) NotMask)
  else
    let Base := Z.land (wrapU 64 (BaseAddress Entry + AlignmentMask)) NotMask in
    if MaxAddress <? wrapU 64 (Base + Length - 1) then GiveUp Base else Try Base.

(** The first entry of the range that cannot be used, with its status. *)
Definition refusal (Map : SPACE) (Operation Type_ IoType StartLink EndLink : Z) : G (option (EFI_STATUS * Z)) :=
  for_links Map StartLink EndLink
    (fun Link => let! Entry := CR Link in
       let Status := CoreAllocateSpaceCheckEntry Operation Entry Type_ IoType in
       Mret (if EFI_ERROR Status then Some (Status, Link) else None)).

(** [while (Link != Map)]: *BaseAddress, and the links of the range if one is
    found. *)
Fixpoint alloc_loop (turns : nat) (Map : SPACE) (Operation Type_ IoType : Z) (TopDown : bool) (AlignmentMask Length MaxAddress Base : Z)
    (Link : option Z) : G (Z * option (Z * Z)) :=
  match Link with
  | None => Mret (Base, None)
  | Some a =>
      match turns with
      | O => Mfail OutOfFuel
      | S turns' =>
          let next := alloc_loop turns' Map Operation Type_ IoType TopDown AlignmentMask Length MaxAddress in
          let! Entry := CR a in
          let! s := Mget in
          let Link := if TopDown then BackLink a (gcd_map s Map) else ForwardLink a (gcd_map s Map) in
          if EFI_ERROR (CoreAllocateSpaceCheckEntry Operation Entry Type_ IoType) then next Base Link
          else
            match candidate TopDown AlignmentMask Length MaxAddress Base Entry with
            | Skip => next Base Link
            | GiveUp Base => Mret (Base, None)
            | Try Base =>
                let! r := CoreSearchGcdMapEntry Base Length Map in
                match r with
                | (EFI_SUCCESS, Some (StartLink, EndLink)) =>
                    let! bad := refusal Map Operation Type_ IoType StartLink EndLink in
                    match bad with
                    | None => Mret (Base, Some (StartLink, EndLink))
                    | Some (_, SubLink) => next Base (Some SubLink)
                    end
                | _ => Mret (Base, None)
                end
            end
      end
  end.

(** The status so far, *BaseAddress and the links of the range to allocate. *)
Definition alloc_search (Map : SPACE) (Operation AllocateType Type_ IoType Alignment Length Base : Z) :
    G (EFI_STATUS * (Z * option (Z * Z))) :=
  let AlignmentMask := wrapU 64 (Z.shiftl 1 Alignment - 1) in
  if AllocateType =? EfiGcdAllocateAddress then
    if negb (Z.land Base AlignmentMask =? 0) then Mret (EFI_NOT_FOUND, (Base, None))
    else
      let! r := CoreSearchGcdMapEntry Base Length Map in
      match r with
      | (EFI_SUCCESS, Some (StartLink, EndLink)) =>
          let! bad := refusal Map Operation Type_ IoType StartLink EndLink in
          match bad with
          | Some (Status, _) => Mret (Status, (Base, None))
          | None => Mret (EFI_SUCCESS, (Base, Some (StartLink, EndLink)))
          end
      | _ => Mret (EFI_NOT_FOUND, (Base, None))
      end
  else
    let! s := Mget in
    match last (gcd_map s Map) with
    | None => Mfail Fault
    | Some z =>
        let! Entry := CR z in
        let MaxAddress := if with_max AllocateType then Base else EndAddress Entry in
        let TopDown := top_down AllocateType in
        let! r := alloc_loop (S (2 * length (gcd_map s Map))) Map Operation Type_ IoType TopDown AlignmentMask Length MaxAddress Base
                    (if TopDown then Some z else head (gcd_map s Map)) in
        Mret (match r.2 with Some _ => EFI_SUCCESS | None => EFI_NOT_FOUND end, r)
    end.

Definition alloc_locked (Map : SPACE) (Operation AllocateType Type_ IoType Alignment Length Base Image Device : Z) : G (EFI_STATUS * Z) :=
  let! r := alloc_search Map Operation AllocateType Type_ IoType Alignment Length Base in
  match r with
  | (Status, (Base, Some (StartLink, EndLink))) =>
      let! r := CoreAllocateGcdMapEntry in
      let '(Status, (TopEntry, BottomEntry)) := r in
      if EFI_ERROR Status then Mret (EFI_OUT_OF_RESOURCES, Base)
      else
        let! Status := change_range Map Base Length TopEntry BottomEntry StartLink EndLink
                         (fun (_ : unit) e => (set_Handles Image Device e, tt)) tt in
        Mret (Status, Base)
  | (Status, (Base, None)) => Mret (Status, Base)
  end.

(** The status, and *BaseAddress; [None] for a NULL pointer. *)
Definition CoreAllocateSpace (Operation AllocateType Type_ IoType Alignment Length : Z) (Base : option Z) (Image Device : Z) :
    G (EFI_STATUS * option Z) :=
  if EfiGcdMaxAllocateType <=? wrapU 32 AllocateType then Mret (EFI_INVALID_PARAMETER, Base)
  else if EfiGcdMemoryTypeMaximum <=? wrapU 32 Type_ then Mret (EFI_INVALID_PARAMETER, Base)
  else if EfiGcdIoTypeMaximum <=? wrapU 32 IoType then Mret (EFI_INVALID_PARAMETER, Base)
  else
    match Base with
    | None => Mret (EFI_INVALID_PARAMETER, None)
    | Some b =>
        if Image =? 0 then Mret (EFI_INVALID_PARAMETER, Base)
        else if 64 <=? Alignment then Mret (EFI_NOT_FOUND, Base)
        else if Length =? 0 then Mret (EFI_INVALID_PARAMETER, Base)
        else
          let! Map := acquire_for Operation in
          let! r := alloc_locked Map Operation AllocateType Type_ IoType Alignment Length b Image Device in
          release_for Operation ;;;
          Mret (r.1, Some r.2)
    end.

(** ** The services *)

Definition CoreInternalAddMemorySpace (Type_ Base Length Capabilities_ : Z) : G EFI_STATUS :=
  if (Type_ <=? EfiGcdMemoryTypeNonExistent) || (EfiGcdMemoryTypeMaximum <=? Type_) then Mret EFI_INVALID_PARAMETER
  else CoreConvertSpace GCD_ADD_MEMORY_OPERATION Type_ 0 Base Length Capabilities_ 0.

Definition CoreAllocateMemorySpace (AllocateType Type_ Alignment Length : Z) (Base : option Z) (Image Device : Z) :
    G (EFI_STATUS * option Z) :=
  CoreAllocateSpace GCD_ALLOCATE_MEMORY_OPERATION AllocateType Type_ 0 Alignment Length Base Image Device.

(** Page by page, when the pages cannot be allocated together. *)
Fixpoint add_pages (pages : nat) (Type_ PageBaseAddress Capabilities_ : Z) (Status : EFI_STATUS) : G EFI_STATUS :=
  match pages with
  | O => Mret Status
  | S pages' =>
      let! r := CoreAllocateMemorySpace EfiGcdAllocateAddress Type_ EFI_PAGE_SHIFT EFI_PAGE_SIZE (Some PageBaseAddress)
                  gDxeCoreImageHandle 0 in
      let PageBaseAddress := default 0 r.2 in
      (if EFI_ERROR r.1 then Mret tt
       else on_gworld (CoreAddMemoryDescriptor EfiConventionalMemory PageBaseAddress 1 Capabilities_)) ;;;
      add_pages pages' Type_ (wrapU 64 (PageBaseAddress + EFI_PAGE_SIZE)) Capabilities_ r.1
  end.

(** The pages of a range: PageBaseAddress and PageLength. *)
Definition page_range (Base Length : Z) : Z * Z :=
  let PageBaseAddress := PageAlignAddress Base in
  (PageBaseAddress, PageAlignLength (wrapU 64 (Base + Length - PageBaseAddress))).

Definition CoreAddMemorySpace (Type_ Base Length Capabilities_ : Z) : G EFI_STATUS :=
  let! Status := CoreInternalAddMemorySpace Type_ Base Length Capabilities_ in
  if negb (EFI_ERROR Status) && ((Type_ =? EfiGcdMemoryTypeSystemMemory) || (Type_ =? EfiGcdMemoryTypeMoreReliable)) then
    let '(PageBaseAddress, PageLength) := page_range Base Length in
    let! r := CoreAllocateMemorySpace EfiGcdAllocateAddress Type_ EFI_PAGE_SHIFT PageLength (Some PageBaseAddress)
                gDxeCoreImageHandle 0 in
    let PageBaseAddress := default 0 r.2 in
    if negb (EFI_ERROR r.1) then
      on_gworld (CoreAddMemoryDescriptor EfiConventionalMemory PageBaseAddress (Z.shiftr PageLength EFI_PAGE_SHIFT) Capabilities_) ;;;
      Mret r.1
    else add_pages (Z.to_nat (PageLength / EFI_PAGE_SIZE)) Type_ PageBaseAddress Capabilities_ r.1
  else Mret Status.

Definition CoreFreeMemorySpace (Base Length : Z) : G EFI_STATUS := CoreConvertSpace GCD_FREE_MEMORY_OPERATION 0 0 Base Length 0 0.
Definition CoreRemoveMemorySpace (Base Length : Z) : G EFI_STATUS := CoreConvertSpace GCD_REMOVE_MEMORY_OPERATION 0 0 Base Length 0 0.

Definition BuildMemoryDescriptor (Entry : EFI_GCD_MAP_ENTRY) : MEMORY_DESCRIPTOR :=
  mkMemoryDescriptor (BaseAddress Entry) (wrapU 64 (EndAddress Entry - BaseAddress Entry + 1)) (Capabilities Entry) (Attributes Entry)
    (GcdMemoryType Entry) (ImageHandle Entry) (DeviceHandle Entry).

(** The status and what is stored at Descriptor; [given] is false for a NULL
    pointer. *)
Definition CoreGetMemorySpaceDescriptor (Base : Z) (given : bool) : G (EFI_STATUS * option MEMORY_DESCRIPTOR) :=
  if negb given then Mret (EFI_INVALID_PARAMETER, None)
  else
    CoreAcquireGcdMemoryLock ;;;
    let! r := CoreSearchGcdMapEntry Base 1 MemorySpace in
    let! q := (match r with
               | (EFI_SUCCESS, Some (StartLink, _)) =>
                   let! Entry := CR StartLink in Mret (EFI_SUCCESS, Some (BuildMemoryDescriptor Entry))
               | _ => Mret (EFI_NOT_FOUND, None)
               end) in
    CoreReleaseGcdMemoryLock ;;;
    Mret q.

Definition CoreSetMemorySpaceAttributes (Base Length Attributes_ : Z) : G EFI_STATUS :=
  CoreConvertSpace GCD_SET_ATTRIBUTES_MEMORY_OPERATION 0 0 Base Length 0 Attributes_.

Definition CoreSetMemorySpaceCapabilities (Base Length Capabilities_ : Z) : G EFI_STATUS :=
  let! Status := CoreConvertSpace GCD_SET_CAPABILITIES_MEMORY_OPERATION 0 0 Base Length Capabilities_ 0 in
  (if EFI_ERROR Status then Mret tt
   else on_gworld (CoreUpdateMemoryAttributes Base (Z.shiftr Length EFI_PAGE_SHIFT)
                     (Z.land Capabilities_ (wrapU 64 (Z.lnot EFI_MEMORY_RUNTIME))))) ;;;
  Mret Status.

(** The entries of the map, in order. *)
Fixpoint read_entries (l : list Z) : G (list EFI_GCD_MAP_ENTRY) :=
  match l with
  | [] => Mret []
  | a :: l' => let! e := CR a in let! es := read_entries l' in Mret (e :: es)
  end.

(** [sizeof (EFI_GCD_MEMORY_SPACE_DESCRIPTOR)] and that of the I/O one, with
    8-byte pointers *)
Definition sizeof_MEMORY_DESCRIPTOR : Z := 56.
Definition sizeof_IO_DESCRIPTOR : Z := 40.

(** [while (TRUE)]: the lock is taken.  NumberOfDescriptors and the array of
    the last turn go along. *)
Fixpoint map_loop (turns : nat) (NumberOfDescriptors MemorySpaceMap : Z) : G (EFI_STATUS * option (Z * Z * list MEMORY_DESCRIPTOR)) :=
  match turns with
  | O => Mfail OutOfFuel
  | S turns' =>
      let! DescriptorCount := CoreCountGcdMapEntry MemorySpace in
      if (DescriptorCount =? NumberOfDescriptors) && negb (MemorySpaceMap =? 0) then
        let! s := Mget in
        let! es := read_entries (gcd_map s MemorySpace) in
        CoreReleaseGcdMemoryLock ;;;
        Mret (EFI_SUCCESS, Some (NumberOfDescriptors, MemorySpaceMap, BuildMemoryDescriptor <$> es))
      else
        CoreReleaseGcdMemoryLock ;;;
        (if negb (MemorySpaceMap =? 0) then MapFree MemorySpaceMap else Mret tt) ;;;
        let! p := MapPool (DescriptorCount * sizeof_MEMORY_DESCRIPTOR) in
        if p =? 0 then Mret (EFI_OUT_OF_RESOURCES, Some (0, 0, []))
        else CoreAcquireGcdMemoryLock ;;; map_loop turns' DescriptorCount p
  end.
(** The status, and *NumberOfDescriptors, *MemorySpaceMap and the descriptors
    there if they are stored; [count] and [map] are false for NULL pointers. *)
Definition CoreGetMemorySpaceMap (count map : bool) : G (EFI_STATUS * option (Z * Z * list MEMORY_DESCRIPTOR)) :=
  if negb count then Mret (EFI_INVALID_PARAMETER, None)
  else if negb map then Mret (EFI_INVALID_PARAMETER, None)
  else CoreAcquireGcdMemoryLock ;;; map_loop map_turns 0 0.

Definition CoreAddIoSpace (IoType Base Length : Z) : G EFI_STATUS :=
  if (IoType <=? EfiGcdIoTypeNonExistent) || (EfiGcdIoTypeMaximum <=? IoType) then Mret EFI_INVALID_PARAMETER
  else CoreConvertSpace GCD_ADD_IO_OPERATION 0 IoType Base Length 0 0.
Definition CoreAllocateIoSpace (AllocateType IoType Alignment Length : Z) (Base : option Z) (Image Device : Z) :
    G (EFI_STATUS * option Z) :=
  CoreAllocateSpace GCD_ALLOCATE_IO_OPERATION AllocateType 0 IoType Alignment Length Base Image Device.
Definition CoreFreeIoSpace (Base Length : Z) : G EFI_STATUS := CoreConvertSpace GCD_FREE_IO_OPERATION 0 0 Base Length 0 0.
Definition CoreRemoveIoSpace (Base Length : Z) : G EFI_STATUS := CoreConvertSpace GCD_REMOVE_IO_OPERATION 0 0 Base Length 0 0.

Definition BuildIoDescriptor (Entry : EFI_GCD_MAP_ENTRY) : IO_DESCRIPTOR :=
  mkIoDescriptor (BaseAddress Entry) (wrapU 64 (EndAddress Entry - BaseAddress Entry + 1)) (GcdIoType Entry) (ImageHandle Entry)
    (DeviceHandle Entry).

Definition CoreGetIoSpaceDescriptor (Base : Z) (given : bool) : G (EFI_STATUS * option IO_DESCRIPTOR) :=
  if negb given then Mret (EFI_INVALID_PARAMETER, None)
  else
    CoreAcquireGcdIoLock ;;;
    let! r := CoreSearchGcdMapEntry Base 1 IoSpace in
    let! q := (match r with
               | (EFI_SUCCESS, Some (StartLink, _)) =>
                   let! Entry := CR StartLink in Mret (EFI_SUCCESS, Some (BuildIoDescriptor Entry))
               | _ => Mret (EFI_NOT_FOUND, None)
               end) in
    CoreReleaseGcdIoLock ;;;
    Mret q.

Definition CoreGetIoSpaceMap (count map : bool) : G (EFI_STATUS * option (Z * Z * list IO_DESCRIPTOR)) :=
  if negb count then Mret (EFI_INVALID_PARAMETER, None)
  else if negb map then Mret (EFI_INVALID_PARAMETER, None)
  else
    CoreAcquireGcdIoLock ;;;
    let! NumberOfDescriptors := CoreCountGcdMapEntry IoSpace in
    let! p := MapPool (NumberOfDescriptors * sizeof_IO_DESCRIPTOR) in
    let! Status := (if p =? 0 then Mret (EFI_OUT_OF_RESOURCES, [])
                    else
                      let! s := Mget in
                      let! es := read_entries (gcd_map s IoSpace) in
                      Mret (EFI_SUCCESS, BuildIoDescriptor <$> es)) in
    CoreReleaseGcdIoLock ;;;
    Mret (Status.1, Some (NumberOfDescriptors, p, Status.2)).
End Gcd.
