(* ===== verification/GcdMap.v ===== *)
(** * GcdMap: maps of an address space

    A map as the list of its entries: a chain of ranges without gaps, in which
    neighbours differ ([reduced]).  Such a list is determined by what it says
    about every address ([info]), so a change of a map is described by what it
    does to the addresses.  [mid] is the state of a map while it is changed:
    [l] are its links with the entries [es], [T] the entries that are allocated
    and not yet linked, [D] all that may be touched. *)

From stdpp Require Import base option list gmap fin_maps.
From Stdlib Require Import ZArith Lia.
From S2P Require Import Prelude Gcd.

Local Open Scope Z_scope.
Local Open Scope edk_scope.

(** ** Lists of entries *)

Abbreviation ENTRY := EFI_GCD_MAP_ENTRY.

(** An entry without its range. *)
Definition kind (e : ENTRY) : ENTRY := set_Range 0 0 e.
Arguments kind : simpl never.

Fixpoint chain (es : list ENTRY) (lo hi : Z) : Prop :=
  match es with
  | [] => lo = hi + 1
  | e :: es' => BaseAddress e = lo /\ lo <= EndAddress e /\ chain es' (EndAddress e + 1) hi
  end.

Fixpoint info (es : list ENTRY) (x : Z) : option ENTRY :=
  match es with
  | [] => None
  | e :: es' => if decide (BaseAddress e <= x <= EndAddress e) then Some (kind e) else info es' x
  end.

Fixpoint reduced (es : list ENTRY) : Prop :=
  match es with
  | [] => True
  | e1 :: es' => (forall e2, head es' = Some e2 -> kind e1 <> kind e2) /\ reduced es'
  end.
Definition signed (es : list ENTRY) : Prop := Forall (fun e => Signature e = EFI_GCD_MAP_SIGNATURE) es.

Lemma kind_set_Range b n e : kind (set_Range b n e) = kind e.
Proof. done. Qed.
Lemma set_Range_id e : set_Range (BaseAddress e) (EndAddress e) e = e.
Proof. by destruct e. Qed.
Lemma kind_Signature e e' : kind e = kind e' -> Signature e = Signature e'.
Proof. intros H. by injection H. Qed.

Lemma chain_app es1 es2 lo hi : chain (es1 ++ es2) lo hi <-> exists m, chain es1 lo (m - 1) /\ chain es2 m hi.
Proof.
  revert lo. induction es1 as [|e es1 IH]; intros lo; cbn.
  - split; [intros H; exists lo; split; [lia|done]|]. intros (m & E & H). by replace lo with m by lia.
  - split.
    + intros (E & L & (m & H1 & H2)%IH). by exists m.
    + intros (m & (E & L & H1) & H2). split_and!; try done. apply IH. by exists m.
Qed.
Lemma chain_le es lo hi : chain es lo hi -> lo <= hi + 1.
Proof. revert lo. induction es as [|e es IH]; intros lo; cbn; [lia|]. intros (E & L & H%IH). lia. Qed.
Lemma chain_range es lo hi e : chain es lo hi -> e ∈ es -> lo <= BaseAddress e /\ BaseAddress e <= EndAddress e <= hi.
Proof.
  revert lo. induction es as [|e0 es IH]; intros lo; cbn; [intros _ []%elem_of_nil|]. intros (E & L & H) [->|He]%elem_of_cons.
  - apply chain_le in H. lia.
  - destruct (IH _ H He). lia.
Qed.

Lemma chain_lt es lo hi i j e e' : chain es lo hi -> es !! i = Some e -> es !! j = Some e' -> (i < j)%nat -> EndAddress e < BaseAddress e'.
Proof.
  intros C Hi Hj Hij. pose proof (take_drop_middle es i e Hi) as E. rewrite <- E in C. apply chain_app in C as (k & _ & (_ & _ & C)).
  apply (chain_range _ _ _ e') in C; [lia|]. apply list_elem_of_lookup. exists (j - S i)%nat. rewrite lookup_drop. by replace (S i + (j - S i))%nat with j by lia.
Qed.
Lemma chain_order es lo hi i j e e' : chain es lo hi -> es !! i = Some e -> es !! j = Some e' -> BaseAddress e < BaseAddress e' -> (i < j)%nat.
Proof.
  intros C Hi Hj Hlt. destruct (lt_eq_lt_dec i j) as [[| ->]|Hji]; [done|simplify_eq; lia|]. pose proof (chain_lt _ _ _ _ _ _ _ C Hj Hi Hji).
  assert (BaseAddress e' <= EndAddress e') by (apply (chain_range _ _ _ e' C); by eapply list_elem_of_lookup_2). lia.
Qed.

Lemma chain_sep es lo hi e e' : chain es lo hi -> e ∈ es -> e' ∈ es -> BaseAddress e <= BaseAddress e' -> e = e' \/ EndAddress e < BaseAddress e'.
Proof.
  intros C (i & Hi)%list_elem_of_lookup (j & Hj)%list_elem_of_lookup Hle. destruct (lt_eq_lt_dec i j) as [[Hij| ->]|Hji].
  - right. by apply (chain_lt _ _ _ _ _ _ _ C Hi Hj).
  - left. congruence.
  - pose proof (chain_lt _ _ _ _ _ _ _ C Hj Hi Hji).
    assert (BaseAddress e' <= EndAddress e') by (apply (chain_range _ _ _ e' C); by eapply list_elem_of_lookup_2). lia.
Qed.

Lemma info_range es lo hi x : chain es lo hi -> is_Some (info es x) <-> lo <= x <= hi.
Proof.
  revert lo. induction es as [|e es IH]; intros lo; cbn.
  - intros H. split; [by intros [? ?]|lia].
  - intros (E & L & H). pose proof (chain_le _ _ _ H). case_decide; [split; [lia|by eexists]|]. rewrite (IH _ H). lia.
Qed.
Lemma info_app es1 es2 lo m x : chain es1 lo (m - 1) -> info (es1 ++ es2) x = if decide (lo <= x < m) then info es1 x else info es2 x.
Proof.
  revert lo. induction es1 as [|e es1 IH]; intros lo; cbn.
  - intros H. case_decide; [lia|done].
  - intros (E & L & H). pose proof (chain_le _ _ _ H). rewrite (IH _ H). repeat case_decide; try done; lia.
Qed.
Lemma info_elem es lo hi e x : chain es lo hi -> e ∈ es -> BaseAddress e <= x <= EndAddress e -> info es x = Some (kind e).
Proof.
  intros H (l1 & l2 & ->)%list_elem_of_split Hx. apply chain_app in H as (m & H1 & H2). rewrite (info_app _ _ _ _ _ H1).
  destruct H2 as (E & L & _). rewrite decide_False by lia. cbn. by rewrite decide_True by lia.
Qed.

Lemma info_elem_inv es x k : info es x = Some k -> exists e, e ∈ es /\ k = kind e.
Proof.
  induction es as [|e es IH]; cbn; [done|]. case_decide; [intros [= <-]; exists e; set_solver|].
  intros (e' & ? & ?)%IH. exists e'. set_solver.
Qed.

(** Two neighbours of the same kind are one entry. *)
Lemma chain_merge es1 e1 e2 es2 e lo hi : chain (es1 ++ e1 :: e2 :: es2) lo hi ->
  BaseAddress e = BaseAddress e1 -> EndAddress e = EndAddress e2 -> chain (es1 ++ e :: es2) lo hi.
Proof.
  intros (m & H1 & (E & L & E2 & L2 & H))%chain_app Hb He. apply chain_app. exists m. split; [done|]. cbn.
  rewrite Hb, He. split_and!; [done|lia|done].
Qed.
Lemma info_merge es1 e1 e2 es2 e lo hi x : chain (es1 ++ e1 :: e2 :: es2) lo hi ->
  BaseAddress e = BaseAddress e1 -> EndAddress e = EndAddress e2 -> kind e = kind e1 -> kind e1 = kind e2 ->
  info (es1 ++ e :: es2) x = info (es1 ++ e1 :: e2 :: es2) x.
Proof.
  intros (m & H1 & (E & L & E2 & L2 & H))%chain_app Hb He K1 K2. rewrite !(info_app _ _ _ _ _ H1). cbn.
  case_decide; [done|]. rewrite Hb, He, K1, <- K2. repeat case_decide; try done; lia.
Qed.

Lemma reduced_cons e es : reduced (e :: es) <-> reduced es /\ (forall e2, head es = Some e2 -> kind e <> kind e2).
Proof. cbn. tauto. Qed.
Lemma reduced_app es1 es2 : reduced (es1 ++ es2) <->
  reduced es1 /\ reduced es2 /\ (forall e1 e2, last es1 = Some e1 -> head es2 = Some e2 -> kind e1 <> kind e2).
Proof.
  induction es1 as [|e es1 IH].
  { cbn. split; [intros H; split_and!; [done|done|intros ? ? [=]]|by intros (_ & H & _)]. }
  cbn [app]. rewrite !reduced_cons, IH. destruct es1 as [|e' es1].
  - cbn [app last head reduced]. split.
    + intros [[_ [H _]] H2]. split_and!; [done|intros ? [=]|done|]. intros e1 e2 [= <-]. apply H2.
    + intros (_ & H & H2). split_and!; [done|done|intros ? ? [=]|]. intros e2. by apply H2.
  - cbn [app head]. change (last (e :: e' :: es1)) with (last (e' :: es1)). tauto.
Qed.
Lemma reduced_snoc es e : reduced (es ++ [e]) <-> reduced es /\ (forall e1, last es = Some e1 -> kind e1 <> kind e).
Proof.
  rewrite reduced_app. cbn [head reduced]. split.
  - intros (H1 & _ & H2). split; [done|]. intros e1 E. by apply H2.
  - intros [H1 H2]. split_and!; [done|intros ? [=]|done|]. intros e1 e2 E [= <-]. by apply H2.
Qed.
(** An entry may be replaced by one of its kind. *)
Lemma reduced_same es1 e e' es2 : kind e = kind e' -> reduced (es1 ++ e :: es2) -> reduced (es1 ++ e' :: es2).
Proof.
  intros K. rewrite !reduced_app, !reduced_cons. cbn [head]. intros (H1 & [H2 H3] & H4). split_and!; try done.
  - intros e2 E. rewrite <- K. by apply H3.
  - intros e1 e2 E [= <-]. rewrite <- K. by apply H4.
Qed.

(** A reduced chain is determined by what it says of the addresses. *)
Lemma chain_canonical es es' lo hi : chain es lo hi -> chain es' lo hi -> reduced es -> reduced es' ->
  (forall x, info es x = info es' x) -> es = es'.
Proof.
  revert es' lo. induction es as [|e es IH]; intros es' lo C C' R R' H.
  - destruct es' as [|e' es']; [done|]. cbn in C, C'. destruct C' as (E & L & C'). apply chain_le in C'. lia.
  - destruct es' as [|e' es']; [cbn in C, C'; destruct C as (E & L & C); apply chain_le in C; lia|].
    cbn [chain] in C, C'. destruct C as (E & L & C), C' as (E' & L' & C'). apply reduced_cons in R as [R1 R2], R' as [R1' R2'].
    assert (kind e = kind e') as K.
    { specialize (H lo). cbn in H. rewrite !decide_True in H by lia. congruence. }
    assert (EndAddress e = EndAddress e') as Ee.
    { destruct (Z.lt_trichotomy (EndAddress e) (EndAddress e')) as [Hlt|[|Hlt]]; [|done|]; exfalso.
      - specialize (H (EndAddress e + 1)). cbn in H. rewrite decide_False, decide_True in H by lia.
        destruct es as [|e2 es]; [done|]. cbn in C. destruct C as (E2 & L2 & C). cbn in H. rewrite decide_True in H by lia.
        apply (R2 e2 eq_refl). congruence.
      - specialize (H (EndAddress e' + 1)). cbn in H. rewrite decide_True, decide_False in H by lia.
        destruct es' as [|e2 es']; [done|]. cbn in C'. destruct C' as (E2 & L2 & C'). cbn in H. rewrite decide_True in H by lia.
        apply (R2' e2 eq_refl). congruence. }
    assert (e = e') as <-. { destruct e, e'. cbn in *. unfold kind, set_Range in K. cbn in K. injection K as. by subst. }
    f_equal. apply (IH es' (EndAddress e + 1)); try done. intros x. specialize (H x). cbn in H. case_decide; [|done].
    trans (@None ENTRY); [|symmetry]; apply eq_None_not_Some; [rewrite (info_range _ _ _ _ C)|rewrite (info_range _ _ _ _ C')]; lia.
Qed.

(** ** Links *)

Section Links.
Context (a : Z) (l1 l2 : list Z).
Hypothesis fresh : a ∉ l1.
Lemma ForwardLink_app : ForwardLink a (l1 ++ a :: l2) = head l2.
Proof.
  induction l1 as [|b l IH]; cbn; [by rewrite Z.eqb_refl|]. apply not_elem_of_cons in fresh as [Hb Hl].
  rewrite (proj2 (Z.eqb_neq b a)) by done. by apply IH.
Qed.
Lemma back_from_app p : back_from p a (l1 ++ a :: l2) = match last l1 with Some b => Some b | None => p end.
Proof.
  revert p. induction l1 as [|b l IH]; intros p; cbn [app back_from]; [by rewrite Z.eqb_refl|].
  apply not_elem_of_cons in fresh as [Hb Hl]. rewrite (proj2 (Z.eqb_neq b a)), IH by done.
  destruct l as [|c l]; [done|]. change (last (b :: c :: l)) with (last (c :: l)). by destruct (last_is_Some (c :: l)) as [_ [? ->]].
Qed.
Lemma BackLink_app : BackLink a (l1 ++ a :: l2) = last l1.
Proof. unfold BackLink. rewrite back_from_app. by destruct (last l1). Qed.
Lemma insert_before_app x : insert_before a x (l1 ++ a :: l2) = l1 ++ x :: a :: l2.
Proof.
  induction l1 as [|b l IH]; cbn; [by rewrite Z.eqb_refl|]. apply not_elem_of_cons in fresh as [Hb Hl].
  rewrite (proj2 (Z.eqb_neq b a)) by done. by rewrite IH.
Qed.
Lemma insert_after_app x : insert_after a x (l1 ++ a :: l2) = l1 ++ a :: x :: l2.
Proof.
  induction l1 as [|b l IH]; cbn; [by rewrite Z.eqb_refl|]. apply not_elem_of_cons in fresh as [Hb Hl].
  rewrite (proj2 (Z.eqb_neq b a)) by done. by rewrite IH.
Qed.
Lemma filter_app_out : a ∉ l2 -> filter (fun x => x <> a) (l1 ++ a :: l2) = l1 ++ l2.
Proof.
  intros H2. rewrite filter_app, filter_cons_False by (intros H; by apply H). by rewrite !filter_notin.
Qed.
End Links.

(** ** A map while it is changed *)

Definition reps (h : gmap Z ENTRY) (l : list Z) (es : list ENTRY) : Prop := Forall2 (fun a e => h !! a = Some e) l es.

Lemma reps_insert h l es a e : a ∉ l -> reps h l es -> reps (<[a := e]> h) l es.
Proof.
  intros Ha H. induction H as [|b e' l es H1 H2 IH]; constructor.
  - rewrite lookup_insert_ne; [done|]. intros ->. set_solver.
  - apply IH. set_solver.
Qed.
Lemma reps_delete h l es a : a ∉ l -> reps h l es -> reps (delete a h) l es.
Proof.
  intros Ha H. induction H as [|b e' l es H1 H2 IH]; constructor.
  - rewrite lookup_delete_ne; [done|]. intros ->. set_solver.
  - apply IH. set_solver.
Qed.
Lemma reps_frame h h' l es : (forall a, a ∈ l -> h' !! a = h !! a) -> reps h l es -> reps h' l es.
Proof.
  intros E H. induction H as [|b e' l es H1 H2 IH]; constructor; [rewrite E by set_solver; done|]. apply IH. set_solver.
Qed.
Lemma reps_mid h l1 a l2 es : reps h (l1 ++ a :: l2) es -> exists es1 e es2,
  es = es1 ++ e :: es2 /\ reps h l1 es1 /\ h !! a = Some e /\ reps h l2 es2.
Proof.
  intros (es1 & es' & H1 & H2 & ->)%Forall2_app_inv_l. apply Forall2_cons_inv_l in H2 as (e & es2 & He & H2 & ->). by exists es1, e, es2.
Qed.
Lemma reps_mid_r h l es1 e es2 : reps h l (es1 ++ e :: es2) -> exists l1 a l2,
  l = l1 ++ a :: l2 /\ reps h l1 es1 /\ h !! a = Some e /\ reps h l2 es2.
Proof.
  intros (l1 & l' & H1 & H2 & ->)%Forall2_app_inv_r. apply Forall2_cons_inv_r in H2 as (a & l2 & He & H2 & ->). by exists l1, a, l2.
Qed.
Lemma reps_app h l1 l2 es1 es2 : reps h l1 es1 -> reps h l2 es2 -> reps h (l1 ++ l2) (es1 ++ es2).
Proof. apply Forall2_app. Qed.

(** The memory of the map: [l] holds [es], [T] is allocated and zero; outside
    of [D] it is as in [h0], and in [D] nothing else is allocated. *)
Record region (D : list Z) (h0 h : gmap Z ENTRY) (l : list Z) (es : list ENTRY) (T : list Z) : Prop := {
  rg_reps : reps h l es;
  rg_nodup : NoDup (l ++ T);
  rg_spare : forall t, t ∈ T -> h !! t = Some zero_gcd_entry;
  rg_frame : forall a, a ∉ D -> h !! a = h0 !! a;
  rg_used : forall a, a ∈ D -> is_Some (h !! a) -> a ∈ l ++ T;
  rg_inside : l ++ T ⊆ D
}.

Section Region.
Context (D : list Z) (h0 : gmap Z ENTRY).
Lemma region_set h l1 a l2 es1 e es2 T e' : region D h0 h (l1 ++ a :: l2) (es1 ++ e :: es2) T -> length l1 = length es1 ->
  region D h0 (<[a := e']> h) (l1 ++ a :: l2) (es1 ++ e' :: es2) T.
Proof.
  intros [R N S F U I] Hl. apply Forall2_app_inv in R as [R1 R2]; [|done]. inversion R2; subst.
  assert (a ∉ l1 /\ a ∉ l2 /\ a ∉ T) as (N1 & N2 & N3).
  { rewrite <- app_assoc in N. apply NoDup_app in N as (_ & N1 & N2). cbn in N2. apply NoDup_cons in N2 as [N2 _]. set_solver. }
  split; [|done| | | |done].
  - apply reps_app; [by apply reps_insert|]. constructor; [apply lookup_insert_eq|by apply reps_insert].
  - intros t Ht. rewrite lookup_insert_ne by (intros ->; done). by apply S.
  - intros b Hb. rewrite lookup_insert_ne; [by apply F|]. intros ->. apply Hb, I. set_solver.
  - intros b Hb. destruct (decide (b = a)) as [->|Hn]; [set_solver|]. rewrite lookup_insert_ne by done. by apply U.
Qed.
Lemma region_link h l1 l2 es1 es2 t T e : region D h0 h (l1 ++ l2) (es1 ++ es2) (t :: T) -> length l1 = length es1 ->
  region D h0 (<[t := e]> h) (l1 ++ t :: l2) (es1 ++ e :: es2) T.
Proof.
  intros [R N S F U I] Hl. apply Forall2_app_inv in R as [R1 R2]; [|done].
  assert ((l1 ++ t :: l2) ++ T ≡ₚ (l1 ++ l2) ++ t :: T) as P by (rewrite <- !app_assoc; apply Permutation_app_head, Permutation_middle).
  assert (t ∉ l1 /\ t ∉ l2 /\ t ∉ T) as (N1 & N2 & N3).
  { apply NoDup_app in N as (_ & N1 & N2). apply NoDup_cons in N2 as [N2 _]. set_solver. }
  split.
  - apply reps_app; [by apply reps_insert|]. constructor; [apply lookup_insert_eq|by apply reps_insert].
  - by rewrite P.
  - intros t' Ht. rewrite lookup_insert_ne by (intros ->; done). apply S. set_solver.
  - intros b Hb. rewrite lookup_insert_ne; [by apply F|]. intros ->. apply Hb, I. set_solver.
  - intros b Hb. destruct (decide (b = t)) as [->|Hn]; [set_solver|]. rewrite lookup_insert_ne by done. intros Hs.
    specialize (U b Hb Hs). by rewrite P.
  - intros b Hb. apply I. by rewrite <- P.
Qed.
Lemma region_unlink h l1 a l2 es1 e es2 T : region D h0 h (l1 ++ a :: l2) (es1 ++ e :: es2) T -> length l1 = length es1 ->
  region D h0 (delete a h) (l1 ++ l2) (es1 ++ es2) T.
Proof.
  intros [R N S F U I] Hl. apply Forall2_app_inv in R as [R1 R2]; [|done]. inversion R2; subst.
  assert ((l1 ++ a :: l2) ++ T ≡ₚ a :: (l1 ++ l2) ++ T) as P by (rewrite <- !app_assoc; symmetry; apply Permutation_middle).
  rewrite P in N. apply NoDup_cons in N as [Na N]. assert (a ∉ l1 /\ a ∉ l2 /\ a ∉ T) as (N1 & N2 & N3) by set_solver.
  split; [|done| | | |].
  - by apply reps_app; apply reps_delete.
  - intros t' Ht. rewrite lookup_delete_ne by (intros ->; done). by apply S.
  - intros b Hb. rewrite lookup_delete_ne; [by apply F|]. intros ->. apply Hb, I. set_solver.
  - intros b Hb. destruct (decide (b = a)) as [->|Hn]; [rewrite lookup_delete_eq; by intros [? ?]|].
    rewrite lookup_delete_ne by done. intros Hs. specialize (U b Hb Hs). rewrite P in U. set_solver.
  - intros b Hb. apply I. rewrite P. set_solver.
Qed.
Lemma region_free h l es t T : region D h0 h l es (t :: T) -> region D h0 (delete t h) l es T.
Proof.
  intros [R N S F U I]. pose proof N as (_ & N1 & N2)%NoDup_app. apply NoDup_cons in N2 as [N2 N3].
  assert (l ++ t :: T ≡ₚ t :: l ++ T) as P by (symmetry; apply Permutation_middle).
  rewrite P in N. apply NoDup_cons in N as [Na N]. split; [|done| | | |].
  - apply reps_delete; [set_solver|done].
  - intros t' Ht. rewrite lookup_delete_ne by (intros ->; done). apply S. set_solver.
  - intros b Hb. rewrite lookup_delete_ne; [by apply F|]. intros ->. apply Hb, I. set_solver.
  - intros b Hb. destruct (decide (b = t)) as [->|Hn]; [rewrite lookup_delete_eq; by intros [? ?]|].
    rewrite lookup_delete_ne by done. intros Hs. specialize (U b Hb Hs). rewrite P in U. set_solver.
  - intros b Hb. apply I. rewrite P. set_solver.
Qed.
Lemma region_swap h l es t1 t2 : region D h0 h l es [t1; t2] -> region D h0 h l es [t2; t1].
Proof.
  intros [R N S F U I]. assert (l ++ [t2; t1] ≡ₚ l ++ [t1; t2]) as P by (by apply Permutation_app_head; constructor).
  split; [done|by rewrite P| |done|intros a; rewrite P; apply U|intros a; rewrite P; apply I]. intros t Ht. apply S. set_solver.
Qed.
End Region.

Section Mid.
Context {World : Type} `{Env : !GCD_ENV World} (sp : SPACE) (D : list Z) (s0 : GCD World).
Implicit Types s : GCD World.

Record mid s (l : list Z) (es : list ENTRY) (T : list Z) : Prop := {
  mid_map : gcd_map s sp = l;
  mid_other : forall sp', sp' <> sp -> gcd_map s sp' = gcd_map s0 sp';
  mid_lock : gcd_lock s = gcd_lock s0;
  mid_guard : mOnGuarding s = mOnGuarding s0;
  mid_world : gcd_world s = gcd_world s0;
  mid_region : region D (gcd_entries s0) (gcd_entries s) l es T
}.

Lemma mid_fresh s l1 a l2 es T : mid s (l1 ++ a :: l2) es T -> a ∉ l1 /\ a ∉ l2 /\ a ∉ T.
Proof.
  intros H. pose proof (rg_nodup _ _ _ _ _ _ (mid_region _ _ _ _ H)) as N. rewrite <- app_assoc in N.
  apply NoDup_app in N as (_ & N1 & N2). cbn in N2. apply NoDup_cons in N2 as [N2 _]. set_solver.
Qed.
Lemma mid_length s l es T : mid s l es T -> length l = length es.
Proof. intros H. exact (Forall2_length _ _ _ (rg_reps _ _ _ _ _ _ (mid_region _ _ _ _ H))). Qed.
Lemma mid_lookup s l1 a l2 es1 e es2 T : mid s (l1 ++ a :: l2) (es1 ++ e :: es2) T -> length l1 = length es1 ->
  gcd_entries s !! a = Some e.
Proof.
  intros H Hl. pose proof (rg_reps _ _ _ _ _ _ (mid_region _ _ _ _ H)) as R.
  apply Forall2_app_inv in R as [_ R]; [|done]. by inversion R.
Qed.

Lemma read_run s a e : gcd_entries s !! a = Some e -> read_entry a s = Ok (e, s).
Proof. unfold read_entry. by intros ->. Qed.
Lemma CR_run s a e : gcd_entries s !! a = Some e -> Signature e = EFI_GCD_MAP_SIGNATURE -> CR a s = Ok (e, s).
Proof. intros H E. unfold CR. rewrite (Mbind_Ok _ _ _ _ _ (read_run s a e H)), E. by rewrite Z.eqb_refl. Qed.
Lemma write_run s a e e' : gcd_entries s !! a = Some e -> write_entry a e' s = Ok (tt, upd_entries (<[a := e']> (gcd_entries s)) s).
Proof. unfold write_entry. by intros ->. Qed.

Lemma mid_write s l1 a l2 es1 e es2 T e' : mid s (l1 ++ a :: l2) (es1 ++ e :: es2) T -> length l1 = length es1 ->
  wp true (write_entry a e') (fun _ s' => mid s' (l1 ++ a :: l2) (es1 ++ e' :: es2) T) s.
Proof.
  intros H Hl. eapply wp_eq; [by apply (write_run s a e), (mid_lookup s l1 a l2 es1 e es2 T)|].
  destruct H as [H1 H2 H3 H4 H5 R]. split; try done. by apply (region_set _ _ _ l1 a l2 es1 e es2).
Qed.
Lemma upd_map_eq s l : gcd_map (upd_map sp l s) sp = l.
Proof. cbn. unfold upd_space. by rewrite bool_decide_true. Qed.
Lemma upd_map_ne s l sp' : sp' <> sp -> gcd_map (upd_map sp l s) sp' = gcd_map s sp'.
Proof. intros H. cbn. unfold upd_space. by rewrite bool_decide_false. Qed.

(** A zero entry [t] is filled and linked beside [a]. *)
Definition link_at (below : bool) (a t : Z) (x y : ENTRY) : M (GCD World) unit :=
  let! b := read_entry t in
  GASSERT (Signature b =? 0) ;;;
  write_entry t x ;;;
  write_entry a y ;;;
  Mmodify (fun s => upd_map sp ((if below then insert_before else insert_after) a t (gcd_map s sp)) s).
Lemma link_at_ok below s l1 a l2 es1 e es2 t T x y : mid s (l1 ++ a :: l2) (es1 ++ e :: es2) (t :: T) -> length l1 = length es1 ->
  wp true (link_at below a t x y) (fun _ s' =>
    mid s' (if below then l1 ++ t :: a :: l2 else l1 ++ a :: t :: l2) (if below then es1 ++ x :: y :: es2 else es1 ++ y :: x :: es2) T) s.
Proof.
  intros H Hl. pose proof (mid_fresh _ _ _ _ _ _ H) as (N1 & N2 & N3). apply not_elem_of_cons in N3 as [N3 N4].
  pose proof (mid_lookup _ _ _ _ _ _ _ _ H Hl) as Ha. destruct H as [H1 H2 H3 H4 H5 R].
  pose proof (rg_spare _ _ _ _ _ _ R t (list_elem_of_here _ _)) as Ht. unfold link_at.
  eapply wp_step; [by apply read_run|]. eapply wp_step; [done|]. eapply wp_step; [by eapply write_run|].
  eapply wp_step; [eapply write_run; cbn; by rewrite lookup_insert_ne|]. eapply wp_eq; [done|].
  split; cbn [upd_entries gcd_lock mOnGuarding gcd_world gcd_entries upd_map]; try done.
  - rewrite upd_map_eq. cbn. rewrite H1. destruct below; [by apply insert_before_app|by apply insert_after_app].
  - intros sp' Hne. rewrite upd_map_ne by done. by apply H2.
  - destruct below.
    + apply (region_link _ _ _ l1 (a :: l2) es1 (e :: es2) t T x) in R; [|done].
      change (l1 ++ t :: a :: l2) with (l1 ++ [t] ++ a :: l2). rewrite app_assoc.
      change (es1 ++ x :: y :: es2) with (es1 ++ [x] ++ y :: es2). rewrite app_assoc.
      change (l1 ++ t :: a :: l2) with (l1 ++ [t] ++ a :: l2) in R. rewrite app_assoc in R.
      change (es1 ++ x :: e :: es2) with (es1 ++ [x] ++ e :: es2) in R. rewrite app_assoc in R.
      apply (region_set _ _ _ _ _ _ _ _ _ _ y R). rewrite !length_app. cbn. lia.
    + assert (region D (gcd_entries s0) (gcd_entries s) ((l1 ++ [a]) ++ l2) ((es1 ++ [e]) ++ es2) (t :: T)) as R'
        by (by rewrite <- !app_assoc). apply (region_link _ _ _ _ _ _ _ _ _ x) in R'; [|rewrite !length_app; cbn; lia].
      rewrite <- !app_assoc in R'. cbn [app] in R'. exact (region_set _ _ _ _ _ _ _ _ _ _ y R' Hl).
Qed.

(** The neighbour [b] of [a] goes into [a]. *)
Definition absorb (a b : Z) (y : ENTRY) : M (GCD World) unit :=
  write_entry a y ;;;
  Mmodify (fun s => upd_map sp (filter (fun x => x <> b) (gcd_map s sp)) s) ;;;
  free_entry b.
Lemma absorb_ok s l1 a l2 es1 e es2 T b y l1' l2' es1' es2' eb : mid s (l1 ++ a :: l2) (es1 ++ e :: es2) T -> length l1 = length es1 ->
  ((l1 = l1' ++ [b] /\ es1 = es1' ++ [eb] /\ l2' = l2 /\ es2' = es2) \/ (l2 = b :: l2' /\ es2 = eb :: es2' /\ l1' = l1 /\ es1' = es1)) ->
  wp true (absorb a b y) (fun _ s' => mid s' (l1' ++ a :: l2') (es1' ++ y :: es2') T) s.
Proof.
  intros H Hl Hb. pose proof (mid_lookup _ _ _ _ _ _ _ _ H Hl) as Ha. unfold absorb.
  eapply wp_seq; [by apply (mid_write s l1 a l2 es1 e es2 T)|]. cbn beta. intros _ s1 H1. apply wp_modify.
  destruct Hb as [(-> & -> & -> & ->)|(-> & -> & -> & ->)].
  - assert (mid s1 (l1' ++ b :: a :: l2) (es1' ++ eb :: y :: es2) T) as H1' by (by rewrite <- !app_assoc in H1).
    assert (length l1' = length es1') as Hl' by (rewrite !length_app in Hl; cbn in Hl; lia).
    pose proof (mid_fresh _ _ _ _ _ _ H1') as (N1 & N2 & _). pose proof (mid_lookup _ _ _ _ _ _ _ _ H1' Hl') as Eb.
    eapply wp_eq; [unfold free_entry; cbn; by rewrite Eb|]. destruct H1' as [M1 M2 M3 M4 M5 R].
    split; cbn [upd_entries gcd_lock mOnGuarding gcd_world gcd_entries upd_map]; try done.
    + change (gcd_map (upd_map sp (filter (fun x => x <> b) (gcd_map s1 sp)) s1) sp = l1' ++ a :: l2). rewrite upd_map_eq, M1.
      by apply filter_app_out.
    + intros sp' Hne. change (gcd_map (upd_map sp (filter (fun x => x <> b) (gcd_map s1 sp)) s1) sp' = gcd_map s0 sp').
      rewrite upd_map_ne by done. by apply M2.
    + exact (region_unlink _ _ _ _ _ _ _ _ _ _ R Hl').
  - assert (mid s1 ((l1 ++ [a]) ++ b :: l2') ((es1 ++ [y]) ++ eb :: es2') T) as H1' by (by rewrite <- !app_assoc).
    assert (length (l1 ++ [a]) = length (es1 ++ [y])) as Hl' by (rewrite !length_app; cbn; lia).
    pose proof (mid_fresh _ _ _ _ _ _ H1') as (N1 & N2 & _). pose proof (mid_lookup _ _ _ _ _ _ _ _ H1' Hl') as Eb.
    eapply wp_eq; [unfold free_entry; cbn; by rewrite Eb|]. destruct H1' as [M1 M2 M3 M4 M5 R].
    split; cbn [upd_entries gcd_lock mOnGuarding gcd_world gcd_entries upd_map]; try done.
    + change (gcd_map (upd_map sp (filter (fun x => x <> b) (gcd_map s1 sp)) s1) sp = l1 ++ a :: l2'). rewrite upd_map_eq, M1.
      rewrite filter_app_out by done. by rewrite <- app_assoc.
    + intros sp' Hne. change (gcd_map (upd_map sp (filter (fun x => x <> b) (gcd_map s1 sp)) s1) sp' = gcd_map s0 sp').
      rewrite upd_map_ne by done. by apply M2.
    + pose proof (region_unlink _ _ _ _ _ _ _ _ _ _ R Hl') as R'. by rewrite <- !app_assoc in R'.
Qed.

Lemma mid_free s l es t T : mid s l es (t :: T) ->
  wp true (free_entry t) (fun _ s' => mid s' l es T) s.
Proof.
  intros [M1 M2 M3 M4 M5 R]. pose proof (rg_spare _ _ _ _ _ _ R t (list_elem_of_here _ _)) as Ht.
  eapply wp_eq; [unfold free_entry; by rewrite Ht|]. split; try done. by apply region_free.
Qed.
Lemma mid_swap s l es t1 t2 : mid s l es [t1; t2] -> mid s l es [t2; t1].
Proof. intros [M1 M2 M3 M4 M5 R]. split; try done. by apply region_swap. Qed.
End Mid.
