(* ===== verification/GcdRange.v ===== *)
(** * GcdRange: searching and changing a range of a map

    The links that cover a range, and what the loops over them do: cutting the
    entries at the ends of the range, changing them, and merging neighbours
    that have become alike. *)

From stdpp Require Import base option list gmap fin_maps.
From Stdlib Require Import ZArith Lia.
From S2P Require Import Prelude Gcd GcdMap.

Local Open Scope Z_scope.
Local Open Scope edk_scope.

(** The part of an entry between [b] and [n]. *)
Definition clip (b n : Z) (e : ENTRY) : ENTRY := set_Range (Z.max b (BaseAddress e)) (Z.min n (EndAddress e)) e.
(** The parts below and above. *)
Definition below (b : Z) (e : ENTRY) : list ENTRY := if BaseAddress e <? b then [set_Range (BaseAddress e) (b - 1) e] else [].
Definition above (n : Z) (e : ENTRY) : list ENTRY := if n <? EndAddress e then [set_Range (n + 1) (EndAddress e) e] else [].

(** The entries of a range, cut and changed. *)
Fixpoint changes {A} (f : A -> ENTRY -> ENTRY * A) (x : A) (b n : Z) (ms : list ENTRY) : list ENTRY :=
  match ms with
  | [] => []
  | m :: ms' => let r := f x (clip b n m) in r.1 :: changes f r.2 b n ms'
  end.

(** [ms] are the entries that meet the range from [b] to [n]. *)
Definition covers (ms : list ENTRY) (b n : Z) : Prop :=
  exists lo hi, chain ms lo hi /\ lo <= b <= n /\ n <= hi /\
    (forall m, head ms = Some m -> b <= EndAddress m) /\ (forall m, last ms = Some m -> BaseAddress m <= n).

Section Range.
Context {World : Type} `{Env : !GCD_ENV World} (sp : SPACE) (D : list Z) (s0 : GCD World).
Implicit Types s : GCD World.
Abbreviation mid := (mid sp D s0).

(** ** Merging *)

Lemma list_snoc_dec {A} (l : list A) : l = [] \/ exists l' x, l = l' ++ [x].
Proof. destruct l as [|x l] using rev_ind; [by left|right; by eexists _, _]. Qed.
Lemma last_snoc_eq {A} (l : list A) x y : last (l ++ [x]) = Some y -> Some x = Some y.
Proof. by rewrite last_snoc. Qed.

Lemma alike_fields e1 e2 : kind e1 = kind e2 -> (Capabilities e1 =? Capabilities e2) && (Attributes e1 =? Attributes e2) &&
  (GcdMemoryType e1 =? GcdMemoryType e2) && (GcdIoType e1 =? GcdIoType e2) && (ImageHandle e1 =? ImageHandle e2) &&
  (DeviceHandle e1 =? DeviceHandle e2) = true.
Proof. intros H. injection H as. repeat (apply andb_true_intro; split); lia. Qed.
Lemma alike_kind e1 e2 : Signature e1 = Signature e2 -> Capabilities e1 = Capabilities e2 -> Attributes e1 = Attributes e2 ->
  GcdMemoryType e1 = GcdMemoryType e2 -> GcdIoType e1 = GcdIoType e2 -> ImageHandle e1 = ImageHandle e2 ->
  DeviceHandle e1 = DeviceHandle e2 -> kind e1 = kind e2.
Proof. intros. unfold kind, set_Range. congruence. Qed.

(** [a] is joined with its neighbour [b] if they are alike. *)
Lemma merge_ok s (Forward : bool) l1 a l2 es1 e es2 T b eb l1' l2' es1' es2' :
  mid s (l1 ++ a :: l2) (es1 ++ e :: es2) T -> length l1 = length es1 -> signed (es1 ++ e :: es2) ->
  (if Forward then l2 = b :: l2' /\ es2 = eb :: es2' /\ l1' = l1 /\ es1' = es1
   else l1 = l1' ++ [b] /\ es1 = es1' ++ [eb] /\ l2' = l2 /\ es2' = es2) ->
  wp true (CoreMergeGcdMapEntry sp a Forward) (fun _ s' =>
    if decide (kind e = kind eb)
    then mid s' (l1' ++ a :: l2')
           (es1' ++ (if Forward then set_Range (BaseAddress e) (EndAddress eb) e else set_Range (BaseAddress eb) (EndAddress e) e) :: es2') T
    else mid s' (l1 ++ a :: l2) (es1 ++ e :: es2) T) s.
Proof.
  intros H Hl Sg Hb. pose proof (mid_fresh _ _ _ _ _ _ _ _ _ H) as (N1 & N2 & _). unfold CoreMergeGcdMapEntry. apply wp_get.
  rewrite (mid_map _ _ _ _ _ _ _ H), ForwardLink_app, BackLink_app by done.
  assert ((if Forward then head l2 else last l1) = Some b) as ->.
  { destruct Forward; destruct Hb as (-> & _); [done|apply last_snoc]. }
  pose proof (mid_lookup _ _ _ _ _ _ _ _ _ _ _ H Hl) as Ea.
  assert (gcd_entries s !! b = Some eb) as Eb.
  { pose proof (rg_reps _ _ _ _ _ _ (mid_region _ _ _ _ _ _ _ H)) as R. apply Forall2_app_inv in R as [R1 R2]; [|done].
    inversion R2 as [|? ? ? ? _ R3]; subst. destruct Forward; destruct Hb as (-> & -> & _); [by inversion R3|].
    apply Forall2_app_inv in R1 as [_ R1]; [by inversion R1|]. rewrite !length_app in Hl. cbn in Hl. lia. }
  assert (Signature e = EFI_GCD_MAP_SIGNATURE /\ Signature eb = EFI_GCD_MAP_SIGNATURE) as [Se Sb].
  { unfold signed in Sg. rewrite Forall_app, Forall_cons in Sg. destruct Sg as (S1 & S2 & S3). split; [done|].
    destruct Forward; destruct Hb as (_ & -> & _); [by inversion S3|]. apply Forall_app in S1 as [_ S1]. by inversion S1. }
  eapply wp_step; [by apply CR_run|]. eapply wp_step; [by apply CR_run|].
  case_decide as K.
  - pose proof (alike_fields _ _ K) as F. repeat (apply andb_prop in F as [F ?]).
    repeat match goal with H : (_ =? _) = true |- _ => rewrite H; clear H end. cbn [negb].
    set (y := if Forward then _ else _).
    change (wp true (write_entry a y ;;; Mmodify (fun s => upd_map sp (filter (fun x => x <> b) (gcd_map s sp)) s) ;;;
      free_entry b ;;; Mret EFI_SUCCESS) (fun _ s' => mid s' (l1' ++ a :: l2') (es1' ++ y :: es2') T) s).
    assert (wp true (absorb sp a b y) (fun _ s' => mid s' (l1' ++ a :: l2') (es1' ++ y :: es2') T) s) as Habs.
    { apply (absorb_ok sp D s0 s l1 a l2 es1 e es2 T b y l1' l2' es1' es2' eb); [done|done|]. destruct Forward; [by right|by left]. }
    unfold absorb in Habs. unfold wp, Mbind in Habs |- *. destruct (write_entry a y s) as [[? ?]| | |]; try done.
    destruct (Mmodify _ _) as [[? ?]| | |]; try done. by destruct (free_entry b _) as [[? ?]| | |].
  - repeat (match goal with |- context [negb (?x =? ?y)] => destruct (Z.eqb_spec x y); cbn [negb]; [|by apply wp_ret] end).
    destruct K. apply alike_kind; congruence.
Qed.

(** ** Loops over the links of a range *)

Lemma link_end l1 lm l2 z : NoDup (l1 ++ lm ++ l2) -> last lm = Some z -> ForwardLink z (l1 ++ lm ++ l2) = head l2.
Proof.
  intros N (lm0 & ->)%last_Some. rewrite app_assoc in N |- *. rewrite <- app_assoc in N |- *. rewrite <- app_assoc. cbn.
  replace (l1 ++ lm0 ++ z :: l2) with ((l1 ++ lm0) ++ z :: l2) by (by rewrite app_assoc). apply ForwardLink_app.
  rewrite !app_assoc in N. cbn in N. rewrite <- (app_assoc _ [z]) in N. apply NoDup_app in N as (_ & N & _). intros H. apply (N z H). set_solver.
Qed.
Lemma link_inside l1 lm (l2 : list Z) a : NoDup (l1 ++ lm ++ l2) -> a ∈ lm -> Some a <> head l2.
Proof.
  intros N Ha E. destruct l2 as [|b l2]; [done|]. injection E as ->. apply NoDup_app in N as (_ & _ & N).
  apply NoDup_app in N as (_ & N & _). apply (N b Ha). set_solver.
Qed.
Lemma last_tail {A} (a : A) l z : last (a :: l) = Some z -> (l = [] /\ z = a) \/ last l = Some z.
Proof. destruct l; [|by right]. intros [= ->]. by left. Qed.

Lemma last_snoc_cons {A} (a : A) l z : last (a :: l ++ [z]) = Some z.
Proof. change (a :: l ++ [z]) with ((a :: l) ++ [z]). apply last_snoc. Qed.

(** The first entry with [g]. *)
Fixpoint firsts {A} (g : Z -> ENTRY -> option A) (lm : list Z) (ms : list ENTRY) : option A :=
  match lm, ms with
  | a :: lm', m :: ms' => match g a m with Some x => Some x | None => firsts g lm' ms' end
  | _, _ => None
  end.
Lemma scan_run {A} s (g : Z -> ENTRY -> option A) z l2 : forall lm ms l1 turns, gcd_map s sp = l1 ++ lm ++ l2 -> NoDup (l1 ++ lm ++ l2) ->
  reps (gcd_entries s) lm ms -> signed ms -> last lm = Some z -> (length lm <= turns)%nat ->
  each_link turns sp (fun a => let! e := CR a in Mret (g a e)) (head lm) z s = Ok (firsts g lm ms, s).
Proof.
  induction lm as [|a lm IH]; intros ms l1 turns E N R Sg Hz Ht; [done|].
  apply Forall2_cons_inv_l in R as (m & ms' & Ha & R & ->). apply Forall_cons in Sg as [Sm Sg]. cbn [firsts head].
  destruct turns as [|turns]; [cbn in Ht; lia|]. cbn [each_link]. rewrite (Mbind_Ok Mget _ s s s eq_refl), E, (link_end _ _ _ _ N Hz).
  rewrite bool_decide_false by (apply (link_inside _ _ _ _ N); set_solver).
  assert ((let! e := CR a in Mret (g a e)) s = Ok (g a m, s)) as Eb by (by rewrite (Mbind_Ok _ _ _ _ _ (CR_run s a m Ha Sm))).
  rewrite (Mbind_Ok _ _ _ _ _ Eb). destruct (g a m) as [x|]; [done|]. rewrite (Mbind_Ok Mget _ s s s eq_refl).
  assert (l1 ++ (a :: lm) ++ l2 = (l1 ++ [a]) ++ lm ++ l2) as El by (by rewrite <- app_assoc).
  assert (a ∉ l1) as Na. { apply NoDup_app in N as (_ & N & _). intros H. apply (N a H). set_solver. }
  destruct (last_tail _ _ _ Hz) as [[-> ->]|Hz'].
  - rewrite E. cbn [app]. rewrite ForwardLink_app by done. destruct turns as [|turns].
    + cbn [each_link]. rewrite (Mbind_Ok Mget _ s s s eq_refl), E. cbn [app]. rewrite ForwardLink_app by done.
      rewrite bool_decide_true by done. by inversion R; subst.
    + cbn [each_link]. rewrite (Mbind_Ok Mget _ s s s eq_refl), E. cbn [app]. rewrite ForwardLink_app by done.
      rewrite bool_decide_true by done. by inversion R; subst.
  - rewrite E. cbn [app]. rewrite ForwardLink_app by done. destruct lm as [|a' lm]; [done|]. cbn [app head].
    apply (IH ms' (l1 ++ [a])); [congruence|by rewrite <- El|done|done|done|cbn in Ht |- *; lia].
Qed.
Lemma for_links_run {A} s (g : Z -> ENTRY -> option A) a z l1 lm l2 ms : gcd_map s sp = l1 ++ lm ++ l2 -> NoDup (l1 ++ lm ++ l2) ->
  reps (gcd_entries s) lm ms -> signed ms -> head lm = Some a -> last lm = Some z ->
  for_links sp a z (fun a => let! e := CR a in Mret (g a e)) s = Ok (firsts g lm ms, s).
Proof.
  intros E N R Sg Ha Hz. unfold for_links. rewrite (Mbind_Ok Mget _ s s s eq_refl), <- Ha.
  apply (scan_run s g z l2 lm ms l1); try done. rewrite E, !length_app. lia.
Qed.

(** ** Cleaning up *)

Lemma signed_app es1 es2 : signed (es1 ++ es2) <-> signed es1 /\ signed es2.
Proof. apply Forall_app. Qed.
Lemma signed_cons e es : signed (e :: es) <-> Signature e = EFI_GCD_MAP_SIGNATURE /\ signed es.
Proof. unfold signed. by rewrite Forall_cons. Qed.

Lemma below_signed b e : Signature e = EFI_GCD_MAP_SIGNATURE -> signed (below b e).
Proof. intros H. unfold below. destruct (_ <? _); by repeat constructor. Qed.
Lemma above_signed n e : Signature e = EFI_GCD_MAP_SIGNATURE -> signed (above n e).
Proof. intros H. unfold above. destruct (_ <? _); by repeat constructor. Qed.

(** Two maps that say the same. *)
Definition same_map (lo hi : Z) (es es' : list ENTRY) : Prop := chain es' lo hi /\ signed es' /\ forall x, info es' x = info es x.

(** The links [lm] are merged with the entry before them, one after another. *)
Lemma merge_links_ok z l2 es2 T lo hi : forall lm ms l1 es1 turns s, mid s (l1 ++ lm ++ l2) (es1 ++ ms ++ es2) T -> length l1 = length es1 ->
  length lm = length ms -> last lm = Some z -> (length lm <= turns)%nat -> signed (es1 ++ ms ++ es2) -> chain (es1 ++ ms ++ es2) lo hi ->
  reduced es1 ->
  wp true (each_link turns sp (fun Link => CoreMergeGcdMapEntry sp Link false ;;; Mret (@None unit)) (head lm) z) (fun _ s' =>
    exists l1' es1' m, mid s' (l1' ++ z :: l2) (es1' ++ m :: es2) T /\ length l1' = length es1' /\ reduced (es1' ++ [m]) /\
      same_map lo hi (es1 ++ ms ++ es2) (es1' ++ m :: es2)) s.
Proof.
  induction lm as [|a lm IH]; intros ms l1 es1 turns s H Hl Hm Hz Ht Sg Ch Rd; [done|].
  destruct ms as [|m ms]; [done|]. cbn in Hm. injection Hm as Hm. destruct turns as [|turns]; [cbn in Ht; lia|].
  assert (NoDup (l1 ++ (a :: lm) ++ l2)) as N.
  { pose proof (rg_nodup _ _ _ _ _ _ (mid_region _ _ _ _ _ _ _ H)) as N. by apply NoDup_app in N as (N & _). }
  cbn [each_link head]. apply wp_get. rewrite (mid_map _ _ _ _ _ _ _ H), (link_end _ _ _ _ N Hz).
  rewrite bool_decide_false by (apply (link_inside _ _ _ _ N); set_solver). cbn [app] in H, Sg, Ch.
  (* after the merge, with the entries before [a] reduced up to [a] *)
  eapply wp_seq with (P := fun r s' => r = None /\ exists l1' es1' m', mid s' (l1' ++ a :: lm ++ l2) (es1' ++ m' :: ms ++ es2) T /\
    length l1' = length es1' /\ reduced (es1' ++ [m']) /\ same_map lo hi (es1 ++ m :: ms ++ es2) (es1' ++ m' :: ms ++ es2)).
  { destruct (list_snoc_dec es1) as [->|(es1' & eb & ->)].
    - destruct l1; [|done]. eapply wp_step; [|apply wp_ret; split; [done|]; by exists [], [], m].
      unfold CoreMergeGcdMapEntry. rewrite (Mbind_Ok Mget _ s s s eq_refl), (mid_map _ _ _ _ _ _ _ H). cbn [app].
      change (BackLink a (a :: lm ++ l2)) with (BackLink a ([] ++ a :: lm ++ l2)). by rewrite BackLink_app by set_solver.
    - destruct (list_snoc_dec l1) as [->|(l1' & b & ->)]; [rewrite length_app in Hl; cbn in Hl; lia|].
      eapply wp_seq; [eapply (merge_ok s false _ a (lm ++ l2) _ m (ms ++ es2) T b eb l1' (lm ++ l2) es1' (ms ++ es2)); [done..|by split_and!]|].
      cbn beta. intros _ s1 H1. apply wp_ret. split; [done|]. case_decide as K.
      + exists l1', es1', (set_Range (BaseAddress eb) (EndAddress m) m). split; [exact H1|].
        rewrite <- app_assoc in Ch, Sg. cbn [app] in Ch, Sg. rewrite !length_app in Hl. cbn in Hl. split; [lia|].
        split; [apply (reduced_same es1' eb _ []); [rewrite kind_set_Range; congruence|done]|]. split_and!.
        * by apply (chain_merge _ eb m).
        * apply signed_app in Sg as [S1 S2]. rewrite !signed_cons in S2. apply signed_app. split; [done|]. apply signed_cons. by destruct S2 as (_ & ? & ?).
        * intros x. rewrite <- app_assoc. cbn [app]. by apply (info_merge _ eb m _ _ lo hi).
      + exists (l1' ++ [b]), (es1' ++ [eb]), m. split; [exact H1|]. split; [done|]. split; [|done].
        apply reduced_snoc. split; [done|]. intros e1 [= <-]%last_snoc_eq. congruence. }
  cbn beta. intros r s1 [-> (l1' & es1' & m' & H1 & Hl1 & R1 & (C1 & S1 & I1))]. apply wp_get. rewrite (mid_map _ _ _ _ _ _ _ H1).
  pose proof (mid_fresh _ _ _ _ _ _ _ _ _ H1) as (Na & _). rewrite ForwardLink_app by done.
  destruct (last_tail _ _ _ Hz) as [[-> ->]|Hz'].
  - destruct ms; [|done]. cbn [app] in *. eapply wp_eq.
    + destruct turns; cbn [each_link]; rewrite (Mbind_Ok Mget _ s1 s1 s1 eq_refl), (mid_map _ _ _ _ _ _ _ H1), ForwardLink_app by done;
        by rewrite bool_decide_true.
    + exists l1', es1', m'. by split_and!.
  - destruct lm as [|a' lm]; [done|]. cbn [app head].
    eapply wp_mono; [apply (IH ms (l1' ++ [a]) (es1' ++ [m']) turns s1)|]; rewrite <- ?app_assoc; try done.
    + rewrite !length_app. cbn. lia.
    + cbn in Ht |- *. lia.
    + cbn beta. intros _ s2 (l1'' & es1'' & m'' & H2 & Hl2 & R2 & (C2 & S2 & I2)). exists l1'', es1'', m''. split_and!; try done.
      split; [done|]. split; [done|]. intros x. by rewrite I2.
Qed.

(** The two entries that were allocated: those that are not linked. *)
Definition spare (To Bo : Z) (low high : bool) : list Z := (if low then [] else [Bo]) ++ (if high then [] else [To]).

Definition release (x : Z) : M (GCD World) unit := let! t := read_entry x in if Signature t =? 0 then free_entry x else Mret tt.
Lemma release_spare s l es x T : mid s l es (x :: T) -> wp true (release x) (fun _ s' => mid s' l es T) s.
Proof.
  intros H. unfold release. eapply wp_step; [apply read_run, (rg_spare _ _ _ _ _ _ (mid_region _ _ _ _ _ _ _ H)); set_solver|].
  by apply mid_free.
Qed.
Lemma release_linked s l es x T : mid s l es T -> x ∈ l -> signed es -> wp true (release x) (fun _ s' => mid s' l es T) s.
Proof.
  intros H (l1 & l2 & ->)%list_elem_of_split Sg. pose proof (rg_reps _ _ _ _ _ _ (mid_region _ _ _ _ _ _ _ H)) as R.
  apply reps_mid in R as (es1 & e & es2 & -> & R1 & Ex & R2). apply signed_app in Sg as [_ Sg]. apply signed_cons in Sg as [Se _].
  unfold release. eapply wp_step; [by apply read_run|]. by rewrite Se.
Qed.
Lemma release_both s l es To Bo low high : mid s l es (spare To Bo low high) -> signed es -> (low = true -> Bo ∈ l) -> (high = true -> To ∈ l) ->
  wp true (release To ;;; release Bo) (fun _ s' => mid s' l es []) s.
Proof.
  intros H Sg Hb Ht. destruct high, low; cbn in H.
  - eapply wp_seq; [by apply release_linked; [apply H|apply Ht|]|]. cbn beta. intros _ s1 H1. apply release_linked; by auto.
  - eapply wp_seq; [by apply release_linked; [apply H|apply Ht|]|]. cbn beta. intros _ s1 H1. by apply release_spare.
  - eapply wp_seq; [by apply release_spare|]. cbn beta. intros _ s1 H1. apply release_linked; by auto.
  - eapply wp_seq; [by apply release_spare, mid_swap|]. cbn beta. intros _ s1 H1. by apply release_spare.
Qed.

Lemma cleanup_ok s To Bo low high a z l1 lm l2 es1 ms es2 lo hi :
  mid s (l1 ++ lm ++ l2) (es1 ++ ms ++ es2) (spare To Bo low high) -> length l1 = length es1 -> length lm = length ms ->
  head lm = Some a -> last lm = Some z -> signed (es1 ++ ms ++ es2) -> chain (es1 ++ ms ++ es2) lo hi -> reduced es1 -> reduced es2 ->
  (low = true -> Bo ∈ l1 ++ lm ++ l2) -> (high = true -> To ∈ l1 ++ lm ++ l2) ->
  wp true (CoreCleanupGcdMapEntry To Bo a z sp) (fun r s' => r = EFI_SUCCESS /\ exists l' es', mid s' l' es' [] /\ reduced es' /\
    same_map lo hi (es1 ++ ms ++ es2) es') s.
Proof.
  intros H Hl Hm Ha Hz Sg Ch R1 R2 Hb Ht. unfold CoreCleanupGcdMapEntry.
  pose proof (release_both _ _ _ _ _ _ _ H Sg Hb Ht) as Rel. unfold wp, release, Mbind in Rel |- *.
  destruct (read_entry To s) as [[t s1]| | |]; try done.
  destruct ((if Signature t =? 0 then free_entry To else Mret tt) s1) as [[[] s2]| | |]; try done.
  destruct (read_entry Bo s2) as [[b s3]| | |]; try done.
  destruct ((if Signature b =? 0 then free_entry Bo else Mret tt) s3) as [[[] s4]| | |]; try done.
  change (wp true (for_links sp a z (fun Link => CoreMergeGcdMapEntry sp Link false ;;; Mret (@None unit)) ;;;
    CoreMergeGcdMapEntry sp z true ;;; Mret EFI_SUCCESS) (fun r s' => r = EFI_SUCCESS /\ exists l' es', mid s' l' es' [] /\ reduced es' /\
    same_map lo hi (es1 ++ ms ++ es2) es') s4).
  eapply wp_seq.
  { unfold for_links. apply wp_get. rewrite <- Ha. apply (merge_links_ok z l2 es2 [] lo hi lm ms l1 es1); try done.
    rewrite (mid_map _ _ _ _ _ _ _ Rel), !length_app. lia. }
  cbn beta. intros _ s5 (l1' & es1' & m & H5 & Hl5 & R5 & (C5 & S5 & I5)).
  destruct es2 as [|e2 es2].
  - pose proof (mid_length _ _ _ _ _ _ _ H5) as Len. rewrite !length_app in Len. cbn in Len. destruct l2; [|cbn in Len; lia].
    pose proof (mid_fresh _ _ _ _ _ _ _ _ _ H5) as (Nz & _). eapply wp_step.
    { unfold CoreMergeGcdMapEntry. rewrite (Mbind_Ok Mget _ s5 s5 s5 eq_refl), (mid_map _ _ _ _ _ _ _ H5), ForwardLink_app by done. done. }
    apply wp_ret. split; [done|]. by exists (l1' ++ [z]), (es1' ++ [m]).
  - pose proof (mid_length _ _ _ _ _ _ _ H5) as Len. rewrite !length_app in Len. cbn in Len. destruct l2 as [|b2 l2]; [cbn in Len; lia|].
    eapply wp_seq; [apply (merge_ok s5 true l1' z (b2 :: l2) es1' m (e2 :: es2) [] b2 e2 l1' l2 es1' es2); [done..|by split_and!]|].
    cbn beta. intros _ s6 H6. apply wp_ret. split; [done|]. case_decide as K.
    + eexists _, _. split; [exact H6|]. split; [|split; [by apply (chain_merge _ m e2)|split]].
      * apply (reduced_same es1' e2); [by rewrite kind_set_Range|]. apply reduced_app in R5 as (R5 & _ & R5'). apply reduced_app.
        split_and!; [done|done|]. intros e1 e' E [= <-]. rewrite <- K. by apply R5'.
      * apply signed_app in S5 as [S5 S5']. rewrite !signed_cons in S5'. apply signed_app. split; [done|]. apply signed_cons.
        by destruct S5' as (? & _ & ?).
      * intros x. rewrite <- I5. by apply (info_merge _ m e2 _ _ lo hi).
    + eexists _, _. split; [exact H6|]. split; [|by split_and!].
      change (m :: e2 :: es2) with ([m] ++ e2 :: es2). rewrite app_assoc. apply reduced_app. split_and!; [done|done|].
      intros e1 e' [= <-]%last_snoc_eq [= <-]. done.
Qed.

(** ** Cutting and changing *)

Section Change.
Context (b n Length To Bo : Z).
Hypothesis range : 0 <= b <= n /\ n < 2 ^ 64 /\ Length = n - b + 1.

Lemma range_end : wrapU 64 (b + Length - 1) = n.
Proof. destruct range as (H1 & H2 & ->). unfold wrapU. rewrite Z.mod_small; lia. Qed.

Lemma insert_ok s l1 a l2 es1 e es2 low : mid s (l1 ++ a :: l2) (es1 ++ e :: es2) (spare To Bo low false) -> length l1 = length es1 ->
  0 <= BaseAddress e <= n -> b <= EndAddress e < 2 ^ 64 -> BaseAddress e <= EndAddress e -> (BaseAddress e < b -> low = false) ->
  wp true (CoreInsertGcdMapEntry sp a b Length To Bo) (fun _ s' =>
    mid s' (l1 ++ (if BaseAddress e <? b then [Bo] else []) ++ a :: (if n <? EndAddress e then [To] else []) ++ l2)
      (es1 ++ below b e ++ clip b n e :: above n e ++ es2) (spare To Bo (low || (BaseAddress e <? b)) (n <? EndAddress e))) s.
Proof.
  intros H Hl H1 H2 H3 Hlow. destruct range as (R1 & R2 & RL). pose proof range_end as RE. unfold CoreInsertGcdMapEntry.
  eapply wp_step; [by rewrite (proj2 (Z.eqb_neq Length 0)) by lia|].
  eapply wp_step; [apply read_run, (mid_lookup _ _ _ _ _ _ _ _ _ _ _ H Hl)|].
  set (e1 := set_Range (Z.max b (BaseAddress e)) (EndAddress e) e).
  eapply wp_seq with (P := fun _ s1 => mid s1 ((l1 ++ (if BaseAddress e <? b then [Bo] else [])) ++ a :: l2)
    ((es1 ++ below b e) ++ e1 :: es2) (spare To Bo (low || (BaseAddress e <? b)) false)).
  { unfold below. destruct (Z.ltb_spec (BaseAddress e) b) as [Hb|Hb].
    - rewrite (Hlow Hb) in H |- *. replace (wrapU 64 (b - 1)) with (b - 1) by (unfold wrapU; rewrite Z.mod_small; lia).
      replace (set_Range b (EndAddress e) e) with e1 by (unfold e1; by rewrite Z.max_l by lia).
      eapply wp_mono; [exact (link_at_ok sp D s0 true s l1 a l2 es1 e es2 Bo [To] _ _ H Hl)|]. cbn beta. intros _ s1 Hs. by rewrite <- !app_assoc.
    - apply wp_ret. rewrite !app_nil_r, orb_false_r. replace e1 with e; [done|]. unfold e1. rewrite Z.max_r by lia.
      by rewrite set_Range_id. }
  cbn beta. intros _ s1 Hs1. assert (length (l1 ++ (if BaseAddress e <? b then [Bo] else [])) = length (es1 ++ below b e)) as Hl1.
  { rewrite !length_app. unfold below. destruct (BaseAddress e <? b); cbn; lia. }
  eapply wp_step; [apply read_run, (mid_lookup _ _ _ _ _ _ _ _ _ _ _ Hs1 Hl1)|]. rewrite RE. change (EndAddress e1) with (EndAddress e).
  eapply wp_seq with (P := fun _ s2 => mid s2 (l1 ++ (if BaseAddress e <? b then [Bo] else []) ++ a :: (if n <? EndAddress e then [To] else []) ++ l2)
      (es1 ++ below b e ++ clip b n e :: above n e ++ es2) (spare To Bo (low || (BaseAddress e <? b)) (n <? EndAddress e))).
  2:{ cbn beta. intros _ s2 Hs2. by apply wp_ret. }
  unfold above. destruct (Z.ltb_spec n (EndAddress e)) as [Hn|Hn].
  - replace (wrapU 64 (b + Length)) with (n + 1) by (unfold wrapU; rewrite Z.mod_small; lia).
    assert (mid s1 ((l1 ++ (if BaseAddress e <? b then [Bo] else [])) ++ a :: l2) ((es1 ++ below b e) ++ e1 :: es2)
      (To :: (if low || (BaseAddress e <? b) then [] else [Bo]))) as Hs1'.
    { unfold spare in Hs1. destruct (low || (BaseAddress e <? b)); [done|]. by apply mid_swap. }
    eapply wp_mono; [exact (link_at_ok sp D s0 false s1 _ a l2 _ e1 es2 To _ _ _ Hs1' Hl1)|]. cbn beta. intros _ s2 Hs2.
    rewrite <- !app_assoc in Hs2. unfold spare. rewrite app_nil_r. unfold clip. by rewrite Z.min_l by lia.
  - apply wp_ret. unfold clip. rewrite Z.min_r by lia. by rewrite <- !app_assoc in Hs1.
Qed.

Context {A : Type} (f : A -> ENTRY -> ENTRY * A).
Hypothesis f_signature : forall x e, Signature (f x e).1 = Signature e.

Lemma change_links_ok z l2 es2 hi : forall lm ms l1 es1 low x turns s, mid s (l1 ++ lm ++ l2) (es1 ++ ms ++ es2) (spare To Bo low false) ->
  length l1 = length es1 -> length lm = length ms -> last lm = Some z -> (length lm <= turns)%nat -> signed (es1 ++ ms ++ es2) ->
  (exists lo, chain ms lo hi /\ 0 <= lo /\ (lo < b -> low = false)) -> n <= hi < 2 ^ 64 ->
  (forall m, head ms = Some m -> b <= EndAddress m) -> (forall m, last ms = Some m -> BaseAddress m <= n) ->
  wp true (change_links turns sp b Length To Bo f x (head lm) z) (fun _ s' => forall m, head ms = Some m -> forall m', last ms = Some m' ->
    mid s' (l1 ++ (if BaseAddress m <? b then [Bo] else []) ++ lm ++ (if n <? EndAddress m' then [To] else []) ++ l2)
      (es1 ++ below b m ++ changes f x b n ms ++ above n m' ++ es2)
      (spare To Bo (low || (BaseAddress m <? b)) (n <? EndAddress m'))) s.
Proof.
  induction lm as [|a lm IH]; intros ms l1 es1 low x turns s H Hl Hm Hz Ht Sg (lo & Ch & Hlo & Hlow) Hhi Hh Hlast; [done|].
  destruct ms as [|m ms]; [done|]. cbn in Hm. injection Hm as Hm. destruct turns as [|turns]; [cbn in Ht; lia|].
  assert (NoDup (l1 ++ (a :: lm) ++ l2)) as N.
  { pose proof (rg_nodup _ _ _ _ _ _ (mid_region _ _ _ _ _ _ _ H)) as N. by apply NoDup_app in N as (N & _). }
  cbn [change_links head]. apply wp_get. rewrite (mid_map _ _ _ _ _ _ _ H), (link_end _ _ _ _ N Hz).
  rewrite bool_decide_false by (apply (link_inside _ _ _ _ N); set_solver). cbn [app] in H, Sg.
  assert (Signature m = EFI_GCD_MAP_SIGNATURE) as Sm by (apply signed_app in Sg as [_ Sg]; by apply signed_cons in Sg as [? _]).
  eapply wp_step; [by eapply CR_run; [apply (mid_lookup _ _ _ _ _ _ _ _ _ _ _ H Hl)|]|].
  destruct Ch as (Eb & Le & Ch). specialize (Hh m eq_refl). pose proof (chain_le _ _ _ Ch) as Hle.
  assert (BaseAddress m <= n /\ (ms <> [] -> EndAddress m < n)) as [Hbn Hen].
  { destruct (list_snoc_dec ms) as [->|(ms0 & m' & ->)]; [split; [by apply Hlast|done]|].
    assert (BaseAddress m' <= n) by (apply Hlast; by rewrite (last_snoc_cons m ms0 m')).
    destruct (chain_range _ _ _ m' Ch) as [? ?]; [set_solver|]. split; [lia|]. intros _. lia. }
  eapply wp_seq; [apply (insert_ok s l1 a (lm ++ l2) es1 m (ms ++ es2) low); [done|done|lia|lia|lia|intros; apply Hlow; lia]|].
  cbn beta. intros _ s1 H1. set (LL := if BaseAddress m <? b then [Bo] else []) in *.
  assert (mid s1 ((l1 ++ LL) ++ a :: (if n <? EndAddress m then [To] else []) ++ lm ++ l2)
    ((es1 ++ below b m) ++ clip b n m :: above n m ++ ms ++ es2) (spare To Bo (low || (BaseAddress m <? b)) (n <? EndAddress m))) as H1'
    by (by rewrite <- !app_assoc).
  assert (length (l1 ++ LL) = length (es1 ++ below b m)) as Hl1.
  { rewrite !length_app. unfold LL, below. destruct (BaseAddress m <? b); cbn; lia. }
  eapply wp_step; [apply read_run, (mid_lookup _ _ _ _ _ _ _ _ _ _ _ H1' Hl1)|]. cbn zeta.
  eapply wp_seq; [by eapply mid_write; [exact H1'|]|]. cbn beta. intros _ s2 H2. apply wp_get.
  rewrite (mid_map _ _ _ _ _ _ _ H2). pose proof (mid_fresh _ _ _ _ _ _ _ _ _ H2) as (Na & _). rewrite ForwardLink_app by done.
  destruct (last_tail _ _ _ Hz) as [[-> ->]|Hz'].
  - destruct ms; [|done]. eapply wp_eq.
    { destruct turns; cbn [change_links]; rewrite (Mbind_Ok Mget _ s2 s2 s2 eq_refl), (mid_map _ _ _ _ _ _ _ H2), ForwardLink_app by done;
        by rewrite bool_decide_true. }
    intros m1 [= <-] m2 [= <-]. cbn [changes app] in H2 |- *. by rewrite <- !app_assoc in H2.
  - destruct lm as [|a' lm]; [done|]. destruct ms as [|m' ms]; [done|].
    assert ((n <? EndAddress m) = false /\ above n m = []) as [Hf Ha].
    { unfold above. specialize (Hen ltac:(done)). by rewrite (proj2 (Z.ltb_ge _ _)) by lia. }
    rewrite Hf, Ha in H2. rewrite Hf. cbn [app head] in H2 |- *.
    assert (BaseAddress m' = EndAddress m + 1) as Eb' by apply Ch.
    eapply wp_mono.
    + apply (IH (m' :: ms) ((l1 ++ LL) ++ [a]) ((es1 ++ below b m) ++ [(f x (clip b n m)).1]) (low || (BaseAddress m <? b))).
      * rewrite <- !app_assoc in H2. rewrite <- !app_assoc. exact H2.
      * rewrite !length_app in Hl1. rewrite !length_app. cbn. lia.
      * done.
      * done.
      * cbn in Ht |- *. lia.
      * apply signed_app in Sg as [S1 S2]. apply signed_cons in S2 as [_ S2]. rewrite <- !app_assoc. apply signed_app. split; [done|].
        apply signed_app. split; [by apply below_signed|]. apply signed_cons. split; [by rewrite f_signature|done].
      * exists (EndAddress m + 1). split; [done|]. split; [lia|]. lia.
      * done.
      * intros m1 [= <-]. destruct Ch as (_ & ? & _). lia.
      * intros m1 E. by apply Hlast.
    + cbn beta. intros _ s3 H3 m1 [= <-] m2 E2. specialize (H3 m' eq_refl m2 E2).
      assert ((BaseAddress m' <? b) = false /\ below b m' = []) as [Hf' Hb']. { unfold below. by rewrite (proj2 (Z.ltb_ge _ _)) by lia. }
      rewrite Hf', Hb', orb_false_r in H3. cbn [changes app] in H3 |- *. rewrite <- !app_assoc in H3. exact H3.
Qed.

(** ** Searching *)

(** From the entry after the start on. *)
Lemma search_end s st hi : forall l es lo, reps (gcd_entries s) l es -> signed es -> chain es lo hi -> b < lo <= n ->
  (hi < n -> search_from l b Length (Some st) s = Ok ((EFI_NOT_FOUND, None), s)) /\
  (n <= hi -> exists lm z l2 ms es2 hi', l = lm ++ l2 /\ es = ms ++ es2 /\ length lm = length ms /\ last lm = Some z /\
     search_from l b Length (Some st) s = Ok ((EFI_SUCCESS, Some (st, z)), s) /\
     chain ms lo hi' /\ n <= hi' /\ (forall m, last ms = Some m -> BaseAddress m <= n)).
Proof.
  pose proof range_end as RE. induction l as [|a l IH]; intros es lo R Sg Ch Hlo.
  { apply Forall2_nil_inv_l in R as ->. cbn in Ch. split; [done|]. lia. }
  apply Forall2_cons_inv_l in R as (m & es' & Ha & R & ->). apply signed_cons in Sg as [Sm Sg]. destruct Ch as (Eb & Le & Ch).
  cbn [search_from]. rewrite (Mbind_Ok _ _ _ _ _ (CR_run s a m Ha Sm)), RE.
  replace ((BaseAddress m <=? b) && (b <=? EndAddress m)) with false by lia. cbn zeta.
  destruct (Z.le_gt_cases n (EndAddress m)) as [Hn|Hn].
  - replace ((BaseAddress m <=? n) && (n <=? EndAddress m)) with true by lia. pose proof (chain_le _ _ _ Ch). split; [lia|]. intros _.
    exists [a], a, l, [m], es', (EndAddress m). split_and!; try done; try (cbn; lia). intros m' [= <-]. lia.
  - replace ((BaseAddress m <=? n) && (n <=? EndAddress m)) with false by lia.
    destruct (IH es' _ R Sg Ch) as [IH1 IH2]; [lia|]. split; [done|]. intros Hh.
    destruct (IH2 Hh) as (lm & z & l2 & ms & es2 & hi' & -> & -> & Hl & Hz & E & C & Hn' & Hlast).
    exists (a :: lm), z, l2, (m :: ms), es2, hi'. split_and!; try done; [cbn; lia|by destruct lm|].
    intros m'. destruct ms as [|m2 ms]; [by destruct lm|]. apply Hlast.
Qed.

Lemma search_start s hi : forall l es lo, reps (gcd_entries s) l es -> signed es -> chain es lo hi -> lo <= b ->
  (hi < n -> search_from l b Length None s = Ok ((EFI_NOT_FOUND, None), s)) /\
  (n <= hi -> exists l1 lm l2 es1 ms es2 a z, l = l1 ++ lm ++ l2 /\ es = es1 ++ ms ++ es2 /\ length l1 = length es1 /\
     length lm = length ms /\ head lm = Some a /\ last lm = Some z /\
     search_from l b Length None s = Ok ((EFI_SUCCESS, Some (a, z)), s) /\ covers ms b n).
Proof.
  pose proof range_end as RE. induction l as [|a l IH]; intros es lo R Sg Ch Hlo.
  { apply Forall2_nil_inv_l in R as ->. cbn in Ch. split; [done|]. lia. }
  apply Forall2_cons_inv_l in R as (m & es' & Ha & R & ->). apply signed_cons in Sg as [Sm Sg]. destruct Ch as (Eb & Le & Ch).
  cbn [search_from]. rewrite (Mbind_Ok _ _ _ _ _ (CR_run s a m Ha Sm)), RE. pose proof (chain_le _ _ _ Ch).
  destruct (Z.le_gt_cases b (EndAddress m)) as [Hb|Hb].
  - replace ((BaseAddress m <=? b) && (b <=? EndAddress m)) with true by lia. cbn zeta.
    destruct (Z.le_gt_cases n (EndAddress m)) as [Hn|Hn].
    + replace ((BaseAddress m <=? n) && (n <=? EndAddress m)) with true by lia. split; [lia|]. intros _.
      exists [], [a], l, [], [m], es', a, a. split_and!; try done. exists lo, (EndAddress m). split_and!; try lia.
      * by cbn.
      * intros m' [= <-]. lia.
      * intros m' [= <-]. lia.
    + replace ((BaseAddress m <=? n) && (n <=? EndAddress m)) with false by lia.
      destruct (search_end s a hi l es' _ R Sg Ch) as [S1 S2]; [lia|]. split; [done|]. intros Hh.
      destruct (S2 Hh) as (lm & z & l2 & ms & es2 & hi' & -> & -> & Hl & Hz & E & C & Hn' & Hlast).
      exists [], (a :: lm), l2, [], (m :: ms), es2, a, z. split_and!; try done; [cbn; lia|by destruct lm|].
      exists lo, hi'. split_and!; try lia.
      * cbn. by split_and!.
      * intros m' [= <-]. lia.
      * intros m'. destruct ms as [|m2 ms]; [by destruct lm|]. apply Hlast.
  - replace ((BaseAddress m <=? b) && (b <=? EndAddress m)) with false by lia. cbn zeta.
    destruct (IH es' _ R Sg Ch) as [IH1 IH2]; [lia|]. split; [done|]. intros Hh.
    destruct (IH2 Hh) as (l1 & lm & l2 & es1 & ms & es2 & a' & z & -> & -> & Hl1 & Hl & Ha' & Hz & E & C).
    exists (a :: l1), lm, l2, (m :: es1), ms, es2, a', z. split_and!; try done. cbn. lia.
Qed.
End Change.
End Range.
