(* ===== verification/GcdState.v ===== *)
(** * GcdState: the invariant of the two maps

    Each map is a reduced chain of entries from 0 to the end of its space, and
    no entry is allocated that is not on a map.  A change of a range of a map,
    as CoreConvertSpace and CoreAllocateSpace make it, keeps this and changes
    what the map says of the addresses in the range, and of no other. *)

From stdpp Require Import base option list gmap fin_maps.
From Stdlib Require Import ZArith Lia.
From S2P Require Import Prelude Gcd GcdMap GcdRange.

Local Open Scope Z_scope.
Local Open Scope edk_scope.

(** ** What a change says of the addresses *)

Section Effect.
Context {A : Type} (f : A -> ENTRY -> ENTRY * A) (b n : Z).
Hypothesis f_signature : forall x e, Signature (f x e).1 = Signature e.
Hypothesis f_range : forall x e, BaseAddress (f x e).1 = BaseAddress e /\ EndAddress (f x e).1 = EndAddress e.

Lemma changes_chain : forall ms x lo hi, chain ms lo hi -> ms <> [] -> n <= hi ->
  (forall m, head ms = Some m -> b <= EndAddress m) -> (forall m, last ms = Some m -> BaseAddress m <= n) -> b <= n ->
  chain (changes f x b n ms) (Z.max b lo) n.
Proof.
  induction ms as [|m ms IH]; intros x lo hi Ch Ne Hn Hh Hl Hbn; [done|]. destruct Ch as (Eb & Le & Ch). specialize (Hh m eq_refl).
  cbn [changes chain]. destruct (f_range x (clip b n m)) as [F1 F2]. rewrite F1, F2. unfold clip. cbn [BaseAddress EndAddress set_Range].
  rewrite Eb. destruct ms as [|m' ms].
  - cbn in Ch |- *. specialize (Hl m eq_refl). lia.
  - assert (EndAddress m < n) as He.
    { destruct (list_snoc_dec (m' :: ms)) as [|(ms0 & z & E)]; [done|]. rewrite E in Ch, Hl.
      assert (BaseAddress z <= n) by (apply Hl; apply last_snoc_cons). destruct (chain_range _ _ _ z Ch); [set_solver|lia]. }
    split; [done|]. split; [lia|]. rewrite Z.min_r by lia. replace (EndAddress m + 1) with (Z.max b (EndAddress m + 1)) by lia.
    apply (IH _ (EndAddress m + 1) hi); try done. intros m1 [= <-]. destruct Ch as (? & ? & _). lia.
Qed.
Lemma changes_signed ms x : signed ms -> signed (changes f x b n ms).
Proof.
  revert x. induction ms as [|m ms IH]; intros x H; [done|]. apply signed_cons in H as [H1 H2]. cbn [changes]. apply signed_cons.
  split; [by rewrite f_signature|by apply IH].
Qed.
Lemma chain_ends ms lo hi m m' : chain ms lo hi -> head ms = Some m -> last ms = Some m' -> BaseAddress m = lo /\ EndAddress m' = hi.
Proof.
  intros Ch Hm (ms0 & ->)%last_Some. pose proof Ch as (k & _ & (K1 & K2 & K3))%chain_app. cbn in K3. split; [|lia].
  destruct (ms0 ++ [m']) as [|x l]; [done|]. injection Hm as ->. by destruct Ch.
Qed.
Lemma covers_parts ms : covers ms b n -> exists m m', head ms = Some m /\ last ms = Some m' /\
  BaseAddress m <= b <= n /\ n <= EndAddress m' /\ b <= EndAddress m /\ BaseAddress m' <= n.
Proof.
  intros (lo & hi & Ch & H1 & H2 & H3 & H4). destruct ms as [|m ms]; [cbn in Ch; lia|].
  destruct (last (m :: ms)) as [m'|] eqn:E; [|by apply last_None in E]. exists m, m'.
  destruct (chain_ends _ _ _ _ _ Ch eq_refl E) as [<- <-]. split_and!; try done; try lia; [by apply H3|by apply H4].
Qed.

(** The map with the range cut out of [ms] and changed. *)
Definition replaced (x : A) (es1 ms es2 : list ENTRY) : list ENTRY :=
  match head ms, last ms with
  | Some m, Some m' => es1 ++ below b m ++ changes f x b n ms ++ above n m' ++ es2
  | _, _ => es1 ++ ms ++ es2
  end.
Lemma replaced_chain es1 ms es2 x lo hi : covers ms b n -> chain (es1 ++ ms ++ es2) lo hi -> chain (replaced x es1 ms es2) lo hi.
Proof.
  intros Cv (k1 & C1 & (k2 & C2 & C3)%chain_app)%chain_app. unfold replaced.
  destruct (covers_parts ms Cv) as (m & m' & Em & Em' & H1 & H2 & H3 & H4). rewrite Em, Em'.
  destruct (chain_ends _ _ _ _ _ C2 Em Em') as [Eb Ee].
  apply chain_app. exists k1. split; [done|]. apply chain_app. exists (Z.max b k1). split.
  { unfold below. destruct (Z.ltb_spec (BaseAddress m) b); cbn; lia. }
  apply chain_app. exists (n + 1). split.
  { replace (n + 1 - 1) with n by lia. apply (changes_chain ms x k1 (k2 - 1)); try done; [by destruct ms|lia|congruence|congruence|lia]. }
  apply chain_app. exists k2. split; [|done]. unfold above. destruct (Z.ltb_spec n (EndAddress m')); cbn; lia.
Qed.
Lemma replaced_signed es1 ms es2 x : signed (es1 ++ ms ++ es2) -> signed (replaced x es1 ms es2).
Proof.
  intros H. unfold replaced. destruct (head ms) as [m|] eqn:Em; [|done]. destruct (last ms) as [m'|] eqn:Em'; [|done].
  rewrite !signed_app in H. destruct H as (H1 & H2 & H3). rewrite !signed_app. split_and!; try done; [|by apply changes_signed|].
  - apply below_signed. destruct ms as [|m0 ms]; [done|]. injection Em as ->. by apply signed_cons in H2 as [? _].
  - apply above_signed. apply last_Some in Em' as (ms0 & ->). apply signed_app in H2 as [_ H2]. by apply signed_cons in H2 as [? _].
Qed.

(** The variable when the change comes to the address [y]. *)
Fixpoint variable_at (x : A) (ms : list ENTRY) (y : Z) : A :=
  match ms with
  | [] => x
  | m :: ms' => if y <=? EndAddress m then x else variable_at (f x (clip b n m)).2 ms' y
  end.
Hypothesis f_kind : forall x e, kind (f x e).1 = kind (f x (kind e)).1.

Lemma changes_info y : b <= y <= n -> forall ms x lo hi, chain ms lo hi -> (forall m, head ms = Some m -> b <= EndAddress m) -> lo <= y ->
  info (changes f x b n ms) y = (fun k => kind (f (variable_at x ms y) k).1) <$> info ms y.
Proof.
  intros Hy. induction ms as [|m ms IH]; intros x lo hi Ch Hh Hlo; [done|]. destruct Ch as (Eb & Le & Ch).
  cbn [changes info variable_at]. destruct (f_range x (clip b n m)) as [-> ->].
  change (BaseAddress (clip b n m)) with (Z.max b (BaseAddress m)). change (EndAddress (clip b n m)) with (Z.min n (EndAddress m)).
  destruct (Z.leb_spec y (EndAddress m)).
  - rewrite !decide_True by lia. cbn. by rewrite f_kind.
  - rewrite !decide_False by lia. apply (IH _ _ _ Ch); [|lia]. intros m' Em. destruct ms; [done|]. injection Em as ->.
    destruct Ch as (? & ? & _). specialize (Hh m eq_refl). lia.
Qed.
Lemma replaced_info es1 ms es2 x lo hi y : covers ms b n -> chain (es1 ++ ms ++ es2) lo hi ->
  info (replaced x es1 ms es2) y =
    if decide (b <= y <= n) then (fun k => kind (f (variable_at x ms y) k).1) <$> info (es1 ++ ms ++ es2) y
    else info (es1 ++ ms ++ es2) y.
Proof.
  intros Cv (k1 & C1 & (k2 & C2 & C3)%chain_app)%chain_app. unfold replaced.
  destruct (covers_parts ms Cv) as (m & m' & Em & Em' & H1 & H2 & H3 & H4). rewrite Em, Em'.
  destruct (chain_ends _ _ _ _ _ C2 Em Em') as [Eb Ee].
  rewrite !(info_app _ _ _ _ _ C1), (info_app _ _ _ _ _ C2).
  assert (chain (below b m) k1 (Z.max b k1 - 1)) as Cb by (unfold below; destruct (Z.ltb_spec (BaseAddress m) b); cbn; lia).
  assert (chain (changes f x b n ms) (Z.max b k1) (n + 1 - 1)) as Cc.
  { replace (n + 1 - 1) with n by lia. apply (changes_chain ms x k1 (k2 - 1)); try done; [by destruct ms|lia|congruence|congruence|lia]. }
  assert (chain (above n m') (n + 1) (k2 - 1)) as Ca by (unfold above; destruct (Z.ltb_spec n (EndAddress m')); cbn; lia).
  rewrite (info_app _ _ _ _ _ Cb), (info_app _ _ _ _ _ Cc), (info_app _ _ _ _ _ Ca).
  destruct (decide (b <= y <= n)) as [Hy|Hy].
  - rewrite !(decide_False (P := k1 <= y < Z.max b k1)), !(decide_False (P := lo <= y < k1)) by (try lia; pose proof (chain_le _ _ _ C1); lia).
    rewrite !decide_True by lia. apply (changes_info y Hy ms x k1 (k2 - 1)); [done|congruence|lia].
  - case_decide; [done|]. destruct (decide (k1 <= y < k2)) as [Hm|Hm].
    + case_decide.
      * unfold below. rewrite (proj2 (Z.ltb_lt _ _)) by lia. cbn. rewrite decide_True by lia. rewrite kind_set_Range. symmetry.
        destruct ms as [|m0 ms]; [done|]. injection Em as ->. cbn. by rewrite decide_True by lia.
      * rewrite decide_False by lia. rewrite decide_True by lia. unfold above. rewrite (proj2 (Z.ltb_lt _ _)) by lia. cbn.
        rewrite decide_True by lia. rewrite kind_set_Range. symmetry. apply (info_elem _ _ _ _ _ C2); [|lia].
        apply last_Some in Em' as (ms0 & ->). set_solver.
    + rewrite !decide_False by lia. done.
Qed.
End Effect.

(** ** The state *)

Section State.
Context {World : Type} `{Env : !GCD_ENV World} (top : SPACE -> Z).
Implicit Types s : GCD World.

(** The entries of a map, and what it says of an address. *)
Definition entries_of s (sp : SPACE) : list ENTRY := omap (fun a => gcd_entries s !! a) (gcd_map s sp).
Definition space_info s (sp : SPACE) (x : Z) : option ENTRY := info (entries_of s sp) x.

Record gcd_wf s : Prop := {
  wf_reps sp : reps (gcd_entries s) (gcd_map s sp) (entries_of s sp);
  wf_chain sp : chain (entries_of s sp) 0 (top sp);
  wf_reduced sp : reduced (entries_of s sp);
  wf_signed sp : signed (entries_of s sp);
  wf_nodup : NoDup (gcd_map s MemorySpace ++ gcd_map s IoSpace);
  wf_used a : is_Some (gcd_entries s !! a) -> a ∈ gcd_map s MemorySpace ++ gcd_map s IoSpace;
  wf_guard : mOnGuarding s = false
}.

(** The spaces have less than 2^64 addresses. *)
Definition small : Prop := forall sp, 0 <= top sp < 2 ^ 64.
(** The pool gives new entries. *)
Definition entries_fresh : Prop := forall s a, GcdPool s = Some a -> a <> 0 /\ gcd_entries s !! a = None.

Lemma entries_of_reps s sp es : reps (gcd_entries s) (gcd_map s sp) es -> entries_of s sp = es.
Proof. unfold entries_of. induction 1 as [|a e l es Ha H IH]; [done|]. cbn. rewrite Ha. by f_equal. Qed.
Lemma wf_one s sp : gcd_wf s -> NoDup (gcd_map s sp).
Proof. intros H. pose proof (wf_nodup s H) as (N1 & _ & N2)%NoDup_app. by destruct sp. Qed.
Lemma wf_disjoint s sp sp' a : gcd_wf s -> sp' <> sp -> a ∈ gcd_map s sp -> a ∈ gcd_map s sp' -> False.
Proof. intros H Hne H1 H2. pose proof (wf_nodup s H) as (_ & N & _)%NoDup_app. destruct sp, sp'; try done; [by apply (N a)|by apply (N a)]. Qed.
Lemma wf_in s sp a : gcd_wf s -> a ∈ gcd_map s sp -> is_Some (gcd_entries s !! a).
Proof.
  intros H (l1 & l2 & E)%list_elem_of_split. pose proof (wf_reps s H sp) as R. rewrite E in R. apply reps_mid in R as (? & ? & ? & _ & _ & ? & _). by eexists.
Qed.
Lemma in_maps s sp a : a ∈ gcd_map s sp -> a ∈ gcd_map s MemorySpace ++ gcd_map s IoSpace.
Proof. destruct sp; set_solver. Qed.

(** ** The two entries *)

Definition pool_refuses : Prop := exists s, GcdPool s = None.
Lemma new_entry_run s : entries_fresh -> mOnGuarding s = false ->
  (new_entry s = Ok (0, s) /\ pool_refuses) \/
  exists a, new_entry s = Ok (a, upd_entries (<[a := zero_gcd_entry]> (gcd_entries s)) s) /\ a <> 0 /\ gcd_entries s !! a = None.
Proof.
  intros F G. unfold new_entry. rewrite (Mbind_Ok (Mmodify (upd_guard true)) _ s tt (upd_guard true s) eq_refl).
  rewrite (Mbind_Ok Mget _ _ _ _ eq_refl). destruct (GcdPool (upd_guard true s)) as [a|] eqn:E.
  - right. exists a. destruct (F _ _ E) as [F1 F2]. split; [|done]. cbn. destruct s. cbn in *. by subst.
  - left. split; [|by exists (upd_guard true s)]. cbn. destruct s. cbn in *. by subst.
Qed.

Lemma alloc_ok s sp : entries_fresh -> gcd_wf s ->
  wp true CoreAllocateGcdMapEntry (fun r s' =>
    (r.1 = EFI_OUT_OF_RESOURCES /\ s' = s /\ pool_refuses) \/
    exists To Bo, r = (EFI_SUCCESS, (To, Bo)) /\
      mid sp (gcd_map s sp ++ [Bo; To]) s s' (gcd_map s sp) (entries_of s sp) [Bo; To] /\
      gcd_entries s !! To = None /\ gcd_entries s !! Bo = None) s.
Proof.
  intros F W. unfold CoreAllocateGcdMapEntry. destruct (new_entry_run s F (wf_guard s W)) as [[E Rf]|(To & E & Z1 & N1)].
  { eapply wp_step; [exact E|]. apply wp_ret. by left. }
  eapply wp_step; [exact E|]. rewrite (proj2 (Z.eqb_neq To 0)) by done. set (s1 := upd_entries _ s) in *.
  destruct (new_entry_run s1 F (wf_guard s W)) as [[E1 Rf]|(Bo & E1 & Z2 & N2)].
  { eapply wp_step; [exact E1|]. rewrite Z.eqb_refl. eapply wp_step.
    { unfold free_entry, s1. cbn. by rewrite lookup_insert_eq. }
    apply wp_ret. left. split; [done|]. split; [|done]. unfold s1. cbn. rewrite delete_insert_id by done. by destruct s. }
  eapply wp_step; [exact E1|]. rewrite (proj2 (Z.eqb_neq Bo 0)) by done. apply wp_ret. right. exists To, Bo. split; [done|].
  cbn in N2. apply lookup_insert_None in N2 as [N2 Hne]. split; [|done].
  assert (forall a, a ∈ gcd_map s sp -> a <> To /\ a <> Bo) as Hd.
  { intros a Ha. apply (wf_in s sp a W) in Ha as [e Ha]. split; intros ->; congruence. }
  split; try done. cbn [gcd_entries upd_entries]. split.
  - apply (reps_frame (gcd_entries s)); [|by apply wf_reps]. intros a Ha. destruct (Hd a Ha). cbn. by rewrite !lookup_insert_ne.
  - apply NoDup_app. split; [by apply wf_one|]. split; [intros a Ha; destruct (Hd a Ha); set_solver|].
    apply NoDup_cons. split; [set_solver|apply NoDup_singleton].
  - intros t [->| ->%list_elem_of_singleton]%elem_of_cons; [by rewrite lookup_insert_eq|]. cbn. by rewrite lookup_insert_ne, lookup_insert_eq.
  - intros a Ha. cbn. rewrite !lookup_insert_ne; [done|set_solver|set_solver].
  - intros a Ha _. done.
  - done.
Qed.

(** ** After a change *)

(** What [s'] says of the other map, and what the change has left alone. *)
Definition beside sp s s' : Prop :=
  (forall sp', sp' <> sp -> gcd_map s' sp' = gcd_map s sp' /\ entries_of s' sp' = entries_of s sp') /\
  gcd_lock s' = gcd_lock s /\ gcd_world s' = gcd_world s.

Lemma after_change s s' sp l' es' To Bo : gcd_wf s -> gcd_entries s !! To = None -> gcd_entries s !! Bo = None ->
  mid sp (gcd_map s sp ++ [Bo; To]) s s' l' es' [] -> chain es' 0 (top sp) -> reduced es' -> signed es' ->
  gcd_wf s' /\ entries_of s' sp = es' /\ beside sp s s'.
Proof.
  intros W NT NB [M1 M2 M3 M4 M5 [R N S F U I]] C Rd Sg. rewrite app_nil_r in N, U, I.
  assert (forall a sp', sp' <> sp -> a ∈ gcd_map s sp' -> a ∉ gcd_map s sp ++ [Bo; To]) as Out.
  { intros a sp' Hne Ha [H|H]%elem_of_app; [by apply (wf_disjoint s sp sp' a)|]. apply (wf_in s sp' a W) in Ha as [e Ha].
    assert (a = Bo \/ a = To) as [->| ->] by set_solver; congruence. }
  assert (entries_of s' sp = es') as E1 by (apply entries_of_reps; by rewrite M1).
  assert (forall sp', sp' <> sp -> entries_of s' sp' = entries_of s sp') as E2.
  { intros sp' Hne. apply entries_of_reps. rewrite (M2 sp' Hne). apply (reps_frame (gcd_entries s)); [|by apply wf_reps].
    intros a Ha. apply F. by apply (Out a sp'). }
  assert (forall sp', entries_of s' sp' = if decide (sp' = sp) then es' else entries_of s sp') as E3.
  { intros sp'. case_decide; [by subst|by apply E2]. }
  split; [|split; [done|split_and!; try done; intros sp' Hne; split; [by apply M2|by apply E2]]]. split.
  - intros sp'. destruct (decide (sp' = sp)) as [->|Hne]; [by rewrite E1, M1|]. rewrite (E2 sp' Hne), (M2 sp' Hne).
    apply (reps_frame (gcd_entries s)); [|by apply wf_reps]. intros a Ha. apply F. by apply (Out a sp').
  - intros sp'. rewrite E3. case_decide; [by subst|by apply wf_chain].
  - intros sp'. rewrite E3. case_decide; [by subst|by apply wf_reduced].
  - intros sp'. rewrite E3. case_decide; [by subst|by apply wf_signed].
  - apply NoDup_app. assert (forall sp', NoDup (gcd_map s' sp')) as N'.
    { intros sp'. destruct (decide (sp' = sp)) as [->|Hne]; [by rewrite M1|]. rewrite (M2 sp' Hne). by apply wf_one. }
    split; [apply N'|]. split; [|apply N']. intros a H1 H2. destruct sp; [rewrite M1 in H1; rewrite (M2 IoSpace) in H2 by done|
      rewrite M1 in H2; rewrite (M2 MemorySpace) in H1 by done].
    + apply (Out a IoSpace); [done|done|]. by apply I.
    + apply (Out a MemorySpace); [done|done|]. by apply I.
  - intros a Ha. destruct (decide (a ∈ gcd_map s sp ++ [Bo; To])) as [Hin|Hout].
    + apply (in_maps s' sp). rewrite M1. by apply U.
    + rewrite (F a Hout) in Ha. pose proof (wf_used s W a Ha) as Ha'. apply elem_of_app in Ha'. destruct sp.
      * destruct Ha' as [|Ha']; [set_solver|]. apply elem_of_app. right. by rewrite (M2 IoSpace).
      * destruct Ha' as [Ha'|]; [|set_solver]. apply elem_of_app. left. by rewrite (M2 MemorySpace).
  - rewrite M4. apply (wf_guard s W).
Qed.

(** ** A range *)

(** The links from [a] to [z], with the entries [ms], cover the range. *)
Record located s sp (b n a z : Z) (l1 lm l2 : list Z) (es1 ms es2 : list ENTRY) : Prop := {
  loc_map : gcd_map s sp = l1 ++ lm ++ l2;
  loc_entries : entries_of s sp = es1 ++ ms ++ es2;
  loc_before : length l1 = length es1;
  loc_length : length lm = length ms;
  loc_start : head lm = Some a;
  loc_end : last lm = Some z;
  loc_covers : covers ms b n
}.

Lemma gcd_search_ok s sp b n Length : gcd_wf s -> 0 <= b <= n /\ n < 2 ^ 64 /\ Length = n - b + 1 ->
  (top sp < n -> CoreSearchGcdMapEntry b Length sp s = Ok ((EFI_NOT_FOUND, None), s)) /\
  (n <= top sp -> exists a z l1 lm l2 es1 ms es2, CoreSearchGcdMapEntry b Length sp s = Ok ((EFI_SUCCESS, Some (a, z)), s) /\
     located s sp b n a z l1 lm l2 es1 ms es2).
Proof.
  intros W Hr. unfold CoreSearchGcdMapEntry. assert (negb (Length =? 0) = true) as -> by lia.
  destruct (search_start b n Length Hr s (top sp) (gcd_map s sp) (entries_of s sp) 0 (wf_reps s W sp) (wf_signed s W sp) (wf_chain s W sp))
    as [S1 S2]; [lia|]. split; [exact S1|].
  intros Hn. destruct (S2 Hn) as (l1 & lm & l2 & es1 & ms & es2 & a & z & E1 & E2 & H1 & H2 & H3 & H4 & H5 & H6).
  exists a, z, l1, lm, l2, es1, ms, es2. split; [exact H5|]. done.
Qed.

Lemma located_reps s sp b n a z l1 lm l2 es1 ms es2 : gcd_wf s -> located s sp b n a z l1 lm l2 es1 ms es2 ->
  NoDup (l1 ++ lm ++ l2) /\ reps (gcd_entries s) lm ms /\ signed ms.
Proof.
  intros W [E1 E2 H1 H2 _ _ _]. pose proof (wf_one s sp W) as N. rewrite E1 in N. split; [done|].
  pose proof (wf_reps s W sp) as R. rewrite E1, E2 in R. apply Forall2_app_inv in R as [_ R]; [|done].
  apply Forall2_app_inv in R as [R _]; [|done]. split; [done|]. pose proof (wf_signed s W sp) as Sg. rewrite E2 in Sg.
  rewrite !signed_app in Sg. by destruct Sg as (_ & ? & _).
Qed.

(** What the entries of the range say is what the map says of its addresses. *)
Lemma covers_elem s sp b n a z l1 lm l2 es1 ms es2 m : gcd_wf s -> located s sp b n a z l1 lm l2 es1 ms es2 -> m ∈ ms ->
  exists y, b <= y <= n /\ BaseAddress m <= y <= EndAddress m /\ space_info s sp y = Some (kind m).
Proof.
  intros W [E1 E2 _ _ _ _ (lo & hi & Ch & H1 & H2 & H3 & H4)] Hm. pose proof (wf_chain s W sp) as C. 
  destruct (chain_range _ _ _ m Ch Hm) as [R1 R2].
  assert (b <= EndAddress m /\ BaseAddress m <= n) as [B1 B2].
  { apply list_elem_of_split in Hm as (m1 & m2 & ->). split.
    - destruct m1 as [|m0 m1]; [by apply H3|]. specialize (H3 m0 eq_refl). destruct Ch as (? & ? & Ch).
      destruct (chain_range _ _ _ m Ch) as [? ?]; [set_solver|lia].
    - destruct (list_snoc_dec m2) as [->|(m3 & m4 & ->)]; [apply H4, last_snoc|].
      assert (BaseAddress m4 <= n) by (apply H4; rewrite app_comm_cons, app_assoc; apply last_snoc).
      apply chain_app in Ch as (k & _ & (? & ? & Ch)). destruct (chain_range _ _ _ m4 Ch) as [? ?]; [set_solver|lia]. }
  exists (Z.max b (BaseAddress m)). split; [lia|]. split; [lia|]. unfold space_info. rewrite E2 in C |- *.
  apply (info_elem _ _ _ _ _ C); [set_solver|lia].
Qed.

Lemma covers_info s sp b n a z l1 lm l2 es1 ms es2 y k : gcd_wf s -> located s sp b n a z l1 lm l2 es1 ms es2 -> b <= y <= n ->
  space_info s sp y = Some k -> info ms y = Some k.
Proof.
  intros W [E1 E2 _ _ _ _ Cv] Hy. unfold space_info. pose proof (wf_chain s W sp) as C. rewrite E2 in C |- *.
  apply chain_app in C as (k1 & C1 & (k2 & C2 & C3)%chain_app). rewrite (info_app _ _ _ _ _ C1), (info_app _ _ _ _ _ C2).
  destruct (covers_parts b n ms Cv) as (m & m' & Em & Em' & H1 & H2 & H3 & H4). destruct (chain_ends _ _ _ _ _ C2 Em Em') as [Eb Ee].
  rewrite decide_False, decide_True by lia. done.
Qed.

Lemma reduced_below es1 m rest b : reduced (es1 ++ m :: rest) -> reduced (es1 ++ below b m).
Proof.
  intros H. apply reduced_app in H as (H1 & H2 & H3). unfold below. destruct (_ <? _); [|by rewrite app_nil_r].
  apply reduced_snoc. split; [done|]. intros e1 E. rewrite kind_set_Range. by apply H3.
Qed.
Lemma reduced_above es2 m pre n : reduced (pre ++ m :: es2) -> reduced (above n m ++ es2).
Proof.
  intros (_ & H & _)%reduced_app. unfold above. destruct (_ <? _); [|apply reduced_cons in H as [H _]; exact H]. apply (reduced_same [] m _ es2); [done|exact H].
Qed.

Section ChangeRange.
Context {A : Type} (f : A -> ENTRY -> ENTRY * A).
Hypothesis f_signature : forall x e, Signature (f x e).1 = Signature e.
Hypothesis f_range : forall x e, BaseAddress (f x e).1 = BaseAddress e /\ EndAddress (f x e).1 = EndAddress e.
Hypothesis f_kind : forall x e, kind (f x e).1 = kind (f x (kind e)).1.

Lemma change_range_ok s s1 sp b n Length a z l1 lm l2 es1 ms es2 To Bo x : small -> gcd_wf s ->
  0 <= b <= n /\ n < 2 ^ 64 /\ Length = n - b + 1 -> located s sp b n a z l1 lm l2 es1 ms es2 ->
  mid sp (gcd_map s sp ++ [Bo; To]) s s1 (gcd_map s sp) (entries_of s sp) [Bo; To] ->
  gcd_entries s !! To = None -> gcd_entries s !! Bo = None ->
  wp true (change_range sp b Length To Bo a z f x) (fun r s' => r = EFI_SUCCESS /\ gcd_wf s' /\ beside sp s s' /\
    forall y, space_info s' sp y = if decide (b <= y <= n) then (fun k => kind (f (variable_at f b n x ms y) k).1) <$> space_info s sp y
                                   else space_info s sp y) s1.
Proof.
  intros Sm W Hr L H NT NB. destruct (located_reps _ _ _ _ _ _ _ _ _ _ _ _ W L) as (N & R & Sg). pose proof L as [E1 E2 H1 H2 Ha Hz Cv].
  pose proof (wf_chain s W sp) as C. pose proof (wf_reduced s W sp) as Rd. pose proof (wf_signed s W sp) as Sg'.
  rewrite E2 in H. rewrite E1 in H at 2. rewrite E2 in C, Rd, Sg'. pose proof Sm sp as Hsp.
  destruct (covers_parts b n ms Cv) as (m & m' & Em & Em' & B1 & B2 & B3 & B4).
  pose proof C as (k1 & C1 & (k2 & C2 & C3)%chain_app)%chain_app. destruct (chain_ends _ _ _ _ _ C2 Em Em') as [Eb Ee].
  pose proof (chain_le _ _ _ C1). pose proof (chain_le _ _ _ C3).
  unfold change_range. apply wp_get. eapply wp_seq.
  { rewrite <- Ha. apply (change_links_ok sp (gcd_map s sp ++ [Bo; To]) s b n Length To Bo Hr f f_signature z l2 es2 (k2 - 1) lm ms l1 es1 false);
      try done; [rewrite (mid_map _ _ _ _ _ _ _ H), !length_app; lia| |lia|congruence|congruence].
    exists k1. split_and!; [done|lia|done]. }
  cbn beta. intros _ s2 H2'. specialize (H2' m Em m' Em').
  assert (replaced f b n x es1 ms es2 = (es1 ++ below b m) ++ changes f x b n ms ++ (above n m' ++ es2)) as Er.
  { unfold replaced. by rewrite Em, Em', <- !app_assoc. }
  pose proof (replaced_chain f b n f_signature f_range es1 ms es2 x 0 (top sp) Cv C) as Cr.
  pose proof (replaced_signed f b n f_signature es1 ms es2 x Sg') as Sr.
  set (LL := if BaseAddress m <? b then [Bo] else []) in *. set (HL := if n <? EndAddress m' then [To] else []) in *.
  eapply wp_mono.
  - apply (cleanup_ok sp (gcd_map s sp ++ [Bo; To]) s s2 To Bo (BaseAddress m <? b) (n <? EndAddress m') a z (l1 ++ LL) lm (HL ++ l2)
      (es1 ++ below b m) (changes f x b n ms) (above n m' ++ es2) 0 (top sp)); rewrite <- ?Er; try done.
    + rewrite Er. rewrite <- !app_assoc. exact H2'.
    + rewrite !length_app. unfold LL, below. destruct (_ <? _); cbn; lia.
    + rewrite H2. clear. revert x. induction ms as [|m0 ms IH]; intros x; [done|]. cbn. by rewrite <- IH.
    + apply (reduced_below es1 m (tail ms ++ es2)). destruct ms; [done|]. injection Em as ->. exact Rd.
    + apply last_Some in Em' as (ms0 & ->). apply (reduced_above es2 m' (es1 ++ ms0)). by rewrite <- !app_assoc in Rd |- *.
    + unfold LL. intros ->. set_solver.
    + unfold HL. intros ->. set_solver.
  - cbn beta. intros r s3 (-> & l' & es' & M3 & R3 & (C3' & S3 & I3)). split; [done|].
    destruct (after_change s s3 sp l' es' To Bo W NT NB M3 C3' R3 S3) as (W3 & E3 & B). split; [done|]. split; [done|].
    intros y. unfold space_info. rewrite E3, I3, <- Er, E2. by apply (replaced_info f b n f_signature f_range f_kind _ _ _ _ 0 (top sp)).
Qed.
End ChangeRange.
End State.
