(* ===== verification/GcdConvert.v ===== *)
(** * GcdConvert: adding, removing, freeing, setting attributes

    What CoreConvertSpace does, in terms of the addresses of its range. *)

From stdpp Require Import base option list gmap fin_maps.
From Stdlib Require Import ZArith Lia.
From S2P Require Import Prelude Gcd GcdMap GcdRange GcdState.

Local Open Scope Z_scope.
Local Open Scope edk_scope.

(** The code that the services call: the pool gives new entries; the CPU
    protocol and the page allocator return. *)
Class GCD_LAWS {World : Type} `{Env : !GCD_ENV World} : Prop := {
  entries_law : entries_fresh;
  cpu_law F b l c w : gCpu = Some F -> exists st w', F b l c w = Ok (st, w');
  descriptor_law t b n c w : exists w', CoreAddMemoryDescriptor t b n c w = Ok (tt, w');
  update_law b n c w : exists w', CoreUpdateMemoryAttributes b n c w = Ok (tt, w')
}.

Section Convert.
Context {World : Type} `{Env : !GCD_ENV World} `{Laws : !GCD_LAWS} (top : SPACE -> Z).
Implicit Types s : GCD World.

(** ** Checks *)

Lemma firsts_Some {A} (g : Z -> ENTRY -> option A) x : forall lm ms, firsts g lm ms = Some x -> exists lm1 a lm2 ms1 m ms2,
  lm = lm1 ++ a :: lm2 /\ ms = ms1 ++ m :: ms2 /\ length lm1 = length ms1 /\ g a m = Some x /\
  (forall a' m', (a', m') ∈ zip lm1 ms1 -> g a' m' = None).
Proof.
  induction lm as [|a lm IH]; intros [|m ms] H; try done. cbn in H. destruct (g a m) as [x'|] eqn:E.
  - injection H as ->. exists [], a, lm, [], m, ms. split_and!; try done. intros a' m' []%elem_of_nil.
  - destruct (IH ms H) as (lm1 & a1 & lm2 & ms1 & m1 & ms2 & -> & -> & Hl & Hg & Hn).
    exists (a :: lm1), a1, lm2, (m :: ms1), m1, ms2. split_and!; try done; [cbn; lia|]. cbn. intros a' m' [[= -> ->]|H']%elem_of_cons; [done|by apply Hn].
Qed.
Lemma firsts_None {A} (g : Z -> ENTRY -> option A) : forall lm ms, length lm = length ms -> firsts g lm ms = None ->
  forall m, m ∈ ms -> exists a, g a m = None.
Proof.
  induction lm as [|a lm IH]; intros [|m ms] Hl H m' Hm; try done; [by apply elem_of_nil in Hm|]. cbn in H, Hl. destruct (g a m) eqn:E; [done|].
  apply elem_of_cons in Hm as [->|Hm]; [by exists a|]. by apply (IH ms); [lia| |].
Qed.

(** The lowest address of the range at which the check fails; or none. *)
Definition refused {A} s sp (b n : Z) (chk : ENTRY -> option A) (x : A) : Prop :=
  exists y k, b <= y <= n /\ space_info s sp y = Some k /\ chk k = Some x /\
    forall y' k', b <= y' < y -> space_info s sp y' = Some k' -> chk k' = None.
Definition accepted {A} s sp (b n : Z) (chk : ENTRY -> option A) : Prop :=
  forall y k, b <= y <= n -> space_info s sp y = Some k -> chk k = None.

Lemma firsts_info {A} s sp b n a z l1 lm l2 es1 ms es2 (chk : ENTRY -> option A) : gcd_wf top s ->
  located s sp b n a z l1 lm l2 es1 ms es2 -> (forall e, chk (kind e) = chk e) ->
  match firsts (fun _ e => chk e) lm ms with Some x => refused s sp b n chk x | None => accepted s sp b n chk end.
Proof.
  intros W L Hk. destruct (firsts _ lm ms) as [x|] eqn:E.
  - apply firsts_Some in E as (lm1 & a1 & lm2 & ms1 & m & ms2 & -> & -> & Hl & Hg & Hn).
    destruct (covers_elem _ _ _ _ _ _ _ _ _ _ _ _ _ m W L) as (y & H1 & H2 & H3); [set_solver|].
    exists (Z.max b (BaseAddress m)), (kind m). assert (b <= Z.max b (BaseAddress m) <= n) as Hr by lia. split; [done|].
    pose proof (wf_chain _ _ W sp) as C. rewrite (loc_entries _ _ _ _ _ _ _ _ _ _ _ _ L) in C.
    split; [|split; [by rewrite Hk|]].
    + unfold space_info. rewrite (loc_entries _ _ _ _ _ _ _ _ _ _ _ _ L). apply (info_elem _ _ _ _ _ C); [set_solver|lia].
    + intros y' k' Hy' Hi. apply (covers_info _ _ _ _ _ _ _ _ _ _ _ _ _ y' k' W L) in Hi; [|lia].
      destruct (loc_covers _ _ _ _ _ _ _ _ _ _ _ _ L) as (lo & hi & Ch & Hlo & _). pose proof Ch as (q & C1 & (Q1 & Q2 & Q3))%chain_app.
      rewrite (info_app _ _ _ _ _ C1) in Hi. rewrite decide_True in Hi by lia.
      apply info_elem_inv in Hi as (m' & Hm' & ->).
      rewrite Hk. apply list_elem_of_lookup in Hm' as (i & Hi').
      destruct (lookup_lt_is_Some_2 lm1 i) as [a' Ha']; [apply lookup_lt_Some in Hi'; lia|]. apply (Hn a').
      apply list_elem_of_lookup. exists i. apply lookup_zip_with_Some. by exists a', m'.
  - intros y k Hy Hi. apply (covers_info _ _ _ _ _ _ _ _ _ _ _ _ _ y k W L) in Hi; [|done].
    apply info_elem_inv in Hi as (m' & Hm' & ->).
    rewrite Hk. destruct (firsts_None _ _ _ (loc_length _ _ _ _ _ _ _ _ _ _ _ _ L) E m' Hm') as [_ H]. exact H.
Qed.

(** ** The change *)

Abbreviation change_of op ty io caps cpu := (fun a e => convert_entry op ty io caps cpu a e).

Lemma convert_signature op ty io caps cpu x e : Signature (convert_entry op ty io caps cpu x e).1 = Signature e.
Proof. unfold convert_entry. by repeat case_match. Qed.
Lemma convert_range op ty io caps cpu x e : BaseAddress (convert_entry op ty io caps cpu x e).1 = BaseAddress e /\
  EndAddress (convert_entry op ty io caps cpu x e).1 = EndAddress e.
Proof. unfold convert_entry. by repeat case_match. Qed.
Lemma convert_kind op ty io caps cpu x e : kind (convert_entry op ty io caps cpu x e).1 = kind (convert_entry op ty io caps cpu x (kind e)).1.
Proof. unfold convert_entry. by repeat case_match. Qed.
Lemma check_kind op b l caps attrs e : convert_check op b l caps attrs (kind e) = convert_check op b l caps attrs e.
Proof. done. Qed.

Definition cpu_attributes (op attrs : Z) : Z := if op =? GCD_SET_ATTRIBUTES_MEMORY_OPERATION then ConverToCpuArchAttributes attrs else 0.

Lemma wf_gworld s w : gcd_wf top s -> gcd_wf top (upd_gworld w s).
Proof. by intros [W1 W2 W3 W4 W5 W6 W7]. Qed.
Lemma mid_gworld sp D s s' w l es T : mid sp D s s' l es T -> mid sp D (upd_gworld w s) (upd_gworld w s') l es T.
Proof. by intros [M1 M2 M3 M4 M5 M6]. Qed.

(** The CPU is told of attributes that it has; [st] is what it answers. *)
Definition told s (b l c : Z) (st : EFI_STATUS) s' : Prop :=
  if c =? 0 then st = EFI_SUCCESS /\ gcd_world s' = gcd_world s
  else match gCpu with
       | None => st = EFI_NOT_AVAILABLE_YET /\ gcd_world s' = gcd_world s
       | Some F => F b l c (gcd_world s) = Ok (st, gcd_world s')
       end.
Lemma set_cpu_run s b l c : exists st w, set_cpu_attributes b l c s = Ok (st, upd_gworld w s) /\
  forall s0 s', gcd_world s0 = gcd_world s -> gcd_world s' = w -> told s0 b l c st s'.
Proof.
  unfold set_cpu_attributes, told. destruct (Z.eqb_spec c 0); [exists EFI_SUCCESS, (gcd_world s); split; [by destruct s|by intros ? ? -> ->]|].
  destruct gCpu as [F|] eqn:E; [|exists EFI_NOT_AVAILABLE_YET, (gcd_world s); split; [by destruct s|by intros ? ? -> ->]].
  destruct (cpu_law (GCD_LAWS := Laws) F b l c (gcd_world s) E) as (st & w & Ew). exists st, w. split; [|by intros ? ? -> ->].
  unfold on_gworld. by rewrite Ew.
Qed.

(** What is the same after a call that has not changed the maps. *)
Definition same_maps s s' : Prop := forall sp, gcd_map s' sp = gcd_map s sp /\ entries_of s' sp = entries_of s sp.
Lemma same_info s s' sp y : same_maps s s' -> space_info s' sp y = space_info s sp y.
Proof. intros H. unfold space_info. by destruct (H sp) as [_ ->]. Qed.

Definition unchanged s s' : Prop := same_maps s s' /\ gcd_world s' = gcd_world s.

Record converted (op ty io b l caps attrs : Z) s sp (st : EFI_STATUS) s' : Prop := {
  cv_wf : gcd_wf top s';
  cv_lock sp' : gcd_lock s' sp' = gcd_lock s sp';
  cv_other sp' : sp' <> sp -> gcd_map s' sp' = gcd_map s sp' /\ entries_of s' sp' = entries_of s sp';
  cv_status : let n := b + l - 1 in let chk := convert_check op b l caps attrs in let cpu := cpu_attributes op attrs in
    (top sp < n /\ st = EFI_UNSUPPORTED /\ unchanged s s') \/
    (n <= top sp /\ refused s sp b n chk st /\ unchanged s s') \/
    (n <= top sp /\ accepted s sp b n chk /\
       ((st = EFI_OUT_OF_RESOURCES /\ pool_refuses /\ unchanged s s') \/
        (EFI_ERROR st = true /\ told s b l cpu st s' /\ same_maps s s') \/
        (st = EFI_SUCCESS /\ told s b l cpu st s' /\ exists ms, (exists a z l1 lm l2 es1 es2, located s sp b n a z l1 lm l2 es1 ms es2) /\
           forall y, space_info s' sp y =
             if decide (b <= y <= n)
             then (fun k => kind (convert_entry op ty io caps cpu (variable_at (change_of op ty io caps cpu) b n attrs ms y) k).1) <$> space_info s sp y
             else space_info s sp y)))
}.

Lemma convert_locked_ok s sp op ty io b l caps attrs : small top -> gcd_wf top s -> 0 <= b -> 0 < l -> b + l <= 2 ^ 64 ->
  wp true (convert_locked sp op ty io b l caps attrs) (converted op ty io b l caps attrs s sp) s.
Proof.
  intros Sm W Hb Hl Hw. set (n := b + l - 1). assert (0 <= b <= n /\ n < 2 ^ 64 /\ l = n - b + 1) as Hr by lia.
  destruct (gcd_search_ok top s sp b n l W Hr) as [S1 S2]. unfold convert_locked.
  destruct (Z.le_gt_cases n (top sp)) as [Hn|Hn].
  2:{ eapply wp_step; [by apply S1|]. apply wp_ret. split; try done. cbn zeta. fold n. left. done. }
  destruct (S2 Hn) as (a & z & l1 & lm & l2 & es1 & ms & es2 & Es & L). eapply wp_step; [exact Es|].
  destruct (located_reps top _ _ _ _ _ _ _ _ _ _ _ _ W L) as (N & R & Sg).
  eapply wp_step.
  { apply (for_links_run sp s (fun _ e => convert_check op b l caps attrs e) a z l1 lm l2 ms); try done; apply L. }
  pose proof (firsts_info s sp b n a z l1 lm l2 es1 ms es2 (convert_check op b l caps attrs) W L (check_kind op b l caps attrs)) as Hf.
  destruct (firsts _ lm ms) as [st|].
  { apply wp_ret. split; try done. cbn zeta. fold n. right. left. done. }
  eapply wp_seq; [apply (alloc_ok top s sp (entries_law (GCD_LAWS := Laws)) W)|]. cbn beta.
  intros [st [To Bo]] s1 [(E & -> & Hp)|(To' & Bo' & [= -> -> ->] & M1 & NT & NB)].
  { cbn in E. subst st. apply wp_ret. split; try done. cbn zeta. fold n. right. right. split; [done|]. split; [done|]. by left. }
  cbn [EFI_ERROR]. fold (cpu_attributes op attrs).
  destruct (set_cpu_run s1 b l (cpu_attributes op attrs)) as (st & w & Ec & Hc). eapply wp_step; [exact Ec|].
  pose proof M1 as M0. apply (mid_gworld _ _ _ _ w) in M1. destruct (EFI_ERROR st) eqn:Est.
  - apply mid_swap in M1. eapply wp_seq; [by apply mid_free|]. cbn beta. intros _ s2 M2. eapply wp_seq; [by apply mid_free|]. cbn beta. intros _ s3 M3.
    apply wp_ret.
    destruct (after_change top (upd_gworld w s) s3 sp (gcd_map s sp) (entries_of s sp) To' Bo' (wf_gworld s w W) NT NB M3
      (wf_chain _ _ W sp) (wf_reduced _ _ W sp) (wf_signed _ _ W sp)) as (W3 & E3 & (B1 & B2 & B3)).
    assert (same_maps s s3) as Sm3.
    { intros sp'. destruct (decide (sp' = sp)) as [->|Hne']; [|by apply B1]. split; [exact (mid_map _ _ _ _ _ _ _ M3)|done]. }
    split; try done; [intros sp'; by rewrite B2|]. cbn zeta. fold n. right. right. split; [done|]. split; [done|]. right. left. split; [done|]. split; [|done].
    apply Hc; [symmetry; exact (mid_world _ _ _ _ _ _ _ M0)|]. by rewrite B3.
  - destruct st; try done.
    assert (located (upd_gworld w s) sp b n a z l1 lm l2 es1 ms es2) as L' by (by destruct L).
    eapply wp_mono; [apply (change_range_ok top (change_of op ty io caps (cpu_attributes op attrs)) (convert_signature op ty io caps _)
      (convert_range op ty io caps _) (convert_kind op ty io caps _) (upd_gworld w s) (upd_gworld w s1) sp b n l a z l1 lm l2 es1 ms es2 To' Bo' attrs);
      try done; by apply wf_gworld|].
    cbn beta. intros r s3 (-> & W3 & (B1 & B2 & B3) & I3). split; try done; [intros sp'; by rewrite B2|]. cbn zeta. fold n. right. right. split; [done|]. split; [done|].
    right. right. split; [done|]. split; [apply Hc; [symmetry; exact (mid_world _ _ _ _ _ _ _ M0)|by rewrite B3]|].
    exists ms. split; [by exists a, z, l1, lm, l2, es1, es2|]. exact I3.
Qed.

(** ** The lock *)

(** The map of an operation. *)
Definition space_of (op : Z) : option SPACE :=
  if negb (Z.land op GCD_MEMORY_SPACE_OPERATION =? 0) then
    if Z.land op GCD_IO_SPACE_OPERATION =? 0 then Some MemorySpace else None
  else if Z.land op GCD_IO_SPACE_OPERATION =? 0 then None else Some IoSpace.

Lemma acquire_run s op sp : space_of op = Some sp -> gcd_lock s sp = false -> acquire_for op s = Ok (sp, upd_lock sp true s).
Proof.
  unfold space_of, acquire_for, CoreAcquireGcdMemoryLock, CoreAcquireGcdIoLock, acquire_lock. intros E L.
  destruct (Z.land op GCD_MEMORY_SPACE_OPERATION =? 0), (Z.land op GCD_IO_SPACE_OPERATION =? 0); cbn [negb] in E |- *; simplify_eq;
    unfold Mbind, Mget; cbn; by rewrite L.
Qed.
Lemma gcd_release_run s op sp : space_of op = Some sp -> gcd_lock s sp = true -> release_for op s = Ok (tt, upd_lock sp false s).
Proof.
  unfold space_of, release_for, CoreReleaseGcdMemoryLock, CoreReleaseGcdIoLock, release_lock. intros E L.
  destruct (Z.land op GCD_MEMORY_SPACE_OPERATION =? 0), (Z.land op GCD_IO_SPACE_OPERATION =? 0); cbn [negb] in E |- *; simplify_eq;
    unfold Mbind, Mget; cbn; by rewrite L.
Qed.
Lemma wf_lock s sp x : gcd_wf top s <-> gcd_wf top (upd_lock sp x s).
Proof. split; by intros [W1 W2 W3 W4 W5 W6 W7]. Qed.
Lemma located_lock s sp' x sp b n a z l1 lm l2 es1 ms es2 :
  located (upd_lock sp' x s) sp b n a z l1 lm l2 es1 ms es2 <-> located s sp b n a z l1 lm l2 es1 ms es2.
Proof. split; by intros [L1 L2 L3 L4 L5 L6 L7]. Qed.
Lemma lock_upd s sp x sp' : gcd_lock (upd_lock sp x s) sp' = if decide (sp' = sp) then x else gcd_lock s sp'.
Proof. cbn. unfold upd_space. case_decide; [by rewrite bool_decide_true|by rewrite bool_decide_false]. Qed.

(** Locking, and unlocking what the change has left locked. *)
Lemma converted_lock op ty io b l caps attrs s sp st s1 : gcd_lock s sp = false ->
  converted op ty io b l caps attrs (upd_lock sp true s) sp st s1 -> converted op ty io b l caps attrs s sp st (upd_lock sp false s1).
Proof.
  intros L [C1 C2 C3 C4]. split.
  - by apply wf_lock.
  - intros sp'. specialize (C2 sp'). rewrite lock_upd in C2 |- *. case_decide; [by subst|done].
  - exact C3.
  - cbn zeta in C4 |- *. destruct C4 as [C|[C|(H1 & H2 & [C|[C|(E & Td & ms & (a & z & l1 & lm & l2 & es1 & es2 & Lo) & I)]])]].
    + by left.
    + right. by left.
    + right. right. split; [done|]. split; [done|]. by left.
    + right. right. split; [done|]. split; [done|]. right. by left.
    + right. right. split; [done|]. split; [done|]. right. right. split; [done|]. split; [done|]. exists ms. split; [|exact I].
      exists a, z, l1, lm, l2, es1, es2. by apply (located_lock s sp true).
Qed.

Lemma convert_space_ok s op sp ty io b l caps attrs : small top -> gcd_wf top s -> space_of op = Some sp -> gcd_lock s sp = false ->
  0 <= b -> 0 < l -> b + l <= 2 ^ 64 ->
  wp true (CoreConvertSpace op ty io b l caps attrs) (converted op ty io b l caps attrs s sp) s.
Proof.
  intros Sm W Eo L Hb Hl Hw. unfold CoreConvertSpace. rewrite (proj2 (Z.eqb_neq l 0)) by lia.
  eapply wp_step; [by apply acquire_run|]. eapply wp_seq; [apply convert_locked_ok; try done; by apply wf_lock|].
  cbn beta. intros st s1 C. eapply wp_step; [apply (gcd_release_run s1 op sp Eo)|].
  { rewrite (cv_lock _ _ _ _ _ _ _ _ _ _ _ C), lock_upd. by rewrite decide_True. }
  apply wp_ret. by apply converted_lock.
Qed.

(** ** The attributes that go along *)

Lemma variable_const {A} (f : A -> ENTRY -> ENTRY * A) b n x ms y : (forall x e, (f x e).2 = x) -> variable_at f b n x ms y = x.
Proof. intros H. induction ms as [|m ms IH]; cbn; [done|]. rewrite H, IH. by destruct (_ <=? _). Qed.
Lemma convert_variable op ty io caps cpu a e : op <> GCD_SET_ATTRIBUTES_MEMORY_OPERATION \/ cpu <> 0 -> (convert_entry op ty io caps cpu a e).2 = a.
Proof.
  intros H. unfold convert_entry. repeat case_match; try done; cbn. lia.
Qed.

(** Attributes that the CPU does not have: the cache and access attributes of
    the addresses of the range up to [y] are added at [y]. *)
Definition kept_attributes (k : ENTRY) : Z := Z.land (Attributes k) (Z.lor EFI_CACHE_ATTRIBUTE_MASK EFI_MEMORY_ATTRIBUTE_MASK).
Abbreviation set_attributes := (change_of GCD_SET_ATTRIBUTES_MEMORY_OPERATION 0 0 0 0).

Lemma attributes_leak b n y i : b <= y <= n -> forall ms x lo hi k, chain ms lo hi -> (forall m, head ms = Some m -> b <= EndAddress m) -> lo <= y ->
  info ms y = Some k ->
  Z.testbit (Z.lor (variable_at set_attributes b n x ms y) (kept_attributes k)) i = true <->
  Z.testbit x i = true \/ exists y' k', Z.max b lo <= y' <= y /\ info ms y' = Some k' /\ Z.testbit (kept_attributes k') i = true.
Proof.
  intros Hy. induction ms as [|m ms IH]; intros x lo hi k Ch Hh Hlo Hk; [done|]. destruct Ch as (Eb & Le & Ch). specialize (Hh m eq_refl).
  cbn [info variable_at] in Hk |- *. destruct (Z.leb_spec y (EndAddress m)) as [Hm|Hm].
  - rewrite decide_True in Hk by lia. injection Hk as <-. rewrite Z.lor_spec, orb_true_iff. split.
    + intros [H|H]; [by left|]. right. exists y, (kind m). split_and!; try done; try lia. by rewrite decide_True by lia.
    + intros [H|(y' & k' & Hy' & Hk' & H)]; [by left|]. right. rewrite decide_True in Hk' by lia. by injection Hk' as <-.
  - rewrite decide_False in Hk by lia.
    assert (forall m', head ms = Some m' -> b <= EndAddress m') as Hh'.
    { intros m' Em. destruct ms; [done|]. injection Em as ->. destruct Ch as (? & ? & _). lia. }
    rewrite (IH _ _ _ _ Ch Hh' ltac:(lia) Hk). clear IH.
    assert ((convert_entry GCD_SET_ATTRIBUTES_MEMORY_OPERATION 0 0 0 0 x (clip b n m)).2 = Z.lor x (kept_attributes (kind m))) as -> by done.
    rewrite Z.lor_spec, orb_true_iff. split.
    + intros [[H|H]|(y' & k' & Hy' & Hk' & H)]; [by left| |].
      * right. exists (Z.max b lo), (kind m). split_and!; try done; try lia. by rewrite decide_True by lia.
      * right. exists y', k'. split_and!; try done; try lia. by rewrite decide_False by lia.
    + intros [H|(y' & k' & Hy' & Hk' & H)]; [left; by left|]. case_decide; [injection Hk' as <-; left; by right|].
      right. exists y', k'. split_and!; try done; lia.
Qed.

(** ** What the status says *)

(** The end of a conversion that has not failed. *)
Lemma convert_check_error op b l caps attrs e st : convert_check op b l caps attrs e = Some st -> EFI_ERROR st = true.
Proof. unfold convert_check. intros H. repeat case_match; simplify_eq; done. Qed.
Lemma converted_success op ty io b l caps attrs s sp st s' : converted op ty io b l caps attrs s sp st s' -> EFI_ERROR st = false ->
  b + l - 1 <= top sp.
Proof.
  intros C E. destruct (cv_status _ _ _ _ _ _ _ _ _ _ _ C) as [(_ & -> & _)|[(H & _)|(H & _)]]; [done|done|done].
Qed.

(** What a conversion that succeeds says of the addresses, when no attributes
    go along. *)
Lemma converted_info op ty io b l caps attrs s sp s' : converted op ty io b l caps attrs s sp EFI_SUCCESS s' ->
  op <> GCD_SET_ATTRIBUTES_MEMORY_OPERATION \/ cpu_attributes op attrs <> 0 ->
  accepted s sp b (b + l - 1) (convert_check op b l caps attrs) /\
  forall y, space_info s' sp y =
    if decide (b <= y <= b + l - 1) then (fun k => (convert_entry op ty io caps (cpu_attributes op attrs) attrs k).1) <$> space_info s sp y
    else space_info s sp y.
Proof.
  intros C Hop. destruct (cv_status _ _ _ _ _ _ _ _ _ _ _ C) as [(_ & [=] & _)|[(_ & (y & k & _ & _ & Ek & _) & _)|(_ & Ac & [(? & _)|[([=] & _)|(_ & _ & ms & _ & I)]])]].
  - by apply convert_check_error in Ek.
  - done.
  - split; [done|]. intros y. rewrite I. case_decide; [|done]. destruct (space_info s sp y) as [k|] eqn:Ek; [|done]. cbn. f_equal.
    rewrite variable_const by (intros; by apply convert_variable). apply info_elem_inv in Ek as (e & _ & ->).
    destruct (convert_range op ty io caps (cpu_attributes op attrs) attrs (kind e)) as [E1 E2].
    unfold kind at 1. destruct (convert_entry op ty io caps (cpu_attributes op attrs) attrs (kind e)).1. cbn in E1, E2. by subst.
Qed.
(** A conversion that is possible. *)
Lemma converted_done op ty io b l caps attrs s sp st s' : converted op ty io b l caps attrs s sp st s' -> b + l - 1 <= top sp ->
  accepted s sp b (b + l - 1) (convert_check op b l caps attrs) -> ~ pool_refuses -> cpu_attributes op attrs = 0 -> st = EFI_SUCCESS.
Proof.
  intros C Ht Ac Hp Hc. destruct (cv_status _ _ _ _ _ _ _ _ _ _ _ C) as [(? & _)|[(_ & (y & k & Hy & Hi & Ek & _) & _)|(_ & _ & [(_ & ? & _)|[(_ & Td & _)|(? & _)]])]];
    try done; [lia|by rewrite (Ac y k Hy Hi) in Ek|]. unfold told in Td. rewrite Hc in Td. by destruct Td as [? _].
Qed.
Lemma converted_world op ty io b l caps attrs s sp st s' : converted op ty io b l caps attrs s sp st s' -> cpu_attributes op attrs = 0 ->
  gcd_world s' = gcd_world s.
Proof.
  intros C Hc. assert (forall st, told s b l (cpu_attributes op attrs) st s' -> gcd_world s' = gcd_world s) as Ht by (unfold told; rewrite Hc; by intros ? [_ ?]).
  destruct (cv_status _ _ _ _ _ _ _ _ _ _ _ C) as [(_ & _ & _ & ?)|[(_ & _ & _ & ?)|(_ & _ & [(_ & _ & _ & ?)|[(_ & Td & _)|(_ & Td & _)]])]]; try done;
    by apply (Ht _ Td).
Qed.
Lemma refused_unique s sp b n (chk : ENTRY -> option EFI_STATUS) st st' : refused s sp b n chk st -> refused s sp b n chk st' -> st = st'.
Proof.
  intros (y & k & Hy & Hk & Hc & Hm) (y' & k' & Hy' & Hk' & Hc' & Hm'). destruct (Z.lt_trichotomy y y') as [Hlt|[->|Hlt]].
  - rewrite (Hm' y k) in Hc; [done|lia|done].
  - congruence.
  - rewrite (Hm y' k') in Hc'; [done|lia|done].
Qed.
Section Status.
Context op ty io b l caps attrs s sp st s' (C : converted op ty io b l caps attrs s sp st s').
Lemma converted_error : EFI_ERROR st = true -> same_maps s s'.
Proof. intros E. by destruct (cv_status _ _ _ _ _ _ _ _ _ _ _ C) as [(_ & _ & ? & _)|[(_ & _ & ? & _)|(_ & _ & [(_ & _ & ? & _)|[(_ & _ & ?)|(-> & _)]])]]. Qed.
Lemma converted_beyond : top sp < b + l - 1 -> st = EFI_UNSUPPORTED.
Proof. intros Ht. destruct (cv_status _ _ _ _ _ _ _ _ _ _ _ C) as [(_ & ? & _)|[(? & _)|(? & _)]]; [done|lia|lia]. Qed.
Lemma converted_refused st' : b + l - 1 <= top sp -> refused s sp b (b + l - 1) (convert_check op b l caps attrs) st' -> st = st'.
Proof.
  intros Ht R. destruct (cv_status _ _ _ _ _ _ _ _ _ _ _ C) as [(? & _)|[(_ & R' & _)|(_ & Ac & _)]]; [lia|by apply (refused_unique _ _ _ _ _ _ _ R' R)|].
  destruct R as (y & k & Hy & Hk & E & _). by rewrite (Ac y k Hy Hk) in E.
Qed.
Lemma converted_told : st = EFI_SUCCESS -> told s b l (cpu_attributes op attrs) EFI_SUCCESS s' /\ b + l - 1 <= top sp /\
  accepted s sp b (b + l - 1) (convert_check op b l caps attrs).
Proof.
  intros E. destruct (cv_status _ _ _ _ _ _ _ _ _ _ _ C) as [(_ & E' & _)|[(_ & (y & k & _ & _ & Ek & _) & _)|(Ht & Ac & [(E' & _)|[(Er & _)|(_ & Td & _)]])]]; try congruence.
  - apply convert_check_error in Ek. by rewrite E in Ek.
  - by rewrite E in Er.
  - rewrite E in Td. done.
Qed.
End Status.

(** Attributes that the CPU does not have. *)
Lemma converted_leak b l attrs s sp s' : converted GCD_SET_ATTRIBUTES_MEMORY_OPERATION 0 0 b l 0 attrs s sp EFI_SUCCESS s' ->
  ConverToCpuArchAttributes attrs = 0 ->
  exists ms, (exists a z l1 lm l2 es1 es2, located s sp b (b + l - 1) a z l1 lm l2 es1 ms es2) /\
    forall y, space_info s' sp y = if decide (b <= y <= b + l - 1)
      then (fun k => set_Attributes (Z.lor (variable_at set_attributes b (b + l - 1) attrs ms y) (kept_attributes k)) (kind k)) <$> space_info s sp y
      else space_info s sp y.
Proof.
  intros C Hc. destruct (cv_status _ _ _ _ _ _ _ _ _ _ _ C) as [(_ & [=] & _)|[(_ & (y & k & _ & _ & Ek & _) & _)|(_ & _ & [([=] & _)|[([=] & _)|(_ & _ & ms & L & I)]])]].
  - by apply convert_check_error in Ek.
  - exists ms. split; [done|]. intros y. rewrite I. case_decide; [|done]. unfold cpu_attributes. cbn [Z.eqb Pos.eqb GCD_SET_ATTRIBUTES_MEMORY_OPERATION].
    rewrite Hc. by destruct (space_info s sp y).
Qed.
Lemma located_info s sp b n a z l1 lm l2 es1 ms es2 : gcd_wf top s -> located s sp b n a z l1 lm l2 es1 ms es2 ->
  forall x kx, b <= x <= n -> info ms x = Some kx <-> space_info s sp x = Some kx.
Proof.
  intros W L x kx Hx. split; [|by apply (covers_info top _ _ _ _ _ _ _ _ _ _ _ _ x kx W L)]. intros Hi.
  destruct L as [E1 E2 _ _ _ _ Cv]. pose proof (wf_chain top s W sp) as C. unfold space_info. rewrite E2 in C |- *.
  destruct (covers_parts b n ms Cv) as (m & m' & Em & Em' & B1 & B2 & B3 & B4).
  apply chain_app in C as (k1 & C1 & (k2 & C2 & C3)%chain_app). rewrite (info_app _ _ _ _ _ C1), (info_app _ _ _ _ _ C2).
  destruct (chain_ends _ _ _ _ _ C2 Em Em') as [Eb Ee]. by rewrite decide_False, decide_True by lia.
Qed.
End Convert.
