(* ===== verification/GcdAlloc.v ===== *)
(** * GcdAlloc: finding and allocating a range

    The search of CoreAllocateSpace upwards finds the lowest range that is free
    and aligned; the search downwards finds only ranges that are, and one at
    least if an entry has room for it. *)

From stdpp Require Import base option list gmap fin_maps.
From Stdlib Require Import ZArith Lia.
From S2P Require Import Prelude Gcd GcdMap GcdRange GcdState GcdConvert.

Local Open Scope Z_scope.
Local Open Scope edk_scope.

(** ** Alignment *)

Definition align_down (al x : Z) : Z := x - x mod 2 ^ al.
Definition mask_of (al : Z) : Z := wrapU 64 (Z.shiftl 1 al - 1).

Lemma mask_of_eq al : 0 <= al < 64 -> mask_of al = 2 ^ al - 1 /\ 0 < 2 ^ al < 2 ^ 64.
Proof.
  intros H. assert (0 < 2 ^ al) by (apply Z.pow_pos_nonneg; lia). assert (2 ^ al < 2 ^ 64) by (apply Z.pow_lt_mono_r; lia).
  unfold mask_of. rewrite Z.shiftl_mul_pow2, Z.mul_1_l by lia. split; [|done]. apply wrapU_id. split; lia.
Qed.
Lemma land_notmask al x : 0 <= al < 64 -> 0 <= x < 2 ^ 64 -> Z.land x (wrapU 64 (Z.lnot (mask_of al))) = align_down al x.
Proof.
  intros Ha Hx. destruct (mask_of_eq al Ha) as [-> Hp]. unfold align_down.
  replace (x - x mod 2 ^ al) with (2 ^ al * (x / 2 ^ al)) by (pose proof (Z.div_mod x (2 ^ al)); lia).
  rewrite Z.mul_comm, <- Z.shiftl_mul_pow2, <- Z.shiftr_div_pow2, <- Z.ldiff_ones_r by lia.
  replace (2 ^ al - 1) with (Z.ones al) by (rewrite Z.ones_equiv; lia). apply Z.bits_inj'. intros i Hi.
  rewrite Z.land_spec, Z.ldiff_spec, testbit_wrapU, Z.lnot_spec by lia. destruct (Z.ltb_spec i 64); [done|].
  by rewrite (testbit_inU_high 64 x i) by (try done; lia).
Qed.
Lemma land_mask al x : 0 <= al < 64 -> Z.land x (mask_of al) = x mod 2 ^ al.
Proof.
  intros Ha. destruct (mask_of_eq al Ha) as [-> Hp]. replace (2 ^ al - 1) with (Z.ones al) by (rewrite Z.ones_equiv; lia).
  apply Z.land_ones. lia.
Qed.
Lemma align_down_spec al x : 0 <= al -> 0 <= x -> 0 <= align_down al x <= x /\ align_down al x mod 2 ^ al = 0 /\ x - 2 ^ al < align_down al x.
Proof.
  intros Ha Hx. assert (0 < 2 ^ al) as Hp by (apply Z.pow_pos_nonneg; lia). unfold align_down. pose proof (Z.mod_pos_bound x (2 ^ al) Hp).
  pose proof (Z.mod_le x (2 ^ al) Hx Hp). split; [lia|]. split; [|lia]. rewrite Zminus_mod_idemp_r, Z.sub_diag. done.
Qed.
Lemma align_down_max al x y : 0 <= al -> y <= x -> y mod 2 ^ al = 0 -> y <= align_down al x.
Proof.
  intros Ha Hy Hm. assert (0 < 2 ^ al) as Hp by (apply Z.pow_pos_nonneg; lia). unfold align_down.
  pose proof (Z.div_mod x (2 ^ al) ltac:(lia)). pose proof (Z.div_mod y (2 ^ al) ltac:(lia)).
  pose proof (Z.div_le_mono y x (2 ^ al) Hp Hy). nia.
Qed.
(** The first aligned address from [x] on. *)
Definition align_up (al x : Z) : Z := align_down al (x + (2 ^ al - 1)).
Lemma align_up_spec al x : 0 <= al -> 0 <= x -> x <= align_up al x < x + 2 ^ al /\ align_up al x mod 2 ^ al = 0.
Proof.
  intros Ha Hx. assert (0 < 2 ^ al) as Hp by (apply Z.pow_pos_nonneg; lia). unfold align_up.
  destruct (align_down_spec al (x + (2 ^ al - 1)) Ha ltac:(lia)) as (H1 & H2 & H3). split; [lia|done].
Qed.
Lemma align_up_min al x y : 0 <= al -> 0 <= x <= y -> y mod 2 ^ al = 0 -> align_up al x <= y.
Proof.
  intros Ha Hy Hm. assert (0 < 2 ^ al) as Hp by (apply Z.pow_pos_nonneg; lia). destruct (align_up_spec al x Ha ltac:(lia)) as [H1 H2].
  pose proof (Z.div_mod y (2 ^ al) ltac:(lia)) as Ey. pose proof (Z.div_mod (align_up al x) (2 ^ al) ltac:(lia)) as Eu.
  rewrite Hm in Ey. rewrite H2 in Eu. assert (align_up al x / 2 ^ al <= y / 2 ^ al) by nia. nia.
Qed.

Section Alloc.
Context {World : Type} `{Env : !GCD_ENV World} `{Laws : !GCD_LAWS} (top : SPACE -> Z) (sp : SPACE) (op ty io al l : Z).
Implicit Types s : GCD World.
Hypothesis alignment : 0 <= al < 64.
Hypothesis positive : 0 < l.
(** Neither an aligned address nor the end of a range wraps around. *)
Hypothesis room : 0 <= top sp /\ top sp + 2 ^ al + l < 2 ^ 64.

Definition usable (k : ENTRY) : Prop := CoreAllocateSpaceCheckEntry op k ty io = EFI_SUCCESS.
#[local] Instance usable_dec k : Decision (usable k).
Proof. unfold usable. apply _. Defined.
Lemma usable_kind e : usable (kind e) <-> usable e.
Proof. done. Qed.
Lemma usable_error e : EFI_ERROR (CoreAllocateSpaceCheckEntry op e ty io) = negb (bool_decide (usable e)).
Proof.
  destruct (bool_decide_reflect (usable e)) as [H|H]; unfold usable in H; [by rewrite H|]. by destruct (CoreAllocateSpaceCheckEntry op e ty io).
Qed.

(** A range that can be allocated. *)
Definition available s (b : Z) : Prop :=
  0 <= b /\ b + l - 1 <= top sp /\ b mod 2 ^ al = 0 /\
  forall y k, b <= y <= b + l - 1 -> space_info s sp y = Some k -> usable k.

Lemma available_not s b y k : available s b -> b <= y <= b + l - 1 -> space_info s sp y = Some k -> ~ usable k -> False.
Proof. intros (_ & _ & _ & H) Hy Hk Hn. by apply Hn, (H y). Qed.

(** ** The first entry that cannot be used *)

Definition refusal_of (a : Z) (e : ENTRY) : option (EFI_STATUS * Z) :=
  let Status := CoreAllocateSpaceCheckEntry op e ty io in if EFI_ERROR Status then Some (Status, a) else None.
Lemma refusal_of_None a e : refusal_of a e = None <-> usable e.
Proof. unfold refusal_of. rewrite usable_error. destruct (bool_decide_reflect (usable e)); cbn; split; done. Qed.
Lemma refusal_of_Some a e x : refusal_of a e = Some x -> x = (CoreAllocateSpaceCheckEntry op e ty io, a) /\ ~ usable e.
Proof. unfold refusal_of. rewrite usable_error. destruct (bool_decide_reflect (usable e)); cbn; [done|]. by intros [= <-]. Qed.

Lemma refusal_run s b n a z l1 lm l2 es1 ms es2 : gcd_wf top s -> located s sp b n a z l1 lm l2 es1 ms es2 ->
  refusal sp op ty io a z s = Ok (firsts refusal_of lm ms, s).
Proof.
  intros W L. destruct (located_reps top _ _ _ _ _ _ _ _ _ _ _ _ W L) as (N & R & Sg).
  apply (for_links_run sp s refusal_of a z l1 lm l2 ms); try done; apply L.
Qed.

Lemma firsts_usable s b a z l1 lm l2 es1 ms es2 : gcd_wf top s -> located s sp b (b + l - 1) a z l1 lm l2 es1 ms es2 ->
  firsts refusal_of lm ms = None -> forall y k, b <= y <= b + l - 1 -> space_info s sp y = Some k -> usable k.
Proof.
  intros W L E y k Hy Hk. apply (covers_info top _ _ _ _ _ _ _ _ _ _ _ _ y k W L Hy) in Hk. apply info_elem_inv in Hk as (m & Hm & ->).
  apply usable_kind. destruct (firsts_None _ _ _ (loc_length _ _ _ _ _ _ _ _ _ _ _ _ L) E m Hm) as [a' Ha]. by apply refusal_of_None in Ha.
Qed.

(** ** Upwards *)

(** Entries at a place of the map. *)
Definition at_link s (a : Z) (e : ENTRY) (l1 l2 : list Z) (es1 es2 : list ENTRY) : Prop :=
  gcd_map s sp = l1 ++ a :: l2 /\ entries_of s sp = es1 ++ e :: es2 /\ length l1 = length es1.

Lemma at_link_facts s a e l1 l2 es1 es2 : gcd_wf top s -> at_link s a e l1 l2 es1 es2 ->
  CR a s = Ok (e, s) /\ a ∉ l1 /\ 0 <= BaseAddress e <= EndAddress e /\ EndAddress e <= top sp /\
  (forall y, BaseAddress e <= y <= EndAddress e -> space_info s sp y = Some (kind e)) /\
  chain es1 0 (BaseAddress e - 1) /\ chain es2 (EndAddress e + 1) (top sp).
Proof.
  intros W (E1 & E2 & Hl). pose proof (wf_reps _ _ W sp) as R. rewrite E1, E2 in R. apply Forall2_app_inv in R as [_ R]; [|done].
  inversion R as [|? ? ? ? Ha _]; subst. pose proof (wf_signed _ _ W sp) as Sg. rewrite E2 in Sg. apply signed_app in Sg as [_ Sg].
  apply signed_cons in Sg as [Se _]. pose proof (wf_chain _ _ W sp) as C. rewrite E2 in C. pose proof C as (k & C1 & (K1 & K2 & C2))%chain_app.
  pose proof (chain_le _ _ _ C1). pose proof (chain_le _ _ _ C2). split; [by apply CR_run|]. split.
  { pose proof (wf_one _ _ sp W) as N. rewrite E1 in N. apply NoDup_app in N as (_ & N & _). intros Hin. apply (N a Hin). set_solver. }
  split; [lia|]. split; [lia|]. split; [|rewrite K1; by split].
  intros y Hy. unfold space_info. rewrite E2. apply (info_elem _ _ _ _ _ C); [set_solver|done].
Qed.

Definition scan s (TopDown : bool) (turns : nat) (Max Base : Z) (Link : option Z) :=
  alloc_loop turns sp op ty io TopDown (mask_of al) l Max Base Link s.

(** What the search upwards returns. *)
Definition lowest s (Max : Z) (r : Z * option (Z * Z)) : Prop :=
  match r.2 with
  | Some (a, z) => available s r.1 /\ r.1 + l - 1 <= Max /\ (forall b, available s b -> b + l - 1 <= Max -> r.1 <= b) /\
      exists l1 lm l2 es1 ms es2, located s sp r.1 (r.1 + l - 1) a z l1 lm l2 es1 ms es2
  | None => forall b, available s b -> b + l - 1 <= Max -> False
  end.

Lemma at_link_order s a e l1 l2 es1 es2 a' e' l1' l2' es1' es2' : gcd_wf top s -> at_link s a e l1 l2 es1 es2 ->
  at_link s a' e' l1' l2' es1' es2' -> BaseAddress e < BaseAddress e' -> (length l1 < length l1')%nat /\ (length l2' < length l2)%nat.
Proof.
  intros W (E1 & E2 & Hl) (E1' & E2' & Hl') Hlt. pose proof (wf_chain _ _ W sp) as C.
  assert (length es1 < length es1')%nat as Hlt'.
  { apply (chain_order (entries_of s sp) _ _ _ _ e e' C); [|by rewrite E2', list_lookup_middle|done]. by rewrite E2, list_lookup_middle. }
  assert (length (l1 ++ a :: l2) = length (l1' ++ a' :: l2')) as E by congruence. rewrite !length_app in E. cbn in E. lia.
Qed.

(** The entry that a search gives, and the one at which it was refused. *)
Lemma refused_at s b a z l1 lm l2 es1 ms es2 st sub : gcd_wf top s -> located s sp b (b + l - 1) a z l1 lm l2 es1 ms es2 ->
  firsts refusal_of lm ms = Some (st, sub) -> exists m l1' l2' es1' es2', at_link s sub m l1' l2' es1' es2' /\ ~ usable m /\
    b <= EndAddress m /\ BaseAddress m <= b + l - 1.
Proof.
  intros W L (lm1 & a1 & lm2 & ms1 & m & ms2 & -> & -> & Hl & Hg & Hn)%firsts_Some. apply refusal_of_Some in Hg as [[= -> ->] Hu].
  destruct (covers_elem top _ _ _ _ _ _ _ _ _ _ _ _ m W L) as (y & H1 & H2 & H3); [set_solver|].
  exists m, (l1 ++ lm1), (lm2 ++ l2), (es1 ++ ms1), (ms2 ++ es2). destruct L as [L1 L2 L3 L4 L5 L6 L7]. split; [|split; [done|lia]].
  split_and!; [by rewrite L1, <- !app_assoc|by rewrite L2, <- !app_assoc|]. rewrite !length_app. lia.
Qed.

Lemma candidate_up Max Base e : 0 <= BaseAddress e <= top sp ->
  candidate false (mask_of al) l Max Base e =
    if Max <? align_up al (BaseAddress e) + l - 1 then GiveUp (align_up al (BaseAddress e)) else Try (align_up al (BaseAddress e)).
Proof.
  intros H. destruct (mask_of_eq al alignment) as [Em Hp]. destruct (align_up_spec al (BaseAddress e)) as [A1 A2]; [lia|lia|].
  unfold candidate. cbv zeta.
  replace (wrapU 64 (BaseAddress e + mask_of al)) with (BaseAddress e + (2 ^ al - 1)) by (rewrite Em, wrapU_id; [done|split; lia]).
  rewrite land_notmask by lia. fold (align_up al (BaseAddress e)). by rewrite wrapU_id by (split; lia).
Qed.

Lemma scan_up s Max : gcd_wf top s -> forall turns a e l1 l2 es1 es2 Base, at_link s a e l1 l2 es1 es2 -> (length l2 < turns)%nat ->
  (forall b, available s b -> b + l - 1 <= Max -> BaseAddress e <= b) ->
  exists r, scan s false turns Max Base (Some a) = Ok (r, s) /\ lowest s Max r.
Proof.
  intros W. induction turns as [|turns IH]; intros a e l1 l2 es1 es2 Base At Ht Hlow; [lia|].
  destruct (at_link_facts _ _ _ _ _ _ _ W At) as (Ec & Na & He & Htop & Hi & C1 & C2). destruct At as (E1 & E2 & Hl).
  unfold scan. cbn [alloc_loop]. rewrite (Mbind_Ok _ _ _ _ _ Ec), (Mbind_Ok Mget _ s s s eq_refl), E1, ForwardLink_app by done.
  rewrite usable_error. destruct (bool_decide_reflect (usable e)) as [U|U]; cbn [negb].
  2:{ (* the next entry *)
    assert (forall b, available s b -> b + l - 1 <= Max -> EndAddress e < b) as Hnext.
    { intros b Hb HM. specialize (Hlow b Hb HM). destruct (Z.le_gt_cases b (EndAddress e)); [|lia]. exfalso.
      apply (available_not s b b (kind e) Hb); [lia|apply Hi; lia|by rewrite usable_kind]. }
    destruct l2 as [|a2 l2].
    - exists (Base, None). split; [by destruct turns|]. intros b Hb HM. specialize (Hnext b Hb HM). destruct Hb as (_ & Hb & _).
      pose proof (wf_reps _ _ W sp) as R. rewrite E1, E2 in R. apply Forall2_app_inv in R as [_ R]; [|done].
      inversion R as [|? ? ? ? _ R']; subst. apply Forall2_nil_inv_l in R' as ->. cbn in C2. lia.
    - pose proof (wf_reps _ _ W sp) as R. rewrite E1, E2 in R. apply Forall2_app_inv in R as [_ R]; [|done].
      inversion R as [|? ? ? ? _ R']; subst. apply Forall2_cons_inv_l in R' as (e2 & es2' & _ & _ & ->). destruct C2 as (B2 & _).
      apply (IH a2 e2 (l1 ++ [a]) l2 (es1 ++ [e]) es2'); [|cbn in Ht; lia|].
      + split_and!; [by rewrite E1, <- app_assoc|by rewrite E2, <- app_assoc|]. rewrite !length_app. cbn. lia.
      + intros b Hb HM. specialize (Hnext b Hb HM). lia. }
  rewrite candidate_up by lia. set (base := align_up al (BaseAddress e)). destruct (align_up_spec al (BaseAddress e)) as [A1 A2]; [lia|lia|].
  fold base in A1, A2. assert (forall b, available s b -> b + l - 1 <= Max -> base <= b) as Hmin.
  { intros b Hb HM. apply align_up_min; [lia|split; [lia|by apply Hlow]|apply Hb]. }
  destruct (Z.ltb_spec Max (base + l - 1)) as [HM|HM].
  { exists (base, None). split; [done|]. intros b Hb HbM. specialize (Hmin b Hb HbM). lia. }
  destruct (gcd_search_ok top s sp base (base + l - 1) l W) as [S1 S2]; [lia|].
  destruct (Z.le_gt_cases (base + l - 1) (top sp)) as [Hin|Hout].
  2:{ rewrite (Mbind_Ok _ _ _ _ _ (S1 ltac:(lia))). exists (base, None). split; [done|]. intros b Hb HbM. specialize (Hmin b Hb HbM).
      destruct Hb as (_ & Hb & _). lia. }
  destruct (S2 Hin) as (a1 & z1 & l1' & lm & l2' & es1' & ms & es2' & Es & L). rewrite (Mbind_Ok _ _ _ _ _ Es).
  rewrite (Mbind_Ok _ _ _ _ _ (refusal_run s _ _ _ _ _ _ _ _ _ _ W L)). destruct (firsts refusal_of lm ms) as [[st sub]|] eqn:Ef.
  - destruct (refused_at s _ _ _ _ _ _ _ _ _ _ _ W L Ef) as (m & k1 & k2 & q1 & q2 & At' & Um & M1 & M2).
    destruct (at_link_facts _ _ _ _ _ _ _ W At') as (_ & _ & Hm & _ & Him & _).
    assert (BaseAddress e < BaseAddress m) as Hlt.
    { destruct (Z.lt_ge_cases (BaseAddress e) (BaseAddress m)) as [|Hge]; [done|]. exfalso.
      assert (kind m = kind e) as Ek by (apply (inj Some); rewrite <- (Hi (BaseAddress e)), <- (Him (BaseAddress e)) by lia; done).
      apply Um, (proj1 (usable_kind m)). rewrite Ek. exact U. }
    apply (IH sub m k1 k2 q1 q2); [done| |].
    + destruct (at_link_order s a e l1 l2 es1 es2 sub m k1 k2 q1 q2 W) as [_ ?]; [done|done|done|lia].
    + intros b Hb HbM. specialize (Hmin b Hb HbM). destruct (Z.le_gt_cases (BaseAddress m) b); [done|]. exfalso.
      apply (available_not s b (BaseAddress m) (kind m) Hb); [lia|apply Him; lia|by rewrite usable_kind].
  - exists (base, Some (a1, z1)). split; [done|]. cbn. split_and!; [|done|done|by eexists _, _, _, _, _, _].
    split_and!; [lia|lia|done|]. by apply (firsts_usable s base _ _ _ _ _ _ _ _ W L).
Qed.

(** ** Downwards *)

(** The ranges that a search downwards considers: free, aligned, below the
    bound, and ending in an entry that starts at least [l] below the bound.
    (An entry that starts closer to the bound is passed over.) *)
Definition in_reach s (Max b : Z) : Prop :=
  available s b /\ b + l - 1 <= Max /\
  forall e, e ∈ entries_of s sp -> BaseAddress e <= b + l - 1 <= EndAddress e -> BaseAddress e + l <= Max.

(** What the search downwards returns: the highest of them. *)
Definition highest s (Max : Z) (r : Z * option (Z * Z)) : Prop :=
  match r.2 with
  | Some (a, z) => in_reach s Max r.1 /\ (forall b, in_reach s Max b -> b <= r.1) /\
      exists l1 lm l2 es1 ms es2, located s sp r.1 (r.1 + l - 1) a z l1 lm l2 es1 ms es2
  | None => forall b, in_reach s Max b -> False
  end.

Lemma candidate_down Max Base e : 0 <= BaseAddress e <= EndAddress e -> EndAddress e <= top sp -> 0 <= Max < 2 ^ 64 ->
  candidate true (mask_of al) l Max Base e =
    if Max <? BaseAddress e + l then Skip else if EndAddress e + 1 <? l then GiveUp Base
    else Try (align_down al (Z.min Max (EndAddress e) + 1 - l)).
Proof.
  intros H1 H2 H3. destruct (mask_of_eq al alignment) as [Em Hp]. unfold candidate. cbv zeta.
  rewrite (wrapU_id 64 (BaseAddress e + l)), (wrapU_id 64 (EndAddress e + 1)) by (split; lia).
  destruct (Z.ltb_spec Max (BaseAddress e + l)); [done|]. destruct (Z.ltb_spec (EndAddress e + 1) l); [done|].
  replace (if Max <? EndAddress e then Max else EndAddress e) with (Z.min Max (EndAddress e)) by (destruct (Z.ltb_spec Max (EndAddress e)); lia).
  rewrite wrapU_id by (split; lia). by rewrite land_notmask by lia.
Qed.

(** The entry before, when nothing in reach ends in this one. *)
Lemma before_link s a e l1 l2 es1 es2 Max B (turns : nat) : gcd_wf top s -> at_link s a e l1 l2 es1 es2 ->
  (forall b, in_reach s Max b -> b + l - 1 < BaseAddress e) ->
  (forall a' e' l1' l2' es1' es2', at_link s a' e' l1' l2' es1' es2' -> (length l1' < length l1)%nat ->
     (forall b, in_reach s Max b -> b + l - 1 <= EndAddress e') ->
     exists r, scan s true turns Max B (Some a') = Ok (r, s) /\ highest s Max r) ->
  exists r, scan s true turns Max B (last l1) = Ok (r, s) /\ highest s Max r.
Proof.
  intros W At Hno IH. destruct (at_link_facts _ _ _ _ _ _ _ W At) as (_ & _ & He & _ & _ & C1 & _). destruct At as (E1 & E2 & Hl).
  destruct (list_snoc_dec es1) as [->|(es0 & p & ->)].
  - destruct l1; [|done]. exists (B, None). split; [by destruct turns|]. intros b Hb. specialize (Hno b Hb).
    destruct Hb as ((Hb & _) & _). cbn in C1. lia.
  - destruct (list_snoc_dec l1) as [->|(l0 & ap & ->)]; [rewrite length_app in Hl; cbn in Hl; lia|]. rewrite last_snoc.
    rewrite !length_app in Hl. cbn in Hl. apply (IH ap p l0 (a :: l2) es0 (e :: es2)).
    + split_and!; [by rewrite E1, <- app_assoc|by rewrite E2, <- app_assoc|lia].
    + rewrite length_app. cbn. lia.
    + intros b Hb. specialize (Hno b Hb). apply chain_app in C1 as (k & _ & (K1 & K2 & K3)). cbn in K3. lia.
Qed.

Lemma scan_down s Max : gcd_wf top s -> 0 <= Max < 2 ^ 64 -> forall turns a e l1 l2 es1 es2 Base, at_link s a e l1 l2 es1 es2 ->
  (length l1 < turns)%nat -> (forall b, in_reach s Max b -> b + l - 1 <= EndAddress e) ->
  exists r, scan s true turns Max Base (Some a) = Ok (r, s) /\ highest s Max r.
Proof.
  intros W HM. pose proof (wf_chain _ _ W sp) as C. induction turns as [|turns IH]; intros a e l1 l2 es1 es2 Base At Ht Hend; [lia|].
  destruct (at_link_facts _ _ _ _ _ _ _ W At) as (Ec & Na & He & Htop & Hi & _). pose proof At as (E1 & E2 & Hl).
  assert (e ∈ entries_of s sp) as Hin by (rewrite E2; set_solver).
  assert (forall B, (forall b, in_reach s Max b -> BaseAddress e <= b + l - 1 -> False) ->
    exists r, scan s true turns Max B (last l1) = Ok (r, s) /\ highest s Max r) as Next.
  { intros B Hno. apply (before_link s a e l1 l2 es1 es2); [done|done| |intros; eapply IH; eauto; lia].
    intros b Hb. destruct (Z.lt_ge_cases (b + l - 1) (BaseAddress e)); [done|]. destruct (Hno b Hb). lia. }
  unfold scan. cbn [alloc_loop]. rewrite (Mbind_Ok _ _ _ _ _ Ec), (Mbind_Ok Mget _ s s s eq_refl), E1, BackLink_app by done.
  rewrite usable_error. destruct (bool_decide_reflect (usable e)) as [U|U]; cbn [negb].
  2:{ apply Next. intros b Hb Hge. pose proof (Hend b Hb). destruct Hb as (Hb & _).
      apply (available_not s b (b + l - 1) (kind e) Hb); [lia|apply Hi; lia|by rewrite usable_kind]. }
  rewrite candidate_down by lia. destruct (Z.ltb_spec Max (BaseAddress e + l)) as [Hs|Hs].
  { apply Next. intros b Hb Hge. pose proof (Hend b Hb). destruct Hb as (_ & _ & Hb). specialize (Hb e Hin). lia. }
  destruct (Z.ltb_spec (EndAddress e + 1) l) as [Hg|Hg].
  { exists (Base, None). split; [done|]. intros b Hb. specialize (Hend b Hb). destruct Hb as ((Hb & _) & _). lia. }
  set (hi := Z.min Max (EndAddress e) + 1 - l). set (base := align_down al hi).
  destruct (align_down_spec al hi) as (A1 & A2 & A3); [lia|unfold hi; lia|]. fold base in A1, A2, A3.
  assert (base + l - 1 <= Max /\ base + l - 1 <= EndAddress e) as [B1 B2] by (unfold hi in A1; lia).
  assert (forall b, in_reach s Max b -> b <= base) as Hmax.
  { intros b Hb. pose proof (Hend b Hb). destruct Hb as ((Hb0 & _ & Hbm & _) & Hb1 & _).
    apply align_down_max; [lia|unfold hi; lia|done]. }
  destruct (gcd_search_ok top s sp base (base + l - 1) l W) as [_ S2]; [lia|].
  destruct (S2 ltac:(lia)) as (a1 & z1 & l1' & lm & l2' & es1' & ms & es2' & Es & L). rewrite (Mbind_Ok _ _ _ _ _ Es).
  rewrite (Mbind_Ok _ _ _ _ _ (refusal_run s _ _ _ _ _ _ _ _ _ _ W L)). destruct (firsts refusal_of lm ms) as [[st sub]|] eqn:Ef.
  - destruct (refused_at s _ _ _ _ _ _ _ _ _ _ _ W L Ef) as (m & k1 & k2 & q1 & q2 & At' & Um & M1 & M2).
    assert (m ∈ entries_of s sp) as Hinm by (destruct At' as (_ & -> & _); set_solver).
    assert (BaseAddress m < BaseAddress e) as Hlt.
    { destruct (Z.lt_ge_cases (BaseAddress m) (BaseAddress e)) as [|Hge]; [done|]. exfalso.
      destruct (chain_sep _ _ _ e m C Hin Hinm) as [->|]; [lia|done|lia]. }
    apply (IH sub m k1 k2 q1 q2); [done| |].
    + destruct (at_link_order s sub m k1 k2 q1 q2 a e l1 l2 es1 es2 W) as [? _]; [done|done|done|lia].
    + intros b Hb. specialize (Hmax b Hb). destruct Hb as (Hb & _). destruct (Z.le_gt_cases (b + l - 1) (EndAddress m)); [done|]. exfalso.
      destruct (at_link_facts _ _ _ _ _ _ _ W At') as (_ & _ & Hm & _ & Him & _).
      apply (available_not s b (EndAddress m) (kind m) Hb); [lia|apply Him; lia|by rewrite usable_kind].
  - exists (base, Some (a1, z1)). split; [done|]. cbn. split_and!; [|done|by eexists _, _, _, _, _, _].
    split_and!; [|done|].
    + split_and!; [lia|lia|done|]. by apply (firsts_usable s base _ _ _ _ _ _ _ _ W L).
    + intros e2 Hin2 H2. destruct (Z.le_gt_cases (BaseAddress e2) (BaseAddress e)); [lia|]. exfalso.
      destruct (chain_sep _ _ _ e e2 C Hin Hin2) as [->|]; lia.
Qed.

(** ** The whole search *)

Definition bound (at_ Base : Z) : Z := if with_max at_ then Base else top sp.
(** The range that is chosen, and what it means that there is none. *)
Definition chosen s (at_ Base b : Z) : Prop :=
  if at_ =? EfiGcdAllocateAddress then b = Base
  else if top_down at_
  then in_reach s (bound at_ Base) b /\ forall b', in_reach s (bound at_ Base) b' -> b' <= b
  else b + l - 1 <= bound at_ Base /\ forall b', available s b' -> b' + l - 1 <= bound at_ Base -> b <= b'.
Definition no_choice s (at_ Base : Z) : Prop :=
  if at_ =? EfiGcdAllocateAddress then ~ available s Base
  else if top_down at_ then forall b, in_reach s (bound at_ Base) b -> False
  else forall b, available s b -> b + l - 1 <= bound at_ Base -> False.

Hypothesis operation : op = GCD_ALLOCATE_MEMORY_OPERATION \/ op = GCD_ALLOCATE_IO_OPERATION.
Lemma not_usable_status e : ~ usable e -> CoreAllocateSpaceCheckEntry op e ty io = EFI_NOT_FOUND.
Proof. unfold usable, CoreAllocateSpaceCheckEntry. destruct operation as [-> | ->]; cbn; repeat case_match; done. Qed.

Lemma wf_nonempty s : gcd_wf top s -> exists a e l2 es2, at_link s a e [] l2 [] es2 /\ BaseAddress e = 0.
Proof.
  intros W. pose proof (wf_chain _ _ W sp) as C. pose proof (wf_reps _ _ W sp) as R. unfold at_link. destruct (entries_of s sp) as [|e es]; [cbn in C; lia|].
  destruct (gcd_map s sp) as [|a l2]; [by inversion R|]. exists a, e, l2, es. by destruct C.
Qed.
Lemma wf_last s : gcd_wf top s -> exists a e l1 es1, at_link s a e l1 [] es1 [] /\ EndAddress e = top sp.
Proof.
  intros W. pose proof (wf_chain _ _ W sp) as C. pose proof (wf_reps _ _ W sp) as R. unfold at_link.
  destruct (list_snoc_dec (entries_of s sp)) as [E|(es1 & e & E)]; rewrite E in *; [cbn in C; lia|].
  apply reps_mid_r in R as (l1 & a & l2 & -> & R1 & _ & R2). apply Forall2_nil_inv_r in R2 as ->. exists a, e, l1, es1.
  split; [split_and!; try done; exact (Forall2_length _ _ _ R1)|]. apply chain_app in C as (k & _ & (_ & _ & C)). cbn in C. lia.
Qed.

Definition searched s (at_ Base : Z) (r : EFI_STATUS * (Z * option (Z * Z))) : Prop :=
  match r with
  | (st, (b, Some (a, z))) => st = EFI_SUCCESS /\ available s b /\ chosen s at_ Base b /\
      exists l1 lm l2 es1 ms es2, located s sp b (b + l - 1) a z l1 lm l2 es1 ms es2
  | (st, (b, None)) => st = EFI_NOT_FOUND /\ no_choice s at_ Base /\ (at_ = EfiGcdAllocateAddress -> b = Base)
  end.

Lemma alloc_search_ok s at_ Base : gcd_wf top s -> 0 <= Base < 2 ^ 64 -> (at_ = EfiGcdAllocateAddress -> Base + l <= 2 ^ 64) ->
  exists r, alloc_search sp op at_ ty io al l Base s = Ok (r, s) /\ searched s at_ Base r.
Proof.
  intros W HB HA. unfold alloc_search. fold (mask_of al). cbv zeta. unfold searched, chosen, no_choice.
  destruct (Z.eqb_spec at_ EfiGcdAllocateAddress) as [Ea|Ea].
  - specialize (HA Ea). rewrite land_mask by done. destruct (Z.eqb_spec (Base mod 2 ^ al) 0) as [Hm|Hm]; cbn [negb].
    2:{ eexists. split; [done|]. cbn. split_and!; try done. by intros (_ & _ & Hm' & _). }
    destruct (gcd_search_ok top s sp Base (Base + l - 1) l W) as [S1 S2]; [lia|].
    destruct (Z.le_gt_cases (Base + l - 1) (top sp)) as [Hin|Hout].
    2:{ rewrite (Mbind_Ok _ _ _ _ _ (S1 ltac:(lia))). eexists. split; [done|]. cbn. split_and!; try done. intros (_ & Hb & _). lia. }
    destruct (S2 Hin) as (a1 & z1 & l1 & lm & l2 & es1 & ms & es2 & Es & L). rewrite (Mbind_Ok _ _ _ _ _ Es).
    rewrite (Mbind_Ok _ _ _ _ _ (refusal_run s _ _ _ _ _ _ _ _ _ _ W L)). destruct (firsts refusal_of lm ms) as [[st sub]|] eqn:Ef.
    + destruct (refused_at s _ _ _ _ _ _ _ _ _ _ _ W L Ef) as (m & k1 & k2 & q1 & q2 & At' & Um & M1 & M2).
      assert (st = EFI_NOT_FOUND) as ->.
      { apply firsts_Some in Ef as (? & ? & ? & ? & m' & ? & _ & _ & _ & [[= -> ->] U']%refusal_of_Some & _). by apply not_usable_status. }
      eexists. split; [done|]. cbn. split_and!; try done. intros Hav. destruct (at_link_facts _ _ _ _ _ _ _ W At') as (_ & _ & Hm' & _ & Him & _).
      apply (available_not s Base (Z.max Base (BaseAddress m)) (kind m) Hav); [lia|apply Him; lia|by rewrite usable_kind].
    + eexists. split; [done|]. cbn. split; [done|]. split; [|split; [done|by eexists _, _, _, _, _, _]].
      split_and!; [lia|done|done|]. by apply (firsts_usable s Base _ _ _ _ _ _ _ _ W L).
  - rewrite (Mbind_Ok Mget _ s s s eq_refl). destruct (wf_last s W) as (z & ez & l1 & es1 & Atz & Etop). pose proof Atz as (E1 & E2 & Hl).
    rewrite E1, last_snoc. destruct (at_link_facts _ _ _ _ _ _ _ W Atz) as (Ec & _ & _ & _ & _ & C1 & _). rewrite (Mbind_Ok _ _ _ _ _ Ec), Etop.
    fold (bound at_ Base). assert (0 <= bound at_ Base < 2 ^ 64) as HM by (unfold bound; destruct (with_max at_); lia).
    destruct (top_down at_).
    + destruct (scan_down s (bound at_ Base) W HM (S (2 * length (l1 ++ [z]))) z ez l1 [] es1 [] Base Atz) as (r & Er & Hr).
      * rewrite length_app. lia.
      * intros b ((_ & Hb & _) & _). lia.
      * unfold scan in Er. rewrite (Mbind_Ok _ _ _ _ _ Er). eexists. split; [done|]. destruct r as [b [[a1 z1]|]]; cbn in Hr |- *; [|done].
        destruct Hr as (H1 & H2 & H3). split_and!; [done|apply H1|done|done|done].
    + destruct (wf_nonempty s W) as (a & e & l2 & es2 & Ata & E0). pose proof Ata as (E1' & _ & _). cbn in E1'.
      assert (head (l1 ++ [z]) = Some a) as -> by (rewrite <- E1, E1'; done).
      destruct (scan_up s (bound at_ Base) W (S (2 * length (l1 ++ [z]))) a e [] l2 [] es2 Base Ata) as (r & Er & Hr).
      * rewrite <- E1, E1'. cbn. lia.
      * intros b (Hb & _). lia.
      * unfold scan in Er. rewrite (Mbind_Ok _ _ _ _ _ Er). eexists. split; [done|]. destruct r as [b [[a1 z1]|]]; cbn in Hr |- *; [|done].
        destruct Hr as (H1 & H2 & H3 & H4). by split_and!.
Qed.

(** ** Allocation *)

Record allocated s (at_ Base image device : Z) (st : EFI_STATUS) (b : Z) s' : Prop := {
  al_wf : gcd_wf top s';
  al_lock sp' : gcd_lock s' sp' = gcd_lock s sp';
  al_world : gcd_world s' = gcd_world s;
  al_address : at_ = EfiGcdAllocateAddress -> b = Base;
  al_other sp' : sp' <> sp -> gcd_map s' sp' = gcd_map s sp' /\ entries_of s' sp' = entries_of s sp';
  al_status :
    (st = EFI_NOT_FOUND /\ no_choice s at_ Base /\ same_maps s s') \/
    (st = EFI_OUT_OF_RESOURCES /\ pool_refuses /\ same_maps s s') \/
    (st = EFI_SUCCESS /\ available s b /\ chosen s at_ Base b /\
       forall y, space_info s' sp y = if decide (b <= y <= b + l - 1) then set_Handles image device <$> space_info s sp y
                                      else space_info s sp y)
}.

Lemma alloc_locked_ok s at_ Base image device : small top -> gcd_wf top s -> 0 <= Base < 2 ^ 64 ->
  (at_ = EfiGcdAllocateAddress -> Base + l <= 2 ^ 64) ->
  wp true (alloc_locked sp op at_ ty io al l Base image device) (fun r s' => allocated s at_ Base image device r.1 r.2 s') s.
Proof.
  intros Sm W HB HA. unfold alloc_locked. destruct (alloc_search_ok s at_ Base W HB HA) as ([st [b [[a z]|]]] & E & H); (eapply wp_step; [exact E|]); cbn in H.
  2:{ destruct H as (-> & H & Hb). apply wp_ret. split; try done. by left. }
  destruct H as (-> & Hav & Hch & l1 & lm & l2 & es1 & ms & es2 & L).
  assert (at_ = EfiGcdAllocateAddress -> b = Base) as Hb by (intros ->; exact Hch).
  eapply wp_seq; [apply (alloc_ok top s sp (entries_law (GCD_LAWS := Laws)) W)|]. cbn beta.
  intros [st [To Bo]] s1 [(Est & -> & Hp)|(To' & Bo' & [= -> -> ->] & M1 & NT & NB)].
  { cbn in Est. subst st. apply wp_ret. split; try done. right. by left. }
  pose proof Hav as (Hb0 & Hb1 & _). cbn [EFI_ERROR]. eapply wp_seq.
  { apply (change_range_ok top (fun (_ : unit) e => (set_Handles image device e, tt)) (fun _ _ => eq_refl) (fun _ _ => conj eq_refl eq_refl)
      (fun _ _ => eq_refl) s s1 sp b (b + l - 1) l a z l1 lm l2 es1 ms es2 To' Bo' tt); try done. lia. }
  cbn beta. intros r s2 (-> & W2 & (B1 & B2 & B3) & I2). apply wp_ret. split; try done; [intros sp'; by rewrite B2|].
  right. right. split_and!; try done. intros y. cbn [fst snd]. rewrite I2. case_decide; [|done]. unfold space_info. destruct (info _ y) as [k|] eqn:Ek; [|done].
  cbn. apply info_elem_inv in Ek as (e & _ & ->). done.
Qed.

Lemma allocate_space_ok s at_ Base image device : small top -> gcd_wf top s -> 0 <= Base < 2 ^ 64 ->
  (at_ = EfiGcdAllocateAddress -> Base + l <= 2 ^ 64) -> space_of op = Some sp -> gcd_lock s sp = false ->
  0 <= at_ < EfiGcdMaxAllocateType -> 0 <= ty < EfiGcdMemoryTypeMaximum -> 0 <= io < EfiGcdIoTypeMaximum -> image <> 0 ->
  wp true (CoreAllocateSpace op at_ ty io al l (Some Base) image device) (fun r s' => exists b, r.2 = Some b /\
    allocated s at_ Base image device r.1 b s') s.
Proof.
  intros Sm W HB HA Eo Lk H1 H2 H3 Hi. unfold CoreAllocateSpace.
  assert (forall x n, 0 <= x < n -> n < 2 ^ 32 -> (n <=? wrapU 32 x) = false) as Hw by (intros; rewrite wrapU_id by (split; lia); lia).
  rewrite !Hw by (try done; cbn in *; lia). rewrite (proj2 (Z.eqb_neq image 0)), (proj2 (Z.leb_gt 64 al)), (proj2 (Z.eqb_neq l 0)) by lia.
  eapply wp_step; [by apply acquire_run|].
  eapply wp_seq; [apply (alloc_locked_ok (upd_lock sp true s)); try done; by apply wf_lock|]. cbn beta. intros [st b] s1 [A1 A2 A3 A3' A4 A5]. cbn [fst snd] in *.
  eapply wp_step; [apply (gcd_release_run s1 op sp Eo)|]. { rewrite A2, lock_upd. by rewrite decide_True. }
  apply wp_ret. exists b. split; [done|]. split; [by apply wf_lock| |done|done|done|exact A5].
  intros sp'. specialize (A2 sp'). rewrite lock_upd in A2 |- *. case_decide; [by subst|done].
Qed.
End Alloc.
