(* ===== verification/GcdServices.v ===== *)
(** * GcdServices: the services keep the maps

    Every service returns, releases the locks and keeps the invariant of the
    maps, when its range does not wrap around. Then reading the maps: the
    descriptor of an address is that of the entry with the address, the
    descriptors of a map are those of its entries in order, and the loop of
    CoreGetMemorySpaceMap ends when the pool changes the map only finitely
    often. *)

From stdpp Require Import base option list gmap fin_maps.
From Stdlib Require Import ZArith Lia.
From S2P Require Import Prelude Gcd GcdMap GcdRange GcdState GcdConvert GcdAlloc.

Local Open Scope Z_scope.
Local Open Scope edk_scope.

Section Services.
Context {World : Type} `{Env : !GCD_ENV World} `{Laws : !GCD_LAWS} (top : SPACE -> Z).
Implicit Types s : GCD World.
(** The processor has at most 62 address lines. *)
Definition narrow : Prop := forall sp, 0 <= top sp < 2 ^ 62.
Hypothesis lines : narrow.
Hypothesis image : gDxeCoreImageHandle <> 0.

Lemma narrow_small : small top.
Proof. intros sp. specialize (lines sp). lia. Qed.

Definition idle s : Prop := gcd_wf top s /\ forall sp, gcd_lock s sp = false.
Definition keeps {A} (c : M (GCD World) A) : Prop := forall s, idle s -> wp true c (fun _ s' => idle s') s.

Lemma gcd_keeps_ret {A} (x : A) : keeps (Mret x).
Proof. intros s H. by apply wp_ret. Qed.
Lemma gcd_keeps_bind {A B} (c : M (GCD World) A) (k : A -> M (GCD World) B) : keeps c -> (forall x, keeps (k x)) -> keeps (Mbind c k).
Proof. intros H1 H2 s H. eapply wp_seq; [by apply H1|]. cbn beta. intros x s' H'. by apply H2. Qed.
Lemma gcd_keeps_world {A} (c : M World A) : (forall w, exists x w', c w = Ok (x, w')) -> keeps (on_gworld c).
Proof.
  intros Hc s [W L]. destruct (Hc (gcd_world s)) as (x & w' & E). eapply wp_eq; [unfold on_gworld; by rewrite E|].
  split; [by apply wf_gworld|done].
Qed.

(** A range that does not wrap around. *)
Definition plain (b l : Z) : Prop := 0 <= b /\ 0 <= l /\ b + l <= 2 ^ 64.

Lemma keeps_convert op sp ty io b l caps attrs : space_of op = Some sp -> plain b l -> keeps (CoreConvertSpace op ty io b l caps attrs).
Proof.
  intros Eo (Hb & Hl & Hw) s [W L]. destruct (Z.eq_dec l 0) as [->|Hne].
  { unfold CoreConvertSpace. by apply wp_ret. }
  eapply wp_mono; [apply (convert_space_ok top s op sp ty io b l caps attrs narrow_small W Eo (L sp)); lia|].
  cbn beta. intros st s' C. split; [apply (cv_wf _ _ _ _ _ _ _ _ _ _ _ _ C)|]. intros sp'. by rewrite (cv_lock _ _ _ _ _ _ _ _ _ _ _ _ C).
Qed.

(** Arguments of an allocation that do not wrap around: any length below 2^62
    and alignment up to 2^62, or more than 63 bits of alignment, which is
    rejected. *)
Definition tame (at_ al l : Z) (b : option Z) : Prop :=
  (0 <= al <= 62 \/ 64 <= al) /\ 0 <= l <= 2 ^ 62 /\
  forall x, b = Some x -> 0 <= x < 2 ^ 64 /\ (at_ = EfiGcdAllocateAddress -> x + l <= 2 ^ 64).

Lemma keeps_allocate op sp at_ ty io al l b img dev : (op = GCD_ALLOCATE_MEMORY_OPERATION \/ op = GCD_ALLOCATE_IO_OPERATION) ->
  space_of op = Some sp -> 0 <= at_ < 2 ^ 32 -> 0 <= ty < 2 ^ 32 -> 0 <= io < 2 ^ 32 -> tame at_ al l b ->
  keeps (CoreAllocateSpace op at_ ty io al l b img dev).
Proof.
  intros Hop Eo H1 H2 H3 (Hal & Hl & Hb) s [W L].
  assert (wp true (Mret (EFI_INVALID_PARAMETER, b)) (fun _ s' => idle s') s) as Bad by (by apply wp_ret).
  unfold CoreAllocateSpace. rewrite !wrapU_id by done.
  destruct (Z.leb_spec EfiGcdMaxAllocateType at_); [done|]. destruct (Z.leb_spec EfiGcdMemoryTypeMaximum ty); [done|].
  destruct (Z.leb_spec EfiGcdIoTypeMaximum io); [done|]. destruct b as [x|]; [|done]. destruct (Z.eqb_spec img 0); [done|].
  destruct (Z.leb_spec 64 al); [by apply wp_ret|]. destruct (Z.eqb_spec l 0); [done|]. destruct (Hb x eq_refl) as [Hx Hax].
  assert (2 ^ al <= 2 ^ 62) by (apply Z.pow_le_mono_r; lia). pose proof (lines sp) as Ht.
  eapply wp_mono; [|intros r s' H'; exact H'].
  assert (wp true (CoreAllocateSpace op at_ ty io al l (Some x) img dev) (fun _ s' => idle s') s) as G.
  { eapply wp_mono; [apply (allocate_space_ok top sp op ty io al l); try done; try lia; by apply narrow_small|].
    cbn beta. intros [st r] s' (b & _ & A). split; [apply (al_wf _ _ _ _ _ _ _ _ _ _ _ _ _ _ _ A)|].
    intros sp'. by rewrite (al_lock _ _ _ _ _ _ _ _ _ _ _ _ _ _ _ A). }
  unfold CoreAllocateSpace in G. rewrite !wrapU_id in G by done.
  rewrite (proj2 (Z.leb_gt EfiGcdMaxAllocateType at_)), (proj2 (Z.leb_gt EfiGcdMemoryTypeMaximum ty)), (proj2 (Z.leb_gt EfiGcdIoTypeMaximum io)),
    (proj2 (Z.eqb_neq img 0)), (proj2 (Z.leb_gt 64 al)), (proj2 (Z.eqb_neq l 0)) in G by done. exact G.
Qed.

(** ** The services *)

Lemma keeps_status {A} (x : A) (c : bool) (k : M (GCD World) A) : keeps k -> keeps (if c then Mret x else k).
Proof. intros H. destruct c; [apply gcd_keeps_ret|done]. Qed.

Lemma keeps_free_memory b l : plain b l -> keeps (CoreFreeMemorySpace b l).
Proof. by apply keeps_convert with (sp := MemorySpace). Qed.
Lemma keeps_remove_memory b l : plain b l -> keeps (CoreRemoveMemorySpace b l).
Proof. by apply keeps_convert with (sp := MemorySpace). Qed.
Lemma keeps_attributes b l a : plain b l -> keeps (CoreSetMemorySpaceAttributes b l a).
Proof. by apply keeps_convert with (sp := MemorySpace). Qed.
Lemma keeps_capabilities b l c : plain b l -> keeps (CoreSetMemorySpaceCapabilities b l c).
Proof.
  intros H. apply gcd_keeps_bind; [by apply keeps_convert with (sp := MemorySpace)|]. intros st. apply gcd_keeps_bind; [|intros _; apply gcd_keeps_ret].
  apply keeps_status, gcd_keeps_world. intros w. destruct (update_law (GCD_LAWS := Laws) b (Z.shiftr l EFI_PAGE_SHIFT)
    (Z.land c (wrapU 64 (Z.lnot EFI_MEMORY_RUNTIME))) w) as [w' E]. by exists tt, w'.
Qed.
Lemma keeps_add_io t b l : plain b l -> keeps (CoreAddIoSpace t b l).
Proof. intros H. apply keeps_status. by apply keeps_convert with (sp := IoSpace). Qed.
Lemma keeps_free_io b l : plain b l -> keeps (CoreFreeIoSpace b l).
Proof. by apply keeps_convert with (sp := IoSpace). Qed.
Lemma keeps_remove_io b l : plain b l -> keeps (CoreRemoveIoSpace b l).
Proof. by apply keeps_convert with (sp := IoSpace). Qed.
Lemma keeps_add_internal t b l c : plain b l -> keeps (CoreInternalAddMemorySpace t b l c).
Proof. intros H. apply keeps_status. by apply keeps_convert with (sp := MemorySpace). Qed.
Lemma keeps_allocate_memory at_ ty al l b img dev : 0 <= at_ < 2 ^ 32 -> 0 <= ty < 2 ^ 32 -> tame at_ al l b ->
  keeps (CoreAllocateMemorySpace at_ ty al l b img dev).
Proof. intros H1 H2 H3. apply keeps_allocate with (sp := MemorySpace); try done. by left. Qed.
Lemma keeps_allocate_io at_ io al l b img dev : 0 <= at_ < 2 ^ 32 -> 0 <= io < 2 ^ 32 -> tame at_ al l b ->
  keeps (CoreAllocateIoSpace at_ io al l b img dev).
Proof. intros H1 H2 H3. apply keeps_allocate with (sp := IoSpace); try done. by right. Qed.

(** ** Adding memory *)

Lemma page_align b : 0 <= b -> b + (2 ^ 12 - 1) < 2 ^ 64 -> PageAlignAddress b = align_up 12 b.
Proof.
  intros H1 H2. unfold PageAlignAddress, AlignValue. fold (mask_of EFI_PAGE_SHIFT). destruct (mask_of_eq 12) as [E _]; [lia|].
  unfold EFI_PAGE_SHIFT. rewrite E. rewrite <- E at 2. rewrite wrapU_id by (split; lia). rewrite land_notmask by lia. done.
Qed.
Lemma page_length n : 0 <= n < 2 ^ 64 -> PageAlignLength n = align_down 12 n.
Proof. intros H. unfold PageAlignLength, AlignValue. fold (mask_of EFI_PAGE_SHIFT). unfold EFI_PAGE_SHIFT. apply land_notmask; lia. Qed.
(** The pages of a range that reaches its first page. *)
Lemma page_range_eq b l : 0 <= b -> 0 <= l -> b + l <= 2 ^ 62 -> align_up 12 b <= b + l ->
  page_range b l = (align_up 12 b, align_down 12 (b + l - align_up 12 b)).
Proof.
  intros H1 H2 H3 H4. unfold page_range. rewrite page_align by lia. destruct (align_up_spec 12 b) as [A _]; [lia|lia|].
  rewrite wrapU_id, page_length by (try split; lia). done.
Qed.

Lemma page_step p : 0 <= p < 2 ^ 64 -> p mod 2 ^ 12 = 0 -> 0 <= wrapU 64 (p + EFI_PAGE_SIZE) < 2 ^ 64 /\ wrapU 64 (p + EFI_PAGE_SIZE) mod 2 ^ 12 = 0.
Proof.
  intros H1 H2. split; [by apply wrapU_range|]. unfold wrapU. rewrite Z.mod_mod_divide by (by exists (2 ^ 52)).
  unfold EFI_PAGE_SIZE. change 0x1000 with (1 * 2 ^ 12). by rewrite Z.mod_add by lia.
Qed.
Lemma page_room p : 0 <= p < 2 ^ 64 -> p mod 2 ^ 12 = 0 -> p + EFI_PAGE_SIZE <= 2 ^ 64.
Proof.
  intros H1 H2. unfold EFI_PAGE_SIZE. pose proof (Z.div_mod p (2 ^ 12) ltac:(lia)) as E. rewrite H2 in E.
  assert (p / 2 ^ 12 < 2 ^ 52) by (apply Z.div_lt_upper_bound; lia). lia.
Qed.
Lemma keeps_descriptor t b n c : keeps (on_gworld (CoreAddMemoryDescriptor t b n c)).
Proof. apply gcd_keeps_world. intros w. destruct (descriptor_law (GCD_LAWS := Laws) t b n c w) as [w' E]. by exists tt, w'. Qed.

Lemma allocate_at s ty l p : idle s -> (ty = EfiGcdMemoryTypeSystemMemory \/ ty = EfiGcdMemoryTypeMoreReliable) ->
  0 < l <= 2 ^ 62 -> 0 <= p -> p + l <= 2 ^ 64 ->
  wp true (CoreAllocateMemorySpace EfiGcdAllocateAddress ty EFI_PAGE_SHIFT l (Some p) gDxeCoreImageHandle 0)
    (fun r s' => idle s' /\ r.2 = Some p /\
       allocated top MemorySpace GCD_ALLOCATE_MEMORY_OPERATION ty 0 12 l s EfiGcdAllocateAddress p gDxeCoreImageHandle 0 r.1 p s') s.
Proof.
  intros [W L] Ht Hl Hp Hr. pose proof (lines MemorySpace). unfold CoreAllocateMemorySpace.
  eapply wp_mono.
  { apply (allocate_space_ok top MemorySpace); try done; first [by left|exact narrow_small|by destruct Ht as [-> | ->]|unfold EFI_PAGE_SHIFT; lia]. }
  cbn beta. intros [st r] s' (b & -> & A). pose proof (al_address _ _ _ _ _ _ _ _ _ _ _ _ _ _ _ A eq_refl) as ->.
  split; [|by split]. split; [apply (al_wf _ _ _ _ _ _ _ _ _ _ _ _ _ _ _ A)|]. intros sp'. by rewrite (al_lock _ _ _ _ _ _ _ _ _ _ _ _ _ _ _ A).
Qed.

Lemma keeps_add_pages ty c : (ty = EfiGcdMemoryTypeSystemMemory \/ ty = EfiGcdMemoryTypeMoreReliable) ->
  forall pages p st, 0 <= p < 2 ^ 64 -> p mod 2 ^ 12 = 0 -> keeps (add_pages pages ty p c st).
Proof.
  intros Ht. induction pages as [|pages IH]; intros p st Hp Hm s I; cbn [add_pages]; [by apply gcd_keeps_ret|].
  eapply wp_seq; [apply (allocate_at s ty EFI_PAGE_SIZE p); try done; first [by apply page_room|unfold EFI_PAGE_SIZE; lia]|].
  cbn beta. intros [st' r] s1 (I1 & Er & _). cbn in Er |- *. subst r. cbn. eapply wp_seq.
  { apply keeps_status; [apply keeps_descriptor|exact I1]. }
  cbn beta. intros _ s2 I2. destruct (page_step p Hp Hm) as [P1 P2]. by apply IH.
Qed.

Lemma keeps_add_memory t b l c : plain b l -> align_up 12 b <= b + l -> keeps (CoreAddMemorySpace t b l c).
Proof.
  intros (Hb & Hl & Hw) Hp s I. unfold CoreAddMemorySpace, CoreInternalAddMemorySpace.
  destruct ((t <=? EfiGcdMemoryTypeNonExistent) || (EfiGcdMemoryTypeMaximum <=? t)); [by apply wp_ret|].
  destruct (Z.eq_dec l 0) as [->|Hne]; [by apply wp_ret|]. destruct I as [W L].
  eapply wp_seq; [apply (convert_space_ok top s _ MemorySpace); try done; try lia; apply narrow_small|]. cbn beta. intros st s1 C.
  assert (idle s1) as I1.
  { split; [apply (cv_wf _ _ _ _ _ _ _ _ _ _ _ _ C)|]. intros sp'. by rewrite (cv_lock _ _ _ _ _ _ _ _ _ _ _ _ C). }
  destruct (EFI_ERROR st) eqn:E; [by apply wp_ret|]. pose proof (converted_success top _ _ _ _ _ _ _ _ _ _ _ C E) as Ht. pose proof (lines MemorySpace).
  destruct ((t =? EfiGcdMemoryTypeSystemMemory) || (t =? EfiGcdMemoryTypeMoreReliable)) eqn:Et; cbn [negb andb]; [|by apply wp_ret].
  assert (t = EfiGcdMemoryTypeSystemMemory \/ t = EfiGcdMemoryTypeMoreReliable) as Ht' by (apply orb_true_iff in Et as [?%Z.eqb_eq|?%Z.eqb_eq]; [by left|by right]).
  rewrite page_range_eq by lia. destruct (align_up_spec 12 b) as [A1 A2]; [lia|lia|]. set (p := align_up 12 b) in *.
  destruct (align_down_spec 12 (b + l - p)) as (D1 & D2 & D3); [lia|lia|]. set (len := align_down 12 (b + l - p)) in *.
  destruct (Z.eq_dec len 0) as [->|Hlen].
  { assert (CoreAllocateMemorySpace EfiGcdAllocateAddress t EFI_PAGE_SHIFT 0 (Some p) gDxeCoreImageHandle 0 s1 = Ok ((EFI_INVALID_PARAMETER, Some p), s1)) as Ea.
    { unfold CoreAllocateMemorySpace, CoreAllocateSpace. rewrite (proj2 (Z.eqb_neq gDxeCoreImageHandle 0)) by done. by destruct Ht' as [-> | ->]. }
    eapply wp_step; [exact Ea|]. by apply wp_ret. }
  eapply wp_seq; [apply (allocate_at s1 t len p); try done; lia|]. cbn beta. intros [st' r] s2 (I2 & Er & _). cbn in Er |- *. subst r. cbn.
  destruct (EFI_ERROR st'); cbn [negb].
  - apply keeps_add_pages; try done. lia.
  - eapply wp_seq; [apply keeps_descriptor; exact I2|]. cbn beta. intros _ s3 I3. by apply wp_ret.
Qed.

Lemma allocated_done op sp ty io al l s at_ Base img dev st b s' : allocated top sp op ty io al l s at_ Base img dev st b s' ->
  at_ = EfiGcdAllocateAddress -> available top sp op ty io al l s Base -> ~ pool_refuses -> st = EFI_SUCCESS /\
  forall y, space_info s' sp y = if decide (Base <= y <= Base + l - 1) then set_Handles img dev <$> space_info s sp y else space_info s sp y.
Proof.
  intros A E Av Hp. pose proof (al_address _ _ _ _ _ _ _ _ _ _ _ _ _ _ _ A E) as ->.
  destruct (al_status _ _ _ _ _ _ _ _ _ _ _ _ _ _ _ A) as [(_ & N & _)|[(_ & ? & _)|(? & _ & _ & I)]]; try done.
  unfold no_choice in N. by rewrite E in N.
Qed.

(** What is said of an address of memory that has been added; [own] is its
    owner. *)
Definition added_entry (t c own : Z) (k : ENTRY) : ENTRY :=
  set_Handles own 0 (set_Capabilities (Z.lor c EFI_MEMORY_RUNTIME) (set_GcdMemoryType t k)).

Lemma add_memory_ok s t b l c : idle s -> (t = EfiGcdMemoryTypeSystemMemory \/ t = EfiGcdMemoryTypeMoreReliable) ->
  0 <= b -> align_up 12 b + EFI_PAGE_SIZE <= b + l -> b + l - 1 <= top MemorySpace -> ~ pool_refuses ->
  (forall y k, b <= y <= b + l - 1 -> space_info s MemorySpace y = Some k ->
     GcdMemoryType k = EfiGcdMemoryTypeNonExistent /\ ImageHandle k = 0 /\ DeviceHandle k = 0) ->
  wp true (CoreAddMemorySpace t b l c) (fun st s' => let p := align_up 12 b in let len := align_down 12 (b + l - p) in
    st = EFI_SUCCESS /\ idle s' /\
    CoreAddMemoryDescriptor EfiConventionalMemory p (len / EFI_PAGE_SIZE) c (gcd_world s) = Ok (tt, gcd_world s') /\
    (forall y, space_info s' MemorySpace y =
       if decide (b <= y <= b + l - 1)
       then added_entry t c (if decide (p <= y < p + len) then gDxeCoreImageHandle else 0) <$> space_info s MemorySpace y
       else space_info s MemorySpace y) /\
    (forall y, space_info s' IoSpace y = space_info s IoSpace y)) s.
Proof.
  intros [W L] Ht Hb Hp Hn Hpool Hfree. cbn zeta. pose proof (lines MemorySpace) as Hl. destruct (align_up_spec 12 b) as [A1 A2]; [lia|lia|].
  unfold CoreAddMemorySpace, CoreInternalAddMemorySpace. set (p := align_up 12 b) in *.
  assert ((t <=? EfiGcdMemoryTypeNonExistent) || (EfiGcdMemoryTypeMaximum <=? t) = false) as -> by (by destruct Ht as [-> | ->]).
  assert ((t =? EfiGcdMemoryTypeSystemMemory) || (t =? EfiGcdMemoryTypeMoreReliable) = true) as -> by (by destruct Ht as [-> | ->]).
  unfold EFI_PAGE_SIZE in Hp. eapply wp_seq; [apply (convert_space_ok top s _ MemorySpace); try done; try lia; apply narrow_small|].
  cbn beta. intros st s1 C. assert (st = EFI_SUCCESS) as ->.
  { apply (converted_done top _ _ _ _ _ _ _ _ _ _ _ C); try done. intros y k Hy Hk. destruct (Hfree y k Hy Hk) as (E1 & E2 & _).
    unfold convert_check. rewrite Z.eqb_refl, E1, E2. done. }
  destruct (converted_info top _ _ _ _ _ _ _ _ _ _ C) as [_ I1]; [by left|].
  assert (idle s1) as Id1.
  { split; [apply (cv_wf _ _ _ _ _ _ _ _ _ _ _ _ C)|]. intros sp'. by rewrite (cv_lock _ _ _ _ _ _ _ _ _ _ _ _ C). }
  cbn [EFI_ERROR negb andb]. rewrite page_range_eq by lia. fold p. destruct (align_down_spec 12 (b + l - p)) as (D1 & D2 & D3); [lia|lia|].
  set (len := align_down 12 (b + l - p)) in *. eapply wp_seq; [apply (allocate_at s1 t len p); try done; lia|].
  cbn beta. intros [st' r] s2 (I2 & Er & A). cbn [fst snd] in Er, A |- *. subst r. change (default 0 (Some p)) with p.
  assert (forall y, b <= y <= b + l - 1 -> exists k, space_info s MemorySpace y = Some k /\
    space_info s1 MemorySpace y = Some (added_entry t c 0 k)) as Hk.
  { intros y Hy. rewrite I1. rewrite decide_True by done. destruct (space_info s MemorySpace y) as [k|] eqn:Ek.
    2:{ exfalso. assert (is_Some (space_info s MemorySpace y)) as [k' Ek']; [|congruence].
        apply (info_range _ 0 (top MemorySpace)); [by apply wf_chain|lia]. }
    exists k. split; [done|]. destruct (Hfree y k Hy Ek) as (_ & E2 & E3). cbn. unfold convert_entry. cbn. f_equal.
    unfold added_entry, set_Handles, set_Capabilities. cbn. rewrite E2, E3. by destruct Ht as [-> | ->]. }
  assert (gcd_world s2 = gcd_world s) as Hw.
  { rewrite (al_world _ _ _ _ _ _ _ _ _ _ _ _ _ _ _ A). by apply (converted_world top _ _ _ _ _ _ _ _ _ _ _ C). }
  assert (forall sp', sp' <> MemorySpace -> entries_of s2 sp' = entries_of s1 sp') as Ho by (intros; by apply A).
  apply allocated_done in A as [-> I]; try done.
  2:{ split_and!; [lia|lia|done|]. intros y k' Hy E. destruct (Hk y ltac:(lia)) as (k & _ & E'). rewrite E' in E. injection E as <-.
      by destruct Ht as [-> | ->]. }
  cbn [EFI_ERROR negb]. assert (Z.shiftr len EFI_PAGE_SHIFT = len / EFI_PAGE_SIZE) as -> by (by apply (Z.shiftr_div_pow2 len 12)).
  destruct (descriptor_law (GCD_LAWS := Laws) EfiConventionalMemory p (len / EFI_PAGE_SIZE) c (gcd_world s2)) as [w Ed].
  eapply wp_step; [unfold on_gworld; by rewrite Ed|]. apply wp_ret. rewrite Hw in Ed.
  assert (forall sp y, space_info (upd_gworld w s2) sp y = space_info s2 sp y) as Hu by done.
  split_and!; [done|by destruct I2; split; [apply wf_gworld|]|exact Ed| |].
  - intros y. rewrite Hu, I. destruct (decide (b <= y <= b + l - 1)) as [Hy|Hy].
    + destruct (Hk y Hy) as (k & -> & ->). destruct (decide (p <= y < p + len)).
      * rewrite decide_True by lia. done.
      * rewrite decide_False by lia. done.
    + rewrite decide_False by lia. rewrite I1. by rewrite decide_False.
  - intros y. rewrite Hu. unfold space_info. rewrite Ho by done. by destruct (cv_other _ _ _ _ _ _ _ _ _ _ _ _ C IoSpace) as [_ ->].
Qed.
End Services.

Section Descriptors.
Context {World : Type} `{Env : !GCD_ENV World} (top : SPACE -> Z).
Implicit Types s : GCD World.

(** Nothing but a lock has been taken and released. *)
Definition as_before s s' : Prop :=
  gcd_entries s' = gcd_entries s /\ gcd_map s' = gcd_map s /\ (forall sp, gcd_lock s' sp = gcd_lock s sp) /\
  mOnGuarding s' = mOnGuarding s /\ gcd_world s' = gcd_world s.

Lemma lock_run s sp : gcd_lock s sp = false -> acquire_lock sp s = Ok (tt, upd_lock sp true s).
Proof. intros E. unfold acquire_lock, Mbind, Mget. by rewrite E. Qed.
Lemma unlock_run s sp : gcd_lock s sp = true -> release_lock sp s = Ok (tt, upd_lock sp false s).
Proof. intros E. unfold release_lock, Mbind, Mget. by rewrite E. Qed.
Lemma relocked s sp : gcd_lock s sp = false -> as_before s (upd_lock sp false (upd_lock sp true s)).
Proof. intros E. split_and!; try done. intros sp'. rewrite !lock_upd. case_decide; [by subst|done]. Qed.

(** What is found at an address. *)
Definition described {D} s sp (build : ENTRY -> D) (x : Z) (r : EFI_STATUS * option D) : Prop :=
  (top sp < x /\ r = (EFI_NOT_FOUND, None)) \/
  (x <= top sp /\ exists e, e ∈ entries_of s sp /\ BaseAddress e <= x <= EndAddress e /\ r = (EFI_SUCCESS, Some (build e))).

Definition get_descriptor {D} sp (build : ENTRY -> D) (x : Z) : M (GCD World) (EFI_STATUS * option D) :=
  acquire_lock sp ;;;
  let! r := CoreSearchGcdMapEntry x 1 sp in
  let! q := (match r with
             | (EFI_SUCCESS, Some (StartLink, _)) => let! Entry := CR StartLink in Mret (EFI_SUCCESS, Some (build Entry))
             | _ => Mret (EFI_NOT_FOUND, None)
             end) in
  release_lock sp ;;;
  Mret q.

Lemma get_descriptor_ok {D} s sp (build : ENTRY -> D) x : gcd_wf top s -> gcd_lock s sp = false -> 0 <= x < 2 ^ 64 ->
  wp true (get_descriptor sp build x) (fun r s' => described s sp build x r /\ as_before s s') s.
Proof.
  intros W L Hx. unfold get_descriptor. eapply wp_step; [by apply lock_run|]. set (s1 := upd_lock sp true s).
  assert (gcd_wf top s1) as W1 by (by apply wf_lock).
  assert (forall q, described s sp build x q -> wp true (release_lock sp ;;; Mret q) (fun r s' => described s sp build x r /\ as_before s s') s1) as End.
  { intros q Hq. eapply wp_step; [apply unlock_run; unfold s1; by rewrite lock_upd, decide_True|]. apply wp_ret. split; [done|by apply relocked]. }
  destruct (gcd_search_ok top s1 sp x x 1 W1) as [S1 S2]; [lia|]. destruct (Z.le_gt_cases x (top sp)) as [Ht|Ht].
  - destruct (S2 Ht) as (a & z & l1 & lm & l2 & es1 & ms & es2 & Es & Lc). eapply wp_step; [exact Es|].
    destruct (located_reps top _ _ _ _ _ _ _ _ _ _ _ _ W1 Lc) as (_ & R & Sg). pose proof (loc_start _ _ _ _ _ _ _ _ _ _ _ _ Lc) as Ha.
    destruct lm as [|a' lm]; [done|]. injection Ha as ->. inversion R as [|? e ? ms' He R']; subst. apply signed_cons in Sg as [Se _].
    eapply wp_step; [rewrite (Mbind_Ok _ _ _ _ _ (CR_run _ _ _ He Se)); done|]. apply End. right. split; [done|]. exists e.
    pose proof (loc_covers _ _ _ _ _ _ _ _ _ _ _ _ Lc) as (lo & hi & Ch & B1 & _ & B3 & _). specialize (B3 e eq_refl). destruct Ch as (Eb & _).
    split; [|split; [lia|done]]. change (entries_of s sp) with (entries_of s1 sp). rewrite (loc_entries _ _ _ _ _ _ _ _ _ _ _ _ Lc). set_solver.
  - eapply wp_step; [apply S1; lia|]. eapply wp_step; [done|]. apply End. left. by split; [lia|].
Qed.

(** ** The whole map *)

Lemma read_entries_run s sp : gcd_wf top s -> read_entries (gcd_map s sp) s = Ok (entries_of s sp, s).
Proof.
  intros W. pose proof (wf_reps _ _ W sp) as R. pose proof (wf_signed _ _ W sp) as Sg. revert R Sg. generalize (gcd_map s sp) (entries_of s sp).
  induction 1 as [|a e l es Ha R IH]; intros Sg; [done|]. apply signed_cons in Sg as [Se Sg]. cbn [read_entries].
  rewrite (Mbind_Ok _ _ _ _ _ (CR_run _ _ _ Ha Se)), (Mbind_Ok _ _ _ _ _ (IH Sg)). done.
Qed.

(** The pool of the arrays: it keeps the maps, does not touch a map that is
    locked, and may change the map of the memory space [promotions] times. *)
Definition settles (promotions : World -> nat) s s' : Prop :=
  (gcd_map s' MemorySpace = gcd_map s MemorySpace /\ promotions (gcd_world s') <= promotions (gcd_world s))%nat \/
  (promotions (gcd_world s') < promotions (gcd_world s))%nat.
Class MAP_LAWS := {
  promotions : World -> nat;
  pool_law n s : gcd_wf top s -> exists p s', MapPool n s = Ok (p, s') /\ gcd_wf top s' /\ (forall sp, gcd_lock s' sp = gcd_lock s sp) /\
    (forall sp, gcd_lock s sp = true -> gcd_map s' sp = gcd_map s sp /\ entries_of s' sp = entries_of s sp) /\ settles promotions s s';
  free_law p s : gcd_wf top s -> exists s', MapFree p s = Ok (tt, s') /\ gcd_wf top s' /\ (forall sp, gcd_lock s' sp = gcd_lock s sp) /\
    settles promotions s s'
}.
Context `{Pool : !MAP_LAWS}.

(** What a call for all descriptors returns, and with which maps; [n] is the
    number that is stored when there is no memory for them. *)
Definition listed {D} sp (build : ENTRY -> D) (n : GCD World -> Z) (r : EFI_STATUS * option (Z * Z * list D)) s' : Prop :=
  idle top s' /\ (r = (EFI_OUT_OF_RESOURCES, Some (n s', 0, [])) \/
    exists p, p <> 0 /\ r = (EFI_SUCCESS, Some (Z.of_nat (length (entries_of s' sp)), p, build <$> entries_of s' sp))).
Lemma map_length s sp : gcd_wf top s -> length (gcd_map s sp) = length (entries_of s sp).
Proof. intros W. exact (Forall2_length _ _ _ (wf_reps _ _ W sp)). Qed.

(** The lock of a map is held, and no other. *)
Definition held sp s : Prop := gcd_wf top s /\ forall sp', gcd_lock s sp' = bool_decide (sp' = sp).
Lemma idle_held s sp : idle top s -> acquire_lock sp s = Ok (tt, upd_lock sp true s) /\ held sp (upd_lock sp true s).
Proof.
  intros [W L]. split; [by apply lock_run|]. split; [by apply wf_lock|]. intros sp'. rewrite lock_upd.
  destruct (decide (sp' = sp)); [by rewrite bool_decide_true|by rewrite bool_decide_false].
Qed.
Lemma held_idle s sp : held sp s -> release_lock sp s = Ok (tt, upd_lock sp false s) /\ idle top (upd_lock sp false s).
Proof.
  intros [W L]. split; [apply unlock_run; by rewrite L, bool_decide_true|]. split; [by apply wf_lock|]. intros sp'. rewrite lock_upd.
  destruct (decide (sp' = sp)); [done|]. by rewrite L, bool_decide_false.
Qed.

Lemma map_loop_ok : forall turns N p s, held MemorySpace s ->
  ((1 <= turns)%nat /\ N = Z.of_nat (length (gcd_map s MemorySpace)) /\ p <> 0) \/ (promotions (gcd_world s) + 2 <= turns)%nat ->
  wp true (map_loop turns N p) (fun r s' => listed MemorySpace BuildMemoryDescriptor (fun _ => 0) r s') s.
Proof.
  induction turns as [|turns IH]; intros N p s H Ht; [lia|]. cbn [map_loop]. eapply wp_step; [done|].
  destruct (held_idle s MemorySpace H) as [Er I]. set (s1 := upd_lock MemorySpace false s) in *.
  destruct ((Z.of_nat (length (gcd_map s MemorySpace)) =? N) && negb (p =? 0)) eqn:E.
  - apply wp_get. eapply wp_step; [apply read_entries_run, H|]. eapply wp_step; [exact Er|]. apply wp_ret. split; [done|]. right. apply andb_true_iff in E as [<-%Z.eqb_eq Hp%negb_true_iff%Z.eqb_neq].
    exists p. split; [done|].
    by rewrite (map_length s MemorySpace) by apply H.
  - assert (promotions (gcd_world s) + 2 <= S turns)%nat as Ht' by (destruct Ht as [(_ & -> & Hp)|]; [rewrite Z.eqb_refl in E; lia|done]).
    eapply wp_step; [exact Er|].
    eapply (wp_seq _ _ _ (fun _ s' => idle top s' /\ settles promotions s s')).
    { destruct (negb (p =? 0)); [|apply wp_ret; split; [done|by left]]. destruct (free_law p s1) as (s2 & E2 & W2 & L2 & P2); [apply I|].
      eapply wp_eq; [exact E2|]. split; [|done]. split; [done|]. intros sp. rewrite L2. apply I. }
    cbn beta. intros _ s2 [I2 P2]. destruct (pool_law (Z.of_nat (length (gcd_map s MemorySpace)) * sizeof_MEMORY_DESCRIPTOR) s2)
      as (q & s3 & E3 & W3 & L3 & _ & P3); [apply I2|]. eapply wp_step; [exact E3|].
    assert (idle top s3) as I3 by (split; [done|intros sp; rewrite L3; apply I2]).
    destruct (Z.eqb_spec q 0); [apply wp_ret; split; [done|by left]|]. destruct (idle_held s3 MemorySpace I3) as [Ea H4].
    eapply wp_step; [exact Ea|]. apply IH; [done|]. unfold settles in P2, P3. cbn [gcd_world gcd_map upd_lock].
    destruct P2 as [[Em2 ?]|?], P3 as [[Em3 ?]|?]; [left; rewrite Em3, Em2; split; [lia|by split]|right; lia|right; lia|right; lia].
Qed.

(** The map of the memory space, when there are turns for all promotions. *)
Lemma memory_map_ok s : idle top s -> (promotions (gcd_world s) + 2 <= map_turns)%nat ->
  wp true (CoreGetMemorySpaceMap true true) (fun r s' => listed MemorySpace BuildMemoryDescriptor (fun _ => 0) r s') s.
Proof.
  intros I Ht. destruct (idle_held s MemorySpace I) as [Ea H]. unfold CoreGetMemorySpaceMap. eapply wp_step; [exact Ea|].
  apply map_loop_ok; [done|]. by right.
Qed.
(** The map of the I/O space, which is locked all the time. *)
Lemma io_map_ok s : idle top s ->
  wp true (CoreGetIoSpaceMap true true) (fun r s' => listed IoSpace BuildIoDescriptor (fun s => Z.of_nat (length (entries_of s IoSpace))) r s' /\ entries_of s' IoSpace = entries_of s IoSpace) s.
Proof.
  intros I. destruct (idle_held s IoSpace I) as [Ea H]. unfold CoreGetIoSpaceMap. eapply wp_step; [exact Ea|]. eapply wp_step; [done|].
  set (s1 := upd_lock IoSpace true s) in *.
  destruct (pool_law (Z.of_nat (length (gcd_map s1 IoSpace)) * sizeof_IO_DESCRIPTOR) s1) as (p & s2 & E2 & W2 & L2 & K2 & _); [apply H|].
  eapply wp_step; [exact E2|]. destruct (K2 IoSpace) as [Km Ke]; [by rewrite (proj2 H)|].
  assert (length (gcd_map s1 IoSpace) = length (entries_of s2 IoSpace)) as Hn by (by rewrite <- (map_length s2), Km).
  assert (held IoSpace s2) as H2 by (split; [done|intros sp; rewrite L2; apply H]). destruct (held_idle s2 IoSpace H2) as [Er I2].
  destruct (Z.eqb_spec p 0) as [->|Hp].
  - eapply wp_step; [done|]. eapply wp_step; [exact Er|]. apply wp_ret. split; [split; [done|]|exact Ke]. left. by rewrite Hn.
  - eapply wp_step; [rewrite (Mbind_Ok Mget _ s2 s2 s2 eq_refl), (Mbind_Ok _ _ _ _ _ (read_entries_run s2 IoSpace W2)); done|].
    eapply wp_step; [exact Er|]. apply wp_ret. split; [split; [done|]|exact Ke]. right. exists p. split; [done|].
    by rewrite Hn.
Qed.
End Descriptors.
