(* ===== verification/GcdTheorems.v ===== *)
(** * GcdTheorems: what the global coherency domain guarantees

    Theorems on the services of Gcd.c, in terms of what a map says of an
    address ([space_info]), with a concrete state for each. *)

From stdpp Require Import base option list gmap fin_maps.
From Stdlib Require Import ZArith Lia.
From S2P Require Import Prelude Gcd GcdMap GcdRange GcdState GcdConvert GcdAlloc GcdServices.

Local Open Scope Z_scope.
Local Open Scope edk_scope.

(** ** A bench *)

(** 48 address lines and 16 for I/O; nothing is there.  The world is the list
    of what the CPU protocol and the page allocator have been told; the CPU
    answers. *)
Inductive TOLD : Type :=
| ToldCpu (b l c : Z)
| ToldNew (t b n c : Z)
| ToldUpdate (b n c : Z).
Definition bench_pool (h : gmap Z EFI_GCD_MAP_ENTRY) : Z := 1 + map_fold (fun a _ m => Z.max a m) 0 h.
#[global] Instance gcd_bench : GCD_ENV (list TOLD) := {|
  GcdPool s := Some (bench_pool (gcd_entries s));
  MapPool _ := Mret 1;
  MapFree _ := Mret tt;
  gCpu := Some (fun b l c w => Ok (EFI_SUCCESS, w ++ [ToldCpu b l c]));
  CoreAddMemoryDescriptor t b n c w := Ok (tt, w ++ [ToldNew t b n c]);
  CoreUpdateMemoryAttributes b n c w := Ok (tt, w ++ [ToldUpdate b n c]);
  gDxeCoreImageHandle := 7;
  map_turns := 2
|}.
Definition bench_top (sp : SPACE) : Z := match sp with MemorySpace => 2 ^ 48 - 1 | IoSpace => 2 ^ 16 - 1 end.
Definition bench_state : GCD (list TOLD) :=
  mkGcd (<[1 := set_Range 0 (2 ^ 48 - 1) mGcdMemorySpaceMapEntryTemplate]> (<[2 := set_Range 0 (2 ^ 16 - 1) mGcdIoSpaceMapEntryTemplate]> ∅))
    (fun sp => match sp with MemorySpace => [1] | IoSpace => [2] end) (fun _ => false) false [].

Lemma gcd_bench_pool_fresh h a e : h !! a = Some e -> a < bench_pool h /\ 0 < bench_pool h.
Proof.
  unfold bench_pool. assert (forall h : gmap Z EFI_GCD_MAP_ENTRY, (forall a e, h !! a = Some e -> a <= map_fold (fun a _ m => Z.max a m) 0 h) /\
    0 <= map_fold (fun a _ m => Z.max a m) 0 h) as H.
  { apply (map_fold_weak_ind (fun m h => (forall a e, h !! a = Some e -> a <= m) /\ 0 <= m)); [done|].
    intros i x m r Hi [IH1 IH2]. split; [|lia]. intros a' e' [[-> _]|[_ Ha]]%lookup_insert_Some; [lia|]. specialize (IH1 _ _ Ha). lia. }
  intros Ha. destruct (H h) as [H1 H2]. specialize (H1 a e Ha). lia.
Qed.
Lemma bench_pool_pos h : 0 < bench_pool h.
Proof.
  unfold bench_pool. assert (0 <= map_fold (fun a (_ : EFI_GCD_MAP_ENTRY) m => Z.max a m) 0 h); [|lia].
  apply (map_fold_weak_ind (fun m _ => 0 <= m)); [done|]. intros. lia.
Qed.
#[global] Instance gcd_bench_laws : GCD_LAWS.
Proof.
  split.
  - intros s a [= <-]. pose proof (bench_pool_pos (gcd_entries s)). split; [lia|].
    destruct (gcd_entries s !! bench_pool (gcd_entries s)) as [e|] eqn:E; [|done]. apply gcd_bench_pool_fresh in E. lia.
  - intros F b l c w [= <-]. by eexists _, _.
  - intros. by eexists.
  - intros. by eexists.
Qed.
Lemma bench_never_refuses : ~ pool_refuses (World := list TOLD).
Proof. by intros [s [=]]. Qed.
Lemma bench_narrow : narrow bench_top.
Proof. by intros []. Qed.
Lemma bench_small : small bench_top.
Proof. by intros []. Qed.
Lemma bench_idle : idle bench_top bench_state.
Proof.
  split; [|done]. split; try done.
  - intros []; repeat constructor.
  - intros []; by vm_compute.
  - intros []; by vm_compute.
  - intros []; repeat constructor.
  - repeat constructor; set_solver.
  - intros a [e E]. cbn [bench_state gcd_entries gcd_map] in E |- *.
    apply lookup_insert_Some in E as [[<- _]|[_ [[<- _]|[_ E]]%lookup_insert_Some]]; [set_solver|set_solver|]. by rewrite lookup_empty in E.
Qed.

(** ** Conversion *)

Section Claims.
Context {World : Type} `{Env : !GCD_ENV World} `{Laws : !GCD_LAWS} (top : SPACE -> Z).
Implicit Types s : GCD World.

(** C21 CoreConvertSpace, for every operation and every range that does not
    wrap around: it returns, the locks are as before, both maps are reduced
    lists of entries from 0 to their ends, the other map is the same; a range
    beyond the end gives EFI_UNSUPPORTED, the lowest address that fails the
    checks of the operation gives its status, and the maps change only if
    EFI_SUCCESS is returned.  Then every address of the range has been checked
    and is what the operation makes of it, and no other address has changed
    (for attributes that the CPU does not have, see [Gcd_attributes]); and the
    CPU has been told. *)
Theorem Gcd_convert s op sp ty io b l caps attrs : small top -> gcd_wf top s -> space_of op = Some sp -> gcd_lock s sp = false ->
  0 <= b -> 0 < l -> b + l <= 2 ^ 64 ->
  wp true (CoreConvertSpace op ty io b l caps attrs) (fun st s' => let n := b + l - 1 in let cpu := cpu_attributes op attrs in
    gcd_wf top s' /\ (forall sp', gcd_lock s' sp' = gcd_lock s sp') /\ (forall sp', sp' <> sp -> entries_of s' sp' = entries_of s sp') /\
    (EFI_ERROR st = true -> same_maps s s') /\
    (top sp < n -> st = EFI_UNSUPPORTED) /\
    (forall st', n <= top sp -> refused s sp b n (convert_check op b l caps attrs) st' -> st = st') /\
    (st = EFI_SUCCESS -> told s b l cpu EFI_SUCCESS s' /\ n <= top sp /\ accepted s sp b n (convert_check op b l caps attrs)) /\
    (n <= top sp -> accepted s sp b n (convert_check op b l caps attrs) -> cpu = 0 -> ~ pool_refuses -> st = EFI_SUCCESS) /\
    (st = EFI_SUCCESS -> op <> GCD_SET_ATTRIBUTES_MEMORY_OPERATION \/ cpu <> 0 -> forall y, space_info s' sp y =
       if decide (b <= y <= n) then (fun k => (convert_entry op ty io caps cpu attrs k).1) <$> space_info s sp y
       else space_info s sp y)) s.
Proof.
  intros Sm W Eo Lk Hb Hl Hw. eapply wp_mono; [by apply (convert_space_ok top s op sp)|]. cbn beta zeta. intros st s' C.
  split_and!.
  - apply C.
  - apply C.
  - intros sp' H. by apply (cv_other _ _ _ _ _ _ _ _ _ _ _ _ C).
  - by eapply converted_error.
  - by eapply converted_beyond.
  - intros st'. by eapply converted_refused.
  - intros. eapply converted_told; [exact C|done].
  - intros. eapply converted_done; [exact C|done..].
  - intros -> H. by eapply converted_info.
Qed.

(** CoreSetMemorySpaceAttributes with attributes that the CPU does not
    have: an address of the range gets the new attributes, its own cache and
    access attributes, and also those of every lower address of the range,
    since the variable that keeps them is shared by the entries. *)
Theorem Gcd_attributes s b l attrs : small top -> gcd_wf top s -> gcd_lock s MemorySpace = false ->
  0 <= b -> 0 < l -> b + l <= 2 ^ 64 -> ConverToCpuArchAttributes attrs = 0 ->
  wp true (CoreSetMemorySpaceAttributes b l attrs) (fun st s' => st = EFI_SUCCESS -> forall y k k',
    b <= y <= b + l - 1 -> space_info s MemorySpace y = Some k -> space_info s' MemorySpace y = Some k' ->
    k' = set_Attributes (Attributes k') k /\
    forall i, Z.testbit (Attributes k') i = true <->
      Z.testbit attrs i = true \/
      exists x kx, b <= x <= y /\ space_info s MemorySpace x = Some kx /\ Z.testbit (kept_attributes kx) i = true) s.
Proof.
  intros Sm W Lk Hb Hl Hw Hc. eapply wp_mono; [by apply (convert_space_ok top s _ MemorySpace)|]. cbn beta. intros st s' C -> y k k' Hy Hk Hk'.
  destruct (converted_leak top _ _ _ _ _ _ C Hc) as (ms & (a & z & l1 & lm & l2 & es1 & es2 & L) & I).
  rewrite I, decide_True, Hk in Hk' by done. cbn in Hk'. injection Hk' as <-. split.
  { apply info_elem_inv in Hk as (e & _ & ->). done. }
  intros i. assert (forall x kx, b <= x <= b + l - 1 -> info ms x = Some kx <-> space_info s MemorySpace x = Some kx) as Hi.
  { by apply (located_info top _ _ _ _ _ _ _ _ _ _ _ _ W L). }
  destruct (loc_covers _ _ _ _ _ _ _ _ _ _ _ _ L) as (lo & hi & Ch & H1 & H2 & H3 & _).
  cbn [Attributes set_Attributes kind set_Range].
  rewrite (attributes_leak b (b + l - 1) y i Hy ms attrs lo hi k Ch H3 ltac:(lia) (proj2 (Hi y k Hy) Hk)).
  rewrite (Z.max_l b lo) by lia. split; (intros [H|(x & kx & Hx & Hkx & H)]; [by left|right; exists x, kx]).
  all: split_and!; try done; try lia; by apply Hi; [lia|].
Qed.

(** ** Allocation *)

(** C22 CoreAllocateSpace, with arguments that are in range and addresses
    that do not wrap around: it returns, keeps the invariant of the maps, the
    locks and the other map.  EFI_SUCCESS: the range lies in the space, is
    aligned and free; it is the given one for EfiGcdAllocateAddress, the
    lowest free aligned range below the bound for a search upwards, and for a
    search downwards the highest one in reach ([in_reach]: free, aligned,
    below the bound, and ending in an entry of the map that starts at least
    its length below the bound; entries that start closer to the bound are
    passed over).  Its addresses have the new owner and are else as before,
    like all other addresses.  EFI_NOT_FOUND: the given range is not free and
    aligned, there is no free aligned range below the bound, and for a search
    downwards there is none in reach, which does not exclude a free range that
    ends in an entry close to the bound ([top_down_misses]).
    EFI_OUT_OF_RESOURCES: the pool has no entry.  An error changes nothing. *)
Theorem Gcd_allocate s sp op at_ ty io al l Base image device : small top -> gcd_wf top s ->
  (op = GCD_ALLOCATE_MEMORY_OPERATION \/ op = GCD_ALLOCATE_IO_OPERATION) -> space_of op = Some sp -> gcd_lock s sp = false ->
  0 <= al < 64 -> 0 < l -> 0 <= top sp /\ top sp + 2 ^ al + l < 2 ^ 64 -> 0 <= Base < 2 ^ 64 -> (at_ = EfiGcdAllocateAddress -> Base + l <= 2 ^ 64) ->
  0 <= at_ < EfiGcdMaxAllocateType -> 0 <= ty < EfiGcdMemoryTypeMaximum -> 0 <= io < EfiGcdIoTypeMaximum -> image <> 0 ->
  wp true (CoreAllocateSpace op at_ ty io al l (Some Base) image device) (fun r s' => exists b, r.2 = Some b /\
    gcd_wf top s' /\ (forall sp', gcd_lock s' sp' = gcd_lock s sp') /\ gcd_world s' = gcd_world s /\
    (forall sp', sp' <> sp -> entries_of s' sp' = entries_of s sp') /\
    ((r.1 = EFI_NOT_FOUND /\ no_choice top sp op ty io al l s at_ Base /\ same_maps s s') \/
     (r.1 = EFI_OUT_OF_RESOURCES /\ pool_refuses /\ same_maps s s') \/
     (r.1 = EFI_SUCCESS /\ available top sp op ty io al l s b /\ chosen top sp op ty io al l s at_ Base b /\
        forall y, space_info s' sp y = if decide (b <= y <= b + l - 1) then set_Handles image device <$> space_info s sp y
                                       else space_info s sp y))) s.
Proof.
  intros Sm W Hop Eo Lk Hal Hl Hr HB HA H1 H2 H3 Hi. eapply wp_mono; [by apply (allocate_space_ok top sp op ty io al l)|].
  cbn beta. intros r s' (b & Er & [A1 A2 A3 A3' A4 A5]). exists b. split_and!; try done. intros sp' Hne. by apply A4.
Qed.

(** ** Adding memory *)

(** C24 CoreAddMemorySpace, for memory of the system where nothing was, with at
    least one page and a pool that has entries: EFI_SUCCESS, every address of
    the range has the type and the capabilities (with EFI_MEMORY_RUNTIME), the
    whole pages of the range belong to the DXE core and the rest to nobody,
    all other addresses are as before, and the page allocator has been told of
    just these pages. *)
Theorem Gcd_add s t b l c : narrow top -> gDxeCoreImageHandle <> 0 -> idle top s ->
  (t = EfiGcdMemoryTypeSystemMemory \/ t = EfiGcdMemoryTypeMoreReliable) ->
  0 <= b -> align_up 12 b + EFI_PAGE_SIZE <= b + l -> b + l - 1 <= top MemorySpace -> ~ pool_refuses ->
  (forall y k, b <= y <= b + l - 1 -> space_info s MemorySpace y = Some k ->
     GcdMemoryType k = EfiGcdMemoryTypeNonExistent /\ ImageHandle k = 0 /\ DeviceHandle k = 0) ->
  wp true (CoreAddMemorySpace t b l c) (fun st s' => let p := align_up 12 b in let len := align_down 12 (b + l - p) in
    st = EFI_SUCCESS /\ idle top s' /\
    CoreAddMemoryDescriptor EfiConventionalMemory p (len / EFI_PAGE_SIZE) c (gcd_world s) = Ok (tt, gcd_world s') /\
    (forall y, space_info s' MemorySpace y =
       if decide (b <= y <= b + l - 1)
       then added_entry t c (if decide (p <= y < p + len) then gDxeCoreImageHandle else 0) <$> space_info s MemorySpace y
       else space_info s MemorySpace y) /\
    (forall y, space_info s' IoSpace y = space_info s IoSpace y)) s.
Proof. intros. by apply add_memory_ok. Qed.

(** ** Histories *)

(** A call of one of the services. *)
Inductive CALL : Type :=
| AddMemory (t b l c : Z)
| AllocateMemory (at_ ty al l : Z) (b : option Z) (img dev : Z)
| FreeMemory (b l : Z)
| RemoveMemory (b l : Z)
| SetAttributes (b l a : Z)
| SetCapabilities (b l c : Z)
| MemoryDescriptor (x : Z)
| MemoryMap
| AddIo (t b l : Z)
| AllocateIo (at_ io al l : Z) (b : option Z) (img dev : Z)
| FreeIo (b l : Z)
| RemoveIo (b l : Z)
| IoDescriptor (x : Z)
| IoMap.
Definition ignore {A} (c : M (GCD World) A) : M (GCD World) unit := c ;;; Mret tt.
Definition run_call (c : CALL) : M (GCD World) unit :=
  match c with
  | AddMemory t b l c => ignore (CoreAddMemorySpace t b l c)
  | AllocateMemory at_ ty al l b img dev => ignore (CoreAllocateMemorySpace at_ ty al l b img dev)
  | FreeMemory b l => ignore (CoreFreeMemorySpace b l)
  | RemoveMemory b l => ignore (CoreRemoveMemorySpace b l)
  | SetAttributes b l a => ignore (CoreSetMemorySpaceAttributes b l a)
  | SetCapabilities b l c => ignore (CoreSetMemorySpaceCapabilities b l c)
  | MemoryDescriptor x => ignore (CoreGetMemorySpaceDescriptor x true)
  | MemoryMap => ignore (CoreGetMemorySpaceMap true true)
  | AddIo t b l => ignore (CoreAddIoSpace t b l)
  | AllocateIo at_ io al l b img dev => ignore (CoreAllocateIoSpace at_ io al l b img dev)
  | FreeIo b l => ignore (CoreFreeIoSpace b l)
  | RemoveIo b l => ignore (CoreRemoveIoSpace b l)
  | IoDescriptor x => ignore (CoreGetIoSpaceDescriptor x true)
  | IoMap => ignore (CoreGetIoSpaceMap true true)
  end.
Fixpoint run_calls (l : list CALL) : M (GCD World) unit :=
  match l with
  | [] => Mret tt
  | c :: l' => run_call c ;;; run_calls l'
  end.
(** No address of the arguments wraps around. *)
Definition tame_call (c : CALL) : Prop :=
  match c with
  | AddMemory t b l c => plain b l /\ align_up 12 b <= b + l
  | AllocateMemory at_ ty al l b img dev => 0 <= at_ < 2 ^ 32 /\ 0 <= ty < 2 ^ 32 /\ tame at_ al l b
  | AllocateIo at_ io al l b img dev => 0 <= at_ < 2 ^ 32 /\ 0 <= io < 2 ^ 32 /\ tame at_ al l b
  | FreeMemory b l | RemoveMemory b l | SetAttributes b l _ | SetCapabilities b l _ => plain b l
  | AddIo _ b l | FreeIo b l | RemoveIo b l => plain b l
  | MemoryDescriptor x | IoDescriptor x => 0 <= x < 2 ^ 64
  | MemoryMap | IoMap => True
  end.

Section History.
Context `{Pool : !MAP_LAWS top}.
Hypothesis lines : narrow top.
Hypothesis image : gDxeCoreImageHandle <> 0.
Hypothesis turns : forall w, (promotions top w + 2 <= map_turns)%nat.

Lemma keeps_ignore {A} (c : M (GCD World) A) : keeps top c -> keeps top (ignore c).
Proof. intros H. apply gcd_keeps_bind; [done|]. intros x. apply gcd_keeps_ret. Qed.
Lemma as_before_idle s s' : idle top s -> as_before s s' -> idle top s'.
Proof.
  intros [W L] (E1 & E2 & E3 & E4 & E5). split; [|intros sp; by rewrite E3]. destruct s, s'. cbn in *. subst. by destruct W.
Qed.
Lemma keeps_descriptors {D} sp (build : ENTRY -> D) x : 0 <= x < 2 ^ 64 -> keeps top (World := World) (get_descriptor sp build x).
Proof.
  intros Hx s I. pose proof I as [W L]. eapply wp_mono; [by apply (get_descriptor_ok top s sp build x W (L sp))|]. cbn beta. intros r s' [_ B].
  by apply (as_before_idle s).
Qed.
Lemma keeps_call c : tame_call c -> keeps top (run_call c).
Proof.
  destruct c; cbn [tame_call run_call]; intros H; apply keeps_ignore.
  - destruct H. by apply keeps_add_memory.
  - destruct H as (? & ? & ?). by apply keeps_allocate_memory.
  - by apply keeps_free_memory.
  - by apply keeps_remove_memory.
  - by apply keeps_attributes.
  - by apply keeps_capabilities.
  - by apply (keeps_descriptors MemorySpace BuildMemoryDescriptor).
  - intros s I. eapply wp_mono; [by apply (memory_map_ok top)|]. by intros r s' [? _].
  - by apply keeps_add_io.
  - destruct H as (? & ? & ?). by apply keeps_allocate_io.
  - by apply keeps_free_io.
  - by apply keeps_remove_io.
  - by apply (keeps_descriptors IoSpace BuildIoDescriptor).
  - intros s I. eapply wp_mono; [by apply (io_map_ok top)|]. by intros r s' [[? _] _].
Qed.
Lemma keeps_calls calls : Forall tame_call calls -> keeps top (run_calls calls).
Proof. induction 1 as [|c calls Hc H IH]; [apply gcd_keeps_ret|]. apply gcd_keeps_bind; [by apply keeps_call|done]. Qed.

(** C23 Any sequence of calls of the services, with arguments that do not wrap
    around, runs to its end: no assertion fails, no entry is used that has been
    freed, no loop runs out of turns.  Afterwards the locks are free, every
    entry that is allocated is on one of the maps, and each map is a list of
    entries from 0 to the end of its space, without gaps or overlaps and
    without neighbours that could be merged: it says something of exactly the
    addresses of the space. *)
Theorem Gcd_safe calls s : idle top s -> Forall tame_call calls ->
  wp true (run_calls calls) (fun _ s' => idle top s' /\ forall sp y, is_Some (space_info s' sp y) <-> 0 <= y <= top sp) s.
Proof.
  intros I H. eapply wp_mono; [by apply keeps_calls|]. cbn beta. intros _ s' I'. split; [done|]. intros sp y. apply info_range. apply I'.
Qed.

(** The services that read the maps change nothing else: the descriptor
    of an address is that of the entry with the address, or EFI_NOT_FOUND
    beyond the end; the descriptors of a map are those of all its entries, in
    order, as the map is when the call returns, and they are determined by what
    the map says of the addresses.  The loop of CoreGetMemorySpaceMap, which
    counts again after the pool has been called, ends. *)
Theorem Gcd_descriptors s x : idle top s -> 0 <= x < 2 ^ 64 ->
  wp true (CoreGetMemorySpaceDescriptor x true) (fun r s' => described top s MemorySpace BuildMemoryDescriptor x r /\ as_before s s') s /\
  wp true (CoreGetIoSpaceDescriptor x true) (fun r s' => described top s IoSpace BuildIoDescriptor x r /\ as_before s s') s /\
  wp true (CoreGetMemorySpaceMap true true) (fun r s' => listed top MemorySpace BuildMemoryDescriptor (fun _ => 0) r s') s /\
  wp true (CoreGetIoSpaceMap true true) (fun r s' =>
    listed top IoSpace BuildIoDescriptor (fun s => Z.of_nat (length (entries_of s IoSpace))) r s' /\ entries_of s' IoSpace = entries_of s IoSpace) s /\
  forall sp s', gcd_wf top s' -> (forall y, space_info s' sp y = space_info s sp y) -> entries_of s' sp = entries_of s sp.
Proof.
  intros I Hx. pose proof I as [W L]. split_and!.
  - by apply (get_descriptor_ok top s MemorySpace BuildMemoryDescriptor).
  - by apply (get_descriptor_ok top s IoSpace BuildIoDescriptor).
  - by apply (memory_map_ok top).
  - by apply (io_map_ok top).
  - intros sp s' W' E. apply (chain_canonical _ _ 0 (top sp)); try done; first [by apply wf_chain|by apply (wf_reduced top)].
Qed.
End History.
End Claims.

(** ** Witnesses *)

#[global] Instance gcd_bench_pool : MAP_LAWS bench_top (World := list TOLD).
Proof.
  refine {| promotions := fun _ => 0%nat |}.
  - intros n s W. exists 1, s. split_and!; try done. by left.
  - intros p s W. exists s. split_and!; try done. by left.
Defined.

Lemma bench_image : gDxeCoreImageHandle (World := list TOLD) <> 0.
Proof. done. Qed.
Lemma bench_turns (w : list TOLD) : (promotions bench_top w + 2 <= map_turns)%nat.
Proof. cbn. lia. Qed.

Definition status_of {S A} (r : outcome (A * S)) : option A := match r with Ok (a, _) => Some a | _ => None end.
Lemma status_eq {S A} (r : outcome (A * S)) a a' s : r = Ok (a, s) -> status_of r = Some a' -> a = a'.
Proof. intros ->. by intros [= ->]. Qed.

(** 0x3000 bytes of memory-mapped I/O from 0x1000 on. *)
Lemma Gcd_convert_witness : exists s', CoreConvertSpace GCD_ADD_MEMORY_OPERATION EfiGcdMemoryTypeMemoryMappedIo 0 0x1000 0x3000 EFI_MEMORY_UC 0 bench_state =
    Ok (EFI_SUCCESS, s') /\ gcd_wf bench_top s' /\ space_info s' MemorySpace 0x4000 = Some mGcdMemorySpaceMapEntryTemplate /\
    GcdMemoryType <$> space_info s' MemorySpace 0x3FFF = Some EfiGcdMemoryTypeMemoryMappedIo.
Proof.
  destruct bench_idle as [W L].
  pose proof (Gcd_convert bench_top bench_state GCD_ADD_MEMORY_OPERATION MemorySpace EfiGcdMemoryTypeMemoryMappedIo 0 0x1000 0x3000 EFI_MEMORY_UC 0
    bench_small W eq_refl eq_refl ltac:(lia) ltac:(lia) ltac:(lia)) as H.
  apply wp_total in H as (st & s' & E & W' & _ & _ & _ & _ & _ & _ & _ & I).
  assert (st = EFI_SUCCESS) as -> by (apply (status_eq _ _ _ _ E); vm_compute; reflexivity).
  exists s'. split; [exact E|]. split; [exact W'|]. specialize (I eq_refl ltac:(by left)). by rewrite !I.
Defined.

(** Two ranges of memory-mapped I/O; the first is uncached, the second cannot
    be. *)
Definition leak_calls : list CALL :=
  [AddMemory EfiGcdMemoryTypeMemoryMappedIo 0x1000 0x1000 EFI_MEMORY_UC; AddMemory EfiGcdMemoryTypeMemoryMappedIo 0x2000 0x1000 EFI_MEMORY_WB;
   SetAttributes 0x1000 0x1000 EFI_MEMORY_UC].
Definition leak_state : GCD (list TOLD) := match run_calls leak_calls bench_state with Ok (_, s) => s | _ => bench_state end.
Lemma leak_calls_tame : Forall tame_call leak_calls.
Proof. repeat constructor; unfold plain; by vm_compute. Qed.
Lemma leak_idle : idle bench_top leak_state.
Proof.
  destruct (wp_total _ _ _ (keeps_calls bench_top bench_narrow bench_image bench_turns _ leak_calls_tame _ bench_idle)) as (x & s' & E & I).
  unfold leak_state. by rewrite E.
Qed.
Definition seen {S A B} (f : S -> B) (r : outcome (A * S)) : option B := match r with Ok (_, s) => Some (f s) | _ => None end.
Lemma seen_eq {S A B} (f : S -> B) (r : outcome (A * S)) a s b : r = Ok (a, s) -> seen f r = Some b -> f s = b.
Proof. intros ->. by intros [= ->]. Qed.

(** The second range has the attribute that it cannot have. *)
Lemma Gcd_attributes_witness : exists s' k', CoreSetMemorySpaceAttributes 0x1000 0x2000 EFI_MEMORY_RUNTIME leak_state = Ok (EFI_SUCCESS, s') /\
  space_info s' MemorySpace 0x2000 = Some k' /\ Z.testbit (Attributes k') 0 = true /\ Z.testbit (Capabilities k') 0 = false.
Proof.
  destruct leak_idle as [W L]. pose proof (Gcd_attributes bench_top leak_state 0x1000 0x2000 EFI_MEMORY_RUNTIME bench_small W (L MemorySpace)
    ltac:(lia) ltac:(lia) ltac:(lia) eq_refl) as H. apply wp_total in H as (st & s' & E & H).
  assert (st = EFI_SUCCESS) as -> by (apply (status_eq _ _ _ _ E); vm_compute; reflexivity).
  assert (exists k', space_info s' MemorySpace 0x2000 = Some k' /\ Z.testbit (Capabilities k') 0 = false) as (k' & Ek & Ec).
  { eexists. split; [apply (seen_eq (fun s => space_info s MemorySpace 0x2000) _ _ _ _ E); vm_compute; reflexivity|reflexivity]. }
  exists s', k'. split; [exact E|]. split; [exact Ek|]. split; [|exact Ec]. destruct (space_info leak_state MemorySpace 0x2000) as [k|] eqn:Es; [|vm_compute in Es; done].
  destruct (H eq_refl 0x2000 k k' ltac:(lia) Es Ek) as [_ Hb]. apply Hb. right.
  exists 0x1000. eexists. split; [lia|]. split; [vm_compute; reflexivity|reflexivity].
Defined.

(** 0x800 bytes of the first range, below 0x3000. *)
Lemma Gcd_allocate_witness : exists s', CoreAllocateSpace GCD_ALLOCATE_MEMORY_OPERATION EfiGcdAllocateMaxAddressSearchBottomUp
    EfiGcdMemoryTypeMemoryMappedIo 0 11 0x800 (Some 0x2FFF) 9 0 leak_state = Ok ((EFI_SUCCESS, Some 0x1000), s') /\
  gcd_wf bench_top s' /\ ImageHandle <$> space_info s' MemorySpace 0x17FF = Some 9 /\ ImageHandle <$> space_info s' MemorySpace 0x1800 = Some 0.
Proof.
  destruct leak_idle as [W L]. pose proof (Gcd_allocate bench_top leak_state MemorySpace GCD_ALLOCATE_MEMORY_OPERATION
    EfiGcdAllocateMaxAddressSearchBottomUp EfiGcdMemoryTypeMemoryMappedIo 0 11 0x800 0x2FFF 9 0 bench_small W (or_introl eq_refl) eq_refl (L MemorySpace)
    ltac:(lia) ltac:(lia) ltac:(cbn; lia) ltac:(lia) ltac:(lia) ltac:(by cbn) ltac:(by cbn) ltac:(by cbn) ltac:(lia)) as H.
  apply wp_total in H as (r & s' & E & b & Eb & W' & _ & _ & _ & H).
  assert (r = (EFI_SUCCESS, Some 0x1000)) as -> by (apply (status_eq _ _ _ _ E); vm_compute; reflexivity).
  injection Eb as <-. destruct H as [([=] & _)|[([=] & _)|(_ & _ & _ & I)]]. exists s'. split; [exact E|]. split; [exact W'|].
  rewrite !I. split; vm_compute; reflexivity.
Defined.

(** 0x3000 bytes of memory from 0x1800 on, with two whole pages. *)
Lemma Gcd_add_witness : exists s', CoreAddMemorySpace EfiGcdMemoryTypeSystemMemory 0x1800 0x3000 EFI_MEMORY_WB bench_state = Ok (EFI_SUCCESS, s') /\
  gcd_world s' = [ToldNew EfiConventionalMemory 0x2000 2 EFI_MEMORY_WB] /\
  ImageHandle <$> space_info s' MemorySpace 0x3FFF = Some 7 /\ ImageHandle <$> space_info s' MemorySpace 0x47FF = Some 0.
Proof.
  pose proof (Gcd_add bench_top bench_state EfiGcdMemoryTypeSystemMemory 0x1800 0x3000 EFI_MEMORY_WB bench_narrow bench_image bench_idle
    (or_introl eq_refl) ltac:(lia) ltac:(by vm_compute) ltac:(by vm_compute) bench_never_refuses) as H.
  assert (forall y k, 0x1800 <= y <= 0x1800 + 0x3000 - 1 -> space_info bench_state MemorySpace y = Some k ->
    GcdMemoryType k = EfiGcdMemoryTypeNonExistent /\ ImageHandle k = 0 /\ DeviceHandle k = 0) as Hf.
  { intros y k Hy (e & He & ->)%info_elem_inv. apply list_elem_of_singleton in He as ->. clear. by split_and!. }
  apply wp_total in H as (st & s' & E & -> & _ & Ew & I & _); [|exact Hf]. exists s'. split; [exact E|]. split; [by injection Ew as <-|].
  rewrite !I. split; vm_compute; reflexivity.
Defined.

(** Memory is added, allocated, freed and removed, and both maps are read. *)
Definition day : list CALL :=
  [AddMemory EfiGcdMemoryTypeSystemMemory 0x1800 0x3000 EFI_MEMORY_WB; AddIo EfiGcdIoTypeIo 0x60 5;
   AllocateMemory EfiGcdAllocateAnySearchTopDown EfiGcdMemoryTypeSystemMemory 4 0x100 (Some 0) 9 0;
   SetCapabilities 0x2000 0x1000 EFI_MEMORY_WB; FreeMemory 0x2000 0x2000; RemoveMemory 0x1800 0x3000; IoMap; MemoryMap].
Lemma day_tame : Forall tame_call day.
Proof.
  assert (tame EfiGcdAllocateAnySearchTopDown 4 0x100 (Some 0)) as H by (split_and!; [left; lia|lia|lia|]; by intros x [= <-]).
  repeat apply Forall_cons_2; try apply Forall_nil_2; cbn [tame_call]; unfold plain; split_and?; first [exact H|exact I|by vm_compute].
Qed.
Lemma Gcd_safe_witness : exists s', run_calls day bench_state = Ok (tt, s') /\ idle bench_top s' /\ is_Some (space_info s' MemorySpace 0x2000).
Proof.
  destruct (wp_total _ _ _ (Gcd_safe bench_top bench_narrow bench_image bench_turns day bench_state bench_idle day_tame)) as ([] & s' & E & I & H).
  exists s'. split; [exact E|]. split; [exact I|]. apply H. unfold bench_top. lia.
Defined.

Lemma Gcd_descriptors_witness : exists s', CoreGetMemorySpaceDescriptor 0x2000 true leak_state =
    Ok ((EFI_SUCCESS, Some (mkMemoryDescriptor 0x2000 0x1000 0xC000000000000008 0 EfiGcdMemoryTypeMemoryMappedIo 0 0)), s') /\ as_before leak_state s'.
Proof.
  destruct (Gcd_descriptors bench_top bench_turns leak_state 0x2000 leak_idle ltac:(lia)) as [H _].
  apply wp_total in H as (r & s' & E & _ & B). exists s'. split; [|exact B].
  rewrite E. do 2 f_equal. apply (status_eq _ _ _ _ E). vm_compute. reflexivity.
Defined.

(** ** At the edges *)

Definition ranges (s : GCD (list TOLD)) : list (Z * Z) := map (fun e => (BaseAddress e, EndAddress e)) (entries_of s MemorySpace).
(** Nothing checks that BaseAddress + Length does not wrap around: a range from
    0x3000 on whose last address is 0x1FFF is accepted where one entry has both
    addresses, and the entries of the map overlap afterwards. *)
Example wrap_corrupts :
  let r := CoreConvertSpace GCD_ADD_MEMORY_OPERATION EfiGcdMemoryTypeReserved 0 0x3000 (2 ^ 64 - 0x1000) 0 0 bench_state in
  status_of r = Some EFI_SUCCESS /\ seen ranges r = Some [(0, 0x2FFF); (0x3000, 0x1FFF); (0x2000, 2 ^ 48 - 1)].
Proof. vm_compute. by split. Qed.

(** A search downwards does not find a range that ends at the bound and starts
    where an entry does; a search upwards finds it. *)
Example top_down_misses : let try_ at_ := status_of (CoreAllocateSpace GCD_ALLOCATE_MEMORY_OPERATION at_ EfiGcdMemoryTypeMemoryMappedIo 0 12 0x1000
    (Some 0x1FFF) 9 0 leak_state) in
  try_ EfiGcdAllocateMaxAddressSearchTopDown = Some (EFI_NOT_FOUND, Some 0x1FFF) /\
  try_ EfiGcdAllocateMaxAddressSearchBottomUp = Some (EFI_SUCCESS, Some 0x1000).
Proof. vm_compute. by split. Qed.

(** Both directions below 0x2FFF, where 0x1000 to 0x2FFF is free. *)
Example two_directions : let try_ at_ := status_of (CoreAllocateSpace GCD_ALLOCATE_MEMORY_OPERATION at_ EfiGcdMemoryTypeMemoryMappedIo 0 11 0x800
    (Some 0x2FFF) 9 0 leak_state) in
  try_ EfiGcdAllocateMaxAddressSearchTopDown = Some (EFI_SUCCESS, Some 0x2800) /\
  try_ EfiGcdAllocateMaxAddressSearchBottomUp = Some (EFI_SUCCESS, Some 0x1000).
Proof. vm_compute. by split. Qed.

(** Memory without a whole page is added, and CoreAddMemorySpace returns an
    error; a range that does not reach its first page has 2^52 - 1 of them. *)
Example part_of_a_page :
  let r := CoreAddMemorySpace EfiGcdMemoryTypeSystemMemory 0x1000 0x800 EFI_MEMORY_WB bench_state in
  status_of r = Some EFI_INVALID_PARAMETER /\ seen ranges r = Some [(0, 0xFFF); (0x1000, 0x17FF); (0x1800, 2 ^ 48 - 1)].
Proof. vm_compute. by split. Qed.
Example page_underflow : page_range 0x1001 0x10 = (0x2000, 2 ^ 64 - 0x1000).
Proof. reflexivity. Qed.

(** A call with arguments out of range changes nothing. *)
Example bad_arguments : forall (s : GCD (list TOLD)) b,
  CoreAllocateSpace GCD_ALLOCATE_MEMORY_OPERATION EfiGcdMaxAllocateType 0 0 0 1 b 9 0 s = Ok ((EFI_INVALID_PARAMETER, b), s) /\
  CoreAllocateSpace GCD_ALLOCATE_MEMORY_OPERATION 0 0 0 0 1 None 9 0 s = Ok ((EFI_INVALID_PARAMETER, None), s) /\
  CoreConvertSpace GCD_FREE_MEMORY_OPERATION 0 0 0x1000 0 0 0 s = Ok (EFI_INVALID_PARAMETER, s) /\
  CoreAddMemorySpace EfiGcdMemoryTypeNonExistent 0 1 0 s = Ok (EFI_INVALID_PARAMETER, s).
Proof. done. Qed.
