(* ===== verification/GcdInit.v ===== *)
(** * GcdInit: from the hand-off blocks to the maps

    The initialisation in MdeModulePkg/Core/Dxe/Gcd/Gcd.c.  The phase before
    the DXE core leaves a list of hand-off blocks (HOBs) that say which memory
    and I/O there is, what of it is in use and where the list itself is.
    CoreInitializeMemoryServices chooses the first region of memory for the
    page allocator; CoreInitializeGcdServices makes the maps, adds what the
    list describes, allocates what is in use, and gives the rest of the system
    memory to the page allocator.

    The list is the list of its blocks, with the fields that the functions
    read, without the end marker. *)

From stdpp Require Import base option list gmap fin_maps.
From Stdlib Require Import ZArith Lia.
From S2P Require Import Prelude Gcd.

Local Open Scope Z_scope.
Local Open Scope edk_scope.

(** ** Constants *)

Definition EFI_RESOURCE_SYSTEM_MEMORY : Z := 0.
Definition EFI_RESOURCE_MEMORY_MAPPED_IO : Z := 1.
Definition EFI_RESOURCE_IO : Z := 2.
Definition EFI_RESOURCE_FIRMWARE_DEVICE : Z := 3.
Definition EFI_RESOURCE_MEMORY_MAPPED_IO_PORT : Z := 4.
Definition EFI_RESOURCE_MEMORY_RESERVED : Z := 5.
Definition EFI_RESOURCE_IO_RESERVED : Z := 6.

Definition EFI_RESOURCE_ATTRIBUTE_PRESENT : Z := 0x1.
Definition EFI_RESOURCE_ATTRIBUTE_INITIALIZED : Z := 0x2.
Definition EFI_RESOURCE_ATTRIBUTE_TESTED : Z := 0x4.
Definition EFI_RESOURCE_ATTRIBUTE_READ_PROTECTED : Z := 0x80.
Definition EFI_RESOURCE_ATTRIBUTE_WRITE_PROTECTED : Z := 0x100.
Definition EFI_RESOURCE_ATTRIBUTE_EXECUTION_PROTECTED : Z := 0x200.
Definition EFI_RESOURCE_ATTRIBUTE_UNCACHEABLE : Z := 0x400.
Definition EFI_RESOURCE_ATTRIBUTE_WRITE_COMBINEABLE : Z := 0x800.
Definition EFI_RESOURCE_ATTRIBUTE_WRITE_THROUGH_CACHEABLE : Z := 0x1000.
Definition EFI_RESOURCE_ATTRIBUTE_WRITE_BACK_CACHEABLE : Z := 0x2000.
Definition EFI_RESOURCE_ATTRIBUTE_16_BIT_IO : Z := 0x4000.
Definition EFI_RESOURCE_ATTRIBUTE_32_BIT_IO : Z := 0x8000.
Definition EFI_RESOURCE_ATTRIBUTE_64_BIT_IO : Z := 0x10000.
Definition EFI_RESOURCE_ATTRIBUTE_UNCACHED_EXPORTED : Z := 0x20000.
Definition EFI_RESOURCE_ATTRIBUTE_READ_ONLY_PROTECTED : Z := 0x40000.
Definition EFI_RESOURCE_ATTRIBUTE_READ_ONLY_PROTECTABLE : Z := 0x80000.
Definition EFI_RESOURCE_ATTRIBUTE_READ_PROTECTABLE : Z := 0x100000.
Definition EFI_RESOURCE_ATTRIBUTE_WRITE_PROTECTABLE : Z := 0x200000.
Definition EFI_RESOURCE_ATTRIBUTE_EXECUTION_PROTECTABLE : Z := 0x400000.
Definition EFI_RESOURCE_ATTRIBUTE_PERSISTENT : Z := 0x800000.
Definition EFI_RESOURCE_ATTRIBUTE_PERSISTABLE : Z := 0x1000000.
Definition EFI_RESOURCE_ATTRIBUTE_MORE_RELIABLE : Z := 0x2000000.

Definition any_of (l : list Z) : Z := foldr Z.lor 0 l.
Definition TESTED_MEMORY_ATTRIBUTES : Z :=
  any_of [EFI_RESOURCE_ATTRIBUTE_PRESENT; EFI_RESOURCE_ATTRIBUTE_INITIALIZED; EFI_RESOURCE_ATTRIBUTE_TESTED].
Definition INITIALIZED_MEMORY_ATTRIBUTES : Z := any_of [EFI_RESOURCE_ATTRIBUTE_PRESENT; EFI_RESOURCE_ATTRIBUTE_INITIALIZED].
Definition PRESENT_MEMORY_ATTRIBUTES : Z := EFI_RESOURCE_ATTRIBUTE_PRESENT.
Definition RESOURCE_ATTRIBUTE_MASK : Z :=
  any_of [EFI_RESOURCE_ATTRIBUTE_PRESENT; EFI_RESOURCE_ATTRIBUTE_INITIALIZED; EFI_RESOURCE_ATTRIBUTE_TESTED;
    EFI_RESOURCE_ATTRIBUTE_READ_PROTECTED; EFI_RESOURCE_ATTRIBUTE_WRITE_PROTECTED; EFI_RESOURCE_ATTRIBUTE_EXECUTION_PROTECTED;
    EFI_RESOURCE_ATTRIBUTE_READ_ONLY_PROTECTED; EFI_RESOURCE_ATTRIBUTE_16_BIT_IO; EFI_RESOURCE_ATTRIBUTE_32_BIT_IO;
    EFI_RESOURCE_ATTRIBUTE_64_BIT_IO; EFI_RESOURCE_ATTRIBUTE_PERSISTENT].

Definition MINIMUM_INITIAL_MEMORY_SIZE : Z := 0x10000.
Definition MAX_ALLOC_ADDRESS : Z := 2 ^ 64 - 1.
Definition EfiMaxMemoryType : Z := 15.

(** ** Hand-off blocks *)

Inductive HOB : Type :=
| HobHandoff (EfiMemoryTop EfiFreeMemoryTop EfiFreeMemoryBottom : Z)
| HobResource (ResourceType ResourceAttribute PhysicalStart ResourceLength : Z)
| HobMemory (MemoryBaseAddress MemoryLength MemoryType : Z)
| HobFv (FvBase FvLength : Z)
| HobCpu (SizeOfMemorySpace SizeOfIoSpace : Z)
| HobTypeInformation (data : list (Z * Z))
| HobOther.

(** ** Attributes *)

(** The conditions that are asserted. *)
Definition protected_ok (Attributes_ protected protectable : Z) : bool :=
  (Z.land Attributes_ protected =? 0) || negb (Z.land Attributes_ protectable =? 0).
Definition CoreValidateResourceDescriptorHobAttributes (Attributes_ : Z) : bool :=
  protected_ok Attributes_ EFI_RESOURCE_ATTRIBUTE_READ_PROTECTED EFI_RESOURCE_ATTRIBUTE_READ_PROTECTABLE &&
  protected_ok Attributes_ EFI_RESOURCE_ATTRIBUTE_WRITE_PROTECTED EFI_RESOURCE_ATTRIBUTE_WRITE_PROTECTABLE &&
  protected_ok Attributes_ EFI_RESOURCE_ATTRIBUTE_EXECUTION_PROTECTED EFI_RESOURCE_ATTRIBUTE_EXECUTION_PROTECTABLE &&
  protected_ok Attributes_ EFI_RESOURCE_ATTRIBUTE_READ_ONLY_PROTECTED EFI_RESOURCE_ATTRIBUTE_READ_ONLY_PROTECTABLE &&
  protected_ok Attributes_ EFI_RESOURCE_ATTRIBUTE_PERSISTENT EFI_RESOURCE_ATTRIBUTE_PERSISTABLE.

(** Attribute, Capability and Memory of each row. *)
Definition mAttributeConversionTable : list (Z * Z * bool) :=
  [(EFI_RESOURCE_ATTRIBUTE_UNCACHEABLE, EFI_MEMORY_UC, true);
   (EFI_RESOURCE_ATTRIBUTE_UNCACHED_EXPORTED, EFI_MEMORY_UCE, true);
   (EFI_RESOURCE_ATTRIBUTE_WRITE_COMBINEABLE, EFI_MEMORY_WC, true);
   (EFI_RESOURCE_ATTRIBUTE_WRITE_THROUGH_CACHEABLE, EFI_MEMORY_WT, true);
   (EFI_RESOURCE_ATTRIBUTE_WRITE_BACK_CACHEABLE, EFI_MEMORY_WB, true);
   (EFI_RESOURCE_ATTRIBUTE_READ_PROTECTABLE, EFI_MEMORY_RP, true);
   (EFI_RESOURCE_ATTRIBUTE_WRITE_PROTECTABLE, EFI_MEMORY_WP, true);
   (EFI_RESOURCE_ATTRIBUTE_EXECUTION_PROTECTABLE, EFI_MEMORY_XP, true);
   (EFI_RESOURCE_ATTRIBUTE_READ_ONLY_PROTECTABLE, EFI_MEMORY_RO, true);
   (EFI_RESOURCE_ATTRIBUTE_PRESENT, EFI_MEMORY_PRESENT, false);
   (EFI_RESOURCE_ATTRIBUTE_INITIALIZED, EFI_MEMORY_INITIALIZED, false);
   (EFI_RESOURCE_ATTRIBUTE_TESTED, EFI_MEMORY_TESTED, false);
   (EFI_RESOURCE_ATTRIBUTE_PERSISTABLE, EFI_MEMORY_NV, true);
   (EFI_RESOURCE_ATTRIBUTE_MORE_RELIABLE, EFI_MEMORY_MORE_RELIABLE, true)].

(** EfiGcdMemoryTypeSystemMemory or EfiGcdMemoryTypeMoreReliable *)
Definition is_system (GcdMemoryType_ : Z) : bool :=
  (GcdMemoryType_ =? EfiGcdMemoryTypeSystemMemory) || (GcdMemoryType_ =? EfiGcdMemoryTypeMoreReliable).
Definition CoreConvertResourceDescriptorHobAttributesToCapabilities (GcdMemoryType_ Attributes_ : Z) : Z :=
  fold_left (fun Capabilities_ '(Attribute, Capability, Memory_) =>
    if Memory_ || negb (is_system GcdMemoryType_) then
      if negb (Z.land Attributes_ Attribute =? 0) then Z.lor Capabilities_ Capability else Capabilities_
    else Capabilities_) mAttributeConversionTable 0.

(** ** The first region *)

(** The loop over gMemoryTypeInformation: Type and NumberOfPages of each
    entry.  There is no terminator if the array has been overwritten. *)
Fixpoint CalculateTotalMemoryBinSizeNeeded (info : list (Z * Z)) (TotalSize : Z) : outcome Z :=
  match info with
  | [] => Fault
  | (Type_, NumberOfPages) :: info' =>
      if Type_ =? EfiMaxMemoryType then Ok TotalSize
      else CalculateTotalMemoryBinSizeNeeded info' (wrapU 64 (TotalSize + wrapU 64 (Z.shiftl NumberOfPages EFI_PAGE_SHIFT)))
  end.

(** [MemoryHob] is the first block of [hobs] for allocated memory.  *BaseAddress
    and *Length. *)
Fixpoint FindLargestFreeRegion (hobs : list HOB) (Base Length : Z) : Z * Z :=
  match hobs with
  | [] => (Base, Length)
  | HobMemory MemoryBaseAddress MemoryLength _ :: hobs' =>
      let TopAddress := wrapU 64 (Base + Length) in
      let AllocatedTop := wrapU 64 (MemoryBaseAddress + MemoryLength) in
      if (Base <=? MemoryBaseAddress) && (AllocatedTop <=? TopAddress) then
        let LowerSize := wrapU 64 (MemoryBaseAddress - Base) in
        let UpperSize := wrapU 64 (TopAddress - AllocatedTop) in
        let Lower := if LowerSize =? 0 then (Base, LowerSize) else FindLargestFreeRegion hobs' Base LowerSize in
        let Upper := if UpperSize =? 0 then (AllocatedTop, UpperSize) else FindLargestFreeRegion hobs' AllocatedTop UpperSize in
        if Lower.2 <=? Upper.2 then Upper else Lower
      else FindLargestFreeRegion hobs' Base Length
  | _ :: hobs' => FindLargestFreeRegion hobs' Base Length
  end.

(** Tested system memory. *)
Definition is_tested (ResourceType ResourceAttribute : Z) : bool :=
  (ResourceType =? EFI_RESOURCE_SYSTEM_MEMORY) && (Z.land ResourceAttribute RESOURCE_ATTRIBUTE_MASK =? TESTED_MEMORY_ATTRIBUTES).

(** The block of tested memory with the free memory of the hand-off, with its
    place in the list. *)
Fixpoint find_phit (FreeBottom FreeTop : Z) (i : nat) (hobs : list HOB) : option (nat * (Z * Z * Z)) :=
  match hobs with
  | [] => None
  | HobResource Type_ Attribute PhysicalStart ResourceLength :: hobs' =>
      if is_tested Type_ Attribute && (PhysicalStart <=? FreeBottom) && (FreeTop <=? wrapU 64 (PhysicalStart + ResourceLength))
      then Some (i, (Attribute, PhysicalStart, ResourceLength))
      else find_phit FreeBottom FreeTop (S i) hobs'
  | _ :: hobs' => find_phit FreeBottom FreeTop (S i) hobs'
  end.

(** The whole pages of a range that ends before [Top]. *)
Definition pages_below (Start Top : Z) : Z * Z :=
  let Base := PageAlignAddress Start in (Base, PageAlignLength (wrapU 64 (Top - Base))).

(** Of the region of the hand-off: above the memory it uses, or its free
    memory, or below the list. *)
Definition phit_region (all : list HOB) (HobStart MemoryTop FreeTop FreeBottom PhysicalStart ResourceLength Minimal : Z) : Z * Z :=
  let '(b, l) := pages_below MemoryTop (wrapU 64 (PhysicalStart + ResourceLength)) in
  let above := FindLargestFreeRegion all b l in
  if above.2 <? Minimal then
    let free := pages_below FreeBottom FreeTop in
    if free.2 <? Minimal then
      let '(b, l) := pages_below PhysicalStart HobStart in FindLargestFreeRegion all b l
    else free
  else above.

(** The search among the other blocks: BaseAddress, Length and Attributes of
    the choice, with HighAddress. *)
Fixpoint search_regions (all : list HOB) (phit : nat) (Minimal : Z) (i : nat) (hobs : list HOB) (HighAddress : Z) (choice : Z * Z * Z) : Z * Z * Z :=
  match hobs with
  | [] => choice
  | HobResource Type_ Attribute PhysicalStart ResourceLength :: hobs' =>
      let next := search_regions all phit Minimal (S i) hobs' in
      if bool_decide (i = phit) || negb (is_tested Type_ Attribute) ||
         (MAX_ALLOC_ADDRESS <? wrapU 64 (PhysicalStart + ResourceLength)) ||
         (negb (HighAddress =? MAX_ALLOC_ADDRESS) && (PhysicalStart <=? HighAddress)) then next HighAddress choice
      else
        let '(b, l) := pages_below PhysicalStart (wrapU 64 (PhysicalStart + ResourceLength)) in
        let '(TestedBase, TestedLength) := FindLargestFreeRegion all b l in
        if TestedLength <? Minimal then next HighAddress choice
        else next PhysicalStart (TestedBase, TestedLength, Attribute)
  | _ :: hobs' => search_regions all phit Minimal (S i) hobs' HighAddress choice
  end.

(** gMemoryTypeInformation, DxeCodeTopAddress of
    gLoadModuleAtFixAddressConfigurationTable, and what else there is. *)
Record MEM_INIT (World : Type) := mkMemInit {
  gMemoryTypeInformation : list (Z * Z);
  DxeCodeTopAddress : Z;
  mi_world : World
}.
Arguments mkMemInit {World}.
Arguments gMemoryTypeInformation {World}.
Arguments DxeCodeTopAddress {World}.
Arguments mi_world {World}.

Record PCDS := mkPcds {
  PcdLoadModuleAtFixAddressEnable : Z;
  PcdLoadFixAddressRuntimeCodePageNumber : Z;
  PcdLoadFixAddressBootTimeCodePageNumber : Z
}.

(** GetFirstGuidHob (&gEfiMemoryTypeInformationGuid); its data are whole
    entries of 8 bytes *)
Fixpoint type_information (hobs : list HOB) : option (list (Z * Z)) :=
  match hobs with
  | [] => None
  | HobTypeInformation data :: _ => Some data
  | _ :: hobs' => type_information hobs'
  end.
(** CopyMem to the start of the array, if the data fit. *)
Definition copy_information (data info : list (Z * Z)) : list (Z * Z) :=
  if (0 <? length data)%nat && (Z.of_nat (length data) <=? EfiMaxMemoryType + 1) then data ++ drop (length data) info else info.

Section Init.
Context {World : Type} `{Env : !GCD_ENV World} (CoreInitializePool : M World unit) (Pcds : PCDS).

Definition on_mworld {A} (c : M World A) : M (MEM_INIT World) A := fun s =>
  match c (mi_world s) with
  | Ok (a, w) => Ok (a, mkMemInit (gMemoryTypeInformation s) (DxeCodeTopAddress s) w)
  | AssertFail => AssertFail
  | Fault => Fault
  | OutOfFuel => OutOfFuel
  end.
Definition massert (b : bool) : M (MEM_INIT World) unit := if b then Mret tt else Mfail AssertFail.
Definition of_outcome {A} (r : outcome A) : M (MEM_INIT World) A := fun s =>
  match r with Ok a => Ok (a, s) | AssertFail => AssertFail | Fault => Fault | OutOfFuel => OutOfFuel end.

(** What CoreInitializeMemoryServices computes before the memory is declared:
    the region with the attributes of its block. *)
Definition first_region (HobStart : Z) (hobs : list HOB) (MemoryTop FreeTop FreeBottom Minimal : Z) : option (Z * Z * Z) :=
  match find_phit FreeBottom FreeTop 0 hobs with
  | None => None
  | Some (i, (Attribute, PhysicalStart, ResourceLength)) =>
      let '(b, l) := phit_region hobs HobStart MemoryTop FreeTop FreeBottom PhysicalStart ResourceLength Minimal in
      Some (if l <? Minimal then search_regions hobs i Minimal 0 hobs MAX_ALLOC_ADDRESS (b, l, Attribute) else (b, l, Attribute))
  end.

(** The capabilities of the memory of a block. *)
Definition first_capabilities (a : Z) : Z :=
  CoreConvertResourceDescriptorHobAttributesToCapabilities
    (if Z.land a EFI_RESOURCE_ATTRIBUTE_MORE_RELIABLE =? EFI_RESOURCE_ATTRIBUTE_MORE_RELIABLE
     then EfiGcdMemoryTypeMoreReliable else EfiGcdMemoryTypeSystemMemory) a.

(** *MemoryBaseAddress and *MemoryLength *)
Definition CoreInitializeMemoryServices (HobStart : Z) (hobs : list HOB) : M (MEM_INIT World) (Z * Z) :=
  match hobs with
  | HobHandoff MemoryTop FreeTop FreeBottom :: _ =>
      on_mworld CoreInitializePool ;;;
      (if negb (PcdLoadModuleAtFixAddressEnable Pcds =? 0) then
         let ReservedCodePageNumber := wrapU 32 (PcdLoadFixAddressRuntimeCodePageNumber Pcds + PcdLoadFixAddressBootTimeCodePageNumber Pcds) in
         Mmodify (fun s => mkMemInit (gMemoryTypeInformation s)
           (wrapU 64 (MemoryTop + wrapU 32 (Z.shiftl ReservedCodePageNumber EFI_PAGE_SHIFT))) (mi_world s))
       else Mret tt) ;;;
      (match type_information hobs with
       | None => Mret tt
       | Some data => Mmodify (fun s => mkMemInit (copy_information data (gMemoryTypeInformation s)) (DxeCodeTopAddress s) (mi_world s))
       end) ;;;
      let! s := Mget in
      let! Total := of_outcome (CalculateTotalMemoryBinSizeNeeded (gMemoryTypeInformation s) 0) in
      let Minimal := wrapU 64 (MINIMUM_INITIAL_MEMORY_SIZE + Total) in
      match first_region HobStart hobs MemoryTop FreeTop FreeBottom Minimal with
      | None => Mfail AssertFail
      | Some (Base, Length, Attribute) =>
          massert (Minimal <=? Length) ;;;
          on_mworld (CoreAddMemoryDescriptor EfiConventionalMemory Base (Z.shiftr Length EFI_PAGE_SHIFT) (first_capabilities Attribute)) ;;;
          Mret (Base, Length)
      end
  | _ => Mfail AssertFail
  end.

(** ** The maps *)

(** GetFirstHob (EFI_HOB_TYPE_CPU) *)
Fixpoint cpu_hob (hobs : list HOB) : option (Z * Z) :=
  match hobs with
  | [] => None
  | HobCpu m i :: _ => Some (m, i)
  | _ :: hobs' => cpu_hob hobs'
  end.

(** The first entry of a map: AllocateCopyPool of the template, with
    EndAddress for the address lines. *)
Definition first_entry (Map : SPACE) (template : EFI_GCD_MAP_ENTRY) (lines : Z) : M (GCD World) unit :=
  let! s := Mget in
  match GcdPool s with
  | None => Mfail AssertFail
  | Some a =>
      Mmodify (upd_entries (<[a := template]> (gcd_entries s))) ;;;
      GASSERT (lines <? 64) ;;;
      write_entry a (set_Range (BaseAddress template) (wrapU 64 (wrapU 64 (Z.shiftl 1 lines) - 1)) template) ;;;
      Mmodify (fun s => upd_map Map (a :: gcd_map s Map) s)
  end.

(** GcdMemoryType and GcdIoType of a block. *)
Definition memory_type_of (ResourceType ResourceAttribute : Z) : Z :=
  let kept := Z.land ResourceAttribute RESOURCE_ATTRIBUTE_MASK in
  if ResourceType =? EFI_RESOURCE_SYSTEM_MEMORY then
    let t := if kept =? TESTED_MEMORY_ATTRIBUTES then
               if Z.land ResourceAttribute EFI_RESOURCE_ATTRIBUTE_MORE_RELIABLE =? EFI_RESOURCE_ATTRIBUTE_MORE_RELIABLE
               then EfiGcdMemoryTypeMoreReliable else EfiGcdMemoryTypeSystemMemory
             else EfiGcdMemoryTypeNonExistent in
    let t := if kept =? INITIALIZED_MEMORY_ATTRIBUTES then EfiGcdMemoryTypeReserved else t in
    let t := if kept =? PRESENT_MEMORY_ATTRIBUTES then EfiGcdMemoryTypeReserved else t in
    if Z.land ResourceAttribute EFI_RESOURCE_ATTRIBUTE_PERSISTENT =? EFI_RESOURCE_ATTRIBUTE_PERSISTENT
    then EfiGcdMemoryTypePersistent else t
  else if (ResourceType =? EFI_RESOURCE_MEMORY_MAPPED_IO) || (ResourceType =? EFI_RESOURCE_FIRMWARE_DEVICE) then EfiGcdMemoryTypeMemoryMappedIo
  else if (ResourceType =? EFI_RESOURCE_MEMORY_MAPPED_IO_PORT) || (ResourceType =? EFI_RESOURCE_MEMORY_RESERVED) then EfiGcdMemoryTypeReserved
  else EfiGcdMemoryTypeNonExistent.
Definition io_type_of (ResourceType : Z) : Z :=
  if ResourceType =? EFI_RESOURCE_IO then EfiGcdIoTypeIo
  else if ResourceType =? EFI_RESOURCE_IO_RESERVED then EfiGcdIoTypeReserved else EfiGcdIoTypeNonExistent.

(** The first walk: the resources. *)
Definition add_resource (ResourceType ResourceAttribute PhysicalStart ResourceLength : Z) : M (GCD World) unit :=
  (let GcdMemoryType_ := memory_type_of ResourceType ResourceAttribute in
   if negb (GcdMemoryType_ =? EfiGcdMemoryTypeNonExistent) then
     GASSERT (CoreValidateResourceDescriptorHobAttributes ResourceAttribute) ;;;
     CoreInternalAddMemorySpace GcdMemoryType_ PhysicalStart ResourceLength
       (CoreConvertResourceDescriptorHobAttributesToCapabilities GcdMemoryType_ ResourceAttribute) ;;;
     Mret tt
   else Mret tt) ;;;
  (let GcdIoType_ := io_type_of ResourceType in
   if negb (GcdIoType_ =? EfiGcdIoTypeNonExistent) then CoreAddIoSpace GcdIoType_ PhysicalStart ResourceLength ;;; Mret tt
   else Mret tt).
Fixpoint add_resources (hobs : list HOB) : M (GCD World) unit :=
  match hobs with
  | [] => Mret tt
  | HobResource t a b l :: hobs' => add_resource t a b l ;;; add_resources hobs'
  | _ :: hobs' => add_resources hobs'
  end.

(** CoreAllocateMemorySpace at an address, for the DXE core. *)
Definition core_takes (GcdMemoryType_ Base Length : Z) : M (GCD World) EFI_STATUS :=
  let! r := CoreAllocateMemorySpace EfiGcdAllocateAddress GcdMemoryType_ 0 Length (Some Base) gDxeCoreImageHandle 0 in
  Mret r.1.

Definition allocate_first (MemoryBaseAddress MemoryLength : Z) : M (GCD World) unit :=
  let! r := CoreGetMemorySpaceDescriptor MemoryBaseAddress true in
  match r with
  | (EFI_SUCCESS, Some Descriptor) =>
      GASSERT (is_system (md_GcdMemoryType Descriptor)) ;;;
      core_takes (md_GcdMemoryType Descriptor) MemoryBaseAddress MemoryLength ;;;
      Mret tt
  | _ => Mret tt
  end.

(** The second walk: what is in use. *)
Definition not_runtime (Capabilities_ : Z) : Z := Z.land Capabilities_ (wrapU 64 (Z.lnot EFI_MEMORY_RUNTIME)).
Definition allocate_hob (h : HOB) : M (GCD World) unit :=
  match h with
  | HobMemory Base Length Type_ =>
      let! r := CoreGetMemorySpaceDescriptor Base true in
      match r with
      | (EFI_SUCCESS, Some Descriptor) =>
          let! Status := core_takes (md_GcdMemoryType Descriptor) Base Length in
          if negb (EFI_ERROR Status) && is_system (md_GcdMemoryType Descriptor) then
            on_gworld (CoreAddMemoryDescriptor Type_ Base (Z.shiftr Length EFI_PAGE_SHIFT) (not_runtime (md_Capabilities Descriptor)))
          else Mret tt
      | _ => Mret tt
      end
  | HobFv Base Length => core_takes EfiGcdMemoryTypeMemoryMappedIo Base Length ;;; Mret tt
  | _ => Mret tt
  end.
Fixpoint allocate_hobs (hobs : list HOB) : M (GCD World) unit :=
  match hobs with
  | [] => Mret tt
  | h :: hobs' => allocate_hob h ;;; allocate_hobs hobs'
  end.

(** The rest of the system memory: its whole pages. *)
Definition descriptor_pages (d : MEMORY_DESCRIPTOR) : Z * Z := page_range (md_BaseAddress d) (md_Length d).
Definition is_free (d : MEMORY_DESCRIPTOR) : bool := is_system (md_GcdMemoryType d) && (md_ImageHandle d =? 0).
Definition give (d : MEMORY_DESCRIPTOR) : M (GCD World) unit :=
  let '(Base, Length) := descriptor_pages d in
  on_gworld (CoreAddMemoryDescriptor EfiConventionalMemory Base (Z.shiftr Length EFI_PAGE_SHIFT) (not_runtime (md_Capabilities d))) ;;;
  core_takes (md_GcdMemoryType d) Base Length ;;;
  Mret tt.
(** MemorySpaceMapHobList goes along. *)
Fixpoint give_all (HobStart FreeBottom : Z) (ds : list MEMORY_DESCRIPTOR) (HobList : option MEMORY_DESCRIPTOR) : M (GCD World) (option MEMORY_DESCRIPTOR) :=
  match ds with
  | [] => Mret HobList
  | d :: ds' =>
      let '(Base, Length) := descriptor_pages d in
      let end_ := wrapU 64 (md_BaseAddress d + md_Length d) in
      if negb (is_free d) || ((Length =? 0) || (end_ <? Base)) then give_all HobStart FreeBottom ds' HobList
      else if (md_BaseAddress d <=? HobStart) && (FreeBottom <=? end_) then give_all HobStart FreeBottom ds' (Some d)
      else give d ;;; give_all HobStart FreeBottom ds' HobList
  end.

(** The new place of the list. *)
Definition CoreInitializeGcdServices (HobStart : Z) (hobs : list HOB) (MemoryBaseAddress MemoryLength : Z) : M (GCD World) Z :=
  match hobs with
  | HobHandoff _ _ FreeBottom :: _ =>
      match cpu_hob hobs with
      | None => Mfail AssertFail
      | Some (SizeOfMemorySpace, SizeOfIoSpace) =>
          first_entry MemorySpace mGcdMemorySpaceMapEntryTemplate SizeOfMemorySpace ;;;
          first_entry IoSpace mGcdIoSpaceMapEntryTemplate SizeOfIoSpace ;;;
          add_resources hobs ;;;
          allocate_first MemoryBaseAddress MemoryLength ;;;
          allocate_hobs hobs ;;;
          let! r := CoreGetMemorySpaceMap true true in
          match r with
          | (EFI_SUCCESS, Some (_, MemorySpaceMap, ds)) =>
              let! HobList := give_all HobStart FreeBottom ds None in
              let! NewHobList := MapPool (wrapU 64 (FreeBottom - HobStart)) in
              GASSERT (negb (NewHobList =? 0)) ;;;
              (match HobList with Some d => give d | None => Mret tt end) ;;;
              MapFree MemorySpaceMap ;;;
              Mret NewHobList
          | _ => Mfail AssertFail
          end
      end
  | _ => Mfail Fault
  end.
End Init.
