(* ===== verification/GcdRegion.v ===== *)
(** * GcdRegion: the first region of memory

    FindLargestFreeRegion finds the largest region without allocated memory,
    and CoreInitializeMemoryServices declares such a region. *)

From stdpp Require Import base option list gmap fin_maps.
From Stdlib Require Import ZArith Lia.
From S2P Require Import Prelude Gcd GcdMap GcdAlloc GcdServices GcdInit.

Local Open Scope Z_scope.
Local Open Scope edk_scope.

(** ** The largest free region *)

(** Ranges without a common address. *)
Definition apart (b l b' l' : Z) : Prop := b' + l' <= b \/ b + l <= b'.
Definition within (b l b' l' : Z) : Prop := b <= b' /\ b' + l' <= b + l.

(** The blocks for allocated memory: none wraps around, each lies in the region
    or outside, and they do not overlap. *)
Record sane (hobs : list HOB) (b l : Z) : Prop := {
  sane_region : 0 <= b /\ 0 <= l /\ b + l < 2 ^ 64;
  sane_hob mb ml t : HobMemory mb ml t ∈ hobs -> 0 <= mb /\ 0 < ml /\ mb + ml < 2 ^ 64 /\ (within b l mb ml \/ apart b l mb ml);
  sane_apart i j mb ml t mb' ml' t' : hobs !! i = Some (HobMemory mb ml t) -> hobs !! j = Some (HobMemory mb' ml' t') -> i <> j ->
    apart mb ml mb' ml'
}.
Definition free_of (hobs : list HOB) (b l : Z) : Prop := forall mb ml t, HobMemory mb ml t ∈ hobs -> apart b l mb ml.

Lemma sane_tail h hobs b l : sane (h :: hobs) b l -> sane hobs b l.
Proof.
  intros [S1 S2 S3]. split; [done| |].
  - intros mb ml t H. apply (S2 mb ml t). by right.
  - intros i j mb ml t mb' ml' t' Hi Hj Hne. apply (S3 (S i) (S j) mb ml t mb' ml' t'); try done. lia.
Qed.
(** The parts below and above an allocated range. *)
Lemma sane_part mb ml t hobs b l b' l' : sane (HobMemory mb ml t :: hobs) b l -> within b l mb ml ->
  (b' = b /\ l' = mb - b \/ b' = mb + ml /\ l' = b + l - (mb + ml)) -> sane hobs b' l'.
Proof.
  intros [S1 S2 S3] W Hp. destruct (S2 mb ml t) as (H1 & H2 & H3 & _); [by left|]. unfold within in W. split; [lia| |].
  - intros mb' ml' t' H. destruct (S2 mb' ml' t') as (K1 & K2 & K3 & K4); [by right|]. split_and!; try done.
    apply list_elem_of_lookup in H as [j Hj]. assert (apart mb ml mb' ml') as A by (by apply (S3 0%nat (S j) mb ml t mb' ml' t')).
    unfold apart, within in *. lia.
  - intros i j ? ? ? ? ? ? Hi Hj Hne. apply (S3 (S i) (S j) _ _ _ _ _ _ Hi Hj). lia.
Qed.

(** What is found: a region in the given one, without allocated memory, and at
    least as large as any other; aligned like the region and the blocks. *)
Definition multiples (u : Z) (hobs : list HOB) : Prop := forall mb ml t, HobMemory mb ml t ∈ hobs -> (u | mb) /\ (u | ml).
Record largest (hobs : list HOB) (b l : Z) (r : Z * Z) : Prop := {
  lg_within : within b l r.1 r.2;
  lg_length : 0 <= r.2;
  lg_free : free_of hobs r.1 r.2;
  lg_max x n : 0 < n -> within b l x n -> free_of hobs x n -> n <= r.2;
  lg_aligned u : (u | b) -> (u | l) -> multiples u hobs -> (u | r.1) /\ (u | r.2)
}.

Lemma free_tail h hobs x n : free_of (h :: hobs) x n -> free_of hobs x n.
Proof. intros H mb ml t Hin. apply (H mb ml t). by right. Qed.
Lemma multiples_tail u h hobs : multiples u (h :: hobs) -> multiples u hobs.
Proof. intros H mb ml t Hin. apply (H mb ml t). by right. Qed.
Lemma free_cons h hobs x n : free_of hobs x n -> (forall mb ml t, h = HobMemory mb ml t -> apart x n mb ml) -> free_of (h :: hobs) x n.
Proof. intros H Hh mb ml t [<-|Hin]%elem_of_cons; [by apply (Hh mb ml t)|by apply (H mb ml t)]. Qed.

(** A block outside the region. *)
Lemma largest_skip h hobs b l r : largest hobs b l r -> (forall mb ml t, h = HobMemory mb ml t -> apart b l mb ml) -> largest (h :: hobs) b l r.
Proof.
  intros [I1 I2 I3 I4 I5] Ha. split; try done.
  - apply free_cons; [done|]. intros mb ml t E. specialize (Ha mb ml t E). unfold apart, within in *. lia.
  - intros x n Hn Hw Hf. apply (I4 x n Hn Hw). by apply (free_tail h).
  - intros u Hb Hl Hd. apply I5; try done. by apply (multiples_tail u h).
Qed.
(** A part without addresses. *)
Lemma largest_empty hobs b : sane hobs b 0 -> largest hobs b 0 (b, 0).
Proof.
  intros S. split; cbn; unfold within; try lia; [|done]. intros mb ml t H. destruct (sane_hob _ _ _ S mb ml t H) as (_ & ? & _ & K).
  unfold apart, within in *. lia.
Qed.
(** A block in the region: the larger of the best below and above. *)
Lemma largest_split mb ml t hobs b l rl ru : sane (HobMemory mb ml t :: hobs) b l -> within b l mb ml ->
  largest hobs b (mb - b) rl -> largest hobs (mb + ml) (b + l - (mb + ml)) ru ->
  largest (HobMemory mb ml t :: hobs) b l (if rl.2 <=? ru.2 then ru else rl).
Proof.
  intros S W L U. destruct (sane_hob _ _ _ S mb ml t) as (H1 & H2 & H3 & _); [by left|].
  assert (forall mb' ml' t', HobMemory mb ml t = HobMemory mb' ml' t' -> mb' = mb /\ ml' = ml) as Hinj by (by intros ? ? ? [= -> -> ->]).
  pose proof (lg_within _ _ _ _ L) as WL. pose proof (lg_within _ _ _ _ U) as WU. pose proof (lg_length _ _ _ _ L). pose proof (lg_length _ _ _ _ U).
  unfold within in *.
  assert (largest (HobMemory mb ml t :: hobs) b (mb - b) rl /\ largest (HobMemory mb ml t :: hobs) (mb + ml) (b + l - (mb + ml)) ru) as [L' U'].
  { split; apply largest_skip; try done; intros mb' ml' t' [-> ->]%Hinj; unfold apart; lia. }
  assert (forall x n, 0 < n -> b <= x /\ x + n <= b + l -> free_of (HobMemory mb ml t :: hobs) x n -> n <= Z.max rl.2 ru.2) as Max.
  { intros x n Hn Hx Hf. destruct (Hf mb ml t) as [A|A]; [by left| |].
    - assert (n <= ru.2) by (apply (lg_max _ _ _ _ U' x n Hn); [unfold within; lia|done]). lia.
    - assert (n <= rl.2) by (apply (lg_max _ _ _ _ L' x n Hn); [unfold within; lia|done]). lia. }
  assert (forall u, (u | b) -> (u | l) -> multiples u (HobMemory mb ml t :: hobs) -> ((u | rl.1) /\ (u | rl.2)) /\ ((u | ru.1) /\ (u | ru.2))) as Al.
  { intros u Hb Hl Hm. destruct (Hm mb ml t) as [D1 D2]; [by left|].
    assert (u | mb + ml) by (by apply Z.divide_add_r). assert (u | b + l) by (by apply Z.divide_add_r).
    split; [apply (lg_aligned _ _ _ _ L')|apply (lg_aligned _ _ _ _ U')]; try done; by apply Z.divide_sub_r. }
  destruct (Z.leb_spec rl.2 ru.2); split; unfold within; try lia.
  - apply (lg_free _ _ _ _ U').
  - intros x n Hn Hx Hf. specialize (Max x n Hn Hx Hf). lia.
  - intros u Hb Hl Hm. by apply Al.
  - apply (lg_free _ _ _ _ L').
  - intros x n Hn Hx Hf. specialize (Max x n Hn Hx Hf). lia.
  - intros u Hb Hl Hm. by apply Al.
Qed.

Lemma find_largest hobs : forall b l, sane hobs b l -> largest hobs b l (FindLargestFreeRegion hobs b l).
Proof.
  induction hobs as [|h hobs IH]; intros b l S.
  { pose proof (sane_region _ _ _ S). split; cbn; unfold within; try lia; [by intros ? ? ? ?%elem_of_nil|done]. }
  destruct h as [|?|mb ml t|?|?|?|]; try (apply largest_skip; [apply IH; by apply sane_tail in S|done]). cbn [FindLargestFreeRegion].
  destruct (sane_hob _ _ _ S mb ml t) as (H1 & H2 & H3 & H4); [by left|]. pose proof (sane_region _ _ _ S) as R.
  rewrite !(wrapU_id 64 (b + l)), !(wrapU_id 64 (mb + ml)) by (split; lia).
  destruct (Z.leb_spec b mb) as [Hb|Hb]; cbn [andb].
  2:{ apply largest_skip; [apply IH; by apply sane_tail in S|]. intros ? ? ? [= <- <- <-]. unfold apart, within in *. lia. }
  destruct (Z.leb_spec (mb + ml) (b + l)) as [Ht|Ht].
  2:{ apply largest_skip; [apply IH; by apply sane_tail in S|]. intros ? ? ? [= <- <- <-]. unfold apart, within in *. lia. }
  rewrite !(wrapU_id 64 (mb - b)), !(wrapU_id 64 (b + l - (mb + ml))) by (split; lia). apply largest_split; [done|by split| |].
  - assert (sane hobs b (mb - b)) as Sl by (apply (sane_part mb ml t hobs b l); [done|by split|by left]).
    destruct (Z.eqb_spec (mb - b) 0) as [E|E]; [|by apply IH]. rewrite E in Sl |- *. by apply largest_empty.
  - assert (sane hobs (mb + ml) (b + l - (mb + ml))) as Su by (apply (sane_part mb ml t hobs b l); [done|by split|by right]).
    destruct (Z.eqb_spec (b + l - (mb + ml)) 0) as [E|E]; [|by apply IH]. rewrite E in Su |- *. by apply largest_empty.
Qed.

(** ** The regions that are considered *)

(** The whole pages from [start] on that end at [limit] or below. *)
Definition whole_pages (start limit : Z) : Z * Z := (align_up 12 start, align_down 12 (limit - align_up 12 start)).
Lemma pages_below_eq start limit : 0 <= start -> align_up 12 start <= limit < 2 ^ 64 -> pages_below start limit = whole_pages start limit.
Proof.
  intros H1 H2. destruct (align_up_spec 12 start) as [A1 A2]; [lia|lia|].
  assert (align_up 12 start <= 2 ^ 64 - 2 ^ 12).
  { pose proof (Z.div_mod (align_up 12 start) (2 ^ 12) ltac:(lia)) as E. rewrite A2 in E.
    assert (align_up 12 start / 2 ^ 12 < 2 ^ 52) by (apply Z.div_lt_upper_bound; lia). lia. }
  unfold pages_below. rewrite page_align by lia. by rewrite wrapU_id, page_length by (try split; lia).
Qed.

Section Regions.
Context (HobStart : Z) (hobs : list HOB) (MemoryTop FreeTop FreeBottom Minimal : Z).

(** The attributes of the block, and the region. *)
Inductive region : Z -> Z * Z -> Prop :=
| region_above i a ps rl : find_phit FreeBottom FreeTop 0 hobs = Some (i, (a, ps, rl)) -> region a (whole_pages MemoryTop (ps + rl))
| region_below i a ps rl : find_phit FreeBottom FreeTop 0 hobs = Some (i, (a, ps, rl)) -> region a (whole_pages ps HobStart)
| region_other i j t a ps rl x : find_phit FreeBottom FreeTop 0 hobs = Some (i, x) -> hobs !! j = Some (HobResource t a ps rl) ->
    is_tested t a = true -> j <> i -> region a (whole_pages ps (ps + rl)).

(** No range of the blocks wraps around, the hand-off lies in its block, and
    the allocated memory does not overlap a border of a region. *)
Record handoff_ok : Prop := {
  ho_phit i a ps rl : find_phit FreeBottom FreeTop 0 hobs = Some (i, (a, ps, rl)) ->
    0 <= MemoryTop /\ align_up 12 MemoryTop <= ps + rl < 2 ^ 64 /\ 0 <= ps /\ align_up 12 ps <= HobStart < 2 ^ 64;
  ho_free : 0 <= FreeBottom /\ align_up 12 FreeBottom <= FreeTop < 2 ^ 64;
  ho_other j t a ps rl : hobs !! j = Some (HobResource t a ps rl) -> is_tested t a = true -> 0 <= ps /\ align_up 12 ps <= ps + rl < 2 ^ 64;
  ho_sane a r : region a r -> sane hobs r.1 r.2
}.
Hypothesis ok : handoff_ok.

(** A choice: the largest free part of a region, or the free memory of the
    hand-off. *)
Definition chosen_region (a : Z) (r : Z * Z) : Prop :=
  (exists p, region a p /\ largest hobs p.1 p.2 r) \/
  (r = whole_pages FreeBottom FreeTop /\ exists i ps rl, find_phit FreeBottom FreeTop 0 hobs = Some (i, (a, ps, rl))).
(** No region has enough free memory. *)
Definition too_small (p : Z * Z) : Prop := forall x n, within p.1 p.2 x n -> free_of hobs x n -> 0 < n -> n < Minimal.

Lemma region_find a p : region a p -> largest hobs p.1 p.2 (FindLargestFreeRegion hobs p.1 p.2).
Proof. intros R. apply find_largest. by apply (ho_sane ok a). Qed.
Lemma small_find a p : region a p -> (FindLargestFreeRegion hobs p.1 p.2).2 < Minimal -> too_small p.
Proof. intros R H x n Hw Hf Hn. pose proof (lg_max _ _ _ _ (region_find a p R) x n Hn Hw Hf). lia. Qed.

Lemma phit_region_ok i a ps rl : find_phit FreeBottom FreeTop 0 hobs = Some (i, (a, ps, rl)) ->
  let r := phit_region hobs HobStart MemoryTop FreeTop FreeBottom ps rl Minimal in
  chosen_region a r /\
  (r.2 < Minimal -> too_small (whole_pages MemoryTop (ps + rl)) /\ (whole_pages FreeBottom FreeTop).2 < Minimal /\ too_small (whole_pages ps HobStart)).
Proof.
  intros E. destruct (ho_phit ok i a ps rl E) as (H1 & H2 & H3 & H4). destruct (ho_free ok) as [F1 F2].
  destruct (align_up_spec 12 MemoryTop) as [A1 _]; [lia|lia|]. cbn zeta. unfold phit_region.
  rewrite (wrapU_id 64 (ps + rl)) by (split; lia). rewrite !pages_below_eq by lia.
  pose proof (region_above i a ps rl E) as Ra. pose proof (region_below i a ps rl E) as Rb.
  destruct (whole_pages MemoryTop (ps + rl)) as [b l] eqn:Ea. destruct (whole_pages ps HobStart) as [b' l'] eqn:Eb.
  destruct (Z.ltb_spec (FindLargestFreeRegion hobs b l).2 Minimal) as [S1|S1].
  - pose proof (small_find a _ Ra S1) as T1. destruct (Z.ltb_spec (whole_pages FreeBottom FreeTop).2 Minimal) as [S2|S2].
    + split; [left; exists (b', l'); split; [done|exact (region_find a _ Rb)]|]. intros S3. split_and!; try done. by apply (small_find a).
    + split; [right; split; [done|by exists i, ps, rl]|]. intros S3. lia.
  - split; [left; exists (b, l); split; [done|exact (region_find a _ Ra)]|]. intros S2. lia.
Qed.

Definition good_choice (c : Z * Z * Z) : Prop := Minimal <= c.1.2 /\ exists p, region c.2 p /\ largest hobs p.1 p.2 c.1.

(** The block at a place, if it has to be considered, has no room. *)
Definition other_small (phit j : nat) : Prop := forall t a ps rl, hobs !! j = Some (HobResource t a ps rl) -> is_tested t a = true -> j <> phit ->
  too_small (whole_pages ps (ps + rl)).

Lemma search_regions_ok phit x : find_phit FreeBottom FreeTop 0 hobs = Some (phit, x) -> forall rest i High c, drop i hobs = rest ->
  High = MAX_ALLOC_ADDRESS \/ good_choice c -> let c' := search_regions hobs phit Minimal i rest High c in
  good_choice c' \/ c' = c /\ forall j, (i <= j)%nat -> other_small phit j.
Proof.
  intros Ep. induction rest as [|h rest IH]; intros i High c Ed Hc; cbn zeta.
  { right. split; [done|]. intros j Hj t a ps rl Hl. apply lookup_lt_Some in Hl. apply (f_equal length) in Ed. rewrite length_drop in Ed. cbn in Ed. lia. }
  assert (hobs !! i = Some h) as Eh by (replace i with (i + 0)%nat by lia; by rewrite <- lookup_drop, Ed).
  assert (drop (S i) hobs = rest) as Ed' by (rewrite <- Nat.add_1_r, <- drop_drop, Ed; done).
  (* a block that is not chosen *)
  assert (good_choice c \/ other_small phit i -> let c' := search_regions hobs phit Minimal (S i) rest High c in
    good_choice c' \/ c' = c /\ forall j, (i <= j)%nat -> other_small phit j) as Next.
  { intros Hi. cbn zeta. destruct (IH (S i) High c Ed' Hc) as [G|[Ec Hs]]; [by left|]. rewrite Ec. destruct Hi as [G|Hi]; [by left|].
    right. split; [done|]. intros j Hj. destruct (decide (j = i)) as [->|]; [done|]. apply Hs. lia. }
  destruct h as [|t a ps rl| | | | |]; try (apply Next; right; intros t' a' ps' rl'; by rewrite Eh). cbn [search_regions].
  destruct (bool_decide_reflect (i = phit)) as [->|Hne]; cbn [orb]; [apply Next; right; by intros t' a' ps' rl'|].
  destruct (is_tested t a) eqn:Et; cbn [negb orb].
  2:{ apply Next. right. intros t' a' ps' rl' E Et'. rewrite Eh in E. injection E as <- <- <- <-. congruence. }
  destruct (ho_other ok i t a ps rl Eh Et) as [H1 H2]. destruct (align_up_spec 12 ps) as [A1 _]; [lia|lia|].
  rewrite (wrapU_id 64 (ps + rl)) by (split; lia). rewrite (proj2 (Z.ltb_ge MAX_ALLOC_ADDRESS (ps + rl))) by (unfold MAX_ALLOC_ADDRESS; lia). cbn [orb].
  destruct (negb (High =? MAX_ALLOC_ADDRESS) && (ps <=? High)) eqn:Eg.
  { apply Next. left. destruct Hc as [->|]; [|done]. rewrite Z.eqb_refl in Eg. done. }
  rewrite pages_below_eq by lia. pose proof (region_other phit i t a ps rl x Ep Eh Et Hne) as R.
  pose proof (region_find a _ R) as Lg. pose proof (small_find a _ R) as Sm. destruct (whole_pages ps (ps + rl)) as [b l] eqn:Ew. cbn [fst snd] in Lg, Sm.
  destruct (FindLargestFreeRegion hobs b l) as [tb tl]. cbn [snd] in Sm. destruct (Z.ltb_spec tl Minimal) as [Hs|Hs].
  - apply Next. right. intros t' a' ps' rl' E _ _. rewrite Eh in E. injection E as <- <- <- <-. rewrite Ew. by apply Sm.
  - destruct (IH (S i) ps (tb, tl, a) Ed') as [G|[Ec _]]; [right|by left|].
    + split; [done|]. by exists (b, l).
    + left. rewrite Ec. split; [done|]. by exists (b, l).
Qed.

(** The choice: it has [Minimal] bytes, unless nothing has. *)
Lemma first_region_ok : match first_region HobStart hobs MemoryTop FreeTop FreeBottom Minimal with
  | None => find_phit FreeBottom FreeTop 0 hobs = None
  | Some (b, l, a) => chosen_region a (b, l) /\
      (l < Minimal -> (forall a p, region a p -> too_small p) /\ (whole_pages FreeBottom FreeTop).2 < Minimal)
  end.
Proof.
  unfold first_region. destruct (find_phit FreeBottom FreeTop 0 hobs) as [[i [[a ps] rl]]|] eqn:E; [|done].
  destruct (phit_region_ok i a ps rl E) as [C Sm]. destruct (phit_region _ _ _ _ _ _ _ _) as [b l]. cbn [fst snd] in C, Sm.
  destruct (Z.ltb_spec l Minimal) as [Hl|Hl]; [|split; [done|lia]]. destruct (Sm Hl) as (S1 & S2 & S3).
  destruct (search_regions_ok i (a, ps, rl) E hobs 0 MAX_ALLOC_ADDRESS (b, l, a) eq_refl (or_introl eq_refl)) as [[G1 (p & R & Lg)]|[-> Ho]].
  - destruct (search_regions _ _ _ _ _ _ _) as [[b' l'] a']. cbn [fst snd] in *. split; [left; by exists p|lia].
  - split; [done|]. intros _. split; [|done]. intros a' p R. destruct R as [? ? ? ? E'|? ? ? ? E'|? j t a1 ps1 rl1 ? E' Hj Ht Hne]; rewrite E in E'; simplify_eq; try done.
    by apply (Ho j ltac:(lia) t a1 ps1 rl1).
Qed.
End Regions.
