(* ===== verification/GcdWalk.v ===== *)
(** * GcdWalk: the maps after the walks over the hand-off blocks

    The first walk places every resource that lies in the space and does not
    overlap one placed before; what follows changes owners only. *)

From stdpp Require Import base option list gmap fin_maps.
From Stdlib Require Import ZArith Lia.
From S2P Require Import Prelude Gcd GcdMap GcdRange GcdState GcdConvert GcdAlloc GcdServices GcdInit.

Local Open Scope Z_scope.
Local Open Scope edk_scope.

(** ** Resources *)

(** A range that is added to a map. *)
Record RANGE := mkRange { rg_type : Z; rg_io : Z; rg_caps : Z; rg_base : Z; rg_len : Z }.
Definition rg_has (y : Z) (r : RANGE) : bool := (rg_base r <=? y) && (y <? rg_base r + rg_len r).
Definition overlaps (r r' : RANGE) : bool := (rg_base r <? rg_base r' + rg_len r') && (rg_base r' <? rg_base r + rg_len r).

Definition range_of (sp : SPACE) (h : HOB) : option RANGE :=
  match sp, h with
  | MemorySpace, HobResource t a b l =>
      let m := memory_type_of t a in
      if m =? EfiGcdMemoryTypeNonExistent then None
      else Some (mkRange m 0 (CoreConvertResourceDescriptorHobAttributesToCapabilities m a) b l)
  | IoSpace, HobResource t a b l =>
      let i := io_type_of t in if i =? EfiGcdIoTypeNonExistent then None else Some (mkRange 0 i 0 b l)
  | _, _ => None
  end.
Definition add_op (sp : SPACE) : Z := match sp with MemorySpace => GCD_ADD_MEMORY_OPERATION | IoSpace => GCD_ADD_IO_OPERATION end.
Definition nothing_at (sp : SPACE) : EFI_GCD_MAP_ENTRY :=
  match sp with MemorySpace => mGcdMemorySpaceMapEntryTemplate | IoSpace => mGcdIoSpaceMapEntryTemplate end.

Section Placed.
Context (top : SPACE -> Z).

(** The first come are served. *)
Definition place (sp : SPACE) (acc : list RANGE) (h : HOB) : list RANGE :=
  match range_of sp h with
  | Some r => if (0 <? rg_len r) && (rg_base r + rg_len r - 1 <=? top sp) && negb (existsb (overlaps r) acc) then r :: acc else acc
  | None => acc
  end.
Definition placed (sp : SPACE) (hobs : list HOB) : list RANGE := foldl (place sp) [] hobs.
(** What is at an address. *)
Definition what_is (sp : SPACE) (acc : list RANGE) (y : Z) : EFI_GCD_MAP_ENTRY :=
  match List.find (rg_has y) acc with
  | Some r => (convert_entry (add_op sp) (rg_type r) (rg_io r) (rg_caps r) 0 0 (nothing_at sp)).1
  | None => nothing_at sp
  end.
(** The ranges have a type. *)
Definition typed (sp : SPACE) (r : RANGE) : Prop :=
  0 < rg_len r /\ match sp with
                  | MemorySpace => EfiGcdMemoryTypeNonExistent < rg_type r < EfiGcdMemoryTypeMaximum
                  | IoSpace => EfiGcdIoTypeNonExistent < rg_io r < EfiGcdIoTypeMaximum
                  end.

Lemma memory_type_range t a : 0 <= memory_type_of t a < EfiGcdMemoryTypeMaximum.
Proof. unfold memory_type_of. repeat case_match; done. Qed.
Lemma io_type_range t : 0 <= io_type_of t < EfiGcdIoTypeMaximum.
Proof. unfold io_type_of. repeat case_match; done. Qed.
Lemma range_of_typed sp h r : range_of sp h = Some r -> 0 < rg_len r -> typed sp r.
Proof.
  intros E Hl. split; [done|]. revert E. unfold range_of. destruct sp, h as [|t a b l| | | | |]; try done; cbv zeta.
  - pose proof (memory_type_range t a). destruct (Z.eqb_spec (memory_type_of t a) EfiGcdMemoryTypeNonExistent); [done|]. intros [= <-].
    cbn [rg_type]. unfold EfiGcdMemoryTypeNonExistent in *. lia.
  - pose proof (io_type_range t). destruct (Z.eqb_spec (io_type_of t) EfiGcdIoTypeNonExistent); [done|]. intros [= <-].
    cbn [rg_io]. unfold EfiGcdIoTypeNonExistent in *. lia.
Qed.

(** An entry can be added to where nothing is, and only there. *)
Lemma add_check sp acc b l c y : Forall (typed sp) acc ->
  convert_check (add_op sp) b l c 0 (what_is sp acc y) = if existsb (rg_has y) acc then Some EFI_ACCESS_DENIED else None.
Proof.
  intros F. unfold what_is. destruct (List.find (rg_has y) acc) as [r|] eqn:E.
  - apply List.find_some in E as [Hin Hy]. replace (existsb (rg_has y) acc) with true by (symmetry; apply existsb_exists; by exists r).
    apply list_elem_of_In in Hin. rewrite Forall_forall in F. destruct (F r Hin) as [_ Ht].
    destruct sp; unfold convert_check, convert_entry; cbn in Ht |- *.
    + destruct (Z.eqb_spec (rg_type r) EfiGcdMemoryTypeNonExistent); [lia|done].
    + destruct (Z.eqb_spec (rg_io r) EfiGcdIoTypeNonExistent); [lia|done].
  - replace (existsb (rg_has y) acc) with false.
    + by destruct sp.
    + symmetry. apply not_true_iff_false. intros (r & Hin & Hy)%existsb_exists. apply (List.find_none _ _ E) in Hin. congruence.
Qed.
Lemma overlap_common r acc : 0 < rg_len r -> Forall (fun r' => 0 < rg_len r') acc ->
  existsb (overlaps r) acc = true <-> exists y, rg_base r <= y <= rg_base r + rg_len r - 1 /\ existsb (rg_has y) acc = true.
Proof.
  intros Hl F. rewrite Forall_forall in F. split.
  - intros (r' & Hin & Ho)%existsb_exists. unfold overlaps in Ho. apply andb_true_iff in Ho as [?%Z.ltb_lt ?%Z.ltb_lt].
    pose proof (F r' ltac:(by apply list_elem_of_In)) as Hl'. cbn in Hl'.
    exists (Z.max (rg_base r) (rg_base r')). split; [lia|]. apply existsb_exists. exists r'. split; [done|]. unfold rg_has. lia.
  - intros (y & Hy & (r' & Hin & Hr)%existsb_exists). apply existsb_exists. exists r'. split; [done|]. unfold rg_has in Hr. unfold overlaps. lia.
Qed.
Lemma what_cons sp r acc y : what_is sp (r :: acc) y =
  if rg_has y r then (convert_entry (add_op sp) (rg_type r) (rg_io r) (rg_caps r) 0 0 (nothing_at sp)).1 else what_is sp acc y.
Proof. unfold what_is. cbn. by destruct (rg_has y r). Qed.
End Placed.

Section Walk.
Context {World : Type} `{Env : !GCD_ENV World} `{Laws : !GCD_LAWS} (top : SPACE -> Z).
Implicit Types s : GCD World.
Hypothesis lines : narrow top.
Hypothesis image : gDxeCoreImageHandle <> 0.
Hypothesis pool : ~ pool_refuses.

(** The map says of every address what the ranges say. *)
Definition says s (sp : SPACE) (acc : list RANGE) : Prop := forall y, 0 <= y <= top sp -> space_info s sp y = Some (what_is sp acc y).

Lemma says_same s s' sp acc : same_maps s s' -> says s sp acc -> says s' sp acc.
Proof. intros E H y Hy. rewrite (same_info s s') by done. by apply H. Qed.

Lemma add_range_ok s sp acc r : idle top s -> says s sp acc -> Forall (typed sp) acc -> (0 < rg_len r -> typed sp r) ->
  plain (rg_base r) (rg_len r) ->
  wp true (CoreConvertSpace (add_op sp) (rg_type r) (rg_io r) (rg_base r) (rg_len r) (rg_caps r) 0) (fun _ s' =>
    idle top s' /\ says s' sp (if (0 <? rg_len r) && (rg_base r + rg_len r - 1 <=? top sp) && negb (existsb (overlaps r) acc) then r :: acc else acc) /\
    (forall sp', sp' <> sp -> entries_of s' sp' = entries_of s sp') /\ gcd_world s' = gcd_world s) s.
Proof.
  intros I Sy F Ht (Hb & Hl & Hw). pose proof I as [W L].
  destruct (Z.ltb_spec 0 (rg_len r)) as [Hp|Hp]; cbn [andb].
  2:{ replace (rg_len r) with 0 by lia. by apply wp_ret. }
  assert (space_of (add_op sp) = Some sp) as Eo by (by destruct sp).
  assert (cpu_attributes (add_op sp) 0 = 0) as Ec by (by destruct sp).
  eapply wp_mono; [apply (convert_space_ok top s (add_op sp) sp); try done; by apply narrow_small|]. cbn beta. intros st s' C.
  split; [split; [apply C|intros sp'; by rewrite (cv_lock _ _ _ _ _ _ _ _ _ _ _ _ C)]|].
  split; [|split; [intros sp' Hne; by apply (cv_other _ _ _ _ _ _ _ _ _ _ _ _ C)|by apply (converted_world top _ _ _ _ _ _ _ _ _ _ _ C)]].
  set (n := rg_base r + rg_len r - 1) in *.
  assert (forall y, rg_base r <= y <= n -> n <= top sp ->
    convert_check (add_op sp) (rg_base r) (rg_len r) (rg_caps r) 0 (what_is sp acc y) = if existsb (rg_has y) acc then Some EFI_ACCESS_DENIED else None) as Ck
    by (intros; by apply add_check).
  assert (existsb (overlaps r) acc = true <-> exists y, rg_base r <= y <= n /\ existsb (rg_has y) acc = true) as Ov.
  { apply overlap_common; [done|]. eapply Forall_impl; [exact F|]. by intros r' [? _]. }
  destruct (Z.leb_spec n (top sp)) as [Hn|Hn]; cbn [andb].
  2:{ apply (says_same s); [|done]. apply (converted_error top _ _ _ _ _ _ _ _ _ _ _ C). by rewrite (converted_beyond top _ _ _ _ _ _ _ _ _ _ _ C) by done. }
  destruct (existsb (overlaps r) acc) eqn:Eov; cbn [negb].
  - (* refused *)
    destruct (proj1 Ov eq_refl) as (y & Hy & Hi). apply (says_same s); [|done].
    apply (converted_error top _ _ _ _ _ _ _ _ _ _ _ C). destruct (EFI_ERROR st) eqn:Est; [done|]. destruct st; try done.
    destruct (converted_told top _ _ _ _ _ _ _ _ _ _ _ C eq_refl) as (_ & _ & Ac). specialize (Ac y _ Hy (Sy y ltac:(lia))).
    rewrite Ck, Hi in Ac by done. done.
  - (* placed *)
    assert (forall y, rg_base r <= y <= n -> existsb (rg_has y) acc = false) as No.
    { intros y Hy. apply not_true_iff_false. intros Hi. assert (false = true) as [=]. apply Ov. by exists y. }
    assert (st = EFI_SUCCESS) as ->.
    { apply (converted_done top _ _ _ _ _ _ _ _ _ _ _ C); try done. intros y k Hy Hk. rewrite (Sy y ltac:(lia)) in Hk. injection Hk as <-.
      rewrite Ck by done. by rewrite No. }
    destruct (converted_info top _ _ _ _ _ _ _ _ _ _ C) as [_ I']; [left; by destruct sp|]. intros y Hy. rewrite I', what_cons, Ec, (Sy y Hy).
    unfold rg_has. destruct (decide (rg_base r <= y <= rg_base r + rg_len r - 1)) as [Hr|Hr].
    + replace ((rg_base r <=? y) && (y <? rg_base r + rg_len r)) with true by lia. cbn. do 3 f_equal. unfold what_is.
      destruct (List.find (rg_has y) acc) as [r'|] eqn:Ef; [|done]. apply List.find_some in Ef as [Hin Hy'].
      assert (existsb (rg_has y) acc = true) by (apply existsb_exists; by exists r'). rewrite No in H by done. done.
    + by replace ((rg_base r <=? y) && (y <? rg_base r + rg_len r)) with false by lia.
Qed.

(** ** The first walk *)

Record resources s (accs : SPACE -> list RANGE) (w : World) : Prop := {
  rs_idle : idle top s;
  rs_says sp : says s sp (accs sp);
  rs_typed sp : Forall (typed sp) (accs sp);
  rs_world : gcd_world s = w
}.
(** A block whose range does not wrap around and whose attributes pass. *)
Definition valid_resource (h : HOB) : Prop :=
  match h with
  | HobResource t a b l => plain b l /\ (memory_type_of t a <> EfiGcdMemoryTypeNonExistent -> CoreValidateResourceDescriptorHobAttributes a = true)
  | _ => True
  end.

Lemma says_other s s' sp acc : entries_of s' sp = entries_of s sp -> says s sp acc -> says s' sp acc.
Proof. intros E H y Hy. unfold space_info. rewrite E. by apply H. Qed.

(** Adding the range that a block has for one of the maps. *)
Lemma place_step s accs w sp h r : resources s accs w -> range_of sp h = Some r -> plain (rg_base r) (rg_len r) ->
  wp true (CoreConvertSpace (add_op sp) (rg_type r) (rg_io r) (rg_base r) (rg_len r) (rg_caps r) 0) (fun _ s' =>
    resources s' (upd_space sp (place top sp (accs sp) h) accs) w) s.
Proof.
  intros [R1 R2 R3 R4] Er Hp. eapply wp_mono; [apply (add_range_ok s sp (accs sp) r); try done; by apply (range_of_typed sp h)|].
  cbn beta. intros _ s' (I & Sy & Ot & Ew).
  assert (forall sp', upd_space sp (place top sp (accs sp) h) accs sp' = if decide (sp' = sp) then place top sp (accs sp) h else accs sp') as Eu.
  { intros sp'. unfold upd_space. case_decide; [by rewrite bool_decide_true|by rewrite bool_decide_false]. }
  split; [done| | |congruence].
  - intros sp'. rewrite Eu. case_decide as Hd; [subst; unfold place; by rewrite Er|]. apply (says_other s); [by apply Ot|done].
  - intros sp'. rewrite Eu. case_decide as Hd; [|done]. subst sp'. unfold place. rewrite Er. case_match; [|done]. constructor; [|done].
    apply (range_of_typed sp h); [done|]. lia.
Qed.
Lemma place_none sp acc h : range_of sp h = None -> place top sp acc h = acc.
Proof. intros E. unfold place. by rewrite E. Qed.

Lemma resources_ext s accs accs' w : resources s accs w -> (forall sp, accs sp = accs' sp) -> resources s accs' w.
Proof. intros [R1 R2 R3 R4] E. split; try done; intros sp; rewrite <- E; [apply R2|apply R3]. Qed.

#[local] Opaque memory_type_of io_type_of CoreConvertResourceDescriptorHobAttributesToCapabilities CoreConvertSpace.
Lemma add_resource_ok s accs w t a b l : let h := HobResource t a b l in resources s accs w -> valid_resource h ->
  wp true (add_resource t a b l) (fun _ s' => resources s' (fun sp => place top sp (accs sp) h) w) s.
Proof.
  intros h R [Hp Hv]. unfold add_resource. cbv zeta.
  set (accs1 := upd_space MemorySpace (place top MemorySpace (accs MemorySpace) h) accs).
  eapply (wp_seq _ _ _ (fun _ s1 => resources s1 accs1 w)).
  - destruct (Z.eqb_spec (memory_type_of t a) EfiGcdMemoryTypeNonExistent) as [E|E]; cbn [negb].
    { apply wp_ret. apply (resources_ext _ accs); [done|]. intros []; [|done].
      symmetry. apply (place_none MemorySpace (accs MemorySpace) h). unfold range_of, h. by rewrite E. }
    rewrite (Hv E). eapply wp_step; [done|]. unfold CoreInternalAddMemorySpace. pose proof (memory_type_range t a).
    rewrite (proj2 (Z.leb_gt _ _)), (proj2 (Z.leb_gt _ _)) by (unfold EfiGcdMemoryTypeNonExistent in *; lia). cbn [orb].
    eapply wp_seq; [|intros st s1 H1; apply wp_ret; exact H1].
    apply (place_step s accs w MemorySpace h (mkRange (memory_type_of t a) 0
      (CoreConvertResourceDescriptorHobAttributesToCapabilities (memory_type_of t a) a) b l)); [done| |done]. unfold range_of, h. by rewrite (proj2 (Z.eqb_neq _ _)).
  - cbn beta. intros _ s1 R1. destruct (Z.eqb_spec (io_type_of t) EfiGcdIoTypeNonExistent) as [E|E]; cbn [negb].
    { apply wp_ret. apply (resources_ext _ accs1); [done|]. intros []; [done|].
      symmetry. apply (place_none IoSpace (accs IoSpace) h). unfold range_of, h. by rewrite E. }
    unfold CoreAddIoSpace. pose proof (io_type_range t).
    rewrite (proj2 (Z.leb_gt _ _)), (proj2 (Z.leb_gt _ _)) by (unfold EfiGcdIoTypeNonExistent in *; lia). cbn [orb].
    eapply wp_seq; [|intros st s2 H2; apply wp_ret; exact H2].
    eapply wp_mono; [eapply (place_step s1 accs1 w IoSpace h (mkRange 0 (io_type_of t) 0 b l)); [done| |done]|].
    + unfold range_of, h. by rewrite (proj2 (Z.eqb_neq _ _)).
    + cbn beta. intros _ s2 R2. apply (resources_ext _ _ _ _ R2). by intros [].
Qed.

Lemma add_resources_ok w hobs : forall s accs, resources s accs w -> Forall valid_resource hobs ->
  wp true (add_resources hobs) (fun _ s' => resources s' (fun sp => foldl (place top sp) (accs sp) hobs) w) s.
Proof.
  induction hobs as [|h hobs IH]; intros s accs R V; [by apply wp_ret|]. apply Forall_cons_1 in V as [Vh V]. cbn [foldl].
  destruct h as [|t a b l| | | | |]; cbn [add_resources];
    try (eapply wp_mono; [by apply IH|]; cbn beta; intros _ s' R'; apply (resources_ext _ _ _ _ R'); intros sp; by rewrite (place_none sp) by (by destruct sp)).
  eapply wp_seq; [by apply (add_resource_ok s accs w t a b l)|]. cbn beta. intros _ s1 R1. by apply (IH s1 (fun sp => place top sp (accs sp) (HobResource t a b l))).
Qed.
End Walk.

(** ** The first entries *)

Section First.
Context {World : Type} `{Env : !GCD_ENV World} `{Laws : !GCD_LAWS}.
Implicit Types s : GCD World.
Hypothesis pool : ~ pool_refuses.

(** The ends of the spaces, for a number of address lines. *)
Definition lines_top (m i : Z) (sp : SPACE) : Z := match sp with MemorySpace => 2 ^ m - 1 | IoSpace => 2 ^ i - 1 end.
Definition empty_maps s : Prop := gcd_entries s = ∅ /\ (forall sp, gcd_map s sp = []) /\ (forall sp, gcd_lock s sp = false) /\ mOnGuarding s = false.

Lemma first_entry_run s sp template n : 0 <= n < 64 -> exists a, GcdPool s = Some a /\ a <> 0 /\ gcd_entries s !! a = None /\
  first_entry sp template n s = Ok (tt, upd_map sp (a :: gcd_map s sp)
    (upd_entries (<[a := set_Range (BaseAddress template) (2 ^ n - 1) template]> (gcd_entries s)) s)).
Proof.
  intros Hn. destruct (GcdPool s) as [a|] eqn:E; [|exfalso; apply pool; by exists s].
  destruct (entries_law (GCD_LAWS := Laws) s a E) as [Ha Hf]. exists a. split_and!; try done. unfold first_entry.
  rewrite (Mbind_Ok Mget _ s s s eq_refl), E. rewrite (proj2 (Z.ltb_lt n 64)) by lia.
  set (s1 := upd_entries (<[a := template]> (gcd_entries s)) s). rewrite (Mbind_Ok (Mmodify (upd_entries (<[a := template]> (gcd_entries s)))) _ s tt s1 eq_refl),
    (Mbind_Ok (GASSERT true) _ s1 tt s1 eq_refl).
  set (e := set_Range _ _ template). assert (write_entry a e s1 = Ok (tt, upd_entries (<[a := e]> (gcd_entries s)) s1)) as Ew.
  { unfold write_entry, s1. cbn [gcd_entries upd_entries]. by rewrite lookup_insert_eq, insert_insert_eq. }
  rewrite (Mbind_Ok _ _ _ _ _ Ew). clear Ew. unfold e. destruct (mask_of_eq n Hn) as [Em Hp]. unfold mask_of in Em.
  rewrite Z.shiftl_mul_pow2, Z.mul_1_l in * by lia. rewrite (wrapU_id 64 (2 ^ n)) by (split; lia). rewrite Em. done.
Qed.

Lemma one_entry (h : gmap Z EFI_GCD_MAP_ENTRY) a e : h !! a = Some e -> omap (fun x => h !! x) [a] = [e].
Proof. intros H. cbn. by rewrite H. Qed.

Lemma first_entries_ok s m i : empty_maps s -> 0 <= m <= 62 -> 0 <= i <= 62 ->
  wp true (first_entry MemorySpace mGcdMemorySpaceMapEntryTemplate m ;;; first_entry IoSpace mGcdIoSpaceMapEntryTemplate i)
    (fun _ s' => resources (lines_top m i) s' (fun _ => []) (gcd_world s)) s.
Proof.
  intros (E1 & E2 & E3 & E4) Hm Hi. destruct (first_entry_run s MemorySpace mGcdMemorySpaceMapEntryTemplate m) as (a & _ & Ha & Na & Ea); [lia|].
  eapply wp_step; [exact Ea|]. set (s1 := upd_map _ _ _).
  destruct (first_entry_run s1 IoSpace mGcdIoSpaceMapEntryTemplate i) as (a' & _ & Ha' & Na' & Ea'); [lia|].
  eapply wp_eq; [exact Ea'|]. cbn [s1 gcd_entries upd_map upd_entries] in Na'. rewrite E1 in Na'. apply lookup_insert_None in Na' as [_ Hne].
  set (s2 := upd_map IoSpace _ _).
  assert (gcd_map s2 MemorySpace = [a] /\ gcd_map s2 IoSpace = [a']) as [M1 M2].
  { unfold s2, s1. split; cbn; unfold upd_space; rewrite ?bool_decide_true, ?bool_decide_false by done; by rewrite E2. }
  assert (gcd_entries s2 = <[a' := set_Range 0 (2 ^ i - 1) mGcdIoSpaceMapEntryTemplate]> (<[a := set_Range 0 (2 ^ m - 1) mGcdMemorySpaceMapEntryTemplate]> ∅)) as Eh
    by (cbn; by rewrite E1).
  assert (forall sp, entries_of s2 sp = [set_Range 0 (lines_top m i sp) (nothing_at sp)]) as Ee.
  { intros sp. unfold entries_of. rewrite Eh. destruct sp; [rewrite M1|rewrite M2]; apply one_entry; [|by rewrite lookup_insert_eq].
    by rewrite lookup_insert_ne, lookup_insert_eq. }
  assert (0 < 2 ^ m) by (apply Z.pow_pos_nonneg; lia). assert (0 < 2 ^ i) by (apply Z.pow_pos_nonneg; lia).
  assert (forall sp, 0 <= lines_top m i sp) as Ht by (intros []; cbn; lia).
  assert (idle (lines_top m i) s2) as I2.
  { split; [|intros sp; apply E3]. split.
    - intros sp. rewrite Ee, Eh. destruct sp; [rewrite M1|rewrite M2]; (constructor; [|constructor]); [by rewrite lookup_insert_ne, lookup_insert_eq|by rewrite lookup_insert_eq].
    - intros sp. rewrite Ee. cbn. specialize (Ht sp). by split_and!; [|lia|lia].
    - intros sp. by rewrite Ee.
    - intros sp. rewrite Ee. apply signed_cons. split; [by destruct sp|constructor].
    - rewrite M1, M2. cbn. apply NoDup_cons. split; [set_solver|apply NoDup_singleton].
    - rewrite M1, M2, Eh. intros x [e [[<- _]|[_ [[<- _]|[_ E]]%lookup_insert_Some]]%lookup_insert_Some]; [set_solver|set_solver|]. by rewrite lookup_empty in E.
    - exact E4. }
  split; [done| |intros sp; constructor|done]. intros sp y Hy. unfold space_info. rewrite Ee. cbn. rewrite decide_True by (cbn; lia). by destruct sp.
Qed.
End First.
