(* ===== verification/GcdOwners.v ===== *)
(** * GcdOwners: what the DXE core takes at the start

    After the resources have been placed, CoreInitializeGcdServices allocates
    what is in use and then all whole pages of system memory that are left, and
    changes nothing else. *)

From stdpp Require Import base option list gmap fin_maps.
From Stdlib Require Import ZArith Lia.
From S2P Require Import Prelude Gcd GcdMap GcdRange GcdState GcdConvert GcdAlloc GcdServices GcdInit GcdWalk.

Local Open Scope Z_scope.
Local Open Scope edk_scope.

Section Owners.
Context {World : Type} `{Env : !GCD_ENV World} `{Laws : !GCD_LAWS} (top : SPACE -> Z).
Implicit Types s : GCD World.
Hypothesis lines : narrow top.
Hypothesis image : gDxeCoreImageHandle <> 0.

(** Memory that had no owner may belong to the DXE core; nothing else has
    changed. *)
Definition owned (k : ENTRY) : ENTRY := set_Handles gDxeCoreImageHandle 0 k.
Definition grows s s' : Prop :=
  (forall y, space_info s' MemorySpace y = space_info s MemorySpace y \/
     exists k, space_info s MemorySpace y = Some k /\ ImageHandle k = 0 /\ space_info s' MemorySpace y = Some (owned k)) /\
  forall y, space_info s' IoSpace y = space_info s IoSpace y.
Definition types_ok s : Prop := forall y k, space_info s MemorySpace y = Some k -> 0 <= GcdMemoryType k < EfiGcdMemoryTypeMaximum.

Lemma owners_refl s : grows s s.
Proof. split; [intros y; by left|done]. Qed.
Lemma owners_trans s s1 s2 : grows s s1 -> grows s1 s2 -> grows s s2.
Proof.
  intros [G1 I1] [G2 I2]. split; [|intros y; by rewrite I2]. intros y. destruct (G2 y) as [E2|(k2 & E2 & H2 & E2')].
  - rewrite E2. apply G1.
  - destruct (G1 y) as [E1|(k1 & E1 & H1 & E1')]; [right; exists k2; by rewrite <- E1|].
    rewrite E1' in E2. injection E2 as <-. by apply image in H2.
Qed.
Lemma grows_types s s' : grows s s' -> types_ok s -> types_ok s'.
Proof.
  intros [G _] T y k E. destruct (G y) as [E1|(k1 & E1 & _ & E1')]; [apply (T y); by rewrite <- E1|].
  rewrite E1' in E. injection E as <-. apply (T y k1 E1).
Qed.
Lemma grows_world s s' w : grows s s' -> grows s (upd_gworld w s').
Proof. done. Qed.

(** ** One range *)

Definition all_free s (t b l : Z) : Prop := forall y k, b <= y <= b + l - 1 -> space_info s MemorySpace y = Some k -> ImageHandle k = 0 /\ GcdMemoryType k = t.

Lemma takes_ok s t b l : idle top s -> 0 <= t < EfiGcdMemoryTypeMaximum -> plain b l -> l <= 2 ^ 62 ->
  wp true (core_takes t b l) (fun st s' => idle top s' /\ gcd_world s' = gcd_world s /\ grows s s' /\
    (0 < l -> b + l - 1 <= top MemorySpace -> all_free s t b l -> ~ pool_refuses ->
       forall y, space_info s' MemorySpace y = if decide (b <= y <= b + l - 1) then owned <$> space_info s MemorySpace y else space_info s MemorySpace y)) s.
Proof.
  intros I Ht (Hb & Hl & Hw) Hmax. pose proof I as [W L]. unfold core_takes. destruct (Z.eq_dec l 0) as [->|Hne].
  { eapply wp_step.
    { unfold CoreAllocateMemorySpace, CoreAllocateSpace. rewrite (proj2 (Z.eqb_neq gDxeCoreImageHandle 0)) by done.
      assert (0 <= t < 2 ^ 32) as Ht' by (unfold EfiGcdMemoryTypeMaximum in Ht; lia). rewrite (wrapU_id 32 t) by done. by rewrite (proj2 (Z.leb_gt EfiGcdMemoryTypeMaximum t)) by lia. }
    apply wp_ret. split_and!; try done; try apply owners_refl. }
  pose proof (lines MemorySpace) as Hlines. eapply wp_seq.
  { apply (allocate_space_ok top MemorySpace); try done; first [by left|by apply narrow_small|lia]. }
  cbn beta. intros [st r] s' (b' & _ & A). apply wp_ret. pose proof (al_address _ _ _ _ _ _ _ _ _ _ _ _ _ _ _ A eq_refl) as ->.
  cbn [fst snd] in A. split; [split; [apply A|intros sp; by rewrite (al_lock _ _ _ _ _ _ _ _ _ _ _ _ _ _ _ A)]|]. split; [apply A|].
  assert (forall y, space_info s' IoSpace y = space_info s IoSpace y) as Io.
  { intros y. unfold space_info. by destruct (al_other _ _ _ _ _ _ _ _ _ _ _ _ _ _ _ A IoSpace) as [_ ->]. }
  split.
  - destruct (al_status _ _ _ _ _ _ _ _ _ _ _ _ _ _ _ A) as [(_ & _ & Sm)|[(_ & _ & Sm)|(_ & Av & _ & In)]].
    1,2: split; [intros y; left; by apply same_info|done].
    split; [|done]. intros y. rewrite In. case_decide as Hd; [|by left]. destruct (space_info s MemorySpace y) as [k|] eqn:Ek; [|by left].
    right. exists k. split_and!; try done. destruct Av as (_ & _ & _ & Av). specialize (Av y k Hd Ek). unfold usable, CoreAllocateSpaceCheckEntry in Av.
    destruct (Z.eqb_spec (ImageHandle k) 0); [done|]. done.
  - intros Hp Hin Hf Hpool. apply allocated_done in A as [_ In]; try done. split_and!; [lia|lia|by rewrite Z.mod_1_r|]. intros y k Hy Hk.
    destruct (Hf y k Hy Hk) as [E1 E2]. unfold usable, CoreAllocateSpaceCheckEntry. rewrite E1, E2. cbn. by rewrite Z.eqb_refl.
Qed.

(** ** What is in use *)

Lemma descriptor_type s x e : gcd_wf top s -> e ∈ entries_of s MemorySpace -> BaseAddress e <= x <= EndAddress e ->
  space_info s MemorySpace x = Some (kind e).
Proof. intros W H1 H2. by apply (info_elem _ 0 (top MemorySpace)); [apply wf_chain| |]. Qed.

(** A call for the descriptor of an address. *)
Lemma descriptor_step {B} s x (k : EFI_STATUS * option MEMORY_DESCRIPTOR -> M (GCD World) B) Q : idle top s -> 0 <= x < 2 ^ 64 ->
  (forall s', as_before s s' -> idle top s' -> grows s s' ->
     (top MemorySpace < x -> wp true (k (EFI_NOT_FOUND, None)) Q s') /\
     (forall e, e ∈ entries_of s MemorySpace -> BaseAddress e <= x <= EndAddress e -> wp true (k (EFI_SUCCESS, Some (BuildMemoryDescriptor e))) Q s')) ->
  wp true (Mbind (CoreGetMemorySpaceDescriptor x true) k) Q s.
Proof.
  intros [W L] Hx H. eapply wp_seq; [apply (get_descriptor_ok top s MemorySpace BuildMemoryDescriptor x W (L MemorySpace) Hx)|].
  cbn beta. intros r s' [D B0]. pose proof B0 as (E1 & E2 & E3 & E4 & E5).
  assert (forall sp, entries_of s' sp = entries_of s sp) as Ee by (intros sp; unfold entries_of; by rewrite E1, E2).
  assert (idle top s') as I'.
  { split; [|intros sp; by rewrite E3]. destruct s, s'. cbn in *. subst. by destruct W. }
  assert (grows s s') as G by (split; intros y; unfold space_info; rewrite Ee; [by left|done]).
  destruct (H s' B0 I' G) as [H1 H2]. destruct D as [[Ht ->]|(Ht & e & He & Hr & ->)]; [by apply H1|by apply H2].
Qed.

Definition tame_hob (h : HOB) : Prop :=
  match h with HobMemory b l _ | HobFv b l => plain b l /\ b < 2 ^ 64 /\ l <= 2 ^ 62 | _ => True end.

Lemma allocate_hob_ok s h : idle top s -> types_ok s -> tame_hob h ->
  wp true (allocate_hob h) (fun _ s' => idle top s' /\ grows s s') s.
Proof.
  intros I T H. assert (wp true (Mret tt) (fun _ s' => idle top s' /\ grows s s') s) as Skip by (apply wp_ret; split; [done|apply owners_refl]).
  destruct h as [| |b l t|b l| | |]; try exact Skip; destruct H as (Hp & Hb & Hl).
  - apply descriptor_step; [done|destruct Hp; lia|]. intros s1 B1 I1 G1. split; [intros _; by apply wp_ret|]. intros e He Hr.
    pose proof (T b (kind e) (descriptor_type s b e (proj1 I) He Hr)) as Ht. cbn [BuildMemoryDescriptor md_Capabilities md_GcdMemoryType].
    eapply wp_seq; [by apply (takes_ok s1 (GcdMemoryType e) b l)|]. cbn beta. intros st s2 (I2 & _ & G2 & _).
    assert (grows s s2) as G by (by apply (owners_trans s s1)). case_match; [|by apply wp_ret].
    destruct (descriptor_law (GCD_LAWS := Laws) t b (Z.shiftr l EFI_PAGE_SHIFT) (not_runtime (Capabilities e)) (gcd_world s2)) as [w Ed].
    eapply wp_eq; [unfold on_gworld; by rewrite Ed|]. split; [|done]. destruct I2. split; [by apply wf_gworld|done].
  - eapply wp_seq; [by apply (takes_ok s EfiGcdMemoryTypeMemoryMappedIo b l)|]. cbn beta. intros st s2 (I2 & _ & G2 & _). by apply wp_ret.
Qed.
Lemma allocate_hobs_ok hobs : forall s, idle top s -> types_ok s -> Forall tame_hob hobs ->
  wp true (allocate_hobs hobs) (fun _ s' => idle top s' /\ grows s s') s.
Proof.
  induction hobs as [|h hobs IH]; intros s I T H; [apply wp_ret; split; [done|apply owners_refl]|]. apply Forall_cons_1 in H as [Hh H].
  eapply wp_seq; [by apply allocate_hob_ok|]. cbn beta. intros _ s1 [I1 G1]. eapply wp_mono; [apply IH; try done; by apply (grows_types s)|].
  cbn beta. intros _ s2 [I2 G2]. split; [done|by apply (owners_trans s s1)].
Qed.

Lemma allocate_first_ok s b l : idle top s -> types_ok s -> plain b l -> b < 2 ^ 64 -> l <= 2 ^ 62 ->
  (forall k, space_info s MemorySpace b = Some k -> is_system (GcdMemoryType k) = true) ->
  wp true (allocate_first b l) (fun _ s' => idle top s' /\ grows s s') s.
Proof.
  intros I T Hp Hb Hl Hs. apply descriptor_step; [done|destruct Hp; lia|]. intros s1 B1 I1 G1. split; [intros _; by apply wp_ret|]. intros e He Hr.
  pose proof (descriptor_type s b e (proj1 I) He Hr) as Ei. pose proof (T b (kind e) Ei) as Ht. specialize (Hs (kind e) Ei).
  cbn [BuildMemoryDescriptor md_GcdMemoryType]. change (is_system (GcdMemoryType e) = true) in Hs. rewrite Hs. eapply wp_step; [done|].
  eapply wp_seq; [by apply (takes_ok s1 (GcdMemoryType e) b l)|]. cbn beta. intros st s2 (I2 & _ & G2 & _). apply wp_ret.
  split; [done|by apply (owners_trans s s1)].
Qed.

(** ** The rest *)

(** The whole pages of an entry. *)
Definition first_page (e : ENTRY) : Z := align_up 12 (BaseAddress e).
Definition page_bytes (e : ENTRY) : Z := align_down 12 (EndAddress e + 1 - first_page e).
Definition has_pages (e : ENTRY) : bool := first_page e + EFI_PAGE_SIZE <=? EndAddress e + 1.
Definition in_pages (e : ENTRY) (y : Z) : bool := has_pages e && (first_page e <=? y) && (y <? first_page e + page_bytes e).
Definition free_entry_of (e : ENTRY) : bool := is_system (GcdMemoryType e) && (ImageHandle e =? 0).
(** The entry with the list of blocks. *)
Definition hob_entry (HobStart FreeBottom : Z) (e : ENTRY) : bool := (BaseAddress e <=? HobStart) && (FreeBottom <=? EndAddress e + 1).

Lemma pages_facts e : 0 <= BaseAddress e <= EndAddress e -> has_pages e = true ->
  BaseAddress e <= first_page e /\ 0 < page_bytes e /\ first_page e + page_bytes e <= EndAddress e + 1 /\
  EndAddress e + 1 < first_page e + page_bytes e + EFI_PAGE_SIZE /\ first_page e < BaseAddress e + EFI_PAGE_SIZE.
Proof.
  intros He H%Z.leb_le. unfold EFI_PAGE_SIZE in *. destruct (align_up_spec 12 (BaseAddress e)) as [A1 A2]; [lia|lia|]. fold (first_page e) in A1, A2.
  destruct (align_down_spec 12 (EndAddress e + 1 - first_page e)) as (D1 & D2 & D3); [lia|lia|]. fold (page_bytes e) in D1, D2, D3.
  split_and!; lia.
Qed.
(** What the code computes from the descriptor of an entry. *)
Lemma build_pages e : 0 <= BaseAddress e <= EndAddress e -> EndAddress e < 2 ^ 62 -> let d := BuildMemoryDescriptor e in
  wrapU 64 (md_BaseAddress d + md_Length d) = EndAddress e + 1 /\
  (((descriptor_pages d).2 =? 0) || (EndAddress e + 1 <? (descriptor_pages d).1)) = negb (has_pages e) /\
  (has_pages e = true -> descriptor_pages d = (first_page e, page_bytes e)).
Proof.
  intros He Ht. cbn zeta. cbn [BuildMemoryDescriptor md_BaseAddress md_Length descriptor_pages]. rewrite (wrapU_id 64 (EndAddress e - BaseAddress e + 1)) by (split; lia).
  replace (BaseAddress e + (EndAddress e - BaseAddress e + 1)) with (EndAddress e + 1) by lia. split; [apply wrapU_id; split; lia|].
  destruct (align_up_spec 12 (BaseAddress e)) as [A1 A2]; [lia|lia|]. fold (first_page e) in A1, A2. unfold has_pages, EFI_PAGE_SIZE.
  destruct (Z.le_gt_cases (first_page e) (EndAddress e + 1)) as [Hle|Hgt].
  - unfold descriptor_pages. cbn [BuildMemoryDescriptor md_BaseAddress md_Length]. rewrite (wrapU_id 64 (EndAddress e - BaseAddress e + 1)) by (split; lia).
    rewrite page_range_eq by (unfold first_page in Hle; lia). fold (first_page e).
    replace (BaseAddress e + (EndAddress e - BaseAddress e + 1) - first_page e) with (EndAddress e + 1 - first_page e) by lia. fold (page_bytes e). cbn [fst snd].
    destruct (align_down_spec 12 (EndAddress e + 1 - first_page e)) as (D1 & D2 & D3); [lia|lia|]. fold (page_bytes e) in D1, D2, D3.
    split; [|done]. rewrite (proj2 (Z.ltb_ge _ _)), orb_false_r by lia. destruct (Z.leb_spec (first_page e + 0x1000) (EndAddress e + 1)) as [H|H]; cbn [negb].
    + assert (2 ^ 12 <= page_bytes e) by (apply align_down_max; [lia|lia|done]). lia.
    + apply Z.eqb_eq. destruct (Z.eq_dec (page_bytes e) 0) as [|Hne]; [done|]. exfalso.
      pose proof (Z.div_mod (page_bytes e) (2 ^ 12) ltac:(lia)) as Em. rewrite D2 in Em.
      assert (page_bytes e / 2 ^ 12 <> 0) by (intros E0; rewrite E0 in Em; lia). nia.
  - split; [|lia]. rewrite (proj2 (Z.leb_gt _ _)) by lia. cbn [negb].
    apply orb_true_iff. right. apply Z.ltb_lt. unfold descriptor_pages, page_range. cbn [fst BuildMemoryDescriptor md_BaseAddress].
    rewrite page_align by lia. fold (first_page e). lia.
Qed.

Hypothesis pool : ~ pool_refuses.

Lemma give_ok s e : idle top s -> 0 <= BaseAddress e <= EndAddress e -> EndAddress e <= top MemorySpace ->
  free_entry_of e = true -> has_pages e = true -> (forall y, BaseAddress e <= y <= EndAddress e -> space_info s MemorySpace y = Some (kind e)) ->
  wp true (give (BuildMemoryDescriptor e)) (fun _ s' => idle top s' /\ grows s s' /\
    forall y, space_info s' MemorySpace y = if in_pages e y then Some (owned (kind e)) else space_info s MemorySpace y) s.
Proof.
  intros I He Ht Hf Hp Hi. pose proof (lines MemorySpace) as Hlines. destruct (build_pages e He) as (_ & _ & Ep); [lia|].
  destruct (pages_facts e He Hp) as (P1 & P2 & P3 & _). unfold give. rewrite (Ep Hp).
  destruct (descriptor_law (GCD_LAWS := Laws) EfiConventionalMemory (first_page e) (Z.shiftr (page_bytes e) EFI_PAGE_SHIFT)
    (not_runtime (md_Capabilities (BuildMemoryDescriptor e))) (gcd_world s)) as [w Ed].
  eapply wp_step; [unfold on_gworld; by rewrite Ed|]. set (s1 := upd_gworld w s).
  assert (idle top s1) as I1 by (destruct I; split; [by apply wf_gworld|done]).
  apply andb_true_iff in Hf as [Hsys Hown%Z.eqb_eq].
  assert (0 <= GcdMemoryType e < EfiGcdMemoryTypeMaximum) as Hty.
  { unfold is_system in Hsys. apply orb_true_iff in Hsys as [E%Z.eqb_eq|E%Z.eqb_eq]; rewrite E; done. }
  eapply wp_seq; [apply (takes_ok s1 (md_GcdMemoryType (BuildMemoryDescriptor e)) (first_page e) (page_bytes e)); try done; unfold plain; lia|].
  cbn beta. intros st s2 (I2 & _ & G2 & E2). apply wp_ret. split; [done|]. split; [exact G2|]. intros y. rewrite E2; try done; try lia.
  2:{ intros y' k Hy' Hk. change (space_info s1 MemorySpace y') with (space_info s MemorySpace y') in Hk. rewrite Hi in Hk by lia. by injection Hk as <-. }
  unfold in_pages. rewrite Hp. cbn [andb]. change (space_info s1 MemorySpace y) with (space_info s MemorySpace y). case_decide as Hd.
  - replace ((first_page e <=? y) && (y <? first_page e + page_bytes e)) with true by lia. by rewrite Hi by lia.
  - by replace ((first_page e <=? y) && (y <? first_page e + page_bytes e)) with false by lia.
Qed.

(** An entry that is given away when the list comes to it, or at the end. *)
Definition to_give (e : ENTRY) : bool := free_entry_of e && has_pages e.
(** What the map says of an address of an entry of the snapshot, with the
    entries of [P] given away. *)
Definition after_giving (P : ENTRY -> bool) s (e : ENTRY) : Prop :=
  forall y, BaseAddress e <= y <= EndAddress e -> space_info s MemorySpace y = Some (if P e && in_pages e y then owned (kind e) else kind e).

Section GiveAll.
Context (HobStart FreeBottom : Z).
Definition now (e : ENTRY) : bool := to_give e && negb (hob_entry HobStart FreeBottom e).
Definition later (e : ENTRY) : bool := to_give e && hob_entry HobStart FreeBottom e.

Lemma give_all_step e es acc : 0 <= BaseAddress e <= EndAddress e -> EndAddress e <= top MemorySpace ->
  give_all HobStart FreeBottom (BuildMemoryDescriptor <$> (e :: es)) acc =
    if now e then (give (BuildMemoryDescriptor e) ;;; give_all HobStart FreeBottom (BuildMemoryDescriptor <$> es) acc)
    else give_all HobStart FreeBottom (BuildMemoryDescriptor <$> es) (if later e then Some (BuildMemoryDescriptor e) else acc).
Proof.
  intros He Ht. pose proof (lines MemorySpace) as Hlines. destruct (build_pages e He) as (B1 & B2 & _); [lia|]. cbn [fmap list_fmap give_all].
  destruct (descriptor_pages (BuildMemoryDescriptor e)) as [pb pl]. cbn [fst snd] in B2. rewrite B1, B2. unfold now, later, to_give.
  change (is_free (BuildMemoryDescriptor e)) with (free_entry_of e). destruct (free_entry_of e), (has_pages e); cbn [negb orb andb]; try done.
  unfold hob_entry. change (md_BaseAddress (BuildMemoryDescriptor e)) with (BaseAddress e).
  by destruct ((BaseAddress e <=? HobStart) && (FreeBottom <=? EndAddress e + 1)).
Qed.

Definition pick (acc : option MEMORY_DESCRIPTOR) (e : ENTRY) : option MEMORY_DESCRIPTOR := if later e then Some (BuildMemoryDescriptor e) else acc.

Lemma give_all_ok es : forall s lo acc, idle top s -> chain es lo (top MemorySpace) -> 0 <= lo ->
  Forall (fun e => forall y, BaseAddress e <= y <= EndAddress e -> space_info s MemorySpace y = Some (kind e)) es ->
  wp true (give_all HobStart FreeBottom (BuildMemoryDescriptor <$> es) acc) (fun r s' => idle top s' /\ grows s s' /\
    Forall (after_giving now s') es /\ (forall y, y < lo -> space_info s' MemorySpace y = space_info s MemorySpace y) /\ r = foldl pick acc es) s.
Proof.
  induction es as [|e es IH]; intros s lo acc I C Hlo F.
  { apply wp_ret. split_and!; try done. apply owners_refl. }
  pose proof C as (Eb & Le & C'). pose proof (chain_le _ _ _ C') as Htop. apply Forall_cons_1 in F as [Fe F]. rewrite give_all_step by lia.
  assert (forall e' y, e' ∈ es -> BaseAddress e' <= y -> EndAddress e < y) as Hafter.
  { intros e' y Hin Hy. destruct (chain_range _ _ _ e' C' Hin). lia. }
  cbn [foldl]. destruct (now e) eqn:En.
  - assert (pick acc e = acc) as -> by (unfold pick, later, now in *; by destruct (to_give e), (hob_entry HobStart FreeBottom e)).
    pose proof En as Eg. unfold now, to_give in Eg. apply andb_true_iff in Eg as [[Ef Ep]%andb_true_iff _].
    destruct (pages_facts e ltac:(lia) Ep) as (P1 & P2 & P3 & _).
    eapply wp_seq; [apply (give_ok s e); try done; lia|]. cbn beta. intros _ s1 (I1 & G1 & E1).
    assert (forall y, in_pages e y = true -> BaseAddress e <= y <= EndAddress e) as Hin by (unfold in_pages; intros y; lia).
    eapply wp_mono; [apply (IH s1 (EndAddress e + 1) acc); try done; try lia|].
    + apply Forall_forall. rewrite Forall_forall in F. intros e' He' y Hy. rewrite E1. pose proof (Hafter e' y He' ltac:(lia)).
      destruct (in_pages e y) eqn:Ei; [apply Hin in Ei; lia|]. by apply F.
    + cbn beta. intros r s2 (I2 & G2 & A2 & K2 & ->). split_and!; try done; [by apply (owners_trans s s1)| |].
      * constructor; [|done]. intros y Hy. rewrite K2 by lia. rewrite E1, En. cbn [andb]. destruct (in_pages e y); [done|]. by apply Fe.
      * intros y Hy. rewrite K2 by lia. rewrite E1. destruct (in_pages e y) eqn:Ei; [apply Hin in Ei; lia|done].
  - eapply wp_mono; [apply (IH s (EndAddress e + 1)); try done; lia|].
    cbn beta. intros r s2 (I2 & G2 & A2 & K2 & ->). split_and!; try done.
    + constructor; [|done]. intros y Hy. rewrite K2 by lia. rewrite En. cbn [andb]. by apply Fe.
    + intros y Hy. rewrite K2 by lia. done.
Qed.

(** At most one entry has the list. *)
Lemma later_unique es lo e e' : HobStart < FreeBottom -> chain es lo (top MemorySpace) -> e ∈ es -> e' ∈ es -> later e = true -> later e' = true -> e = e'.
Proof.
  intros Hs C H H' L L'. unfold later, hob_entry in *. destruct (Z.le_ge_cases (BaseAddress e) (BaseAddress e')) as [Hle|Hle].
  - destruct (chain_sep _ _ _ e e' C H H' Hle); [done|]. lia.
  - destruct (chain_sep _ _ _ e' e C H' H Hle); [done|]. lia.
Qed.
Lemma pick_result es : forall acc, (foldl pick acc es = acc /\ forall e, e ∈ es -> later e = false) \/
  exists e, e ∈ es /\ later e = true /\ foldl pick acc es = Some (BuildMemoryDescriptor e).
Proof.
  induction es as [|e es IH]; intros acc; cbn [foldl]; [left; split; [done|by intros e ?%elem_of_nil]|].
  destruct (IH (pick acc e)) as [[-> No]|(e' & H1 & H2 & H3)]; [|right; exists e'; split; [by right|done]].
  unfold pick. destruct (later e) eqn:El; [right; exists e; by split; [left|]|]. left. split; [done|].
  intros e' [->|H]%elem_of_cons; [done|by apply No].
Qed.

(** ** A pool that leaves the maps alone *)

Class QUIET : Prop := {
  quiet_pool n s : exists p w, p <> 0 /\ MapPool n s = Ok (p, upd_gworld w s);
  quiet_free p s : exists w, MapFree p s = Ok (tt, upd_gworld w s);
  quiet_turns : (2 <= map_turns)%nat
}.
Context `{Quiet : !QUIET}.

Lemma idle_gworld s w : idle top s -> idle top (upd_gworld w s).
Proof. intros [W L]. split; [by apply wf_gworld|done]. Qed.

Lemma quiet_map s : idle top s -> exists p s', p <> 0 /\
  CoreGetMemorySpaceMap true true s = Ok ((EFI_SUCCESS, Some (Z.of_nat (length (gcd_map s MemorySpace)), p, BuildMemoryDescriptor <$> entries_of s MemorySpace)), s') /\
  idle top s' /\ forall sp, entries_of s' sp = entries_of s sp.
Proof.
  intros I. destruct (idle_held top s MemorySpace I) as [Ea H1]. set (s1 := upd_lock MemorySpace true s) in *.
  destruct (held_idle top s1 MemorySpace H1) as [Er I2]. set (s2 := upd_lock MemorySpace false s1) in *.
  set (N := Z.of_nat (length (gcd_map s MemorySpace))).
  destruct (quiet_pool (N * sizeof_MEMORY_DESCRIPTOR) s2) as (p & w & Hp & Ep). pose proof (idle_gworld s2 w I2) as I3. set (s3 := upd_gworld w s2) in *.
  destruct (idle_held top s3 MemorySpace I3) as [Ea' H4]. set (s4 := upd_lock MemorySpace true s3) in *.
  destruct (held_idle top s4 MemorySpace H4) as [Er' I5]. exists p, (upd_lock MemorySpace false s4). split; [done|]. split; [|split; [done|by intros sp]].
  unfold CoreGetMemorySpaceMap. cbn [negb]. unfold CoreAcquireGcdMemoryLock. rewrite (Mbind_Ok _ _ _ _ _ Ea). pose proof quiet_turns as Ht.
  destruct map_turns as [|[|turns]]; [lia|lia|]. cbn [map_loop].
  rewrite (Mbind_Ok (CoreCountGcdMapEntry MemorySpace) _ s1 N s1 eq_refl), andb_false_r.
  unfold CoreReleaseGcdMemoryLock, CoreAcquireGcdMemoryLock. rewrite (Mbind_Ok _ _ _ _ _ Er), (Mbind_Ok _ _ s2 tt s2 eq_refl), (Mbind_Ok _ _ _ _ _ Ep).
  rewrite (proj2 (Z.eqb_neq p 0)) by done. cbn [negb]. rewrite (Mbind_Ok _ _ _ _ _ Ea'), (Mbind_Ok (CoreCountGcdMapEntry MemorySpace) _ s4 N s4 eq_refl).
  rewrite Z.eqb_refl. cbn [andb]. rewrite (Mbind_Ok Mget _ s4 s4 s4 eq_refl), (Mbind_Ok _ _ _ _ _ (read_entries_run top s4 MemorySpace (proj1 H4))).
  by rewrite (Mbind_Ok _ _ _ _ _ Er').
Qed.

(** Everything after the map has been read. *)
Lemma rest_ok s n m : HobStart < FreeBottom -> idle top s -> let es := entries_of s MemorySpace in
  wp true (let! HobList := give_all HobStart FreeBottom (BuildMemoryDescriptor <$> es) None in
           let! NewHobList := MapPool n in
           GASSERT (negb (NewHobList =? 0)) ;;;
           (match HobList with Some d => give d | None => Mret tt end) ;;;
           MapFree m ;;;
           Mret NewHobList)
    (fun p s' => p <> 0 /\ idle top s' /\ grows s s' /\ Forall (after_giving to_give s') es) s.
Proof.
  intros Hs I es. pose proof (wf_chain _ _ (proj1 I) MemorySpace) as C. fold es in C.
  eapply wp_seq.
  { apply (give_all_ok es s 0 None); try done. apply Forall_forall. intros e He y Hy. by apply (descriptor_type s y e (proj1 I)). }
  cbn beta. intros r s1 (I1 & G1 & A1 & _ & ->). rewrite Forall_forall in A1.
  destruct (quiet_pool n s1) as (p & w & Hp & Ep). eapply wp_step; [exact Ep|]. set (s2 := upd_gworld w s1).
  rewrite (proj2 (Z.eqb_neq p 0)) by done. eapply wp_step; [done|].
  assert (forall s', idle top s' -> grows s s' -> Forall (after_giving to_give s') es ->
    wp true (MapFree m ;;; Mret p) (fun p s' => p <> 0 /\ idle top s' /\ grows s s' /\ Forall (after_giving to_give s') es) s') as Fin.
  { intros s' I' G' A'. destruct (quiet_free m s') as [w' Ef]. eapply wp_step; [exact Ef|]. apply wp_ret. split_and!; try done. by apply idle_gworld. }
  assert (forall e, later e = false -> to_give e = now e) as Hnow by (intros e; unfold later, now; destruct (to_give e), (hob_entry HobStart FreeBottom e); done).
  destruct (pick_result es None) as [[-> No]|(e & He & Hl & ->)].
  - eapply wp_step; [done|]. apply Fin; [by apply idle_gworld|exact G1|]. apply Forall_forall. intros e He y Hy.
    rewrite (Hnow e (No e He)). by apply (A1 e He).
  - destruct (chain_range _ _ _ e C He) as [R1 R2]. assert (now e = false) as Hne by (unfold now, later in *; destruct (to_give e), (hob_entry HobStart FreeBottom e); done).
    pose proof Hl as Eg. unfold later, to_give in Eg. apply andb_true_iff in Eg as [[Ef Epg]%andb_true_iff _].
    destruct (pages_facts e ltac:(lia) Epg) as (P1 & P2 & P3 & _).
    eapply wp_seq.
    { apply (give_ok s2 e); try done; [by apply idle_gworld|lia|lia|]. intros y Hy. pose proof (A1 e He y Hy) as E. by rewrite Hne in E. }
    cbn beta. intros _ s3 (I3 & G3 & E3). apply Fin; [done|by apply (owners_trans s s1)|]. apply Forall_forall. intros e' He' y Hy. rewrite E3.
    change (space_info s2 MemorySpace y) with (space_info s1 MemorySpace y). destruct (decide (e' = e)) as [->|Hd].
    + assert (to_give e = true) as -> by (unfold to_give; by rewrite Ef, Epg). cbn [andb]. destruct (in_pages e y); [done|]. rewrite (A1 e He y Hy). by rewrite Hne.
    + assert (later e' = false) as Hl' by (apply not_true_iff_false; intros L; apply Hd; by apply (later_unique es 0)).
      rewrite (Hnow e' Hl'), (A1 e' He' y Hy). destruct (in_pages e y) eqn:Ei; [|done]. exfalso.
      assert (BaseAddress e <= y <= EndAddress e) by (unfold in_pages in Ei; lia).
      destruct (Z.le_ge_cases (BaseAddress e) (BaseAddress e')) as [Hle|Hle].
      * destruct (chain_sep _ _ _ e e' C He He' Hle); [congruence|lia].
      * destruct (chain_sep _ _ _ e' e C He' He Hle); [congruence|lia].
Qed.
End GiveAll.
End Owners.
