(* ===== verification/GcdInitTheorems.v ===== *)
(** * GcdInitTheorems: the initialisation of the global coherency domain

    The choice of the first memory, and the maps that
    CoreInitializeGcdServices leaves. *)

From stdpp Require Import base option list gmap fin_maps.
From Stdlib Require Import ZArith Lia.
From S2P Require Import Prelude Gcd GcdMap GcdRange GcdState GcdConvert GcdAlloc GcdServices GcdTheorems GcdInit GcdRegion GcdWalk GcdOwners.

Local Open Scope Z_scope.
Local Open Scope edk_scope.

(** ** Entries and pages *)

(** Addresses of which a reduced map says the same are in one entry. *)
Lemma uniform_entry es : forall lo hi p q k, chain es lo hi -> reduced es -> lo <= p <= q -> (forall y, p <= y <= q -> info es y = Some k) ->
  exists e, e ∈ es /\ kind e = k /\ BaseAddress e <= p /\ q <= EndAddress e.
Proof.
  induction es as [|e es IH]; intros lo hi p q k C R Hp H; [specialize (H p ltac:(lia)); done|]. destruct C as (Eb & Le & C).
  apply reduced_cons in R as [R Hne]. destruct (Z.le_gt_cases p (EndAddress e)) as [Hin|Hout].
  - assert (kind e = k) as Hk by (specialize (H p ltac:(lia)); cbn in H; rewrite decide_True in H by lia; by injection H).
    destruct (Z.le_gt_cases q (EndAddress e)) as [Hq|Hq]; [exists e; split; [by left|]; by split_and!; [|lia|]|]. exfalso.
    specialize (H (EndAddress e + 1) ltac:(lia)). cbn in H. rewrite decide_False in H by lia. destruct es as [|e2 es]; [done|].
    destruct C as (Eb2 & Le2 & _). cbn in H. rewrite decide_True in H by lia. apply (Hne e2 eq_refl). congruence.
  - destruct (IH (EndAddress e + 1) hi p q k C R ltac:(lia)) as (e' & He' & H1 & H2).
    + intros y Hy. specialize (H y Hy). cbn in H. by rewrite decide_False in H by lia.
    + exists e'. split; [by right|done].
Qed.
Lemma info_at es y k : info es y = Some k -> exists e, e ∈ es /\ BaseAddress e <= y <= EndAddress e /\ k = kind e.
Proof.
  induction es as [|e es IH]; [done|]. cbn. case_decide as H; [intros [= <-]; exists e; by split; [left|]|].
  intros (e' & H1 & H2)%IH. exists e'. by split; [right|].
Qed.
(** A whole page of an entry is among its pages. *)
Lemma page_inside e p : 0 <= BaseAddress e -> BaseAddress e <= p -> p + EFI_PAGE_SIZE - 1 <= EndAddress e -> p mod EFI_PAGE_SIZE = 0 ->
  has_pages e = true /\ in_pages e p = true.
Proof.
  unfold EFI_PAGE_SIZE. intros H0 H1 H2 H3. destruct (align_up_spec 12 (BaseAddress e)) as [A1 A2]; [lia|lia|].
  assert (first_page e <= p) as Hf by (apply align_up_min; [lia|lia|done]). fold (first_page e) in A1, A2.
  assert (p + 2 ^ 12 - first_page e <= page_bytes e) as Hp.
  { apply align_down_max; [lia|lia|]. replace (p + 2 ^ 12 - first_page e) with (p - first_page e + 1 * 2 ^ 12) by lia.
    rewrite Z.mod_add by lia. rewrite Zminus_mod, A2. change (2 ^ 12) with 0x1000. rewrite H3. done. }
  assert (has_pages e = true) as Hh by (unfold has_pages, EFI_PAGE_SIZE; lia). split; [done|]. unfold in_pages. rewrite Hh. lia.
Qed.

Section Claims.
Context {World : Type} `{Env : !GCD_ENV World} `{Laws : !GCD_LAWS}.
Implicit Types s : GCD World.

(** No whole page of free system memory is left. *)
Lemma pages_owned top s4 s' x k : gDxeCoreImageHandle <> 0 -> gcd_wf top s4 -> gcd_wf top s' -> Forall (after_giving to_give s') (entries_of s4 MemorySpace) ->
  0 <= x -> x mod EFI_PAGE_SIZE = 0 -> (forall y, x <= y < x + EFI_PAGE_SIZE -> space_info s' MemorySpace y = Some k) ->
  is_system (GcdMemoryType k) = true -> ImageHandle k <> 0.
Proof.
  intros Him W W' A Hx Hm H Hsys H0. pose proof (wf_chain _ _ W MemorySpace) as C. rewrite Forall_forall in A.
  assert (forall y, x <= y <= x + EFI_PAGE_SIZE - 1 -> info (entries_of s4 MemorySpace) y = Some k) as Hk.
  { intros y Hy. assert (0 <= y <= top MemorySpace) as Hr.
    { apply (info_range _ _ _ y (wf_chain _ _ W' MemorySpace)). exists k. apply H. unfold EFI_PAGE_SIZE in *. lia. }
    destruct (info (entries_of s4 MemorySpace) y) as [k'|] eqn:E.
    2:{ assert (is_Some (info (entries_of s4 MemorySpace) y)) as [? ?] by (by apply (info_range _ _ _ _ C)). congruence. }
    destruct (info_at _ _ _ E) as (e & He & Hye & ->). pose proof (A e He y Hye) as E'. rewrite (H y ltac:(lia)) in E'. injection E' as ->.
    destruct (to_give e && in_pages e y); [by apply Him in H0|done]. }
  destruct (uniform_entry _ 0 (top MemorySpace) x (x + EFI_PAGE_SIZE - 1) k C (wf_reduced _ _ W MemorySpace)) as (e & He & <- & H1 & H2);
    [unfold EFI_PAGE_SIZE; lia|done|].
  destruct (chain_range _ _ _ e C He) as [R1 R2]. destruct (page_inside e x ltac:(lia) H1 H2 Hm) as [P1 P2].
  assert (BaseAddress e <= x <= EndAddress e) as Hxe by (unfold EFI_PAGE_SIZE in *; lia).
  pose proof (A e He x Hxe) as E. rewrite (H x) in E by (unfold EFI_PAGE_SIZE; lia).
  assert (to_give e = true) as Hg by (unfold to_give, free_entry_of; rewrite P1; change (GcdMemoryType (kind e)) with (GcdMemoryType e) in Hsys;
    change (ImageHandle (kind e)) with (ImageHandle e) in H0; by rewrite Hsys, H0).
  rewrite Hg, P2 in E. injection E as E. apply Him. rewrite <- E. exact H0.
Qed.

(** What the ranges say is of a type that there is. *)
Lemma what_type sp acc y : Forall (typed sp) acc -> sp = MemorySpace -> 0 <= GcdMemoryType (what_is sp acc y) < EfiGcdMemoryTypeMaximum /\ ImageHandle (what_is sp acc y) = 0.
Proof.
  intros F ->. unfold what_is. destruct (List.find (rg_has y) acc) as [r|] eqn:E; [|done]. apply List.find_some in E as [Hin _].
  rewrite Forall_forall in F. destruct (F r) as [_ Ht]; [by apply list_elem_of_In|]. unfold convert_entry. cbn. unfold EfiGcdMemoryTypeNonExistent in Ht. split; [lia|done].
Qed.

Lemma wp_bind_inv {A B} (c : M (GCD World) A) (k : A -> M (GCD World) B) Q s : wp true (Mbind c k) Q s -> wp true c (fun a s' => wp true (k a) Q s') s.
Proof. unfold wp, Mbind. by destruct (c s) as [[a s']| | |]. Qed.

(** The maps after the resources have been placed. *)
Lemma placed_maps s (hobs : list HOB) m i : narrow (lines_top m i) -> ~ pool_refuses -> empty_maps s -> 0 <= m <= 62 -> 0 <= i <= 62 -> Forall valid_resource hobs ->
  wp true (first_entry MemorySpace mGcdMemorySpaceMapEntryTemplate m ;;;
           (first_entry IoSpace mGcdIoSpaceMapEntryTemplate i ;;; add_resources hobs))
    (fun _ s' => resources (lines_top m i) s' (fun sp => placed (lines_top m i) sp hobs) (gcd_world s)) s.
Proof.
  intros Hn Hpool He Hm Hi Hv. pose proof (first_entries_ok Hpool s m i He Hm Hi) as H. apply wp_bind_inv in H.
  eapply wp_seq; [exact H|]. cbn beta. intros _ s1 H1.
  eapply wp_seq; [exact H1|]. cbn beta. intros _ s2 R2. apply (add_resources_ok (lines_top m i) Hn Hpool (gcd_world s) hobs s2 (fun _ => []) R2 Hv).
Qed.

(** C25 CoreInitializeGcdServices, from empty maps, with ranges in the list that do
    not wrap around and a pool that has memory: no ASSERT fails and it
    returns; the two maps are valid and cover the address lines of the CPU;
    every address is what the first block of the list says whose range lies in
    the space and is not taken by an earlier one, memory may in addition
    belong to the DXE core; and every whole page of the system memory that the
    map describes alike belongs to the DXE core. *)
Theorem Gcd_init s HobStart rest MemoryTop FreeTop FreeBottom m i MemoryBaseAddress MemoryLength `{Quiet : !QUIET} :
  let hobs := HobHandoff MemoryTop FreeTop FreeBottom :: rest in let top := lines_top m i in let found sp := placed top sp hobs in
  gDxeCoreImageHandle <> 0 -> ~ pool_refuses -> empty_maps s ->
  cpu_hob hobs = Some (m, i) -> 0 <= m <= 62 -> 0 <= i <= 62 -> Forall valid_resource hobs -> Forall tame_hob hobs ->
  HobStart < FreeBottom -> plain MemoryBaseAddress MemoryLength -> MemoryBaseAddress < 2 ^ 64 -> MemoryLength <= 2 ^ 62 ->
  (MemoryBaseAddress < 2 ^ m -> is_system (GcdMemoryType (what_is MemorySpace (found MemorySpace) MemoryBaseAddress)) = true) ->
  wp true (CoreInitializeGcdServices HobStart hobs MemoryBaseAddress MemoryLength) (fun p s' => p <> 0 /\ idle top s' /\
    (forall y, 0 <= y <= top MemorySpace -> let k := what_is MemorySpace (found MemorySpace) y in
       space_info s' MemorySpace y = Some k \/ space_info s' MemorySpace y = Some (owned k)) /\
    (forall y, 0 <= y <= top IoSpace -> space_info s' IoSpace y = Some (what_is IoSpace (found IoSpace) y)) /\
    (forall x k, 0 <= x -> x mod EFI_PAGE_SIZE = 0 -> (forall y, x <= y < x + EFI_PAGE_SIZE -> space_info s' MemorySpace y = Some k) ->
       is_system (GcdMemoryType k) = true -> ImageHandle k = gDxeCoreImageHandle)) s.
Proof.
  intros hobs top found Him Hpool He Hcpu Hm Hi Hv Ht Hs Hp Hb Hl Hsys.
  assert (narrow top) as Hn.
  { assert (forall x, 0 <= x <= 62 -> 0 <= 2 ^ x - 1 < 2 ^ 62) as Hx; [|intros []; by apply Hx]. intros x H. assert (0 < 2 ^ x) by (apply Z.pow_pos_nonneg; lia).
    assert (2 ^ x <= 2 ^ 62) by (apply Z.pow_le_mono_r; lia). lia. }
  unfold CoreInitializeGcdServices, hobs. fold hobs. rewrite Hcpu.
  pose proof (placed_maps s hobs m i Hn Hpool He Hm Hi Hv) as H. apply wp_bind_inv in H. eapply wp_seq; [exact H|]. cbn beta. intros _ s0 H0.
  apply wp_bind_inv in H0. eapply wp_seq; [exact H0|]. cbn beta. intros _ s0' H0'. eapply wp_seq; [exact H0'|]. cbn beta. clear H0 H0'. intros _ s1 [I1 Sy1 Ty1 _].
  assert (types_ok s1) as T1.
  { intros y k E. assert (0 <= y <= top MemorySpace) as Hy by (apply (info_range _ _ _ y (wf_chain _ _ (proj1 I1) MemorySpace)); by exists k).
    rewrite (Sy1 MemorySpace y Hy) in E. injection E as <-. by apply what_type. }
  eapply wp_seq.
  { apply (allocate_first_ok top Hn Him s1 MemoryBaseAddress MemoryLength); try done. intros k E.
    assert (0 <= MemoryBaseAddress <= top MemorySpace) as Hy by (apply (info_range _ _ _ _ (wf_chain _ _ (proj1 I1) MemorySpace)); by exists k).
    rewrite (Sy1 MemorySpace _ Hy) in E. injection E as <-. apply Hsys. cbn in Hy. lia. }
  cbn beta. intros _ s2 [I2 G2]. eapply wp_seq; [apply (allocate_hobs_ok top Hn Him hobs s2); try done; by apply (grows_types s1)|].
  cbn beta. intros _ s3 [I3 G3]. destruct (quiet_map top s3 I3) as (p & s4 & Hp4 & E4 & I4 & Em). eapply wp_step; [exact E4|].
  rewrite <- (Em MemorySpace). eapply wp_mono; [apply (rest_ok top Hn Him Hpool HobStart FreeBottom s4); done|].
  cbn beta. intros q s5 (Hq & I5 & G5 & A5).
  assert (grows s1 s5) as G.
  { apply (owners_trans Him s1 s2); [done|]. apply (owners_trans Him s2 s3); [done|]. apply (owners_trans Him s3 s4); [|done].
    split; intros y; unfold space_info; rewrite Em; [by left|done]. }
  assert (forall y, 0 <= y <= top MemorySpace -> let k := what_is MemorySpace (found MemorySpace) y in
    space_info s5 MemorySpace y = Some k \/ space_info s5 MemorySpace y = Some (owned k)) as Mem.
  { intros y Hy. cbn zeta. destruct (proj1 G y) as [->|(k & E & _ & E')]; rewrite (Sy1 MemorySpace y Hy) in *; [by left|]. injection E as <-. by right. }
  split_and!; try done.
  - intros y Hy. rewrite (proj2 G). by apply Sy1.
  - intros x k Hx Hm5 Hk Hks. pose proof (pages_owned top s4 s5 x k Him (proj1 I4) (proj1 I5) A5 Hx Hm5 Hk Hks) as Hne.
    assert (space_info s5 MemorySpace x = Some k) as Ex by (apply Hk; unfold EFI_PAGE_SIZE; lia).
    assert (0 <= x <= top MemorySpace) as Hr by (apply (info_range _ _ _ x (wf_chain _ _ (proj1 I5) MemorySpace)); by exists k).
    destruct (Mem x Hr) as [E|E]; rewrite E in Ex; injection Ex as <-; [|done]. exfalso. apply Hne.
    by apply (what_type MemorySpace (found MemorySpace) x (Ty1 MemorySpace)).
Qed.
End Claims.

(** ** The first memory *)

Section FirstMemory.
Context {World : Type} `{Env : !GCD_ENV World} `{Laws : !GCD_LAWS} (CoreInitializePool : M World unit) (Pcds : PCDS).
Hypothesis pool_init : forall w, exists w', CoreInitializePool w = Ok (tt, w').

(** gMemoryTypeInformation after the list has been read. *)
Definition information_of (hobs : list HOB) (info : list (Z * Z)) : list (Z * Z) :=
  match type_information hobs with Some data => copy_information data info | None => info end.
#[local] Opaque first_capabilities.
(** C26 CoreInitializeMemoryServices returns a region with at least the memory
    that the DXE core needs, and has declared just this region to the page
    allocator: it is the largest part without allocated memory of a range of
    whole pages of tested memory, or the free memory of the hand-off.  The
    ASSERTs fail only if no block has the free memory of the hand-off, or if
    no region of tested memory has as much free memory in one piece. *)
Theorem Gcd_first_memory (s : MEM_INIT World) HobStart rest MemoryTop FreeTop FreeBottom Total :
  let hobs := HobHandoff MemoryTop FreeTop FreeBottom :: rest in let info := information_of hobs (gMemoryTypeInformation s) in
  let Minimal := wrapU 64 (MINIMUM_INITIAL_MEMORY_SIZE + Total) in
  CalculateTotalMemoryBinSizeNeeded info 0 = Ok Total -> handoff_ok HobStart hobs MemoryTop FreeTop FreeBottom ->
  match CoreInitializeMemoryServices CoreInitializePool Pcds HobStart hobs s with
  | Ok ((b, l), s') => Minimal <= l /\ gMemoryTypeInformation s' = info /\
      exists a w, chosen_region HobStart hobs MemoryTop FreeTop FreeBottom a (b, l) /\ CoreInitializePool (mi_world s) = Ok (tt, w) /\
        CoreAddMemoryDescriptor EfiConventionalMemory b (Z.shiftr l EFI_PAGE_SHIFT) (first_capabilities a) w = Ok (tt, mi_world s')
  | AssertFail => find_phit FreeBottom FreeTop 0 hobs = None \/
      (whole_pages FreeBottom FreeTop).2 < Minimal /\ forall a p, region HobStart hobs MemoryTop FreeTop FreeBottom a p -> too_small hobs Minimal p
  | _ => False
  end.
Proof.
  intros hobs info Minimal Et Ho. unfold CoreInitializeMemoryServices, hobs. fold hobs. destruct (pool_init (mi_world s)) as [w Ew].
  set (s1 := mkMemInit (gMemoryTypeInformation s) (DxeCodeTopAddress s) w).
  assert (on_mworld CoreInitializePool s = Ok (tt, s1)) as E1 by (unfold on_mworld; by rewrite Ew). rewrite (Mbind_Ok _ _ _ _ _ E1).
  match goal with |- context [Mbind ?c _ s1] => assert (exists d, c s1 = Ok (tt, mkMemInit (gMemoryTypeInformation s) d w)) as [d E2] end.
  { destruct (negb (PcdLoadModuleAtFixAddressEnable Pcds =? 0)); by eexists. }
  rewrite (Mbind_Ok _ _ _ _ _ E2). set (s2 := mkMemInit (gMemoryTypeInformation s) d w).
  match goal with |- context [Mbind ?c _ s2] => assert (c s2 = Ok (tt, mkMemInit info d w)) as E3 end.
  { unfold info, information_of. by destruct (type_information hobs). }
  rewrite (Mbind_Ok _ _ _ _ _ E3), (Mbind_Ok Mget _ _ _ _ eq_refl). cbn [gMemoryTypeInformation].
  rewrite Et. rewrite (Mbind_Ok (of_outcome (Ok Total)) _ _ Total _ eq_refl). fold Minimal.
  pose proof (first_region_ok HobStart hobs MemoryTop FreeTop FreeBottom Minimal Ho) as F.
  destruct (first_region HobStart hobs MemoryTop FreeTop FreeBottom Minimal) as [[[b l] a]|]; [|by left].
  destruct F as [Ch Sm]. destruct (Z.leb_spec Minimal l) as [Hl|Hl].
  - rewrite (Mbind_Ok (massert true) _ _ tt _ eq_refl).
    destruct (descriptor_law (GCD_LAWS := Laws) EfiConventionalMemory b (Z.shiftr l EFI_PAGE_SHIFT) (first_capabilities a) w) as [w' Ed].
    unfold on_mworld, Mbind. cbn [mi_world]. rewrite Ed. cbn [Mret gMemoryTypeInformation mi_world]. split; [exact Hl|]. split; [done|]. by exists a, w.
  - right. by destruct (Sm Hl).
Qed.
End FirstMemory.

(** ** A list of hand-off blocks *)

(** 16 MB of tested memory from 1 MB on, with the hand-off in its second half
    megabyte; two allocations, a firmware volume in memory-mapped I/O, ports;
    a second block for the same memory. *)
Definition tested_memory : Z := Z.lor TESTED_MEMORY_ATTRIBUTES EFI_RESOURCE_ATTRIBUTE_WRITE_BACK_CACHEABLE.
Definition start_rest : list HOB :=
  [HobCpu 48 16;
   HobResource EFI_RESOURCE_SYSTEM_MEMORY tested_memory 0x100000 0x1000000;
   HobResource EFI_RESOURCE_MEMORY_RESERVED 0 0x800000 0x1000;
   HobResource EFI_RESOURCE_FIRMWARE_DEVICE EFI_RESOURCE_ATTRIBUTE_UNCACHEABLE 0xFF000000 0x1000000;
   HobResource EFI_RESOURCE_IO 0 0 0x1000;
   HobMemory 0x1C0000 0x40000 4;
   HobMemory 0x400000 0x100000 3;
   HobFv 0xFFE00000 0x100000].
Definition start_hobs : list HOB := HobHandoff 0x200000 0x1C0000 0x180000 :: start_rest.
Definition start_HobStart : Z := 0x170000.
Definition start_state : GCD (list TOLD) := mkGcd ∅ (fun _ => []) (fun _ => false) false [].

#[global] Instance gcd_bench_quiet : QUIET (World := list TOLD).
Proof.
  split.
  - intros n s. exists 1, (gcd_world s). split; [done|]. by destruct s.
  - intros p s. exists (gcd_world s). by destruct s.
  - cbn. lia.
Qed.

Lemma start_memory mb ml t : HobMemory mb ml t ∈ start_hobs -> mb = 0x1C0000 /\ ml = 0x40000 \/ mb = 0x400000 /\ ml = 0x100000.
Proof. unfold start_hobs, start_rest. rewrite !elem_of_cons, elem_of_nil. naive_solver. Qed.
Lemma start_memory_at i mb ml t : start_hobs !! i = Some (HobMemory mb ml t) -> i = 6%nat /\ mb = 0x1C0000 /\ ml = 0x40000 \/ i = 7%nat /\ mb = 0x400000 /\ ml = 0x100000.
Proof. unfold start_hobs, start_rest. do 9 (destruct i as [|i]; [cbn; naive_solver|]). done. Qed.
Lemma start_sane b l : 0 <= b -> 0 <= l -> b + l < 2 ^ 64 -> (within b l 0x1C0000 0x40000 \/ apart b l 0x1C0000 0x40000) ->
  (within b l 0x400000 0x100000 \/ apart b l 0x400000 0x100000) -> sane start_hobs b l.
Proof.
  intros H1 H2 H3 H4 H5. split; [done| |].
  - intros mb ml t [[-> ->]|[-> ->]]%start_memory; split_and!; try done; lia.
  - intros i j mb ml t mb' ml' t' [(-> & -> & ->)|(-> & -> & ->)]%start_memory_at [(-> & -> & ->)|(-> & -> & ->)]%start_memory_at Hne; unfold apart; lia.
Qed.
Lemma start_phit : find_phit 0x180000 0x1C0000 0 start_hobs = Some (2%nat, (tested_memory, 0x100000, 0x1000000)).
Proof. vm_compute. reflexivity. Qed.
Lemma start_handoff : handoff_ok start_HobStart start_hobs 0x200000 0x1C0000 0x180000.
Proof.
  split.
  - intros i a ps rl E. rewrite start_phit in E. simplify_eq. vm_compute. by split_and!.
  - vm_compute. by split_and!.
  - intros j t a ps rl E Ht. unfold start_hobs, start_rest in E.
    do 9 (destruct j as [|j]; [cbn in E; first [done|simplify_eq; first [by vm_compute in Ht|vm_compute; by split_and!]]|]). done.
  - intros a r R. destruct R as [? ? ? ? E|? ? ? ? E|? j t a ps rl ? E Hj Ht Hne]; rewrite start_phit in E; simplify_eq.
    + apply start_sane; vm_compute; naive_solver.
    + apply start_sane; vm_compute; naive_solver.
    + exfalso. unfold start_hobs, start_rest in Hj.
      do 9 (destruct j as [|j]; [cbn in Hj; first [done|simplify_eq; first [by vm_compute in Ht|done]]|]). done.
Qed.

Definition start_memory_types : list (Z * Z) := [(0, 0); (4, 0x10); (15, 0)].
Definition start_pool : M (list TOLD) unit := Mret tt.
Lemma start_pool_init w : exists w', start_pool w = Ok (tt, w').
Proof. by exists w. Qed.
(** The memory above the second allocation. *)
Lemma Gcd_first_memory_witness : exists s', CoreInitializeMemoryServices start_pool (mkPcds 0 0 0) start_HobStart start_hobs
    (mkMemInit start_memory_types 0 []) = Ok ((0x500000, 0xC00000), s') /\ 0x20000 <= 0xC00000.
Proof.
  pose proof (Gcd_first_memory start_pool (mkPcds 0 0 0) start_pool_init (mkMemInit start_memory_types 0 []) start_HobStart start_rest
    0x200000 0x1C0000 0x180000 0x10000 eq_refl start_handoff) as H. fold start_hobs in H.
  destruct (CoreInitializeMemoryServices _ _ _ _ _) as [[[b l] s']| | |] eqn:E; try (exfalso; vm_compute in E; discriminate).
  destruct H as [Hl _]. exists s'. assert ((b, l) = (0x500000, 0xC00000)) as [= -> ->] by (apply (status_eq _ _ _ _ E); vm_compute; reflexivity).
  split; [reflexivity|exact Hl].
Defined.

Lemma start_valid : Forall valid_resource start_hobs.
Proof. unfold start_hobs, start_rest. repeat apply Forall_cons_2; try apply Forall_nil_2; try exact I; (split; [split_and!; by vm_compute|intros _; reflexivity]). Qed.
Lemma start_tame : Forall tame_hob start_hobs.
Proof. unfold start_hobs, start_rest. repeat apply Forall_cons_2; try apply Forall_nil_2; try exact I; (split_and!; by vm_compute). Qed.
Lemma start_empty : empty_maps start_state.
Proof. done. Qed.

(** A page of the memory belongs to the DXE core, the overlapping block is
    ignored, the ports are there. *)
Lemma Gcd_init_witness : exists p s', CoreInitializeGcdServices start_HobStart start_hobs 0x500000 0xC00000 start_state = Ok (p, s') /\
  idle (lines_top 48 16) s' /\ p <> 0 /\ GcdIoType <$> space_info s' IoSpace 0xFFF = Some EfiGcdIoTypeIo /\
  GcdMemoryType <$> space_info s' MemorySpace 0x800000 = Some EfiGcdMemoryTypeSystemMemory.
Proof.
  pose proof (Gcd_init start_state start_HobStart start_rest 0x200000 0x1C0000 0x180000 48 16 0x500000 0xC00000 bench_image bench_never_refuses
    start_empty eq_refl ltac:(lia) ltac:(lia) start_valid start_tame ltac:(by vm_compute) ltac:(split_and!; lia) ltac:(lia) ltac:(lia) ltac:(intros _; vm_compute; reflexivity)) as H.
  fold start_hobs in H. apply wp_total in H as (p & s' & E & Hp & I & Hm & Hi & _). exists p, s'. split; [exact E|]. split; [exact I|]. split; [exact Hp|]. split.
  - rewrite Hi by (cbn; lia). vm_compute. reflexivity.
  - destruct (Hm 0x800000 ltac:(cbn; lia)) as [-> | ->]; vm_compute; reflexivity.
Defined.

(** Allocated memory that overlaps the start of the region is not seen. *)
Example overlap_missed : FindLargestFreeRegion [HobMemory 0xFF000 0x2000 4] 0x100000 0x100000 = (0x100000, 0x100000) /\
  ~ apart 0x100000 0x100000 0xFF000 0x2000.
Proof. split; [reflexivity|]. unfold apart. lia. Qed.
