(* ===== verification/Base64.v ===== *)
(** * Base64: binary data as text

    MdePkg/Library/BaseLib/String.c: Base64Encode, Base64Decode, and the
    conversions of two decimal digits DecimalToBcd8 and BcdToDecimal8.

    The functions work on a memory of bytes.  [DestinationSize] is [None] for
    NULL, else the value that the caller stored there; the value that is there
    afterwards is part of the result.  The reference ([encode], [decode]) is
    RFC 4648 on lists: three bytes are one number, written with four digits to
    the base 64; the text is read in groups of four characters. *)

From stdpp Require Import base option list gmap fin_maps.
From Stdlib Require Import ZArith Lia.
From S2P Require Import Prelude Memory MemSpec.

Local Open Scope Z_scope.
Local Open Scope edk_scope.

(** ** The code *)

(** The 26 capital letters, the 26 small letters, the digits, [+] and [/]. *)
Definition EncodingTable : list Z :=
  ((fun i => 65 + Z.of_nat i) <$> seq 0 26) ++ ((fun i => 97 + Z.of_nat i) <$> seq 0 26) ++
  ((fun i => 48 + Z.of_nat i) <$> seq 0 10) ++ [43; 47].
Definition PAD : Z := 61.

(** [*Destination++ = EncodingTable[Index]] *)
Definition put_digit (Destination Index : Z) : M mem unit :=
  match EncodingTable !! Z.to_nat Index with
  | Some c => store 1 Destination c
  | None => Mfail Fault
  end.

(** The four indices; each reads its bytes of the source when it is used. *)
Definition digit0 (Source : Z) : M mem Z :=
  let! a := load 1 Source in Mret (Z.shiftr (Z.land a 0xfc) 2).
Definition digit1 (Source : Z) : M mem Z :=
  let! a := load 1 Source in
  let! b := load 1 (Source + 1) in
  Mret (Z.shiftl (Z.land a 0x03) 4 + Z.shiftr (Z.land b 0xf0) 4).
Definition digit2 (Source : Z) : M mem Z :=
  let! b := load 1 (Source + 1) in
  let! c := load 1 (Source + 2) in
  Mret (Z.shiftl (Z.land b 0x0f) 2 + Z.shiftr (Z.land c 0xc0) 6).
Definition digit3 (Source : Z) : M mem Z :=
  let! c := load 1 (Source + 2) in Mret (Z.land c 0x3f).

(** [while (Left >= 3)] *)
Fixpoint encode_loop (fuel : nat) (Source Left Destination : Z) : M mem (Z * Z * Z) :=
  if Left <? 3 then Mret (Source, Left, Destination)
  else
    match fuel with
    | O => Mfail OutOfFuel
    | S fuel' =>
        let! i := digit0 Source in put_digit Destination i ;;;
        let! i := digit1 Source in put_digit (Destination + 1) i ;;;
        let! i := digit2 Source in put_digit (Destination + 2) i ;;;
        let! i := digit3 Source in put_digit (Destination + 3) i ;;;
        encode_loop fuel' (Source + 3) (Left - 3) (Destination + 4)
    end.

(** The last one or two bytes, with padding; the end of the text. *)
Definition encode_rest (Source Left Destination : Z) : M mem Z :=
  if Left =? 1 then
    let! i := digit0 Source in put_digit Destination i ;;;
    let! a := load 1 Source in put_digit (Destination + 1) (Z.shiftl (Z.land a 0x03) 4) ;;;
    store 1 (Destination + 2) PAD ;;;
    store 1 (Destination + 3) PAD ;;;
    Mret (Destination + 4)
  else if Left =? 2 then
    let! i := digit0 Source in put_digit Destination i ;;;
    let! i := digit1 Source in put_digit (Destination + 1) i ;;;
    let! b := load 1 (Source + 1) in put_digit (Destination + 2) (Z.shiftl (Z.land b 0x0f) 2) ;;;
    store 1 (Destination + 3) PAD ;;;
    Mret (Destination + 4)
  else Mret Destination.

Definition Base64Encode (W Source SourceLength Destination : Z) (DestinationSize : option Z) : M mem (EFI_STATUS * Z) :=
  match DestinationSize with
  | None => Mret (EFI_INVALID_PARAMETER, 0)
  | Some DestinationSize =>
      if Source =? 0 then Mret (EFI_INVALID_PARAMETER, DestinationSize)
      else if SourceLength =? 0 then
        if DestinationSize <? 1 then Mret (EFI_BUFFER_TOO_SMALL, 1)
        else store 1 Destination 0 ;;; Mret (EFI_SUCCESS, 1)
      else if (wrapU W (MAX_ADDRESS W - Source) <=? SourceLength) || (wrapU W (MAX_ADDRESS W - Destination) <=? DestinationSize)
      then Mret (EFI_INVALID_PARAMETER, DestinationSize)
      else
        let RequiredSize := wrapU W (wrapU W (SourceLength + 2) / 3 * 4 + 1) in
        if (Destination =? 0) || (DestinationSize <? RequiredSize) then Mret (EFI_BUFFER_TOO_SMALL, RequiredSize)
        else
          let! r := encode_loop (Z.to_nat SourceLength) Source SourceLength Destination in
          let '(Source, Left, Destination) := r in
          let! Destination := encode_rest Source Left Destination in
          store 1 Destination 0 ;;;
          Mret (EFI_SUCCESS, DestinationSize)
  end.

(** The whitespace that is ignored: tab to carriage return, and the space. *)
Definition is_space (SourceChar : Z) : bool :=
  (SourceChar =? 9) || (SourceChar =? 10) || (SourceChar =? 11) || (SourceChar =? 12) || (SourceChar =? 13) || (SourceChar =? 32).

Definition Base64Value (SourceChar : Z) : option Z :=
  if (65 <=? SourceChar) && (SourceChar <=? 90) then Some (SourceChar - 65)
  else if (97 <=? SourceChar) && (SourceChar <=? 122) then Some (26 + (SourceChar - 97))
  else if (48 <=? SourceChar) && (SourceChar <=? 57) then Some (52 + (SourceChar - 48))
  else if SourceChar =? 43 then Some 62
  else if SourceChar =? 47 then Some 63
  else None.

(** The variables of the loop of Base64Decode. *)
Record DECODING := mkDecoding {
  PaddingMode : bool;
  SixBitGroupsConsumed : Z;
  Accumulator : Z;
  DecodedSize : Z
}.

(** One octet is stored, if there is room, and counted. *)
Definition spill (W Destination OriginalDestinationSize : Z) (DestinationOctet Groups Acc : Z) (d : DECODING) : M mem DECODING :=
  (if DecodedSize d <? OriginalDestinationSize
   then MASSERT (negb (Destination =? 0)) ;;; store 1 (Destination + DecodedSize d) DestinationOctet
   else Mret tt) ;;;
  Mret (mkDecoding (PaddingMode d) Groups Acc (wrapU W (DecodedSize d + 1))).

(** One turn of the loop; [false]: the function returns
    RETURN_INVALID_PARAMETER. *)
Definition decode_char (W Destination OriginalDestinationSize SourceChar : Z) (d : DECODING) : M mem (bool * DECODING) :=
  if is_space SourceChar then Mret (true, d)
  else if PaddingMode d then
    if (SourceChar =? PAD) && (SixBitGroupsConsumed d =? 3)
    then Mret (true, mkDecoding true 0 (Accumulator d) (DecodedSize d))
    else Mret (false, d)
  else
    match Base64Value SourceChar with
    | None =>
        if SourceChar =? PAD then
          let pad (Groups : Z) :=
            let d := mkDecoding true Groups (Accumulator d) (DecodedSize d) in
            Mret (Accumulator d =? 0, d) in
          if SixBitGroupsConsumed d =? 2 then pad 3
          else if SixBitGroupsConsumed d =? 3 then pad 0
          else Mret (false, mkDecoding true (SixBitGroupsConsumed d) (Accumulator d) (DecodedSize d))
        else Mret (false, d)
    | Some v =>
        let Acc := Z.lor (wrapU 32 (Z.shiftl (Accumulator d) 6)) v in
        let Groups := wrapU W (SixBitGroupsConsumed d + 1) in
        if Groups =? 1 then Mret (true, mkDecoding (PaddingMode d) Groups Acc (DecodedSize d))
        else
          let! d' :=
            (if Groups =? 2 then spill W Destination OriginalDestinationSize (wrapU 8 (Z.shiftr Acc 4)) Groups (Z.land Acc 0xF) d
             else if Groups =? 3 then spill W Destination OriginalDestinationSize (wrapU 8 (Z.shiftr Acc 2)) Groups (Z.land Acc 0x3) d
             else MASSERT (Groups =? 4) ;;; spill W Destination OriginalDestinationSize (wrapU 8 Acc) 0 0 d) in
          Mret (true, d')
    end.

(** [for (SourceIndex = 0; SourceIndex < SourceSize; SourceIndex++)], with
    the number of characters that are left. *)
Fixpoint decode_loop (left : nat) (W Source Destination OriginalDestinationSize : Z) (d : DECODING) : M mem (bool * DECODING) :=
  match left with
  | O => Mret (true, d)
  | S left' =>
      let! SourceChar := load 1 Source in
      let! r := decode_char W Destination OriginalDestinationSize SourceChar d in
      let '(go_on, d') := r in
      if go_on then decode_loop left' W (Source + 1) Destination OriginalDestinationSize d' else Mret (false, d')
  end.

(** The checks before the loop. *)
Definition decode_refused (W Source SourceSize Destination DestinationSize : Z) : bool :=
  (if Source =? 0 then 0 <? SourceSize else wrapU W (MAX_ADDRESS W - Source) <? SourceSize) ||
  (if Destination =? 0 then 0 <? DestinationSize else wrapU W (MAX_ADDRESS W - Destination) <? DestinationSize) ||
  (negb (Source =? 0) && negb (Destination =? 0) &&
   negb (wrapU W (Source + SourceSize) <=? Destination) && negb (wrapU W (Destination + DestinationSize) <=? Source)).

Definition Base64Decode (W Source SourceSize Destination : Z) (DestinationSize : option Z) : M mem (EFI_STATUS * Z) :=
  match DestinationSize with
  | None => Mret (EFI_INVALID_PARAMETER, 0)
  | Some OriginalDestinationSize =>
      if decode_refused W Source SourceSize Destination OriginalDestinationSize
      then Mret (EFI_INVALID_PARAMETER, OriginalDestinationSize)
      else
        let! r := decode_loop (Z.to_nat SourceSize) W Source Destination OriginalDestinationSize (mkDecoding false 0 0 0) in
        let '(finished, d) := r in
        if negb finished || negb (SixBitGroupsConsumed d =? 0) then Mret (EFI_INVALID_PARAMETER, DecodedSize d)
        else Mret (if DecodedSize d <=? OriginalDestinationSize then EFI_SUCCESS else EFI_BUFFER_TOO_SMALL, DecodedSize d)
  end.

Definition DecimalToBcd8 (Value : Z) : outcome Z :=
  if Value <? 100 then Ok (wrapU 8 (Z.lor (Z.shiftl (Value / 10) 4) (Value mod 10))) else AssertFail.
Definition BcdToDecimal8 (Value : Z) : outcome Z :=
  if (Value <? 0xa0) && (Z.land Value 0xf <? 0xa) then Ok (wrapU 8 (Z.shiftr Value 4 * 10 + Z.land Value 0xf)) else AssertFail.

(** ** RFC 4648 *)

(** Table 1: the digits. *)
Definition digit (v : Z) : Z :=
  if v <? 26 then 65 + v else if v <? 52 then 71 + v else if v <? 62 then v - 4 else if v =? 62 then 43 else 47.
Definition group (v : Z) : list Z :=
  [digit (v / 2 ^ 18); digit (v / 2 ^ 12 mod 64); digit (v / 2 ^ 6 mod 64); digit (v mod 64)].

Fixpoint encode (bs : list Z) : list Z :=
  match bs with
  | [] => []
  | [a] => take 2 (group (a * 2 ^ 16)) ++ [PAD; PAD]
  | [a; b] => take 3 (group (a * 2 ^ 16 + b * 2 ^ 8)) ++ [PAD]
  | a :: b :: c :: bs' => group (a * 2 ^ 16 + b * 2 ^ 8 + c) ++ encode bs'
  end.

Definition number (vs : list Z) : Z := foldl (fun n v => 64 * n + v) 0 vs.
Definition octets (v : Z) : list Z := [v / 2 ^ 16; v / 2 ^ 8 mod 256; v mod 256].

(** The value of a character: its place in Table 1. *)
Definition value (c : Z) : option Z := Z.of_nat ∘ fst <$> list_find (fun v => digit v = c) (seqZ 0 64).
(** The value of the digits of a group, all of which must be digits. *)
Definition digits (cs : list Z) : option (list Z) := mapM value cs.
(** Tab, line feed, vertical tab, form feed, carriage return and the space. *)
Definition whitespace : list Z := [9; 10; 11; 12; 13; 32].

(** The bits that padding leaves over must be 0. *)
Definition last_group (n : nat) (vs : list Z) : option (list Z) :=
  let os := octets (number vs) in
  if forallb (Z.eqb 0) (drop n os) then Some (take n os) else None.

Fixpoint decode_groups (cs : list Z) : option (list Z) :=
  match cs with
  | [] => Some []
  | c0 :: c1 :: c2 :: c3 :: cs' =>
      match digits [c0; c1; c2; c3] with
      | Some vs => rest ← decode_groups cs'; Some (octets (number vs) ++ rest)
      | None =>
          if (c3 =? PAD) && bool_decide (cs' = []) then
            if c2 =? PAD then vs ← digits [c0; c1]; last_group 1 (vs ++ [0; 0])
            else vs ← digits [c0; c1; c2]; last_group 2 (vs ++ [0])
          else None
      end
  | _ => None
  end.
Definition text (cs : list Z) : list Z := filter (fun c => c ∉ whitespace) cs.
Definition decode (cs : list Z) : option (list Z) := decode_groups (text cs).

(** ** Encoding *)

Lemma EncodingTable_digit v : 0 <= v < 64 -> EncodingTable !! Z.to_nat v = Some (digit v).
Proof.
  intros Hv. assert (forallb (fun i => bool_decide (EncodingTable !! i = Some (digit (Z.of_nat i)))) (seq 0 64) = true) as H by by_decide.
  rewrite forallb_forall in H. specialize (H (Z.to_nat v)). rewrite in_seq, bool_decide_eq_true, Z2Nat.id in H by lia. apply H. lia.
Qed.
Lemma digit_ok v : inU 8 (digit v) \/ ~ 0 <= v < 64.
Proof. unfold digit, inU. destruct (decide (0 <= v < 64)); [left|by right]. repeat case_match; lia. Qed.

Lemma put_digit_ok D v m : 0 <= v < 64 -> mapped m D 1 -> put_digit D v m = Ok (tt, blit D [digit v] m).
Proof.
  intros Hv Hm. unfold put_digit. rewrite EncodingTable_digit by done. rewrite store_blit by done. cbn.
  rewrite Z.mod_small; [done|]. destruct (digit_ok v) as [H|]; [exact H|done].
Qed.
Lemma put_byte D v m : inU 8 v -> mapped m D 1 -> store 1 D v m = Ok (tt, blit D [v] m).
Proof. intros Hv Hm. rewrite store_blit by done. cbn. by rewrite Z.mod_small. Qed.

(** What holds of each of [n] values holds of all. *)
Lemma all_below (f : Z -> bool) n v : forallb (fun i => f (Z.of_nat i)) (seq 0 n) = true -> 0 <= v < Z.of_nat n -> f v = true.
Proof. intros H Hv. rewrite forallb_forall in H. specialize (H (Z.to_nat v)). rewrite in_seq, Z2Nat.id in H by lia. apply H. lia. Qed.

(** What the masks and shifts of the encoder pick. *)
Lemma masks a : inU 8 a ->
  Z.shiftr (Z.land a 0xfc) 2 = a / 4 /\ Z.shiftl (Z.land a 0x03) 4 = a mod 4 * 16 /\ Z.shiftr (Z.land a 0xf0) 4 = a / 16 /\
  Z.shiftl (Z.land a 0x0f) 2 = a mod 16 * 4 /\ Z.shiftr (Z.land a 0xc0) 6 = a / 64 /\ Z.land a 0x3f = a mod 64.
Proof.
  intros Ha. pose (f a := (Z.shiftr (Z.land a 0xfc) 2 =? a / 4) && (Z.shiftl (Z.land a 0x03) 4 =? a mod 4 * 16) &&
    (Z.shiftr (Z.land a 0xf0) 4 =? a / 16) && (Z.shiftl (Z.land a 0x0f) 2 =? a mod 16 * 4) &&
    (Z.shiftr (Z.land a 0xc0) 6 =? a / 64) && (Z.land a 0x3f =? a mod 64)).
  assert (f a = true) as E by (apply (all_below f 256); [by vm_compute|exact Ha]). subst f. cbn beta in E.
  rewrite !andb_true_iff, !Z.eqb_eq in E. by destruct E as [[[[[? ?] ?] ?] ?] ?].
Qed.
Lemma sextets a b c : inU 8 a -> inU 8 b -> inU 8 c ->
  let v := a * 2 ^ 16 + b * 2 ^ 8 + c in
  v / 2 ^ 18 = a / 4 /\ v / 2 ^ 12 mod 64 = a mod 4 * 16 + b / 16 /\ v / 2 ^ 6 mod 64 = b mod 16 * 4 + c / 64 /\ v mod 64 = c mod 64.
Proof.
  intros Ha Hb Hc v. subst v. unfold inU in *. change (2 ^ 8) with 256 in *. change (2 ^ 16) with 65536. change (2 ^ 18) with 262144.
  change (2 ^ 12) with 4096. change (2 ^ 6) with 64. split_and!; Z.div_mod_to_equations; lia.
Qed.

(** The bytes [bs] at [S], and room for [N] characters at [D] elsewhere. *)
Record apart (m : mem) (S : Z) (bs : list Z) (D N : Z) : Prop := {
  ap_source : at_bytes m S bs;
  ap_bytes : bytes_ok bs;
  ap_room : mapped m D N;
  ap_disjoint : S + len bs <= D \/ D + N <= S
}.

Section Put.
Context (m : mem) (S : Z) (bs : list Z) (D N : Z) (A : apart m S bs D N).

Lemma source_byte ws i b : len ws <= N -> bs !! i = Some b ->
  inU 8 b /\ load 1 (S + Z.of_nat i) (blit D ws m) = Ok (b, blit D ws m).
Proof.
  intros Hw Hi. split; [exact (proj1 (Forall_lookup _ _) (ap_bytes _ _ _ _ _ A) _ _ Hi)|].
  apply load1_at, (at_bytes_blit_other m D ws S bs); [apply A| |done]. pose proof (ap_disjoint _ _ _ _ _ A). lia.
Qed.
Lemma room_left ws : len ws < N -> mapped (blit D ws m) (D + len ws) 1.
Proof. intros H. apply mapped_blit. apply (mapped_sub m D N); [apply A|lia..]. Qed.
Lemma put_next {B} ws c x (f : Z -> Z) v p (k : M mem B) :
  c (blit D ws m) = Ok (x, blit D ws m) -> f x = v -> p = D + len ws -> len ws < N -> 0 <= v < 64 ->
  (let! i := c in put_digit p (f i) ;;; k) (blit D ws m) = k (blit D (ws ++ [digit v]) m).
Proof.
  intros Hc <- -> Hw Hv. rewrite (Mbind_Ok _ _ _ _ _ Hc). cbn beta.
  rewrite (Mbind_Ok _ _ _ _ _ (put_digit_ok _ _ _ Hv (room_left ws Hw))). by rewrite blit_app.
Qed.
Lemma pad_next {B} ws v p (k : M mem B) : p = D + len ws -> len ws < N -> inU 8 v ->
  (store 1 p v ;;; k) (blit D ws m) = k (blit D (ws ++ [v]) m).
Proof.
  intros -> Hw Hv. rewrite (Mbind_Ok _ _ _ _ _ (put_byte _ _ _ Hv (room_left ws Hw))). by rewrite blit_app.
Qed.

Lemma digit0_at ws a : len ws <= N -> bs !! 0%nat = Some a -> digit0 S (blit D ws m) = Ok (a / 4, blit D ws m).
Proof.
  intros Hw Ha. destruct (source_byte ws 0 a Hw Ha) as [Ia La]. rewrite Z.add_0_r in La.
  unfold digit0. rewrite (Mbind_Ok _ _ _ _ _ La). by destruct (masks a Ia) as (-> & _).
Qed.
Lemma digit1_at ws a b : len ws <= N -> bs !! 0%nat = Some a -> bs !! 1%nat = Some b ->
  digit1 S (blit D ws m) = Ok (a mod 4 * 16 + b / 16, blit D ws m).
Proof.
  intros Hw Ha Hb. destruct (source_byte ws 0 a Hw Ha) as [Ia La]. destruct (source_byte ws 1 b Hw Hb) as [Ib Lb].
  rewrite Z.add_0_r in La. unfold digit1. rewrite (Mbind_Ok _ _ _ _ _ La), (Mbind_Ok _ _ _ _ _ Lb).
  destruct (masks a Ia) as (_ & -> & _). by destruct (masks b Ib) as (_ & _ & -> & _).
Qed.
Lemma digit2_at ws b c : len ws <= N -> bs !! 1%nat = Some b -> bs !! 2%nat = Some c ->
  digit2 S (blit D ws m) = Ok (b mod 16 * 4 + c / 64, blit D ws m).
Proof.
  intros Hw Hb Hc. destruct (source_byte ws 1 b Hw Hb) as [Ib Lb]. destruct (source_byte ws 2 c Hw Hc) as [Ic Lc].
  unfold digit2. rewrite (Mbind_Ok _ _ _ _ _ Lb), (Mbind_Ok _ _ _ _ _ Lc).
  destruct (masks b Ib) as (_ & _ & _ & -> & _). by destruct (masks c Ic) as (_ & _ & _ & _ & -> & _).
Qed.
Lemma digit3_at ws c : len ws <= N -> bs !! 2%nat = Some c -> digit3 S (blit D ws m) = Ok (c mod 64, blit D ws m).
Proof.
  intros Hw Hc. destruct (source_byte ws 2 c Hw Hc) as [Ic Lc]. unfold digit3. rewrite (Mbind_Ok _ _ _ _ _ Lc).
  by destruct (masks c Ic) as (_ & _ & _ & _ & _ & ->).
Qed.
Lemma byte0_at ws a : len ws <= N -> bs !! 0%nat = Some a -> load 1 S (blit D ws m) = Ok (a, blit D ws m).
Proof. intros Hw Ha. destruct (source_byte ws 0 a Hw Ha) as [_ La]. by rewrite Z.add_0_r in La. Qed.
Lemma byte1_at ws b : len ws <= N -> bs !! 1%nat = Some b -> load 1 (S + 1) (blit D ws m) = Ok (b, blit D ws m).
Proof. intros Hw Hb. apply (source_byte ws 1 b Hw Hb). Qed.
End Put.

Lemma byte_parts a : inU 8 a -> 0 <= a / 4 < 64 /\ 0 <= a mod 4 < 4 /\ 0 <= a / 16 < 16 /\ 0 <= a mod 16 < 16 /\ 0 <= a / 64 < 4 /\ 0 <= a mod 64 < 64.
Proof. unfold inU. change (2 ^ 8) with 256. intros H. split_and!; Z.div_mod_to_equations; lia. Qed.

(** One character more: a digit that [L] reads and [F] computes, or a byte
    that is given. *)
Ltac put_one A L F := etrans; [eapply (put_next _ _ _ _ _ A); [eapply L; cbn; first [lia|reflexivity]|exact F|cbn; lia|cbn; lia|lia]|cbn [app]].
Ltac pad_one A := etrans; [eapply (pad_next _ _ _ _ _ A); [cbn; lia|cbn; lia|done]|cbn [app]].

(** The last bytes. *)
Lemma encode_rest_ok m S bs D : (length bs <= 2)%nat -> apart m S bs D (len (encode bs)) ->
  encode_rest S (len bs) D m = Ok (D + len (encode bs), blit D (encode bs) m).
Proof.
  intros Hl A. destruct bs as [|a [|b [|c bs]]]; [|..|cbn in Hl; lia].
  - cbn. unfold Mret. by rewrite Z.add_0_r.
  - pose proof (proj1 (Forall_cons _ _ _) (ap_bytes _ _ _ _ _ A)) as [Ia _]. pose proof (byte_parts a Ia).
    destruct (sextets a 0 0 Ia) as (E0 & E1 & _); [done..|]. rewrite !Z.add_0_r in E0, E1.
    destruct (masks a Ia) as (_ & M1 & _).
    change (encode [a]) with [digit (a * 2 ^ 16 / 2 ^ 18); digit (a * 2 ^ 16 / 2 ^ 12 mod 64); PAD; PAD] in *.
    rewrite E0, E1. unfold encode_rest. cbn [length Z.eqb Pos.eqb Z.of_nat Pos.of_succ_nat]. change m with (blit D [] m) at 1.
    put_one A (digit0_at _ _ _ _ _ A) (eq_refl (a / 4)). put_one A (byte0_at _ _ _ _ _ A) M1. pad_one A. pad_one A.
    by rewrite Z.add_0_r.
  - pose proof (ap_bytes _ _ _ _ _ A) as (Ia & [Ib _]%Forall_cons)%Forall_cons. pose proof (byte_parts a Ia). pose proof (byte_parts b Ib).
    destruct (sextets a b 0 Ia Ib) as (E0 & E1 & E2 & _); [done..|]. rewrite !Z.add_0_r in E0, E1, E2.
    destruct (masks b Ib) as (_ & _ & _ & M2 & _).
    change (encode [a; b]) with [digit ((a * 2 ^ 16 + b * 2 ^ 8) / 2 ^ 18); digit ((a * 2 ^ 16 + b * 2 ^ 8) / 2 ^ 12 mod 64);
      digit ((a * 2 ^ 16 + b * 2 ^ 8) / 2 ^ 6 mod 64); PAD] in *.
    rewrite E0, E1, E2. unfold encode_rest. cbn [length Z.eqb Pos.eqb Z.of_nat Pos.of_succ_nat Pos.succ]. change m with (blit D [] m) at 1.
    put_one A (digit0_at _ _ _ _ _ A) (eq_refl (a / 4)). put_one A (digit1_at _ _ _ _ _ A) (eq_refl (a mod 4 * 16 + b / 16)).
    put_one A (byte1_at _ _ _ _ _ A) M2. pad_one A. by rewrite Z.add_0_r.
Qed.

(** Three bytes. *)
Lemma encode_turn fuel m S a b c bs D : apart m S (a :: b :: c :: bs) D (len (encode (a :: b :: c :: bs))) ->
  let v := a * 2 ^ 16 + b * 2 ^ 8 + c in
  encode_loop (Datatypes.S fuel) S (len (a :: b :: c :: bs)) D m = encode_loop fuel (S + 3) (len bs) (D + 4) (blit D (group v) m) /\
  apart (blit D (group v) m) (S + 3) bs (D + 4) (len (encode bs)).
Proof.
  intros A v. pose proof (ap_bytes _ _ _ _ _ A) as (Ia & (Ib & [Ic Hbs]%Forall_cons)%Forall_cons)%Forall_cons.
  destruct (sextets a b c Ia Ib Ic) as (E0 & E1 & E2 & E3). fold v in E0, E1, E2, E3.
  change (encode (a :: b :: c :: bs)) with (group v ++ encode bs) in A. rewrite length_app in A.
  assert (length (group v) = 4%nat) as Hg by done. rewrite Hg in A.
  pose proof (byte_parts a Ia). pose proof (byte_parts b Ib). pose proof (byte_parts c Ic). split.
  - cbn [encode_loop]. rewrite (proj2 (Z.ltb_ge _ _)) by (cbn [length]; lia). change m with (blit D [] m) at 1.
    put_one A (digit0_at _ _ _ _ _ A) (eq_refl (a / 4)). put_one A (digit1_at _ _ _ _ _ A) (eq_refl (a mod 4 * 16 + b / 16)).
    put_one A (digit2_at _ _ _ _ _ A) (eq_refl (b mod 16 * 4 + c / 64)). put_one A (digit3_at _ _ _ _ _ A) (eq_refl (c mod 64)).
    unfold group. rewrite E0, E1, E2, E3. f_equal. cbn [length]. lia.
  - destruct A as [A1 A2 A3 A4]. change (a :: b :: c :: bs) with ([a; b; c] ++ bs) in A1. apply at_bytes_app in A1 as [_ A1]. split.
    + apply at_bytes_blit_other; [done|]. cbn [length] in A4 |- *. lia.
    + done.
    + apply mapped_blit, (mapped_sub _ _ _ _ _ A3); lia.
    + cbn [length] in A4. lia.
Qed.

Lemma Mbind_eq {S A B} (c c' : M S A) (k : A -> M S B) s s' : c s = c' s' -> Mbind c k s = Mbind c' k s'.
Proof. intros H. unfold Mbind. by rewrite H. Qed.

(** The whole text. *)
Lemma encode_text fuel : forall m S bs D, (length bs <= fuel)%nat -> apart m S bs D (len (encode bs)) ->
  (let! r := encode_loop fuel S (len bs) D in let '(S', L, D') := r in encode_rest S' L D') m = Ok (D + len (encode bs), blit D (encode bs) m).
Proof.
  induction fuel as [|fuel IH]; intros m S bs D Hl A.
  { destruct bs; [|cbn in Hl; lia]. cbn. unfold Mret. by rewrite Z.add_0_r. }
  destruct (decide (length bs <= 2)%nat) as [Hs|Hs].
  { cbn [encode_loop]. rewrite (proj2 (Z.ltb_lt _ _)) by lia. by apply encode_rest_ok. }
  destruct bs as [|a [|b [|c bs]]]; try (cbn in Hs; lia). destruct (encode_turn fuel m S a b c bs D A) as [E A'].
  rewrite (Mbind_eq _ _ _ _ _ E), IH; [|cbn in Hl; lia|done].
  change (encode (a :: b :: c :: bs)) with (group (a * 2 ^ 16 + b * 2 ^ 8 + c) ++ encode bs). rewrite blit_app, length_app.
  change (length (group _)) with 4%nat. change (Z.of_nat 4) with 4. do 2 f_equal. lia.
Qed.

Lemma encode_length bs : len (encode bs) = (len bs + 2) / 3 * 4.
Proof.
  enough (forall n bs, (length bs <= n)%nat -> len (encode bs) = (len bs + 2) / 3 * 4) as H by by apply (H (length bs)).
  clear. induction n as [|n IH]; intros bs Hl; [by destruct bs; [|cbn in Hl; lia]|].
  destruct bs as [|a [|b [|c bs]]]; try done. cbn in Hl. pose proof (IH bs ltac:(lia)) as E.
  change (encode (a :: b :: c :: bs)) with (group (a * 2 ^ 16 + b * 2 ^ 8 + c) ++ encode bs).
  rewrite length_app, Nat2Z.inj_add, E. change (length (group _)) with 4%nat. cbn [length]. Z.div_mod_to_equations. lia.
Qed.

(** Base64Encode writes the text and a zero, when there is room, and says how
    much room it takes when there is not. *)
Lemma Base64Encode_ok W m S bs D size : 0 < W -> 0 < S -> 0 < D -> S + len bs < MAX_ADDRESS W -> D + size < MAX_ADDRESS W ->
  let N := len (encode bs) + 1 in
  N <= size -> apart m S bs D N ->
  Base64Encode W S (len bs) D (Some size) m = Ok ((EFI_SUCCESS, if len bs =? 0 then 1 else size), blit D (encode bs ++ [0]) m).
Proof.
  intros HW HS HD Sb Db N HN A. unfold Base64Encode. subst N. rewrite (proj2 (Z.eqb_neq S 0)) by lia.
  destruct (Z.eqb_spec (len bs) 0) as [H0|H0].
  { destruct bs; [|cbn in H0; lia]. cbn in HN. rewrite (proj2 (Z.ltb_ge _ _)) by lia.
    by rewrite (Mbind_Ok _ _ _ _ _ (put_byte D 0 m ltac:(done) (ap_room _ _ _ _ _ A))). }
  pose proof (encode_length bs) as HL. unfold MAX_ADDRESS in *.
  rewrite !(wrapU_id W (_ - 1 - _)) by (unfold inU; lia). rewrite !(proj2 (Z.leb_gt _ _)) by lia. cbn [orb].
  rewrite (wrapU_id W (len bs + 2)) by (unfold inU; lia). rewrite <- HL, wrapU_id by (unfold inU; lia).
  rewrite (proj2 (Z.eqb_neq D 0)), (proj2 (Z.ltb_ge _ _)) by lia. cbn [orb].
  destruct A as [A1 A2 A3 A4]. assert (apart m S bs D (len (encode bs))) as A.
  { split; [done..| |lia]. apply (mapped_sub _ _ _ _ _ A3); lia. }
  pose proof (encode_text (length bs) m S bs D (le_n _) A) as E. apply Mbind_Ok_inv in E as ([[S' L] D'] & m1 & E1 & E2).
  rewrite Nat2Z.id, (Mbind_Ok _ _ _ _ _ E1), (Mbind_Ok _ _ _ _ _ E2).
  rewrite (Mbind_Ok _ _ _ _ _ (put_byte (D + len (encode bs)) 0 _ ltac:(done) ltac:(apply mapped_blit, (mapped_sub _ _ _ _ _ A3); lia))).
  by rewrite blit_app.
Qed.
Lemma Base64Encode_short W m S bs D size : 0 < W -> 0 < S -> 0 <= D -> S + len bs < MAX_ADDRESS W -> 0 <= size -> D + size < MAX_ADDRESS W ->
  let N := len (encode bs) + 1 in
  N < 2 ^ W -> (D = 0 /\ bs <> []) \/ size < N ->
  Base64Encode W S (len bs) D (Some size) m = Ok ((EFI_BUFFER_TOO_SMALL, N), m).
Proof.
  intros HW HS HD Sb Hs Db N HN Hc. unfold Base64Encode. subst N. rewrite (proj2 (Z.eqb_neq S 0)) by lia.
  destruct (Z.eqb_spec (len bs) 0) as [H0|H0].
  { destruct bs; [|cbn in H0; lia]. cbn in Hc. rewrite (proj2 (Z.ltb_lt _ _)); [done|]. destruct Hc as [[_ []]|]; [done|lia]. }
  pose proof (encode_length bs) as HL. unfold MAX_ADDRESS in *.
  rewrite !(wrapU_id W (_ - 1 - _)) by (unfold inU; lia). rewrite !(proj2 (Z.leb_gt _ _)) by lia. cbn [orb].
  rewrite (wrapU_id W (len bs + 2)) by (unfold inU; lia). rewrite <- HL, wrapU_id by (unfold inU; lia).
  destruct (Z.eqb_spec D 0); [done|]. rewrite (proj2 (Z.ltb_lt _ _)) by lia. done.
Qed.

(** ** Decoding *)

Lemma Base64Value_range c v : Base64Value c = Some v -> 0 <= v < 64.
Proof. unfold Base64Value. repeat case_match; intros; simplify_eq; lia. Qed.
Lemma Base64Value_pad : Base64Value PAD = None.
Proof. done. Qed.
Lemma Base64Value_digit v : 0 <= v < 64 -> Base64Value (digit v) = Some v /\ is_space (digit v) = false.
Proof.
  intros Hv. pose (f v := bool_decide (Base64Value (digit v) = Some v) && negb (is_space (digit v))).
  assert (f v = true) as E by (apply (all_below f 64); [by vm_compute|exact Hv]). subst f. cbn beta in E.
  by rewrite andb_true_iff, bool_decide_eq_true, negb_true_iff in E.
Qed.
Lemma digit_Base64Value c v : inU 8 c -> Base64Value c = Some v -> digit v = c.
Proof.
  intros Hc E. pose (f c := bool_decide (digit <$> Base64Value c = (fun _ => c) <$> Base64Value c)).
  assert (f c = true) as F by (apply (all_below f 256); [by vm_compute|exact Hc]). subst f. cbn beta in F.
  apply bool_decide_eq_true in F. rewrite E in F. cbn in F. by simplify_eq.
Qed.

(** The code and the reference agree on the alphabet and on the whitespace. *)
Lemma value_eq c : value c = Base64Value c.
Proof.
  unfold value. destruct (list_find _ _) as [[i v]|] eqn:E.
  - apply list_find_Some in E as (Hi & <- & _). apply lookup_seqZ in Hi as [-> Hi]. cbn.
    rewrite Z.add_0_l, (proj1 (Base64Value_digit (Z.of_nat i) ltac:(lia))). done.
  - apply list_find_None in E. destruct (Base64Value c) as [v|] eqn:V; [|done]. exfalso. rewrite Forall_forall in E.
    apply (E v); [apply elem_of_seqZ; pose proof (Base64Value_range _ _ V); lia|]. apply digit_Base64Value; [|done].
    unfold Base64Value in V. unfold inU. repeat case_match; simplify_eq; lia.
Qed.
Lemma space_eq c : is_space c = false <-> c ∉ whitespace.
Proof. unfold is_space, whitespace. rewrite !orb_false_iff, !Z.eqb_neq, !not_elem_of_cons. pose proof (not_elem_of_nil c). tauto. Qed.

(** The decoder without its memory: the state after a character, [None] when
    it is refused, and the octets that are spilled. *)
Definition machine : Type := bool * Z * Z.
Definition step (d : machine) (c : Z) : option machine * list Z :=
  if is_space c then (Some d, [])
  else
    let '(p, g, a) := d in
    if p then (if (c =? PAD) && (g =? 3) then Some (true, 0, a) else None, [])
    else
      match Base64Value c with
      | None => (if (c =? PAD) && (2 <=? g) && (a =? 0) then Some (true, if g =? 2 then 3 else 0, 0) else None, [])
      | Some v =>
          let a' := 64 * a + v in
          if g =? 0 then (Some (false, 1, a'), [])
          else if g =? 1 then (Some (false, 2, a' mod 16), [a' / 16])
          else if g =? 2 then (Some (false, 3, a' mod 4), [a' / 4])
          else (Some (false, 0, 0), [a'])
      end.
Fixpoint run_text (d : machine) (cs : list Z) : option machine * list Z :=
  match cs with
  | [] => (Some d, [])
  | c :: cs' =>
      match step d c with
      | (None, os) => (None, os)
      | (Some d', os) => let '(r, os') := run_text d' cs' in (r, os ++ os')
      end
  end.
Definition machine_ok (d : machine) : Prop :=
  let '(p, g, a) := d in (p = true -> a = 0) /\ ((g = 0 /\ a = 0) \/ (g = 1 /\ 0 <= a < 64) \/ (g = 2 /\ 0 <= a < 16) \/ (g = 3 /\ 0 <= a < 4)).

Lemma no_bytes : bytes_ok [].
Proof. by apply Forall_nil. Qed.
Lemma one_byte b : 0 <= b < 256 -> bytes_ok [b].
Proof. intros H. by apply Forall_singleton. Qed.
Lemma step_ok d c : machine_ok d ->
  match step d c with
  | (Some d', os) => machine_ok d' /\ bytes_ok os /\ (length os <= 1)%nat
  | (None, os) => os = []
  end.
Proof.
  destruct d as [[p g] a]. intros Hd. unfold step. destruct (is_space c); [split; [exact Hd|split; [exact no_bytes|cbn; lia]]|].
  destruct Hd as [Hp Hd].
  destruct p.
  { specialize (Hp eq_refl). destruct (c =? PAD); [|done]. destruct (Z.eqb_spec g 3); [|done]. cbn. split_and!; [done|lia|exact no_bytes|lia]. }
  clear Hp. destruct (Base64Value c) as [v|] eqn:Ev.
  - apply Base64Value_range in Ev. cbn zeta.
    destruct Hd as [[-> ->]|[[-> Ha]|[[-> Ha]|[-> Ha]]]]; cbn -[Z.mul Z.add Z.modulo Z.div];
      split_and!; first [done|match goal with |- bytes_ok _ => first [exact no_bytes|apply one_byte] end|cbn [length]];
      try (Z.div_mod_to_equations; lia).
  - destruct (c =? PAD); [|done]. destruct (Z.leb_spec 2 g); [|done]. destruct (Z.eqb_spec a 0) as [->|]; [|done]. cbn.
    split_and!; [done|destruct (Z.eqb_spec g 2); lia|exact no_bytes|lia].
Qed.

Definition decoding (d : machine) (k : Z) : DECODING := let '(p, g, a) := d in mkDecoding p g a k.

(** A digit of the text is fed to the accumulator. *)
Lemma accumulate a v : 0 <= a < 64 -> 0 <= v < 64 -> Z.lor (wrapU 32 (Z.shiftl a 6)) v = 64 * a + v.
Proof.
  intros Ha Hv. pose (f a v := Z.lor (wrapU 32 (Z.shiftl a 6)) v =? 64 * a + v).
  assert (forallb (fun i => f a (Z.of_nat i)) (seq 0 64) = true) as E.
  { apply (all_below (fun a => forallb (fun i => f a (Z.of_nat i)) (seq 0 64)) 64); [by vm_compute|exact Ha]. }
  apply Z.eqb_eq, (all_below (f a) 64 v E Hv).
Qed.

(** One octet more in the destination. *)
Lemma spill_ok W D O o g a d k m : 0 < W -> inU 8 o -> 0 <= k -> k + 1 < 2 ^ W -> DecodedSize d = k -> (D <> 0 \/ O <= 0) -> mapped m D O ->
  spill W D O o g a d m = Ok (mkDecoding (PaddingMode d) g a (k + 1), blit (D + k) (take (Z.to_nat (O - k)) [o]) m).
Proof.
  intros HW Ho Hk Hk1 Hd HD Hm. unfold spill. rewrite Hd, wrapU_id by (unfold inU; lia). destruct (Z.ltb_spec k O).
  - rewrite (proj2 (Z.eqb_neq D 0)) by lia. cbn [negb MASSERT]. rewrite (Mbind_Ok _ _ m tt (blit (D + k) [o] m)).
    + by rewrite (firstn_all2 [o]) by (cbn; lia).
    + unfold Mbind, Mret at 1. apply put_byte; [done|]. apply (mapped_sub _ _ _ _ _ Hm); lia.
  - by replace (Z.to_nat (O - k)) with 0%nat by lia.
Qed.

Lemma decode_char_ok W D O c d k m : 2 < W -> machine_ok d -> 0 <= k -> k + 1 < 2 ^ W -> (D <> 0 \/ O <= 0) -> mapped m D O ->
  match step d c with
  | (Some d', os) => decode_char W D O c (decoding d k) m = Ok ((true, decoding d' (k + len os)), blit (D + k) (take (Z.to_nat (O - k)) os) m)
  | (None, _) => exists d', decode_char W D O c (decoding d k) m = Ok ((false, d'), m) /\ DecodedSize d' = k
  end.
Proof.
  intros HW Hd Hk Hk1 HD Hm. assert (2 ^ 3 <= 2 ^ W) as HW3 by (apply Z.pow_le_mono_r; lia). change (2 ^ 3) with 8 in HW3.
  destruct d as [[p g] a]. unfold step, decode_char, decoding. cbn [PaddingMode SixBitGroupsConsumed Accumulator DecodedSize].
  destruct (is_space c); [by rewrite Z.add_0_r, take_nil|]. destruct Hd as [Hp Hd]. destruct p.
  { destruct (c =? PAD); [|by eexists]. destruct (g =? 3); [|by eexists]. cbn. by rewrite Z.add_0_r, take_nil. }
  destruct (Base64Value c) as [v|] eqn:Ev.
  - apply Base64Value_range in Ev. rewrite accumulate by lia. cbn zeta.
    set (x := 64 * a + v). assert (Z.land x 0xF = x mod 16) as L4 by (apply (Z.land_ones x 4); lia).
    assert (Z.land x 0x3 = x mod 4) as L2 by (apply (Z.land_ones x 2); lia). rewrite L4, L2, !Z.shiftr_div_pow2 by lia.
    change (2 ^ 4) with 16. change (2 ^ 2) with 4.
    assert (forall o g' a', inU 8 o -> (let! d' := spill W D O (wrapU 8 o) g' a' (mkDecoding false g a k) in Mret (true, d')) m =
      Ok ((true, mkDecoding false g' a' (k + 1)), blit (D + k) (take (Z.to_nat (O - k)) [o]) m)) as Sp.
    { intros o g' a' Ho. rewrite (wrapU_id 8 o) by done.
      by rewrite (Mbind_Ok _ _ _ _ _ (spill_ok W D O o g' a' (mkDecoding false g a k) k m ltac:(lia) Ho Hk Hk1 eq_refl HD Hm)). }
    destruct Hd as [[-> Ha]|[[-> Ha]|[[-> Ha]|[-> Ha]]]]; rewrite (wrapU_id W) by (unfold inU; lia).
    + change (0 + 1) with 1. cbn [Z.eqb Pos.eqb]. by rewrite take_nil, Z.add_0_r.
    + change (1 + 1) with 2. apply Sp. subst x. unfold inU. Z.div_mod_to_equations; lia.
    + change (2 + 1) with 3. apply Sp. subst x. unfold inU. Z.div_mod_to_equations; lia.
    + change (3 + 1) with 4. cbn [Z.eqb Pos.eqb MASSERT]. etrans; [|apply (Sp x 0 0); subst x; unfold inU; lia]. done.
  - destruct (Z.eqb_spec c PAD) as [->|]; [|by eexists]. cbn [andb].
    destruct (Z.eqb_spec g 2) as [->|]; [|destruct (Z.eqb_spec g 3) as [->|]]; cbn [Z.leb Z.compare Pos.compare Pos.compare_cont andb].
    + destruct (Z.eqb_spec a 0) as [->|]; [by rewrite take_nil, Z.add_0_r|by eexists].
    + destruct (Z.eqb_spec a 0) as [->|]; [by rewrite take_nil, Z.add_0_r|by eexists].
    + rewrite (proj2 (Z.leb_gt 2 g)) by lia. by eexists.
Qed.

Lemma run_text_ok W S D O cs : forall d k m, 2 < W -> machine_ok d -> 0 <= k -> k + len cs < 2 ^ W -> (D <> 0 \/ O <= 0) ->
  mapped m D O -> at_bytes m S cs -> (O <= 0 \/ S + len cs <= D \/ D + O <= S) ->
  let '(r, os) := run_text d cs in
  exists d', decode_loop (length cs) W S D O (decoding d k) m = Ok ((bool_decide (is_Some r), d'), blit (D + k) (take (Z.to_nat (O - k)) os) m) /\
    DecodedSize d' = k + len os /\ forall q, r = Some q -> d' = decoding q (k + len os).
Proof.
  revert S. induction cs as [|c cs IH]; intros S d k m HW Hd Hk Hk1 HD Hm Hs Hdis; cbn [run_text length decode_loop].
  { exists (decoding d k). rewrite take_nil, Z.add_0_r. split_and!; [done|by destruct d as [[? ?] ?]|]. by intros q [= ->]. }
  cbn [length] in Hk1, Hdis. apply at_bytes_cons in Hs as [Hc Hs]. rewrite (Mbind_Ok _ _ _ _ _ (load1_at _ _ _ Hc)).
  pose proof (step_ok d c Hd) as So. pose proof (decode_char_ok W D O c d k m HW Hd Hk ltac:(lia) HD Hm) as Sc.
  destruct (step d c) as [[d1|] os].
  - destruct So as (Hd1 & Hos & Hl). rewrite (Mbind_Ok _ _ _ _ _ Sc). cbn beta iota.
    specialize (IH (S + 1) d1 (k + len os) (blit (D + k) (take (Z.to_nat (O - k)) os) m)).
    destruct (run_text d1 cs) as [r os']. destruct IH as (d' & E & E1 & E2); [lia|done|lia|lia|done|by apply mapped_blit| |lia|].
    { destruct (decide (O <= k)); [by replace (Z.to_nat (O - k)) with 0%nat by lia|]. apply at_bytes_blit_other; [done|]. rewrite length_take. lia. }
    exists d'. rewrite E. split_and!; [|rewrite length_app; lia|].
    + do 2 f_equal. rewrite take_app, blit_app.
      replace (Z.to_nat (O - (k + len os))) with (Z.to_nat (O - k) - length os)%nat by lia.
      destruct (decide (length os <= Z.to_nat (O - k))%nat).
      * rewrite (firstn_all2 os) by lia. f_equal. lia.
      * by replace (Z.to_nat (O - k) - length os)%nat with 0%nat by lia.
    + intros q Hq. rewrite (E2 q Hq), length_app. f_equal. lia.
  - destruct Sc as (d' & E & Ed). exists d'. rewrite So, take_nil, Z.add_0_r. by rewrite (Mbind_Ok _ _ _ _ _ E).
Qed.

(** *** The machine reads groups *)

Lemma run_spaces cs : forall d, run_text d cs = run_text d (text cs).
Proof.
  induction cs as [|c cs IH]; intros d; [done|]. unfold text. rewrite filter_cons. destruct (is_space c) eqn:E.
  - rewrite decide_False by (rewrite <- space_eq; congruence). cbn [run_text]. unfold step. rewrite E, IH. by destruct (run_text d _).
  - rewrite decide_True by (by apply space_eq). cbn [run_text]. destruct (step d c) as [[d'|] os]; [|done]. by rewrite IH.
Qed.

(** What the machine says of a whole text. *)
Definition accepted (r : option machine * list Z) : option (list Z) :=
  match r with (Some (_, g, _), os) => if g =? 0 then Some os else None | (None, _) => None end.

Lemma run_digit c v g a cs : is_space c = false -> Base64Value c = Some v ->
  accepted (run_text (false, g, a) (c :: cs)) =
    let a' := 64 * a + v in
    if g =? 0 then accepted (run_text (false, 1, a') cs)
    else if g =? 1 then app [a' / 16] <$> accepted (run_text (false, 2, a' mod 16) cs)
    else if g =? 2 then app [a' / 4] <$> accepted (run_text (false, 3, a' mod 4) cs)
    else app [a'] <$> accepted (run_text (false, 0, 0) cs).
Proof.
  intros E V. cbn [run_text]. unfold step. rewrite E, V. cbn zeta.
  destruct (g =? 0), (g =? 1), (g =? 2); destruct (run_text _ cs) as [[[[? g'] ?]|] os]; cbn; try done; by destruct (g' =? 0).
Qed.
Lemma run_other c g a cs : is_space c = false -> Base64Value c = None ->
  (c = PAD /\ 2 <= g /\ a = 0 /\ run_text (false, g, a) (c :: cs) = run_text (true, if g =? 2 then 3 else 0, 0) cs) \/
  (~ (c = PAD /\ 2 <= g /\ a = 0) /\ accepted (run_text (false, g, a) (c :: cs)) = None).
Proof.
  intros E V. cbn [run_text]. unfold step. rewrite E, V. destruct (Z.eqb_spec c PAD); [|right; split; [tauto|done]].
  destruct (Z.leb_spec 2 g); [|right; split; [lia|done]]. destruct (Z.eqb_spec a 0); [|right; split; [tauto|done]].
  left. split_and!; try done. cbn. by destruct (run_text _ cs).
Qed.
Lemma run_padding c g cs : is_space c = false ->
  accepted (run_text (true, g, 0) (c :: cs)) = if (c =? PAD) && (g =? 3) then accepted (run_text (true, 0, 0) cs) else None.
Proof. intros E. cbn [run_text]. unfold step. rewrite E. destruct ((c =? PAD) && (g =? 3)); [|done]. by destruct (run_text _ cs). Qed.

Lemma octets_digits v0 v1 v2 v3 : 0 <= v0 < 64 -> 0 <= v1 < 64 -> 0 <= v2 < 64 -> 0 <= v3 < 64 ->
  octets (number [v0; v1; v2; v3]) = [(64 * v0 + v1) / 16; (64 * ((64 * v0 + v1) mod 16) + v2) / 4;
    64 * ((64 * ((64 * v0 + v1) mod 16) + v2) mod 4) + v3].
Proof.
  intros. unfold octets, number. cbn [foldl]. change (2 ^ 16) with 65536. change (2 ^ 8) with 256.
  f_equal; [|f_equal; [|f_equal]]; Z.div_mod_to_equations; lia.
Qed.

(** A character that is not a digit: padding, at the right place, or an error. *)
Lemma groups_bad c0 c1 cs : Base64Value c0 = None \/ Base64Value c1 = None -> decode_groups (c0 :: c1 :: cs) = None.
Proof.
  intros H. destruct cs as [|c2 [|c3 cs]]; [done..|]. cbn [decode_groups digits mapM]. rewrite ?value_eq.
  destruct (Base64Value c0); [destruct H as [|H]; [done|rewrite H]|]; cbn; by destruct (c3 =? PAD), (bool_decide (cs = [])), (c2 =? PAD).
Qed.

Lemma last_one v0 v1 : 0 <= v0 < 64 -> 0 <= v1 < 64 ->
  let x := 64 * v0 + v1 in last_group 1 [v0; v1; 0; 0] = if x mod 16 =? 0 then Some [x / 16] else None.
Proof.
  intros H0 H1 x. unfold last_group. rewrite octets_digits by lia. fold x. cbn [drop take forallb].
  destruct (Z.eqb_spec (x mod 16) 0) as [->|Hx]; [done|]. rewrite (proj2 (Z.eqb_neq 0 ((64 * (x mod 16) + 0) / 4))); [done|].
  Z.div_mod_to_equations. lia.
Qed.
Lemma last_two v0 v1 v2 : 0 <= v0 < 64 -> 0 <= v1 < 64 -> 0 <= v2 < 64 ->
  let x := 64 * v0 + v1 in let y := 64 * (x mod 16) + v2 in
  last_group 2 [v0; v1; v2; 0] = if y mod 4 =? 0 then Some [x / 16; y / 4] else None.
Proof.
  intros H0 H1 H2 x y. unfold last_group. rewrite octets_digits by lia. fold x. fold y. cbn [drop take forallb].
  destruct (Z.eqb_spec (y mod 4) 0) as [->|Hx]; [done|]. rewrite (proj2 (Z.eqb_neq 0 (64 * (y mod 4) + 0))); [done|].
  Z.div_mod_to_equations. lia.
Qed.

(** After the padding nothing may follow. *)
Lemma run_padded cs : Forall (fun c => is_space c = false) cs ->
  accepted (run_text (true, 0, 0) cs) = if bool_decide (cs = []) then Some [] else None.
Proof.
  intros Hs. destruct cs as [|c cs]; [done|]. apply Forall_cons in Hs as [Hc _]. rewrite run_padding by done. by rewrite andb_false_r.
Qed.

Lemma groups_pad2 c0 c1 c2 cs v0 v1 : Base64Value c0 = Some v0 -> Base64Value c1 = Some v1 -> Base64Value c2 = None ->
  is_space c2 = false -> Forall (fun c => is_space c = false) cs -> let x := 64 * v0 + v1 in
  app [x / 16] <$> accepted (run_text (false, 2, x mod 16) (c2 :: cs)) = decode_groups (c0 :: c1 :: c2 :: cs).
Proof.
  intros V0 V1 V2 S2 Hs x. pose proof (Base64Value_range _ _ V0). pose proof (Base64Value_range _ _ V1).
  assert (decode_groups (c0 :: c1 :: c2 :: cs) = match cs with
    | [c3] => if (c2 =? PAD) && (c3 =? PAD) && (x mod 16 =? 0) then Some [x / 16] else None | _ => None end) as ->.
  { destruct cs as [|c3 cs]; [done|]. cbn [decode_groups digits mapM]. rewrite ?value_eq. rewrite V0, V1, V2. cbn [mbind option_bind].
    destruct cs; [|by rewrite bool_decide_false, andb_false_r]. rewrite bool_decide_true, andb_true_r by done.
    destruct (c2 =? PAD), (c3 =? PAD); try done. cbn. by rewrite last_one. }
  destruct (run_other c2 2 (x mod 16) cs S2 V2) as [(-> & _ & Hx & ->)|[Hn ->]].
  - rewrite Hx. cbn [Z.eqb Pos.eqb]. destruct cs as [|c3 cs]; [done|]. apply Forall_cons in Hs as [S3 Hs].
    rewrite run_padding, run_padded by done. rewrite andb_true_r. destruct cs; [|by case_match]. by destruct (c3 =? PAD).
  - destruct cs as [|c3 [|]]; try done. destruct (Z.eqb_spec c2 PAD); [|done]. destruct (Z.eqb_spec (x mod 16) 0); [|by rewrite andb_false_r].
    destruct Hn. lia.
Qed.
Lemma groups_pad1 c0 c1 c2 c3 cs v0 v1 v2 : Base64Value c0 = Some v0 -> Base64Value c1 = Some v1 -> Base64Value c2 = Some v2 ->
  Base64Value c3 = None -> is_space c3 = false -> Forall (fun c => is_space c = false) cs ->
  let x := 64 * v0 + v1 in let y := 64 * (x mod 16) + v2 in
  app [x / 16] <$> (app [y / 4] <$> accepted (run_text (false, 3, y mod 4) (c3 :: cs))) = decode_groups (c0 :: c1 :: c2 :: c3 :: cs).
Proof.
  intros V0 V1 V2 V3 S3 Hs x y. pose proof (Base64Value_range _ _ V0). pose proof (Base64Value_range _ _ V1). pose proof (Base64Value_range _ _ V2).
  assert (decode_groups (c0 :: c1 :: c2 :: c3 :: cs) =
    if (c3 =? PAD) && bool_decide (cs = []) && (y mod 4 =? 0) then Some [x / 16; y / 4] else None) as ->.
  { cbn [decode_groups digits mapM]. rewrite ?value_eq. rewrite V0, V1, V2, V3. cbn [mbind option_bind].
    destruct ((c3 =? PAD) && bool_decide (cs = [])); [|done]. destruct (Z.eqb_spec c2 PAD) as [->|]; [done|]. cbn. by rewrite last_two. }
  destruct (run_other c3 3 (y mod 4) cs S3 V3) as [(-> & _ & Hx & ->)|[Hn ->]].
  - rewrite Hx. cbn [Z.eqb Pos.eqb]. rewrite run_padded by done. rewrite andb_true_r. by destruct (bool_decide (cs = [])).
  - destruct (Z.eqb_spec c3 PAD); [|done]. destruct (Z.eqb_spec (y mod 4) 0); [|by rewrite andb_false_r]. destruct Hn. lia.
Qed.

Lemma run_groups n : forall cs, (length cs <= n)%nat -> Forall (fun c => is_space c = false) cs ->
  accepted (run_text (false, 0, 0) cs) = decode_groups cs.
Proof.
  induction n as [|n IH]; intros cs Hl Hs; [by destruct cs; [|cbn in Hl; lia]|].
  destruct cs as [|c0 cs]; [done|]. apply Forall_cons in Hs as [S0 Hs]. destruct (Base64Value c0) as [v0|] eqn:V0.
  2:{ destruct (run_other c0 0 0 cs S0 V0) as [(_ & ? & _)|[_ ->]]; [lia|]. destruct cs as [|c1 cs]; [done|]. rewrite groups_bad; auto. }
  rewrite (run_digit c0 v0) by done. cbn [Z.eqb Pos.eqb]. destruct cs as [|c1 cs]; [done|]. apply Forall_cons in Hs as [S1 Hs].
  destruct (Base64Value c1) as [v1|] eqn:V1.
  2:{ destruct (run_other c1 1 (64 * 0 + v0) cs S1 V1) as [(_ & ? & _)|[_ ->]]; [lia|]. rewrite groups_bad; auto. }
  rewrite (run_digit c1 v1) by done. cbn [Z.eqb Pos.eqb]. destruct cs as [|c2 cs]; [done|]. apply Forall_cons in Hs as [S2 Hs].
  destruct (Base64Value c2) as [v2|] eqn:V2; [|by apply groups_pad2].
  rewrite (run_digit c2 v2) by done. cbn [Z.eqb Pos.eqb]. destruct cs as [|c3 cs]; [done|]. apply Forall_cons in Hs as [S3 Hs].
  destruct (Base64Value c3) as [v3|] eqn:V3; [|by apply groups_pad1].
  rewrite (run_digit c3 v3) by done. cbn [Z.eqb Pos.eqb]. rewrite IH by (done || (cbn in Hl; lia)).
  cbn [decode_groups digits mapM]. rewrite ?value_eq. rewrite V0, V1, V2, V3. cbn [mbind option_bind mret option_ret].
  apply Base64Value_range in V0, V1, V2, V3. rewrite octets_digits by done. by destruct (decode_groups cs).
Qed.

(** ** The two reference functions *)

Lemma group_digits v0 v1 v2 v3 : 0 <= v0 < 64 -> 0 <= v1 < 64 -> 0 <= v2 < 64 -> 0 <= v3 < 64 ->
  group (number [v0; v1; v2; v3]) = [digit v0; digit v1; digit v2; digit v3].
Proof.
  intros. unfold group, number. cbn [foldl]. change (2 ^ 18) with 262144. change (2 ^ 12) with 4096. change (2 ^ 6) with 64.
  f_equal; [|f_equal; [|f_equal; [|f_equal]]]; f_equal; Z.div_mod_to_equations; lia.
Qed.
Lemma octets_number v : 0 <= v < 2 ^ 24 -> forall a b c, octets v = [a; b; c] -> bytes_ok [a; b; c] /\ a * 2 ^ 16 + b * 2 ^ 8 + c = v.
Proof.
  change (2 ^ 24) with 16777216. intros Hv a b c [= <- <- <-]. change (2 ^ 16) with 65536. change (2 ^ 8) with 256.
  split; [repeat apply Forall_cons_2; try apply Forall_nil_2; unfold inU; change (2 ^ 8) with 256|]; Z.div_mod_to_equations; lia.
Qed.
Lemma number_range v0 v1 v2 v3 : 0 <= v0 < 64 -> 0 <= v1 < 64 -> 0 <= v2 < 64 -> 0 <= v3 < 64 -> 0 <= number [v0; v1; v2; v3] < 2 ^ 24.
Proof. intros. unfold number. cbn [foldl]. change (2 ^ 24) with 16777216. lia. Qed.
Lemma octets_of a b c : inU 8 a -> inU 8 b -> inU 8 c -> octets (a * 2 ^ 16 + b * 2 ^ 8 + c) = [a; b; c].
Proof.
  unfold inU, octets. change (2 ^ 16) with 65536. change (2 ^ 8) with 256. intros Ha Hb Hc.
  f_equal; [|f_equal; [|f_equal]]; Z.div_mod_to_equations; lia.
Qed.

Lemma digits_back vs : Forall (fun x => 0 <= x < 64) vs -> digits (digit <$> vs) = Some vs.
Proof.
  induction 1 as [|v vs Hv _ IH]; [done|]. cbn [fmap list_fmap digits mapM]. rewrite ?value_eq. rewrite (proj1 (Base64Value_digit v Hv)).
  cbn. unfold digits in IH. by rewrite IH.
Qed.

Lemma decode_one v0 v1 : 0 <= v0 < 64 -> 0 <= v1 < 64 -> decode_groups [digit v0; digit v1; PAD; PAD] = last_group 1 [v0; v1; 0; 0].
Proof.
  intros H0 H1. cbn [decode_groups digits mapM]. rewrite ?value_eq. by rewrite (proj1 (Base64Value_digit v0 H0)), (proj1 (Base64Value_digit v1 H1)).
Qed.
Lemma decode_two v0 v1 v2 : 0 <= v0 < 64 -> 0 <= v1 < 64 -> 0 <= v2 < 64 ->
  decode_groups [digit v0; digit v1; digit v2; PAD] = last_group 2 [v0; v1; v2; 0].
Proof.
  intros H0 H1 H2. cbn [decode_groups digits mapM]. rewrite ?value_eq.
  rewrite (proj1 (Base64Value_digit v0 H0)), (proj1 (Base64Value_digit v1 H1)), (proj1 (Base64Value_digit v2 H2)).
  cbn. destruct (Z.eqb_spec (digit v2) PAD) as [E|]; [|done]. pose proof (proj1 (Base64Value_digit v2 H2)) as F. by rewrite E in F.
Qed.

Lemma encode_one_byte a : inU 8 a -> encode [a] = [digit (a / 4); digit (a mod 4 * 16); PAD; PAD].
Proof.
  intros Ha. destruct (sextets a 0 0 Ha) as (E0 & E1 & _); [done..|]. rewrite !Z.add_0_r in E0, E1. cbn [encode]. unfold group.
  cbn [take app]. by rewrite E0, E1, Z.add_0_r.
Qed.
Lemma encode_two a b : inU 8 a -> inU 8 b -> encode [a; b] = [digit (a / 4); digit (a mod 4 * 16 + b / 16); digit (b mod 16 * 4); PAD].
Proof.
  intros Ha Hb. destruct (sextets a b 0 Ha Hb) as (E0 & E1 & E2 & _); [done..|]. rewrite !Z.add_0_r in E0, E1, E2.
  cbn [encode]. unfold group. cbn [take app]. by rewrite E0, E1, E2, Z.add_0_r.
Qed.
Lemma encode_three a b c bs : inU 8 a -> inU 8 b -> inU 8 c -> encode (a :: b :: c :: bs) =
  (digit <$> [a / 4; a mod 4 * 16 + b / 16; b mod 16 * 4 + c / 64; c mod 64]) ++ encode bs.
Proof.
  intros Ha Hb Hc. destruct (sextets a b c Ha Hb Hc) as (E0 & E1 & E2 & E3). cbn [encode]. unfold group. by rewrite E0, E1, E2, E3.
Qed.

Lemma decode_four c0 c1 c2 c3 vs cs : digits [c0; c1; c2; c3] = Some vs ->
  decode_groups (c0 :: c1 :: c2 :: c3 :: cs) = rest ← decode_groups cs; Some (octets (number vs) ++ rest).
Proof. intros H. cbn [decode_groups]. by rewrite H. Qed.
Lemma low_high x h k : 0 <= x < k -> (x + h * k) mod k = x /\ (x + h * k) / k = h.
Proof. intros H. rewrite Z.mod_add, Z.div_add, Z.mod_small, Z.div_small by lia. done. Qed.
Lemma decode_groups_encode n : forall bs, (length bs <= n)%nat -> bytes_ok bs -> decode_groups (encode bs) = Some bs.
Proof.
  induction n as [|n IH]; intros bs Hl Hb; [by destruct bs; [|cbn in Hl; lia]|].
  destruct bs as [|a bs]; [done|]. apply Forall_cons in Hb as [Ha Hb]. pose proof (byte_parts a Ha). destruct bs as [|b bs].
  { rewrite encode_one_byte, decode_one, last_one by lia || done. replace (64 * (a / 4) + a mod 4 * 16) with (a * 16) by (Z.div_mod_to_equations; lia).
    by rewrite Z.mod_mul, Z.div_mul. }
  apply Forall_cons in Hb as [Hb Hbs]. pose proof (byte_parts b Hb). destruct bs as [|c bs].
  { rewrite encode_two, decode_two, last_two by lia || done.
    replace (64 * (a / 4) + (a mod 4 * 16 + b / 16)) with (b / 16 + a * 16) by (Z.div_mod_to_equations; lia).
    destruct (low_high (b / 16) a 16) as [-> ->]; [lia|].
    replace (64 * (b / 16) + b mod 16 * 4) with (b * 4) by (Z.div_mod_to_equations; lia). by rewrite Z.mod_mul, Z.div_mul. }
  apply Forall_cons in Hbs as [Hc Hbs]. pose proof (byte_parts c Hc). rewrite encode_three by done.
  cbn [fmap list_fmap app]. rewrite (decode_four _ _ _ _ [a / 4; a mod 4 * 16 + b / 16; b mod 16 * 4 + c / 64; c mod 64]).
  2:{ apply (digits_back [_; _; _; _]). repeat apply Forall_cons_2; try apply Forall_nil_2; lia. }
  rewrite IH by (done || (cbn in Hl; lia)).
  cbn [mbind option_bind]. rewrite octets_digits by lia. cbn [app].
  replace (64 * (a / 4) + (a mod 4 * 16 + b / 16)) with (b / 16 + a * 16) by (Z.div_mod_to_equations; lia).
  destruct (low_high (b / 16) a 16) as [-> ->]; [lia|].
  replace (64 * (b / 16) + (b mod 16 * 4 + c / 64)) with (c / 64 + b * 4) by (Z.div_mod_to_equations; lia).
  destruct (low_high (c / 64) b 4) as [-> ->]; [lia|].
  by replace (64 * (c / 64) + c mod 64) with c by (Z.div_mod_to_equations; lia).
Qed.

Lemma encode_text_only bs : bytes_ok bs -> Forall (fun c => is_space c = false) (encode bs).
Proof.
  enough (forall n bs, (length bs <= n)%nat -> bytes_ok bs -> Forall (fun c => is_space c = false) (encode bs)) as H by (by apply (H (length bs))).
  clear. induction n as [|n IH]; intros bs Hl Hb; [by destruct bs; [apply Forall_nil|cbn in Hl; lia]|].
  assert (forall v, 0 <= v < 64 -> is_space (digit v) = false) as D by (intros v Hv; apply (Base64Value_digit v Hv)).
  destruct bs as [|a bs]; [by apply Forall_nil|]. apply Forall_cons in Hb as [Ha Hb]. pose proof (byte_parts a Ha). destruct bs as [|b bs].
  { rewrite encode_one_byte by done. repeat apply Forall_cons_2; try apply Forall_nil_2; try done; apply D; lia. }
  apply Forall_cons in Hb as [Hb Hbs]. pose proof (byte_parts b Hb). destruct bs as [|c bs].
  { rewrite encode_two by done. repeat apply Forall_cons_2; try apply Forall_nil_2; try done; apply D; lia. }
  apply Forall_cons in Hbs as [Hc Hbs]. pose proof (byte_parts c Hc). rewrite encode_three by done. apply Forall_app_2; [|apply IH; [cbn in Hl; lia|done]].
  repeat apply Forall_cons_2; try apply Forall_nil_2; apply D; lia.
Qed.
Lemma text_id cs : Forall (fun c => is_space c = false) cs -> text cs = cs.
Proof. intros H. unfold text. induction H; [done|]. rewrite filter_cons_True by (by apply space_eq). by f_equal. Qed.
Lemma decode_encode bs : bytes_ok bs -> decode (encode bs) = Some bs.
Proof. intros H. unfold decode. rewrite text_id by (by apply encode_text_only). by apply (decode_groups_encode (length bs)). Qed.

(** Only the text that the encoder writes is accepted, up to whitespace. *)
Lemma digits_inv cs vs : bytes_ok cs -> digits cs = Some vs -> cs = digit <$> vs /\ Forall (fun v => 0 <= v < 64) vs.
Proof.
  intros Hc E. apply mapM_Some in E. revert Hc. induction E as [|c v cs vs V _ IH]; intros Hc; [by split; [|apply Forall_nil]|].
  apply Forall_cons in Hc as [Hc Hcs]. destruct (IH Hcs) as [-> F]. rewrite value_eq in V. cbn. rewrite (digit_Base64Value c v Hc V).
  split; [done|]. apply Forall_cons. split; [by apply (Base64Value_range c)|done].
Qed.
(** The bytes of four digits, and back. *)
Lemma encode_octets v0 v1 v2 v3 : 0 <= v0 < 64 -> 0 <= v1 < 64 -> 0 <= v2 < 64 -> 0 <= v3 < 64 ->
  exists a b c, octets (number [v0; v1; v2; v3]) = [a; b; c] /\ inU 8 a /\ inU 8 b /\ inU 8 c /\
    a / 4 = v0 /\ a mod 4 * 16 + b / 16 = v1 /\ b mod 16 * 4 + c / 64 = v2 /\ c mod 64 = v3.
Proof.
  intros. rewrite octets_digits by done. eexists _, _, _. split; [done|]. unfold inU. change (2 ^ 8) with 256.
  split_and!; Z.div_mod_to_equations; lia.
Qed.
Lemma encode_decode_groups n : forall cs os, (length cs <= n)%nat -> bytes_ok cs -> decode_groups cs = Some os -> bytes_ok os /\ encode os = cs.
Proof.
  induction n as [|n IH]; intros cs os Hl Hc E.
  { destruct cs; [|cbn in Hl; lia]. cbn in E. simplify_eq. by split; [apply Forall_nil|]. }
  destruct cs as [|c0 [|c1 [|c2 [|c3 cs]]]]; try done; [cbn in E; simplify_eq; by split; [apply Forall_nil|]|].
  cbn [decode_groups] in E. change (c0 :: c1 :: c2 :: c3 :: cs) with ([c0; c1; c2; c3] ++ cs) in Hc |- *.
  apply Forall_app in Hc as [H4 Hcs]. destruct (digits [c0; c1; c2; c3]) as [vs|] eqn:Ed.
  - destruct (decode_groups cs) as [rest|] eqn:Er; [|done]. destruct (IH cs rest) as [Hr <-]; [cbn in Hl; lia|done..|].
    destruct (digits_inv _ _ H4 Ed) as [-> F]. pose proof (length_mapM _ _ _ Ed) as L. destruct vs as [|v0 [|v1 [|v2 [|v3 [|]]]]]; try done.
    rewrite !Forall_cons in F. destruct F as (F0 & F1 & F2 & F3 & _).
    destruct (encode_octets v0 v1 v2 v3 F0 F1 F2 F3) as (a & b & c & Eo & Ha & Hb & Hc & <- & <- & <- & <-).
    cbn [mbind option_bind] in E. rewrite Eo in E. injection E as <-. split; [by repeat apply Forall_cons_2|]. by apply encode_three.
  - destruct (Z.eqb_spec c3 PAD) as [->|]; [|done]. destruct cs; [|done]. rewrite bool_decide_true in E by done. cbn [andb] in E.
    destruct (Z.eqb_spec c2 PAD) as [->|].
    + destruct (digits [c0; c1]) as [vs|] eqn:E2; [|done].
      destruct (digits_inv [c0; c1] vs) as [Ec F]; [exact (Forall_take _ 2 _ H4)|done|].
      destruct vs as [|v0 [|v1 [|]]]; try done. cbn in Ec. simplify_eq. rewrite !Forall_cons in F. destruct F as (F0 & F1 & _).
      change (last_group 1 [v0; v1; 0; 0] = Some os) in E. rewrite last_one in E by done. destruct (Z.eqb_spec ((64 * v0 + v1) mod 16) 0); [|done].
      simplify_eq. assert (inU 8 ((64 * v0 + v1) / 16)) as Hb by (unfold inU; change (2 ^ 8) with 256; Z.div_mod_to_equations; lia).
      split; [by apply Forall_singleton|]. rewrite encode_one_byte by done. cbn. repeat f_equal; Z.div_mod_to_equations; lia.
    + destruct (digits [c0; c1; c2]) as [vs|] eqn:E2; [|done].
      destruct (digits_inv [c0; c1; c2] vs) as [Ec F]; [exact (Forall_take _ 3 _ H4)|done|].
      destruct vs as [|v0 [|v1 [|v2 [|]]]]; try done. cbn in Ec. simplify_eq. rewrite !Forall_cons in F. destruct F as (F0 & F1 & F2 & _).
      change (last_group 2 [v0; v1; v2; 0] = Some os) in E. rewrite last_two in E by done.
      set (x := 64 * v0 + v1) in *. destruct (Z.eqb_spec ((64 * (x mod 16) + v2) mod 4) 0); [|done].
      simplify_eq. assert (inU 8 (x / 16) /\ inU 8 ((64 * (x mod 16) + v2) / 4)) as [Hb Hb'] by (unfold inU; change (2 ^ 8) with 256; Z.div_mod_to_equations; lia).
      split; [by repeat apply Forall_cons_2|]. rewrite encode_two by done. cbn. subst x. repeat f_equal; Z.div_mod_to_equations; lia.
Qed.
Lemma encode_decode cs os : bytes_ok cs -> decode cs = Some os -> bytes_ok os /\ encode os = text cs.
Proof.
  intros Hc E. apply (encode_decode_groups (length (text cs))); [done| |done].
  unfold bytes_ok in *. rewrite Forall_forall in *. intros c [_ H]%list_elem_of_filter. auto.
Qed.

(** ** Base64Decode *)

(** The two buffers are ranges of addresses that do not overlap; NULL goes
    with the size 0. *)
Definition buffers_ok (W S n D size : Z) : Prop :=
  (S = 0 -> n = 0) /\ (D = 0 -> size = 0) /\ S + n <= MAX_ADDRESS W /\ D + size <= MAX_ADDRESS W /\
  (S = 0 \/ D = 0 \/ S + n <= D \/ D + size <= S).
Lemma decode_refused_ok W S n D size : 0 < W -> 0 <= S -> 0 <= D -> 0 <= n -> 0 <= size -> S <= MAX_ADDRESS W -> D <= MAX_ADDRESS W ->
  (n <= MAX_ADDRESS W) -> (size <= MAX_ADDRESS W) ->
  decode_refused W S n D size = false <-> buffers_ok W S n D size.
Proof.
  unfold decode_refused, buffers_ok, MAX_ADDRESS. intros HW HS HD Hn Hs HS1 HD1 Hn1 Hs1. rewrite !(wrapU_id W (_ - 1 - _)) by (unfold inU; lia).
  rewrite !orb_false_iff, !andb_false_iff, !negb_false_iff, !Z.leb_le, !Z.eqb_eq.
  destruct (Z.eqb_spec S 0), (Z.eqb_spec D 0); rewrite !Z.ltb_ge; [lia..|].
  split; [intros [[A1 A2] A3]|intros (_ & _ & A1 & A2 & A3)].
  - rewrite !wrapU_id in A3 by (unfold inU; lia). lia.
  - rewrite !wrapU_id by (unfold inU; lia). lia.
Qed.

Lemma Base64Decode_run W m S cs D size : 2 < W -> 0 <= S -> 0 <= D -> 0 <= size -> buffers_ok W S (len cs) D size ->
  mapped m D size -> at_bytes m S cs ->
  match decode cs with
  | Some out => Base64Decode W S (len cs) D (Some size) m =
      Ok ((if len out <=? size then EFI_SUCCESS else EFI_BUFFER_TOO_SMALL, len out), blit D (take (Z.to_nat size) out) m)
  | None => exists k os, Base64Decode W S (len cs) D (Some size) m = Ok ((EFI_INVALID_PARAMETER, k), blit D (take (Z.to_nat size) os) m)
  end.
Proof.
  intros HW HS HD Hs B Hm Hc. unfold Base64Decode.
  assert (decode_refused W S (len cs) D size = false) as -> by (apply decode_refused_ok; [unfold buffers_ok, MAX_ADDRESS in *; lia..|done]).
  destruct B as (B1 & B2 & B3 & B4 & B5). unfold MAX_ADDRESS in *.
  pose proof (run_text_ok W S D size cs (false, 0, 0) 0 m HW) as R. unfold decode. rewrite <- (run_groups (length (text cs)) (text cs)), <- run_spaces; [|done|].
  2:{ apply Forall_forall. intros c [Hx _]%list_elem_of_filter. by apply space_eq. }
  destruct (run_text (false, 0, 0) cs) as [r os]. destruct R as (d' & E & E1 & E2); [cbn; lia|lia|lia|lia|done|done|lia|].
  rewrite Nat2Z.id. change (mkDecoding false 0 0 0) with (decoding (false, 0, 0) 0). rewrite (Mbind_Ok _ _ _ _ _ E).
  rewrite Z.add_0_r, Z.sub_0_r. cbn beta iota. rewrite Z.add_0_l in E1. destruct r as [[[p g] a]|]; cbn [accepted].
  - rewrite (E2 _ eq_refl). rewrite bool_decide_true by by eexists. cbn. destruct (Z.eqb_spec g 0); cbn; [done|]. by eexists _, os.
  - rewrite bool_decide_false by by intros []. cbn. by eexists _, os.
Qed.

(** ** The properties *)

(** C34 Base64Decode accepts what RFC 4648 allows and nothing else, and it never
    touches memory outside of the destination.  For every array of characters and every
    destination buffer the function returns.  It refuses buffers that overlap, wrap around or
    are NULL with a size, and text that is not Base64: a character outside of the alphabet,
    padding at another place than the end of the last group of four or bits under the padding
    that are not 0; whitespace may be anywhere.  Otherwise the octets of the text are stored as
    far as there is room, DestinationSize is their number, and the status says whether they fit. *)
Theorem Base64_decode W m S cs D size : 2 < W ->
  0 <= S <= MAX_ADDRESS W -> 0 <= D <= MAX_ADDRESS W -> len cs <= MAX_ADDRESS W -> 0 <= size <= MAX_ADDRESS W ->
  mapped m D size -> at_bytes m S cs ->
  exists Status n os, Base64Decode W S (len cs) D (Some size) m = Ok ((Status, n), blit D (take (Z.to_nat size) os) m) /\
    ((Status = EFI_INVALID_PARAMETER /\ (~ buffers_ok W S (len cs) D size \/ decode cs = None)) \/
     (buffers_ok W S (len cs) D size /\ decode cs = Some os /\ n = len os /\
      Status = if len os <=? size then EFI_SUCCESS else EFI_BUFFER_TOO_SMALL)).
Proof.
  intros HW HS HD Hl Hs Hm Hc. pose proof (decode_refused_ok W S (len cs) D size) as R.
  destruct (decode_refused W S (len cs) D size) eqn:E.
  - exists EFI_INVALID_PARAMETER, size, []. unfold Base64Decode. rewrite E, take_nil. split; [done|]. left. split; [done|left].
    intros B. apply R in B; [done|lia..].
  - assert (buffers_ok W S (len cs) D size) as B by (apply R; [lia..|done]).
    pose proof (Base64Decode_run W m S cs D size HW ltac:(lia) ltac:(lia) ltac:(lia) B Hm Hc) as P.
    destruct (decode cs) as [out|].
    + eexists _, _, out. split; [exact P|]. by right.
    + destruct P as (k & os & P). eexists _, k, os. split; [exact P|]. left. by split; [|right].
Qed.

(** C35 What Base64Encode writes, Base64Decode reads back.  For any bytes, with
    a buffer for the text and one for the bytes that come back: the encoder succeeds, the text
    is the one that RFC 4648 prescribes, closed by a zero, and the decoder, given the text
    without the zero and a buffer of exactly the number of bytes, succeeds, reports that number
    and stores the same bytes. *)
Theorem Base64_roundtrip W m S bs D size B : 2 < W -> 0 < S -> 0 < D -> 0 < B ->
  S + len bs < MAX_ADDRESS W -> D + size < MAX_ADDRESS W -> B + len bs <= MAX_ADDRESS W ->
  let N := len (encode bs) in
  N + 1 <= size -> apart m S bs D (N + 1) -> mapped m B (len bs) -> (D + (N + 1) <= B \/ B + len bs <= D) ->
  exists r m1 m2,
    Base64Encode W S (len bs) D (Some size) m = Ok ((EFI_SUCCESS, r), m1) /\ at_bytes m1 D (encode bs ++ [0]) /\
    Base64Decode W D N B (Some (len bs)) m1 = Ok ((EFI_SUCCESS, len bs), m2) /\ at_bytes m2 B bs /\
    forall x, ~ (D <= x < D + (N + 1)) -> ~ (B <= x < B + len bs) -> m2 !! x = m !! x.
Proof.
  intros HW HS HD HB HSb HDb HBb N HN A Hm Hd. eexists _, _, _. split; [apply Base64Encode_ok; [lia..|exact A]|].
  split; [apply at_bytes_blit|]. pose proof (at_bytes_blit m D (encode bs ++ [0])) as T. apply at_bytes_app in T as [T _].
  pose proof (Base64Decode_run W (blit D (encode bs ++ [0]) m) D (encode bs) B (len bs)) as R.
  rewrite (decode_encode bs (ap_bytes _ _ _ _ _ A)), Z.leb_refl, Nat2Z.id, firstn_all in R. fold N in R.
  split; [apply R; [lia..| |by apply mapped_blit|exact T]; unfold buffers_ok; lia|]. split; [apply at_bytes_blit|].
  intros x H1 H2. rewrite !lookup_blit_out; [done|rewrite length_app; cbn; lia|done].
Qed.

(** Two texts with the same bytes differ in whitespace only: when the decoder
    accepts a text, encoding its bytes gives the text without whitespace. *)
Theorem Base64_canonical W m S cs D size E esize n m1 : 2 < W ->
  0 <= S <= MAX_ADDRESS W -> 0 < D -> 0 < E -> 0 <= size -> D + size < MAX_ADDRESS W -> E + esize < MAX_ADDRESS W ->
  bytes_ok cs -> len cs <= MAX_ADDRESS W -> at_bytes m S cs -> mapped m D size -> mapped m E esize -> (D + size <= E \/ E + esize <= D) ->
  Base64Decode W S (len cs) D (Some size) m = Ok ((EFI_SUCCESS, n), m1) -> len (text cs) + 1 <= esize ->
  exists r m2, Base64Encode W D n E (Some esize) m1 = Ok ((EFI_SUCCESS, r), m2) /\ at_bytes m2 E (text cs ++ [0]).
Proof.
  intros HW HS HD HE Hs HDs HEs Hb Hl Hc Hm HmE Hd R Ht.
  assert (decode_refused W S (len cs) D size = false) as B.
  { unfold Base64Decode in R. by destruct (decode_refused W S (len cs) D size). }
  apply decode_refused_ok in B; [|lia..]. pose proof (Base64Decode_run W m S cs D size HW ltac:(lia) ltac:(lia) Hs B Hm Hc) as P.
  destruct (decode cs) as [out|] eqn:Eo; [|destruct P as (k & os & P); rewrite R in P; simplify_eq].
  rewrite P in R. destruct (Z.leb_spec (len out) size); simplify_eq. rewrite firstn_all2 by lia.
  destruct (encode_decode cs out Hb Eo) as [Ho Et]. rewrite <- Et in *.
  eexists _, _. split; [apply Base64Encode_ok; [lia..|]|apply at_bytes_blit]. split; [apply at_bytes_blit|done| |lia].
  apply mapped_blit, (mapped_sub _ _ _ _ _ HmE); lia.
Qed.

(** ** Witnesses *)

Definition foobar : list Z := [102; 111; 111; 98; 97].
Definition text_bench : mem := blit 200 (replicate 5 0) (blit 100 (replicate 9 0) (blit 16 foobar ∅)).
Lemma bench_apart : apart text_bench 16 foobar 100 9.
Proof.
  split; [|by_decide| |by left].
  - apply (at_bytes_mono (blit 16 foobar ∅)); [|apply at_bytes_blit]. by_decide.
  - intros x Hx. unfold text_bench. rewrite lookup_blit_out, lookup_blit_in by (cbn; lia). apply lookup_lt_is_Some. cbn. lia.
Qed.
Lemma Base64_roundtrip_witness : exists r m1 m2,
  Base64Encode 64 16 5 100 (Some 9) text_bench = Ok ((EFI_SUCCESS, r), m1) /\
  Base64Decode 64 100 8 200 (Some 5) m1 = Ok ((EFI_SUCCESS, 5), m2) /\ at_bytes m2 200 foobar.
Proof.
  destruct (Base64_roundtrip 64 text_bench 16 foobar 100 9 200) as (r & m1 & m2 & E & _ & D & R & _);
    [by vm_compute..|exact bench_apart| |by left; vm_compute|exists r, m1, m2; by split_and!].
  intros x Hx. unfold text_bench. rewrite lookup_blit_in by (cbn in *; lia). apply lookup_lt_is_Some. cbn in *. lia.
Defined.

(** "Zm9v YmE=" has a space in it. *)
Definition spaced : list Z := [90; 109; 57; 118; 32; 89; 109; 69; 61].
Definition spaced_bench : mem := blit 200 (replicate 5 0) (blit 100 spaced ∅).
Lemma Base64_decode_witness : exists os, Base64Decode 64 100 9 200 (Some 5) spaced_bench =
  Ok ((EFI_SUCCESS, 5), blit 200 (take 5 os) spaced_bench) /\ os = foobar.
Proof.
  destruct (Base64_decode 64 spaced_bench 100 spaced 200 5) as (st & n & os & E & H); [lia|by vm_compute..| | |].
  - intros x Hx. unfold spaced_bench. rewrite lookup_blit_in by (cbn in *; lia). apply lookup_lt_is_Some. cbn in *. lia.
  - apply at_bytes_blit_other; [apply at_bytes_blit|]. left. by vm_compute.
  - destruct H as [[_ [H|H]]|(_ & H & -> & ->)].
    + destruct H. split_and!; [done|done|by vm_compute|by vm_compute|]. right. right. left. by vm_compute.
    + by vm_compute in H.
    + vm_compute in H. injection H as <-. exists foobar. by split.
Defined.

(** ** Corners *)

(** No bytes and a NULL destination: the zero is written to address 0. *)
Example encode_null : Base64Encode 64 16 0 0 (Some 1) text_bench = Fault.
Proof. by vm_compute. Qed.
(** With 16-bit addresses: 49152 bytes need 65537 characters, and the size of
    one is said to be enough. *)
Example encode_wraps : match Base64Encode 16 1 49152 0 (Some 0) ∅ with Ok (r, _) => r = (EFI_BUFFER_TOO_SMALL, 1) | _ => False end.
Proof. by vm_compute. Qed.
(** RFC 4648, chapter 10. *)
Example test_vectors : encode <$> [[]; [102]; [102; 111]; [102; 111; 111]; foobar ++ [114]] =
  [[]; [90; 103; 61; 61]; [90; 109; 56; 61]; [90; 109; 57; 118]; [90; 109; 57; 118; 89; 109; 70; 121]].
Proof. by vm_compute. Qed.

(** Two decimal digits in a byte, and back. *)
Theorem Bcd8_roundtrip v : 0 <= v -> match DecimalToBcd8 v with Ok b => BcdToDecimal8 b = Ok v | _ => 100 <= v end.
Proof.
  intros Hv. pose (f v := match DecimalToBcd8 v with
    | Ok b => match BcdToDecimal8 b with Ok v' => v' =? v | _ => false end | _ => false end).
  destruct (Z.ltb_spec v 100).
  - assert (f v = true) as E by (apply (all_below f 100); [by vm_compute|lia]). subst f. cbn beta in E.
    destruct (DecimalToBcd8 v) as [b| | |]; try done. destruct (BcdToDecimal8 b); try done. apply Z.eqb_eq in E. by subst.
  - unfold DecimalToBcd8. by rewrite (proj2 (Z.ltb_ge _ _)) by lia.
Qed.
