(* ===== verification/SafeString.v ===== *)
(** * SafeString: the safe string functions of BaseLib

    MdePkg/Library/BaseLib/SafeString.c: lengths, copying, appending,
    conversion between the two kinds of strings, and numbers, for strings of
    CHAR16 and of CHAR8; with the functions on characters of String.c that
    they use.

    The file has every function twice.  [k] is the size of a character, 2 or
    1: the functions for CHAR8 are the same code without the check that the
    pointer is even, and with the other of the two PCDs.  [W] is the width of
    UINTN; a PCD of 0 is no limit. *)

From stdpp Require Import base option list gmap fin_maps.
From Stdlib Require Import ZArith Lia.
From S2P Require Import Prelude BaseMath Memory MemSpec DevPath.

Local Open Scope Z_scope.
Local Open Scope edk_scope.

Class STRING_PCDS := mkPcds {
  PcdMaximumUnicodeStringLength : Z;
  PcdMaximumAsciiStringLength : Z
}.

(** [SAFE_STRING_CONSTRAINT_CHECK (Expression, Status)], and what follows. *)
Notation "'check' e 'or' st 'then' k" := (if e then k else Mret st)
  (at level 10, e at level 99, st at level 99, k at level 200, only parsing) : edk_scope.

Section SafeString.
Context (W : Z) `{Pcds : STRING_PCDS}.

Definition RSIZE_MAX : Z := PcdMaximumUnicodeStringLength.
Definition ASCII_RSIZE_MAX : Z := PcdMaximumAsciiStringLength.

Section Width.
Context (k : nat).

Definition rsize_max : Z := if (k =? 2)%nat then RSIZE_MAX else ASCII_RSIZE_MAX.
Definition within (n rmax : Z) : bool := (rmax =? 0) || (n <=? rmax).

(** [ASSERT (((UINTN) String & BIT0) == 0)] for CHAR16 *)
Definition assert_aligned (String : Z) : M mem unit :=
  if (k =? 2)%nat then MASSERT (Z.land String 1 =? 0) else Mret tt.

(** [String[Index]] *)
Definition char_at (String Index : Z) : M mem Z := load k (String + Z.of_nat k * Index).
End Width.

Definition InternalSafeStringIsOverlap (Base1 Size1 Base2 Size2 : Z) : bool :=
  ((Base2 <=? Base1) && (Base1 <? wrapU W (Base2 + Size2))) ||
  ((Base1 <=? Base2) && (Base2 <? wrapU W (Base1 + Size1))).
Definition no_overlap (k : nat) (Str1 Size1 Str2 Size2 : Z) : bool :=
  negb (InternalSafeStringIsOverlap Str1 (wrapU W (Size1 * Z.of_nat k)) Str2 (wrapU W (Size2 * Z.of_nat k))).
Definition InternalSafeStringNoStrOverlap : Z -> Z -> Z -> Z -> bool := no_overlap 2.
Definition InternalSafeStringNoAsciiStrOverlap : Z -> Z -> Z -> Z -> bool := no_overlap 1.

(** ** Lengths *)

(** [while (String[Length] != 0)] *)
Fixpoint length_loop (fuel k : nat) (String MaxSize Length : Z) : M mem Z :=
  let! c := char_at k String Length in
  if c =? 0 then Mret Length
  else if MaxSize - 1 <=? Length then Mret MaxSize
  else
    match fuel with
    | O => Mfail OutOfFuel
    | S fuel' => length_loop fuel' k String MaxSize (Length + 1)
    end.
Definition string_length (k : nat) (String MaxSize : Z) : M mem Z :=
  assert_aligned k String ;;;
  if (String =? 0) || (MaxSize =? 0) then Mret 0 else length_loop (Z.to_nat MaxSize) k String MaxSize 0.
Definition StrnLenS : Z -> Z -> M mem Z := string_length 2.
Definition AsciiStrnLenS : Z -> Z -> M mem Z := string_length 1.

Definition string_size (k : nat) (String MaxSize : Z) : M mem Z :=
  if String =? 0 then Mret 0
  else let! n := string_length k String MaxSize in Mret (wrapU W (wrapU W (n + 1) * Z.of_nat k)).
Definition StrnSizeS : Z -> Z -> M mem Z := string_size 2.
Definition AsciiStrnSizeS : Z -> Z -> M mem Z := string_size 1.

(** ** Copying and appending

    A character of [ks] bytes is stored with [kd]; [ok] is the ASSERT on it. *)

(** While the character at Source is not 0, it is copied and both pointers
    are moved on; then the end is stored. *)
Fixpoint move_all (fuel kd ks : nat) (ok : Z -> bool) (Destination Source : Z) : M mem unit :=
  let! c := load ks Source in
  if c =? 0 then store kd Destination 0
  else
    match fuel with
    | O => Mfail OutOfFuel
    | S fuel' =>
        MASSERT (ok c) ;;;
        store kd Destination c ;;;
        move_all fuel' kd ks ok (Destination + Z.of_nat kd) (Source + Z.of_nat ks)
    end.

(** The same for at most SourceLen characters. *)
Fixpoint move_some (SourceLen kd ks : nat) (Destination Source : Z) : M mem unit :=
  match SourceLen with
  | O => store kd Destination 0
  | S SourceLen' =>
      let! c := load ks Source in
      if c =? 0 then store kd Destination 0
      else
        store kd Destination c ;;;
        move_some SourceLen' kd ks (Destination + Z.of_nat kd) (Source + Z.of_nat ks)
  end.

Definition any_char (c : Z) : bool := true.

Definition copy_string (k : nat) (Destination DestMax Source : Z) : M mem EFI_STATUS :=
  assert_aligned k Destination ;;;
  assert_aligned k Source ;;;
  check negb (Destination =? 0) or EFI_INVALID_PARAMETER then
  check negb (Source =? 0) or EFI_INVALID_PARAMETER then
  check within DestMax (rsize_max k) or EFI_INVALID_PARAMETER then
  check negb (DestMax =? 0) or EFI_INVALID_PARAMETER then
  let! SourceLen := string_length k Source DestMax in
  check SourceLen <? DestMax or EFI_BUFFER_TOO_SMALL then
  check no_overlap k Destination DestMax Source (wrapU W (SourceLen + 1)) or EFI_ACCESS_DENIED then
  move_all (Z.to_nat DestMax) k k any_char Destination Source ;;;
  Mret EFI_SUCCESS.
Definition StrCpyS : Z -> Z -> Z -> M mem EFI_STATUS := copy_string 2.
Definition AsciiStrCpyS : Z -> Z -> Z -> M mem EFI_STATUS := copy_string 1.

Definition copy_part (k : nat) (Destination DestMax Source Length : Z) : M mem EFI_STATUS :=
  assert_aligned k Destination ;;;
  assert_aligned k Source ;;;
  check negb (Destination =? 0) or EFI_INVALID_PARAMETER then
  check negb (Source =? 0) or EFI_INVALID_PARAMETER then
  check within DestMax (rsize_max k) or EFI_INVALID_PARAMETER then
  check within Length (rsize_max k) or EFI_INVALID_PARAMETER then
  check negb (DestMax =? 0) or EFI_INVALID_PARAMETER then
  let! SourceLen := string_length k Source (Z.min DestMax Length) in
  check (Length <? DestMax) || (SourceLen <? DestMax) or EFI_BUFFER_TOO_SMALL then
  let SourceLen := if Length <? SourceLen then Length else SourceLen in
  check no_overlap k Destination DestMax Source (wrapU W (SourceLen + 1)) or EFI_ACCESS_DENIED then
  move_some (Z.to_nat SourceLen) k k Destination Source ;;;
  Mret EFI_SUCCESS.
Definition StrnCpyS : Z -> Z -> Z -> Z -> M mem EFI_STATUS := copy_part 2.
Definition AsciiStrnCpyS : Z -> Z -> Z -> Z -> M mem EFI_STATUS := copy_part 1.

Definition append_string (k : nat) (Destination DestMax Source : Z) : M mem EFI_STATUS :=
  assert_aligned k Destination ;;;
  assert_aligned k Source ;;;
  let! DestLen := string_length k Destination DestMax in
  let CopyLen := wrapU W (DestMax - DestLen) in
  check negb (Destination =? 0) or EFI_INVALID_PARAMETER then
  check negb (Source =? 0) or EFI_INVALID_PARAMETER then
  check within DestMax (rsize_max k) or EFI_INVALID_PARAMETER then
  check negb (DestMax =? 0) or EFI_INVALID_PARAMETER then
  check negb (CopyLen =? 0) or EFI_BAD_BUFFER_SIZE then
  let! SourceLen := string_length k Source CopyLen in
  check SourceLen <? CopyLen or EFI_BUFFER_TOO_SMALL then
  check no_overlap k Destination DestMax Source (wrapU W (SourceLen + 1)) or EFI_ACCESS_DENIED then
  move_all (Z.to_nat DestMax) k k any_char (Destination + Z.of_nat k * DestLen) Source ;;;
  Mret EFI_SUCCESS.
Definition StrCatS : Z -> Z -> Z -> M mem EFI_STATUS := append_string 2.
Definition AsciiStrCatS : Z -> Z -> Z -> M mem EFI_STATUS := append_string 1.

Definition append_part (k : nat) (Destination DestMax Source Length : Z) : M mem EFI_STATUS :=
  assert_aligned k Destination ;;;
  assert_aligned k Source ;;;
  let! DestLen := string_length k Destination DestMax in
  let CopyLen := wrapU W (DestMax - DestLen) in
  check negb (Destination =? 0) or EFI_INVALID_PARAMETER then
  check negb (Source =? 0) or EFI_INVALID_PARAMETER then
  check within DestMax (rsize_max k) or EFI_INVALID_PARAMETER then
  check within Length (rsize_max k) or EFI_INVALID_PARAMETER then
  check negb (DestMax =? 0) or EFI_INVALID_PARAMETER then
  check negb (CopyLen =? 0) or EFI_BAD_BUFFER_SIZE then
  let! SourceLen := string_length k Source (Z.min CopyLen Length) in
  check (Length <? CopyLen) || (SourceLen <? CopyLen) or EFI_BUFFER_TOO_SMALL then
  let SourceLen := if Length <? SourceLen then Length else SourceLen in
  check no_overlap k Destination DestMax Source (wrapU W (SourceLen + 1)) or EFI_ACCESS_DENIED then
  move_some (Z.to_nat SourceLen) k k (Destination + Z.of_nat k * DestLen) Source ;;;
  Mret EFI_SUCCESS.
Definition StrnCatS : Z -> Z -> Z -> Z -> M mem EFI_STATUS := append_part 2.
Definition AsciiStrnCatS : Z -> Z -> Z -> Z -> M mem EFI_STATUS := append_part 1.

(** ** Between the two kinds of strings *)

Definition below_256 (c : Z) : bool := c <? 0x100.

Definition UnicodeStrToAsciiStrS (Source Destination DestMax : Z) : M mem EFI_STATUS :=
  assert_aligned 2 Source ;;;
  check negb (Destination =? 0) or EFI_INVALID_PARAMETER then
  check negb (Source =? 0) or EFI_INVALID_PARAMETER then
  check within DestMax ASCII_RSIZE_MAX or EFI_INVALID_PARAMETER then
  check within DestMax RSIZE_MAX or EFI_INVALID_PARAMETER then
  check negb (DestMax =? 0) or EFI_INVALID_PARAMETER then
  let! SourceLen := StrnLenS Source DestMax in
  check SourceLen <? DestMax or EFI_BUFFER_TOO_SMALL then
  check negb (InternalSafeStringIsOverlap Destination DestMax Source (wrapU W (wrapU W (SourceLen + 1) * 2))) or EFI_ACCESS_DENIED then
  move_all (Z.to_nat DestMax) 1 2 below_256 Destination Source ;;;
  Mret EFI_SUCCESS.

Definition AsciiStrToUnicodeStrS (Source Destination DestMax : Z) : M mem EFI_STATUS :=
  assert_aligned 2 Destination ;;;
  check negb (Destination =? 0) or EFI_INVALID_PARAMETER then
  check negb (Source =? 0) or EFI_INVALID_PARAMETER then
  check within DestMax RSIZE_MAX or EFI_INVALID_PARAMETER then
  check within DestMax ASCII_RSIZE_MAX or EFI_INVALID_PARAMETER then
  check negb (DestMax =? 0) or EFI_INVALID_PARAMETER then
  let! SourceLen := AsciiStrnLenS Source DestMax in
  check SourceLen <? DestMax or EFI_BUFFER_TOO_SMALL then
  check negb (InternalSafeStringIsOverlap Destination (wrapU W (DestMax * 2)) Source (wrapU W (SourceLen + 1))) or EFI_ACCESS_DENIED then
  move_all (Z.to_nat DestMax) 2 1 any_char Destination Source ;;;
  Mret EFI_SUCCESS.

(** The loop of the functions with a Length: the character is read before
    SourceLen is looked at.  The result is DestinationLength. *)
Fixpoint convert_some (SourceLen kd ks : nat) (ok : Z -> bool) (Destination Source DestinationLength : Z) : M mem Z :=
  let! c := load ks Source in
  if c =? 0 then store kd Destination 0 ;;; Mret DestinationLength
  else
    match SourceLen with
    | O => store kd Destination 0 ;;; Mret DestinationLength
    | S SourceLen' =>
        MASSERT (ok c) ;;;
        store kd Destination c ;;;
        convert_some SourceLen' kd ks ok (Destination + Z.of_nat kd) (Source + Z.of_nat ks) (wrapU W (DestinationLength + 1))
    end.

(** [Given]: DestinationLength is not NULL.  The value that is stored there, if
    one is. *)
Definition UnicodeStrnToAsciiStrS (Source Length Destination DestMax : Z) (Given : bool) : M mem (EFI_STATUS * option Z) :=
  assert_aligned 2 Source ;;;
  check negb (Destination =? 0) or (EFI_INVALID_PARAMETER, None) then
  check negb (Source =? 0) or (EFI_INVALID_PARAMETER, None) then
  check Given or (EFI_INVALID_PARAMETER, None) then
  check within Length ASCII_RSIZE_MAX or (EFI_INVALID_PARAMETER, None) then
  check within DestMax ASCII_RSIZE_MAX or (EFI_INVALID_PARAMETER, None) then
  check within Length RSIZE_MAX or (EFI_INVALID_PARAMETER, None) then
  check within DestMax RSIZE_MAX or (EFI_INVALID_PARAMETER, None) then
  check negb (DestMax =? 0) or (EFI_INVALID_PARAMETER, None) then
  let! SourceLen := StrnLenS Source DestMax in
  check (Length <? DestMax) || (SourceLen <? DestMax) or (EFI_BUFFER_TOO_SMALL, None) then
  let SourceLen := if Length <? SourceLen then Length else SourceLen in
  check negb (InternalSafeStringIsOverlap Destination DestMax Source (wrapU W (wrapU W (SourceLen + 1) * 2))) or (EFI_ACCESS_DENIED, None) then
  let! n := convert_some (Z.to_nat SourceLen) 1 2 below_256 Destination Source 0 in
  Mret (EFI_SUCCESS, Some n).

Definition AsciiStrnToUnicodeStrS (Source Length Destination DestMax : Z) (Given : bool) : M mem (EFI_STATUS * option Z) :=
  assert_aligned 2 Destination ;;;
  check negb (Destination =? 0) or (EFI_INVALID_PARAMETER, None) then
  check negb (Source =? 0) or (EFI_INVALID_PARAMETER, None) then
  check Given or (EFI_INVALID_PARAMETER, None) then
  check within Length RSIZE_MAX or (EFI_INVALID_PARAMETER, None) then
  check within DestMax RSIZE_MAX or (EFI_INVALID_PARAMETER, None) then
  check within Length ASCII_RSIZE_MAX or (EFI_INVALID_PARAMETER, None) then
  check within DestMax ASCII_RSIZE_MAX or (EFI_INVALID_PARAMETER, None) then
  check negb (DestMax =? 0) or (EFI_INVALID_PARAMETER, None) then
  let! SourceLen := AsciiStrnLenS Source DestMax in
  check (Length <? DestMax) || (SourceLen <? DestMax) or (EFI_BUFFER_TOO_SMALL, None) then
  let SourceLen := if Length <? SourceLen then Length else SourceLen in
  check negb (InternalSafeStringIsOverlap Destination (wrapU W (DestMax * 2)) Source (wrapU W (SourceLen + 1))) or (EFI_ACCESS_DENIED, None) then
  let! n := convert_some (Z.to_nat SourceLen) 2 1 any_char Destination Source 0 in
  Mret (EFI_SUCCESS, Some n).

(** ** Numbers *)

Definition InternalIsDecimalDigitCharacter (Char : Z) : bool := (48 <=? Char) && (Char <=? 57).
Definition InternalAsciiIsDecimalDigitCharacter (Char : Z) : bool := (48 <=? Char) && (Char <=? 57).
Definition CharToUpper (Char : Z) : Z :=
  if (97 <=? Char) && (Char <=? 122) then wrapU 16 (Char - (97 - 65)) else Char.
Definition AsciiCharToUpper (Chr : Z) : Z :=
  wrapU 8 (if (97 <=? Chr) && (Chr <=? 122) then Chr - (97 - 65) else Chr).
Definition InternalIsHexaDecimalDigitCharacter (Char : Z) : bool :=
  InternalIsDecimalDigitCharacter Char || ((65 <=? Char) && (Char <=? 70)) || ((97 <=? Char) && (Char <=? 102)).
Definition InternalAsciiIsHexaDecimalDigitCharacter (Char : Z) : bool :=
  InternalAsciiIsDecimalDigitCharacter Char || ((65 <=? Char) && (Char <=? 70)) || ((97 <=? Char) && (Char <=? 102)).
Definition InternalHexCharToUintn (Char : Z) : Z :=
  if InternalIsDecimalDigitCharacter Char then Char - 48 else wrapU W (10 + CharToUpper Char - 65).
Definition InternalAsciiHexCharToUintn (Char : Z) : Z :=
  if InternalIsDecimalDigitCharacter Char then Char - 48 else wrapU W (10 + AsciiCharToUpper Char - 65).

(** Both kinds of numbers are read by the same loop, with the test for a
    digit, its value, the bound on the number before the digit, and the
    multiplication: [w] is the width of the number. *)
Record RADIX := mkRadix {
  is_digit : Z -> bool;
  digit_value : Z -> Z;
  room_for : Z -> outcome Z;
  times_base : Z -> outcome Z
}.
Definition is_decimal (k : nat) : Z -> bool :=
  if (k =? 2)%nat then InternalIsDecimalDigitCharacter else InternalAsciiIsDecimalDigitCharacter.
Definition is_hex (k : nat) : Z -> bool :=
  if (k =? 2)%nat then InternalIsHexaDecimalDigitCharacter else InternalAsciiIsHexaDecimalDigitCharacter.
Definition hex_value (k : nat) : Z -> Z := if (k =? 2)%nat then InternalHexCharToUintn else InternalAsciiHexCharToUintn.
Definition to_upper (k : nat) : Z -> Z := if (k =? 2)%nat then CharToUpper else AsciiCharToUpper.

Definition decimal_uintn (k : nat) : RADIX :=
  mkRadix (is_decimal k) (fun c => c - 48) (fun d => Ok ((MAX_UINTN W - d) / 10)) (fun n => Ok (wrapU W (n * 10))).
Definition decimal_uint64 (k : nat) : RADIX :=
  mkRadix (is_decimal k) (fun c => c - 48) (fun d => DivU64x32 (2 ^ 64 - 1 - d) 10) (fun n => Ok (MultU64x32 n 10)).
Definition hex_uintn (k : nat) : RADIX :=
  mkRadix (is_hex k) (hex_value k) (fun d => Ok (Z.shiftr (MAX_UINTN W - d) 4)) (fun n => Ok (wrapU W (Z.shiftl n 4))).
Definition hex_uint64 (k : nat) : RADIX :=
  mkRadix (is_hex k) (hex_value k) (fun d => RShiftU64 (2 ^ 64 - 1 - d) 4) (fun n => LShiftU64 n 4).

Definition of_outcome {A} (r : outcome A) : M mem A := fun m => do a <- r ; Ok (a, m).

(** While the character is one of [p] the pointer is moved on. *)
Fixpoint skip (fuel k : nat) (p : Z -> bool) (String : Z) : M mem Z :=
  let! c := load k String in
  if p c then
    match fuel with
    | O => Mfail OutOfFuel
    | S fuel' => skip fuel' k p (String + Z.of_nat k)
    end
  else Mret String.

(** The status, the number and where the scan stopped. *)
Fixpoint number_loop (fuel k : nat) (w : Z) (r : RADIX) (Data String : Z) : M mem (EFI_STATUS * (Z * Z)) :=
  let! c := load k String in
  if is_digit r c then
    match fuel with
    | O => Mfail OutOfFuel
    | S fuel' =>
        let! room := of_outcome (room_for r (digit_value r c)) in
        if room <? Data then Mret (EFI_UNSUPPORTED, (2 ^ w - 1, String))
        else
          let! d := of_outcome (times_base r Data) in
          number_loop fuel' k w r (wrapU w (d + digit_value r c)) (String + Z.of_nat k)
    end
  else Mret (EFI_SUCCESS, (Data, String)).

(** [Data] is not NULL.  The result is the status with what is stored at Data
    and, unless it is NULL, at EndPointer; [None] when nothing is. *)
Definition number_checks (k : nat) (String : Z) (Data : bool) (c : M mem (EFI_STATUS * option (Z * Z))) : M mem (EFI_STATUS * option (Z * Z)) :=
  assert_aligned k String ;;;
  check negb (String =? 0) or (EFI_INVALID_PARAMETER, None) then
  check Data or (EFI_INVALID_PARAMETER, None) then
  if rsize_max k =? 0 then c
  else
    let! n := string_length k String (wrapU 32 (rsize_max k + 1)) in
    check n <=? rsize_max k or (EFI_INVALID_PARAMETER, None) then c.

Definition is_pad (c : Z) : bool := (c =? 32) || (c =? 9).
Definition is_zero (c : Z) : bool := c =? 48.

Definition decimal_number (k : nat) (w : Z) (r : RADIX) (String : Z) (Data : bool) : M mem (EFI_STATUS * option (Z * Z)) :=
  number_checks k String Data
   (let! m := Mget in
    let! String := skip (turns m) k is_pad String in
    let! String := skip (turns m) k is_zero String in
    let! q := number_loop (turns m) k w r 0 String in
    Mret (q.1, Some q.2)).
Definition StrDecimalToUintnS := decimal_number 2 W (decimal_uintn 2).
Definition StrDecimalToUint64S := decimal_number 2 64 (decimal_uint64 2).
Definition AsciiStrDecimalToUintnS := decimal_number 1 W (decimal_uintn 1).
Definition AsciiStrDecimalToUint64S := decimal_number 1 64 (decimal_uint64 1).

Definition hex_number (k : nat) (w : Z) (r : RADIX) (Start : Z) (Data : bool) : M mem (EFI_STATUS * option (Z * Z)) :=
  number_checks k Start Data
   (let! m := Mget in
    let! String := skip (turns m) k is_pad Start in
    let! String := skip (turns m) k is_zero String in
    let! c := load k String in
    if to_upper k c =? 88 then
      let! before := load k (String - Z.of_nat k) in
      if negb (before =? 48) then Mret (EFI_SUCCESS, Some (0, Start))
      else
        let! q := number_loop (turns m) k w r 0 (String + Z.of_nat k) in
        Mret (q.1, Some q.2)
    else
      let! q := number_loop (turns m) k w r 0 String in
      Mret (q.1, Some q.2)).
Definition StrHexToUintnS := hex_number 2 W (hex_uintn 2).
Definition StrHexToUint64S := hex_number 2 64 (hex_uint64 2).
Definition AsciiStrHexToUintnS := hex_number 1 W (hex_uintn 1).
Definition AsciiStrHexToUint64S := hex_number 1 64 (hex_uint64 1).

(** ** Bytes in hexadecimal *)

(** Whether the characters are all digits. *)
Fixpoint all_hex (k n : nat) (String : Z) : M mem bool :=
  match n with
  | O => Mret true
  | S n' =>
      let! c := load k String in
      if is_hex k c then all_hex k n' (String + Z.of_nat k) else Mret false
  end.

(** Two characters for each of the [n] bytes: the upper half is stored, then
    the lower half is added. *)
Fixpoint hex_bytes (k n : nat) (String Buffer : Z) : M mem unit :=
  match n with
  | O => Mret tt
  | S n' =>
      let! c := load k String in
      store 1 Buffer (wrapU 8 (Z.shiftl (wrapU 8 (hex_value k c)) 4)) ;;;
      let! c := load k (String + Z.of_nat k) in
      let! b := load 1 Buffer in
      store 1 Buffer (Z.lor b (wrapU 8 (hex_value k c))) ;;;
      hex_bytes k n' (String + 2 * Z.of_nat k) (Buffer + 1)
  end.

Definition hex_to_bytes (k : nat) (String Length Buffer MaxBufferSize : Z) : M mem EFI_STATUS :=
  assert_aligned k String ;;;
  check negb (String =? 0) or EFI_INVALID_PARAMETER then
  check negb (Buffer =? 0) or EFI_INVALID_PARAMETER then
  check within Length (rsize_max k) or EFI_INVALID_PARAMETER then
  check Z.land Length 1 =? 0 or EFI_INVALID_PARAMETER then
  check Length / 2 <=? MaxBufferSize or EFI_BUFFER_TOO_SMALL then
  let! ok := all_hex k (Z.to_nat Length) String in
  check ok or EFI_UNSUPPORTED then
  hex_bytes k (Z.to_nat (Length / 2)) String Buffer ;;;
  Mret EFI_SUCCESS.
Definition StrHexToBytes := hex_to_bytes 2.
Definition AsciiStrHexToBytes := hex_to_bytes 1.
End SafeString.
