(* ===== verification/SafeStringTheorems.v ===== *)
(** * SafeStringTheorems: what the safe string functions do

    A string is a list of characters that are not 0; in memory it is followed
    by a 0.  Each function either returns an error and leaves memory as it is,
    or stores exactly the string that it promises. *)

From stdpp Require Import base option list gmap fin_maps.
From Stdlib Require Import ZArith Lia.
From S2P Require Import Prelude BaseMath Memory MemSpec MemCopy DevPath DevPathSpec SafeString.

Local Open Scope Z_scope.
Local Open Scope edk_scope.

(** ** Strings in memory *)

Definition chars (k : nat) (cs : list Z) : list Z := mjoin (le_split k <$> cs).
Definition char_ok (k : nat) (c : Z) : Prop := 0 < c < 256 ^ Z.of_nat k.
Definition string_ok (k : nat) (cs : list Z) : Prop := Forall (char_ok k) cs.
Definition string_at (m : mem) (k : nat) (a : Z) (cs : list Z) : Prop := string_ok k cs /\ at_bytes m a (chars k (cs ++ [0])).

Lemma chars_cons k c cs : chars k (c :: cs) = le_split k c ++ chars k cs.
Proof. done. Qed.
Lemma chars_one k c : chars k [c] = le_split k c.
Proof. unfold chars. cbn. by rewrite app_nil_r. Qed.
Lemma chars_end k : chars k ([] ++ [0]) = le_split k 0.
Proof. apply chars_one. Qed.
Lemma chars_app k cs cs' : chars k (cs ++ cs') = chars k cs ++ chars k cs'.
Proof. unfold chars. by rewrite fmap_app, join_app. Qed.
Lemma chars_length k cs : len (chars k cs) = Z.of_nat k * len cs.
Proof.
  induction cs as [|c cs IH]; [cbn; lia|]. rewrite chars_cons, length_app, Nat2Z.inj_add, IH, le_split_length. cbn [length]. lia.
Qed.

Lemma load_char m k a c bs : 0 <= c < 256 ^ Z.of_nat k -> at_bytes m a (le_split k c ++ bs) -> load k a m = Ok (c, m).
Proof.
  intros Hc [H _]%at_bytes_app. rewrite (load_at k a m _ H) by apply le_split_length. by rewrite le_combine_split.
Qed.
Lemma string_cons m k a c cs : string_at m k a (c :: cs) ->
  char_ok k c /\ load k a m = Ok (c, m) /\ string_at m k (a + Z.of_nat k) cs.
Proof.
  intros [H1 H2]. apply Forall_cons in H1 as [Hc H1]. cbn [app] in H2. rewrite chars_cons in H2. split; [done|].
  split; [eapply load_char; [unfold char_ok in Hc; lia|exact H2]|]. split; [done|].
  apply at_bytes_app in H2 as [_ H2]. by rewrite le_split_length in H2.
Qed.
Lemma string_nil m k a : string_at m k a [] -> load k a m = Ok (0, m).
Proof. intros [_ H]. cbn [app] in H. rewrite chars_cons in H. eapply load_char; [|exact H]. lia. Qed.

(** The character at an index, the end included. *)
Lemma string_char m k a cs j : string_at m k a cs -> (j <= length cs)%nat ->
  exists c, char_at k a (Z.of_nat j) m = Ok (c, m) /\ (c = 0 <-> j = length cs).
Proof.
  intros H Hj. unfold char_at. revert a cs H Hj. induction j as [|j IH]; intros a cs H Hj.
  - rewrite Z.mul_0_r, Z.add_0_r. destruct cs as [|c cs].
    + exists 0. by rewrite (string_nil m k a H).
    + apply string_cons in H as (Hc & E & _). exists c. rewrite E. split; [done|]. unfold char_ok in Hc. cbn. lia.
  - destruct cs as [|c cs]; [cbn in Hj; lia|]. apply string_cons in H as (_ & _ & H). cbn in Hj.
    destruct (IH _ _ H ltac:(lia)) as (c' & E & Hc'). exists c'. cbn [length].
    replace (a + Z.of_nat k * Z.of_nat (S j)) with (a + Z.of_nat k + Z.of_nat k * Z.of_nat j) by lia. rewrite E. split; [done|]. lia.
Qed.

Lemma length_loop_ok fuel : forall m k a cs MaxSize (j : nat), string_at m k a cs -> (j <= length cs)%nat -> Z.of_nat j < MaxSize ->
  MaxSize - Z.of_nat j <= Z.of_nat fuel -> length_loop fuel k a MaxSize (Z.of_nat j) m = Ok (Z.min (len cs) MaxSize, m).
Proof.
  induction fuel as [|fuel IH]; intros m k a cs MaxSize j H Hj Hm Hf; [lia|]. cbn [length_loop].
  destruct (string_char m k a cs j H Hj) as (c & E & Hc). rewrite (Mbind_Ok _ _ _ _ _ E). destruct (Z.eqb_spec c 0) as [->|Hz].
  { rewrite (proj1 Hc eq_refl) in Hm |- *. unfold Mret. by rewrite Z.min_l by lia. }
  assert (j <> length cs) by tauto. destruct (Z.leb_spec (MaxSize - 1) (Z.of_nat j)).
  { unfold Mret. do 2 f_equal. lia. }
  replace (Z.of_nat j + 1) with (Z.of_nat (S j)) by lia. apply IH; [done|lia..].
Qed.

(** Pointers to CHAR16 are even. *)
Definition even_for (k : nat) (a : Z) : Prop := k = 2%nat -> Z.land a 1 = 0.
Lemma assert_aligned_ok {B} k a (c : M mem B) m : even_for k a -> (assert_aligned k a ;;; c) m = c m.
Proof.
  intros H. unfold assert_aligned. destruct (Nat.eqb_spec k 2) as [->|]; [|done]. unfold even_for in H. by rewrite H.
Qed.

Lemma string_length_ok m k a cs MaxSize : even_for k a -> 0 <= MaxSize -> (a <> 0 -> string_at m k a cs) ->
  string_length k a MaxSize m = Ok (if a =? 0 then 0 else Z.min (len cs) MaxSize, m).
Proof.
  intros He Hm H. unfold string_length. rewrite assert_aligned_ok by done. destruct (Z.eqb_spec a 0); [done|].
  destruct (Z.eqb_spec MaxSize 0) as [->|]; [cbn; unfold Mret; do 2 f_equal; lia|]. cbn [orb].
  apply (length_loop_ok _ m k a cs MaxSize 0); [auto|lia..].
Qed.

(** ** Moving characters *)

(** Room for [N] bytes at [D], apart from the string at [S]. *)
Definition apart_from (m : mem) (D N S n : Z) : Prop := mapped m D N /\ (S + n <= D \/ D + N <= S).

Lemma store_char {B} m k D c (q : M mem B) N : mapped m D N -> Z.of_nat k <= N -> (store k D c ;;; q) m = q (blit D (le_split k c) m).
Proof. intros Hm HN. rewrite (Mbind_Ok _ _ _ _ _ (store_blit k D c m ltac:(apply (mapped_sub _ _ _ _ _ Hm); lia))). done. Qed.
Lemma string_at_blit m k a cs D bs : string_at m k a cs ->
  a + Z.of_nat k * (len cs + 1) <= D \/ D + len bs <= a -> string_at (blit D bs m) k a cs.
Proof.
  intros [H1 H2] Hd. split; [done|]. apply at_bytes_blit_other; [done|]. rewrite chars_length, length_app. cbn [length]. lia.
Qed.
Lemma blit_chars D k c cs m : blit (D + Z.of_nat k) (chars k cs) (blit D (le_split k c) m) = blit D (chars k (c :: cs)) m.
Proof. rewrite chars_cons, blit_app, le_split_length. done. Qed.

(** After one character. *)
Lemma apart_next m kd ks D S c cs n : string_at m ks (S + Z.of_nat ks) cs ->
  apart_from m D (Z.of_nat kd * (n + 2)) S (Z.of_nat ks * (len cs + 2)) -> 0 <= n ->
  string_at (blit D (le_split kd c) m) ks (S + Z.of_nat ks) cs /\
  apart_from (blit D (le_split kd c) m) (D + Z.of_nat kd) (Z.of_nat kd * (n + 1)) (S + Z.of_nat ks) (Z.of_nat ks * (len cs + 1)).
Proof.
  intros Hs [Hm Hd] Hn. split; [|split].
  - apply string_at_blit; [done|]. rewrite le_split_length. nia.
  - apply mapped_blit, (mapped_sub _ _ _ _ _ Hm); lia.
  - nia.
Qed.

Lemma move_all_ok kd ks ok cs : forall fuel m D S, (length cs <= fuel)%nat -> Forall (fun c => ok c = true) cs -> string_at m ks S cs ->
  apart_from m D (Z.of_nat kd * (len cs + 1)) S (Z.of_nat ks * (len cs + 1)) ->
  move_all fuel kd ks ok D S m = Ok (tt, blit D (chars kd (cs ++ [0])) m).
Proof.
  induction cs as [|c cs IH]; intros fuel m D S Hf Ho Hs A.
  { destruct fuel; cbn [move_all]; rewrite (Mbind_Ok _ _ _ _ _ (string_nil m ks S Hs)); cbn [Z.eqb];
      (rewrite store_blit by (eapply mapped_sub; [apply A|cbn; lia..])); by rewrite chars_end. }
  destruct fuel as [|fuel]; [cbn in Hf; lia|]. cbn [length] in *. apply string_cons in Hs as (Hc & E & Hs). apply Forall_cons in Ho as [Hoc Ho].
  cbn [move_all]. rewrite (Mbind_Ok _ _ _ _ _ E). rewrite (proj2 (Z.eqb_neq c 0)) by (unfold char_ok in Hc; lia).
  rewrite MASSERT_true by done. rewrite (store_char m kd D c _ _ (proj1 A)) by nia.
  destruct (apart_next m kd ks D S c cs (len cs) Hs) as [Hs' A']; [by replace (len cs + 2) with (Z.of_nat (Datatypes.S (length cs)) + 1) by lia|lia|].
  rewrite IH by (done || lia). by rewrite blit_chars.
Qed.
(** What the functions with a length read: the characters, and the end if it
    comes before the length. *)
Definition part (n : nat) (cs : list Z) : list Z := if (length cs <? n)%nat then cs ++ [0] else cs.
Lemma part_cons n c cs : part (S n) (c :: cs) = c :: part n cs.
Proof. unfold part. cbn [length]. change (S (length cs) <? S n)%nat with (length cs <? n)%nat. by destruct (length cs <? n)%nat. Qed.
Lemma part_of m k S cs n : string_at m k S cs -> string_ok k (take n cs) /\ at_bytes m S (chars k (part n (take n cs))).
Proof.
  intros [H1 H2]. split; [by apply Forall_take|]. unfold part. rewrite length_take.
  assert (exists l, cs ++ [0] = (if (n `min` length cs <? n)%nat then take n cs ++ [0] else take n cs) ++ l) as [l E].
  { destruct (Nat.ltb_spec (n `min` length cs) n); [exists []; by rewrite firstn_all2, app_nil_r by lia|].
    exists (drop n cs ++ [0]). by rewrite app_assoc, take_drop. }
  rewrite E, chars_app in H2. by apply at_bytes_app in H2 as [H2 _].
Qed.

Lemma move_some_ok kd ks n : forall cs m D S, (length cs <= n)%nat -> string_ok ks cs -> at_bytes m S (chars ks (part n cs)) ->
  apart_from m D (Z.of_nat kd * (len cs + 1)) S (Z.of_nat ks * (len cs + 1)) ->
  move_some n kd ks D S m = Ok (tt, blit D (chars kd (cs ++ [0])) m).
Proof.
  induction n as [|n IH]; intros cs m D S Hl Ho Hs A.
  { destruct cs; [|cbn in Hl; lia]. cbn [move_some]. rewrite store_blit by (eapply mapped_sub; [apply A|cbn; lia..]). by rewrite chars_end. }
  cbn [move_some]. destruct cs as [|c cs].
  { change (part (Datatypes.S n) []) with [0] in Hs. rewrite chars_one in Hs.
    rewrite (Mbind_Ok _ _ m 0 m) by (eapply load_char; [|by rewrite app_nil_r]; lia). cbn [Z.eqb].
    rewrite store_blit by (eapply mapped_sub; [apply A|cbn; lia..]). by rewrite chars_end. }
  rewrite part_cons, chars_cons in Hs. apply Forall_cons in Ho as [Hc Ho]. cbn [length] in *. unfold char_ok in Hc.
  rewrite (Mbind_Ok _ _ m c m) by (eapply load_char; [|exact Hs]; lia). rewrite (proj2 (Z.eqb_neq c 0)) by lia.
  rewrite (store_char m kd D c _ _ (proj1 A)) by nia. apply at_bytes_app in Hs as [_ Hs]. rewrite le_split_length in Hs. destruct A as [Hm Hd].
  rewrite (IH cs); [by rewrite blit_chars|lia|done| |].
  - apply at_bytes_blit_other; [done|]. rewrite chars_length, le_split_length. unfold part. case_match; rewrite ?length_app; cbn [length]; nia.
  - split; [apply mapped_blit, (mapped_sub _ _ _ _ _ Hm); lia|nia].
Qed.

(** ** Copying and appending *)

Section Copy.
Context (W : Z) `{Pcds : STRING_PCDS} (k : nat).

(** The bytes of two buffers intersect. *)
Definition intersect (a n b p : Z) : bool := (a <? b + p) && (b <? a + n).

Lemma no_overlap_ok (k' : nat) D N S n : 0 <= D -> 0 <= S -> 0 < N -> 0 < n -> D + Z.of_nat k' * N < 2 ^ W -> S + Z.of_nat k' * n < 2 ^ W ->
  (0 < k')%nat -> no_overlap W k' D N S n = negb (intersect D (Z.of_nat k' * N) S (Z.of_nat k' * n)).
Proof.
  intros HD HS HN Hn HDN HSn Hk. unfold no_overlap, InternalSafeStringIsOverlap, intersect. f_equal.
  rewrite !(wrapU_id W (_ * Z.of_nat k')) by (unfold inU; nia). rewrite !wrapU_id by (unfold inU; nia).
  apply eq_true_iff_eq. rewrite orb_true_iff, !andb_true_iff, !Z.leb_le, !Z.ltb_lt. nia.
Qed.

(** What the four functions promise: [ds] is the string that is in the
    destination, for the functions that append to it, and [Length] the most
    characters to copy.  The status, and the string that is stored. *)
Definition over (n : Z) : bool := negb (rsize_max k =? 0) && (rsize_max k <? n).
Definition copied (D DestMax S : Z) (ds cs : list Z) (Length : option Z) : EFI_STATUS * option (list Z) :=
  let moved := match Length with Some n => take (Z.to_nat n) cs | None => cs end in
  if (D =? 0) || (S =? 0) || over DestMax || match Length with Some n => over n | None => false end || (DestMax =? 0)
  then (EFI_INVALID_PARAMETER, None)
  else if DestMax <=? len ds then (EFI_BAD_BUFFER_SIZE, None)
  else if DestMax <=? len ds + len moved then (EFI_BUFFER_TOO_SMALL, None)
  else if intersect D (Z.of_nat k * DestMax) S (Z.of_nat k * (len moved + 1)) then (EFI_ACCESS_DENIED, None)
  else (EFI_SUCCESS, Some (ds ++ moved)).
Definition outcome_of (D : Z) (m : mem) (r : EFI_STATUS * option (list Z)) : outcome (EFI_STATUS * mem) :=
  Ok (r.1, match r.2 with Some cs => blit D (chars k (cs ++ [0])) m | None => m end).

Lemma within_over n : within n (rsize_max k) = negb (over n).
Proof. unfold within, over. rewrite Z.leb_antisym. by destruct (rsize_max k =? 0), (rsize_max k <? n). Qed.

Context (m : mem) (D DestMax S : Z) (cs : list Z).
Hypothesis Hk : (0 < k)%nat.
Hypothesis HD : 0 <= D.
Hypothesis HS : 0 <= S.
Hypothesis HM : 0 <= DestMax.
Hypothesis HDM : D + Z.of_nat k * DestMax < 2 ^ W.
Hypothesis HSc : S + Z.of_nat k * (len cs + 1) < 2 ^ W.
Hypothesis ED : even_for k D.
Hypothesis ES : even_for k S.
Hypothesis Room : D <> 0 -> mapped m D (Z.of_nat k * DestMax).
Hypothesis Src : S <> 0 -> string_at m k S cs.

(** The length of the source, as far as it matters. *)
Lemma source_length n : 0 <= n -> S <> 0 -> string_length k S n m = Ok (Z.min (len cs) n, m).
Proof. intros Hn Hne. rewrite (string_length_ok m k S cs n ES Hn Src). by rewrite (proj2 (Z.eqb_neq S 0)). Qed.

(** The characters that are moved go behind what is in the destination. *)
Lemma room_after (ds : Z) (n : Z) : D <> 0 -> 0 <= ds -> 0 <= n -> ds + n < DestMax ->
  intersect D (Z.of_nat k * DestMax) S (Z.of_nat k * (n + 1)) = false ->
  apart_from m (D + Z.of_nat k * ds) (Z.of_nat k * (n + 1)) S (Z.of_nat k * (n + 1)).
Proof.
  intros Hne Hds Hn Hl Hi. split; [apply (mapped_sub m D (Z.of_nat k * DestMax)); [auto|nia..]|]. unfold intersect in Hi.
  apply andb_false_iff in Hi. rewrite !Z.ltb_ge in Hi. nia.
Qed.
Lemma blit_after ds l : string_at m k D ds -> blit (D + Z.of_nat k * len ds) (chars k l) m = blit D (chars k (ds ++ l)) m.
Proof.
  intros [_ H]. rewrite chars_app in H. apply at_bytes_app in H as [H _].
  rewrite chars_app, blit_app, chars_length. by rewrite (blit_same m D (chars k ds)).
Qed.

(** From the check of the lengths on: [all] characters or [part] of them. *)
Lemma move_all_after ds : D <> 0 -> S <> 0 -> string_at m k D ds \/ ds = [] -> len ds + len cs < DestMax ->
  intersect D (Z.of_nat k * DestMax) S (Z.of_nat k * (len cs + 1)) = false ->
  move_all (Z.to_nat DestMax) k k any_char (D + Z.of_nat k * len ds) S m = Ok (tt, blit D (chars k ((ds ++ cs) ++ [0])) m).
Proof.
  intros ND NS Hds Hl Hi. rewrite (move_all_ok k k any_char cs); [|lia|by apply Forall_true|auto|apply room_after; done || lia].
  rewrite <- app_assoc. destruct Hds as [Hds| ->]; [by rewrite blit_after|]. by rewrite Z.mul_0_r, Z.add_0_r.
Qed.
Lemma move_some_after ds n : D <> 0 -> S <> 0 -> string_at m k D ds \/ ds = [] -> len ds + len (take n cs) < DestMax ->
  intersect D (Z.of_nat k * DestMax) S (Z.of_nat k * (len (take n cs) + 1)) = false ->
  move_some (length (take n cs)) k k (D + Z.of_nat k * len ds) S m = Ok (tt, blit D (chars k ((ds ++ take n cs) ++ [0])) m).
Proof.
  intros ND NS Hds Hl Hi. destruct (part_of m k S cs (length (take n cs)) (Src NS)) as [Po Pa].
  assert (take (length (take n cs)) cs = take n cs) as Et by (rewrite length_take; destruct (decide (n <= length cs)%nat);
    [by rewrite Nat.min_l by lia|rewrite Nat.min_r by lia; by rewrite !firstn_all2 by lia]). rewrite Et in Po, Pa.
  rewrite (move_some_ok k k _ (take n cs)); [|lia|done|done|apply room_after; done || lia].
  rewrite <- app_assoc. destruct Hds as [Hds| ->]; [by rewrite blit_after|]. by rewrite Z.mul_0_r, Z.add_0_r.
Qed.

Lemma copy_string_ok : copy_string W k D DestMax S m = outcome_of D m (copied D DestMax S [] cs None).
Proof.
  unfold copy_string, copied, outcome_of. rewrite !assert_aligned_ok by done. rewrite !within_over.
  destruct (Z.eqb_spec D 0), (Z.eqb_spec S 0); try done. destruct (over DestMax); [done|]. destruct (Z.eqb_spec DestMax 0); [done|]. cbn [orb negb].
  rewrite (Mbind_Ok _ _ _ _ _ (source_length DestMax HM ltac:(done))).
  change (len []) with 0. rewrite (proj2 (Z.leb_gt DestMax 0)), Z.add_0_l by lia.
  rewrite Z.leb_antisym. destruct (Z.ltb_spec (len cs) DestMax); [|by rewrite (proj2 (Z.ltb_ge _ _)) by lia].
  rewrite (proj2 (Z.ltb_lt (Z.min _ _) _)), Z.min_l by lia. cbn [negb].
  rewrite wrapU_id by (unfold inU; nia). rewrite no_overlap_ok by (done || lia). destruct (intersect _ _ _ _) eqn:Hi; [done|]. cbn [negb].
  pose proof (move_all_after []) as E. change (len []) with 0 in E. rewrite Z.mul_0_r, Z.add_0_r in E.
  rewrite (Mbind_Ok _ _ _ _ _ (E ltac:(done) ltac:(done) ltac:(auto) ltac:(lia) Hi)). done.
Qed.

Lemma min_take n : 0 <= n -> Z.min (len cs) n = len (take (Z.to_nat n) cs).
Proof using. clear. intros Hn. rewrite length_take. lia. Qed.

Lemma copy_part_ok Length : 0 <= Length -> copy_part W k D DestMax S Length m = outcome_of D m (copied D DestMax S [] cs (Some Length)).
Proof.
  intros HL. unfold copy_part, copied, outcome_of. rewrite !assert_aligned_ok by done. rewrite !within_over.
  destruct (Z.eqb_spec D 0), (Z.eqb_spec S 0); try done. destruct (over DestMax); [done|]. destruct (over Length); [done|].
  destruct (Z.eqb_spec DestMax 0); [done|]. cbn [orb negb].
  rewrite (Mbind_Ok _ _ _ _ _ (source_length (Z.min DestMax Length) ltac:(lia) ltac:(done))).
  change (len []) with 0. rewrite (proj2 (Z.leb_gt DestMax 0)), Z.add_0_l by lia.
  pose proof (min_take Length HL) as Et. rewrite <- Et.
  destruct (Z.leb_spec DestMax (Z.min (len cs) Length)).
  { rewrite (proj2 (Z.ltb_ge Length DestMax)), (proj2 (Z.ltb_ge (Z.min _ _) DestMax)) by lia. done. }
  replace ((Length <? DestMax) || (Z.min (len cs) (Z.min DestMax Length) <? DestMax)) with true
    by (symmetry; apply orb_true_iff; rewrite !Z.ltb_lt; lia).
  replace (if Length <? Z.min (len cs) (Z.min DestMax Length) then Length else Z.min (len cs) (Z.min DestMax Length))
    with (Z.min (len cs) Length) by (case_match; lia).
  rewrite wrapU_id by (unfold inU; nia). rewrite no_overlap_ok by (done || nia). destruct (intersect _ _ _ _) eqn:Hi; [done|]. cbn [negb].
  pose proof (move_some_after [] (Z.to_nat Length)) as E. change (len []) with 0 in E. rewrite Z.mul_0_r, Z.add_0_r in E.
  rewrite Et, Nat2Z.id. rewrite Et in Hi. rewrite (Mbind_Ok _ _ _ _ _ (E ltac:(done) ltac:(done) ltac:(auto) ltac:(lia) Hi)). done.
Qed.

Context (ds : list Z).
Hypothesis Dst : D <> 0 -> string_at m k D ds.

Lemma dest_length : string_length k D DestMax m = Ok (if D =? 0 then 0 else Z.min (len ds) DestMax, m).
Proof. by apply string_length_ok. Qed.

Lemma append_string_ok : append_string W k D DestMax S m = outcome_of D m (copied D DestMax S ds cs None).
Proof.
  unfold append_string, copied, outcome_of. rewrite !assert_aligned_ok by done. rewrite (Mbind_Ok _ _ _ _ _ dest_length). rewrite !within_over.
  destruct (Z.eqb_spec D 0), (Z.eqb_spec S 0); try done. destruct (over DestMax); [done|]. destruct (Z.eqb_spec DestMax 0); [done|]. cbn [orb negb].
  rewrite wrapU_id by (unfold inU; nia). destruct (Z.leb_spec DestMax (len ds)).
  { rewrite (proj2 (Z.eqb_eq _ 0)) by lia. done. }
  rewrite (proj2 (Z.eqb_neq _ 0)), Z.min_l by lia. cbn [negb].
  rewrite (Mbind_Ok _ _ _ _ _ (source_length (DestMax - len ds) ltac:(lia) ltac:(done))).
  rewrite Z.leb_antisym. destruct (Z.ltb_spec (len ds + len cs) DestMax); [|by rewrite (proj2 (Z.ltb_ge _ _)) by lia].
  rewrite (proj2 (Z.ltb_lt (Z.min _ _) _)), Z.min_l by lia. cbn [negb].
  rewrite wrapU_id by (unfold inU; nia). rewrite no_overlap_ok by (done || lia). destruct (intersect _ _ _ _) eqn:Hi; [done|]. cbn [negb].
  rewrite (Mbind_Ok _ _ _ _ _ (move_all_after ds ltac:(done) ltac:(done) ltac:(auto) ltac:(lia) Hi)). done.
Qed.
Lemma append_part_ok Length : 0 <= Length -> append_part W k D DestMax S Length m = outcome_of D m (copied D DestMax S ds cs (Some Length)).
Proof.
  intros HL. unfold append_part, copied, outcome_of. rewrite !assert_aligned_ok by done. rewrite (Mbind_Ok _ _ _ _ _ dest_length). rewrite !within_over.
  destruct (Z.eqb_spec D 0), (Z.eqb_spec S 0); try done. destruct (over DestMax); [done|]. destruct (over Length); [done|].
  destruct (Z.eqb_spec DestMax 0); [done|]. cbn [orb negb].
  rewrite wrapU_id by (unfold inU; nia). destruct (Z.leb_spec DestMax (len ds)).
  { rewrite (proj2 (Z.eqb_eq _ 0)) by lia. done. }
  rewrite (proj2 (Z.eqb_neq _ 0)), (Z.min_l (len ds)) by lia. cbn [negb].
  rewrite (Mbind_Ok _ _ _ _ _ (source_length (Z.min (DestMax - len ds) Length) ltac:(lia) ltac:(done))).
  pose proof (min_take Length HL) as Et. rewrite <- Et.
  destruct (Z.leb_spec DestMax (len ds + Z.min (len cs) Length)).
  { rewrite (proj2 (Z.ltb_ge Length _)), (proj2 (Z.ltb_ge (Z.min _ _) _)) by lia. done. }
  replace ((Length <? DestMax - len ds) || (Z.min (len cs) (Z.min (DestMax - len ds) Length) <? DestMax - len ds)) with true
    by (symmetry; apply orb_true_iff; rewrite !Z.ltb_lt; lia).
  replace (if Length <? Z.min (len cs) (Z.min (DestMax - len ds) Length) then Length else Z.min (len cs) (Z.min (DestMax - len ds) Length))
    with (Z.min (len cs) Length) by (case_match; lia).
  rewrite wrapU_id by (unfold inU; nia). rewrite no_overlap_ok by (done || nia). destruct (intersect _ _ _ _) eqn:Hi; [done|]. cbn [negb].
  rewrite Et, Nat2Z.id. rewrite Et in Hi.
  rewrite (Mbind_Ok _ _ _ _ _ (move_some_after ds (Z.to_nat Length) ltac:(done) ltac:(done) ltac:(auto) ltac:(lia) Hi)). done.
Qed.
End Copy.

(** ** Numbers *)

(** The characters of a string up to the first that is not one of [p]. *)
Fixpoint span (p : Z -> bool) (l : list Z) : list Z * list Z :=
  match l with
  | [] => ([], [])
  | c :: l' => if p c then let '(a, b) := span p l' in (c :: a, b) else ([], l)
  end.
Lemma span_app p l : l = (span p l).1 ++ (span p l).2.
Proof. induction l as [|c l IH]; [done|]. cbn. destruct (p c); [|done]. destruct (span p l) as [a b]. cbn in *. by rewrite <- IH. Qed.
Lemma span_all p l : Forall (fun c => p c = true) (span p l).1.
Proof. induction l as [|c l IH]; [by apply Forall_nil|]. cbn. destruct (p c) eqn:E; [|by apply Forall_nil]. destruct (span p l). by apply Forall_cons. Qed.
Lemma span_stops p l c l' : (span p l).2 = c :: l' -> p c = false.
Proof. induction l as [|d l IH]; [done|]. cbn. destruct (p d) eqn:E; [by destruct (span p l)|]. by intros [= -> ->]. Qed.

Definition value (b : Z) (n : Z) (vs : list Z) : Z := foldl (fun n v => b * n + v) n vs.

(** The number [vs] to the base [b] fits in [w] bits and is read to its end, or
    the scan stops at the first digit with which it does not fit. *)
Definition read_number (b w n : Z) (vs : list Z) (r : EFI_STATUS * (Z * nat)) : Prop :=
  (value b n vs < 2 ^ w /\ r = (EFI_SUCCESS, (value b n vs, length vs))) \/
  (2 ^ w <= value b n vs /\ exists i, r = (EFI_UNSUPPORTED, (2 ^ w - 1, i)) /\ (i < length vs)%nat /\
     value b n (take i vs) < 2 ^ w <= value b n (take (S i) vs)).

(** What the loop needs to know of the functions on digits. *)
Record radix_ok (r : RADIX) (b w : Z) : Prop := {
  rx_base : 1 < b <= 16;
  rx_width : 4 < w;
  rx_value c : is_digit r c = true -> 0 <= digit_value r c < b;
  rx_room d : 0 <= d < b -> room_for r d = Ok ((2 ^ w - 1 - d) / b);
  rx_times n : 0 <= n -> n * b < 2 ^ w -> times_base r n = Ok (n * b)
}.

Lemma string_above m k cs : forall a, (0 < k)%nat -> string_at m k a cs -> (length cs < above a m)%nat.
Proof.
  intros a Hk. revert a. assert (forall a c bs, at_bytes m a (le_split k c ++ bs) -> is_Some (m !! a)) as First.
  { intros a c bs [H _]%at_bytes_app. destruct k as [|k']; [lia|]. cbn [le_split] in H. apply at_bytes_cons in H as [H _]. by eexists. }
  induction cs as [|c cs IH]; intros a H.
  - destruct H as [_ H]. cbn [app] in H. rewrite chars_cons in H. pose proof (above_lt a (a + 1) m (First _ _ _ H) ltac:(lia)). cbn. lia.
  - pose proof H as (_ & _ & H'%IH)%string_cons. destruct H as [_ H]. cbn [app] in H. rewrite chars_cons in H.
    pose proof (above_lt a (a + Z.of_nat k) m (First _ _ _ H) ltac:(lia)). cbn. lia.
Qed.
Lemma string_turns m k a cs : (0 < k)%nat -> string_at m k a cs -> (length cs < turns m)%nat.
Proof. intros Hk H. pose proof (string_above m k cs a Hk H). pose proof (above_turns a m). lia. Qed.
Lemma string_drop m k a cs cs' : string_at m k a (cs ++ cs') -> string_at m k (a + Z.of_nat k * len cs) cs'.
Proof.
  intros [H1 H2]. apply Forall_app in H1 as [_ H1]. split; [done|]. rewrite <- app_assoc, chars_app in H2.
  apply at_bytes_app in H2 as [_ H2]. by rewrite chars_length in H2.
Qed.

(** The head of what follows, the end of the string included. *)
Definition head_is (p : Z -> bool) (cs : list Z) : bool := match cs with c :: _ => p c | [] => p 0 end.
Lemma load_head m k a cs : string_at m k a cs ->
  exists c, load k a m = Ok (c, m) /\ 0 <= c < 256 ^ Z.of_nat k /\ forall p, p c = head_is p cs.
Proof.
  intros H. destruct cs as [|c cs].
  - exists 0. rewrite (string_nil m k a H). split_and!; [done|lia| |done]. apply Z.pow_pos_nonneg; lia.
  - apply string_cons in H as (Hc & E & _). unfold char_ok in Hc. exists c. split_and!; [done|lia|lia|done].
Qed.
Lemma span_head p l : p 0 = false -> head_is p (span p l).2 = false.
Proof. intros H0. destruct (span p l).2 as [|c l'] eqn:E; [done|]. cbn. by apply (span_stops p l c l'). Qed.

Lemma skip_ok k p ps : forall fuel m a cs, (length ps <= fuel)%nat -> string_at m k a (ps ++ cs) ->
  Forall (fun c => p c = true) ps -> head_is p cs = false -> skip fuel k p a m = Ok (a + Z.of_nat k * len ps, m).
Proof.
  induction ps as [|c ps IH]; intros fuel m a cs Hf Hs Hp Hh.
  - destruct (load_head m k a cs Hs) as (c & E & _ & Hc). destruct fuel; cbn [skip]; rewrite (Mbind_Ok _ _ _ _ _ E), Hc, Hh; unfold Mret;
      by rewrite Z.mul_0_r, Z.add_0_r.
  - destruct fuel as [|fuel]; [cbn in Hf; lia|]. apply Forall_cons in Hp as [Hc Hp]. apply string_cons in Hs as (_ & E & Hs).
    cbn [skip]. rewrite (Mbind_Ok _ _ _ _ _ E), Hc. cbn [length] in *. rewrite (IH fuel m _ cs); [|lia|done..]. do 2 f_equal. lia.
Qed.

Lemma value_ge b n vs : 1 <= b -> 0 <= n -> Forall (fun v => 0 <= v) vs -> n <= value b n vs.
Proof.
  intros Hb. revert n. induction vs as [|v vs IH]; intros n Hn Hv; [cbn; lia|]. apply Forall_cons in Hv as [Hv Hvs]. cbn.
  assert (b * n + v <= value b (b * n + v) vs) by (apply IH; [nia|done]). unfold value in *. nia.
Qed.

Lemma number_loop_ok k w b r : radix_ok r b w -> forall ds fuel m a n cs, (length ds <= fuel)%nat -> string_at m k a (ds ++ cs) ->
  Forall (fun c => is_digit r c = true) ds -> head_is (is_digit r) cs = false -> 0 <= n < 2 ^ w ->
  exists st n' i, number_loop fuel k w r n a m = Ok ((st, (n', a + Z.of_nat k * Z.of_nat i)), m) /\
    read_number b w n (digit_value r <$> ds) (st, (n', i)).
Proof.
  intros R. induction ds as [|c ds IH]; intros fuel m a n cs Hf Hs Hd Hh Hn.
  - destruct (load_head m k a cs Hs) as (c & E & _ & Hc). exists EFI_SUCCESS, n, 0%nat. split; [|left; split; [cbn; lia|done]].
    destruct fuel; cbn [number_loop]; rewrite (Mbind_Ok _ _ _ _ _ E), Hc, Hh; unfold Mret; by rewrite Z.mul_0_r, Z.add_0_r.
  - destruct fuel as [|fuel]; [cbn in Hf; lia|]. apply Forall_cons in Hd as [Hc Hd]. apply string_cons in Hs as (_ & E & Hs).
    pose proof (rx_value r b w R c Hc) as Hv. pose proof (rx_base r b w R) as Hb. set (v := digit_value r c) in *.
    assert (Forall (fun v => 0 <= v) (digit_value r <$> ds)) as Hvs.
    { apply Forall_fmap. eapply Forall_impl; [exact Hd|]. intros x Hx. cbn. by apply (rx_value r b w R). }
    assert (of_outcome (room_for r v) m = Ok ((2 ^ w - 1 - v) / b, m)) as Er by (unfold of_outcome; by rewrite (rx_room r b w R v Hv)).
    cbn [number_loop]. rewrite (Mbind_Ok _ _ _ _ _ E), Hc. fold v. rewrite (Mbind_Ok _ _ _ _ _ Er).
    change (digit_value r <$> c :: ds) with (v :: (digit_value r <$> ds)). set (vs := digit_value r <$> ds) in *.
    destruct (Z.ltb_spec ((2 ^ w - 1 - v) / b) n) as [Ho|Ho].
    + assert (2 ^ w <= b * n + v) as Hover by (Z.div_mod_to_equations; nia).
      exists EFI_UNSUPPORTED, (2 ^ w - 1), 0%nat. rewrite Z.mul_0_r, Z.add_0_r. split; [done|]. right.
      pose proof (value_ge b (b * n + v) vs ltac:(lia) ltac:(nia) Hvs) as Hg. split; [unfold value in *; cbn; lia|].
      exists 0%nat. split; [done|]. split; [cbn [length]; lia|]. change (n < 2 ^ w <= b * n + v). lia.
    + assert (b * n + v < 2 ^ w) as Hfit by (Z.div_mod_to_equations; nia).
      assert (of_outcome (times_base r n) m = Ok (n * b, m)) as Et by (unfold of_outcome; by rewrite (rx_times r b w R n) by nia).
      rewrite (Mbind_Ok _ _ _ _ _ Et), wrapU_id by (unfold inU; nia). replace (n * b + v) with (b * n + v) by lia.
      destruct (IH fuel m (a + Z.of_nat k) (b * n + v) cs) as (st & n' & i & -> & Hr); [cbn in Hf; lia|done..|nia|].
      exists st, n', (S i).
      split; [by replace (a + Z.of_nat k + Z.of_nat k * Z.of_nat i) with (a + Z.of_nat k * Z.of_nat (S i)) by lia|]. destruct Hr as [[H1 [= -> -> ->]]|(H1 & j & [= -> -> ->] & H2 & H3)].
      * left. split; [exact H1|done].
      * right. split; [exact H1|]. exists (S j). split; [done|]. split; [cbn; lia|exact H3].
Qed.

(** The four kinds of numbers. *)
Section Radices.
Context (W : Z) `{Pcds : STRING_PCDS} (k : nat) (HW : 8 <= W).

Lemma digit_char c : is_decimal k c = ((48 <=? c) && (c <=? 57)).
Proof. unfold is_decimal. by destruct (k =? 2)%nat. Qed.
Lemma hex_char c : is_hex k c = ((48 <=? c) && (c <=? 57)) || ((65 <=? c) && (c <=? 70)) || ((97 <=? c) && (c <=? 102)).
Proof. unfold is_hex. by destruct (k =? 2)%nat. Qed.
Lemma hex_value_ok c : is_hex k c = true -> hex_value W k c = (if c <=? 57 then c - 48 else if c <=? 70 then c - 55 else c - 87).
Proof.
  rewrite hex_char. intros H. assert (2 ^ 8 <= 2 ^ W) by (apply Z.pow_le_mono_r; lia). change (2 ^ 8) with 256 in *.
  rewrite !orb_true_iff, !andb_true_iff, !Z.leb_le in H.
  assert (hex_value W k c = if (48 <=? c) && (c <=? 57) then c - 48 else wrapU W (10 + to_upper k c - 65)) as ->.
  { unfold hex_value, to_upper. by destruct (k =? 2)%nat. }
  assert (to_upper k c = if (97 <=? c) && (c <=? 122) then c - 32 else c) as ->.
  { unfold to_upper, CharToUpper, AsciiCharToUpper. destruct (k =? 2)%nat; case_match; rewrite ?wrapU_id by (unfold inU; lia); lia. }
  destruct (Z.leb_spec c 57); [by rewrite (proj2 (Z.leb_le 48 c)) by lia|]. rewrite andb_false_r.
  destruct (Z.leb_spec c 70).
  - rewrite (proj2 (Z.leb_gt 97 c)) by lia. cbn [andb]. rewrite wrapU_id by (unfold inU; lia). lia.
  - rewrite (proj2 (Z.leb_le 97 c)), (proj2 (Z.leb_le c 122)) by lia. cbn [andb]. rewrite wrapU_id by (unfold inU; lia). lia.
Qed.
Lemma decimal_range c : is_decimal k c = true -> 0 <= c - 48 < 10.
Proof. rewrite digit_char, andb_true_iff, !Z.leb_le. lia. Qed.
Lemma hex_range c : is_hex k c = true -> 0 <= hex_value W k c < 16.
Proof. intros H. rewrite hex_value_ok by done. rewrite hex_char, !orb_true_iff, !andb_true_iff, !Z.leb_le in H. repeat case_match; lia. Qed.

Lemma decimal_uintn_ok : radix_ok (decimal_uintn W k) 10 W.
Proof.
  split; [lia|lia|apply decimal_range|done|]. intros n Hn Hl. cbn. by rewrite wrapU_id by (unfold inU; lia).
Qed.
Lemma decimal_uint64_ok : radix_ok (decimal_uint64 k) 10 64.
Proof.
  split; [lia|lia|apply decimal_range|done|]. intros n Hn Hl. cbn. unfold MultU64x32, InternalMathMultU64x32. by rewrite wrapU_id by (unfold inU; lia).
Qed.
Lemma hex_uintn_ok : radix_ok (hex_uintn W k) 16 W.
Proof.
  split; [lia|lia|apply hex_range| |]; cbn.
  - intros d Hd. by rewrite Z.shiftr_div_pow2 by lia.
  - intros n Hn Hl. rewrite Z.shiftl_mul_pow2 by lia. change (2 ^ 4) with 16. by rewrite wrapU_id by (unfold inU; lia).
Qed.
Lemma hex_uint64_ok : radix_ok (hex_uint64 W k) 16 64.
Proof.
  split; [lia|lia|apply hex_range| |]; cbn [room_for times_base hex_uint64].
  - intros d Hd. rewrite RShiftU64_Ok, Z.shiftr_div_pow2 by lia. done.
  - intros n Hn Hl. rewrite LShiftU64_Ok, Z.shiftl_mul_pow2 by lia. change (2 ^ 4) with 16. by rewrite wrapU_id by (unfold inU; lia).
Qed.
End Radices.

Lemma rev_case (l : list Z) : l = [] \/ exists l' c, l = l' ++ [c].
Proof. induction l as [|c l _] using rev_ind; [by left|right; by eexists _, _]. Qed.

Section Numbers.
Context (W : Z) `{Pcds : STRING_PCDS} (k : nat) (m : mem) (a : Z) (cs : list Z).
Hypothesis Hk : k = 1%nat \/ k = 2%nat.
Hypothesis Ha : a <> 0.
Hypothesis Ea : even_for k a.
Hypothesis HR : 0 <= rsize_max k < 2 ^ 32 - 1.
Hypothesis Hs : string_at m k a cs.

Definition too_long : bool := negb (rsize_max k =? 0) && (rsize_max k <? len cs).
Lemma number_checks_ok c : number_checks k a true c m = if too_long then Ok ((EFI_INVALID_PARAMETER, None), m) else c m.
Proof.
  unfold number_checks, too_long. rewrite assert_aligned_ok by done. rewrite (proj2 (Z.eqb_neq a 0)) by done. cbn [negb].
  destruct (Z.eqb_spec (rsize_max k) 0); [done|]. rewrite wrapU_id by (unfold inU; lia).
  assert (0 <= rsize_max k + 1) as H1 by lia.
  rewrite (Mbind_Ok _ _ _ _ _ (string_length_ok m k a cs (rsize_max k + 1) Ea H1 (fun _ => Hs))).
  rewrite (proj2 (Z.eqb_neq a 0)) by done. cbn [negb andb].
  destruct (Z.ltb_spec (rsize_max k) (len cs)); [by rewrite (proj2 (Z.leb_gt _ _)) by lia|by rewrite (proj2 (Z.leb_le _ _)) by lia].
Qed.

Lemma char_after l c l' : cs = l ++ c :: l' -> load k (a + Z.of_nat k * len l) m = Ok (c, m).
Proof. intros E. rewrite E in Hs. apply string_drop in Hs as Hd. by apply string_cons in Hd as (_ & H & _). Qed.
Lemma string_after l l' : cs = l ++ l' -> string_at m k (a + Z.of_nat k * len l) l'.
Proof. intros E. rewrite E in Hs. by apply string_drop. Qed.

(** Padding and zeros, and what follows. *)
Definition after_pads : list Z := (span is_pad cs).2.
Definition after_zeros : list Z := (span is_zero after_pads).2.
Definition skipped : list Z := (span is_pad cs).1 ++ (span is_zero after_pads).1.
Lemma skipped_app : cs = skipped ++ after_zeros.
Proof. unfold skipped, after_zeros, after_pads. rewrite <- app_assoc, <- span_app. apply span_app. Qed.

Lemma kpos : (0 < k)%nat.
Proof. lia. Qed.
Lemma turns_enough (l : list Z) : (length l <= length cs)%nat -> (length l <= turns m)%nat.
Proof. pose proof (string_turns m k a cs kpos Hs). lia. Qed.

Lemma skip_both {B} (q : Z -> M mem B) :
  (let! String := skip (turns m) k is_pad a in let! String := skip (turns m) k is_zero String in q String) m =
  q (a + Z.of_nat k * len skipped) m.
Proof.
  pose proof (span_app is_pad cs) as E1. fold after_pads in E1. pose proof (span_app is_zero after_pads) as E2. fold after_zeros in E2.
  assert (length cs = length (span is_pad cs).1 + length (span is_zero after_pads).1 + length after_zeros)%nat as L.
  { rewrite E1 at 1. rewrite length_app. rewrite E2 at 1. rewrite length_app. lia. }
  rewrite (Mbind_Ok _ _ m (a + Z.of_nat k * len (span is_pad cs).1) m).
  2:{ apply (skip_ok k is_pad _ _ m a after_pads); [apply turns_enough; lia|by rewrite <- E1|apply span_all|by apply span_head]. }
  rewrite (Mbind_Ok _ _ m (a + Z.of_nat k * len skipped) m); [done|].
  rewrite (skip_ok k is_zero (span is_zero after_pads).1 _ m _ after_zeros);
    [|apply turns_enough; lia|rewrite <- E2; by apply string_after|apply span_all|by apply span_head].
  unfold skipped. rewrite length_app. do 2 f_equal. lia.
Qed.

(** The digits that follow [l]. *)
Lemma digits_after b w r l l' : radix_ok r b w -> is_digit r 0 = false -> cs = l ++ l' ->
  let vs := digit_value r <$> (span (is_digit r) l').1 in
  exists st n i, number_loop (turns m) k w r 0 (a + Z.of_nat k * len l) m = Ok ((st, (n, a + Z.of_nat k * (len l + Z.of_nat i))), m) /\
    read_number b w 0 vs (st, (n, i)).
Proof.
  intros R Z0 E vs. pose proof (span_app (is_digit r) l') as E1.
  destruct (number_loop_ok k w b r R (span (is_digit r) l').1 (turns m) m (a + Z.of_nat k * len l) 0 (span (is_digit r) l').2)
    as (st & n & i & En & Hr).
  - apply turns_enough. pose proof (f_equal length E1) as L1. rewrite length_app in L1. rewrite E, length_app. lia.
  - rewrite <- E1. by apply string_after.
  - apply span_all.
  - by apply span_head.
  - pose proof (rx_width r b w R). split; [lia|]. apply Z.pow_pos_nonneg; lia.
  - exists st, n, i. split; [|done]. rewrite En. by replace (a + Z.of_nat k * len l + Z.of_nat k * Z.of_nat i)
      with (a + Z.of_nat k * (len l + Z.of_nat i)) by lia.
Qed.

Lemma decimal_number_ok b w r : radix_ok r b w -> is_digit r 0 = false ->
  if too_long then decimal_number k w r a true m = Ok ((EFI_INVALID_PARAMETER, None), m)
  else exists st n i, decimal_number k w r a true m = Ok ((st, Some (n, a + Z.of_nat k * (len skipped + Z.of_nat i))), m) /\
    read_number b w 0 (digit_value r <$> (span (is_digit r) after_zeros).1) (st, (n, i)).
Proof.
  intros R Z0. unfold decimal_number. rewrite number_checks_ok. destruct too_long; [done|].
  rewrite (Mbind_Ok _ _ _ _ _ (eq_refl : Mget m = Ok (m, m))), skip_both.
  destruct (digits_after b w r skipped after_zeros R Z0 skipped_app) as (st & n & i & E & Hr). exists st, n, i. split; [|done].
  by rewrite (Mbind_Ok _ _ _ _ _ E).
Qed.

Definition is_x (c : Z) : bool := (c =? 88) || (c =? 120).
Lemma to_upper_x c : 0 <= c < 256 ^ Z.of_nat k -> (to_upper k c =? 88) = is_x c.
Proof.
  intros Hc. unfold is_x, to_upper, CharToUpper, AsciiCharToUpper.
  destruct Hk as [-> | ->]; cbn [Nat.eqb Z.of_nat] in *; change (256 ^ 1) with 256 in *; change (256 ^ Z.of_nat 2) with 65536 in *;
    apply eq_true_iff_eq; rewrite orb_true_iff, !Z.eqb_eq; case_match; rewrite ?wrapU_id by (unfold inU; lia); lia.
Qed.

(** With the letter x: it must come after a zero. *)
Definition x_before : Prop := head_is is_x cs = true -> exists c, load k (a - Z.of_nat k) m = Ok (c, m) /\ c <> 48.
Lemma before_x x l : after_zeros = x :: l -> is_x x = true -> x_before ->
  exists c, load k (a + Z.of_nat k * len skipped - Z.of_nat k) m = Ok (c, m) /\ (c = 48 <-> (span is_zero after_pads).1 <> []).
Proof.
  intros Ez Hx Hb. pose proof skipped_app as Es. rewrite Ez in Es. destruct (rev_case skipped) as [E|(l0 & c & E)].
  - destruct Hb as (c & Hc & Hne); [by rewrite Es, E|]. exists c. rewrite E. cbn [length]. rewrite Z.mul_0_r, Z.add_0_r. split; [done|].
    split; [done|]. intros Hz. destruct Hz. unfold skipped in E. by apply app_nil in E as [_ E].
  - exists c. pose proof E as E'. rewrite Es, E, <- app_assoc in Hs. split.
    { rewrite E, length_app. cbn [length]. apply string_drop in Hs as Hd. cbn [app] in Hd. apply string_cons in Hd as (_ & H & _).
      by replace (a + Z.of_nat k * Z.of_nat (length l0 + 1) - Z.of_nat k) with (a + Z.of_nat k * len l0) by lia. }
    unfold skipped in E. pose proof (span_all is_zero after_pads) as Hz. pose proof (span_all is_pad cs) as Hp.
    destruct (rev_case (span is_zero after_pads).1) as [Ezs|(z0 & z & Ezs)]; rewrite Ezs in E, Hz |- *.
    + rewrite app_nil_r in E. rewrite E in Hp. apply Forall_app in Hp as [_ [Hc _]%Forall_cons]. split; [|done]. intros ->. done.
    + rewrite app_assoc in E. apply app_inj_tail in E as [_ ->]. apply Forall_app in Hz as [_ [Hc _]%Forall_cons].
      split; [|intros _; unfold is_zero in Hc; lia]. intros _. by destruct z0.
Qed.
Lemma hex_number_ok b w r : radix_ok r b w -> is_digit r 0 = false -> x_before ->
  let zs := (span is_zero after_pads).1 in
  if too_long then hex_number k w r a true m = Ok ((EFI_INVALID_PARAMETER, None), m)
  else if head_is is_x after_zeros && bool_decide (zs = []) then hex_number k w r a true m = Ok ((EFI_SUCCESS, Some (0, a)), m)
  else
    let x : nat := if head_is is_x after_zeros then 1%nat else 0%nat in
    exists st n i, hex_number k w r a true m = Ok ((st, Some (n, a + Z.of_nat k * (len skipped + Z.of_nat x + Z.of_nat i))), m) /\
      read_number b w 0 (digit_value r <$> (span (is_digit r) (drop x after_zeros)).1) (st, (n, i)).
Proof.
  intros R Z0 Hx zs. unfold hex_number. rewrite number_checks_ok. destruct too_long; [done|].
  rewrite (Mbind_Ok _ _ _ _ _ (eq_refl : Mget m = Ok (m, m))), skip_both.
  pose proof skipped_app as Es. destruct (load_head m k _ _ (string_after skipped after_zeros Es)) as (c & Ec & Hr & Hc).
  rewrite (Mbind_Ok _ _ _ _ _ Ec). assert ((to_upper k c =? 88) = head_is is_x after_zeros) as ->.
  { rewrite <- Hc. by apply to_upper_x. }
  destruct (head_is is_x after_zeros) eqn:Eh; cbn [andb].
  2:{ rewrite drop_0. clear Hr. destruct (digits_after b w r skipped after_zeros R Z0 Es) as (st & n & i & E & Hr). exists st, n, i. split; [|done].
      rewrite (Mbind_Ok _ _ _ _ _ E). by rewrite Z.add_0_r. }
  destruct after_zeros as [|x l3] eqn:Ez; [done|]. clear c Ec Hr Hc. case_bool_decide as Hz.
  - destruct (before_x x l3 Ez Eh Hx) as (c & E & Hc). rewrite (Mbind_Ok _ _ _ _ _ E). destruct (Z.eqb_spec c 48); [tauto|done].
  - destruct (before_x x l3 Ez Eh Hx) as (c & E & Hc). rewrite (Mbind_Ok _ _ _ _ _ E). destruct (Z.eqb_spec c 48); [cbn [negb]|tauto].
    destruct (digits_after b w r (skipped ++ [x]) l3 R Z0) as (st & n & i & En & Hr); [by rewrite <- app_assoc|]. exists st, n, i.
    rewrite length_app in En. cbn [length] in En. split; [|done].
    replace (a + Z.of_nat k * len skipped + Z.of_nat k) with (a + Z.of_nat k * Z.of_nat (length skipped + 1)) by lia.
    rewrite (Mbind_Ok _ _ _ _ _ En). by rewrite Nat2Z.inj_add.
Qed.
End Numbers.

(** ** The properties *)

(** Arguments that a caller may pass: pointers with the alignment that is
    asked for, buffers of the given sizes that do not wrap around, and a source
    that is a string. *)
Record string_args (W : Z) (k : nat) (m : mem) (D DestMax S : Z) (cs : list Z) : Prop := {
  sa_kind : k = 1%nat \/ k = 2%nat;
  sa_dest : 0 <= D /\ 0 <= DestMax /\ D + Z.of_nat k * DestMax < 2 ^ W;
  sa_source : 0 <= S /\ S + Z.of_nat k * (len cs + 1) < 2 ^ W;
  sa_even : even_for k D /\ even_for k S;
  sa_room : D <> 0 -> mapped m D (Z.of_nat k * DestMax);
  sa_string : S <> 0 -> string_at m k S cs
}.

(** C36 StrCpyS, StrnCpyS, StrCatS and StrnCatS, and the same four for ASCII strings,
    return the documented status for every combination of arguments.  Only when they return
    RETURN_SUCCESS do they touch memory: then the destination holds the string that was there, if
    they append, followed by the source or by its first Length characters, and the zero; nothing
    outside of the destination changes.  They refuse NULL, sizes above the PCD, a destination
    that is full or too small, and buffers that overlap, and never read the source behind its
    end or behind the characters that are asked for. *)
Theorem Str_copy W `{Pcds : STRING_PCDS} k m D DestMax S cs ds Length : string_args W k m D DestMax S cs -> 0 <= Length ->
  let wide := (k =? 2)%nat in
  (if wide then StrCpyS W else AsciiStrCpyS W) D DestMax S m = outcome_of k D m (copied k D DestMax S [] cs None) /\
  (if wide then StrnCpyS W else AsciiStrnCpyS W) D DestMax S Length m = outcome_of k D m (copied k D DestMax S [] cs (Some Length)) /\
  ((D <> 0 -> string_at m k D ds) ->
   (if wide then StrCatS W else AsciiStrCatS W) D DestMax S m = outcome_of k D m (copied k D DestMax S ds cs None) /\
   (if wide then StrnCatS W else AsciiStrnCatS W) D DestMax S Length m = outcome_of k D m (copied k D DestMax S ds cs (Some Length))).
Proof.
  intros [K (D1 & D2 & D3) [S1 S2] [E1 E2] R Str] HL wide. assert (0 < k)%nat by lia.
  split; [|split; [|intros Hd; split]].
  - etrans; [|by apply (copy_string_ok W k m D DestMax S cs)]. by destruct K as [-> | ->].
  - etrans; [|by apply (copy_part_ok W k m D DestMax S cs)]. by destruct K as [-> | ->].
  - etrans; [|by apply (append_string_ok W k m D DestMax S cs)]. by destruct K as [-> | ->].
  - etrans; [|by apply (append_part_ok W k m D DestMax S cs)]. by destruct K as [-> | ->].
Qed.

(** The functions for numbers: which of them, by the size of a character. *)
Definition decimal_function (W : Z) `{STRING_PCDS} (k : nat) (native : bool) : Z -> bool -> M mem (EFI_STATUS * option (Z * Z)) :=
  match (k =? 2)%nat, native with
  | true, true => StrDecimalToUintnS W
  | true, false => StrDecimalToUint64S
  | false, true => AsciiStrDecimalToUintnS W
  | false, false => AsciiStrDecimalToUint64S
  end.
Definition hex_function (W : Z) `{STRING_PCDS} (k : nat) (native : bool) : Z -> bool -> M mem (EFI_STATUS * option (Z * Z)) :=
  match (k =? 2)%nat, native with
  | true, true => StrHexToUintnS W
  | true, false => StrHexToUint64S W
  | false, true => AsciiStrHexToUintnS W
  | false, false => AsciiStrHexToUint64S W
  end.
Definition decimal_digit (c : Z) : bool := (48 <=? c) && (c <=? 57).
Definition hex_digit (c : Z) : bool := decimal_digit c || ((65 <=? c) && (c <=? 70)) || ((97 <=? c) && (c <=? 102)).
Definition hex_digit_value (c : Z) : Z := if c <=? 57 then c - 48 else if c <=? 70 then c - 55 else c - 87.

Lemma span_ext p q l : (forall c, p c = q c) -> span p l = span q l.
Proof. intros H. induction l as [|c l IH]; [done|]. cbn. by rewrite H, IH. Qed.
Lemma hex_values W k l : 8 <= W -> hex_value W k <$> (span (is_hex k) l).1 = hex_digit_value <$> (span hex_digit l).1.
Proof.
  intros HW. rewrite <- (span_ext (is_hex k) hex_digit l) by apply hex_char. apply list_fmap_ext. intros i c Hc.
  apply (hex_value_ok W k HW). pose proof (span_all (is_hex k) l) as F. by eapply Forall_lookup in F.
Qed.

(** An x right after the padding is one without a zero. *)
Lemma x_no_zero cs : head_is is_x (after_pads cs) =
  head_is is_x (after_zeros cs) && bool_decide ((span is_zero (after_pads cs)).1 = []).
Proof.
  unfold after_zeros. destruct (after_pads cs) as [|c l]; [done|]. cbn [span head_is]. destruct (is_zero c) eqn:E.
  - assert (is_x c = false) as -> by (unfold is_zero, is_x in *; lia).
    destruct (span is_zero l). cbn. by rewrite andb_false_r.
  - cbn. by rewrite andb_true_r.
Qed.

(** C37 The eight functions that read a number from a string, decimal or
    hexadecimal, to a UINTN or a UINT64, from Unicode or ASCII, read exactly the number that is
    there, for strings that have a digit (a zero counts) right after the optional spaces and tabs.
    After these and the zeros (and, for hexadecimal numbers, the letter x after a zero) the digits
    up to the first character that is not one are the number: if it fits, it is stored with
    RETURN_SUCCESS and the end is behind its last digit; if it does not fit, the largest value is
    stored with RETURN_UNSUPPORTED and the end is at the first digit with which the number is too
    large.  For hexadecimal numbers, an x without a zero makes the number 0 and the end the start of
    the string; when the x is the first character of the string, the functions look at the
    character before the string, which must be readable and no zero ([x_before]).  A string longer
    than the PCD is refused, with digits or without.  Memory is only read.  Strings without a digit
    after the padding are outside of this property (see [no_digits]). *)
Theorem Str_numbers W `{Pcds : STRING_PCDS} k native m a cs : 8 <= W -> k = 1%nat \/ k = 2%nat -> a <> 0 -> even_for k a ->
  0 <= rsize_max k < 2 ^ 32 - 1 -> string_at m k a cs ->
  let w := if native : bool then W else 64 in
  let K := Z.of_nat k in
  let rest := after_zeros cs in
  let n0 := len (skipped cs) in
  (if too_long k cs then decimal_function W k native a true m = Ok ((EFI_INVALID_PARAMETER, None), m)
   else head_is decimal_digit (after_pads cs) = true ->
     exists Status n i, decimal_function W k native a true m = Ok ((Status, Some (n, a + K * (n0 + Z.of_nat i))), m) /\
     read_number 10 w 0 ((fun c => c - 48) <$> (span decimal_digit rest).1) (Status, (n, i))) /\
  (x_before k m a cs ->
   if too_long k cs then hex_function W k native a true m = Ok ((EFI_INVALID_PARAMETER, None), m)
   else if head_is is_x (after_pads cs) then hex_function W k native a true m = Ok ((EFI_SUCCESS, Some (0, a)), m)
   else head_is hex_digit (after_pads cs) = true ->
     let x : nat := if head_is is_x rest then 1%nat else 0%nat in
     exists Status n i, hex_function W k native a true m = Ok ((Status, Some (n, a + K * (n0 + Z.of_nat x + Z.of_nat i))), m) /\
       read_number 16 w 0 (hex_digit_value <$> (span hex_digit (drop x rest)).1) (Status, (n, i))).
Proof.
  intros HW Hk Ha Ea HR Hs w K rest n0. split; [|intros Hx].
  - pose proof (decimal_number_ok k m a cs Hk Ha Ea HR Hs 10 w (if native then decimal_uintn W k else decimal_uint64 k)) as P.
    assert (decimal_number k w (if native then decimal_uintn W k else decimal_uint64 k) = decimal_function W k native) as Ef
      by (by destruct Hk as [-> | ->], native). rewrite Ef in P.
    rewrite <- (span_ext (is_decimal k) decimal_digit) by apply digit_char.
    destruct (too_long k cs); [|intros _];
      destruct native; apply P; (by apply decimal_uintn_ok) || (by apply decimal_uint64_ok) || (by destruct Hk as [-> | ->]).
  - pose proof (hex_number_ok k m a cs Hk Ha Ea HR Hs 16 w (if native then hex_uintn W k else hex_uint64 W k)) as P.
    assert (hex_number k w (if native then hex_uintn W k else hex_uint64 W k) = hex_function W k native) as Ef
      by (by destruct Hk as [-> | ->], native). rewrite Ef in P. cbn zeta in P |- *. rewrite <- x_no_zero in P. rewrite <- !(hex_values W k) by done.
    destruct (too_long k cs); [|destruct (head_is is_x (after_pads cs)); [|intros _]];
      destruct native; apply P; (by apply hex_uintn_ok) || (by apply hex_uint64_ok) || (by destruct Hk as [-> | ->]) || done.
Qed.

(** ** Between the two kinds of strings *)

Lemma convert_checks (e : bool) (st : EFI_STATUS) (c : M mem EFI_STATUS) m : e = true -> (if e then c else Mret st) m = c m.
Proof. by intros ->. Qed.

Lemma widened W `{Pcds : STRING_PCDS} m S cs D DestMax : 0 < S -> 0 < D -> even_for 2 D -> string_at m 1 S cs -> len cs < DestMax ->
  within DestMax RSIZE_MAX = true -> within DestMax ASCII_RSIZE_MAX = true ->
  S + (len cs + 1) < 2 ^ W -> D + 2 * DestMax < 2 ^ W -> mapped m D (2 * DestMax) -> (S + (len cs + 1) <= D \/ D + 2 * DestMax <= S) ->
  AsciiStrToUnicodeStrS W S D DestMax m = Ok (EFI_SUCCESS, blit D (chars 2 (cs ++ [0])) m).
Proof.
  intros HS HD He Hs Hl R1 R2 HSW HDW Hm Hd. unfold AsciiStrToUnicodeStrS. rewrite assert_aligned_ok by done.
  rewrite (proj2 (Z.eqb_neq D 0)), (proj2 (Z.eqb_neq S 0)), R1, R2, (proj2 (Z.eqb_neq DestMax 0)) by lia. cbn [negb].
  rewrite (Mbind_Ok _ _ _ _ _ (string_length_ok m 1 S cs DestMax ltac:(done) ltac:(lia) (fun _ => Hs))).
  rewrite (proj2 (Z.eqb_neq S 0)), Z.min_l, (proj2 (Z.ltb_lt _ _)) by lia. rewrite !wrapU_id by (unfold inU; lia).
  unfold InternalSafeStringIsOverlap. rewrite !wrapU_id by (unfold inU; lia).
  rewrite convert_checks by (rewrite negb_true_iff, orb_false_iff, !andb_false_iff, !Z.leb_gt, !Z.ltb_ge; lia).
  rewrite (Mbind_Ok _ _ m tt (blit D (chars 2 (cs ++ [0])) m)); [done|]. apply move_all_ok; [lia|by apply Forall_true|done|].
  split; [apply (mapped_sub _ _ _ _ _ Hm); lia|lia].
Qed.
Lemma narrowed W `{Pcds : STRING_PCDS} m S cs D DestMax : 0 < S -> 0 < D -> even_for 2 S -> string_at m 2 S cs -> Forall (fun c => c < 256) cs ->
  len cs < DestMax -> within DestMax RSIZE_MAX = true -> within DestMax ASCII_RSIZE_MAX = true ->
  S + 2 * (len cs + 1) < 2 ^ W -> D + DestMax < 2 ^ W -> mapped m D DestMax -> (S + 2 * (len cs + 1) <= D \/ D + DestMax <= S) ->
  UnicodeStrToAsciiStrS W S D DestMax m = Ok (EFI_SUCCESS, blit D (chars 1 (cs ++ [0])) m).
Proof.
  intros HS HD He Hs H256 Hl R1 R2 HSW HDW Hm Hd. unfold UnicodeStrToAsciiStrS. rewrite assert_aligned_ok by done.
  rewrite (proj2 (Z.eqb_neq D 0)), (proj2 (Z.eqb_neq S 0)), R1, R2, (proj2 (Z.eqb_neq DestMax 0)) by lia. cbn [negb].
  rewrite (Mbind_Ok _ _ _ _ _ (string_length_ok m 2 S cs DestMax He ltac:(lia) (fun _ => Hs))).
  rewrite (proj2 (Z.eqb_neq S 0)), Z.min_l, (proj2 (Z.ltb_lt _ _)) by lia. rewrite (wrapU_id W (len cs + 1)), wrapU_id by (unfold inU; lia).
  unfold InternalSafeStringIsOverlap. rewrite !wrapU_id by (unfold inU; lia).
  rewrite convert_checks by (rewrite negb_true_iff, orb_false_iff, !andb_false_iff, !Z.leb_gt, !Z.ltb_ge; lia).
  rewrite (Mbind_Ok _ _ m tt (blit D (chars 1 (cs ++ [0])) m)); [done|]. apply move_all_ok; [lia| |done|].
  - eapply Forall_impl; [exact H256|]. intros c Hc. by apply Z.ltb_lt.
  - split; [apply (mapped_sub _ _ _ _ _ Hm); lia|lia].
Qed.

(** An ASCII string that is widened and narrowed again is the same string. *)
Theorem Str_convert W `{Pcds : STRING_PCDS} m S cs D E DestMax : 0 < S -> 0 < D -> 0 < E -> even_for 2 D -> string_at m 1 S cs -> len cs < DestMax ->
  within DestMax RSIZE_MAX = true -> within DestMax ASCII_RSIZE_MAX = true ->
  S + (len cs + 1) < 2 ^ W -> D + 2 * DestMax < 2 ^ W -> E + DestMax < 2 ^ W -> mapped m D (2 * DestMax) -> mapped m E DestMax ->
  (S + (len cs + 1) <= D \/ D + 2 * DestMax <= S) -> (D + 2 * DestMax <= E \/ E + DestMax <= D) ->
  exists m1 m2, AsciiStrToUnicodeStrS W S D DestMax m = Ok (EFI_SUCCESS, m1) /\ string_at m1 2 D cs /\
    UnicodeStrToAsciiStrS W D E DestMax m1 = Ok (EFI_SUCCESS, m2) /\ string_at m2 1 E cs.
Proof.
  intros HS HD HE He Hs Hl R1 R2 HSW HDW HEW HmD HmE Hd1 Hd2. eexists _, _. split; [by apply widened|].
  assert (string_at (blit D (chars 2 (cs ++ [0])) m) 2 D cs) as H2.
  { split; [|apply at_bytes_blit]. destruct Hs as [Ho _]. eapply Forall_impl; [exact Ho|].
    unfold char_ok. change (256 ^ Z.of_nat 1) with 256. change (256 ^ Z.of_nat 2) with 65536. cbn beta. lia. }
  split; [done|]. split.
  - apply narrowed; try done; [|lia|by apply mapped_blit|lia]. destruct Hs as [Ho _]. eapply Forall_impl; [exact Ho|].
    unfold char_ok. change (256 ^ Z.of_nat 1) with 256. change (256 ^ Z.of_nat 2) with 65536. cbn beta. lia.
  - split; [apply Hs|apply at_bytes_blit].
Qed.

(** ** Witnesses *)

#[local] Instance bench_pcds : STRING_PCDS := mkPcds 1000000 1000000.
Definition foo : list Z := [102; 111; 111].
Definition bar : list Z := [98; 97; 114].
Definition string_bench : mem := blit 32 (chars 2 (foo ++ [0])) (blit 32 (replicate 16 0) (blit 100 (chars 2 (bar ++ [0])) ∅)).
Lemma bench_bar : string_at string_bench 2 100 bar.
Proof.
  split; [by repeat constructor|]. do 2 (apply at_bytes_blit_other; [|right; by vm_compute]). apply at_bytes_blit.
Qed.
Lemma bench_foo : string_at string_bench 2 32 foo.
Proof. split; [by repeat constructor|]. apply at_bytes_blit. Qed.
Lemma bench_args : string_args 64 2 string_bench 32 8 100 bar.
Proof.
  split; [by right|by vm_compute|by vm_compute|done| |intros _; exact bench_bar].
  intros _. unfold string_bench. apply mapped_blit. intros x Hx. rewrite lookup_blit_in by (cbn; lia). apply lookup_lt_is_Some. cbn. lia.
Qed.

(** "foo" and "bar", and the first two letters of "bar". *)
Lemma Str_copy_witness :
  StrCatS 64 32 8 100 string_bench = Ok (EFI_SUCCESS, blit 32 (chars 2 (foo ++ bar ++ [0])) string_bench) /\
  StrnCpyS 64 32 8 100 2 string_bench = Ok (EFI_SUCCESS, blit 32 (chars 2 [98; 97; 0]) string_bench).
Proof.
  destruct (Str_copy 64 2 string_bench 32 8 100 bar foo 2 bench_args ltac:(lia)) as (_ & P & Q).
  destruct (Q (fun _ => bench_foo)) as [C _]. split; [exact C|exact P].
Defined.

(** " 0x1F;" *)
Definition hex_text : list Z := [32; 48; 120; 49; 70; 59].
Definition hex_bench (k : nat) : mem := blit 16 (chars k (hex_text ++ [0])) ∅.
Lemma Str_numbers_witness : StrHexToUintnS 64 16 true (hex_bench 2) = Ok ((EFI_SUCCESS, Some (31, 26)), hex_bench 2).
Proof.
  destruct (Str_numbers 64 2 true (hex_bench 2) 16 hex_text) as [_ H]; [lia|by right|done|done|by vm_compute| |].
  - split; [by repeat constructor|apply at_bytes_blit].
  - destruct H as (st & n & i & E & Hr); [intros Hx; by vm_compute in Hx|done|]. etrans; [exact E|].
    destruct Hr as [[_ [= -> -> ->]]|[Hbig _]]; [by vm_compute|]. by vm_compute in Hbig.
Defined.

(** ** Corners *)

(** "x10" has no zero, but there is one in memory before the string: it is
    read as 0x10. *)
Example x_without_zero : AsciiStrHexToUintnS 64 17 true (blit 16 (chars 1 [48; 120; 49; 48; 0]) ∅) =
  Ok ((EFI_SUCCESS, Some (16, 20)), blit 16 (chars 1 [48; 120; 49; 48; 0]) ∅).
Proof. by vm_compute. Qed.
(** Without memory before the string. *)
Example x_first : AsciiStrHexToUintnS 64 16 true (blit 16 (chars 1 [120; 49; 48; 0]) ∅) = Fault.
Proof. by vm_compute. Qed.
(** " ab": there is no digit, and the end is behind the space. *)
Example no_digits : AsciiStrDecimalToUintnS 64 16 true (blit 16 (chars 1 [32; 97; 98; 0]) ∅) =
  Ok ((EFI_SUCCESS, Some (0, 17)), blit 16 (chars 1 [32; 97; 98; 0]) ∅).
Proof. by vm_compute. Qed.
(** "300" does not fit in 8 bits. *)
Example three_hundred : AsciiStrDecimalToUintnS 8 16 true (blit 16 (chars 1 [51; 48; 48; 0]) ∅) =
  Ok ((EFI_UNSUPPORTED, Some (255, 18)), blit 16 (chars 1 [51; 48; 48; 0]) ∅).
Proof. by vm_compute. Qed.
